(* ===== verification/_CoqProject ===== *)
-Q . S2P
Prelude.v
Bits.v
Bitmap.v
BitmapSpec.v
Memcpy.v
RingCore.v
RingCopy.v
RingHeadTail.v
RingElem.v
RingSpec.v
RingConc.v
RingConcSpec.v
RingConcExact.v
RingConcThm.v
RingHtsConc.v
RingRtsConc.v
RingRtsSpec.v
RingRtsThm.v
RingPeek.v
Locks.v
RecLocks.v
McsLock.v
PfLock.v
Lpm.v
Red.v
Lru.v
Reciprocal.v
Sched.v
AvpFifo.v
Graph.v
GraphSpec.v
GraphThm.v
Meter.v
MeterSpec.v
Rcu.v
RcuSpec.v
RcuThm.v
Stack.v
StackSpec.v
StackSim.v
StackThm.v
StackSeq.v
Mempool.v
MbufCore.v
Bytes.v
Mbuf.v
MbufSpec.v
MbufEdit.v
MbufPool.v
MbufFields.v
FbkHash.v
FbkHashSpec.v
HashCrc.v
HashCrcSpec.v
TableHash.v
Thash.v
Jhash.v
JhashSpec.v
Cksum.v
CksumSpec.v
NetPrep.v
Ether.v
Ethdev.v
World.v
Port.v
Vote.v
VoteSpec.v
Recv.v
Send.v
SendSpec.v
