(* ===== verification/Prelude.v ===== *)
(** * Verification of the packet sender and receivers

    The repository holds three DPDK programs, [main.cpp] (a receiver that counts
    votes), [main_pkt_recv.cpp] (a receiver that prints) and
    [main_pkt_send.cpp] (a sender), helpers in [packet_utils.h] and
    [packet_utils.cpp], and under [include/] the DPDK headers they are compiled
    with.  The inline functions of these headers are compiled into the programs
    and are the code that handles every packet: rings, memory pools, packet
    buffers, the fast path of Ethernet devices.  This library models the
    programs and this part of the headers.

    ** How the parts interact

    A program starts the EAL, creates a pool of mbufs and starts port 0
    ([init_port]); then it runs for ever.  The receivers poll their queues with
    [rte_eth_rx_burst], read (and, for the votes, rewrite) the first eight bytes
    of every packet and release the mbuf with [rte_pktmbuf_free].  The sender
    runs one process per lcore, which allocates 64 mbufs, writes eight bytes in
    each, gives them to [rte_eth_tx_burst] and releases those the device did not
    take.  Allocation and release go through [rte_mempool_get] and
    [rte_mempool_put]: a cache per lcore in front of a common pool, for which
    DPDK uses a ring.

    ** The files

    - [Prelude]: machine integers ([wrap w], [swrap w]; [fits w]), the state
      monad with undefined behaviour ([M St A], [None] for an execution that does
      not return), loops with fuel, arrays; tactics ([minv], [bdestruct_all],
      [perm_count]) and the hint databases [wrap] and [wrapdb].
    - [Bits]: [rte_common.h], [rte_bitops.h] and [rte_byteorder.h]: alignment,
      powers of two, logarithms, bit operations, byte order.
    - [Bitmap], [BitmapSpec]: [rte_bitmap.h] on the contents of its two arrays;
      the set of bits that it implements, and the turns of its scan.
    - [Memcpy]: [rte_memcpy.h] for AVX512, AVX2 and SSE (modules [Avx512],
      [Avx2], [Sse]) on byte memory; the class [Moves] is the interface of the
      moves to the functions that are built from them.
    - [RingCore], [RingCopy], [RingHeadTail], [RingElem]: [rte_ring_core.h],
      [rte_ring_elem_pvt.h], the four head and tail protocols
      ([rte_ring_generic_pvt.h], [rte_ring_c11_pvt.h], [rte_ring_hts_elem_pvt.h],
      [rte_ring_rts_elem_pvt.h]) and the operations of [rte_ring.h],
      [rte_ring_elem.h], [rte_ring_hts.h] and [rte_ring_rts.h].  A ring is the
      record [rte_ring] with its slots as 32-bit words; the modules [Generic],
      [C11], [HTS] and [RTS] hold the protocols, and the class [HeadTail] is the
      interface they offer to the operations.
    - [RingSpec]: the abstract bounded queue and the refinement of every
      operation to it.
    - [RingConc]: any number of threads inside enqueue and dequeue on one ring,
      one memory access at a time.  [RingConcSpec]: the abstract queue with calls
      under way, which calls others have overlapped ([arun]), and the simulation.
      [RingConcExact]: a call that no other overlaps has its exact effect.
      [RingConcThm]: linearizability, progress,
      and the agreement of a thread that runs alone with [RingElem].
    - [RingHtsConc]: the same for the head/tail protocol of
      [rte_ring_hts_elem_pvt.h]; its steps are steps of the default protocol.
      [RingRtsConc]: the same for the relaxed tails of [rte_ring_rts_elem_pvt.h].
      [RingRtsSpec]: every call as a thread of the default protocol, which
      publishes when the tail moves.  [RingRtsThm]: the theorems.
    - [RingPeek]: [rte_ring_peek.h], [rte_ring_peek_zc.h] and
      [rte_ring_peek_elem_pvt.h]: enqueue and dequeue in two parts, with and
      without copy, and their theorems.
    - [Locks]: the spinlock, the reader-writer lock and the ticket lock, each a
      module with a program per thread and the interleavings of their steps.
      [RecLocks]: the recursive spinlock and ticket lock, one code over the
      interface [BaseLock] that the two locks implement.  [McsLock]: the queued
      lock of [rte_mcslock.h] on shared nodes; [PfLock]: the phase-fair lock of
      [rte_pflock.h]; both as programs of interleaved threads.
    - [AvpFifo]: [rte_avp_fifo.h], a queue between one writer and one reader whose
      accesses interleave.
    - [Graph]: [rte_graph_walk] and the enqueues of [rte_graph_worker.h], on a
      store of the streams of the nodes; the process functions are parameters.
      [GraphSpec]: the objects that wait at each node, and the invariant of a
      walk.  [GraphThm]: whole walks.
    - [Stack]: [rte_stack.h] with its two implementations, the array under a
      spinlock ([rte_stack_std.h]) and the lock-free lists ([rte_stack_lf.h] with
      [rte_stack_lf_generic.h] or [rte_stack_lf_c11.h]), the latter as a program
      per thread with one memory access at a time.  [StackSpec]: the abstract
      stack with calls under way ([astep]) and the invariant of the lists.
      [StackSim]: every step keeps it and is a step of the abstract stack.
      [StackThm]: whole runs, and the work left to a thread that runs alone.
      [StackSeq]: the sequential contract and the theorems.
    - [Meter], [MeterSpec]: the three traffic meters of [rte_meter.h], and the
      reference meters that add tokens one at a time.
    - [Rcu]: the readers and writers of [rte_rcu_qsbr.h], one memory access at a
      time.  [RcuSpec]: the sections of the readers as seen from the events, and
      the invariant.  [RcuThm]: grace periods and the end of checks.
    - [FbkHash], [FbkHashSpec]: [rte_fbk_hash.h] and the finite map it
      implements.  [Jhash], [JhashSpec]: [rte_jhash.h] and the hash [lookup3] of
      the bytes.  [HashCrc], [HashCrcSpec]: [rte_hash_crc.h] and the remainder of
      polynomials it computes; [TableHash]: [rte_table_hash_func.h]; [Thash]: the
      Toeplitz hash of [rte_thash.h].
    - [Lpm]: the lookups of [rte_lpm.h] and [rte_lpm_sse.h] on the two tables, and
      the rules that the tables hold.
    - [Red]: [rte_red.h], random early detection.  [Lru]: [rte_lru.h] and
      [rte_lru_x86.h].  [Reciprocal]: [rte_reciprocal.h].  [Sched]:
      [rte_sched_common.h] and [rte_time.h].
    - [Mempool]: [rte_mempool.h].  The drivers of the pools are function tables;
      the class [LawfulOps] states their documented behaviour, and all theorems
      on pools and mbufs hold for any lawful driver.
    - [MbufCore], [Mbuf]: [rte_mbuf_core.h] and the inline functions of
      [rte_mbuf.h] on a heap of mbufs, pools, private areas and bytes.
      [MbufSpec], [MbufPool], [MbufFields]: their properties.  [MbufEdit]: edits of
      a packet as moves of the windows of its segments.
    - [Bytes]: words of 8, 16 and 32 bits in byte memory, [memmove].
    - [Cksum], [CksumSpec]: the checksums of [rte_ip.h].  [Ether]: addresses and
      VLAN tags, [rte_ether.h], with their theorems.  [NetPrep]: [rte_net.h], the
      preparation of a packet for the checksum offload of the device.
    - [Ethdev]: the fast path of [rte_ethdev.h], over any drivers (class
      [LawfulTx] for the transmit side).
    - [World]: the state of a program and the helpers of [packet_utils.cpp]; the
      library is a function of the call and of the state, and the history of the
      calls is kept.  [Port]: [init_port], with a monitor of its calls
      ([port_step]): configuration, set-up of the queues, start, as the library
      documents them, and receive queues before transmit queues, which is the
      order of the program but not that of the documentation
      ([init_port_rx_first]).
    - [Vote], [VoteSpec]: [main.cpp].  [Recv]: [main_pkt_recv.cpp].  [Send],
      [SendSpec]: [main_pkt_send.cpp]; the class [LawfulNic] states what the
      device does with a burst, and [sys_step] interleaves the lcores.

    ** What the theorems show

    - Sender: a round loses no mbuf, puts only copies of the fixed packet on the
      wire and counts them, or the common pool is exhausted and the process
      returns ([send_round_ok]); this holds for any number of lcores
      in any interleaving of rounds, no lcore gets stuck, and the only mbufs lost
      are those of a failed allocation ([send_system_safe]).
    - Receivers: the effect of a burst on the votes, the pool, the counters and
      the output ([poll_queue_ok], [recv_poll_ok]); the table of votes is a set
      of independent cells ([vote_cells_independent]); which packets are
      undefined ([vote_negative_index_undefined], [vote_overflow_reachable]).
    - Ports: the monitor accepts the calls of [init_port] whatever they return,
      and nothing is done after a failure ([init_port_protocol]).
    - Rings used by one thread: every operation is the operation of a bounded
      queue, for every synchronisation type and element size
      ([ring_enqueue_refines], [ring_dequeue_refines], [ring_fifo]); the unrolled
      copies are block copies that wrap around ([ring_elems_copy_roundtrip]); the
      two parts of a peek operation reserve and settle
      ([peek_enqueue_ok], [peek_dequeue_ok]), and the addresses that the zero
      copy operations give out are those the copying ones use
      ([zero_copy_equivalent]).
    - Rings used by many threads: the calls and returns are those of the abstract
      queue, in which an operation takes effect when its head moves and becomes
      visible to the other side when its tail does ([ring_linearizable]); a call
      that no other overlaps has the exact effect, one that others overlap may
      count on less room or fewer elements than there are; when a thread waits,
      the thread with the first reservation of that side can go on
      ([ring_threads_progress]); alone, a thread does
      what the sequential model does ([thread_alone_sequential]).  The same
      holds with the head/tail protocol, where one thread at a time is inside an
      operation on a side ([ring_hts_linearizable], [hts_threads_progress]).  With
      relaxed tails a call may return before its effect on the tail, and only while
      another thread is inside an operation on its side ([ring_rts_linearizable]);
      no thread waits for another to publish ([rts_threads_go]).
    - Stacks: with any number of threads the calls and returns of the lock-free
      stack are those of a stack on which a push or a pop takes effect at once,
      and a call that fails was entitled to ([lf_stack_linearizable]); in every
      state that is reached a thread left alone finishes its call, with one step
      more for each spurious failure of a weak compare-and-swap
      ([lf_stack_progress]); for one thread both implementations are a bounded
      last-in first-out list ([rte_stack_lifo]).  [std_push_wraps] and
      [c11_uninitialised_success] are two defects.
    - Locks: mutual exclusion of the spinlock and of the reader-writer lock
      ([spinlock_exclusion], [rwlock_exclusion]); the ticket lock serves in the
      order of arrival ([ticketlock_fair]), and so does the queued lock, whose
      releases always find the next thread ([mcslock_fair]); readers of the
      phase-fair lock wait for one write section at most, the one under way if
      there is one, writers for the readers before them ([pflock_phase_fair]); the recursive locks exclude and know their owner
      and depth ([recursive_locks_exclude]).
    - A queue of one writer and one reader: what is taken is what was stored, in
      order, at any interleaving of the accesses ([avp_fifo_spsc]).
    - Graphs: a walk ends, and gives every object that was put into the stream of
      a node to that node, once and in order ([graph_walk_delivers]); a node that
      enqueues to itself loses objects ([self_enqueue_loses]) and an enqueue of
      nothing may strand those that follow ([empty_enqueue_strands]).
    - Reclamation: when a check of a token answers 1 every reader that was in a
      section when the token was taken has left it ([rcu_grace_period]), with the
      exception [rcu_two_writers_unsafe]; checks end ([rcu_check_returns]).
    - Meters: the checks are those of their RFCs ([meters_follow_rfcs]), and over
      any run of packets, colour-aware or not, they let through no more than the
      buckets held and the rates give ([meters_enforce_rates]).
    - Hash tables: any sequence of operations on a table is that of a finite map
      with bounded buckets ([fbk_refines_map]), with two exceptions
      ([fbk_delete_absent_zero], [fbk_lookup_races_with_delete]); the hash of
      words, shifted words or bytes is one function of the bytes
      ([jhash_is_lookup3]); the sliced tables and the instructions compute the
      CRC32C of the bytes, which is defined by division of polynomials
      ([hash_crc_is_crc32c], [table_hash_ok]); the softened Toeplitz hash is the
      sum of key windows ([softrss_is_toeplitz]).
    - Routes: the three lookups give the hop of the longest prefix
      ([lpm_lookups_longest_prefix]).
    - Early detection: the 32-bit average never wraps, does not rise while the queue
      is empty and, while it is not, stays within 1/1024 packet of the exact
      exponential average ([red_average_is_ewma]), a packet is marked in time
      ([red_marks_in_time]); [red_short_idle_undefined] is a defect.
    - Least recently used keys: all three strategies evict a key that was used as
      long ago as any other ([lru_evicts_oldest]).
    - Arithmetic: division by multiplication ([reciprocal_divides]), the greatest
      common divisor ([gcd_lcd_ok]), time counters that lose nothing
      ([timecounter_exact]).
    - Pools and mbufs: objects are neither lost nor given twice
      ([mempool_no_double_allocation], [mempool_put_conserves],
      [mempool_get_conserves]); allocation, release, sharing and edition of
      packets ([pktmbuf_alloc_ok], [pktmbuf_free_ok], [attach_free_neutral],
      [append_ok] and the others); any sequence of [prepend], [append], [adj] and
      [trim] moves the ends of the data as the lengths say, or refuses
      ([mbuf_edits_move_windows]).
    - Headers: the checksum is the ones' complement sum of RFC 1071, a checksum
      that was set is accepted ([ipv4_udptcp_cksum_verify_ok] and its relatives),
      the sum over a chain of mbufs is the sum of its data
      ([raw_cksum_mbuf_ok]); the preparation of a packet for the offload writes its
      checksums and nothing else, and a device that adds up bytes completes it to
      a valid packet ([intel_prepare_completes]); inserting and stripping a VLAN
      tag are inverse ([vlan_insert_strip_roundtrip]).
    - Words: the alignments, logarithms and bit operations of the common headers
      against their arithmetic meaning, on all values of their types
      ([log2_rounded_up], [byte_order_roundtrip], [bit_operations] and the others).
    - Bitmaps: any sequence of calls is that of a set of bits, and stays inside
      the two arrays ([bitmap_refines_set]); a turn of the scan returns every
      slab that is not empty once ([bitmap_scan_covers]).
    - Memory copy: the three implementations, for every size and alignment of
      areas that do not overlap, copy the bytes and nothing else
      ([rte_memcpy_is_memcpy]).
    - Devices: the transmit buffer loses and reorders nothing
      ([tx_buffer_conserves]).

    ** Bounds and fuel

    Loops over a chain of mbufs have one unit of fuel per mbuf of the heap and
    two more, enough because a chain that ends has no cycle ([is_chain_length]);
    the copies have fuel for the elements and the ring; [reset_loop] for the
    count, [softrss_bits] for the 32 bits of a word, [gcd_loop] 130 rounds (a
    remainder loses a bit in two), [load_string] for the mapped bytes, a checksum for its 16-bit words, a
    memory copy for its bytes; the scan of a bitmap for the 8 slabs of a line and
    for the slabs of [array1], each with one more to stop; the loops over a
    bucket for its entries, the Jenkins hash for the bytes of the key;
    a walk over a graph of n inner nodes and s sources, (s + 1) 2^n turns
    ([walk_fuel]): a pending node has the weight 2^(number of nodes after it), and
    the nodes it makes pending weigh less together;
    the theorems state that the functions return.  A call of the lock-free stack
    that nobody disturbs has [lf_fuel n] = 4 n + 16 steps, enough by the measure
    [work]; with several threads there is no fuel, and neither is there in [Rcu],
    where a check takes at most [max_threads + 65 num_elems + 3] steps of its own
    once it has nothing to wait for.  In the sequential model the
    loops that wait for another thread have the fuel of a run without
    interference, 2, and return [None] when they would spin; with
    several threads such a thread has no step, or its turn is a step, and there is
    no fuel.  The endless
    loops of the programs are observed for any number of rounds.

    ** Assumptions

    - The memory is sequentially consistent: the barriers and the orderings of
      the atomic accesses, which make it so on the hardware for these accesses,
      are no steps of the model.
    - Between the read of a head and its compare-and-swap the head does not move
      by 2^32 less the capacity or more ([fresh]); otherwise the swap would
      succeed on a head that went round.  Between the read of a relaxed tail and its
      compare-and-swap there are fewer than 2^32 completions ([rfresh]), and the
      threads on such a ring are fewer than 2^32.  Likewise there are fewer than 2^16
      threads on a ticket lock, 4096 on a phase-fair lock and 2^31 on a
      reader-writer lock.
    - The lcores of the sender have numbers below 40, the size of its arrays of
      counters ([lc_id]; a larger number indexes them out of bounds).
    - The packets of a burst of votes are defined in C++ ([vote_packets];
      [vote_negative_index_undefined] and [vote_overflow_reachable] are packets
      that are not).
    - The head of a lock-free list moves fewer than 2^64 times in a run, so that
      its modification counter does not come back to an earlier value; a stack
      has fewer than 2^32 elements.  In the C11 variant the uninitialised
      [success] reads as 0 ([c11_uninitialised_success] shows what happens
      otherwise).
    - A stack is called with tables such that list and table together have fewer
      than 2^32 pointers; a bitmap has at most 2^32 - 512 bits and a slab that is
      set is not 0 ([bvalid]); the queues of early detection have at most 1023
      packets ([red_ok]) and the powers of its tables are at most 1
      ([tables_ok]); an offloaded packet has its headers in the first mbuf and is
      not cut by the device ([layout]).
    - Fewer than 2^64 tokens are taken from a quiescent state variable, and a
      thread stays registered while it is not offline.
    - The four bytes of an aligned word that holds a byte of a hashed key can be
      read.
    - The instructions for CRC, shuffles, minima and vectors do what their reference
      says ([LawfulSse42], [LawfulSsse3], [LawfulSse2], [LawfulSse41]); the tables of
      a route lookup hold its rules ([Lpm.holds]) and the constants of a reciprocal
      are those of its divisor ([reciprocal_of]).  Each has an instance.
    - Debug checks ([RTE_ASSERT], mbuf and mempool cookies), statistics, trace
      points and prefetches are compiled out or have no effect.
    - A graph that is walked has no cycle, its process functions enqueue along its
      edges and no more objects than they are given, at most 2^14 objects are
      in a walk ([graph_ok]), and a stream that grows is moved as [rte_realloc]
      documents ([LawfulAlloc], with an instance).
    - The drivers of pools ([LawfulOps]) and devices ([LawfulTx], [LawfulNic])
      behave as DPDK documents; each class has an instance.

    ** Not modelled

    The compiled part of DPDK (EAL, drivers, creation of pools, rings and tables,
    configuration of meters, registration and defer queues of reclamation,
    copies and linearisation of mbufs) is reached through parameters.  The lcores of
    the sender interleave by whole rounds: a round touches only the lcore's own
    cache and counters, the common pool, whose ring is [RingConc]'s subject, and
    the device.  The peek operations and the pools are sequential; with several
    threads a ring does not have the head/tail protocol on one side and relaxed
    tails on the other.  The locks with hardware transactions, the variants for ARM and
    PowerPC, and the headers of libraries that consist of declarations (flows,
    crypto, events, traffic management and others), are left out. *)
From Stdlib Require Import ZArith Lia.
From stdpp Require Import prelude list numbers gmap.

(** ** Shared foundations: machine integers, arrays of words, the state monad
    with undefined behaviour, and total-correctness rules for loops. *)
Open Scope Z_scope.

(** ** Machine integers

    An unsigned integer of [w] bits is a [Z] in [0, 2^w); every arithmetic
    operation of the source is followed by the reduction the C type performs. *)

Definition wrap (w z : Z) : Z := z mod 2 ^ w.

Abbreviation u8 := (wrap 8).
Abbreviation u16 := (wrap 16).
Abbreviation u32 := (wrap 32).
Abbreviation u64 := (wrap 64).

(** Reinterpretation of a value as a two's complement signed integer. *)
Definition swrap (w z : Z) : Z :=
  let m := z mod 2 ^ w in
  if m <? 2 ^ (w - 1) then m else m - 2 ^ w.

Abbreviation i16 := (swrap 16).
Abbreviation i32 := (swrap 32).
Abbreviation i64 := (swrap 64).

(** The values of the unsigned type of [w] bits. *)
Definition fits (w z : Z) : Prop := 0 <= z < 2 ^ w.

#[global] Instance fits_dec w z : Decision (fits w z).
Proof. unfold fits; apply _. Defined.

(** The truth value of a C expression, and a comparison as a C [int]. *)
Definition truthy (z : Z) : bool := negb (z =? 0).
Definition b2z (b : bool) : Z := if b then 1 else 0.

(** ** The state monad of the sequential models

    [None] stands for an execution that does not return normally: undefined
    behaviour of the C abstract machine (an access out of bounds, a read of an
    uninitialised variable, a dangling pointer) or a spin that never ends. *)

Definition M (St A : Type) : Type := St -> option (A * St).

#[global] Instance M_ret St : MRet (M St) := fun A a s => Some (a, s).
#[global] Instance M_bind St : MBind (M St) := fun A B f m s =>
  match m s with
  | Some (a, s') => f a s'
  | None => None
  end.

#[global] Instance M_fmap St : FMap (M St) := fun A B f m s =>
  match m s with
  | Some (a, s') => Some (f a, s')
  | None => None
  end.

Definition get {St} : M St St := fun s => Some (s, s).
Definition put {St} (s' : St) : M St unit := fun _ => Some (tt, s').
Definition gets {St A} (f : St -> A) : M St A := fun s => Some (f s, s).
Definition modify {St} (f : St -> St) : M St unit := fun s => Some (tt, f s).
Definition ub {St A} : M St A := fun _ => None.
Definition lift {St A} (o : option A) : M St A := fun s =>
  match o with
  | Some a => Some (a, s)
  | None => None
  end.

(** Run the body once for each element, in order. *)
Fixpoint mfor {St A} (l : list A) (body : A -> M St unit) : M St unit :=
  match l with
  | [] => mret tt
  | a :: l' => body a ;; mfor l' body
  end.

(** Run the body once for each element and collect the results, in order. *)
Fixpoint mmapM {St A B} (f : A -> M St B) (l : list A) : M St (list B) :=
  match l with
  | [] => mret []
  | a :: l' => b ← f a ; bs ← mmapM f l' ; mret (b :: bs)
  end.

(** ** Loops

    [while] runs [b] as long as [c] holds; it returns [None] when [b] does or
    when the fuel is exhausted. *)
Fixpoint while {St} (fuel : nat) (c : St -> bool) (b : St -> option St) (s : St)
  : option St :=
  match fuel with
  | O => None
  | Datatypes.S fuel' =>
      if c s then
        match b s with
        | Some s' => while fuel' c b s'
        | None => None
        end
      else Some s
  end.

(** A [do ... while] loop: [b] maps the loop's local variables to new ones
    ([inl]: one more round) or to the result ([inr]: the loop is left). *)
Fixpoint do_while {St A B} (fuel : nat) (b : A -> M St (A + B)) (a : A) : M St B :=
  match fuel with
  | O => ub
  | Datatypes.S fuel' =>
      o ← b a ;
      match o with
      | inl a' => do_while fuel' b a'
      | inr res => mret res
      end
  end.

(** ** Arrays

    A C array is a list read and written with a [Z] index; an access out of
    bounds is undefined. *)
Definition aget {A} (l : list A) (i : Z) : option A :=
  if 0 <=? i then l !! Z.to_nat i else None.

Definition aset {A} (l : list A) (i : Z) (v : A) : option (list A) :=
  if (0 <=? i) && (i <? Z.of_nat (length l)) then Some (<[Z.to_nat i := v]> l)
  else None.

(** [splice l p a] is [l] with the block [a] written at position [p]. *)
Definition splice {A} (l : list A) (p : nat) (a : list A) : list A :=
  take p l ++ a ++ drop (p + length a) l.

(** [memcpy] between two arrays: [n] elements from [src] at [si] to [dst] at
    [di]; both ranges must lie inside their arrays. *)
Definition mem_cpy {A} (dst : list A) (di : Z) (src : list A) (si n : Z)
  : option (list A) :=
  if (0 <=? di) && (0 <=? si) && (0 <=? n)
     && (di + n <=? Z.of_nat (length dst)) && (si + n <=? Z.of_nat (length src))
  then Some (splice dst (Z.to_nat di) (take (Z.to_nat n) (drop (Z.to_nat si) src)))
  else None.

(** * Lemmas *)

(** ** Machine integers *)

Lemma wrap_range w z : 0 <= w -> 0 <= wrap w z < 2 ^ w.
Proof. intros. apply Z.mod_pos_bound. lia. Qed.

Lemma wrap_fits w z : 0 <= w -> fits w (wrap w z).
Proof. apply wrap_range. Qed.

Lemma wrap_small w z : fits w z -> wrap w z = z.
Proof. intros. by apply Z.mod_small. Qed.

Lemma wrap_wrap w z : wrap w (wrap w z) = wrap w z.
Proof. apply Zmod_mod. Qed.

Lemma wrap_add_l w a b : wrap w (wrap w a + b) = wrap w (a + b).
Proof. apply Zplus_mod_idemp_l. Qed.

Lemma wrap_add_r w a b : wrap w (a + wrap w b) = wrap w (a + b).
Proof. apply Zplus_mod_idemp_r. Qed.

Lemma wrap_sub_l w a b : wrap w (wrap w a - b) = wrap w (a - b).
Proof. apply Zminus_mod_idemp_l. Qed.

Lemma wrap_sub_r w a b : wrap w (a - wrap w b) = wrap w (a - b).
Proof. apply Zminus_mod_idemp_r. Qed.

Lemma wrap_add_mult w a k : 0 <= w -> wrap w (a + k * 2 ^ w) = wrap w a.
Proof. intros. apply Z.mod_add. lia. Qed.

Create Rewrite HintDb wrapdb.
Create HintDb wrap discriminated.
#[export] Hint Rewrite wrap_wrap wrap_add_l wrap_add_r wrap_sub_l wrap_sub_r : wrapdb.

Lemma swrap_range w z : 0 < w -> - 2 ^ (w - 1) <= swrap w z < 2 ^ (w - 1).
Proof.
  intros Hw. unfold swrap.
  assert (2 ^ w = 2 * 2 ^ (w - 1)) as E.
  { rewrite <- Z.pow_succ_r by lia. f_equal; lia. }
  pose proof (Z.mod_pos_bound z (2 ^ w) ltac:(lia)).
  case_match eqn:C; lia.
Qed.

Lemma swrap_small w z : 0 < w -> - 2 ^ (w - 1) <= z < 2 ^ (w - 1) -> swrap w z = z.
Proof.
  intros Hw Hz. unfold swrap.
  assert (2 ^ w = 2 * 2 ^ (w - 1)) as E.
  { rewrite <- Z.pow_succ_r by lia. f_equal; lia. }
  destruct (decide (0 <= z)).
  - rewrite Z.mod_small by lia. case_match eqn:C; lia.
  - rewrite <- (Z.mod_add z 1) by lia. rewrite Z.mod_small by lia.
    case_match eqn:C; lia.
Qed.

Lemma wrap_swrap w z : 0 < w -> wrap w (swrap w z) = wrap w z.
Proof.
  intros Hw. unfold wrap, swrap. case_match; [apply Zmod_mod|].
  rewrite Zminus_mod_idemp_l. replace (z - 2 ^ w) with (z + (-1) * 2 ^ w) by lia.
  apply Z.mod_add. lia.
Qed.

Lemma swrap_wrap w z : swrap w (wrap w z) = swrap w z.
Proof. unfold swrap, wrap. by rewrite Zmod_mod. Qed.

(** A mask [2^k - 1] reduces modulo [2^k]. *)
Lemma land_mask z k : 0 <= k -> Z.land z (2 ^ k - 1) = z mod 2 ^ k.
Proof. intros. rewrite <- Z.land_ones by lia. f_equal. rewrite Z.ones_equiv. lia. Qed.

(** Clearing the [k] low bits of a [w]-bit value. *)
Lemma land_clear_low w k z :
  0 <= k <= w -> fits w z ->
  Z.land z (wrap w (Z.lnot (2 ^ k - 1))) = z - z mod 2 ^ k.
Proof.
  intros Hk Hz.
  assert (Z.land z (wrap w (Z.lnot (2 ^ k - 1))) = Z.shiftl (Z.shiftr z k) k) as ->.
  { apply Z.bits_inj'; intros i Hi.
    unfold wrap. rewrite <- Z.land_ones, !Z.land_spec by lia.
    rewrite Z.lnot_spec, Z.shiftl_spec by lia.
    replace (2 ^ k - 1) with (Z.ones k) by (rewrite Z.ones_equiv; lia).
    rewrite !Z.testbit_ones by lia.
    destruct (decide (i < w)) as [Hw|Hw].
    - destruct (decide (i < k)) as [Hik|Hik].
      + rewrite (Z.testbit_neg_r _ (i - k)) by lia.
        replace (i <? k) with true by lia. rewrite !andb_false_iff. right.
        destruct (0 <=? i) eqn:E; simpl; lia.
      + rewrite Z.shiftr_spec by lia. replace (i - k + k) with i by lia.
        replace (i <? k) with false by lia. replace (i <? w) with true by lia.
        replace (0 <=? i) with true by lia. simpl. by rewrite andb_true_r.
    - unfold fits in Hz.
      assert (Z.testbit z i = false) as E.
      { destruct (decide (z = 0)) as [->|]; [apply Z.testbit_0_l|].
        apply Z.bits_above_log2; [lia|].
        apply Z.log2_lt_pow2; [lia|].
        assert (2 ^ w <= 2 ^ i) by (apply Z.pow_le_mono_r; lia). lia. }
      rewrite E, Z.shiftr_spec by lia. replace (i - k + k) with i by lia.
      by rewrite E. }
  rewrite Z.shiftl_mul_pow2, Z.shiftr_div_pow2 by lia.
  pose proof (Z.div_mod z (2 ^ k) ltac:(lia)). lia.
Qed.

Lemma fits_land w a b : 0 <= w -> fits w a -> fits w (Z.land a b).
Proof.
  intros Hw Ha. rewrite <- (wrap_small w a Ha). unfold wrap.
  rewrite <- Z.land_ones, <- Z.land_assoc, (Z.land_comm (Z.ones w)), Z.land_assoc by done.
  rewrite Z.land_ones by done. by apply wrap_fits.
Qed.

(** ** The monad *)

Lemma mbind_run {St A B} (m : M St A) (f : A -> M St B) s a s' :
  m s = Some (a, s') -> (m ≫= f) s = f a s'.
Proof. intros H. unfold mbind, M_bind. by rewrite H. Qed.

Lemma mbind_inv {St A B} (m : M St A) (f : A -> M St B) s r :
  (m ≫= f) s = Some r -> exists a s', m s = Some (a, s') /\ f a s' = Some r.
Proof.
  unfold mbind, M_bind. destruct (m s) as [[a s']|]; [eauto|done].
Qed.

Lemma do_while_done {St A B} fuel (b : A -> M St (A + B)) a s res s' :
  b a s = Some (inr res, s') -> do_while (Datatypes.S fuel) b a s = Some (res, s').
Proof. intros H. simpl. by rewrite (mbind_run _ _ _ _ _ H). Qed.

(** ** Loops: total correctness with an invariant and a measure *)

Lemma while_total {St} (I : St -> Prop) (meas : St -> nat) fuel c b s :
  (forall s, I s -> c s = true -> exists s', b s = Some s' /\ I s' /\ (meas s' < meas s)%nat) ->
  I s -> (meas s < fuel)%nat ->
  exists s', while fuel c b s = Some s' /\ I s' /\ c s' = false.
Proof.
  intros Hb. revert s. induction fuel as [|fuel IH]; intros s HI Hf; [lia|].
  simpl. destruct (c s) eqn:Hc; [|eauto].
  destruct (Hb s HI Hc) as (s' & -> & HI' & Hm). apply IH; [done|lia].
Qed.

Lemma aget_in (l : list Z) i : 0 <= i < Z.of_nat (length l) -> aget l i = Some (default 0 (aget l i)).
Proof.
  intros Hi. unfold aget. rewrite (proj2 (Z.leb_le 0 i)) by lia.
  by destruct (lookup_lt_is_Some_2 l (Z.to_nat i) ltac:(lia)) as [v ->].
Qed.

Lemma aget_out {A} (l : list A) i : Z.of_nat (length l) <= i -> aget l i = None.
Proof.
  intros Hi. unfold aget. rewrite (proj2 (Z.leb_le 0 i)) by lia. apply lookup_ge_None_2. lia.
Qed.

(** ** Arrays *)

Section arrays.
Context {A : Type}.
Implicit Types (l a b : list A).

Lemma length_splice l p a :
  (p + length a <= length l)%nat -> length (splice l p a) = length l.
Proof. intros. unfold splice. rewrite !length_app, length_take, length_drop. lia. Qed.

Lemma splice_nil l p : splice l p [] = l.
Proof. unfold splice. simpl. by rewrite Nat.add_0_r, take_drop. Qed.

Lemma take_add l n m : take (n + m) l = take n l ++ take m (drop n l).
Proof. by rewrite take_take_drop. Qed.

Lemma splice_app l p a b :
  (p + length a + length b <= length l)%nat ->
  splice (splice l p a) (p + length a) b = splice l p (a ++ b).
Proof.
  intros H. unfold splice.
  rewrite take_app_ge by (rewrite length_take; lia).
  rewrite length_take, Nat.min_l by lia.
  rewrite (take_app_le a), (take_ge a) by lia.
  rewrite <- !app_assoc. do 3 f_equal.
  rewrite drop_app_ge by (rewrite length_take; lia).
  rewrite length_take, Nat.min_l by lia.
  rewrite drop_app_ge by lia. rewrite drop_drop. rewrite length_app. f_equal. lia.
Qed.

Lemma lookup_splice l p a i :
  (p + length a <= length l)%nat ->
  splice l p a !! i =
    if decide (p <= i < p + length a)%nat then a !! (i - p)%nat else l !! i.
Proof.
  intros H. unfold splice. case_decide as D.
  - rewrite lookup_app_r by (rewrite length_take; lia).
    rewrite length_take, Nat.min_l by lia.
    by rewrite lookup_app_l by lia.
  - destruct (decide (i < p)%nat) as [Hi|Hi].
    + rewrite lookup_app_l by (rewrite length_take; lia).
      by rewrite lookup_take_lt by lia.
    + rewrite lookup_app_r by (rewrite length_take; lia).
      rewrite length_take, Nat.min_l by lia.
      rewrite lookup_app_r by lia. rewrite lookup_drop. f_equal. lia.
Qed.

Lemma mem_cpy_ok l di b si n :
  0 <= di -> 0 <= si -> 0 <= n ->
  di + n <= Z.of_nat (length l) -> si + n <= Z.of_nat (length b) ->
  mem_cpy l di b si n =
    Some (splice l (Z.to_nat di) (take (Z.to_nat n) (drop (Z.to_nat si) b))).
Proof.
  intros. unfold mem_cpy.
  repeat match goal with
  | |- context [?x <=? ?y] => replace (x <=? y) with true by lia
  end. done.
Qed.

Lemma mem_cpy_bounds l di b si n l' :
  mem_cpy l di b si n = Some l' ->
  0 <= di /\ 0 <= si /\ 0 <= n /\ di + n <= Z.of_nat (length l)
  /\ si + n <= Z.of_nat (length b).
Proof. unfold mem_cpy. case_match eqn:E; [|done]. intros _. lia. Qed.

Lemma aget_Some l i x : aget l i = Some x -> 0 <= i < Z.of_nat (length l).
Proof.
  unfold aget. case_match eqn:E; [|done]. intros H%lookup_lt_Some. lia.
Qed.

Lemma aget_nat l (i : nat) : aget l (Z.of_nat i) = l !! i.
Proof. unfold aget. by rewrite (proj2 (Z.leb_le 0 (Z.of_nat i))), Nat2Z.id by lia. Qed.

Lemma aset_nat l (i : nat) x : (i < length l)%nat -> aset l (Z.of_nat i) x = Some (<[i := x]> l).
Proof. intros. rewrite <- (Nat2Z.id i) at 2. unfold aset. by rewrite (proj2 (Z.leb_le 0 (Z.of_nat i))), (proj2 (Z.ltb_lt (Z.of_nat i) _)) by lia. Qed.

Lemma aset_ok l i x :
  0 <= i < Z.of_nat (length l) -> aset l i x = Some (<[Z.to_nat i := x]> l).
Proof.
  intros. unfold aset. replace (0 <=? i) with true by lia.
  by replace (i <? Z.of_nat (length l)) with true by lia.
Qed.
End arrays.

(** ** Tactics *)

(** Evaluate the comparisons the context decides. *)
Ltac bdestruct_all :=
  repeat match goal with
  | |- context [?x <=? ?y] =>
      first [replace (x <=? y) with true by lia | replace (x <=? y) with false by lia]
  | |- context [?x <? ?y] =>
      first [replace (x <? y) with true by lia | replace (x <? y) with false by lia]
  | |- context [?x =? ?y] =>
      first [replace (x =? y) with true by lia | replace (x =? y) with false by lia]
  end; simpl.

(** Invert a successful run of a monadic block. *)
Ltac minv H :=
  let a := fresh "a" in let s := fresh "s" in let E := fresh "E" in
  apply mbind_inv in H; destruct H as (a & s & E & H).

#[export] Hint Resolve wrap_range wrap_fits : wrap.

(** Permutations of lists of integers, by counting occurrences. *)
Ltac perm_count :=
  apply (Permutation_count_occ Z.eq_dec);
  let x := fresh "x" in intros x;
  repeat match goal with
  | H : _ ≡ₚ _ |- _ =>
      let H' := fresh in
      pose proof (proj1 (Permutation_count_occ Z.eq_dec _ _) H x) as H'; clear H
  end;
  repeat rewrite count_occ_app in *; simpl count_occ in *; lia.
