(* ===== verification/Bits.v ===== *)
(** * Powers of two, bits and byte order ([include/rte_common.h],
    [include/rte_bitops.h], [include/generic/rte_byteorder.h]).

    The alignment macros take the type of their argument: here its width [w].
    A shift by the width of the type or more, a division by zero and the bit
    scans of 0 are undefined in C and give [None]. *)
From Stdlib Require Import ZArith Lia.
From stdpp Require Import prelude list numbers.
From S2P Require Import Prelude.
Open Scope Z_scope.

(** ** Alignment *)

Definition RTE_ALIGN_FLOOR (w val align : Z) : Z :=
  Z.land val (wrap w (Z.lnot (wrap w (align - 1)))).

Definition RTE_ALIGN_CEIL (w val align : Z) : Z :=
  RTE_ALIGN_FLOOR w (wrap w (val + wrap w (wrap w align - 1))) align.

Definition RTE_ALIGN (w val align : Z) : Z := RTE_ALIGN_CEIL w val align.

Definition RTE_ALIGN_MUL_CEIL (w v mul : Z) : option Z :=
  let mul := wrap w mul in
  if mul =? 0 then None
  else Some (wrap w (wrap w (wrap w (v + mul) - 1) / mul * mul)).

Definition RTE_ALIGN_MUL_FLOOR (w v mul : Z) : option Z :=
  let mul := wrap w mul in
  if mul =? 0 then None else Some (wrap w (v / mul * mul)).

Definition RTE_ALIGN_MUL_NEAR (w v mul : Z) : option Z :=
  ceil ← RTE_ALIGN_MUL_CEIL w v mul ;
  floor ← RTE_ALIGN_MUL_FLOOR w v mul ;
  Some (if wrap w (ceil - v) >? wrap w (v - floor) then floor else ceil).

Definition RTE_PTR_ALIGN_CEIL (ptr align : Z) : Z :=
  RTE_ALIGN_FLOOR 64 (u64 (ptr + u64 (align - 1))) align.

Definition RTE_PTR_ALIGN (ptr align : Z) : Z := RTE_PTR_ALIGN_CEIL ptr align.

Definition rte_is_aligned (ptr align : Z) : bool := RTE_PTR_ALIGN ptr align =? ptr.

(** ** Powers of two *)

Definition rte_combine32ms1b (x : Z) : Z :=
  let x := Z.lor x (Z.shiftr x 1) in
  let x := Z.lor x (Z.shiftr x 2) in
  let x := Z.lor x (Z.shiftr x 4) in
  let x := Z.lor x (Z.shiftr x 8) in
  let x := Z.lor x (Z.shiftr x 16) in
  x.

Definition rte_combine64ms1b (v : Z) : Z :=
  let v := Z.lor v (Z.shiftr v 1) in
  let v := Z.lor v (Z.shiftr v 2) in
  let v := Z.lor v (Z.shiftr v 4) in
  let v := Z.lor v (Z.shiftr v 8) in
  let v := Z.lor v (Z.shiftr v 16) in
  let v := Z.lor v (Z.shiftr v 32) in
  v.

Definition RTE_IS_POWER_OF_2 (w n : Z) : bool :=
  truthy n && negb (truthy (Z.land (wrap w (n - 1)) n)).

Definition rte_is_power_of_2 (n : Z) : bool :=
  truthy n && negb (truthy (Z.land n (u32 (n - 1)))).

Definition rte_align32pow2 (x : Z) : Z :=
  let x := u32 (x - 1) in
  let x := rte_combine32ms1b x in
  u32 (x + 1).

Definition rte_align32prevpow2 (x : Z) : Z :=
  let x := rte_combine32ms1b x in
  u32 (x - Z.shiftr x 1).

Definition rte_align64pow2 (v : Z) : Z :=
  let v := u64 (v - 1) in
  let v := rte_combine64ms1b v in
  u64 (v + 1).

Definition rte_align64prevpow2 (v : Z) : Z :=
  let v := rte_combine64ms1b v in
  u64 (v - Z.shiftr v 1).

Definition RTE_MIN (a b : Z) : Z := if a <? b then a else b.
Definition RTE_MAX (a b : Z) : Z := if a >? b then a else b.

(** ** Bit scans *)

(** The compiler's built-in functions: the trailing zeros of a value, and the
    leading zeros of a value of [w] bits; undefined for 0. *)
Fixpoint ctz_pos (p : positive) : Z :=
  match p with
  | xO p => 1 + ctz_pos p
  | _ => 0
  end.

Definition __builtin_ctz (v : Z) : option Z :=
  match v with
  | Zpos p => Some (ctz_pos p)
  | _ => None
  end.

Definition __builtin_clz (w v : Z) : option Z :=
  match v with
  | Zpos p => Some (w - 1 - Z.log2 (Zpos p))
  | _ => None
  end.

Definition rte_bsf32 (v : Z) : option Z := __builtin_ctz v.

(** The result and [*pos], when it is written. *)
Definition rte_bsf32_safe (v : Z) : option (Z * option Z) :=
  if v =? 0 then Some (0, None)
  else pos ← rte_bsf32 v ; Some (1, Some pos).

Definition rte_log2_u32 (v : Z) : option Z :=
  if v =? 0 then Some 0
  else rte_bsf32 (rte_align32pow2 v).

Definition rte_fls_u32 (x : Z) : option Z :=
  if x =? 0 then Some 0 else clz ← __builtin_clz 32 x ; Some (32 - clz).

Definition rte_bsf64 (v : Z) : option Z := __builtin_ctz v.

Definition rte_bsf64_safe (v : Z) : option (Z * option Z) :=
  if v =? 0 then Some (0, None)
  else pos ← rte_bsf64 v ; Some (1, Some pos).

Definition rte_fls_u64 (x : Z) : option Z :=
  if x =? 0 then Some 0 else clz ← __builtin_clz 64 x ; Some (64 - clz).

Definition rte_log2_u64 (v : Z) : option Z :=
  if v =? 0 then Some 0
  else rte_bsf64 (rte_align64pow2 v).

(** ** Bit operations on a word in memory *)

Definition RTE_BIT64 (nr : Z) : option Z :=
  if (0 <=? nr) && (nr <? 64) then Some (u64 (Z.shiftl 1 nr)) else None.

Definition RTE_BIT32 (nr : Z) : option Z :=
  if (0 <=? nr) && (nr <? 32) then Some (u32 (Z.shiftl 1 nr)) else None.

(** The state is the word at [addr]. *)
Definition rte_bit_relaxed_get32 (nr : Z) : M Z Z :=
  mask ← lift (RTE_BIT32 nr) ;
  v ← get ;
  mret (Z.land v mask).

Definition rte_bit_relaxed_set32 (nr : Z) : M Z unit :=
  mask ← lift (RTE_BIT32 nr) ;
  modify (fun v => Z.lor v mask).

Definition rte_bit_relaxed_clear32 (nr : Z) : M Z unit :=
  mask ← lift (RTE_BIT32 nr) ;
  modify (fun v => Z.land v (u32 (Z.lnot mask))).

Definition rte_bit_relaxed_test_and_set32 (nr : Z) : M Z Z :=
  mask ← lift (RTE_BIT32 nr) ;
  val ← get ;
  put (Z.lor val mask) ;;
  mret (Z.land val mask).

Definition rte_bit_relaxed_test_and_clear32 (nr : Z) : M Z Z :=
  mask ← lift (RTE_BIT32 nr) ;
  val ← get ;
  put (Z.land val (u32 (Z.lnot mask))) ;;
  mret (Z.land val mask).

Definition rte_bit_relaxed_get64 (nr : Z) : M Z Z :=
  mask ← lift (RTE_BIT64 nr) ;
  v ← get ;
  mret (Z.land v mask).

Definition rte_bit_relaxed_set64 (nr : Z) : M Z unit :=
  mask ← lift (RTE_BIT64 nr) ;
  modify (fun v => Z.lor v mask).

Definition rte_bit_relaxed_clear64 (nr : Z) : M Z unit :=
  mask ← lift (RTE_BIT64 nr) ;
  modify (fun v => Z.land v (u64 (Z.lnot mask))).

Definition rte_bit_relaxed_test_and_set64 (nr : Z) : M Z Z :=
  mask ← lift (RTE_BIT64 nr) ;
  val ← get ;
  put (Z.lor val mask) ;;
  mret val.

Definition rte_bit_relaxed_test_and_clear64 (nr : Z) : M Z Z :=
  mask ← lift (RTE_BIT64 nr) ;
  val ← get ;
  put (Z.land val (u64 (Z.lnot mask))) ;;
  mret (Z.land val mask).

(** ** Byte order: a little-endian machine *)

Definition RTE_STATIC_BSWAP16 (v : Z) : Z :=
  Z.lor (Z.shiftl (Z.land (u16 v) 0x00ff) 8) (Z.shiftr (Z.land (u16 v) 0xff00) 8).

Definition RTE_STATIC_BSWAP32 (v : Z) : Z :=
  Z.lor (Z.lor (Z.lor (Z.shiftl (Z.land (u32 v) 0x000000ff) 24)
                      (Z.shiftl (Z.land (u32 v) 0x0000ff00) 8))
               (Z.shiftr (Z.land (u32 v) 0x00ff0000) 8))
        (Z.shiftr (Z.land (u32 v) 0xff000000) 24).

Definition RTE_STATIC_BSWAP64 (v : Z) : Z :=
  let v := u64 v in
  Z.lor (Z.lor (Z.lor (Z.lor (Z.lor (Z.lor (Z.lor
    (Z.shiftl (Z.land v 0x00000000000000ff) 56)
    (Z.shiftl (Z.land v 0x000000000000ff00) 40))
    (Z.shiftl (Z.land v 0x0000000000ff0000) 24))
    (Z.shiftl (Z.land v 0x00000000ff000000) 8))
    (Z.shiftr (Z.land v 0x000000ff00000000) 8))
    (Z.shiftr (Z.land v 0x0000ff0000000000) 24))
    (Z.shiftr (Z.land v 0x00ff000000000000) 40))
    (Z.shiftr (Z.land v 0xff00000000000000) 56).

Definition rte_constant_bswap16 (x : Z) : Z := u16 (RTE_STATIC_BSWAP16 x).
Definition rte_constant_bswap32 (x : Z) : Z := u32 (RTE_STATIC_BSWAP32 x).
Definition rte_constant_bswap64 (x : Z) : Z := u64 (RTE_STATIC_BSWAP64 x).

(** The processor's instruction, used for values unknown at compile time,
    exchanges the bytes in the same way. *)
Definition rte_bswap16 (x : Z) : Z := rte_constant_bswap16 x.
Definition rte_bswap32 (x : Z) : Z := rte_constant_bswap32 x.
Definition rte_bswap64 (x : Z) : Z := rte_constant_bswap64 x.

Definition rte_cpu_to_le_16 (x : Z) : Z := x.
Definition rte_cpu_to_le_32 (x : Z) : Z := x.
Definition rte_cpu_to_le_64 (x : Z) : Z := x.
Definition rte_cpu_to_be_16 (x : Z) : Z := rte_bswap16 x.
Definition rte_cpu_to_be_32 (x : Z) : Z := rte_bswap32 x.
Definition rte_cpu_to_be_64 (x : Z) : Z := rte_bswap64 x.
Definition rte_le_to_cpu_16 (x : Z) : Z := x.
Definition rte_le_to_cpu_32 (x : Z) : Z := x.
Definition rte_le_to_cpu_64 (x : Z) : Z := x.
Definition rte_be_to_cpu_16 (x : Z) : Z := rte_bswap16 x.
Definition rte_be_to_cpu_32 (x : Z) : Z := rte_bswap32 x.
Definition rte_be_to_cpu_64 (x : Z) : Z := rte_bswap64 x.

(** * Lemmas *)

Lemma testbit_wrap w x i :
  0 <= w -> Z.testbit (wrap w x) i = (i <? w) && Z.testbit x i.
Proof.
  intros Hw. unfold wrap. destruct (decide (i < w)) as [Hi|Hi].
  - replace (i <? w) with true by lia. simpl. destruct (decide (0 <= i)).
    + by rewrite Z.mod_pow2_bits_low by lia.
    + by rewrite !Z.testbit_neg_r by lia.
  - replace (i <? w) with false by lia. simpl. apply Z.mod_pow2_bits_high. lia.
Qed.

Lemma testbit_beyond w x i : fits w x -> w <= i -> Z.testbit x i = false.
Proof.
  intros H Hi. unfold fits in H.
  assert (0 <= w) by (destruct (decide (0 <= w)); [done|rewrite Z.pow_neg_r in H; lia]).
  rewrite <- (wrap_small w x H), testbit_wrap by lia.
  by replace (i <? w) with false by lia.
Qed.

(** A property of the bits of a word, checked on each of them. *)
Lemma forall_below n (P : Z -> Prop) :
  Forall P (seqZ 0 n) -> forall i, 0 <= i < n -> P i.
Proof.
  intros H i Hi. apply (proj1 (Forall_forall _ _) H), list_elem_of_In, elem_of_seqZ. lia.
Qed.

(** *** Smearing the highest bit to the right

    [spread n x y]: the bits of [y] are those of [x] and of its [n - 1] next
    right shifts. *)
Definition spread (n x y : Z) : Prop :=
  forall i, 0 <= i ->
    (Z.testbit y i = true <-> exists d, 0 <= d < n /\ Z.testbit x (i + d) = true).

Lemma spread_refl x : spread 1 x x.
Proof.
  intros i Hi. split.
  - intros H. exists 0. split; [lia|]. by rewrite Z.add_0_r.
  - intros (d & Hd & H). by replace (i + d) with i in H by lia.
Qed.

Lemma spread_double n x y :
  0 <= n -> spread n x y -> spread (2 * n) x (Z.lor y (Z.shiftr y n)).
Proof.
  intros Hn H i Hi. rewrite Z.lor_spec, Z.shiftr_spec, orb_true_iff by done.
  rewrite (H i Hi), (H (i + n)) by lia. split.
  - intros [(d & Hd & E)|(d & Hd & E)].
    + exists d. split; [lia|done].
    + exists (n + d). split; [lia|]. by rewrite Z.add_assoc.
  - intros (d & Hd & E). destruct (decide (d < n)).
    + left. exists d. split; [lia|done].
    + right. exists (d - n). split; [lia|]. by replace (i + n + (d - n)) with (i + d) by lia.
Qed.

Lemma spread_all n x y :
  0 < x -> fits n x -> spread n x y -> y = Z.ones (Z.log2 x + 1).
Proof.
  intros Hx Hf H. pose proof (Z.log2_nonneg x).
  assert (Z.log2 x < n) by (apply Z.log2_lt_pow2; [done|unfold fits in Hf; lia]).
  apply Z.bits_inj'. intros i Hi. apply eq_bool_prop_intro.
  rewrite !Is_true_true, (H i Hi), Z.testbit_ones_nonneg, Z.ltb_lt by lia. split.
  - intros (d & Hd & E). destruct (decide (i < Z.log2 x + 1)); [done|].
    by rewrite Z.bits_above_log2 in E by lia.
  - intros Hl. exists (Z.log2 x - i). split; [lia|].
    replace (i + (Z.log2 x - i)) with (Z.log2 x) by lia. by apply Z.bit_log2.
Qed.

Lemma combine32_ones x : 0 < x -> fits 32 x -> rte_combine32ms1b x = Z.ones (Z.log2 x + 1).
Proof.
  intros Hx Hf. apply (spread_all 32); [done..|]. unfold rte_combine32ms1b.
  apply (spread_double 16), (spread_double 8), (spread_double 4), (spread_double 2),
    (spread_double 1), spread_refl; lia.
Qed.

Lemma combine64_ones x : 0 < x -> fits 64 x -> rte_combine64ms1b x = Z.ones (Z.log2 x + 1).
Proof.
  intros Hx Hf. apply (spread_all 64); [done..|]. unfold rte_combine64ms1b.
  apply (spread_double 32), (spread_double 16), (spread_double 8), (spread_double 4),
    (spread_double 2), (spread_double 1), spread_refl; lia.
Qed.

(** *** Rounding to powers of two, for both widths *)
Section pow2.
Context (w : Z) (combine : Z -> Z).
Hypothesis Hw : 1 < w.
Hypothesis combine_ones :
  forall x, 0 < x -> fits w x -> combine x = Z.ones (Z.log2 x + 1).
Hypothesis combine_0 : combine 0 = 0.

Definition next_pow2 (x : Z) : Z :=
  if (0 <? x) && (x <=? 2 ^ (w - 1)) then 2 ^ Z.log2_up x else 0.

Lemma align_pow2 x : fits w x -> wrap w (combine (wrap w (x - 1)) + 1) = next_pow2 x.
Proof using Hw combine_ones combine_0.
  intros Hf. unfold fits in Hf. unfold next_pow2.
  assert (E : 2 ^ w = 2 * 2 ^ (w - 1)) by (rewrite <- Z.pow_succ_r by lia; f_equal; lia).
  assert (0 < 2 ^ (w - 1)) by lia.
  destruct (decide (x = 0)) as [->|]; [|destruct (decide (x = 1)) as [->|]].
  - assert (wrap w (0 - 1) = 2 ^ w - 1) as ->.
    { rewrite <- (wrap_add_mult w _ 1), wrap_small by (unfold fits; lia). lia. }
    rewrite combine_ones by (unfold fits; lia).
    replace (Z.log2 (2 ^ w - 1) + 1) with w
      by (rewrite Z.sub_1_r, Z.log2_pred_pow2 by lia; lia).
    rewrite Z.ones_equiv. replace (Z.pred (2 ^ w) + 1) with (2 ^ w) by lia.
    apply Z.mod_same. lia.
  - replace (1 - 1) with 0 by lia. rewrite (wrap_small w 0) by (unfold fits; lia).
    rewrite combine_0. replace (1 <=? 2 ^ (w - 1)) with true by lia. simpl.
    change (2 ^ Z.log2_up 1) with (0 + 1). apply wrap_small. unfold fits. lia.
  - rewrite (wrap_small w (x - 1)) by (unfold fits; lia).
    rewrite combine_ones by (unfold fits; lia). rewrite Z.ones_equiv.
    replace (Z.log2 (x - 1) + 1) with (Z.log2_up x)
      by (rewrite Z.log2_up_eqn, Z.sub_1_r by lia; lia).
    replace (Z.pred (2 ^ Z.log2_up x) + 1) with (2 ^ Z.log2_up x) by lia.
    replace (0 <? x) with true by lia. pose proof (Z.log2_up_nonneg x).
    destruct (x <=? 2 ^ (w - 1)) eqn:C; simpl.
    + assert (Z.log2_up x <= w - 1) by (apply Z.log2_up_le_pow2; lia).
      apply wrap_small. unfold fits. split; [lia|]. apply Z.pow_lt_mono_r; lia.
    + assert (Z.log2_up x <= w) by (apply Z.log2_up_le_pow2; lia).
      assert (~ Z.log2_up x <= w - 1) by (rewrite <- Z.log2_up_le_pow2; lia).
        replace (Z.log2_up x) with w by lia. apply Z.mod_same. lia.
Qed.

Lemma align_prevpow2 x :
  fits w x ->
  wrap w (combine x - Z.shiftr (combine x) 1) = if x =? 0 then 0 else 2 ^ Z.log2 x.
Proof using Hw combine_ones combine_0.
  intros Hf. destruct (decide (x = 0)) as [->|]; [by rewrite combine_0|].
  unfold fits in Hf. replace (x =? 0) with false by lia.
  rewrite combine_ones by (unfold fits; lia). rewrite Z.ones_equiv, Z.shiftr_div_pow2 by lia.
  pose proof (Z.log2_nonneg x). rewrite Z.pow_add_r by lia.
  replace (2 ^ 1) with 2 by lia.
  assert (Z.log2 x < w) by (apply Z.log2_lt_pow2; lia).
  assert (2 ^ Z.log2 x < 2 ^ w) by (apply Z.pow_lt_mono_r; lia).
  assert (0 < 2 ^ Z.log2 x) by lia.
  replace (Z.pred (2 ^ Z.log2 x * 2) / 2) with (2 ^ Z.log2 x - 1)
    by (apply (Z.div_unique _ 2 _ 1); lia).
  replace (Z.pred (2 ^ Z.log2 x * 2) - (2 ^ Z.log2 x - 1)) with (2 ^ Z.log2 x) by lia.
  apply wrap_small. unfold fits. lia.
Qed.
End pow2.

Lemma pow2_test n : 0 < n -> (Z.land n (n - 1) = 0 <-> n = 2 ^ Z.log2 n).
Proof.
  intros Hn. pose proof (Z.log2_spec n Hn) as H. rewrite Z.pow_succ_r in H by (apply Z.log2_nonneg).
  pose proof (Z.log2_nonneg n). split.
  - intros L. destruct (decide (n = 2 ^ Z.log2 n)) as [|D]; [done|].
    assert (Z.testbit (Z.land n (n - 1)) (Z.log2 n) = true) as T.
    { rewrite Z.land_spec, Z.bit_log2 by done. simpl.
      replace (Z.log2 n) with (Z.log2 (n - 1)) at 1; [apply Z.bit_log2; lia|].
      apply Z.log2_unique; [done|]. rewrite Z.pow_succ_r by done. lia. }
    by rewrite L, Z.testbit_0_l in T.
  - intros E. rewrite E at 2. rewrite land_mask by done.
    rewrite E at 1. apply Z.mod_same. lia.
Qed.

Lemma ctz_pow2 k : 0 <= k -> __builtin_ctz (2 ^ k) = Some k.
Proof.
  intros Hk. pattern k. apply natlike_ind; [done| |done].
  intros j Hj IH. rewrite Z.pow_succ_r by done.
  destruct (2 ^ j) as [|p|p] eqn:E; [lia| |lia].
  change (Some (ctz_pos p) = Some j) in IH. injection IH as IH.
  change (Some (1 + ctz_pos p) = Some (Z.succ j)). f_equal. lia.
Qed.

(** ** Words *)

Lemma lowest_bit v : 0 < v -> exists k, __builtin_ctz v = Some k /\ 0 <= k
  /\ Z.testbit v k = true /\ forall j, 0 <= j < k -> Z.testbit v j = false.
Proof.
  intros Hv. destruct v as [|p|p]; [lia| |lia]. clear Hv. exists (ctz_pos p). split; [done|].
  induction p as [p IH|p IH|]; cbn [ctz_pos].
  - split; [done|]. split; [done|]. intros j Hj. lia.
  - destruct IH as (H0 & H1 & H2). split; [lia|]. split.
    + rewrite Z.add_comm, Z.add_1_r. change (Zpos p~0) with (2 * Zpos p). by rewrite Z.testbit_even_succ by done.
    + intros j Hj. change (Zpos p~0) with (2 * Zpos p).
      destruct (decide (j = 0)) as [->|]; [by rewrite Z.testbit_even_0|].
      replace j with (Z.succ (j - 1)) by lia. rewrite Z.testbit_even_succ by lia. apply H2. lia.
  - split; [done|]. split; [done|]. intros j Hj. lia.
Qed.

(** [v & (v - 1)] clears the lowest bit. *)
Lemma clear_lowest v k : 0 < v -> __builtin_ctz v = Some k ->
  forall i, Z.testbit (Z.land v (v - 1)) i = Z.testbit v i && negb (i =? k).
Proof.
  intros Hv. destruct v as [|p|p]; [lia| |lia]. clear Hv. cbn [__builtin_ctz]. intros [= <-].
  induction p as [p IH|p IH|]; intros i; cbn [ctz_pos].
  - replace (Zpos p~1 - 1) with (2 * Zpos p) by lia. change (Zpos p~1) with (2 * Zpos p + 1). rewrite Z.land_spec.
    destruct (Z.eqb_spec i 0) as [->|]; [by rewrite Z.testbit_even_0, !andb_false_r|].
    destruct (decide (i < 0)); [by rewrite !Z.testbit_neg_r by lia|].
    replace i with (Z.succ (i - 1)) by lia. rewrite Z.testbit_odd_succ, Z.testbit_even_succ by lia.
    by rewrite andb_diag, andb_true_r.
  - destruct (decide (i < 0)); [by rewrite !Z.testbit_neg_r by lia|].
    replace (Zpos p~0 - 1) with (2 * (Zpos p - 1) + 1) by lia. change (Zpos p~0) with (2 * Zpos p). rewrite Z.land_spec.
    destruct (decide (i = 0)) as [->|]; [by rewrite Z.testbit_even_0|].
    replace i with (Z.succ (i - 1)) by lia. rewrite Z.testbit_odd_succ, Z.testbit_even_succ by lia.
    rewrite <- Z.land_spec, IH. f_equal. f_equal.
    destruct (Z.eqb_spec (i - 1) (ctz_pos p)), (Z.eqb_spec (Z.succ (i - 1)) (1 + ctz_pos p)); lia || done.
  - replace (1 - 1) with 0 by lia. rewrite Z.land_0_r, Z.testbit_0_l. destruct (Z.eqb_spec i 0) as [->|]; [done|].
    destruct (decide (i < 0)); [by rewrite Z.testbit_neg_r by lia|]. by rewrite (Z.bits_above_log2 1 i) by (simpl; lia).
Qed.

Lemma some_bit v : 0 < v -> exists k, 0 <= k /\ Z.testbit v k = true.
Proof. intros H. destruct (lowest_bit v H) as (k & _ & Hk & Ht & _). by exists k. Qed.

Lemma zero_bits v : 0 <= v -> (forall k, 0 <= k -> Z.testbit v k = false) -> v = 0.
Proof. intros Hv H. apply Z.bits_inj'. intros k Hk. by rewrite H, Z.testbit_0_l. Qed.

(** The mask of one bit, and the mask of all others. *)
Lemma one_bit o n : 0 <= o < 64 -> Z.testbit (u64 (Z.shiftl 1 o)) n = (o =? n).
Proof.
  intros Ho. rewrite Z.shiftl_1_l, testbit_wrap by lia. rewrite Z.pow2_bits_eqb by lia.
  destruct (Z.eqb_spec o n); [|by rewrite andb_false_r]. by rewrite (proj2 (Z.ltb_lt n 64)) by lia.
Qed.

Lemma other_bits o n : 0 <= o < 64 -> 0 <= n ->
  Z.testbit (u64 (Z.lnot (Z.shiftl 1 o))) n = (n <? 64) && negb (o =? n).
Proof.
  intros Ho Hn. rewrite Z.shiftl_1_l, testbit_wrap by lia.
  rewrite Z.lnot_spec, Z.pow2_bits_eqb by lia. done.
Qed.

Lemma fits_bits w v : 0 <= w -> 0 <= v -> (forall i, w <= i -> Z.testbit v i = false) -> fits w v.
Proof. intros Hw Hv H. unfold fits. apply Z.bounded_iff_bits_nonneg'; [done..|]. intros i Hi. by apply H. Qed.

Lemma fits_lor w a b : 0 <= w -> fits w a -> fits w b -> fits w (Z.lor a b).
Proof.
  intros Hw Ha Hb. apply fits_bits; [done|apply Z.lor_nonneg; split; [apply Ha|apply Hb]|].
  intros i Hi. by rewrite Z.lor_spec, !(testbit_beyond w).
Qed.

Lemma fits_lxor w a b : 0 <= w -> fits w a -> fits w b -> fits w (Z.lxor a b).
Proof.
  intros Hw Ha Hb. apply fits_bits; [done|apply Z.lxor_nonneg; split; intros _; [apply Hb|apply Ha]|].
  intros i Hi. by rewrite Z.lxor_spec, !(testbit_beyond w).
Qed.

Lemma wrap_lxor w a b : 0 <= w -> wrap w (Z.lxor a b) = Z.lxor (wrap w a) (wrap w b).
Proof.
  intros Hw. apply Z.bits_inj'. intros i Hi. rewrite Z.lxor_spec, !testbit_wrap by lia.
  rewrite Z.lxor_spec. by destruct (i <? w).
Qed.

Lemma fits_shiftr w a k : 0 <= w -> 0 <= k -> fits w a -> fits w (Z.shiftr a k).
Proof.
  intros Hw Hk Ha. apply fits_bits; [done|apply Z.shiftr_nonneg; apply Ha|].
  intros i Hi. destruct (decide (0 <= i)); [|by rewrite Z.testbit_neg_r by lia].
  rewrite Z.shiftr_spec by done. apply (testbit_beyond w); [done|lia].
Qed.

(** An or of disjoint bits is a sum. *)
Lemma lor_disjoint x y k : 0 <= k -> 0 <= x < 2 ^ k -> Z.lor x (y * 2 ^ k) = x + y * 2 ^ k.
Proof.
  intros Hk Hx. rewrite <- (Z.add_lor_land x (y * 2 ^ k)).
  assert (Z.land x (y * 2 ^ k) = 0) as ->; [|lia].
  apply Z.bits_inj'. intros i Hi. rewrite Z.land_spec, Z.bits_0. destruct (Z.ltb_spec i k).
  - by rewrite Z.mul_pow2_bits_low, andb_false_r.
  - by rewrite (testbit_beyond k x i) by (unfold fits; lia).
Qed.

Lemma lor_zero_iff a b : Z.lor a b = 0 <-> a = 0 /\ b = 0.
Proof. apply Z.lor_eq_0_iff. Qed.

Lemma truthy_true v : truthy v = true <-> v <> 0.
Proof. unfold truthy. destruct (Z.eqb_spec v 0); simpl; split; (done || lia). Qed.

Lemma land_63' x : Z.land x 63 = x mod 64.
Proof. apply (land_mask x 6). lia. Qed.
Lemma land_7 x : Z.land x 7 = x mod 8.
Proof. apply (land_mask x 3). lia. Qed.

(** *** Alignment *)

Lemma align_floor_mod w val k :
  0 <= k <= w -> fits w val -> RTE_ALIGN_FLOOR w val (2 ^ k) = val - val mod 2 ^ k.
Proof.
  intros Hk Hf. unfold RTE_ALIGN_FLOOR. rewrite <- (land_clear_low w k val Hk Hf).
  f_equal. apply (f_equal (wrap w)). unfold fits in Hf.
  rewrite <- (wrap_small w (2 ^ k - 1)) at 2; [done|].
  unfold fits. assert (2 ^ k <= 2 ^ w) by (apply Z.pow_le_mono_r; lia).
  assert (0 < 2 ^ k) by lia. lia.
Qed.

Lemma align_ceil_mod w val k :
  0 <= k < w -> fits w val ->
  RTE_ALIGN_CEIL w val (2 ^ k) =
    if val <=? 2 ^ w - 2 ^ k then (val + 2 ^ k - 1) / 2 ^ k * 2 ^ k else 0.
Proof.
  intros Hk Hf. assert (Hp : 2 ^ k < 2 ^ w) by (apply Z.pow_lt_mono_r; lia).
  assert (0 < 2 ^ k) by lia. unfold RTE_ALIGN_CEIL.
  rewrite (wrap_small w (2 ^ k)) by (unfold fits; lia). autorewrite with wrapdb.
  rewrite align_floor_mod by (lia || (apply wrap_fits; lia)). unfold fits in Hf.
  rewrite Z.add_sub_assoc.
  pose proof (Z.div_mod (val + 2 ^ k - 1) (2 ^ k) ltac:(lia)).
  destruct (val <=? 2 ^ w - 2 ^ k) eqn:C.
  - rewrite wrap_small by (unfold fits; lia). lia.
  - rewrite <- (wrap_add_mult w _ (-1)), wrap_small by (unfold fits; lia).
    rewrite Z.mod_small by lia. lia.
Qed.

Lemma ptr_align_ceil ptr k :
  0 <= k < 64 -> fits 64 ptr -> RTE_PTR_ALIGN ptr (2 ^ k) = RTE_ALIGN_CEIL 64 ptr (2 ^ k).
Proof.
  intros Hk Hf. unfold RTE_PTR_ALIGN, RTE_PTR_ALIGN_CEIL, RTE_ALIGN_CEIL.
  assert (2 ^ k < 2 ^ 64) by (apply Z.pow_lt_mono_r; lia). assert (0 < 2 ^ k) by lia.
  rewrite (wrap_small 64 (2 ^ k)) by (unfold fits; lia). by autorewrite with wrapdb.
Qed.

(** The alignment macros, for a power of two [2^k] below the width of the
    type: [RTE_ALIGN_FLOOR] gives the greatest multiple not above the value;
    [RTE_ALIGN_CEIL] the least multiple not below it, except that a value
    above the last multiple of the type wraps to 0; [rte_is_aligned] holds
    exactly of the multiples. *)
Theorem alignment_power_of_two (w val k : Z) (Hk : 0 <= k < w) (Hv : fits w val) :
  RTE_ALIGN_FLOOR w val (2 ^ k) = val / 2 ^ k * 2 ^ k
  /\ RTE_ALIGN w val (2 ^ k) = (if val <=? 2 ^ w - 2 ^ k
                               then (val + 2 ^ k - 1) / 2 ^ k * 2 ^ k else 0)
  /\ (w = 64 -> rte_is_aligned val (2 ^ k) = (val mod 2 ^ k =? 0)).
Proof.
  pose proof (Z.div_mod val (2 ^ k) ltac:(lia)).
  pose proof (Z.mod_pos_bound val (2 ^ k) ltac:(lia)).
  split_and!.
  - rewrite align_floor_mod by (done || lia). lia.
  - by apply align_ceil_mod.
  - intros ->. unfold rte_is_aligned. rewrite ptr_align_ceil, align_ceil_mod by done.
    unfold fits in Hv. apply eq_bool_prop_intro. rewrite !Is_true_true, !Z.eqb_eq.
    split.
    + destruct (val <=? _) eqn:C; intros E.
      * rewrite <- E. apply Z.mod_mul. lia.
      * by subst val.
    + intros E. assert (val / 2 ^ k < 2 ^ (64 - k)).
      { apply Z.div_lt_upper_bound; [lia|]. rewrite <- Z.pow_add_r by lia.
        replace (k + (64 - k)) with 64 by lia. lia. }
      assert (2 ^ 64 = 2 ^ k * 2 ^ (64 - k)) by (rewrite <- Z.pow_add_r by lia; f_equal; lia).
      replace (val <=? 2 ^ 64 - 2 ^ k) with true by nia.
      replace ((val + 2 ^ k - 1) / 2 ^ k) with (val / 2 ^ k); [lia|].
      apply (Z.div_unique _ _ _ (2 ^ k - 1)); lia.
Qed.

Lemma alignment_power_of_two_witness :
  RTE_ALIGN_FLOOR 64 4100 64 = 4096 /\ RTE_ALIGN 64 4100 64 = 4160
  /\ rte_is_aligned 4100 64 = false.
Proof.
  destruct (alignment_power_of_two 64 4100 6) as (E1 & E2 & E3);
    [lia|unfold fits; lia|].
  split_and!; [apply E1|apply E2|by apply E3].
Defined.

(** The macros for multiples of any number [mul]: division by zero is
    undefined; otherwise, when [v + mul - 1] does not overflow, the floor and
    the ceiling are the multiples around [v], and [RTE_ALIGN_MUL_NEAR] gives a
    multiple that no other multiple of [mul] is nearer to [v] than. *)
Theorem alignment_multiple (w v mul : Z) (Hm : fits w mul) (Hv : fits w v) :
  (mul = 0 -> RTE_ALIGN_MUL_CEIL w v mul = None /\ RTE_ALIGN_MUL_FLOOR w v mul = None
              /\ RTE_ALIGN_MUL_NEAR w v mul = None)
  /\ (0 < mul -> v + mul - 1 < 2 ^ w ->
      exists lo hi near,
        RTE_ALIGN_MUL_FLOOR w v mul = Some lo /\ RTE_ALIGN_MUL_CEIL w v mul = Some hi
        /\ RTE_ALIGN_MUL_NEAR w v mul = Some near
        /\ lo <= v < lo + mul /\ v <= hi < v + mul
        /\ (mul | lo) /\ (mul | hi) /\ (mul | near)
        /\ forall m, Z.abs (v - near) <= Z.abs (v - m * mul)).
Proof.
  unfold RTE_ALIGN_MUL_NEAR. unfold RTE_ALIGN_MUL_CEIL, RTE_ALIGN_MUL_FLOOR.
  rewrite (wrap_small w mul Hm). split; [by intros ->|]. intros Hp Ho. unfold fits in Hv, Hm.
  pose proof (Z.div_mod v mul ltac:(lia)). pose proof (Z.mod_pos_bound v mul ltac:(lia)).
  pose proof (Z.div_mod (v + mul - 1) mul ltac:(lia)).
  pose proof (Z.mod_pos_bound (v + mul - 1) mul ltac:(lia)).
  set (q := v / mul) in *. set (q' := (v + mul - 1) / mul) in *.
  assert (0 <= q) by (apply Z.div_pos; lia). assert (0 <= q') by (apply Z.div_pos; lia).
  replace (mul =? 0) with false by lia. autorewrite with wrapdb.
  rewrite (wrap_small w (v + mul - 1)) by (unfold fits; lia). fold q q'.
  rewrite (wrap_small w (q * mul)), (wrap_small w (q' * mul)) by (unfold fits; nia).
  exists (q * mul), (q' * mul), (if q' * mul - v >? v - q * mul then q * mul else q' * mul).
  split; [done|]. split; [done|]. split.
  { simpl. by rewrite !wrap_small by (unfold fits; nia). }
  assert (q' <= q + 1) by nia.
  do 2 (split; [nia|]). do 2 (split; [apply Z.divide_factor_r|]). split.
  - case_match; apply Z.divide_factor_r.
  - intros m. destruct (_ >? _) eqn:G; destruct (decide (m <= q)); nia.
Qed.

Lemma alignment_multiple_witness :
  exists lo hi near, RTE_ALIGN_MUL_FLOOR 32 17 5 = Some lo
    /\ RTE_ALIGN_MUL_CEIL 32 17 5 = Some hi /\ RTE_ALIGN_MUL_NEAR 32 17 5 = Some near.
Proof.
  destruct (alignment_multiple 32 17 5) as [_ H]; [unfold fits; lia..|].
  destruct H as (lo & hi & near & H1 & H2 & H3 & _); [lia|lia|].
  by exists lo, hi, near.
Defined.

(** Powers of two, for the 32-bit and the 64-bit functions:
    [rte_align*pow2] gives the least power of two not below its argument, up
    to half the range of the type, and 0 for 0 and above; [rte_align*prevpow2]
    the greatest power of two not above it; [rte_is_power_of_2] holds exactly
    of the powers of two; [rte_fls_*] is one more than the position of the
    highest bit set. *)
Theorem powers_of_two (w x : Z) (Hw : w = 32 \/ w = 64) (Hx : fits w x) :
  let sel (a b : Z) := if w =? 32 then a else b in
  sel (rte_align32pow2 x) (rte_align64pow2 x)
    = (if (0 <? x) && (x <=? 2 ^ (w - 1)) then 2 ^ Z.log2_up x else 0)
  /\ sel (rte_align32prevpow2 x) (rte_align64prevpow2 x)
    = (if x =? 0 then 0 else 2 ^ Z.log2 x)
  /\ (RTE_IS_POWER_OF_2 w x = true <-> exists k, 0 <= k /\ x = 2 ^ k)
  /\ (w = 32 -> rte_is_power_of_2 x = RTE_IS_POWER_OF_2 w x)
  /\ (if w =? 32 then rte_fls_u32 x else rte_fls_u64 x)
    = Some (if x =? 0 then 0 else Z.log2 x + 1).
Proof.
  intros sel. split_and!.
  - destruct Hw as [->| ->]; subst sel; cbv beta iota delta [Z.eqb Pos.eqb].
    + by apply (align_pow2 32 rte_combine32ms1b ltac:(lia) combine32_ones eq_refl).
    + by apply (align_pow2 64 rte_combine64ms1b ltac:(lia) combine64_ones eq_refl).
  - destruct Hw as [->| ->]; subst sel; cbv beta iota delta [Z.eqb Pos.eqb].
    + by apply (align_prevpow2 32 rte_combine32ms1b ltac:(lia) combine32_ones eq_refl).
    + by apply (align_prevpow2 64 rte_combine64ms1b ltac:(lia) combine64_ones eq_refl).
  - unfold RTE_IS_POWER_OF_2, truthy. unfold fits in Hx.
    destruct (decide (x = 0)) as [->|]; simpl.
    { split; [done|]. intros (k & Hk & E). lia. }
    rewrite (wrap_small w (x - 1)) by (unfold fits; lia).
    replace (x =? 0) with false by lia. cbn [negb andb]. rewrite Z.land_comm, negb_involutive, Z.eqb_eq.
    rewrite pow2_test by lia. split.
    + intros E. exists (Z.log2 x). split; [apply Z.log2_nonneg|done].
    + intros (k & Hk & ->). by rewrite Z.log2_pow2.
  - intros ->. unfold rte_is_power_of_2, RTE_IS_POWER_OF_2. by rewrite Z.land_comm.
  - unfold fits in Hx. destruct x as [|p|p]; [by destruct Hw as [->| ->]| |lia].
    unfold rte_fls_u32, rte_fls_u64, __builtin_clz.
    destruct Hw as [->| ->]; cbn [Z.eqb Pos.eqb mbind option_bind]; f_equal; lia.
Qed.

Lemma powers_of_two_witness :
  rte_align32pow2 1500 = 2048 /\ rte_align32prevpow2 1500 = 1024.
Proof.
  destruct (powers_of_two 32 1500) as (E1 & E2 & _);
    [by left|unfold fits; lia|]. by split.
Defined.

(** [rte_log2_u32] and [rte_log2_u64] return 0 for 0 and the base-2
    logarithm rounded up until half the range of the type; every value above
    it leads to a bit scan of 0, which is undefined, although the functions
    test for a zero argument. *)
Theorem log2_rounded_up (w v : Z) (Hw : w = 32 \/ w = 64) (Hv : fits w v) :
  (if w =? 32 then rte_log2_u32 v else rte_log2_u64 v) =
    if v =? 0 then Some 0
    else if v <=? 2 ^ (w - 1) then Some (Z.log2_up v) else None.
Proof.
  unfold fits in Hv. unfold rte_log2_u32, rte_log2_u64, rte_bsf32, rte_bsf64.
  assert (0 <= Z.log2_up v) by apply Z.log2_up_nonneg.
  destruct (v =? 0) eqn:Z0; [by destruct (w =? 32)|].
  assert (E : (if w =? 32 then rte_align32pow2 v else rte_align64pow2 v)
              = next_pow2 w v).
  { destruct Hw as [->| ->]; cbv beta iota delta [Z.eqb Pos.eqb].
    - by apply (align_pow2 32 rte_combine32ms1b ltac:(lia) combine32_ones eq_refl).
    - by apply (align_pow2 64 rte_combine64ms1b ltac:(lia) combine64_ones eq_refl). }
  transitivity (__builtin_ctz (if w =? 32 then rte_align32pow2 v else rte_align64pow2 v));
    [by destruct (w =? 32)|].
  rewrite E. unfold next_pow2. replace (0 <? v) with true by lia.
  destruct (v <=? _); [by apply ctz_pow2|done].
Qed.

Lemma log2_rounded_up_witness :
  rte_log2_u32 1500 = Some 11 /\ rte_log2_u32 0x80000001 = None.
Proof.
  split.
  - apply (log2_rounded_up 32 1500); [by left|unfold fits; lia].
  - apply (log2_rounded_up 32 0x80000001); [by left|unfold fits; lia].
Defined.

(** *** Byte order *)

(** One bit of a word of [w] bits whose bytes are exchanged. *)
Definition mirror (w i : Z) : Z := 8 * (w / 8 - 1 - i / 8) + i mod 8.

Ltac bit_of_word :=
  repeat match goal with
  | |- context [Z.testbit (Z.lor ?a ?b) ?i] => rewrite (Z.lor_spec a b i)
  | |- context [Z.testbit (Z.land ?a ?b) ?i] => rewrite (Z.land_spec a b i)
  | |- context [Z.testbit (Z.shiftl ?a ?n) ?i] => rewrite (Z.shiftl_spec a n i ltac:(lia))
  | |- context [Z.testbit (Z.shiftr ?a ?n) ?i] => rewrite (Z.shiftr_spec a n i ltac:(lia))
  | |- context [Z.testbit (wrap ?w ?a) ?i] => rewrite (testbit_wrap w a i ltac:(lia))
  end.

Ltac bit_by_bit x :=
  match goal with
  | |- context [seqZ 0 ?n] =>
      let l := eval vm_compute in (seqZ 0 n) in change (seqZ 0 n) with l
  end;
  repeat (apply List.Forall_cons || apply List.Forall_nil);
  bit_of_word;
  repeat match goal with
  | |- context [Z.testbit (Zpos ?m) ?i] =>
      let b := eval vm_compute in (Z.testbit (Zpos m) i) in
      change (Z.testbit (Zpos m) i) with b
  | |- context [?a <? ?b] => let c := eval vm_compute in (a <? b) in change (a <? b) with c
  end;
  rewrite ?andb_false_r, ?andb_true_r, ?orb_false_r; simpl; try reflexivity;
  rewrite ?andb_false_r, ?andb_true_r, ?orb_false_r; reflexivity.

Lemma bswap16_bit x i : 0 <= i < 16 -> Z.testbit (rte_bswap16 x) i = Z.testbit x (mirror 16 i).
Proof.
  apply (forall_below 16 (fun i => Z.testbit (rte_bswap16 x) i = Z.testbit x (mirror 16 i))).
  unfold rte_bswap16, rte_constant_bswap16, RTE_STATIC_BSWAP16. bit_by_bit x.
Qed.

Lemma bswap32_bit x i : 0 <= i < 32 -> Z.testbit (rte_bswap32 x) i = Z.testbit x (mirror 32 i).
Proof.
  apply (forall_below 32 (fun i => Z.testbit (rte_bswap32 x) i = Z.testbit x (mirror 32 i))).
  unfold rte_bswap32, rte_constant_bswap32, RTE_STATIC_BSWAP32. bit_by_bit x.
Qed.

Lemma bswap64_bit x i : 0 <= i < 64 -> Z.testbit (rte_bswap64 x) i = Z.testbit x (mirror 64 i).
Proof.
  apply (forall_below 64 (fun i => Z.testbit (rte_bswap64 x) i = Z.testbit x (mirror 64 i))).
  unfold rte_bswap64, rte_constant_bswap64, RTE_STATIC_BSWAP64. bit_by_bit x.
Qed.

(** The exchange of bytes of each width. *)
Definition bswap (w : Z) : Z -> Z :=
  if w =? 16 then rte_bswap16 else if w =? 32 then rte_bswap32 else rte_bswap64.

Lemma bswap_16 : bswap 16 = rte_bswap16.
Proof. reflexivity. Qed.
Lemma bswap_32 : bswap 32 = rte_bswap32.
Proof. reflexivity. Qed.
Lemma bswap_64 : bswap 64 = rte_bswap64.
Proof. reflexivity. Qed.

Lemma bswap_bit w x i :
  w = 16 \/ w = 32 \/ w = 64 -> 0 <= i < w ->
  Z.testbit (bswap w x) i = Z.testbit x (mirror w i).
Proof.
  intros [->|[->| ->]]; [apply bswap16_bit|apply bswap32_bit|apply bswap64_bit].
Qed.

Lemma bswap_fits w x : w = 16 \/ w = 32 \/ w = 64 -> fits w (bswap w x).
Proof. intros [->|[->| ->]]; apply wrap_fits; lia. Qed.

Lemma div_8 a r : 0 <= r < 8 -> (8 * a + r) / 8 = a /\ (8 * a + r) mod 8 = r.
Proof.
  intros Hr. rewrite (Z.mul_comm 8), (Z.add_comm (a * 8)), Z.div_add, Z.mod_add by lia.
  by rewrite Z.div_small, Z.mod_small by lia.
Qed.

Lemma byte_eq a b : fits 8 a -> fits 8 b ->
  (forall i, 0 <= i < 8 -> Z.testbit a i = Z.testbit b i) -> a = b.
Proof.
  intros Ha Hb H. apply Z.bits_inj'. intros i Hi.
  destruct (decide (i < 8)); [apply H; lia|].
  by rewrite !(testbit_beyond 8) by (done || lia).
Qed.

Lemma land_disjoint a b : fits 8 b -> Z.land (a * 2 ^ 8) b = 0.
Proof.
  intros Hb. apply Z.bits_inj'. intros i Hi. rewrite Z.land_spec, Z.testbit_0_l.
  destruct (decide (i < 8)).
  - by rewrite Z.mul_pow2_bits_low by lia.
  - by rewrite (testbit_beyond 8 b i), andb_false_r by (done || lia).
Qed.

Lemma bswap16_bytes b0 b1 :
  fits 8 b0 -> fits 8 b1 -> rte_be_to_cpu_16 (b0 + 2 ^ 8 * b1) = b0 * 2 ^ 8 + b1.
Proof.
  unfold fits. intros H0 H1. unfold rte_be_to_cpu_16, rte_bswap16, rte_constant_bswap16,
    RTE_STATIC_BSWAP16.
  rewrite (wrap_small 16 (b0 + 2 ^ 8 * b1)) by (unfold fits; lia).
  change 0xff with (2 ^ 8 - 1) at 1. rewrite land_mask by lia.
  rewrite Z.shiftr_land, Z.shiftr_div_pow2 by lia. change (Z.shiftr 0xff00 8) with (2 ^ 8 - 1).
  rewrite land_mask, Z.shiftl_mul_pow2, (Z.mul_comm _ b1), Z.mod_add, Z.div_add by lia.
  rewrite (Z.mod_small b0), (Z.div_small b0), Z.add_0_l, (Z.mod_small b1) by lia.
  rewrite <- Z.add_nocarry_lor by (by apply land_disjoint).
  apply wrap_small. unfold fits. lia.
Qed.

Lemma bytes_of_width w : w = 16 \/ w = 32 \/ w = 64 -> 0 < w /\ 8 * (w / 8) = w.
Proof. intros [->|[->| ->]]; split; reflexivity. Qed.

Lemma bswap_involutive w x :
  w = 16 \/ w = 32 \/ w = 64 -> fits w x -> bswap w (bswap w x) = x.
Proof.
  intros Hw Hx. destruct (bytes_of_width w Hw) as [Hd Hd'].
  apply Z.bits_inj'. intros i Hi. destruct (decide (i < w)).
  - pose proof (Z.div_mod i 8 ltac:(lia)). pose proof (Z.mod_pos_bound i 8 ltac:(lia)).
    assert (0 <= i / 8 < w / 8) by (split; [apply Z.div_pos|]; lia).
    rewrite !bswap_bit by (try done; unfold mirror; lia). f_equal. unfold mirror.
    destruct (div_8 (w / 8 - 1 - i / 8) (i mod 8)) as [-> ->]; lia.
  - by rewrite !(testbit_beyond w) by (done || lia || by apply bswap_fits).
Qed.

(** Exchanging the bytes of a 16-, 32- or 64-bit word: byte [j] of the
    result is byte [n - 1 - j] of the argument, the result is a word of the
    same width, and exchanging twice gives the argument back: the conversions
    to and from big endian are inverse to each other, and those to and from
    little endian, the identity. *)
Theorem byte_order_roundtrip (w x : Z) (Hw : w = 16 \/ w = 32 \/ w = 64) (Hx : fits w x) :
  bswap w (bswap w x) = x
  /\ fits w (bswap w x)
  /\ (forall j, 0 <= j < w / 8 ->
      u8 (Z.shiftr (bswap w x) (8 * j)) = u8 (Z.shiftr x (8 * (w / 8 - 1 - j))))
  /\ (w = 16 -> rte_be_to_cpu_16 (rte_cpu_to_be_16 x) = x)
  /\ (w = 32 -> rte_be_to_cpu_32 (rte_cpu_to_be_32 x) = x)
  /\ (w = 64 -> rte_be_to_cpu_64 (rte_cpu_to_be_64 x) = x).
Proof.
  destruct (bytes_of_width w Hw) as [Hd Hd'].
  pose proof (bswap_involutive w x Hw Hx) as E.
  split; [exact E|]. split; [by apply bswap_fits|].
  split; [|unfold rte_be_to_cpu_16, rte_be_to_cpu_32, rte_be_to_cpu_64,
             rte_cpu_to_be_16, rte_cpu_to_be_32, rte_cpu_to_be_64; split_and!; intros ->].
  2: { rewrite <- bswap_16. exact E. }
  2: { rewrite <- bswap_32. exact E. }
  2: { rewrite <- bswap_64. exact E. }
  intros j Hj. apply byte_eq; [apply wrap_fits; lia..|]. intros i Hi.
  rewrite (testbit_wrap 8 (Z.shiftr (bswap w x) _)), (testbit_wrap 8 (Z.shiftr x _)) by lia.
  rewrite !Z.shiftr_spec by lia. rewrite bswap_bit by (done || lia). do 2 f_equal.
  unfold mirror. rewrite (Z.add_comm i (8 * j)). destruct (div_8 j i) as [-> ->]; lia.
Qed.

Lemma byte_order_roundtrip_witness : rte_be_to_cpu_32 (rte_cpu_to_be_32 0x01020304) = 0x01020304.
Proof.
  destruct (byte_order_roundtrip 32 0x01020304) as (_ & _ & _ & _ & H & _);
    [by right; left|unfold fits; lia|]. by apply H.
Defined.

(** The relaxed bit operations on a 32-bit and a 64-bit word of memory:
    a bit number out of range shifts by the width or more, which is undefined;
    otherwise get tests the bit, set and clear change that bit alone, and
    [rte_bit_relaxed_test_and_set32] and the two test-and-clear return the
    bit's mask when it was set and 0 when it was not. The 64-bit
    test-and-set returns the whole word instead. *)
Theorem bit_operations (w nr v : Z) (Hw : w = 32 \/ w = 64) (Hv : fits w v) :
  let sel {A} (a b : M Z A) : M Z A := if w =? 32 then a else b in
  let bit := if Z.testbit v nr then 2 ^ nr else 0 in
  let ok {A} (r : A * Z) : option (A * Z) :=
    if (0 <=? nr) && (nr <? w) then Some r else None in
  sel (rte_bit_relaxed_get32 nr) (rte_bit_relaxed_get64 nr) v = ok (bit, v)
  /\ sel (rte_bit_relaxed_set32 nr) (rte_bit_relaxed_set64 nr) v = ok (tt, Z.setbit v nr)
  /\ sel (rte_bit_relaxed_clear32 nr) (rte_bit_relaxed_clear64 nr) v
     = ok (tt, Z.clearbit v nr)
  /\ sel (rte_bit_relaxed_test_and_set32 nr) (rte_bit_relaxed_test_and_set64 nr) v
     = ok (if w =? 32 then bit else v, Z.setbit v nr)
  /\ sel (rte_bit_relaxed_test_and_clear32 nr) (rte_bit_relaxed_test_and_clear64 nr) v
     = ok (bit, Z.clearbit v nr).
Proof.
  intros sel bit ok.
  assert (G : 0 <= nr -> Z.land v (2 ^ nr) = bit).
  { intros Hn. subst bit. apply Z.bits_inj'. intros i Hi.
    rewrite Z.land_spec, Z.pow2_bits_eqb by done. destruct (decide (nr = i)) as [<-|D].
    - rewrite Z.eqb_refl, andb_true_r.
      destruct (Z.testbit v nr) eqn:B; [by rewrite Z.pow2_bits_true|by rewrite Z.testbit_0_l].
    - replace (nr =? i) with false by lia. rewrite andb_false_r.
      destruct (Z.testbit v nr); [by rewrite Z.pow2_bits_false|by rewrite Z.testbit_0_l]. }
  assert (C : 0 <= nr < w -> Z.land v (wrap w (Z.lnot (2 ^ nr))) = Z.clearbit v nr).
  { intros Hn. apply Z.bits_inj'. intros i Hi.
    rewrite Z.land_spec, testbit_wrap, Z.lnot_spec, Z.clearbit_eqb by (destruct Hw; lia).
    rewrite Z.pow2_bits_eqb by lia. destruct (decide (i < w)).
    - by replace (i <? w) with true by lia.
    - by rewrite (testbit_beyond w v i) by (done || lia). }
  assert (S : 0 <= nr -> Z.lor v (2 ^ nr) = Z.setbit v nr) by (intros; by rewrite Z.setbit_spec').
  assert (R : (if w =? 32 then RTE_BIT32 nr else RTE_BIT64 nr)
              = if (0 <=? nr) && (nr <? w) then Some (2 ^ nr) else None).
  { destruct Hw as [->| ->]; simpl; unfold RTE_BIT32, RTE_BIT64.
    all: destruct (_ && _) eqn:B; [|done]; rewrite Z.shiftl_mul_pow2, wrap_small by
      (try (unfold fits; split; [|rewrite Z.mul_1_l; apply Z.pow_lt_mono_r]); lia).
    all: f_equal; lia. }
  subst sel ok. destruct Hw as [->| ->]; cbv beta iota delta [Z.eqb Pos.eqb] in *.
  all: unfold rte_bit_relaxed_get32, rte_bit_relaxed_set32, rte_bit_relaxed_clear32,
    rte_bit_relaxed_test_and_set32, rte_bit_relaxed_test_and_clear32,
    rte_bit_relaxed_get64, rte_bit_relaxed_set64, rte_bit_relaxed_clear64,
    rte_bit_relaxed_test_and_set64, rte_bit_relaxed_test_and_clear64,
    mbind, M_bind, lift, get, put, modify, mret, M_ret; rewrite R.
  all: destruct (_ && _) eqn:B; [|done].
  all: rewrite G, C, S by lia; done.
Qed.

Lemma bit_operations_witness :
  rte_bit_relaxed_test_and_set32 2 9 = Some (0, 13)
  /\ rte_bit_relaxed_test_and_set64 2 9 = Some (9, 13).
Proof.
  split.
  - by destruct (bit_operations 32 2 9) as (_ & _ & _ & H & _); [by left|unfold fits; lia|].
  - by destruct (bit_operations 64 2 9) as (_ & _ & _ & H & _); [by right|unfold fits; lia|].
Defined.
