(* ===== verification/Bitmap.v ===== *)
(** * Bitmaps ([include/rte_bitmap.h]).

    Two arrays of 64-bit slabs: a bit of [array2] is an element, a bit of
    [array1] says whether a cache line (8 slabs) of [array2] holds one.  The scan
    walks over the non-empty slabs with the help of [array1].  The bitmap lies in
    memory that the caller provides; the model keeps the contents of the two
    arrays, and [__rte_bitmap_get_memory_footprint] says where they lie. *)
From stdpp Require Import prelude list numbers.
From S2P Require Import Prelude Bits.
Open Scope Z_scope.

Definition RTE_BITMAP_SLAB_BIT_SIZE : Z := 64.
Definition RTE_BITMAP_SLAB_BIT_SIZE_LOG2 : Z := 6.
Definition RTE_BITMAP_SLAB_BIT_MASK : Z := RTE_BITMAP_SLAB_BIT_SIZE - 1.
Definition RTE_CACHE_LINE_SIZE : Z := 64.
Definition RTE_CACHE_LINE_MASK : Z := RTE_CACHE_LINE_SIZE - 1.
Definition RTE_BITMAP_CL_BIT_SIZE : Z := RTE_CACHE_LINE_SIZE * 8.
Definition RTE_BITMAP_CL_BIT_SIZE_LOG2 : Z := 6 + 3.
Definition RTE_BITMAP_CL_SLAB_SIZE : Z := RTE_BITMAP_CL_BIT_SIZE / RTE_BITMAP_SLAB_BIT_SIZE.
Definition RTE_BITMAP_CL_SLAB_SIZE_LOG2 : Z :=
  RTE_BITMAP_CL_BIT_SIZE_LOG2 - RTE_BITMAP_SLAB_BIT_SIZE_LOG2.
Definition RTE_BITMAP_CL_SLAB_MASK : Z := RTE_BITMAP_CL_SLAB_SIZE - 1.

Record rte_bitmap := mk_bitmap {
  array1 : list Z;
  array2 : list Z;
  array1_size : Z;
  array2_size : Z;
  index1 : Z;
  offset1 : Z;
  index2 : Z;
  go2 : Z
}.

Definition set_array1 v b :=
  mk_bitmap v (array2 b) (array1_size b) (array2_size b) (index1 b) (offset1 b) (index2 b) (go2 b).
Definition set_array2 v b :=
  mk_bitmap (array1 b) v (array1_size b) (array2_size b) (index1 b) (offset1 b) (index2 b) (go2 b).
Definition set_index1 v b :=
  mk_bitmap (array1 b) (array2 b) (array1_size b) (array2_size b) v (offset1 b) (index2 b) (go2 b).
Definition set_offset1 v b :=
  mk_bitmap (array1 b) (array2 b) (array1_size b) (array2_size b) (index1 b) v (index2 b) (go2 b).
Definition set_index2 v b :=
  mk_bitmap (array1 b) (array2 b) (array1_size b) (array2_size b) (index1 b) (offset1 b) v (go2 b).
Definition set_go2 v b :=
  mk_bitmap (array1 b) (array2 b) (array1_size b) (array2_size b) (index1 b) (offset1 b) (index2 b) v.

(** ** Reading and writing slabs *)

Definition slab1_get (i : Z) : M rte_bitmap Z := b ← get ; lift (aget (array1 b) i).
Definition slab2_get (i : Z) : M rte_bitmap Z := b ← get ; lift (aget (array2 b) i).
Definition slab1_put (i v : Z) : M rte_bitmap unit :=
  b ← get ; a ← lift (aset (array1 b) i v) ; put (set_array1 a b).
Definition slab2_put (i v : Z) : M rte_bitmap unit :=
  b ← get ; a ← lift (aset (array2 b) i v) ; put (set_array2 a b).

(** ** Scan state *)

Definition __rte_bitmap_index1_inc (b : rte_bitmap) : rte_bitmap :=
  set_index1 (Z.land (u32 (index1 b + 1)) (u32 (array1_size b - 1))) b.

Definition __rte_bitmap_mask1_get (b : rte_bitmap) : Z :=
  u64 (Z.shiftl (u64 (Z.lnot 1)) (offset1 b)).

Definition __rte_bitmap_index2_set (b : rte_bitmap) : rte_bitmap :=
  set_index2
    (u32 (Z.shiftl (u32 (u32 (Z.shiftl (index1 b) RTE_BITMAP_SLAB_BIT_SIZE_LOG2) + offset1 b))
            RTE_BITMAP_CL_SLAB_SIZE_LOG2)) b.

Definition __rte_bitmap_scan_init (b : rte_bitmap) : rte_bitmap :=
  let b := set_index1 (u32 (array1_size b - 1)) b in
  let b := set_offset1 (RTE_BITMAP_SLAB_BIT_SIZE - 1) b in
  let b := __rte_bitmap_index2_set b in
  let b := set_index2 (u32 (index2 b + RTE_BITMAP_CL_SLAB_SIZE)) b in
  set_go2 0 b.

(** ** Layout and initialisation *)

(** [sizeof(struct rte_bitmap)]. *)
Definition sizeof_bitmap : Z := 40.

(** The total, and the offset and the number of slabs of the two arrays. *)
Definition __rte_bitmap_get_memory_footprint (n_bits : Z) : Z * Z * Z * Z * Z :=
  let n_cache_lines_array2 := u32 (u32 (n_bits + RTE_BITMAP_CL_BIT_SIZE) - 1) / RTE_BITMAP_CL_BIT_SIZE in
  let n_slabs_array1 :=
    u32 (u32 (n_cache_lines_array2 + RTE_BITMAP_SLAB_BIT_SIZE) - 1) / RTE_BITMAP_SLAB_BIT_SIZE in
  let n_slabs_array1 := rte_align32pow2 n_slabs_array1 in
  let n_slabs_context :=
    (sizeof_bitmap + RTE_BITMAP_SLAB_BIT_SIZE / 8 - 1) / (RTE_BITMAP_SLAB_BIT_SIZE / 8) in
  let n_cache_lines_context_and_array1 :=
    u32 (u32 (u32 (n_slabs_context + n_slabs_array1) + RTE_BITMAP_CL_SLAB_SIZE) - 1)
      / RTE_BITMAP_CL_SLAB_SIZE in
  let n_bytes_total :=
    u32 (u32 (n_cache_lines_context_and_array1 + n_cache_lines_array2) * RTE_CACHE_LINE_SIZE) in
  (n_bytes_total,
   u32 (n_slabs_context * (RTE_BITMAP_SLAB_BIT_SIZE / 8)), n_slabs_array1,
   u32 (n_cache_lines_context_and_array1 * RTE_CACHE_LINE_SIZE),
   u32 (n_cache_lines_array2 * RTE_BITMAP_CL_SLAB_SIZE)).

Definition rte_bitmap_get_memory_footprint (n_bits : Z) : Z :=
  if n_bits =? 0 then 0 else (__rte_bitmap_get_memory_footprint n_bits).1.1.1.1.

Definition filled (v n : Z) : list Z := replicate (Z.to_nat n) v.

(** [Some None] is the result NULL; [None] is a write outside the [mem_size]
    bytes at [mem]. *)
Definition rte_bitmap_init (n_bits mem mem_size : Z) : option (option rte_bitmap) :=
  if n_bits =? 0 then Some None
  else if (mem =? 0) || truthy (Z.land mem RTE_CACHE_LINE_MASK) then Some None
  else
    let '(size, _, array1_slabs, _, array2_slabs) := __rte_bitmap_get_memory_footprint n_bits in
    if size >? mem_size then Some None
    else
      Some (Some (__rte_bitmap_scan_init
        (mk_bitmap (filled 0 array1_slabs) (filled 0 array2_slabs) array1_slabs array2_slabs 0 0 0 0))).

(** [for (i = offset; i < 64; i++) slabs[index] &= ~(1llu << i);] *)
Definition clear_from (offset v : Z) : Z :=
  foldl (fun v i => Z.land v (u64 (Z.lnot (Z.shiftl 1 (Z.of_nat i))))) v
    (seq (Z.to_nat offset) (64 - Z.to_nat offset)).

Definition __rte_bitmap_clear_slab_overhead_bits (slabs : list Z) (slab_size pos : Z)
  : option (list Z) :=
  let index := pos / RTE_BITMAP_SLAB_BIT_SIZE in
  let offset := Z.land pos RTE_BITMAP_SLAB_BIT_MASK in
  '(slabs, index) ←
    (if truthy offset then
       v ← aget slabs index ; slabs ← aset slabs index (clear_from offset v) ;
       Some (slabs, u32 (index + 1))
     else Some (slabs, index)) ;
  if index <? slab_size then
    mem_cpy slabs index (filled 0 (slab_size - index)) 0 (slab_size - index)
  else Some slabs.

Definition rte_bitmap_init_with_all_set (n_bits mem mem_size : Z) : option (option rte_bitmap) :=
  if negb (truthy n_bits) || negb (truthy mem) || truthy (Z.land mem RTE_CACHE_LINE_MASK)
  then Some None
  else
    let '(size, _, array1_slabs, _, array2_slabs) := __rte_bitmap_get_memory_footprint n_bits in
    if size <? mem_size then Some None
    else if mem_size <? size then None
    else
      let ones := 2 ^ 64 - 1 in
      let b := __rte_bitmap_scan_init (mk_bitmap [] [] array1_slabs array2_slabs 0 0 0 0) in
      a1 ← __rte_bitmap_clear_slab_overhead_bits (filled ones array1_slabs) array1_slabs
             (Z.shiftr array2_slabs RTE_BITMAP_CL_SLAB_SIZE_LOG2) ;
      a2 ← __rte_bitmap_clear_slab_overhead_bits (filled ones array2_slabs) array2_slabs n_bits ;
      Some (Some (set_array2 a2 (set_array1 a1 b))).

(** The argument is whether the pointer is NULL. *)
Definition rte_bitmap_free (null : bool) : Z := if null then -1 else 0.

Definition rte_bitmap_reset (b : rte_bitmap) : rte_bitmap :=
  __rte_bitmap_scan_init
    (set_array2 (filled 0 (array2_size b)) (set_array1 (filled 0 (array1_size b)) b)).

(** ** Elements *)

Definition rte_bitmap_get (pos : Z) : M rte_bitmap Z :=
  let index2 := Z.shiftr pos RTE_BITMAP_SLAB_BIT_SIZE_LOG2 in
  let offset2 := Z.land pos RTE_BITMAP_SLAB_BIT_MASK in
  slab2 ← slab2_get index2 ;
  mret (Z.land slab2 (u64 (Z.shiftl 1 offset2))).

Definition rte_bitmap_set_slab (pos slab : Z) : M rte_bitmap unit :=
  let index2 := Z.shiftr pos RTE_BITMAP_SLAB_BIT_SIZE_LOG2 in
  let index1 := Z.shiftr pos (RTE_BITMAP_SLAB_BIT_SIZE_LOG2 + RTE_BITMAP_CL_BIT_SIZE_LOG2) in
  let offset1 := Z.land (Z.shiftr pos RTE_BITMAP_CL_BIT_SIZE_LOG2) RTE_BITMAP_SLAB_BIT_MASK in
  slab2 ← slab2_get index2 ;
  slab2_put index2 (Z.lor slab2 slab) ;;
  slab1 ← slab1_get index1 ;
  slab1_put index1 (Z.lor slab1 (u64 (Z.shiftl 1 offset1))).

Definition rte_bitmap_set (pos : Z) : M rte_bitmap unit :=
  let index2 := Z.shiftr pos RTE_BITMAP_SLAB_BIT_SIZE_LOG2 in
  let offset2 := Z.land pos RTE_BITMAP_SLAB_BIT_MASK in
  let index1 := Z.shiftr pos (RTE_BITMAP_SLAB_BIT_SIZE_LOG2 + RTE_BITMAP_CL_BIT_SIZE_LOG2) in
  let offset1 := Z.land (Z.shiftr pos RTE_BITMAP_CL_BIT_SIZE_LOG2) RTE_BITMAP_SLAB_BIT_MASK in
  slab2 ← slab2_get index2 ;
  slab2_put index2 (Z.lor slab2 (u64 (Z.shiftl 1 offset2))) ;;
  slab1 ← slab1_get index1 ;
  slab1_put index1 (Z.lor slab1 (u64 (Z.shiftl 1 offset1))).

Definition __rte_bitmap_line_not_empty (i : Z) : M rte_bitmap Z :=
  s0 ← slab2_get i ; s1 ← slab2_get (i + 1) ; s2 ← slab2_get (i + 2) ; s3 ← slab2_get (i + 3) ;
  s4 ← slab2_get (i + 4) ; s5 ← slab2_get (i + 5) ; s6 ← slab2_get (i + 6) ; s7 ← slab2_get (i + 7) ;
  let v1 := Z.lor s0 s1 in
  let v2 := Z.lor s2 s3 in
  let v3 := Z.lor s4 s5 in
  let v4 := Z.lor s6 s7 in
  let v1 := Z.lor v1 v2 in
  let v3 := Z.lor v3 v4 in
  mret (Z.lor v1 v3).

Definition rte_bitmap_clear (pos : Z) : M rte_bitmap unit :=
  let index2 := Z.shiftr pos RTE_BITMAP_SLAB_BIT_SIZE_LOG2 in
  let offset2 := Z.land pos RTE_BITMAP_SLAB_BIT_MASK in
  slab2 ← slab2_get index2 ;
  let slab2 := Z.land slab2 (u64 (Z.lnot (Z.shiftl 1 offset2))) in
  slab2_put index2 slab2 ;;
  if truthy slab2 then mret tt
  else
    let index2 := Z.land index2 (u32 (Z.lnot RTE_BITMAP_CL_SLAB_MASK)) in
    v ← __rte_bitmap_line_not_empty index2 ;
    if truthy v then mret tt
    else
      let index1 := Z.shiftr pos (RTE_BITMAP_SLAB_BIT_SIZE_LOG2 + RTE_BITMAP_CL_BIT_SIZE_LOG2) in
      let offset1 := Z.land (Z.shiftr pos RTE_BITMAP_CL_BIT_SIZE_LOG2) RTE_BITMAP_SLAB_BIT_MASK in
      slab1 ← slab1_get index1 ;
      slab1_put index1 (Z.land slab1 (u64 (Z.lnot (Z.shiftl 1 offset1)))).

(** ** Scan *)

(** One look at an array1 slab: the result of [rte_bsf64_safe(value1,
    &bmp->offset1)]. *)
Definition look_at (value1 : Z) : M rte_bitmap Z :=
  '(r, p) ← lift (rte_bsf64_safe value1) ;
  match p with
  | Some p => modify (set_offset1 p)
  | None => mret tt
  end ;;
  mret r.

Definition __rte_bitmap_scan_search : M rte_bitmap Z :=
  b ← get ;
  value1 ← slab1_get (index1 b) ;
  r ← look_at (Z.land value1 (__rte_bitmap_mask1_get b)) ;
  if truthy r then mret 1
  else
    modify __rte_bitmap_index1_inc ;;
    modify (set_offset1 0) ;;
    do_while (Datatypes.S (Z.to_nat (array1_size b)))
      (fun i : Z =>
         b ← get ;
         if i <? array1_size b then
           value1 ← slab1_get (index1 b) ;
           r ← look_at value1 ;
           if truthy r then mret (inr 1)
           else modify __rte_bitmap_index1_inc ;; mret (inl (u32 (i + 1)))
         else mret (inr 0)) 0.

Definition __rte_bitmap_scan_read_init (b : rte_bitmap) : rte_bitmap :=
  set_go2 1 (__rte_bitmap_index2_set b).

Definition next_slab (b : rte_bitmap) : rte_bitmap :=
  let b := set_index2 (u32 (index2 b + 1)) b in
  set_go2 (Z.land (index2 b) RTE_BITMAP_CL_SLAB_MASK) b.

(** [*pos] and [*slab], when the result is 1. *)
Definition __rte_bitmap_scan_read : M rte_bitmap (option (Z * Z)) :=
  do_while 9
    (fun _ : unit =>
       b ← get ;
       if truthy (go2 b) then
         slab2 ← slab2_get (index2 b) ;
         modify next_slab ;;
         if truthy slab2 then
           mret (inr (Some (u32 (Z.shiftl (index2 b) RTE_BITMAP_SLAB_BIT_SIZE_LOG2), slab2)))
         else mret (inl tt)
       else mret (inr None)) tt.

(** The result and, when they are written, [*pos] and [*slab]. *)
Definition rte_bitmap_scan : M rte_bitmap (Z * option (Z * Z)) :=
  o ← __rte_bitmap_scan_read ;
  if o is Some _ then mret (1, o)
  else
    r ← __rte_bitmap_scan_search ;
    if truthy r then
      modify __rte_bitmap_scan_read_init ;;
      o ← __rte_bitmap_scan_read ;
      mret (1, o)
    else mret (0, None).

(** * Lemmas *)

(** ** Slabs *)

Definition s1 (b : rte_bitmap) (i : Z) : Z := default 0 (aget (array1 b) i).
Definition s2 (b : rte_bitmap) (i : Z) : Z := default 0 (aget (array2 b) i).

Lemma aget_insert' (l : list Z) i j v :
  0 <= i < Z.of_nat (length l) ->
  default 0 (aget (<[Z.to_nat i := v]> l) j) = if j =? i then v else default 0 (aget l j).
Proof.
  intros Hi. unfold aget. destruct (Z.eqb_spec j i) as [->|N].
  - rewrite (proj2 (Z.leb_le 0 i)), list_lookup_insert_eq by lia. done.
  - destruct (Z.leb_spec 0 j); [|done]. by rewrite list_lookup_insert_ne by lia.
Qed.

Lemma slab2_put_run b i v :
  0 <= i < Z.of_nat (length (array2 b)) ->
  exists a, slab2_put i v b = Some (tt, set_array2 a b)
    /\ length a = length (array2 b)
    /\ forall j, default 0 (aget a j) = if j =? i then v else s2 b j.
Proof.
  intros Hi. exists (<[Z.to_nat i := v]> (array2 b)). unfold slab2_put, get, lift, put, mbind, M_bind.
  rewrite aset_ok by done. split; [done|]. split; [apply length_insert|]. intros j. by apply aget_insert'.
Qed.

Lemma slab1_put_run b i v :
  0 <= i < Z.of_nat (length (array1 b)) ->
  exists a, slab1_put i v b = Some (tt, set_array1 a b)
    /\ length a = length (array1 b)
    /\ forall j, default 0 (aget a j) = if j =? i then v else s1 b j.
Proof.
  intros Hi. exists (<[Z.to_nat i := v]> (array1 b)). unfold slab1_put, get, lift, put, mbind, M_bind.
  rewrite aset_ok by done. split; [done|]. split; [apply length_insert|]. intros j. by apply aget_insert'.
Qed.

Lemma slab2_get_run b i :
  0 <= i < Z.of_nat (length (array2 b)) -> slab2_get i b = Some (s2 b i, b).
Proof. intros Hi. unfold slab2_get, get, lift, mbind, M_bind. by rewrite aget_in. Qed.

Lemma slab1_get_run b i :
  0 <= i < Z.of_nat (length (array1 b)) -> slab1_get i b = Some (s1 b i, b).
Proof. intros Hi. unfold slab1_get, get, lift, mbind, M_bind. by rewrite aget_in. Qed.

(** ** Well-formed bitmaps *)

Record wf (b : rte_bitmap) : Prop := {
  wf_size1 : exists k, 0 <= k <= 17 /\ array1_size b = 2 ^ k;
  wf_len1 : Z.of_nat (length (array1 b)) = array1_size b;
  wf_len2 : Z.of_nat (length (array2 b)) = array2_size b;
  wf_lines : array2_size b mod 8 = 0;
  wf_room : array2_size b <= 512 * array1_size b;
  wf_fits1 : forall i, fits 64 (s1 b i);
  wf_fits2 : forall i, fits 64 (s2 b i);
  wf_marks : forall i, 0 <= i < 64 * array1_size b ->
    (Z.testbit (s1 b (i / 64)) (i mod 64) = true <-> exists j, 0 <= j < 8 /\ s2 b (8 * i + j) <> 0)
}.

(** The position of the scan. *)
Record scan_ok (b : rte_bitmap) : Prop := {
  sc_index1 : 0 <= index1 b < array1_size b;
  sc_offset1 : 0 <= offset1 b < 64;
  sc_index2 : fits 32 (index2 b);
  sc_go2 : go2 b <> 0 -> index2 b / 8 = 64 * index1 b + offset1 b /\ index2 b < array2_size b
}.

(** Only the arrays differ. *)
Definition same_scan (b b' : rte_bitmap) : Prop :=
  array1_size b' = array1_size b /\ array2_size b' = array2_size b /\ index1 b' = index1 b
  /\ offset1 b' = offset1 b /\ index2 b' = index2 b /\ go2 b' = go2 b.

Lemma scan_ok_same b b' : same_scan b b' -> scan_ok b -> scan_ok b'.
Proof. intros (E1 & E2 & E3 & E4 & E5 & E6) []. by split; rewrite ?E1, ?E2, ?E3, ?E4, ?E5, ?E6. Qed.

Lemma same_arrays b a1 a2 : same_scan b (set_array2 a2 (set_array1 a1 b)).
Proof. by destruct b. Qed.

Lemma size1_bound b : wf b -> 1 <= array1_size b <= 2 ^ 17.
Proof.
  intros W. destruct (wf_size1 b W) as (k & Hk & ->). split.
  - assert (0 < 2 ^ k) by lia. lia.
  - apply Z.pow_le_mono_r; lia.
Qed.

(** The slabs after one of them changed, and the mark of its line. *)
Lemma wf_update b a1 a2 j0 v (mark : bool) :
  wf b -> 0 <= j0 < array2_size b -> fits 64 v ->
  length a1 = length (array1 b) -> length a2 = length (array2 b) ->
  (forall j, default 0 (aget a2 j) = if j =? j0 then v else s2 b j) ->
  (forall i n, 0 <= n < 64 -> Z.testbit (default 0 (aget a1 i)) n =
     if (64 * i + n =? j0 / 8) then mark else Z.testbit (s1 b i) n) ->
  (forall i, fits 64 (default 0 (aget a1 i))) ->
  (mark = true <-> exists k, 0 <= k < 8 /\ default 0 (aget a2 (8 * (j0 / 8) + k)) <> 0) ->
  wf (set_array1 a1 (set_array2 a2 b)).
Proof.
  intros W Hj Hv L1 L2 H2 H1 F1 Hm. destruct W as [Ws Wl1 Wl2 Wn Wr Wf1 Wf2 Wm]. split; simpl.
  - done.
  - by rewrite L1.
  - by rewrite L2.
  - done.
  - done.
  - exact F1.
  - intros i. unfold s2. simpl. rewrite H2. by case_match.
  - intros i Hi. unfold s1, s2. simpl. rewrite H1 by (apply Z.mod_pos_bound; lia).
    replace (64 * (i / 64) + i mod 64) with i by (apply Z.div_mod; lia).
    destruct (Z.eqb_spec i (j0 / 8)) as [->|N]; [done|].
    rewrite (Wm i Hi). apply exist_proper. intros k. split; intros [Hk Hn]; (split; [done|]);
      revert Hn; rewrite H2, (proj2 (Z.eqb_neq (8 * i + k) j0)); try done;
      intros E; apply N; apply (Z.div_unique_pos _ _ _ k); lia.
Qed.

(** ** Positions of bits *)

Lemma pos_slab pos : Z.shiftr pos RTE_BITMAP_SLAB_BIT_SIZE_LOG2 = pos / 64.
Proof. apply (Z.shiftr_div_pow2 pos 6). lia. Qed.
Lemma pos_offset pos : Z.land pos RTE_BITMAP_SLAB_BIT_MASK = pos mod 64.
Proof. apply land_63'. Qed.
Lemma pos_slab1 pos :
  Z.shiftr pos (RTE_BITMAP_SLAB_BIT_SIZE_LOG2 + RTE_BITMAP_CL_BIT_SIZE_LOG2) = pos / 64 / 8 / 64.
Proof.
  rewrite !Z.div_div by lia. apply (Z.shiftr_div_pow2 pos 15). lia.
Qed.
Lemma pos_offset1 pos :
  Z.land (Z.shiftr pos RTE_BITMAP_CL_BIT_SIZE_LOG2) RTE_BITMAP_SLAB_BIT_MASK = (pos / 64 / 8) mod 64.
Proof.
  rewrite Z.div_div by lia. unfold RTE_BITMAP_SLAB_BIT_MASK. simpl. rewrite land_63'.
  f_equal. apply (Z.shiftr_div_pow2 pos 9). lia.
Qed.

Lemma slab_bounds b pos : wf b -> 0 <= pos < 64 * array2_size b ->
  0 <= pos / 64 < array2_size b /\ 0 <= pos / 64 / 8 / 64 < array1_size b.
Proof.
  intros W Hp. pose proof (wf_room b W).
  assert (0 <= pos / 64 < array2_size b) as H1 by (split; [apply Z.div_pos|apply Z.div_lt_upper_bound]; lia).
  split; [done|]. split; [repeat apply Z.div_pos; lia|]. do 2 (apply Z.div_lt_upper_bound; [lia|]). lia.
Qed.

(** [rte_bitmap_set] sets the slab of one bit. *)
Lemma set_is_set_slab pos : rte_bitmap_set pos = rte_bitmap_set_slab pos (u64 (Z.shiftl 1 (pos mod 64))).
Proof. unfold rte_bitmap_set. by rewrite (pos_offset pos). Qed.

Lemma set_slab_run b pos slab :
  wf b -> 0 <= pos < 64 * array2_size b -> fits 64 slab -> slab <> 0 ->
  exists b', rte_bitmap_set_slab pos slab b = Some (tt, b') /\ wf b' /\ same_scan b b'
    /\ forall j, s2 b' j = if j =? pos / 64 then Z.lor (s2 b j) slab else s2 b j.
Proof.
  intros W Hp Hf Hs. destruct (slab_bounds b pos W Hp) as [Hj Hi].
  unfold rte_bitmap_set_slab. rewrite pos_slab, pos_slab1, pos_offset1.
  set (j := pos / 64) in *. pose proof (Z.mod_pos_bound (j / 8) 64 ltac:(lia)) as Ho.
  rewrite (mbind_run _ _ _ _ _ (slab2_get_run b j ltac:(rewrite (wf_len2 b W); lia))).
  destruct (slab2_put_run b j (Z.lor (s2 b j) slab)) as (a2 & E2 & L2 & H2);
    [rewrite (wf_len2 b W); lia|].
  rewrite (mbind_run _ _ _ _ _ E2).
  assert (Hl1 : 0 <= j / 8 / 64 < Z.of_nat (length (array1 (set_array2 a2 b))))
    by (simpl; rewrite (wf_len1 b W); lia).
  rewrite (mbind_run _ _ _ _ _ (slab1_get_run _ _ Hl1)).
  destruct (slab1_put_run _ _ (Z.lor (s1 (set_array2 a2 b) (j / 8 / 64)) (u64 (Z.shiftl 1 ((j / 8) mod 64)))) Hl1)
    as (a1 & E1 & L1 & H1).
  exists (set_array1 a1 (set_array2 a2 b)). split; [exact E1|].
  change (forall i, default 0 (aget a1 i) = if i =? j / 8 / 64
    then Z.lor (s1 b (j / 8 / 64)) (u64 (Z.shiftl 1 ((j / 8) mod 64))) else s1 b i) in H1.
  assert (Hone : fits 64 (u64 (Z.shiftl 1 ((j / 8) mod 64)))) by (apply wrap_fits; lia).
  split.
  - apply (wf_update b a1 a2 j (Z.lor (s2 b j) slab) true); try done.
    + apply fits_lor; [lia|apply (wf_fits2 b W)|done].
    + intros i n Hn. rewrite H1. pose proof (Z.div_mod (j / 8) 64 ltac:(lia)).
      destruct (Z.eqb_spec i (j / 8 / 64)) as [->|N].
      * rewrite Z.lor_spec, one_bit by done.
        destruct (Z.eqb_spec ((j / 8) mod 64) n), (Z.eqb_spec (64 * (j / 8 / 64) + n) (j / 8));
          rewrite ?orb_true_r, ?orb_false_r; (done || lia).
      * destruct (Z.eqb_spec (64 * i + n) (j / 8)) as [E|]; [|done].
        destruct N. apply (Z.div_unique_pos _ _ _ n); lia.
    + intros i. rewrite H1. case_match; [|apply (wf_fits1 b W)].
      apply fits_lor; [lia|apply (wf_fits1 b W)|done].
    + split; [intros _|done]. exists (j mod 8). split; [apply Z.mod_pos_bound; lia|].
      rewrite <- Z.div_mod by lia. rewrite H2, Z.eqb_refl, lor_zero_iff. by intros [_ ?].
  - split; [repeat split|]. intros i. unfold s2 at 1. simpl. rewrite H2.
    by destruct (Z.eqb_spec i j) as [->|].
Qed.

Lemma line_run b i :
  0 <= i -> i + 8 <= Z.of_nat (length (array2 b)) ->
  exists v, __rte_bitmap_line_not_empty i b = Some (v, b)
    /\ (truthy v = true <-> exists k, 0 <= k < 8 /\ s2 b (i + k) <> 0).
Proof.
  intros Hi Hl. unfold __rte_bitmap_line_not_empty.
  rewrite (mbind_run _ _ _ _ _ (slab2_get_run b i ltac:(lia))).
  assert (E : forall k (f : Z -> M rte_bitmap Z), 0 <= k < 8 ->
    (slab2_get (i + k) ≫= f) b = f (s2 b (i + k)) b).
  { intros k f Hk. by rewrite (mbind_run _ _ _ _ _ (slab2_get_run b (i + k) ltac:(lia))). }
  rewrite (E 1), (E 2), (E 3), (E 4), (E 5), (E 6), (E 7) by lia. unfold mret, M_ret.
  eexists. split; [reflexivity|]. rewrite truthy_true, !lor_zero_iff. split.
  - intros H.
    destruct (decide (s2 b i = 0)); [|exists 0; rewrite Z.add_0_r; split; [lia|done]].
    destruct (decide (s2 b (i + 1) = 0)); [|by exists 1].
    destruct (decide (s2 b (i + 2) = 0)); [|by exists 2].
    destruct (decide (s2 b (i + 3) = 0)); [|by exists 3].
    destruct (decide (s2 b (i + 4) = 0)); [|by exists 4].
    destruct (decide (s2 b (i + 5) = 0)); [|by exists 5].
    destruct (decide (s2 b (i + 6) = 0)); [|by exists 6].
    destruct (decide (s2 b (i + 7) = 0)); [|by exists 7]. tauto.
  - intros (k & Hk & Hn) H. apply Hn.
    assert (k = 0 \/ k = 1 \/ k = 2 \/ k = 3 \/ k = 4 \/ k = 5 \/ k = 6 \/ k = 7) as Hc by lia.
    destruct Hc as [->|[->|[->|[->|[->|[->|[->| ->]]]]]]]; rewrite ?Z.add_0_r; tauto.
Qed.

(** The slabs after a bit was cleared. *)
Definition cleared (b : rte_bitmap) (pos : Z) (a2 : list Z) : Prop :=
  length a2 = length (array2 b)
  /\ forall j, default 0 (aget a2 j) = if j =? pos / 64
       then Z.land (s2 b j) (u64 (Z.lnot (Z.shiftl 1 (pos mod 64)))) else s2 b j.

(** What is shown of the result. *)
Definition clear_post (b : rte_bitmap) (pos : Z) (b' : rte_bitmap) : Prop :=
  wf b' /\ same_scan b b'
  /\ forall j, s2 b' j = if j =? pos / 64
       then Z.land (s2 b j) (u64 (Z.lnot (Z.shiftl 1 (pos mod 64)))) else s2 b j.

Lemma cleared_put b pos :
  0 <= pos / 64 < Z.of_nat (length (array2 b)) ->
  exists a2, slab2_put (pos / 64) (Z.land (s2 b (pos / 64)) (u64 (Z.lnot (Z.shiftl 1 (pos mod 64))))) b
    = Some (tt, set_array2 a2 b) /\ cleared b pos a2.
Proof.
  intros H. destruct (slab2_put_run b (pos / 64)
    (Z.land (s2 b (pos / 64)) (u64 (Z.lnot (Z.shiftl 1 (pos mod 64))))) H) as (a2 & E & L & Ha).
  exists a2. split; [done|]. split; [done|]. intros j. rewrite Ha.
  by destruct (Z.eqb_spec j (pos / 64)) as [->|].
Qed.

Lemma clear_marked b pos a1 a2 (mark : bool) :
  wf b -> 0 <= pos < 64 * array2_size b -> cleared b pos a2 ->
  length a1 = length (array1 b) ->
  (forall i n, 0 <= n < 64 -> Z.testbit (default 0 (aget a1 i)) n =
     if (64 * i + n =? pos / 64 / 8) then mark else Z.testbit (s1 b i) n) ->
  (forall i, fits 64 (default 0 (aget a1 i))) ->
  (mark = true <-> exists k, 0 <= k < 8 /\ default 0 (aget a2 (8 * (pos / 64 / 8) + k)) <> 0) ->
  clear_post b pos (set_array1 a1 (set_array2 a2 b)).
Proof.
  intros W Hp [L2 H2] L1 H1 F1 Hm. destruct (slab_bounds b pos W Hp) as [Hj _]. split.
  - apply (wf_update b a1 a2 (pos / 64)
      (Z.land (s2 b (pos / 64)) (u64 (Z.lnot (Z.shiftl 1 (pos mod 64))))) mark); try done.
    + apply fits_land; [lia|apply (wf_fits2 b W)].
    + intros j. rewrite H2. by destruct (Z.eqb_spec j (pos / 64)) as [->|].
  - split; [repeat split|]. exact H2.
Qed.

(** When the line still holds a bit, [array1] does not change. *)
Lemma clear_same b pos a2 :
  wf b -> 0 <= pos < 64 * array2_size b -> cleared b pos a2 ->
  (exists k, 0 <= k < 8 /\ default 0 (aget a2 (8 * (pos / 64 / 8) + k)) <> 0) ->
  clear_post b pos (set_array2 a2 b).
Proof.
  intros W Hp C Hk. pose proof C as [_ H2]. destruct (slab_bounds b pos W Hp) as [Hj Hi].
  pose proof (wf_room b W). set (j := pos / 64) in *.
  pose proof (Z.mod_pos_bound (j / 8) 64 ltac:(lia)) as Ho.
  apply (clear_marked b pos (array1 b) a2 true); try done; [|apply (wf_fits1 b W)].
  intros i n Hn. change (default 0 (aget (array1 b) i)) with (s1 b i). fold j.
  destruct (Z.eqb_spec (64 * i + n) (j / 8)) as [E|]; [|done].
  assert (i = j / 8 / 64) as -> by (apply (Z.div_unique_pos _ _ _ n); lia).
  assert (n = (j / 8) mod 64) as -> by (pose proof (Z.div_mod (j / 8) 64 ltac:(lia)); lia).
  apply (wf_marks b W); [split; [apply Z.div_pos; lia|apply Z.div_lt_upper_bound; lia]|].
  destruct Hk as (k & Hk & Hn'). exists k. split; [done|]. revert Hn'. rewrite H2.
  destruct (Z.eqb_spec (8 * (j / 8) + k) j) as [E'|]; [|done].
  rewrite E'. intros Hv Hz. apply Hv. by rewrite Hz, Z.land_0_l.
Qed.

(** When it does not, its mark is cleared. *)
Lemma clear_unmark b pos a2 :
  wf b -> 0 <= pos < 64 * array2_size b -> cleared b pos a2 ->
  ~ (exists k, 0 <= k < 8 /\ default 0 (aget a2 (8 * (pos / 64 / 8) + k)) <> 0) ->
  exists b', (slab1 ← slab1_get (pos / 64 / 8 / 64) ;
     slab1_put (pos / 64 / 8 / 64) (Z.land slab1 (u64 (Z.lnot (Z.shiftl 1 ((pos / 64 / 8) mod 64))))))
       (set_array2 a2 b) = Some (tt, b') /\ clear_post b pos b'.
Proof.
  intros W Hp C Hk. destruct (slab_bounds b pos W Hp) as [Hj Hi]. set (j := pos / 64) in *.
  pose proof (Z.mod_pos_bound (j / 8) 64 ltac:(lia)) as Ho.
  assert (Hl1 : 0 <= j / 8 / 64 < Z.of_nat (length (array1 (set_array2 a2 b))))
    by (simpl; rewrite (wf_len1 b W); lia).
  rewrite (mbind_run _ _ _ _ _ (slab1_get_run _ _ Hl1)).
  destruct (slab1_put_run _ _ (Z.land (s1 (set_array2 a2 b) (j / 8 / 64))
    (u64 (Z.lnot (Z.shiftl 1 ((j / 8) mod 64))))) Hl1) as (a1 & E1 & L1 & H1).
  exists (set_array1 a1 (set_array2 a2 b)). split; [exact E1|].
  change (forall i, default 0 (aget a1 i) = if i =? j / 8 / 64
    then Z.land (s1 b (j / 8 / 64)) (u64 (Z.lnot (Z.shiftl 1 ((j / 8) mod 64)))) else s1 b i) in H1.
  apply (clear_marked b pos a1 a2 false); [done..| | |by split; [|intros Hk2%Hk]].
  - intros i n Hn. fold j. rewrite H1. pose proof (Z.div_mod (j / 8) 64 ltac:(lia)).
    destruct (Z.eqb_spec i (j / 8 / 64)) as [->|N].
    + rewrite Z.land_spec, other_bits, (proj2 (Z.ltb_lt n 64)) by lia. cbn [andb].
      destruct (Z.eqb_spec ((j / 8) mod 64) n), (Z.eqb_spec (64 * (j / 8 / 64) + n) (j / 8));
        cbn [negb]; rewrite ?andb_false_r, ?andb_true_r; (done || lia).
    + destruct (Z.eqb_spec (64 * i + n) (j / 8)) as [E|]; [|done].
      destruct N. apply (Z.div_unique_pos _ _ _ n); lia.
  - intros i. rewrite H1. case_match; [|apply (wf_fits1 b W)].
    apply fits_land; [lia|apply (wf_fits1 b W)].
Qed.

Lemma clear_run b pos :
  wf b -> 0 <= pos < 64 * array2_size b ->
  exists b', rte_bitmap_clear pos b = Some (tt, b') /\ clear_post b pos b'.
Proof.
  intros W Hp. destruct (slab_bounds b pos W Hp) as [Hj Hi]. pose proof (size1_bound b W) as Hs1.
  pose proof (wf_room b W) as Hroom. pose proof (wf_lines b W) as Hln.
  unfold rte_bitmap_clear. rewrite pos_slab, (pos_offset pos), pos_slab1, pos_offset1.
  rewrite (mbind_run _ _ _ _ _ (slab2_get_run b (pos / 64) ltac:(rewrite (wf_len2 b W); lia))).
  destruct (cleared_put b pos ltac:(rewrite (wf_len2 b W); lia)) as (a2 & E2 & C).
  rewrite (mbind_run _ _ _ _ _ E2). pose proof C as [L2 H2].
  destruct (truthy _) eqn:Tv.
  { apply truthy_true in Tv. exists (set_array2 a2 b). split; [done|]. apply clear_same; try done.
    exists ((pos / 64) mod 8). split; [apply Z.mod_pos_bound; lia|].
    rewrite <- Z.div_mod by lia. by rewrite H2, Z.eqb_refl. }
  assert (Z.land (pos / 64) (u32 (Z.lnot RTE_BITMAP_CL_SLAB_MASK)) = 8 * (pos / 64 / 8)) as ->.
  { rewrite (land_clear_low 32 3);
      [pose proof (Z.div_mod (pos / 64) 8 ltac:(lia)); change (2 ^ 3) with 8; lia|lia|].
    unfold fits. lia. }
  assert (8 * (pos / 64 / 8) + 8 <= array2_size b).
  { pose proof (Z.div_mod (array2_size b) 8 ltac:(lia)).
    assert (pos / 64 / 8 < array2_size b / 8) by (apply Z.div_lt_upper_bound; lia). lia. }
  destruct (line_run (set_array2 a2 b) (8 * (pos / 64 / 8))) as (e & Ee & He);
    [pose proof (Z.div_pos (pos / 64) 8); lia|simpl; rewrite L2, (wf_len2 b W); lia|].
  rewrite (mbind_run _ _ _ _ _ Ee).
  destruct (truthy e).
  - exists (set_array2 a2 b). split; [done|]. apply clear_same; try done. by apply He.
  - apply clear_unmark; try done. intros Hk. by apply He in Hk.
Qed.

(** ** Elements *)

Definition has (b : rte_bitmap) (p : Z) : bool := Z.testbit (s2 b (p / 64)) (p mod 64).

Lemma masked_bit v o : 0 <= o < 64 -> truthy (Z.land v (u64 (Z.shiftl 1 o))) = Z.testbit v o.
Proof.
  intros Ho. destruct (Z.testbit v o) eqn:E.
  - apply truthy_true. intros Hz. apply (f_equal (fun z => Z.testbit z o)) in Hz.
    rewrite Z.land_spec, one_bit, Z.eqb_refl, E, Z.testbit_0_l in Hz by done. done.
  - unfold truthy. apply negb_false_iff, Z.eqb_eq, Z.bits_inj'. intros n Hn.
    rewrite Z.land_spec, one_bit, Z.testbit_0_l by done.
    destruct (Z.eqb_spec o n) as [->|]; [by rewrite E|apply andb_false_r].
Qed.

Lemma get_run b p :
  wf b -> 0 <= p < 64 * array2_size b ->
  exists v, rte_bitmap_get p b = Some (v, b) /\ truthy v = has b p.
Proof.
  intros W Hp. destruct (slab_bounds b p W Hp) as [Hj _]. unfold rte_bitmap_get.
  rewrite pos_slab, (pos_offset p).
  rewrite (mbind_run _ _ _ _ _ (slab2_get_run b _ ltac:(rewrite (wf_len2 b W); exact Hj))).
  eexists. split; [reflexivity|]. apply masked_bit, Z.mod_pos_bound. lia.
Qed.

Lemma pos_eq p q : p / 64 = q / 64 -> p mod 64 = q mod 64 -> p = q.
Proof. intros E1 E2. rewrite (Z.div_mod p 64), (Z.div_mod q 64) by lia. congruence. Qed.

Lemma set_slab_has b b' p slab :
  (forall j, s2 b' j = if j =? p / 64 then Z.lor (s2 b j) slab else s2 b j) ->
  forall q, has b' q = has b q || (q / 64 =? p / 64) && Z.testbit slab (q mod 64).
Proof.
  intros H q. unfold has. rewrite H. destruct (Z.eqb_spec (q / 64) (p / 64)); cbn [andb].
  - apply Z.lor_spec.
  - by rewrite orb_false_r.
Qed.

Lemma one_bit_nonzero o : 0 <= o < 64 -> fits 64 (u64 (Z.shiftl 1 o)) /\ u64 (Z.shiftl 1 o) <> 0.
Proof.
  intros Ho. split; [by apply wrap_fits|]. apply truthy_true.
  pose proof (masked_bit (u64 (Z.shiftl 1 o)) o Ho) as E. rewrite Z.land_diag in E.
  by rewrite E, one_bit, Z.eqb_refl.
Qed.

Lemma set_run b p :
  wf b -> 0 <= p < 64 * array2_size b ->
  exists b', rte_bitmap_set p b = Some (tt, b') /\ wf b' /\ same_scan b b'
    /\ forall q, has b' q = has b q || (q =? p).
Proof.
  intros W Hp. pose proof (Z.mod_pos_bound p 64 ltac:(lia)) as Ho.
  destruct (one_bit_nonzero _ Ho) as [Hf Hn]. rewrite set_is_set_slab.
  destruct (set_slab_run b p _ W Hp Hf Hn) as (b' & E & W' & S & H). exists b'.
  split; [done|]. split; [done|]. split; [done|]. intros q.
  rewrite (set_slab_has b b' p _ H), one_bit by done. f_equal.
  destruct (Z.eqb_spec q p) as [->|N]; [by rewrite !Z.eqb_refl|].
  destruct (Z.eqb_spec (q / 64) (p / 64)), (Z.eqb_spec (p mod 64) (q mod 64)); try done.
  destruct N. by apply pos_eq.
Qed.

Lemma clear_has b b' p :
  clear_post b p b' -> 0 <= p -> forall q, has b' q = has b q && negb (q =? p).
Proof.
  intros (_ & _ & H) Hp q. unfold has. rewrite H.
  pose proof (Z.mod_pos_bound p 64 ltac:(lia)). pose proof (Z.mod_pos_bound q 64 ltac:(lia)).
  destruct (Z.eqb_spec q p) as [->|N].
  - by rewrite !Z.eqb_refl, Z.land_spec, other_bits, Z.eqb_refl, !andb_false_r by lia.
  - destruct (Z.eqb_spec (q / 64) (p / 64)); [|by rewrite andb_true_r].
    rewrite Z.land_spec, other_bits, (proj2 (Z.ltb_lt _ _)) by lia. cbn [andb]. do 2 f_equal.
    apply Z.eqb_neq. intros E. apply N. by apply pos_eq.
Qed.

(** ** Layout *)

Lemma default_filled v n i : 0 <= i < n -> default 0 (aget (filled v n) i) = v.
Proof.
  intros Hi. unfold aget, filled. rewrite (proj2 (Z.leb_le 0 i)) by lia.
  by rewrite lookup_replicate_2 by lia.
Qed.

Lemma filled_zero n i : default 0 (aget (filled 0 n) i) = 0.
Proof.
  unfold aget, filled. destruct (0 <=? i); [|done].
  destruct (replicate (Z.to_nat n) 0 !! Z.to_nat i) as [x|] eqn:E; [|done].
  by apply lookup_replicate_1 in E as [-> _].
Qed.

Lemma length_filled v n : 0 <= n -> Z.of_nat (length (filled v n)) = n.
Proof. intros Hn. unfold filled. rewrite length_replicate. lia. Qed.

Lemma align_up x : 0 < x <= 2 ^ 31 -> rte_align32pow2 x = 2 ^ Z.log2_up x.
Proof.
  intros Hx. pose proof (align_pow2 32 rte_combine32ms1b ltac:(lia) combine32_ones eq_refl x
    ltac:(unfold fits; lia)) as E. unfold next_pow2 in E.
  rewrite (proj2 (Z.ltb_lt 0 x)), (proj2 (Z.leb_le x _)) in E by lia. exact E.
Qed.

(** The lines, the array1 slabs. *)
Definition lines (n_bits : Z) : Z := (n_bits + 511) / 512.
Definition slabs1 (n_bits : Z) : Z := 2 ^ Z.log2_up ((lines n_bits + 63) / 64).

Lemma lines_bounds n : 1 <= n <= 2 ^ 32 - 512 -> 1 <= lines n < 2 ^ 23 /\ n <= 512 * lines n.
Proof.
  intros Hn. unfold lines. pose proof (Z.div_mod (n + 511) 512 ltac:(lia)).
  pose proof (Z.mod_pos_bound (n + 511) 512 ltac:(lia)). lia.
Qed.

Lemma slabs1_bounds n : 1 <= n <= 2 ^ 32 - 512 ->
  (exists k, 0 <= k <= 17 /\ slabs1 n = 2 ^ k) /\ lines n <= 64 * slabs1 n /\ slabs1 n <= 2 ^ 17.
Proof.
  intros Hn. destruct (lines_bounds n Hn) as [HL _]. unfold slabs1.
  set (x := (lines n + 63) / 64).
  assert (64 * x <= lines n + 63 < 64 * x + 64) as Hx
    by (unfold x; pose proof (Z.div_mod (lines n + 63) 64 ltac:(lia));
        pose proof (Z.mod_pos_bound (lines n + 63) 64 ltac:(lia)); lia).
  assert (Z.log2_up x <= 17) by (apply Z.log2_up_le_pow2; lia).
  pose proof (Z.log2_up_nonneg x). pose proof (Z.log2_log2_up_spec x ltac:(lia)).
  split; [by exists (Z.log2_up x)|]. split; [lia|]. apply Z.pow_le_mono_r; lia.
Qed.

Lemma footprint_run n : 1 <= n <= 2 ^ 32 - 512 ->
  exists c, __rte_bitmap_get_memory_footprint n
    = (64 * (c + lines n), 40, slabs1 n, 64 * c, 8 * lines n)
    /\ 40 + 8 * slabs1 n <= 64 * c <= 40 + 8 * slabs1 n + 63 /\ 64 * (c + lines n) < 2 ^ 32.
Proof.
  intros Hn. destruct (lines_bounds n Hn) as [HL _]. destruct (slabs1_bounds n Hn) as (_ & _ & Hs).
  assert (1 <= slabs1 n) as Hs1.
  { unfold slabs1. pose proof (Z.log2_up_nonneg ((lines n + 63) / 64)).
    assert (0 < 2 ^ Z.log2_up ((lines n + 63) / 64)) by lia. lia. }
  exists ((5 + slabs1 n + 7) / 8). unfold __rte_bitmap_get_memory_footprint.
  assert (Ec : (sizeof_bitmap + RTE_BITMAP_SLAB_BIT_SIZE / 8 - 1) / (RTE_BITMAP_SLAB_BIT_SIZE / 8) = 5)
    by reflexivity.
  rewrite Ec. change RTE_BITMAP_CL_BIT_SIZE with 512. change RTE_BITMAP_SLAB_BIT_SIZE with 64.
  change RTE_BITMAP_CL_SLAB_SIZE with 8. change RTE_CACHE_LINE_SIZE with 64.
  replace (u32 (u32 (n + 512) - 1)) with (n + 511)
    by (rewrite wrap_sub_l; rewrite wrap_small by (unfold fits; lia); lia).
  change ((n + 511) / 512) with (lines n).
  replace (u32 (u32 (lines n + 64) - 1)) with (lines n + 63)
    by (rewrite wrap_sub_l; rewrite wrap_small by (unfold fits; lia); lia).
  rewrite (align_up ((lines n + 63) / 64))
    by (split; [apply Z.div_str_pos; lia|apply Z.lt_le_incl, Z.div_lt_upper_bound; lia]).
  fold (slabs1 n).
  replace (u32 (u32 (u32 (5 + slabs1 n) + 8) - 1)) with (5 + slabs1 n + 7)
    by (rewrite wrap_sub_l, <- Z.add_sub_assoc, wrap_add_l;
        rewrite wrap_small by (unfold fits; lia); lia).
  pose proof (Z.div_mod (5 + slabs1 n + 7) 8 ltac:(lia)).
  pose proof (Z.mod_pos_bound (5 + slabs1 n + 7) 8 ltac:(lia)).
  set (c := (5 + slabs1 n + 7) / 8) in *.
  split; [|lia].
  rewrite (wrap_small 32 (c + lines n)) by (unfold fits; lia).
  rewrite (wrap_small 32 ((c + lines n) * 64)), (wrap_small 32 (c * 64)), (wrap_small 32 (lines n * 8))
    by (unfold fits; lia).
  change (u32 (5 * (64 / 8))) with 40. f_equal; [f_equal; [f_equal; f_equal|]|]; lia.
Qed.

(** ** Initialisation *)

Lemma scan_init_ok b : 1 <= array1_size b <= 2 ^ 17 -> scan_ok (__rte_bitmap_scan_init b).
Proof.
  intros Hs. split; simpl.
  - rewrite wrap_small by (unfold fits; lia). lia.
  - unfold RTE_BITMAP_SLAB_BIT_SIZE. lia.
  - apply wrap_fits. lia.
  - done.
Qed.

(** A bitmap whose arrays hold the given bits. *)
Lemma wf_arrays a1 a2 A L i1 o1 i2 g (el : Z -> bool) :
  (exists k, 0 <= k <= 17 /\ A = 2 ^ k) -> 0 <= L <= 64 * A ->
  Z.of_nat (length a1) = A -> Z.of_nat (length a2) = 8 * L ->
  (forall i, fits 64 (default 0 (aget a1 i))) -> (forall i, fits 64 (default 0 (aget a2 i))) ->
  (forall i n, 0 <= i -> 0 <= n < 64 -> Z.testbit (default 0 (aget a2 i)) n = el (64 * i + n)) ->
  (forall i n, 0 <= i -> 0 <= n < 64 -> Z.testbit (default 0 (aget a1 i)) n = true <->
     exists p, 0 <= p < 512 /\ el (512 * (64 * i + n) + p) = true) ->
  let b := mk_bitmap a1 a2 A (8 * L) i1 o1 i2 g in
  wf b /\ forall p, 0 <= p -> has b p = el p.
Proof.
  intros Hk HL L1 L2 F1 F2 H2 H1 b.
  assert (Hh : forall p, 0 <= p -> has b p = el p).
  { intros p Hp. unfold has, s2. simpl. rewrite H2 by (apply Z.div_pos || apply Z.mod_pos_bound; lia).
    by rewrite <- Z.div_mod by lia. }
  split; [|done]. split; simpl; try done.
  - rewrite Z.mul_comm. apply Z.mod_mul. lia.
  - lia.
  - intros i Hi. unfold s1. simpl.
    rewrite H1 by (apply Z.div_pos || apply Z.mod_pos_bound; lia).
    rewrite <- Z.div_mod by lia. split.
    + intros (p & Hp & He). exists (p / 64).
      split; [split; [apply Z.div_pos; lia|apply Z.div_lt_upper_bound; lia]|].
      intros Hz. rewrite <- Hh in He by lia. unfold has in He.
      replace (512 * i + p) with (p + 8 * i * 64) in He by lia.
      rewrite Z.div_add, Z.mod_add in He by lia.
      replace (p / 64 + 8 * i) with (8 * i + p / 64) in He by lia. by rewrite Hz, Z.testbit_0_l in He.
    + intros (j & Hj & Hn).
      assert (0 < s2 b (8 * i + j)) as Hpos by (pose proof (F2 (8 * i + j)) as F; unfold fits, s2 in *; simpl in *; lia).
      destruct (some_bit _ Hpos) as (k & Hk0 & Ht).
      assert (k < 64). { destruct (decide (k < 64)); [done|].
        rewrite (testbit_beyond 64) in Ht; [done|apply (F2 (8 * i + j))|lia]. }
      exists (64 * j + k). split; [lia|].
      replace (512 * i + (64 * j + k)) with (64 * (8 * i + j) + k) by lia.
      rewrite <- H2 by lia. exact Ht.
Qed.

Lemma empty_wf A L i1 o1 i2 g :
  (exists k, 0 <= k <= 17 /\ A = 2 ^ k) -> 0 <= L <= 64 * A ->
  let b := mk_bitmap (filled 0 A) (filled 0 (8 * L)) A (8 * L) i1 o1 i2 g in
  wf b /\ forall p, 0 <= p -> has b p = false.
Proof.
  intros Hk HL. apply (wf_arrays _ _ A L i1 o1 i2 g (fun _ => false)); try done.
  - apply length_filled. destruct Hk as (k & Hk & ->). lia.
  - apply length_filled. lia.
  - intros i. rewrite filled_zero. unfold fits. lia.
  - intros i. rewrite filled_zero. unfold fits. lia.
  - intros i n _ _. by rewrite filled_zero, Z.testbit_0_l.
  - intros i n _ Hn. rewrite filled_zero, Z.testbit_0_l. split; [done|]. by intros (p & _ & ?).
Qed.

Lemma init_run n mem mem_size :
  1 <= n <= 2 ^ 32 - 512 -> mem <> 0 -> mem mod 64 = 0 ->
  rte_bitmap_get_memory_footprint n <= mem_size ->
  exists b, rte_bitmap_init n mem mem_size = Some (Some b) /\ wf b /\ scan_ok b
    /\ array2_size b = 8 * lines n /\ forall p, 0 <= p -> has b p = false.
Proof.
  intros Hn Hm Ha Hs. unfold rte_bitmap_get_memory_footprint, rte_bitmap_init in *.
  rewrite (proj2 (Z.eqb_neq n 0)) in * by lia. rewrite (proj2 (Z.eqb_neq mem 0)) by done.
  change RTE_CACHE_LINE_MASK with 63. rewrite land_63', Ha. cbn [orb truthy negb Z.eqb].
  destruct (footprint_run n Hn) as (c & E & _ & _). rewrite E in *. cbn [fst] in Hs.
  rewrite Z.gtb_ltb, (proj2 (Z.ltb_ge _ _)) by lia.
  destruct (slabs1_bounds n Hn) as (Hk & HL & H17). pose proof (lines_bounds n Hn) as [Hl _].
  eexists. split; [reflexivity|]. split; [|split; [|split]].
  - by apply (empty_wf (slabs1 n) (lines n)); [|lia..].
  - apply scan_init_ok. simpl. destruct Hk as (k & Hk & Hp). rewrite Hp in *.
    assert (0 < 2 ^ k) by lia. lia.
  - done.
  - by apply (empty_wf (slabs1 n) (lines n)); [|lia..].
Qed.

Lemma bitmap_reset_run b : wf b ->
  wf (rte_bitmap_reset b) /\ scan_ok (rte_bitmap_reset b)
  /\ array2_size (rte_bitmap_reset b) = array2_size b
  /\ forall p, 0 <= p -> has (rte_bitmap_reset b) p = false.
Proof.
  intros W. pose proof (wf_room b W). pose proof (wf_lines b W).
  assert (array2_size b = 8 * (array2_size b / 8)) as E
    by (pose proof (Z.div_mod (array2_size b) 8 ltac:(lia)); lia).
  pose proof (wf_len2 b W).
  destruct (empty_wf (array1_size b) (array2_size b / 8) (index1 (rte_bitmap_reset b))
    (offset1 (rte_bitmap_reset b)) (index2 (rte_bitmap_reset b)) 0 (wf_size1 b W) ltac:(lia)) as [W' H'].
  rewrite <- E in W', H'.
  split; [exact W'|]. split; [|split; [done|exact H']].
  apply scan_init_ok. simpl. apply size1_bound, W.
Qed.

(** *** All bits set *)

Lemma ones_bit n : 0 <= n < 64 -> Z.testbit (2 ^ 64 - 1) n = true.
Proof. intros Hn. change (2 ^ 64 - 1) with (Z.ones 64). apply Z.ones_spec_low. lia. Qed.

Lemma clear_from_bit offset v n : 0 <= offset <= 64 -> 0 <= n < 64 ->
  Z.testbit (clear_from offset v) n = Z.testbit v n && (n <? offset).
Proof.
  intros Ho Hn. unfold clear_from.
  assert (G : forall k i v, (i + k = 64)%nat ->
    Z.testbit (foldl (fun v i => Z.land v (u64 (Z.lnot (Z.shiftl 1 (Z.of_nat i))))) v (seq i k)) n
    = Z.testbit v n && (n <? Z.of_nat i)).
  { clear v. induction k as [|k IH]; intros i v Hi; cbn [seq foldl].
    - by rewrite (proj2 (Z.ltb_lt n _)), andb_true_r by lia.
    - rewrite IH, Z.land_spec, other_bits by lia.
      rewrite (proj2 (Z.ltb_lt n 64)) by lia. cbn [andb].
      destruct (Z.eqb_spec (Z.of_nat i) n) as [E|E],
        (Z.ltb_spec n (Z.of_nat i)), (Z.ltb_spec n (Z.of_nat (Datatypes.S i)));
        cbn [negb]; rewrite ?andb_true_r, ?andb_false_r; (done || lia). }
  rewrite G by lia. by rewrite Z2Nat.id by lia.
Qed.

Lemma clear_from_fits offset v : fits 64 v -> fits 64 (clear_from offset v).
Proof.
  intros Hv. unfold clear_from. generalize (seq (Z.to_nat offset) (64 - Z.to_nat offset)) as l.
  intros l. revert v Hv. induction l as [|i l IH]; intros v Hv; [done|]. cbn [foldl].
  apply IH, fits_land; [lia|done].
Qed.

(** Zeros written to the end of an array. *)
Lemma zero_tail (l : list Z) i :
  0 <= i <= Z.of_nat (length l) ->
  exists l', mem_cpy l i (filled 0 (Z.of_nat (length l) - i)) 0 (Z.of_nat (length l) - i) = Some l'
    /\ length l' = length l
    /\ forall j, 0 <= j -> default 0 (aget l' j) = if j <? i then default 0 (aget l j) else 0.
Proof.
  intros Hi. set (n := Z.of_nat (length l) - i).
  assert (Hn : 0 <= n) by lia. pose proof (length_filled 0 n Hn) as Lf.
  rewrite mem_cpy_ok by lia. rewrite drop_0, take_ge by lia. eexists. split; [reflexivity|].
  assert (Z.to_nat i + length (filled 0 n) <= length l)%nat as Hl by lia.
  split; [by apply length_splice|]. intros j Hj. unfold aget.
  rewrite (proj2 (Z.leb_le 0 j)), lookup_splice by done. destruct (Z.ltb_spec j i).
  - rewrite decide_False by lia. done.
  - case_decide as D.
    + unfold filled. destruct (replicate _ _ !! _) as [x|] eqn:E; [|done].
      by apply lookup_replicate_1 in E as [-> _].
    + by rewrite lookup_ge_None_2 by lia.
Qed.

Lemma overhead_run l pos : 0 <= pos <= 64 * Z.of_nat (length l) -> Z.of_nat (length l) < 2 ^ 31 ->
  (forall i, fits 64 (default 0 (aget l i))) ->
  exists l', __rte_bitmap_clear_slab_overhead_bits l (Z.of_nat (length l)) pos = Some l'
    /\ length l' = length l /\ (forall i, fits 64 (default 0 (aget l' i)))
    /\ forall i n, 0 <= i -> 0 <= n < 64 ->
         Z.testbit (default 0 (aget l' i)) n
         = Z.testbit (default 0 (aget l i)) n && (64 * i + n <? pos).
Proof.
  intros Hp Hl Hf. unfold __rte_bitmap_clear_slab_overhead_bits.
  rewrite (pos_offset pos). change (pos / RTE_BITMAP_SLAB_BIT_SIZE) with (pos / 64).
  pose proof (Z.div_mod pos 64 ltac:(lia)) as Ep. pose proof (Z.mod_pos_bound pos 64 ltac:(lia)) as Ho.
  set (q := pos / 64) in *. set (o := pos mod 64) in *. assert (0 <= q) by lia.
  assert (S1 : exists l1 i1, (if truthy o then
       v ← aget l q ; slabs ← aset l q (clear_from o v) ; Some (slabs, u32 (q + 1))
     else Some (l, q)) = Some (l1, i1)
     /\ length l1 = length l /\ q <= i1 <= Z.of_nat (length l) /\ (forall i, fits 64 (default 0 (aget l1 i)))
     /\ (forall i n, 0 <= i -> 0 <= n < 64 ->
          Z.testbit (default 0 (aget l1 i)) n && (i <? i1)
          = Z.testbit (default 0 (aget l i)) n && (64 * i + n <? pos))).
  { destruct (truthy o) eqn:T.
    - apply truthy_true in T. assert (q < Z.of_nat (length l)) by lia.
      rewrite aget_in by lia. cbn [mbind option_bind]. rewrite aset_ok by lia. cbn [mbind option_bind].
      rewrite wrap_small by (unfold fits; lia). do 2 eexists. split; [reflexivity|].
      split; [apply length_insert|]. split; [lia|]. split.
      + intros i. rewrite aget_insert' by lia. case_match; [by apply clear_from_fits|done].
      + intros i n Hi Hn. rewrite aget_insert' by lia. destruct (Z.eqb_spec i q) as [->|N].
        * rewrite clear_from_bit, (proj2 (Z.ltb_lt q (q + 1))), andb_true_r by lia. f_equal.
          destruct (Z.ltb_spec n o), (Z.ltb_spec (64 * q + n) pos); (done || lia).
        * f_equal. destruct (Z.ltb_spec i (q + 1)), (Z.ltb_spec (64 * i + n) pos); (done || lia).
    - assert (o = 0) as E0 by (unfold truthy in T; apply negb_false_iff, Z.eqb_eq in T; done).
      exists l, q. split_and!; [done|done|lia|lia|done|]. intros i n Hi Hn. f_equal.
      destruct (Z.ltb_spec i q), (Z.ltb_spec (64 * i + n) pos); (done || lia). }
  destruct S1 as (l1 & i1 & -> & L1 & Hi1 & F1 & H1). cbn [mbind option_bind].
  destruct (Z.ltb_spec i1 (Z.of_nat (length l))) as [Hlt|Hge].
  - destruct (zero_tail l1 i1 ltac:(lia)) as (l' & E & L' & H'). rewrite L1 in E. rewrite E.
    exists l'. split; [done|]. split; [congruence|]. split.
    + intros i. destruct (decide (0 <= i)); [|unfold aget; rewrite (proj2 (Z.leb_gt 0 i)) by lia; unfold fits; simpl; lia].
      rewrite H' by done. case_match; [done|unfold fits; lia].
    + intros i n Hi Hn. rewrite <- (H1 i n Hi Hn), H' by done.
      destruct (i <? i1); [by rewrite andb_true_r|by rewrite Z.testbit_0_l, andb_false_r].
  - exists l1. split; [done|]. split; [done|]. split; [done|]. intros i n Hi Hn.
    rewrite <- (H1 i n Hi Hn). destruct (Z.ltb_spec i i1); [by rewrite andb_true_r|].
    rewrite aget_out by lia. by rewrite Z.testbit_0_l.
Qed.

Lemma ones_fits m i : fits 64 (default 0 (aget (filled (2 ^ 64 - 1) m) i)).
Proof.
  unfold aget, filled, fits. destruct (0 <=? i); simpl; [|lia].
  destruct (replicate _ _ !! _) as [x|] eqn:E; simpl; [|lia].
  apply lookup_replicate_1 in E as [-> _]. lia.
Qed.

Lemma ones_at m i k : 0 <= m -> 0 <= i -> 0 <= k < 64 ->
  Z.testbit (default 0 (aget (filled (2 ^ 64 - 1) m) i)) k = (i <? m).
Proof.
  intros Hm Hi Hk. destruct (Z.ltb_spec i m).
  - rewrite default_filled by lia. by apply ones_bit.
  - rewrite aget_out by (rewrite length_filled; lia). apply Z.testbit_0_l.
Qed.

(** The arrays with all bits set, without those beyond the last line and the
    last element. *)
Lemma all_set_wf n a1 a2 i1 o1 i2 g :
  1 <= n <= 2 ^ 32 - 512 ->
  length a1 = length (filled (2 ^ 64 - 1) (slabs1 n)) ->
  length a2 = length (filled (2 ^ 64 - 1) (8 * lines n)) ->
  (forall i, fits 64 (default 0 (aget a1 i))) -> (forall i, fits 64 (default 0 (aget a2 i))) ->
  (forall i k, 0 <= i -> 0 <= k < 64 -> Z.testbit (default 0 (aget a1 i)) k
     = Z.testbit (default 0 (aget (filled (2 ^ 64 - 1) (slabs1 n)) i)) k && (64 * i + k <? lines n)) ->
  (forall i k, 0 <= i -> 0 <= k < 64 -> Z.testbit (default 0 (aget a2 i)) k
     = Z.testbit (default 0 (aget (filled (2 ^ 64 - 1) (8 * lines n)) i)) k && (64 * i + k <? n)) ->
  let b := mk_bitmap a1 a2 (slabs1 n) (8 * lines n) i1 o1 i2 g in
  wf b /\ forall p, 0 <= p -> has b p = (p <? n).
Proof.
  intros Hn L1 L2 F1 F2 H1 H2.
  destruct (slabs1_bounds n Hn) as (Hk & HL & H17). pose proof (lines_bounds n Hn) as [Hl Hnl].
  assert (1 <= slabs1 n) as Hs1 by (destruct Hk as (k & Hk & ->); assert (0 < 2 ^ k) by lia; lia).
  apply (wf_arrays a1 a2 (slabs1 n) (lines n) i1 o1 i2 g (fun p => p <? n));
    try done; [lia|by rewrite L1, length_filled by lia|by rewrite L2, length_filled by lia|..].
  - intros i k Hi Hk'. rewrite H2, ones_at by (done || lia).
    destruct (Z.ltb_spec i (8 * lines n)), (Z.ltb_spec (64 * i + k) n); (done || lia).
  - intros i k Hi Hk'. rewrite H1, ones_at by (done || lia). unfold lines in *.
    pose proof (Z.div_mod (n + 511) 512 ltac:(lia)).
    pose proof (Z.mod_pos_bound (n + 511) 512 ltac:(lia)).
    rewrite andb_true_iff, !Z.ltb_lt. split.
    + intros [_ Hlt]. exists 0. split; [lia|]. apply Z.ltb_lt. lia.
    + intros (p & Hp & Hq%Z.ltb_lt). lia.
Qed.

Lemma init_all_run n mem :
  1 <= n <= 2 ^ 32 - 512 -> mem <> 0 -> mem mod 64 = 0 ->
  exists b, rte_bitmap_init_with_all_set n mem (rte_bitmap_get_memory_footprint n) = Some (Some b)
    /\ wf b /\ scan_ok b /\ array2_size b = 8 * lines n
    /\ forall p, 0 <= p -> has b p = (p <? n).
Proof.
  intros Hn Hm Ha. unfold rte_bitmap_get_memory_footprint, rte_bitmap_init_with_all_set.
  rewrite (proj2 (Z.eqb_neq n 0)) by lia. unfold truthy at 1 2.
  rewrite (proj2 (Z.eqb_neq n 0)), (proj2 (Z.eqb_neq mem 0)) by lia.
  change RTE_CACHE_LINE_MASK with 63. rewrite land_63', Ha. cbn [orb negb truthy Z.eqb].
  destruct (footprint_run n Hn) as (c & -> & _ & _). cbn [fst]. rewrite Z.ltb_irrefl.
  destruct (slabs1_bounds n Hn) as (Hk & HL & H17). pose proof (lines_bounds n Hn) as [Hl Hnl].
  assert (1 <= slabs1 n) as Hs1 by (destruct Hk as (k & Hk & ->); assert (0 < 2 ^ k) by lia; lia).
  assert (Z.shiftr (8 * lines n) RTE_BITMAP_CL_SLAB_SIZE_LOG2 = lines n) as ->.
  { change RTE_BITMAP_CL_SLAB_SIZE_LOG2 with 3. rewrite Z.shiftr_div_pow2, Z.mul_comm by lia.
    apply Z.div_mul. lia. }
  destruct (overhead_run (filled (2 ^ 64 - 1) (slabs1 n)) (lines n)) as (a1 & E1 & L1 & F1 & H1);
    [rewrite length_filled; lia|rewrite length_filled; lia|apply ones_fits|].
  destruct (overhead_run (filled (2 ^ 64 - 1) (8 * lines n)) n) as (a2 & E2 & L2 & F2 & H2);
    [rewrite length_filled; lia|rewrite length_filled; lia|apply ones_fits|].
  rewrite length_filled in E1, E2 by lia. rewrite E1. cbn [mbind option_bind].
  rewrite E2. cbn [mbind option_bind]. eexists. split; [reflexivity|].
  split; [by apply all_set_wf|]. split; [|split; [done|by apply all_set_wf]].
  apply (scan_ok_same (__rte_bitmap_scan_init (mk_bitmap [] [] (slabs1 n) (8 * lines n) 0 0 0 0))).
  - apply same_arrays.
  - apply scan_init_ok. cbn [array1_size]. lia.
Qed.

(** ** Reading a line *)

Lemma size2_bound b : wf b -> 0 <= array2_size b <= 2 ^ 26.
Proof.
  intros W. pose proof (size1_bound b W). pose proof (wf_room b W). pose proof (wf_len2 b W). lia.
Qed.

Definition read_body : unit -> M rte_bitmap (unit + option (Z * Z)) := fun _ =>
  b ← get ;
  if truthy (go2 b) then
    slab2 ← slab2_get (index2 b) ;
    modify next_slab ;;
    if truthy slab2 then
      mret (inr (Some (u32 (Z.shiftl (index2 b) RTE_BITMAP_SLAB_BIT_SIZE_LOG2), slab2)))
    else mret (inl tt)
  else mret (inr None).

(** The first slab that is not 0 from [index2] to the end [e] of the line. *)
Definition read_post (b : rte_bitmap) (x e : Z) (r : option (option (Z * Z) * rte_bitmap)) : Prop :=
  (exists k, x <= k < e /\ s2 b k <> 0 /\ (forall i, x <= i < k -> s2 b i = 0)
     /\ r = Some (Some (64 * k, s2 b k), set_go2 ((k + 1) mod 8) (set_index2 (k + 1) b)))
  \/ ((forall i, x <= i < e -> s2 b i = 0) /\ r = Some (None, set_go2 0 (set_index2 e b))).

Lemma read_loop e r : forall fuel b,
  wf b -> go2 b <> 0 -> index2 b = e - Z.of_nat r -> (1 <= r <= 8)%nat -> (r < fuel)%nat ->
  e mod 8 = 0 -> 8 <= e <= array2_size b ->
  read_post b (index2 b) e (do_while fuel read_body tt b).
Proof.
  induction r as [|r IH]; intros fuel b W Hg Hx Hr Hf He Hn; [lia|].
  destruct fuel as [|fuel]; [lia|]. pose proof (size2_bound b W). pose proof (wf_len2 b W).
  set (x := index2 b) in *.
  assert (Hb : read_body tt b = Some (if truthy (s2 b x)
    then inr (Some (64 * x, s2 b x)) else inl tt, set_go2 ((x + 1) mod 8) (set_index2 (x + 1) b))).
  { unfold read_body, get, modify, mbind, M_bind, mret, M_ret.
    rewrite (proj2 (truthy_true _)) by done. fold x.
    rewrite slab2_get_run by lia. unfold next_slab. cbn zeta. fold x.
    rewrite (wrap_small 32 (x + 1)) by (unfold fits; lia).
    change RTE_BITMAP_CL_SLAB_MASK with 7. cbn [index2 set_index2]. rewrite land_7.
    change RTE_BITMAP_SLAB_BIT_SIZE_LOG2 with 6. rewrite Z.shiftl_mul_pow2 by lia. change (2 ^ 6) with 64.
    rewrite (wrap_small 32 (x * 64)), (Z.mul_comm x) by (unfold fits; lia). by destruct (truthy _). }
  cbn [do_while]. rewrite (mbind_run _ _ _ _ _ Hb). destruct (truthy (s2 b x)) eqn:T.
  { left. exists x. split; [lia|]. split; [by apply truthy_true|]. split; [lia|done]. }
  assert (s2 b x = 0) as Z0 by (unfold truthy in T; by apply negb_false_iff, Z.eqb_eq in T).
  set (b1 := set_go2 ((x + 1) mod 8) (set_index2 (x + 1) b)).
  assert (W1 : wf b1) by (destruct W; by split).
  destruct r as [|r].
  - right. split; [intros i Hi; by replace i with x by lia|].
    destruct fuel as [|fuel]; [lia|]. cbn [do_while].
    unfold b1. replace (x + 1) with e by lia. rewrite He. done.
  - assert ((x + 1) mod 8 <> 0) as Hg1.
    { intros E. pose proof (Z.div_mod (x + 1) 8 ltac:(lia)). pose proof (Z.div_mod e 8 ltac:(lia)). lia. }
    destruct (IH fuel b1 W1 Hg1) as [(k & Hk & Hs & Hz & E)|[Hz E]];
      [simpl; lia|lia|lia|done|done|..].
    + left. exists k. change (index2 b1) with (x + 1) in *. split; [lia|]. split; [done|].
      split; [|exact E]. intros i Hi. destruct (decide (i = x)) as [->|]; [done|]. apply Hz. lia.
    + right. split; [|exact E]. change (index2 b1) with (x + 1) in *. intros i Hi.
      destruct (decide (i = x)) as [->|]; [done|]. apply Hz. lia.
Qed.

Lemma read_run b :
  wf b -> fits 32 (index2 b) -> go2 b <> 0 -> index2 b < array2_size b ->
  read_post b (index2 b) (8 * (index2 b / 8) + 8) (__rte_bitmap_scan_read b).
Proof.
  intros W Hf Hg Hx. unfold fits in Hf. pose proof (wf_lines b W) as Hl.
  pose proof (Z.div_mod (index2 b) 8 ltac:(lia)). pose proof (Z.mod_pos_bound (index2 b) 8 ltac:(lia)).
  pose proof (Z.div_mod (array2_size b) 8 ltac:(lia)).
  apply (read_loop _ (Z.to_nat (8 - index2 b mod 8)) 9); [done|done|lia|lia|lia| |lia].
  replace (8 * (index2 b / 8) + 8) with ((index2 b / 8 + 1) * 8) by lia. apply Z.mod_mul. lia.
Qed.

Lemma read_stopped b : go2 b = 0 -> __rte_bitmap_scan_read b = Some (None, b).
Proof.
  intros Hg. unfold __rte_bitmap_scan_read. cbn [do_while]. unfold get, mbind, M_bind.
  rewrite Hg. done.
Qed.

(** ** Searching the next line that is not empty *)

(** The line is marked in [array1]. *)
Definition marked (b : rte_bitmap) (l : Z) : bool := Z.testbit (s1 b (l / 64)) (l mod 64).

Lemma marked_line b l : wf b -> 0 <= l < 64 * array1_size b ->
  marked b l = true <-> exists j, 0 <= j < 8 /\ s2 b (8 * l + j) <> 0.
Proof. intros W Hl. by apply (wf_marks b W). Qed.

Lemma look_run v b : 0 <= v ->
  (v = 0 /\ look_at v b = Some (0, b))
  \/ exists k, 0 <= k /\ Z.testbit v k = true /\ (forall j, 0 <= j < k -> Z.testbit v j = false)
       /\ look_at v b = Some (1, set_offset1 k b).
Proof.
  intros Hv. unfold look_at, rte_bsf64_safe, rte_bsf64.
  destruct (decide (v = 0)) as [->|N]; [by left|right].
  destruct (lowest_bit v ltac:(lia)) as (k & E & Hk & Ht & Hj). exists k.
  split; [done|]. split; [done|]. split; [done|].
  rewrite (proj2 (Z.eqb_neq v 0)) by done. rewrite E. done.
Qed.

Lemma mask1_bit b n : 0 <= offset1 b < 64 -> 0 <= n ->
  Z.testbit (__rte_bitmap_mask1_get b) n = (offset1 b <? n) && (n <? 64).
Proof.
  intros Ho Hn. unfold __rte_bitmap_mask1_get. rewrite testbit_wrap, Z.shiftl_spec by lia.
  destruct (Z.ltb_spec n 64); cbn [andb]; [|by rewrite andb_false_r]. rewrite andb_true_r.
  destruct (Z.ltb_spec (offset1 b) n).
  - rewrite testbit_wrap, Z.lnot_spec by lia. rewrite (proj2 (Z.ltb_lt _ 64)) by lia. cbn [andb].
    change 1 with (2 ^ 0). rewrite Z.pow2_bits_eqb by lia. by rewrite (proj2 (Z.eqb_neq _ _)) by lia.
  - destruct (decide (n = offset1 b)) as [->|]; [by rewrite Z.sub_diag|].
    apply Z.testbit_neg_r. lia.
Qed.

Lemma index1_inc_run b : wf b -> 0 <= index1 b < array1_size b ->
  __rte_bitmap_index1_inc b = set_index1 ((index1 b + 1) mod array1_size b) b.
Proof.
  intros W Hi. pose proof (size1_bound b W). unfold __rte_bitmap_index1_inc. f_equal.
  rewrite !wrap_small by (unfold fits; lia). destruct (wf_size1 b W) as (k & Hk & ->).
  apply land_mask. lia.
Qed.

Definition search_body : Z -> M rte_bitmap (Z + Z) := fun i =>
  b ← get ;
  if i <? array1_size b then
    value1 ← slab1_get (index1 b) ;
    r ← look_at value1 ;
    if truthy r then mret (inr 1)
    else modify __rte_bitmap_index1_inc ;; mret (inl (u32 (i + 1)))
  else mret (inr 0).

(** The loop over the slabs of [array1] from [J] on, after [i] of them. *)
Lemma search_loop J n : forall i b fuel,
  wf b -> i + Z.of_nat n = array1_size b -> 0 <= i -> index1 b = (J + i) mod array1_size b ->
  (n < fuel)%nat ->
  (exists t k, i <= t < array1_size b /\ 0 <= k < 64
     /\ Z.testbit (s1 b ((J + t) mod array1_size b)) k = true
     /\ (forall j, 0 <= j < k -> Z.testbit (s1 b ((J + t) mod array1_size b)) j = false)
     /\ (forall u, i <= u < t -> s1 b ((J + u) mod array1_size b) = 0)
     /\ do_while fuel search_body i b
        = Some (1, set_offset1 k (set_index1 ((J + t) mod array1_size b) b)))
  \/ ((forall u, i <= u < array1_size b -> s1 b ((J + u) mod array1_size b) = 0)
      /\ do_while fuel search_body i b
         = Some (0, set_index1 ((J + array1_size b) mod array1_size b) b)).
Proof.
  induction n as [|n IH]; intros i b fuel W Hi Hi0 Hx Hf; (destruct fuel as [|fuel]; [lia|]);
    pose proof (size1_bound b W) as Hs; set (A := array1_size b) in *; cbn [do_while].
  - right. split; [lia|]. assert (Hb : search_body i b = Some (inr 0, b)).
    { unfold search_body, get, mbind, M_bind. cbn beta iota. fold A.
      by rewrite (proj2 (Z.ltb_ge i A)) by lia. }
    rewrite (mbind_run _ _ _ _ _ Hb). replace (J + A) with (J + i) by lia. rewrite <- Hx. by destruct b.
  - pose proof (Z.mod_pos_bound (J + i) A ltac:(lia)) as Hm.
    assert (Hv : slab1_get (index1 b) b = Some (s1 b (index1 b), b))
      by (apply slab1_get_run; rewrite (wf_len1 b W), Hx; exact Hm).
    pose proof (wf_fits1 b W (index1 b)) as Fv. unfold fits in Fv.
    destruct (look_run (s1 b (index1 b)) b ltac:(lia)) as [[Ez El]|(k & Hk & Ht & Hj & El)].
    + assert (Hb : search_body i b = Some (inl (i + 1), set_index1 ((J + (i + 1)) mod A) b)).
      { unfold search_body, get, modify, mbind, M_bind. cbn beta iota. fold A. rewrite (proj2 (Z.ltb_lt i A)) by lia.
        rewrite Hv, El. cbn [truthy Z.eqb negb]. rewrite index1_inc_run by (done || fold A; lia).
        rewrite wrap_small by (unfold fits; lia). unfold mret, M_ret. do 3 f_equal. fold A.
        rewrite Hx, Zplus_mod_idemp_l. f_equal. lia. }
      rewrite (mbind_run _ _ _ _ _ Hb). set (b1 := set_index1 ((J + (i + 1)) mod A) b).
      assert (W1 : wf b1) by (destruct W; by split).
      rewrite Hx in Ez.
      destruct (IH (i + 1) b1 fuel W1) as [(t & k & H1 & H2 & H3 & H4 & H5 & H6)|[H1 H2]];
        [simpl; fold A; lia|lia|done|lia|..].
      * left. exists t, k. change (array1_size b1) with A in *.
        split; [lia|]. split; [done|]. split; [done|]. split; [done|]. split; [|exact H6].
        intros u Hu. destruct (decide (u = i)) as [->|]; [done|]. apply H5. lia.
      * right. change (array1_size b1) with A in *. split; [|exact H2].
        intros u Hu. destruct (decide (u = i)) as [->|]; [done|]. apply H1. lia.
    + left. exists i, k.
      assert (k < 64) as Hk64.
      { destruct (decide (k < 64)); [done|]. rewrite (testbit_beyond 64) in Ht; [done|done|lia]. }
      split; [lia|]. split; [lia|]. rewrite <- Hx. split; [done|]. split; [done|]. split; [lia|].
      assert (Hb : search_body i b = Some (inr 1, set_offset1 k b)).
      { unfold search_body, get, mbind, M_bind. cbn beta iota. fold A. rewrite (proj2 (Z.ltb_lt i A)) by lia.
        by rewrite Hv, El. }
      rewrite (mbind_run _ _ _ _ _ Hb). by destruct b.
Qed.

(** The lines of a slab. *)
Lemma marked_slab b i k : 0 <= k < 64 -> marked b (64 * i + k) = Z.testbit (s1 b i) k.
Proof.
  intros Hk. unfold marked. replace (64 * i + k) with (k + i * 64) by lia.
  by rewrite Z.div_add, Z.mod_add, Z.div_small, Z.mod_small by lia.
Qed.

Lemma set_line b i k : 0 <= k < 64 ->
  set_offset1 ((64 * i + k) mod 64) (set_index1 ((64 * i + k) / 64) b) = set_offset1 k (set_index1 i b).
Proof.
  intros Hk. replace (64 * i + k) with (k + i * 64) by lia.
  by rewrite Z.div_add, Z.mod_add, Z.div_small, Z.mod_small by lia.
Qed.

(** The lines after the current one, slab by slab. *)
Lemma later_line A I O t k :
  0 < A -> 0 <= t -> 0 <= k < 64 ->
  (64 * I + O + 1 + (63 - O + 64 * t + k)) mod (64 * A) = 64 * ((I + 1 + t) mod A) + k.
Proof.
  intros HA Ht Hk. pose proof (Z.div_mod (I + 1 + t) A ltac:(lia)).
  pose proof (Z.mod_pos_bound (I + 1 + t) A ltac:(lia)).
  symmetry. apply (Z.mod_unique_pos _ _ ((I + 1 + t) / A)); lia.
Qed.

(** What the search finds, on the lines from [c] on. *)
Definition search_post (b : rte_bitmap) (c : Z) (r : option (Z * rte_bitmap)) : Prop :=
  let N := 64 * array1_size b in
  (exists d, 0 <= d /\ marked b ((c + d) mod N) = true
     /\ (forall e, 0 <= e < d -> marked b ((c + e) mod N) = false)
     /\ r = Some (1, set_offset1 (((c + d) mod N) mod 64) (set_index1 (((c + d) mod N) / 64) b)))
  \/ ((forall l, 0 <= l < N -> marked b l = false)
      /\ exists i o, 0 <= i < array1_size b /\ 0 <= o < 64
         /\ r = Some (0, set_offset1 o (set_index1 i b))).

(** The rest of the current slab is not marked: the other slabs decide. *)
Lemma search_rest b :
  wf b -> 0 <= index1 b < array1_size b -> 0 <= offset1 b < 64 ->
  (forall k, offset1 b < k < 64 -> Z.testbit (s1 b (index1 b)) k = false) ->
  search_post b (64 * index1 b + offset1 b + 1)
    (do_while (Datatypes.S (Z.to_nat (array1_size b))) search_body 0
       (set_offset1 0 (__rte_bitmap_index1_inc b))).
Proof.
  intros W Hi Ho Hk. pose proof (size1_bound b W) as Hs. rewrite index1_inc_run by done.
  set (b1 := set_offset1 0 (set_index1 ((index1 b + 1) mod array1_size b) b)).
  assert (W1 : wf b1) by (destruct W; by split).
  assert (Hrest : forall e, 0 <= e < 63 - offset1 b ->
    marked b ((64 * index1 b + offset1 b + 1 + e) mod (64 * array1_size b)) = false).
  { intros e He. rewrite Z.mod_small by lia.
    replace (64 * index1 b + offset1 b + 1 + e) with (64 * index1 b + (offset1 b + 1 + e)) by lia.
    rewrite marked_slab by lia. apply Hk. lia. }
  destruct (search_loop (index1 b + 1) (Z.to_nat (array1_size b)) 0 b1
    (Datatypes.S (Z.to_nat (array1_size b))) W1) as [(t & k & Ht & Hk64 & Hb & Hlow & Hz & E)|[Hz E]];
    [simpl; lia|lia|simpl; by rewrite Z.add_0_r|lia|..]; unfold search_post;
    change (array1_size b1) with (array1_size b) in *;
    change (s1 b1) with (s1 b) in *.
  - left. exists (63 - offset1 b + 64 * t + k). rewrite later_line by lia.
    split; [lia|]. rewrite marked_slab by done. split; [done|]. split.
    + intros e He. destruct (decide (e < 63 - offset1 b)); [apply Hrest; lia|].
      set (e' := e - (63 - offset1 b)).
      pose proof (Z.div_mod e' 64 ltac:(lia)). pose proof (Z.mod_pos_bound e' 64 ltac:(lia)).
      replace e with (63 - offset1 b + 64 * (e' / 64) + e' mod 64) by lia.
      rewrite later_line, marked_slab by lia.
      destruct (decide (e' / 64 = t)) as [Et|]; [rewrite Et; apply Hlow; lia|].
      rewrite Hz by lia. apply Z.testbit_0_l.
    + rewrite set_line by done. exact E.
  - right. split.
    + intros l Hl. pose proof (Z.div_mod l 64 ltac:(lia)). pose proof (Z.mod_pos_bound l 64 ltac:(lia)).
      rewrite (Z.div_mod l 64), marked_slab by lia.
      assert (l / 64 = (index1 b + 1 + (l / 64 - index1 b - 1) mod array1_size b) mod array1_size b) as ->.
      { rewrite Zplus_mod_idemp_r. replace (index1 b + 1 + (l / 64 - index1 b - 1)) with (l / 64) by lia.
        symmetry. apply Z.mod_small. lia. }
      rewrite Hz by (apply Z.mod_pos_bound; lia). apply Z.testbit_0_l.
    + exists ((index1 b + 1 + array1_size b) mod array1_size b), 0.
      split; [apply Z.mod_pos_bound; lia|]. split; [lia|exact E].
Qed.

(** The first marked line after the current one, in cyclic order. *)
Lemma search_run b :
  wf b -> 0 <= index1 b < array1_size b -> 0 <= offset1 b < 64 ->
  search_post b (64 * index1 b + offset1 b + 1) (__rte_bitmap_scan_search b).
Proof.
  intros W Hi Ho. pose proof (size1_bound b W) as Hs.
  unfold __rte_bitmap_scan_search. rewrite (mbind_run get _ b b b eq_refl).
  rewrite (mbind_run _ _ _ _ _ (slab1_get_run b (index1 b) ltac:(rewrite (wf_len1 b W); exact Hi))).
  pose proof (wf_fits1 b W (index1 b)) as Fv.
  assert (0 <= Z.land (s1 b (index1 b)) (__rte_bitmap_mask1_get b)) as Hnn
    by (apply Z.land_nonneg; left; unfold fits in Fv; lia).
  destruct (look_run _ b Hnn) as [[Ez El]|(k & Hk & Ht & Hj & El)]; rewrite (mbind_run _ _ _ _ _ El);
    cbn [truthy Z.eqb negb].
  - apply search_rest; [done..|]. intros k Hk.
    apply (f_equal (fun z => Z.testbit z k)) in Ez.
    rewrite Z.land_spec, mask1_bit, Z.testbit_0_l, (proj2 (Z.ltb_lt _ k)), (proj2 (Z.ltb_lt k 64)) in Ez by lia.
    by rewrite andb_true_r in Ez.
  - rewrite Z.land_spec, mask1_bit in Ht by lia.
    apply andb_true_iff in Ht as [Ht [Hk1%Z.ltb_lt Hk2%Z.ltb_lt]%andb_true_iff].
    left. exists (k - offset1 b - 1). split; [lia|]. rewrite Z.mod_small by lia.
    replace (64 * index1 b + offset1 b + 1 + (k - offset1 b - 1)) with (64 * index1 b + k) by lia.
    rewrite marked_slab by lia. split; [done|]. split.
    + intros e He. rewrite Z.mod_small by lia.
      replace (64 * index1 b + offset1 b + 1 + e) with (64 * index1 b + (offset1 b + 1 + e)) by lia.
      rewrite marked_slab by lia. specialize (Hj (offset1 b + 1 + e) ltac:(lia)).
      rewrite Z.land_spec, mask1_bit, (proj2 (Z.ltb_lt (offset1 b) _)), (proj2 (Z.ltb_lt _ 64)) in Hj by lia.
      by rewrite andb_true_r in Hj.
    + rewrite set_line by lia. by destruct b.
Qed.
