(* ===== verification/BitmapSpec.v ===== *)
(** * Bitmaps: the scan, and the contract of the operations

    The scan of [Bitmap] finds the first slab that is not 0 after the one it
    returned last, in cyclic order; the operations implement a set of bits. *)
From stdpp Require Import prelude list numbers gmap.
From S2P Require Import Prelude Bits Bitmap.
Open Scope Z_scope.

(** ** The scan *)

(** The slab at which the scan goes on. *)
Definition cursor (b : rte_bitmap) : Z :=
  if go2 b =? 0 then 8 * (64 * index1 b + offset1 b + 1) else index2 b.

Definition same_slabs (b b' : rte_bitmap) : Prop :=
  array1 b' = array1 b /\ array2 b' = array2 b /\ array1_size b' = array1_size b
  /\ array2_size b' = array2_size b.

Lemma wf_same b b' : same_slabs b b' -> wf b -> wf b'.
Proof.
  intros (E1 & E2 & E3 & E4) []. split; unfold s1, s2 in *; rewrite ?E1, ?E2, ?E3, ?E4; done.
Qed.

(** The first slab that is not 0 from [c] on, in cyclic order over the slabs
    that [array1] can mark. *)
Definition scan_post (b : rte_bitmap) (c : Z) (r : option (Z * option (Z * Z) * rte_bitmap)) : Prop :=
  let T := 512 * array1_size b in
  (exists d b', 0 <= d /\ s2 b ((c + d) mod T) <> 0
     /\ (forall e, 0 <= e < d -> s2 b ((c + e) mod T) = 0)
     /\ r = Some (1, Some (64 * ((c + d) mod T), s2 b ((c + d) mod T)), b')
     /\ cursor b' = (c + d) mod T + 1 /\ scan_ok b' /\ same_slabs b b')
  \/ ((forall j, s2 b j = 0)
      /\ exists b', r = Some (0, None, b') /\ scan_ok b' /\ same_slabs b b').

Lemma s2_inside b j : wf b -> s2 b j <> 0 -> 0 <= j < array2_size b.
Proof.
  intros W H. pose proof (wf_len2 b W) as L. unfold s2, aget in H.
  destruct (Z.leb_spec 0 j); [|done]. split; [done|].
  destruct (array2 b !! Z.to_nat j) eqn:E; [|done]. apply lookup_lt_Some in E. lia.
Qed.

Lemma eight_mod x y N : 0 < N -> 0 <= y < 8 -> (8 * x + y) mod (8 * N) = 8 * (x mod N) + y.
Proof.
  intros HN Hy. pose proof (Z.div_mod x N ltac:(lia)). pose proof (Z.mod_pos_bound x N HN).
  symmetry. apply (Z.mod_unique_pos _ _ (x / N)); lia.
Qed.

Lemma unmarked_zero b l k : wf b -> 0 <= l < 64 * array1_size b -> marked b l = false -> 0 <= k < 8 ->
  s2 b (8 * l + k) = 0.
Proof.
  intros W Hl Hm Hk. destruct (decide (s2 b (8 * l + k) = 0)) as [|N]; [done|].
  rewrite (proj2 (marked_line b l W Hl)) in Hm; [done|by exists k].
Qed.

Lemma read_init_run b l :
  wf b -> 0 <= l < array2_size b / 8 ->
  let b1 := set_offset1 (l mod 64) (set_index1 (l / 64) b) in
  __rte_bitmap_scan_read_init b1 = set_go2 1 (set_index2 (8 * l) b1).
Proof.
  intros W Hl b1. pose proof (size2_bound b W).
  assert (l < 2 ^ 23) by (pose proof (Z.div_mod (array2_size b) 8 ltac:(lia));
    pose proof (Z.mod_pos_bound (array2_size b) 8 ltac:(lia)); lia).
  unfold __rte_bitmap_scan_read_init, __rte_bitmap_index2_set. do 2 f_equal. simpl.
  change RTE_BITMAP_SLAB_BIT_SIZE_LOG2 with 6. change RTE_BITMAP_CL_SLAB_SIZE_LOG2 with 3.
  pose proof (Z.div_mod l 64 ltac:(lia)). pose proof (Z.mod_pos_bound l 64 ltac:(lia)).
  rewrite !Z.shiftl_mul_pow2 by lia. change (2 ^ 6) with 64. change (2 ^ 3) with 8.
  rewrite (wrap_small 32 (l / 64 * 64)) by (unfold fits; lia).
  replace (l / 64 * 64 + l mod 64) with l by lia.
  rewrite !wrap_small by (rewrite ?wrap_small; unfold fits; lia). lia.
Qed.

Definition scan_search : M rte_bitmap (Z * option (Z * Z)) :=
  r ← __rte_bitmap_scan_search ;
  if truthy r then
    modify __rte_bitmap_scan_read_init ;;
    o ← __rte_bitmap_scan_read ;
    mret (1, o)
  else mret (0, None).

(** What a read leaves behind after it found the slab [k]. *)
Lemma found_cursor b k g :
  wf b -> 0 <= k < array2_size b -> 0 <= index1 b < array1_size b -> 0 <= offset1 b < 64 ->
  k / 8 = 64 * index1 b + offset1 b -> g = (k + 1) mod 8 ->
  let b' := set_go2 g (set_index2 (k + 1) b) in
  cursor b' = k + 1 /\ scan_ok b' /\ same_slabs b b'.
Proof.
  intros W Hk Hi Ho Hl -> b'. pose proof (size2_bound b W). pose proof (wf_lines b W) as H8.
  pose proof (Z.div_mod k 8 ltac:(lia)). pose proof (Z.mod_pos_bound k 8 ltac:(lia)).
  pose proof (Z.div_mod (k + 1) 8 ltac:(lia)). pose proof (Z.mod_pos_bound (k + 1) 8 ltac:(lia)).
  pose proof (Z.div_mod (array2_size b) 8 ltac:(lia)).
  split; [|split; [|by repeat split]].
  - unfold cursor. simpl. destruct (Z.eqb_spec ((k + 1) mod 8) 0); lia.
  - split; simpl; [done|done|unfold fits; lia|]. intros Hg. lia.
Qed.

(** The scan of a marked line returns its first slab that is not 0. *)
Lemma scan_line_run b l :
  wf b -> 0 <= l < 64 * array1_size b -> marked b l = true ->
  exists k b', 8 * l <= k < 8 * l + 8 /\ s2 b k <> 0 /\ (forall i, 8 * l <= i < k -> s2 b i = 0)
    /\ (modify __rte_bitmap_scan_read_init ;; o ← __rte_bitmap_scan_read ; mret (1, o))
         (set_offset1 (l mod 64) (set_index1 (l / 64) b)) = Some ((1, Some (64 * k, s2 b k)), b')
    /\ cursor b' = k + 1 /\ scan_ok b' /\ same_slabs b b'.
Proof.
  intros W Hl Hm. pose proof (size2_bound b W). pose proof (wf_lines b W) as H8.
  apply (marked_line b l W) in Hm as (j & Hj & Hn); [|done].
  pose proof (s2_inside b _ W Hn) as Hin. pose proof (Z.div_mod (array2_size b) 8 ltac:(lia)) as E8.
  rewrite (mbind_run (modify _) _ _ tt _ eq_refl). rewrite (read_init_run b l W) by lia.
  set (b1 := set_offset1 (l mod 64) (set_index1 (l / 64) b)).
  set (b2 := set_go2 1 (set_index2 (8 * l) b1)).
  assert (W2 : wf b2) by (apply (wf_same b); [by repeat split|done]).
  assert (El : 8 * l / 8 = l) by (rewrite Z.mul_comm; apply Z.div_mul; lia).
  destruct (read_run b2 W2) as [(k & Hk & Hkn & Hkz & Er)|[Hzero _]];
    [simpl; unfold fits; lia|done|simpl; lia| |].
  2: { destruct Hn. apply Hzero. simpl. rewrite El. lia. }
  change (index2 b2) with (8 * l) in *. rewrite El in Hk.
  rewrite (mbind_run _ _ _ _ _ Er). change (s2 b2) with (s2 b) in *.
  pose proof (s2_inside b k W Hkn) as Hkin.
  assert (k / 8 = l) as Hlk by (symmetry; apply (Z.div_unique_pos _ _ _ (k - 8 * l)); lia).
  pose proof (Z.div_mod l 64 ltac:(lia)). pose proof (Z.mod_pos_bound l 64 ltac:(lia)).
  assert (0 <= l / 64 < array1_size b)
    by (split; [apply Z.div_pos; lia|apply Z.div_lt_upper_bound; lia]).
  destruct (found_cursor b2 k ((k + 1) mod 8) W2) as (Hcur & Hok & Hsame);
    [done|done|simpl; lia|simpl; lia|done|].
  exists k. eexists. do 3 (split; [done|]). split; [reflexivity|]. done.
Qed.

Lemma scan_search_run b :
  wf b -> 0 <= index1 b < array1_size b -> 0 <= offset1 b < 64 -> fits 32 (index2 b) -> go2 b = 0 ->
  scan_post b (8 * (64 * index1 b + offset1 b + 1)) (scan_search b).
Proof.
  intros W Hi Ho Hx Hg. pose proof (size1_bound b W) as Hs. pose proof (size2_bound b W).
  pose proof (wf_room b W) as Hroom. pose proof (wf_lines b W) as H8.
  remember (64 * index1 b + offset1 b + 1) as c eqn:Ec. remember (64 * array1_size b) as N eqn:EN.
  assert (Hmod : forall x y, 0 <= y < 8 ->
    (8 * x + y) mod (512 * array1_size b) = 8 * (x mod N) + y).
  { intros x y Hy. replace (512 * array1_size b) with (8 * N) by lia. apply eight_mod; lia. }
  unfold scan_search.
  pose proof (search_run b W Hi Ho) as HS. unfold search_post in HS. rewrite <- ?Ec, <- ?EN in HS.
  destruct HS as [(d & Hd & Hm & Hz & E)|[Hz (i & o & Hi' & Ho' & E)]];
    rewrite (mbind_run _ _ _ _ _ E); cbn [truthy Z.eqb negb].
  - pose proof (Z.mod_pos_bound (c + d) N ltac:(lia)) as Hl. set (l := (c + d) mod N) in *.
    destruct (scan_line_run b l W) as (k & b' & Hk & Hkn & Hkz & Er & Hcur & Hok & Hsame); [lia|done|].
    left. exists (8 * d + (k - 8 * l)), b'.
    assert (Ej : (8 * c + (8 * d + (k - 8 * l))) mod (512 * array1_size b) = k).
    { replace (8 * c + (8 * d + (k - 8 * l))) with (8 * (c + d) + (k - 8 * l)) by lia.
      rewrite Hmod by lia. fold l. lia. }
    rewrite Ej. split; [lia|]. split; [done|]. split; [|by rewrite Er].
    intros e He. pose proof (Z.div_mod e 8 ltac:(lia)). pose proof (Z.mod_pos_bound e 8 ltac:(lia)).
    replace (8 * c + e) with (8 * (c + e / 8) + e mod 8) by lia. rewrite Hmod by lia.
    destruct (decide (e / 8 < d)).
    + apply unmarked_zero; [done|rewrite <- EN; apply Z.mod_pos_bound; lia|apply Hz; lia|lia].
    + replace (e / 8) with d by lia. fold l. apply Hkz. lia.
  - right. split.
    + intros j. destruct (decide (s2 b j = 0)) as [|Hn]; [done|].
      pose proof (s2_inside b j W Hn). pose proof (Z.div_mod j 8 ltac:(lia)).
      pose proof (Z.mod_pos_bound j 8 ltac:(lia)).
      assert (0 <= j / 8 < N) as Hj8
        by (split; [apply Z.div_pos; lia|apply Z.div_lt_upper_bound; lia]).
      rewrite (Z.div_mod j 8) by lia. apply unmarked_zero; [done|by rewrite <- EN|by apply Hz|lia].
    + eexists. split; [reflexivity|]. split; [|by repeat split].
      split; simpl; [done|done|done|]. by rewrite Hg.
Qed.

(** A scan that starts later is the same when the slabs in between are 0. *)
Lemma scan_post_shift b b1 c e r :
  0 <= c <= e -> (forall i, c <= i < e -> s2 b i = 0) -> e <= 512 * array1_size b ->
  same_slabs b b1 -> scan_post b1 e r -> scan_post b c r.
Proof.
  intros Hce Hz He (E1 & E2 & E3 & E4) H. unfold scan_post in *.
  assert (Es : s2 b1 = s2 b) by (unfold s2; by rewrite E2). rewrite Es, E3 in H.
  destruct H as [(d & b' & Hd & Hn & Hf & Er & Hc & Hok & (F1 & F2 & F3 & F4))|(Hf & b' & Er & Hok & (F1 & F2 & F3 & F4))].
  - left. exists (e - c + d), b'. replace (c + (e - c + d)) with (e + d) by lia.
    split; [lia|]. split; [done|]. split; [|split; [done|]; split; [done|]; split; [done|];
      split; [by rewrite F1|split; [by rewrite F2|split; [by rewrite F3|by rewrite F4]]]].
    intros i Hi. destruct (decide (c + i < e)).
    + rewrite Z.mod_small by lia. apply Hz. lia.
    + replace (c + i) with (e + (i - (e - c))) by lia. apply Hf. lia.
  - right. split; [done|]. exists b'. split; [done|]. split; [done|].
    split; [by rewrite F1|split; [by rewrite F2|split; [by rewrite F3|by rewrite F4]]].
Qed.

Lemma scan_run b : wf b -> scan_ok b -> scan_post b (cursor b) (rte_bitmap_scan b).
Proof.
  intros W [Hi Ho Hx Hg]. pose proof (size1_bound b W). pose proof (size2_bound b W).
  pose proof (wf_room b W) as Hroom. pose proof (wf_lines b W) as H8.
  change (rte_bitmap_scan b) with
    ((o ← __rte_bitmap_scan_read ; if o is Some _ then mret (1, o) else scan_search) b).
  unfold cursor. destruct (Z.eqb_spec (go2 b) 0) as [E|E].
  { rewrite (mbind_run _ _ _ _ _ (read_stopped b E)). by apply scan_search_run. }
  destruct (Hg E) as [El Hend]. unfold fits in Hx.
  pose proof (Z.div_mod (index2 b) 8 ltac:(lia)). pose proof (Z.mod_pos_bound (index2 b) 8 ltac:(lia)).
  pose proof (Z.div_mod (array2_size b) 8 ltac:(lia)).
  destruct (read_run b W) as [(k & Hk & Hkn & Hkz & Er)|[Hzero Er]]; [done..| |];
    rewrite (mbind_run _ _ _ _ _ Er).
  - assert (Hkin : 0 <= k < array2_size b) by lia.
    destruct (found_cursor b k ((k + 1) mod 8) W Hkin Hi Ho) as (Hcur & Hok & Hsame);
      [|done|].
    { rewrite <- El. symmetry. apply (Z.div_unique_pos _ _ _ (k - 8 * (index2 b / 8))); lia. }
    left. exists (k - index2 b). eexists. replace (index2 b + (k - index2 b)) with k by lia.
    rewrite Z.mod_small by lia. split; [lia|]. split; [done|]. split; [|by split].
    intros e He. rewrite Z.mod_small by lia. apply Hkz. lia.
  - remember (8 * (index2 b / 8) + 8) as e eqn:Ee.
    assert (same_slabs b (set_go2 0 (set_index2 e b))) as S1 by (by repeat split).
    apply (scan_post_shift b _ (index2 b) e _ ltac:(lia) Hzero ltac:(lia) S1).
    set (b1 := set_go2 0 (set_index2 e b)) in *.
    assert (e = 8 * (64 * index1 b1 + offset1 b1 + 1)) as E1 by (simpl; lia). rewrite E1.
    apply scan_search_run; [by apply (wf_same b)|done|done| |done].
    simpl. unfold fits. lia.
Qed.

(** * The contract *)

(** [k] scans in a row. *)
Fixpoint scans (k : nat) : M rte_bitmap (list (Z * option (Z * Z))) :=
  match k with
  | O => mret []
  | Datatypes.S k => r ← rte_bitmap_scan ; rs ← scans k ; mret (r :: rs)
  end.

(** The slabs that are not 0, in cyclic order from the slab [c] on, those at the
    distances from [x] to [T]. *)
Definition full_slabs (b : rte_bitmap) (T c x : Z) : list Z :=
  filter (fun j => s2 b j <> 0) ((fun d => (c + d) mod T) <$> seqZ x (T - x)).

Lemma filter_none {A} (P : A -> Prop) `{!forall x, Decision (P x)} (l : list A) :
  (forall x, x ∈ l -> ~ P x) -> filter P l = [].
Proof.
  induction l as [|x l IH]; intros Hl; [done|].
  rewrite filter_cons_False by (apply Hl; left). apply IH. intros y Hy. apply Hl. by right.
Qed.

Lemma full_skip b T c x d :
  0 <= d -> x + d <= T -> (forall e, 0 <= e < d -> s2 b ((c + x + e) mod T) = 0) ->
  full_slabs b T c x = full_slabs b T c (x + d).
Proof.
  intros Hd HT Hz. unfold full_slabs. replace (T - x) with (d + (T - (x + d))) by lia.
  rewrite seqZ_app, fmap_app, list.filter_app by lia.
  rewrite (filter_none _ (_ <$> seqZ x d)); [done|].
  intros j (e & -> & He%elem_of_seqZ)%list_elem_of_fmap Hn. apply Hn.
  replace (c + e) with (c + x + (e - x)) by lia. apply Hz. lia.
Qed.

Lemma full_hit b T c x :
  x < T -> s2 b ((c + x) mod T) <> 0 ->
  full_slabs b T c x = (c + x) mod T :: full_slabs b T c (x + 1).
Proof.
  intros HT Hn. unfold full_slabs. rewrite seqZ_cons by lia. rewrite fmap_cons, filter_cons_True by done.
  do 4 f_equal; lia.
Qed.

Lemma full_same b b' T c x : same_slabs b b' -> full_slabs b' T c x = full_slabs b T c x.
Proof. intros (_ & E & _). unfold full_slabs, s2. by rewrite E. Qed.

Lemma scans_run T c : forall k b x,
  wf b -> scan_ok b -> T = 512 * array1_size b -> 0 <= x <= T -> cursor b mod T = (c + x) mod T ->
  k = length (full_slabs b T c x) ->
  exists b', scans k b = Some ((fun j => (1, Some (64 * j, s2 b j))) <$> full_slabs b T c x, b')
    /\ wf b' /\ scan_ok b' /\ same_slabs b b'.
Proof.
  induction k as [|k IH]; intros b x W O HT Hx Hc Hk.
  { destruct (full_slabs b T c x); [|done]. exists b. split; [done|]. split; [done|]. by split; [|repeat split]. }
  pose proof (size1_bound b W) as H1.
  assert (Ec : forall d, (cursor b + d) mod T = (c + x + d) mod T)
    by (intros d; rewrite <- Zplus_mod_idemp_l, Hc; apply Zplus_mod_idemp_l).
  cbn [scans]. destruct (scan_run b W O) as [(d & b1 & Hd & Hn & Hz & Er & Hcur & O1 & S1)|[Hz _]].
  2: { unfold full_slabs in Hk. rewrite filter_none in Hk; [done|]. intros j _ Hn. apply Hn, Hz. }
  rewrite <- HT, Ec in *. rewrite (mbind_run _ _ _ _ _ Er).
  assert (Hz' : forall e, 0 <= e < d -> s2 b ((c + x + e) mod T) = 0)
    by (intros e He; rewrite <- Ec; by apply Hz).
  destruct (decide (x + d < T)) as [Hlt|Hge].
  2: { rewrite (full_skip b T c x (T - x)) in Hk; [|lia|lia|intros e He; apply Hz'; lia].
       unfold full_slabs in Hk. by replace (T - (x + (T - x))) with 0 in Hk by lia. }
  replace (c + x + d) with (c + (x + d)) in * by lia.
  rewrite (full_skip b T c x d) in Hk |- *; [|lia|lia|done|lia|lia|done].
  rewrite (full_hit b T c (x + d) Hlt Hn) in Hk |- *. rewrite <- (full_same b b1 T c _ S1) in *.
  destruct (IH b1 (x + d + 1)) as (b' & E & W' & O' & S'); [by apply (wf_same b)|done| |lia| |by inversion Hk|].
  { destruct S1 as (_ & _ & -> & _). done. }
  { rewrite Hcur, Zplus_mod_idemp_l. f_equal. lia. }
  rewrite (mbind_run _ _ _ _ _ E). exists b'. rewrite fmap_cons. split; [|split; [done|split; [done|]]].
  - replace (s2 b1) with (s2 b); [done|]. destruct S1 as (_ & E2 & _). unfold s2. by rewrite E2.
  - destruct S1 as (?&?&?&?), S' as (?&?&?&?). repeat split; congruence.
Qed.

(** ** A bitmap is a set of bits *)

Inductive bop :=
  | BGet (p : Z) | BSet (p : Z) | BSetSlab (p slab : Z) | BClear (p : Z) | BReset | BScan.

(** The result of a call and, for a scan, [*pos] and [*slab]. *)
Definition reply : Type := Z * option (Z * Z).

Definition bstep (o : bop) : M rte_bitmap reply :=
  match o with
  | BGet p => v ← rte_bitmap_get p ; mret (v, None)
  | BSet p => rte_bitmap_set p ;; mret (0, None)
  | BSetSlab p slab => rte_bitmap_set_slab p slab ;; mret (0, None)
  | BClear p => rte_bitmap_clear p ;; mret (0, None)
  | BReset => modify rte_bitmap_reset ;; mret (0, None)
  | BScan => rte_bitmap_scan
  end.

Definition bvalid (n : Z) (o : bop) : Prop :=
  match o with
  | BGet p | BSet p | BClear p => 0 <= p < n
  | BSetSlab p slab => 0 <= p < n /\ fits 64 slab /\ slab <> 0
  | BReset | BScan => True
  end.

(** The bits of a slab. *)
Definition slab_bits (j v : Z) : gset Z :=
  list_to_set (filter (fun q => Z.testbit v (q mod 64) = true) (seqZ (64 * j) 64)).

(** One call on the set. *)
Inductive sstep (S : gset Z) : bop -> reply -> gset Z -> Prop :=
  | s_get p r : truthy r = bool_decide (p ∈ S) -> sstep S (BGet p) (r, None) S
  | s_set p : sstep S (BSet p) (0, None) (S ∪ {[p]})
  | s_set_slab p v : sstep S (BSetSlab p v) (0, None) (S ∪ slab_bits (p / 64) v)
  | s_clear p : sstep S (BClear p) (0, None) (S ∖ {[p]})
  | s_reset : sstep S BReset (0, None) ∅
  | s_scan_found j v : v <> 0 -> (forall q, q / 64 = j -> Z.testbit v (q mod 64) = bool_decide (q ∈ S)) ->
      sstep S BScan (1, Some (64 * j, v)) S
  | s_scan_none : S = ∅ -> sstep S BScan (0, None) S.

Inductive srun : gset Z -> list bop -> list reply -> gset Z -> Prop :=
  | sr_nil S : srun S [] [] S
  | sr_cons S o os r rs S1 S2 : sstep S o r S1 -> srun S1 os rs S2 -> srun S (o :: os) (r :: rs) S2.

(** The bitmap stands for the set. *)
Record stands_for (n : Z) (b : rte_bitmap) (S : gset Z) : Prop := {
  sf_wf : wf b;
  sf_scan : scan_ok b;
  sf_size : n <= 64 * array2_size b;
  sf_pos : forall p, p ∈ S -> 0 <= p;
  sf_has : forall p, 0 <= p -> has b p = bool_decide (p ∈ S)
}.

Lemma elem_slab_bits j v q :
  q ∈ slab_bits j v <-> q / 64 = j /\ Z.testbit v (q mod 64) = true.
Proof.
  unfold slab_bits. rewrite elem_of_list_to_set, list_elem_of_filter, elem_of_seqZ.
  pose proof (Z.div_mod q 64 ltac:(lia)). pose proof (Z.mod_pos_bound q 64 ltac:(lia)).
  split; intros [H1 H2]; (split; [|done]) || (split; [done|]); lia.
Qed.

Lemma stands_same n b b' S S' :
  stands_for n b S -> wf b' -> same_scan b b' -> (forall p, p ∈ S' -> 0 <= p) ->
  (forall p, 0 <= p -> has b' p = bool_decide (p ∈ S')) -> stands_for n b' S'.
Proof.
  intros [W O Hn _ _] W' Hs Hp H. split; [done|by apply (scan_ok_same b)| |done|done].
  destruct Hs as (_ & -> & _). done.
Qed.

Lemma stands_slabs n b b' S :
  stands_for n b S -> scan_ok b' -> same_slabs b b' -> stands_for n b' S.
Proof.
  intros [W O Hn Hp H] O' S1. pose proof S1 as (E1 & E2 & E3 & E4).
  split; [by apply (wf_same b)|done|by rewrite E4|done|].
  unfold has, s2. by rewrite E2.
Qed.

Lemma scan_step n b S :
  stands_for n b S -> exists r b', rte_bitmap_scan b = Some (r, b') /\ sstep S BScan r S
    /\ stands_for n b' S.
Proof.
  intros R. pose proof R as [W O Hn Hp H]. pose proof (size1_bound b W).
  destruct (scan_run b W O) as [(d & b' & Hd & Hv & Hz & Er & _ & O' & S')|(Hz & b' & Er & O' & S')];
    eexists _, b'; (split; [exact Er|]); (split; [|by apply (stands_slabs n b)]).
  - set (T := 512 * array1_size b) in *. set (j := (cursor b + d) mod T) in *.
    pose proof (Z.mod_pos_bound (cursor b + d) T ltac:(lia)) as Hj. fold j in Hj.
    apply s_scan_found; [done|]. intros q Hq. rewrite <- H; [by unfold has; rewrite Hq|].
    pose proof (Z.div_mod q 64 ltac:(lia)). pose proof (Z.mod_pos_bound q 64 ltac:(lia)). lia.
  - apply s_scan_none. apply set_eq. intros p. split; [|set_solver]. intros Hin. exfalso.
    pose proof (H p (Hp p Hin)) as E. rewrite bool_decide_true in E by done.
    unfold has in E. by rewrite Hz, Z.testbit_0_l in E.
Qed.

Lemma bstep_ok n b S o :
  stands_for n b S -> bvalid n o ->
  exists r b' S', bstep o b = Some (r, b') /\ sstep S o r S' /\ stands_for n b' S'.
Proof.
  intros R V. pose proof R as [W O Hn Hp H].
  destruct o as [p|p|p v|p| |]; cbn [bstep bvalid] in *.
  - destruct (get_run b p W) as (v & E & Hv); [lia|]. rewrite (mbind_run _ _ _ _ _ E).
    eexists _, b, S. split; [reflexivity|]. split; [|done]. constructor. rewrite Hv. apply H. lia.
  - destruct (set_run b p W) as (b' & E & W' & Sc & Hb); [lia|]. rewrite (mbind_run _ _ _ _ _ E).
    eexists _, b', _. split; [reflexivity|]. split; [constructor|].
    apply (stands_same n b b' S); [done..|set_solver by lia|]. intros q Hq.
    rewrite Hb, H by done. destruct (Z.eqb_spec q p); symmetry.
    + rewrite orb_true_r. apply bool_decide_true. set_solver.
    + rewrite orb_false_r. apply bool_decide_ext. set_solver.
  - destruct V as (Vp & Vf & Vn). destruct (set_slab_run b p v W) as (b' & E & W' & Sc & Hb); [lia|done|done|].
    rewrite (mbind_run _ _ _ _ _ E). eexists _, b', _. split; [reflexivity|]. split; [constructor|].
    apply (stands_same n b b' S); [done..| |].
    + intros q [Hq|[Hq _]%elem_slab_bits]%elem_of_union; [by apply Hp|].
      pose proof (Z.div_pos p 64 ltac:(lia) ltac:(lia)).
      pose proof (Z.div_mod q 64 ltac:(lia)). pose proof (Z.mod_pos_bound q 64 ltac:(lia)). lia.
    + intros q Hq. rewrite (set_slab_has b b' p v Hb), H by done. apply eq_true_iff_eq.
      rewrite orb_true_iff, andb_true_iff, !bool_decide_eq_true, Z.eqb_eq, elem_of_union, elem_slab_bits.
      done.
  - destruct (clear_run b p W) as (b' & E & C); [lia|]. rewrite (mbind_run _ _ _ _ _ E).
    pose proof C as (W' & Sc & _). eexists _, b', _. split; [reflexivity|]. split; [constructor|].
    apply (stands_same n b b' S); [done..|set_solver|]. intros q Hq.
    rewrite (clear_has b b' p C) by lia. rewrite H by done. apply eq_true_iff_eq.
    rewrite andb_true_iff, negb_true_iff, Z.eqb_neq, !bool_decide_eq_true. set_solver.
  - destruct (bitmap_reset_run b W) as (W' & O' & E' & H'). eexists _, (rte_bitmap_reset b), ∅.
    split; [reflexivity|]. split; [constructor|]. split; [done|done|by rewrite E'|set_solver|].
    intros q Hq. rewrite H' by done. symmetry. apply bool_decide_false. set_solver.
  - destruct (scan_step n b S R) as (r & b' & E & Hs & R'). by exists r, b', S.
Qed.

Lemma brun_ok n os : forall b S,
  stands_for n b S -> Forall (bvalid n) os ->
  exists rs b' S', mmapM bstep os b = Some (rs, b') /\ srun S os rs S' /\ stands_for n b' S'.
Proof.
  induction os as [|o os IH]; intros b S R V.
  { exists [], b, S. split; [done|]. split; [constructor|done]. }
  apply Forall_cons in V as [Vo V]. destruct (bstep_ok n b S o R Vo) as (r & b1 & S1 & E & Hs & R1).
  destruct (IH b1 S1 R1 V) as (rs & b2 & S2 & E2 & Hr & R2). exists (r :: rs), b2, S2.
  cbn [mmapM]. rewrite (mbind_run _ _ _ _ _ E), (mbind_run _ _ _ _ _ E2).
  split; [done|]. split; [by econstructor|done].
Qed.

Lemma init_stands n mem :
  1 <= n <= 2 ^ 32 - 512 -> mem <> 0 -> mem mod 64 = 0 ->
  exists b, rte_bitmap_init n mem (rte_bitmap_get_memory_footprint n) = Some (Some b)
    /\ stands_for n b ∅.
Proof.
  intros Hn Hm Ha. destruct (init_run n mem _ Hn Hm Ha (Z.le_refl _)) as (b & E & W & O & Hs & H).
  exists b. split; [done|]. split; [done|done| |set_solver|].
  - rewrite Hs. pose proof (lines_bounds n Hn). lia.
  - intros p Hp. rewrite H by done. symmetry. apply bool_decide_false. set_solver.
Qed.

Lemma init_all_stands n mem :
  1 <= n <= 2 ^ 32 - 512 -> mem <> 0 -> mem mod 64 = 0 ->
  exists b, rte_bitmap_init_with_all_set n mem (rte_bitmap_get_memory_footprint n) = Some (Some b)
    /\ stands_for n b (list_to_set (seqZ 0 n)).
Proof.
  intros Hn Hm Ha. destruct (init_all_run n mem Hn Hm Ha) as (b & E & W & O & Hs & H).
  exists b. split; [done|]. split; [done|done| | |].
  - rewrite Hs. pose proof (lines_bounds n Hn). lia.
  - intros p Hp%elem_of_list_to_set%elem_of_seqZ. lia.
  - intros p Hp. rewrite H by done. apply eq_true_iff_eq.
    rewrite Z.ltb_lt, bool_decide_eq_true, elem_of_list_to_set, elem_of_seqZ. lia.
Qed.

(** * Theorems *)

(** C33. A bitmap of [n_bits] bits, at least 1 and at most [2 ^ 32 - 512],
    initialised in memory that is not null, aligned to 64 bytes and of the size
    that the footprint gives, behaves as a set of bits: every sequence of calls of
    [rte_bitmap_get], [rte_bitmap_set], [rte_bitmap_set_slab],
    [rte_bitmap_clear], [rte_bitmap_reset] and [rte_bitmap_scan] on positions
    below [n_bits], where a slab that is set is not 0, runs inside the two arrays,
    and its results are those of the same calls on a set, which is empty after
    [rte_bitmap_init] and holds [0 .. n_bits - 1] after
    [rte_bitmap_init_with_all_set]; a scan returns the contents of some slab that
    is not empty, and 0 only when the set is empty.  (For more bits the footprint
    wraps, and a slab set to 0 is later returned by a scan: both are findings.) *)
Theorem bitmap_refines_set n mem os :
  1 <= n <= 2 ^ 32 - 512 -> mem <> 0 -> mem mod 64 = 0 -> Forall (bvalid n) os ->
  let size := rte_bitmap_get_memory_footprint n in
  (exists b rs b' S, rte_bitmap_init n mem size = Some (Some b)
     /\ mmapM bstep os b = Some (rs, b') /\ srun ∅ os rs S /\ stands_for n b' S)
  /\ (exists b rs b' S, rte_bitmap_init_with_all_set n mem size = Some (Some b)
     /\ mmapM bstep os b = Some (rs, b') /\ srun (list_to_set (seqZ 0 n)) os rs S
     /\ stands_for n b' S).
Proof.
  intros Hn Hm Ha V. split.
  - destruct (init_stands n mem Hn Hm Ha) as (b & E & R).
    destruct (brun_ok n os b _ R V) as (rs & b' & S & Er & Hr & R'). by exists b, rs, b', S.
  - destruct (init_all_stands n mem Hn Hm Ha) as (b & E & R).
    destruct (brun_ok n os b _ R V) as (rs & b' & S & Er & Hr & R'). by exists b, rs, b', S.
Qed.

Lemma bitmap_refines_set_witness :
  let os := [BSet 5; BSetSlab 700 3; BScan; BClear 5; BScan; BGet 705; BReset; BScan] in
  exists b rs b' S, rte_bitmap_init 1000 128 (rte_bitmap_get_memory_footprint 1000) = Some (Some b)
    /\ mmapM bstep os b = Some (rs, b') /\ srun ∅ os rs S /\ stands_for 1000 b' S.
Proof.
  intros os. refine (proj1 (bitmap_refines_set 1000 128 os _ _ _ _)); [lia|lia|done|].
  repeat (apply Forall_cons; split; [cbn [bvalid]; unfold fits; done || lia|]). by apply Forall_nil.
Defined.

(** A whole turn of the scan: from any state that the calls reach, as many
    scans as there are slabs that are not 0 return each of them exactly once, in
    cyclic order from the place where the scan stands. *)
Theorem bitmap_scan_covers n b S :
  stands_for n b S ->
  let L := full_slabs b (512 * array1_size b) (cursor b) 0 in
  (forall j, j ∈ L <-> s2 b j <> 0) /\ NoDup L
  /\ exists b', scans (length L) b = Some ((fun j => (1, Some (64 * j, s2 b j))) <$> L, b')
       /\ stands_for n b' S.
Proof.
  intros R. pose proof R as [W O _ _ _]. pose proof (size1_bound b W) as H1.
  cbv zeta. split; [|split].
  - intros j. unfold full_slabs. rewrite list_elem_of_filter, list_elem_of_fmap.
    split; [by intros [? _]|]. intros Hj. split; [done|].
    pose proof (s2_inside b j W Hj). pose proof (wf_room b W).
    exists ((j - cursor b) mod (512 * array1_size b)). split.
    + rewrite Zplus_mod_idemp_r. rewrite Z.mod_small; lia.
    + apply elem_of_seqZ. pose proof (Z.mod_pos_bound (j - cursor b) (512 * array1_size b)). lia.
  - unfold full_slabs. apply NoDup_filter. rewrite Z.sub_0_r.
    apply NoDup_fmap_2_strong; [|apply NoDup_seqZ].
    intros x y Hx%elem_of_seqZ Hy%elem_of_seqZ E.
    assert ((cursor b + x - (cursor b + y)) mod (512 * array1_size b) = 0) as Hd
      by (rewrite Zminus_mod, E, Z.sub_diag; apply Z.mod_0_l; lia).
    apply Z.mod_divide in Hd as [q Hq]; [|lia]. assert (q = 0) as -> by nia. lia.
  - destruct (scans_run (512 * array1_size b) (cursor b)
      (length (full_slabs b (512 * array1_size b) (cursor b) 0)) b 0 W O eq_refl)
      as (b' & E & W' & O' & S'); [lia|by rewrite Z.add_0_r|done|]. exists b'. split; [done|]. by apply (stands_slabs n b).
Qed.

Lemma bitmap_scan_covers_witness :
  exists b b', rte_bitmap_init_with_all_set 200 128 (rte_bitmap_get_memory_footprint 200) = Some (Some b)
    /\ scans 4 b = Some ([(1, Some (0, 2 ^ 64 - 1)); (1, Some (64, 2 ^ 64 - 1));
                          (1, Some (128, 2 ^ 64 - 1)); (1, Some (192, 2 ^ 8 - 1))], b').
Proof.
  destruct (init_all_stands 200 128 ltac:(lia) ltac:(lia) eq_refl) as (b & E & R). exists b.
  destruct (bitmap_scan_covers 200 b _ R) as (_ & _ & b' & Hs & _). exists b'. split; [exact E|].
  vm_compute in E. injection E as <-. vm_compute in Hs. exact Hs.
Defined.

(** [rte_bitmap_init_with_all_set] compares the sizes the wrong way round
    ([size < mem_size]): memory that is larger than the footprint is refused, and
    memory that is smaller is written beyond its end.  [rte_bitmap_init] compares
    them right. *)
Theorem all_set_checks_backwards n mem mem_size :
  1 <= n <= 2 ^ 32 - 512 -> mem <> 0 -> mem mod 64 = 0 ->
  (mem_size > rte_bitmap_get_memory_footprint n -> rte_bitmap_init_with_all_set n mem mem_size = Some None)
  /\ (mem_size < rte_bitmap_get_memory_footprint n ->
        rte_bitmap_init_with_all_set n mem mem_size = None /\ rte_bitmap_init n mem mem_size = Some None).
Proof.
  intros Hn Hm Ha. unfold rte_bitmap_get_memory_footprint, rte_bitmap_init_with_all_set, rte_bitmap_init, truthy.
  rewrite (proj2 (Z.eqb_neq n 0)), (proj2 (Z.eqb_neq mem 0)) by lia.
  change RTE_CACHE_LINE_MASK with 63. rewrite land_63', Ha. cbn [orb negb Z.eqb].
  destruct (footprint_run n Hn) as (c & -> & _ & _). cbn [fst]. rewrite Z.gtb_ltb. split; intros H.
  - by rewrite (proj2 (Z.ltb_lt _ mem_size)) by lia.
  - by rewrite (proj2 (Z.ltb_ge _ mem_size)), (proj2 (Z.ltb_lt mem_size _)) by lia.
Qed.

(** A slab with value 0, set in an empty line, is marked all the same: the next
    scan returns 1 and writes neither [*pos] nor [*slab]. *)
Theorem set_slab_zero_scan :
  exists b b1 b2, rte_bitmap_init 1000 128 (rte_bitmap_get_memory_footprint 1000) = Some (Some b)
    /\ rte_bitmap_set_slab 0 0 b = Some (tt, b1) /\ rte_bitmap_scan b1 = Some ((1, None), b2).
Proof.
  eexists _, _, _. split; [vm_compute; reflexivity|]. split; [vm_compute; reflexivity|].
  vm_compute; reflexivity.
Qed.

(** Beyond [2^32 - 512] bits the footprint wraps around: the bitmap that is
    initialised has no slabs, and setting a bit of it writes outside. *)
Theorem footprint_wraps :
  exists b, rte_bitmap_init (2 ^ 32 - 511) 128 64 = Some (Some b) /\ array2_size b = 0
    /\ rte_bitmap_set 0 b = None.
Proof. eexists. split; [vm_compute; reflexivity|]. by split. Qed.

(** The scan gives the position of the first bit of a slab, not the position of a
    bit that is set, and [rte_bitmap_set_slab] adds bits to a slab. *)
Theorem scan_gives_slab_position :
  exists b b1 b2 b3 b4, rte_bitmap_init 1000 128 (rte_bitmap_get_memory_footprint 1000) = Some (Some b)
    /\ rte_bitmap_set 70 b = Some (tt, b1) /\ rte_bitmap_scan b1 = Some ((1, Some (64, 64)), b2)
    /\ rte_bitmap_set_slab 70 1 b1 = Some (tt, b3) /\ rte_bitmap_scan b3 = Some ((1, Some (64, 65)), b4).
Proof.
  eexists _, _, _, _, _. split; [vm_compute; reflexivity|].
  repeat (split; [vm_compute; reflexivity|]). vm_compute; reflexivity.
Qed.
