(* ===== verification/Memcpy.v ===== *)
(** * Copy of memory ([include/rte_memcpy.h]).

    The three implementations of [rte_memcpy_generic], for AVX512, AVX2 and SSE,
    with the movers they are made of, and the functions that all three share.  A
    memory gives the byte at each mapped address; a vector register is the list
    of its bytes; a load or store of an unmapped byte is undefined.  The class
    [Moves] is what the shared functions need of an instruction set. *)
From stdpp Require Import prelude list numbers gmap.
From S2P Require Import Prelude.
Open Scope Z_scope.

Abbreviation mem := (gmap Z Z).

(** ** Vector registers *)

(** [_mm_loadu_si128] and its wider relatives. *)
Fixpoint load (a : Z) (w : nat) : M mem (list Z) :=
  match w with
  | O => mret []
  | Datatypes.S w =>
      m ← get ;
      b ← lift (m !! a) ;
      l ← load (a + 1) w ;
      mret (b :: l)
  end.

(** [_mm_storeu_si128] and its wider relatives. *)
Fixpoint store (a : Z) (l : list Z) : M mem unit :=
  match l with
  | [] => mret tt
  | b :: l =>
      m ← get ;
      _ ← lift (m !! a) ;
      put (<[a := b]> m) ;;
      store (a + 1) l
  end.

(** [_mm_alignr_epi8]: the 16 bytes from [imm] on of the two registers, [b]
    being the low one. *)
Definition alignr (a b : list Z) (imm : Z) : list Z := take 16 (drop (Z.to_nat imm) (b ++ a)).

(** One register is loaded and stored. *)
Definition mov (w : nat) (dst src : Z) : M mem unit := l ← load src w ; store dst l.

(** [k] movers of [w] bytes, one after the other. *)
Definition moves (f : Z -> Z -> M mem unit) (w : Z) (k : nat) (dst src : Z) : M mem unit :=
  mfor (seq 0 k) (fun i => f (dst + Z.of_nat i * w) (src + Z.of_nat i * w)).

(** [k] registers are loaded, then they are stored. *)
Definition mov_regs (w : nat) (k : nat) (dst src : Z) : M mem unit :=
  regs ← mmapM (fun i => load (src + Z.of_nat i * Z.of_nat w) w) (seq 0 k) ;
  mfor (imap pair regs) (fun '(i, r) => store (dst + Z.of_nat i * Z.of_nat w) r).

(** Copy [size] bytes and move on, when at least [lim] are left. *)
Definition copy_chunk (lim size : Z) (f : Z -> Z -> M mem unit) (p : Z * Z * Z)
  : M mem (Z * Z * Z) :=
  let '(dst, src, n) := p in
  if n >=? lim then f dst src ;; mret (dst + size, src + size, u64 (n - size))
  else mret p.

(** The same as long as at least [lim] are left. *)
Definition copy_chunks (lim size : Z) (f : Z -> Z -> M mem unit) (p : Z * Z * Z)
  : M mem (Z * Z * Z) :=
  do_while (Datatypes.S (Z.to_nat p.2))
    (fun p => if p.2 >=? lim then p ← copy_chunk lim size f p ; mret (inl p) else mret (inr p)) p.

(** Skip what a block copy has copied: [bits = n; n = n & mask; bits -= n]. *)
Definition skip_blocks (msk : Z) (p : Z * Z * Z) : Z * Z * Z :=
  let '(dst, src, n) := p in
  let bits := n in
  let n := Z.land n msk in
  let bits := u64 (bits - n) in
  (dst + bits, src + bits, n).

Definition rte_mov15_or_less (dst src n : Z) : M mem Z :=
  let ret := dst in
  '(dst, src) ← (if truthy (Z.land n 8) then mov 8 dst src ;; mret (dst + 8, src + 8) else mret (dst, src)) ;
  '(dst, src) ← (if truthy (Z.land n 4) then mov 4 dst src ;; mret (dst + 4, src + 4) else mret (dst, src)) ;
  '(dst, src) ← (if truthy (Z.land n 2) then mov 2 dst src ;; mret (dst + 2, src + 2) else mret (dst, src)) ;
  (if truthy (Z.land n 1) then mov 1 dst src else mret tt) ;;
  mret ret.

(** ** AVX512 *)
Module Avx512.
Definition ALIGNMENT_MASK : Z := 0x3F.
Definition rte_mov16 (dst src : Z) : M mem unit := mov 16 dst src.
Definition rte_mov32 (dst src : Z) : M mem unit := mov 32 dst src.
Definition rte_mov64 (dst src : Z) : M mem unit := mov 64 dst src.
Definition rte_mov128 (dst src : Z) : M mem unit := moves rte_mov64 64 2 dst src.
Definition rte_mov256 (dst src : Z) : M mem unit := moves rte_mov64 64 4 dst src.
Definition rte_mov128blocks (dst src n : Z) : M mem unit :=
  copy_chunks 128 128 (mov_regs 64 2) (dst, src, n) ;; mret tt.
Definition rte_mov512blocks (dst src n : Z) : M mem unit :=
  copy_chunks 512 512 (mov_regs 64 8) (dst, src, n) ;; mret tt.

(** From the label [COPY_BLOCK_128_BACK63] on. *)
Definition copy_block_128_back63 (ret : Z) (p : Z * Z * Z) : M mem Z :=
  let '(dst, src, n) := p in
  if n >? 64 then
    rte_mov64 dst src ;;
    rte_mov64 (dst - 64 + n) (src - 64 + n) ;;
    mret ret
  else
    (if n >? 0 then rte_mov64 (dst - 64 + n) (src - 64 + n) else mret tt) ;;
    mret ret.

Definition rte_memcpy_generic (dst src n : Z) : M mem Z :=
  let ret := dst in
  if n <? 16 then rte_mov15_or_less dst src n
  else if n <=? 32 then
    rte_mov16 dst src ;; rte_mov16 (dst - 16 + n) (src - 16 + n) ;; mret ret
  else if n <=? 64 then
    rte_mov32 dst src ;; rte_mov32 (dst - 32 + n) (src - 32 + n) ;; mret ret
  else if n <=? 512 then
    p ← copy_chunk 256 256 rte_mov256 (dst, src, n) ;
    p ← copy_chunk 128 128 rte_mov128 p ;
    copy_block_128_back63 ret p
  else
    let dstofss := Z.land dst 0x3F in
    '(dst, src, n) ←
      (if dstofss >? 0 then
         let dstofss := 64 - dstofss in
         rte_mov64 dst src ;; mret (dst + dstofss, src + dstofss, u64 (n - dstofss))
       else mret (dst, src, n)) ;
    rte_mov512blocks dst src n ;;
    let '(dst, src, n) := skip_blocks 511 (dst, src, n) in
    p ← (if n >=? 128 then
           rte_mov128blocks dst src n ;; mret (skip_blocks 127 (dst, src, n))
         else mret (dst, src, n)) ;
    copy_block_128_back63 ret p.
End Avx512.

(** ** AVX2 *)
Module Avx2.
Definition ALIGNMENT_MASK : Z := 0x1F.
Definition rte_mov16 (dst src : Z) : M mem unit := mov 16 dst src.
Definition rte_mov32 (dst src : Z) : M mem unit := mov 32 dst src.
Definition rte_mov64 (dst src : Z) : M mem unit := moves rte_mov32 32 2 dst src.
Definition rte_mov128 (dst src : Z) : M mem unit := moves rte_mov32 32 4 dst src.
Definition rte_mov128blocks (dst src n : Z) : M mem unit :=
  copy_chunks 128 128 (mov_regs 32 4) (dst, src, n) ;; mret tt.

(** From the label [COPY_BLOCK_128_BACK31] on. *)
Definition copy_block_128_back31 (ret : Z) (p : Z * Z * Z) : M mem Z :=
  '(dst, src, n) ← copy_chunk 64 64 rte_mov64 p ;
  if n >? 32 then
    rte_mov32 dst src ;;
    rte_mov32 (dst - 32 + n) (src - 32 + n) ;;
    mret ret
  else
    (if n >? 0 then rte_mov32 (dst - 32 + n) (src - 32 + n) else mret tt) ;;
    mret ret.

Definition rte_memcpy_generic (dst src n : Z) : M mem Z :=
  let ret := dst in
  if n <? 16 then rte_mov15_or_less dst src n
  else if n <=? 32 then
    rte_mov16 dst src ;; rte_mov16 (dst - 16 + n) (src - 16 + n) ;; mret ret
  else if n <=? 48 then
    rte_mov16 dst src ;; rte_mov16 (dst + 16) (src + 16) ;;
    rte_mov16 (dst - 16 + n) (src - 16 + n) ;; mret ret
  else if n <=? 64 then
    rte_mov32 dst src ;; rte_mov32 (dst - 32 + n) (src - 32 + n) ;; mret ret
  else if n <=? 256 then
    p ← copy_chunk 128 128 rte_mov128 (dst, src, n) ;
    copy_block_128_back31 ret p
  else
    let dstofss := Z.land dst 0x1F in
    '(dst, src, n) ←
      (if dstofss >? 0 then
         let dstofss := 32 - dstofss in
         rte_mov32 dst src ;; mret (dst + dstofss, src + dstofss, u64 (n - dstofss))
       else mret (dst, src, n)) ;
    rte_mov128blocks dst src n ;;
    copy_block_128_back31 ret (skip_blocks 127 (dst, src, n)).
End Avx2.

(** ** SSE *)
Module Sse.
Definition ALIGNMENT_MASK : Z := 0x0F.
Definition rte_mov16 (dst src : Z) : M mem unit := mov 16 dst src.
Definition rte_mov32 (dst src : Z) : M mem unit := moves rte_mov16 16 2 dst src.
Definition rte_mov64 (dst src : Z) : M mem unit := moves rte_mov16 16 4 dst src.
Definition rte_mov128 (dst src : Z) : M mem unit := moves rte_mov16 16 8 dst src.
Definition rte_mov256 (dst src : Z) : M mem unit := moves rte_mov16 16 16 dst src.

(** [k + 1] registers are loaded from [offset] bytes before the source, and
    [k] registers are put together from neighbours and stored. *)
Definition mov_aligned (k : nat) (offset dst src : Z) : M mem unit :=
  xmm ← mmapM (fun i => load (src - offset + Z.of_nat i * 16) 16) (seq 0 (Datatypes.S k)) ;
  mfor (seq 0 k) (fun i =>
    x0 ← lift (xmm !! i) ;
    x1 ← lift (xmm !! Datatypes.S i) ;
    store (dst + Z.of_nat i * 16) (alignr x1 x0 offset)).

(** [tmp = len; len = ((len - 16 + offset) & msk) + 16 - offset; ...] *)
Definition skip_aligned (msk offset : Z) (p : Z * Z * Z) : Z * Z * Z :=
  let '(dst, src, len) := p in
  let tmp := len in
  let len := u64 (Z.land (u64 (len - 16 + offset)) msk + 16 - offset) in
  let tmp := u64 (tmp - len) in
  (dst + tmp, src + tmp, len).

Definition MOVEUNALIGNED_LEFT47_IMM (offset : Z) (p : Z * Z * Z) : M mem (Z * Z * Z) :=
  p ← copy_chunks (128 + 16 - offset) 128 (mov_aligned 8 offset) p ;
  let p := skip_aligned 127 offset p in
  if p.2 >=? 32 + 16 - offset then
    p ← copy_chunks (32 + 16 - offset) 32 (mov_aligned 2 offset) p ;
    mret (skip_aligned 31 offset p)
  else mret p.

Definition MOVEUNALIGNED_LEFT47 (offset : Z) (p : Z * Z * Z) : M mem (Z * Z * Z) :=
  if (0x01 <=? offset) && (offset <=? 0x0F) then MOVEUNALIGNED_LEFT47_IMM offset p else mret p.

(** From the labels [COPY_BLOCK_64_BACK15], [COPY_BLOCK_128_BACK15] and
    [COPY_BLOCK_255_BACK15] on. *)
Definition copy_block_64_back15 (ret : Z) (p : Z * Z * Z) : M mem Z :=
  '(dst, src, n) ← copy_chunk 32 32 rte_mov32 p ;
  if n >? 16 then
    rte_mov16 dst src ;;
    rte_mov16 (dst - 16 + n) (src - 16 + n) ;;
    mret ret
  else
    (if n >? 0 then rte_mov16 (dst - 16 + n) (src - 16 + n) else mret tt) ;;
    mret ret.

Definition copy_block_128_back15 (ret : Z) (p : Z * Z * Z) : M mem Z :=
  p ← copy_chunk 64 64 rte_mov64 p ; copy_block_64_back15 ret p.

Definition copy_block_255_back15 (ret : Z) (p : Z * Z * Z) : M mem Z :=
  p ← copy_chunk 128 128 rte_mov128 p ; copy_block_128_back15 ret p.

Definition rte_memcpy_generic (dst src n : Z) : M mem Z :=
  let ret := dst in
  if n <? 16 then rte_mov15_or_less dst src n
  else if n <=? 32 then
    rte_mov16 dst src ;; rte_mov16 (dst - 16 + n) (src - 16 + n) ;; mret ret
  else if n <=? 48 then
    rte_mov32 dst src ;; rte_mov16 (dst - 16 + n) (src - 16 + n) ;; mret ret
  else if n <=? 64 then
    rte_mov32 dst src ;; rte_mov16 (dst + 32) (src + 32) ;;
    rte_mov16 (dst - 16 + n) (src - 16 + n) ;; mret ret
  else if n <=? 128 then copy_block_128_back15 ret (dst, src, n)
  else if n <=? 512 then
    p ← copy_chunk 256 256 (moves rte_mov128 128 2) (dst, src, n) ;
    copy_block_255_back15 ret p
  else
    let dstofss := Z.land dst 0x0F in
    '(dst, src, n) ←
      (if dstofss >? 0 then
         let dstofss := 16 - dstofss + 16 in
         rte_mov32 dst src ;; mret (dst + dstofss, src + dstofss, u64 (n - dstofss))
       else mret (dst, src, n)) ;
    let srcofs := Z.land src 0x0F in
    if srcofs =? 0 then
      p ← copy_chunks 256 256 rte_mov256 (dst, src, n) ;
      copy_block_255_back15 ret p
    else
      p ← MOVEUNALIGNED_LEFT47 srcofs (dst, src, n) ;
      copy_block_64_back15 ret p.
End Sse.

(** ** What the three have in common *)

Class Moves := {
  mov_16 : Z -> Z -> M mem unit;
  mov_32 : Z -> Z -> M mem unit;
  mov_64 : Z -> Z -> M mem unit;
  memcpy_generic : Z -> Z -> Z -> M mem Z;
  alignment_mask : Z
}.

Definition avx512 : Moves :=
  {| mov_16 := Avx512.rte_mov16; mov_32 := Avx512.rte_mov32; mov_64 := Avx512.rte_mov64;
     memcpy_generic := Avx512.rte_memcpy_generic; alignment_mask := Avx512.ALIGNMENT_MASK |}.
Definition avx2 : Moves :=
  {| mov_16 := Avx2.rte_mov16; mov_32 := Avx2.rte_mov32; mov_64 := Avx2.rte_mov64;
     memcpy_generic := Avx2.rte_memcpy_generic; alignment_mask := Avx2.ALIGNMENT_MASK |}.
Definition sse : Moves :=
  {| mov_16 := Sse.rte_mov16; mov_32 := Sse.rte_mov32; mov_64 := Sse.rte_mov64;
     memcpy_generic := Sse.rte_memcpy_generic; alignment_mask := Sse.ALIGNMENT_MASK |}.

Section shared.
Context `{V : Moves}.

Definition rte_memcpy_aligned (dst src n : Z) : M mem Z :=
  let ret := dst in
  if n <? 16 then rte_mov15_or_less dst src n
  else if n <=? 32 then
    mov_16 dst src ;; mov_16 (dst - 16 + n) (src - 16 + n) ;; mret ret
  else if n <=? 64 then
    mov_32 dst src ;; mov_32 (dst - 32 + n) (src - 32 + n) ;; mret ret
  else
    '(dst, src, n) ← copy_chunks 64 64 mov_64 (dst, src, n) ;
    mov_64 (dst - 64 + n) (src - 64 + n) ;;
    mret ret.

Definition rte_memcpy (dst src n : Z) : M mem Z :=
  if negb (truthy (Z.land (Z.lor dst src) alignment_mask)) then rte_memcpy_aligned dst src n
  else memcpy_generic dst src n.
End shared.

(** * Lemmas *)

Lemma land_15 x : Z.land x 0x0F = x mod 16.
Proof. apply (land_mask x 4). lia. Qed.
Lemma land_31 x : Z.land x 0x1F = x mod 32.
Proof. apply (land_mask x 5). lia. Qed.
Lemma land_63 x : Z.land x 0x3F = x mod 64.
Proof. apply (land_mask x 6). lia. Qed.
Lemma land_127 x : Z.land x 127 = x mod 128.
Proof. apply (land_mask x 7). lia. Qed.
Lemma land_511 x : Z.land x 511 = x mod 512.
Proof. apply (land_mask x 9). lia. Qed.

(** ** One copy under way

    [n] bytes are copied from [src] to [dst], which do not overlap, starting
    from the memory [m0]. *)
Section copying.
Variables (dst src n : Z) (m0 : mem).

Record copy_ok : Prop := {
  co_fits : fits 64 n;
  co_src : forall i, 0 <= i < n -> is_Some (m0 !! (src + i));
  co_dst : forall i, 0 <= i < n -> is_Some (m0 !! (dst + i));
  co_apart : src + n <= dst \/ dst + n <= src
}.

Hypothesis C : copy_ok.

(** The memory after a copy of [k] bytes. *)
Definition after (k : Z) (m : mem) : Prop :=
  forall x, m !! x = if (dst <=? x) && (x <? dst + k) then m0 !! (src + (x - dst)) else m0 !! x.

(** At least the first [c] bytes are copied. *)
Definition copied (c : Z) (m : mem) : Prop := exists k, c <= k <= n /\ after k m.

Lemma copied_start : copied 0 m0.
Proof.
  pose proof (co_fits C). unfold fits in *. exists 0. split; [lia|]. intros x.
  destruct (Z.leb_spec dst x), (Z.ltb_spec x (dst + 0)); simpl; [lia|done..].
Qed.

Lemma copied_weaken c c' m : copied c m -> c' <= c -> copied c' m.
Proof. intros (k & Hk & H) ?. exists k. split; [lia|done]. Qed.

Lemma copied_end m : copied n m -> after n m.
Proof. intros (k & Hk & H). by replace n with k by lia. Qed.

(** What a copy does not unmap. *)
Lemma copied_mapped c m x : copied c m -> is_Some (m0 !! x) -> is_Some (m !! x).
Proof.
  intros (k & Hk & H) Hx. rewrite H.
  destruct (Z.leb_spec dst x), (Z.ltb_spec x (dst + k)); simpl; [|done..].
  apply (co_src C). lia.
Qed.

Lemma copied_source c m i : copied c m -> 0 <= i < n -> m !! (src + i) = m0 !! (src + i).
Proof.
  intros (k & Hk & H) Hi. rewrite H. pose proof (co_apart C).
  destruct (Z.leb_spec dst (src + i)), (Z.ltb_spec (src + i) (dst + k)); simpl; [lia|done..].
Qed.

(** ** Registers *)

(** The bytes of a register loaded from [a]. *)
Definition reg (m : mem) (a : Z) (w : nat) : list Z :=
  map (fun i => default 0 (m !! (a + Z.of_nat i))) (seq 0 w).

Lemma length_reg m a w : length (reg m a w) = w.
Proof. unfold reg. by rewrite length_map, length_seq. Qed.

Lemma reg_lookup m a w i :
  (i < w)%nat -> reg m a w !! i = Some (default 0 (m !! (a + Z.of_nat i))).
Proof.
  intros Hi. unfold reg. rewrite list_lookup_fmap, lookup_seq_lt by done. done.
Qed.

Lemma reg_S m a w : reg m a (Datatypes.S w) = default 0 (m !! a) :: reg m (a + 1) w.
Proof.
  unfold reg. cbn [seq map]. rewrite Z.add_0_r. f_equal. rewrite <- seq_shift, map_map.
  apply map_ext. intros i. do 2 f_equal. lia.
Qed.

Lemma load_run a w m :
  (forall i, 0 <= i < Z.of_nat w -> is_Some (m !! (a + i))) -> load a w m = Some (reg m a w, m).
Proof.
  revert a. induction w as [|w IH]; intros a H; [done|].
  destruct (H 0 ltac:(lia)) as [b Hb]. rewrite Z.add_0_r in Hb.
  cbn [load]. unfold get, lift, mbind, M_bind. rewrite Hb.
  rewrite (IH (a + 1)); [|intros i Hi; rewrite <- Z.add_assoc; apply H; lia].
  by rewrite reg_S, Hb.
Qed.

Lemma store_run a l m :
  (forall i, 0 <= i < Z.of_nat (length l) -> is_Some (m !! (a + i))) ->
  exists m', store a l m = Some (tt, m')
    /\ forall x, m' !! x = if (a <=? x) && (x <? a + Z.of_nat (length l))
                           then l !! Z.to_nat (x - a) else m !! x.
Proof.
  revert a m. induction l as [|b l IH]; intros a m H.
  - exists m. split; [done|]. intros x. simpl.
    destruct (Z.leb_spec a x), (Z.ltb_spec x (a + Z.of_nat 0)); simpl in *; [lia|done..].
  - destruct (H 0 ltac:(simpl; lia)) as [c Hc]. rewrite Z.add_0_r in Hc.
    destruct (IH (a + 1) (<[a := b]> m)) as (m' & E & Hm).
    { intros i Hi. rewrite lookup_insert_ne by lia. rewrite <- Z.add_assoc. apply H. simpl. lia. }
    exists m'. split.
    + cbn [store]. unfold get, lift, put, mbind, M_bind. by rewrite Hc.
    + intros x. rewrite Hm. cbn [length].
      destruct (Z.leb_spec a x), (Z.ltb_spec x (a + Z.of_nat (Datatypes.S (length l)))); simpl.
      * destruct (decide (x = a)) as [->|N].
        -- rewrite (proj2 (Z.leb_gt (a + 1) a)), Z.sub_diag, lookup_insert_eq by lia. done.
        -- rewrite (proj2 (Z.leb_le (a + 1) x)), (proj2 (Z.ltb_lt x _)) by lia. simpl.
           replace (Z.to_nat (x - a)) with (Datatypes.S (Z.to_nat (x - (a + 1)))) by lia. done.
      * rewrite (proj2 (Z.ltb_ge x (a + 1 + _))), andb_false_r, lookup_insert_ne by lia. done.
      * rewrite (proj2 (Z.leb_gt (a + 1) x)), lookup_insert_ne by lia. done.
      * lia.
Qed.

(** A register of the source, and its store at the place where it belongs. *)
Lemma load_source c m o w :
  copied c m -> 0 <= o -> o + Z.of_nat w <= n ->
  load (src + o) w m = Some (reg m0 (src + o) w, m).
Proof.
  intros Hc Ho Hw. rewrite load_run.
  - do 2 f_equal. unfold reg. apply map_ext_in. intros i Hi%in_seq.
    rewrite <- Z.add_assoc. rewrite (copied_source c) by (done || lia). done.
  - intros i Hi. apply (copied_mapped c); [done|]. rewrite <- Z.add_assoc. apply (co_src C). lia.
Qed.

Lemma store_source c m o w :
  copied c m -> 0 <= o <= c -> o + Z.of_nat w <= n ->
  exists m', store (dst + o) (reg m0 (src + o) w) m = Some (tt, m')
    /\ copied (Z.max c (o + Z.of_nat w)) m'.
Proof.
  intros (k & Hk & H) Ho Hw.
  destruct (store_run (dst + o) (reg m0 (src + o) w) m) as (m' & E & Hm).
  { intros i Hi. rewrite length_reg in Hi. apply (copied_mapped c); [by exists k|].
    rewrite <- Z.add_assoc. apply (co_dst C). lia. }
  exists m'. split; [done|]. exists (Z.max k (o + Z.of_nat w)). split; [lia|].
  intros x. rewrite Hm, length_reg.
  destruct (Z.leb_spec (dst + o) x), (Z.ltb_spec x (dst + o + Z.of_nat w)); cbn [andb].
  - rewrite (proj2 (Z.leb_le dst x)), (proj2 (Z.ltb_lt x _)) by lia. cbn [andb].
    rewrite reg_lookup by lia.
    replace (src + o + Z.of_nat (Z.to_nat (x - (dst + o)))) with (src + (x - dst)) by lia.
    destruct (co_src C (x - dst) ltac:(lia)) as [b ->]. done.
  - rewrite H. destruct (Z.leb_spec dst x); cbn [andb]; [|lia].
    destruct (Z.ltb_spec x (dst + k)), (Z.ltb_spec x (dst + Z.max k (o + Z.of_nat w))); cbn [andb]; (lia || done).
  - rewrite H. destruct (Z.leb_spec dst x); cbn [andb]; [|done].
    destruct (Z.ltb_spec x (dst + k)), (Z.ltb_spec x (dst + Z.max k (o + Z.of_nat w))); cbn [andb]; (lia || done).
  - lia.
Qed.

(** ** Movers

    [step c p c']: when the first [c] bytes are copied, [p] runs, and then the
    first [c'] are.  [copies lo lim w f]: at any place from [lo] on with at least
    [lim] bytes left, [f] copies [w] bytes. *)
Definition step (c : Z) (p : M mem unit) (c' : Z) : Prop :=
  forall m, copied c m -> exists m', p m = Some (tt, m') /\ copied c' m'.

Definition copies (lo lim w : Z) (f : Z -> Z -> M mem unit) : Prop :=
  forall c o, lo <= o <= c -> o + lim <= n -> step c (f (dst + o) (src + o)) (Z.max c (o + w)).

(** The same for a program that returns. *)
Definition ends (c : Z) (p : M mem Z) (r : Z) : Prop :=
  forall m, copied c m -> exists m', p m = Some (r, m') /\ copied n m'.

Lemma step_ret c : step c (mret tt) c.
Proof. intros m H. by exists m. Qed.

Lemma step_seq c c1 c2 p q : step c p c1 -> step c1 q c2 -> step c (p ;; q) c2.
Proof.
  intros Hp Hq m H. destruct (Hp m H) as (m1 & E1 & H1). destruct (Hq m1 H1) as (m2 & E2 & H2).
  exists m2. split; [|done]. by rewrite (mbind_run _ _ _ _ _ E1).
Qed.

Lemma step_weaken c c1 c' p : step c p c1 -> c' <= c1 -> step c p c'.
Proof.
  intros Hp Hc m H. destruct (Hp m H) as (m1 & E1 & H1). exists m1. split; [done|].
  by apply (copied_weaken c1).
Qed.

Lemma ends_seq c c1 p q r : step c p c1 -> ends c1 q r -> ends c (p ;; q) r.
Proof.
  intros Hp Hq m H. destruct (Hp m H) as (m1 & E1 & H1). destruct (Hq m1 H1) as (m2 & E2 & H2).
  exists m2. split; [|done]. by rewrite (mbind_run _ _ _ _ _ E1).
Qed.

Lemma ends_ret c r : n <= c -> ends c (mret r) r.
Proof. intros Hc m H. exists m. split; [done|]. by apply (copied_weaken c). Qed.

Lemma copies_use lo lim w f c c' o d s :
  copies lo lim w f -> d = dst + o -> s = src + o -> lo <= o <= c -> o + lim <= n ->
  c' <= Z.max c (o + w) -> step c (f d s) c'.
Proof. intros H -> -> Ho Hn Hc. by apply (step_weaken _ (Z.max c (o + w))); [apply H|]. Qed.

Lemma copies_later lo lo' lim w f : copies lo lim w f -> lo <= lo' -> copies lo' lim w f.
Proof. intros H Hl c o Ho Hn. apply H; lia. Qed.

Lemma copies_mov w : copies 0 (Z.of_nat w) (Z.of_nat w) (mov w).
Proof.
  intros c o Ho Hn m H. unfold mov.
  destruct (store_source c m o w H) as (m' & E & H'); [lia..|]. exists m'. split; [|done].
  rewrite (mbind_run _ _ _ _ _ (load_source c m o w H ltac:(lia) Hn)). exact E.
Qed.

Lemma copies_moves f w k :
  0 <= w -> copies 0 w w f -> copies 0 (Z.of_nat k * w) (Z.of_nat k * w) (moves f w k).
Proof.
  intros Hw Hf c o Ho Hn. unfold moves.
  assert (G : forall j i c', (i + j = k)%nat -> 0 <= o + Z.of_nat i * w <= c' ->
    step c' (mfor (seq i j) (fun i => f (dst + o + Z.of_nat i * w) (src + o + Z.of_nat i * w)))
         (Z.max c' (o + Z.of_nat k * w))).
  { intros j. induction j as [|j IH]; intros i c' Hij Hc'.
    - replace k with i by lia. apply (step_weaken _ c'); [apply step_ret|lia].
    - assert (o + Z.of_nat (Datatypes.S i) * w <= o + Z.of_nat k * w) by nia.
      cbn [seq mfor].
      apply (step_seq _ (Z.max c' (o + Z.of_nat (Datatypes.S i) * w))).
      + apply (copies_use 0 w w f c' _ (o + Z.of_nat i * w)); [done|lia..].
      + apply (step_weaken _ (Z.max (Z.max c' (o + Z.of_nat (Datatypes.S i) * w)) (o + Z.of_nat k * w)));
          [apply IH; lia|lia]. }
  apply (G k 0%nat c); lia.
Qed.

(** The registers of a block, and their stores. *)
Lemma load_regs c m o w (l : list nat) :
  copied c m -> 0 <= o -> (forall i, i ∈ l -> o + Z.of_nat (Datatypes.S i) * Z.of_nat w <= n) ->
  mmapM (fun i => load (src + o + Z.of_nat i * Z.of_nat w) w) l m
  = Some (map (fun i => reg m0 (src + (o + Z.of_nat i * Z.of_nat w)) w) l, m).
Proof.
  intros H Ho. induction l as [|i l IH]; intros Hl; [done|]. cbn [mmapM map].
  pose proof (Hl i ltac:(left)) as Hi.
  replace (src + o + Z.of_nat i * Z.of_nat w) with (src + (o + Z.of_nat i * Z.of_nat w)) by lia.
  rewrite (mbind_run _ _ _ _ _ (load_source c m (o + Z.of_nat i * Z.of_nat w) w H ltac:(nia) ltac:(nia))).
  rewrite (mbind_run _ _ _ _ _ (IH ltac:(intros j Hj; apply Hl; by right))). done.
Qed.

Lemma store_regs w k o :
  forall j i c, (i + j = k)%nat -> 0 <= o -> o + Z.of_nat i * Z.of_nat w <= c ->
    o + Z.of_nat k * Z.of_nat w <= n ->
    step c (mfor (map (fun i => (i, reg m0 (src + (o + Z.of_nat i * Z.of_nat w)) w)) (seq i j))
              (fun '(i, r) => store (dst + o + Z.of_nat i * Z.of_nat w) r))
         (Z.max c (o + Z.of_nat k * Z.of_nat w)).
Proof.
  induction j as [|j IH]; intros i c Hij Ho Hc Hn.
  - replace k with i by lia. apply (step_weaken _ c); [apply step_ret|lia].
  - assert (o + Z.of_nat (Datatypes.S i) * Z.of_nat w <= o + Z.of_nat k * Z.of_nat w) by nia.
    cbn [seq map mfor]. apply (step_seq _ (Z.max c (o + Z.of_nat (Datatypes.S i) * Z.of_nat w))).
    + intros m H0. replace (dst + o + Z.of_nat i * Z.of_nat w) with (dst + (o + Z.of_nat i * Z.of_nat w)) by lia.
      destruct (store_source c m (o + Z.of_nat i * Z.of_nat w) w H0) as (m' & E & H'); [lia..|].
      exists m'. split; [done|]. by replace (o + Z.of_nat (Datatypes.S i) * Z.of_nat w)
        with (o + Z.of_nat i * Z.of_nat w + Z.of_nat w) by lia.
    + apply (step_weaken _ (Z.max (Z.max c (o + Z.of_nat (Datatypes.S i) * Z.of_nat w))
        (o + Z.of_nat k * Z.of_nat w))); [apply IH; lia|lia].
Qed.

Lemma imap_pair_seq {A} (g : nat -> A) i k :
  imap (fun j x => ((i + j)%nat, x)) (map g (seq i k)) = map (fun j => (j, g j)) (seq i k).
Proof.
  revert i. induction k as [|k IH]; intros i; [done|]. cbn [seq map imap]. f_equal.
  - by rewrite Nat.add_0_r.
  - rewrite <- (IH (Datatypes.S i)). apply imap_ext. intros j x _. simpl. f_equal. lia.
Qed.

Lemma copies_regs w k :
  copies 0 (Z.of_nat k * Z.of_nat w) (Z.of_nat k * Z.of_nat w) (mov_regs w k).
Proof.
  intros c o Ho Hn m H. unfold mov_regs.
  rewrite (mbind_run _ _ _ _ _ (load_regs c m o w (seq 0 k) H ltac:(lia)
    ltac:(intros i [_ Hi]%elem_of_seq; nia))).
  change (imap pair ?l) with (imap (fun j x => ((0 + j)%nat, x)) l). rewrite imap_pair_seq.
  apply (store_regs w k o k 0 c); [lia..|done|done].
Qed.

(** ** Registers put together from two loads *)

Lemma reg_app m a p q : reg m a (p + q) = reg m a p ++ reg m (a + Z.of_nat p) q.
Proof.
  revert a. induction p as [|p IH]; intros a; [by rewrite Z.add_0_r|].
  cbn [Nat.add]. rewrite !reg_S, IH. cbn [app]. do 3 f_equal. lia.
Qed.

Lemma alignr_reg m a off :
  0 <= off <= 16 ->
  alignr (reg m (a + 16) 16) (reg m a 16) off = reg m (a + off) 16.
Proof.
  intros Ho. unfold alignr.
  change (a + 16) with (a + Z.of_nat 16). rewrite <- reg_app.
  apply list_eq. intros i. destruct (decide (i < 16)%nat) as [Hi|Hi].
  - rewrite lookup_take_lt, lookup_drop, !reg_lookup by lia. do 3 f_equal. lia.
  - rewrite !lookup_ge_None_2; [done|rewrite length_reg; lia|].
    rewrite length_take, length_drop, length_reg. lia.
Qed.

(** The bytes before the source that the SSE variant may read. *)
Definition before (k : Z) : Prop := forall i, - k <= i < 0 -> is_Some (m0 !! (src + i)).

Lemma load_before c m o off :
  copied c m -> 0 <= off <= 15 -> off <= o \/ before off -> 0 <= o -> o - off + 16 <= n ->
  load (src + (o - off)) 16 m = Some (reg m (src + (o - off)) 16, m).
Proof.
  intros H Hoff Hb Ho Hn. apply load_run. intros i Hi. apply (copied_mapped c); [done|].
  rewrite <- Z.add_assoc.
  destruct (decide (0 <= o - off + i)).
  - apply (co_src C). change (Z.of_nat 16) with 16 in Hi. lia.
  - destruct Hb as [Hb|Hb]; [lia|]. apply Hb. lia.
Qed.

Lemma reg_later c m a d w :
  copied c m -> 0 <= d -> src <= a + d -> a + d + Z.of_nat w <= src + n -> reg m (a + d) w = reg m0 (a + d) w.
Proof.
  intros H Hd Ha Hn. unfold reg. apply map_ext_in. intros i Hi%in_seq.
  replace (a + d + Z.of_nat i) with (src + (a + d + Z.of_nat i - src)) by lia.
  rewrite (copied_source c) by (done || lia). done.
Qed.

Lemma load_line c m o off (l : list nat) :
  copied c m -> 0 <= off <= 15 -> off <= o \/ before off -> 0 <= o ->
  (forall i, i ∈ l -> o - off + Z.of_nat (Datatypes.S i) * 16 <= n) ->
  mmapM (fun i => load (src + o - off + Z.of_nat i * 16) 16) l m
  = Some (map (fun i => reg m (src + o - off + Z.of_nat i * 16) 16) l, m).
Proof.
  intros H Hoff Hb Ho. induction l as [|i l IH]; intros Hl; [done|]. cbn [mmapM map].
  pose proof (Hl i ltac:(left)) as Hi.
  assert (load (src + o - off + Z.of_nat i * 16) 16 m
          = Some (reg m (src + o - off + Z.of_nat i * 16) 16, m)) as E.
  { replace (src + o - off + Z.of_nat i * 16) with (src + ((o + Z.of_nat i * 16) - off)) by lia.
    apply (load_before c); [done..|destruct Hb; [left; lia|by right]|lia|lia]. }
  rewrite (mbind_run _ _ _ _ _ E).
  by rewrite (mbind_run _ _ _ _ _ (IH ltac:(intros j Hj; apply Hl; by right))).
Qed.

Lemma store_line k off o (xs : list (list Z)) :
  (forall i, (i < k)%nat -> exists x0 x1, xs !! i = Some x0 /\ xs !! Datatypes.S i = Some x1
    /\ alignr x1 x0 off = reg m0 (src + (o + Z.of_nat i * 16)) 16) ->
  forall j i c, (i + j = k)%nat -> 0 <= o -> o + Z.of_nat i * 16 <= c ->
    o + Z.of_nat k * 16 <= n ->
    step c (mfor (seq i j) (fun i =>
              x0 ← lift (xs !! i) ; x1 ← lift (xs !! Datatypes.S i) ;
              store (dst + o + Z.of_nat i * 16) (alignr x1 x0 off)))
         (Z.max c (o + Z.of_nat k * 16)).
Proof.
  intros Hx j. induction j as [|j IH]; intros i c Hij Ho Hc Hn.
  - replace k with i by lia. apply (step_weaken _ c); [apply step_ret|lia].
  - cbn [seq mfor]. apply (step_seq _ (Z.max c (o + Z.of_nat (Datatypes.S i) * 16))).
    + intros m H0. destruct (Hx i ltac:(lia)) as (x0 & x1 & E0 & E1 & Ea).
      replace (dst + o + Z.of_nat i * 16) with (dst + (o + Z.of_nat i * 16)) by lia.
      destruct (store_source c m (o + Z.of_nat i * 16) 16 H0) as (m' & E & H'); [lia..|].
      exists m'. split.
      * unfold lift, mbind, M_bind. rewrite E0, E1, Ea. exact E.
      * by replace (o + Z.of_nat (Datatypes.S i) * 16) with (o + Z.of_nat i * 16 + Z.of_nat 16) by lia.
    + apply (step_weaken _ (Z.max (Z.max c (o + Z.of_nat (Datatypes.S i) * 16)) (o + Z.of_nat k * 16)));
        [apply IH; lia|lia].
Qed.

Lemma copies_aligned k off lo :
  1 <= off <= 15 -> 0 <= lo -> off <= lo \/ before off ->
  copies lo (Z.of_nat k * 16 + 16 - off) (Z.of_nat k * 16) (Sse.mov_aligned k off).
Proof.
  intros Hoff Hlo Hb c o Ho Hn m H. unfold Sse.mov_aligned.
  rewrite (mbind_run _ _ _ _ _ (load_line c m o off (seq 0 (Datatypes.S k)) H ltac:(lia)
    ltac:(destruct Hb; [left; lia|by right]) ltac:(lia)
    ltac:(intros i [_ Hi]%elem_of_seq; lia))).
  apply (store_line k off o _) with (c := c) (i := 0%nat) (j := k); [|lia..|done].
  intros i Hi. do 2 eexists. rewrite !list_lookup_fmap, !lookup_seq_lt by lia. cbn [fmap option_fmap option_map].
  split; [done|]. split; [done|].
  replace (src + o - off + Z.of_nat (0 + Datatypes.S i) * 16)
    with (src + o - off + Z.of_nat (0 + i) * 16 + 16) by lia.
  rewrite alignr_reg by lia.
  replace (src + o - off + Z.of_nat (0 + i) * 16 + off)
    with (src + (o + Z.of_nat i * 16)) by lia.
  rewrite (reg_later c) by (done || lia). done.
Qed.

(** ** Positions

    After [o] bytes the pointers and the count are [pos o]. *)
Definition pos (o : Z) : Z * Z * Z := (dst + o, src + o, n - o).

Lemma pos_step o size : 0 <= o -> 0 <= size <= n - o ->
  (dst + o + size, src + o + size, u64 (n - o - size)) = pos (o + size).
Proof.
  intros Ho Hs. pose proof (co_fits C). unfold fits, pos in *.
  rewrite wrap_small by (unfold fits; lia). by rewrite !Z.add_assoc, Z.sub_add_distr.
Qed.

Lemma chunk_run lo lim size f c o m :
  0 <= lo <= o -> o <= c -> o <= n -> 0 <= size <= lim -> copies lo lim size f -> copied c m ->
  exists m' o', copy_chunk lim size f (pos o) m = Some (pos o', m')
    /\ o' = (if lim <=? n - o then o + size else o) /\ copied (Z.max c o') m'.
Proof.
  intros Ho Hc Hn Hs Hf H. unfold copy_chunk, pos. rewrite Z.geb_leb.
  destruct (Z.leb_spec lim (n - o)).
  - destruct (Hf c o ltac:(lia) ltac:(lia) m H) as (m' & E & H'). exists m', (o + size).
    rewrite (mbind_run _ _ _ _ _ E). unfold mret, M_ret. rewrite pos_step by lia. done.
  - exists m, o. split_and!; [done..|]. by replace (Z.max c o) with c by lia.
Qed.

Lemma chunks_run lo lim size f c o m :
  0 <= lo <= o -> o <= c -> o <= n -> 0 < size <= lim -> copies lo lim size f -> copied c m ->
  exists m' k, copy_chunks lim size f (pos o) m = Some (pos (o + size * k), m')
    /\ 0 <= k /\ o + size * k <= n /\ n - (o + size * k) < lim
    /\ (k = 0 \/ lim - size <= n - (o + size * k))
    /\ copied (Z.max c (o + size * k)) m'.
Proof.
  intros Ho Hc Hn Hs Hf H. assert (0 <= lo) by lia. unfold copy_chunks.
  assert (G : forall fuel o c m, lo <= o <= c -> o <= n -> n - o < Z.of_nat fuel -> copied c m ->
    exists m' k, do_while fuel
        (fun p => if p.2 >=? lim then p ← copy_chunk lim size f p ; mret (inl p) else mret (inr p))
        (pos o) m = Some (pos (o + size * k), m')
      /\ 0 <= k /\ o + size * k <= n /\ n - (o + size * k) < lim
      /\ (k = 0 \/ lim - size <= n - (o + size * k)) /\ copied (Z.max c (o + size * k)) m').
  { clear m H o c Ho Hc Hn. intros fuel. induction fuel as [|fuel IH]; intros o c m Ho Hn Hfu H; [lia|].
    cbn [do_while]. unfold pos at 1. cbn [snd]. rewrite Z.geb_leb.
    destruct (Z.leb_spec lim (n - o)) as [Hl|Hl].
    - destruct (chunk_run lo lim size f c o m ltac:(lia) ltac:(lia) Hn ltac:(lia) Hf H)
        as (m1 & o1 & E1 & -> & H1).
      rewrite (proj2 (Z.leb_le lim (n - o))) in E1, H1 by lia.
      destruct (IH (o + size) (Z.max c (o + size)) m1 ltac:(lia) ltac:(lia) ltac:(lia) H1)
        as (m2 & k & E2 & Hk & Hkn & Hlt & Hlast & H2).
      exists m2, (k + 1). split.
      + assert (E : (p ← copy_chunk lim size f (pos o) ; mret (inl p)) m
          = @Some (_ * mem) (@inl _ (Z * Z * Z) (pos (o + size)), m1))
          by (by rewrite (mbind_run _ _ _ _ _ E1)).
        rewrite (mbind_run _ _ _ _ _ E). rewrite E2. do 3 f_equal. lia.
      + split_and!; [lia..|]. apply (copied_weaken _ _ _ H2). lia.
    - exists m, 0. rewrite Z.mul_0_r, Z.add_0_r. split_and!; [done|lia..|by left|].
      by replace (Z.max c o) with c by lia. }
  apply G; [lia..|unfold pos; cbn [snd]; lia|done].
Qed.

(** ** Programs at a position *)

Lemma ends_chunk lo lim size f o c q r :
  0 <= lo <= o -> o <= c -> o <= n -> 0 <= size <= lim -> copies lo lim size f ->
  (forall o', o' = (if lim <=? n - o then o + size else o) -> ends (Z.max c o') (q (pos o')) r) ->
  ends c (copy_chunk lim size f (pos o) ≫= q) r.
Proof.
  intros Ho Hc Hn Hs Hf Hq m H.
  destruct (chunk_run lo lim size f c o m Ho Hc Hn Hs Hf H) as (m1 & o1 & E1 & Eo & H1).
  destruct (Hq o1 Eo m1 H1) as (m2 & E2 & H2). exists m2. split; [|done].
  by rewrite (mbind_run _ _ _ _ _ E1).
Qed.

(** Where a loop over blocks stops. *)
Definition stops (lim size o o' : Z) : Prop :=
  exists k, o' = o + size * k /\ 0 <= k /\ o' <= n /\ n - o' < lim /\ (k = 0 \/ lim - size <= n - o').

Lemma stops_le lim size o o' : 0 <= size -> stops lim size o o' -> o <= o'.
Proof. intros Hs (k & -> & Hk & _). nia. Qed.

Lemma ends_chunks lo lim size f o c q r :
  0 <= lo <= o -> o <= c -> o <= n -> 0 < size <= lim -> copies lo lim size f ->
  (forall o', stops lim size o o' -> ends (Z.max c o') (q (pos o')) r) ->
  ends c (copy_chunks lim size f (pos o) ≫= q) r.
Proof.
  intros Ho Hc Hn Hs Hf Hq m H.
  destruct (chunks_run lo lim size f c o m Ho Hc Hn Hs Hf H)
    as (m1 & k & E1 & Hk & Hkn & Hlt & Hl & H1).
  destruct (Hq (o + size * k) ltac:(by exists k) m1 H1) as (m2 & E2 & H2). exists m2.
  split; [|done]. by rewrite (mbind_run _ _ _ _ _ E1).
Qed.

Lemma skip_blocks_pos msk size o o' :
  (forall x, Z.land x msk = x mod size) -> 0 < size -> 0 <= o -> stops size size o o' ->
  skip_blocks msk (pos o) = pos o'.
Proof.
  intros Hm Hs Ho (k & -> & Hk & Hn & Hlt & _). unfold skip_blocks, pos. rewrite Hm.
  assert ((n - o) mod size = n - (o + size * k)) as ->.
  { symmetry. apply (Z.mod_unique_pos _ _ k); lia. }
  pose proof (co_fits C). unfold fits in *.
  rewrite wrap_small by (unfold fits; nia).
  by replace (n - o - (n - (o + size * k))) with (size * k) by lia; rewrite !Z.add_assoc.
Qed.

(** The last bytes: one register, or two that may overlap. *)
Lemma ends_tail w f o c r :
  copies 0 w w f -> 0 <= o <= c -> o <= n -> n - o <= 2 * w -> 0 <= w <= n ->
  ends c (if n - o >? w then
            f (dst + o) (src + o) ;;
            f (dst + o - w + (n - o)) (src + o - w + (n - o)) ;;
            mret r
          else
            (if n - o >? 0 then f (dst + o - w + (n - o)) (src + o - w + (n - o)) else mret tt) ;;
            mret r) r.
Proof.
  intros Hf Ho Hn Hw Hwn. rewrite !Z.gtb_ltb.
  destruct (Z.ltb_spec w (n - o)).
  - apply (ends_seq _ (o + w)); [by apply (copies_use 0 w w f c _ o); [|lia..]|].
    apply (ends_seq _ n); [by apply (copies_use 0 w w f _ _ (n - w)); [|lia..]|].
    by apply ends_ret.
  - apply (ends_seq _ n); [|by apply ends_ret].
    destruct (Z.ltb_spec 0 (n - o)).
    + by apply (copies_use 0 w w f _ _ (n - w)); [|lia..].
    + apply (step_weaken _ c); [apply step_ret|lia].
Qed.

(** Two registers that cover everything. *)
Lemma ends_two w f c o r :
  copies 0 w w f -> 0 <= o <= c -> n - w <= c -> 0 <= w <= n ->
  ends c (f (dst - w + n) (src - w + n) ;; mret r) r.
Proof.
  intros Hf Ho Hn Hw.
  apply (ends_seq _ n); [by apply (copies_use 0 w w f _ _ (n - w)); [|lia..]|by apply ends_ret].
Qed.

(** ** Up to 15 bytes *)
Lemma bit_run (b : bool) w o c m :
  0 <= o <= c -> o + b2z b * Z.of_nat w <= n -> copied c m ->
  exists m', (if b then mov w (dst + o) (src + o) ;; mret (dst + o + Z.of_nat w, src + o + Z.of_nat w)
              else mret (dst + o, src + o)) m
    = Some ((dst + (o + b2z b * Z.of_nat w), src + (o + b2z b * Z.of_nat w)), m')
    /\ copied (Z.max c (o + b2z b * Z.of_nat w)) m'.
Proof.
  intros Ho Hn H. destruct b; simpl b2z in *.
  - destruct (copies_mov w c o ltac:(lia) ltac:(lia) m H) as (m' & E & H'). exists m'.
    rewrite (mbind_run _ _ _ _ _ E). unfold mret, M_ret. rewrite <- !Z.add_assoc, Z.mul_1_l. done.
  - exists m. rewrite Z.mul_0_l, Z.add_0_r, Z.max_l by lia. done.
Qed.

Lemma four_bits : 0 <= n < 16 ->
  n = b2z (truthy (Z.land n 8)) * 8 + b2z (truthy (Z.land n 4)) * 4
      + b2z (truthy (Z.land n 2)) * 2 + b2z (truthy (Z.land n 1)) * 1.
Proof.
  intros Hn. clear C.
  assert (In n (map Z.of_nat (seq 0 16))) as Hin.
  { apply in_map_iff. exists (Z.to_nat n). split; [lia|apply in_seq; lia]. }
  simpl in Hin. repeat (destruct Hin as [<-|Hin]; [reflexivity|]). done.
Qed.

Lemma mov15_ends : n < 16 -> ends 0 (rte_mov15_or_less dst src n) dst.
Proof.
  intros Hn m H. pose proof (co_fits C) as Hf. unfold fits in Hf.
  pose proof (four_bits ltac:(lia)) as E4. unfold rte_mov15_or_less.
  set (b8 := truthy (Z.land n 8)) in *. set (b4 := truthy (Z.land n 4)) in *.
  set (b2 := truthy (Z.land n 2)) in *. set (b1 := truthy (Z.land n 1)) in *.
  assert (forall b, 0 <= b2z b <= 1) as B by (intros []; simpl; lia).
  pose proof (B b8) as I8. pose proof (B b4) as I4. pose proof (B b2) as I2. pose proof (B b1) as I1.
  destruct (bit_run b8 8 0 0 m ltac:(lia) ltac:(lia) H) as (m1 & E1 & H1).
  rewrite !Z.add_0_r in E1. rewrite (mbind_run _ _ _ _ _ E1).
  set (o1 := 0 + b2z b8 * Z.of_nat 8) in *. assert (o1 = b2z b8 * 8) as O1 by (unfold o1; lia).
  destruct (bit_run b4 4 o1 (Z.max 0 o1) m1 ltac:(lia) ltac:(lia) H1) as (m2 & E2 & H2).
  rewrite (mbind_run _ _ _ _ _ E2).
  set (o2 := o1 + b2z b4 * Z.of_nat 4) in *.
  assert (o2 = o1 + b2z b4 * 4) as O2 by (unfold o2; lia).
  destruct (bit_run b2 2 o2 (Z.max (Z.max 0 o1) o2) m2 ltac:(lia) ltac:(lia) H2) as (m3 & E3 & H3).
  rewrite (mbind_run _ _ _ _ _ E3).
  set (o := o2 + b2z b2 * Z.of_nat 2) in *. assert (o = o2 + b2z b2 * 2) as O3 by (unfold o; lia).
  assert (step o (if b1 then mov 1 (dst + o) (src + o) else mret tt) n) as S1.
  { destruct b1; simpl b2z in E4.
    - apply (copies_use 0 1 1 (mov 1) _ _ o); [apply (copies_mov 1)|lia..].
    - apply (step_weaken _ o); [apply step_ret|lia]. }
  destruct (S1 m3) as (m4 & E5 & H4); [apply (copied_weaken _ _ _ H3); lia|].
  exists m4. split; [|done]. by rewrite (mbind_run _ _ _ _ _ E5).
Qed.

Lemma pos_0 : (dst, src, n) = pos 0.
Proof. unfold pos. by rewrite !Z.add_0_r, Z.sub_0_r. Qed.

(** A mover at [o] with [c'] bytes copied afterwards. *)
Lemma ends_mov w f o c c' d s q r :
  copies 0 w w f -> d = dst + o -> s = src + o -> 0 <= o <= c -> o + w <= n ->
  c' <= Z.max c (o + w) -> ends c' q r -> ends c (f d s ;; q) r.
Proof.
  intros Hf Hd Hs Ho Hn Hc Hq. apply (ends_seq _ c'); [|done].
  by apply (copies_use 0 w w f c c' o).
Qed.

(** The first bytes of a long copy, up to the alignment of the destination. *)
Lemma ends_align w f k c q r :
  copies 0 w w f -> 0 <= k <= w -> w <= n -> 0 <= c ->
  ends (Z.max c w) (q (pos k)) r -> ends c ((f dst src ;; mret (dst + k, src + k, u64 (n - k))) ≫= q) r.
Proof.
  intros Hf Hk Hn Hc Hq m H. pose proof (co_fits C) as Hfits. unfold fits in Hfits.
  destruct (copies_use 0 w w f c (Z.max c w) 0 dst src Hf ltac:(lia) ltac:(lia) ltac:(lia) ltac:(lia)
    ltac:(lia) m H) as (m1 & E1 & H1).
  destruct (Hq m1 H1) as (m2 & E2 & H2). exists m2. split; [|done].
  unfold mbind, M_bind in *. rewrite E1. unfold mret, M_ret. cbn beta iota.
  rewrite wrap_small by (unfold fits; lia). exact E2.
Qed.

Ltac chunk H :=
  apply (ends_chunk 0); [lia..|apply H|];
  let o := fresh "o" in let E := fresh "E" in intros o E;
  match type of E with context [Z.leb ?a ?b] => destruct (Z.leb_spec a b) end.

(** *** AVX512 *)

Lemma avx512_16 : copies 0 16 16 Avx512.rte_mov16.
Proof. apply (copies_mov 16). Qed.
Lemma avx512_32 : copies 0 32 32 Avx512.rte_mov32.
Proof. apply (copies_mov 32). Qed.
Lemma avx512_64 : copies 0 64 64 Avx512.rte_mov64.
Proof. apply (copies_mov 64). Qed.
Lemma avx512_128 : copies 0 128 128 Avx512.rte_mov128.
Proof. apply (copies_moves Avx512.rte_mov64 64 2); [lia|apply avx512_64]. Qed.
Lemma avx512_256 : copies 0 256 256 Avx512.rte_mov256.
Proof. apply (copies_moves Avx512.rte_mov64 64 4); [lia|apply avx512_64]. Qed.

Lemma back63_ends o c r :
  0 <= o <= c -> o <= n -> n - o <= 128 -> 64 <= n -> ends c (Avx512.copy_block_128_back63 r (pos o)) r.
Proof. intros Ho Hn Hl H. apply (ends_tail 64); [apply avx512_64|lia..]. Qed.

(** A loop over blocks in a function of its own. *)
Lemma ends_blocks lim f o c q r :
  0 <= o <= c -> o <= n -> 0 < lim -> copies 0 lim lim f ->
  (forall o', stops lim lim o o' -> ends (Z.max c o') q r) ->
  ends c ((copy_chunks lim lim f (pos o) ;; mret tt) ;; q) r.
Proof.
  intros Ho Hn Hl Hf Hq m H.
  destruct (chunks_run 0 lim lim f c o m ltac:(lia) ltac:(lia) Hn ltac:(lia) Hf H)
    as (m1 & k & E1 & Hk & Hkn & Hlt & Hlast & H1).
  destruct (Hq (o + lim * k) ltac:(by exists k) m1 H1) as (m2 & E2 & H2). exists m2. split; [|done].
  unfold mbind, M_bind in *. rewrite E1. exact E2.
Qed.

Lemma avx512_long o c r :
  0 <= o <= c -> o <= n -> 64 <= n ->
  ends c (let '(dst, src, n) := pos o in
          Avx512.rte_mov512blocks dst src n ;;
          let '(dst, src, n) := skip_blocks 511 (dst, src, n) in
          p ← (if n >=? 128 then
                 Avx512.rte_mov128blocks dst src n ;; mret (skip_blocks 127 (dst, src, n))
               else mret (dst, src, n)) ;
          Avx512.copy_block_128_back63 r p) r.
Proof.
  intros Ho Hn H64. unfold pos at 1. change (dst + o, src + o, n - o) with (pos o).
  apply ends_blocks; [lia..|apply (copies_regs 64 8)|]. intros o1 S1.
  pose proof (stops_le 512 512 o o1 ltac:(lia) S1).
  pose proof S1 as (_ & _ & _ & Hn1 & Hl1 & _).
  rewrite (skip_blocks_pos 511 512 o o1 land_511) by (lia || done).
  unfold pos at 1. rewrite Z.geb_leb. change (dst + o1, src + o1, n - o1) with (pos o1).
  destruct (Z.leb_spec 128 (n - o1)).
  - intros m Hm.
    assert (G : ends (Z.max c o1) (Avx512.rte_mov128blocks (dst + o1) (src + o1) (n - o1) ;;
      Avx512.copy_block_128_back63 r (skip_blocks 127 (pos o1))) r).
    { apply ends_blocks; [lia..|apply (copies_regs 64 2)|]. intros o2 S2.
      pose proof (stops_le 128 128 o1 o2 ltac:(lia) S2).
      pose proof S2 as (_ & _ & _ & Hn2 & Hl2 & _).
      rewrite (skip_blocks_pos 127 128 o1 o2 land_127) by (lia || done).
      apply back63_ends; lia. }
    destruct (G m Hm) as (m' & E & H'). exists m'. split; [|done].
    unfold mbind, M_bind in *. cbn beta iota in *.
    destruct (Avx512.rte_mov128blocks (dst + o1) (src + o1) (n - o1) m) as [[[] ms]|]; exact E.
  - change (ends (Z.max c o1) (Avx512.copy_block_128_back63 r (pos o1)) r). apply back63_ends; lia.
Qed.

Lemma avx512_ends : ends 0 (Avx512.rte_memcpy_generic dst src n) dst.
Proof.
  unfold Avx512.rte_memcpy_generic.
  destruct (Z.ltb_spec n 16); [by apply mov15_ends|].
  destruct (Z.leb_spec n 32).
  { apply (ends_mov 16 _ 0 0 16); [apply avx512_16|lia..|].
    by apply (ends_two 16 _ 16 0); [apply avx512_16|lia..]. }
  destruct (Z.leb_spec n 64).
  { apply (ends_mov 32 _ 0 0 32); [apply avx512_32|lia..|].
    by apply (ends_two 32 _ 32 0); [apply avx512_32|lia..]. }
  destruct (Z.leb_spec n 512).
  { rewrite pos_0. chunk avx512_256; chunk avx512_128; apply back63_ends; lia. }
  rewrite land_63. pose proof (Z.mod_pos_bound dst 64 ltac:(lia)). rewrite Z.gtb_ltb.
  destruct (Z.ltb_spec 0 (dst mod 64)).
  - apply (ends_align 64); [apply avx512_64|lia..|]. apply avx512_long; lia.
  - rewrite pos_0. apply avx512_long; lia.
Qed.

(** *** AVX2 *)

Lemma avx2_16 : copies 0 16 16 Avx2.rte_mov16.
Proof. apply (copies_mov 16). Qed.
Lemma avx2_32 : copies 0 32 32 Avx2.rte_mov32.
Proof. apply (copies_mov 32). Qed.
Lemma avx2_64 : copies 0 64 64 Avx2.rte_mov64.
Proof. apply (copies_moves Avx2.rte_mov32 32 2); [lia|apply avx2_32]. Qed.
Lemma avx2_128 : copies 0 128 128 Avx2.rte_mov128.
Proof. apply (copies_moves Avx2.rte_mov32 32 4); [lia|apply avx2_32]. Qed.

Lemma back31_ends o c r :
  0 <= o <= c -> o <= n -> n - o <= 128 -> 32 <= n ->
  ends c (Avx2.copy_block_128_back31 r (pos o)) r.
Proof.
  intros Ho Hn Hl H. unfold Avx2.copy_block_128_back31.
  chunk avx2_64; apply (ends_tail 32 Avx2.rte_mov32); (lia || apply avx2_32).
Qed.

Lemma avx2_long o c r :
  0 <= o <= c -> o <= n -> 32 <= n ->
  ends c (let '(dst, src, n) := pos o in
          Avx2.rte_mov128blocks dst src n ;;
          Avx2.copy_block_128_back31 r (skip_blocks 127 (dst, src, n))) r.
Proof.
  intros Ho Hn H32. unfold pos. change (dst + o, src + o, n - o) with (pos o).
  apply ends_blocks; [lia..|apply (copies_regs 32 4)|]. intros o1 S1.
  pose proof (stops_le 128 128 o o1 ltac:(lia) S1). pose proof S1 as (_ & _ & _ & Hn1 & Hl1 & _).
  rewrite (skip_blocks_pos 127 128 o o1 land_127) by (lia || done). apply back31_ends; lia.
Qed.

Lemma avx2_ends : ends 0 (Avx2.rte_memcpy_generic dst src n) dst.
Proof.
  unfold Avx2.rte_memcpy_generic.
  destruct (Z.ltb_spec n 16); [by apply mov15_ends|].
  destruct (Z.leb_spec n 32).
  { apply (ends_mov 16 _ 0 0 16); [apply avx2_16|lia..|].
    by apply (ends_two 16 _ 16 0); [apply avx2_16|lia..]. }
  destruct (Z.leb_spec n 48).
  { apply (ends_mov 16 _ 0 0 16); [apply avx2_16|lia..|].
    apply (ends_mov 16 _ 16 16 32); [apply avx2_16|lia..|].
    by apply (ends_two 16 _ 32 0); [apply avx2_16|lia..]. }
  destruct (Z.leb_spec n 64).
  { apply (ends_mov 32 _ 0 0 32); [apply avx2_32|lia..|].
    by apply (ends_two 32 _ 32 0); [apply avx2_32|lia..]. }
  destruct (Z.leb_spec n 256).
  { rewrite pos_0. chunk avx2_128; apply back31_ends; lia. }
  rewrite land_31. pose proof (Z.mod_pos_bound dst 32 ltac:(lia)). rewrite Z.gtb_ltb.
  destruct (Z.ltb_spec 0 (dst mod 32)).
  - apply (ends_align 32); [apply avx2_32|lia..|]. apply avx2_long; lia.
  - rewrite pos_0. apply avx2_long; lia.
Qed.

(** *** SSE *)

Lemma sse_16 : copies 0 16 16 Sse.rte_mov16.
Proof. apply (copies_mov 16). Qed.
Lemma sse_32 : copies 0 32 32 Sse.rte_mov32.
Proof. apply (copies_moves Sse.rte_mov16 16 2); [lia|apply sse_16]. Qed.
Lemma sse_64 : copies 0 64 64 Sse.rte_mov64.
Proof. apply (copies_moves Sse.rte_mov16 16 4); [lia|apply sse_16]. Qed.
Lemma sse_128 : copies 0 128 128 Sse.rte_mov128.
Proof. apply (copies_moves Sse.rte_mov16 16 8); [lia|apply sse_16]. Qed.
Lemma sse_two_128 : copies 0 256 256 (moves Sse.rte_mov128 128 2).
Proof. apply (copies_moves Sse.rte_mov128 128 2); [lia|apply sse_128]. Qed.
Lemma sse_256 : copies 0 256 256 Sse.rte_mov256.
Proof. apply (copies_moves Sse.rte_mov16 16 16); [lia|apply sse_16]. Qed.

Lemma back15_64_ends o c r :
  0 <= o <= c -> o <= n -> n - o <= 64 -> 16 <= n -> ends c (Sse.copy_block_64_back15 r (pos o)) r.
Proof.
  intros Ho Hn Hl H. unfold Sse.copy_block_64_back15.
  chunk sse_32; apply (ends_tail 16 Sse.rte_mov16); (lia || apply sse_16).
Qed.

Lemma back15_128_ends o c r :
  0 <= o <= c -> o <= n -> n - o <= 128 -> 16 <= n -> ends c (Sse.copy_block_128_back15 r (pos o)) r.
Proof.
  intros Ho Hn Hl H. unfold Sse.copy_block_128_back15. chunk sse_64; apply back15_64_ends; lia.
Qed.

Lemma back15_255_ends o c r :
  0 <= o <= c -> o <= n -> n - o <= 256 -> 16 <= n -> ends c (Sse.copy_block_255_back15 r (pos o)) r.
Proof.
  intros Ho Hn Hl H. unfold Sse.copy_block_255_back15. chunk sse_128; apply back15_128_ends; lia.
Qed.

Lemma bind_assoc_run {A B D} (p : M mem A) (f : A -> M mem B) (g : B -> M mem D) m a m' :
  p m = Some (a, m') -> ((p ≫= f) ≫= g) m = (f a ≫= g) m'.
Proof. intros E. unfold mbind, M_bind. by rewrite E. Qed.

(** The recomputation of the count after a loop changes nothing. *)
Lemma skip_aligned_pos msk size off o o' :
  (forall x, Z.land x msk = x mod size) -> 0 < size -> 1 <= off <= 15 -> 0 <= o ->
  stops (size + 16 - off) size o o' -> 16 - off <= n - o -> Sse.skip_aligned msk off (pos o') = pos o'.
Proof.
  intros Hm Hs Hoff Ho (k & -> & Hk & Hn & Hlt & Hl) Hlow. unfold Sse.skip_aligned, pos.
  pose proof (co_fits C) as Hf. unfold fits in Hf.
  assert (0 <= size * k) by nia.
  assert (16 - off <= n - (o + size * k)) by (destruct Hl as [->|Hl]; lia).
  rewrite (wrap_small 64 (n - (o + size * k) - 16 + off)) by (unfold fits; lia).
  rewrite Hm, Z.mod_small by lia.
  replace (n - (o + size * k) - 16 + off + 16 - off) with (n - (o + size * k)) by lia.
  rewrite (wrap_small 64 (n - (o + size * k))) by (unfold fits; lia).
  rewrite Z.sub_diag. change (u64 0) with 0. by rewrite !Z.add_0_r.
Qed.

Lemma land_31' x : Z.land x 31 = x mod 32.
Proof. apply land_31. Qed.

Lemma unaligned_ends off o c r :
  1 <= off <= 15 -> off <= o \/ before off -> 0 <= o <= c -> o <= n -> 16 - off <= n - o -> 16 <= n ->
  ends c (p ← Sse.MOVEUNALIGNED_LEFT47 off (pos o) ; Sse.copy_block_64_back15 r p) r.
Proof.
  intros Hoff Hb Ho Hn Hl H16. unfold Sse.MOVEUNALIGNED_LEFT47.
  rewrite (proj2 (Z.leb_le 1 off)), (proj2 (Z.leb_le off 15)) by lia. cbn [andb].
  unfold Sse.MOVEUNALIGNED_LEFT47_IMM. intros m H.
  destruct (chunks_run o (128 + 16 - off) 128 (Sse.mov_aligned 8 off) c o m) as
    (m1 & k & E1 & Hk & Hkn & Hlt & Hlast & H1); [lia..| |done|].
  { apply (copies_aligned 8 off o Hoff); [lia|done]. }
  rewrite (bind_assoc_run _ _ _ _ _ _ E1).
  set (o1 := o + 128 * k) in *.
  rewrite (skip_aligned_pos 127 128 off o o1 land_127)
    by (lia || (exists k; split_and!; [done|lia..|done])).
  assert (16 - off <= n - o1) by (destruct Hlast as [->|]; lia).
  unfold pos at 1. cbn [snd]. rewrite Z.geb_leb.
  destruct (Z.leb_spec (32 + 16 - off) (n - o1)).
  - destruct (chunks_run o1 (32 + 16 - off) 32 (Sse.mov_aligned 2 off) (Z.max c o1) o1 m1) as
      (m2 & k2 & E2 & Hk2 & Hkn2 & Hlt2 & Hlast2 & Hc2); [lia..| |done|].
    { apply (copies_aligned 2 off o1 Hoff); [lia|destruct Hb; [left; lia|by right]]. }
    set (o2 := o1 + 32 * k2) in *.
    rewrite (bind_assoc_run _ _ _ _ _ _ E2).
    rewrite (skip_aligned_pos 31 32 off o1 o2 land_31')
      by (lia || (exists k2; split_and!; [done|lia..|done])).
    apply (back15_64_ends o2 (Z.max (Z.max c o1) o2) r); [lia..|exact Hc2].
  - apply (back15_64_ends o1 (Z.max c o1) r); [lia..|exact H1].
Qed.

Lemma sse_long o c r :
  0 <= o <= c -> o <= n -> 32 <= n - o ->
  (o < 15 -> before ((src + o) mod 16)) ->
  ends c (let '(dst, src, n) := pos o in
          let srcofs := Z.land src 0x0F in
          if srcofs =? 0 then
            p ← copy_chunks 256 256 Sse.rte_mov256 (dst, src, n) ;
            Sse.copy_block_255_back15 r p
          else
            p ← Sse.MOVEUNALIGNED_LEFT47 srcofs (dst, src, n) ;
            Sse.copy_block_64_back15 r p) r.
Proof.
  intros Ho Hn Hl Hb. unfold pos at 1. rewrite land_15. change (dst + o, src + o, n - o) with (pos o).
  cbn zeta. pose proof (Z.mod_pos_bound (src + o) 16 ltac:(lia)).
  destruct (Z.eqb_spec ((src + o) mod 16) 0).
  - apply (ends_chunks 0); [lia..|apply sse_256|]. intros o1 S1.
    pose proof (stops_le 256 256 o o1 ltac:(lia) S1). destruct S1 as (_ & _ & _ & Hn1 & Hl1 & _).
    apply back15_255_ends; lia.
  - apply unaligned_ends; [lia| |lia..].
    destruct (decide (o < 15)); [right; auto|left; lia].
Qed.

Lemma sse_ends :
  (512 < n -> dst mod 16 = 0 -> before (src mod 16)) ->
  ends 0 (Sse.rte_memcpy_generic dst src n) dst.
Proof.
  intros Hb. unfold Sse.rte_memcpy_generic.
  destruct (Z.ltb_spec n 16); [by apply mov15_ends|].
  destruct (Z.leb_spec n 32).
  { apply (ends_mov 16 _ 0 0 16); [apply sse_16|lia..|].
    by apply (ends_two 16 _ 16 0); [apply sse_16|lia..]. }
  destruct (Z.leb_spec n 48).
  { apply (ends_mov 32 _ 0 0 32); [apply sse_32|lia..|].
    by apply (ends_two 16 _ 32 0); [apply sse_16|lia..]. }
  destruct (Z.leb_spec n 64).
  { apply (ends_mov 32 _ 0 0 32); [apply sse_32|lia..|].
    apply (ends_mov 16 _ 32 32 48); [apply sse_16|lia..|].
    by apply (ends_two 16 _ 48 0); [apply sse_16|lia..]. }
  destruct (Z.leb_spec n 128).
  { rewrite pos_0. apply back15_128_ends; lia. }
  destruct (Z.leb_spec n 512).
  { rewrite pos_0. chunk sse_two_128; apply back15_255_ends; lia. }
  rewrite land_15. pose proof (Z.mod_pos_bound dst 16 ltac:(lia)). rewrite Z.gtb_ltb.
  destruct (Z.ltb_spec 0 (dst mod 16)).
  - apply (ends_align 32); [apply sse_32|lia..|]. apply sse_long; lia.
  - rewrite pos_0. apply sse_long; [lia..|]. rewrite Z.add_0_r. intros _. apply Hb; lia.
Qed.

(** *** The shared functions *)

(** What an instruction set promises to the shared functions. *)
Class LawfulMoves (V : Moves) : Prop := {
  law_16 : copies 0 16 16 mov_16;
  law_32 : copies 0 32 32 mov_32;
  law_64 : copies 0 64 64 mov_64;
  law_generic : ends 0 (memcpy_generic dst src n) dst
}.

Lemma aligned_ends {V : Moves} {L : LawfulMoves V} : ends 0 (rte_memcpy_aligned dst src n) dst.
Proof.
  unfold rte_memcpy_aligned. destruct (Z.ltb_spec n 16); [by apply mov15_ends|].
  destruct (Z.leb_spec n 32).
  { apply (ends_mov 16 _ 0 0 16); [apply law_16|lia..|].
    by apply (ends_two 16 _ 16 0); [apply law_16|lia..]. }
  destruct (Z.leb_spec n 64).
  { apply (ends_mov 32 _ 0 0 32); [apply law_32|lia..|].
    by apply (ends_two 32 _ 32 0); [apply law_32|lia..]. }
  rewrite pos_0. apply (ends_chunks 0); [lia..|apply law_64|]. intros o1 S1.
  pose proof (stops_le 64 64 0 o1 ltac:(lia) S1). destruct S1 as (_ & _ & _ & Hn1 & Hl1 & _).
  unfold pos.
  apply (ends_mov 64 _ (n - 64) _ n); [apply law_64|lia..|]. by apply ends_ret.
Qed.

Lemma memcpy_ends {V : Moves} {L : LawfulMoves V} : ends 0 (rte_memcpy dst src n) dst.
Proof. unfold rte_memcpy. destruct (negb _); [apply aligned_ends|apply law_generic]. Qed.

#[local] Instance avx512_lawful : LawfulMoves avx512.
Proof. split; [apply avx512_16|apply avx512_32|apply avx512_64|apply avx512_ends]. Qed.

#[local] Instance avx2_lawful : LawfulMoves avx2.
Proof. split; [apply avx2_16|apply avx2_32|apply avx2_64|apply avx2_ends]. Qed.

Lemma sse_lawful : (512 < n -> dst mod 16 = 0 -> before (src mod 16)) -> LawfulMoves sse.
Proof. intros Hb. split; [apply sse_16|apply sse_32|apply sse_64|by apply sse_ends]. Qed.

Lemma ends_after (p : M mem Z) r : ends 0 p r -> exists m', p m0 = Some (r, m') /\ after n m'.
Proof.
  intros H. destruct (H m0 copied_start) as (m' & E & Hm). exists m'. split; [done|].
  by apply copied_end.
Qed.
End copying.

(** ** The reference: one byte after the other *)

Fixpoint memcpy (dst src : Z) (n : nat) (m : mem) : option mem :=
  match n with
  | O => Some m
  | Datatypes.S n =>
      b ← m !! src ; _ ← m !! dst ; memcpy (dst + 1) (src + 1) n (<[dst := b]> m)
  end.

Lemma memcpy_run dst src n m0 :
  copy_ok dst src n m0 ->
  exists m', memcpy dst src (Z.to_nat n) m0 = Some m' /\ after dst src m0 n m'.
Proof.
  intros C. pose proof (co_fits _ _ _ _ C) as Hf. unfold fits in Hf.
  assert (G : forall j i m, i + Z.of_nat j = n -> 0 <= i -> after dst src m0 i m ->
    exists m', memcpy (dst + i) (src + i) j m = Some m' /\ after dst src m0 n m').
  { induction j as [|j IH]; intros i m Hij Hi H.
    - exists m. split; [done|]. by replace n with i by lia.
    - assert (copied dst src n m0 i m) as Hc by (exists i; split; [lia|done]).
      destruct (co_src _ _ _ _ C i ltac:(lia)) as [b Hb].
      pose proof (copied_source _ _ _ _ C i m i Hc ltac:(lia)) as E. rewrite Hb in E.
      destruct (copied_mapped _ _ _ _ C i m (dst + i) Hc (co_dst _ _ _ _ C i ltac:(lia))) as [d Hd].
      cbn [memcpy]. rewrite E, Hd. cbn [mbind option_bind].
      replace (dst + i + 1) with (dst + (i + 1)) by lia.
      replace (src + i + 1) with (src + (i + 1)) by lia.
      apply (IH (i + 1)); [lia..|]. intros x. destruct (decide (x = dst + i)) as [->|N].
      + rewrite lookup_insert_eq, (proj2 (Z.leb_le dst (dst + i))), (proj2 (Z.ltb_lt (dst + i) _)) by lia.
        cbn [andb]. by replace (src + (dst + i - dst)) with (src + i) by lia.
      + rewrite lookup_insert_ne by done. rewrite H.
        destruct (Z.leb_spec dst x), (Z.ltb_spec x (dst + i)), (Z.ltb_spec x (dst + (i + 1)));
          cbn [andb]; (lia || done). }
  destruct (G (Z.to_nat n) 0 m0 ltac:(lia) ltac:(lia)) as (m' & E & H).
  - intros x. destruct (Z.leb_spec dst x), (Z.ltb_spec x (dst + 0)); cbn [andb]; (lia || done).
  - exists m'. by rewrite !Z.add_0_r in E.
Qed.

(** C32. The optimised copies are the copy byte by byte: for any two areas that
    are mapped and do not overlap, of any length and alignment, [rte_memcpy] as
    compiled for AVX512, for AVX2 and for SSE ends, returns the destination and
    leaves the memory that [memcpy] leaves (so nothing outside the destination
    changes).  For SSE with an aligned destination, more than 512 bytes and a
    source that is not aligned, the bytes between the last multiple of 16 and
    the source must be readable, too. *)
Theorem rte_memcpy_is_memcpy (V : Moves) (dst src n : Z) (m : mem) :
  V = avx512 \/ V = avx2 \/ V = sse /\ (512 < n -> dst mod 16 = 0 -> before src m (src mod 16)) ->
  copy_ok dst src n m ->
  exists m', memcpy dst src (Z.to_nat n) m = Some m' /\ rte_memcpy dst src n m = Some (dst, m').
Proof.
  intros HV C. destruct (memcpy_run dst src n m C) as (m' & E & H). exists m'. split; [done|].
  assert (L : LawfulMoves dst src n m V).
  { destruct HV as [->|[->|[-> Hb]]];
      [by apply avx512_lawful|by apply avx2_lawful|by apply sse_lawful]. }
  destruct (ends_after dst src n m C _ _ (memcpy_ends dst src n m C)) as (m2 & -> & H2).
  do 2 f_equal. apply map_eq. intros x. by rewrite H, H2.
Qed.

(** [k] bytes from [a] on. *)
Definition area (a : Z) (k : nat) (v : Z) : mem :=
  list_to_map (map (fun i => (a + Z.of_nat i, u8 (v + Z.of_nat i))) (seq 0 k)).

Lemma area_lookup a k v x :
  area a k v !! x = if (a <=? x) && (x <? a + Z.of_nat k) then Some (u8 (v + (x - a))) else None.
Proof.
  unfold area. destruct (Z.leb_spec a x), (Z.ltb_spec x (a + Z.of_nat k)); cbn [andb].
  - apply elem_of_list_to_map.
    + rewrite map_map. cbn. assert (Inj (=) (=) (fun i : nat => a + Z.of_nat i)) by (intros i j; lia).
      apply (NoDup_fmap_2 (fun i : nat => a + Z.of_nat i)), NoDup_seq.
    + apply list_elem_of_fmap. exists (Z.to_nat (x - a)). split; [f_equal; [lia|do 2 f_equal; lia]|].
      apply elem_of_seq. lia.
  - apply not_elem_of_list_to_map. rewrite map_map. cbn. intros (i & -> & Hi%elem_of_seq)%list_elem_of_fmap. lia.
  - apply not_elem_of_list_to_map. rewrite map_map. cbn. intros (i & -> & Hi%elem_of_seq)%list_elem_of_fmap. lia.
  - lia.
Qed.

(** Two areas of [k] bytes. *)
Definition two_areas (dst src : Z) (k : nat) : mem := area dst k 0 ∪ area src k 100.

Lemma two_areas_ok dst src k :
  Z.of_nat k < 2 ^ 64 -> dst + Z.of_nat k <= src -> copy_ok dst src (Z.of_nat k) (two_areas dst src k).
Proof.
  intros Hk Ha. split; [unfold fits; lia|..|by right]; intros i Hi; unfold two_areas;
    apply lookup_union_is_Some; [right|left]; rewrite area_lookup;
    rewrite (proj2 (Z.leb_le _ _)), (proj2 (Z.ltb_lt _ _)) by lia; cbn [andb]; eauto.
Qed.

Lemma rte_memcpy_is_memcpy_witness :
  exists m', memcpy 1001 2003 700 (two_areas 1001 2003 700) = Some m'
    /\ rte_memcpy (V := sse) 1001 2003 700 (two_areas 1001 2003 700) = Some (1001, m').
Proof.
  apply (rte_memcpy_is_memcpy sse 1001 2003 700).
  - right. right. split; [reflexivity|]. intros _ E. discriminate E.
  - apply (two_areas_ok 1001 2003 700); lia.
Defined.

Lemma is_Some_check {A} (o : option A) : match o with Some _ => true | None => false end = true -> is_Some o.
Proof. destruct o; [eauto|done]. Qed.

(** With an aligned destination the SSE variant does read before the source:
    the 600 bytes at 2049 are copied to 1024 only when the byte at 2048 is
    readable. *)
Theorem sse_reads_before_source :
  rte_memcpy (V := sse) 1024 2049 600 (two_areas 1024 2049 600) = None
  /\ is_Some (memcpy 1024 2049 600 (two_areas 1024 2049 600))
  /\ is_Some (rte_memcpy (V := sse) 1024 2049 600 (<[2048 := 0]> (two_areas 1024 2049 600))).
Proof. split_and!; [by vm_compute|by apply is_Some_check; vm_compute..]. Qed.
