(* ===== verification/RingCore.v ===== *)
(** * The ring structure ([include/rte_ring_core.h]) and its read accessors
    ([include/rte_ring.h]).

    The producer and the consumer halves of a ring are C unions of three
    layouts (default, HTS, RTS).  The union is modelled by its words: the
    default and HTS layouts keep [head] and [tail] in the first two, the RTS
    layout keeps the [tail] counter and position there and its own [head]
    after [htd_max], so that [r->cons.tail] designates the tail position in
    every layout, as the source relies on.  The [name], [memzone] and padding
    members are never read by the operations and are left out. *)
From stdpp Require Import prelude list numbers.
From S2P Require Import Prelude.
Open Scope Z_scope.

(** ** Data *)

(** Enqueue/dequeue behaviour. *)
Inductive rte_ring_queue_behavior :=
| RTE_RING_QUEUE_FIXED
| RTE_RING_QUEUE_VARIABLE.

#[global] Instance rte_ring_queue_behavior_eq_dec : EqDecision rte_ring_queue_behavior.
Proof. solve_decision. Defined.

(** The synchronisation types, with the values the C enum gives them: the
    field is an [unsigned int] in memory and can hold any other value. *)
Definition RTE_RING_SYNC_MT : Z := 0.
Definition RTE_RING_SYNC_ST : Z := 1.
Definition RTE_RING_SYNC_MT_RTS : Z := 2.
Definition RTE_RING_SYNC_MT_HTS : Z := 3.

(** One half of a ring: the union of [rte_ring_headtail],
    [rte_ring_hts_headtail] and [rte_ring_rts_headtail]. *)
Record rte_ring_headtail := mk_headtail {
  ht_w0 : Z;          (* head | ht.pos.head | tail.val.cnt *)
  ht_w1 : Z;          (* tail | ht.pos.tail | tail.val.pos *)
  sync_type : Z;
  htd_max : Z;        (* RTS only *)
  rts_head_w0 : Z;    (* RTS only: head.val.cnt *)
  rts_head_w1 : Z     (* RTS only: head.val.pos *)
}.

(** The 8-byte values of the HTS and RTS layouts, read and written at once. *)
Record __rte_ring_hts_pos := mk_hts_pos { hp_head : Z; hp_tail : Z }.
Record __rte_ring_rts_poscnt := mk_poscnt { pc_cnt : Z; pc_pos : Z }.

#[global] Instance hts_pos_eq_dec : EqDecision __rte_ring_hts_pos.
Proof. solve_decision. Defined.
#[global] Instance rts_poscnt_eq_dec : EqDecision __rte_ring_rts_poscnt.
Proof. solve_decision. Defined.

(** A ring; [slots] is the memory that follows the structure, [&r[1]], seen
    as an array of 32-bit words. *)
Record rte_ring := mk_ring {
  flags : Z;
  size : Z;
  mask : Z;
  capacity : Z;
  prod : rte_ring_headtail;
  cons : rte_ring_headtail;
  slots : list Z
}.

(** A pointer to one of the two halves: [&r->prod] or [&r->cons]. *)
Inductive ring_side := Prod | Cons.

#[global] Instance ring_side_eq_dec : EqDecision ring_side.
Proof. solve_decision. Defined.

(** ** Field access *)

Definition side (s : ring_side) (r : rte_ring) : rte_ring_headtail :=
  match s with Prod => prod r | Cons => cons r end.

Definition set_side (s : ring_side) (h : rte_ring_headtail) (r : rte_ring) : rte_ring :=
  match s with
  | Prod => mk_ring (flags r) (size r) (mask r) (capacity r) h (cons r) (slots r)
  | Cons => mk_ring (flags r) (size r) (mask r) (capacity r) (prod r) h (slots r)
  end.

Definition set_slots (l : list Z) (r : rte_ring) : rte_ring :=
  mk_ring (flags r) (size r) (mask r) (capacity r) (prod r) (cons r) l.

(** [ht->head] and [ht->tail] of the default layout. *)
Definition head (h : rte_ring_headtail) : Z := ht_w0 h.
Definition tail (h : rte_ring_headtail) : Z := ht_w1 h.

Definition set_head (v : Z) (h : rte_ring_headtail) : rte_ring_headtail :=
  mk_headtail v (ht_w1 h) (sync_type h) (htd_max h) (rts_head_w0 h) (rts_head_w1 h).
Definition set_tail (v : Z) (h : rte_ring_headtail) : rte_ring_headtail :=
  mk_headtail (ht_w0 h) v (sync_type h) (htd_max h) (rts_head_w0 h) (rts_head_w1 h).

(** [ht->ht.raw] of the HTS layout. *)
Definition hts_ht (h : rte_ring_headtail) : __rte_ring_hts_pos :=
  mk_hts_pos (ht_w0 h) (ht_w1 h).
Definition set_hts_ht (p : __rte_ring_hts_pos) (h : rte_ring_headtail) : rte_ring_headtail :=
  mk_headtail (hp_head p) (hp_tail p) (sync_type h) (htd_max h)
    (rts_head_w0 h) (rts_head_w1 h).

(** [ht->tail.raw] and [ht->head.raw] of the RTS layout. *)
Definition rts_tail (h : rte_ring_headtail) : __rte_ring_rts_poscnt :=
  mk_poscnt (ht_w0 h) (ht_w1 h).
Definition rts_head (h : rte_ring_headtail) : __rte_ring_rts_poscnt :=
  mk_poscnt (rts_head_w0 h) (rts_head_w1 h).
Definition set_rts_tail (p : __rte_ring_rts_poscnt) (h : rte_ring_headtail) : rte_ring_headtail :=
  mk_headtail (pc_cnt p) (pc_pos p) (sync_type h) (htd_max h)
    (rts_head_w0 h) (rts_head_w1 h).
Definition set_rts_head (p : __rte_ring_rts_poscnt) (h : rte_ring_headtail) : rte_ring_headtail :=
  mk_headtail (ht_w0 h) (ht_w1 h) (sync_type h) (htd_max h) (pc_cnt p) (pc_pos p).

(** ** Accessors of [rte_ring.h] *)

Definition rte_ring_count (r : rte_ring) : Z :=
  let prod_tail := tail (prod r) in
  let cons_tail := tail (cons r) in
  let count := Z.land (u32 (prod_tail - cons_tail)) (mask r) in
  if count >? capacity r then capacity r else count.

Definition rte_ring_free_count (r : rte_ring) : Z :=
  u32 (capacity r - rte_ring_count r).

Definition rte_ring_full (r : rte_ring) : bool := rte_ring_free_count r =? 0.

Definition rte_ring_empty (r : rte_ring) : bool :=
  let prod_tail := tail (prod r) in
  let cons_tail := tail (cons r) in
  cons_tail =? prod_tail.

Definition rte_ring_get_size (r : rte_ring) : Z := size r.

Definition rte_ring_get_capacity (r : rte_ring) : Z := capacity r.

Definition rte_ring_get_prod_sync_type (r : rte_ring) : Z := sync_type (prod r).

Definition rte_ring_is_prod_single (r : rte_ring) : bool :=
  rte_ring_get_prod_sync_type r =? RTE_RING_SYNC_ST.

Definition rte_ring_get_cons_sync_type (r : rte_ring) : Z := sync_type (cons r).

Definition rte_ring_is_cons_single (r : rte_ring) : bool :=
  rte_ring_get_cons_sync_type r =? RTE_RING_SYNC_ST.

(** ** Lemmas on field access *)

Lemma side_set_side s h r : side s (set_side s h r) = h.
Proof. by destruct s. Qed.

Lemma side_set_side_ne s s' h r : s <> s' -> side s (set_side s' h r) = side s r.
Proof. by destruct s, s'. Qed.

Lemma side_set_slots s l r : side s (set_slots l r) = side s r.
Proof. by destruct s. Qed.

Lemma slots_set_side s h r : slots (set_side s h r) = slots r.
Proof. by destruct s. Qed.

Lemma size_set_side s h r : size (set_side s h r) = size r.
Proof. by destruct s. Qed.

Lemma mask_set_side s h r : mask (set_side s h r) = mask r.
Proof. by destruct s. Qed.

Lemma capacity_set_side s h r : capacity (set_side s h r) = capacity r.
Proof. by destruct s. Qed.

Lemma sync_type_set_head v h : sync_type (set_head v h) = sync_type h.
Proof. done. Qed.

Create Rewrite HintDb ring.
#[export] Hint Rewrite side_set_side side_set_slots slots_set_side size_set_side
  mask_set_side capacity_set_side : ring.
#[export] Hint Rewrite side_set_side_ne using congruence : ring.
