(* ===== verification/RingCopy.v ===== *)
(** * Copying elements in and out of a ring ([include/rte_ring_elem_pvt.h]).

    Each [__rte_ring_(en|de)queue_elems*] is the source's unrolled copy; the
    reference functions [ring_put] and [ring_get] move one element at a time at
    the position modulo the ring size, and the theorems show that the
    unrolled copies compute exactly them for every element size. *)
From stdpp Require Import prelude list numbers.
From S2P Require Import Prelude RingCore.
Open Scope Z_scope.

(** ** Building blocks

    The ring and the object tables are arrays of 32-bit words; an element of
    [w] words is read or written at once. *)

(** [dst[di] = src[si]] on arrays of elements of [w] words. *)
Definition cpy_unit (w : Z) (dst : list Z) (di : Z) (src : list Z) (si : Z)
  : option (list Z) :=
  mem_cpy dst (di * w) src (si * w) w.

(** [dst[di + j] = src[si + j]] for the listed [j], in order. *)
Fixpoint cpy_offsets (w : Z) (dst : list Z) (di : Z) (src : list Z) (si : Z)
  (js : list Z) : option (list Z) :=
  match js with
  | [] => Some dst
  | j :: js' =>
      dst' ← cpy_unit w dst (u32 (di + j)) src (u32 (si + j)) ;
      cpy_offsets w dst' di src si js'
  end.

(** The state of a copy: destination, destination index, source index. *)
Definition copy_st : Type := list Z * Z * Z.

(** A copy loop: while [c] holds of the indices, copy the elements at the
    offsets [js] and advance both indices by [step]. *)
Definition copy_while (fuel : nat) (w step : Z) (js : list Z) (src : list Z)
  (c : Z -> Z -> bool) (st : copy_st) : option copy_st :=
  while fuel (fun '(_, di, si) => c di si)
    (fun '(dst, di, si) =>
       dst' ← cpy_offsets w dst di src si js ;
       Some (dst', u32 (di + step), u32 (si + step))) st.

(** [k] consecutive statements [dst[di++] = src[si++]]: the cases of a
    [switch] that fall through from case [k] to case 1. *)
Fixpoint copy_cases (w : Z) (src : list Z) (k : nat) (st : copy_st) : option copy_st :=
  match k with
  | O => Some st
  | Datatypes.S k' =>
      let '(dst, di, si) := st in
      dst' ← cpy_unit w dst di src si ;
      copy_cases w src k' (dst', u32 (di + 1), u32 (si + 1))
  end.

(** Enough iterations for the loops of a copy of [n] elements in a ring of
    [sz] elements. *)
Definition copy_fuel (n sz : Z) : nat := Datatypes.S (Z.to_nat n + Z.to_nat sz).

(** ** The functions of the source *)

Definition __rte_ring_enqueue_elems_32 (r : rte_ring) (sz idx : Z)
  (obj_table : list Z) (n : Z) : option rte_ring :=
  let fuel := copy_fuel n sz in
  if u32 (idx + n) <? sz then
    st ← copy_while fuel 1 8 [0;1;2;3;4;5;6;7] obj_table
           (fun idx i => i <? Z.land n (u32 (Z.lnot 7))) (slots r, idx, 0) ;
    '(ring, _, _) ← copy_cases 1 obj_table (Z.to_nat (Z.land n 7)) st ;
    Some (set_slots ring r)
  else
    '(ring, _, i) ← copy_while fuel 1 1 [0] obj_table
           (fun idx i => idx <? sz) (slots r, idx, 0) ;
    (* Start at the beginning *)
    '(ring, _, _) ← copy_while fuel 1 1 [0] obj_table
           (fun idx i => i <? n) (ring, 0, i) ;
    Some (set_slots ring r).

Definition __rte_ring_enqueue_elems_64 (r : rte_ring) (prod_head : Z)
  (obj_table : list Z) (n : Z) : option rte_ring :=
  let sz := size r in
  let idx := Z.land prod_head (mask r) in
  let fuel := copy_fuel n sz in
  if u32 (idx + n) <? sz then
    st ← copy_while fuel 2 4 [0;1;2;3] obj_table
           (fun idx i => i <? Z.land n (u32 (Z.lnot 3))) (slots r, idx, 0) ;
    '(ring, _, _) ← copy_cases 2 obj_table (Z.to_nat (Z.land n 3)) st ;
    Some (set_slots ring r)
  else
    '(ring, _, i) ← copy_while fuel 2 1 [0] obj_table
           (fun idx i => idx <? sz) (slots r, idx, 0) ;
    '(ring, _, _) ← copy_while fuel 2 1 [0] obj_table
           (fun idx i => i <? n) (ring, 0, i) ;
    Some (set_slots ring r).

(** The 16-byte version moves pairs of elements with one [memcpy] of 32 bytes
    (8 words). *)
Definition copy_pairs (fuel : nat) (src : list Z) (c : Z -> Z -> bool) (st : copy_st)
  : option copy_st :=
  while fuel (fun '(_, di, si) => c di si)
    (fun '(dst, di, si) =>
       dst' ← mem_cpy dst (di * 4) src (si * 4) 8 ;
       Some (dst', u32 (di + 2), u32 (si + 2))) st.

Definition __rte_ring_enqueue_elems_128 (r : rte_ring) (prod_head : Z)
  (obj_table : list Z) (n : Z) : option rte_ring :=
  let sz := size r in
  let idx := Z.land prod_head (mask r) in
  let fuel := copy_fuel n sz in
  if u32 (idx + n) <? sz then
    '(ring, idx, i) ← copy_pairs fuel obj_table
           (fun idx i => i <? Z.land n (u32 (Z.lnot 1))) (slots r, idx, 0) ;
    ring ← (if Z.land n 1 =? 1 then mem_cpy ring (idx * 4) obj_table (i * 4) 4
            else Some ring) ;
    Some (set_slots ring r)
  else
    '(ring, _, i) ← copy_while fuel 4 1 [0] obj_table
           (fun idx i => idx <? sz) (slots r, idx, 0) ;
    '(ring, _, _) ← copy_while fuel 4 1 [0] obj_table
           (fun idx i => i <? n) (ring, 0, i) ;
    Some (set_slots ring r).

Definition __rte_ring_enqueue_elems (r : rte_ring) (prod_head : Z)
  (obj_table : list Z) (esize num : Z) : option rte_ring :=
  if esize =? 8 then __rte_ring_enqueue_elems_64 r prod_head obj_table num
  else if esize =? 16 then __rte_ring_enqueue_elems_128 r prod_head obj_table num
  else
    (* Normalize to uint32_t *)
    let scale := esize / 4 in
    let nr_num := u32 (num * scale) in
    let idx := Z.land prod_head (mask r) in
    let nr_idx := u32 (idx * scale) in
    let nr_size := u32 (size r * scale) in
    __rte_ring_enqueue_elems_32 r nr_size nr_idx obj_table nr_num.

(** In the dequeue direction the object table is the destination: the first
    index of the copy state is [i], the second [idx]. *)
Definition __rte_ring_dequeue_elems_32 (r : rte_ring) (sz idx : Z)
  (obj_table : list Z) (n : Z) : option (list Z) :=
  let ring := slots r in
  let fuel := copy_fuel n sz in
  if u32 (idx + n) <? sz then
    st ← copy_while fuel 1 8 [0;1;2;3;4;5;6;7] ring
           (fun i idx => i <? Z.land n (u32 (Z.lnot 7))) (obj_table, 0, idx) ;
    '(obj, _, _) ← copy_cases 1 ring (Z.to_nat (Z.land n 7)) st ;
    Some obj
  else
    '(obj, i, _) ← copy_while fuel 1 1 [0] ring
           (fun i idx => idx <? sz) (obj_table, 0, idx) ;
    '(obj, _, _) ← copy_while fuel 1 1 [0] ring
           (fun i idx => i <? n) (obj, i, 0) ;
    Some obj.

Definition __rte_ring_dequeue_elems_64 (r : rte_ring) (cons_head : Z)
  (obj_table : list Z) (n : Z) : option (list Z) :=
  let sz := size r in
  let idx := Z.land cons_head (mask r) in
  let ring := slots r in
  let fuel := copy_fuel n sz in
  if u32 (idx + n) <? sz then
    st ← copy_while fuel 2 4 [0;1;2;3] ring
           (fun i idx => i <? Z.land n (u32 (Z.lnot 3))) (obj_table, 0, idx) ;
    '(obj, _, _) ← copy_cases 2 ring (Z.to_nat (Z.land n 3)) st ;
    Some obj
  else
    '(obj, i, _) ← copy_while fuel 2 1 [0] ring
           (fun i idx => idx <? sz) (obj_table, 0, idx) ;
    '(obj, _, _) ← copy_while fuel 2 1 [0] ring
           (fun i idx => i <? n) (obj, i, 0) ;
    Some obj.

Definition __rte_ring_dequeue_elems_128 (r : rte_ring) (cons_head : Z)
  (obj_table : list Z) (n : Z) : option (list Z) :=
  let sz := size r in
  let idx := Z.land cons_head (mask r) in
  let ring := slots r in
  let fuel := copy_fuel n sz in
  if u32 (idx + n) <? sz then
    '(obj, i, idx) ← copy_pairs fuel ring
           (fun i idx => i <? Z.land n (u32 (Z.lnot 1))) (obj_table, 0, idx) ;
    if Z.land n 1 =? 1 then mem_cpy obj (i * 4) ring (idx * 4) 4 else Some obj
  else
    '(obj, i, _) ← copy_while fuel 4 1 [0] ring
           (fun i idx => idx <? sz) (obj_table, 0, idx) ;
    '(obj, _, _) ← copy_while fuel 4 1 [0] ring
           (fun i idx => i <? n) (obj, i, 0) ;
    Some obj.

Definition __rte_ring_dequeue_elems (r : rte_ring) (cons_head : Z)
  (obj_table : list Z) (esize num : Z) : option (list Z) :=
  if esize =? 8 then __rte_ring_dequeue_elems_64 r cons_head obj_table num
  else if esize =? 16 then __rte_ring_dequeue_elems_128 r cons_head obj_table num
  else
    (* Normalize to uint32_t *)
    let scale := esize / 4 in
    let nr_num := u32 (num * scale) in
    let idx := Z.land cons_head (mask r) in
    let nr_idx := u32 (idx * scale) in
    let nr_size := u32 (size r * scale) in
    __rte_ring_dequeue_elems_32 r nr_size nr_idx obj_table nr_num.

(** ** Reference: one element at a time, at the position modulo the size *)

(** Write [n] elements of [w] words, taken from [objs], at the ring positions
    [p], [p + 1], ... modulo [sz]. *)
Fixpoint ring_put (w sz : nat) (mem : list Z) (p n : nat) (objs : list Z) : list Z :=
  match n with
  | O => mem
  | Datatypes.S n' =>
      ring_put w sz (splice mem ((p mod sz) * w) (take w objs))
        (Datatypes.S p) n' (drop w objs)
  end.

(** Read [n] elements of [w] words from the ring positions [p], [p + 1], ... *)
Fixpoint ring_get (w sz : nat) (mem : list Z) (p n : nat) : list Z :=
  match n with
  | O => []
  | Datatypes.S n' => take w (drop ((p mod sz) * w) mem) ++ ring_get w sz mem (Datatypes.S p) n'
  end.

(** ** Lemmas: the loops compute block copies *)

(** [k] elements of [src] from element [s] on, written at element [p]. *)
Definition blit (w : nat) (dst : list Z) (p : nat) (src : list Z) (s k : nat) : list Z :=
  splice dst (p * w) (take (k * w) (drop (s * w) src)).

Section blit.
Context (w : nat) (dst src : list Z) (p s : nat).

Lemma blit_0 : blit w dst p src s 0 = dst.
Proof. unfold blit. simpl. apply splice_nil. Qed.

Lemma length_blit k :
  ((p + k) * w <= length dst)%nat -> ((s + k) * w <= length src)%nat ->
  length (blit w dst p src s k) = length dst.
Proof.
  intros. unfold blit. apply length_splice.
  rewrite length_take, length_drop. lia.
Qed.

Lemma blit_add k m :
  ((p + k + m) * w <= length dst)%nat -> ((s + k + m) * w <= length src)%nat ->
  splice (blit w dst p src s k) ((p + k) * w) (take (m * w) (drop ((s + k) * w) src))
  = blit w dst p src s (k + m).
Proof.
  intros Hd Hs. unfold blit.
  assert (length (take (k * w) (drop (s * w) src)) = (k * w)%nat) as Hl.
  { rewrite length_take, length_drop. lia. }
  assert (length (take (m * w) (drop ((s + k) * w) src)) = (m * w)%nat) as Hm.
  { rewrite length_take, length_drop. lia. }
  replace ((p + k) * w)%nat
    with (p * w + length (take (k * w) (drop (s * w) src)))%nat by (rewrite Hl; lia).
  rewrite splice_app by (rewrite Hl, Hm; lia).
  f_equal. replace ((k + m) * w)%nat with (k * w + m * w)%nat by lia.
  rewrite take_add, drop_drop. do 3 f_equal. lia.
Qed.

Lemma cpy_unit_blit k :
  ((p + k + 1) * w <= length dst)%nat -> ((s + k + 1) * w <= length src)%nat ->
  cpy_unit (Z.of_nat w) (blit w dst p src s k) (Z.of_nat (p + k)) src (Z.of_nat (s + k))
  = Some (blit w dst p src s (k + 1)).
Proof.
  intros Hd Hs. unfold cpy_unit. rewrite <- !Nat2Z.inj_mul.
  assert (length (blit w dst p src s k) = length dst) as Hl by (apply length_blit; lia).
  rewrite mem_cpy_ok by lia. rewrite !Nat2Z.id. f_equal.
  rewrite <- (blit_add k 1) by lia. by rewrite Nat.mul_1_l.
Qed.

Lemma cpy_offsets_blit k j u :
  ((p + k + j + u) * w <= length dst)%nat -> ((s + k + j + u) * w <= length src)%nat ->
  Z.of_nat (p + k + j + u) < 2 ^ 32 -> Z.of_nat (s + k + j + u) < 2 ^ 32 ->
  cpy_offsets (Z.of_nat w) (blit w dst p src s (k + j)) (Z.of_nat (p + k)) src
    (Z.of_nat (s + k)) (Z.of_nat <$> seq j u)
  = Some (blit w dst p src s (k + j + u)).
Proof.
  revert j. induction u as [|u IH]; intros j Hd Hs Hp Hq; simpl.
  { by rewrite Nat.add_0_r. }
  rewrite !wrap_small by (unfold fits; lia).
  rewrite <- !Nat2Z.inj_add, <- !Nat.add_assoc.
  rewrite cpy_unit_blit by lia. simpl.
  replace (k + j + 1)%nat with (k + Datatypes.S j)%nat by lia.
  rewrite IH by lia. do 2 f_equal. lia.
Qed.

Lemma copy_cases_blit k m :
  ((p + k + m) * w <= length dst)%nat -> ((s + k + m) * w <= length src)%nat ->
  Z.of_nat (p + k + m) < 2 ^ 32 -> Z.of_nat (s + k + m) < 2 ^ 32 ->
  copy_cases (Z.of_nat w) src m
    (blit w dst p src s k, Z.of_nat (p + k), Z.of_nat (s + k))
  = Some (blit w dst p src s (k + m), Z.of_nat (p + k + m), Z.of_nat (s + k + m)).
Proof.
  revert k. induction m as [|m IH]; intros k Hd Hs Hp Hq; simpl.
  { by rewrite !Nat.add_0_r. }
  rewrite cpy_unit_blit by lia. simpl.
  rewrite !wrap_small by (unfold fits; lia).
  replace (Z.of_nat (p + k) + 1) with (Z.of_nat (p + (k + 1))) by lia.
  replace (Z.of_nat (s + k) + 1) with (Z.of_nat (s + (k + 1))) by lia.
  rewrite IH by lia.
  replace (k + Datatypes.S m)%nat with (k + 1 + m)%nat by lia.
  replace (p + k + Datatypes.S m)%nat with (p + (k + 1) + m)%nat by lia.
  by replace (s + k + Datatypes.S m)%nat with (s + (k + 1) + m)%nat by lia.
Qed.

(** [m] rounds of a loop that copies [u] elements per round. *)
Lemma copy_while_blit (u m : nat) fuel (c : Z -> Z -> bool) k :
  (m < fuel)%nat ->
  (forall t, (t < m)%nat ->
     c (Z.of_nat (p + k + t * u)) (Z.of_nat (s + k + t * u)) = true) ->
  c (Z.of_nat (p + k + m * u)) (Z.of_nat (s + k + m * u)) = false ->
  ((p + k + m * u) * w <= length dst)%nat -> ((s + k + m * u) * w <= length src)%nat ->
  Z.of_nat (p + k + m * u) < 2 ^ 32 -> Z.of_nat (s + k + m * u) < 2 ^ 32 ->
  copy_while fuel (Z.of_nat w) (Z.of_nat u) (Z.of_nat <$> seq 0 u) src c
    (blit w dst p src s k, Z.of_nat (p + k), Z.of_nat (s + k))
  = Some (blit w dst p src s (k + m * u),
          Z.of_nat (p + k + m * u), Z.of_nat (s + k + m * u)).
Proof.
  unfold copy_while.
  revert k fuel. induction m as [|m IH]; intros k fuel Hf Ht Hc Hd Hs Hp Hq.
  - destruct fuel as [|fuel]; [lia|]. simpl in *.
    rewrite !Nat.add_0_r in *. by rewrite Hc.
  - destruct fuel as [|fuel]; [lia|]. cbn [while].
    pose proof (Ht 0%nat ltac:(lia)) as H0. rewrite Nat.mul_0_l, !Nat.add_0_r in H0.
    rewrite H0.
    pose proof (cpy_offsets_blit k 0 u) as Hcp. rewrite !Nat.add_0_r in Hcp.
    rewrite Hcp by lia. simpl.
    rewrite !wrap_small by (unfold fits; lia).
    replace (Z.of_nat (p + k) + Z.of_nat u) with (Z.of_nat (p + (k + u))) by lia.
    replace (Z.of_nat (s + k) + Z.of_nat u) with (Z.of_nat (s + (k + u))) by lia.
    rewrite IH.
    + f_equal. f_equal; [f_equal|]; f_equal; lia.
    + lia.
    + intros t Hlt. specialize (Ht (Datatypes.S t) ltac:(lia)).
      rewrite <- Ht. f_equal; lia.
    + rewrite <- Hc. f_equal; lia.
    + lia.
    + lia.
    + lia.
    + lia.
Qed.
End blit.

(** ** Lemmas: the reference functions in closed form *)

Lemma ring_put_add w sz mem p a b objs :
  ring_put w sz mem p (a + b) objs
  = ring_put w sz (ring_put w sz mem p a objs) (p + a) b (drop (a * w) objs).
Proof.
  revert mem p objs. induction a as [|a IH]; intros mem p objs; simpl.
  { by rewrite Nat.add_0_r. }
  rewrite IH, drop_drop. f_equal; try done; lia.
Qed.

Lemma ring_get_add w sz mem p a b :
  ring_get w sz mem p (a + b) = ring_get w sz mem p a ++ ring_get w sz mem (p + a) b.
Proof.
  revert p. induction a as [|a IH]; intros p; simpl; [by rewrite Nat.add_0_r|].
  rewrite IH, app_assoc. do 2 f_equal. lia.
Qed.

Lemma ring_put_congr w sz mem p p' n objs :
  (p mod sz = p' mod sz)%nat -> ring_put w sz mem p n objs = ring_put w sz mem p' n objs.
Proof.
  revert mem p p' objs. induction n as [|n IH]; intros mem p p' objs E; simpl; [done|].
  rewrite E. apply IH.
  destruct (decide (sz = 0%nat)) as [->|]; [simpl in *; congruence|].
  rewrite <- (Nat.add_1_l p), <- (Nat.add_1_l p').
  by rewrite <- (Nat.Div0.add_mod_idemp_r 1 p), E, Nat.Div0.add_mod_idemp_r.
Qed.

Lemma ring_get_congr w sz mem p p' n :
  (p mod sz = p' mod sz)%nat -> ring_get w sz mem p n = ring_get w sz mem p' n.
Proof.
  revert p p'. induction n as [|n IH]; intros p p' E; simpl; [done|].
  rewrite E. f_equal. apply IH.
  destruct (decide (sz = 0%nat)) as [->|]; [simpl in *; congruence|].
  rewrite <- (Nat.add_1_l p), <- (Nat.add_1_l p').
  by rewrite <- (Nat.Div0.add_mod_idemp_r 1 p), E, Nat.Div0.add_mod_idemp_r.
Qed.

(** Without wrap-around the reference is a block copy. *)
Lemma ring_put_blit w sz mem p n objs :
  (p + n <= sz)%nat -> ((p + n) * w <= length mem)%nat -> (n * w <= length objs)%nat ->
  ring_put w sz mem p n objs = blit w mem p objs 0 n.
Proof.
  revert mem p objs. induction n as [|n IH]; intros mem p objs Hp Hm Ho.
  { simpl. by rewrite blit_0. }
  cbn [ring_put]. rewrite Nat.mod_small by lia.
  assert (length (take w objs) = w) as Hw by (rewrite length_take; lia).
  rewrite IH; [|lia| |].
  - unfold blit. rewrite !Nat.mul_0_l, !drop_0.
    replace (Datatypes.S p * w)%nat with (p * w + length (take w objs))%nat by lia.
    rewrite splice_app; [|rewrite !length_take, length_drop; lia].
    f_equal. replace (Datatypes.S n * w)%nat with (w + n * w)%nat by lia.
    by rewrite take_add.
  - rewrite length_splice by lia. lia.
  - rewrite length_drop. lia.
Qed.

Lemma ring_get_block w sz mem p n :
  (p + n <= sz)%nat -> ((p + n) * w <= length mem)%nat ->
  ring_get w sz mem p n = take (n * w) (drop (p * w) mem).
Proof.
  revert p. induction n as [|n IH]; intros p Hp Hm; [done|].
  cbn [ring_get]. rewrite Nat.mod_small by lia. rewrite IH by lia.
  replace (Datatypes.S n * w)%nat with (w + n * w)%nat by lia.
  rewrite take_add, drop_drop. do 4 f_equal. lia.
Qed.

Lemma length_ring_put w sz mem p n objs :
  (0 < sz)%nat -> (sz * w <= length mem)%nat -> (n * w <= length objs)%nat ->
  length (ring_put w sz mem p n objs) = length mem.
Proof.
  intros Hsz. revert mem p objs. induction n as [|n IH]; intros mem p objs Hm Ho; [done|].
  cbn [ring_put].
  pose proof (Nat.mod_upper_bound p sz ltac:(lia)).
  assert (length (splice mem (p mod sz * w) (take w objs)) = length mem) as E.
  { apply length_splice. rewrite length_take. nia. }
  rewrite IH; [done|lia|rewrite length_drop; lia].
Qed.

Lemma length_ring_get w sz mem p n :
  (0 < sz)%nat -> (sz * w <= length mem)%nat ->
  length (ring_get w sz mem p n) = (n * w)%nat.
Proof.
  intros Hsz Hm. revert p. induction n as [|n IH]; intros p; [done|].
  cbn [ring_get].
  pose proof (Nat.mod_upper_bound p sz ltac:(lia)).
  rewrite length_app, IH, length_take, length_drop. nia.
Qed.

(** Rewriting a ring of elements of [w] words as a ring of single words, as
    the 32-bit copy does, describes the same writes and reads. *)
Lemma ring_put_scale w sz mem p n objs :
  (0 < sz)%nat -> (0 < w)%nat -> (sz * w <= length mem)%nat -> (n * w <= length objs)%nat ->
  ring_put 1 (sz * w) mem ((p mod sz) * w) (n * w) objs = ring_put w sz mem p n objs.
Proof.
  intros Hsz Hw. revert mem p objs. induction n as [|n IH]; intros mem p objs Hm Ho; [done|].
  pose proof (Nat.mod_upper_bound p sz ltac:(lia)) as Hlt.
  assert ((p mod sz + 1) * w <= sz * w)%nat as Hq by (apply Nat.mul_le_mono_r; lia).
  change (Datatypes.S n * w)%nat with (w + n * w)%nat.
  rewrite ring_put_add, (ring_put_blit 1 (sz * w) mem) by lia. cbn [ring_put].
  unfold blit. rewrite !Nat.mul_1_r, drop_0.
  rewrite (ring_put_congr _ _ _ _ ((Datatypes.S p mod sz) * w)).
  - apply IH; [|rewrite length_drop; lia].
    rewrite length_splice by (rewrite length_take; lia). lia.
  - rewrite Nat.Div0.mul_mod_distr_r.
    replace (p mod sz * w + w)%nat with ((1 + p mod sz) * w)%nat by lia.
    rewrite Nat.Div0.mul_mod_distr_r.
    rewrite Nat.Div0.mod_mod. by rewrite Nat.Div0.add_mod_idemp_r.
Qed.

Lemma ring_get_scale w sz mem p n :
  (0 < sz)%nat -> (0 < w)%nat -> (sz * w <= length mem)%nat ->
  ring_get 1 (sz * w) mem ((p mod sz) * w) (n * w) = ring_get w sz mem p n.
Proof.
  intros Hsz Hw Hm. revert p. induction n as [|n IH]; intros p; [done|].
  pose proof (Nat.mod_upper_bound p sz ltac:(lia)) as Hlt.
  assert ((p mod sz + 1) * w <= sz * w)%nat as Hq by (apply Nat.mul_le_mono_r; lia).
  change (Datatypes.S n * w)%nat with (w + n * w)%nat.
  rewrite ring_get_add, (ring_get_block 1 (sz * w) mem (p mod sz * w)) by lia. cbn [ring_get].
  rewrite !Nat.mul_1_r. f_equal.
  rewrite (ring_get_congr _ _ _ _ ((Datatypes.S p mod sz) * w)); [apply IH|].
  rewrite Nat.Div0.mul_mod_distr_r.
  replace (p mod sz * w + w)%nat with ((1 + p mod sz) * w)%nat by lia.
  rewrite Nat.Div0.mul_mod_distr_r.
  rewrite Nat.Div0.mod_mod. by rewrite Nat.Div0.add_mod_idemp_r.
Qed.

(** With wrap-around the reference is two block copies. *)
Lemma ring_put_wrap w sz mem p n objs :
  (p < sz)%nat -> (n <= sz)%nat -> (sz <= p + n)%nat ->
  (sz * w <= length mem)%nat -> (n * w <= length objs)%nat ->
  ring_put w sz mem p n objs
  = blit w (blit w mem p objs 0 (sz - p)) 0 objs (sz - p) (n - (sz - p)).
Proof.
  intros Hp Hn Hwr Hm Ho.
  replace n with ((sz - p) + (n - (sz - p)))%nat at 1 by lia.
  rewrite ring_put_add, (ring_put_blit w sz mem) by nia.
  rewrite (ring_put_congr _ _ _ _ 0) by
    (replace (p + (sz - p))%nat with sz by lia; rewrite Nat.Div0.mod_same, Nat.Div0.mod_0_l; done).
  rewrite ring_put_blit.
  - unfold blit at 1 3. by rewrite !Nat.mul_0_l, drop_0.
  - lia.
  - rewrite length_blit by nia. nia.
  - rewrite length_drop. nia.
Qed.

Lemma ring_get_wrap w sz mem p n :
  (p < sz)%nat -> (n <= sz)%nat -> (sz <= p + n)%nat -> (sz * w <= length mem)%nat ->
  ring_get w sz mem p n
  = take ((sz - p) * w) (drop (p * w) mem) ++ take ((n - (sz - p)) * w) mem.
Proof.
  intros Hp Hn Hwr Hm.
  replace n with ((sz - p) + (n - (sz - p)))%nat at 1 by lia.
  rewrite ring_get_add, (ring_get_block w sz mem p) by nia. f_equal.
  rewrite (ring_get_congr _ _ _ _ 0) by
    (replace (p + (sz - p))%nat with sz by lia; rewrite Nat.Div0.mod_same, Nat.Div0.mod_0_l; done).
  rewrite ring_get_block by nia. by rewrite Nat.mul_0_l, drop_0.
Qed.

(** ** Lemmas: the two shapes of copy of the source *)

(** The unrolled loop and the cases of the switch copy [n] elements. *)
Lemma unrolled_copy (w e n p s fuel : nat) dst src (c : Z -> Z -> bool) :
  (e <= 32)%nat -> (n < fuel)%nat ->
  (forall k, (k <= n)%nat ->
     c (Z.of_nat (p + k)) (Z.of_nat (s + k))
     = (Z.of_nat k <? Z.land (Z.of_nat n) (u32 (Z.lnot (2 ^ Z.of_nat e - 1))))) ->
  ((p + n) * w <= length dst)%nat -> ((s + n) * w <= length src)%nat ->
  Z.of_nat (p + n) < 2 ^ 32 -> Z.of_nat (s + n) < 2 ^ 32 ->
  (st ← copy_while fuel (Z.of_nat w) (Z.of_nat (2 ^ e)) (Z.of_nat <$> seq 0 (2 ^ e)) src c
      (dst, Z.of_nat p, Z.of_nat s) ;
   copy_cases (Z.of_nat w) src (Z.to_nat (Z.land (Z.of_nat n) (2 ^ Z.of_nat e - 1))) st)
  = Some (blit w dst p src s n, Z.of_nat (p + n), Z.of_nat (s + n)).
Proof.
  intros He Hf Hc Hd Hs Hp Hq.
  set (u := (2 ^ e)%nat). assert (0 < u)%nat by (unfold u; apply Nat.neq_0_lt_0, Nat.pow_nonzero; lia).
  assert (2 ^ Z.of_nat e = Z.of_nat u) as Eu by (unfold u; rewrite Nat2Z.inj_pow; done).
  assert (fits 32 (Z.of_nat n)) as Hfit by (unfold fits; lia).
  setoid_rewrite (land_clear_low 32 (Z.of_nat e)) in Hc; [|lia|done].
  rewrite land_mask by lia. rewrite Eu in *.
  rewrite <- Nat2Z.inj_mod in *. rewrite Nat2Z.id.
  pose proof (Nat.div_mod n u ltac:(lia)) as Hdm.
  pose proof (Nat.mod_upper_bound n u ltac:(lia)) as Hub.
  set (q := (n / u)%nat) in *. set (m := (n mod u)%nat) in *.
  pose proof (copy_while_blit w dst src p s u q fuel c 0) as HW.
  rewrite blit_0, !Nat.add_0_r, !Nat.add_0_l in HW.
  assert (q * u + m = n)%nat as Hqm by lia.
  assert (forall t, (t <= q)%nat -> c (Z.of_nat (p + t * u)) (Z.of_nat (s + t * u))
                    = (t <? q)%nat) as Hc'.
  { intros t Ht.
    assert (t * u <= q * u)%nat by (by apply Nat.mul_le_mono_r).
    rewrite Hc by lia. destruct (Nat.ltb_spec t q).
    - assert ((t + 1) * u <= q * u)%nat by (apply Nat.mul_le_mono_r; lia).
      apply Z.ltb_lt. lia.
    - replace t with q by lia. apply Z.ltb_ge. lia. }
  rewrite HW.
  - cbn. rewrite copy_cases_blit by nia. rewrite Hqm.
    by rewrite <- !Nat.add_assoc, Hqm.
  - nia.
  - intros t Ht. rewrite Hc' by lia. by apply Nat.ltb_lt.
  - rewrite Hc' by lia. apply Nat.ltb_irrefl.
  - nia.
  - nia.
  - nia.
  - nia.
Qed.

(** The loop that moves pairs of 16-byte elements. *)
Lemma copy_pairs_blit (m p s fuel : nat) dst src (c : Z -> Z -> bool) k :
  (m < fuel)%nat ->
  (forall t, (t < m)%nat ->
     c (Z.of_nat (p + k + t * 2)) (Z.of_nat (s + k + t * 2)) = true) ->
  c (Z.of_nat (p + k + m * 2)) (Z.of_nat (s + k + m * 2)) = false ->
  ((p + k + m * 2) * 4 <= length dst)%nat -> ((s + k + m * 2) * 4 <= length src)%nat ->
  Z.of_nat (p + k + m * 2) < 2 ^ 32 -> Z.of_nat (s + k + m * 2) < 2 ^ 32 ->
  copy_pairs fuel src c (blit 4 dst p src s k, Z.of_nat (p + k), Z.of_nat (s + k))
  = Some (blit 4 dst p src s (k + m * 2),
          Z.of_nat (p + k + m * 2), Z.of_nat (s + k + m * 2)).
Proof.
  unfold copy_pairs. revert k fuel.
  induction m as [|m IH]; intros k fuel Hf Ht Hc Hd Hs Hp Hq.
  - destruct fuel as [|fuel]; [lia|]. simpl in *.
    rewrite !Nat.add_0_r in *. by rewrite Hc.
  - destruct fuel as [|fuel]; [lia|]. cbn [while].
    pose proof (Ht 0%nat ltac:(lia)) as H0. rewrite Nat.mul_0_l, !Nat.add_0_r in H0.
    rewrite H0.
    rewrite mem_cpy_ok by (rewrite ?length_blit by lia; lia).
    cbn [mbind option_bind].
    replace (Z.to_nat (Z.of_nat (p + k) * 4)) with ((p + k) * 4)%nat by lia.
    replace (Z.to_nat (Z.of_nat (s + k) * 4)) with ((s + k) * 4)%nat by lia.
    change (Z.to_nat 8) with (2 * 4)%nat. rewrite (blit_add 4 dst src p s k 2) by lia.
    rewrite !wrap_small by (unfold fits; lia).
    replace (Z.of_nat (p + k) + 2) with (Z.of_nat (p + (k + 2))) by lia.
    replace (Z.of_nat (s + k) + 2) with (Z.of_nat (s + (k + 2))) by lia.
    rewrite IH.
    + f_equal. f_equal; [f_equal|]; f_equal; lia.
    + lia.
    + intros t Hlt. specialize (Ht (Datatypes.S t) ltac:(lia)).
      rewrite <- Ht. f_equal; lia.
    + rewrite <- Hc. f_equal; lia.
    + lia.
    + lia.
    + lia.
    + lia.
Qed.

(** Pairs, then a single element when their number is odd. *)
Lemma paired_copy (n p s fuel : nat) dst src (c : Z -> Z -> bool) :
  (n < fuel)%nat ->
  (forall k, (k <= n)%nat ->
     c (Z.of_nat (p + k)) (Z.of_nat (s + k))
     = (Z.of_nat k <? Z.land (Z.of_nat n) (u32 (Z.lnot 1)))) ->
  ((p + n) * 4 <= length dst)%nat -> ((s + n) * 4 <= length src)%nat ->
  Z.of_nat (p + n) < 2 ^ 32 -> Z.of_nat (s + n) < 2 ^ 32 ->
  ('(d, di, si) ← copy_pairs fuel src c (dst, Z.of_nat p, Z.of_nat s) ;
   (if Z.land (Z.of_nat n) 1 =? 1 then mem_cpy d (di * 4) src (si * 4) 4 else Some d))
  = Some (blit 4 dst p src s n).
Proof.
  intros Hf Hc Hd Hs Hp Hq.
  change 1 with (2 ^ 1 - 1) in Hc at 1. change 1 with (2 ^ 1 - 1) at 1.
  rewrite land_mask by lia.
  assert (fits 32 (Z.of_nat n)) as Hfit by (unfold fits; lia).
  setoid_rewrite (land_clear_low 32 1) in Hc; [|lia|done].
  rewrite Z.pow_1_r in *.
  pose proof (copy_pairs_blit (n / 2) p s fuel dst src c 0) as HP.
  rewrite blit_0, !Nat.add_0_r, !Nat.add_0_l in HP.
  pose proof (Nat.div_mod n 2 ltac:(lia)) as Hdm.
  pose proof (Nat.mod_upper_bound n 2 ltac:(lia)) as Hub.
  assert (Z.of_nat n mod 2 = Z.of_nat (n mod 2)) as Em by (rewrite Nat2Z.inj_mod; done).
  rewrite Em in *.
  rewrite HP; [| lia | | | lia..]; cbn [mbind option_bind].
  - destruct (n mod 2)%nat as [|[|]] eqn:E; [| |lia].
    + change (Z.of_nat 0 =? 1) with false. cbv iota.
      by replace (n / 2 * 2)%nat with n by lia.
    + change (Z.of_nat 1 =? 1) with true. cbv iota.
      pose proof (cpy_unit_blit 4 dst src p s (n / 2 * 2) ltac:(lia) ltac:(lia)) as HC.
      unfold cpy_unit in HC. change (Z.of_nat 4) with 4 in HC. rewrite HC.
      by replace (n / 2 * 2 + 1)%nat with n by lia.
  - intros t Ht. rewrite Hc by lia. apply Z.ltb_lt. lia.
  - rewrite Hc by lia. apply Z.ltb_ge. lia.
Qed.

(** The element-by-element loop copies [m] elements. *)
Lemma single_copy (w m p s fuel : nat) dst src (c : Z -> Z -> bool) :
  (m < fuel)%nat ->
  (forall k, (k < m)%nat -> c (Z.of_nat (p + k)) (Z.of_nat (s + k)) = true) ->
  c (Z.of_nat (p + m)) (Z.of_nat (s + m)) = false ->
  ((p + m) * w <= length dst)%nat -> ((s + m) * w <= length src)%nat ->
  Z.of_nat (p + m) < 2 ^ 32 -> Z.of_nat (s + m) < 2 ^ 32 ->
  copy_while fuel (Z.of_nat w) 1 [0] src c (dst, Z.of_nat p, Z.of_nat s)
  = Some (blit w dst p src s m, Z.of_nat (p + m), Z.of_nat (s + m)).
Proof.
  intros Hf Ht Hc Hd Hs Hp Hq.
  pose proof (copy_while_blit w dst src p s 1 m fuel c 0) as HW.
  rewrite blit_0, !Nat.add_0_r, !Nat.mul_1_r, !Nat.add_0_l in HW.
  apply HW; [done| |done..]. intros t Hlt. rewrite Nat.mul_1_r. by apply Ht.
Qed.

Arguments blit : simpl never.
Arguments copy_while : simpl never.
Arguments copy_cases : simpl never.
Arguments copy_pairs : simpl never.

(** ** The copies of the source compute the reference *)

(** The geometry of a ring whose elements have [w] words: the size is a power
    of two, the mask is [size - 1], the slots fill the memory after the
    structure, and that memory has at most 2^31 words. *)
Record ring_geom (w : nat) (r : rte_ring) : Prop := {
  geom_log : exists k : nat, (k <= 31)%nat /\ size r = 2 ^ Z.of_nat k;
  geom_mask : mask r = size r - 1;
  geom_slots : length (slots r) = (Z.to_nat (size r) * w)%nat;
  geom_w : (0 < w)%nat;
  geom_bound : size r * Z.of_nat w <= 2 ^ 31
}.

Lemma geom_set_side (w : nat) (s : ring_side) (h : rte_ring_headtail) (r : rte_ring) :
  ring_geom w r -> ring_geom w (set_side s h r).
Proof. intros []. by destruct s; split. Qed.

Lemma geom_size_pos w r : ring_geom w r -> 0 < size r <= 2 ^ 31.
Proof.
  intros [(k & Hk & ->) _ _ Hw Hb]. split; [apply Z.pow_pos_nonneg; lia|].
  apply Z.pow_le_mono_r; lia.
Qed.

Lemma geom_index w r h :
  ring_geom w r -> fits 32 h ->
  Z.land h (mask r) = Z.of_nat (Z.to_nat h mod Z.to_nat (size r)).
Proof.
  intros [(k & Hk & Hs) Hm _ _ _] Hh. unfold fits in Hh.
  assert (0 < 2 ^ Z.of_nat k) by (apply Z.pow_pos_nonneg; lia).
  rewrite Hm, Hs, land_mask by lia. rewrite Nat2Z.inj_mod, !Z2Nat.id by lia. done.
Qed.

(** The first loop of the wrapping branch stops at the end of the ring, the
    second after [n] elements. *)
Ltac copy_cond :=
  intros; cbv beta; rewrite ?Nat.add_0_l;
  first [apply Z.ltb_lt | apply Z.ltb_ge]; lia.

Ltac copy_bound :=
  rewrite ?length_blit by lia;
  match goal with
  | |- (?a * ?w <= _)%nat =>
      match goal with
      | H : (?b * w <= _)%nat |- _ =>
          assert (a * w <= b * w)%nat by (apply Nat.mul_le_mono_r; lia); lia
      end
  | |- _ => lia
  end.

Lemma copy_fuel_ok n sz m :
  (m <= n + sz)%nat -> (m < copy_fuel (Z.of_nat n) (Z.of_nat sz))%nat.
Proof. unfold copy_fuel. lia. Qed.

Section copies.
Context (mem obj : list Z) (sz idx n : nat).
Context (Hidx : (idx < sz)%nat) (Hn : (n <= sz)%nat) (Hsz : Z.of_nat sz <= 2 ^ 31).

Lemma wraps_false : (idx + n < sz)%nat ->
  (u32 (Z.of_nat idx + Z.of_nat n) <? Z.of_nat sz) = true.
Proof. intros. rewrite wrap_small by (unfold fits; lia). apply Z.ltb_lt. lia. Qed.

Lemma wraps_true : ~ (idx + n < sz)%nat ->
  (u32 (Z.of_nat idx + Z.of_nat n) <? Z.of_nat sz) = false.
Proof. intros. rewrite wrap_small by (unfold fits; lia). apply Z.ltb_ge. lia. Qed.

(** Both loops of the wrapping branch, writing to the ring. *)
Lemma wrap_copy_in (w : nat) :
  (sz * w <= length mem)%nat -> (n * w <= length obj)%nat -> (sz <= idx + n)%nat ->
  ('(ring, _, i) ← copy_while (copy_fuel (Z.of_nat n) (Z.of_nat sz)) (Z.of_nat w) 1 [0] obj
       (fun idx i => idx <? Z.of_nat sz) (mem, Z.of_nat idx, 0) ;
   '(ring, _, _) ← copy_while (copy_fuel (Z.of_nat n) (Z.of_nat sz)) (Z.of_nat w) 1 [0] obj
       (fun idx i => i <? Z.of_nat n) (ring, 0, i) ;
   Some ring)
  = Some (ring_put w sz mem idx n obj).
Proof.
  intros Hm Ho Hwr.
  assert ((idx + (sz - idx)) * w <= length mem)%nat by nia.
  assert ((0 + (sz - idx)) * w <= length obj)%nat by nia.
  rewrite (single_copy w (sz - idx) idx 0);
    [|apply copy_fuel_ok; lia|copy_cond|copy_cond|lia..]. cbn.
  rewrite (single_copy w (n - (sz - idx)) 0 (sz - idx));
    [|apply copy_fuel_ok; lia|copy_cond|copy_cond|copy_bound..].
  cbn. by rewrite ring_put_wrap.
Qed.

(** Both loops of the wrapping branch, reading from the ring. *)
Lemma wrap_copy_out (w : nat) :
  (sz * w <= length mem)%nat -> (n * w <= length obj)%nat -> (sz <= idx + n)%nat ->
  ('(o, i, _) ← copy_while (copy_fuel (Z.of_nat n) (Z.of_nat sz)) (Z.of_nat w) 1 [0] mem
       (fun i idx => idx <? Z.of_nat sz) (obj, 0, Z.of_nat idx) ;
   '(o, _, _) ← copy_while (copy_fuel (Z.of_nat n) (Z.of_nat sz)) (Z.of_nat w) 1 [0] mem
       (fun i idx => i <? Z.of_nat n) (o, i, 0) ;
   Some o)
  = Some (splice obj 0 (ring_get w sz mem idx n)).
Proof.
  intros Hm Ho Hwr.
  assert ((idx + (sz - idx)) * w <= length mem)%nat by nia.
  assert ((0 + (sz - idx)) * w <= length obj)%nat by nia.
  rewrite (single_copy w (sz - idx) 0 idx);
    [|apply copy_fuel_ok; lia|copy_cond|copy_cond|lia..]. cbn.
  rewrite (single_copy w (n - (sz - idx)) (sz - idx) 0);
    [|apply copy_fuel_ok; lia|copy_cond|copy_cond|copy_bound..].
  cbn. rewrite ring_get_wrap by lia. f_equal. unfold blit.
  rewrite !Nat.mul_0_l, drop_0.
  rewrite <- splice_app.
  - f_equal. rewrite length_take, length_drop. nia.
  - rewrite !length_take, length_drop. nia.
Qed.
End copies.

Section elems.
Context (r : rte_ring) (obj : list Z).

(** One tactic for the two branches of each direction. *)
Ltac start_copy idx n sz :=
  cbv zeta; destruct (decide (idx + n < sz)%nat) as [Hlt|Hge];
  [rewrite wraps_false by lia|rewrite wraps_true by lia].

Lemma bind_proj3 {B} (f : list Z -> B) (m : option copy_st)
  (g : copy_st -> option copy_st) x y z :
  (st ← m ; g st) = Some (x, y, z) ->
  (st ← m ; '(ring, _, _) ← g st ; Some (f ring)) = Some (f x).
Proof. intros (st & -> & E)%bind_Some. simpl. by rewrite E. Qed.

Lemma bind_two3 {B} (f : list Z -> B) (m : option copy_st)
  (g : list Z -> Z -> option copy_st) l :
  ('(ring, _, i) ← m ; '(ring', _, _) ← g ring i ; Some ring') = Some l ->
  ('(ring, _, i) ← m ; '(ring', _, _) ← g ring i ; Some (f ring')) = Some (f l).
Proof.
  destruct m as [[[a b] c]|]; simpl; [|done].
  destruct (g a c) as [[[a' b'] c']|]; simpl; congruence.
Qed.

Lemma enqueue_elems_32_ok (sz idx n : nat) :
  (idx < sz)%nat -> (n <= sz)%nat -> Z.of_nat sz <= 2 ^ 31 ->
  (sz <= length (slots r))%nat -> (n <= length obj)%nat ->
  __rte_ring_enqueue_elems_32 r (Z.of_nat sz) (Z.of_nat idx) obj (Z.of_nat n)
  = Some (set_slots (ring_put 1 sz (slots r) idx n obj) r).
Proof.
  intros Hi Hn Hsz Hm Ho. unfold __rte_ring_enqueue_elems_32. start_copy idx n sz.
  - pose proof (unrolled_copy 1 3 n idx 0 (copy_fuel (Z.of_nat n) (Z.of_nat sz)) (slots r) obj
      (fun idx i => i <? Z.land (Z.of_nat n) (u32 (Z.lnot 7)))) as HU.
    specialize (HU ltac:(lia) (copy_fuel_ok n sz n ltac:(lia)) ltac:(done)
      ltac:(lia) ltac:(lia) ltac:(lia) ltac:(lia)).
    apply (bind_proj3 (fun l => set_slots l r)) in HU. etrans; [exact HU|].
    by rewrite ring_put_blit by lia.
  - pose proof (wrap_copy_in (slots r) obj sz idx n Hi Hn Hsz 1 ltac:(lia) ltac:(lia) ltac:(lia)) as HW.
    apply (bind_two3 (fun l => set_slots l r)) in HW. exact HW.
Qed.

Lemma dequeue_elems_32_ok (sz idx n : nat) :
  (idx < sz)%nat -> (n <= sz)%nat -> Z.of_nat sz <= 2 ^ 31 ->
  (sz <= length (slots r))%nat -> (n <= length obj)%nat ->
  __rte_ring_dequeue_elems_32 r (Z.of_nat sz) (Z.of_nat idx) obj (Z.of_nat n)
  = Some (splice obj 0 (ring_get 1 sz (slots r) idx n)).
Proof.
  intros Hi Hn Hsz Hm Ho. unfold __rte_ring_dequeue_elems_32. start_copy idx n sz.
  - pose proof (unrolled_copy 1 3 n 0 idx (copy_fuel (Z.of_nat n) (Z.of_nat sz)) obj (slots r)
      (fun i idx => i <? Z.land (Z.of_nat n) (u32 (Z.lnot 7)))) as HU.
    specialize (HU ltac:(lia) (copy_fuel_ok n sz n ltac:(lia)) ltac:(done)
      ltac:(lia) ltac:(lia) ltac:(lia) ltac:(lia)).
    apply (bind_proj3 id) in HU. etrans; [exact HU|].
    by rewrite ring_get_block by lia.
  - exact (wrap_copy_out (slots r) obj sz idx n Hi Hn Hsz 1 ltac:(lia) ltac:(lia) ltac:(lia)).
Qed.

Context (k : nat) (sz : nat) (h : Z) (n : nat).
Context (Hk : (k <= 31)%nat) (Hsz : size r = 2 ^ Z.of_nat k) (Hmask : mask r = size r - 1).
Context (Hszn : sz = Z.to_nat (size r)) (Hh : fits 32 h) (Hn : (n <= sz)%nat).

Lemma sz_pos : (0 < sz)%nat /\ Z.of_nat sz <= 2 ^ 31 /\ size r = Z.of_nat sz.
Proof.
  rewrite Hszn, Hsz. assert (0 < 2 ^ Z.of_nat k) by (apply Z.pow_pos_nonneg; lia).
  assert (2 ^ Z.of_nat k <= 2 ^ 31) by (apply Z.pow_le_mono_r; lia). lia.
Qed.

Lemma index_mod : Z.land h (mask r) = Z.of_nat (Z.to_nat h mod sz).
Proof.
  unfold fits in Hh. assert (0 < 2 ^ Z.of_nat k) by (apply Z.pow_pos_nonneg; lia).
  rewrite Hmask, Hszn, Hsz, land_mask by lia.
  rewrite Nat2Z.inj_mod, !Z2Nat.id by lia. done.
Qed.

Lemma enqueue_elems_64_ok :
  (sz * 2 <= length (slots r))%nat -> (n * 2 <= length obj)%nat ->
  __rte_ring_enqueue_elems_64 r h obj (Z.of_nat n)
  = Some (set_slots (ring_put 2 sz (slots r) (Z.to_nat h) n obj) r).
Proof.
  intros Hm Ho. destruct sz_pos as (Hp & Hb & Es). unfold __rte_ring_enqueue_elems_64.
  rewrite index_mod, Es. set (idx := (Z.to_nat h mod sz)%nat).
  assert (idx < sz)%nat as Hi by (apply Nat.mod_upper_bound; lia).
  rewrite (ring_put_congr _ _ _ (Z.to_nat h) idx) by (unfold idx; by rewrite Nat.Div0.mod_mod).
  start_copy idx n sz.
  - pose proof (unrolled_copy 2 2 n idx 0 (copy_fuel (Z.of_nat n) (Z.of_nat sz)) (slots r) obj
      (fun idx i => i <? Z.land (Z.of_nat n) (u32 (Z.lnot 3)))) as HU.
    specialize (HU ltac:(lia) (copy_fuel_ok n sz n ltac:(lia)) ltac:(done)
      ltac:(lia) ltac:(lia) ltac:(lia) ltac:(lia)).
    apply (bind_proj3 (fun l => set_slots l r)) in HU. etrans; [exact HU|].
    by rewrite ring_put_blit by lia.
  - pose proof (wrap_copy_in (slots r) obj sz idx n Hi Hn Hb 2 ltac:(lia) ltac:(lia) ltac:(lia)) as HW.
    apply (bind_two3 (fun l => set_slots l r)) in HW. exact HW.
Qed.

Lemma dequeue_elems_64_ok :
  (sz * 2 <= length (slots r))%nat -> (n * 2 <= length obj)%nat ->
  __rte_ring_dequeue_elems_64 r h obj (Z.of_nat n)
  = Some (splice obj 0 (ring_get 2 sz (slots r) (Z.to_nat h) n)).
Proof.
  intros Hm Ho. destruct sz_pos as (Hp & Hb & Es). unfold __rte_ring_dequeue_elems_64.
  rewrite index_mod, Es. set (idx := (Z.to_nat h mod sz)%nat).
  assert (idx < sz)%nat as Hi by (apply Nat.mod_upper_bound; lia).
  rewrite (ring_get_congr _ _ _ (Z.to_nat h) idx) by (unfold idx; by rewrite Nat.Div0.mod_mod).
  start_copy idx n sz.
  - pose proof (unrolled_copy 2 2 n 0 idx (copy_fuel (Z.of_nat n) (Z.of_nat sz)) obj (slots r)
      (fun i idx => i <? Z.land (Z.of_nat n) (u32 (Z.lnot 3)))) as HU.
    specialize (HU ltac:(lia) (copy_fuel_ok n sz n ltac:(lia)) ltac:(done)
      ltac:(lia) ltac:(lia) ltac:(lia) ltac:(lia)).
    apply (bind_proj3 id) in HU. etrans; [exact HU|].
    by rewrite ring_get_block by lia.
  - exact (wrap_copy_out (slots r) obj sz idx n Hi Hn Hb 2 ltac:(lia) ltac:(lia) ltac:(lia)).
Qed.
Lemma enqueue_elems_128_ok :
  (sz * 4 <= length (slots r))%nat -> (n * 4 <= length obj)%nat ->
  __rte_ring_enqueue_elems_128 r h obj (Z.of_nat n)
  = Some (set_slots (ring_put 4 sz (slots r) (Z.to_nat h) n obj) r).
Proof.
  intros Hm Ho. destruct sz_pos as (Hp & Hb & Es). unfold __rte_ring_enqueue_elems_128.
  rewrite index_mod, Es. set (idx := (Z.to_nat h mod sz)%nat).
  assert (idx < sz)%nat as Hi by (apply Nat.mod_upper_bound; lia).
  rewrite (ring_put_congr _ _ _ (Z.to_nat h) idx) by (unfold idx; by rewrite Nat.Div0.mod_mod).
  start_copy idx n sz.
  - pose proof (paired_copy n idx 0 (copy_fuel (Z.of_nat n) (Z.of_nat sz)) (slots r) obj
      (fun idx i => i <? Z.land (Z.of_nat n) (u32 (Z.lnot 1)))
      (copy_fuel_ok n sz n ltac:(lia)) ltac:(done)
      ltac:(lia) ltac:(lia) ltac:(lia) ltac:(lia)) as HU.
    apply bind_Some in HU as ([[d di] si] & HC & HU).
    change (Z.of_nat 0) with 0 in HC. rewrite HC. cbn. rewrite HU. cbn.
    by rewrite ring_put_blit by lia.
  - pose proof (wrap_copy_in (slots r) obj sz idx n Hi Hn Hb 4 ltac:(lia) ltac:(lia) ltac:(lia)) as HW.
    apply (bind_two3 (fun l => set_slots l r)) in HW. exact HW.
Qed.

Lemma dequeue_elems_128_ok :
  (sz * 4 <= length (slots r))%nat -> (n * 4 <= length obj)%nat ->
  __rte_ring_dequeue_elems_128 r h obj (Z.of_nat n)
  = Some (splice obj 0 (ring_get 4 sz (slots r) (Z.to_nat h) n)).
Proof.
  intros Hm Ho. destruct sz_pos as (Hp & Hb & Es). unfold __rte_ring_dequeue_elems_128.
  rewrite index_mod, Es. set (idx := (Z.to_nat h mod sz)%nat).
  assert (idx < sz)%nat as Hi by (apply Nat.mod_upper_bound; lia).
  rewrite (ring_get_congr _ _ _ (Z.to_nat h) idx) by (unfold idx; by rewrite Nat.Div0.mod_mod).
  start_copy idx n sz.
  - etrans; [exact (paired_copy n 0 idx (copy_fuel (Z.of_nat n) (Z.of_nat sz)) obj (slots r)
      (fun i idx => i <? Z.land (Z.of_nat n) (u32 (Z.lnot 1)))
      (copy_fuel_ok n sz n ltac:(lia)) ltac:(done)
      ltac:(lia) ltac:(lia) ltac:(lia) ltac:(lia))|].
    by rewrite ring_get_block by lia.
  - exact (wrap_copy_out (slots r) obj sz idx n Hi Hn Hb 4 ltac:(lia) ltac:(lia) ltac:(lia)).
Qed.
End elems.

(** ** Reading back what was written *)

Lemma mod_shift_ne (sz a d : nat) :
  (0 < d)%nat -> (d < sz)%nat -> ((a + d) mod sz <> a mod sz)%nat.
Proof.
  intros H1 H2 E.
  pose proof (Nat.div_mod (a + d) sz ltac:(lia)). pose proof (Nat.div_mod a sz ltac:(lia)).
  rewrite E in *.
  assert (sz * ((a + d) / sz) = sz * (a / sz) + d)%nat by lia.
  assert ((a + d) / sz = a / sz \/ a / sz + 1 <= (a + d) / sz \/ (a + d) / sz + 1 <= a / sz)%nat
    as [|[]] by lia; nia.
Qed.

Lemma slot_splice_eq (w i : nat) (mem a : list Z) :
  length a = w -> ((i + 1) * w <= length mem)%nat ->
  take w (drop (i * w) (splice mem (i * w) a)) = a.
Proof.
  intros Ha Hm. unfold splice.
  rewrite drop_app_ge by (rewrite length_take; lia).
  rewrite length_take, Nat.min_l by lia. rewrite Nat.sub_diag, drop_0.
  by rewrite take_app_length'.
Qed.

Lemma slot_splice_ne (w i j : nat) (mem a : list Z) :
  length a = w -> i <> j -> ((i + 1) * w <= length mem)%nat -> ((j + 1) * w <= length mem)%nat ->
  take w (drop (j * w) (splice mem (i * w) a)) = take w (drop (j * w) mem).
Proof.
  intros Ha Hij Hm Hj. apply list_eq. intros k.
  destruct (decide (k < w)%nat); [|rewrite !lookup_take_ge by lia; done].
  rewrite !lookup_take_lt, !lookup_drop, lookup_splice by lia.
  rewrite decide_False; [done|]. intros [H1 H2]. rewrite Ha in H2.
  destruct (decide (i < j)%nat).
  - assert ((i + 1) * w <= j * w)%nat by (apply Nat.mul_le_mono_r; lia). lia.
  - assert ((j + 1) * w <= i * w)%nat by (apply Nat.mul_le_mono_r; lia). lia.
Qed.

Lemma slot_bound (w sz i : nat) (mem : list Z) :
  (0 < sz)%nat -> (sz * w <= length mem)%nat -> ((i mod sz + 1) * w <= length mem)%nat.
Proof.
  intros Hsz Hm. pose proof (Nat.mod_upper_bound i sz ltac:(lia)).
  assert ((i mod sz + 1) * w <= sz * w)%nat by (apply Nat.mul_le_mono_r; lia). lia.
Qed.

(** A read of positions that are all different from the written one. *)
Lemma ring_get_splice w sz mem p a q m :
  (0 < sz)%nat -> (sz * w <= length mem)%nat -> length a = w ->
  (forall i, (i < m)%nat -> (p mod sz <> (q + i) mod sz)%nat) ->
  ring_get w sz (splice mem ((p mod sz) * w) a) q m = ring_get w sz mem q m.
Proof.
  intros Hsz Hm Ha. revert q. induction m as [|m IH]; intros q Hne; [done|].
  cbn [ring_get]. pose proof (Hne 0%nat ltac:(lia)) as H0. rewrite Nat.add_0_r in H0.
  rewrite slot_splice_ne; [|done|done|by apply slot_bound..]. f_equal.
  apply IH. intros i Hi. rewrite Nat.add_succ_comm. apply Hne. lia.
Qed.

(** Positions before the written block are unchanged... *)
Lemma ring_get_put_frame w sz mem q m n objs :
  (m + n <= sz)%nat -> (sz * w <= length mem)%nat -> (n * w <= length objs)%nat ->
  ring_get w sz (ring_put w sz mem (q + m) n objs) q m = ring_get w sz mem q m.
Proof.
  intros Hs Hm Ho.
  enough (forall d p, p = (q + m + d)%nat -> (m + n + d <= sz)%nat ->
    ring_get w sz (ring_put w sz mem p n objs) q m = ring_get w sz mem q m) as H.
  { apply (H 0%nat); lia. }
  clear Hs. revert mem objs Hm Ho. induction n as [|n IH]; intros mem objs Hm Ho d p -> Hs; [done|].
  cbn [ring_put].
  destruct (decide (m = 0%nat)) as [->|]; [done|].
  assert (length (take w objs) = w) as Ha by (rewrite length_take; lia).
  pose proof (slot_bound w sz (q + m + d) mem ltac:(lia) Hm) as Hb.
  rewrite (IH _ _) with (d := Datatypes.S d);
    [|rewrite length_splice by lia; lia|rewrite length_drop; lia|lia|lia].
  apply ring_get_splice; [lia|done|done|].
  intros i Hi. replace (q + m + d)%nat with (q + i + (m - i + d))%nat by lia.
  apply mod_shift_ne; lia.
Qed.

(** ... and the written block is read back. *)
Lemma ring_get_put_same w sz mem p n objs :
  (n <= sz)%nat -> (sz * w <= length mem)%nat -> (n * w <= length objs)%nat ->
  ring_get w sz (ring_put w sz mem p n objs) p n = take (n * w) objs.
Proof.
  intros Hs Hm Ho.
  destruct (decide (n = 0%nat)) as [->|]; [done|].
  assert (forall n d, (n + d <= sz)%nat -> (n * w <= length objs)%nat ->
    ring_get w sz (ring_put w sz mem p n objs) p n = take (n * w) objs) as H; [|by apply (H n 0%nat); lia].
  clear n n0 Hs Ho. induction n as [|n IH]; intros d Hs Ho; [done|].
  replace (Datatypes.S n) with (n + 1)%nat in * by lia.
  assert (length (ring_put w sz mem p n objs) = length mem) as El
    by (apply length_ring_put; lia).
  rewrite ring_get_add, ring_put_add.
  rewrite ring_get_put_frame; [|lia|lia|rewrite length_drop; lia].
  rewrite (IH 0%nat) by lia. cbn [ring_put ring_get]. rewrite app_nil_r.
  rewrite slot_splice_eq; [|rewrite length_take, length_drop; lia|].
  - rewrite <- take_add. f_equal. lia.
  - apply slot_bound; [lia|]. lia.
Qed.

(** ** The unrolled copies compute the reference *)

(** [__rte_ring_enqueue_elems] writes exactly the [num] given elements at
    the ring positions [prod_head], [prod_head + 1], ... modulo the size, for
    every element size that is a multiple of four bytes: the 8-byte, 16-byte
    and word-by-word unrolled copies agree with the element-by-element
    reference, wrap-around included. *)
Lemma enqueue_elems_put (w n : nat) (r : rte_ring) (h : Z) (obj : list Z) :
  ring_geom w r -> fits 32 h -> Z.of_nat n <= size r -> (n * w <= length obj)%nat ->
  __rte_ring_enqueue_elems r h obj (4 * Z.of_nat w) (Z.of_nat n)
  = Some (set_slots (ring_put w (Z.to_nat (size r)) (slots r) (Z.to_nat h) n obj) r).
Proof.
  intros G Hh Hn Ho. pose proof (geom_size_pos _ _ G) as Hp.
  pose proof (geom_index _ _ _ G Hh) as Hi.
  destruct G as [(k & Hk & Hs) Hm Hl Hw Hb]. unfold __rte_ring_enqueue_elems.
  destruct (decide (w = 2%nat)) as [->|]; [simpl (4 * _ =? 8)|].
  { eapply (enqueue_elems_64_ok _ _ k); eauto; lia. }
  destruct (decide (w = 4%nat)) as [->|]; [simpl (4 * _ =? _)|].
  { eapply (enqueue_elems_128_ok _ _ k); eauto; lia. }
  replace (4 * Z.of_nat w =? 8) with false by lia.
  replace (4 * Z.of_nat w =? 16) with false by lia. cbv zeta.
  replace (4 * Z.of_nat w / 4) with (Z.of_nat w) by (rewrite Z.mul_comm, Z.div_mul; lia).
  set (sz := Z.to_nat (size r)) in *.
  assert (size r = Z.of_nat sz) as Es by lia. rewrite Hi, Es in *.
  pose proof (Nat.mod_upper_bound (Z.to_nat h) sz ltac:(lia)) as Hmod.
  assert (n * w <= sz * w)%nat by (apply Nat.mul_le_mono_r; lia).
  assert ((Z.to_nat h mod sz) * w < sz * w)%nat by (apply Nat.mul_lt_mono_pos_r; lia).
  rewrite <- !Nat2Z.inj_mul, !wrap_small by (unfold fits; lia).
  rewrite enqueue_elems_32_ok by lia. by rewrite ring_put_scale by lia.
Qed.

(** [__rte_ring_dequeue_elems] writes to the object table exactly the [num]
    elements held at the ring positions [cons_head], [cons_head + 1], ...
    modulo the size, in that order, for every element size. *)
Lemma dequeue_elems_get (w n : nat) (r : rte_ring) (h : Z) (obj : list Z) :
  ring_geom w r -> fits 32 h -> Z.of_nat n <= size r -> (n * w <= length obj)%nat ->
  __rte_ring_dequeue_elems r h obj (4 * Z.of_nat w) (Z.of_nat n)
  = Some (splice obj 0 (ring_get w (Z.to_nat (size r)) (slots r) (Z.to_nat h) n)).
Proof.
  intros G Hh Hn Ho. pose proof (geom_size_pos _ _ G) as Hp.
  pose proof (geom_index _ _ _ G Hh) as Hi.
  destruct G as [(k & Hk & Hs) Hm Hl Hw Hb]. unfold __rte_ring_dequeue_elems.
  destruct (decide (w = 2%nat)) as [->|]; [simpl (4 * _ =? 8)|].
  { eapply (dequeue_elems_64_ok _ _ k); eauto; lia. }
  destruct (decide (w = 4%nat)) as [->|]; [simpl (4 * _ =? _)|].
  { eapply (dequeue_elems_128_ok _ _ k); eauto; lia. }
  replace (4 * Z.of_nat w =? 8) with false by lia.
  replace (4 * Z.of_nat w =? 16) with false by lia. cbv zeta.
  replace (4 * Z.of_nat w / 4) with (Z.of_nat w) by (rewrite Z.mul_comm, Z.div_mul; lia).
  set (sz := Z.to_nat (size r)) in *.
  assert (size r = Z.of_nat sz) as Es by lia. rewrite Hi, Es in *.
  pose proof (Nat.mod_upper_bound (Z.to_nat h) sz ltac:(lia)) as Hmod.
  assert (n * w <= sz * w)%nat by (apply Nat.mul_le_mono_r; lia).
  assert ((Z.to_nat h mod sz) * w < sz * w)%nat by (apply Nat.mul_lt_mono_pos_r; lia).
  rewrite <- !Nat2Z.inj_mul, !wrap_small by (unfold fits; lia).
  rewrite dequeue_elems_32_ok by lia. by rewrite ring_get_scale by lia.
Qed.

(** The copy of elements is right for every element size that is a
    multiple of four bytes: the 8-byte, 16-byte and word-by-word unrolled
    copies write [num] elements exactly at the positions [head], [head + 1],
    ... modulo the ring size and nowhere else, and a copy out from the same
    head returns those elements to the object table, wrap-around of the index
    included. *)
Theorem ring_elems_copy_roundtrip (w n : nat) (r : rte_ring) (h : Z) (obj out : list Z) :
  ring_geom w r -> fits 32 h -> Z.of_nat n <= size r ->
  (n * w <= length obj)%nat -> (n * w <= length out)%nat ->
  let r' := set_slots (ring_put w (Z.to_nat (size r)) (slots r) (Z.to_nat h) n obj) r in
  __rte_ring_enqueue_elems r h obj (4 * Z.of_nat w) (Z.of_nat n) = Some r'
  /\ __rte_ring_dequeue_elems r' h out (4 * Z.of_nat w) (Z.of_nat n)
     = Some (take (n * w) obj ++ drop (n * w) out).
Proof.
  intros G Hh Hn Ho Hu r'. pose proof (geom_size_pos _ _ G).
  assert (Z.to_nat (size r) * w = length (slots r))%nat as Hl by (symmetry; apply G).
  assert (ring_geom w r') as G'.
  { destruct G; split; unfold r'; simpl; try done. by rewrite length_ring_put by lia. }
  split; [by apply enqueue_elems_put|].
  rewrite dequeue_elems_get by done. unfold r'; simpl.
  rewrite ring_get_put_same by lia. unfold splice. simpl.
  by rewrite length_take, Nat.min_l by lia.
Qed.

Lemma ring_elems_copy_roundtrip_witness :
  let r := mk_ring 0 4 3 3 (mk_headtail 3 3 0 0 0 0) (mk_headtail 3 3 0 0 0 0)
             (replicate 12 0) in
  exists r', __rte_ring_enqueue_elems r 3 [1;2;3;4;5;6] 12 2 = Some r'
  /\ slots r' = [4;5;6;0;0;0;0;0;0;1;2;3]
  /\ __rte_ring_dequeue_elems r' 3 [0;0;0;0;0;0] 12 2 = Some [1;2;3;4;5;6].
Proof.
  intros r. pose proof (ring_elems_copy_roundtrip 3 2 r 3 [1;2;3;4;5;6] [0;0;0;0;0;0]) as H.
  destruct H as [H1 H2].
  - split; simpl; first [done|lia|exists 2%nat; split; [lia|done]].
  - done.
  - done.
  - done.
  - done.
  - eexists. split; [exact H1|]. split; [reflexivity|exact H2].
Defined.
