(* ===== verification/RingHeadTail.v ===== *)
(** * Moving the heads and tails of a ring.

    Four protocols serialise the users of one side of a ring: the default
    one in its two variants ([Generic], [include/rte_ring_generic_pvt.h], and
    [C11], [include/rte_ring_c11_pvt.h]), [HTS]
    ([include/rte_ring_hts_elem_pvt.h]) and [RTS]
    ([include/rte_ring_rts_elem_pvt.h]).  Each is modelled as it runs when no
    other thread interferes: a compare-and-swap compares with the memory, a
    barrier has no effect, and a wait for another thread that is not there
    does not return ([None]).  The interleavings are the subject of
    [RingConc.v].

    The class [HeadTail] is what the enqueue and dequeue functions need of a
    protocol, with the laws their correctness rests on; each protocol
    instantiates it. *)
From stdpp Require Import prelude list numbers.
From S2P Require Import Prelude RingCore.
Open Scope Z_scope.

(** ** Shared primitives *)

(** Rounds allowed to a spin or to a compare-and-swap loop: the memory does not
    change under the running thread, so that a loop that does not end in two
    rounds never does. *)
Definition spin_fuel : nat := 2.

(** Memory barriers have no effect on the sequential state. *)
Definition rte_smp_wmb : M rte_ring unit := mret tt.
Definition rte_smp_rmb : M rte_ring unit := mret tt.

(** Spin until the word read by [load] has the expected value. *)
Definition rte_wait_until_equal_32 (load : rte_ring -> Z) (expected : Z) : M rte_ring unit :=
  fun r => r' ← while spin_fuel (fun r => negb (load r =? expected)) Some r ; Some (tt, r').

(** The capped number of elements: [n] when they fit, otherwise nothing or as
    many as there is room for. *)
Definition clip (behavior : rte_ring_queue_behavior) (n avail : Z) : Z :=
  if n >? avail
  then match behavior with
       | RTE_RING_QUEUE_FIXED => 0
       | RTE_RING_QUEUE_VARIABLE => avail
       end
  else n.

(** The atomic update of a side: [cas s get set old new] writes [new] and
    returns [true] when the value read is [old], and otherwise returns the
    value found. *)
Definition cas {V} `{EqDecision V} (s : ring_side) (load : rte_ring_headtail -> V)
  (store : V -> rte_ring_headtail -> rte_ring_headtail) (old new : V)
  : M rte_ring (bool * V) := fun r =>
  let v := load (side s r) in
  if decide (v = old) then Some ((true, old), set_side s (store new (side s r)) r)
  else Some ((false, v), r).

(** A plain store. *)
Definition store_side (s : ring_side) (f : rte_ring_headtail -> rte_ring_headtail)
  : M rte_ring unit :=
  modify (fun r => set_side s (f (side s r)) r).

(** ** Default protocol, generic variant *)
Module Generic.

Definition __rte_ring_update_tail (ht : ring_side) (old_val new_val single enqueue : Z)
  : M rte_ring unit :=
  (if truthy enqueue then rte_smp_wmb else rte_smp_rmb) ;;
  (* wait for the operations in progress that preceded us *)
  (if truthy single then mret tt
   else rte_wait_until_equal_32 (fun r => tail (side ht r)) old_val) ;;
  store_side ht (set_tail new_val).

(** The result is the number of elements, [*old_head], [*new_head] (not
    written when the number is 0) and [*free_entries]. *)
Definition __rte_ring_move_prod_head (is_sp n : Z) (behavior : rte_ring_queue_behavior)
  : M rte_ring (Z * Z * option Z * Z) :=
  let max := n in
  do_while spin_fuel (fun _ =>
    r ← get ;
    let old_head := head (prod r) in
    rte_smp_rmb ;;
    let free_entries := u32 (capacity r + tail (cons r) - old_head) in
    let n := clip behavior max free_entries in
    if n =? 0 then mret (inr (0, old_head, None, free_entries))
    else
      let new_head := u32 (old_head + n) in
      success ← (if truthy is_sp then store_side Prod (set_head new_head) ;; mret true
                 else fst <$> cas Prod head set_head old_head new_head) ;
      mret (if success : bool then inr (n, old_head, Some new_head, free_entries) else inl tt)) tt.

Definition __rte_ring_move_cons_head (is_sc n : Z) (behavior : rte_ring_queue_behavior)
  : M rte_ring (Z * Z * option Z * Z) :=
  let max := n in
  do_while spin_fuel (fun _ =>
    r ← get ;
    let old_head := head (cons r) in
    rte_smp_rmb ;;
    let entries := u32 (tail (prod r) - old_head) in
    let n := clip behavior max entries in
    if n =? 0 then mret (inr (0, old_head, None, entries))
    else
      let new_head := u32 (old_head + n) in
      success ← (if truthy is_sc then
                   store_side Cons (set_head new_head) ;; rte_smp_rmb ;; mret true
                 else fst <$> cas Cons head set_head old_head new_head) ;
      mret (if success : bool then inr (n, old_head, Some new_head, entries) else inl tt)) tt.
End Generic.

(** ** Default protocol, C11 variant *)
Module C11.

Definition __rte_ring_update_tail (ht : ring_side) (old_val new_val single enqueue : Z)
  : M rte_ring unit :=
  (if truthy single then mret tt
   else rte_wait_until_equal_32 (fun r => tail (side ht r)) old_val) ;;
  store_side ht (set_tail new_val).

(** [old_head] is a local variable of the loop: a failed compare-and-exchange
    stores the value it found there. *)
Definition __rte_ring_move_prod_head (is_sp n : Z) (behavior : rte_ring_queue_behavior)
  : M rte_ring (Z * Z * option Z * Z) :=
  let max := n in
  r ← get ;
  let capacity := capacity r in
  do_while spin_fuel (fun old_head =>
    r ← get ;
    let cons_tail := tail (cons r) in
    let free_entries := u32 (capacity + cons_tail - old_head) in
    let n := clip behavior max free_entries in
    if n =? 0 then mret (inr (0, old_head, None, free_entries))
    else
      let new_head := u32 (old_head + n) in
      '(success, old_head) ←
        (if truthy is_sp then store_side Prod (set_head new_head) ;; mret (true, old_head)
         else cas Prod head set_head old_head new_head) ;
      mret (if success : bool then inr (n, old_head, Some new_head, free_entries)
            else inl old_head)) (head (prod r)).

Definition __rte_ring_move_cons_head (is_sc n : Z) (behavior : rte_ring_queue_behavior)
  : M rte_ring (Z * Z * option Z * Z) :=
  let max := n in
  r ← get ;
  do_while spin_fuel (fun old_head =>
    r ← get ;
    let prod_tail := tail (prod r) in
    let entries := u32 (prod_tail - old_head) in
    let n := clip behavior max entries in
    if n =? 0 then mret (inr (0, old_head, None, entries))
    else
      let new_head := u32 (old_head + n) in
      '(success, old_head) ←
        (if truthy is_sc then store_side Cons (set_head new_head) ;; mret (true, old_head)
         else cas Cons head set_head old_head new_head) ;
      mret (if success : bool then inr (n, old_head, Some new_head, entries)
            else inl old_head)) (head (cons r)).
End C11.

(** ** Head/tail sync *)
Module HTS.

Definition __rte_ring_hts_update_tail (ht : ring_side) (old_tail num enqueue : Z)
  : M rte_ring unit :=
  let tail := u32 (old_tail + num) in
  store_side ht (set_tail tail).

(** Waits until no other user of the side is active; [p] is the caller's copy
    of the pair, reloaded in each round. *)
Definition __rte_ring_hts_head_wait (ht : ring_side) (p : __rte_ring_hts_pos)
  : M rte_ring __rte_ring_hts_pos := fun r =>
  p' ← while spin_fuel (fun p => negb (hp_head p =? hp_tail p))
         (fun _ => Some (hts_ht (side ht r))) p ;
  Some (p', r).

Definition __rte_ring_hts_move_prod_head (num : Z) (behavior : rte_ring_queue_behavior)
  : M rte_ring (Z * Z * Z) :=
  r ← get ;
  let capacity := capacity r in
  do_while spin_fuel (fun op =>
    op ← __rte_ring_hts_head_wait Prod op ;
    r ← get ;
    let free_entries := u32 (capacity + tail (cons r) - hp_head op) in
    let n := clip behavior num free_entries in
    if n =? 0 then mret (inr (n, hp_head op, free_entries))
    else
      let np := mk_hts_pos (u32 (hp_head op + n)) (hp_tail op) in
      '(success, op) ← cas Prod hts_ht set_hts_ht op np ;
      mret (if success : bool then inr (n, hp_head op, free_entries) else inl op))
    (hts_ht (prod r)).

Definition __rte_ring_hts_move_cons_head (num : Z) (behavior : rte_ring_queue_behavior)
  : M rte_ring (Z * Z * Z) :=
  r ← get ;
  do_while spin_fuel (fun op =>
    op ← __rte_ring_hts_head_wait Cons op ;
    r ← get ;
    let entries := u32 (tail (prod r) - hp_head op) in
    let n := clip behavior num entries in
    if n =? 0 then mret (inr (n, hp_head op, entries))
    else
      let np := mk_hts_pos (u32 (hp_head op + n)) (hp_tail op) in
      '(success, op) ← cas Cons hts_ht set_hts_ht op np ;
      mret (if success : bool then inr (n, hp_head op, entries) else inl op))
    (hts_ht (cons r)).
End HTS.

(** ** Relaxed tail sync *)
Module RTS.

Definition __rte_ring_rts_update_tail (ht : ring_side) : M rte_ring unit :=
  r ← get ;
  do_while spin_fuel (fun ot =>
    r ← get ;
    let h := rts_head (side ht r) in
    let cnt := u32 (pc_cnt ot + 1) in
    let nt := mk_poscnt cnt (if cnt =? pc_cnt h then pc_pos h else pc_pos ot) in
    '(success, ot) ← cas ht rts_tail set_rts_tail ot nt ;
    mret (if success : bool then inr tt else inl ot)) (rts_tail (side ht r)).

(** Waits until the distance between head and tail is at most [htd_max]. *)
Definition __rte_ring_rts_head_wait (ht : ring_side) (h : __rte_ring_rts_poscnt)
  : M rte_ring __rte_ring_rts_poscnt := fun r =>
  let max := htd_max (side ht r) in
  h' ← while spin_fuel (fun h => u32 (pc_pos h - pc_pos (rts_tail (side ht r))) >? max)
         (fun _ => Some (rts_head (side ht r))) h ;
  Some (h', r).

Definition __rte_ring_rts_move_prod_head (num : Z) (behavior : rte_ring_queue_behavior)
  : M rte_ring (Z * Z * Z) :=
  r ← get ;
  let capacity := capacity r in
  do_while spin_fuel (fun oh =>
    oh ← __rte_ring_rts_head_wait Prod oh ;
    r ← get ;
    let free_entries := u32 (capacity + tail (cons r) - pc_pos oh) in
    let n := clip behavior num free_entries in
    if n =? 0 then mret (inr (n, pc_pos oh, free_entries))
    else
      let nh := mk_poscnt (u32 (pc_cnt oh + 1)) (u32 (pc_pos oh + n)) in
      '(success, oh) ← cas Prod rts_head set_rts_head oh nh ;
      mret (if success : bool then inr (n, pc_pos oh, free_entries) else inl oh))
    (rts_head (prod r)).

Definition __rte_ring_rts_move_cons_head (num : Z) (behavior : rte_ring_queue_behavior)
  : M rte_ring (Z * Z * Z) :=
  r ← get ;
  do_while spin_fuel (fun oh =>
    oh ← __rte_ring_rts_head_wait Cons oh ;
    r ← get ;
    let entries := u32 (tail (prod r) - pc_pos oh) in
    let n := clip behavior num entries in
    if n =? 0 then mret (inr (n, pc_pos oh, entries))
    else
      let nh := mk_poscnt (u32 (pc_cnt oh + 1)) (u32 (pc_pos oh + n)) in
      '(success, oh) ← cas Cons rts_head set_rts_head oh nh ;
      mret (if success : bool then inr (n, pc_pos oh, entries) else inl oh))
    (rts_head (cons r)).
End RTS.

(** ** The interface of a head/tail protocol *)

(** The room a side sees: free entries for a producer, entries for a consumer. *)
Definition avail (s : ring_side) (r : rte_ring) : Z :=
  match s with
  | Prod => u32 (capacity r + tail (cons r) - tail (prod r))
  | Cons => u32 (tail (prod r) - tail (cons r))
  end.

(** [ht_move] reserves elements on a side and returns their number, the old
    head, what [ht_update] needs to know and the room before the move;
    [ht_update] publishes the reservation.  [quiet] describes a side nobody is
    using.  The law: on a quiet side, the move reserves the capped number of
    elements at the tail, and the update, in any ring with the same side,
    leaves the side quiet with the tail advanced by that number. *)
Class HeadTail := {
  tok : Type;
  ht_move : ring_side -> Z -> rte_ring_queue_behavior -> M rte_ring (Z * Z * tok * Z);
  ht_update : ring_side -> Z -> tok -> Z -> M rte_ring unit;
  quiet : rte_ring_headtail -> Prop;
  ht_law s r n b :
    quiet (side s r) -> fits 32 (tail (side s r)) ->
    let n' := clip b n (avail s r) in
    exists t h1,
      ht_move s n b r = Some (n', tail (side s r), t, avail s r, set_side s h1 r)
      /\ (n' = 0 -> h1 = side s r)
      /\ (n' <> 0 -> exists h2,
            quiet h2 /\ tail h2 = u32 (tail (side s r) + n')
            /\ sync_type h2 = sync_type (side s r)
            /\ forall r1, side s r1 = h1 ->
                 ht_update s (tail (side s r)) t n' r1 = Some (tt, set_side s h2 r1))
}.

(** ** Lemmas on the primitives *)

Lemma rte_wait_until_equal_32_eq load expected r :
  load r = expected -> rte_wait_until_equal_32 load expected r = Some (tt, r).
Proof. intros E. unfold rte_wait_until_equal_32. simpl. by rewrite E, Z.eqb_refl. Qed.

(** A wait for a value that is not there never returns, whatever the number
    of rounds. *)
Lemma wait_forever fuel (load : rte_ring -> Z) expected r :
  load r <> expected -> while fuel (fun r => negb (load r =? expected)) Some r = None.
Proof.
  intros E. induction fuel as [|fuel IH]; [done|]. simpl.
  apply Z.eqb_neq in E. by rewrite E.
Qed.

Lemma rte_wait_until_equal_32_ne load expected r :
  load r <> expected -> rte_wait_until_equal_32 load expected r = None.
Proof.
  intros E. unfold rte_wait_until_equal_32.
  by rewrite (wait_forever spin_fuel load expected r E).
Qed.

Lemma cas_ok {V} `{EqDecision V} s load store (old new : V) r :
  load (side s r) = old ->
  cas s load store old new r = Some (true, old, set_side s (store new (side s r)) r).
Proof. intros E. unfold cas. by rewrite decide_True. Qed.

Lemma clip_range b n a : 0 <= n -> 0 <= a -> 0 <= clip b n a <= n /\ clip b n a <= a.
Proof. intros. unfold clip. destruct (n >? a) eqn:E; [destruct b|]; lia. Qed.

Lemma set_side_same s r : set_side s (side s r) r = r.
Proof. by destruct s, r. Qed.

Lemma set_side_twice s h h' r : set_side s h (set_side s h' r) = set_side s h r.
Proof. by destruct s. Qed.

Lemma do_while_run {St A B} (b : A -> M St (A + B)) a s res s' :
  b a s = Some (inr res, s') -> do_while spin_fuel b a s = Some (res, s').
Proof. apply do_while_done. Qed.

(** ** The two variants of the default protocol coincide *)

Section default_variants.
Context (single n : Z) (b : rte_ring_queue_behavior) (r : rte_ring).

(** What the default protocol does in one uninterrupted round. *)
Definition default_move (s : ring_side) : option (Z * Z * option Z * Z * rte_ring) :=
  let old := head (side s r) in
  let a := match s with
           | Prod => u32 (capacity r + tail (cons r) - old)
           | Cons => u32 (tail (prod r) - old)
           end in
  let n' := clip b n a in
  if n' =? 0 then Some (0, old, None, a, r)
  else Some (n', old, Some (u32 (old + n')), a,
             set_side s (set_head (u32 (old + n')) (side s r)) r).

Lemma generic_move_prod_head : Generic.__rte_ring_move_prod_head single n b r = default_move Prod.
Proof.
  unfold Generic.__rte_ring_move_prod_head, default_move. simpl (side _ _). cbv zeta.
  set (n' := clip _ _ _). destruct (n' =? 0) eqn:E.
  - apply do_while_run. unfold mbind, M_bind; simpl. fold n'. by rewrite E.
  - apply do_while_run. unfold mbind, M_bind; simpl. fold n'. rewrite E.
    destruct (truthy single); [done|].
    unfold fmap, M_fmap. by rewrite cas_ok by done.
Qed.

Lemma generic_move_cons_head : Generic.__rte_ring_move_cons_head single n b r = default_move Cons.
Proof.
  unfold Generic.__rte_ring_move_cons_head, default_move. simpl (side _ _). cbv zeta.
  set (n' := clip _ _ _). destruct (n' =? 0) eqn:E.
  - apply do_while_run. unfold mbind, M_bind; simpl. fold n'. by rewrite E.
  - apply do_while_run. unfold mbind, M_bind; simpl. fold n'. rewrite E.
    destruct (truthy single); [done|].
    unfold fmap, M_fmap. by rewrite cas_ok by done.
Qed.

Lemma c11_move_prod_head : C11.__rte_ring_move_prod_head single n b r = default_move Prod.
Proof.
  unfold C11.__rte_ring_move_prod_head, default_move. simpl (side _ _). cbv zeta.
  rewrite (mbind_run get _ r r r) by done.
  set (n' := clip _ _ _). destruct (n' =? 0) eqn:E.
  - apply do_while_run. unfold mbind, M_bind; simpl. fold n'. by rewrite E.
  - apply do_while_run. unfold mbind, M_bind; simpl. fold n'. rewrite E.
    destruct (truthy single); [done|]. by rewrite cas_ok by done.
Qed.

Lemma c11_move_cons_head : C11.__rte_ring_move_cons_head single n b r = default_move Cons.
Proof.
  unfold C11.__rte_ring_move_cons_head, default_move. simpl (side _ _). cbv zeta.
  rewrite (mbind_run get _ r r r) by done.
  set (n' := clip _ _ _). destruct (n' =? 0) eqn:E.
  - apply do_while_run. unfold mbind, M_bind; simpl. fold n'. by rewrite E.
  - apply do_while_run. unfold mbind, M_bind; simpl. fold n'. rewrite E.
    destruct (truthy single); [done|]. by rewrite cas_ok by done.
Qed.

Lemma update_tail_variants ht old_val new_val enqueue :
  C11.__rte_ring_update_tail ht old_val new_val single enqueue r
  = Generic.__rte_ring_update_tail ht old_val new_val single enqueue r.
Proof.
  unfold C11.__rte_ring_update_tail, Generic.__rte_ring_update_tail.
  by destruct (truthy enqueue).
Qed.
End default_variants.

(** The generic and the C11 variant of the default protocol compute the
    same function of every ring, quiet or not: the same number of reserved
    elements, the same heads, the same room and the same memory, for single
    and multiple producers and consumers, and for the update of the tail. *)
Theorem generic_c11_equivalent (single n : Z) (b : rte_ring_queue_behavior) (r : rte_ring)
  (ht : ring_side) (old_val new_val enqueue : Z) :
  C11.__rte_ring_move_prod_head single n b r = Generic.__rte_ring_move_prod_head single n b r
  /\ C11.__rte_ring_move_cons_head single n b r = Generic.__rte_ring_move_cons_head single n b r
  /\ C11.__rte_ring_update_tail ht old_val new_val single enqueue r
     = Generic.__rte_ring_update_tail ht old_val new_val single enqueue r.
Proof.
  rewrite c11_move_prod_head, c11_move_cons_head.
  rewrite generic_move_prod_head, generic_move_cons_head.
  split; [done|]. split; [done|]. apply update_tail_variants.
Qed.

(** With several producers or consumers the update of the tail waits for
    the operations that started before: while the tail has not reached the old
    head, it does not return, however long it spins; once it has, it stores
    the new tail. *)
Theorem update_tail_waits (ht : ring_side) (old_val new_val enqueue : Z) (r : rte_ring) :
  Generic.__rte_ring_update_tail ht old_val new_val RTE_RING_SYNC_MT enqueue r
  = if tail (side ht r) =? old_val
    then Some (tt, set_side ht (set_tail new_val (side ht r)) r)
    else None.
Proof.
  unfold Generic.__rte_ring_update_tail.
  rewrite (mbind_run _ _ r tt r) by (by destruct (truthy enqueue)).
  change (truthy RTE_RING_SYNC_MT) with false. cbv iota.
  destruct (tail (side ht r) =? old_val) eqn:E.
  - rewrite (mbind_run _ _ r tt r); [done|].
    apply rte_wait_until_equal_32_eq. lia.
  - unfold mbind, M_bind. rewrite rte_wait_until_equal_32_ne; [done|]. lia.
Qed.

(** ** The instances *)

Definition default_quiet (h : rte_ring_headtail) : Prop := head h = tail h.
Definition rts_quiet (h : rte_ring_headtail) : Prop :=
  rts_head h = rts_tail h /\ 0 <= htd_max h.

Lemma default_move_law s r n b :
  default_quiet (side s r) -> fits 32 (tail (side s r)) ->
  let n' := clip b n (avail s r) in
  let h1 := if n' =? 0 then side s r else set_head (u32 (tail (side s r) + n')) (side s r) in
  exists t, default_move n b r s = Some (n', tail (side s r), t, avail s r, set_side s h1 r)
    /\ (n' <> 0 -> t = Some (u32 (tail (side s r) + n'))).
Proof.
  intros E Hf. cbv zeta. unfold default_move. unfold default_quiet in E. rewrite E.
  replace (match s with Prod => u32 (capacity r + tail (cons r) - tail (side s r))
    | Cons => u32 (tail (prod r) - tail (side s r)) end) with (avail s r) by by destruct s.
  cbv zeta. set (n' := clip b n (avail s r)).
  destruct (n' =? 0) eqn:En.
  - exists None. rewrite set_side_same. split; [|lia]. do 5 f_equal. lia.
  - eexists. split; [|reflexivity]. done.
Qed.

Definition enqueue_flag (s : ring_side) : Z := match s with Prod => 1 | Cons => 0 end.

(** The update of the default protocol on a ring whose side is as the move
    left it. *)
Lemma generic_update_ok single s h r1 old nv e :
  side s r1 = h -> tail h = old ->
  Generic.__rte_ring_update_tail s old nv single e r1
  = Some (tt, set_side s (set_tail nv h) r1).
Proof.
  intros <- E. unfold Generic.__rte_ring_update_tail.
  rewrite (mbind_run _ _ r1 tt r1) by (by destruct (truthy e)).
  rewrite (mbind_run _ _ r1 tt r1); [done|].
  destruct (truthy single); [done|]. by apply rte_wait_until_equal_32_eq.
Qed.

Section default_instances.
Context (move : ring_side -> Z -> rte_ring_queue_behavior -> M rte_ring (Z * Z * option Z * Z)).
Context (update : ring_side -> Z -> Z -> M rte_ring unit).
Context (move_eq : forall s n b r, move s n b r = default_move n b r s).
Context (update_eq : forall s h r1 old nv, side s r1 = h -> tail h = old ->
  update s old nv r1 = Some (tt, set_side s (set_tail nv h) r1)).

Lemma default_law s r n b :
  default_quiet (side s r) -> fits 32 (tail (side s r)) ->
  let n' := clip b n (avail s r) in
  exists t h1,
    move s n b r = Some (n', tail (side s r), t, avail s r, set_side s h1 r)
    /\ (n' = 0 -> h1 = side s r)
    /\ (n' <> 0 -> exists h2,
          default_quiet h2 /\ tail h2 = u32 (tail (side s r) + n')
          /\ sync_type h2 = sync_type (side s r)
          /\ forall r1, side s r1 = h1 ->
               match t with Some nv => update s (tail (side s r)) nv | None => ub end r1
               = Some (tt, set_side s h2 r1)).
Proof.
  intros Hq Hf n'. destruct (default_move_law s r n b Hq Hf) as (t & Hm & Ht).
  rewrite move_eq. eexists t, _. split; [exact Hm|]. fold n' in Ht |- *. split.
  - intros ->. done.
  - intros Hn. rewrite (Ht Hn). apply Z.eqb_neq in Hn. rewrite Hn.
    exists (set_tail (u32 (tail (side s r) + n'))
      (set_head (u32 (tail (side s r) + n')) (side s r))).
    do 3 (split; [done|]). intros r1 E. by apply update_eq.
Qed.
End default_instances.

Definition generic_move (single : Z) (s : ring_side) :=
  match s with
  | Prod => Generic.__rte_ring_move_prod_head single
  | Cons => Generic.__rte_ring_move_cons_head single
  end.

Definition c11_move (single : Z) (s : ring_side) :=
  match s with
  | Prod => C11.__rte_ring_move_prod_head single
  | Cons => C11.__rte_ring_move_cons_head single
  end.

#[refine] Instance generic_head_tail (single : Z) : HeadTail := {|
  tok := option Z;
  ht_move := generic_move single;
  ht_update s old t n :=
    match t with
    | Some nv => Generic.__rte_ring_update_tail s old nv single (enqueue_flag s)
    | None => ub
    end;
  quiet := default_quiet
|}.
Proof.
  intros s r n b. apply (default_law (generic_move single)
    (fun s old nv => Generic.__rte_ring_update_tail s old nv single (enqueue_flag s))).
  - intros [] *; [apply generic_move_prod_head|apply generic_move_cons_head].
  - intros *. apply generic_update_ok.
Defined.

#[refine] Instance c11_head_tail (single : Z) : HeadTail := {|
  tok := option Z;
  ht_move := c11_move single;
  ht_update s old t n :=
    match t with
    | Some nv => C11.__rte_ring_update_tail s old nv single (enqueue_flag s)
    | None => ub
    end;
  quiet := default_quiet
|}.
Proof.
  intros s r n b. apply (default_law (c11_move single)
    (fun s old nv => C11.__rte_ring_update_tail s old nv single (enqueue_flag s))).
  - intros [] *; [apply c11_move_prod_head|apply c11_move_cons_head].
  - intros *. rewrite update_tail_variants. apply generic_update_ok.
Defined.

Definition hts_move (s : ring_side) (n : Z) (b : rte_ring_queue_behavior)
  : M rte_ring (Z * Z * unit * Z) :=
  '(n, old, a) ← match s with
                 | Prod => HTS.__rte_ring_hts_move_prod_head n b
                 | Cons => HTS.__rte_ring_hts_move_cons_head n b
                 end ;
  mret (n, old, tt, a).

Lemma hts_head_wait_ok s p r :
  hp_head p = hp_tail p -> HTS.__rte_ring_hts_head_wait s p r = Some (p, r).
Proof. intros E. unfold HTS.__rte_ring_hts_head_wait. simpl. by rewrite E, Z.eqb_refl. Qed.

Definition hts_head_after (n old : Z) (h : rte_ring_headtail) : rte_ring_headtail :=
  if n =? 0 then h else set_hts_ht (mk_hts_pos (u32 (old + n)) (tail h)) h.

Lemma hts_move_ok s n b r :
  default_quiet (side s r) ->
  let n' := clip b n (avail s r) in
  let old := tail (side s r) in
  hts_move s n b r
  = Some (n', old, tt, avail s r, set_side s (hts_head_after n' old (side s r)) r).
Proof.
  intros Q. unfold default_quiet in Q. cbv zeta. unfold hts_move, hts_head_after.
  set (n' := clip _ _ _).
  assert (hp_head (hts_ht (side s r)) = hp_tail (hts_ht (side s r))) as Q' by done.
  assert (avail s r = match s with Prod => u32 (capacity r + tail (cons r) - head (side s r))
    | Cons => u32 (tail (prod r) - head (side s r)) end) as Ea
    by (rewrite Q; by destruct s).
  destruct s.
  - rewrite (mbind_run _ _ r (n', tail (prod r), avail Prod r)
      (set_side Prod (if n' =? 0 then side Prod r
         else set_hts_ht (mk_hts_pos (u32 (tail (prod r) + n')) (tail (prod r))) (prod r)) r)); [done|].
    unfold HTS.__rte_ring_hts_move_prod_head. rewrite (mbind_run get _ r r r) by done.
    apply do_while_run. rewrite (mbind_run _ _ r _ r (hts_head_wait_ok Prod _ r Q')).
    rewrite (mbind_run get _ r r r) by done. cbv zeta. cbn [side] in *.
    change (hp_head (hts_ht (prod r))) with (head (prod r)).
    change (hp_tail (hts_ht (prod r))) with (tail (prod r)).
    rewrite <- Ea. fold n'. rewrite Q.
    destruct (n' =? 0); [by rewrite (set_side_same Prod r : set_side Prod (prod r) r = r)|].
    unfold mbind, M_bind. rewrite cas_ok by done.
    change (hp_head (hts_ht (prod r))) with (head (prod r)). by rewrite Q.
  - rewrite (mbind_run _ _ r (n', tail (cons r), avail Cons r)
      (set_side Cons (if n' =? 0 then side Cons r
         else set_hts_ht (mk_hts_pos (u32 (tail (cons r) + n')) (tail (cons r))) (cons r)) r)); [done|].
    unfold HTS.__rte_ring_hts_move_cons_head. rewrite (mbind_run get _ r r r) by done.
    apply do_while_run. rewrite (mbind_run _ _ r _ r (hts_head_wait_ok Cons _ r Q')).
    rewrite (mbind_run get _ r r r) by done. cbv zeta. cbn [side] in *.
    change (hp_head (hts_ht (cons r))) with (head (cons r)).
    change (hp_tail (hts_ht (cons r))) with (tail (cons r)).
    rewrite <- Ea. fold n'. rewrite Q.
    destruct (n' =? 0); [by rewrite (set_side_same Cons r : set_side Cons (cons r) r = r)|].
    unfold mbind, M_bind. rewrite cas_ok by done.
    change (hp_head (hts_ht (cons r))) with (head (cons r)). by rewrite Q.
Qed.

#[refine] Instance hts_head_tail : HeadTail := {|
  tok := unit;
  ht_move := hts_move;
  ht_update s old _ n := HTS.__rte_ring_hts_update_tail s old n (enqueue_flag s);
  quiet := default_quiet
|}.
Proof.
  intros s r n b Hq Hf n'. eexists tt, _. split; [by apply hts_move_ok|].
  fold n'. unfold hts_head_after. split; [by intros ->|].
  intros Hn. apply Z.eqb_neq in Hn. rewrite Hn.
  eexists (set_tail (u32 (tail (side s r) + n'))
    (set_hts_ht (mk_hts_pos (u32 (tail (side s r) + n')) (tail (side s r))) (side s r))).
  do 3 (split; [done|]). intros r1 E. unfold HTS.__rte_ring_hts_update_tail, store_side, modify.
  by rewrite E.
Defined.

Definition rts_move (s : ring_side) (n : Z) (b : rte_ring_queue_behavior)
  : M rte_ring (Z * Z * unit * Z) :=
  '(n, old, a) ← match s with
                 | Prod => RTS.__rte_ring_rts_move_prod_head n b
                 | Cons => RTS.__rte_ring_rts_move_cons_head n b
                 end ;
  mret (n, old, tt, a).

Lemma rts_head_wait_ok s r :
  rts_quiet (side s r) ->
  RTS.__rte_ring_rts_head_wait s (rts_head (side s r)) r = Some (rts_head (side s r), r).
Proof.
  intros [E Hm]. unfold RTS.__rte_ring_rts_head_wait, spin_fuel. cbn [while].
  rewrite E, Z.sub_diag. change (u32 0) with 0.
  by replace (0 >? htd_max (side s r)) with false by lia.
Qed.

Definition rts_head_after (n : Z) (h : rte_ring_headtail) : rte_ring_headtail :=
  if n =? 0 then h
  else set_rts_head (mk_poscnt (u32 (pc_cnt (rts_tail h) + 1)) (u32 (tail h + n))) h.

Lemma rts_move_ok s n b r :
  rts_quiet (side s r) ->
  let n' := clip b n (avail s r) in
  rts_move s n b r
  = Some (n', tail (side s r), tt, avail s r, set_side s (rts_head_after n' (side s r)) r).
Proof.
  intros Q. cbv zeta. unfold rts_move, rts_head_after. set (n' := clip _ _ _).
  pose proof (rts_head_wait_ok s r Q) as Hw. destruct Q as [Q _].
  assert (pc_pos (rts_head (side s r)) = tail (side s r)) as Qp by (by rewrite Q).
  assert (avail s r = match s with Prod => u32 (capacity r + tail (cons r) - tail (side s r))
    | Cons => u32 (tail (prod r) - tail (side s r)) end) as Ea by by destruct s.
  destruct s; cbn [side] in *.
  - rewrite (mbind_run _ _ r (n', tail (prod r), avail Prod r)
      (set_side Prod (rts_head_after n' (prod r)) r)); [done|].
    unfold RTS.__rte_ring_rts_move_prod_head. rewrite (mbind_run get _ r r r) by done.
    apply do_while_run. rewrite (mbind_run _ _ r _ r Hw).
    rewrite (mbind_run get _ r r r) by done. cbv zeta. rewrite Qp, <- Ea. fold n'.
    unfold rts_head_after.
    destruct (n' =? 0); [by rewrite (set_side_same Prod r : set_side Prod (prod r) r = r)|].
    unfold mbind, M_bind. rewrite cas_ok by done. rewrite Qp. by rewrite Q.
  - rewrite (mbind_run _ _ r (n', tail (cons r), avail Cons r)
      (set_side Cons (rts_head_after n' (cons r)) r)); [done|].
    unfold RTS.__rte_ring_rts_move_cons_head. rewrite (mbind_run get _ r r r) by done.
    apply do_while_run. rewrite (mbind_run _ _ r _ r Hw).
    rewrite (mbind_run get _ r r r) by done. cbv zeta. rewrite Qp, <- Ea. fold n'.
    unfold rts_head_after.
    destruct (n' =? 0); [by rewrite (set_side_same Cons r : set_side Cons (cons r) r = r)|].
    unfold mbind, M_bind. rewrite cas_ok by done. rewrite Qp. by rewrite Q.
Qed.

#[refine] Instance rts_head_tail : HeadTail := {|
  tok := unit;
  ht_move := rts_move;
  ht_update s _ _ _ := RTS.__rte_ring_rts_update_tail s;
  quiet := rts_quiet
|}.
Proof.
  intros s r n b Hq Hf n'. eexists tt, _. split; [by apply rts_move_ok|].
  fold n'. unfold rts_head_after. split; [by intros ->|].
  intros Hn. apply Z.eqb_neq in Hn. rewrite Hn.
  set (p := mk_poscnt _ _). exists (set_rts_tail p (set_rts_head p (side s r))).
  split; [split; [done|apply Hq]|]. do 2 (split; [done|]).
  intros r1 E. unfold RTS.__rte_ring_rts_update_tail. rewrite (mbind_run get _ r1 r1 r1) by done.
  apply do_while_run. rewrite (mbind_run get _ r1 r1 r1) by done. cbv zeta.
  rewrite E. change (rts_head (set_rts_head p (side s r))) with p.
  change (rts_tail (set_rts_head p (side s r))) with (rts_tail (side s r)).
  rewrite Z.eqb_refl. unfold mbind, M_bind. rewrite cas_ok by (by rewrite E).
  by rewrite E.
Defined.
