(* ===== verification/RingElem.v ===== *)
(** * Enqueue and dequeue ([include/rte_ring_elem_pvt.h], [rte_ring_elem.h],
    [rte_ring_hts_elem_pvt.h], [rte_ring_hts.h], [rte_ring_rts_elem_pvt.h],
    [rte_ring_rts.h], [rte_ring.h]).

    An enqueue returns the number of elements it stored and, when the caller
    asks for it ([free_space] is a pointer that is not NULL), the free space
    after it.  A dequeue returns moreover the object table it filled.  The
    object table is an array of 32-bit words, an object pointer two of them. *)
From stdpp Require Import prelude list numbers.
From S2P Require Import Prelude RingCore RingCopy RingHeadTail.
Open Scope Z_scope.

Definition ENOENT : Z := 2.
Definition ENOTSUP : Z := 95.
Definition ENOBUFS : Z := 105.
Definition UINT32_MAX : Z := 2 ^ 32 - 1.

(** A store through an optional out pointer. *)
Definition store_opt (wanted : bool) (v : Z) : option Z :=
  if wanted then Some v else None.

Definition elems_in (head : Z) (obj_table : list Z) (esize n : Z) : M rte_ring unit :=
  fun r => r' ← __rte_ring_enqueue_elems r head obj_table esize n ; Some (tt, r').

Definition elems_out (head : Z) (obj_table : list Z) (esize n : Z) : M rte_ring (list Z) :=
  fun r => o ← __rte_ring_dequeue_elems r head obj_table esize n ; Some (o, r).

(** ** The internal functions of the three protocols *)

Definition __rte_ring_do_enqueue_elem (obj_table : list Z) (esize n : Z)
  (behavior : rte_ring_queue_behavior) (is_sp : Z) (free_space : bool)
  : M rte_ring (Z * option Z) :=
  '(n, prod_head, prod_next, free_entries) ←
    Generic.__rte_ring_move_prod_head is_sp n behavior ;
  (if n =? 0 then mret tt
   else
     elems_in prod_head obj_table esize n ;;
     prod_next ← lift prod_next ;
     Generic.__rte_ring_update_tail Prod prod_head prod_next is_sp 1) ;;
  mret (n, store_opt free_space (u32 (free_entries - n))).

Definition __rte_ring_do_dequeue_elem (obj_table : list Z) (esize n : Z)
  (behavior : rte_ring_queue_behavior) (is_sc : Z) (available : bool)
  : M rte_ring (Z * list Z * option Z) :=
  '(n, cons_head, cons_next, entries) ←
    Generic.__rte_ring_move_cons_head is_sc n behavior ;
  obj_table ←
    (if n =? 0 then mret obj_table
     else
       obj_table ← elems_out cons_head obj_table esize n ;
       cons_next ← lift cons_next ;
       Generic.__rte_ring_update_tail Cons cons_head cons_next is_sc 0 ;;
       mret obj_table) ;
  mret (n, obj_table, store_opt available (u32 (entries - n))).

Definition __rte_ring_do_hts_enqueue_elem (obj_table : list Z) (esize n : Z)
  (behavior : rte_ring_queue_behavior) (free_space : bool) : M rte_ring (Z * option Z) :=
  '(n, head, free) ← HTS.__rte_ring_hts_move_prod_head n behavior ;
  (if negb (n =? 0) then
     elems_in head obj_table esize n ;;
     HTS.__rte_ring_hts_update_tail Prod head n 1
   else mret tt) ;;
  mret (n, store_opt free_space (u32 (free - n))).

Definition __rte_ring_do_hts_dequeue_elem (obj_table : list Z) (esize n : Z)
  (behavior : rte_ring_queue_behavior) (available : bool)
  : M rte_ring (Z * list Z * option Z) :=
  '(n, head, entries) ← HTS.__rte_ring_hts_move_cons_head n behavior ;
  obj_table ←
    (if negb (n =? 0) then
       obj_table ← elems_out head obj_table esize n ;
       HTS.__rte_ring_hts_update_tail Cons head n 0 ;;
       mret obj_table
     else mret obj_table) ;
  mret (n, obj_table, store_opt available (u32 (entries - n))).

Definition __rte_ring_do_rts_enqueue_elem (obj_table : list Z) (esize n : Z)
  (behavior : rte_ring_queue_behavior) (free_space : bool) : M rte_ring (Z * option Z) :=
  '(n, head, free) ← RTS.__rte_ring_rts_move_prod_head n behavior ;
  (if negb (n =? 0) then
     elems_in head obj_table esize n ;;
     RTS.__rte_ring_rts_update_tail Prod
   else mret tt) ;;
  mret (n, store_opt free_space (u32 (free - n))).

Definition __rte_ring_do_rts_dequeue_elem (obj_table : list Z) (esize n : Z)
  (behavior : rte_ring_queue_behavior) (available : bool)
  : M rte_ring (Z * list Z * option Z) :=
  '(n, head, entries) ← RTS.__rte_ring_rts_move_cons_head n behavior ;
  obj_table ←
    (if negb (n =? 0) then
       obj_table ← elems_out head obj_table esize n ;
       RTS.__rte_ring_rts_update_tail Cons ;;
       mret obj_table
     else mret obj_table) ;
  mret (n, obj_table, store_opt available (u32 (entries - n))).

(** ** Relaxed tail sync ([rte_ring_rts.h]) *)

Definition rte_ring_mp_rts_enqueue_bulk_elem (obj_table : list Z) (esize n : Z) (free_space : bool)
  : M rte_ring (Z * option Z) :=
  __rte_ring_do_rts_enqueue_elem obj_table esize n RTE_RING_QUEUE_FIXED free_space.

Definition rte_ring_mc_rts_dequeue_bulk_elem (obj_table : list Z) (esize n : Z) (available : bool)
  : M rte_ring (Z * list Z * option Z) :=
  __rte_ring_do_rts_dequeue_elem obj_table esize n RTE_RING_QUEUE_FIXED available.

Definition rte_ring_mp_rts_enqueue_burst_elem (obj_table : list Z) (esize n : Z) (free_space : bool)
  : M rte_ring (Z * option Z) :=
  __rte_ring_do_rts_enqueue_elem obj_table esize n RTE_RING_QUEUE_VARIABLE free_space.

Definition rte_ring_mc_rts_dequeue_burst_elem (obj_table : list Z) (esize n : Z) (available : bool)
  : M rte_ring (Z * list Z * option Z) :=
  __rte_ring_do_rts_dequeue_elem obj_table esize n RTE_RING_QUEUE_VARIABLE available.

Definition rte_ring_mp_rts_enqueue_bulk (obj_table : list Z) (n : Z) (free_space : bool)
  : M rte_ring (Z * option Z) :=
  rte_ring_mp_rts_enqueue_bulk_elem obj_table 8 n free_space.

Definition rte_ring_mc_rts_dequeue_bulk (obj_table : list Z) (n : Z) (available : bool)
  : M rte_ring (Z * list Z * option Z) :=
  rte_ring_mc_rts_dequeue_bulk_elem obj_table 8 n available.

Definition rte_ring_mp_rts_enqueue_burst (obj_table : list Z) (n : Z) (free_space : bool)
  : M rte_ring (Z * option Z) :=
  rte_ring_mp_rts_enqueue_burst_elem obj_table 8 n free_space.

Definition rte_ring_mc_rts_dequeue_burst (obj_table : list Z) (n : Z) (available : bool)
  : M rte_ring (Z * list Z * option Z) :=
  rte_ring_mc_rts_dequeue_burst_elem obj_table 8 n available.

Definition set_htd_max (v : Z) (h : rte_ring_headtail) : rte_ring_headtail :=
  mk_headtail (ht_w0 h) (ht_w1 h) (sync_type h) v (rts_head_w0 h) (rts_head_w1 h).

Definition rte_ring_get_prod_htd_max (r : rte_ring) : Z :=
  if sync_type (prod r) =? RTE_RING_SYNC_MT_RTS then htd_max (prod r) else UINT32_MAX.

Definition rte_ring_set_prod_htd_max (v : Z) : M rte_ring Z :=
  r ← get ;
  if negb (sync_type (prod r) =? RTE_RING_SYNC_MT_RTS) then mret (- ENOTSUP)
  else store_side Prod (set_htd_max v) ;; mret 0.

Definition rte_ring_get_cons_htd_max (r : rte_ring) : Z :=
  if sync_type (cons r) =? RTE_RING_SYNC_MT_RTS then htd_max (cons r) else UINT32_MAX.

Definition rte_ring_set_cons_htd_max (v : Z) : M rte_ring Z :=
  r ← get ;
  if negb (sync_type (cons r) =? RTE_RING_SYNC_MT_RTS) then mret (- ENOTSUP)
  else store_side Cons (set_htd_max v) ;; mret 0.

(** ** Head/tail sync ([rte_ring_hts.h]) *)

Definition rte_ring_mp_hts_enqueue_bulk_elem (obj_table : list Z) (esize n : Z) (free_space : bool)
  : M rte_ring (Z * option Z) :=
  __rte_ring_do_hts_enqueue_elem obj_table esize n RTE_RING_QUEUE_FIXED free_space.

Definition rte_ring_mc_hts_dequeue_bulk_elem (obj_table : list Z) (esize n : Z) (available : bool)
  : M rte_ring (Z * list Z * option Z) :=
  __rte_ring_do_hts_dequeue_elem obj_table esize n RTE_RING_QUEUE_FIXED available.

Definition rte_ring_mp_hts_enqueue_burst_elem (obj_table : list Z) (esize n : Z) (free_space : bool)
  : M rte_ring (Z * option Z) :=
  __rte_ring_do_hts_enqueue_elem obj_table esize n RTE_RING_QUEUE_VARIABLE free_space.

Definition rte_ring_mc_hts_dequeue_burst_elem (obj_table : list Z) (esize n : Z) (available : bool)
  : M rte_ring (Z * list Z * option Z) :=
  __rte_ring_do_hts_dequeue_elem obj_table esize n RTE_RING_QUEUE_VARIABLE available.

Definition rte_ring_mp_hts_enqueue_bulk (obj_table : list Z) (n : Z) (free_space : bool)
  : M rte_ring (Z * option Z) :=
  rte_ring_mp_hts_enqueue_bulk_elem obj_table 8 n free_space.

Definition rte_ring_mc_hts_dequeue_bulk (obj_table : list Z) (n : Z) (available : bool)
  : M rte_ring (Z * list Z * option Z) :=
  rte_ring_mc_hts_dequeue_bulk_elem obj_table 8 n available.

Definition rte_ring_mp_hts_enqueue_burst (obj_table : list Z) (n : Z) (free_space : bool)
  : M rte_ring (Z * option Z) :=
  rte_ring_mp_hts_enqueue_burst_elem obj_table 8 n free_space.

Definition rte_ring_mc_hts_dequeue_burst (obj_table : list Z) (n : Z) (available : bool)
  : M rte_ring (Z * list Z * option Z) :=
  rte_ring_mc_hts_dequeue_burst_elem obj_table 8 n available.

(** ** The API on elements ([rte_ring_elem.h]) *)

Definition rte_ring_mp_enqueue_bulk_elem (obj_table : list Z) (esize n : Z) (free_space : bool)
  : M rte_ring (Z * option Z) :=
  __rte_ring_do_enqueue_elem obj_table esize n RTE_RING_QUEUE_FIXED RTE_RING_SYNC_MT free_space.

Definition rte_ring_sp_enqueue_bulk_elem (obj_table : list Z) (esize n : Z) (free_space : bool)
  : M rte_ring (Z * option Z) :=
  __rte_ring_do_enqueue_elem obj_table esize n RTE_RING_QUEUE_FIXED RTE_RING_SYNC_ST free_space.

(** The switch on [r->prod.sync_type]; any other value stores nothing. *)
Definition rte_ring_enqueue_bulk_elem (obj_table : list Z) (esize n : Z) (free_space : bool)
  : M rte_ring (Z * option Z) :=
  r ← get ;
  let t := sync_type (prod r) in
  if t =? RTE_RING_SYNC_MT then rte_ring_mp_enqueue_bulk_elem obj_table esize n free_space
  else if t =? RTE_RING_SYNC_ST then rte_ring_sp_enqueue_bulk_elem obj_table esize n free_space
  else if t =? RTE_RING_SYNC_MT_RTS then
    rte_ring_mp_rts_enqueue_bulk_elem obj_table esize n free_space
  else if t =? RTE_RING_SYNC_MT_HTS then
    rte_ring_mp_hts_enqueue_bulk_elem obj_table esize n free_space
  else mret (0, store_opt free_space 0).

Definition rte_ring_mc_dequeue_bulk_elem (obj_table : list Z) (esize n : Z) (available : bool)
  : M rte_ring (Z * list Z * option Z) :=
  __rte_ring_do_dequeue_elem obj_table esize n RTE_RING_QUEUE_FIXED RTE_RING_SYNC_MT available.

Definition rte_ring_sc_dequeue_bulk_elem (obj_table : list Z) (esize n : Z) (available : bool)
  : M rte_ring (Z * list Z * option Z) :=
  __rte_ring_do_dequeue_elem obj_table esize n RTE_RING_QUEUE_FIXED RTE_RING_SYNC_ST available.

Definition rte_ring_dequeue_bulk_elem (obj_table : list Z) (esize n : Z) (available : bool)
  : M rte_ring (Z * list Z * option Z) :=
  r ← get ;
  let t := sync_type (cons r) in
  if t =? RTE_RING_SYNC_MT then rte_ring_mc_dequeue_bulk_elem obj_table esize n available
  else if t =? RTE_RING_SYNC_ST then rte_ring_sc_dequeue_bulk_elem obj_table esize n available
  else if t =? RTE_RING_SYNC_MT_RTS then
    rte_ring_mc_rts_dequeue_bulk_elem obj_table esize n available
  else if t =? RTE_RING_SYNC_MT_HTS then
    rte_ring_mc_hts_dequeue_bulk_elem obj_table esize n available
  else mret (0, obj_table, store_opt available 0).

Definition rte_ring_mp_enqueue_burst_elem (obj_table : list Z) (esize n : Z) (free_space : bool)
  : M rte_ring (Z * option Z) :=
  __rte_ring_do_enqueue_elem obj_table esize n RTE_RING_QUEUE_VARIABLE RTE_RING_SYNC_MT free_space.

Definition rte_ring_sp_enqueue_burst_elem (obj_table : list Z) (esize n : Z) (free_space : bool)
  : M rte_ring (Z * option Z) :=
  __rte_ring_do_enqueue_elem obj_table esize n RTE_RING_QUEUE_VARIABLE RTE_RING_SYNC_ST free_space.

(** The switch on [r->prod.sync_type]; any other value stores nothing. *)
Definition rte_ring_enqueue_burst_elem (obj_table : list Z) (esize n : Z) (free_space : bool)
  : M rte_ring (Z * option Z) :=
  r ← get ;
  let t := sync_type (prod r) in
  if t =? RTE_RING_SYNC_MT then rte_ring_mp_enqueue_burst_elem obj_table esize n free_space
  else if t =? RTE_RING_SYNC_ST then rte_ring_sp_enqueue_burst_elem obj_table esize n free_space
  else if t =? RTE_RING_SYNC_MT_RTS then
    rte_ring_mp_rts_enqueue_burst_elem obj_table esize n free_space
  else if t =? RTE_RING_SYNC_MT_HTS then
    rte_ring_mp_hts_enqueue_burst_elem obj_table esize n free_space
  else mret (0, store_opt free_space 0).

Definition rte_ring_mc_dequeue_burst_elem (obj_table : list Z) (esize n : Z) (available : bool)
  : M rte_ring (Z * list Z * option Z) :=
  __rte_ring_do_dequeue_elem obj_table esize n RTE_RING_QUEUE_VARIABLE RTE_RING_SYNC_MT available.

Definition rte_ring_sc_dequeue_burst_elem (obj_table : list Z) (esize n : Z) (available : bool)
  : M rte_ring (Z * list Z * option Z) :=
  __rte_ring_do_dequeue_elem obj_table esize n RTE_RING_QUEUE_VARIABLE RTE_RING_SYNC_ST available.

Definition rte_ring_dequeue_burst_elem (obj_table : list Z) (esize n : Z) (available : bool)
  : M rte_ring (Z * list Z * option Z) :=
  r ← get ;
  let t := sync_type (cons r) in
  if t =? RTE_RING_SYNC_MT then rte_ring_mc_dequeue_burst_elem obj_table esize n available
  else if t =? RTE_RING_SYNC_ST then rte_ring_sc_dequeue_burst_elem obj_table esize n available
  else if t =? RTE_RING_SYNC_MT_RTS then
    rte_ring_mc_rts_dequeue_burst_elem obj_table esize n available
  else if t =? RTE_RING_SYNC_MT_HTS then
    rte_ring_mc_hts_dequeue_burst_elem obj_table esize n available
  else mret (0, obj_table, store_opt available 0).

Definition rte_ring_mp_enqueue_elem (obj : list Z) (esize : Z) : M rte_ring Z :=
  '(n, _) ← rte_ring_mp_enqueue_bulk_elem obj esize 1 false ;
  mret (if truthy n then 0 else - ENOBUFS).

Definition rte_ring_sp_enqueue_elem (obj : list Z) (esize : Z) : M rte_ring Z :=
  '(n, _) ← rte_ring_sp_enqueue_bulk_elem obj esize 1 false ;
  mret (if truthy n then 0 else - ENOBUFS).

Definition rte_ring_enqueue_elem (obj : list Z) (esize : Z) : M rte_ring Z :=
  '(n, _) ← rte_ring_enqueue_bulk_elem obj esize 1 false ;
  mret (if truthy n then 0 else - ENOBUFS).

Definition rte_ring_mc_dequeue_elem (obj_p : list Z) (esize : Z) : M rte_ring (Z * list Z) :=
  '(n, obj_p, _) ← rte_ring_mc_dequeue_bulk_elem obj_p esize 1 false ;
  mret (if truthy n then 0 else - ENOENT, obj_p).

Definition rte_ring_sc_dequeue_elem (obj_p : list Z) (esize : Z) : M rte_ring (Z * list Z) :=
  '(n, obj_p, _) ← rte_ring_sc_dequeue_bulk_elem obj_p esize 1 false ;
  mret (if truthy n then 0 else - ENOENT, obj_p).

Definition rte_ring_dequeue_elem (obj_p : list Z) (esize : Z) : M rte_ring (Z * list Z) :=
  '(n, obj_p, _) ← rte_ring_dequeue_bulk_elem obj_p esize 1 false ;
  mret (if truthy n then 0 else - ENOENT, obj_p).

(** ** The API on object pointers ([rte_ring.h]) *)

Definition rte_ring_mp_enqueue_bulk (obj_table : list Z) (n : Z) (free_space : bool)
  : M rte_ring (Z * option Z) :=
  rte_ring_mp_enqueue_bulk_elem obj_table 8 n free_space.

Definition rte_ring_mc_dequeue_bulk (obj_table : list Z) (n : Z) (available : bool)
  : M rte_ring (Z * list Z * option Z) :=
  rte_ring_mc_dequeue_bulk_elem obj_table 8 n available.

Definition rte_ring_sp_enqueue_bulk (obj_table : list Z) (n : Z) (free_space : bool)
  : M rte_ring (Z * option Z) :=
  rte_ring_sp_enqueue_bulk_elem obj_table 8 n free_space.

Definition rte_ring_sc_dequeue_bulk (obj_table : list Z) (n : Z) (available : bool)
  : M rte_ring (Z * list Z * option Z) :=
  rte_ring_sc_dequeue_bulk_elem obj_table 8 n available.

Definition rte_ring_enqueue_bulk (obj_table : list Z) (n : Z) (free_space : bool)
  : M rte_ring (Z * option Z) :=
  rte_ring_enqueue_bulk_elem obj_table 8 n free_space.

Definition rte_ring_dequeue_bulk (obj_table : list Z) (n : Z) (available : bool)
  : M rte_ring (Z * list Z * option Z) :=
  rte_ring_dequeue_bulk_elem obj_table 8 n available.

Definition rte_ring_mp_enqueue_burst (obj_table : list Z) (n : Z) (free_space : bool)
  : M rte_ring (Z * option Z) :=
  rte_ring_mp_enqueue_burst_elem obj_table 8 n free_space.

Definition rte_ring_mc_dequeue_burst (obj_table : list Z) (n : Z) (available : bool)
  : M rte_ring (Z * list Z * option Z) :=
  rte_ring_mc_dequeue_burst_elem obj_table 8 n available.

Definition rte_ring_sp_enqueue_burst (obj_table : list Z) (n : Z) (free_space : bool)
  : M rte_ring (Z * option Z) :=
  rte_ring_sp_enqueue_burst_elem obj_table 8 n free_space.

Definition rte_ring_sc_dequeue_burst (obj_table : list Z) (n : Z) (available : bool)
  : M rte_ring (Z * list Z * option Z) :=
  rte_ring_sc_dequeue_burst_elem obj_table 8 n available.

Definition rte_ring_enqueue_burst (obj_table : list Z) (n : Z) (free_space : bool)
  : M rte_ring (Z * option Z) :=
  rte_ring_enqueue_burst_elem obj_table 8 n free_space.

Definition rte_ring_dequeue_burst (obj_table : list Z) (n : Z) (available : bool)
  : M rte_ring (Z * list Z * option Z) :=
  rte_ring_dequeue_burst_elem obj_table 8 n available.

Definition rte_ring_mp_enqueue (obj : list Z) : M rte_ring Z :=
  rte_ring_mp_enqueue_elem obj 8.

Definition rte_ring_mc_dequeue (obj_p : list Z) : M rte_ring (Z * list Z) :=
  rte_ring_mc_dequeue_elem obj_p 8.

Definition rte_ring_sp_enqueue (obj : list Z) : M rte_ring Z :=
  rte_ring_sp_enqueue_elem obj 8.

Definition rte_ring_sc_dequeue (obj_p : list Z) : M rte_ring (Z * list Z) :=
  rte_ring_sc_dequeue_elem obj_p 8.

Definition rte_ring_enqueue (obj : list Z) : M rte_ring Z :=
  rte_ring_enqueue_elem obj 8.

Definition rte_ring_dequeue (obj_p : list Z) : M rte_ring (Z * list Z) :=
  rte_ring_dequeue_elem obj_p 8.
