(* ===== verification/RingSpec.v ===== *)
(** * A ring is a bounded FIFO queue.

    The abstract queue has a capacity and the list of its elements; enqueue
    appends a prefix of the objects, dequeue removes a prefix of the queue,
    both capped by [clip].  The refinement theorems show that every ring
    operation that runs without interference on a well-formed ring, for every
    synchronisation type of either side and every element size, is the
    abstract operation, and that it keeps the ring well formed. *)
From stdpp Require Import prelude list numbers.
From S2P Require Import Prelude RingCore RingCopy RingHeadTail RingElem.
Open Scope Z_scope.

(** ** The abstract queue *)

Record queue := mk_queue { q_cap : Z; q_items : list (list Z) }.

Definition q_count (q : queue) : Z := Z.of_nat (length (q_items q)).
Definition q_free (q : queue) : Z := q_cap q - q_count q.

(** Enqueue at most [n] of [objs]: the number stored, the free space left. *)
Definition q_enqueue (b : rte_ring_queue_behavior) (n : Z) (objs : list (list Z)) (q : queue)
  : Z * Z * queue :=
  let n' := clip b n (q_free q) in
  (n', q_free q - n', mk_queue (q_cap q) (q_items q ++ take (Z.to_nat n') objs)).

(** Dequeue at most [n]: the number, the elements, the number of those left. *)
Definition q_dequeue (b : rte_ring_queue_behavior) (n : Z) (q : queue)
  : Z * list (list Z) * Z * queue :=
  let n' := clip b n (q_count q) in
  (n', take (Z.to_nat n') (q_items q), q_count q - n',
   mk_queue (q_cap q) (drop (Z.to_nat n') (q_items q))).

(** ** The abstraction of a ring *)

(** The first [n] elements of [w] words of a table. *)
Fixpoint chunks (w n : nat) (l : list Z) : list (list Z) :=
  match n with
  | O => []
  | Datatypes.S n' => take w l :: chunks w n' (drop w l)
  end.

Definition ring_entries (r : rte_ring) : Z := u32 (tail (prod r) - tail (cons r)).

(** The words between the two tails. *)
Definition ring_words (w : nat) (r : rte_ring) : list Z :=
  ring_get w (Z.to_nat (size r)) (slots r) (Z.to_nat (tail (cons r) mod size r))
    (Z.to_nat (ring_entries r)).

Definition ring_queue (w : nat) (r : rte_ring) : queue :=
  mk_queue (capacity r) (chunks w (Z.to_nat (ring_entries r)) (ring_words w r)).

(** Nobody is using the side, as its synchronisation type says it. *)
Definition side_quiet (h : rte_ring_headtail) : Prop :=
  (sync_type h ∈ [RTE_RING_SYNC_MT; RTE_RING_SYNC_ST; RTE_RING_SYNC_MT_HTS] /\ default_quiet h)
  \/ (sync_type h = RTE_RING_SYNC_MT_RTS /\ rts_quiet h).

Record ring_inv (w : nat) (r : rte_ring) : Prop := {
  inv_geom : ring_geom w r;
  inv_capacity : 0 <= capacity r < size r;
  inv_quiet s : side_quiet (side s r);
  inv_fits s : fits 32 (tail (side s r));
  inv_entries : ring_entries r <= capacity r
}.

(** ** Enqueue and dequeue over any protocol *)
Section sync.
Context `{HeadTail}.

Definition sync_enqueue (obj_table : list Z) (esize n : Z) (b : rte_ring_queue_behavior)
  (free_space : bool) : M rte_ring (Z * option Z) :=
  '(n, old, t, a) ← ht_move Prod n b ;
  (if n =? 0 then mret tt else elems_in old obj_table esize n ;; ht_update Prod old t n) ;;
  mret (n, store_opt free_space (u32 (a - n))).

Definition sync_dequeue (obj_table : list Z) (esize n : Z) (b : rte_ring_queue_behavior)
  (available : bool) : M rte_ring (Z * list Z * option Z) :=
  '(n, old, t, a) ← ht_move Cons n b ;
  obj_table ← (if n =? 0 then mret obj_table
               else o ← elems_out old obj_table esize n ; ht_update Cons old t n ;; mret o) ;
  mret (n, obj_table, store_opt available (u32 (a - n))).

Lemma sync_enqueue_run w r obj n b fs :
  ring_geom w r -> quiet (prod r) -> fits 32 (tail (prod r)) ->
  let n' := clip b n (avail Prod r) in
  0 <= n' <= size r -> (Z.to_nat n' * w <= length obj)%nat ->
  exists h, quiet h /\ tail h = u32 (tail (prod r) + n') /\ sync_type h = sync_type (prod r)
  /\ sync_enqueue obj (4 * Z.of_nat w) n b fs r
     = Some (n', store_opt fs (u32 (avail Prod r - n')),
             set_side Prod h (set_slots (ring_put w (Z.to_nat (size r)) (slots r)
               (Z.to_nat (tail (prod r))) (Z.to_nat n') obj) r)).
Proof.
  intros G Q F n' Hn Ho. destruct (ht_law Prod r n b Q F) as (t & h1 & Hm & H0 & H1).
  fold n' in Hm, H0, H1. unfold sync_enqueue. cbn [side] in *.
  rewrite (mbind_run _ _ _ _ _ Hm).
  destruct (n' =? 0) eqn:E.
  - apply Z.eqb_eq in E. rewrite (H0 E). exists (prod r). rewrite E, Z.add_0_r.
    rewrite wrap_small by done. split; [done|]. split; [done|]. split; [done|].
    simpl. by destruct r.
  - apply Z.eqb_neq in E. destruct (H1 E) as (h2 & Hq & Ht & Hs & Hu).
    exists h2. do 3 (split; [done|]).
    pose proof (enqueue_elems_put w (Z.to_nat n') (set_side Prod h1 r) (tail (prod r)) obj) as HP.
    rewrite Z2Nat.id in HP by lia.
    unfold mbind, M_bind, elems_in. rewrite HP; [|by destruct G|done|simpl; lia|done].
    simpl. rewrite Hu by done. done.
Qed.

Lemma sync_dequeue_run w r obj n b av :
  ring_geom w r -> quiet (cons r) -> fits 32 (tail (cons r)) ->
  let n' := clip b n (avail Cons r) in
  0 <= n' <= size r -> (Z.to_nat n' * w <= length obj)%nat ->
  exists h, quiet h /\ tail h = u32 (tail (cons r) + n') /\ sync_type h = sync_type (cons r)
  /\ sync_dequeue obj (4 * Z.of_nat w) n b av r
     = Some (n', splice obj 0 (ring_get w (Z.to_nat (size r)) (slots r)
               (Z.to_nat (tail (cons r))) (Z.to_nat n')),
             store_opt av (u32 (avail Cons r - n')), set_side Cons h r).
Proof.
  intros G Q F n' Hn Ho. destruct (ht_law Cons r n b Q F) as (t & h1 & Hm & H0 & H1).
  fold n' in Hm, H0, H1. unfold sync_dequeue. cbn [side] in *.
  rewrite (mbind_run _ _ _ _ _ Hm).
  destruct (n' =? 0) eqn:E.
  - apply Z.eqb_eq in E. rewrite (H0 E). exists (cons r). rewrite E, Z.add_0_r.
    rewrite wrap_small by done. do 3 (split; [done|]). simpl.
    unfold mbind, M_bind, mret, M_ret; simpl. by rewrite splice_nil.
  - apply Z.eqb_neq in E. destruct (H1 E) as (h2 & Hq & Ht & Hs & Hu).
    exists h2. do 3 (split; [done|]).
    pose proof (dequeue_elems_get w (Z.to_nat n') (set_side Cons h1 r) (tail (cons r)) obj) as HP.
    rewrite Z2Nat.id in HP by lia.
    unfold mbind, M_bind, elems_out. rewrite HP; [|by destruct G|done|simpl; lia|done].
    simpl. rewrite Hu by done. done.
Qed.
End sync.

(** ** The functions of the source are instances *)

Section instances.
Context (obj : list Z) (e n : Z) (b : rte_ring_queue_behavior) (r : rte_ring).

Lemma do_enqueue_sync is_sp fs :
  __rte_ring_do_enqueue_elem obj e n b is_sp fs r
  = sync_enqueue (H := generic_head_tail is_sp) obj e n b fs r.
Proof.
  unfold __rte_ring_do_enqueue_elem, sync_enqueue. simpl. unfold mbind, M_bind.
  destruct (Generic.__rte_ring_move_prod_head is_sp n b r) as [[[[[n' old] t] a] r1]|]; [|done].
  destruct (n' =? 0); [done|]. by destruct (elems_in old obj e n' r1) as [[[] r2]|], t.
Qed.

Lemma do_dequeue_sync is_sc av :
  __rte_ring_do_dequeue_elem obj e n b is_sc av r
  = sync_dequeue (H := generic_head_tail is_sc) obj e n b av r.
Proof.
  unfold __rte_ring_do_dequeue_elem, sync_dequeue. simpl. unfold mbind, M_bind.
  destruct (Generic.__rte_ring_move_cons_head is_sc n b r) as [[[[[n' old] t] a] r1]|]; [|done].
  destruct (n' =? 0); [done|]. by destruct (elems_out old obj e n' r1) as [[o r2]|], t.
Qed.

Lemma do_hts_enqueue_sync fs :
  __rte_ring_do_hts_enqueue_elem obj e n b fs r
  = sync_enqueue (H := hts_head_tail) obj e n b fs r.
Proof.
  unfold __rte_ring_do_hts_enqueue_elem, sync_enqueue. simpl. unfold hts_move, mbind, M_bind.
  destruct (HTS.__rte_ring_hts_move_prod_head n b r) as [[[[n' old] a] r1]|]; [|done].
  simpl. by destruct (n' =? 0).
Qed.

Lemma do_hts_dequeue_sync av :
  __rte_ring_do_hts_dequeue_elem obj e n b av r
  = sync_dequeue (H := hts_head_tail) obj e n b av r.
Proof.
  unfold __rte_ring_do_hts_dequeue_elem, sync_dequeue. simpl. unfold hts_move, mbind, M_bind.
  destruct (HTS.__rte_ring_hts_move_cons_head n b r) as [[[[n' old] a] r1]|]; [|done].
  simpl. by destruct (n' =? 0).
Qed.

Lemma do_rts_enqueue_sync fs :
  __rte_ring_do_rts_enqueue_elem obj e n b fs r
  = sync_enqueue (H := rts_head_tail) obj e n b fs r.
Proof.
  unfold __rte_ring_do_rts_enqueue_elem, sync_enqueue. simpl. unfold rts_move, mbind, M_bind.
  destruct (RTS.__rte_ring_rts_move_prod_head n b r) as [[[[n' old] a] r1]|]; [|done].
  simpl. by destruct (n' =? 0).
Qed.

Lemma do_rts_dequeue_sync av :
  __rte_ring_do_rts_dequeue_elem obj e n b av r
  = sync_dequeue (H := rts_head_tail) obj e n b av r.
Proof.
  unfold __rte_ring_do_rts_dequeue_elem, sync_dequeue. simpl. unfold rts_move, mbind, M_bind.
  destruct (RTS.__rte_ring_rts_move_cons_head n b r) as [[[[n' old] a] r1]|]; [|done].
  simpl. by destruct (n' =? 0).
Qed.
End instances.

(** ** The API of the source on a well-formed ring *)

(** The two behaviours are the bulk and the burst functions. *)
Definition enqueue_elem (b : rte_ring_queue_behavior) :=
  match b with
  | RTE_RING_QUEUE_FIXED => rte_ring_enqueue_bulk_elem
  | RTE_RING_QUEUE_VARIABLE => rte_ring_enqueue_burst_elem
  end.

Definition dequeue_elem (b : rte_ring_queue_behavior) :=
  match b with
  | RTE_RING_QUEUE_FIXED => rte_ring_dequeue_bulk_elem
  | RTE_RING_QUEUE_VARIABLE => rte_ring_dequeue_burst_elem
  end.

Lemma side_quiet_case h (P : Prop) :
  side_quiet h ->
  (sync_type h = RTE_RING_SYNC_MT -> default_quiet h -> P) ->
  (sync_type h = RTE_RING_SYNC_ST -> default_quiet h -> P) ->
  (sync_type h = RTE_RING_SYNC_MT_RTS -> rts_quiet h -> P) ->
  (sync_type h = RTE_RING_SYNC_MT_HTS -> default_quiet h -> P) -> P.
Proof.
  intros [[Hs Q]|[Hs Q]]; [|tauto].
  rewrite !elem_of_cons, elem_of_nil in Hs. destruct Hs as [|[|[|[]]]]; tauto.
Qed.

Lemma default_side_quiet h t :
  t ∈ [RTE_RING_SYNC_MT; RTE_RING_SYNC_ST; RTE_RING_SYNC_MT_HTS] ->
  sync_type h = t -> default_quiet h -> side_quiet h.
Proof. intros Ht <- Q. by left. Qed.

(** The dispatch of the source on the synchronisation type. *)
Ltac dispatch Hs :=
  unfold enqueue_elem, dequeue_elem, rte_ring_enqueue_bulk_elem, rte_ring_enqueue_burst_elem,
    rte_ring_dequeue_bulk_elem, rte_ring_dequeue_burst_elem;
  match goal with b : rte_ring_queue_behavior |- _ => destruct b end;
  match goal with r : rte_ring |- _ => rewrite (mbind_run get _ r r r), Hs by done end;
  reflexivity.

(** The side an instance leaves quiet is quiet for its synchronisation type. *)
Ltac quiet_side Hs :=
  let h := fresh "h" in let Q := fresh "Q" in let E := fresh "E" in
  intros h Q E; rewrite Hs in E;
  first [right; by split | left; split; [rewrite E; clear; set_solver|done]].

Section enqueue.
Context (w : nat) (r : rte_ring) (obj : list Z) (n : Z) (b : rte_ring_queue_behavior) (fs : bool).
Context (G : ring_geom w r) (F : fits 32 (tail (prod r))).
Let n' := clip b n (avail Prod r).
Context (Hn : 0 <= n' <= size r) (Ho : (Z.to_nat n' * w <= length obj)%nat).

Definition enqueued (h : rte_ring_headtail) : rte_ring :=
  set_side Prod h (set_slots (ring_put w (Z.to_nat (size r)) (slots r)
    (Z.to_nat (tail (prod r))) (Z.to_nat n') obj) r).

Lemma enqueue_via (H : HeadTail) (f : M rte_ring (Z * option Z)) :
  f r = sync_enqueue obj (4 * Z.of_nat w) n b fs r ->
  enqueue_elem b obj (4 * Z.of_nat w) n fs r = f r ->
  (forall h, quiet h -> sync_type h = sync_type (prod r) -> side_quiet h) ->
  quiet (prod r) ->
  exists h, side_quiet h /\ tail h = u32 (tail (prod r) + n')
  /\ enqueue_elem b obj (4 * Z.of_nat w) n fs r
     = Some (n', store_opt fs (u32 (avail Prod r - n')), enqueued h).
Proof.
  intros Ef Ee Hq Q.
  destruct (sync_enqueue_run w r obj n b fs G Q F Hn Ho) as (h & Hqh & Ht & Hsy & HR).
  exists h. rewrite Ee, Ef. auto.
Qed.

Lemma enqueue_elem_run :
  side_quiet (prod r) ->
  exists h, side_quiet h /\ tail h = u32 (tail (prod r) + n')
  /\ enqueue_elem b obj (4 * Z.of_nat w) n fs r
     = Some (n', store_opt fs (u32 (avail Prod r - n')), enqueued h).
Proof.
  intros Q. apply (side_quiet_case _ _ Q); clear Q; intros Hs Q.
  - apply (enqueue_via (generic_head_tail RTE_RING_SYNC_MT)
      (__rte_ring_do_enqueue_elem obj (4 * Z.of_nat w) n b RTE_RING_SYNC_MT fs));
      [apply do_enqueue_sync|dispatch Hs|quiet_side Hs|exact Q].
  - apply (enqueue_via (generic_head_tail RTE_RING_SYNC_ST)
      (__rte_ring_do_enqueue_elem obj (4 * Z.of_nat w) n b RTE_RING_SYNC_ST fs));
      [apply do_enqueue_sync|dispatch Hs|quiet_side Hs|exact Q].
  - apply (enqueue_via rts_head_tail
      (__rte_ring_do_rts_enqueue_elem obj (4 * Z.of_nat w) n b fs));
      [apply do_rts_enqueue_sync|dispatch Hs|quiet_side Hs|exact Q].
  - apply (enqueue_via hts_head_tail
      (__rte_ring_do_hts_enqueue_elem obj (4 * Z.of_nat w) n b fs));
      [apply do_hts_enqueue_sync|dispatch Hs|quiet_side Hs|exact Q].
Qed.
End enqueue.

Section dequeue.
Context (w : nat) (r : rte_ring) (obj : list Z) (n : Z) (b : rte_ring_queue_behavior) (av : bool).
Context (G : ring_geom w r) (F : fits 32 (tail (cons r))).
Let n' := clip b n (avail Cons r).
Context (Hn : 0 <= n' <= size r) (Ho : (Z.to_nat n' * w <= length obj)%nat).

Definition dequeued : list Z :=
  ring_get w (Z.to_nat (size r)) (slots r) (Z.to_nat (tail (cons r))) (Z.to_nat n').

Lemma dequeue_via (H : HeadTail) (f : M rte_ring (Z * list Z * option Z)) :
  f r = sync_dequeue obj (4 * Z.of_nat w) n b av r ->
  dequeue_elem b obj (4 * Z.of_nat w) n av r = f r ->
  (forall h, quiet h -> sync_type h = sync_type (cons r) -> side_quiet h) ->
  quiet (cons r) ->
  exists h, side_quiet h /\ tail h = u32 (tail (cons r) + n')
  /\ dequeue_elem b obj (4 * Z.of_nat w) n av r
     = Some (n', splice obj 0 dequeued, store_opt av (u32 (avail Cons r - n')),
             set_side Cons h r).
Proof.
  intros Ef Ee Hq Q.
  destruct (sync_dequeue_run w r obj n b av G Q F Hn Ho) as (h & Hqh & Ht & Hsy & HR).
  exists h. rewrite Ee, Ef. auto.
Qed.

Lemma dequeue_elem_run :
  side_quiet (cons r) ->
  exists h, side_quiet h /\ tail h = u32 (tail (cons r) + n')
  /\ dequeue_elem b obj (4 * Z.of_nat w) n av r
     = Some (n', splice obj 0 dequeued, store_opt av (u32 (avail Cons r - n')),
             set_side Cons h r).
Proof.
  intros Q. apply (side_quiet_case _ _ Q); clear Q; intros Hs Q.
  - apply (dequeue_via (generic_head_tail RTE_RING_SYNC_MT)
      (__rte_ring_do_dequeue_elem obj (4 * Z.of_nat w) n b RTE_RING_SYNC_MT av));
      [apply do_dequeue_sync|dispatch Hs|quiet_side Hs|exact Q].
  - apply (dequeue_via (generic_head_tail RTE_RING_SYNC_ST)
      (__rte_ring_do_dequeue_elem obj (4 * Z.of_nat w) n b RTE_RING_SYNC_ST av));
      [apply do_dequeue_sync|dispatch Hs|quiet_side Hs|exact Q].
  - apply (dequeue_via rts_head_tail
      (__rte_ring_do_rts_dequeue_elem obj (4 * Z.of_nat w) n b av));
      [apply do_rts_dequeue_sync|dispatch Hs|quiet_side Hs|exact Q].
  - apply (dequeue_via hts_head_tail
      (__rte_ring_do_hts_dequeue_elem obj (4 * Z.of_nat w) n b av));
      [apply do_hts_dequeue_sync|dispatch Hs|quiet_side Hs|exact Q].
Qed.
End dequeue.

(** ** Counting and contents *)

Lemma chunks_app w n m l k :
  length l = (n * w)%nat -> chunks w (n + m) (l ++ k) = chunks w n l ++ chunks w m k.
Proof.
  revert l. induction n as [|n IH]; intros l Hl; simpl in *.
  { by destruct l. }
  rewrite take_app_le, drop_app_le by lia. rewrite IH; [done|]. rewrite length_drop. lia.
Qed.

Lemma length_chunks w n l : length (chunks w n l) = n.
Proof. revert l. induction n; intros; simpl; auto. Qed.

Lemma take_chunks w n m l : (n <= m)%nat -> take n (chunks w m l) = chunks w n l.
Proof.
  revert m l. induction n as [|n IH]; intros m l Hm; [done|].
  destruct m as [|m]; [lia|]. simpl. by rewrite IH by lia.
Qed.

Lemma chunks_take w n l : chunks w n (take (n * w) l) = chunks w n l.
Proof.
  revert l. induction n as [|n IH]; intros l; [done|]. simpl.
  rewrite take_take, Nat.min_l by lia. f_equal.
  rewrite <- take_drop_commute. apply IH.
Qed.

Lemma drop_chunks w n m l : drop n (chunks w (n + m) l) = chunks w m (drop (n * w) l).
Proof.
  revert l. induction n as [|n IH]; intros l; [done|]. simpl. by rewrite IH, drop_drop.
Qed.

Section inv.
Context (w : nat) (r : rte_ring) (I : ring_inv w r).

Lemma entries_range : 0 <= ring_entries r <= capacity r.
Proof. split; [apply wrap_range; lia|apply I]. Qed.

Lemma size_range : 0 < size r <= 2 ^ 31.
Proof. eapply geom_size_pos, I. Qed.

Lemma avail_prod : avail Prod r = capacity r - ring_entries r.
Proof.
  pose proof entries_range. pose proof size_range. pose proof (inv_capacity _ _ I).
  unfold avail. transitivity (u32 (capacity r - ring_entries r)).
  - unfold ring_entries. rewrite wrap_sub_r. f_equal. lia.
  - apply wrap_small. unfold fits. lia.
Qed.

Lemma avail_cons : avail Cons r = ring_entries r.
Proof. done. Qed.

(** Advancing the producer tail by [k] adds [k] entries... *)
Lemma entries_advance_prod k :
  0 <= k -> ring_entries r + k <= capacity r ->
  u32 (u32 (tail (prod r) + k) - tail (cons r)) = ring_entries r + k.
Proof.
  intros. pose proof size_range. pose proof (inv_capacity _ _ I). pose proof entries_range.
  rewrite wrap_sub_l. transitivity (u32 (ring_entries r + k)).
  - unfold ring_entries. rewrite wrap_add_l. f_equal. lia.
  - apply wrap_small. unfold fits. lia.
Qed.

(** ... and advancing the consumer tail removes them. *)
Lemma entries_advance_cons k :
  0 <= k <= ring_entries r ->
  u32 (tail (prod r) - u32 (tail (cons r) + k)) = ring_entries r - k.
Proof.
  intros. pose proof size_range. pose proof (inv_capacity _ _ I). pose proof entries_range.
  rewrite wrap_sub_r. transitivity (u32 (ring_entries r - k)).
  - unfold ring_entries. rewrite wrap_sub_l. f_equal. lia.
  - apply wrap_small. unfold fits. lia.
Qed.

(** A 32-bit position advanced by [k] designates the slot [k] further. *)
Lemma position_advance p k :
  fits 32 p -> 0 <= k ->
  (Z.to_nat (u32 (p + k)) mod Z.to_nat (size r) = (Z.to_nat p + Z.to_nat k) mod Z.to_nat (size r))%nat.
Proof.
  intros Hp Hk. unfold fits in Hp. pose proof size_range.
  destruct (geom_log _ _ (inv_geom _ _ I)) as (q & Hq & Es).
  apply Nat2Z.inj. rewrite !Nat2Z.inj_mod, Nat2Z.inj_add, !Z2Nat.id; try lia; [|apply wrap_range; lia].
  unfold wrap. rewrite Es. rewrite Z.mod_mod_divide; [done|].
  exists (2 ^ (32 - Z.of_nat q)). rewrite <- Z.pow_add_r by lia. f_equal. lia.
Qed.

Lemma prod_position :
  (Z.to_nat (tail (prod r)) mod Z.to_nat (size r)
   = (Z.to_nat (tail (cons r)) + Z.to_nat (ring_entries r)) mod Z.to_nat (size r))%nat.
Proof.
  rewrite <- position_advance; [|apply (inv_fits _ _ I Cons)|apply entries_range].
  f_equal. f_equal. unfold ring_entries. rewrite wrap_add_r.
  replace (tail (cons r) + (tail (prod r) - tail (cons r))) with (tail (prod r)) by lia.
  symmetry. apply wrap_small, (inv_fits _ _ I Prod).
Qed.

Lemma words_length : (Z.to_nat (size r) * w <= length (slots r))%nat.
Proof. pose proof (geom_slots _ _ (inv_geom _ _ I)). lia. Qed.
End inv.

Lemma ring_words_eq w r : ring_geom w r -> fits 32 (tail (cons r)) ->
  ring_words w r = ring_get w (Z.to_nat (size r)) (slots r) (Z.to_nat (tail (cons r)))
                     (Z.to_nat (ring_entries r)).
Proof.
  intros G F. pose proof (geom_size_pos _ _ G). unfold fits in F.
  apply ring_get_congr. apply Nat2Z.inj.
  pose proof (Z.mod_pos_bound (tail (cons r)) (size r) ltac:(lia)).
  rewrite !Nat2Z.inj_mod, !Z2Nat.id by lia. by rewrite Z.mod_mod by lia.
Qed.

Lemma length_ring_words w r : ring_inv w r ->
  length (ring_words w r) = (Z.to_nat (ring_entries r) * w)%nat.
Proof.
  intros I. apply length_ring_get; [pose proof (size_range w r I); lia|by apply words_length].
Qed.

Lemma q_count_ring w r : ring_inv w r -> q_count (ring_queue w r) = ring_entries r.
Proof.
  intros I. unfold q_count. simpl. rewrite length_chunks.
  pose proof (entries_range w r I). lia.
Qed.

(** ** Preservation of the invariant and the contents *)

Section preserve.
Context (w : nat) (r : rte_ring) (I : ring_inv w r).

Lemma ring_geom_enqueued k obj h :
  (Z.to_nat k * w <= length obj)%nat ->
  ring_geom w (set_side Prod h (set_slots (ring_put w (Z.to_nat (size r)) (slots r)
    (Z.to_nat (tail (prod r))) (Z.to_nat k) obj) r)).
Proof.
  intros Ho. pose proof (size_range w r I). destruct I as [[GL GM GS GW GB] _ _ _ _].
  split; try done. simpl. rewrite length_ring_put; [done|lia|lia|done].
Qed.

Lemma ring_inv_enqueued k obj h :
  0 <= k <= capacity r - ring_entries r -> (Z.to_nat k * w <= length obj)%nat ->
  side_quiet h -> tail h = u32 (tail (prod r) + k) ->
  let r' := set_side Prod h (set_slots (ring_put w (Z.to_nat (size r)) (slots r)
    (Z.to_nat (tail (prod r))) (Z.to_nat k) obj) r) in
  ring_inv w r' /\ ring_entries r' = ring_entries r + k.
Proof.
  intros Hk Ho Hq Ht r'. pose proof (size_range w r I).
  assert (ring_entries r' = ring_entries r + k) as E.
  { unfold ring_entries at 1. simpl. rewrite Ht. eapply entries_advance_prod; [done|lia..]. }
  split; [|done]. pose proof (ring_geom_enqueued k obj h Ho). destruct I as [_ IC IQ IF IE]. split.
  - done.
  - done.
  - intros []; [done|apply (IQ Cons)].
  - intros []; simpl; [rewrite Ht; by apply wrap_fits|apply (IF Cons)].
  - rewrite E. simpl. lia.
Qed.

Lemma ring_words_enqueued k obj h :
  0 <= k <= capacity r - ring_entries r -> (Z.to_nat k * w <= length obj)%nat ->
  tail h = u32 (tail (prod r) + k) ->
  let r' := set_side Prod h (set_slots (ring_put w (Z.to_nat (size r)) (slots r)
    (Z.to_nat (tail (prod r))) (Z.to_nat k) obj) r) in
  ring_words w r' = ring_words w r ++ take (Z.to_nat k * w) obj.
Proof.
  intros Hk Ho Ht r'. pose proof (size_range w r I) as Hsz.
  pose proof (entries_range w r I) as He. pose proof (inv_capacity _ _ I) as Hc.
  pose proof (words_length w r I) as Hl.
  assert (ring_entries r' = ring_entries r + k) as E.
  { unfold ring_entries at 1. simpl. rewrite Ht. eapply entries_advance_prod; [done|lia..]. }
  rewrite !ring_words_eq by (apply I || apply (inv_fits _ _ I Cons)
    || exact (ring_geom_enqueued k obj h Ho)).
  rewrite E. simpl. rewrite Z2Nat.inj_add by lia.
  rewrite (ring_put_congr _ _ _ _ _ _ _ (prod_position w r I)).
  rewrite ring_get_add, ring_get_put_frame, ring_get_put_same; [done|lia..].
Qed.

Lemma ring_inv_dequeued k h :
  0 <= k <= ring_entries r -> side_quiet h -> tail h = u32 (tail (cons r) + k) ->
  ring_inv w (set_side Cons h r) /\ ring_entries (set_side Cons h r) = ring_entries r - k.
Proof.
  intros Hk Hq Ht.
  assert (ring_entries (set_side Cons h r) = ring_entries r - k) as E.
  { unfold ring_entries at 1. simpl. rewrite Ht. by eapply entries_advance_cons. }
  split; [|done]. destruct I as [[GL GM GS GW GB] IC IQ IF IE]. split.
  - by split.
  - done.
  - intros []; [apply (IQ Prod)|done].
  - intros []; simpl; [apply (IF Prod)|rewrite Ht; by apply wrap_fits].
  - rewrite E. simpl. lia.
Qed.

Lemma ring_words_dequeued k h :
  0 <= k <= ring_entries r -> tail h = u32 (tail (cons r) + k) ->
  ring_words w r
  = ring_get w (Z.to_nat (size r)) (slots r) (Z.to_nat (tail (cons r))) (Z.to_nat k)
    ++ ring_words w (set_side Cons h r).
Proof.
  intros Hk Ht.
  assert (ring_geom w (set_side Cons h r)) as G' by (destruct I as [[] _ _ _ _]; by split).
  rewrite (ring_words_eq w r), (ring_words_eq w (set_side Cons h r));
    [|exact G'|simpl; rewrite Ht; by apply wrap_fits|apply I|apply (inv_fits _ _ I Cons)].
  assert (ring_entries (set_side Cons h r) = ring_entries r - k) as ->.
  { unfold ring_entries at 1. simpl. rewrite Ht. by eapply entries_advance_cons. }
  replace (Z.to_nat (ring_entries r)) with (Z.to_nat k + Z.to_nat (ring_entries r - k))%nat by lia.
  rewrite ring_get_add. f_equal. apply ring_get_congr. simpl. rewrite Ht.
  symmetry. eapply position_advance; [done|apply (inv_fits _ _ I Cons)|lia].
Qed.

(** Publishing [k] elements appends them to the queue... *)
Lemma ring_queue_enqueued k obj h :
  0 <= k <= capacity r - ring_entries r -> (Z.to_nat k * w <= length obj)%nat ->
  side_quiet h -> tail h = u32 (tail (prod r) + k) ->
  ring_queue w (set_side Prod h (set_slots (ring_put w (Z.to_nat (size r)) (slots r)
    (Z.to_nat (tail (prod r))) (Z.to_nat k) obj) r))
  = mk_queue (capacity r) (q_items (ring_queue w r) ++ chunks w (Z.to_nat k) obj).
Proof.
  intros Hk Ho Hq Ht. pose proof (entries_range w r I).
  destruct (ring_inv_enqueued k obj h Hk Ho Hq Ht) as [_ E'].
  pose proof (ring_words_enqueued k obj h Hk Ho Ht) as W'. cbv zeta in *.
  unfold ring_queue. rewrite E', W'. simpl. f_equal. rewrite Z2Nat.inj_add by lia.
  rewrite chunks_app by (by apply length_ring_words). by rewrite chunks_take.
Qed.

(** ... and giving [k] elements back to the producer removes them. *)
Lemma ring_queue_dequeued k h :
  0 <= k <= ring_entries r -> side_quiet h -> tail h = u32 (tail (cons r) + k) ->
  ring_queue w (set_side Cons h r)
  = mk_queue (capacity r) (drop (Z.to_nat k) (q_items (ring_queue w r))).
Proof.
  intros Hk Hq Ht. pose proof (size_range w r I).
  destruct (ring_inv_dequeued k h Hk Hq Ht) as [_ E'].
  unfold ring_queue. cbn [q_items]. rewrite E', (ring_words_dequeued k h Hk Ht).
  replace (Z.to_nat (ring_entries r)) with (Z.to_nat k + Z.to_nat (ring_entries r - k))%nat
    by lia.
  rewrite drop_chunks, drop_app_length'; [done|].
  symmetry. apply length_ring_get; [lia|by apply words_length].
Qed.

(** The elements a consumer copies are the first ones of the queue. *)
Lemma ring_get_items k :
  0 <= k <= ring_entries r ->
  let g := ring_get w (Z.to_nat (size r)) (slots r) (Z.to_nat (tail (cons r))) (Z.to_nat k) in
  length g = (Z.to_nat k * w)%nat
  /\ forall rest, chunks w (Z.to_nat k) (g ++ rest) = take (Z.to_nat k) (q_items (ring_queue w r)).
Proof.
  intros Hk g. pose proof (size_range w r I).
  assert (length g = (Z.to_nat k * w)%nat) as Hg.
  { apply length_ring_get; [lia|by apply words_length]. }
  split; [done|]. intros rest. unfold ring_queue. cbn [q_items]. rewrite take_chunks by lia.
  set (h := set_tail (u32 (tail (cons r) + k)) (cons r)).
  rewrite (ring_words_dequeued k h Hk eq_refl). fold g.
  rewrite <- (chunks_take _ _ (g ++ rest)), take_app_le by lia.
  by rewrite <- (chunks_take _ _ (g ++ _)), take_app_le by lia.
Qed.
End preserve.

(** ** Refinement *)

Lemma enqueue_elem_refines w r obj n b fs :
  ring_inv w r -> 0 <= n -> (Z.to_nat n * w <= length obj)%nat ->
  let '(n', room, q') := q_enqueue b n (chunks w (Z.to_nat n) obj) (ring_queue w r) in
  exists r', enqueue_elem b obj (4 * Z.of_nat w) n fs r = Some (n', store_opt fs room, r')
    /\ ring_inv w r' /\ ring_queue w r' = q'.
Proof.
  intros I Hn Ho. unfold q_enqueue, q_free. rewrite q_count_ring by done. simpl q_cap.
  pose proof (avail_prod w r I) as Ea. rewrite <- Ea. set (n' := clip b n (avail Prod r)).
  pose proof (entries_range w r I). pose proof (inv_capacity _ _ I).
  pose proof (clip_range b n (avail Prod r) Hn ltac:(lia)) as Hc. fold n' in Hc.
  assert (Z.to_nat n' * w <= length obj)%nat as Ho'.
  { assert (Z.to_nat n' * w <= Z.to_nat n * w)%nat by (apply Nat.mul_le_mono_r; lia). lia. }
  destruct (enqueue_elem_run w r obj n b fs (inv_geom _ _ I) (inv_fits _ _ I Prod)
    ltac:(lia) Ho' (inv_quiet _ _ I Prod)) as (h & Hq & Ht & HR).
  exists (enqueued w r obj n b h). fold n' in HR, Ht.
  pose proof (size_range w r I). rewrite wrap_small in HR by (unfold fits; lia).
  split; [done|].
  split; [by eapply ring_inv_enqueued; eauto; lia|].
  unfold enqueued. fold n'. rewrite (ring_queue_enqueued w r I n' obj h) by (done || lia).
  by rewrite take_chunks by lia.
Qed.

Lemma dequeue_elem_refines w r obj n b av :
  ring_inv w r -> 0 <= n -> (Z.to_nat n * w <= length obj)%nat ->
  let '(n', items, rest, q') := q_dequeue b n (ring_queue w r) in
  exists r' obj', dequeue_elem b obj (4 * Z.of_nat w) n av r
      = Some (n', obj', store_opt av rest, r')
    /\ chunks w (Z.to_nat n') obj' = items
    /\ drop (Z.to_nat n' * w) obj' = drop (Z.to_nat n' * w) obj
    /\ ring_inv w r' /\ ring_queue w r' = q'.
Proof.
  intros I Hn Ho. unfold q_dequeue. rewrite q_count_ring by done.
  change (ring_entries r) with (avail Cons r). set (n' := clip b n (avail Cons r)).
  pose proof (entries_range w r I) as He. change (ring_entries r) with (avail Cons r) in He.
  pose proof (inv_capacity _ _ I).
  pose proof (clip_range b n (avail Cons r) Hn ltac:(lia)) as Hc. fold n' in Hc.
  assert (Z.to_nat n' * w <= length obj)%nat as Ho'.
  { assert (Z.to_nat n' * w <= Z.to_nat n * w)%nat by (apply Nat.mul_le_mono_r; lia). lia. }
  destruct (dequeue_elem_run w r obj n b av (inv_geom _ _ I) (inv_fits _ _ I Cons)
    ltac:(lia) Ho' (inv_quiet _ _ I Cons)) as (h & Hq & Ht & HR).
  fold n' in HR, Ht. unfold dequeued in HR. fold n' in HR.
  pose proof (size_range w r I). rewrite wrap_small in HR by (unfold fits; lia).
  eexists _, _. split; [exact HR|].
  assert (0 <= n' <= ring_entries r) as Hk by (split; [lia|apply Hc]).
  destruct (ring_get_items w r I n' Hk) as [Hg Hi]. set (g := ring_get _ _ _ _ _) in *.
  unfold splice. rewrite take_0, app_nil_l, Nat.add_0_l, Hg.
  split; [apply Hi|]. split; [by rewrite drop_app_length'|].
  split; [by eapply ring_inv_dequeued|by apply ring_queue_dequeued].
Qed.

(** C10. On a well-formed ring of either synchronisation type, for every element
    size, [rte_ring_enqueue_bulk_elem] (behaviour FIXED) and
    [rte_ring_enqueue_burst_elem] (VARIABLE) return normally and are the
    enqueue of the abstract bounded queue: they append the first [n'] objects of
    the table, [n'] being all or none, respectively as many as fit, report [n']
    and the free space left, and keep the ring well formed. *)
Theorem ring_enqueue_refines (w : nat) (r : rte_ring) (obj : list Z) (n : Z)
  (b : rte_ring_queue_behavior) (fs : bool) :
  ring_inv w r -> 0 <= n -> (Z.to_nat n * w <= length obj)%nat ->
  let '(n', room, q') := q_enqueue b n (chunks w (Z.to_nat n) obj) (ring_queue w r) in
  exists r', enqueue_elem b obj (4 * Z.of_nat w) n fs r = Some (n', store_opt fs room, r')
    /\ ring_inv w r' /\ ring_queue w r' = q'.
Proof. apply enqueue_elem_refines. Qed.

(** C11. Likewise [rte_ring_dequeue_bulk_elem] and [rte_ring_dequeue_burst_elem]
    are the dequeue of the abstract queue: they remove its first [n'] elements,
    write exactly them at the start of the object table, report [n'] and the
    number of entries that remain, and keep the ring well formed. *)
Theorem ring_dequeue_refines (w : nat) (r : rte_ring) (obj : list Z) (n : Z)
  (b : rte_ring_queue_behavior) (av : bool) :
  ring_inv w r -> 0 <= n -> (Z.to_nat n * w <= length obj)%nat ->
  let '(n', items, rest, q') := q_dequeue b n (ring_queue w r) in
  exists r' obj', dequeue_elem b obj (4 * Z.of_nat w) n av r
      = Some (n', obj', store_opt av rest, r')
    /\ chunks w (Z.to_nat n') obj' = items
    /\ drop (Z.to_nat n' * w) obj' = drop (Z.to_nat n' * w) obj
    /\ ring_inv w r' /\ ring_queue w r' = q'.
Proof. apply dequeue_elem_refines. Qed.

(** A ring of 4 slots of two words, empty, whose producer is of type RTS, the
    consumer of type HTS, both about to wrap around 2^32. *)
Definition wrapping_ring : rte_ring :=
  mk_ring 0 4 3 3 (mk_headtail 5 (2 ^ 32 - 1) RTE_RING_SYNC_MT_RTS 0 5 (2 ^ 32 - 1))
    (mk_headtail (2 ^ 32 - 1) (2 ^ 32 - 1) RTE_RING_SYNC_MT_HTS 0 0 0) (replicate 8 0).

Lemma wrapping_ring_inv : ring_inv 2 wrapping_ring.
Proof.
  split.
  - split; simpl; first [done|lia|exists 2%nat; split; [lia|done]].
  - done.
  - intros []; [right|left]; (split; [|done]); simpl; [done|set_solver].
  - by intros [].
  - done.
Qed.

Lemma ring_enqueue_refines_witness :
  exists r', rte_ring_enqueue_burst_elem [1;2;3;4;5;6;7;8] 8 4 true wrapping_ring
             = Some (3, Some 0, r')
    /\ ring_queue 2 r' = mk_queue 3 [[1;2];[3;4];[5;6]].
Proof.
  destruct (ring_enqueue_refines 2 wrapping_ring [1;2;3;4;5;6;7;8] 4 RTE_RING_QUEUE_VARIABLE true)
    as (r' & H & _ & Q).
  - apply wrapping_ring_inv.
  - lia.
  - simpl. lia.
  - exists r'. split; [exact H|exact Q].
Defined.

Definition filled_ring : rte_ring :=
  mk_ring 0 4 3 3 (mk_headtail 2 2 RTE_RING_SYNC_MT 0 0 0)
    (mk_headtail (2 ^ 32 - 1) (2 ^ 32 - 1) RTE_RING_SYNC_ST 0 0 0) [30; 20; 0; 10].

Lemma filled_ring_inv : ring_inv 1 filled_ring.
Proof.
  split.
  - split; simpl; first [done|lia|exists 2%nat; split; [lia|done]].
  - done.
  - intros []; left; (split; [|done]); simpl; set_solver.
  - by intros [].
  - done.
Qed.

Lemma ring_dequeue_refines_witness :
  exists r', rte_ring_dequeue_bulk_elem [0;0;0] 4 2 true filled_ring
             = Some (2, [10;30;0], Some 1, r')
    /\ ring_queue 1 r' = mk_queue 3 [[20]].
Proof.
  destruct (ring_dequeue_refines 1 filled_ring [0;0;0] 2 RTE_RING_QUEUE_FIXED true)
    as (r' & obj' & H & _ & _ & _ & Q).
  - apply filled_ring_inv.
  - lia.
  - simpl. lia.
  - exists r'. split; [|exact Q]. vm_compute in H. injection H as <- <-. reflexivity.
Defined.

(** ** Sequences of operations *)

Inductive ring_op :=
| Enq (b : rte_ring_queue_behavior) (obj_table : list Z) (n : Z)
| Deq (b : rte_ring_queue_behavior) (n : Z).

(** Runs the operations in order on tables of the right size; collects the
    elements stored and the elements delivered. *)
Fixpoint run_ops (w : nat) (ops : list ring_op) (r : rte_ring)
  : option (list (list Z) * list (list Z) * rte_ring) :=
  match ops with
  | [] => Some ([], [], r)
  | Enq b obj n :: ops' =>
      '(n', _, r1) ← enqueue_elem b obj (4 * Z.of_nat w) n false r ;
      '(ins, outs, r2) ← run_ops w ops' r1 ;
      Some (chunks w (Z.to_nat n') obj ++ ins, outs, r2)
  | Deq b n :: ops' =>
      '(n', obj, _, r1) ←
        dequeue_elem b (replicate (Z.to_nat n * w) 0) (4 * Z.of_nat w) n false r ;
      '(ins, outs, r2) ← run_ops w ops' r1 ;
      Some (ins, chunks w (Z.to_nat n') obj ++ outs, r2)
  end.

(** The caller passes as many objects as it says. *)
Definition op_ok (w : nat) (op : ring_op) : Prop :=
  match op with
  | Enq _ obj n => 0 <= n /\ (Z.to_nat n * w <= length obj)%nat
  | Deq _ n => 0 <= n
  end.

(** First in, first out: any sequence of bulk and burst enqueues and
    dequeues on a well-formed ring runs to the end, and the elements it
    delivers, followed by those still in the ring, are the elements that were
    in the ring followed by the elements it stored, in the same order: none is
    lost, duplicated or overtaken, whatever the number of wrap-arounds. *)
Theorem ring_fifo (w : nat) (ops : list ring_op) (r : rte_ring) :
  ring_inv w r -> Forall (op_ok w) ops ->
  exists ins outs r', run_ops w ops r = Some (ins, outs, r')
    /\ ring_inv w r'
    /\ outs ++ q_items (ring_queue w r') = q_items (ring_queue w r) ++ ins.
Proof.
  intros I Hops. revert r I. induction Hops as [|op ops Hop Hops IH]; intros r I.
  { exists [], [], r. split; [done|]. split; [done|]. by rewrite app_nil_r. }
  destruct op as [b obj n|b n]; cbn [op_ok] in Hop; cbn [run_ops].
  - destruct Hop as [Hn Ho].
    pose proof (enqueue_elem_refines w r obj n b false I Hn Ho) as H.
    unfold q_enqueue in H. destruct H as (r1 & HR & I1 & Q1).
    destruct (IH r1 I1) as (ins & outs & r2 & HR2 & I2 & Q2).
    rewrite HR. cbn [mbind option_bind]. rewrite HR2. cbn [mbind option_bind]. eexists _, _, _. split; [done|]. split; [done|].
    rewrite Q2, Q1. cbn [q_items]. rewrite <- app_assoc. do 2 f_equal.
    pose proof (clip_range b n (q_free (ring_queue w r)) Hn) as Hc.
    rewrite take_chunks; [done|]. pose proof (entries_range w r I).
    unfold q_free in *. rewrite q_count_ring in * by done. simpl in *. lia.
  - assert (Z.to_nat n * w <= length (replicate (Z.to_nat n * w) 0%Z))%nat as Hl
      by (rewrite length_replicate; lia).
    pose proof (dequeue_elem_refines w r _ n b false I Hop Hl) as H.
    unfold q_dequeue in H. destruct H as (r1 & obj' & HR & Hi & _ & I1 & Q1).
    destruct (IH r1 I1) as (ins & outs & r2 & HR2 & I2 & Q2).
    rewrite HR. cbn [mbind option_bind]. rewrite HR2. cbn [mbind option_bind]. eexists _, _, _. split; [done|]. split; [done|].
    rewrite <- app_assoc, Q2, Q1, Hi. cbn [q_items]. by rewrite app_assoc, take_drop.
Qed.

Lemma ring_fifo_witness :
  let ops := [Enq RTE_RING_QUEUE_FIXED [1;2;3;4] 2; Deq RTE_RING_QUEUE_VARIABLE 3;
              Enq RTE_RING_QUEUE_VARIABLE [5;6;7;8;9;10;11;12] 4] in
  exists r', run_ops 2 ops wrapping_ring
    = Some ([[1;2];[3;4];[5;6];[7;8];[9;10]], [[1;2];[3;4]], r')
  /\ q_items (ring_queue 2 r') = [[5;6];[7;8];[9;10]].
Proof.
  intros ops. destruct (ring_fifo 2 ops wrapping_ring) as (ins & outs & r' & H & _ & Q).
  - apply wrapping_ring_inv.
  - repeat constructor; simpl; lia.
  - exists r'. vm_compute in H. injection H as <- <- <-. split; reflexivity.
Defined.

(** ** Single objects and the counters *)

(** [rte_ring_enqueue] on a ring of object pointers stores the pointer at
    the end of the queue and returns 0 unless the ring is full, in which case
    it returns [-ENOBUFS] and changes nothing; [rte_ring_dequeue] delivers the
    first pointer and returns 0 unless the ring is empty, in which case it
    returns [-ENOENT], and leaves the ring and the object alone. *)
Theorem ring_single_object (r : rte_ring) (lo hi : Z) (out : list Z) :
  ring_inv 2 r -> length out = 2%nat ->
  (exists rc r', rte_ring_enqueue [lo; hi] r = Some (rc, r') /\ ring_inv 2 r'
     /\ (if q_free (ring_queue 2 r) =? 0
         then rc = - ENOBUFS /\ ring_queue 2 r' = ring_queue 2 r
         else rc = 0 /\ q_items (ring_queue 2 r') = q_items (ring_queue 2 r) ++ [[lo; hi]]))
  /\ (exists rc obj r', rte_ring_dequeue out r = Some (rc, obj, r') /\ ring_inv 2 r'
     /\ match q_items (ring_queue 2 r) with
        | [] => rc = - ENOENT /\ obj = out /\ ring_queue 2 r' = ring_queue 2 r
        | x :: l => rc = 0 /\ obj = x /\ q_items (ring_queue 2 r') = l
        end).
Proof.
  intros I Ho. pose proof (entries_range 2 r I). split.
  - pose proof (enqueue_elem_refines 2 r [lo;hi] 1 RTE_RING_QUEUE_FIXED false I
      ltac:(lia) ltac:(simpl; lia)) as R.
    unfold q_enqueue in R. destruct R as (r' & HR & I' & Q).
    assert (0 <= q_free (ring_queue 2 r)) as Hf.
    { unfold q_free. rewrite q_count_ring by done. simpl. lia. }
    unfold rte_ring_enqueue, rte_ring_enqueue_elem. rewrite (mbind_run _ _ _ _ _ HR).
    eexists _, r'. split; [reflexivity|]. split; [done|]. rewrite Q. clear Q HR.
    destruct (q_free (ring_queue 2 r) =? 0) eqn:E; unfold clip.
    + replace (1 >? q_free (ring_queue 2 r)) with true by lia. split; [done|].
      simpl. by rewrite app_nil_r.
    + replace (1 >? q_free (ring_queue 2 r)) with false by lia. split; done.
  - pose proof (dequeue_elem_refines 2 r out 1 RTE_RING_QUEUE_FIXED false I
      ltac:(lia) ltac:(simpl; lia)) as R.
    unfold q_dequeue, q_count in R. destruct R as (r' & obj' & HR & Hi & Hd & I' & Q).
    unfold rte_ring_dequeue, rte_ring_dequeue_elem. rewrite (mbind_run _ _ _ _ _ HR).
    eexists _, obj', r'. split; [reflexivity|]. split; [done|]. rewrite Q. clear Q HR.
    destruct (ring_queue 2 r) as [c [|x l]]; simpl q_items in *.
    + simpl in *. split; [done|]. split; [|done]. by rewrite !drop_0 in Hd.
    + assert (clip RTE_RING_QUEUE_FIXED 1 (Z.of_nat (length (x :: l))) = 1) as Ec.
      { unfold clip. rewrite Z.gtb_ltb. cbn [length].
        destruct (Z.ltb_spec (Z.of_nat (Datatypes.S (length l))) 1); [lia|done]. }
      rewrite Ec in *.
      change (Z.to_nat 1) with 1%nat in *. simpl in Hi, Hd |- *. injection Hi as Hi.
      rewrite (drop_ge out) in Hd by lia. split; [done|].
      split; [|change (Datatypes.S (length l)) with (length (x :: l)); by rewrite Ec].
      rewrite <- Hi, <- (take_drop 2 obj') at 1. rewrite Hd, app_nil_r. done.
Qed.

Lemma ring_single_object_witness :
  exists r', rte_ring_enqueue [7; 8] wrapping_ring = Some (0, r').
Proof.
  destruct (ring_single_object wrapping_ring 7 8 [0;0] wrapping_ring_inv) as [(rc & r' & H & _ & C) _].
  - reflexivity.
  - assert ((q_free (ring_queue 2 wrapping_ring) =? 0) = false) as E by (vm_compute; reflexivity).
    rewrite E in C. destruct C as [-> _]. exists r'. exact H.
Defined.

(** The counters of [rte_ring.h] report the abstract queue:
    [rte_ring_count] its length, [rte_ring_free_count] its free space,
    [rte_ring_full] and [rte_ring_empty] whether one of them is zero. *)
Theorem ring_counters (w : nat) (r : rte_ring) :
  ring_inv w r ->
  rte_ring_count r = q_count (ring_queue w r)
  /\ rte_ring_free_count r = q_free (ring_queue w r)
  /\ rte_ring_full r = (q_count (ring_queue w r) =? q_cap (ring_queue w r))
  /\ rte_ring_empty r = (q_count (ring_queue w r) =? 0).
Proof.
  intros I. pose proof (entries_range w r I) as He. pose proof (size_range w r I) as Hs.
  pose proof (inv_capacity _ _ I) as Hc. pose proof (q_count_ring w r I) as Hq.
  assert (rte_ring_count r = ring_entries r) as E.
  { unfold rte_ring_count. fold (ring_entries r).
    destruct (geom_log _ _ (inv_geom _ _ I)) as (k & Hk & Ek).
    rewrite (geom_mask _ _ (inv_geom _ _ I)), Ek, land_mask, <- Ek, Z.mod_small by lia.
    by replace (ring_entries r >? capacity r) with false by lia. }
  assert (rte_ring_free_count r = capacity r - ring_entries r) as Ef.
  { unfold rte_ring_free_count. rewrite E. apply wrap_small. unfold fits. lia. }
  unfold q_free, rte_ring_full. rewrite Hq, E, Ef. simpl q_cap.
  split; [done|]. split; [done|]. split.
  - apply eq_bool_prop_intro. rewrite !Is_true_true, !Z.eqb_eq. lia.
  - unfold rte_ring_empty. pose proof (inv_fits _ _ I Prod) as F1.
    pose proof (inv_fits _ _ I Cons) as F2. unfold fits in F1, F2. simpl in F1, F2.
    apply eq_bool_prop_intro. rewrite !Is_true_true, !Z.eqb_eq.
    unfold ring_entries, wrap in *. split; intros Heq.
    + rewrite Heq, Z.sub_diag. done.
    + apply Z.mod_divide in Heq; [|done]. destruct Heq as [q Hq']. nia.
Qed.

Lemma ring_counters_witness :
  rte_ring_count filled_ring = 3 /\ rte_ring_full filled_ring = true.
Proof.
  destruct (ring_counters 1 filled_ring filled_ring_inv) as (H1 & _ & H3 & _).
  rewrite H1, H3. split; reflexivity.
Defined.
