(* ===== verification/RingConc.v ===== *)
(** * Threads on a ring.

    Several threads enqueue and dequeue on one ring with the default protocol
    ([include/rte_ring_generic_pvt.h], called by [__rte_ring_do_enqueue_elem]
    and [__rte_ring_do_dequeue_elem] of [include/rte_ring_elem_pvt.h]), one
    access to the shared memory at a time: the read of the head, the read of the
    other side's tail, the compare-and-swap, each word of the copy, the read of
    the tail by the waiting loop and its store are steps of their own, and the
    steps of different threads interleave in any order.  The memory is
    sequentially consistent; the barriers of the source are there to make it so
    for these accesses.

    A thread is inside a call of either side; the side's synchronisation type
    selects the single or the multiple variant, as in
    [rte_ring_enqueue_bulk_elem] and its siblings. *)
From stdpp Require Import prelude list numbers.
From S2P Require Import Prelude RingCore RingCopy RingHeadTail RingElem RingSpec.
Open Scope Z_scope.

(** ** Program counters

    The locals of a call at each point: the side, the requested number and the
    behaviour (until the head has moved), the object table, the old head, the
    number reserved and the room seen.  The last argument [g] is auxiliary: the
    position of the old head counted without wrap-around; no step tests it. *)
Inductive pc :=
| Idle
| ReadHead (s : ring_side) (max : Z) (b : rte_ring_queue_behavior) (buf : list Z)
| ReadTail (s : ring_side) (max : Z) (b : rte_ring_queue_behavior) (buf : list Z)
    (old g : Z)
| Swap (s : ring_side) (max : Z) (b : rte_ring_queue_behavior) (buf : list Z)
    (old n room g : Z)
| Copy (s : ring_side) (buf : list Z) (old n room : Z) (j : nat) (g : Z)
| Wait (s : ring_side) (buf : list Z) (old n room g : Z)
| Publish (s : ring_side) (buf : list Z) (old n room g : Z)
| Finish (s : ring_side) (n room : Z) (buf : list Z).

(** The side a thread is working on. *)
Definition pc_side (p : pc) : option ring_side :=
  match p with
  | Idle => None
  | ReadHead s _ _ _ | ReadTail s _ _ _ _ _ | Swap s _ _ _ _ _ _ _ | Copy s _ _ _ _ _ _
  | Wait s _ _ _ _ _ | Publish s _ _ _ _ _ | Finish s _ _ _ => Some s
  end.

(** [is_sp] and [is_sc]. *)
Definition single (s : ring_side) (r : rte_ring) : bool := truthy (sync_type (side s r)).

(** [free_entries] and [entries], for a given old head. *)
Definition room_seen (s : ring_side) (old : Z) (r : rte_ring) : Z :=
  match s with
  | Prod => u32 (capacity r + tail (cons r) - old)
  | Cons => u32 (tail (prod r) - old)
  end.

(** The word of the slots that word [j] of a copy from the head [old] uses. *)
Definition slot_word (w : nat) (r : rte_ring) (old : Z) (j : nat) : nat :=
  (Z.to_nat (Z.land (old + Z.of_nat (j / w)) (mask r)) * w + j mod w)%nat.

(** ** One step of one thread

    [h] is the position of the side's head, counted without wrap-around.  The
    result is the thread's next point, the ring, and how far the head moved.
    [None] is an idle or a finished thread, a thread whose tail is not there yet
    (it spins without changing anything), or an access outside an array. *)
Definition thread_step (w : nat) (h : Z) (p : pc) (r : rte_ring) : option (pc * rte_ring * Z) :=
  match p with
  | Idle | Finish _ _ _ _ => None
  | ReadHead s max b buf => Some (ReadTail s max b buf (head (side s r)) h, r, 0)
  | ReadTail s max b buf old g =>
      let room := room_seen s old r in
      let n := clip b max room in
      if n =? 0 then Some (Finish s 0 (u32 (room - 0)) buf, r, 0)
      else Some (Swap s max b buf old n room g, r, 0)
  | Swap s max b buf old n room g =>
      if single s r || (head (side s r) =? old) then
        Some (Copy s buf old n room 0 g,
              set_side s (set_head (u32 (old + n)) (side s r)) r, n)
      else Some (ReadHead s max b buf, r, 0)
  | Copy s buf old n room j g =>
      if (j <? Z.to_nat n * w)%nat then
        match s with
        | Prod =>
            x ← buf !! j ;
            _ ← slots r !! slot_word w r old j ;
            Some (Copy s buf old n room (Datatypes.S j) g,
                  set_slots (<[slot_word w r old j := x]> (slots r)) r, 0)
        | Cons =>
            x ← slots r !! slot_word w r old j ;
            _ ← buf !! j ;
            Some (Copy s (<[j := x]> buf) old n room (Datatypes.S j) g, r, 0)
        end
      else if single s r then Some (Publish s buf old n room g, r, 0)
      else Some (Wait s buf old n room g, r, 0)
  | Wait s buf old n room g =>
      if tail (side s r) =? old then Some (Publish s buf old n room g, r, 0) else None
  | Publish s buf old n room g =>
      Some (Finish s n (u32 (room - n)) buf,
            set_side s (set_tail (u32 (old + n)) (side s r)) r, 0)
  end.

(** ** Configurations *)

(** The ring, the positions of the two heads without wrap-around (auxiliary),
    and the threads. *)
Record conf := mk_conf {
  c_ring : rte_ring;
  c_prod : Z;
  c_cons : Z;
  c_pcs : list pc
}.

Definition moved (s : ring_side) (c : conf) : Z :=
  match s with Prod => c_prod c | Cons => c_cons c end.

Definition move (s : ring_side) (k : Z) (c : conf) : conf :=
  match s with
  | Prod => mk_conf (c_ring c) (c_prod c + k) (c_cons c) (c_pcs c)
  | Cons => mk_conf (c_ring c) (c_prod c) (c_cons c + k) (c_pcs c)
  end.

(** What a caller sees: a call with its arguments, a return with its results
    (the number, the room left, the object table). *)
Inductive event :=
| EvCall (i : nat) (s : ring_side) (n : Z) (b : rte_ring_queue_behavior) (buf : list Z)
| EvReturn (i : nat) (s : ring_side) (n room : Z) (buf : list Z).

(** The caller's obligations: the object table has room for [n] elements, and a
    side whose synchronisation type is single has one user at a time. *)
Definition call_ok (w : nat) (c : conf) (s : ring_side) (n : Z) (buf : list Z) : Prop :=
  fits 32 n /\ (Z.to_nat n * w <= length buf)%nat
  /\ (single s (c_ring c) = true ->
      Forall (fun p => pc_side p <> Some s) (c_pcs c)).

Inductive step (w : nat) (c : conf) : option event -> conf -> Prop :=
| step_call i s n b buf :
    c_pcs c !! i = Some Idle -> call_ok w c s n buf ->
    step w c (Some (EvCall i s n b buf))
      (mk_conf (c_ring c) (c_prod c) (c_cons c) (<[i := ReadHead s n b buf]> (c_pcs c)))
| step_run i s p p' r' k :
    c_pcs c !! i = Some p -> pc_side p = Some s ->
    thread_step w (moved s c) p (c_ring c) = Some (p', r', k) ->
    step w c None (move s k (mk_conf r' (c_prod c) (c_cons c) (<[i := p']> (c_pcs c))))
| step_return i s n room buf :
    c_pcs c !! i = Some (Finish s n room buf) ->
    step w c (Some (EvReturn i s n room buf))
      (mk_conf (c_ring c) (c_prod c) (c_cons c) (<[i := Idle]> (c_pcs c))).

(** A thread between its read of the head and its compare-and-swap compares a
    32-bit value it may have read long before.  It is fresh when the side has
    not moved by 2^32 less the capacity, or more, in the meantime. *)
Definition pc_fresh (c : conf) (p : pc) : bool :=
  match p with
  | ReadTail s _ _ _ _ g | Swap s _ _ _ _ _ _ g =>
      moved s c - g + capacity (c_ring c) <? 2 ^ 32
  | _ => true
  end.

Definition fresh (c : conf) : Prop := Forall (fun p => pc_fresh c p = true) (c_pcs c).

(** Runs, with the events seen; every configuration left was fresh. *)
Inductive run (w : nat) (c : conf) : list event -> conf -> Prop :=
| run_nil : run w c [] c
| run_snoc tr c1 l c2 :
    run w c tr c1 -> fresh c1 -> step w c1 l c2 -> run w c (tr ++ option_list l) c2.

(** [k] threads on a ring nobody is using. *)
Definition start (r : rte_ring) (k : nat) : conf :=
  mk_conf r (tail (cons r) + ring_entries r) (tail (cons r)) (replicate k Idle).

(** *** Executing a schedule *)

Inductive act :=
| DoCall (i : nat) (s : ring_side) (n : Z) (b : rte_ring_queue_behavior) (buf : list Z)
| DoStep (i : nat)
| DoReturn (i : nat).

#[global] Instance call_ok_dec w c s n buf : Decision (call_ok w c s n buf).
Proof. unfold call_ok. apply _. Defined.

#[global] Instance fresh_dec c : Decision (fresh c).
Proof. unfold fresh. apply _. Defined.

Definition exec1 (w : nat) (c : conf) (d : act) : option (option event * conf) :=
  match d with
  | DoCall i s n b buf =>
      match c_pcs c !! i with
      | Some Idle =>
          if decide (call_ok w c s n buf) then
            Some (Some (EvCall i s n b buf),
              mk_conf (c_ring c) (c_prod c) (c_cons c) (<[i := ReadHead s n b buf]> (c_pcs c)))
          else None
      | _ => None
      end
  | DoStep i =>
      p ← c_pcs c !! i ;
      s ← pc_side p ;
      '(p', r', k) ← thread_step w (moved s c) p (c_ring c) ;
      Some (None, move s k (mk_conf r' (c_prod c) (c_cons c) (<[i := p']> (c_pcs c))))
  | DoReturn i =>
      match c_pcs c !! i with
      | Some (Finish s n room buf) =>
          Some (Some (EvReturn i s n room buf),
            mk_conf (c_ring c) (c_prod c) (c_cons c) (<[i := Idle]> (c_pcs c)))
      | _ => None
      end
  end.

(** The last action comes first. *)
Fixpoint exec (w : nat) (c : conf) (ds : list act) : option (list event * conf) :=
  match ds with
  | [] => Some ([], c)
  | d :: ds' =>
      '(tr, c1) ← exec w c ds' ;
      if decide (fresh c1) then
        '(l, c2) ← exec1 w c1 d ;
        Some (tr ++ option_list l, c2)
      else None
  end.

(** A thread that runs alone until it has finished. *)
Fixpoint solo (fuel w : nat) (h : Z) (p : pc) (r : rte_ring)
  : option (Z * Z * list Z * rte_ring) :=
  match p with
  | Finish s n room buf => Some (n, room, buf, r)
  | _ =>
      match fuel with
      | O => None
      | Datatypes.S fuel' =>
          '(p', r', k) ← thread_step w h p r ;
          solo fuel' w (h + k) p' r'
      end
  end.

Lemma exec1_step w c d l c' : exec1 w c d = Some (l, c') -> step w c l c'.
Proof.
  destruct d as [i s n b buf|i|i]; unfold exec1.
  - destruct (c_pcs c !! i) as [[]|] eqn:Hi; try done.
    case_decide; intros; simplify_eq. by apply step_call.
  - destruct (c_pcs c !! i) as [p|] eqn:Hi; [|done]. cbn [mbind option_bind].
    destruct (pc_side p) as [s|] eqn:Hs; [|done]. cbn [mbind option_bind].
    destruct (thread_step _ _ _ _) as [[[p' r'] k]|] eqn:Ht; [|done].
    cbn [mbind option_bind]. intros; simplify_eq. by apply (step_run w c i s p).
  - destruct (c_pcs c !! i) as [[]|] eqn:Hi; intros; simplify_eq. by apply step_return.
Qed.

Lemma exec_run w c ds tr c' : exec w c ds = Some (tr, c') -> run w c tr c'.
Proof.
  revert tr c'. induction ds as [|d ds IH]; intros tr c' E; simpl in E.
  { simplify_eq. apply run_nil. }
  destruct (exec w c ds) as [[tr1 c1]|] eqn:E1; [|done]. cbn [mbind option_bind] in E.
  case_decide; [|done]. destruct (exec1 w c1 d) as [[l c2]|] eqn:E2; [|done].
  cbn [mbind option_bind] in E. simplify_eq.
  eapply run_snoc; [by apply IH|done|by eapply exec1_step].
Qed.

Lemma solo_step fuel w h p r p' r' k :
  thread_step w h p r = Some (p', r', k) ->
  solo (Datatypes.S fuel) w h p r = solo fuel w (h + k) p' r'.
Proof. intros E. destruct p; try done; cbn [solo]; by rewrite E. Qed.

(** ** Where the words of a copy go *)

Lemma mod_block a c s w : 0 < s -> 0 <= c < w -> (a * w + c) mod (s * w) = a mod s * w + c.
Proof.
  intros Hs Hc. symmetry. apply Z.mod_unique with (a / s).
  - left. pose proof (Z.mod_pos_bound a s Hs). nia.
  - pose proof (Z.div_mod a s ltac:(lia)). nia.
Qed.

(** Word [j] of a copy from position [g] is the word [g * w + j] of the memory
    seen as a circular array of words. *)
Lemma slot_word_pos w r g j :
  ring_geom w r -> 0 <= g ->
  Z.of_nat (slot_word w r (u32 g) j)
  = (g * Z.of_nat w + Z.of_nat j) mod (size r * Z.of_nat w).
Proof.
  intros G Hg. pose proof (geom_size_pos _ _ G) as Hsz.
  destruct G as [(k & Hk & Hs) Hm _ Hw _]. unfold slot_word.
  pose proof (Nat.div_mod j w ltac:(lia)) as Hj. pose proof (Nat.mod_upper_bound j w ltac:(lia)).
  assert (Z.land (u32 g + Z.of_nat (j / w)) (mask r) = (g + Z.of_nat (j / w)) mod size r) as ->.
  { rewrite Hm, Hs, land_mask by lia. unfold wrap.
    rewrite <- Zplus_mod_idemp_l, Z.mod_mod_divide, Zplus_mod_idemp_l; [done|].
    exists (2 ^ (32 - Z.of_nat k)). rewrite <- Z.pow_add_r by lia. f_equal. lia. }
  pose proof (Z.mod_pos_bound (g + Z.of_nat (j / w)) (size r) ltac:(lia)).
  rewrite Nat2Z.inj_add, Nat2Z.inj_mul, Z2Nat.id by lia.
  rewrite <- mod_block by lia. f_equal. lia.
Qed.

Lemma slot_word_bound w r g j :
  ring_geom w r -> 0 <= g -> (slot_word w r (u32 g) j < length (slots r))%nat.
Proof.
  intros G Hg. pose proof (geom_size_pos _ _ G).
  pose proof (geom_slots _ _ G) as Hl. pose proof (geom_w _ _ G).
  pose proof (slot_word_pos w r g j G Hg) as E.
  pose proof (Z.mod_pos_bound (g * Z.of_nat w + Z.of_nat j) (size r * Z.of_nat w) ltac:(nia)).
  rewrite Hl. apply Nat2Z.inj_lt. rewrite Nat2Z.inj_mul, Z2Nat.id by lia. lia.
Qed.

(** ** A thread alone runs the sequential operation *)

Section alone.
Context (w : nat) (r : rte_ring) (I : ring_inv w r).
Context (D : forall s, sync_type (side s r) ∈ [RTE_RING_SYNC_MT; RTE_RING_SYNC_ST]).
Let sz : nat := Z.to_nat (size r).

Lemma slot_word_nat r' old j :
  ring_geom w r' -> size r' = size r -> fits 32 old ->
  slot_word w r' old j = ((Z.to_nat old mod sz * w + j) mod (sz * w))%nat.
Proof.
  intros G E Ho. pose proof (geom_size_pos _ _ G). pose proof (geom_w _ _ G).
  unfold fits in Ho. apply Nat2Z.inj.
  rewrite <- (wrap_small 32 old Ho) at 1. rewrite slot_word_pos by (done || lia).
  rewrite Nat2Z.inj_mod, Nat2Z.inj_add, !Nat2Z.inj_mul, Nat2Z.inj_mod.
  unfold sz. rewrite !Z2Nat.id, E by lia.
  rewrite <- (Zmult_mod_distr_r old (size r) (Z.of_nat w)). by rewrite Zplus_mod_idemp_l.
Qed.

Lemma geom_set_slots r' l :
  ring_geom w r' -> length l = length (slots r') -> ring_geom w (set_slots l r').
Proof. intros [? ? ? ? ?] E. split; simpl; congruence. Qed.

Lemma set_slots_twice l l' r' : set_slots l (set_slots l' r') = set_slots l r'.
Proof. done. Qed.

Lemma set_slots_same r' : set_slots (slots r') r' = r'.
Proof. by destruct r'. Qed.

Lemma splice_insert (l : list Z) p x : (p < length l)%nat -> splice l p [x] = <[p := x]> l.
Proof. intros. by rewrite insert_take_drop by done; unfold splice; simpl; rewrite Nat.add_1_r. Qed.

Lemma take_1_drop (l : list Z) j x : l !! j = Some x -> take 1 (drop j l) = [x].
Proof. intros Hx. by rewrite (drop_S _ _ _ Hx). Qed.

(** The word-by-word copy of a thread that runs alone is the block copy. *)
Lemma solo_copy_in (k fuel j : nat) r1 h buf old n room g :
  ring_geom w r1 -> size r1 = size r -> fits 32 old ->
  (j + k)%nat = (Z.to_nat n * w)%nat -> (j + k <= length buf)%nat ->
  solo (k + fuel) w h (Copy Prod buf old n room j g) r1
  = solo fuel w h (Copy Prod buf old n room (j + k) g)
      (set_slots (ring_put 1 (sz * w) (slots r1) (Z.to_nat old mod sz * w + j) k (drop j buf)) r1).
Proof.
  intros G E Ho. revert j r1 G E. induction k as [|k IH]; intros j r1 G E Hn Hb.
  { by rewrite Nat.add_0_r; simpl ring_put; rewrite set_slots_same. }
  destruct (lookup_lt_is_Some_2 buf j) as [x Hx]; [lia|].
  pose proof (slot_word_nat r1 old j G E Ho) as Ew.
  assert (slot_word w r1 old j < length (slots r1))%nat as Hw.
  { rewrite <- (wrap_small 32 old Ho). apply slot_word_bound; [done|apply Ho]. }
  destruct (lookup_lt_is_Some_2 (slots r1) (slot_word w r1 old j) Hw) as [y Hy].
  cbn [Nat.add solo]. unfold thread_step at 1.
  replace (j <? Z.to_nat n * w)%nat with true by (symmetry; apply Nat.ltb_lt; lia).
  rewrite Hx, Hy. simpl. rewrite Z.add_0_r.
  rewrite IH; [|apply geom_set_slots; [done|by rewrite length_insert]|done|lia|lia].
  cbn [slots set_slots ring_put]. change (mk_ring _ _ _ _ _ _ ?l) with (set_slots l r1).
  rewrite set_slots_twice, Nat.mul_1_r, <- Ew, (take_1_drop _ _ _ Hx), splice_insert by done.
  by rewrite drop_drop, Nat.add_1_r, !Nat.add_succ_r.
Qed.

Lemma solo_copy_out (k fuel j : nat) r1 h buf old n room g :
  ring_geom w r1 -> size r1 = size r -> fits 32 old ->
  (j + k)%nat = (Z.to_nat n * w)%nat -> (j + k <= length buf)%nat ->
  solo (k + fuel) w h (Copy Cons buf old n room j g) r1
  = solo fuel w h (Copy Cons
      (splice buf j (ring_get 1 (sz * w) (slots r1) (Z.to_nat old mod sz * w + j) k))
      old n room (j + k) g) r1.
Proof.
  intros G E Ho. revert j buf. induction k as [|k IH]; intros j buf Hn Hb.
  { by rewrite Nat.add_0_r; simpl ring_get; rewrite splice_nil. }
  destruct (lookup_lt_is_Some_2 buf j) as [x Hx]; [lia|].
  pose proof (slot_word_nat r1 old j G E Ho) as Ew.
  assert (slot_word w r1 old j < length (slots r1))%nat as Hw.
  { rewrite <- (wrap_small 32 old Ho). apply slot_word_bound; [done|apply Ho]. }
  destruct (lookup_lt_is_Some_2 (slots r1) (slot_word w r1 old j) Hw) as [y Hy].
  cbn [Nat.add solo]. unfold thread_step at 1.
  replace (j <? Z.to_nat n * w)%nat with true by (symmetry; apply Nat.ltb_lt; lia).
  rewrite Hx, Hy. simpl. rewrite Z.add_0_r.
  rewrite IH; [|lia|rewrite length_insert; lia].
  cbn [ring_get]. rewrite Nat.mul_1_r, <- Ew, (take_1_drop _ _ _ Hy).
  rewrite <- splice_insert by lia.
  rewrite <- (splice_app buf j [y]).
  - by cbn [length]; rewrite Nat.add_1_r, !Nat.add_succ_r.
  - pose proof (geom_size_pos _ _ G). pose proof (geom_w _ _ G).
    rewrite length_ring_get; [simpl; lia|unfold sz; nia|].
    rewrite (geom_slots _ _ G), E, Nat.mul_1_r. unfold sz. lia.
Qed.

Lemma side_quiet_default s : head (side s r) = tail (side s r).
Proof.
  destruct (inv_quiet _ _ I s) as [[_ Q]|[E _]]; [exact Q|].
  pose proof (D s) as Ds. rewrite E in Ds. rewrite !elem_of_cons, elem_of_nil in Ds.
  by destruct Ds as [|[|]].
Qed.

Lemma room_seen_avail s : room_seen s (head (side s r)) r = avail s r.
Proof. rewrite side_quiet_default. by destruct s. Qed.

Lemma clip_avail_range s n b :
  0 <= n -> 0 <= clip b n (avail s r) <= n /\ clip b n (avail s r) <= size r
  /\ 0 <= avail s r < 2 ^ 32.
Proof.
  intros Hn. pose proof (entries_range w r I). pose proof (size_range w r I).
  pose proof (inv_capacity _ _ I).
  assert (0 <= avail s r <= capacity r) as Ha.
  { destruct s; [rewrite (avail_prod w r I)|rewrite avail_cons]; lia. }
  pose proof (clip_range b n (avail s r) Hn ltac:(lia)). lia.
Qed.

(** The ring after a reservation of [n] on a side and its publication. *)
Definition passed (s : ring_side) (n : Z) (r1 : rte_ring) : rte_ring :=
  set_side s (set_tail (u32 (head (side s r) + n))
    (set_head (u32 (head (side s r) + n)) (side s r))) r1.

(** The end of a call: nothing to wait for, then the tail. *)
Lemma solo_finish fuel h s buf n room g r1 :
  let old := head (side s r) in
  side s r1 = set_head (u32 (old + n)) (side s r) ->
  solo (3 + fuel) w h (Copy s buf old n room (Z.to_nat n * w) g) r1
  = Some (n, u32 (room - n), buf, passed s n r1).
Proof.
  intros old E.
  assert (tail (side s r1) = old) as Et by (rewrite E; symmetry; apply side_quiet_default).
  assert (single s r1 = single s r) as Es by (unfold single; by rewrite E).
  assert (forall fuel, solo (1 + fuel) w h (Publish s buf old n room g) r1
    = Some (n, u32 (room - n), buf, passed s n r1)) as Hp.
  { clear fuel. intros fuel. cbn [Nat.add]. erewrite solo_step by reflexivity.
    rewrite E. by destruct fuel. }
  assert (thread_step w h (Copy s buf old n room (Z.to_nat n * w) g) r1
    = Some (if single s r then Publish s buf old n room g else Wait s buf old n room g, r1, 0))
    as Hc.
  { unfold thread_step. rewrite Nat.ltb_irrefl, Es. by destruct (single s r). }
  cbn [Nat.add]. rewrite (solo_step _ _ _ _ _ _ _ _ Hc), Z.add_0_r.
  destruct (single s r).
  - apply (Hp (Datatypes.S fuel)).
  - rewrite (solo_step _ _ _ _ _ (Publish s buf old n room g) r1 0), Z.add_0_r; [apply Hp|].
    cbn [thread_step]. by rewrite Et, Z.eqb_refl.
Qed.

(** The beginning of a call: the room is seen and the head is moved. *)
Lemma solo_reserve fuel g s n b buf :
  let old := head (side s r) in
  let n' := clip b n (avail s r) in
  solo (3 + fuel) w g (ReadHead s n b buf) r
  = if n' =? 0 then Some (0, u32 (avail s r - 0), buf, r)
    else solo fuel w (g + n') (Copy s buf old n' (avail s r) 0 g)
           (set_side s (set_head (u32 (old + n')) (side s r)) r).
Proof.
  intros old n'. cbn [Nat.add]. erewrite solo_step by reflexivity. rewrite Z.add_0_r.
  fold old. pose proof (room_seen_avail s) as Ea. fold old in Ea.
  destruct (n' =? 0) eqn:E0.
  - erewrite (solo_step _ _ _ _ _ _ r 0);
      [|cbn [thread_step]; rewrite Ea; fold n'; rewrite E0; reflexivity].
    reflexivity.
  - erewrite (solo_step _ _ _ _ _ _ r 0);
      [|cbn [thread_step]; rewrite Ea; fold n'; rewrite E0; reflexivity].
    rewrite Z.add_0_r. erewrite solo_step; [reflexivity|].
    cbn [thread_step]. fold old. by rewrite Z.eqb_refl, orb_true_r.
Qed.

Lemma solo_enqueue obj n b g :
  0 <= n -> (Z.to_nat n * w <= length obj)%nat ->
  exists n' room r', __rte_ring_do_enqueue_elem obj (4 * Z.of_nat w) n b
      (sync_type (prod r)) true r = Some (n', Some room, r')
    /\ solo (6 + Z.to_nat n * w) w g (ReadHead Prod n b obj) r = Some (n', room, obj, r').
Proof.
  intros Hn Ho. pose proof (inv_geom _ _ I) as G.
  set (old := head (prod r)). pose proof (room_seen_avail Prod) as Ea. simpl side in Ea.
  fold old in Ea. destruct (clip_avail_range Prod n b Hn) as (Hn' & Hs & _).
  assert (fits 32 old) as Hf.
  { replace old with (tail (side Prod r)) by (symmetry; apply (side_quiet_default Prod)).
    apply (inv_fits _ _ I Prod). }
  unfold __rte_ring_do_enqueue_elem, mbind, M_bind.
  rewrite generic_move_prod_head. unfold default_move. simpl side. fold old.
  change (u32 (capacity r + tail (cons r) - old)) with (room_seen Prod old r).
  rewrite Ea. set (n' := clip b n (avail Prod r)) in *.
  change (6 + Z.to_nat n * w)%nat with (3 + (3 + Z.to_nat n * w))%nat.
  rewrite solo_reserve. simpl side. fold old n'.
  destruct (n' =? 0) eqn:E0.
  { apply Z.eqb_eq in E0. do 3 eexists. split; reflexivity. }
  cbn beta iota. rewrite E0. apply Z.eqb_neq in E0.
  unfold elems_in. set (r1 := set_side Prod (set_head (u32 (old + n')) (prod r)) r).
  assert (ring_geom w r1) as G1 by (destruct G; by split).
  assert (Z.to_nat n' * w <= Z.to_nat n * w)%nat as Hw by (apply Nat.mul_le_mono_r; lia).
  pose proof (enqueue_elems_put w (Z.to_nat n') r1 old obj G1 Hf ltac:(simpl; lia) ltac:(lia)) as HP.
  rewrite Z2Nat.id in HP by lia. rewrite HP. unfold lift. cbn [mbind option_bind].
  rewrite (generic_update_ok _ Prod (set_head (u32 (old + n')) (prod r)) _ old)
    by (done || (symmetry; apply (side_quiet_default Prod))).
  do 3 eexists. split; [reflexivity|].
  replace (3 + Z.to_nat n * w)%nat
    with (Z.to_nat n' * w + (3 + (Z.to_nat n * w - Z.to_nat n' * w)))%nat by lia.
  rewrite solo_copy_in by (done || lia). rewrite Nat.add_0_l.
  rewrite solo_finish by done.
  pose proof (size_range w r I). pose proof (geom_w _ _ G).
  change (Z.to_nat (size r1)) with sz. change (slots r1) with (slots r).
  pose proof (ring_put_scale w sz (slots r) (Z.to_nat old) (Z.to_nat n') obj) as Hsc.
  rewrite (geom_slots _ _ G) in Hsc. rewrite <- Hsc by (unfold sz; lia).
  unfold passed, r1. simpl. rewrite drop_0, Nat.add_0_r. reflexivity.
Qed.

Lemma solo_dequeue obj n b g :
  0 <= n -> (Z.to_nat n * w <= length obj)%nat ->
  exists n' room obj' r', __rte_ring_do_dequeue_elem obj (4 * Z.of_nat w) n b
      (sync_type (cons r)) true r = Some (n', obj', Some room, r')
    /\ solo (6 + Z.to_nat n * w) w g (ReadHead Cons n b obj) r = Some (n', room, obj', r').
Proof.
  intros Hn Ho. pose proof (inv_geom _ _ I) as G.
  set (old := head (cons r)). pose proof (room_seen_avail Cons) as Ea. simpl side in Ea.
  fold old in Ea. destruct (clip_avail_range Cons n b Hn) as (Hn' & Hs & _).
  assert (fits 32 old) as Hf.
  { replace old with (tail (side Cons r)) by (symmetry; apply (side_quiet_default Cons)).
    apply (inv_fits _ _ I Cons). }
  unfold __rte_ring_do_dequeue_elem, mbind, M_bind.
  rewrite generic_move_cons_head. unfold default_move. simpl side. fold old.
  change (u32 (tail (prod r) - old)) with (room_seen Cons old r).
  rewrite Ea. set (n' := clip b n (avail Cons r)) in *.
  change (6 + Z.to_nat n * w)%nat with (3 + (3 + Z.to_nat n * w))%nat.
  rewrite solo_reserve. simpl side. fold old n'.
  destruct (n' =? 0) eqn:E0.
  { apply Z.eqb_eq in E0. do 4 eexists. split; reflexivity. }
  cbn beta iota. rewrite E0. apply Z.eqb_neq in E0.
  unfold elems_out. set (r1 := set_side Cons (set_head (u32 (old + n')) (cons r)) r).
  assert (ring_geom w r1) as G1 by (destruct G; by split).
  assert (Z.to_nat n' * w <= Z.to_nat n * w)%nat as Hw by (apply Nat.mul_le_mono_r; lia).
  pose proof (dequeue_elems_get w (Z.to_nat n') r1 old obj G1 Hf ltac:(simpl; lia) ltac:(lia)) as HP.
  rewrite Z2Nat.id in HP by lia. rewrite HP. unfold lift. cbn [mbind option_bind].
  rewrite (generic_update_ok _ Cons (set_head (u32 (old + n')) (cons r)) _ old)
    by (done || (symmetry; apply (side_quiet_default Cons))).
  do 4 eexists. split; [reflexivity|].
  replace (3 + Z.to_nat n * w)%nat
    with (Z.to_nat n' * w + (3 + (Z.to_nat n * w - Z.to_nat n' * w)))%nat by lia.
  rewrite solo_copy_out by (done || lia). rewrite Nat.add_0_l.
  rewrite solo_finish by done.
  pose proof (size_range w r I). pose proof (geom_w _ _ G).
  change (Z.to_nat (size r1)) with sz. change (slots r1) with (slots r).
  pose proof (ring_get_scale w sz (slots r) (Z.to_nat old) (Z.to_nat n')) as Hsc.
  rewrite (geom_slots _ _ G) in Hsc. rewrite <- Hsc by (unfold sz; lia).
  unfold passed, r1. simpl. by rewrite Nat.add_0_r.
Qed.
End alone.
