(* ===== verification/RingConcSpec.v ===== *)
(** * The concurrent ring is a linearizable queue.

    The specification is a bounded queue on which each call takes effect at
    once, at some point between its start and its return: an enqueue when its
    elements become visible, a dequeue when it reserves its elements.  The
    simulation relates it to the threads of [RingConc]: the four counters in
    order, the reservations of each side cutting the space between its tail and
    its head, and the words of every element in place until its consumer has
    read them. *)
From stdpp Require Import prelude list numbers.
From S2P Require Import Prelude RingCore RingCopy RingHeadTail RingElem RingSpec RingConc.
Open Scope Z_scope.

(** ** The specification *)

(** A thread of the specification: outside of a call, before its effect, after
    it with the results it will return. *)
Inductive apc :=
| AIdle
| ACalled (s : ring_side) (n : Z) (b : rte_ring_queue_behavior) (buf : list Z)
| ADone (s : ring_side) (n room : Z) (buf : list Z).

Record aconf := mk_aconf { a_q : list (list Z); a_pcs : list apc }.

Definition a_count (a : aconf) : Z := Z.of_nat (length (a_q a)).

(** Another thread is inside a call. *)
Definition a_others (i : nat) (a : aconf) : Prop :=
  exists j p, j <> i /\ a_pcs a !! j = Some p /\ p <> AIdle.

(** One step of the specification.
    - An enqueue appends the elements it stores; it counts on no more room than
      there is.
    - A dequeue takes elements from the front of the queue, and counts on no more
      of them than there are.
    - An enqueue stores nothing when the room it counts on is not enough, and it
      counts on less than there is only while other calls are under way.
    - A dequeue takes nothing when the queue has not got what it asks for.
    The room that a call counts on may be less than there is; [arun] below leaves
    that to the calls that others overlap. *)
Inductive astep (cap : Z) (w : nat) (a : aconf) : option event -> aconf -> Prop :=
| a_call i s n b buf :
    a_pcs a !! i = Some AIdle ->
    astep cap w a (Some (EvCall i s n b buf))
      (mk_aconf (a_q a) (<[i := ACalled s n b buf]> (a_pcs a)))
| a_enqueue i n b buf room :
    a_pcs a !! i = Some (ACalled Prod n b buf) ->
    0 <= room <= cap - a_count a -> 0 < clip b n room ->
    let n' := clip b n room in
    astep cap w a None
      (mk_aconf (a_q a ++ chunks w (Z.to_nat n') buf)
         (<[i := ADone Prod n' (room - n') buf]> (a_pcs a)))
| a_dequeue i n b buf room items q :
    a_pcs a !! i = Some (ACalled Cons n b buf) ->
    0 <= room <= a_count a -> 0 < clip b n room ->
    let n' := clip b n room in
    a_q a = items ++ q -> length items = Z.to_nat n' ->
    astep cap w a None
      (mk_aconf q (<[i := ADone Cons n' (room - n')
         (concat items ++ drop (Z.to_nat n' * w) buf)]> (a_pcs a)))
| a_full i n b buf room :
    a_pcs a !! i = Some (ACalled Prod n b buf) ->
    clip b n room = 0 -> cap - a_count a <= room \/ a_others i a ->
    astep cap w a None (mk_aconf (a_q a) (<[i := ADone Prod 0 room buf]> (a_pcs a)))
| a_empty i n b buf room :
    a_pcs a !! i = Some (ACalled Cons n b buf) ->
    clip b n room = 0 -> a_count a <= room ->
    astep cap w a None (mk_aconf (a_q a) (<[i := ADone Cons 0 room buf]> (a_pcs a)))
| a_return i s n room buf :
    a_pcs a !! i = Some (ADone s n room buf) ->
    astep cap w a (Some (EvReturn i s n room buf))
      (mk_aconf (a_q a) (<[i := AIdle]> (a_pcs a))).

(** What a call of the side may count on: the free places, the elements. *)
Definition room_of (cap : Z) (s : ring_side) (a : aconf) : Z :=
  match s with Prod => cap - a_count a | Cons => a_count a end.

(** The calls that others have overlapped: one is under way when the call starts,
    or starts after it. *)
Definition overlaps (l : option event) (a : aconf) (o : nat -> Prop) (j : nat) : Prop :=
  match l with
  | Some (EvCall i _ _ _ _) => if decide (j = i) then a_others i a else True
  | _ => o j
  end.

(** If the call of thread [i] takes effect, it is with all the room there is. *)
Definition exact_effect (cap : Z) (a a' : aconf) (i : nat) : Prop :=
  forall s max b buf n room res,
    a_pcs a !! i = Some (ACalled s max b buf) -> a_pcs a' !! i = Some (ADone s n room res) ->
    n = clip b max (room_of cap s a) /\ room = room_of cap s a - n.

(** Runs of the specification, with the calls under way that others overlap.  The
    others are those of the bounded queue to the letter. *)
Inductive arun (cap : Z) (w : nat) (a : aconf) : list event -> aconf -> (nat -> Prop) -> Prop :=
| arun_nil : arun cap w a [] a (fun _ => False)
| arun_snoc tr a1 o l a2 :
    arun cap w a tr a1 o -> astep cap w a1 l a2 ->
    (forall i, ~ o i -> exact_effect cap a1 a2 i) ->
    arun cap w a (tr ++ option_list l) a2 (overlaps l a1 o).

(** ** The simulation *)

(** Word [x] of the circular memory. *)
Definition word (w : nat) (r : rte_ring) (x : Z) : option Z :=
  slots r !! Z.to_nat (x mod (size r * Z.of_nat w)).

(** The reservation of a thread that copies or publishes: side, start, number. *)
Definition flying (p : pc) : option (ring_side * Z * Z) :=
  match p with
  | Copy s _ _ n _ _ g | Wait s _ _ n _ g | Publish s _ _ n _ g => Some (s, g, n)
  | _ => None
  end.

Section pc_ok.
Context (w : nat) (r : rte_ring) (hd tl : ring_side -> Z).

(** The room a side has from position [g] on. *)
Definition room_from (s : ring_side) (g : Z) : Z :=
  match s with
  | Prod => capacity r + tl Cons - g
  | Cons => tl Prod - g
  end.

Definition args_ok (n : Z) (buf : list Z) : Prop :=
  fits 32 n /\ (Z.to_nat n * w <= length buf)%nat.

(** A thread that has read the head [old] at position [g]. *)
Definition looked (s : ring_side) (old g : Z) : Prop :=
  old = u32 g /\ 0 <= g <= hd s /\ 0 <= room_from s g /\ (single s r = true -> g = hd s).

(** A thread that has reserved [n] elements at [g] and copied [j] words. *)
Definition copying (s : ring_side) (buf : list Z) (old n room : Z) (j : nat) (g : Z) (a : apc)
  : Prop :=
  old = u32 g /\ 0 < n /\ tl s <= g /\ g + n <= hd s
  /\ (Z.to_nat n * w <= length buf)%nat /\ (j <= Z.to_nat n * w)%nat
  /\ match s with
     | Prod => exists max b, a = ACalled Prod max b buf /\ n = clip b max room
         /\ 0 <= room <= room_from Prod g
         /\ forall k, (k < j)%nat -> word w r (g * Z.of_nat w + Z.of_nat k) = buf !! k
     | Cons => exists res, a = ADone Cons n (u32 (room - n)) res /\ length res = length buf
         /\ (forall k, (k < j \/ Z.to_nat n * w <= k)%nat -> buf !! k = res !! k)
         /\ forall k, (j <= k < Z.to_nat n * w)%nat ->
              word w r (g * Z.of_nat w + Z.of_nat k) = res !! k
     end.

Definition pc_ok (p : pc) (a : apc) : Prop :=
  match p with
  | Idle => a = AIdle
  | ReadHead s max b buf => a = ACalled s max b buf /\ args_ok max buf
  | ReadTail s max b buf old g => a = ACalled s max b buf /\ args_ok max buf /\ looked s old g
  | Swap s max b buf old n room g =>
      a = ACalled s max b buf /\ args_ok max buf /\ looked s old g
      /\ n = clip b max room /\ n <> 0 /\ 0 <= room <= room_from s g
  | Copy s buf old n room j g => copying s buf old n room j g a
  | Wait s buf old n room g => copying s buf old n room (Z.to_nat n * w) g a
  | Publish s buf old n room g => copying s buf old n room (Z.to_nat n * w) g a /\ tl s = g
  | Finish s n room buf => a = ADone s n room buf
  end.
End pc_ok.

Record sim (w : nat) (tl : ring_side -> Z) (c : conf) (a : aconf) : Prop := {
  sim_geom : ring_geom w (c_ring c);
  sim_cap : 0 <= capacity (c_ring c) < size (c_ring c);
  sim_sync s : sync_type (side s (c_ring c)) ∈ [RTE_RING_SYNC_MT; RTE_RING_SYNC_ST];
  sim_head s : head (side s (c_ring c)) = u32 (moved s c);
  sim_tail s : tail (side s (c_ring c)) = u32 (tl s);
  sim_order : 0 <= tl Cons <= moved Cons c /\ moved Cons c <= tl Prod <= moved Prod c
    /\ moved Prod c <= tl Cons + capacity (c_ring c);
  sim_count : a_count a = tl Prod - moved Cons c;
  sim_width : Forall (fun x => length x = w) (a_q a);
  sim_words k : (k < length (concat (a_q a)))%nat ->
    word w (c_ring c) (moved Cons c * Z.of_nat w + Z.of_nat k) = concat (a_q a) !! k;
  sim_threads : Forall2 (pc_ok w (c_ring c) (fun s => moved s c) tl) (c_pcs c) (a_pcs a);
  sim_disjoint i j p p' s g n g' n' :
    i <> j -> c_pcs c !! i = Some p -> c_pcs c !! j = Some p' ->
    flying p = Some (s, g, n) -> flying p' = Some (s, g', n') -> g + n <= g' \/ g' + n' <= g;
  sim_cover s x : tl s <= x < moved s c ->
    exists i p g n, c_pcs c !! i = Some p /\ flying p = Some (s, g, n) /\ g <= x < g + n;
  sim_single s i j p p' : single s (c_ring c) = true ->
    c_pcs c !! i = Some p -> c_pcs c !! j = Some p' ->
    pc_side p = Some s -> pc_side p' = Some s -> i = j
}.

(** ** Positions *)

Lemma clip_le b max room : 0 <= room -> clip b max room <= room.
Proof. intros. unfold clip. destruct (max >? room) eqn:E; [by destruct b|lia]. Qed.

Lemma mod_ne x y m : x <> y -> - m < x - y < m -> x mod m <> y mod m.
Proof.
  intros N H E. assert (0 < m) as Hm by lia. assert (m <> 0) as Hm' by lia.
  rewrite (Z.div_mod x m Hm'), (Z.div_mod y m Hm'), E in N, H.
  assert (x / m <> y / m) by (intros E'; rewrite E' in N; lia). nia.
Qed.

Lemma u32_inj a b : u32 a = u32 b -> - 2 ^ 32 < a - b < 2 ^ 32 -> a = b.
Proof.
  intros E H. destruct (decide (a = b)) as [|N]; [done|].
  by destruct (mod_ne a b (2 ^ 32) N H).
Qed.

Section words.
Context (w : nat) (r : rte_ring) (G : ring_geom w r).

Lemma slots_lookup_word g j :
  0 <= g -> slots r !! slot_word w r (u32 g) j = word w r (g * Z.of_nat w + Z.of_nat j).
Proof.
  intros Hg. unfold word. rewrite <- (slot_word_pos w r g j G Hg). by rewrite Nat2Z.id.
Qed.

(** What a write of word [j] of a copy from [g] changes. *)
Definition written (g : Z) (j : nat) (x : Z) : rte_ring :=
  set_slots (<[slot_word w r (u32 g) j := x]> (slots r)) r.

Lemma word_written_eq g j x :
  0 <= g -> word w (written g j x) (g * Z.of_nat w + Z.of_nat j) = Some x.
Proof.
  intros Hg. unfold word, written. cbn [slots size set_slots].
  rewrite <- (slot_word_pos w r g j G Hg), Nat2Z.id.
  apply list_lookup_insert_eq. by apply slot_word_bound.
Qed.

Lemma word_written_ne g j x y :
  0 <= g -> y <> g * Z.of_nat w + Z.of_nat j ->
  - (size r * Z.of_nat w) < y - (g * Z.of_nat w + Z.of_nat j) < size r * Z.of_nat w ->
  word w (written g j x) y = word w r y.
Proof.
  intros Hg N H. unfold word, written. cbn [slots size set_slots].
  apply list_lookup_insert_ne. pose proof (slot_word_pos w r g j G Hg) as E.
  pose proof (mod_ne _ _ _ N H). intros E'. rewrite E' in E.
  rewrite Z2Nat.id in E; [congruence|]. apply Z.mod_pos_bound. lia.
Qed.
End words.

(** Words that do not depend on the heads and the tails. *)
Lemma word_set_side w r s h x : word w (set_side s h r) x = word w r x.
Proof. unfold word. by destruct s. Qed.

Lemma single_set_side s s' h r :
  sync_type h = sync_type (side s' r) -> single s (set_side s' h r) = single s r.
Proof. intros E. unfold single. destruct s, s'; simpl in *; congruence. Qed.

(** ** Frames *)

(** What another thread's step may change under a thread: the ring as long as
    the words of its reservation stay, and the marks forward. *)
Lemma pc_ok_frame w r r' hd hd' tl tl' p a :
  capacity r' = capacity r ->
  (forall s, single s r' = single s r) ->
  (forall s, hd s <= hd' s) -> (forall s, tl s <= tl' s) ->
  (forall s, pc_side p = Some s -> single s r = true -> hd' s = hd s) ->
  (forall s g n, flying p = Some (s, g, n) -> tl' s <= g
     /\ forall k, (k < Z.to_nat n * w)%nat ->
          word w r' (g * Z.of_nat w + Z.of_nat k) = word w r (g * Z.of_nat w + Z.of_nat k)) ->
  pc_ok w r hd tl p a -> pc_ok w r' hd' tl' p a.
Proof.
  intros Hc Hsi Hh Ht Hone Hfly.
  assert (forall s g, room_from r tl s g <= room_from r' tl' s g) as Hroom.
  { intros s g. pose proof (Ht Prod). pose proof (Ht Cons). destruct s; simpl; lia. }
  assert (forall s old g, pc_side p = Some s -> looked r hd tl s old g ->
    looked r' hd' tl' s old g) as Hlook.
  { intros s old g Hp (E & Hg & Hr & Hs). specialize (Hroom s g). specialize (Hh s).
    repeat split; try done; try lia. rewrite Hsi. intros S. rewrite (Hone s Hp S). auto. }
  assert (forall s buf old n room j g, flying p = Some (s, g, n) ->
    copying w r hd tl s buf old n room j g a -> copying w r' hd' tl' s buf old n room j g a)
    as Hcopy.
  { intros s buf old n room j g Hf (E & Hn & Hg & Hg' & Hb & Hj & HC).
    destruct (Hfly _ _ _ Hf) as [Ht' Hw]. specialize (Hh s). specialize (Hroom s g).
    repeat split; try done; try lia. destruct s.
    - destruct HC as (max & b & Ea & En & Hr & HC). exists max, b.
      repeat split; try lia; try done. intros k Hk. rewrite Hw by lia. auto.
    - destruct HC as (res & Ea & El & HC1 & HC2). exists res. repeat split; try done.
      intros k Hk. rewrite Hw by lia. auto. }
  destruct p; simpl in *; try done.
  - intros (? & ? & ?). auto.
  - intros (? & ? & ? & ? & ? & ? & ?). specialize (Hroom s g). do 5 (split; [by auto|]). lia.
  - auto.
  - auto.
  - intros [H E]. split; [auto|]. destruct (Hfly s g n eq_refl) as [H' _].
    specialize (Ht s). lia.
Qed.

(** ** Queues of elements of [w] words *)

Section width.
Context (w : nat).
Implicit Types q : list (list Z).

Lemma length_concat_width q :
  Forall (fun x => length x = w) q -> length (concat q) = (length q * w)%nat.
Proof. induction 1 as [|x q Hx _ IH]; [done|]. simpl. rewrite length_app. lia. Qed.

Lemma concat_take n q :
  Forall (fun x => length x = w) q -> concat (take n q) = take (n * w) (concat q).
Proof.
  intros H. revert n. induction H as [|x q Hx _ IH]; intros n; [by simpl; rewrite !take_nil|].
  destruct n as [|n]; [done|]. simpl. by rewrite IH, take_app_add'.
Qed.

Lemma concat_drop n q :
  Forall (fun x => length x = w) q -> concat (drop n q) = drop (n * w) (concat q).
Proof.
  intros H. revert n. induction H as [|x q Hx _ IH]; intros n; [by simpl; rewrite !drop_nil|].
  destruct n as [|n]; [done|]. simpl. by rewrite IH, drop_app_add'.
Qed.

Lemma concat_chunks n l :
  (n * w <= length l)%nat -> concat (chunks w n l) = take (n * w) l.
Proof.
  revert l. induction n as [|n IH]; intros l Hl; [done|]. simpl in *.
  rewrite IH by (rewrite length_drop; lia). symmetry. apply take_add.
Qed.

Lemma chunks_width n l :
  (n * w <= length l)%nat -> Forall (fun x => length x = w) (chunks w n l).
Proof.
  revert l. induction n as [|n IH]; intros l Hl; simpl in *; constructor.
  - rewrite length_take. lia.
  - apply IH. rewrite length_drop. lia.
Qed.
End width.

(** ** A step of one thread preserves the simulation *)

Section one_step.
Context (w : nat) (tl : ring_side -> Z) (c : conf) (a : aconf) (S : sim w tl c a).
Context (i : nat) (p : pc) (Hi : c_pcs c !! i = Some p).

Lemma thread_ok j pj :
  c_pcs c !! j = Some pj ->
  exists x, a_pcs a !! j = Some x /\ pc_ok w (c_ring c) (fun s => moved s c) tl pj x.
Proof.
  intros Hj. destruct (Forall2_lookup_l _ _ _ _ _ (sim_threads _ _ _ _ S) Hj) as (x & Hx & H).
  eauto.
Qed.

Lemma flying_range j pj s g n :
  c_pcs c !! j = Some pj -> flying pj = Some (s, g, n) ->
  0 < n /\ tl s <= g /\ g + n <= moved s c.
Proof.
  intros Hj Hf. destruct (thread_ok j pj Hj) as (x & _ & H).
  destruct pj; simpl in *; try done; simplify_eq.
  - destruct H as (? & ? & ? & ? & _). auto.
  - destruct H as (? & ? & ? & ? & _). auto.
  - destruct H as [(? & ? & ? & ? & _) _]. auto.
Qed.

(** The reservations of the other threads. *)
Definition others_fly (s : ring_side) (g n : Z) : Prop :=
  exists j pj, j <> i /\ c_pcs c !! j = Some pj /\ flying pj = Some (s, g, n).

Context (c' : conf) (tl' : ring_side -> Z) (q' : list (list Z)) (p' : pc) (x' : apc).
Let a' := mk_aconf q' (<[i := x']> (a_pcs a)).

(** The marks and the contents after the step. *)
Record marks_ok : Prop := {
  mk_geom : ring_geom w (c_ring c');
  mk_capacity : capacity (c_ring c') = capacity (c_ring c);
  mk_size : size (c_ring c') = size (c_ring c);
  mk_sync s : sync_type (side s (c_ring c')) = sync_type (side s (c_ring c));
  mk_head s : head (side s (c_ring c')) = u32 (moved s c');
  mk_tail s : tail (side s (c_ring c')) = u32 (tl' s);
  mk_order : 0 <= tl' Cons <= moved Cons c' /\ moved Cons c' <= tl' Prod <= moved Prod c'
    /\ moved Prod c' <= tl' Cons + capacity (c_ring c');
  mk_forward s : moved s c <= moved s c' /\ tl s <= tl' s;
  mk_mover s : moved s c' = moved s c \/ pc_side p = Some s;
  mk_count : Z.of_nat (length q') = tl' Prod - moved Cons c';
  mk_width : Forall (fun x => length x = w) q';
  mk_words k : (k < length (concat q'))%nat ->
    word w (c_ring c') (moved Cons c' * Z.of_nat w + Z.of_nat k) = concat q' !! k
}.

(** What the step leaves to the other threads, and takes from them. *)
Record others_ok : Prop := {
  ot_words s g n : others_fly s g n -> tl' s <= g
    /\ forall k, (k < Z.to_nat n * w)%nat ->
         word w (c_ring c') (g * Z.of_nat w + Z.of_nat k)
         = word w (c_ring c) (g * Z.of_nat w + Z.of_nat k);
  ot_disjoint s g n g' n' :
    flying p' = Some (s, g, n) -> others_fly s g' n' -> g + n <= g' \/ g' + n' <= g;
  ot_cover s x : tl' s <= x < moved s c' ->
    (exists g n, flying p' = Some (s, g, n) /\ g <= x < g + n)
    \/ (exists g n, others_fly s g n /\ g <= x < g + n);
  ot_single s : single s (c_ring c) = true -> pc_side p' = Some s ->
    pc_side p = Some s
    \/ forall j pj, j <> i -> c_pcs c !! j = Some pj -> pc_side pj <> Some s
}.

Lemma single_kept : marks_ok -> forall s, single s (c_ring c') = single s (c_ring c).
Proof. intros M s. unfold single. by rewrite (mk_sync M). Qed.

Lemma sim_step_threads :
  marks_ok -> others_ok -> pc_ok w (c_ring c') (fun s => moved s c') tl' p' x' ->
  Forall2 (pc_ok w (c_ring c') (fun s => moved s c') tl')
    (<[i := p']> (c_pcs c)) (<[i := x']> (a_pcs a)).
Proof.
  intros M O Hp. pose proof (sim_threads _ _ _ _ S) as F.
  apply Forall2_same_length_lookup. split.
  { rewrite !length_insert. by eapply Forall2_length. }
  intros j pj xj Hj Hx.
  assert (i < length (c_pcs c))%nat by (by eapply lookup_lt_Some).
  assert (i < length (a_pcs a))%nat by (by erewrite <- Forall2_length).
  destruct (decide (i = j)) as [<-|N].
  { rewrite list_lookup_insert_eq in Hj by done. rewrite list_lookup_insert_eq in Hx by done.
    by simplify_eq. }
  rewrite list_lookup_insert_ne in Hj by done. rewrite list_lookup_insert_ne in Hx by done.
  eapply (pc_ok_frame w (c_ring c) (c_ring c') (fun s => moved s c) (fun s => moved s c') tl tl').
  - apply M.
  - by apply single_kept.
  - intros s. apply (mk_forward M).
  - intros s. apply (mk_forward M).
  - intros s Hs Hsi. destruct (mk_mover M s) as [|Hm]; [done|].
    by destruct N; eapply (sim_single _ _ _ _ S s).
  - intros s g n Hf. apply (ot_words O). by exists j, pj.
  - by eapply Forall2_lookup_lr.
Qed.

Lemma sim_step :
  c_pcs c' = <[i := p']> (c_pcs c) ->
  marks_ok -> others_ok -> pc_ok w (c_ring c') (fun s => moved s c') tl' p' x' ->
  sim w tl' c' a'.
Proof.
  intros Ec M O Hp.
  assert (i < length (c_pcs c))%nat as Hlt by (by eapply lookup_lt_Some).
  assert (forall j pj, c_pcs c' !! j = Some pj ->
    (j = i /\ pj = p') \/ (j <> i /\ c_pcs c !! j = Some pj)) as Hcase.
  { intros j pj. rewrite Ec. destruct (decide (i = j)) as [<-|].
    - rewrite list_lookup_insert_eq by done. intros; left; by simplify_eq.
    - rewrite list_lookup_insert_ne by done. by right. }
  split; try apply M.
  - rewrite (mk_capacity M), (mk_size M). apply S.
  - intros s. rewrite (mk_sync M). apply S.
  - rewrite Ec. by apply sim_step_threads.
  - intros j k pj pk s g n g' n' N Hj Hk Fj Fk.
    destruct (Hcase j pj Hj) as [[-> ->]|[Nj Hj']], (Hcase k pk Hk) as [[-> ->]|[Nk Hk']].
    + done.
    + apply (ot_disjoint O s); [done|by exists k, pk].
    + apply or_comm. apply (ot_disjoint O s); [done|by exists j, pj].
    + by apply (sim_disjoint _ _ _ _ S j k pj pk s).
  - intros s x Hx. destruct (ot_cover O s x Hx) as [(g & n & Hf & H)|(g & n & (j & pj & N & Hj & Hf) & H)].
    + exists i, p', g, n. rewrite Ec. by rewrite list_lookup_insert_eq.
    + exists j, pj, g, n. rewrite Ec. by rewrite list_lookup_insert_ne.
  - intros s j k pj pk Hs Hj Hk Sj Sk. rewrite (single_kept M) in Hs.
    destruct (Hcase j pj Hj) as [[-> ->]|[Nj Hj']], (Hcase k pk Hk) as [[-> ->]|[Nk Hk']].
    + done.
    + destruct (ot_single O s Hs Sj) as [H|H]; [|by destruct (H k pk Nk Hk')].
      by apply (sim_single _ _ _ _ S s i k p pk).
    + destruct (ot_single O s Hs Sk) as [H|H]; [|by destruct (H j pj Nj Hj')].
      by apply (sim_single _ _ _ _ S s j i pj p).
    + by apply (sim_single _ _ _ _ S s j k pj pk).
Qed.
End one_step.

(** The configuration after a step of thread [i] that moves no head. *)
Definition set_pc (i : nat) (p : pc) (r : rte_ring) (c : conf) : conf :=
  mk_conf r (c_prod c) (c_cons c) (<[i := p]> (c_pcs c)).

Lemma moved_move s s' k c : moved s (move s' k c) = moved s c + (if decide (s = s') then k else 0).
Proof. by destruct s, s'; simpl; rewrite ?Z.add_0_r. Qed.

Lemma move_0 s c : move s 0 c = c.
Proof. destruct s, c; unfold move; simpl; by rewrite Z.add_0_r. Qed.

Section steps.
Context (w : nat) (tl : ring_side -> Z) (c : conf) (a : aconf) (S : sim w tl c a).
Context (i : nat) (p : pc) (Hi : c_pcs c !! i = Some p).

Lemma flying_other s g n j pj :
  c_pcs c !! j = Some pj -> flying pj = Some (s, g, n) -> flying p <> Some (s, g, n) ->
  others_fly c i s g n.
Proof. intros Hj Hf N. exists j, pj. split; [|done]. intros ->. congruence. Qed.

Lemma others_range s g n :
  others_fly c i s g n -> 0 < n /\ tl s <= g /\ g + n <= moved s c.
Proof. intros (j & pj & _ & Hj & Hf). exact (flying_range w tl c a S j pj s g n Hj Hf). Qed.

(** The thread's own reservation is apart from the others'. *)
Lemma others_apart s g n g' n' :
  flying p = Some (s, g, n) -> others_fly c i s g' n' -> g + n <= g' \/ g' + n' <= g.
Proof.
  intros Hf (j & pj & N & Hj & Hfj). by apply (sim_disjoint _ _ _ _ S i j p pj s).
Qed.

Lemma cover_cases s x :
  tl s <= x < moved s c ->
  (exists g n, flying p = Some (s, g, n) /\ g <= x < g + n)
  \/ (exists g n, others_fly c i s g n /\ g <= x < g + n).
Proof.
  intros Hx. destruct (sim_cover _ _ _ _ S s x Hx) as (j & pj & g & n & Hj & Hf & H).
  destruct (decide (j = i)) as [->|N].
  - left. exists g, n. by simplify_eq.
  - right. exists g, n. split; [|done]. by exists j, pj.
Qed.

(** A step that changes neither the ring nor the reservation of the thread. *)
Lemma sim_local p' x' :
  flying p' = flying p ->
  (forall s, single s (c_ring c) = true -> pc_side p' = Some s ->
    pc_side p = Some s
    \/ forall j pj, j <> i -> c_pcs c !! j = Some pj -> pc_side pj <> Some s) ->
  pc_ok w (c_ring c) (fun s => moved s c) tl p' x' ->
  sim w tl (set_pc i p' (c_ring c) c) (mk_aconf (a_q a) (<[i := x']> (a_pcs a))).
Proof.
  intros Hf Hs Hp. apply (sim_step w tl c a S i p Hi _ tl _ p'); [done| | |exact Hp].
  - split; try apply S; try done; intros s; try (split; reflexivity); by left.
  - split; [| | |exact Hs].
    + intros s g n O. split; [apply (others_range s g n O)|done].
    + rewrite Hf. apply others_apart.
    + rewrite Hf. apply cover_cases.
Qed.
End steps.

(** ** The points of a call *)

Section points.
Context (w : nat) (tl : ring_side -> Z) (c : conf) (a : aconf) (S : sim w tl c a) (i : nat).

#[local] Abbreviation ok := (pc_ok w (c_ring c) (fun s => moved s c) tl).

Lemma marks_room : 0 <= moved Cons c /\ tl Cons <= moved Cons c /\ moved Cons c <= tl Prod
  /\ tl Prod <= moved Prod c /\ moved Prod c <= tl Cons + capacity (c_ring c) /\ 0 <= tl Cons
  /\ 0 <= capacity (c_ring c) < size (c_ring c) /\ 0 < size (c_ring c) <= 2 ^ 31 /\ (0 < w)%nat.
Proof.
  pose proof (sim_order _ _ _ _ S). pose proof (sim_cap _ _ _ _ S).
  pose proof (geom_size_pos _ _ (sim_geom _ _ _ _ S)).
  pose proof (geom_w _ _ (sim_geom _ _ _ _ S)). lia.
Qed.

Lemma thread_apc p x : c_pcs c !! i = Some p -> a_pcs a !! i = Some x -> ok p x.
Proof.
  intros Hi Hx. destruct (thread_ok w tl c a S i p Hi) as (y & Hy & H). congruence.
Qed.

(** The abstract thread stays where it is. *)
Lemma aconf_same x : a_pcs a !! i = Some x -> mk_aconf (a_q a) (<[i := x]> (a_pcs a)) = a.
Proof. intros Hx. rewrite list_insert_id by done. by destruct a. Qed.

(** What a fresh thread sees is the room from the position it looked at. *)
Lemma room_seen_exact s old g :
  looked (c_ring c) (fun s => moved s c) tl s old g ->
  moved s c - g + capacity (c_ring c) < 2 ^ 32 ->
  room_seen s old (c_ring c) = room_from (c_ring c) tl s g.
Proof.
  intros (-> & Hg & Hr & _) Hf. pose proof marks_room.
  pose proof (sim_tail _ _ _ _ S Prod) as Hp. pose proof (sim_tail _ _ _ _ S Cons) as Hc.
  simpl in Hp, Hc. unfold room_seen, room_from in *. destruct s.
  - rewrite Hc, wrap_sub_r, <- wrap_sub_l, wrap_add_r, wrap_sub_l.
    apply wrap_small. unfold fits. lia.
  - rewrite Hp, wrap_sub_l, wrap_sub_r. apply wrap_small. unfold fits. lia.
Qed.

(** When a compare-and-swap succeeds, the head is where it was read. *)
Lemma swap_exact s old g :
  looked (c_ring c) (fun s => moved s c) tl s old g ->
  moved s c - g + capacity (c_ring c) < 2 ^ 32 ->
  single s (c_ring c) || (head (side s (c_ring c)) =? old) = true -> g = moved s c.
Proof.
  intros (-> & Hg & _ & Hs) Hf Ht. pose proof marks_room.
  apply orb_true_iff in Ht as [Ht|Ht]; [auto|].
  apply Z.eqb_eq in Ht. rewrite (sim_head _ _ _ _ S) in Ht.
  symmetry. apply u32_inj; [done|lia].
Qed.

Lemma copying_busy s buf old n room j g x :
  copying w (c_ring c) (fun s => moved s c) tl s buf old n room j g x -> x <> AIdle.
Proof.
  intros (_ & _ & _ & _ & _ & _ & H) ->.
  destruct s; [by destruct H as (? & ? & ? & _)|by destruct H as (? & ? & _)].
Qed.

(** While something is reserved and not published, another call is under way. *)
Lemma others_busy p s :
  c_pcs c !! i = Some p -> flying p = None -> tl s < moved s c -> a_others i a.
Proof.
  intros Hi Hf Hlt. destruct (sim_cover _ _ _ _ S s (tl s) ltac:(lia)) as (j & pj & g & n & Hj & Hfj & _).
  destruct (thread_ok w tl c a S j pj Hj) as (x & Hx & Ho).
  exists j, x. split; [intros ->; congruence|]. split; [done|].
  destruct pj; try done; simpl in Ho; [| |destruct Ho as [Ho _]]; by eapply copying_busy.
Qed.

Lemma sim_call s n b buf :
  c_pcs c !! i = Some Idle -> call_ok w c s n buf ->
  sim w tl (set_pc i (ReadHead s n b buf) (c_ring c) c)
    (mk_aconf (a_q a) (<[i := ACalled s n b buf]> (a_pcs a))).
Proof.
  intros Hi (Hn & Hb & Hs). apply (sim_local w tl c a S i Idle Hi); [done| |done].
  intros s' Hs' E. simpl in E. simplify_eq. right. intros j pj _ Hj.
  by eapply (Forall_lookup_1 _ _ j pj (Hs Hs')).
Qed.

Lemma sim_return s n room buf :
  c_pcs c !! i = Some (Finish s n room buf) ->
  sim w tl (set_pc i Idle (c_ring c) c) (mk_aconf (a_q a) (<[i := AIdle]> (a_pcs a))).
Proof. intros Hi. by apply (sim_local w tl c a S i _ Hi). Qed.

Lemma sim_read_head s max b buf x :
  c_pcs c !! i = Some (ReadHead s max b buf) -> a_pcs a !! i = Some x ->
  sim w tl (set_pc i (ReadTail s max b buf (head (side s (c_ring c))) (moved s c)) (c_ring c) c)
    (mk_aconf (a_q a) (<[i := x]> (a_pcs a))).
Proof.
  intros Hi Hx. pose proof (thread_apc _ _ Hi Hx) as [E Ho]. pose proof marks_room.
  apply (sim_local w tl c a S i _ Hi); [done|by left|].
  split; [done|]. split; [done|]. split; [apply S|].
  destruct s; simpl in *; repeat split; lia.
Qed.

Lemma sim_read_tail s max b buf old g n x :
  let room := room_seen s old (c_ring c) in
  c_pcs c !! i = Some (ReadTail s max b buf old g) -> a_pcs a !! i = Some x ->
  moved s c - g + capacity (c_ring c) < 2 ^ 32 ->
  n = clip b max room -> n <> 0 ->
  sim w tl (set_pc i (Swap s max b buf old n room g) (c_ring c) c)
    (mk_aconf (a_q a) (<[i := x]> (a_pcs a))).
Proof.
  intros room Hi Hx Hf En N. pose proof (thread_apc _ _ Hi Hx) as (E & Ho & Hl).
  apply (sim_local w tl c a S i _ Hi); [done|by left|].
  split; [done|]. split; [done|]. split; [done|]. split; [done|]. split; [done|].
  unfold room. rewrite (room_seen_exact _ _ _ Hl Hf). destruct Hl as (_ & _ & ? & _). lia.
Qed.

(** A call that finds no room or not enough elements. *)
Lemma sim_refused s max b buf old g :
  let room := room_seen s old (c_ring c) in
  c_pcs c !! i = Some (ReadTail s max b buf old g) ->
  moved s c - g + capacity (c_ring c) < 2 ^ 32 -> clip b max room = 0 ->
  exists a', sim w tl (set_pc i (Finish s 0 (u32 (room - 0)) buf) (c_ring c) c) a'
    /\ astep (capacity (c_ring c)) w a None a'.
Proof.
  intros room Hi Hf Hn. destruct (thread_ok w tl c a S i _ Hi) as (x & Hx & -> & Ho & Hl).
  pose proof (room_seen_exact _ _ _ Hl Hf) as Er. fold room in Er.
  destruct Hl as (_ & Hg & Hr & _). pose proof marks_room as Hm.
  pose proof (sim_count _ _ _ _ S) as Hcnt.
  assert (u32 (room - 0) = room) as ->.
  { rewrite Z.sub_0_r. apply wrap_small. unfold fits. rewrite Er. destruct s; simpl in *; lia. }
  eexists. split.
  - by apply (sim_local w tl c a S i _ Hi); [|by left|].
  - destruct s; simpl in Er, Hg, Hr.
    + apply (a_full _ w a i max b buf room Hx Hn).
      destruct (decide (tl Cons < moved Cons c)) as [Hb|Hb].
      { right. by apply (others_busy _ Cons Hi). }
      destruct (decide (tl Prod < moved Prod c)) as [Hb'|Hb'].
      { right. by apply (others_busy _ Prod Hi). }
      left. simpl in *. lia.
    + apply (a_empty _ w a i max b buf room Hx Hn). simpl in *. lia.
Qed.

Lemma sim_swap_failed s max b buf old n room g x :
  c_pcs c !! i = Some (Swap s max b buf old n room g) -> a_pcs a !! i = Some x ->
  sim w tl (set_pc i (ReadHead s max b buf) (c_ring c) c)
    (mk_aconf (a_q a) (<[i := x]> (a_pcs a))).
Proof.
  intros Hi Hx. pose proof (thread_apc _ _ Hi Hx) as (E & Ho & _).
  by apply (sim_local w tl c a S i _ Hi); [|by left|].
Qed.

(** The marks after a reservation of [n] on a side. *)
Definition reserved (s : ring_side) (n : Z) (p : pc) : conf :=
  move s n (set_pc i p (set_side s (set_head (u32 (moved s c + n)) (side s (c_ring c)))
    (c_ring c)) c).

Lemma reserved_ring s n p : c_ring (reserved s n p)
  = set_side s (set_head (u32 (moved s c + n)) (side s (c_ring c))) (c_ring c).
Proof. by destruct s. Qed.

Lemma reserved_pcs s n p : c_pcs (reserved s n p) = <[i := p]> (c_pcs c).
Proof. by destruct s. Qed.

Lemma reserved_moved s n p s' :
  moved s' (reserved s n p) = moved s' c + (if decide (s' = s) then n else 0).
Proof. unfold reserved. rewrite moved_move. by destruct s'. Qed.

Lemma reserved_side s n p s' : let h := side s' (c_ring (reserved s n p)) in
  sync_type h = sync_type (side s' (c_ring c)) /\ tail h = tail (side s' (c_ring c))
  /\ head h = u32 (moved s' (reserved s n p)).
Proof.
  rewrite reserved_ring, reserved_moved. pose proof (sim_head _ _ _ _ S s') as Hh.
  destruct (decide (s' = s)) as [->|N].
  - by rewrite side_set_side.
  - rewrite side_set_side_ne by done. rewrite Z.add_0_r. auto.
Qed.

Lemma reserved_word s n p x : word w (c_ring (reserved s n p)) x = word w (c_ring c) x.
Proof. rewrite reserved_ring. apply word_set_side. Qed.

(** A thread about to reserve, in the order of the marks. *)
Lemma swap_range s max b buf old n room g x :
  c_pcs c !! i = Some (Swap s max b buf old n room g) -> a_pcs a !! i = Some x ->
  g = moved s c ->
  x = ACalled s max b buf /\ fits 32 max /\ (Z.to_nat n * w <= length buf)%nat
  /\ n = clip b max room /\ 0 < n <= room /\ old = u32 g
  /\ 0 <= room <= room_from (c_ring c) tl s (moved s c).
Proof.
  intros Hi Hx ->. destruct (thread_apc _ _ Hi Hx) as (E & [Hm Ho] & Hl & En & N & Hr).
  destruct Hl as (Eo & _). pose proof (clip_range b max room) as Hc. unfold fits in Hm.
  assert (Z.to_nat n * w <= Z.to_nat max * w)%nat by (apply Nat.mul_le_mono_r; lia).
  repeat split; try done; lia.
Qed.

Lemma reserve_marks s max b buf old n room g x p' q' :
  c_pcs c !! i = Some (Swap s max b buf old n room g) -> a_pcs a !! i = Some x ->
  g = moved s c ->
  Z.of_nat (length q') = tl Prod - moved Cons (reserved s n p') ->
  Forall (fun x => length x = w) q' ->
  (forall k, (k < length (concat q'))%nat ->
    word w (c_ring c) (moved Cons (reserved s n p') * Z.of_nat w + Z.of_nat k) = concat q' !! k) ->
  marks_ok w tl c (Swap s max b buf old n room g) (reserved s n p') tl q'.
Proof.
  intros Hi Hx Hg Hlen Hwid Hwords. pose proof marks_room as Hm.
  destruct (swap_range _ _ _ _ _ _ _ _ _ Hi Hx Hg) as (_ & _ & _ & _ & Hn & _ & Hr).
  split; try done.
  - rewrite reserved_ring. apply geom_set_side, (sim_geom _ _ _ _ S).
  - by rewrite reserved_ring, capacity_set_side.
  - by rewrite reserved_ring, size_set_side.
  - intros s'. apply reserved_side.
  - intros s'. apply reserved_side.
  - intros s'. destruct (reserved_side s n p' s') as (_ & -> & _). apply S.
  - rewrite reserved_ring, capacity_set_side, !reserved_moved.
    destruct s; simpl in *; repeat case_decide; try done; lia.
  - intros s'. rewrite reserved_moved. case_decide; lia.
  - intros s'. rewrite reserved_moved. case_decide as E; [subst; by right|left; lia].
  - intros k Hk. rewrite reserved_word. auto.
Qed.

Lemma reserve_others s max b buf old n room g x p' :
  c_pcs c !! i = Some (Swap s max b buf old n room g) -> a_pcs a !! i = Some x ->
  g = moved s c -> pc_side p' = Some s -> flying p' = Some (s, g, n) ->
  others_ok w c i (Swap s max b buf old n room g) (reserved s n p') tl p'.
Proof.
  intros Hi Hx Hg Hs Hf.
  destruct (swap_range _ _ _ _ _ _ _ _ _ Hi Hx Hg) as (_ & _ & _ & _ & Hn & _).
  split.
  - intros s' g' n' O. pose proof (others_range w tl c a S i _ _ _ O).
    split; [lia|]. intros. apply reserved_word.
  - intros s' g' n' g2 n2 E O. rewrite Hf in E. simplify_eq.
    pose proof (others_range w tl c a S i _ _ _ O). lia.
  - intros s' y Hy. rewrite reserved_moved in Hy.
    destruct (decide (y < moved s' c)) as [Hlt|Hge].
    + destruct (cover_cases w tl c a S i _ Hi s' y ltac:(lia)) as [(? & ? & ? & _)|?]; [done|by right].
    + case_decide; [|lia]. subst. left. exists (moved s c), n. split; [done|lia].
  - intros s' _ E. left. simpl. congruence.
Qed.

Lemma sim_swap_prod max b buf old n room g x :
  c_pcs c !! i = Some (Swap Prod max b buf old n room g) -> a_pcs a !! i = Some x ->
  g = moved Prod c ->
  sim w tl (reserved Prod n (Copy Prod buf old n room 0 g))
    (mk_aconf (a_q a) (<[i := x]> (a_pcs a))).
Proof.
  intros Hi Hx Hg.
  destruct (swap_range _ _ _ _ _ _ _ _ _ Hi Hx Hg) as (-> & Hf & Hb & En & Hn & Eo & Hr).
  pose proof marks_room as Hm. apply (sim_step w tl c a S i _ Hi _ _ _ _ _ (reserved_pcs _ _ _)).
  - apply (reserve_marks _ _ _ _ _ _ _ _ _ _ _ Hi Hx Hg).
    + rewrite reserved_moved. simpl. rewrite Z.add_0_r. apply S.
    + apply S.
    + intros k Hk. rewrite reserved_moved. simpl. rewrite Z.add_0_r. by apply S.
  - by apply (reserve_others _ _ _ _ _ _ _ _ _ _ Hi Hx Hg).
  - unfold pc_ok, copying. rewrite !reserved_moved, decide_True by done.
    rewrite Hg. repeat split; try done; try lia; [congruence|].
    exists max, b. repeat split; try done; try lia.
    rewrite reserved_ring. simpl in *. lia.
Qed.

Lemma sim_swap_cons max b buf old n room g x :
  c_pcs c !! i = Some (Swap Cons max b buf old n room g) -> a_pcs a !! i = Some x ->
  g = moved Cons c ->
  exists a', sim w tl (reserved Cons n (Copy Cons buf old n room 0 g)) a'
    /\ astep (capacity (c_ring c)) w a None a'.
Proof.
  intros Hi Hx Hg.
  destruct (swap_range _ _ _ _ _ _ _ _ _ Hi Hx Hg) as (-> & Hf & Hb & En & Hn & Eo & Hr).
  pose proof marks_room as Hm. unfold room_from in Hr. pose proof (sim_count _ _ _ _ S) as Hq.
  unfold a_count in Hq. pose proof (sim_width _ _ _ _ S) as Hwid.
  set (k := Z.to_nat n) in *. set (items := take k (a_q a)).
  assert (length items = k) as Hi' by (unfold items; rewrite length_take; lia).
  assert (length (concat items) = (k * w)%nat) as Hci.
  { rewrite (length_concat_width w); [by rewrite Hi'|]. by apply Forall_take. }
  eexists. split.
  2:{ eapply (a_dequeue _ w a i max b buf room items (drop k (a_q a)) Hx).
      - unfold a_count. lia.
      - lia.
      - symmetry. apply take_drop.
      - by rewrite <- En. }
  rewrite <- En. apply (sim_step w tl c a S i _ Hi _ _ _ _ _ (reserved_pcs _ _ _)).
  - apply (reserve_marks _ _ _ _ _ _ _ _ _ _ _ Hi Hx Hg).
    + rewrite reserved_moved, decide_True, length_drop by done. lia.
    + by apply Forall_drop.
    + intros j. rewrite reserved_moved, decide_True, (concat_drop w), length_drop, lookup_drop by done.
      intros Hj. rewrite <- (sim_words _ _ _ _ S) by lia. f_equal. lia.
  - by apply (reserve_others _ _ _ _ _ _ _ _ _ _ Hi Hx Hg).
  - unfold pc_ok, copying. rewrite !reserved_moved, decide_True by done. fold k.
    rewrite Hg. repeat split; try done; try lia; [congruence|].
    exists (concat items ++ drop (k * w) buf).
    split; [f_equal; symmetry; apply wrap_small; unfold fits; lia|].
    split; [rewrite length_app, Hci, length_drop; lia|]. split.
    + intros j Hj. rewrite lookup_app_r, lookup_drop by lia. f_equal. lia.
    + intros j Hj. rewrite reserved_word, lookup_app_l by lia. unfold items.
      rewrite (concat_take w), lookup_take_lt by (done || lia).
      apply S. rewrite (length_concat_width w) by done. nia.
Qed.

(** *** The copy *)

Let W : Z := Z.of_nat w.

(** Two words between the consumer tail and the producer head are different
    words of the memory. *)
Lemma words_apart x y :
  tl Cons * W <= x < moved Prod c * W -> tl Cons * W <= y < moved Prod c * W ->
  - (size (c_ring c) * W) < x - y < size (c_ring c) * W.
Proof.
  intros Hx Hy. pose proof marks_room as Hm.
  assert ((moved Prod c - tl Cons) * W <= size (c_ring c) * W)
    by (apply Z.mul_le_mono_nonneg_r; lia). lia.
Qed.

(** The words of a reservation of [n] elements at [g]. *)
Lemma word_range g n k lo hi :
  lo <= g -> g + n <= hi -> 0 < n -> (k < Z.to_nat n * w)%nat ->
  lo * W <= g * W + Z.of_nat k < hi * W /\ g * W + Z.of_nat k < (g + n) * W.
Proof.
  intros Hlo Hhi Hn Hk. assert (Z.of_nat k < n * W) by lia.
  pose proof (Z.mul_le_mono_nonneg_r lo g W ltac:(lia) Hlo).
  pose proof (Z.mul_le_mono_nonneg_r (g + n) hi W ltac:(lia) Hhi). lia.
Qed.

(** A producer's write of word [j] of its reservation does not touch a word of
    another element. *)
Lemma write_apart g n j x y :
  tl Prod <= g -> g + n <= moved Prod c -> 0 < n -> (j < Z.to_nat n * w)%nat ->
  tl Cons * W <= y < moved Prod c * W -> y <> g * W + Z.of_nat j ->
  word w (written w (c_ring c) g j x) y = word w (c_ring c) y.
Proof.
  intros Hg Hn Hp Hj Hy N. pose proof marks_room as Hm.
  apply word_written_ne; [apply S|lia|done|].
  apply words_apart; [done|].
  apply (word_range g n j); lia.
Qed.

Lemma copy_apart_others buf old n room j g x s' g' n' k :
  c_pcs c !! i = Some (Copy Prod buf old n room j g) ->
  tl Prod <= g -> g + n <= moved Prod c -> 0 < n -> (j < Z.to_nat n * w)%nat ->
  others_fly c i s' g' n' -> (k < Z.to_nat n' * w)%nat ->
  word w (written w (c_ring c) g j x) (g' * W + Z.of_nat k)
  = word w (c_ring c) (g' * W + Z.of_nat k).
Proof.
  intros Hi Hg Hn Hp Hj O Hk. pose proof marks_room as Hm.
  pose proof (others_range w tl c a S i _ _ _ O) as (Hp' & Hlo & Hhi).
  pose proof (word_range g n j (tl Prod) _ Hg Hn Hp Hj) as [Hx Hx'].
  assert (tl Cons <= g' /\ g' + n' <= moved Prod c) as [Hlo' Hhi'] by (destruct s'; lia).
  pose proof (word_range g' n' k _ _ Hlo' Hhi' Hp' Hk) as [Hy Hy'].
  apply (write_apart g n); try done. destruct s'.
  - destruct (others_apart w tl c a S i _ Hi Prod g n g' n' eq_refl O) as [H|H];
      apply (Z.mul_le_mono_nonneg_r _ _ W) in H; lia.
  - assert (g' + n' <= tl Prod) as H by lia. apply (Z.mul_le_mono_nonneg_r _ _ W) in H; lia.
Qed.

Lemma sim_copy_prod buf old n room j g v x :
  c_pcs c !! i = Some (Copy Prod buf old n room j g) -> a_pcs a !! i = Some x ->
  (j < Z.to_nat n * w)%nat -> buf !! j = Some v ->
  sim w tl (set_pc i (Copy Prod buf old n room (Datatypes.S j) g)
      (written w (c_ring c) g j v) c)
    (mk_aconf (a_q a) (<[i := x]> (a_pcs a))).
Proof.
  intros Hi Hx Hj Hv. destruct (thread_apc _ _ Hi Hx) as (Eo & Hp & Hg & Hn & Hb & _ & HC).
  destruct HC as (max & b & -> & En & Hr & HC). pose proof marks_room as Hm.
  apply (sim_step w tl c a S i _ Hi (set_pc i _ _ c) _ _ _ _ eq_refl).
  - split; try apply S; try done; try (intros s; split; reflexivity); try (intros s; by left).
    + apply geom_set_slots; [apply S|by rewrite length_insert].
    + intros k Hk. rewrite <- (sim_words _ _ _ _ S k Hk).
      rewrite (length_concat_width w) in Hk by apply S.
      pose proof (sim_count _ _ _ _ S) as Hq. unfold a_count in Hq.
      pose proof (word_range (moved Cons c) (tl Prod - moved Cons c) k (tl Cons) (tl Prod)
        ltac:(lia) ltac:(lia) ltac:(destruct (a_q a); simpl in *; lia) ltac:(nia)) as [Hk1 _].
      pose proof (Z.mul_le_mono_nonneg_r _ _ W ltac:(lia) Hg).
      pose proof (Z.mul_le_mono_nonneg_r (tl Prod) (moved Prod c) W ltac:(lia) ltac:(lia)).
      apply (write_apart g n); lia || done.
  - split.
    + intros s g' n' O. split; [apply (others_range w tl c a S i _ _ _ O)|].
      intros k Hk. by apply (copy_apart_others buf old n room j g v s g' n' k Hi).
    + intros s g1 n1 g' n' E O. by apply (others_apart w tl c a S i _ Hi s).
    + apply (cover_cases w tl c a S i _ Hi).
    + intros s _ E. by left.
  - split; [done|]. do 4 (split; [done|]). split; [lia|].
    exists max, b. split; [done|]. split; [done|]. split; [done|]. intros k Hk.
    destruct (decide (k = j)) as [->|N].
    + transitivity (Some v); [|done]. apply word_written_eq; [apply S|lia].
    + rewrite <- HC by lia. apply (write_apart g n); try done; [|lia].
      apply (word_range g n k); lia.
Qed.

Lemma sim_copy_cons buf old n room j g v x :
  c_pcs c !! i = Some (Copy Cons buf old n room j g) -> a_pcs a !! i = Some x ->
  (j < Z.to_nat n * w)%nat -> word w (c_ring c) (g * W + Z.of_nat j) = Some v ->
  sim w tl (set_pc i (Copy Cons (<[j := v]> buf) old n room (Datatypes.S j) g) (c_ring c) c)
    (mk_aconf (a_q a) (<[i := x]> (a_pcs a))).
Proof.
  intros Hi Hx Hj Hv. destruct (thread_apc _ _ Hi Hx) as (Eo & Hp & Hg & Hn & Hb & _ & HC).
  destruct HC as (res & -> & Hl & H1 & H2).
  apply (sim_local w tl c a S i _ Hi); [done|by left|].
  split; [done|]. do 3 (split; [done|]). rewrite length_insert.
  split; [done|]. split; [lia|]. exists res. do 2 (split; [done|]). split.
  - intros k Hk. destruct (decide (k = j)) as [->|N].
    + rewrite list_lookup_insert_eq by lia. rewrite <- Hv. apply H2. lia.
    + rewrite list_lookup_insert_ne by done. apply H1. lia.
  - intros k Hk. apply H2. lia.
Qed.

(** A thread that has a single side for itself is first in line. *)
Lemma single_first p s g n :
  c_pcs c !! i = Some p -> pc_side p = Some s -> flying p = Some (s, g, n) ->
  single s (c_ring c) = true -> tl s = g.
Proof.
  intros Hi Hs Hf Hsi. pose proof (flying_range w tl c a S i p s g n Hi Hf) as Hr.
  destruct (sim_cover _ _ _ _ S s (tl s) ltac:(lia)) as (j & pj & g' & n' & Hj & Hfj & Hx).
  assert (pc_side pj = Some s) as Hsj by (destruct pj; simpl in *; congruence).
  pose proof (sim_single _ _ _ _ S s i j p pj Hsi Hi Hj Hs Hsj) as <-. simplify_eq. lia.
Qed.

Lemma sim_copied s buf old n room j g x p' :
  c_pcs c !! i = Some (Copy s buf old n room j g) -> a_pcs a !! i = Some x ->
  ~ (j < Z.to_nat n * w)%nat ->
  p' = (if single s (c_ring c) then Publish s buf old n room g else Wait s buf old n room g) ->
  sim w tl (set_pc i p' (c_ring c) c) (mk_aconf (a_q a) (<[i := x]> (a_pcs a))).
Proof.
  intros Hi Hx Hj ->. pose proof (thread_apc _ _ Hi Hx) as HC.
  assert (j = Z.to_nat n * w)%nat as ->.
  { destruct HC as (_ & _ & _ & _ & _ & H & _). lia. }
  apply (sim_local w tl c a S i _ Hi); destruct (single s (c_ring c)) eqn:Es; try done;
    try by left.
  split; [done|]. by apply (single_first _ s g n Hi).
Qed.

Lemma sim_wait s buf old n room g x :
  c_pcs c !! i = Some (Wait s buf old n room g) -> a_pcs a !! i = Some x ->
  tail (side s (c_ring c)) = old ->
  sim w tl (set_pc i (Publish s buf old n room g) (c_ring c) c)
    (mk_aconf (a_q a) (<[i := x]> (a_pcs a))).
Proof.
  intros Hi Hx Ht. pose proof (thread_apc _ _ Hi Hx) as HC. pose proof marks_room as Hm.
  apply (sim_local w tl c a S i _ Hi); [done|by left|]. split; [exact HC|].
  destruct HC as (-> & Hp & Hg & Hn & _). rewrite (sim_tail _ _ _ _ S) in Ht.
  apply u32_inj; [done|]. destruct s; lia.
Qed.

(** *** The publication *)

(** The tails after the publication of [n] elements on a side. *)
Definition advanced (s : ring_side) (n : Z) (s' : ring_side) : Z :=
  tl s' + (if decide (s' = s) then n else 0).

Definition published (s : ring_side) (n : Z) (p : pc) : conf :=
  set_pc i p (set_side s (set_tail (u32 (tl s + n)) (side s (c_ring c))) (c_ring c)) c.

Lemma published_side s n p s' : let h := side s' (c_ring (published s n p)) in
  sync_type h = sync_type (side s' (c_ring c)) /\ head h = head (side s' (c_ring c))
  /\ tail h = u32 (advanced s n s').
Proof.
  unfold advanced. pose proof (sim_tail _ _ _ _ S s') as Hh. unfold published.
  cbn [c_ring set_pc]. destruct (decide (s' = s)) as [->|N].
  - by rewrite side_set_side.
  - rewrite side_set_side_ne by done. rewrite Z.add_0_r. auto.
Qed.

Lemma publish_others s buf old n room g p' :
  c_pcs c !! i = Some (Publish s buf old n room g) -> tl s = g -> 0 < n ->
  flying p' = None -> pc_side p' = Some s ->
  others_ok w c i (Publish s buf old n room g) (published s n p') (advanced s n) p'.
Proof.
  intros Hi Ht Hp Hf Hs. split.
  - intros s' g' n' O. pose proof (others_range w tl c a S i _ _ _ O). split.
    + unfold advanced. case_decide as E; [|lia]. subst.
      destruct (others_apart w tl c a S i _ Hi s (tl s) n g' n' eq_refl O); lia.
    + intros k Hk. apply word_set_side.
  - congruence.
  - intros s' y Hy. unfold advanced in Hy.
    assert (tl s' <= y < moved s' c) as Hy'.
    { split; [case_decide; lia|]. destruct s'; apply Hy. }
    destruct (cover_cases w tl c a S i _ Hi s' y Hy') as [(g1 & n1 & E & H)|]; [|by right].
    simpl in E. simplify_eq. rewrite decide_True in Hy by done. lia.
  - intros s' _ E. left. simpl. congruence.
Qed.

Lemma publish_marks s buf old n room g p' q' :
  c_pcs c !! i = Some (Publish s buf old n room g) -> tl s = g -> 0 < n ->
  Z.of_nat (length q') = advanced s n Prod - moved Cons c ->
  Forall (fun x => length x = w) q' ->
  (forall k, (k < length (concat q'))%nat ->
    word w (c_ring c) (moved Cons c * W + Z.of_nat k) = concat q' !! k) ->
  marks_ok w tl c (Publish s buf old n room g) (published s n p') (advanced s n) q'.
Proof.
  intros Hi Ht Hp Hlen Hwid Hwords. pose proof marks_room as Hm.
  pose proof (flying_range w tl c a S i _ s g n Hi eq_refl) as Hr.
  split; try done.
  - apply geom_set_side, (sim_geom _ _ _ _ S).
  - apply capacity_set_side.
  - apply size_set_side.
  - intros s'. apply published_side.
  - intros s'. destruct (published_side s n p' s') as (_ & -> & _). apply S.
  - intros s'. apply published_side.
  - replace (capacity (c_ring (published s n p'))) with (capacity (c_ring c)) by (by destruct s).
    change (moved Prod (published s n p')) with (moved Prod c).
    change (moved Cons (published s n p')) with (moved Cons c).
    unfold advanced. destruct s; repeat case_decide; try done; lia.
  - intros s'. split; [by destruct s'|]. unfold advanced. case_decide; lia.
  - intros s'. left. by destruct s'.
  - intros k Hk. rewrite <- Hwords by done. apply word_set_side.
Qed.

(** The words of the queue when the reservation at its end is published. *)
Lemma publish_words buf n k :
  0 < n -> (Z.to_nat n * w <= length buf)%nat ->
  (forall j, (j < Z.to_nat n * w)%nat ->
    word w (c_ring c) (tl Prod * W + Z.of_nat j) = buf !! j) ->
  (k < length (concat (a_q a ++ chunks w (Z.to_nat n) buf)))%nat ->
  word w (c_ring c) (moved Cons c * W + Z.of_nat k)
  = concat (a_q a ++ chunks w (Z.to_nat n) buf) !! k.
Proof.
  intros Hp Hb HC. rewrite concat_app, concat_chunks, length_app, length_take by done.
  pose proof (length_concat_width w (a_q a) (sim_width _ _ _ _ S)) as Hl.
  pose proof (sim_count _ _ _ _ S) as Hq. unfold a_count in Hq. intros Hk.
  destruct (decide (k < length (concat (a_q a)))%nat) as [Hlt|Hge].
  - rewrite lookup_app_l by done. by apply S.
  - rewrite lookup_app_r, lookup_take_lt by lia. rewrite <- HC by lia.
    f_equal. rewrite Hl, Nat2Z.inj_sub, Nat2Z.inj_mul by lia. fold W.
    replace (Z.of_nat (length (a_q a))) with (tl Prod - moved Cons c). lia.
Qed.

Lemma sim_publish_prod buf old n room g x :
  c_pcs c !! i = Some (Publish Prod buf old n room g) -> a_pcs a !! i = Some x ->
  exists a', sim w (advanced Prod n)
      (published Prod n (Finish Prod n (u32 (room - n)) buf)) a'
    /\ astep (capacity (c_ring c)) w a None a'.
Proof.
  intros Hi Hx. destruct (thread_apc _ _ Hi Hx) as [(Eo & Hp & Hg & Hn & Hb & _ & HC) Ht].
  destruct HC as (max & b & -> & En & Hr & HC). pose proof marks_room as Hm.
  pose proof (sim_count _ _ _ _ S) as Hq. unfold a_count in Hq. unfold room_from in Hr.
  pose proof (clip_le b max room ltac:(lia)) as Hle.
  assert (u32 (room - n) = room - n) as -> by (apply wrap_small; unfold fits; lia).
  eexists. split.
  2:{ apply (a_enqueue _ w a i max b buf room Hx); [unfold a_count; lia|lia]. }
  rewrite <- En. apply (sim_step w tl c a S i _ Hi (published Prod n _) _ _ _ _ eq_refl).
  - eapply (publish_marks _ _ _ _ _ _ _ _ Hi); try done.
    + rewrite length_app, length_chunks. unfold advanced. rewrite decide_True by done. lia.
    + apply Forall_app. split; [apply S|by apply chunks_width].
    + intros k. apply publish_words; [done|done|]. by rewrite Ht.
  - by apply (publish_others _ _ _ _ _ _ _ Hi).
  - done.
Qed.

Lemma sim_publish_cons buf old n room g x :
  c_pcs c !! i = Some (Publish Cons buf old n room g) -> a_pcs a !! i = Some x ->
  sim w (advanced Cons n) (published Cons n (Finish Cons n (u32 (room - n)) buf))
    (mk_aconf (a_q a) (<[i := x]> (a_pcs a))).
Proof.
  intros Hi Hx. destruct (thread_apc _ _ Hi Hx) as [(Eo & Hp & Hg & Hn & Hb & _ & HC) Ht].
  destruct HC as (res & -> & Hl & H1 & _).
  assert (res = buf) as ->.
  { apply list_eq. intros k. symmetry. apply H1. lia. }
  apply (sim_step w tl c a S i _ Hi (published Cons n _) _ _ _ _ eq_refl).
  - eapply (publish_marks _ _ _ _ _ _ _ _ Hi); try done; try apply S.
    unfold advanced. rewrite decide_False, Z.add_0_r by done. apply S.
  - by apply (publish_others _ _ _ _ _ _ _ Hi).
  - done.
Qed.

(** ** Every step *)

Definition simulated (c' : conf) : Prop :=
  exists tl' a', sim w tl' c' a' /\ (a' = a \/ astep (capacity (c_ring c)) w a None a').

(** A step the specification does not see. *)
Lemma simulated_silent tl' c' x :
  a_pcs a !! i = Some x -> sim w tl' c' (mk_aconf (a_q a) (<[i := x]> (a_pcs a))) ->
  simulated c'.
Proof. intros Hx Hs. rewrite (aconf_same x Hx) in Hs. exists tl', a. auto. Qed.

Lemma simulated_effect tl' c' :
  (exists a', sim w tl' c' a' /\ astep (capacity (c_ring c)) w a None a') -> simulated c'.
Proof. intros (a' & Hs & Ha). exists tl', a'. auto. Qed.

Lemma sim_swap s max b buf old n room g p' r' k x :
  c_pcs c !! i = Some (Swap s max b buf old n room g) -> a_pcs a !! i = Some x ->
  moved s c - g + capacity (c_ring c) < 2 ^ 32 ->
  thread_step w (moved s c) (Swap s max b buf old n room g) (c_ring c) = Some (p', r', k) ->
  simulated (move s k (set_pc i p' r' c)).
Proof.
  intros Hi Hx Hf Ht. cbn [thread_step] in Ht.
  destruct (thread_apc _ _ Hi Hx) as (_ & _ & Hl & _).
  destruct (single s (c_ring c) || _) eqn:E; simplify_eq.
  - pose proof (swap_exact _ _ _ Hl Hf E) as Hg.
    assert (u32 (old + k) = u32 (moved s c + k)) as ->.
    { destruct Hl as (-> & _). by rewrite wrap_add_l, Hg. }
    destruct s.
    + by apply (simulated_silent tl _ x Hx), (sim_swap_prod _ _ _ _ _ _ _ _ Hi Hx).
    + by apply (simulated_effect tl), (sim_swap_cons _ _ _ _ _ _ _ _ Hi Hx).
  - rewrite move_0. apply (simulated_silent tl _ x Hx).
    by apply (sim_swap_failed _ _ _ _ _ _ _ _ _ Hi Hx).
Qed.

Lemma sim_copy s buf old n room j g p' r' k x :
  c_pcs c !! i = Some (Copy s buf old n room j g) -> a_pcs a !! i = Some x ->
  thread_step w (moved s c) (Copy s buf old n room j g) (c_ring c) = Some (p', r', k) ->
  simulated (move s k (set_pc i p' r' c)).
Proof.
  intros Hi Hx Ht. cbn [thread_step] in Ht. pose proof marks_room as Hm.
  destruct (thread_apc _ _ Hi Hx) as (Eo & _ & Hg & _).
  destruct (j <? _)%nat eqn:Ej.
  - apply Nat.ltb_lt in Ej. destruct s.
    + destruct (buf !! j) as [v|] eqn:Ev; [|done]. cbn [mbind option_bind] in Ht.
      destruct (slots (c_ring c) !! _); [|done]. cbn [mbind option_bind] in Ht. simplify_eq.
      rewrite move_0. apply (simulated_silent tl _ x Hx).
      by apply (sim_copy_prod _ _ _ _ _ _ _ _ Hi Hx).
    + destruct (slots (c_ring c) !! _) as [v|] eqn:Ev; [|done]. cbn [mbind option_bind] in Ht.
      destruct (buf !! j); [|done]. cbn [mbind option_bind] in Ht. simplify_eq.
      rewrite move_0. apply (simulated_silent tl _ x Hx).
      apply (sim_copy_cons _ _ _ _ _ _ _ _ Hi Hx Ej).
      rewrite <- Ev. symmetry. apply slots_lookup_word; [apply S|lia].
  - apply Nat.ltb_ge in Ej.
    assert (r' = c_ring c /\ k = 0 /\ p' = if single s (c_ring c) then Publish s buf old n room g
      else Wait s buf old n room g) as (-> & -> & Ep) by (destruct (single s _); by simplify_eq).
    rewrite move_0. apply (simulated_silent tl _ x Hx).
    apply (sim_copied _ _ _ _ _ _ _ _ _ Hi Hx); [lia|done].
Qed.

Lemma sim_publish s buf old n room g x :
  c_pcs c !! i = Some (Publish s buf old n room g) -> a_pcs a !! i = Some x ->
  simulated (move s 0 (set_pc i (Finish s n (u32 (room - n)) buf)
    (set_side s (set_tail (u32 (old + n)) (side s (c_ring c))) (c_ring c)) c)).
Proof.
  intros Hi Hx. rewrite move_0. destruct (thread_apc _ _ Hi Hx) as [(Eo & _) Ht].
  assert (u32 (old + n) = u32 (tl s + n)) as -> by (by rewrite Eo, wrap_add_l, Ht).
  destruct s.
  - apply (simulated_effect (advanced Prod n)).
    apply (sim_publish_prod _ _ _ _ _ _ Hi Hx).
  - apply (simulated_silent (advanced Cons n) _ x Hx).
    apply (sim_publish_cons _ _ _ _ _ _ Hi Hx).
Qed.

Lemma sim_thread_step s p p' r' k :
  c_pcs c !! i = Some p -> pc_side p = Some s -> pc_fresh c p = true ->
  thread_step w (moved s c) p (c_ring c) = Some (p', r', k) ->
  simulated (move s k (set_pc i p' r' c)).
Proof.
  intros Hi Hs Hf Ht. destruct (thread_ok w tl c a S i p Hi) as (x & Hx & Hok).
  destruct p; try done; simpl in Hs; simplify_eq.
  - simpl in Ht. simplify_eq. rewrite move_0. apply (simulated_silent tl _ x Hx).
    by apply sim_read_head.
  - apply Z.ltb_lt in Hf. cbn [thread_step] in Ht.
    destruct (clip _ _ _ =? 0) eqn:E; simplify_eq; rewrite move_0.
    + apply Z.eqb_eq in E. apply (simulated_effect tl). by apply (sim_refused _ _ _ _ _ _ Hi).
    + apply Z.eqb_neq in E. apply (simulated_silent tl _ x Hx).
      by apply (sim_read_tail _ _ _ _ _ _ _ _ Hi Hx).
  - apply Z.ltb_lt in Hf. by apply (sim_swap _ _ _ _ _ _ _ _ _ _ _ _ Hi Hx Hf).
  - by apply (sim_copy _ _ _ _ _ _ _ _ _ _ _ Hi Hx).
  - cbn [thread_step] in Ht. destruct (tail _ =? _) eqn:E; simplify_eq.
    rewrite move_0. apply Z.eqb_eq in E. apply (simulated_silent tl _ x Hx).
    by apply sim_wait.
  - cbn [thread_step] in Ht. simplify_eq. by apply (sim_publish _ _ _ _ _ _ _ Hi Hx).
Qed.
End points.
