(* ===== verification/RingConcExact.v ===== *)
(** * Calls that no other overlaps.

    A call on the concurrent ring that runs while no other is under way counts on
    all the room, or all the elements, that there are.  [exact_inv] says what its
    thread holds at each point; every step keeps it, and the effect of the call on
    the specification is then that of the bounded queue ([exact_effect]). *)
From stdpp Require Import prelude list numbers.
From S2P Require Import Prelude RingCore RingCopy RingHeadTail RingElem RingSpec RingConc RingConcSpec.
Open Scope Z_scope.

(** Only thread [i] is inside a call. *)
Definition alone (i : nat) (c : conf) : Prop :=
  forall j p, j <> i -> c_pcs c !! j = Some p -> p = Idle.

(** The room of a side from position [g] on when all else is published. *)
Definition whole_room (c : conf) (s : ring_side) (g : Z) : Z :=
  match s with
  | Prod => capacity (c_ring c) + moved Cons c - g
  | Cons => moved Prod c - g
  end.

(** What the thread of a call that no other overlaps holds. *)
Definition exact_pc (c : conf) (p : pc) : Prop :=
  match p with
  | ReadTail s _ _ _ _ g => g = moved s c
  | Swap s _ _ _ _ _ room g => g = moved s c /\ room = whole_room c s g
  | Copy Prod _ _ _ room _ g | Wait Prod _ _ _ room g | Publish Prod _ _ _ room g =>
      room = whole_room c Prod g
  | _ => True
  end.

Definition exact_inv (o : nat -> Prop) (c : conf) : Prop :=
  forall i p, c_pcs c !! i = Some p -> p <> Idle -> ~ o i -> alone i c /\ exact_pc c p.

(** ** Effects

    An enqueue takes effect at its end, a dequeue when it reserves. *)
Lemma copying_prod_called w r hd tl buf old n room j g s n' room' res :
  ~ copying w r hd tl Prod buf old n room j g (ADone s n' room' res).
Proof. by intros (_ & _ & _ & _ & _ & _ & ? & ? & ? & _). Qed.

Lemma copying_cons_done w r hd tl buf old n room j g s max b res :
  ~ copying w r hd tl Cons buf old n room j g (ACalled s max b res).
Proof. by intros (_ & _ & _ & _ & _ & _ & ? & ? & _). Qed.

Lemma copying_inside w r hd tl s buf old n room j g : ~ copying w r hd tl s buf old n room j g AIdle.
Proof.
  intros H. destruct s; [destruct H as (_ & _ & _ & _ & _ & _ & ? & ? & ? & _)
                        |destruct H as (_ & _ & _ & _ & _ & _ & ? & ? & _)]; done.
Qed.

Lemma pc_ok_idle w r hd tl p : pc_ok w r hd tl p AIdle -> p = Idle.
Proof.
  destruct p; simpl; try done; try (by intros [? _]); try (by intros H%copying_inside).
  by intros [H%copying_inside _].
Qed.

(** ** The tails *)

Section tails.
Context (w : nat) (tl : ring_side -> Z) (c : conf) (a : aconf) (S : sim w tl c a).
Context (i : nat) (p : pc) (Hi : c_pcs c !! i = Some p) (Al : alone i c).

(** All reservations are those of the thread that is alone. *)
Lemma alone_flying s x : tl s <= x < moved s c ->
  exists g n, flying p = Some (s, g, n) /\ g <= x < g + n.
Proof.
  intros Hx. destruct (sim_cover _ _ _ _ S s x Hx) as (j & q & g & n & Hj & Hq & Hr).
  destruct (decide (j = i)) as [->|N]; [by simplify_eq; eauto|].
  rewrite (Al j q N Hj) in Hq. done.
Qed.

Lemma alone_tail_head s : (forall g n, flying p <> Some (s, g, n)) -> tl s = moved s c.
Proof.
  intros N. pose proof (sim_order _ _ _ _ S). assert (tl s <= moved s c) by (destruct s; lia).
  destruct (decide (tl s = moved s c)) as [|Hne]; [done|].
  destruct (alone_flying s (tl s) ltac:(lia)) as (g & n & Hf & _). by destruct (N g n).
Qed.

Lemma alone_tail_start s g n : flying p = Some (s, g, n) -> tl s = g.
Proof.
  intros Hf. pose proof (flying_range w tl c a S i p s g n Hi Hf) as Hr.
  destruct (alone_flying s (tl s) ltac:(lia)) as (g' & n' & Hf' & Hx). simplify_eq. lia.
Qed.

(** The room of the specification. *)
Lemma alone_room_idle s : flying p = None ->
  room_of (capacity (c_ring c)) s a = whole_room c s (moved s c).
Proof.
  intros Hf. pose proof (sim_count _ _ _ _ S) as Hq.
  rewrite (alone_tail_head Prod) in Hq by (intros ? ?; congruence).
  destruct s; simpl in *; lia.
Qed.

Lemma alone_room_prod g n : flying p = Some (Prod, g, n) ->
  room_of (capacity (c_ring c)) Prod a = whole_room c Prod g.
Proof.
  intros Hf. pose proof (sim_count _ _ _ _ S) as Hq.
  rewrite (alone_tail_start Prod g n Hf) in Hq. simpl in *. lia.
Qed.

(** The room the thread computes. *)
Lemma alone_room_seen s max b buf old g :
  p = ReadTail s max b buf old g -> g = moved s c ->
  moved s c - g + capacity (c_ring c) < 2 ^ 32 ->
  room_seen s old (c_ring c) = whole_room c s g.
Proof.
  intros Ep Eg Hf. destruct (thread_ok w tl c a S i p Hi) as (x & _ & Hok).
  assert (forall s, tl s = moved s c) as T by (intros s'; apply alone_tail_head; by subst p).
  subst p. destruct Hok as (_ & _ & L). rewrite (room_seen_exact w tl c a S s old g L Hf).
  destruct s; simpl; rewrite T; done.
Qed.

Lemma whole_room_fits s : flying p = None -> 0 <= whole_room c s (moved s c) < 2 ^ 32.
Proof.
  intros Hf. rewrite <- (alone_room_idle s Hf). pose proof (marks_room w tl c a S).
  pose proof (sim_count _ _ _ _ S). destruct s; simpl; lia.
Qed.
End tails.

(** ** A step of the thread *)

Lemma thread_step_capacity w h p r p' r' k :
  thread_step w h p r = Some (p', r', k) -> capacity r' = capacity r.
Proof.
  destruct p; cbn [thread_step]; intros E; try done;
    repeat (case_match || (destruct (_ !! _); cbn [mbind option_bind] in E)); simplify_eq;
    try done; by destruct s.
Qed.

Section step.
Context (w : nat) (tl tl' : ring_side -> Z) (c : conf) (a a' : aconf) (S : sim w tl c a).
Context (i : nat) (s : ring_side) (p p' : pc) (r' : rte_ring) (k : Z).
Context (Hi : c_pcs c !! i = Some p) (Hs : pc_side p = Some s) (Hf : pc_fresh c p = true).
Context (Ht : thread_step w (moved s c) p (c_ring c) = Some (p', r', k)).
Let c' := move s k (set_pc i p' r' c).
Context (S' : sim w tl' c' a').

Lemma step_pcs : c_pcs c' = <[i := p']> (c_pcs c).
Proof. unfold c'. by destruct s. Qed.

Lemma step_lookup : c_pcs c' !! i = Some p'.
Proof. rewrite step_pcs. apply list_lookup_insert_eq. by apply lookup_lt_Some in Hi. Qed.

Lemma step_alone : alone i c -> alone i c'.
Proof.
  intros Al j q N Hj. rewrite step_pcs, list_lookup_insert_ne in Hj by done. by apply (Al j).
Qed.

Lemma step_room s' g : capacity r' = capacity (c_ring c) -> k = 0 \/ s' = Prod /\ s = Prod ->
  whole_room c' s' g = whole_room c s' g.
Proof.
  intros Hr Hk. unfold c', whole_room.
  destruct s', s; simpl; rewrite ?Hr; destruct Hk as [->|[? ?]]; try done; lia.
Qed.

(** What the thread holds stays exact. *)
Lemma step_exact_pc : alone i c -> exact_pc c p -> exact_pc c' p'.
Proof.
  intros Al E. pose proof (step_alone Al) as Al'. pose proof step_lookup as Hi'.
  pose proof (thread_step_capacity _ _ _ _ _ _ _ Ht) as Hr.
  pose proof (fun s' g => step_room s' g Hr) as Room.
  destruct p; simpl in Hs; try done; simplify_eq; cbn [thread_step] in Ht.
  - simplify_eq. unfold c'. destruct s; simpl; lia.
  - destruct (clip _ _ _ =? 0); simplify_eq; [done|]. simpl in E. apply Z.ltb_lt in Hf.
    pose proof (alone_room_seen w tl c a S i _ Hi Al s max b buf old g eq_refl E Hf) as Hroom.
    cbn [exact_pc]. rewrite Room by auto. split; [|done].
    unfold c'. rewrite E. destruct s; simpl; lia.
  - destruct (_ || _); simplify_eq; [|done]. destruct E as [Eg Er]. destruct s; [|done].
    cbn [exact_pc]. by rewrite Room by auto.
  - destruct s; repeat (case_match || (destruct (_ !! _); cbn [mbind option_bind] in Ht));
      simplify_eq; try done; cbn [exact_pc] in *; by rewrite Room by auto.
  - destruct (_ =? _); simplify_eq. destruct s; [|done]. cbn [exact_pc] in *. by rewrite Room by auto.
  - by simplify_eq.
Qed.

(** Its effect is that of the bounded queue. *)
Lemma step_exact_effect : alone i c -> exact_pc c p ->
  exact_effect (capacity (c_ring c)) a a' i.
Proof.
  intros Al E sd max b buf n room res Ha Ha'.
  destruct (thread_ok w tl c a S i p Hi) as (x & Hx & Hok).
  destruct (thread_ok w tl' c' a' S' i p' step_lookup) as (x' & Hx' & Hok').
  assert (x = ACalled sd max b buf) as -> by congruence.
  assert (x' = ADone sd n room res) as -> by congruence.
  destruct p as [|s0 m0 b0 buf0|s0 m0 b0 buf0 old g|s0 m0 b0 buf0 old n0 room0 g
    |s0 buf0 old n0 room0 j g|s0 buf0 old n0 room0 g|s0 buf0 old n0 room0 g|];
    simpl in Hs; try done; simplify_eq; cbn [thread_step] in Ht.
  - simplify_eq. simpl in Hok'. by destruct Hok'.
  - simpl in E. apply Z.ltb_lt in Hf.
    pose proof (alone_room_seen w tl c a S i _ Hi Al s m0 b0 buf0 old g eq_refl E Hf) as Hroom.
    pose proof (whole_room_fits w tl c a S i _ Hi Al s eq_refl) as Hfit.
    rewrite E in Hroom. rewrite Hroom in Ht.
    destruct (clip _ _ _ =? 0) eqn:En; simplify_eq; simpl in Hok, Hok'; [|by destruct Hok'].
    destruct Hok as ([= -> -> -> ->] & _). injection Hok' as -> -> _.
    rewrite (alone_room_idle w tl c a S i _ Hi Al s eq_refl). apply Z.eqb_eq in En.
    rewrite En. split; [done|]. apply wrap_small. unfold fits. lia.
  - destruct (_ || _); simplify_eq; simpl in Hok, Hok'; [|by destruct Hok'].
    destruct E as [-> ->]. destruct Hok as ([= -> -> -> ->] & _ & _ & -> & _ & Hr).
    pose proof (whole_room_fits w tl c a S i _ Hi Al s eq_refl) as Hfit.
    pose proof (clip_le b0 m0 (whole_room c s (moved s c)) ltac:(lia)) as Hle.
    destruct s; [by apply copying_prod_called in Hok'|].
    destruct Hok' as (_ & Hp & _ & _ & _ & _ & ? & Hd & _). injection Hd as -> -> _.
    rewrite (alone_room_idle w tl c a S i _ Hi Al Cons eq_refl). split; [done|].
    simpl in Hle, Hfit, Hp |- *. apply wrap_small. unfold fits. lia.
  - destruct s; [|by apply copying_cons_done in Hok].
    assert (p' = Copy Prod buf0 old n0 room0 (Datatypes.S j) g \/ p' = Publish Prod buf0 old n0 room0 g
      \/ p' = Wait Prod buf0 old n0 room0 g) as Ep.
    { repeat (case_match || (destruct (_ !! _); cbn [mbind option_bind] in Ht)); simplify_eq; auto. }
    destruct Ep as [-> | [-> | ->]]; [|destruct Hok' as [Hok' _]|];
      by apply copying_prod_called in Hok'.
  - destruct (_ =? _); simplify_eq. destruct Hok' as [Hok' _].
    destruct s; [by apply copying_prod_called in Hok'|by apply copying_cons_done in Hok].
  - simplify_eq. destruct Hok as [(_ & Hp & Hg & _ & _ & _ & HC) _].
    destruct s; [|by destruct HC as (? & ? & _)].
    destruct HC as (max' & b' & [= -> -> ->] & -> & Hr & _). simpl in Hok', E.
    injection Hok' as -> -> _.
    rewrite (alone_room_prod w tl c a S i _ Hi Al g _ eq_refl). subst room0.
    pose proof (marks_room w tl c a S). unfold room_from in Hr. cbn [whole_room moved].
    set (R := capacity (c_ring c) + c_cons c - g) in *.
    pose proof (clip_le b' max' R ltac:(lia)).
    split; [done|]. apply wrap_small. unfold fits. lia.
Qed.
End step.

(** ** Whole steps *)

(** A run of the specification that the threads follow. *)
Definition followed (cap : Z) (w : nat) (a0 : aconf) (tr : list event) (a : aconf) (c : conf) : Prop :=
  exists o, arun cap w a0 tr a o /\ exact_inv o c.

Section follow.
Context (w : nat) (cap : Z) (a0 : aconf) (tr : list event).
Context (tl : ring_side -> Z) (c : conf) (a : aconf) (S : sim w tl c a).
Context (Hcap : capacity (c_ring c) = cap) (i : nat).

Lemma alone_others o j p : exact_inv o c -> c_pcs c !! i = Some p -> p <> Idle ->
  ~ o j -> j = i \/ c_pcs c !! j = Some Idle \/ c_pcs c !! j = None.
Proof.
  intros E Hi Np Nj. destruct (c_pcs c !! j) as [q|] eqn:Hj; [|auto].
  destruct (decide (j = i)) as [|N]; [auto|]. destruct q; auto; exfalso;
    (destruct (E j _ Hj) as [Al _]; [done|done|]); by apply Np, (Al i p (not_eq_sym N)).
Qed.

Lemma idle_thread j x : c_pcs c !! j = Some Idle \/ c_pcs c !! j = None ->
  a_pcs a !! j = Some x -> x = AIdle.
Proof.
  intros Hj Hx. destruct (Forall2_lookup_r _ _ _ _ _ (sim_threads _ _ _ _ S) Hx) as (q & Hq & Hok).
  destruct Hj as [Hj|Hj]; simplify_eq. done.
Qed.

(** A step inside a call. *)
Lemma follow_step tl' a' s p p' r' k :
  c_pcs c !! i = Some p -> pc_side p = Some s -> pc_fresh c p = true ->
  thread_step w (moved s c) p (c_ring c) = Some (p', r', k) ->
  let c' := move s k (set_pc i p' r' c) in
  sim w tl' c' a' -> a' = a \/ astep cap w a None a' ->
  followed cap w a0 tr a c -> followed cap w a0 tr a' c'.
Proof.
  intros Hi Hs Hf Ht c' S' Ha (o & A & E). assert (p <> Idle) as Np by (by intros ->).
  exists o. split.
  - destruct Ha as [->|Ha]; [done|]. rewrite <- (app_nil_r tr).
    eapply (arun_snoc _ _ _ _ _ o None); [done|done|]. intros j Nj. rewrite <- Hcap.
    destruct (alone_others o j p E Hi Np Nj) as [->|Hj].
    + destruct (E i p Hi Np Nj). by eapply step_exact_effect.
    + intros sd max b buf n room res Hx. by apply (idle_thread j _ Hj) in Hx.
  - intros j q Hj Nq Nj.
    assert (c_pcs c' = <[i := p']> (c_pcs c)) as Ec by (unfold c'; by destruct s). rewrite Ec in Hj.
    apply list_lookup_insert_Some in Hj as [(<- & <- & _)|[N Hj]].
    + destruct (E i p Hi Np Nj) as [Al Ex]. split.
      * by eapply step_alone.
      * by eapply step_exact_pc.
    + destruct (E j q Hj Nq Nj) as [Al _]. by destruct (Al i p N).
Qed.

(** A thread may look again. *)
Lemma follow_restart s max b buf p r' : c_pcs c !! i = Some p -> p <> Idle ->
  followed cap w a0 tr a c -> followed cap w a0 tr a (set_pc i (ReadHead s max b buf) r' c).
Proof.
  intros Hi Np (o & A & E). exists o. split; [done|]. intros j q Hj Nq Nj. cbn [c_pcs set_pc] in Hj.
  apply list_lookup_insert_Some in Hj as [(<- & <- & _)|[N Hj]].
  - split; [|done]. destruct (E i p Hi Np Nj) as [Al _]. intros j q N Hj.
    cbn [c_pcs set_pc] in Hj. rewrite list_lookup_insert_ne in Hj by done. by apply (Al j).
  - destruct (E j q Hj Nq Nj) as [Al _]. by destruct (Al i p N).
Qed.

Lemma follow_call s n b buf : c_pcs c !! i = Some Idle ->
  followed cap w a0 tr a c ->
  followed cap w a0 (tr ++ [EvCall i s n b buf])
    (mk_aconf (a_q a) (<[i := ACalled s n b buf]> (a_pcs a))) (set_pc i (ReadHead s n b buf) (c_ring c) c).
Proof.
  intros Hi (o & A & E). destruct (thread_ok w tl c a S i _ Hi) as (x & Hx & Hp). simpl in Hp. subst x.
  eexists. split.
  - eapply (arun_snoc _ _ _ _ _ o (Some _)); [exact A|by apply a_call|].
    intros j _ sd max b' buf' n' room res Hj Hj'. cbn [a_pcs] in Hj'.
    apply list_lookup_insert_Some in Hj' as [(_ & ? & _)|[_ Hj']]; congruence.
  - intros j q Hj Nq Nj. cbn [c_pcs set_pc] in Hj. cbn [overlaps] in Nj.
    case_decide as Eji; [subst j|by destruct Nj].
    assert (q = ReadHead s n b buf) as ->.
    { apply list_lookup_insert_Some in Hj as [(_ & <- & _)|[? _]]; done. }
    split; [|done]. intros j q N Hjq. cbn [c_pcs set_pc] in Hjq.
    rewrite list_lookup_insert_ne in Hjq by done.
    destruct (thread_ok w tl c a S j _ Hjq) as (y & Hy & Hok).
    destruct y; [by eapply pc_ok_idle|..]; destruct Nj; by eexists j, _.
Qed.

Lemma follow_return s n room buf : c_pcs c !! i = Some (Finish s n room buf) ->
  followed cap w a0 tr a c ->
  followed cap w a0 (tr ++ [EvReturn i s n room buf])
    (mk_aconf (a_q a) (<[i := AIdle]> (a_pcs a))) (set_pc i Idle (c_ring c) c).
Proof.
  intros Hi (o & A & E). destruct (thread_ok w tl c a S i _ Hi) as (x & Hx & Hp). simpl in Hp. subst x.
  exists (overlaps (Some (EvReturn i s n room buf)) a o). split.
  - eapply (arun_snoc _ _ _ _ _ o (Some _)); [exact A|by apply a_return|].
    intros j _ sd max b' buf' n' room' res Hj Hj'. cbn [a_pcs] in Hj'.
    apply list_lookup_insert_Some in Hj' as [(_ & ? & _)|[_ Hj']]; congruence.
  - intros j q Hj Nq Nj. cbn [c_pcs set_pc] in Hj.
    apply list_lookup_insert_Some in Hj as [(_ & <- & _)|[N Hj]]; [done|].
    destruct (E j q Hj Nq Nj) as [Al _]. by specialize (Al i _ N Hi).
Qed.
End follow.

(** At the start nothing is under way. *)
Lemma followed_start cap w a0 c :
  (forall i p, c_pcs c !! i = Some p -> p = Idle) -> followed cap w a0 [] a0 c.
Proof.
  intros F. exists (fun _ => False). split; [apply arun_nil|].
  intros i p Hi Np. by destruct Np, (F i p Hi).
Qed.
