(* ===== verification/RingConcThm.v ===== *)
(** * Theorems on the concurrent ring.

    Runs of the threads follow runs of the specification ([ring_linearizable]),
    no configuration is stuck ([ring_threads_progress]) and a thread alone is the
    sequential operation ([thread_alone_sequential]). *)
From stdpp Require Import prelude list numbers.
From S2P Require Import Prelude RingCore RingCopy RingHeadTail RingElem RingSpec.
From S2P Require Import RingConc RingConcSpec RingConcExact.
Open Scope Z_scope.

(** ** Runs *)

Lemma step_capacity w c l c' : step w c l c' -> capacity (c_ring c') = capacity (c_ring c).
Proof.
  destruct 1 as [| i s p p' r' k Hi Hs Ht|]; try done.
  apply thread_step_capacity in Ht. by destruct s.
Qed.

(** The specification follows every step, with the same event. *)
Lemma sim_any_step w cap a0 tr tl c a l c' :
  sim w tl c a -> capacity (c_ring c) = cap -> followed cap w a0 tr a c ->
  fresh c -> step w c l c' ->
  exists tl' a', sim w tl' c' a' /\ followed cap w a0 (tr ++ option_list l) a' c'.
Proof.
  intros S Ec Fo F St. destruct St as [i s n b buf Hi Hok|i s p p' r' k Hi Hs Ht|i s n room buf Hi].
  - eexists tl, _. split; [by apply (sim_call w tl c a S i s n b buf)|].
    by apply (follow_call w cap a0 tr tl c a S).
  - assert (pc_fresh c p = true) as Hf by (by eapply Forall_lookup_1 in F).
    destruct (sim_thread_step w tl c a S i s p p' r' k Hi Hs Hf Ht) as (tl' & a' & S' & H).
    exists tl', a'. split; [done|]. cbn [option_list]. rewrite app_nil_r, Ec in *.
    by apply (follow_step w cap a0 tr tl c a S Ec i tl' a' s p p' r' k Hi Hs Hf Ht S' H).
  - eexists tl, _. split; [by apply (sim_return w tl c a S i s n room buf)|].
    by apply (follow_return w cap a0 tr tl c a S).
Qed.

Lemma run_simulated w tl0 c0 a0 tr c :
  sim w tl0 c0 a0 -> (forall i p, c_pcs c0 !! i = Some p -> p = Idle) -> run w c0 tr c ->
  exists tl a, sim w tl c a /\ followed (capacity (c_ring c0)) w a0 tr a c
    /\ capacity (c_ring c) = capacity (c_ring c0).
Proof.
  intros S Hidle. induction 1 as [|tr c1 l c2 Hr IH F St].
  { exists tl0, a0. split; [done|]. split; [by apply followed_start|done]. }
  destruct IH as (tl & a & S1 & Fo & Ec).
  destruct (sim_any_step w _ a0 tr tl c1 a l c2 S1 Ec Fo F St) as (tl' & a' & S2 & Fo').
  exists tl', a'. split; [done|]. split; [done|]. by rewrite (step_capacity _ _ _ _ St).
Qed.

(** *** The start *)

Lemma ring_get_lookup N mem p n k :
  (0 < N)%nat -> (N <= length mem)%nat -> (k < n)%nat ->
  ring_get 1 N mem p n !! k = mem !! ((p + k) mod N)%nat.
Proof.
  intros HN Hm. revert p k. induction n as [|n IH]; intros p k Hk; [lia|].
  cbn [ring_get]. rewrite Nat.mul_1_r.
  pose proof (Nat.mod_upper_bound p N ltac:(lia)).
  destruct (lookup_lt_is_Some_2 mem (p mod N)) as [v Hv]; [lia|].
  rewrite (take_1_drop _ _ _ Hv). destruct k as [|k]; simpl; [by rewrite Nat.add_0_r|].
  rewrite IH by lia. do 2 f_equal. lia.
Qed.

Section start.
Context (w : nat) (r : rte_ring) (I : ring_inv w r).
Context (D : forall s, sync_type (side s r) ∈ [RTE_RING_SYNC_MT; RTE_RING_SYNC_ST]).

(** The words between the tails of a ring are the contents of its queue. *)
Lemma start_words k :
  (k < length (concat (q_items (ring_queue w r))))%nat ->
  word w r (tail (cons r) * Z.of_nat w + Z.of_nat k) = concat (q_items (ring_queue w r)) !! k.
Proof.
  pose proof (inv_geom _ _ I) as G. pose proof (geom_size_pos _ _ G) as Hsz.
  pose proof (geom_w _ _ G) as Hw. pose proof (geom_slots _ _ G) as Hl.
  pose proof (inv_fits _ _ I Cons) as Hf. simpl in Hf.
  set (E := Z.to_nat (ring_entries r)).
  assert (length (ring_words w r) = (E * w)%nat) as Hrw.
  { unfold ring_words. fold E. rewrite length_ring_get; [done|lia|lia]. }
  unfold ring_queue. cbn [q_items]. fold E.
  rewrite concat_chunks, length_take, Hrw by lia. intros Hk. rewrite lookup_take_lt by lia.
  unfold ring_words. fold E. set (sz := Z.to_nat (size r)) in *.
  rewrite <- ring_get_scale, ring_get_lookup by nia.
  unfold word. f_equal. apply Nat2Z.inj.
  pose proof (Z.mod_pos_bound (tail (cons r)) (size r) ltac:(lia)).
  rewrite Nat2Z.inj_mod, Nat2Z.inj_add, !Nat2Z.inj_mul, Nat2Z.inj_mod.
  unfold sz. rewrite !Z2Nat.id by (lia || (apply Z.mod_pos_bound; nia)).
  rewrite Zmod_mod, <- (Zmult_mod_distr_r (tail (cons r)) (size r) (Z.of_nat w)).
  by rewrite Zplus_mod_idemp_l.
Qed.

Definition start_tails (s : ring_side) : Z :=
  match s with Prod => tail (cons r) + ring_entries r | Cons => tail (cons r) end.

Lemma start_tail s : tail (side s r) = u32 (start_tails s).
Proof.
  destruct s; simpl.
  - unfold ring_entries. rewrite wrap_add_r.
    replace (tail (cons r) + (tail (prod r) - tail (cons r))) with (tail (prod r)) by lia.
    symmetry. apply wrap_small, (inv_fits _ _ I Prod).
  - symmetry. apply wrap_small, (inv_fits _ _ I Cons).
Qed.

Lemma start_idle k i p : c_pcs (start r k) !! i = Some p -> p = Idle.
Proof. intros Hi. by apply lookup_replicate in Hi as [-> _]. Qed.

Lemma sim_start k :
  sim w start_tails (start r k)
    (mk_aconf (q_items (ring_queue w r)) (replicate k AIdle)).
Proof.
  pose proof (entries_range w r I) as He. pose proof (inv_fits _ _ I Cons) as Hf. simpl in Hf.
  unfold fits in Hf. split; cbn [c_ring start].
  - apply I.
  - apply I.
  - apply D.
  - intros s. rewrite (side_quiet_default w r I D s), start_tail. by destruct s.
  - apply start_tail.
  - simpl. lia.
  - unfold a_count. simpl. rewrite length_chunks. lia.
  - apply chunks_width. unfold ring_words.
    pose proof (inv_geom _ _ I) as G. pose proof (geom_size_pos _ _ G).
    rewrite length_ring_get; [done|lia|rewrite (geom_slots _ _ G); lia].
  - apply start_words.
  - apply Forall2_replicate. done.
  - intros i j p p' s g n g' n' _ Hi _ F. apply start_idle in Hi. by subst.
  - intros s x Hx. destruct s; simpl in Hx; lia.
  - intros s i j p p' _ Hi _ F. apply start_idle in Hi. by subst.
Qed.

Lemma start_followed k tr c : run w (start r k) tr c ->
  exists tl a, sim w tl c a /\ capacity (c_ring c) = capacity r
    /\ followed (capacity r) w (mk_aconf (q_items (ring_queue w r)) (replicate k AIdle)) tr a c.
Proof.
  intros R.
  destruct (run_simulated w _ _ _ tr c (sim_start k) (start_idle k) R) as (tl & a & S & Fo & Ec).
  by exists tl, a.
Qed.
End start.

(** *** A ring at rest *)

Lemma chunks_concat w (q : list (list Z)) :
  Forall (fun x => length x = w) q -> chunks w (length q) (concat q) = q.
Proof.
  induction 1 as [|x q Hx _ IH]; [done|]. simpl.
  by rewrite take_app_length', drop_app_length', IH.
Qed.

Lemma all_idle_tails w tl c a s :
  sim w tl c a -> Forall (fun p => p = Idle) (c_pcs c) -> tl s = moved s c.
Proof.
  intros S F. pose proof (sim_order _ _ _ _ S).
  assert (tl s <= moved s c) by (destruct s; lia).
  destruct (decide (tl s = moved s c)) as [|N]; [done|].
  destruct (sim_cover _ _ _ _ S s (tl s) ltac:(lia)) as (i & p & g & n & Hi & Hf & _).
  eapply Forall_lookup_1 in F; [|exact Hi]. by subst.
Qed.

Section rest.
Context (w : nat) (tl : ring_side -> Z) (c : conf) (a : aconf) (S : sim w tl c a).
Context (F : Forall (fun p => p = Idle) (c_pcs c)).
Let r := c_ring c.

Lemma rest_entries : ring_entries r = a_count a.
Proof.
  pose proof (marks_room w tl c a S). pose proof (sim_count _ _ _ _ S).
  pose proof (sim_tail _ _ _ _ S Prod) as Hp. pose proof (sim_tail _ _ _ _ S Cons) as Hc.
  simpl side in Hp, Hc. unfold ring_entries, r. rewrite Hp, Hc, wrap_sub_l, wrap_sub_r.
  pose proof (all_idle_tails w tl c a Cons S F) as ->.
  rewrite wrap_small; [done|]. unfold fits. lia.
Qed.

Lemma rest_inv : ring_inv w r.
Proof.
  pose proof (marks_room w tl c a S). pose proof (sim_count _ _ _ _ S).
  split; try apply S.
  - intros s. left. split.
    + pose proof (sim_sync _ _ _ _ S s) as Hs. fold r in Hs.
      rewrite !elem_of_cons in Hs. rewrite !elem_of_cons. tauto.
    + unfold default_quiet, r. rewrite (sim_head _ _ _ _ S), (sim_tail _ _ _ _ S).
      by rewrite (all_idle_tails w tl c a s S F).
  - intros s. unfold r. rewrite (sim_tail _ _ _ _ S). apply wrap_fits. lia.
  - rewrite rest_entries. fold r in H. lia.
Qed.

Lemma rest_items : q_items (ring_queue w r) = a_q a.
Proof.
  pose proof rest_inv as I. pose proof (inv_geom _ _ I) as G.
  pose proof (geom_size_pos _ _ G) as Hsz. pose proof (geom_slots _ _ G) as Hl.
  assert (length (ring_words w r) = (length (a_q a) * w)%nat) as Hrw.
  { unfold ring_words. rewrite length_ring_get by lia. rewrite rest_entries.
    unfold a_count. lia. }
  pose proof (length_concat_width w (a_q a) (sim_width _ _ _ _ S)) as Hlc.
  assert (concat (q_items (ring_queue w r)) = ring_words w r) as Hc.
  { unfold ring_queue. cbn [q_items]. rewrite rest_entries. unfold a_count.
    rewrite Nat2Z.id, concat_chunks by lia. apply take_ge. lia. }
  assert (ring_words w r = concat (a_q a)) as E.
  { apply list_eq. intros k. destruct (decide (k < length (concat (a_q a)))%nat) as [Hk|Hk].
    - rewrite <- Hc, <- start_words by (done || (rewrite Hc; lia)).
      rewrite <- (sim_words _ _ _ _ S k Hk). unfold r, word. f_equal. f_equal.
      pose proof (sim_tail _ _ _ _ S Cons) as Ht. simpl side in Ht. rewrite Ht.
      rewrite (all_idle_tails w tl c a Cons S F).
      pose proof (marks_room w tl c a S).
      rewrite <- (slot_word_pos w (c_ring c) (moved Cons c) k) by (done || lia).
      rewrite <- (slot_word_pos w (c_ring c) (u32 (moved Cons c)) k)
        by (done || apply wrap_range; lia).
      by rewrite wrap_wrap.
    - rewrite !lookup_ge_None_2 by lia. done. }
  unfold ring_queue. cbn [q_items]. rewrite E, rest_entries. unfold a_count.
  rewrite Nat2Z.id. apply chunks_concat, S.
Qed.
End rest.

(** ** The theorems *)

(** C2. The multi-producer multi-consumer ring is linearizable to a bounded queue
    whose calls may count on less than there is when they overlap: whatever the
    interleaving of the shared accesses of any number of threads, the calls and
    returns are those of a bounded queue on which each call takes effect at once,
    between its start and its return.  Each enqueue that succeeds appends its
    elements and each dequeue takes the oldest ones.  A call that no other overlaps
    does exactly what the queue has room or elements for, and returns the exact
    number and room.  A call that others overlap never has an effect on more than
    there is, but may count on less: an enqueue may store fewer elements than fit,
    or be refused, and a dequeue may take fewer than there are; a dequeue gets nothing only when the queue has not got what it
    asks for.  The queue never exceeds the capacity, and when all threads are
    outside of their calls the ring is well formed and holds exactly the elements
    of that queue. *)
Theorem ring_linearizable (w k : nat) (r : rte_ring) (tr : list event) (c : conf) :
  ring_inv w r ->
  (forall s, sync_type (side s r) ∈ [RTE_RING_SYNC_MT; RTE_RING_SYNC_ST]) ->
  run w (start r k) tr c ->
  exists a o, arun (capacity r) w (mk_aconf (q_items (ring_queue w r)) (replicate k AIdle)) tr a o
    /\ a_count a <= capacity r
    /\ (Forall (fun p => p = Idle) (c_pcs c) ->
         ring_inv w (c_ring c) /\ q_items (ring_queue w (c_ring c)) = a_q a).
Proof.
  intros I D R. destruct (start_followed w r I D k tr c R) as (tl & a & S & Ec & o & A & _).
  exists a, o. split; [exact A|]. split.
  - pose proof (marks_room w tl c a S). pose proof (sim_count _ _ _ _ S). lia.
  - intros F. split; [by eapply rest_inv|by eapply rest_items].
Qed.

(** Two producers race for a slot that a consumer has freed: thread 0 reads the
    head first, thread 1 reserves and publishes, thread 0's compare-and-swap
    fails and it starts again. *)
Definition race : list act :=
  let steps i n := replicate n (DoStep i) in
  rev ([DoCall 0 Prod 1 RTE_RING_QUEUE_VARIABLE [8]; DoStep 0;
        DoCall 2 Cons 2 RTE_RING_QUEUE_FIXED [0; 0]] ++ steps 2%nat 7%nat ++
       [DoReturn 2; DoStep 0; DoCall 1 Prod 1 RTE_RING_QUEUE_FIXED [7]] ++ steps 1%nat 7%nat ++
       [DoReturn 1] ++ steps 0%nat 8%nat ++ [DoReturn 0]).

Definition race_end : list event * conf :=
  default ([], start filled_ring 3) (exec 1 (start filled_ring 3) race).

Lemma filled_ring_sync s :
  sync_type (side s filled_ring) ∈ [RTE_RING_SYNC_MT; RTE_RING_SYNC_ST].
Proof. destruct s; [by left|by right; left]. Qed.

Lemma ring_linearizable_witness :
  run 1 (start filled_ring 3) race_end.1 race_end.2
  /\ race_end.1 = [EvCall 0 Prod 1 RTE_RING_QUEUE_VARIABLE [8];
       EvCall 2 Cons 2 RTE_RING_QUEUE_FIXED [0; 0]; EvReturn 2 Cons 2 1 [10; 30];
       EvCall 1 Prod 1 RTE_RING_QUEUE_FIXED [7]; EvReturn 1 Prod 1 1 [7];
       EvReturn 0 Prod 1 0 [8]]
  /\ exists a o, arun 3 1 (mk_aconf [[10]; [30]; [20]] (replicate 3 AIdle)) race_end.1 a o
    /\ a_q a = [[20]; [7]; [8]].
Proof.
  assert (run 1 (start filled_ring 3) race_end.1 race_end.2) as R.
  { apply (exec_run _ _ race). vm_compute. reflexivity. }
  split; [exact R|]. split; [vm_compute; reflexivity|].
  destruct (ring_linearizable 1 3 filled_ring race_end.1 race_end.2) as (a & o & A & _ & F).
  - apply filled_ring_inv.
  - apply filled_ring_sync.
  - exact R.
  - exists a, o. split; [exact A|]. destruct F as [_ <-]; [vm_compute; repeat constructor|].
    vm_compute. reflexivity.
Defined.

(** The thread can do its next step, or return. *)
Definition can_go (w : nat) (c : conf) (i : nat) (s : ring_side) : Prop :=
  exists p, c_pcs c !! i = Some p /\ pc_side p = Some s
    /\ ((exists n room buf, p = Finish s n room buf)
        \/ exists p' r' k, thread_step w (moved s c) p (c_ring c) = Some (p', r', k)).

Lemma copy_goes w tl c a i s buf old n room j g :
  sim w tl c a -> c_pcs c !! i = Some (Copy s buf old n room j g) -> can_go w c i s.
Proof.
  intros S Hi. exists (Copy s buf old n room j g). split; [done|]. split; [done|]. right.
  destruct (thread_ok w tl c a S i _ Hi) as (x & _ & Eo & _ & Hg & _ & Hb & _).
  pose proof (marks_room w tl c a S) as Hm. cbn [thread_step].
  destruct (j <? _)%nat eqn:E; [|destruct (single s (c_ring c)); eauto].
  apply Nat.ltb_lt in E. destruct (lookup_lt_is_Some_2 buf j) as [v Hv]; [lia|].
  assert (0 <= g) as Hg' by (destruct s; lia).
  destruct (lookup_lt_is_Some_2 (slots (c_ring c)) (slot_word w (c_ring c) old j)) as [y Hy].
  { rewrite Eo. apply slot_word_bound; [apply S|done]. }
  rewrite Hv, Hy. destruct s; simpl; eauto.
Qed.

(** The thread whose reservation starts at the tail is not waiting. *)
Lemma first_goes w tl c a i p s n :
  sim w tl c a -> c_pcs c !! i = Some p -> flying p = Some (s, tl s, n) -> can_go w c i s.
Proof.
  intros S Hi Hf. destruct p; try done; simpl in Hf; simplify_eq.
  - by eapply copy_goes.
  - eexists. split; [exact Hi|]. split; [done|]. right.
    destruct (thread_ok w tl c a S i _ Hi) as (x & _ & Eo & _). cbn [thread_step].
    rewrite (sim_tail _ _ _ _ S), <- Eo, Z.eqb_refl. eauto.
  - eexists. split; [exact Hi|]. split; [done|]. right. cbn [thread_step]. eauto.
Qed.

(** The reservation that starts at the tail comes before all others of its side. *)
Lemma first_reservation w tl c a (S : sim w tl c a) i p s g n :
  c_pcs c !! i = Some p -> flying p = Some (s, g, n) ->
  exists j q g' n', c_pcs c !! j = Some q /\ flying q = Some (s, g', n') /\ can_go w c j s
    /\ forall h x gx nx, c_pcs c !! h = Some x -> flying x = Some (s, gx, nx) ->
         h = j \/ g' + n' <= gx.
Proof.
  intros Hi Hfi. pose proof (flying_range w tl c a S i p s g n Hi Hfi) as Hr.
  destruct (sim_cover _ _ _ _ S s (tl s) ltac:(lia)) as (j & q & g' & n' & Hj & Hf & Hx).
  pose proof (flying_range w tl c a S j q s g' n' Hj Hf). assert (g' = tl s) as -> by lia.
  exists j, q, (tl s), n'. split; [done|]. split; [done|]. split; [by eapply first_goes|].
  intros h x gx nx Hh Hfx. destruct (decide (h = j)) as [|N]; [by left|]. right.
  pose proof (flying_range w tl c a S h x s gx nx Hh Hfx).
  destruct (sim_disjoint _ _ _ _ S h j x q s gx nx (tl s) n' N Hh Hj Hfx Hf); lia.
Qed.

(** C12. No deadlock: in every reachable configuration a thread inside a call can
    do its next step or return, in particular it never accesses a word outside
    of the slots or of its table, unless it waits for the tail.  Then the thread
    whose reservation comes first among all those of the same side, before that of
    the waiting thread, can do its next step. *)
Theorem ring_threads_progress (w k : nat) (r : rte_ring) (tr : list event) (c : conf)
  (i : nat) (p : pc) (s : ring_side) :
  ring_inv w r ->
  (forall s, sync_type (side s r) ∈ [RTE_RING_SYNC_MT; RTE_RING_SYNC_ST]) ->
  run w (start r k) tr c ->
  c_pcs c !! i = Some p -> pc_side p = Some s ->
  can_go w c i s
  \/ exists buf old n room g, p = Wait s buf old n room g
       /\ exists j q g' n', c_pcs c !! j = Some q /\ flying q = Some (s, g', n') /\ can_go w c j s
            /\ (i = j \/ g' + n' <= g)
            /\ forall h x gx nx, c_pcs c !! h = Some x -> flying x = Some (s, gx, nx) ->
                 h = j \/ g' + n' <= gx.
Proof.
  intros I D R Hi Hs. destruct (start_followed w r I D k tr c R) as (tl & a & S & _ & _).
  destruct p; try done; simpl in Hs; simplify_eq;
    try (left; eexists; split; [exact Hi|]; split; [done|]; right; cbn [thread_step];
         repeat case_match; eauto; fail).
  - left. by eapply copy_goes.
  - right. exists buf, old, n, room, g. split; [done|].
    destruct (first_reservation w tl c a S i _ s g n Hi eq_refl) as (j & q & g' & n' & Hj & Hf & G & First).
    exists j, q, g', n'. split; [done|]. split; [done|]. split; [done|]. split; [|done].
    destruct (First i _ g n Hi eq_refl); auto.
  - left. eexists. split; [exact Hi|]. split; [done|]. left. eauto.
Qed.

(** Thread 0 waits for the reservation of thread 1 that comes first. *)
Definition waiting : list act :=
  let steps i n := replicate n (DoStep i) in
  rev ([DoCall 2 Cons 2 RTE_RING_QUEUE_FIXED [0; 0]] ++ steps 2%nat 7%nat ++
       [DoCall 1 Prod 1 RTE_RING_QUEUE_FIXED [7]] ++ steps 1%nat 3%nat ++
       [DoCall 0 Prod 1 RTE_RING_QUEUE_VARIABLE [8]] ++ steps 0%nat 5%nat).

Definition waiting_end : list event * conf :=
  default ([], start filled_ring 3) (exec 1 (start filled_ring 3) waiting).

Lemma ring_threads_progress_witness :
  c_pcs waiting_end.2 !! 0%nat = Some (Wait Prod [8] 3 1 1 (2 ^ 32 + 3))
  /\ (can_go 1 waiting_end.2 0 Prod
      \/ exists buf old n room g, Wait Prod [8] 3 1 1 (2 ^ 32 + 3) = Wait Prod buf old n room g
        /\ exists j q g' n', c_pcs waiting_end.2 !! j = Some q /\ flying q = Some (Prod, g', n')
          /\ can_go 1 waiting_end.2 j Prod /\ (0%nat = j \/ g' + n' <= g)
          /\ forall h x gx nx, c_pcs waiting_end.2 !! h = Some x -> flying x = Some (Prod, gx, nx) ->
               h = j \/ g' + n' <= gx).
Proof.
  assert (c_pcs waiting_end.2 !! 0%nat = Some (Wait Prod [8] 3 1 1 (2 ^ 32 + 3))) as E
    by (vm_compute; reflexivity).
  split; [exact E|].
  apply (ring_threads_progress 1 3 filled_ring waiting_end.1 waiting_end.2 0 _ Prod).
  - apply filled_ring_inv.
  - apply filled_ring_sync.
  - apply (exec_run _ _ waiting). vm_compute. reflexivity.
  - exact E.
  - reflexivity.
Defined.

(** A thread that runs alone on a ring at rest is the sequential operation:
    taken one shared access at a time, a call does what
    [__rte_ring_do_enqueue_elem] and [__rte_ring_do_dequeue_elem] do, unrolled
    copies included, with the same number, room, table and ring. *)
Theorem thread_alone_sequential (w : nat) (r : rte_ring) (s : ring_side) (obj : list Z) (n g : Z)
  (b : rte_ring_queue_behavior) :
  ring_inv w r ->
  (forall s, sync_type (side s r) ∈ [RTE_RING_SYNC_MT; RTE_RING_SYNC_ST]) ->
  0 <= n -> (Z.to_nat n * w <= length obj)%nat ->
  exists n' room obj' r',
    solo (6 + Z.to_nat n * w) w g (ReadHead s n b obj) r = Some (n', room, obj', r')
    /\ match s with
       | Prod => __rte_ring_do_enqueue_elem obj (4 * Z.of_nat w) n b (sync_type (prod r)) true r
                 = Some (n', Some room, r') /\ obj' = obj
       | Cons => __rte_ring_do_dequeue_elem obj (4 * Z.of_nat w) n b (sync_type (cons r)) true r
                 = Some (n', obj', Some room, r')
       end.
Proof.
  intros I D Hn Ho. destruct s.
  - destruct (solo_enqueue w r I D obj n b g Hn Ho) as (n' & room & r' & He & Hs).
    exists n', room, obj, r'. auto.
  - destruct (solo_dequeue w r I D obj n b g Hn Ho) as (n' & room & obj' & r' & He & Hs).
    exists n', room, obj', r'. auto.
Qed.

Lemma thread_alone_sequential_witness :
  exists n' room obj' r',
    solo (6 + 2) 1 0 (ReadHead Cons 2 RTE_RING_QUEUE_FIXED [0; 0]) filled_ring
      = Some (n', room, obj', r')
    /\ __rte_ring_do_dequeue_elem [0; 0] 4 2 RTE_RING_QUEUE_FIXED RTE_RING_SYNC_ST true filled_ring
      = Some (n', obj', Some room, r').
Proof.
  destruct (thread_alone_sequential 1 filled_ring Cons [0; 0] 2 0 RTE_RING_QUEUE_FIXED)
    as (n' & room & obj' & r' & Hs & He).
  - apply filled_ring_inv.
  - apply filled_ring_sync.
  - lia.
  - simpl. lia.
  - exists n', room, obj', r'. split; [exact Hs|exact He].
Defined.

(** ** The room a slow producer sees

    Thread 0 reads the head of the full ring; two dequeues of three elements and
    an enqueue of three then go by. *)
Definition slow_producer : list act :=
  let steps i n := replicate n (DoStep i) in
  rev ([DoCall 0 Prod 1 RTE_RING_QUEUE_FIXED [8]; DoStep 0;
        DoCall 2 Cons 3 RTE_RING_QUEUE_FIXED [0; 0; 0]] ++ steps 2%nat 8%nat ++
       [DoReturn 2; DoCall 1 Prod 3 RTE_RING_QUEUE_FIXED [7; 7; 7]] ++ steps 1%nat 9%nat ++
       [DoCall 2 Cons 3 RTE_RING_QUEUE_FIXED [0; 0; 0]] ++ steps 2%nat 8%nat).

(** The [free_entries] that the multi-producer path computes may exceed the
    capacity: the head it subtracts may be older than the consumer tail it adds.
    The compare-and-swap that follows fails, so nothing wrong is stored. *)
Theorem free_entries_exceeds_capacity :
  exists tr c, run 1 (start filled_ring 3) tr c
    /\ c_pcs c !! 0%nat = Some (ReadTail Prod 1 RTE_RING_QUEUE_FIXED [8] 2 (2 ^ 32 + 2))
    /\ room_seen Prod 2 (c_ring c) = 6 /\ capacity (c_ring c) = 3.
Proof.
  destruct (exec 1 (start filled_ring 3) slow_producer) as [[tr c]|] eqn:E.
  - exists tr, c. split; [by eapply exec_run|]. vm_compute in E. simplify_eq.
    split; [reflexivity|]. split; reflexivity.
  - vm_compute in E. discriminate.
Qed.
