(* ===== verification/RingHtsConc.v ===== *)
(** * Threads on a ring with the head/tail protocol.

    [include/rte_ring_hts_elem_pvt.h] with any number of threads, one access to
    the shared memory at a time.  A side with this protocol has its head and its
    tail in one word of 64 bits; a thread begins only when they are equal, so
    that one thread at a time is inside an operation.  The other side may have
    any protocol of [RingConc] or this one.

    The program counters, configurations and events are those of [RingConc]; a
    step of this protocol is one or two steps of the default protocol on the same
    memory, so that what [RingConcSpec] shows of it holds here too. *)
From stdpp Require Import prelude list numbers.
From S2P Require Import Prelude RingCore RingCopy RingHeadTail RingElem RingSpec.
From S2P Require Import RingConc RingConcSpec RingConcThm.
Open Scope Z_scope.

(** ** One step of one thread *)

Definition hts (s : ring_side) (r : rte_ring) : bool :=
  sync_type (side s r) =? RTE_RING_SYNC_MT_HTS.

(** [op] holds a pair that was read at the position [h]: [__rte_ring_hts_head_wait]
    lets it pass when nobody is active, otherwise it is read again. *)
Definition hts_seen (s : ring_side) (max : Z) (b : rte_ring_queue_behavior) (buf : list Z)
    (op : __rte_ring_hts_pos) (h : Z) : pc :=
  if hp_head op =? hp_tail op then ReadTail s max b buf (hp_head op) h
  else ReadHead s max b buf.

(** As [thread_step], for a thread on a side with this protocol.  At [ReadHead]
    the thread loads the pair; while its halves differ it spins, without changing
    anything.  A compare-and-swap that fails leaves what it found in [op]. *)
Definition hts_step (w : nat) (h : Z) (p : pc) (r : rte_ring) : option (pc * rte_ring * Z) :=
  match p with
  | Idle | Finish _ _ _ _ | Wait _ _ _ _ _ _ => None
  | ReadHead s max b buf =>
      let op := hts_ht (side s r) in
      if hp_head op =? hp_tail op then Some (hts_seen s max b buf op h, r, 0) else None
  | ReadTail s max b buf old g =>
      let room := room_seen s old r in
      let n := clip b max room in
      if n =? 0 then Some (Finish s 0 (u32 (room - 0)) buf, r, 0)
      else Some (Swap s max b buf old n room g, r, 0)
  | Swap s max b buf old n room g =>
      let op := mk_hts_pos old old in
      let np := mk_hts_pos (u32 (hp_head op + n)) (hp_tail op) in
      let v := hts_ht (side s r) in
      if decide (v = op) then
        Some (Copy s buf old n room 0 g, set_side s (set_hts_ht np (side s r)) r, n)
      else Some (hts_seen s max b buf v h, r, 0)
  | Copy s buf old n room j g =>
      if (j <? Z.to_nat n * w)%nat then
        match s with
        | Prod =>
            x ← buf !! j ;
            _ ← slots r !! slot_word w r old j ;
            Some (Copy s buf old n room (Datatypes.S j) g,
                  set_slots (<[slot_word w r old j := x]> (slots r)) r, 0)
        | Cons =>
            x ← slots r !! slot_word w r old j ;
            _ ← buf !! j ;
            Some (Copy s (<[j := x]> buf) old n room (Datatypes.S j) g, r, 0)
        end
      else Some (Publish s buf old n room g, r, 0)
  | Publish s buf old n room g =>
      Some (Finish s n (u32 (room - n)) buf,
            set_side s (set_tail (u32 (old + n)) (side s r)) r, 0)
  end.

(** The protocol of the side selects the operation. *)
Definition sync_step (w : nat) (h : Z) (s : ring_side) (p : pc) (r : rte_ring)
  : option (pc * rte_ring * Z) :=
  if hts s r then hts_step w h p r else thread_step w h p r.

(** ** Runs *)

(** As [RingConc.call_ok]: only a single-thread side has one user at a time. *)
Definition hcall_ok (w : nat) (c : conf) (s : ring_side) (n : Z) (buf : list Z) : Prop :=
  fits 32 n /\ (Z.to_nat n * w <= length buf)%nat
  /\ (sync_type (side s (c_ring c)) = RTE_RING_SYNC_ST ->
      Forall (fun p => pc_side p <> Some s) (c_pcs c)).

Inductive hstep (w : nat) (c : conf) : option event -> conf -> Prop :=
| hstep_call i s n b buf :
    c_pcs c !! i = Some Idle -> hcall_ok w c s n buf ->
    hstep w c (Some (EvCall i s n b buf))
      (mk_conf (c_ring c) (c_prod c) (c_cons c) (<[i := ReadHead s n b buf]> (c_pcs c)))
| hstep_run i s p p' r' k :
    c_pcs c !! i = Some p -> pc_side p = Some s ->
    sync_step w (moved s c) s p (c_ring c) = Some (p', r', k) ->
    hstep w c None (move s k (mk_conf r' (c_prod c) (c_cons c) (<[i := p']> (c_pcs c))))
| hstep_return i s n room buf :
    c_pcs c !! i = Some (Finish s n room buf) ->
    hstep w c (Some (EvReturn i s n room buf))
      (mk_conf (c_ring c) (c_prod c) (c_cons c) (<[i := Idle]> (c_pcs c))).

Inductive hrun (w : nat) (c : conf) : list event -> conf -> Prop :=
| hrun_nil : hrun w c [] c
| hrun_snoc tr c1 l c2 :
    hrun w c tr c1 -> fresh c1 -> hstep w c1 l c2 -> hrun w c (tr ++ option_list l) c2.

#[global] Instance hcall_ok_dec w c s n buf : Decision (hcall_ok w c s n buf).
Proof. unfold hcall_ok. apply _. Defined.

(** *** Executing a schedule *)

Definition hexec1 (w : nat) (c : conf) (d : act) : option (option event * conf) :=
  match d with
  | DoCall i s n b buf =>
      match c_pcs c !! i with
      | Some Idle =>
          if decide (hcall_ok w c s n buf) then
            Some (Some (EvCall i s n b buf),
              mk_conf (c_ring c) (c_prod c) (c_cons c) (<[i := ReadHead s n b buf]> (c_pcs c)))
          else None
      | _ => None
      end
  | DoStep i =>
      p ← c_pcs c !! i ;
      s ← pc_side p ;
      '(p', r', k) ← sync_step w (moved s c) s p (c_ring c) ;
      Some (None, move s k (mk_conf r' (c_prod c) (c_cons c) (<[i := p']> (c_pcs c))))
  | DoReturn i =>
      match c_pcs c !! i with
      | Some (Finish s n room buf) =>
          Some (Some (EvReturn i s n room buf),
            mk_conf (c_ring c) (c_prod c) (c_cons c) (<[i := Idle]> (c_pcs c)))
      | _ => None
      end
  end.

(** The last action comes first. *)
Fixpoint hexec (w : nat) (c : conf) (ds : list act) : option (list event * conf) :=
  match ds with
  | [] => Some ([], c)
  | d :: ds' =>
      '(tr, c1) ← hexec w c ds' ;
      if decide (fresh c1) then
        '(l, c2) ← hexec1 w c1 d ;
        Some (tr ++ option_list l, c2)
      else None
  end.

Lemma hexec1_step w c d l c' : hexec1 w c d = Some (l, c') -> hstep w c l c'.
Proof.
  destruct d as [i s n b buf|i|i]; unfold hexec1.
  - destruct (c_pcs c !! i) as [[]|] eqn:Hi; try done.
    case_decide; intros; simplify_eq. by apply hstep_call.
  - destruct (c_pcs c !! i) as [p|] eqn:Hi; [|done]. cbn [mbind option_bind].
    destruct (pc_side p) as [s|] eqn:Hs; [|done]. cbn [mbind option_bind].
    destruct (sync_step _ _ _ _ _) as [[[p' r'] k]|] eqn:Ht; [|done].
    cbn [mbind option_bind]. intros; simplify_eq. by apply (hstep_run w c i s p).
  - destruct (c_pcs c !! i) as [[]|] eqn:Hi; intros; simplify_eq. by apply hstep_return.
Qed.

Lemma hexec_run w c ds tr c' : hexec w c ds = Some (tr, c') -> hrun w c tr c'.
Proof.
  revert tr c'. induction ds as [|d ds IH]; intros tr c' E; simpl in E.
  { simplify_eq. apply hrun_nil. }
  destruct (hexec w c ds) as [[tr1 c1]|] eqn:E1; [|done]. cbn [mbind option_bind] in E.
  case_decide; [|done]. destruct (hexec1 w c1 d) as [[l c2]|] eqn:E2; [|done].
  cbn [mbind option_bind] in E. simplify_eq.
  eapply hrun_snoc; [by apply IH|done|by eapply hexec1_step].
Qed.

(** ** The same memory under the default protocol *)

Definition mt_sync (t : Z) : Z := if t =? RTE_RING_SYNC_MT_HTS then RTE_RING_SYNC_MT else t.

Definition mt_side (h : rte_ring_headtail) : rte_ring_headtail :=
  mk_headtail (ht_w0 h) (ht_w1 h) (mt_sync (sync_type h)) (htd_max h)
    (rts_head_w0 h) (rts_head_w1 h).

Definition mt_ring (r : rte_ring) : rte_ring :=
  mk_ring (flags r) (size r) (mask r) (capacity r) (mt_side (prod r)) (mt_side (cons r)) (slots r).

Definition mt_conf (c : conf) : conf :=
  mk_conf (mt_ring (c_ring c)) (c_prod c) (c_cons c) (c_pcs c).

Lemma side_mt s r : side s (mt_ring r) = mt_side (side s r).
Proof. by destruct s. Qed.

Lemma mt_set_side s h r : mt_ring (set_side s h r) = set_side s (mt_side h) (mt_ring r).
Proof. by destruct s. Qed.

Lemma moved_mt s c : moved s (mt_conf c) = moved s c.
Proof. by destruct s. Qed.

Lemma fresh_mt c : fresh c -> fresh (mt_conf c).
Proof. apply Forall_impl. intros p. by destruct p as [| |[]|[]| | | |]. Qed.

Lemma move_mt s k c : mt_conf (move s k c) = move s k (mt_conf c).
Proof. by destruct s. Qed.

Lemma single_mt s r :
  sync_type (side s r) ∈ [RTE_RING_SYNC_MT; RTE_RING_SYNC_ST; RTE_RING_SYNC_MT_HTS] ->
  single s (mt_ring r) = (sync_type (side s r) =? RTE_RING_SYNC_ST).
Proof.
  intros H. unfold single. rewrite side_mt. cbn [sync_type mt_side].
  rewrite !elem_of_cons in H. destruct H as [->|[->|[->|H]]]; try done. by apply not_elem_of_nil in H.
Qed.

Lemma room_seen_mt s old r : room_seen s old (mt_ring r) = room_seen s old r.
Proof. by destruct s. Qed.

Lemma slot_word_mt w r old j : slot_word w (mt_ring r) old j = slot_word w r old j.
Proof. done. Qed.

(** ** What holds besides

    A thread that has reserved on such a side has reserved last, and nobody can
    look at the pair until it has published. *)
Definition looking (p : pc) : option (ring_side * Z) :=
  match p with
  | ReadTail s _ _ _ _ g | Swap s _ _ _ _ _ _ g => Some (s, g)
  | _ => None
  end.

Record hts_inv (H : ring_side -> bool) (c : conf) : Prop := {
  hi_sync s : hts s (c_ring c) = H s;
  hi_types s : sync_type (side s (c_ring c))
    ∈ [RTE_RING_SYNC_MT; RTE_RING_SYNC_ST; RTE_RING_SYNC_MT_HTS];
  hi_last s i p g n : H s = true -> c_pcs c !! i = Some p -> flying p = Some (s, g, n) ->
    moved s c = g + n;
  hi_look s i j p q g g' n : H s = true -> c_pcs c !! i = Some p -> looking p = Some (s, g) ->
    c_pcs c !! j = Some q -> flying q = Some (s, g', n) -> g <= g';
  hi_wait s i buf old n room g : H s = true -> c_pcs c !! i <> Some (Wait s buf old n room g)
}.

(** Nobody has a reservation on the side. *)
Definition unreserved (s : ring_side) (c : conf) : Prop :=
  forall j q g n, c_pcs c !! j = Some q -> flying q <> Some (s, g, n).

Lemma lookup_insert_cases (l : list pc) i j (p q : pc) :
  <[i := p]> l !! j = Some q -> (j = i /\ q = p) \/ (j <> i /\ l !! j = Some q).
Proof. intros [(-> & -> & _)|[? ?]]%list_lookup_insert_Some; [by left|right; by split]. Qed.

Section inv.
Context (H : ring_side -> bool) (c : conf) (I : hts_inv H c).
Context (i : nat) (p p' : pc) (Hi : c_pcs c !! i = Some p).
Context (c' : conf) (Hpcs : c_pcs c' = <[i := p']> (c_pcs c)).
Context (Hsync : forall s, sync_type (side s (c_ring c')) = sync_type (side s (c_ring c))).

Lemma inv_types s : hts s (c_ring c') = H s /\ sync_type (side s (c_ring c'))
    ∈ [RTE_RING_SYNC_MT; RTE_RING_SYNC_ST; RTE_RING_SYNC_MT_HTS].
Proof. unfold hts. rewrite Hsync. split; [apply (hi_sync _ _ I)|apply (hi_types _ _ I)]. Qed.

(** A step that reserves nothing, and looks only where nothing is reserved. *)
Lemma inv_local :
  (forall s, H s = true -> moved s c' = moved s c) ->
  (forall s g n, H s = true -> flying p' = Some (s, g, n) -> flying p = Some (s, g, n)) ->
  (forall s g, H s = true -> looking p' = Some (s, g) ->
     looking p = Some (s, g) \/ unreserved s c) ->
  (forall s buf old n room g, H s = true -> p' <> Wait s buf old n room g) ->
  hts_inv H c'.
Proof.
  intros Hm Hf Hl Hw.
  assert (forall s j q g n, H s = true -> c_pcs c' !! j = Some q -> flying q = Some (s, g, n) ->
    exists q0, c_pcs c !! j = Some q0 /\ flying q0 = Some (s, g, n)) as Hold.
  { intros s j q g n Hs Hj Hq. rewrite Hpcs in Hj.
    apply lookup_insert_cases in Hj as [[-> ->]|[_ Hj]]; eauto. }
  split; try apply inv_types.
  - intros s j q g n Hs Hj Hq. destruct (Hold s j q g n Hs Hj Hq) as (q0 & Hj0 & Hq0).
    rewrite Hm by done. by apply (hi_last _ _ I s j q0).
  - intros s j j' q q' g g' n Hs Hj Hq Hj' Hq'.
    destruct (Hold s j' q' g' n Hs Hj' Hq') as (q0 & Hj0 & Hq0).
    rewrite Hpcs in Hj. apply lookup_insert_cases in Hj as [[-> ->]|[_ Hj]].
    + destruct (Hl s g Hs Hq) as [Hl'|U]; [by apply (hi_look _ _ I s i j' p q0 g g' n)|].
      by destruct (U j' q0 g' n Hj0).
    + by apply (hi_look _ _ I s j j' q q0 g g' n).
  - intros s j buf old n room g Hs Hj. rewrite Hpcs in Hj.
    apply lookup_insert_cases in Hj as [[_ E]|[_ Hj]]; [by eapply Hw|].
    by eapply (hi_wait _ _ I).
Qed.

(** A reservation at the head, where there was none. *)
Lemma inv_reserve s n : H s = true -> flying p' = Some (s, moved s c, n) -> looking p' = None ->
  unreserved s c ->
  (forall s', moved s' c' = moved s' c + (if decide (s' = s) then n else 0)) ->
  (forall j q g, c_pcs c !! j = Some q -> looking q = Some (s, g) -> g <= moved s c) ->
  (forall s buf old n room g, p' <> Wait s buf old n room g) ->
  hts_inv H c'.
Proof.
  intros Hs Hf Hl U Hm Hb Hw.
  split; try apply inv_types.
  - intros s' j q g m Hs' Hj Hq. rewrite Hm. rewrite Hpcs in Hj.
    apply lookup_insert_cases in Hj as [[-> ->]|[_ Hj]].
    + rewrite Hf in Hq. simplify_eq. by rewrite decide_True.
    + rewrite decide_False; [|intros ->; by eapply U].
      rewrite Z.add_0_r. by apply (hi_last _ _ I s' j q).
  - intros s' j j' q q' g g' m Hs' Hj Hq Hj' Hq'. rewrite Hpcs in Hj, Hj'.
    apply lookup_insert_cases in Hj as [[-> ->]|[_ Hj]]; [congruence|].
    apply lookup_insert_cases in Hj' as [[-> ->]|[_ Hj']].
    + rewrite Hf in Hq'. simplify_eq. by eapply Hb.
    + by apply (hi_look _ _ I s' j j' q q' g g' m).
  - intros s' j buf old m room g Hs' Hj. rewrite Hpcs in Hj.
    apply lookup_insert_cases in Hj as [[_ E]|[_ Hj]]; [by eapply Hw|].
    by eapply (hi_wait _ _ I).
Qed.
End inv.

(** ** Reservations on such a side *)

Section reservations.
Context (H : ring_side -> bool) (w : nat) (tl : ring_side -> Z) (c : conf) (a : aconf).
Context (I : hts_inv H c) (S : sim w tl (mt_conf c) a).

(** When the halves of the pair are equal nobody is inside an operation. *)
Lemma pair_equal_unreserved s : ht_w0 (side s (c_ring c)) = ht_w1 (side s (c_ring c)) ->
  tl s = moved s c /\ unreserved s c.
Proof.
  intros E. pose proof (marks_room w tl _ a S) as R. cbn [c_ring mt_conf mt_ring capacity size] in R.
  pose proof (sim_head _ _ _ _ S s) as Eh. pose proof (sim_tail _ _ _ _ S s) as Et.
  rewrite moved_mt in Eh. cbn [c_ring mt_conf] in Eh, Et. rewrite side_mt in Eh, Et.
  unfold head, tail in Eh, Et. cbn [mt_side ht_w0 ht_w1] in Eh, Et.
  rewrite !moved_mt in R. assert (tl s = moved s c) as T.
  { symmetry. apply u32_inj; [congruence|]. destruct s; lia. }
  split; [done|]. intros j q g n Hj Hf.
  pose proof (flying_range w tl _ a S j q s g n Hj Hf) as F. rewrite moved_mt in F. lia.
Qed.

(** One thread at a time is inside an operation, and it began at the tail. *)
Lemma reserved_once s i p g n : H s = true -> c_pcs c !! i = Some p -> flying p = Some (s, g, n) ->
  tl s = g /\ forall j q g' n', c_pcs c !! j = Some q -> flying q = Some (s, g', n') -> j = i.
Proof.
  intros Hs Hi Hf.
  assert (forall j q g' n', c_pcs c !! j = Some q -> flying q = Some (s, g', n') -> j = i) as U.
  { intros j q g' n' Hj Hq. destruct (decide (j = i)) as [|N]; [done|].
    pose proof (sim_disjoint _ _ _ _ S j i q p s g' n' g n N Hj Hi Hq Hf).
    pose proof (hi_last _ _ I s i p g n Hs Hi Hf). pose proof (hi_last _ _ I s j q g' n' Hs Hj Hq).
    pose proof (flying_range w tl _ a S i p s g n Hi Hf).
    pose proof (flying_range w tl _ a S j q s g' n' Hj Hq). lia. }
  split; [|done]. pose proof (flying_range w tl _ a S i p s g n Hi Hf).
  destruct (sim_cover _ _ _ _ S s (tl s) ltac:(lia)) as (j & q & g' & n' & Hj & Hq & Hx).
  assert (j = i) as -> by (by eapply U).
  cbn [c_pcs mt_conf] in Hj. rewrite Hi in Hj. injection Hj as <-. rewrite Hf in Hq. injection Hq as <- <-. lia.
Qed.

(** A compare-and-swap of the head alone would succeed just when that of the
    pair does. *)
Lemma pair_of_head s i max b buf old n room g : H s = true ->
  c_pcs c !! i = Some (Swap s max b buf old n room g) ->
  pc_fresh c (Swap s max b buf old n room g) = true ->
  ht_w0 (side s (c_ring c)) = old -> ht_w1 (side s (c_ring c)) = old /\ g = moved s c.
Proof.
  intros Hs Hi Hf E. destruct (thread_ok w tl _ a S i _ Hi) as (x & _ & _ & _ & L & _).
  assert (pc_fresh (mt_conf c) (Swap s max b buf old n room g) = true) as Hf'
    by (by destruct s).
  simpl in Hf'. apply Z.ltb_lt in Hf'.
  assert (g = moved s (mt_conf c)) as Eg.
  { eapply (swap_exact w tl _ a S s old g L Hf').
    apply orb_true_iff. right. cbn [c_ring mt_conf]. rewrite side_mt. unfold head. simpl. lia. }
  rewrite moved_mt in Eg. split; [|done].
  assert (unreserved s c) as U.
  { intros j q g' n' Hj Hq. pose proof (hi_look _ _ I s i j _ q g g' n' Hs Hi eq_refl Hj Hq).
    pose proof (hi_last _ _ I s j q g' n' Hs Hj Hq).
    pose proof (flying_range w tl _ a S j q s g' n' Hj Hq). lia. }
  assert (tl s = moved s (mt_conf c)) as T.
  { pose proof (sim_order _ _ _ _ S). assert (tl s <= moved s (mt_conf c)) by (destruct s; lia).
    destruct (decide (tl s = moved s (mt_conf c))) as [|N]; [done|].
    destruct (sim_cover _ _ _ _ S s (tl s) ltac:(lia)) as (j & q & g' & n' & Hj & Hq & _).
    by destruct (U j q g' n' Hj). }
  pose proof (sim_head _ _ _ _ S s) as Eh. pose proof (sim_tail _ _ _ _ S s) as Et.
  cbn [c_ring mt_conf] in Eh, Et. rewrite side_mt in Eh, Et. unfold head, tail in Eh, Et.
  cbn [mt_side ht_w0 ht_w1] in Eh, Et. congruence.
Qed.
End reservations.

(** ** One or two steps of the default protocol *)

Lemma pc_side_flying p s g n : flying p = Some (s, g, n) -> pc_side p = Some s.
Proof. destruct p; simpl; try done; congruence. Qed.

Lemma pc_side_looking p s g : looking p = Some (s, g) -> pc_side p = Some s.
Proof. destruct p; simpl; try done; congruence. Qed.

(** The configuration in which thread [i] has gone to [p]. *)
Definition after (i : nat) (s : ring_side) (p : pc) (r : rte_ring) (k : Z) (c : conf) : conf :=
  move s k (mk_conf r (c_prod c) (c_cons c) (<[i := p]> (c_pcs c))).

Lemma after_mt i s p r k c : mt_conf (after i s p r k c) = after i s p (mt_ring r) k (mt_conf c).
Proof. by destruct s. Qed.

Lemma after_pcs i s p r k c : c_pcs (after i s p r k c) = <[i := p]> (c_pcs c).
Proof. by destruct s. Qed.

Lemma after_ring i s p r k c : c_ring (after i s p r k c) = r.
Proof. by destruct s. Qed.

Lemma after_moved i s p r k c s' :
  moved s' (after i s p r k c) = moved s' c + (if decide (s' = s) then k else 0).
Proof. unfold after. rewrite moved_move. by destruct s'. Qed.

Section follow.
Context (w : nat) (c0 d : conf) (tr : list event) (R : run w c0 tr d) (F : fresh d).
Context (i : nat) (s : ring_side) (p : pc) (Hi : c_pcs d !! i = Some p) (Hs : pc_side p = Some s).

Lemma run_one p' r' k : thread_step w (moved s d) p (c_ring d) = Some (p', r', k) ->
  run w c0 tr (after i s p' r' k d).
Proof.
  intros E. rewrite <- (app_nil_r tr). eapply (run_snoc _ _ _ _ None); [done..|]. by eapply step_run.
Qed.

Lemma run_two p1 p' r' k : thread_step w (moved s d) p (c_ring d) = Some (p1, c_ring d, 0) ->
  (forall c, pc_fresh c p1 = true) -> pc_side p1 = Some s ->
  thread_step w (moved s d) p1 (c_ring d) = Some (p', r', k) ->
  run w c0 tr (after i s p' r' k d).
Proof.
  intros E1 F1 S1 E2. pose proof (run_one p1 _ _ E1) as R1.
  assert (after i s p1 (c_ring d) 0 d = mk_conf (c_ring d) (c_prod d) (c_cons d) (<[i := p1]> (c_pcs d)))
    as Ed by (unfold after; by rewrite move_0).
  rewrite Ed in R1. rewrite <- (app_nil_r tr).
  assert (after i s p' r' k d
    = after i s p' r' k (mk_conf (c_ring d) (c_prod d) (c_cons d) (<[i := p1]> (c_pcs d)))) as ->.
  { unfold after. cbn [c_prod c_cons c_pcs]. by rewrite list_insert_insert_eq. }
  eapply (run_snoc _ _ _ _ None); [exact R1| |].
  - apply Forall_insert; [|by apply F1]. generalize F. apply Forall_impl.
    intros q. by destruct q as [| |[]|[]| | | |].
  - eapply step_run; [|exact S1|by destruct s].
    apply list_lookup_insert_eq. by apply lookup_lt_Some in Hi.
Qed.
End follow.

(** *** A side with another protocol *)

Lemma thread_step_side w h p r p' r' k s : thread_step w h p r = Some (p', r', k) ->
  pc_side p = Some s -> pc_side p' = Some s
    /\ forall s', sync_type (side s' r') = sync_type (side s' r).
Proof.
  destruct p; cbn [thread_step]; intros E Hs; try done;
    repeat (case_match || (destruct (_ !! _); cbn [mbind option_bind] in E)); simpl in Hs; simplify_eq;
    try done; (split; [done|]); intros s'; by destruct s, s'.
Qed.

Lemma thread_step_mt w h p r p' r' k s :
  thread_step w h p r = Some (p', r', k) -> pc_side p = Some s -> hts s r = false ->
  thread_step w h p (mt_ring r) = Some (p', mt_ring r', k).
Proof.
  intros E Hs Hh.
  assert (single s (mt_ring r) = single s r) as E1.
  { unfold single. rewrite side_mt. cbn [mt_side sync_type]. unfold mt_sync. unfold hts in Hh.
    by rewrite Hh. }
  destruct p; simpl in Hs; simplify_eq; cbn [thread_step] in *;
    rewrite ?room_seen_mt, ?E1, ?side_mt in *; cbn [slots mt_ring] in *.
  - by simplify_eq.
  - case_match; by simplify_eq.
  - change (head (mt_side (side s r))) with (head (side s r)).
    case_match; simplify_eq; [by rewrite mt_set_side|done].
  - destruct (j <? _)%nat; [|case_match; by simplify_eq].
    destruct s; repeat (destruct (_ !! _); cbn [mbind option_bind] in *); by simplify_eq.
  - change (tail (mt_side (side s r))) with (tail (side s r)). case_match; by simplify_eq.
  - simplify_eq. by rewrite mt_set_side.
Qed.

Section steps.
Context (H : ring_side -> bool) (w : nat) (c0 c : conf) (tr : list event).
Context (R : run w c0 tr (mt_conf c)) (F : fresh c) (I : hts_inv H c).
Context (tl : ring_side -> Z) (a : aconf) (S : sim w tl (mt_conf c) a).
Context (i : nat) (s : ring_side) (p : pc) (Hi : c_pcs c !! i = Some p) (Hs : pc_side p = Some s).

Lemma default_side_step p' r' k : H s = false ->
  thread_step w (moved s c) p (c_ring c) = Some (p', r', k) ->
  run w c0 tr (mt_conf (after i s p' r' k c)) /\ hts_inv H (after i s p' r' k c).
Proof.
  intros Hh E. pose proof (thread_step_side _ _ _ _ _ _ _ s E Hs) as [Hp' Hsync].
  split.
  - rewrite after_mt. eapply run_one; [done|by apply fresh_mt|exact Hi|done|].
    rewrite moved_mt. eapply thread_step_mt; [exact E|done|]. by rewrite (hi_sync _ _ I).
  - apply (inv_local H c I i p p' Hi).
    + apply after_pcs.
    + intros s'. rewrite after_ring. apply Hsync.
    + intros s' Hs'. rewrite after_moved, decide_False by congruence. lia.
    + intros s' g n Hs' Hf. apply pc_side_flying in Hf. congruence.
    + intros s' g Hs' Hl. apply pc_side_looking in Hl. congruence.
    + intros s' buf old n room g Hs' ->. simpl in Hp'. congruence.
Qed.

(** *** A side with this protocol *)

Section hts_side.
Context (Hh : H s = true).

Lemma mt_shared : single s (mt_ring (c_ring c)) = false.
Proof.
  rewrite single_mt by apply (hi_types _ _ I). pose proof (hi_sync _ _ I s) as E.
  unfold hts in E. rewrite Hh in E. apply Z.eqb_eq in E. by rewrite E.
Qed.

Lemma mt_one p' r' k :
  thread_step w (moved s c) p (mt_ring (c_ring c)) = Some (p', mt_ring r', k) ->
  run w c0 tr (mt_conf (after i s p' r' k c)).
Proof.
  intros E. rewrite after_mt. eapply run_one; [done|by apply fresh_mt|exact Hi|done|].
  by rewrite moved_mt.
Qed.

Lemma mt_two p1 p' r' k :
  thread_step w (moved s c) p (mt_ring (c_ring c)) = Some (p1, mt_ring (c_ring c), 0) ->
  (forall c, pc_fresh c p1 = true) -> pc_side p1 = Some s ->
  thread_step w (moved s c) p1 (mt_ring (c_ring c)) = Some (p', mt_ring r', k) ->
  run w c0 tr (mt_conf (after i s p' r' k c)).
Proof.
  intros E1 F1 S1 E2. rewrite after_mt.
  eapply (run_two w c0 (mt_conf c) tr R (fresh_mt c F) i s p Hi Hs p1); try done; by rewrite moved_mt.
Qed.

(** A step that only changes the memory of the slots, the tail or the thread. *)
Lemma hts_inv_quiet p' r' : flying p' = flying p \/ flying p' = None ->
  (forall g, looking p' = Some (s, g) -> looking p = Some (s, g) \/ unreserved s c) ->
  pc_side p' = Some s -> (forall s buf old n room g, p' <> Wait s buf old n room g) ->
  (forall s', sync_type (side s' r') = sync_type (side s' (c_ring c))) ->
  hts_inv H (after i s p' r' 0 c).
Proof.
  intros Hf Hl Hp Hw Hsync. apply (inv_local H c I i p p' Hi).
  - apply after_pcs.
  - intros s'. rewrite after_ring. apply Hsync.
  - intros s' _. rewrite after_moved. destruct (decide _); lia.
  - intros s' g n _ E. destruct Hf as [<-|Hf]; [done|congruence].
  - intros s' g _ E. pose proof (pc_side_looking _ _ _ E). assert (s' = s) as -> by congruence. auto.
  - intros s' buf old n room g _. apply Hw.
Qed.

Lemma hts_read_head max b buf p' r' k : p = ReadHead s max b buf ->
  hts_step w (moved s c) p (c_ring c) = Some (p', r', k) ->
  run w c0 tr (mt_conf (after i s p' r' k c)) /\ hts_inv H (after i s p' r' k c).
Proof.
  intros Ep. pose proof mt_one as One. pose proof hts_inv_quiet as Quiet. subst p.
  cbn [hts_step]. unfold hts_seen. cbn [hts_ht hp_head hp_tail].
  destruct (_ =? _) eqn:E; [|done]. intros E2. simplify_eq. apply Z.eqb_eq in E. split.
  - apply One. cbn [thread_step]. by rewrite side_mt.
  - apply Quiet; [by left|..]; try done. intros g _. right.
    by apply (pair_equal_unreserved w tl c a S s E).
Qed.

Lemma hts_swap max b buf old n room g p' r' k : p = Swap s max b buf old n room g ->
  pc_fresh c p = true -> hts_step w (moved s c) p (c_ring c) = Some (p', r', k) ->
  run w c0 tr (mt_conf (after i s p' r' k c)) /\ hts_inv H (after i s p' r' k c).
Proof.
  intros Ep Hfr. pose proof mt_one as One. pose proof mt_two as Two.
  pose proof hts_inv_quiet as Quiet. pose proof mt_shared as Sh. subst p.
  pose proof (pair_of_head H w tl c a I S s i _ _ _ _ _ _ _ Hh Hi Hfr) as Pair.
  cbn [hts_step hp_head hp_tail]. destruct (decide _) as [E|N].
  - injection E as E0 E1. intros E2. injection E2 as <- <- <-. destruct (Pair E0) as [_ ->].
    split.
    + apply One. cbn [thread_step]. rewrite Sh, side_mt, mt_set_side.
      change (head (mt_side (side s (c_ring c)))) with (ht_w0 (side s (c_ring c))).
      rewrite E0, Z.eqb_refl. cbn [orb]. do 4 f_equal. by rewrite <- E1.
    + destruct (pair_equal_unreserved w tl c a S s ltac:(congruence)) as [_ U].
      eapply (inv_reserve H c I i _ _ (after_pcs _ _ _ _ _ _)); [|exact Hh|reflexivity|done|exact U| | |done].
      * intros s'. rewrite after_ring. by destruct s, s'.
      * intros s'. by rewrite after_moved.
      * intros j q g Hj Hq. destruct (thread_ok w tl _ a S j q Hj) as (x & _ & Hok).
        destruct q; simpl in Hq; try done; simplify_eq; simpl in Hok;
          [destruct Hok as (_ & _ & _ & L & _)|destruct Hok as (_ & _ & (_ & L & _) & _)];
          rewrite moved_mt in L; lia.
  - intros E2. simplify_eq.
    assert ((head (mt_side (side s (c_ring c))) =? old) = false) as Nh.
    { apply Z.eqb_neq. intros E0. destruct (Pair E0) as [E1 _]. apply N.
      unfold hts_ht. f_equal; [exact E0|exact E1]. }
    unfold hts_seen. cbn [hts_ht hp_head hp_tail].
    destruct (ht_w0 (side s (c_ring c)) =? ht_w1 (side s (c_ring c))) eqn:E.
    + apply Z.eqb_eq in E. split.
      * apply (Two (ReadHead s max b buf)); try done; cbn [thread_step]; rewrite ?Sh, ?side_mt, ?Nh; done.
      * apply Quiet; [by left|..]; try done. intros g' _. right.
        by apply (pair_equal_unreserved w tl c a S s E).
    + split.
      * apply One. cbn [thread_step]. by rewrite Sh, side_mt, Nh.
      * by apply Quiet; [left|..].
Qed.

Lemma hts_copy buf old n room j g p' r' k : p = Copy s buf old n room j g ->
  hts_step w (moved s c) p (c_ring c) = Some (p', r', k) ->
  run w c0 tr (mt_conf (after i s p' r' k c)) /\ hts_inv H (after i s p' r' k c).
Proof.
  intros Ep. pose proof mt_one as One. pose proof mt_two as Two.
  pose proof hts_inv_quiet as Quiet. pose proof mt_shared as Sh. subst p.
  cbn [hts_step]. destruct (j <? _)%nat eqn:Ej.
  - intros E. assert (thread_step w (moved s c) (Copy s buf old n room j g) (c_ring c)
      = Some (p', r', k)) as E' by (cbn [thread_step]; by rewrite Ej).
    split.
    + apply One. cbn [thread_step] in E' |- *. rewrite Ej in E' |- *.
      cbn [slots mt_ring] in *.
      destruct s; repeat (destruct (_ !! _); cbn [mbind option_bind] in *); by simplify_eq.
    + destruct s; repeat (destruct (_ !! _); cbn [mbind option_bind] in E); simplify_eq;
        (by apply Quiet; [left|..]).
  - intros E. simplify_eq. split.
    + apply (Two (Wait s buf old n room g)); try done; cbn [thread_step]; rewrite ?Ej, ?Sh; [done|].
      destruct (reserved_once H w tl c a I S s i _ g n Hh Hi eq_refl) as [T _].
      destruct (thread_ok w tl _ a S i _ Hi) as (x & _ & Eo & _).
      pose proof (sim_tail _ _ _ _ S s) as Et. cbn [c_ring mt_conf] in Et.
      by rewrite Et, T, <- Eo, Z.eqb_refl.
    + by apply Quiet; [left|..].
Qed.

Lemma hts_side_step p' r' k : pc_fresh c p = true ->
  hts_step w (moved s c) p (c_ring c) = Some (p', r', k) ->
  run w c0 tr (mt_conf (after i s p' r' k c)) /\ hts_inv H (after i s p' r' k c).
Proof.
  intros Hfr E. pose proof mt_one as One. pose proof hts_inv_quiet as Quiet.
  pose proof hts_read_head as Head. pose proof hts_swap as Swp. pose proof hts_copy as Cpy.
  destruct p; simpl in Hs; simplify_eq; try done.
  - by eapply Head.
  - cbn [hts_step] in E. split.
    + apply One. cbn [thread_step]. rewrite room_seen_mt. case_match; by simplify_eq.
    + case_match; simplify_eq; (apply Quiet; [by left|..]; try done; intros g'; by left).
  - by eapply Swp.
  - by eapply Cpy.
  - cbn [hts_step] in E. simplify_eq. split.
    + apply One. cbn [thread_step]. by rewrite mt_set_side, side_mt.
    + apply Quiet; [by right|done|done|done|]. intros s'. by destruct s, s'.
Qed.
End hts_side.
End steps.

(** ** Whole runs *)

Section whole.
Context (w : nat) (r : rte_ring) (I : ring_inv w r).
Context (D : forall s, sync_type (side s r)
  ∈ [RTE_RING_SYNC_MT; RTE_RING_SYNC_ST; RTE_RING_SYNC_MT_HTS]).

Lemma mt_types s : sync_type (side s (mt_ring r)) ∈ [RTE_RING_SYNC_MT; RTE_RING_SYNC_ST].
Proof.
  rewrite side_mt. cbn [mt_side sync_type]. specialize (D s). rewrite !elem_of_cons in D.
  destruct D as [->|[->|[->|X]]]; [by left|by right; left|by left|by apply not_elem_of_nil in X].
Qed.

Lemma mt_inv : ring_inv w (mt_ring r).
Proof.
  destruct I as [IG IC IQ IF IE]. split; [by destruct IG|done| |intros []; apply (IF Prod) || apply (IF Cons)|done].
  intros s. left. split.
  - pose proof (mt_types s) as T. rewrite !elem_of_cons in T |- *.
    destruct T as [|[|X]]; [by left|by right; left|by apply not_elem_of_nil in X].
  - rewrite side_mt. unfold default_quiet. specialize (IQ s). specialize (D s).
    destruct IQ as [[_ Q]|[E _]]; [exact Q|]. rewrite E, !elem_of_cons in D.
    destruct D as [|[|[|X]]]; [done..|by apply not_elem_of_nil in X].
Qed.

Definition hts_sides (s : ring_side) : bool := hts s r.

Lemma start_mt k : mt_conf (start r k) = start (mt_ring r) k.
Proof. done. Qed.

Lemma start_hts_inv k : hts_inv hts_sides (start r k).
Proof.
  split; try done.
  - intros s i p g n _ Hi Hf. apply start_idle in Hi. by subst.
  - intros s i j p q g g' n _ Hi Hl. apply start_idle in Hi. by subst.
  - intros s i buf old n room g _ Hi. by apply start_idle in Hi.
Qed.

(** Any run is a run of the default protocol. *)
Lemma hrun_follows k tr c : hrun w (start r k) tr c ->
  run w (start (mt_ring r) k) tr (mt_conf c) /\ hts_inv hts_sides c.
Proof.
  induction 1 as [|tr c1 l c2 _ [R J] F St].
  { split; [apply run_nil|apply start_hts_inv]. }
  destruct (start_followed w _ mt_inv mt_types k tr _ R) as (tl & a & S & _ & _).
  destruct St as [i s n b buf Hi Hok|i s p p' r' k' Hi Hs Ht|i s n room buf Hi].
  - split.
    + eapply run_snoc; [exact R|by apply fresh_mt|]. apply (step_call w (mt_conf c1)); [exact Hi|].
      destruct Hok as (H1 & H2 & H3). split; [done|]. split; [done|]. cbn [c_ring mt_conf].
      rewrite single_mt by apply (hi_types _ _ J). intros E. apply Z.eqb_eq in E. by apply H3.
    + apply (inv_local hts_sides c1 J i Idle (ReadHead s n b buf) Hi); try done.
  - assert (pc_fresh c1 p = true) as Hp by (by eapply Forall_lookup_1 in F).
    unfold sync_step in Ht. rewrite (hi_sync _ _ J) in Ht. cbn [option_list]. rewrite app_nil_r.
    destruct (hts_sides s) eqn:Hh.
    + eapply (hts_side_step hts_sides w _ c1 tr R F J tl a S i s p); done.
    + eapply (default_side_step hts_sides w _ c1 tr R F J i s p); done.
  - split.
    + eapply run_snoc; [exact R|by apply fresh_mt|]. by apply (step_return w (mt_conf c1)).
    + by apply (inv_local hts_sides c1 J i _ Idle Hi).
Qed.

Lemma hrun_sim k tr c : hrun w (start r k) tr c ->
  exists tl a, sim w tl (mt_conf c) a /\ hts_inv hts_sides c /\ capacity (c_ring c) = capacity r
    /\ exists o, arun (capacity r) w (mk_aconf (q_items (ring_queue w r)) (replicate k AIdle)) tr a o.
Proof.
  intros R. destruct (hrun_follows k tr c R) as [R' J].
  destruct (start_followed w _ mt_inv mt_types k tr _ R') as (tl & a & S & E & o & A & _).
  exists tl, a. eauto.
Qed.
End whole.

(** At rest the memory is a ring of its own protocols. *)
Lemma mt_inv_back w r : (forall s, sync_type (side s r)
    ∈ [RTE_RING_SYNC_MT; RTE_RING_SYNC_ST; RTE_RING_SYNC_MT_HTS]) ->
  ring_inv w (mt_ring r) -> ring_inv w r.
Proof.
  intros D I. pose proof (mt_types r D) as T. destruct I as [IG IC IQ IF IE].
  split; [by destruct IG|done| |intros []; apply (IF Prod) || apply (IF Cons)|done].
  intros s. left. split; [apply D|]. specialize (IQ s). rewrite side_mt in IQ.
  destruct IQ as [[_ Q]|[E _]]; [exact Q|]. specialize (T s). rewrite side_mt in T.
  rewrite E, !elem_of_cons in T. destruct T as [|[|X]]; [done..|by apply not_elem_of_nil in X].
Qed.

(** The thread has moved the head of the side and not yet its tail. *)
Definition active (s : ring_side) (p : pc) : Prop := exists g n, flying p = Some (s, g, n).

(** C3. Rings with the head/tail protocol on one side or both are linearizable to
    the bounded queue of the default protocol: whatever the interleaving of the
    shared accesses of any number of threads, the calls and returns they see are
    those of a bounded queue on which each call takes effect at once.  A call that
    no other overlaps does exactly what the queue has room or elements for; a call
    that others overlap never has an effect on more than there is, but may count on
    less (an enqueue may store fewer elements than fit, or be refused, a dequeue
    may take fewer than there are).  On a side with this protocol there is at most
    one thread between its reservation and its publication; and when all threads
    are outside of their calls the ring is well formed and holds exactly the
    elements of that queue. *)
Theorem ring_hts_linearizable (w k : nat) (r : rte_ring) (tr : list event) (c : conf) :
  ring_inv w r ->
  (forall s, sync_type (side s r) ∈ [RTE_RING_SYNC_MT; RTE_RING_SYNC_ST; RTE_RING_SYNC_MT_HTS]) ->
  hrun w (start r k) tr c ->
  (exists a o, arun (capacity r) w (mk_aconf (q_items (ring_queue w r)) (replicate k AIdle)) tr a o
    /\ a_count a <= capacity r
    /\ (Forall (fun p => p = Idle) (c_pcs c) ->
         ring_inv w (c_ring c) /\ q_items (ring_queue w (c_ring c)) = a_q a))
  /\ (forall s i j p q, sync_type (side s r) = RTE_RING_SYNC_MT_HTS ->
        c_pcs c !! i = Some p -> c_pcs c !! j = Some q -> active s p -> active s q -> i = j).
Proof.
  intros I D R. destruct (hrun_sim w r I D k tr c R) as (tl & a & S & J & Ec & o & A).
  split.
  - exists a, o. split; [exact A|]. split.
    + pose proof (marks_room w tl _ a S) as M. pose proof (sim_count _ _ _ _ S).
      cbn [c_ring mt_conf mt_ring capacity] in M. lia.
    + intros F. split.
      * apply mt_inv_back; [apply (hi_types _ _ J)|]. by eapply (rest_inv w tl (mt_conf c) a S).
      * by eapply (rest_items w tl (mt_conf c) a S).
  - intros s i j p q Hs Hi Hj (g & n & Hp) (g' & n' & Hq). symmetry.
    eapply (reserved_once (hts_sides r) w tl c a J S s i p g n); try done.
    unfold hts_sides, hts. by rewrite Hs.
Qed.

(** Both sides of [filled_ring] with this protocol.  Thread 0 reads the pair of
    the full ring and its compare-and-swap fails after a dequeue and an enqueue
    of the others. *)
Definition hts_ring : rte_ring :=
  mk_ring 0 4 3 3 (mk_headtail 2 2 RTE_RING_SYNC_MT_HTS 0 0 0)
    (mk_headtail (2 ^ 32 - 1) (2 ^ 32 - 1) RTE_RING_SYNC_MT_HTS 0 0 0) [30; 20; 0; 10].

Lemma hts_ring_inv : ring_inv 1 hts_ring.
Proof.
  split.
  - split; simpl; first [done|lia|exists 2%nat; split; [lia|done]].
  - done.
  - intros []; left; (split; [|done]); simpl; set_solver.
  - by intros [].
  - done.
Qed.

Lemma hts_ring_sync s : sync_type (side s hts_ring)
  ∈ [RTE_RING_SYNC_MT; RTE_RING_SYNC_ST; RTE_RING_SYNC_MT_HTS].
Proof. destruct s; by right; right; left. Qed.

Definition hts_race : list act :=
  let steps i n := replicate n (DoStep i) in
  rev ([DoCall 0 Prod 1 RTE_RING_QUEUE_VARIABLE [8]; DoStep 0;
        DoCall 2 Cons 2 RTE_RING_QUEUE_FIXED [0; 0]] ++ steps 2%nat 7%nat ++
       [DoReturn 2; DoCall 1 Prod 1 RTE_RING_QUEUE_FIXED [7]] ++ steps 1%nat 6%nat ++
       [DoReturn 1] ++ steps 0%nat 7%nat ++ [DoReturn 0]).

Definition hts_race_end : list event * conf :=
  default ([], start hts_ring 3) (hexec 1 (start hts_ring 3) hts_race).

Lemma ring_hts_linearizable_witness :
  hrun 1 (start hts_ring 3) hts_race_end.1 hts_race_end.2
  /\ hts_race_end.1 = [EvCall 0 Prod 1 RTE_RING_QUEUE_VARIABLE [8];
       EvCall 2 Cons 2 RTE_RING_QUEUE_FIXED [0; 0]; EvReturn 2 Cons 2 1 [10; 30];
       EvCall 1 Prod 1 RTE_RING_QUEUE_FIXED [7]; EvReturn 1 Prod 1 1 [7];
       EvReturn 0 Prod 1 0 [8]]
  /\ exists a o, arun 3 1 (mk_aconf [[10]; [30]; [20]] (replicate 3 AIdle)) hts_race_end.1 a o
    /\ a_q a = [[20]; [7]; [8]].
Proof.
  assert (hrun 1 (start hts_ring 3) hts_race_end.1 hts_race_end.2) as R.
  { apply (hexec_run _ _ hts_race). vm_compute. reflexivity. }
  split; [exact R|]. split; [vm_compute; reflexivity|].
  destruct (ring_hts_linearizable 1 3 hts_ring hts_race_end.1 hts_race_end.2) as [(a & o & A & _ & F) _].
  - apply hts_ring_inv.
  - apply hts_ring_sync.
  - exact R.
  - exists a, o. split; [exact A|]. destruct F as [_ <-]; [vm_compute; repeat constructor|].
    vm_compute. reflexivity.
Defined.

(** A thread can do its next step, or return. *)
Definition hts_can_go (w : nat) (c : conf) (i : nat) (s : ring_side) : Prop :=
  exists p, c_pcs c !! i = Some p /\ pc_side p = Some s
    /\ ((exists n room buf, p = Finish s n room buf)
        \/ exists p' r' k, hts_step w (moved s c) p (c_ring c) = Some (p', r', k)).

Lemma active_goes H w tl c a i s p : hts_inv H c -> sim w tl (mt_conf c) a -> H s = true ->
  c_pcs c !! i = Some p -> active s p -> hts_can_go w c i s.
Proof.
  intros I S Hs Hi (g & n & Hf). exists p. split; [done|]. split; [by eapply pc_side_flying|]. right.
  destruct p; simpl in Hf; try done; simplify_eq.
  - destruct (copy_goes w tl _ a i s buf old n room j g S Hi) as (p & Hi' & _ & [(?&?&?&E)|G]).
    { cbn [c_pcs mt_conf] in Hi'. by simplify_eq. }
    destruct G as (p' & r' & k & E). cbn [c_pcs mt_conf] in Hi'. rewrite Hi in Hi'. injection Hi' as <-.
    cbn [hts_step thread_step c_ring mt_conf slots mt_ring] in *. destruct (j <? _)%nat; [|eauto].
    change (slot_word w (mt_ring (c_ring c)) old j) with (slot_word w (c_ring c) old j) in E.
    destruct s; repeat (destruct (_ !! _); cbn [mbind option_bind] in E |- *); try done; eauto.
  - by destruct (hi_wait _ _ I s i buf old n room g Hs).
  - cbn [hts_step]. eauto.
Qed.

(** No deadlock: on a side with this protocol a thread inside a call can do its
    next step or return, unless it waits for the thread that is active on the
    side, and then that thread can. *)
Theorem hts_threads_progress (w k : nat) (r : rte_ring) (tr : list event) (c : conf)
  (i : nat) (p : pc) (s : ring_side) :
  ring_inv w r ->
  (forall s, sync_type (side s r) ∈ [RTE_RING_SYNC_MT; RTE_RING_SYNC_ST; RTE_RING_SYNC_MT_HTS]) ->
  hrun w (start r k) tr c -> sync_type (side s r) = RTE_RING_SYNC_MT_HTS ->
  c_pcs c !! i = Some p -> pc_side p = Some s ->
  exists j, hts_can_go w c j s
    /\ (j = i \/ (exists max b buf, p = ReadHead s max b buf)
                 /\ exists q, c_pcs c !! j = Some q /\ active s q).
Proof.
  intros I D R Hsync Hi Hs. destruct (hrun_sim w r I D k tr c R) as (tl & a & S & J & _ & _).
  assert (hts_sides r s = true) as Hh by (unfold hts_sides, hts; by rewrite Hsync).
  destruct p; simpl in Hs; try done; simplify_eq;
    try (exists i; split; [eapply active_goes; try done; by eexists _, _|by left]);
    try (exists i; split; [|by left]; eexists; split; [done|]; split; [done|];
         (by left; eauto) || (right; cbn [hts_step]; case_match; by eauto)).
  destruct (decide (ht_w0 (side s (c_ring c)) = ht_w1 (side s (c_ring c)))) as [E|N].
  - exists i. split; [|by left]. eexists. split; [done|]. split; [done|]. right.
    cbn [hts_step hts_ht hp_head hp_tail]. rewrite E, Z.eqb_refl. eauto.
  - assert (tl s <> moved s (mt_conf c)) as T.
    { intros T. apply N. pose proof (sim_head _ _ _ _ S s) as Eh. pose proof (sim_tail _ _ _ _ S s) as Et.
      cbn [c_ring mt_conf] in Eh, Et. rewrite side_mt in Eh, Et. unfold head, tail in Eh, Et.
      cbn [mt_side ht_w0 ht_w1] in Eh, Et. congruence. }
    pose proof (sim_order _ _ _ _ S).
    destruct (sim_cover _ _ _ _ S s (tl s) ltac:(destruct s; lia)) as (j & q & g & n & Hj & Hq & _).
    assert (active s q) as A by (by eexists _, _).
    exists j. split; [by eapply active_goes|]. right. split; eauto.
Qed.
