(* ===== verification/RingRtsConc.v ===== *)
(** * Threads on a ring with relaxed tails.

    [include/rte_ring_rts_elem_pvt.h] with any number of threads, one access to
    the shared memory at a time.  On a side with this protocol the head and the
    tail carry a counter each, of the reservations and of the completions; only
    the thread whose completion makes them equal moves the tail, so that no
    thread waits for another at the end of its operation, and an enqueue may
    return before its elements can be seen.  The other side may have this
    protocol or the default one.

    Accesses of 64 bits are steps; their halves have one value. *)
From stdpp Require Import prelude list numbers gmap.
From S2P Require Import Prelude RingCore RingCopy RingHeadTail RingElem RingSpec.
From S2P Require Import RingConc RingConcSpec RingConcThm RingHtsConc.
Open Scope Z_scope.

(** ** Program counters

    [Run p] is a thread outside of a call, at its end, or on a side with the
    default protocol.  The others are on a side with this protocol: [oh] and [ot]
    are the pairs read from the head and from the tail, [h] the pair read by the
    update.  The last arguments are auxiliary, counted without wrap-around: the
    position [g] and the number [gc] of reservations when the head was read,
    that of completions [gt] when the tail was. *)
Inductive rpc :=
| Run (p : pc)
| RHead (s : ring_side) (max : Z) (b : rte_ring_queue_behavior) (buf : list Z)
| RWait (s : ring_side) (max : Z) (b : rte_ring_queue_behavior) (buf : list Z)
    (oh : __rte_ring_rts_poscnt) (g gc : Z)
| RTail (s : ring_side) (max : Z) (b : rte_ring_queue_behavior) (buf : list Z)
    (oh : __rte_ring_rts_poscnt) (g gc : Z)
| RSwap (s : ring_side) (max : Z) (b : rte_ring_queue_behavior) (buf : list Z)
    (oh : __rte_ring_rts_poscnt) (n room g gc : Z)
| RCopy (s : ring_side) (buf : list Z) (old n room : Z) (j : nat) (g : Z)
| ROld (s : ring_side) (buf : list Z) (old n room g : Z)
| RNow (s : ring_side) (buf : list Z) (old n room g : Z) (ot : __rte_ring_rts_poscnt) (gt : Z)
| RStore (s : ring_side) (buf : list Z) (old n room g : Z) (ot h : __rte_ring_rts_poscnt)
    (gt gc gh : Z).

(** The side a thread is working on, and whether it is between its reservation
    and its completion. *)
Definition rpc_side (p : rpc) : option ring_side :=
  match p with
  | Run p => pc_side p
  | RHead s _ _ _ | RWait s _ _ _ _ _ _ | RTail s _ _ _ _ _ _ | RSwap s _ _ _ _ _ _ _ _
  | RCopy s _ _ _ _ _ _ | ROld s _ _ _ _ _ | RNow s _ _ _ _ _ _ _
  | RStore s _ _ _ _ _ _ _ _ _ _ => Some s
  end.

Definition rts (s : ring_side) (r : rte_ring) : bool :=
  sync_type (side s r) =? RTE_RING_SYNC_MT_RTS.

(** ** One step of one thread *)

(** What a step does to the auxiliary counts. *)
Inductive effect := Moved (k : Z) | Completed.

(** The position of the head, the reservations and the completions of a side. *)
Record aux := mk_aux { x_moved : Z; x_resv : Z; x_done : Z }.

Definition rts_step (w : nat) (x : aux) (p : rpc) (r : rte_ring)
  : option (rpc * rte_ring * effect) :=
  match p with
  | Run p =>
      '(p', r', k) ← thread_step w (x_moved x) p r ;
      Some (Run p', r', Moved k)
  | RHead s max b buf =>
      Some (RWait s max b buf (rts_head (side s r)) (x_moved x) (x_resv x), r, Moved 0)
  | RWait s max b buf oh g gc =>
      (* __rte_ring_rts_head_wait *)
      if u32 (pc_pos oh - pc_pos (rts_tail (side s r))) >? htd_max (side s r)
      then Some (RHead s max b buf, r, Moved 0)
      else Some (RTail s max b buf oh g gc, r, Moved 0)
  | RTail s max b buf oh g gc =>
      let room := room_seen s (pc_pos oh) r in
      let n := clip b max room in
      if n =? 0 then Some (Run (Finish s 0 (u32 (room - 0)) buf), r, Moved 0)
      else Some (RSwap s max b buf oh n room g gc, r, Moved 0)
  | RSwap s max b buf oh n room g gc =>
      let nh := mk_poscnt (u32 (pc_cnt oh + 1)) (u32 (pc_pos oh + n)) in
      let v := rts_head (side s r) in
      if decide (v = oh) then
        Some (RCopy s buf (pc_pos oh) n room 0 g,
              set_side s (set_rts_head nh (side s r)) r, Moved n)
      else Some (RWait s max b buf v (x_moved x) (x_resv x), r, Moved 0)
  | RCopy s buf old n room j g =>
      if (j <? Z.to_nat n * w)%nat then
        match s with
        | Prod =>
            x ← buf !! j ;
            _ ← slots r !! slot_word w r old j ;
            Some (RCopy s buf old n room (Datatypes.S j) g,
                  set_slots (<[slot_word w r old j := x]> (slots r)) r, Moved 0)
        | Cons =>
            x ← slots r !! slot_word w r old j ;
            _ ← buf !! j ;
            Some (RCopy s (<[j := x]> buf) old n room (Datatypes.S j) g, r, Moved 0)
        end
      else Some (ROld s buf old n room g, r, Moved 0)
  | ROld s buf old n room g =>
      (* __rte_ring_rts_update_tail *)
      Some (RNow s buf old n room g (rts_tail (side s r)) (x_done x), r, Moved 0)
  | RNow s buf old n room g ot gt =>
      Some (RStore s buf old n room g ot (rts_head (side s r)) gt (x_resv x) (x_moved x), r, Moved 0)
  | RStore s buf old n room g ot h gt gc gh =>
      let cnt := u32 (pc_cnt ot + 1) in
      let nt := mk_poscnt cnt (if cnt =? pc_cnt h then pc_pos h else pc_pos ot) in
      let v := rts_tail (side s r) in
      if decide (v = ot) then
        Some (Run (Finish s n (u32 (room - n)) buf), set_side s (set_rts_tail nt (side s r)) r,
              Completed)
      else Some (RNow s buf old n room g v (x_done x), r, Moved 0)
  end.

(** ** Configurations and runs *)

Record rconf := mk_rconf {
  rc_ring : rte_ring;
  rc_prod : aux;
  rc_cons : aux;
  rc_pcs : list rpc
}.

Definition rc_aux (s : ring_side) (c : rconf) : aux :=
  match s with Prod => rc_prod c | Cons => rc_cons c end.

Definition act_aux (e : effect) (x : aux) : aux :=
  match e with
  | Moved k => mk_aux (x_moved x + k) (x_resv x + (if k =? 0 then 0 else 1)) (x_done x)
  | Completed => mk_aux (x_moved x) (x_resv x) (x_done x + 1)
  end.

(** Thread [i], on side [s], goes to [p]. *)
Definition rafter (i : nat) (s : ring_side) (p : rpc) (r : rte_ring) (e : effect) (c : rconf)
  : rconf :=
  match s with
  | Prod => mk_rconf r (act_aux e (rc_prod c)) (rc_cons c) (<[i := p]> (rc_pcs c))
  | Cons => mk_rconf r (rc_prod c) (act_aux e (rc_cons c)) (<[i := p]> (rc_pcs c))
  end.

(** A call begins with the protocol of its side. *)
Definition rts_begin (r : rte_ring) (s : ring_side) (n : Z) (b : rte_ring_queue_behavior)
    (buf : list Z) : rpc :=
  if rts s r then RHead s n b buf else Run (ReadHead s n b buf).

Definition rcall_ok (w : nat) (c : rconf) (s : ring_side) (n : Z) (buf : list Z) : Prop :=
  fits 32 n /\ (Z.to_nat n * w <= length buf)%nat
  /\ (sync_type (side s (rc_ring c)) = RTE_RING_SYNC_ST ->
      Forall (fun p => rpc_side p <> Some s) (rc_pcs c)).

Inductive rstep (w : nat) (c : rconf) : option event -> rconf -> Prop :=
| rstep_call i s n b buf :
    rc_pcs c !! i = Some (Run Idle) -> rcall_ok w c s n buf ->
    rstep w c (Some (EvCall i s n b buf))
      (rafter i s (rts_begin (rc_ring c) s n b buf) (rc_ring c) (Moved 0) c)
| rstep_run i s p p' r' e :
    rc_pcs c !! i = Some p -> rpc_side p = Some s ->
    rts_step w (rc_aux s c) p (rc_ring c) = Some (p', r', e) ->
    rstep w c None (rafter i s p' r' e c)
| rstep_return i s n room buf :
    rc_pcs c !! i = Some (Run (Finish s n room buf)) ->
    rstep w c (Some (EvReturn i s n room buf))
      (rafter i s (Run Idle) (rc_ring c) (Moved 0) c).

(** As [RingConc.fresh]; and fewer than 2^32 completions between the read of a
    tail and the compare-and-swap. *)
Definition rpc_fresh (c : rconf) (p : rpc) : bool :=
  let near s g := x_moved (rc_aux s c) - g + capacity (rc_ring c) <? 2 ^ 32 in
  match p with
  | Run (ReadTail s _ _ _ _ g) | Run (Swap s _ _ _ _ _ _ g)
  | RTail s _ _ _ _ g _ | RSwap s _ _ _ _ _ _ g _ => near s g
  | RStore s _ _ _ _ _ _ _ gt _ _ => x_done (rc_aux s c) - gt <? 2 ^ 32
  | _ => true
  end.

Definition rfresh (c : rconf) : Prop := Forall (fun p => rpc_fresh c p = true) (rc_pcs c).

Inductive rrun (w : nat) (c : rconf) : list event -> rconf -> Prop :=
| rrun_nil : rrun w c [] c
| rrun_snoc tr c1 l c2 :
    rrun w c tr c1 -> rfresh c1 -> rstep w c1 l c2 -> rrun w c (tr ++ option_list l) c2.

(** [k] threads on a ring nobody is using. *)
Definition rstart (r : rte_ring) (k : nat) : rconf :=
  mk_rconf r (mk_aux (tail (cons r) + ring_entries r) (ht_w0 (prod r)) (ht_w0 (prod r)))
    (mk_aux (tail (cons r)) (ht_w0 (cons r)) (ht_w0 (cons r))) (replicate k (Run Idle)).

#[global] Instance rcall_ok_dec w c s n buf : Decision (rcall_ok w c s n buf).
Proof. unfold rcall_ok. apply _. Defined.

#[global] Instance rfresh_dec c : Decision (rfresh c).
Proof. unfold rfresh. apply _. Defined.

(** *** Executing a schedule *)

Definition rexec1 (w : nat) (c : rconf) (a : act) : option (option event * rconf) :=
  match a with
  | DoCall i s n b buf =>
      match rc_pcs c !! i with
      | Some (Run Idle) =>
          if decide (rcall_ok w c s n buf) then
            Some (Some (EvCall i s n b buf),
              rafter i s (rts_begin (rc_ring c) s n b buf) (rc_ring c) (Moved 0) c)
          else None
      | _ => None
      end
  | DoStep i =>
      p ← rc_pcs c !! i ;
      s ← rpc_side p ;
      '(p', r', e) ← rts_step w (rc_aux s c) p (rc_ring c) ;
      Some (None, rafter i s p' r' e c)
  | DoReturn i =>
      match rc_pcs c !! i with
      | Some (Run (Finish s n room buf)) =>
          Some (Some (EvReturn i s n room buf), rafter i s (Run Idle) (rc_ring c) (Moved 0) c)
      | _ => None
      end
  end.

(** The last action comes first. *)
Fixpoint rexec (w : nat) (c : rconf) (l : list act) : option (list event * rconf) :=
  match l with
  | [] => Some ([], c)
  | a :: l' =>
      '(tr, c1) ← rexec w c l' ;
      if decide (rfresh c1) then
        '(e, c2) ← rexec1 w c1 a ;
        Some (tr ++ option_list e, c2)
      else None
  end.

Lemma rexec1_step w c a l c' : rexec1 w c a = Some (l, c') -> rstep w c l c'.
Proof.
  destruct a as [i s n b buf|i|i]; unfold rexec1.
  - destruct (rc_pcs c !! i) as [[[]| | | | | | | |]|] eqn:Hi; try done.
    case_decide; intros; simplify_eq. by apply rstep_call.
  - destruct (rc_pcs c !! i) as [p|] eqn:Hi; [|done]. cbn [mbind option_bind].
    destruct (rpc_side p) as [s|] eqn:Hs; [|done]. cbn [mbind option_bind].
    destruct (rts_step _ _ _ _) as [[[p' r'] k]|] eqn:Ht; [|done].
    cbn [mbind option_bind]. intros; simplify_eq. by eapply rstep_run.
  - destruct (rc_pcs c !! i) as [[[]| | | | | | | |]|] eqn:Hi; intros; simplify_eq. by apply rstep_return.
Qed.

Lemma rexec_run w c l tr c' : rexec w c l = Some (tr, c') -> rrun w c tr c'.
Proof.
  revert tr c'. induction l as [|a l IH]; intros tr c' E; simpl in E.
  { simplify_eq. apply rrun_nil. }
  destruct (rexec w c l) as [[tr1 c1]|] eqn:E1; [|done]. cbn [mbind option_bind] in E.
  case_decide; [|done]. destruct (rexec1 w c1 a) as [[e c2]|] eqn:E2; [|done].
  cbn [mbind option_bind] in E. simplify_eq.
  eapply rrun_snoc; [by apply IH|done|by eapply rexec1_step].
Qed.

(** ** The trace with its returns delayed

    In the specification every call is a thread of its own, numbered in the order
    of the calls, and some of them return later than they do here: those whose
    effect on the tail is still to come.  [own] is the call that a thread is in
    or was in last, [m] the number of calls, [owed] the returns to come. *)
Definition set_own (i o : nat) (own : nat -> nat) (j : nat) : nat :=
  if decide (j = i) then o else own j.

Inductive delayed : list event -> list event -> (nat -> nat) -> nat -> gmap nat event -> Prop :=
| delayed_nil own : delayed [] [] own 0 ∅
| delayed_call tr tr' own m owed i s n b buf :
    delayed tr tr' own m owed ->
    delayed (tr ++ [EvCall i s n b buf]) (tr' ++ [EvCall m s n b buf]) (set_own i m own)
      (Datatypes.S m) owed
| delayed_return tr tr' own m owed i s n room buf :
    delayed tr tr' own m owed ->
    delayed (tr ++ [EvReturn i s n room buf]) (tr' ++ [EvReturn (own i) s n room buf]) own m owed
| delayed_owe tr tr' own m owed i s n room buf :
    delayed tr tr' own m owed -> owed !! own i = None ->
    delayed (tr ++ [EvReturn i s n room buf]) tr' own m
      (<[own i := EvReturn (own i) s n room buf]> owed)
| delayed_pay tr tr' own m owed o e :
    delayed tr tr' own m owed -> owed !! o = Some e ->
    delayed tr (tr' ++ [e]) own m (delete o owed).

Definition is_call (e : event) : bool := match e with EvCall _ _ _ _ _ => true | EvReturn _ _ _ _ _ => false end.
Definition calls (tr : list event) : nat := length (filter (fun e => is_call e = true) tr).

Lemma calls_app tr e : calls (tr ++ [e]) = (calls tr + if is_call e then 1 else 0)%nat.
Proof. unfold calls. rewrite filter_app, length_app. by destruct e. Qed.

Lemma delayed_calls tr tr' own m owed : delayed tr tr' own m owed -> m = calls tr.
Proof. induction 1; rewrite ?calls_app; simpl; subst; try done; lia. Qed.
