(* ===== verification/RingRtsSpec.v ===== *)
(** * Relaxed tails as the default protocol.

    Every call is a thread of the default protocol on the same memory
    ([RingConc]), which waits to publish what its thread here has completed
    ([shown]).  A completion that moves the tail publishes all that was reserved
    before it, in order ([publish_all]). *)
From stdpp Require Import prelude list numbers gmap.
From S2P Require Import Prelude RingCore RingCopy RingHeadTail RingElem RingSpec.
From S2P Require Import RingConc RingConcSpec RingConcExact RingConcThm RingHtsConc RingRtsConc.
Open Scope Z_scope.

(** ** The same memory under the default protocol *)

Definition dt_side (h : rte_ring_headtail) : rte_ring_headtail :=
  if sync_type h =? RTE_RING_SYNC_MT_RTS
  then mk_headtail (rts_head_w1 h) (ht_w1 h) RTE_RING_SYNC_MT (htd_max h) 0 0
  else h.

Definition dt_ring (r : rte_ring) : rte_ring :=
  mk_ring (flags r) (size r) (mask r) (capacity r) (dt_side (prod r)) (dt_side (cons r)) (slots r).

Lemma side_dt s r : side s (dt_ring r) = dt_side (side s r).
Proof. by destruct s. Qed.

Lemma dt_set_side s h r : dt_ring (set_side s h r) = set_side s (dt_side h) (dt_ring r).
Proof. by destruct s. Qed.

Lemma tail_dt s r : tail (side s (dt_ring r)) = tail (side s r).
Proof. rewrite side_dt. unfold dt_side. by destruct (_ =? _). Qed.

Lemma entries_dt r : ring_entries (dt_ring r) = ring_entries r.
Proof.
  exact (f_equal2 (fun a b => u32 (a - b)) (tail_dt Prod r) (tail_dt Cons r)).
Qed.

Lemma room_seen_dt s old r : room_seen s old (dt_ring r) = room_seen s old r.
Proof.
  pose proof (tail_dt Prod r) as Ep. pose proof (tail_dt Cons r) as Ec. simpl side in Ep, Ec.
  destruct s; unfold room_seen; cbn [capacity dt_ring]; simpl in *; by rewrite ?Ep, ?Ec.
Qed.

Definition rts_types (r : rte_ring) : Prop := forall s,
  sync_type (side s r) ∈ [RTE_RING_SYNC_MT; RTE_RING_SYNC_ST; RTE_RING_SYNC_MT_RTS].

Lemma dt_types r s : rts_types r -> sync_type (side s (dt_ring r)) ∈ [RTE_RING_SYNC_MT; RTE_RING_SYNC_ST].
Proof.
  intros D. rewrite side_dt. unfold dt_side. destruct (_ =? _) eqn:E; [by left|].
  specialize (D s). rewrite !elem_of_cons in D. apply Z.eqb_neq in E.
  destruct D as [->|[->|[?|X]]]; [by left|by right; left|done|by apply not_elem_of_nil in X].
Qed.

Lemma rts_side_dt s r : rts s r = true ->
  dt_side (side s r) = mk_headtail (rts_head_w1 (side s r)) (ht_w1 (side s r)) RTE_RING_SYNC_MT
    (htd_max (side s r)) 0 0.
Proof. intros E. unfold dt_side. unfold rts in E. by rewrite E. Qed.

Lemma dt_rts_tail s r p : rts s r = true ->
  dt_ring (set_side s (set_rts_tail p (side s r)) r)
  = set_side s (set_tail (pc_pos p) (side s (dt_ring r))) (dt_ring r).
Proof. intros E. rewrite dt_set_side, side_dt. unfold dt_side, rts in *. simpl. by rewrite E. Qed.

Lemma dt_rts_head s r p : rts s r = true ->
  dt_ring (set_side s (set_rts_head p (side s r)) r)
  = set_side s (set_head (pc_pos p) (side s (dt_ring r))) (dt_ring r).
Proof. intros E. rewrite dt_set_side, side_dt. unfold dt_side, rts in *. simpl. by rewrite E. Qed.

Lemma set_tail_same s r : set_side s (set_tail (tail (side s r)) (side s r)) r = r.
Proof. by destruct s, r as [? ? ? ? [] []]. Qed.

Lemma other_side_dt s r : rts s r = false -> dt_side (side s r) = side s r.
Proof. intros E. unfold dt_side. unfold rts in E. by rewrite E. Qed.

(** The point of a thread under the default protocol. *)
Definition shadow (p : rpc) : pc :=
  match p with
  | Run p => p
  | RHead s max b buf => ReadHead s max b buf
  | RWait s max b buf oh g _ | RTail s max b buf oh g _ => ReadTail s max b buf (pc_pos oh) g
  | RSwap s max b buf oh n room g _ => Swap s max b buf (pc_pos oh) n room g
  | RCopy s buf old n room j g => Copy s buf old n room j g
  | ROld s buf old n room g | RNow s buf old n room g _ _
  | RStore s buf old n room g _ _ _ _ _ => Wait s buf old n room g
  end.

Lemma shadow_side p : pc_side (shadow p) = rpc_side p.
Proof. by destruct p. Qed.

(** ** Active threads *)

(** The position that an active thread on side [s] has reserved from. *)
Definition ract (s : ring_side) (p : rpc) : option Z :=
  match p with
  | RCopy s' _ _ _ _ _ g | ROld s' _ _ _ _ g | RNow s' _ _ _ _ g _ _
  | RStore s' _ _ _ _ g _ _ _ _ _ => if decide (s' = s) then Some g else None
  | _ => None
  end.

Definition acts (s : ring_side) (f : Z -> bool) (p : rpc) : nat :=
  match ract s p with Some g => if f g then 1 else 0 | None => 0 end.

Definition nact (s : ring_side) (f : Z -> bool) (l : list rpc) : nat := sum_list_with (acts s f) l.

Definition all_act (_ : Z) : bool := true.
Definition before (gh : Z) (g : Z) : bool := g <? gh.

Lemma nact_insert s f l i p p' : l !! i = Some p ->
  (nact s f (<[i := p']> l) + acts s f p = nact s f l + acts s f p')%nat.
Proof.
  unfold nact. revert i. induction l as [|x l IH]; intros [|i] Hi; try done; simpl in *.
  - simplify_eq. lia.
  - specialize (IH i Hi). lia.
Qed.

Lemma nact_same s f l i p p' : l !! i = Some p -> acts s f p' = acts s f p ->
  nact s f (<[i := p']> l) = nact s f l.
Proof. intros Hi E. pose proof (nact_insert s f l i p p' Hi). lia. Qed.

Lemma nact_lookup s f l i p : l !! i = Some p -> (acts s f p <= nact s f l)%nat.
Proof.
  unfold nact. revert i. induction l as [|x l IH]; intros [|i] Hi; try done; simpl in *.
  - simplify_eq. lia.
  - specialize (IH i Hi). lia.
Qed.

Lemma nact_two s f l i j p q : i <> j -> l !! i = Some p -> l !! j = Some q ->
  (acts s f p + acts s f q <= nact s f l)%nat.
Proof.
  intros N Hi Hj. pose proof (nact_insert s f l i p (Run Idle) Hi) as E.
  assert (acts s f (Run Idle) = 0%nat) as E0 by done. rewrite E0 in E.
  assert (<[i := Run Idle]> l !! j = Some q) as Hj' by (by rewrite list_lookup_insert_ne).
  pose proof (nact_lookup s f _ j q Hj'). lia.
Qed.

Lemma nact_length s f l : (nact s f l <= length l)%nat.
Proof.
  induction l as [|p l IH]; [done|]. unfold nact in *. simpl. unfold acts at 1.
  repeat case_match; lia.
Qed.

Lemma nact_zero s f l : (forall i p, l !! i = Some p -> acts s f p = 0%nat) -> nact s f l = 0%nat.
Proof.
  induction l as [|p l IH]; intros E; [done|]. unfold nact in *. simpl.
  rewrite (E 0%nat p eq_refl). apply IH. intros i q Hi. by apply (E (Datatypes.S i)).
Qed.

Lemma nact_weaken s f h l : (forall i p g, l !! i = Some p -> ract s p = Some g -> f g = h g) ->
  nact s f l = nact s h l.
Proof.
  induction l as [|p l IH]; intros E; [done|]. unfold nact in *. simpl. f_equal.
  - unfold acts. destruct (ract s p) as [g|] eqn:Ep; [|done]. by rewrite (E 0%nat p g).
  - apply IH. intros i q g Hi. by apply (E (Datatypes.S i)).
Qed.

Lemma ract_side s p g : ract s p = Some g -> rpc_side p = Some s.
Proof. destruct p; simpl; try done; case_decide; congruence. Qed.

Lemma ract_flying s p g : ract s p = Some g -> exists n, flying (shadow p) = Some (s, g, n).
Proof. destruct p; simpl; try done; case_decide; intros; simplify_eq; eauto. Qed.

(** ** What holds of the threads *)

(** A pair read from the head when [g] and [gc] were its position and count. *)
Definition head_seen (x : aux) (p : __rte_ring_rts_poscnt) (g gc : Z) : Prop :=
  pc_cnt p = u32 gc /\ g <= x_moved x /\ gc <= x_resv x
  /\ (g = x_moved x <-> gc = x_resv x).

Section local.
Context (H : ring_side -> bool).

(** [l] are the threads, [fly] the reservations that are not published. *)
Definition rlocal (x : ring_side -> aux) (l : list rpc) (fly : ring_side -> Z -> Z -> Prop)
    (p : rpc) : Prop :=
  match p with
  | Run q => forall s, pc_side q = Some s -> H s = true -> exists n room buf, q = Finish s n room buf
  | RHead s _ _ _ => H s = true
  | RWait s _ _ _ oh g gc | RTail s _ _ _ oh g gc | RSwap s _ _ _ oh _ _ g gc =>
      H s = true /\ head_seen (x s) oh g gc
  | RCopy s _ _ _ _ _ _ | ROld s _ _ _ _ _ => H s = true
  | RNow s _ _ _ _ _ ot gt => H s = true /\ pc_cnt ot = u32 gt /\ gt <= x_done (x s)
  | RStore s _ _ _ _ g ot h gt gc gh =>
      H s = true /\ pc_cnt ot = u32 gt /\ gt <= x_done (x s)
      /\ head_seen (x s) h gh gc /\ pc_pos h = u32 gh /\ g < gh
      /\ (gt = x_done (x s) -> Z.of_nat (nact s (before gh) l) = gc - gt)
      /\ (forall g' n', fly s g' n' -> g' + n' <= gh \/ gh <= g')
  end.

(** How a step may change one side. *)
Definition evolves (s : ring_side) (x x' : aux) (l l' : list rpc) (fly fly' : Z -> Z -> Prop) : Prop :=
  (x' = x /\ (forall f, nact s f l' = nact s f l) /\ forall g n, fly' g n -> fly g n)
  \/ (exists k, 0 < k /\ x' = mk_aux (x_moved x + k) (x_resv x + 1) (x_done x)
      /\ (forall gh, gh <= x_moved x -> nact s (before gh) l' = nact s (before gh) l)
      /\ forall g n, fly' g n -> fly g n \/ x_moved x <= g)
  \/ (x' = mk_aux (x_moved x) (x_resv x) (x_done x + 1) /\ forall g n, fly' g n -> fly g n).

Lemma head_seen_evolves s x x' l l' fly fly' p g gc :
  evolves s x x' l l' fly fly' -> head_seen x p g gc -> head_seen x' p g gc.
Proof.
  intros E (H1 & H2 & H3 & H4). unfold head_seen.
  destruct E as [(-> & _)|[(k & Hk & -> & _)|(-> & _)]]; simpl; split_and!; try done; lia.
Qed.

Lemma done_evolves s x x' l l' fly fly' : evolves s x x' l l' fly fly' -> x_done x <= x_done x'.
Proof. intros [(-> & _)|[(k & Hk & -> & _)|(-> & _)]]; simpl; lia. Qed.

Lemma rlocal_evolves x x' l l' fly fly' p :
  (forall s, H s = true -> evolves s (x s) (x' s) l l' (fly s) (fly' s)) ->
  rlocal x l fly p -> rlocal x' l' fly' p.
Proof.
  intros E. destruct p; simpl; try done.
  - intros [Hs L]. split; [done|]. by eapply head_seen_evolves; [apply E|].
  - intros [Hs L]. split; [done|]. by eapply head_seen_evolves; [apply E|].
  - intros [Hs L]. split; [done|]. by eapply head_seen_evolves; [apply E|].
  - intros (Hs & L1 & L2). pose proof (done_evolves _ _ _ _ _ _ _ (E s Hs)). split_and!; try done; lia.
  - intros (Hs & L1 & L2 & L3 & L4 & L5 & L6 & L7). pose proof (done_evolves _ _ _ _ _ _ _ (E s Hs)).
    split_and!; try done; [lia|by eapply head_seen_evolves; [apply E|]| |].
    + intros Eg. destruct (E s Hs) as [(Ex & En & _)|[(k & Hk & Ex & En & _)|(Ex & _)]];
        rewrite Ex in Eg; simpl in Eg.
      * rewrite En. by apply L6.
      * rewrite En by apply L3. by apply L6.
      * lia.
    + intros g' n' Hf. destruct (E s Hs) as [(_ & _ & F)|[(k & _ & _ & _ & F)|(_ & F)]];
        [by apply L7, F| |by apply L7, F].
      destruct (F g' n' Hf) as [|Hg]; [by apply L7|]. right. destruct L3 as (_ & ? & _). lia.
Qed.
End local.

(** ** What holds of the operations

    A call that has a thread is where the thread is, or waits to publish what the
    thread has completed; a call without one has returned, or is owed. *)
Definition waits (s : ring_side) (n room : Z) (buf : list Z) (q : pc) : Prop :=
  exists old room0 g, q = Wait s buf old n room0 g /\ room = u32 (room0 - n).

Definition shown (H : ring_side -> bool) (p : rpc) (q : pc) : Prop :=
  q = shadow p
  \/ exists s n room buf, H s = true /\ p = Run (Finish s n room buf) /\ waits s n room buf q.

Definition settled (H : ring_side -> bool) (o : nat) (e : event) (q : pc) : Prop :=
  exists s n room buf, H s = true /\ waits s n room buf q /\ e = EvReturn o s n room buf.

Record ops_ok (H : ring_side -> bool) (l : list rpc) (ds : list pc) (own : nat -> nat) (m : nat)
    (owed : gmap nat event) : Prop := {
  oo_run i p : l !! i = Some p -> p <> Run Idle ->
    (own i < m)%nat /\ owed !! own i = None /\ exists q, ds !! own i = Some q /\ shown H p q;
  oo_inj i j p q : l !! i = Some p -> l !! j = Some q -> p <> Run Idle -> q <> Run Idle ->
    own i = own j -> i = j;
  oo_free o q : ds !! o = Some q ->
    (forall i p, l !! i = Some p -> p <> Run Idle -> own i <> o) ->
    match owed !! o with Some e => settled H o e q | None => q = Idle end;
  oo_owed o e : owed !! o = Some e -> (o < m)%nat /\ (o < length ds)%nat
}.

Definition flies (d : conf) (s : ring_side) (g n : Z) : Prop :=
  exists o q, c_pcs d !! o = Some q /\ flying q = Some (s, g, n).

Record rinv (H : ring_side -> bool) (c : rconf) (d : conf) (own : nat -> nat) (m : nat)
    (owed : gmap nat event) : Prop := {
  ri_ring : c_ring d = dt_ring (rc_ring c);
  ri_moved s : moved s d = x_moved (rc_aux s c);
  ri_types : rts_types (rc_ring c);
  ri_sync s : rts s (rc_ring c) = H s;
  ri_words s : H s = true -> rts_head_w0 (side s (rc_ring c)) = u32 (x_resv (rc_aux s c))
    /\ ht_w0 (side s (rc_ring c)) = u32 (x_done (rc_aux s c));
  ri_count s : H s = true ->
    x_resv (rc_aux s c) - x_done (rc_aux s c) = Z.of_nat (nact s all_act (rc_pcs c));
  ri_quiet s : H s = true -> nact s all_act (rc_pcs c) = 0%nat ->
    ht_w1 (side s (rc_ring c)) = rts_head_w1 (side s (rc_ring c));
  ri_local i p : rc_pcs c !! i = Some p -> rlocal H (fun s => rc_aux s c) (rc_pcs c) (flies d) p;
  ri_ops : ops_ok H (rc_pcs c) (c_pcs d) own m owed;
  ri_few : Z.of_nat (length (rc_pcs c)) < 2 ^ 32
}.

Lemma rafter_ring i s p r e c : rc_ring (rafter i s p r e c) = r.
Proof. by destruct s. Qed.

Lemma rafter_pcs i s p r e c : rc_pcs (rafter i s p r e c) = <[i := p]> (rc_pcs c).
Proof. by destruct s. Qed.

Lemma rafter_aux i s p r e c s' :
  rc_aux s' (rafter i s p r e c) = (if decide (s' = s) then act_aux e (rc_aux s' c) else rc_aux s' c).
Proof. by destruct s, s'. Qed.

Lemma act_nothing x : act_aux (Moved 0) x = x.
Proof. destruct x; simpl. f_equal; lia. Qed.

(** A step of thread [i] on side [s]. *)
Lemma rinv_step H c d own m owed i s p p' r' e d' own' m' owed' :
  rinv H c d own m owed -> rc_pcs c !! i = Some p ->
  (rpc_side p = Some s \/ p = Run Idle) -> (rpc_side p' = Some s \/ p' = Run Idle) ->
  let c' := rafter i s p' r' e c in
  c_ring d' = dt_ring r' -> (forall s', moved s' d' = x_moved (rc_aux s' c')) ->
  (forall s', sync_type (side s' r') = sync_type (side s' (rc_ring c))) ->
  (forall s', s' <> s -> side s' r' = side s' (rc_ring c)) ->
  (H s = true -> rts_head_w0 (side s r') = u32 (x_resv (rc_aux s c'))
     /\ ht_w0 (side s r') = u32 (x_done (rc_aux s c'))
     /\ x_resv (rc_aux s c') - x_done (rc_aux s c') = Z.of_nat (nact s all_act (rc_pcs c'))
     /\ (nact s all_act (rc_pcs c') = 0%nat -> ht_w1 (side s r') = rts_head_w1 (side s r'))
     /\ evolves s (rc_aux s c) (rc_aux s c') (rc_pcs c) (rc_pcs c') (flies d s) (flies d' s)) ->
  (forall s' g n, s' <> s -> flies d' s' g n -> flies d s' g n) ->
  rlocal H (fun s => rc_aux s c') (rc_pcs c') (flies d') p' ->
  ops_ok H (rc_pcs c') (c_pcs d') own' m' owed' ->
  rinv H c' d' own' m' owed'.
Proof.
  intros I Hi Hp Hp' c' Er Em Hs Ho Hside Hf Hl Hops.
  assert (forall s', s' <> s -> rc_aux s' c' = rc_aux s' c) as Ex.
  { intros s' N. unfold c'. by rewrite rafter_aux, decide_False. }
  assert (forall s' f, s' <> s -> nact s' f (rc_pcs c') = nact s' f (rc_pcs c)) as En.
  { intros s' f N. unfold c'. rewrite rafter_pcs. apply (nact_same s' f _ i p p' Hi).
    assert (forall q, rpc_side q = Some s \/ q = Run Idle -> acts s' f q = 0%nat) as Z0.
    { intros q Hq. unfold acts. destruct (ract s' q) as [g|] eqn:E; [|done]. apply ract_side in E.
      destruct Hq as [| ->]; [congruence|done]. }
    by rewrite !Z0. }
  split.
  - unfold c'. by rewrite rafter_ring.
  - done.
  - intros s'. unfold c'. rewrite rafter_ring, Hs. apply (ri_types _ _ _ _ _ _ I).
  - intros s'. unfold c', rts. rewrite rafter_ring, Hs. apply (ri_sync _ _ _ _ _ _ I).
  - intros s' Hh. unfold c' at 1 3. rewrite rafter_ring. destruct (decide (s' = s)) as [->|N].
    + by destruct (Hside Hh) as (? & ? & _).
    + rewrite Ho, Ex by done. by apply (ri_words _ _ _ _ _ _ I).
  - intros s' Hh. destruct (decide (s' = s)) as [->|N]; [by apply Hside|].
    rewrite En, Ex by done. by apply (ri_count _ _ _ _ _ _ I).
  - intros s' Hh. unfold c' at 2 3. rewrite rafter_ring. destruct (decide (s' = s)) as [->|N].
    + by destruct (Hside Hh) as (_ & _ & _ & ? & _).
    + rewrite En, Ho by done. by apply (ri_quiet _ _ _ _ _ _ I).
  - intros j q Hj. unfold c' in Hj. rewrite rafter_pcs in Hj.
    apply list_lookup_insert_Some in Hj as [(-> & -> & _)|[N Hj]]; [done|].
    eapply rlocal_evolves; [|by apply (ri_local _ _ _ _ _ _ I j)].
    intros s' Hh. cbv beta. destruct (decide (s' = s)) as [->|N']; [by apply Hside|].
    left. rewrite Ex by done. split; [done|]. split; [intros f; by apply En|].
    intros g n. by apply Hf.
  - done.
  - unfold c'. rewrite rafter_pcs, length_insert. apply (ri_few _ _ _ _ _ _ I).
Qed.

(** ** Steps of the operations under the default protocol *)

Section operations.
Context (w : nat) (cap : Z) (a0 : aconf).

Definition dsim (tr : list event) (d : conf) : Prop :=
  exists tl a, sim w tl d a /\ followed cap w a0 tr a d /\ capacity (c_ring d) = cap.

Lemma after_still o s p r d : after o s p r 0 d = set_pc o p r d.
Proof. unfold after. by rewrite move_0. Qed.

Lemma dsim_thread tr d o s p p' r' k : dsim tr d ->
  c_pcs d !! o = Some p -> pc_side p = Some s -> pc_fresh d p = true ->
  thread_step w (moved s d) p (c_ring d) = Some (p', r', k) ->
  dsim tr (after o s p' r' k d).
Proof.
  intros (tl & a & S & Fo & Ec) Ho Hs Hf E.
  destruct (sim_thread_step w tl d a S o s p p' r' k Ho Hs Hf E) as (tl' & a' & S' & Ha).
  exists tl', a'. split; [exact S'|]. split.
  - rewrite Ec in Ha.
    by apply (follow_step w cap a0 tr tl d a S Ec o tl' a' s p p' r' k Ho Hs Hf E S' Ha).
  - rewrite after_ring. by rewrite (thread_step_capacity _ _ _ _ _ _ _ E).
Qed.

(** A thread may look again. *)
Lemma dsim_restart tr d o s max b buf old g : dsim tr d ->
  c_pcs d !! o = Some (ReadTail s max b buf old g) ->
  dsim tr (after o s (ReadHead s max b buf) (c_ring d) 0 d).
Proof.
  intros (tl & a & S & Fo & Ec) Ho. rewrite after_still.
  destruct (thread_ok w tl d a S o _ Ho) as (x & Hx & Hok & Ha & _).
  exists tl, a. split; [|split; [by eapply follow_restart|done]].
  rewrite <- (aconf_same _ _ _ a S o x Hx).
  apply (sim_local w tl d a S o _ Ho); [done|by left|]. by split.
Qed.

Lemma dsim_call tr d o s n b buf : dsim tr d ->
  c_pcs d !! o = Some Idle -> call_ok w d s n buf ->
  dsim (tr ++ [EvCall o s n b buf]) (after o s (ReadHead s n b buf) (c_ring d) 0 d).
Proof.
  intros (tl & a & S & Fo & Ec) Ho Hok. rewrite after_still.
  eexists tl, _. split; [by apply (sim_call w tl d a S o s n b buf)|]. split; [|done].
  by apply (follow_call w cap a0 tr tl d a S).
Qed.

Lemma dsim_return tr d o s n room buf : dsim tr d ->
  c_pcs d !! o = Some (Finish s n room buf) ->
  dsim (tr ++ [EvReturn o s n room buf]) (after o s Idle (c_ring d) 0 d).
Proof.
  intros (tl & a & S & Fo & Ec) Ho. rewrite after_still.
  eexists tl, _. split; [by apply (sim_return w tl d a S o s n room buf)|]. split; [|done].
  by apply (follow_return w cap a0 tr tl d a S).
Qed.

(** The marks of a side are between the words of the memory. *)
Lemma dsim_range tr d o q s g n : dsim tr d -> c_pcs d !! o = Some q -> flying q = Some (s, g, n) ->
  0 < n /\ g + n <= moved s d.
Proof.
  intros (tl & a & S & _) Ho Hf. pose proof (flying_range w tl d a S o q s g n Ho Hf). lia.
Qed.

Lemma dsim_looked tr d o q s g : dsim tr d -> c_pcs d !! o = Some q -> looking q = Some (s, g) ->
  g <= moved s d.
Proof.
  intros (tl & a & S & _) Ho Hl. destruct (thread_ok w tl d a S o q Ho) as (x & _ & Hok).
  destruct q; simpl in Hl; try done; simplify_eq; simpl in Hok;
    [destruct Hok as (_ & _ & _ & L & _)|destruct Hok as (_ & _ & (_ & L & _) & _)]; lia.
Qed.

(** Nothing is reserved when the tail is at the head. *)
Lemma dsim_settled tr d s : dsim tr d -> head (side s (c_ring d)) = tail (side s (c_ring d)) ->
  forall g n, ~ flies d s g n.
Proof.
  intros (tl & a & S & _) E g n (o & q & Ho & Hf).
  pose proof (marks_room w tl d a S) as M. rewrite (sim_head _ _ _ _ S), (sim_tail _ _ _ _ S) in E.
  assert (tl s = moved s d) as T by (symmetry; apply u32_inj; [done|destruct s; lia]).
  pose proof (flying_range w tl d a S o q s g n Ho Hf). lia.
Qed.

(** If all is published the tail is at the head. *)
Lemma dsim_published tr d s : dsim tr d -> (forall g n, ~ flies d s g n) ->
  tail (side s (c_ring d)) = head (side s (c_ring d)).
Proof.
  intros (tl & a & S & _) U. rewrite (sim_head _ _ _ _ S), (sim_tail _ _ _ _ S). f_equal.
  pose proof (sim_order _ _ _ _ S). assert (tl s <= moved s d) by (destruct s; lia).
  destruct (decide (tl s = moved s d)) as [|N]; [done|].
  destruct (sim_cover _ _ _ _ S s (tl s) ltac:(lia)) as (j & q & g & n & Hj & Hq & _).
  destruct (U g n). by exists j, q.
Qed.

(** *** Publications in order *)

(** What a call returns if it waits on the side [s] with a start before [gh]. *)
Definition published_by (s : ring_side) (gh : Z) (q : pc) : option (Z * Z * list Z) :=
  match q with
  | Wait s' buf old n room g =>
      if bool_decide (s' = s) && (g <? gh) then Some (n, u32 (room - n), buf) else None
  | _ => None
  end.

(** All the calls before [gh] have been published, and those that were owed have
    returned. *)
Definition publishes (s : ring_side) (gh : Z) (ds ds' : list pc) (owed owed' : gmap nat event) : Prop :=
  length ds' = length ds
  /\ forall o q, ds !! o = Some q ->
     match published_by s gh q with
     | None => ds' !! o = Some q /\ owed' !! o = owed !! o
     | Some (n, room, buf) => owed' !! o = None
         /\ ds' !! o = Some (match owed !! o with Some _ => Idle | None => Finish s n room buf end)
     end.

Lemma after_after o s p p' r r' k d : after o s p' r' k (after o s p r 0 d) = after o s p' r' k d.
Proof. unfold after. rewrite move_0. cbn [c_prod c_cons c_pcs]. by rewrite list_insert_insert_eq. Qed.

(** The tail of a side is where its memory says. *)
Lemma tail_exact tl d a s T : sim w tl d a -> tail (side s (c_ring d)) = u32 T ->
  moved s d - capacity (c_ring d) <= T <= moved s d -> tl s = T.
Proof.
  intros S E HT. pose proof (marks_room w tl d a S) as M. rewrite (sim_tail _ _ _ _ S) in E.
  apply u32_inj; [done|destruct s; lia].
Qed.

Lemma tail_low tl d a s : sim w tl d a -> moved s d - capacity (c_ring d) <= tl s <= moved s d.
Proof. intros S. pose proof (marks_room w tl d a S). destruct s; lia. Qed.

(** The call whose reservation is first, and what it becomes. *)
Lemma publish_one tr d o s buf old n room g : dsim tr d ->
  c_pcs d !! o = Some (Wait s buf old n room g) -> tail (side s (c_ring d)) = old ->
  dsim tr (after o s (Finish s n (u32 (room - n)) buf)
    (set_side s (set_tail (u32 (old + n)) (side s (c_ring d))) (c_ring d)) 0 d).
Proof.
  intros D Ho Et. rewrite <- (after_after o s (Publish s buf old n room g) _ (c_ring d)).
  eapply (dsim_thread _ _ o s (Publish s buf old n room g));
    [apply (dsim_thread _ d o s _ (Publish s buf old n room g) _ _ D Ho); [done..|]| |done|done|].
  - cbn [thread_step]. by rewrite Et, Z.eqb_refl.
  - rewrite after_pcs. apply list_lookup_insert_eq. by apply lookup_lt_Some in Ho.
  - cbn [thread_step]. by rewrite after_ring.
Qed.

Context (H : ring_side -> bool) (tr0 : list event) (own : nat -> nat) (m : nat).
Context (s : ring_side) (gh : Z).

(** What is reserved before [gh] ends there and waits. *)
Definition ready (d : conf) : Prop :=
  forall o q g n, c_pcs d !! o = Some q -> flying q = Some (s, g, n) -> g < gh ->
    g + n <= gh /\ exists buf old room, q = Wait s buf old n room g.

Definition owes (d : conf) (owed : gmap nat event) : Prop :=
  forall o e, owed !! o = Some e -> exists q, c_pcs d !! o = Some q /\ settled H o e q.

(** The first of them. *)
Lemma publish_next tr d owed T : dsim tr d -> delayed tr0 tr own m owed -> owes d owed -> ready d ->
  tail (side s (c_ring d)) = u32 T -> moved s d - capacity (c_ring d) <= T -> T < gh ->
  gh <= moved s d ->
  exists tr1 d1 owed1 o n room buf old g,
    dsim tr1 d1 /\ delayed tr0 tr1 own m owed1
    /\ c_pcs d !! o = Some (Wait s buf old n room g) /\ g = T /\ 0 < n /\ T + n <= gh
    /\ c_ring d1 = set_side s (set_tail (u32 (T + n)) (side s (c_ring d))) (c_ring d)
    /\ (forall s', moved s' d1 = moved s' d)
    /\ c_pcs d1 = <[o := match owed !! o with Some _ => Idle | None => Finish s n (u32 (room - n)) buf end]>
         (c_pcs d)
    /\ owed1 = delete o owed.
Proof.
  intros D Hd Ow R Et Hlo Hlt Hhi. pose proof D as (tl & a & S & _).
  pose proof (tail_exact tl d a s T S Et ltac:(lia)) as HT.
  destruct (sim_cover _ _ _ _ S s T ltac:(lia)) as (o & q & g & n & Ho & Hq & Hx).
  pose proof (flying_range w tl d a S o q s g n Ho Hq) as Hr. assert (g = T) as -> by lia.
  destruct (R o q T n Ho Hq ltac:(lia)) as (Hn & buf & old & room & ->).
  destruct (thread_ok w tl d a S o _ Ho) as (x & _ & Eo & _).
  pose proof (publish_one tr d o s buf old n room T D Ho ltac:(congruence)) as D1.
  assert (u32 (old + n) = u32 (T + n)) as Eu by (by rewrite Eo, wrap_add_l). rewrite Eu in D1.
  assert (forall p r s', moved s' (after o s p r 0 d) = moved s' d) as Em.
  { intros p r s'. rewrite after_moved. destruct (decide _); lia. }
  destruct (owed !! o) as [e|] eqn:Eo'.
  - destruct (Ow o e Eo') as (q & Hq' & s1 & n1 & room1 & buf1 & _ & (old1 & r0 & g1 & -> & ->) & ->).
    assert (Wait s1 buf1 old1 n1 r0 g1 = Wait s buf old n room T) as Eq by congruence.
    injection Eq as -> -> -> -> -> ->.
    exists (tr ++ [EvReturn o s n (u32 (room - n)) buf]).
    eexists _, (delete o owed), o, n, room, buf, old, T.
    split; [eapply (dsim_return tr _ o s); [exact D1|]|].
    { rewrite after_pcs. apply list_lookup_insert_eq. by apply lookup_lt_Some in Ho. }
    split; [by apply delayed_pay|]. rewrite after_after, !after_ring, after_pcs, Eo'. split_and!; try done; lia.
  - exists tr. eexists _, owed, o, n, room, buf, old, T. split; [exact D1|]. split; [done|].
    rewrite after_ring, after_pcs, Eo'. split_and!; try done; try lia. symmetry. by apply delete_id.
Qed.

Lemma published_by_waits q x : published_by s gh q = Some x ->
  exists buf old n room g, q = Wait s buf old n room g /\ g < gh /\ x = (n, u32 (room - n), buf).
Proof.
  destruct q as [| | | | |s' buf old n room g| |]; simpl; try done.
  case_bool_decide as E; [|done]. subst. destruct (g <? gh) eqn:Eg; [|done]. simpl.
  intros [= <-]. apply Z.ltb_lt in Eg. eauto 10.
Qed.

(** Nothing is left to publish. *)
Lemma publish_none tr d owed : dsim tr d -> tail (side s (c_ring d)) = u32 gh ->
  moved s d - capacity (c_ring d) <= gh -> gh <= moved s d -> publishes s gh (c_pcs d) (c_pcs d) owed owed.
Proof.
  intros D Et Hlo Hhi. split; [done|]. intros o q Ho.
  destruct (published_by s gh q) as [[[n room] buf]|] eqn:Ep; [|done].
  apply published_by_waits in Ep as (buf' & old & n' & room' & g & -> & Hg & _).
  destruct D as (tl & a & S & _). pose proof (tail_exact tl d a s gh S Et ltac:(lia)).
  pose proof (flying_range w tl d a S o _ s g n' Ho eq_refl). lia.
Qed.

Lemma publish_all N tr d owed T : Z.to_nat (gh - T) = N -> dsim tr d -> delayed tr0 tr own m owed ->
  owes d owed -> ready d -> tail (side s (c_ring d)) = u32 T ->
  moved s d - capacity (c_ring d) <= T -> T <= gh -> gh <= moved s d ->
  exists tr' d' owed', dsim tr' d' /\ delayed tr0 tr' own m owed'
    /\ c_ring d' = set_side s (set_tail (u32 gh) (side s (c_ring d))) (c_ring d)
    /\ (forall s', moved s' d' = moved s' d)
    /\ publishes s gh (c_pcs d) (c_pcs d') owed owed'
    /\ (forall o e, owed' !! o = Some e -> owed !! o = Some e).
Proof.
  revert tr d owed T. induction N as [N IH] using lt_wf_ind.
  intros tr d owed T EN D Hd Ow R Et Hlo HT Hhi. destruct (decide (T = gh)) as [->|NT].
  - exists tr, d, owed. split; [done|]. split; [done|]. split; [by rewrite <- Et, set_tail_same|].
    split; [done|]. split; [by eapply publish_none|done].
  - destruct (publish_next tr d owed T D Hd Ow R Et Hlo ltac:(lia) Hhi)
      as (tr1 & d1 & owed1 & o & n & room & buf & old & g & D1 & Hd1 & Ho & -> & Hn & Hle & Er1 & Em1 & Ep1 & ->).
    assert (c_pcs d1 !! o = Some (match owed !! o with Some _ => Idle
      | None => Finish s n (u32 (room - n)) buf end)) as Ho1.
    { rewrite Ep1. apply list_lookup_insert_eq. by apply lookup_lt_Some in Ho. }
    assert (forall o' q, o' <> o -> c_pcs d1 !! o' = Some q <-> c_pcs d !! o' = Some q) as Hne.
    { intros o' q N'. rewrite Ep1. by rewrite list_lookup_insert_ne. }
    destruct (IH (Z.to_nat (gh - (T + n))) ltac:(lia) tr1 d1 (delete o owed) (T + n))
      as (tr' & d' & owed' & D' & Hd' & Er' & Em' & [Hlen Hp'] & Hsub); try done.
    + intros o' e He. apply lookup_delete_Some in He as [N' He]. destruct (Ow o' e He) as (q & Hq & Hs).
      exists q. split; [by apply Hne|done].
    + intros o' q g' n' Hq Hf. destruct (decide (o' = o)) as [->|N'].
      * rewrite Ho1 in Hq. injection Hq as <-. by destruct (owed !! o).
      * apply Hne in Hq; [|done]. by apply (R o').
    + rewrite Er1, side_set_side. done.
    + rewrite Er1, capacity_set_side, Em1. lia.
    + rewrite Em1. done.
    + exists tr', d', owed'. split; [done|]. split; [done|]. split.
      { rewrite Er', Er1, side_set_side, set_side_twice. done. }
      split; [intros s'; by rewrite Em', Em1|]. split.
      * split; [by rewrite Hlen, Ep1, length_insert|]. intros o' q Hq.
        destruct (decide (o' = o)) as [->|N'].
        -- rewrite Ho in Hq. injection Hq as <-. specialize (Hp' o _ Ho1).
           assert (published_by s gh (match owed !! o with Some _ => Idle
             | None => Finish s n (u32 (room - n)) buf end) = None) as E0 by (by destruct (owed !! o)).
           rewrite E0 in Hp'. simpl. rewrite bool_decide_true by done.
           replace (T <? gh) with true by lia. simpl. destruct Hp' as [-> ->].
           split; [by apply lookup_delete_eq|done].
        -- apply (Hne o' q N') in Hq. specialize (Hp' o' q Hq).
           rewrite lookup_delete_ne in Hp' by done. exact Hp'.
      * intros o' e He. apply Hsub in He. by apply lookup_delete_Some in He as [_ ?].
Qed.
End operations.

(** ** Steps of the threads *)

Lemma ops_step H l ds own m owed i p p' q' :
  ops_ok H l ds own m owed -> l !! i = Some p -> p <> Run Idle -> p' <> Run Idle -> shown H p' q' ->
  ops_ok H (<[i := p']> l) (<[own i := q']> ds) own m owed.
Proof.
  intros O Hi Np Np' Hs.
  assert (forall j q, <[i := p']> l !! j = Some q -> q <> Run Idle ->
    exists q0, l !! j = Some q0 /\ q0 <> Run Idle /\ (j <> i -> q0 = q)) as Old.
  { intros j q Hj Nq. apply list_lookup_insert_Some in Hj as [(-> & -> & _)|[N Hj]]; [by exists p|eauto]. }
  destruct (oo_run _ _ _ _ _ _ O i p Hi Np) as (Hm & Hno & q & Hq & _).
  split.
  - intros j x Hj Nx. destruct (decide (j = i)) as [->|N].
    + split; [done|]. split; [done|]. exists q'. split; [|].
      * apply list_lookup_insert_eq. by apply lookup_lt_Some in Hq.
      * rewrite list_lookup_insert_eq in Hj by (by apply lookup_lt_Some in Hi). by injection Hj as <-.
    + rewrite list_lookup_insert_ne in Hj by done.
      destruct (oo_run _ _ _ _ _ _ O j x Hj Nx) as (? & ? & q1 & Hq1 & ?).
      split; [done|]. split; [done|]. exists q1. split; [|done].
      rewrite list_lookup_insert_ne; [done|]. intros E. apply N. symmetry.
      by apply (oo_inj _ _ _ _ _ _ O i j p x).
  - intros j k x y Hj Hk Nx Ny E.
    destruct (Old j x Hj Nx) as (x0 & ? & ? & _), (Old k y Hk Ny) as (y0 & ? & ? & _).
    by apply (oo_inj _ _ _ _ _ _ O j k x0 y0).
  - intros o x Ho Hfree. assert (own i <> o) as No.
    { apply (Hfree i p'); [|done]. apply list_lookup_insert_eq. by apply lookup_lt_Some in Hi. }
    rewrite list_lookup_insert_ne in Ho by done.
    apply (oo_free _ _ _ _ _ _ O o x Ho). intros j y Hj Ny. destruct (decide (j = i)) as [->|N]; [done|].
    apply (Hfree j y); [by rewrite list_lookup_insert_ne|done].
  - intros o e He. rewrite length_insert. by apply (oo_owed _ _ _ _ _ _ O o e).
Qed.

Lemma after_flies_old o s q q' r k d s' g n : c_pcs d !! o = Some q ->
  flies (after o s q' r k d) s' g n -> flying q' = Some (s', g, n) \/ flies d s' g n.
Proof.
  intros Ho (j & x & Hj & Hx). rewrite after_pcs in Hj.
  apply list_lookup_insert_Some in Hj as [(-> & -> & _)|[N Hj]]; [by left|right; by exists j, x].
Qed.

(** A call has a running thread, or none. *)
Definition running (l : list rpc) (own : nat -> nat) (o j : nat) : Prop :=
  exists p, l !! j = Some p /\ p <> Run Idle /\ own j = o.

Lemma running_dec l own o :
  (exists j, running l own o j) \/ forall j p, l !! j = Some p -> p <> Run Idle -> own j <> o.
Proof.
  assert (forall j, Decision (running l own o j)) as D.
  { intros j. unfold Decision, running. destruct (l !! j) as [p|]; [|by right; intros (? & ? & _)].
    destruct (decide (own j = o)) as [E|N]; [|right; intros (? & _ & _ & ?); done].
    assert ({p = Run Idle} + {p <> Run Idle}) as [->|Np] by (destruct p as [[]| | | | | | | |]; first [by left|by right]).
    - right. intros (? & ? & ? & _). by simplify_eq.
    - left. by exists p. }
  destruct (decide (Exists (running l own o) (seq 0 (length l)))) as [E|N].
  { left. apply Exists_exists in E as (j & _ & Hj). by exists j. }
  right. intros j p Hj Np E. apply N. apply Exists_exists. exists j. split; [|by exists p].
  apply elem_of_seq. apply lookup_lt_Some in Hj. lia.
Qed.

(** The reservations that are not published: of an active thread, or waiting. *)
Lemma op_flying H c d own m owed s o q g n : rinv H c d own m owed -> H s = true ->
  c_pcs d !! o = Some q -> flying q = Some (s, g, n) ->
  (exists j p, rc_pcs c !! j = Some p /\ ract s p = Some g /\ q = shadow p /\ own j = o)
  \/ exists buf old room, q = Wait s buf old n room g.
Proof.
  intros I Hh Ho Hf. destruct (running_dec (rc_pcs c) own o) as [(j & p & Hj & Np & E)|N].
  - destruct (oo_run _ _ _ _ _ _ (ri_ops _ _ _ _ _ _ I) j p Hj Np) as (_ & _ & q0 & Hq0 & Sh).
    assert (q0 = q) as -> by congruence.
    destruct Sh as [->|(s' & n' & room & buf & _ & _ & (old & room0 & g' & -> & _))].
    + left. exists j, p. split; [done|]. split; [|done].
      pose proof (ri_local _ _ _ _ _ _ I j p Hj) as L.
      destruct p; simpl in Hf; try done; simplify_eq; simpl; try by rewrite decide_True.
      pose proof (pc_side_flying _ _ _ _ Hf) as Hs. destruct (L s Hs Hh) as (? & ? & ? & ->). done.
    + right. simpl in Hf. simplify_eq. eauto.
  - pose proof (oo_free _ _ _ _ _ _ (ri_ops _ _ _ _ _ _ I) o q Ho N) as F.
    destruct (owed !! o); [|by subst]. destruct F as (s' & n' & room & buf & _ & (old & r0 & g' & -> & _) & _).
    right. simpl in Hf. simplify_eq. eauto.
Qed.

Lemma rinv_owes H c d own m owed : rinv H c d own m owed -> owes H d owed.
Proof.
  intros I o e He. pose proof (ri_ops _ _ _ _ _ _ I) as O.
  destruct (oo_owed _ _ _ _ _ _ O o e He) as [_ Hlen].
  destruct (lookup_lt_is_Some_2 (c_pcs d) o Hlen) as [q Hq]. exists q. split; [done|].
  pose proof (oo_free _ _ _ _ _ _ O o q Hq) as F. rewrite He in F. apply F.
  intros j p Hj Np E. destruct (oo_run _ _ _ _ _ _ O j p Hj Np) as (_ & No & _). congruence.
Qed.

(** A call that has been published. *)
Lemma ops_publish H l ds ds' own m owed owed' s gh :
  ops_ok H l ds own m owed -> publishes s gh ds ds' owed owed' ->
  (forall o e, owed' !! o = Some e -> owed !! o = Some e) ->
  (forall j p, l !! j = Some p -> published_by s gh (shadow p) = None) ->
  ops_ok H l ds' own m owed'.
Proof.
  intros O [Hlen Hp] Hsub Hno. split.
  - intros j p Hj Np. destruct (oo_run _ _ _ _ _ _ O j p Hj Np) as (Hm & Hn & q & Hq & Sh).
    split; [done|]. specialize (Hp (own j) q Hq). pose proof (Hno j p Hj) as Hpub.
    destruct (published_by s gh q) as [[[n room] buf]|] eqn:E.
    + destruct Hp as [-> Hp]. rewrite Hn in Hp. split; [done|]. exists (Finish s n room buf).
      split; [done|]. left. destruct Sh as [->|(s' & n' & room' & buf' & Hs & -> & (old & r0 & g & -> & ->))];
        [congruence|].
      apply published_by_waits in E as (buf1 & old1 & n1 & r1 & g1 & Eq & _ & Ex).
      injection Eq as -> -> -> -> -> ->. by injection Ex as -> -> ->.
    + destruct Hp as [Hp ->]. split; [done|]. eauto.
  - apply (oo_inj _ _ _ _ _ _ O).
  - intros o q Ho Hfree. destruct (lookup_lt_is_Some_2 ds o) as [q0 Hq0].
    { rewrite <- Hlen. by apply lookup_lt_Some in Ho. }
    pose proof (oo_free _ _ _ _ _ _ O o q0 Hq0 Hfree) as F. specialize (Hp o q0 Hq0).
    destruct (published_by s gh q0) as [[[n room] buf]|] eqn:E.
    + destruct Hp as [-> Hp]. destruct (owed !! o); [congruence|]. subst q0. done.
    + destruct Hp as [Hp ->]. assert (q0 = q) as <- by congruence. done.
  - intros o e He. rewrite Hlen. by apply (oo_owed _ _ _ _ _ _ O o e), Hsub.
Qed.

Section thread.
Context (H : ring_side -> bool) (c : rconf) (d : conf) (own : nat -> nat) (m : nat).
Context (owed : gmap nat event) (I : rinv H c d own m owed).
Context (i : nat) (s : ring_side) (p : rpc) (Hi : rc_pcs c !! i = Some p) (Hs : rpc_side p = Some s).

Lemma not_idle (q : rpc) : rpc_side q = Some s -> q <> Run Idle.
Proof. by intros E ->. Qed.

(** The call of the thread. *)
Lemma own_shown : exists q, c_pcs d !! own i = Some q /\ shown H p q.
Proof.
  by destruct (oo_run _ _ _ _ _ _ (ri_ops _ _ _ _ _ _ I) i p Hi (not_idle p Hs)) as (_ & _ & ?).
Qed.

Lemma own_shadow : (forall n room buf, p <> Run (Finish s n room buf)) ->
  c_pcs d !! own i = Some (shadow p).
Proof.
  intros N. destruct own_shown as (q & Hq & [->|(s' & n & room & buf & _ & E & _)]); [done|].
  assert (s' = s) as -> by (rewrite E in Hs; simpl in Hs; congruence). by destruct (N n room buf).
Qed.

(** A step on a side with the default protocol. *)
Lemma rinv_other p' q' r' k : H s = false -> p' = Run q' -> pc_side q' = Some s ->
  (forall s', sync_type (side s' r') = sync_type (side s' (rc_ring c))) ->
  (forall s', s' <> s -> side s' r' = side s' (rc_ring c)) ->
  rinv H (rafter i s p' r' (Moved k) c) (after (own i) s q' (dt_ring r') k d) own m owed.
Proof.
  intros Hh -> Hp' Hsync Hoth. pose proof own_shown as (q & Hq & _).
  assert (forall s' g n, s' <> s -> flies (after (own i) s q' (dt_ring r') k d) s' g n ->
    flies d s' g n) as Hf.
  { intros s' g n N Hf. destruct (after_flies_old _ _ _ _ _ _ _ _ _ _ Hq Hf) as [E|]; [|done].
    apply pc_side_flying in E. congruence. }
  apply (rinv_step H c d own m owed i s p); try done; try (by left).
  - by rewrite after_ring.
  - intros s'. rewrite after_moved, rafter_aux, (ri_moved _ _ _ _ _ _ I).
    destruct (decide (s' = s)); simpl; lia.
  - congruence.
  - intros s' E E'. rewrite Hp' in E. congruence.
  - rewrite rafter_pcs, after_pcs. eapply ops_step; [apply I|done|by apply not_idle..|by left].
Qed.

(** A step of this protocol that neither reserves nor completes. *)
Lemma rinv_plain p' q' r' : H s = true -> rpc_side p' = Some s -> ract s p' = ract s p ->
  shown H p' q' -> (flying q' = None \/ flying q' = flying (shadow p)) ->
  (forall n room buf, p <> Run (Finish s n room buf)) ->
  (forall s', side s' r' = side s' (rc_ring c)) ->
  rlocal H (fun s => rc_aux s c) (rc_pcs c) (flies d) p' ->
  rinv H (rafter i s p' r' (Moved 0) c) (after (own i) s q' (dt_ring r') 0 d) own m owed.
Proof.
  intros Hh Hp' Ha Hsh Hfl Nf Hr Hl. pose proof (own_shadow Nf) as Hq.
  assert (forall s' g n, flies (after (own i) s q' (dt_ring r') 0 d) s' g n -> flies d s' g n) as Hf.
  { intros s' g n Hf. destruct (after_flies_old _ _ _ _ _ _ _ _ _ _ Hq Hf) as [E|]; [|done].
    destruct Hfl as [E'|E']; [congruence|]. exists (own i), (shadow p). by rewrite <- E'. }
  assert (forall s', rc_aux s' (rafter i s p' r' (Moved 0) c) = rc_aux s' c) as Ex.
  { intros s'. rewrite rafter_aux, act_nothing. by destruct (decide _). }
  assert (forall f, nact s f (rc_pcs (rafter i s p' r' (Moved 0) c)) = nact s f (rc_pcs c)) as En.
  { intros f. rewrite rafter_pcs. apply (nact_same s f _ i p p' Hi). unfold acts. by rewrite Ha. }
  assert (evolves s (rc_aux s c) (rc_aux s (rafter i s p' r' (Moved 0) c)) (rc_pcs c)
    (rc_pcs (rafter i s p' r' (Moved 0) c)) (flies d s)
    (flies (after (own i) s q' (dt_ring r') 0 d) s)) as Ev.
  { left. split; [apply Ex|]. split; [exact En|]. intros g n. apply Hf. }
  apply (rinv_step H c d own m owed i s p); try done; try (by left).
  - by rewrite after_ring.
  - intros s'. rewrite Ex, after_moved, (ri_moved _ _ _ _ _ _ I). destruct (decide _); lia.
  - intros s'. by rewrite Hr.
  - intros _. rewrite En, Ex, Hr. split; [by apply (ri_words _ _ _ _ _ _ I)|].
    split; [by apply (ri_words _ _ _ _ _ _ I)|]. split; [by apply (ri_count _ _ _ _ _ _ I)|].
    split; [by apply (ri_quiet _ _ _ _ _ _ I)|]. by rewrite Ex in Ev.
  - intros s' g n _. apply Hf.
  - eapply rlocal_evolves; [|exact Hl]. intros s' Hh'. cbv beta.
    destruct (decide (s' = s)) as [->|N]; [done|]. left. split; [apply Ex|]. split.
    + intros f. rewrite rafter_pcs. apply (nact_same s' f _ i p p' Hi).
      assert (forall x, rpc_side x = Some s -> acts s' f x = 0%nat) as Z0.
      { intros x Hx. unfold acts. destruct (ract s' x) eqn:E; [|done]. apply ract_side in E. congruence. }
      by rewrite !Z0.
    + intros g n. apply Hf.
  - rewrite rafter_pcs, after_pcs. eapply ops_step; [apply I|done|by apply not_idle..|done].
Qed.

(** The reservation. *)
Lemma rinv_reserve max b buf oh n room g gc :
  p = RSwap s max b buf oh n room g gc -> rts_head (side s (rc_ring c)) = oh ->
  g = moved s d -> 0 < n ->
  let r' := set_side s (set_rts_head (mk_poscnt (u32 (pc_cnt oh + 1)) (u32 (pc_pos oh + n)))
              (side s (rc_ring c))) (rc_ring c) in
  rinv H (rafter i s (RCopy s buf (pc_pos oh) n room 0 g) r' (Moved n) c)
    (after (own i) s (Copy s buf (pc_pos oh) n room 0 g) (dt_ring r') n d) own m owed.
Proof.
  intros Ep Eh Eg Hn r'. assert (forall n room buf, p <> Run (Finish s n room buf)) as Nf by (by rewrite Ep).
  pose proof (own_shadow Nf) as Hq. pose proof (ri_local _ _ _ _ _ _ I i p Hi) as L.
  rewrite Ep in L. destruct L as (Hh & L1 & L2 & L3 & L4).
  rewrite (ri_moved _ _ _ _ _ _ I) in Eg. pose proof (proj1 L4 Eg) as Egc.
  assert (forall s' g0 n0, flies (after (own i) s (Copy s buf (pc_pos oh) n room 0 g) (dt_ring r') n d) s' g0 n0
    -> (s' = s /\ g0 = g) \/ flies d s' g0 n0) as Hf.
  { intros s' g0 n0 Hf. destruct (after_flies_old _ _ _ _ _ _ _ _ _ _ Hq Hf) as [E|]; [|by right].
    simpl in E. left. split; congruence. }
  assert (forall f, f g = false -> nact s f (<[i := RCopy s buf (pc_pos oh) n room 0 g]> (rc_pcs c))
    = nact s f (rc_pcs c)) as En.
  { intros f Ef. apply (nact_same s f _ i p _ Hi). rewrite Ep. unfold acts. simpl.
    by rewrite decide_True, Ef. }
  assert (nact s all_act (<[i := RCopy s buf (pc_pos oh) n room 0 g]> (rc_pcs c))
    = Datatypes.S (nact s all_act (rc_pcs c))) as Ea.
  { pose proof (nact_insert s all_act _ i p (RCopy s buf (pc_pos oh) n room 0 g) Hi) as E.
    rewrite Ep in E at 1. unfold acts in E. simpl in E. rewrite decide_True in E by done. simpl in E. lia. }
  destruct (ri_words _ _ _ _ _ _ I s Hh) as [W0 W1].
  pose proof (ri_count _ _ _ _ _ _ I s Hh) as Cn.
  apply (rinv_step H c d own m owed i s p); try done; try (by left).
  - by rewrite after_ring.
  - intros s'. rewrite after_moved, rafter_aux, (ri_moved _ _ _ _ _ _ I).
    destruct (decide (s' = s)); simpl; lia.
  - intros s'. unfold r'. by destruct s, s'.
  - intros s' N. unfold r'. by rewrite side_set_side_ne.
  - intros _. rewrite rafter_pcs, rafter_aux, decide_True by done. cbn [act_aux x_resv x_done x_moved].
    replace (n =? 0) with false by lia. unfold r'. rewrite side_set_side.
    cbn [set_rts_head rts_head_w0 rts_head_w1 ht_w0 ht_w1 pc_cnt pc_pos].
    split; [by rewrite L1, wrap_add_l, Egc|]. split; [done|]. split; [rewrite Ea; lia|].
    split; [rewrite Ea; lia|]. right; left. exists n. split; [done|]. split; [done|]. split.
    + intros gh Hgh. apply En. unfold before. lia.
    + intros g0 n0 Hf0. destruct (Hf s g0 n0 Hf0) as [[_ ->]|]; [right; lia|by left].
  - intros s' g0 n0 N Hf0. by destruct (Hf s' g0 n0 Hf0) as [[-> _]|].
  - rewrite rafter_pcs, after_pcs. eapply ops_step; [apply I|done|by rewrite Ep|done|by left].
Qed.

(** *** The completion *)

Section complete.
Context (buf : list Z) (old n room g : Z) (ot h : __rte_ring_rts_poscnt) (gt gc gh : Z).
Context (Ep : p = RStore s buf old n room g ot h gt gc gh).
Context (Eot : rts_tail (side s (rc_ring c)) = ot).
Context (Hfr : rpc_fresh c p = true).

Let q := Run (Finish s n (u32 (room - n)) buf).
Let l' := <[i := q]> (rc_pcs c).

Lemma nact_before_all f l : (nact s f l <= nact s all_act l)%nat.
Proof.
  assert (forall x, acts s f x <= acts s all_act x)%nat as E.
  { intros x. unfold acts, all_act. repeat case_match; lia. }
  induction l as [|x l IH]; [done|]. specialize (E x). unfold nact in *. simpl. lia.
Qed.

Lemma complete_facts : H s = true /\ gt = x_done (rc_aux s c)
  /\ Z.of_nat (nact s (before gh) (rc_pcs c)) = gc - gt
  /\ (1 <= nact s (before gh) (rc_pcs c))%nat
  /\ (u32 (pc_cnt ot + 1) =? pc_cnt h) = (nact s (before gh) (rc_pcs c) =? 1)%nat
  /\ pc_pos h = u32 gh /\ g < gh /\ gh <= x_moved (rc_aux s c)
  /\ (gc = x_resv (rc_aux s c) -> gh = x_moved (rc_aux s c))
  /\ forall g' n', flies d s g' n' -> g' + n' <= gh \/ gh <= g'.
Proof.
  pose proof (ri_local _ _ _ _ _ _ I i p Hi) as L. rewrite Ep in L.
  destruct L as (Hh & L1 & L2 & (L3 & L4 & L5 & L6) & L7 & L8 & L9 & L10).
  destruct (ri_words _ _ _ _ _ _ I s Hh) as [_ W]. pose proof Hfr as F. rewrite Ep in F.
  simpl in F. apply Z.ltb_lt in F. assert (pc_cnt ot = ht_w0 (side s (rc_ring c))) as Ec by by rewrite <- Eot.
  assert (gt = x_done (rc_aux s c)) as Egt.
  { symmetry. apply u32_inj; [congruence|lia]. }
  specialize (L9 Egt).
  assert (acts s (before gh) p = 1%nat) as A1.
  { rewrite Ep. unfold acts. simpl. rewrite decide_True by done. unfold before.
    by replace (g <? gh) with true by lia. }
  pose proof (nact_lookup s (before gh) _ i p Hi) as A2.
  pose proof (nact_length s (before gh) (rc_pcs c)) as A3. pose proof (ri_few _ _ _ _ _ _ I) as A4.
  split; [done|]. split; [done|]. split; [done|]. split; [lia|]. split.
  - rewrite L1, L3, wrap_add_l. destruct (Nat.eqb_spec (nact s (before gh) (rc_pcs c)) 1) as [E|N].
    + apply Z.eqb_eq. f_equal. lia.
    + apply Z.eqb_neq. intros E. apply N. apply u32_inj in E; lia.
  - split_and!; try done. by apply L6.
Qed.

Lemma complete_count f : f g = true -> (nact s f l' + 1)%nat = nact s f (rc_pcs c).
Proof.
  intros Hf. pose proof (nact_insert s f _ i p q Hi) as E. unfold l'. rewrite Ep in E at 1.
  unfold acts in E. simpl in E. rewrite decide_True, Hf in E by done. lia.
Qed.

(** Every active thread counts: another one is left, or the heads were equal. *)
Lemma complete_quiet : nact s all_act l' = 0%nat ->
  nact s (before gh) (rc_pcs c) = 1%nat /\ gh = x_moved (rc_aux s c).
Proof.
  intros E. destruct complete_facts as (Hh & Egt & En & E1 & _ & _ & Hg & _ & Emv & _).
  pose proof (complete_count all_act eq_refl) as Ca.
  pose proof (nact_before_all (before gh) (rc_pcs c)). pose proof (ri_count _ _ _ _ _ _ I s Hh) as Cn.
  split; [lia|]. apply Emv. lia.
Qed.

(** The state of the threads and of the memory after it; [d'] publishes or not. *)
Lemma rinv_complete d' owed' nt : pc_cnt nt = u32 (pc_cnt ot + 1) ->
  let r' := set_side s (set_rts_tail nt (side s (rc_ring c))) (rc_ring c) in
  c_ring d' = dt_ring r' -> (forall s', moved s' d' = moved s' d) ->
  (nact s all_act l' = 0%nat -> pc_pos nt = rts_head_w1 (side s (rc_ring c))) ->
  (forall s' g n, flies d' s' g n -> flies d s' g n) ->
  ops_ok H l' (c_pcs d') own m owed' ->
  rinv H (rafter i s q r' Completed c) d' own m owed'.
Proof.
  intros Ent r' Er Em Hq Hf Ho. destruct complete_facts as (Hh & Egt & _).
  pose proof (ri_local _ _ _ _ _ _ I i p Hi) as L. rewrite Ep in L. destruct L as (_ & L1 & _).
  destruct (ri_words _ _ _ _ _ _ I s Hh) as [W0 W1]. pose proof (ri_count _ _ _ _ _ _ I s Hh) as Cn.
  pose proof (complete_count all_act eq_refl) as Ca.
  apply (rinv_step H c d own m owed i s p); try done; try (by left).
  - intros s'. rewrite Em, (ri_moved _ _ _ _ _ _ I), rafter_aux. by destruct (decide _).
  - intros s'. unfold r'. by destruct s, s'.
  - intros s' N. unfold r'. by rewrite side_set_side_ne.
  - intros _. rewrite rafter_pcs, rafter_aux, decide_True by done. cbn [act_aux x_resv x_done x_moved].
    unfold r'. rewrite side_set_side. cbn [set_rts_tail rts_head_w0 rts_head_w1 ht_w0 ht_w1].
    split; [done|]. split; [by rewrite Ent, L1, wrap_add_l, Egt|]. fold l'. split; [lia|].
    split; [done|]. right; right. split; [done|]. intros g0 n0. apply Hf.
  - intros s' g0 n0 _. apply Hf.
  - intros s' E _. simpl in E. injection E as <-. by eexists _, _, _.
  - by rewrite rafter_pcs.
Qed.

(** *** It is not the last of those that it saw *)

Lemma own_waits : c_pcs d !! own i = Some (Wait s buf old n room g).
Proof. rewrite own_shadow by (by rewrite Ep). by rewrite Ep. Qed.

Lemma ops_complete : ops_ok H l' (c_pcs d) own m owed.
Proof.
  destruct complete_facts as (Hh & _).
  rewrite <- (list_insert_id (c_pcs d) (own i) _ own_waits).
  eapply ops_step; [apply I|exact Hi|by rewrite Ep|done|].
  right. exists s, n, (u32 (room - n)), buf. split; [done|]. split; [done|]. by exists old, room, g.
Qed.

Lemma rinv_complete_later : (u32 (pc_cnt ot + 1) =? pc_cnt h) = false ->
  let nt := mk_poscnt (u32 (pc_cnt ot + 1)) (pc_pos ot) in
  let r' := set_side s (set_rts_tail nt (side s (rc_ring c))) (rc_ring c) in
  rinv H (rafter i s q r' Completed c) d own m owed.
Proof.
  intros E nt r'. destruct complete_facts as (Hh & _ & _ & _ & E1 & _). rewrite E in E1. symmetry in E1.
  apply Nat.eqb_neq in E1. apply (rinv_complete d owed nt); try done.
  - unfold r'. rewrite (dt_rts_tail s _ nt) by (by rewrite (ri_sync _ _ _ _ _ _ I)).
    rewrite (ri_ring _ _ _ _ _ _ I). cbn [pc_pos nt]. rewrite <- Eot.
    change (pc_pos (rts_tail (side s (rc_ring c)))) with (tail (side s (rc_ring c))).
    by rewrite <- tail_dt, set_tail_same.
  - intros Hz. by destruct (complete_quiet Hz) as [Hz' _].
  - apply ops_complete.
Qed.

(** *** It is the last: all that was reserved before is published *)

Lemma complete_alone j x : nact s (before gh) (rc_pcs c) = 1%nat -> rc_pcs c !! j = Some x ->
  forall g', ract s x = Some g' -> g' < gh -> j = i.
Proof.
  intros E Hj g' Hx Hg. destruct (decide (j = i)) as [|N]; [done|].
  destruct complete_facts as (_ & _ & _ & _ & _ & _ & Hgg & _).
  pose proof (nact_two s (before gh) _ i j p x (not_eq_sym N) Hi Hj) as T.
  rewrite E in T. unfold acts in T. rewrite Hx, Ep in T. simpl in T. rewrite decide_True in T by done.
  unfold before in T. replace (g <? gh) with true in T by lia. replace (g' <? gh) with true in T by lia. lia.
Qed.

Lemma complete_ready : nact s (before gh) (rc_pcs c) = 1%nat -> ready s gh d.
Proof.
  intros E o x g' n' Ho Hx Hg. destruct complete_facts as (Hh & _ & _ & _ & _ & _ & _ & _ & _ & Hend).
  split.
  - destruct (Hend g' n'); [by exists o, x|done|lia].
  - destruct (op_flying H c d own m owed s o x g' n' I Hh Ho Hx) as [(j & y & Hj & Hy & -> & _)|W]; [|done].
    assert (j = i) as -> by (by eapply complete_alone). assert (y = p) as -> by congruence.
    rewrite Ep in Hx |- *. simpl in Hx. simplify_eq. simpl. eauto.
Qed.

Lemma complete_unpublished : nact s (before gh) (rc_pcs c) = 1%nat ->
  forall j x, l' !! j = Some x -> published_by s gh (shadow x) = None.
Proof.
  intros E j x Hj. destruct (published_by s gh (shadow x)) as [y|] eqn:P; [|done].
  destruct complete_facts as (Hh & _).
  apply published_by_waits in P as (buf' & old' & n' & room' & g' & Ex & Hg & _).
  unfold l' in Hj. apply list_lookup_insert_Some in Hj as [(-> & <- & _)|[N Hj]]; [done|].
  destruct N. symmetry. apply (complete_alone j x E Hj g'); [|done].
  pose proof (ri_local _ _ _ _ _ _ I j x Hj) as L.
  destruct x; simpl in Ex; simplify_eq; simpl; try by rewrite decide_True.
  by destruct (L s eq_refl Hh) as (? & ? & ? & ?).
Qed.

Lemma rinv_complete_last w cap a0 tr0 tr : (u32 (pc_cnt ot + 1) =? pc_cnt h) = true ->
  dsim w cap a0 tr d -> delayed tr0 tr own m owed ->
  let nt := mk_poscnt (u32 (pc_cnt ot + 1)) (pc_pos h) in
  let r' := set_side s (set_rts_tail nt (side s (rc_ring c))) (rc_ring c) in
  exists tr' d' owed', rinv H (rafter i s q r' Completed c) d' own m owed'
    /\ dsim w cap a0 tr' d' /\ delayed tr0 tr' own m owed' /\ length (c_pcs d') = length (c_pcs d).
Proof.
  intros E D Hd nt r'.
  destruct complete_facts as (Hh & Egt & En & _ & E1 & Eh & Hg & Hgh & Emv & _). rewrite E in E1. symmetry in E1.
  apply Nat.eqb_eq in E1. pose proof D as (tl & a & S & _ & _).
  pose proof (flying_range w tl d a S _ _ s g n own_waits eq_refl) as Hr.
  pose proof (tail_low w tl d a s S) as Hlow. rewrite (ri_moved _ _ _ _ _ _ I) in Hlow.
  destruct (publish_all w cap a0 H tr0 own m s gh (Z.to_nat (gh - tl s)) tr d owed (tl s))
    as (tr' & d' & owed' & D' & Hd' & Er & Em & Hp & Hsub); try done.
  - eapply rinv_owes, I.
  - by apply complete_ready.
  - apply (sim_tail _ _ _ _ S).
  - rewrite (ri_moved _ _ _ _ _ _ I). lia.
  - lia.
  - rewrite (ri_moved _ _ _ _ _ _ I). lia.
  - exists tr', d', owed'. split; [|split; [done|split; [done|apply Hp]]].
    apply (rinv_complete d' owed' nt); try done.
    + unfold r'. rewrite (dt_rts_tail s _ nt) by (by rewrite (ri_sync _ _ _ _ _ _ I)).
      rewrite Er, (ri_ring _ _ _ _ _ _ I). by rewrite <- Eh.
    + intros Hz. destruct (complete_quiet Hz) as [_ Egh]. cbn [nt pc_pos]. rewrite Eh, Egh.
      pose proof (sim_head _ _ _ _ S s) as Hhead. rewrite (ri_ring _ _ _ _ _ _ I), (ri_moved _ _ _ _ _ _ I) in Hhead.
      rewrite side_dt, rts_side_dt in Hhead by (by rewrite (ri_sync _ _ _ _ _ _ I)). done.
    + intros s' g0 n0 (o & x & Ho & Hx). destruct Hp as [Hlen Hp].
      destruct (lookup_lt_is_Some_2 (c_pcs d) o) as [y Hy]; [rewrite <- Hlen; by apply lookup_lt_Some in Ho|].
      specialize (Hp o y Hy). exists o, y. split; [done|].
      destruct (published_by s gh y) as [[[? ?] ?]|]; destruct Hp as [Hp1 Hp2]; [|congruence].
      rewrite Ho in Hp2. injection Hp2 as ->. by destruct (owed !! o).
    + eapply ops_publish; [apply ops_complete|exact Hp|done|]. by apply complete_unpublished.
Qed.
End complete.
End thread.
