(* ===== verification/RingRtsThm.v ===== *)
(** * Theorems on rings with relaxed tails.

    The calls follow the threads at every step ([world]); hence the runs are those
    of the abstract queue with some returns delayed ([ring_rts_linearizable]), and
    no thread waits for another to publish ([rts_threads_go]). *)
From stdpp Require Import prelude list numbers gmap.
From S2P Require Import Prelude RingCore RingCopy RingHeadTail RingElem RingSpec.
From S2P Require Import RingConc RingConcSpec RingConcExact RingConcThm RingHtsConc RingRtsConc RingRtsSpec.
Open Scope Z_scope.

(** ** Every step is followed *)

Lemma after_same o s q d : c_pcs d !! o = Some q -> after o s q (c_ring d) 0 d = d.
Proof. intros Ho. unfold after. rewrite move_0, list_insert_id by done. by destruct d. Qed.

Lemma thread_step_other w h p r p' r' k s : thread_step w h p r = Some (p', r', k) ->
  pc_side p = Some s -> forall s', s' <> s -> side s' r' = side s' r.
Proof.
  destruct p; cbn [thread_step]; intros E Hs; try done;
    repeat (case_match || (destruct (_ !! _); cbn [mbind option_bind] in E)); simpl in Hs; simplify_eq;
    intros s' N; first [done | by rewrite side_set_side_ne | by destruct s'].
Qed.

Lemma thread_step_dt w h p r p' r' k s :
  thread_step w h p r = Some (p', r', k) -> pc_side p = Some s -> rts s r = false ->
  thread_step w h p (dt_ring r) = Some (p', dt_ring r', k).
Proof.
  intros E Hs Hh. pose proof (other_side_dt s r Hh) as Ed.
  assert (single s (dt_ring r) = single s r) as E1 by (unfold single; by rewrite side_dt, Ed).
  assert (forall f, sync_type (f (side s r)) = sync_type (side s r) ->
    dt_ring (set_side s (f (side s r)) r) = set_side s (f (side s r)) (dt_ring r)) as E2.
  { intros f Ef. rewrite dt_set_side. f_equal. unfold dt_side. rewrite Ef. unfold rts in Hh. by rewrite Hh. }
  destruct p; simpl in Hs; simplify_eq; cbn [thread_step] in *;
    rewrite ?room_seen_dt, ?E1, ?side_dt, ?Ed in *; cbn [slots dt_ring] in *.
  - by simplify_eq.
  - case_match; by simplify_eq.
  - case_match; simplify_eq; [|done]. by rewrite (E2 (set_head (u32 (old + k)))).
  - destruct (j <? _)%nat; [|case_match; by simplify_eq].
    destruct s; repeat (destruct (_ !! _); cbn [mbind option_bind] in *); by simplify_eq.
  - case_match; by simplify_eq.
  - simplify_eq. by rewrite (E2 (set_tail (u32 (old + n)))).
Qed.

(** A call begins. *)
Lemma ops_begin H l ds own m owed i p' q' :
  ops_ok H l ds own m owed -> l !! i = Some (Run Idle) -> p' <> Run Idle -> shown H p' q' ->
  (m < length ds)%nat ->
  ops_ok H (<[i := p']> l) (<[m := q']> ds) (set_own i m own) (Datatypes.S m) owed.
Proof.
  intros O Hi Np' Hs Hm.
  assert (forall j x, <[i := p']> l !! j = Some x -> x <> Run Idle ->
    (j = i /\ x = p' /\ set_own i m own j = m)
    \/ (j <> i /\ l !! j = Some x /\ set_own i m own j = own j /\ (own j < m)%nat)) as Cases.
  { intros j x Hj Nx. unfold set_own. apply list_lookup_insert_Some in Hj as [(-> & -> & _)|[N Hj]].
    - left. by rewrite decide_True.
    - right. rewrite decide_False by done. split; [done|]. split; [done|]. split; [done|].
      by destruct (oo_run _ _ _ _ _ _ O j x Hj Nx). }
  assert (owed !! m = None) as Em.
  { destruct (owed !! m) as [e|] eqn:E; [|done]. apply (oo_owed _ _ _ _ _ _ O) in E as [? _]. lia. }
  split.
  - intros j x Hj Nx. destruct (Cases j x Hj Nx) as [(-> & -> & ->)|(N & Hj' & -> & Hlt)].
    + split; [lia|]. split; [done|]. exists q'. split; [by apply list_lookup_insert_eq|done].
    + destruct (oo_run _ _ _ _ _ _ O j x Hj' Nx) as (? & ? & q1 & ? & ?).
      split; [lia|]. split; [done|]. exists q1. split; [|done]. rewrite list_lookup_insert_ne; [done|lia].
  - intros j k x y Hj Hk Nx Ny E. destruct (Cases j x Hj Nx) as [(-> & _ & E1)|(N & Hj' & E1 & Hlt)],
      (Cases k y Hk Ny) as [(-> & _ & E2)|(N' & Hk' & E2 & Hlt')]; try done; try lia.
    by apply (oo_inj _ _ _ _ _ _ O j k x y); [..|congruence].
  - intros o x Ho Hfree. assert (o <> m) as No.
    { intros ->. apply (Hfree i p'); [|done|].
      - apply list_lookup_insert_eq. by apply lookup_lt_Some in Hi.
      - unfold set_own. by rewrite decide_True. }
    rewrite list_lookup_insert_ne in Ho by done. apply (oo_free _ _ _ _ _ _ O o x Ho).
    intros j y Hj Ny E. destruct (decide (j = i)) as [->|N]; [congruence|].
    apply (Hfree j y); [by rewrite list_lookup_insert_ne|done|]. unfold set_own. by rewrite decide_False.
  - intros o e He. rewrite length_insert. destruct (oo_owed _ _ _ _ _ _ O o e He). lia.
Qed.

(** A thread leaves its call, which has returned or is owed. *)
Lemma ops_end H l ds own m owed owed' i p q' :
  ops_ok H l ds own m owed -> l !! i = Some p -> p <> Run Idle ->
  match owed' !! own i with Some e => settled H (own i) e q' | None => q' = Idle end ->
  (forall o, o <> own i -> owed' !! o = owed !! o) ->
  ops_ok H (<[i := Run Idle]> l) (<[own i := q']> ds) own m owed'.
Proof.
  intros O Hi Np Hq Hoth. destruct (oo_run _ _ _ _ _ _ O i p Hi Np) as (Hm & Hn & q & Ho & _).
  assert (forall j x, <[i := Run Idle]> l !! j = Some x -> x <> Run Idle ->
    j <> i /\ l !! j = Some x /\ own j <> own i) as Old.
  { intros j x Hj Nx. apply list_lookup_insert_Some in Hj as [(-> & <- & _)|[N Hj]]; [done|].
    split; [done|]. split; [done|]. intros E. apply N. symmetry.
    by apply (oo_inj _ _ _ _ _ _ O j i x p). }
  split.
  - intros j x Hj Nx. destruct (Old j x Hj Nx) as (N & Hj' & No).
    destruct (oo_run _ _ _ _ _ _ O j x Hj' Nx) as (? & ? & q1 & ? & ?).
    split; [done|]. rewrite Hoth by done. split; [done|]. exists q1.
    split; [by rewrite list_lookup_insert_ne|done].
  - intros j k x y Hj Hk Nx Ny E. destruct (Old j x Hj Nx) as (_ & ? & _), (Old k y Hk Ny) as (_ & ? & _).
    by apply (oo_inj _ _ _ _ _ _ O j k x y).
  - intros o x Hx Hfree. destruct (decide (o = own i)) as [->|No].
    + rewrite list_lookup_insert_eq in Hx by (by apply lookup_lt_Some in Ho). by injection Hx as <-.
    + rewrite list_lookup_insert_ne in Hx by done. rewrite Hoth by done.
      apply (oo_free _ _ _ _ _ _ O o x Hx). intros j y Hj Ny E. destruct (decide (j = i)) as [->|N]; [done|].
      apply (Hfree j y); [by rewrite list_lookup_insert_ne|done|done].
  - intros o e He. rewrite length_insert. destruct (decide (o = own i)) as [->|No].
    + split; [done|]. by apply lookup_lt_Some in Ho.
    + rewrite Hoth in He by done. by apply (oo_owed _ _ _ _ _ _ O o e).
Qed.

Section world.
Context (w : nat) (cap : Z) (a0 : aconf) (H : ring_side -> bool) (K : nat).

(** The calls, as threads of the default protocol, follow the threads. *)
Definition world (c : rconf) (tr : list event) : Prop :=
  exists d own m owed tr', rinv H c d own m owed /\ dsim w cap a0 tr' d
    /\ delayed tr tr' own m owed /\ length (c_pcs d) = K.

Section world_step.
Context (c : rconf) (tr : list event) (d : conf) (own : nat -> nat) (m : nat) (owed : gmap nat event).
Context (tr' : list event) (I : rinv H c d own m owed) (D : dsim w cap a0 tr' d).
Context (Hd : delayed tr tr' own m owed) (HK : length (c_pcs d) = K).
Context (i : nat) (s : ring_side) (p : rpc) (Hi : rc_pcs c !! i = Some p) (Hs : rpc_side p = Some s).

Lemma world_of c' q' r' k : dsim w cap a0 tr' (after (own i) s q' (dt_ring r') k d) ->
  rinv H c' (after (own i) s q' (dt_ring r') k d) own m owed -> world c' tr.
Proof.
  intros D' I'. exists (after (own i) s q' (dt_ring r') k d), own, m, owed, tr'.
  split; [done|]. split; [done|]. split; [done|]. by rewrite after_pcs, length_insert.
Qed.

Lemma world_same c' : c_pcs d !! own i = Some (shadow p) -> 
  rinv H c' (after (own i) s (shadow p) (dt_ring (rc_ring c)) 0 d) own m owed -> world c' tr.
Proof.
  intros Ho I'. eapply (world_of c' _ (rc_ring c)); [|exact I'].
  rewrite <- (ri_ring _ _ _ _ _ _ I), after_same; done.
Qed.

Lemma d_fresh q : rpc_fresh c (Run q) = true -> pc_fresh d q = true.
Proof.
  destruct q; try done; simpl; by rewrite (ri_moved _ _ _ _ _ _ I), (ri_ring _ _ _ _ _ _ I).
Qed.

Lemma d_shared : H s = true -> single s (c_ring d) = false.
Proof.
  intros Hh. rewrite (ri_ring _ _ _ _ _ _ I). unfold single.
  rewrite side_dt, rts_side_dt; [done|]. by rewrite (ri_sync _ _ _ _ _ _ I).
Qed.

Lemma d_head : H s = true -> head (side s (c_ring d)) = rts_head_w1 (side s (rc_ring c)).
Proof.
  intros Hh. rewrite (ri_ring _ _ _ _ _ _ I), side_dt, rts_side_dt; [done|].
  by rewrite (ri_sync _ _ _ _ _ _ I).
Qed.

(** *** A side with the default protocol *)
Lemma world_other p' r' e : H s = false -> rpc_fresh c p = true ->
  rts_step w (rc_aux s c) p (rc_ring c) = Some (p', r', e) -> world (rafter i s p' r' e c) tr.
Proof.
  intros Hh Hf E. pose proof (ri_local _ _ _ _ _ _ I i p Hi) as L.
  assert (exists q, p = Run q) as (q & Ep).
  { clear -L Hh Hs. destruct p; simpl in *; simplify_eq; eauto; try (by destruct L; congruence); congruence. }
  rewrite Ep in E, Hf. cbn [rts_step] in E.
  destruct (thread_step w (x_moved (rc_aux s c)) q (rc_ring c)) as [[[q' r1] k]|] eqn:Et; [|done].
  cbn [mbind option_bind] in E. injection E as <- <- <-.
  assert (pc_side q = Some s) as Hq by (rewrite Ep in Hs; done).
  assert (forall n room buf, p <> Run (Finish s n room buf)) as Nf by (intros n room buf ->; simplify_eq; done).
  pose proof (own_shadow H c d own m owed I i s p Hi Hs Nf) as Ho. rewrite Ep in Ho. simpl in Ho.
  pose proof (thread_step_side _ _ _ _ _ _ _ s Et Hq) as [Hq' Hsync].
  eapply (world_of _ q' r1 k).
  - eapply dsim_thread; [exact D|exact Ho|done|by apply d_fresh|].
    rewrite (ri_moved _ _ _ _ _ _ I), (ri_ring _ _ _ _ _ _ I).
    eapply thread_step_dt; [exact Et|done|]. by rewrite (ri_sync _ _ _ _ _ _ I).
  - eapply rinv_other; try done. by eapply thread_step_other.
Qed.

(** *** A side with this protocol *)
Context (Hh : H s = true) (Hf : rpc_fresh c p = true).

Lemma world_head max b buf p' r' e : p = RHead s max b buf ->
  rts_step w (rc_aux s c) p (rc_ring c) = Some (p', r', e) -> world (rafter i s p' r' e c) tr.
Proof.
  intros Ep E. assert (forall n room buf, p <> Run (Finish s n room buf)) as Nf by (by rewrite Ep).
  pose proof (own_shadow H c d own m owed I i s p Hi Hs Nf) as Ho.
  rewrite Ep in E, Ho. cbn [rts_step] in E. injection E as <- <- <-.
  eapply (world_of _ (ReadTail s max b buf (rts_head_w1 (side s (rc_ring c))) (x_moved (rc_aux s c))) (rc_ring c) 0).
  - eapply dsim_thread; [exact D|exact Ho|done|done|].
    cbn [shadow thread_step]. by rewrite d_head, (ri_moved _ _ _ _ _ _ I), <- (ri_ring _ _ _ _ _ _ I).
  - apply (rinv_plain H c d own m owed I i s p Hi Hs); [done|done|by rewrite Ep|by left|by left|done|done|].
    split; [done|]. destruct (ri_words _ _ _ _ _ _ I s Hh) as [W _]. split; [exact W|]. split_and!; done || lia.
Qed.

Lemma world_wait max b buf oh g gc p' r' e : p = RWait s max b buf oh g gc ->
  rts_step w (rc_aux s c) p (rc_ring c) = Some (p', r', e) -> world (rafter i s p' r' e c) tr.
Proof.
  intros Ep E. assert (forall n room buf, p <> Run (Finish s n room buf)) as Nf by (by rewrite Ep).
  pose proof (own_shadow H c d own m owed I i s p Hi Hs Nf) as Ho.
  pose proof (ri_local _ _ _ _ _ _ I i p Hi) as L.
  pose proof (rinv_plain H c d own m owed I i s p Hi Hs) as Plain.
  pose proof world_same as Same.
  rewrite Ep in E, Ho, L, Plain, Same. cbn [rts_step] in E. destruct (_ >? _); injection E as <- <- <-.
  - eapply (world_of _ (ReadHead s max b buf) (rc_ring c) 0).
    + rewrite <- (ri_ring _ _ _ _ _ _ I). eapply dsim_restart; [exact D|exact Ho].
    + by apply Plain; [..|left|left| | |].
  - apply Same; [done|]. by apply Plain; [..|left|right| | |].
Qed.

Lemma world_tail max b buf oh g gc p' r' e : p = RTail s max b buf oh g gc ->
  rts_step w (rc_aux s c) p (rc_ring c) = Some (p', r', e) -> world (rafter i s p' r' e c) tr.
Proof.
  intros Ep E. assert (forall n room buf, p <> Run (Finish s n room buf)) as Nf by (by rewrite Ep).
  pose proof (own_shadow H c d own m owed I i s p Hi Hs Nf) as Ho.
  pose proof (ri_local _ _ _ _ _ _ I i p Hi) as L.
  pose proof (rinv_plain H c d own m owed I i s p Hi Hs) as Plain. pose proof Hf as F.
  rewrite Ep in E, Ho, L, Plain, F. cbn [rts_step] in E.
  assert (forall q', thread_step w (moved s d) (shadow (RTail s max b buf oh g gc)) (c_ring d)
    = Some (q', c_ring d, 0) -> dsim w cap a0 tr' (after (own i) s q' (dt_ring (rc_ring c)) 0 d)) as Step.
  { intros q' Eq. rewrite <- (ri_ring _ _ _ _ _ _ I). eapply dsim_thread; [exact D|exact Ho|done| |exact Eq].
    by apply d_fresh. }
  assert (room_seen s (pc_pos oh) (c_ring d) = room_seen s (pc_pos oh) (rc_ring c)) as Er
    by (by rewrite (ri_ring _ _ _ _ _ _ I), room_seen_dt).
  cbn [shadow thread_step] in Step. rewrite Er in Step.
  destruct (_ =? 0); injection E as <- <- <-.
  - eapply (world_of _ _ (rc_ring c) 0); [apply Step; reflexivity|].
    apply Plain; [done|done|done|by left|by left|done|done|]. intros s' E _. simpl in E. injection E as <-. by eexists _, _, _.
  - eapply (world_of _ _ (rc_ring c) 0); [apply Step; reflexivity|].
    by apply Plain; [..|left|left| | |].
Qed.

(** The head alone is where it was read just when the pair is. *)
Lemma swap_pair max b buf oh n room g gc : p = RSwap s max b buf oh n room g gc ->
  (head (side s (c_ring d)) =? pc_pos oh) = bool_decide (rts_head (side s (rc_ring c)) = oh)
  /\ (rts_head (side s (rc_ring c)) = oh -> g = moved s d).
Proof.
  intros Ep. assert (forall n room buf, p <> Run (Finish s n room buf)) as Nf by (by rewrite Ep).
  pose proof (own_shadow H c d own m owed I i s p Hi Hs Nf) as Ho.
  pose proof (ri_local _ _ _ _ _ _ I i p Hi) as L. pose proof Hf as F.
  rewrite Ep in Ho, L, F. destruct L as (_ & L1 & L2 & L3 & L4). simpl in F. apply Z.ltb_lt in F.
  destruct (ri_words _ _ _ _ _ _ I s Hh) as [W _].
  destruct D as (tl & a & S & _ & Ecap).
  destruct (thread_ok w tl d a S _ _ Ho) as (x & _ & _ & _ & Lk & _).
  assert (head (side s (c_ring d)) = pc_pos oh -> g = moved s d) as Ex.
  { intros E. eapply (swap_exact w tl d a S s _ g Lk).
    - rewrite (ri_moved _ _ _ _ _ _ I), (ri_ring _ _ _ _ _ _ I). exact F.
    - apply orb_true_iff. right. by apply Z.eqb_eq. }
  pose proof (d_head Hh) as Eh.
  split; [|intros E; apply Ex; rewrite Eh; by rewrite <- E].
  case_bool_decide as E.
  - apply Z.eqb_eq. rewrite Eh. by rewrite <- E.
  - apply Z.eqb_neq. intros E'. apply E. pose proof (Ex E') as Eg. rewrite (ri_moved _ _ _ _ _ _ I) in Eg.
    apply L4 in Eg. destruct oh as [cnt pos]. simpl in *. unfold rts_head. f_equal; [|by rewrite <- Eh].
    by rewrite W, L1, Eg.
Qed.

Lemma world_swap max b buf oh n room g gc p' r' e : p = RSwap s max b buf oh n room g gc ->
  rts_step w (rc_aux s c) p (rc_ring c) = Some (p', r', e) -> world (rafter i s p' r' e c) tr.
Proof.
  intros Ep E. assert (forall n room buf, p <> Run (Finish s n room buf)) as Nf by (by rewrite Ep).
  pose proof (own_shadow H c d own m owed I i s p Hi Hs Nf) as Ho.
  destruct (swap_pair _ _ _ _ _ _ _ _ Ep) as [Eq Eg].
  pose proof (rinv_reserve H c d own m owed I i s p Hi Hs max b buf oh n room g gc Ep) as Res.
  pose proof (rinv_plain H c d own m owed I i s p Hi Hs) as Plain. pose proof Hf as F.
  pose proof (d_shared Hh) as Sh. pose proof (d_head Hh) as Eh.
  rewrite Ep in E, Ho, Plain, F. cbn [rts_step] in E.
  assert (forall q' r'' k, thread_step w (moved s d) (Swap s max b buf (pc_pos oh) n room g) (c_ring d)
    = Some (q', r'', k) -> dsim w cap a0 tr' (after (own i) s q' r'' k d)) as Step.
  { intros q' r'' k Et. eapply dsim_thread; [exact D|exact Ho|done| |exact Et].
    by apply (d_fresh (Swap s max b buf (pc_pos oh) n room g)). }
  cbn [thread_step] in Step. rewrite Sh, Eq in Step. cbn [orb] in Step.
  destruct (decide _) as [Ev|Nv]; injection E as <- <- <-.
  - rewrite bool_decide_true in Step by done. specialize (Step _ _ _ eq_refl). set (r1 := set_side _ _ _).
    assert (dt_ring r1 = set_side s (set_head (u32 (pc_pos oh + n)) (side s (c_ring d))) (c_ring d)) as Er.
    { unfold r1. rewrite dt_rts_head by (by rewrite (ri_sync _ _ _ _ _ _ I)).
      by rewrite (ri_ring _ _ _ _ _ _ I). }
    rewrite <- Er in Step.
    assert (0 < n) as Hn.
    { eapply (dsim_range w cap a0 tr' _ (own i) (Copy s buf (pc_pos oh) n room 0 g) s g n Step); [|reflexivity].
      rewrite after_pcs. apply list_lookup_insert_eq. by apply lookup_lt_Some in Ho. }
    eapply world_of; [exact Step|]. by apply Res, Hn; [|apply Eg].
  - rewrite bool_decide_false in Step by done. specialize (Step _ _ _ eq_refl).
    eapply (world_of _ (ReadTail s max b buf (rts_head_w1 (side s (rc_ring c))) (x_moved (rc_aux s c))) (rc_ring c) 0).
    + rewrite <- (after_after (own i) s (ReadHead s max b buf) _ (c_ring d)).
      apply (dsim_thread w cap a0 tr' _ (own i) s (ReadHead s max b buf)); [exact Step| |done|done|].
      * rewrite after_pcs. apply list_lookup_insert_eq. by apply lookup_lt_Some in Ho.
      * cbn [thread_step]. rewrite after_ring, after_moved, decide_True, Z.add_0_r by done.
        by rewrite Eh, (ri_moved _ _ _ _ _ _ I), <- (ri_ring _ _ _ _ _ _ I).
    + apply Plain; [done|done|done|by left|by left|done|done|].
      split; [done|]. destruct (ri_words _ _ _ _ _ _ I s Hh) as [W _]. split; [exact W|]. split_and!; done || lia.
Qed.

Lemma world_copy buf old n room j g p' r' e : p = RCopy s buf old n room j g ->
  rts_step w (rc_aux s c) p (rc_ring c) = Some (p', r', e) -> world (rafter i s p' r' e c) tr.
Proof.
  intros Ep E. assert (forall n room buf, p <> Run (Finish s n room buf)) as Nf by (by rewrite Ep).
  pose proof (own_shadow H c d own m owed I i s p Hi Hs Nf) as Ho.
  pose proof (rinv_plain H c d own m owed I i s p Hi Hs) as Plain.
  pose proof (d_shared Hh) as Sh.
  rewrite Ep in E, Ho, Plain. cbn [rts_step] in E.
  assert (forall q' r'', thread_step w (moved s d) (Copy s buf old n room j g) (dt_ring (rc_ring c))
    = Some (q', r'', 0) -> dsim w cap a0 tr' (after (own i) s q' r'' 0 d)) as Step.
  { intros q' r'' Et. rewrite <- (ri_ring _ _ _ _ _ _ I) in Et. by eapply dsim_thread; [exact D|exact Ho|..]. }
  rewrite (ri_ring _ _ _ _ _ _ I) in Sh. cbn [thread_step] in Step. rewrite Sh in Step.
  destruct (j <? _)%nat.
  - cbn [slots dt_ring] in Step. change (slot_word w (dt_ring (rc_ring c)) old j) with (slot_word w (rc_ring c) old j) in Step.
    assert (forall p1 r1 q1, Some (p1, r1, Moved 0) = Some (p', r', e) -> rpc_side p1 = Some s ->
      ract s p1 = Some g -> q1 = shadow p1 -> (forall s', side s' r1 = side s' (rc_ring c)) ->
      flying q1 = Some (s, g, n) -> rlocal H (fun s => rc_aux s c) (rc_pcs c) (flies d) p1 ->
      dsim w cap a0 tr' (after (own i) s q1 (dt_ring r1) 0 d) -> world (rafter i s p' r' e c) tr) as Go.
    { intros p1 r1 q1 [= <- <- <-] H1 H2 -> H4 H5 H6 H7. eapply world_of; [exact H7|].
      apply Plain; [done|done| |by left|by right|done|done|done]. rewrite H2. simpl. by rewrite decide_True. }
    destruct (buf !! j) as [x|], (slots (rc_ring c) !! slot_word w (rc_ring c) old j) as [y|]; destruct s; try done.
    + apply (Go _ _ (Copy Prod buf old n room (Datatypes.S j) g) E); try done.
      by apply Step.
    + apply (Go _ _ (Copy Cons (<[j:=y]> buf) old n room (Datatypes.S j) g) E); try done.
      by apply Step.
  - injection E as <- <- <-. eapply (world_of _ _ (rc_ring c) 0); [apply Step; reflexivity|].
    by apply Plain; [..|left|right| | |].
Qed.

Lemma world_old buf old n room g p' r' e : p = ROld s buf old n room g ->
  rts_step w (rc_aux s c) p (rc_ring c) = Some (p', r', e) -> world (rafter i s p' r' e c) tr.
Proof.
  intros Ep E. assert (forall n room buf, p <> Run (Finish s n room buf)) as Nf by (by rewrite Ep).
  pose proof (own_shadow H c d own m owed I i s p Hi Hs Nf) as Ho.
  pose proof (rinv_plain H c d own m owed I i s p Hi Hs) as Plain. pose proof world_same as Same.
  rewrite Ep in E, Ho, Plain, Same. cbn [rts_step] in E. injection E as <- <- <-.
  destruct (ri_words _ _ _ _ _ _ I s Hh) as [_ W].
  apply Same; [done|]. apply Plain; [done|done|done|by left|by right|done|done|].
  split; [done|]. split; [exact W|lia].
Qed.

(** All active threads have reserved before the head. *)
Lemma active_before : nact s (before (x_moved (rc_aux s c))) (rc_pcs c) = nact s all_act (rc_pcs c).
Proof.
  apply nact_weaken. intros j q g Hj Ha. unfold before, all_act. apply Z.ltb_lt.
  destruct (ract_flying _ _ _ Ha) as (n & Hfl). pose proof (ract_side _ _ _ Ha) as Hq.
  assert (forall n room buf, q <> Run (Finish s n room buf)) as Nf by (by intros ??? ->).
  pose proof (own_shadow H c d own m owed I j s q Hj Hq Nf) as Ho.
  pose proof (dsim_range w cap a0 tr' d _ _ s g n D Ho Hfl) as R. rewrite (ri_moved _ _ _ _ _ _ I) in R. lia.
Qed.

Lemma world_now buf old n room g ot gt p' r' e : p = RNow s buf old n room g ot gt ->
  rts_step w (rc_aux s c) p (rc_ring c) = Some (p', r', e) -> world (rafter i s p' r' e c) tr.
Proof.
  intros Ep E. assert (forall n room buf, p <> Run (Finish s n room buf)) as Nf by (by rewrite Ep).
  pose proof (own_shadow H c d own m owed I i s p Hi Hs Nf) as Ho.
  pose proof (ri_local _ _ _ _ _ _ I i p Hi) as L.
  pose proof (rinv_plain H c d own m owed I i s p Hi Hs) as Plain. pose proof world_same as Same.
  rewrite Ep in E, Ho, Plain, Same, L. cbn [rts_step] in E. injection E as <- <- <-.
  destruct (ri_words _ _ _ _ _ _ I s Hh) as [W _]. destruct L as (_ & L1 & L2).
  pose proof (d_head Hh) as Eh. pose proof (ri_count _ _ _ _ _ _ I s Hh) as Cn.
  pose proof (dsim_range w cap a0 tr' d _ _ s g n D Ho eq_refl) as R. rewrite (ri_moved _ _ _ _ _ _ I) in R.
  apply Same; [done|]. apply Plain; [done|done|done|by left|by right|done|done|].
  split; [done|]. split; [done|]. split; [done|]. split; [split; [exact W|split_and!; done || lia]|].
  split.
  { change (pc_pos (rts_head (side s (rc_ring c)))) with (rts_head_w1 (side s (rc_ring c))). rewrite <- Eh.
    destruct D as (tl & a & S & _). rewrite (sim_head _ _ _ _ S). by rewrite (ri_moved _ _ _ _ _ _ I). }
  split; [lia|]. split.
  - intros ->. rewrite active_before. lia.
  - intros g' n' (o & q & Hq & Hfl). left.
    pose proof (dsim_range w cap a0 tr' d o q s g' n' D Hq Hfl) as R'. rewrite (ri_moved _ _ _ _ _ _ I) in R'. lia.
Qed.

Lemma world_store buf old n room g ot h gt gc gh p' r' e : p = RStore s buf old n room g ot h gt gc gh ->
  rts_step w (rc_aux s c) p (rc_ring c) = Some (p', r', e) -> world (rafter i s p' r' e c) tr.
Proof.
  intros Ep E. assert (forall n room buf, p <> Run (Finish s n room buf)) as Nf by (by rewrite Ep).
  pose proof (own_shadow H c d own m owed I i s p Hi Hs Nf) as Ho.
  pose proof E as E'. rewrite Ep in E'. cbn [rts_step] in E'. destruct (decide _) as [Ev|Nv].
  - pose proof (rinv_complete_last H c d own m owed I i s p Hi Hs _ _ _ _ _ _ _ _ _ _ Ep Ev Hf
      w cap a0 tr tr') as Last.
    pose proof (rinv_complete_later H c d own m owed I i s p Hi Hs _ _ _ _ _ _ _ _ _ _ Ep Ev Hf) as Later.
    cbn [pc_cnt pc_pos] in *. destruct (u32 (pc_cnt ot + 1) =? pc_cnt h); injection E' as <- <- <-.
    + destruct (Last eq_refl D Hd) as (tr1 & d' & owed' & I' & D' & Hd' & Hlen).
      exists d', own, m, owed', tr1. split; [exact I'|]. split; [done|]. split; [done|]. congruence.
    + exists d, own, m, owed, tr'. split; [by apply Later|done].
  - injection E' as <- <- <-. pose proof (rinv_plain H c d own m owed I i s p Hi Hs) as Plain.
    pose proof world_same as Same. rewrite Ep in Plain, Same, Ho.
    destruct (ri_words _ _ _ _ _ _ I s Hh) as [_ W].
    apply Same; [done|]. apply Plain; [done|done|done|by left|by right|done|done|].
    split; [done|]. split; [exact W|lia].
Qed.

Lemma world_step p' r' e : rts_step w (rc_aux s c) p (rc_ring c) = Some (p', r', e) ->
  world (rafter i s p' r' e c) tr.
Proof.
  intros E. pose proof (ri_local _ _ _ _ _ _ I i p Hi) as L.
  pose proof world_head as W1. pose proof world_wait as W2. pose proof world_tail as W3.
  pose proof world_swap as W4. pose proof world_copy as W5. pose proof world_old as W6.
  pose proof world_now as W7. pose proof world_store as W8.
  destruct p; simpl in Hs; try (injection Hs as <-; by eauto).
  by destruct (L s Hs Hh) as (? & ? & ? & ->).
Qed.
End world_step.

(** *** Calls and returns *)

(** Only the threads of a single-thread side matter to a call on it. *)
Lemma single_dt c d own m owed s : rinv H c d own m owed -> single s (c_ring d) = true ->
  H s = false /\ sync_type (side s (rc_ring c)) = RTE_RING_SYNC_ST.
Proof.
  intros I Es. rewrite (ri_ring _ _ _ _ _ _ I) in Es. unfold single in Es. rewrite side_dt in Es.
  rewrite <- (ri_sync _ _ _ _ _ _ I). unfold dt_side, rts in *.
  pose proof (ri_types _ _ _ _ _ _ I s) as T. rewrite !elem_of_cons in T.
  destruct (sync_type (side s (rc_ring c)) =? RTE_RING_SYNC_MT_RTS) eqn:Er; [done|].
  split; [done|]. destruct T as [T|[T|[T|T]]]; try done.
  - rewrite T in Es. done.
  - rewrite T in Er. done.
  - by apply not_elem_of_nil in T.
Qed.

Lemma world_call_ok c d own m owed s n buf : rinv H c d own m owed -> rcall_ok w c s n buf ->
  call_ok w d s n buf.
Proof.
  intros I (Hn & Hb & Hst). pose proof (ri_ops _ _ _ _ _ _ I) as O.
  split; [done|]. split; [done|]. intros Es.
  destruct (single_dt c d own m owed s I Es) as [Hh Est].
  specialize (Hst Est). apply Forall_lookup_2. intros o q Ho Hside.
  destruct (running_dec (rc_pcs c) own o) as [(j & p & Hj & Np & E)|N].
  - destruct (oo_run _ _ _ _ _ _ O j p Hj Np) as (_ & _ & q0 & Hq0 & Sh).
    assert (q0 = q) as -> by congruence. destruct Sh as [->|(s' & ? & ? & ? & Hs' & -> & (? & ? & ? & -> & _))].
    + rewrite shadow_side in Hside. by eapply (Forall_lookup_1 _ _ j p Hst).
    + simpl in Hside. congruence.
  - pose proof (oo_free _ _ _ _ _ _ O o q Ho N) as F. destruct (owed !! o); [|by subst].
    destruct F as (s' & ? & ? & ? & Hs' & (? & ? & ? & -> & _) & _). simpl in Hside. congruence.
Qed.

Lemma world_call c tr i s n b buf : (calls tr < K)%nat -> world c tr ->
  rc_pcs c !! i = Some (Run Idle) -> rcall_ok w c s n buf ->
  world (rafter i s (rts_begin (rc_ring c) s n b buf) (rc_ring c) (Moved 0) c)
    (tr ++ [EvCall i s n b buf]).
Proof.
  intros HK (d & own & m & owed & tr' & I & D & Hd & HL) Hi (Hn & Hb & Hst).
  pose proof (delayed_calls _ _ _ _ _ Hd) as Em. subst m.
  pose proof (ri_ops _ _ _ _ _ _ I) as O. set (m := calls tr) in *.
  destruct (lookup_lt_is_Some_2 (c_pcs d) m ltac:(lia)) as [q Hq].
  assert (forall j p, rc_pcs c !! j = Some p -> p <> Run Idle -> own j <> m) as Fr.
  { intros j p Hj Np E. destruct (oo_run _ _ _ _ _ _ O j p Hj Np) as [? _]. lia. }
  pose proof (oo_free _ _ _ _ _ _ O m q Hq Fr) as F.
  destruct (owed !! m) as [e|] eqn:Eo; [apply (oo_owed _ _ _ _ _ _ O) in Eo; lia|]. subst q.
  pose proof (world_call_ok c d own (calls tr) owed s n buf I (conj Hn (conj Hb Hst))) as Hok.
  set (p' := rts_begin (rc_ring c) s n b buf).
  assert (shadow p' = ReadHead s n b buf /\ p' <> Run Idle /\ rpc_side p' = Some s
    /\ (forall s', ract s' p' = None) /\ (H s = true -> p' = RHead s n b buf)) as (P1 & P2 & P3 & P4 & P5).
  { unfold p', rts_begin. rewrite (ri_sync _ _ _ _ _ _ I). by destruct (H s). }
  pose proof (dsim_call w cap a0 tr' d m s n b buf D Hq Hok) as D'.
  exists (after m s (ReadHead s n b buf) (c_ring d) 0 d), (set_own i m own), (Datatypes.S m), owed, (tr' ++ [EvCall m s n b buf]).
  split; [|split; [done|split; [by apply delayed_call|by rewrite after_pcs, length_insert]]].
  assert (forall s' g0 n0, flies (after m s (ReadHead s n b buf) (c_ring d) 0 d) s' g0 n0 -> flies d s' g0 n0) as Hf.
  { intros s' g0 n0 Hf. by destruct (after_flies_old _ _ _ _ _ _ _ _ _ _ Hq Hf). }
  assert (forall s', rc_aux s' (rafter i s p' (rc_ring c) (Moved 0) c) = rc_aux s' c) as Ex.
  { intros s'. rewrite rafter_aux, act_nothing. by destruct (decide _). }
  assert (forall s' f, nact s' f (<[i := p']> (rc_pcs c)) = nact s' f (rc_pcs c)) as En.
  { intros s' f. apply (nact_same s' f _ i _ p' Hi). unfold acts. by rewrite P4. }
  apply (rinv_step H c d own m owed i s (Run Idle)); try done; try (by left); try (by right).
  - rewrite after_ring. apply (ri_ring _ _ _ _ _ _ I).
  - intros s'. rewrite after_moved, Ex, (ri_moved _ _ _ _ _ _ I). destruct (decide _); lia.
  - intros Hh. rewrite rafter_pcs, En, Ex. split; [by apply (ri_words _ _ _ _ _ _ I)|].
    split; [by apply (ri_words _ _ _ _ _ _ I)|]. split; [by apply (ri_count _ _ _ _ _ _ I)|].
    split; [by apply (ri_quiet _ _ _ _ _ _ I)|]. left. split; [done|]. split; [intros f; by rewrite En|].
    intros g0 n0. apply Hf.
  - intros s' g0 n0 _. apply Hf.
  - destruct (H s) eqn:Hh; [by rewrite P5|]. unfold p', rts_begin. rewrite (ri_sync _ _ _ _ _ _ I), Hh.
    intros s' E Hh'. simpl in E. congruence.
  - rewrite rafter_pcs, after_pcs. eapply ops_begin; [apply I|done|done|left; by rewrite P1|lia].
Qed.

Lemma world_return c tr i s n room buf : world c tr ->
  rc_pcs c !! i = Some (Run (Finish s n room buf)) ->
  world (rafter i s (Run Idle) (rc_ring c) (Moved 0) c) (tr ++ [EvReturn i s n room buf]).
Proof.
  intros (d & own & m & owed & tr' & I & D & Hd & HL) Hi.
  pose proof (ri_ops _ _ _ _ _ _ I) as O.
  destruct (oo_run _ _ _ _ _ _ O i _ Hi ltac:(done)) as (Hm & Hn & q & Hq & Sh).
  assert (forall s', rc_aux s' (rafter i s (Run Idle) (rc_ring c) (Moved 0) c) = rc_aux s' c) as Ex.
  { intros s'. rewrite rafter_aux, act_nothing. by destruct (decide _). }
  assert (forall s' f, nact s' f (<[i := Run Idle]> (rc_pcs c)) = nact s' f (rc_pcs c)) as En.
  { intros s' f. by apply (nact_same s' f _ i _ (Run Idle) Hi). }
  assert (forall d' owed', c_ring d' = c_ring d -> (forall s', moved s' d' = moved s' d) ->
    (forall s' g0 n0, flies d' s' g0 n0 -> flies d s' g0 n0) ->
    ops_ok H (<[i := Run Idle]> (rc_pcs c)) (c_pcs d') own m owed' ->
    rinv H (rafter i s (Run Idle) (rc_ring c) (Moved 0) c) d' own m owed') as Inv.
  { intros d' owed' Er Emv Hf Ho.
    apply (rinv_step H c d own m owed i s _ (Run Idle) _ _ _ _ _ _ I Hi); try done; try (by left); try (by right).
    - rewrite Er. apply (ri_ring _ _ _ _ _ _ I).
    - intros s'. by rewrite Emv, Ex, (ri_moved _ _ _ _ _ _ I).
    - intros Hh. rewrite rafter_pcs, En, Ex. split; [by apply (ri_words _ _ _ _ _ _ I)|].
      split; [by apply (ri_words _ _ _ _ _ _ I)|]. split; [by apply (ri_count _ _ _ _ _ _ I)|].
      split; [by apply (ri_quiet _ _ _ _ _ _ I)|]. left. split; [done|]. split; [intros f; by rewrite En|].
      intros g0 n0. apply Hf.
    - intros s' g0 n0 _. apply Hf.
    - by rewrite rafter_pcs. }
  destruct Sh as [->|(s' & n' & room' & buf' & Hs & E & W)].
  - simpl in Hq. pose proof (dsim_return w cap a0 tr' d (own i) s n room buf D Hq) as D'.
    exists (after (own i) s Idle (c_ring d) 0 d), own, m, owed, (tr' ++ [EvReturn (own i) s n room buf]).
    split; [|split; [done|split; [by apply delayed_return|by rewrite after_pcs, length_insert]]].
    apply Inv.
    + apply after_ring.
    + intros s'. rewrite after_moved. destruct (decide _); lia.
    + intros s' g0 n0 Hf. by destruct (after_flies_old _ _ _ _ _ _ _ _ _ _ Hq Hf).
    + rewrite after_pcs. eapply ops_end; [exact O|exact Hi|done| |done]. by rewrite Hn.
  - injection E as -> -> -> ->.
    exists d, own, m, (<[own i := EvReturn (own i) s' n' room' buf']> owed), tr'.
    split; [|split; [done|split; [by apply delayed_owe|done]]].
    apply Inv; try done. rewrite <- (list_insert_id (c_pcs d) (own i) q) by done.
    eapply ops_end; [exact O|exact Hi|done| |].
    + rewrite lookup_insert_eq. by exists s', n', room', buf'.
    + intros o No. by rewrite lookup_insert_ne.
Qed.
End world.

(** ** Whole runs *)

Lemma rts_step_htd w x p r p' r' e s : rts_step w x p r = Some (p', r', e) ->
  htd_max (side s r') = htd_max (side s r) /\ capacity r' = capacity r.
Proof.
  assert (forall q h q' r1 k, thread_step w h q r = Some (q', r1, k) ->
    htd_max (side s r1) = htd_max (side s r) /\ capacity r1 = capacity r) as T.
  { intros q h q' r1 k E. split; [|by eapply thread_step_capacity].
    destruct q; cbn [thread_step] in E; try done;
      repeat (case_match || (destruct (_ !! _); cbn [mbind option_bind] in E)); simplify_eq;
      first [done | by destruct s | by match goal with s1 : ring_side |- _ => destruct s1, s end]. }
  destruct p; cbn [rts_step]; intros E.
  - destruct (thread_step w (x_moved x) p r) as [[[q' r1] k]|] eqn:Et; [|done].
    cbn [mbind option_bind] in E. simplify_eq. by eapply T.
  - by simplify_eq.
  - case_match; by simplify_eq.
  - case_match; by simplify_eq.
  - case_match; simplify_eq; [|done]. by destruct s0, s.
  - destruct (j <? _)%nat; [|by simplify_eq].
    destruct s0; repeat (destruct (_ !! _); cbn [mbind option_bind] in E); simplify_eq; by destruct s.
  - by simplify_eq.
  - by simplify_eq.
  - case_match; simplify_eq; [|done]. by destruct s0, s.
Qed.

Section whole.
Context (w : nat) (r : rte_ring) (I : ring_inv w r) (D : rts_types r).
Context (F : forall s, fits 32 (ht_w0 (side s r))).

Lemma dt_quiet s : rts s r = true -> rts_quiet (side s r).
Proof.
  intros E. unfold rts in E. apply Z.eqb_eq in E. destruct (inv_quiet _ _ I s) as [[T _]|[_ Q]]; [|done].
  rewrite E in T. rewrite !elem_of_cons in T. destruct T as [|[|[|T]]]; [done..|by apply not_elem_of_nil in T].
Qed.

Lemma dt_inv : ring_inv w (dt_ring r).
Proof.
  pose proof I as [IG IC IQ IF IE]. split; [by destruct IG|done| | |].
  - intros s. left. pose proof (dt_types r s D) as T. split.
    + rewrite !elem_of_cons in T |- *. destruct T as [|[|T]]; [by left|by right; left|by apply not_elem_of_nil in T].
    + rewrite side_dt. unfold default_quiet. destruct (rts s r) eqn:E.
      * rewrite rts_side_dt by done. destruct (dt_quiet s E) as [Q _]. by injection Q.
      * rewrite other_side_dt by done. unfold rts in E. apply Z.eqb_neq in E.
        by destruct (IQ s) as [[_ Q]|[Q _]].
  - intros s. rewrite tail_dt. apply IF.
  - by rewrite entries_dt.
Qed.

Lemma queue_dt r1 : ring_queue w (dt_ring r1) = ring_queue w r1.
Proof.
  unfold ring_queue, ring_words. rewrite entries_dt. pose proof (tail_dt Cons r1) as Ec.
  change (tail (cons (dt_ring r1)) = tail (cons r1)) in Ec. by rewrite Ec.
Qed.

Definition rts_sides (s : ring_side) : bool := rts s r.

Lemma world_start K k : Z.of_nat k < 2 ^ 32 ->
  world w (capacity r) (mk_aconf (q_items (ring_queue w r)) (replicate K AIdle)) rts_sides K (rstart r k) [].
Proof.
  intros Hk. pose proof (tail_dt Cons r) as Ec. change (tail (cons (dt_ring r)) = tail (cons r)) in Ec.
  assert (forall i p, rc_pcs (rstart r k) !! i = Some p -> p = Run Idle) as Idl.
  { intros i p Hi. by apply lookup_replicate in Hi as [-> _]. }
  assert (forall o q, c_pcs (start (dt_ring r) K) !! o = Some q -> q = Idle) as Idd.
  { intros o q Ho. by eapply start_idle. }
  assert (forall s f, nact s f (rc_pcs (rstart r k)) = 0%nat) as Nz.
  { intros s f. apply nact_zero. intros i p Hi. by rewrite (Idl i p Hi). }
  exists (start (dt_ring r) K), (fun _ => 0%nat), 0%nat, ∅, []. split; [|split; [|split; [constructor|by simpl; rewrite length_replicate]]].
  - split; try done.
    + intros s. destruct s; cbn [moved start c_prod c_cons]; by rewrite ?entries_dt, Ec.
    + intros s Hs. destruct (dt_quiet s Hs) as [Q _]. injection Q as Q _.
      pose proof (wrap_small 32 _ (F s)) as W. destruct s; simpl in *; split; congruence.
    + intros s Hs. rewrite Nz. destruct s; simpl; lia.
    + intros s Hs _. destruct (dt_quiet s Hs) as [Q _]. by injection Q.
    + intros i p Hi. by rewrite (Idl i p Hi).
    + split.
      * intros i p Hi Np. by rewrite (Idl i p Hi) in Np.
      * intros i j p q Hi Hj Np. by rewrite (Idl i p Hi) in Np.
      * intros o q Ho _. rewrite lookup_empty. by eapply Idd.
      * intros o e He. by rewrite lookup_empty in He.
    + simpl. by rewrite length_replicate.
  - exists (start_tails (dt_ring r)), (mk_aconf (q_items (ring_queue w r)) (replicate K AIdle)).
    split; [|split; [by apply followed_start|done]]. rewrite <- queue_dt. apply (sim_start w (dt_ring r) dt_inv).
    intros s. by apply dt_types.
Qed.

(** Every step is followed, with the calls so far. *)
Lemma world_run k tr c K : rrun w (rstart r k) tr c -> Z.of_nat k < 2 ^ 32 -> (calls tr <= K)%nat ->
  world w (capacity r) (mk_aconf (q_items (ring_queue w r)) (replicate K AIdle)) rts_sides K c tr
  /\ forall s, htd_max (side s (rc_ring c)) = htd_max (side s r).
Proof.
  intros R Hk. induction R as [|tr c1 l c2 _ IH Hfr St]; intros HK.
  { split; [by apply world_start|done]. }
  assert (calls tr <= K)%nat as HK1.
  { destruct l; simpl in HK; [rewrite calls_app in HK; lia|by rewrite app_nil_r in HK]. }
  destruct (IH HK1) as [W Hh].
  destruct St as [i s n b buf Hi Hok|i s p p' r' e Hi Hs Ht|i s n room buf Hi]; simpl option_list in *.
  - split; [|intros s'; by rewrite rafter_ring]. rewrite calls_app in HK. simpl in HK.
    apply world_call; [lia|done..].
  - split; [|intros s'; rewrite rafter_ring; destruct (rts_step_htd _ _ _ _ _ _ _ s' Ht) as [-> _]; apply Hh].
    rewrite app_nil_r. destruct W as (d & own & m & owed & tr' & J & Dd & Hd & HL).
    assert (rpc_fresh c1 p = true) as Hp by (by eapply Forall_lookup_1 in Hfr).
    destruct (rts_sides s) eqn:Hside.
    + by eapply (world_step w _ _ rts_sides K c1 tr d own m owed tr' J Dd Hd HL i s p Hi Hs Hside Hp).
    + by eapply (world_other w _ _ rts_sides K c1 tr d own m owed tr' J Dd Hd HL i s p Hi Hs).
  - split; [|intros s'; by rewrite rafter_ring]. by apply world_return.
Qed.
End whole.

(** ** At rest *)

Lemma no_active H c d own m owed s : rinv H c d own m owed -> H s = true ->
  (forall i p, rc_pcs c !! i = Some p -> ract s p = None) ->
  head (side s (c_ring d)) = tail (side s (c_ring d))
  /\ rts_head (side s (rc_ring c)) = rts_tail (side s (rc_ring c)).
Proof.
  intros I Hh Hno. assert (nact s all_act (rc_pcs c) = 0%nat) as Z0.
  { apply nact_zero. intros i p Hi. unfold acts. by rewrite (Hno i p Hi). }
  pose proof (ri_quiet _ _ _ _ _ _ I s Hh Z0) as Q. pose proof (ri_count _ _ _ _ _ _ I s Hh) as Cn.
  destruct (ri_words _ _ _ _ _ _ I s Hh) as [W0 W1]. rewrite Z0 in Cn. split.
  - rewrite (ri_ring _ _ _ _ _ _ I), side_dt, rts_side_dt; [done|]. by rewrite (ri_sync _ _ _ _ _ _ I).
  - unfold rts_head, rts_tail. f_equal; [|done]. rewrite W0, W1. f_equal. lia.
Qed.

(** A return is owed only while a thread is active on its side. *)
Lemma owed_active w cap a0 H c d own m owed tr o s n room buf : rinv H c d own m owed ->
  dsim w cap a0 tr d -> owed !! o = Some (EvReturn o s n room buf) ->
  H s = true /\ exists i p g, rc_pcs c !! i = Some p /\ ract s p = Some g.
Proof.
  intros I D Ho. destruct (rinv_owes _ _ _ _ _ _ I o _ Ho) as (q & Hq & s' & n' & room' & buf' & Hs & (old & r0 & g & -> & _) & E).
  injection E as <- _ _ _. split; [done|].
  destruct (decide (Exists (fun p => is_Some (ract s p)) (rc_pcs c))) as [A|N].
  - apply Exists_exists in A as (p & Hp & g' & Hg). apply list_elem_of_lookup in Hp as [i Hi]. eauto.
  - destruct (no_active H c d own m owed s I Hs) as [E _].
    + intros i p Hi. apply eq_None_not_Some. intros A. apply N. apply Exists_exists. exists p.
      split; [by eapply list_elem_of_lookup_2|done].
    + exfalso. eapply (dsim_settled w cap a0 tr d s D E g n'). by eexists _, _.
Qed.

Section rest.
Context (w : nat) (cap : Z) (a0 : aconf) (H : ring_side -> bool) (c : rconf) (d : conf).
Context (own : nat -> nat) (m : nat) (owed : gmap nat event) (tr : list event).
Context (I : rinv H c d own m owed) (D : dsim w cap a0 tr d).
Context (R : Forall (fun p => p = Run Idle) (rc_pcs c)).

Lemma rest_inactive s i p : rc_pcs c !! i = Some p -> ract s p = None.
Proof. intros Hi. by rewrite (Forall_lookup_1 _ _ i p R Hi). Qed.

Lemma rest_owed : owed = ∅.
Proof.
  apply map_eq. intros o. rewrite lookup_empty. destruct (owed !! o) as [e|] eqn:Ho; [|done].
  destruct (rinv_owes _ _ _ _ _ _ I o e Ho) as (_ & _ & s & n & room & buf & _ & _ & ->).
  destruct (owed_active _ _ _ _ _ _ _ _ _ _ _ _ _ _ _ I D Ho) as (_ & i & p & g & Hi & Hg).
  by rewrite (rest_inactive s i p Hi) in Hg.
Qed.

Lemma rest_idle : Forall (fun p => p = Idle) (c_pcs d).
Proof.
  apply Forall_lookup_2. intros o q Ho.
  pose proof (oo_free _ _ _ _ _ _ (ri_ops _ _ _ _ _ _ I) o q Ho) as F. rewrite rest_owed, lookup_empty in F.
  apply F. intros i p Hi Np. by rewrite (Forall_lookup_1 _ _ i p R Hi) in Np.
Qed.

Lemma rest_ring : (forall s, H s = true -> 0 <= htd_max (side s (rc_ring c))) ->
  ring_inv w (c_ring d) -> ring_inv w (rc_ring c).
Proof.
  intros Hm [IG IC IQ IF IE]. rewrite (ri_ring _ _ _ _ _ _ I) in *.
  split; [by destruct IG|done| | |by rewrite <- entries_dt].
  - intros s. pose proof (ri_types _ _ _ _ _ _ I s) as T. pose proof (ri_sync _ _ _ _ _ _ I s) as Es.
    destruct (H s) eqn:Hs.
    + right. unfold rts in Es. apply Z.eqb_eq in Es. split; [done|]. split; [|by apply Hm].
      by apply (no_active H c d own m owed s I Hs), rest_inactive.
    + left. specialize (IQ s). rewrite side_dt, other_side_dt in IQ by done.
      unfold rts in Es. apply Z.eqb_neq in Es. destruct IQ as [Q|[Q _]]; [exact Q|done].
  - intros s. rewrite <- tail_dt. apply IF.
Qed.
End rest.

(** A dequeue that waits to publish has its elements. *)
Lemma dequeue_done w tl d a o buf old n room g : sim w tl d a ->
  c_pcs d !! o = Some (Wait Cons buf old n room g) ->
  a_pcs a !! o = Some (ADone Cons n (u32 (room - n)) buf).
Proof.
  intros S Ho. destruct (thread_ok w tl d a S o _ Ho) as (x & Hx & _ & _ & _ & _ & _ & _ & res & -> & Hl & Hr & _).
  rewrite Hx. do 2 f_equal. symmetry. apply list_eq. intros k.
  destruct (decide (k < Z.to_nat n * w)%nat); apply Hr; lia.
Qed.

(** C4. Rings with relaxed tails: whatever the interleaving of the shared accesses
    of any number of threads, the calls they make, with the results that the
    threads see, are those of a bounded queue on which each call takes effect at
    once, some of them ending later there.  A call may return before the queue
    knows: an enqueue whose elements are not visible yet, or a dequeue that has had
    its effect; this happens only while another thread is inside an operation on
    the same side, and the call then counts as under way until its elements are
    visible or their places free.  A call that no other overlaps does exactly what
    the queue has room or elements for; a call that others overlap never has an
    effect on more than there is, but may count on less (an enqueue may store fewer
    elements than fit, or be refused, a dequeue may take fewer than there are).
    When all threads are outside of their calls nothing is owed, the ring is well
    formed and holds exactly the elements of that queue. *)
Theorem ring_rts_linearizable (w k : nat) (r : rte_ring) (tr : list event) (c : rconf) :
  ring_inv w r -> rts_types r -> (forall s, fits 32 (ht_w0 (side s r))) -> Z.of_nat k < 2 ^ 32 ->
  rrun w (rstart r k) tr c ->
  exists tr' own owed a o, delayed tr tr' own (calls tr) owed
    /\ arun (capacity r) w (mk_aconf (q_items (ring_queue w r)) (replicate (calls tr) AIdle)) tr' a o
    /\ a_count a <= capacity r
    /\ (forall o e, owed !! o = Some e -> exists s n room buf, e = EvReturn o s n room buf
         /\ rts s r = true /\ (exists i p g, rc_pcs c !! i = Some p /\ ract s p = Some g)
         /\ (s = Cons -> a_pcs a !! o = Some (ADone Cons n room buf)))
    /\ (Forall (fun p => p = Run Idle) (rc_pcs c) ->
         owed = ∅ /\ ring_inv w (rc_ring c) /\ q_items (ring_queue w (rc_ring c)) = a_q a).
Proof.
  intros I D F Hk R.
  destruct (world_run w r I D F k tr c (calls tr) R Hk (le_n _)) as [(d & own & m & owed & tr' & J & Dd & Hd & _) Hhtd].
  pose proof (delayed_calls _ _ _ _ _ Hd) as ->.
  pose proof Dd as (tl & a & S & (ov & A & _) & Ecap).
  exists tr', own, owed, a, ov. split; [exact Hd|]. split; [exact A|]. split; [|split].
  - pose proof (marks_room w tl d a S). pose proof (sim_count _ _ _ _ S). lia.
  - intros o e Ho. destruct (rinv_owes _ _ _ _ _ _ J o e Ho) as (q & Hq & s & n & room & buf & _ & W & ->).
    exists s, n, room, buf. split; [done|].
    destruct (owed_active _ _ _ _ _ _ _ _ _ _ _ _ _ _ _ J Dd Ho) as (Hs & Act).
    split; [exact Hs|]. split; [exact Act|]. intros ->. destruct W as (old & r0 & g & -> & ->).
    by eapply dequeue_done.
  - intros Rest. split; [by eapply rest_owed|].
    pose proof (rest_idle _ _ _ _ _ _ _ _ _ _ J Dd Rest) as Ri.
    pose proof (rest_inv w tl d a S Ri) as Ir. split.
    + eapply rest_ring; [exact J|exact Rest| |exact Ir]. intros s Hs. rewrite Hhtd.
      by apply (dt_quiet w r I s Hs).
    + rewrite <- (rest_items w tl d a S Ri), (ri_ring _ _ _ _ _ _ J). by rewrite queue_dt.
Qed.

(** A ring with one element.  Threads 0 and 1 reserve one place each; thread 1
    returns first, and the dequeue of two elements by thread 2 finds only one
    until thread 0 has moved the tail for both. *)
Definition rts_ring : rte_ring :=
  mk_ring 0 4 3 3 (mk_headtail 5 0 RTE_RING_SYNC_MT_RTS 3 5 0)
    (mk_headtail (2 ^ 32 - 1) (2 ^ 32 - 1) RTE_RING_SYNC_MT_RTS 3 (2 ^ 32 - 1) (2 ^ 32 - 1))
    [0; 0; 0; 10].

Lemma rts_ring_inv : ring_inv 1 rts_ring.
Proof.
  split.
  - split; simpl; first [done|lia|exists 2%nat; split; [lia|done]].
  - done.
  - intros []; right; (split; [done|split; [done|simpl; lia]]).
  - by intros [].
  - done.
Qed.

Lemma rts_ring_types : rts_types rts_ring.
Proof. intros []; by right; right; left. Qed.

Definition rts_late : list act :=
  let steps i n := replicate n (DoStep i) in
  rev ([DoCall 0 Prod 1 RTE_RING_QUEUE_FIXED [20]] ++ steps 0%nat 4%nat ++
       [DoCall 1 Prod 1 RTE_RING_QUEUE_FIXED [30]] ++ steps 1%nat 9%nat ++
       [DoReturn 1; DoCall 2 Cons 2 RTE_RING_QUEUE_VARIABLE [0; 0]] ++ steps 2%nat 9%nat ++
       [DoReturn 2] ++ steps 0%nat 5%nat ++
       [DoReturn 0; DoCall 2 Cons 2 RTE_RING_QUEUE_FIXED [0; 0]] ++ steps 2%nat 10%nat ++ [DoReturn 2]).

Definition rts_late_end : list event * rconf :=
  default ([], rstart rts_ring 3) (rexec 1 (rstart rts_ring 3) rts_late).

Lemma ring_rts_linearizable_witness :
  rrun 1 (rstart rts_ring 3) rts_late_end.1 rts_late_end.2
  /\ rts_late_end.1 = [EvCall 0 Prod 1 RTE_RING_QUEUE_FIXED [20];
       EvCall 1 Prod 1 RTE_RING_QUEUE_FIXED [30]; EvReturn 1 Prod 1 0 [30];
       EvCall 2 Cons 2 RTE_RING_QUEUE_VARIABLE [0; 0]; EvReturn 2 Cons 1 0 [10; 0];
       EvReturn 0 Prod 1 1 [20];
       EvCall 2 Cons 2 RTE_RING_QUEUE_FIXED [0; 0]; EvReturn 2 Cons 2 0 [20; 30]]
  /\ exists tr' own a o, delayed rts_late_end.1 tr' own 4 ∅
    /\ arun 3 1 (mk_aconf [[10]] (replicate 4 AIdle)) tr' a o /\ a_q a = [].
Proof.
  assert (rrun 1 (rstart rts_ring 3) rts_late_end.1 rts_late_end.2) as R.
  { apply (rexec_run _ _ rts_late). vm_compute. reflexivity. }
  split; [exact R|]. split; [vm_compute; reflexivity|].
  destruct (ring_rts_linearizable 1 3 rts_ring rts_late_end.1 rts_late_end.2)
    as (tr' & own & owed & a & o & Dl & A & _ & _ & F).
  - apply rts_ring_inv.
  - apply rts_ring_types.
  - by intros [].
  - lia.
  - exact R.
  - destruct F as (E & _ & Eq); [vm_compute; repeat constructor|].
    exists tr', own, a, o. split; [rewrite <- E; exact Dl|]. split; [exact A|].
    rewrite <- Eq. vm_compute. reflexivity.
Defined.

(** No thread waits for another to publish: on a side with this protocol a thread
    inside a call can always do its next step, or return. *)
Theorem rts_threads_go (w k : nat) (r : rte_ring) (tr : list event) (c : rconf)
  (i : nat) (p : rpc) (s : ring_side) :
  ring_inv w r -> rts_types r -> (forall s, fits 32 (ht_w0 (side s r))) -> Z.of_nat k < 2 ^ 32 ->
  rrun w (rstart r k) tr c -> rts s r = true ->
  rc_pcs c !! i = Some p -> rpc_side p = Some s ->
  (exists n room buf, p = Run (Finish s n room buf))
  \/ exists p' r' e, rts_step w (rc_aux s c) p (rc_ring c) = Some (p', r', e).
Proof.
  intros I D F Hk R Hh Hi Hs.
  destruct (world_run w r I D F k tr c (calls tr) R Hk (le_n _)) as [(d & own & m & owed & tr' & J & Dd & _) _].
  pose proof (ri_local _ _ _ _ _ _ J i p Hi) as L.
  destruct p; simpl in Hs; cbn [rts_step]; try (right; repeat case_match; by eauto).
  - left. destruct (L s Hs Hh) as (n & room & buf & ->). eauto.
  - right. injection Hs as ->.
    pose proof (own_shadow (rts_sides r) c d own m owed J i s _ Hi eq_refl ltac:(done)) as Ho.
    destruct Dd as (tl & a & S & _).
    destruct (copy_goes w tl d a (own i) s buf old n room j g S Ho) as (q & Hq & _ & G).
    simpl in Ho. rewrite Ho in Hq. injection Hq as <-.
    destruct G as [(? & ? & ? & ?)|(q' & r' & e & E)]; [done|].
    rewrite (ri_ring _ _ _ _ _ _ J) in E. cbn [thread_step slots dt_ring] in E.
    change (slot_word w (dt_ring (rc_ring c)) old j) with (slot_word w (rc_ring c) old j) in E.
    destruct (j <? _)%nat; [|eauto].
    destruct s, (buf !! j), (slots (rc_ring c) !! slot_word w (rc_ring c) old j); try done; eauto.
Qed.
