(* ===== verification/RingPeek.v ===== *)
(** * The two-phase operations of a ring ([include/rte_ring_peek.h],
    [include/rte_ring_peek_elem_pvt.h], [include/rte_ring_peek_zc.h]).

    A [start] reserves elements on a side and a [finish] publishes some of them
    or gives them all back; between the two the side is reserved to the caller.
    The zero-copy variant hands out pointers into the slots instead of copying:
    they are modelled as offsets, in words, into the memory that follows the
    ring structure.  Assertions are disabled in this build
    ([RTE_ENABLE_ASSERT] is not defined), so that the unsupported
    synchronisation types fall through. *)
From stdpp Require Import prelude list numbers.
From S2P Require Import Prelude RingCore RingCopy RingHeadTail RingElem RingSpec.
Open Scope Z_scope.

(** ** Operations *)

(** The result is [num] and [*tail]. *)
Definition __rte_ring_st_get_tail (ht : ring_side) (num : Z) : M rte_ring (Z * Z) :=
  r ← get ;
  let h := head (side ht r) in
  let t := tail (side ht r) in
  let n := u32 (h - t) in
  mret (if n >=? num then num else 0, t).

Definition __rte_ring_st_set_head_tail (ht : ring_side) (tail num enqueue : Z)
  : M rte_ring unit :=
  let pos := u32 (tail + num) in
  store_side ht (set_head pos) ;;
  store_side ht (set_tail pos).

Definition __rte_ring_hts_get_tail (ht : ring_side) (num : Z) : M rte_ring (Z * Z) :=
  r ← get ;
  let p := hts_ht (side ht r) in
  let n := u32 (hp_head p - hp_tail p) in
  mret (if n >=? num then num else 0, hp_tail p).

Definition __rte_ring_hts_set_head_tail (ht : ring_side) (tail num enqueue : Z)
  : M rte_ring unit :=
  let pos := u32 (tail + num) in
  store_side ht (set_hts_ht (mk_hts_pos pos pos)).

Definition __rte_ring_do_enqueue_start (n : Z) (behavior : rte_ring_queue_behavior)
  (free_space : bool) : M rte_ring (Z * option Z) :=
  r ← get ;
  let t := sync_type (prod r) in
  '(n, free) ←
    (if t =? RTE_RING_SYNC_ST then
       '(n, head, next, free) ←
         Generic.__rte_ring_move_prod_head RTE_RING_SYNC_ST n behavior ;
       mret (n, free)
     else if t =? RTE_RING_SYNC_MT_HTS then
       '(n, head, free) ← HTS.__rte_ring_hts_move_prod_head n behavior ;
       mret (n, free)
     else mret (0, 0)) ;
  mret (n, store_opt free_space (u32 (free - n))).

(** [head] is not initialised for the unsupported types. *)
Definition __rte_ring_do_dequeue_start (obj_table : list Z) (esize n : Z)
  (behavior : rte_ring_queue_behavior) (available : bool)
  : M rte_ring (Z * list Z * option Z) :=
  r ← get ;
  let t := sync_type (cons r) in
  '(n, head, avail) ←
    (if t =? RTE_RING_SYNC_ST then
       '(n, head, next, avail) ←
         Generic.__rte_ring_move_cons_head RTE_RING_SYNC_ST n behavior ;
       mret (n, Some head, avail)
     else if t =? RTE_RING_SYNC_MT_HTS then
       '(n, head, avail) ← HTS.__rte_ring_hts_move_cons_head n behavior ;
       mret (n, Some head, avail)
     else mret (0, None, 0)) ;
  obj_table ← (if negb (n =? 0) then
                 head ← lift head ;
                 elems_out head obj_table esize n
               else mret obj_table) ;
  mret (n, obj_table, store_opt available (u32 (avail - n))).

Definition rte_ring_enqueue_bulk_elem_start (n : Z) (free_space : bool) :=
  __rte_ring_do_enqueue_start n RTE_RING_QUEUE_FIXED free_space.

Definition rte_ring_enqueue_bulk_start (n : Z) (free_space : bool) :=
  rte_ring_enqueue_bulk_elem_start n free_space.

Definition rte_ring_enqueue_burst_elem_start (n : Z) (free_space : bool) :=
  __rte_ring_do_enqueue_start n RTE_RING_QUEUE_VARIABLE free_space.

Definition rte_ring_enqueue_burst_start (n : Z) (free_space : bool) :=
  rte_ring_enqueue_burst_elem_start n free_space.

Definition rte_ring_enqueue_elem_finish (obj_table : list Z) (esize n : Z)
  : M rte_ring unit :=
  r ← get ;
  let t := sync_type (prod r) in
  if t =? RTE_RING_SYNC_ST then
    '(n, tail) ← __rte_ring_st_get_tail Prod n ;
    (if negb (n =? 0) then elems_in tail obj_table esize n else mret tt) ;;
    __rte_ring_st_set_head_tail Prod tail n 1
  else if t =? RTE_RING_SYNC_MT_HTS then
    '(n, tail) ← __rte_ring_hts_get_tail Prod n ;
    (if negb (n =? 0) then elems_in tail obj_table esize n else mret tt) ;;
    __rte_ring_hts_set_head_tail Prod tail n 1
  else mret tt.

Definition rte_ring_enqueue_finish (obj_table : list Z) (n : Z) : M rte_ring unit :=
  rte_ring_enqueue_elem_finish obj_table 8 n.

Definition rte_ring_dequeue_bulk_elem_start (obj_table : list Z) (esize n : Z)
  (available : bool) :=
  __rte_ring_do_dequeue_start obj_table esize n RTE_RING_QUEUE_FIXED available.

Definition rte_ring_dequeue_bulk_start (obj_table : list Z) (n : Z) (available : bool) :=
  rte_ring_dequeue_bulk_elem_start obj_table 8 n available.

Definition rte_ring_dequeue_burst_elem_start (obj_table : list Z) (esize n : Z)
  (available : bool) :=
  __rte_ring_do_dequeue_start obj_table esize n RTE_RING_QUEUE_VARIABLE available.

Definition rte_ring_dequeue_burst_start (obj_table : list Z) (n : Z) (available : bool) :=
  rte_ring_dequeue_burst_elem_start obj_table 8 n available.

Definition rte_ring_dequeue_elem_finish (n : Z) : M rte_ring unit :=
  r ← get ;
  let t := sync_type (cons r) in
  if t =? RTE_RING_SYNC_ST then
    '(n, tail) ← __rte_ring_st_get_tail Cons n ;
    __rte_ring_st_set_head_tail Cons tail n 0
  else if t =? RTE_RING_SYNC_MT_HTS then
    '(n, tail) ← __rte_ring_hts_get_tail Cons n ;
    __rte_ring_hts_set_head_tail Cons tail n 0
  else mret tt.

Definition rte_ring_dequeue_finish (n : Z) : M rte_ring unit :=
  rte_ring_dequeue_elem_finish n.

(** *** Zero copy *)

(** The reserved space: [ptr1] and [ptr2] are offsets in the slots, [None] the
    null pointer. *)
Record rte_ring_zc_data := mk_zc_data {
  ptr1 : Z;
  ptr2 : option Z;
  n1 : Z
}.

Definition __rte_ring_get_elem_addr (r : rte_ring) (head esize num : Z) : rte_ring_zc_data :=
  let scale := esize / 4 in
  let idx := Z.land head (mask r) in
  let nr_idx := u32 (idx * scale) in
  if u32 (idx + num) >? size r
  then mk_zc_data nr_idx (Some 0) (u32 (size r - idx))
  else mk_zc_data nr_idx None num.

(** The result is the number, [*zcd] and [*free_space], which an unsupported
    type leaves as they were ([zcd], [None]). *)
Definition __rte_ring_do_enqueue_zc_elem_start (esize n : Z)
  (behavior : rte_ring_queue_behavior) (zcd : rte_ring_zc_data) (free_space : bool)
  : M rte_ring (Z * rte_ring_zc_data * option Z) :=
  r ← get ;
  let t := sync_type (prod r) in
  moved ←
    (if t =? RTE_RING_SYNC_ST then
       '(n, head, next, free) ←
         Generic.__rte_ring_move_prod_head RTE_RING_SYNC_ST n behavior ;
       mret (Some (n, head, free))
     else if t =? RTE_RING_SYNC_MT_HTS then
       '(n, head, free) ← HTS.__rte_ring_hts_move_prod_head n behavior ;
       mret (Some (n, head, free))
     else mret None) ;
  match moved with
  | None => mret (0, zcd, None)
  | Some (n, head, free) =>
      r ← get ;
      mret (n, __rte_ring_get_elem_addr r head esize n, store_opt free_space (u32 (free - n)))
  end.

Definition rte_ring_enqueue_zc_bulk_elem_start (esize n : Z) (zcd : rte_ring_zc_data)
  (free_space : bool) :=
  __rte_ring_do_enqueue_zc_elem_start esize n RTE_RING_QUEUE_FIXED zcd free_space.

Definition rte_ring_enqueue_zc_bulk_start (n : Z) (zcd : rte_ring_zc_data) (free_space : bool) :=
  rte_ring_enqueue_zc_bulk_elem_start 8 n zcd free_space.

Definition rte_ring_enqueue_zc_burst_elem_start (esize n : Z) (zcd : rte_ring_zc_data)
  (free_space : bool) :=
  __rte_ring_do_enqueue_zc_elem_start esize n RTE_RING_QUEUE_VARIABLE zcd free_space.

Definition rte_ring_enqueue_zc_burst_start (n : Z) (zcd : rte_ring_zc_data) (free_space : bool) :=
  rte_ring_enqueue_zc_burst_elem_start 8 n zcd free_space.

Definition rte_ring_enqueue_zc_elem_finish (n : Z) : M rte_ring unit :=
  r ← get ;
  let t := sync_type (prod r) in
  if t =? RTE_RING_SYNC_ST then
    '(n, tail) ← __rte_ring_st_get_tail Prod n ;
    __rte_ring_st_set_head_tail Prod tail n 1
  else if t =? RTE_RING_SYNC_MT_HTS then
    '(n, tail) ← __rte_ring_hts_get_tail Prod n ;
    __rte_ring_hts_set_head_tail Prod tail n 1
  else mret tt.

Definition rte_ring_enqueue_zc_finish (n : Z) : M rte_ring unit :=
  rte_ring_enqueue_zc_elem_finish n.

Definition __rte_ring_do_dequeue_zc_elem_start (esize n : Z)
  (behavior : rte_ring_queue_behavior) (zcd : rte_ring_zc_data) (available : bool)
  : M rte_ring (Z * rte_ring_zc_data * option Z) :=
  r ← get ;
  let t := sync_type (cons r) in
  moved ←
    (if t =? RTE_RING_SYNC_ST then
       '(n, head, next, avail) ←
         Generic.__rte_ring_move_cons_head RTE_RING_SYNC_ST n behavior ;
       mret (Some (n, head, avail))
     else if t =? RTE_RING_SYNC_MT_HTS then
       '(n, head, avail) ← HTS.__rte_ring_hts_move_cons_head n behavior ;
       mret (Some (n, head, avail))
     else mret None) ;
  match moved with
  | None => mret (0, zcd, None)
  | Some (n, head, avail) =>
      r ← get ;
      mret (n, __rte_ring_get_elem_addr r head esize n, store_opt available (u32 (avail - n)))
  end.

Definition rte_ring_dequeue_zc_bulk_elem_start (esize n : Z) (zcd : rte_ring_zc_data)
  (available : bool) :=
  __rte_ring_do_dequeue_zc_elem_start esize n RTE_RING_QUEUE_FIXED zcd available.

Definition rte_ring_dequeue_zc_bulk_start (n : Z) (zcd : rte_ring_zc_data) (available : bool) :=
  rte_ring_dequeue_zc_bulk_elem_start 8 n zcd available.

Definition rte_ring_dequeue_zc_burst_elem_start (esize n : Z) (zcd : rte_ring_zc_data)
  (available : bool) :=
  __rte_ring_do_dequeue_zc_elem_start esize n RTE_RING_QUEUE_VARIABLE zcd available.

Definition rte_ring_dequeue_zc_burst_start (n : Z) (zcd : rte_ring_zc_data) (available : bool) :=
  rte_ring_dequeue_zc_burst_elem_start 8 n zcd available.

Definition rte_ring_dequeue_zc_elem_finish (n : Z) : M rte_ring unit :=
  r ← get ;
  let t := sync_type (cons r) in
  if t =? RTE_RING_SYNC_ST then
    '(n, tail) ← __rte_ring_st_get_tail Cons n ;
    __rte_ring_st_set_head_tail Cons tail n 0
  else if t =? RTE_RING_SYNC_MT_HTS then
    '(n, tail) ← __rte_ring_hts_get_tail Cons n ;
    __rte_ring_hts_set_head_tail Cons tail n 0
  else mret tt.

(** The source calls the finish of the copying variant here. *)
Definition rte_ring_dequeue_zc_finish (n : Z) : M rte_ring unit :=
  rte_ring_dequeue_elem_finish n.

(** ** A side reserved by a start *)

Definition peek_sync (h : rte_ring_headtail) : Prop :=
  sync_type h = RTE_RING_SYNC_ST \/ sync_type h = RTE_RING_SYNC_MT_HTS.

(** The reservation of [k] elements on a side, and the ring without it. *)
Definition reserve (s : ring_side) (k : Z) (r : rte_ring) : rte_ring :=
  set_side s (set_head (u32 (tail (side s r) + k)) (side s r)) r.

Definition unreserve (s : ring_side) (r : rte_ring) : rte_ring :=
  set_side s (set_head (tail (side s r)) (side s r)) r.

(** Both ends of a side at a position. *)
Definition settle (s : ring_side) (p : Z) (r : rte_ring) : rte_ring :=
  set_side s (set_tail p (set_head p (side s r))) r.

(** [k] elements are reserved on a side of a ring that is otherwise well formed. *)
Record peeking (w : nat) (s : ring_side) (k : Z) (r : rte_ring) : Prop := {
  pk_inv : ring_inv w (unreserve s r);
  pk_sync : peek_sync (side s r);
  pk_head : head (side s r) = u32 (tail (side s r) + k);
  pk_range : 0 <= k <= avail s r
}.

Lemma peek_quiet w r s : ring_inv w r -> peek_sync (side s r) -> default_quiet (side s r).
Proof.
  intros I Hs. destruct (inv_quiet _ _ I s) as [[_ Q]|[E _]]; [exact Q|].
  destruct Hs as [Hs|Hs]; rewrite E in Hs; discriminate.
Qed.

Lemma peek_side_quiet h : peek_sync h -> default_quiet h -> side_quiet h.
Proof. intros Hs Q. left. split; [|done]. destruct Hs as [->| ->]; set_solver. Qed.

Lemma avail_range w r s : ring_inv w r -> 0 <= avail s r <= capacity r /\ capacity r < 2 ^ 31.
Proof.
  intros I. pose proof (entries_range w r I). pose proof (size_range w r I).
  pose proof (inv_capacity _ _ I). destruct s; [rewrite (avail_prod w r I)|rewrite avail_cons]; lia.
Qed.

Lemma avail_unreserve s r : avail s (unreserve s r) = avail s r.
Proof. by destruct s. Qed.

Lemma ring_queue_unreserve w s r : ring_queue w (unreserve s r) = ring_queue w r.
Proof. by destruct s. Qed.

Lemma capacity_unreserve s r : capacity (unreserve s r) = capacity r.
Proof. by destruct s. Qed.

Lemma reserve_0 w r s : ring_inv w r -> default_quiet (side s r) -> reserve s 0 r = r.
Proof.
  intros I Q. unfold reserve. rewrite Z.add_0_r, wrap_small by apply (inv_fits _ _ I s).
  rewrite <- Q. destruct s, r as [? ? ? ? [] [] ?]; done.
Qed.

Lemma unreserve_reserve s k r : default_quiet (side s r) -> unreserve s (reserve s k r) = r.
Proof. intros Q. unfold default_quiet in Q. destruct s, r as [? ? ? ? [] [] ?]; simpl in *; by subst. Qed.

Lemma reserve_peeking w s k r :
  ring_inv w r -> peek_sync (side s r) -> 0 <= k <= avail s r ->
  peeking w s k (reserve s k r) /\ ring_queue w (reserve s k r) = ring_queue w r.
Proof.
  intros I Hs Hk. pose proof (peek_quiet w r s I Hs) as Q.
  rewrite <- (ring_queue_unreserve w s), unreserve_reserve by done.
  split; [split|done].
  - by rewrite unreserve_reserve.
  - by destruct s.
  - by destruct s.
  - by rewrite <- (avail_unreserve s), unreserve_reserve.
Qed.

(** *** The start *)

(** Both supported protocols make the same reservation. *)
Lemma st_move_run w r s n b :
  ring_inv w r -> peek_sync (side s r) ->
  let n' := clip b n (avail s r) in
  exists t, generic_move RTE_RING_SYNC_ST s n b r
    = Some (n', tail (side s r), t, avail s r, reserve s n' r).
Proof.
  intros I Hs n'. pose proof (peek_quiet w r s I Hs) as Q.
  destruct (default_move_law s r n b Q (inv_fits _ _ I s)) as (t & Hm & _).
  exists t. transitivity (default_move n b r s).
  { by destruct s; [apply generic_move_prod_head|apply generic_move_cons_head]. }
  rewrite Hm. fold n'. do 2 f_equal. destruct (n' =? 0) eqn:E; [|done].
  apply Z.eqb_eq in E. rewrite E, (reserve_0 w r s I Q). apply set_side_same.
Qed.

Lemma hts_move_run w r s n b :
  ring_inv w r -> peek_sync (side s r) ->
  let n' := clip b n (avail s r) in
  match s with
  | Prod => HTS.__rte_ring_hts_move_prod_head n b
  | Cons => HTS.__rte_ring_hts_move_cons_head n b
  end r = Some (n', tail (side s r), avail s r, reserve s n' r).
Proof.
  intros I Hs n'. pose proof (peek_quiet w r s I Hs) as Q.
  pose proof (hts_move_ok s n b r Q) as Hm. fold n' in Hm.
  apply mbind_inv in Hm as ([[m old] a] & r1 & Hm & E).
  unfold mret, M_ret in E. simplify_eq. rewrite Hm. do 2 f_equal.
  unfold hts_head_after. destruct (n' =? 0) eqn:E; [|done].
  apply Z.eqb_eq in E. rewrite E, (reserve_0 w r s I Q). apply set_side_same.
Qed.

Lemma enqueue_start_run w r n b fs :
  ring_inv w r -> peek_sync (prod r) ->
  let n' := clip b n (avail Prod r) in
  __rte_ring_do_enqueue_start n b fs r
  = Some (n', store_opt fs (u32 (avail Prod r - n')), reserve Prod n' r).
Proof.
  intros I Hs n'. unfold __rte_ring_do_enqueue_start. rewrite (mbind_run get _ r r r) by done.
  destruct (st_move_run w r Prod n b I Hs) as (t & HS).
  pose proof (hts_move_run w r Prod n b I Hs) as HH. cbn iota in HH. fold n' in HS, HH.
  simpl in HS. unfold mbind, M_bind.
  destruct Hs as [E|E]; rewrite E; cbn [RTE_RING_SYNC_ST RTE_RING_SYNC_MT_HTS Z.eqb Pos.eqb].
  - by rewrite HS.
  - by rewrite HH.
Qed.

(** What a consumer copies at the start. *)
Definition peeked (w : nat) (k : Z) (r : rte_ring) : list Z :=
  ring_get w (Z.to_nat (size r)) (slots r) (Z.to_nat (tail (cons r))) (Z.to_nat k).


Lemma elems_out_ok w r h obj k :
  ring_geom w r -> fits 32 h -> 0 <= k <= size r -> (Z.to_nat k * w <= length obj)%nat ->
  elems_out h obj (4 * Z.of_nat w) k r
  = Some (splice obj 0 (ring_get w (Z.to_nat (size r)) (slots r) (Z.to_nat h) (Z.to_nat k)), r).
Proof.
  intros G F Hk Ho. pose proof (dequeue_elems_get w (Z.to_nat k) r h obj G F) as HP.
  rewrite Z2Nat.id in HP by lia. unfold elems_out. by rewrite HP by (done || lia).
Qed.

Lemma elems_in_ok w r h obj k :
  ring_geom w r -> fits 32 h -> 0 <= k <= size r -> (Z.to_nat k * w <= length obj)%nat ->
  elems_in h obj (4 * Z.of_nat w) k r
  = Some (tt, set_slots (ring_put w (Z.to_nat (size r)) (slots r) (Z.to_nat h) (Z.to_nat k) obj) r).
Proof.
  intros G F Hk Ho. pose proof (enqueue_elems_put w (Z.to_nat k) r h obj G F) as HP.
  rewrite Z2Nat.id in HP by lia. unfold elems_in. by rewrite HP by (done || lia).
Qed.

Lemma dequeue_start_run w r obj n b av :
  ring_inv w r -> peek_sync (cons r) -> 0 <= n -> (Z.to_nat n * w <= length obj)%nat ->
  let n' := clip b n (avail Cons r) in
  __rte_ring_do_dequeue_start obj (4 * Z.of_nat w) n b av r
  = Some (n', splice obj 0 (peeked w n' r), store_opt av (u32 (avail Cons r - n')),
          reserve Cons n' r).
Proof.
  intros I Hs Hn Ho n'. unfold __rte_ring_do_dequeue_start. rewrite (mbind_run get _ r r r) by done.
  destruct (st_move_run w r Cons n b I Hs) as (t & HS).
  pose proof (hts_move_run w r Cons n b I Hs) as HH. cbn iota in HH. fold n' in HS, HH.
  simpl in HS. pose proof (avail_range w r Cons I) as Ha.
  pose proof (clip_range b n (avail Cons r) Hn ltac:(lia)) as Hc. fold n' in Hc.
  assert (Z.to_nat n' * w <= Z.to_nat n * w)%nat by (apply Nat.mul_le_mono_r; lia).
  assert ((if negb (n' =? 0) then head ← lift (Some (tail (cons r))) ;
             elems_out head obj (4 * Z.of_nat w) n' else mret obj) (reserve Cons n' r)
    = Some (splice obj 0 (peeked w n' r), reserve Cons n' r)) as HE.
  { destruct (n' =? 0) eqn:E; cbn [negb].
    - apply Z.eqb_eq in E. rewrite E. unfold peeked. simpl. by rewrite splice_nil.
    - apply Z.eqb_neq in E. pose proof (inv_capacity _ _ I).
      rewrite (mbind_run _ _ _ (tail (cons r)) (reserve Cons n' r)) by done.
      apply elems_out_ok; [apply geom_set_side, I|apply (inv_fits _ _ I Cons)|simpl; lia|lia]. }
  match goal with |- (?m ≫= _) r = _ =>
    assert (m r = Some (n', Some (tail (cons r)), avail Cons r, reserve Cons n' r)) as HI end.
  { unfold mbind, M_bind.
    destruct Hs as [E|E]; rewrite E; cbn [RTE_RING_SYNC_ST RTE_RING_SYNC_MT_HTS Z.eqb Pos.eqb];
      [by rewrite HS|by rewrite HH]. }
  rewrite (mbind_run _ _ _ _ _ HI). cbn beta iota. by rewrite (mbind_run _ _ _ _ _ HE).
Qed.

(** *** The finish *)

Section finish.
Context (w : nat) (s : ring_side) (k : Z) (r : rte_ring) (P : peeking w s k r).

Lemma peeking_fits : fits 32 (tail (side s r)).
Proof. pose proof (inv_fits _ _ (pk_inv _ _ _ _ P) s) as F. by destruct s. Qed.

Lemma peeking_geom : ring_geom w r.
Proof. destruct (inv_geom _ _ (pk_inv _ _ _ _ P)). by destruct s; split. Qed.

Lemma peeking_range : 0 <= k <= avail s r /\ avail s r <= capacity r
  /\ capacity r < size r /\ size r <= 2 ^ 31.
Proof.
  pose proof (avail_range w _ s (pk_inv _ _ _ _ P)) as Ha.
  rewrite avail_unreserve, capacity_unreserve in Ha. pose proof (pk_range _ _ _ _ P).
  pose proof (inv_capacity _ _ (pk_inv _ _ _ _ P)) as Hc. pose proof (geom_size_pos _ _ peeking_geom).
  replace (size (unreserve s r)) with (size r) in Hc by (by destruct s).
  rewrite capacity_unreserve in Hc. lia.
Qed.

(** What is published: [m] elements, none when more than the reservation. *)
Definition kept (m : Z) : Z := if k >=? m then m else 0.

Lemma get_tail_run m :
  __rte_ring_st_get_tail s m r = Some ((kept m, tail (side s r)), r)
  /\ __rte_ring_hts_get_tail s m r = Some ((kept m, tail (side s r)), r).
Proof.
  pose proof peeking_range as Hr.
  assert (u32 (head (side s r) - tail (side s r)) = k) as E.
  { rewrite (pk_head _ _ _ _ P), wrap_sub_l.
    replace (tail (side s r) + k - tail (side s r)) with k by lia.
    apply wrap_small. unfold fits. lia. }
  split; unfold __rte_ring_st_get_tail, __rte_ring_hts_get_tail, mbind, M_bind; simpl;
    unfold hts_ht, head, tail in *; simpl; by rewrite E.
Qed.
End finish.

Lemma set_head_tail_run s t n e r :
  __rte_ring_st_set_head_tail s t n e r = Some (tt, settle s (u32 (t + n)) r)
  /\ __rte_ring_hts_set_head_tail s t n e r = Some (tt, settle s (u32 (t + n)) r).
Proof. split; by destruct s. Qed.

(** A reservation settled: the ring is the one without it, advanced. *)
Lemma settle_unreserve s p r : settle s p r = settle s p (unreserve s r).
Proof. by destruct s. Qed.

Lemma peek_advance_quiet s p r :
  peek_sync (side s r) -> side_quiet (set_tail p (set_head p (side s r))).
Proof. intros H. by apply peek_side_quiet. Qed.

Lemma kept_range k m : 0 <= k -> 0 <= m -> 0 <= kept k m <= k.
Proof. unfold kept. destruct (k >=? m) eqn:E; lia. Qed.

(** The ring after a finish of the producer that writes [m] elements. *)
Lemma enqueue_settled w k r m obj :
  peeking w Prod k r -> 0 <= m <= k -> (Z.to_nat m * w <= length obj)%nat ->
  let r' := settle Prod (u32 (tail (prod r) + m))
    (set_slots (ring_put w (Z.to_nat (size r)) (slots r) (Z.to_nat (tail (prod r)))
       (Z.to_nat m) obj) r) in
  ring_inv w r'
  /\ ring_queue w r'
     = mk_queue (capacity r) (q_items (ring_queue w r) ++ chunks w (Z.to_nat m) obj).
Proof.
  intros P Hm Ho. pose proof (pk_inv _ _ _ _ P) as I. pose proof (peeking_range w Prod k r P) as Hr.
  assert (0 <= m <= capacity (unreserve Prod r) - ring_entries (unreserve Prod r)) as Hm'.
  { rewrite <- (avail_prod w _ I), avail_unreserve. lia. }
  pose proof (peek_advance_quiet Prod (u32 (tail (prod r) + m)) r (pk_sync _ _ _ _ P)) as Q.
  split.
  - exact (proj1 (ring_inv_enqueued w _ I m obj _ Hm' Ho Q eq_refl)).
  - exact (ring_queue_enqueued w _ I m obj _ Hm' Ho Q eq_refl).
Qed.

Lemma dequeue_settled w k r m :
  peeking w Cons k r -> 0 <= m <= k ->
  let r' := settle Cons (u32 (tail (cons r) + m)) r in
  ring_inv w r'
  /\ ring_queue w r' = mk_queue (capacity r) (drop (Z.to_nat m) (q_items (ring_queue w r))).
Proof.
  intros P Hm. pose proof (pk_inv _ _ _ _ P) as I. pose proof (peeking_range w Cons k r P) as Hr.
  pose proof (peek_advance_quiet Cons (u32 (tail (cons r) + m)) r (pk_sync _ _ _ _ P)) as Q.
  assert (0 <= m <= ring_entries (unreserve Cons r)) as Hm'.
  { change (ring_entries (unreserve Cons r)) with (avail Cons r). lia. }
  split.
  - exact (proj1 (ring_inv_dequeued w _ I m _ Hm' Q eq_refl)).
  - exact (ring_queue_dequeued w _ I m _ Hm' Q eq_refl).
Qed.

Lemma enqueue_finish_run w k r obj m :
  peeking w Prod k r -> 0 <= m -> (Z.to_nat m * w <= length obj)%nat ->
  rte_ring_enqueue_elem_finish obj (4 * Z.of_nat w) m r
  = Some (tt, settle Prod (u32 (tail (prod r) + kept k m))
      (set_slots (ring_put w (Z.to_nat (size r)) (slots r) (Z.to_nat (tail (prod r)))
         (Z.to_nat (kept k m)) obj) r)).
Proof.
  intros P Hm Ho. pose proof (peeking_range w Prod k r P) as Hr.
  destruct (get_tail_run w Prod k r P m) as [G1 G2]. simpl side in G1, G2.
  pose proof (kept_range k m ltac:(lia) Hm) as Hk.
  assert (Z.to_nat (kept k m) * w <= length obj)%nat as Ho'.
  { assert (Z.to_nat (kept k m) * w <= Z.to_nat m * w)%nat; [|lia].
    apply Nat.mul_le_mono_r. unfold kept. destruct (k >=? m); lia. }
  assert (forall (r2 : rte_ring) (f : M rte_ring unit),
    f (set_slots (ring_put w (Z.to_nat (size r)) (slots r) (Z.to_nat (tail (prod r)))
         (Z.to_nat (kept k m)) obj) r) = Some (tt, r2) ->
    ((if negb (kept k m =? 0) then elems_in (tail (prod r)) obj (4 * Z.of_nat w) (kept k m)
      else mret tt) ;; f) r = Some (tt, r2)) as HE.
  { intros r2 f Hf. destruct (kept k m =? 0) eqn:E; cbn [negb].
    - apply Z.eqb_eq in E. rewrite E in Hf. simpl in Hf.
      rewrite (mbind_run _ _ r tt r) by done. by destruct r.
    - rewrite (mbind_run _ _ _ _ _ (elems_in_ok w r (tail (prod r)) obj (kept k m)
        (peeking_geom w Prod k r P) (peeking_fits w Prod k r P) ltac:(lia) Ho')). exact Hf. }
  unfold rte_ring_enqueue_elem_finish. rewrite (mbind_run get _ r r r) by done.
  destruct (pk_sync _ _ _ _ P) as [E|E]; simpl in E; rewrite E;
    cbn [RTE_RING_SYNC_ST RTE_RING_SYNC_MT_HTS Z.eqb Pos.eqb].
  - rewrite (mbind_run _ _ _ _ _ G1). apply HE. by destruct (set_head_tail_run Prod
      (tail (prod r)) (kept k m) 1 (set_slots (ring_put w (Z.to_nat (size r)) (slots r)
        (Z.to_nat (tail (prod r))) (Z.to_nat (kept k m)) obj) r)) as [-> _].
  - rewrite (mbind_run _ _ _ _ _ G2). apply HE. by destruct (set_head_tail_run Prod
      (tail (prod r)) (kept k m) 1 (set_slots (ring_put w (Z.to_nat (size r)) (slots r)
        (Z.to_nat (tail (prod r))) (Z.to_nat (kept k m)) obj) r)) as [_ ->].
Qed.

(** The finishes that only move the marks. *)
Lemma settle_finish_run w s k r m e :
  peeking w s k r ->
  (if sync_type (side s r) =? RTE_RING_SYNC_ST then
     '(n, tail) ← __rte_ring_st_get_tail s m ; __rte_ring_st_set_head_tail s tail n e
   else if sync_type (side s r) =? RTE_RING_SYNC_MT_HTS then
     '(n, tail) ← __rte_ring_hts_get_tail s m ; __rte_ring_hts_set_head_tail s tail n e
   else mret tt) r
  = Some (tt, settle s (u32 (tail (side s r) + kept k m)) r).
Proof.
  intros P. destruct (get_tail_run w s k r P m) as [G1 G2].
  destruct (set_head_tail_run s (tail (side s r)) (kept k m) e r) as [S1 S2].
  destruct (pk_sync _ _ _ _ P) as [E|E]; rewrite E;
    cbn [RTE_RING_SYNC_ST RTE_RING_SYNC_MT_HTS Z.eqb Pos.eqb].
  - by rewrite (mbind_run _ _ _ _ _ G1).
  - by rewrite (mbind_run _ _ _ _ _ G2).
Qed.

(** *** The other side goes on meanwhile *)

(** A consumer dequeues while a producer holds a reservation... *)
Lemma consumer_meanwhile w k r obj n b av :
  peeking w Prod k r -> 0 <= n -> (Z.to_nat n * w <= length obj)%nat ->
  let '(n', items, rest, q') := q_dequeue b n (ring_queue w r) in
  exists r' obj', dequeue_elem b obj (4 * Z.of_nat w) n av r = Some (n', obj', store_opt av rest, r')
    /\ chunks w (Z.to_nat n') obj' = items
    /\ peeking w Prod k r' /\ ring_queue w r' = q'.
Proof.
  intros P Hn Ho. pose proof (pk_inv _ _ _ _ P) as I. pose proof (peeking_range w Prod k r P) as Hr.
  pose proof (peeking_geom w Prod k r P) as G.
  unfold q_dequeue. rewrite <- (ring_queue_unreserve w Prod r).
  rewrite (q_count_ring w _ I). change (ring_entries (unreserve Prod r)) with (avail Cons r).
  set (n' := clip b n (avail Cons r)).
  pose proof (entries_range w _ I) as He.
  change (ring_entries (unreserve Prod r)) with (avail Cons r) in He.
  change (capacity (unreserve Prod r)) with (capacity r) in He.
  pose proof (clip_range b n (avail Cons r) Hn ltac:(lia)) as Hc. fold n' in Hc.
  assert (Z.to_nat n' * w <= Z.to_nat n * w)%nat by (apply Nat.mul_le_mono_r; lia).
  destruct (dequeue_elem_run w r obj n b av G (inv_fits _ _ I Cons) ltac:(fold n'; lia)
    ltac:(fold n'; lia) (inv_quiet _ _ I Cons)) as (h & Hq & Ht & HR).
  fold n' in HR, Ht. rewrite wrap_small in HR by (unfold fits; lia).
  unfold dequeued in HR. fold n' in HR.
  assert (0 <= n' <= ring_entries (unreserve Prod r)) as Hk.
  { change (ring_entries (unreserve Prod r)) with (avail Cons r). lia. }
  destruct (ring_get_items w _ I n' Hk) as [Hg Hi]. destruct (ring_inv_dequeued w _ I n' h Hk Hq Ht)
    as [I' E'].
  eexists _, _. split; [exact HR|]. split.
  { unfold splice. rewrite take_0, app_nil_l. apply Hi. }
  split; [|exact (ring_queue_dequeued w _ I n' h Hk Hq Ht)].
  split; [exact I'|apply (pk_sync _ _ _ _ P)|apply (pk_head _ _ _ _ P)|].
  pose proof (avail_prod w _ I') as Ha'. pose proof (avail_prod w _ I) as Ha.
  change (avail Prod (set_side Cons h (unreserve Prod r))) with (avail Prod (set_side Cons h r)) in Ha'.
  rewrite avail_unreserve in Ha. rewrite Ha', E'.
  change (capacity (set_side Cons h (unreserve Prod r))) with (capacity (unreserve Prod r)). lia.
Qed.

(** ... and a producer enqueues while a consumer is peeking. *)
Lemma producer_meanwhile w k r obj n b fs :
  peeking w Cons k r -> 0 <= n -> (Z.to_nat n * w <= length obj)%nat ->
  let '(n', room, q') := q_enqueue b n (chunks w (Z.to_nat n) obj) (ring_queue w r) in
  exists r', enqueue_elem b obj (4 * Z.of_nat w) n fs r = Some (n', store_opt fs room, r')
    /\ peeking w Cons k r' /\ ring_queue w r' = q'.
Proof.
  intros P Hn Ho. pose proof (pk_inv _ _ _ _ P) as I. pose proof (peeking_range w Cons k r P) as Hr.
  pose proof (peeking_geom w Cons k r P) as G.
  unfold q_enqueue, q_free. rewrite <- (ring_queue_unreserve w Cons r), (q_count_ring w _ I).
  pose proof (avail_prod w _ I) as Ha.
  change (avail Prod (unreserve Cons r)) with (avail Prod r) in Ha.
  change (q_cap (ring_queue w (unreserve Cons r))) with (capacity (unreserve Cons r)).
  rewrite <- Ha. set (n' := clip b n (avail Prod r)).
  pose proof (entries_range w _ I) as He.
  pose proof (avail_range w _ Prod I) as Hv.
  change (avail Prod (unreserve Cons r)) with (avail Prod r) in Hv.
  rewrite capacity_unreserve in Hv.
  pose proof (clip_range b n (avail Prod r) Hn ltac:(lia)) as Hc. fold n' in Hc.
  assert (Z.to_nat n' * w <= Z.to_nat n * w)%nat by (apply Nat.mul_le_mono_r; lia).
  destruct (enqueue_elem_run w r obj n b fs G (inv_fits _ _ I Prod) ltac:(fold n'; lia)
    ltac:(fold n'; lia) (inv_quiet _ _ I Prod)) as (h & Hq & Ht & HR).
  fold n' in HR, Ht. rewrite wrap_small in HR by (unfold fits; lia).
  assert (0 <= n' <= capacity (unreserve Cons r) - ring_entries (unreserve Cons r)) as Hk by lia.
  assert (Z.to_nat n' * w <= length obj)%nat as Ho' by lia.
  destruct (ring_inv_enqueued w _ I n' obj h Hk Ho' Hq Ht) as [I' E'].
  eexists. split; [exact HR|]. unfold enqueued. fold n'.
  split; [|rewrite take_chunks by lia; exact (ring_queue_enqueued w _ I n' obj h Hk Ho' Hq Ht)].
  split; [exact I'|apply (pk_sync _ _ _ _ P)|apply (pk_head _ _ _ _ P)|].
  change (0 <= k <= ring_entries (set_side Prod h (set_slots (ring_put w
    (Z.to_nat (size (unreserve Cons r))) (slots (unreserve Cons r))
    (Z.to_nat (tail (prod (unreserve Cons r)))) (Z.to_nat n') obj) (unreserve Cons r)))).
  cbv zeta in E'. rewrite E'.
  change (ring_entries (unreserve Cons r)) with (avail Cons r). lia.
Qed.

(** ** Theorems *)

Definition enqueue_start (b : rte_ring_queue_behavior) :=
  match b with
  | RTE_RING_QUEUE_FIXED => rte_ring_enqueue_bulk_elem_start
  | RTE_RING_QUEUE_VARIABLE => rte_ring_enqueue_burst_elem_start
  end.

Definition dequeue_start (b : rte_ring_queue_behavior) :=
  match b with
  | RTE_RING_QUEUE_FIXED => rte_ring_dequeue_bulk_elem_start
  | RTE_RING_QUEUE_VARIABLE => rte_ring_dequeue_burst_elem_start
  end.

(** A two-phase enqueue is one enqueue at its finish: the start reserves what
    the capped request allows and reports the room left but changes nothing a
    consumer sees; a consumer may dequeue meanwhile; the finish appends the first
    [m] objects when they are within the reservation and none otherwise, gives
    the rest back, and leaves the ring well formed. *)
Theorem peek_enqueue_ok (w : nat) (r : rte_ring) (n : Z) (b : rte_ring_queue_behavior)
  (fs : bool) (b2 : rte_ring_queue_behavior) (n2 : Z) (out : list Z) (obj : list Z) (m : Z) :
  ring_inv w r -> peek_sync (prod r) -> 0 <= n -> 0 <= m ->
  0 <= n2 -> (Z.to_nat n2 * w <= length out)%nat -> (Z.to_nat m * w <= length obj)%nat ->
  let q := ring_queue w r in
  let k := clip b n (q_free q) in
  let '(d, items, rest, q1) := q_dequeue b2 n2 q in
  exists r1 r2 out' r3,
    enqueue_start b n fs r = Some (k, store_opt fs (q_free q - k), r1)
    /\ ring_queue w r1 = q
    /\ dequeue_elem b2 out (4 * Z.of_nat w) n2 true r1 = Some (d, out', Some rest, r2)
    /\ chunks w (Z.to_nat d) out' = items
    /\ rte_ring_enqueue_elem_finish obj (4 * Z.of_nat w) m r2 = Some (tt, r3)
    /\ ring_inv w r3
    /\ ring_queue w r3
       = mk_queue (q_cap q) (q_items q1 ++ chunks w (Z.to_nat (if k >=? m then m else 0)) obj).
Proof.
  intros I Hs Hn Hm Hn2 Hout Hobj q k.
  assert (q_free q = avail Prod r) as Ef.
  { unfold q_free, q. rewrite (q_count_ring w r I). simpl q_cap. symmetry. apply (avail_prod w r I). }
  pose proof (avail_range w r Prod I) as Ha.
  pose proof (clip_range b n (avail Prod r) Hn ltac:(lia)) as Hc. rewrite <- Ef in Hc. fold k in Hc.
  destruct (reserve_peeking w Prod k r I Hs ltac:(lia)) as [P Hq].
  pose proof (consumer_meanwhile w k _ out n2 b2 true P Hn2 Hout) as HD. rewrite Hq in HD. fold q in HD.
  destruct (q_dequeue b2 n2 q) as [[[d items] rest] q1] eqn:ED.
  destruct HD as (r2 & out' & HD & Hi & P2 & Hq2).
  pose proof (kept_range k m ltac:(lia) Hm) as Hk.
  assert (Z.to_nat (kept k m) * w <= length obj)%nat as Ho'.
  { assert (Z.to_nat (kept k m) * w <= Z.to_nat m * w)%nat; [|lia].
    apply Nat.mul_le_mono_r. unfold kept. destruct (k >=? m); lia. }
  destruct (enqueue_settled w k r2 (kept k m) obj P2 Hk Ho') as [I3 Hq3].
  eexists _, _, _, _. split; [|split; [exact Hq|split; [exact HD|split; [exact Hi|split;
    [exact (enqueue_finish_run w k r2 obj m P2 Hm Hobj)|split; [exact I3|]]]]]].
  - transitivity (__rte_ring_do_enqueue_start n b fs r); [by destruct b|].
    rewrite (enqueue_start_run w r n b fs I Hs), <- Ef. fold k.
    by rewrite wrap_small by (unfold fits; lia).
  - rewrite Hq3, Hq2. f_equal. pose proof (f_equal q_cap Hq2) as Hcap. simpl in Hcap.
    rewrite Hcap. unfold q_dequeue in ED. injection ED as _ _ _ <-. done.
Qed.

(** A two-phase dequeue is a peek: the start copies the first elements the
    capped request allows and leaves the queue as it is; a producer may enqueue
    meanwhile; the finish removes the first [m] elements when they are within the
    reservation and none otherwise (0 puts everything back), and leaves the ring
    well formed. *)
Theorem peek_dequeue_ok (w : nat) (r : rte_ring) (n : Z) (b : rte_ring_queue_behavior)
  (av : bool) (obj : list Z) (b2 : rte_ring_queue_behavior) (n2 : Z) (tbl : list Z) (m : Z) :
  ring_inv w r -> peek_sync (cons r) -> 0 <= n -> (Z.to_nat n * w <= length obj)%nat -> 0 <= m ->
  0 <= n2 -> (Z.to_nat n2 * w <= length tbl)%nat ->
  let q := ring_queue w r in
  let k := clip b n (q_count q) in
  let '(e, room, q1) := q_enqueue b2 n2 (chunks w (Z.to_nat n2) tbl) q in
  exists obj' r1 r2 r3,
    dequeue_start b obj (4 * Z.of_nat w) n av r = Some (k, obj', store_opt av (q_count q - k), r1)
    /\ chunks w (Z.to_nat k) obj' = take (Z.to_nat k) (q_items q)
    /\ ring_queue w r1 = q
    /\ enqueue_elem b2 tbl (4 * Z.of_nat w) n2 true r1 = Some (e, Some room, r2)
    /\ rte_ring_dequeue_elem_finish m r2 = Some (tt, r3)
    /\ ring_inv w r3
    /\ ring_queue w r3
       = mk_queue (q_cap q) (drop (Z.to_nat (if k >=? m then m else 0)) (q_items q1)).
Proof.
  intros I Hs Hn Hobj Hm Hn2 Htbl q k.
  assert (q_count q = avail Cons r) as Ef by apply (q_count_ring w r I).
  pose proof (avail_range w r Cons I) as Ha.
  pose proof (clip_range b n (avail Cons r) Hn ltac:(lia)) as Hc. rewrite <- Ef in Hc. fold k in Hc.
  destruct (reserve_peeking w Cons k r I Hs ltac:(lia)) as [P Hq].
  pose proof (producer_meanwhile w k _ tbl n2 b2 true P Hn2 Htbl) as HE. rewrite Hq in HE. fold q in HE.
  destruct (q_enqueue b2 n2 _ q) as [[e room] q1] eqn:EE.
  destruct HE as (r2 & HE & P2 & Hq2).
  pose proof (kept_range k m ltac:(lia) Hm) as Hk.
  destruct (dequeue_settled w k r2 (kept k m) P2 Hk) as [I3 Hq3].
  destruct (ring_get_items w r I k) as [_ Hi]; [change (ring_entries r) with (avail Cons r); lia|].
  eexists _, _, _, _. split; [|split; [|split; [exact Hq|split; [exact HE|split; [|split;
    [exact I3|]]]]]].
  - transitivity (__rte_ring_do_dequeue_start obj (4 * Z.of_nat w) n b av r); [by destruct b|].
    rewrite (dequeue_start_run w r obj n b av I Hs Hn Hobj), <- Ef. fold k.
    by rewrite wrap_small by (unfold fits; lia).
  - unfold splice. rewrite take_0, app_nil_l. apply Hi.
  - exact (settle_finish_run w Cons k r2 m 0 P2).
  - rewrite Hq3, Hq2. f_equal. pose proof (f_equal q_cap Hq2) as Hcap. simpl in Hcap.
    rewrite Hcap. unfold q_enqueue in EE. injection EE as _ _ <-. done.
Qed.

(** ** Zero copy *)

(** What a user does with the pointers: write [n] elements of a table to the
    reserved space, and read them from it. *)
Definition zc_fill (w : nat) (z : rte_ring_zc_data) (n : Z) (obj mem : list Z) : list Z :=
  match ptr2 z with
  | None => splice mem (Z.to_nat (ptr1 z)) (take (Z.to_nat n * w) obj)
  | Some p =>
      let m := (Z.to_nat (n1 z) * w)%nat in
      splice (splice mem (Z.to_nat (ptr1 z)) (take m obj))
        (Z.to_nat p) (take (Z.to_nat (n - n1 z) * w) (drop m obj))
  end.

Definition zc_read (w : nat) (z : rte_ring_zc_data) (n : Z) (mem : list Z) : list Z :=
  match ptr2 z with
  | None => take (Z.to_nat n * w) (drop (Z.to_nat (ptr1 z)) mem)
  | Some p =>
      take (Z.to_nat (n1 z) * w) (drop (Z.to_nat (ptr1 z)) mem)
      ++ take (Z.to_nat (n - n1 z) * w) (drop (Z.to_nat p) mem)
  end.

Section zero_copy.
Context (w : nat) (r : rte_ring) (h n : Z).
Context (G : ring_geom w r) (F : fits 32 h) (Hn : 0 <= n <= size r).
Let sz : nat := Z.to_nat (size r).
Let idx : nat := (Z.to_nat h mod sz)%nat.

Lemma zc_addr :
  __rte_ring_get_elem_addr r h (4 * Z.of_nat w) n
  = if decide (sz < idx + Z.to_nat n)%nat
    then mk_zc_data (Z.of_nat (idx * w)) (Some 0) (Z.of_nat (sz - idx))
    else mk_zc_data (Z.of_nat (idx * w)) None n.
Proof.
  pose proof (geom_size_pos _ _ G) as Hsz. pose proof (geom_bound _ _ G) as Hb.
  pose proof (geom_w _ _ G) as Hw.
  pose proof (Nat.mod_upper_bound (Z.to_nat h) sz ltac:(unfold sz; lia)) as Hi. fold idx in Hi.
  unfold __rte_ring_get_elem_addr. rewrite (geom_index w r h G F). fold sz idx.
  replace (4 * Z.of_nat w / 4) with (Z.of_nat w) by (rewrite Z.mul_comm, Z.div_mul; lia).
  assert (idx * w <= sz * w)%nat by (apply Nat.mul_le_mono_r; lia).
  rewrite <- Nat2Z.inj_mul, !wrap_small by (unfold fits; lia).
  case_decide.
  - replace (_ >? size r) with true by lia. f_equal. lia.
  - by replace (_ >? size r) with false by lia.
Qed.

(** The pointers designate exactly the slots the copying variant writes... *)
Lemma zc_fill_put obj :
  (Z.to_nat n * w <= length obj)%nat ->
  zc_fill w (__rte_ring_get_elem_addr r h (4 * Z.of_nat w) n) n obj (slots r)
  = ring_put w sz (slots r) (Z.to_nat h) (Z.to_nat n) obj.
Proof.
  intros Ho. pose proof (geom_size_pos _ _ G) as Hsz. pose proof (geom_w _ _ G) as Hw.
  pose proof (geom_slots _ _ G) as Hl.
  pose proof (Nat.mod_upper_bound (Z.to_nat h) sz ltac:(unfold sz; lia)) as Hi. fold idx in Hi.
  rewrite (ring_put_congr w sz (slots r) (Z.to_nat h) idx)
    by (unfold idx; by rewrite Nat.Div0.mod_mod).
  rewrite zc_addr. unfold zc_fill. case_decide as Hd; cbn [ptr1 ptr2 n1].
  - rewrite ring_put_wrap by (unfold sz in *; lia). unfold blit.
    rewrite !Nat2Z.id, !Nat.mul_0_l, drop_0.
    by replace (Z.to_nat (n - Z.of_nat (sz - idx))) with (Z.to_nat n - (sz - idx))%nat by lia.
  - assert ((idx + Z.to_nat n) * w <= sz * w)%nat by (apply Nat.mul_le_mono_r; lia).
    rewrite ring_put_blit by (unfold sz in *; lia). unfold blit.
    by rewrite Nat2Z.id, Nat.mul_0_l, drop_0.
Qed.

(** ... and the ones it reads. *)
Lemma zc_read_get :
  zc_read w (__rte_ring_get_elem_addr r h (4 * Z.of_nat w) n) n (slots r)
  = ring_get w sz (slots r) (Z.to_nat h) (Z.to_nat n).
Proof.
  pose proof (geom_size_pos _ _ G) as Hsz. pose proof (geom_w _ _ G) as Hw.
  pose proof (geom_slots _ _ G) as Hl.
  pose proof (Nat.mod_upper_bound (Z.to_nat h) sz ltac:(unfold sz; lia)) as Hi. fold idx in Hi.
  rewrite (ring_get_congr w sz (slots r) (Z.to_nat h) idx)
    by (unfold idx; by rewrite Nat.Div0.mod_mod).
  rewrite zc_addr. unfold zc_read. case_decide as Hd; cbn [ptr1 ptr2 n1].
  - rewrite ring_get_wrap by (unfold sz in *; lia). rewrite !Nat2Z.id, drop_0.
    by replace (Z.to_nat (n - Z.of_nat (sz - idx))) with (Z.to_nat n - (sz - idx))%nat by lia.
  - assert ((idx + Z.to_nat n) * w <= sz * w)%nat by (apply Nat.mul_le_mono_r; lia).
    rewrite ring_get_block by (unfold sz in *; lia). by rewrite Nat2Z.id.
Qed.
End zero_copy.

(** Writing to the slots keeps a reservation. *)
Lemma peeking_set_slots w s k r l :
  peeking w s k r -> length l = length (slots r) -> peeking w s k (set_slots l r).
Proof.
  intros [[[GL GM GS GW GB] IC IQ IF IE] PS PH PR] Hl.
  destruct s; (split; [split; [split|..]|..]; try done; simpl in *; congruence).
Qed.

Lemma enqueue_zc_start_run w r n b zcd fs :
  ring_inv w r -> peek_sync (prod r) ->
  let n' := clip b n (avail Prod r) in
  __rte_ring_do_enqueue_zc_elem_start (4 * Z.of_nat w) n b zcd fs r
  = Some (n', __rte_ring_get_elem_addr r (tail (prod r)) (4 * Z.of_nat w) n',
          store_opt fs (u32 (avail Prod r - n')), reserve Prod n' r).
Proof.
  intros I Hs n'. unfold __rte_ring_do_enqueue_zc_elem_start.
  rewrite (mbind_run get _ r r r) by done.
  destruct (st_move_run w r Prod n b I Hs) as (t & HS).
  pose proof (hts_move_run w r Prod n b I Hs) as HH. cbn iota in HH. fold n' in HS, HH.
  simpl in HS. unfold mbind, M_bind.
  destruct Hs as [E|E]; rewrite E; cbn [RTE_RING_SYNC_ST RTE_RING_SYNC_MT_HTS Z.eqb Pos.eqb].
  - by rewrite HS.
  - by rewrite HH.
Qed.

Lemma dequeue_zc_start_run w r n b zcd av :
  ring_inv w r -> peek_sync (cons r) ->
  let n' := clip b n (avail Cons r) in
  __rte_ring_do_dequeue_zc_elem_start (4 * Z.of_nat w) n b zcd av r
  = Some (n', __rte_ring_get_elem_addr r (tail (cons r)) (4 * Z.of_nat w) n',
          store_opt av (u32 (avail Cons r - n')), reserve Cons n' r).
Proof.
  intros I Hs n'. unfold __rte_ring_do_dequeue_zc_elem_start.
  rewrite (mbind_run get _ r r r) by done.
  destruct (st_move_run w r Cons n b I Hs) as (t & HS).
  pose proof (hts_move_run w r Cons n b I Hs) as HH. cbn iota in HH. fold n' in HS, HH.
  simpl in HS. unfold mbind, M_bind.
  destruct Hs as [E|E]; rewrite E; cbn [RTE_RING_SYNC_ST RTE_RING_SYNC_MT_HTS Z.eqb Pos.eqb].
  - by rewrite HS.
  - by rewrite HH.
Qed.

Definition enqueue_zc_start (b : rte_ring_queue_behavior) :=
  match b with
  | RTE_RING_QUEUE_FIXED => rte_ring_enqueue_zc_bulk_elem_start
  | RTE_RING_QUEUE_VARIABLE => rte_ring_enqueue_zc_burst_elem_start
  end.

Definition dequeue_zc_start (b : rte_ring_queue_behavior) :=
  match b with
  | RTE_RING_QUEUE_FIXED => rte_ring_dequeue_zc_bulk_elem_start
  | RTE_RING_QUEUE_VARIABLE => rte_ring_dequeue_zc_burst_elem_start
  end.

(** The zero-copy operations are the copying ones without the copy, the
    wrap-around of the reserved space included: the starts return the same
    number and room and leave the same ring; an enqueue whose user fills the
    space behind the pointers ends in the ring of the copying enqueue; the space
    behind the pointers of a dequeue holds the elements the copying start
    copies. *)
Theorem zero_copy_equivalent (w : nat) (r : rte_ring) (n : Z) (b : rte_ring_queue_behavior)
  (report : bool) (obj : list Z) (zcd : rte_ring_zc_data) :
  ring_inv w r -> (forall s, peek_sync (side s r)) ->
  0 <= n -> (Z.to_nat n * w <= length obj)%nat ->
  (exists k z room r1 r2,
    enqueue_start b n report r = Some (k, room, r1)
    /\ enqueue_zc_start b (4 * Z.of_nat w) n zcd report r = Some (k, z, room, r1)
    /\ rte_ring_enqueue_elem_finish obj (4 * Z.of_nat w) k r1 = Some (tt, r2)
    /\ rte_ring_enqueue_zc_elem_finish k (set_slots (zc_fill w z k obj (slots r1)) r1)
       = Some (tt, r2))
  /\ exists k z obj' rest r1,
    dequeue_start b obj (4 * Z.of_nat w) n report r = Some (k, obj', rest, r1)
    /\ dequeue_zc_start b (4 * Z.of_nat w) n zcd report r = Some (k, z, rest, r1)
    /\ zc_read w z k (slots r1) = take (Z.to_nat k * w) obj'.
Proof.
  intros I Hs Hn Ho. pose proof (inv_geom _ _ I) as G. pose proof (inv_capacity _ _ I) as Hcap.
  split.
  - pose proof (avail_range w r Prod I) as Ha.
    pose proof (clip_range b n (avail Prod r) Hn ltac:(lia)) as Hc.
    set (k := clip b n (avail Prod r)) in *.
    destruct (reserve_peeking w Prod k r I (Hs Prod) ltac:(lia)) as [P _].
    assert (Z.to_nat k * w <= length obj)%nat as Ho'.
    { assert (Z.to_nat k * w <= Z.to_nat n * w)%nat by (apply Nat.mul_le_mono_r; lia). lia. }
    eexists k, _, _, _, _. split.
    { transitivity (__rte_ring_do_enqueue_start n b report r); [by destruct b|].
      apply (enqueue_start_run w r n b report I (Hs Prod)). }
    split.
    { transitivity (__rte_ring_do_enqueue_zc_elem_start (4 * Z.of_nat w) n b zcd report r);
        [by destruct b|]. apply (enqueue_zc_start_run w r n b zcd report I (Hs Prod)). }
    split; [apply (enqueue_finish_run w k); [exact P|lia|done]|]. fold k.
    assert (kept k k = k) as Ek by (unfold kept; by rewrite Z.geb_leb, Z.leb_refl).
    rewrite Ek. change (slots (reserve Prod k r)) with (slots r).
    change (size (reserve Prod k r)) with (size r).
    rewrite (zc_fill_put w r (tail (prod r)) k G (inv_fits _ _ I Prod)) by (lia || done).
    set (l := ring_put _ _ _ _ _ _).
    assert (peeking w Prod k (set_slots l (reserve Prod k r))) as P'.
    { apply peeking_set_slots; [exact P|]. unfold l.
      pose proof (geom_slots _ _ G). apply length_ring_put; simpl in *; lia. }
    pose proof (settle_finish_run w Prod k _ k 1 P') as HF. rewrite Ek in HF. exact HF.
  - pose proof (avail_range w r Cons I) as Ha.
    pose proof (clip_range b n (avail Cons r) Hn ltac:(lia)) as Hc.
    set (k := clip b n (avail Cons r)) in *.
    eexists k, _, _, _, _. split.
    { transitivity (__rte_ring_do_dequeue_start obj (4 * Z.of_nat w) n b report r); [by destruct b|].
      apply (dequeue_start_run w r obj n b report I (Hs Cons) Hn Ho). }
    split.
    { transitivity (__rte_ring_do_dequeue_zc_elem_start (4 * Z.of_nat w) n b zcd report r);
        [by destruct b|]. apply (dequeue_zc_start_run w r n b zcd report I (Hs Cons)). }
    fold k. change (slots (reserve Cons k r)) with (slots r).
    rewrite (zc_read_get w r (tail (cons r)) k G (inv_fits _ _ I Cons)) by lia.
    destruct (ring_get_items w r I k) as [Hg _]; [change (ring_entries r) with (avail Cons r); lia|].
    unfold splice, peeked. rewrite take_0, app_nil_l. by rewrite take_app_length'.
Qed.

(** *** Concrete instances *)

(** Four slots of one word holding 10, 20 and about to wrap around. *)
Definition peek_ring : rte_ring :=
  mk_ring 0 4 3 3 (mk_headtail 1 1 RTE_RING_SYNC_ST 0 0 0)
    (mk_headtail (2 ^ 32 - 1) (2 ^ 32 - 1) RTE_RING_SYNC_MT_HTS 0 0 0) [20; 0; 0; 10].

Lemma peek_ring_inv : ring_inv 1 peek_ring.
Proof.
  split.
  - split; simpl; first [done|lia|exists 2%nat; split; [lia|done]].
  - done.
  - intros []; left; (split; [|done]); simpl; set_solver.
  - intros []; done.
  - vm_compute. discriminate.
Qed.

Lemma peek_ring_sync s : peek_sync (side s peek_ring).
Proof. destruct s; [by left|by right]. Qed.

Lemma peek_enqueue_ok_witness :
  exists r1 r2 r3,
    rte_ring_enqueue_bulk_elem_start 1 true peek_ring = Some (1, Some 0, r1)
    /\ rte_ring_dequeue_burst_elem [0; 0] 4 1 true r1 = Some (1, [10; 0], Some 1, r2)
    /\ rte_ring_enqueue_elem_finish [30] 4 1 r2 = Some (tt, r3)
    /\ ring_queue 1 r3 = mk_queue 3 [[20]; [30]].
Proof.
  pose proof (peek_enqueue_ok 1 peek_ring 1 RTE_RING_QUEUE_FIXED true RTE_RING_QUEUE_VARIABLE 1
    [0; 0] [30] 1 peek_ring_inv (peek_ring_sync Prod) ltac:(lia) ltac:(lia) ltac:(lia)
    ltac:(simpl; lia) ltac:(simpl; lia)) as H.
  destruct H as (r1 & r2 & out' & r3 & H1 & _ & H2 & _ & H3 & _ & H4).
  exists r1, r2, r3. split; [exact H1|]. vm_compute in H1. injection H1 as <-.
  vm_compute in H2. injection H2 as <- <-. split; [reflexivity|]. split; [exact H3|].
  rewrite H4. reflexivity.
Defined.

Lemma peek_dequeue_ok_witness :
  exists obj' r1 r2 r3,
    rte_ring_dequeue_burst_elem_start [0; 0; 0] 4 3 true peek_ring = Some (2, obj', Some 0, r1)
    /\ chunks 1 2 obj' = [[10]; [20]]
    /\ rte_ring_enqueue_bulk_elem [30] 4 1 true r1 = Some (1, Some 0, r2)
    /\ rte_ring_dequeue_elem_finish 1 r2 = Some (tt, r3)
    /\ ring_queue 1 r3 = mk_queue 3 [[20]; [30]].
Proof.
  pose proof (peek_dequeue_ok 1 peek_ring 3 RTE_RING_QUEUE_VARIABLE true [0; 0; 0]
    RTE_RING_QUEUE_FIXED 1 [30] 1 peek_ring_inv (peek_ring_sync Cons) ltac:(lia)
    ltac:(simpl; lia) ltac:(lia) ltac:(lia) ltac:(simpl; lia)) as H.
  destruct H as (obj' & r1 & r2 & r3 & H1 & H2 & _ & H3 & H4 & _ & H5).
  exists obj', r1, r2, r3. split; [exact H1|]. split; [exact H2|]. split; [exact H3|].
  split; [exact H4|exact H5].
Defined.

Lemma zero_copy_equivalent_witness :
  (exists k z room r1 r2,
    rte_ring_enqueue_bulk_elem_start 1 true peek_ring = Some (k, room, r1)
    /\ rte_ring_enqueue_zc_bulk_elem_start 4 1 (mk_zc_data 0 None 0) true peek_ring
       = Some (k, z, room, r1)
    /\ rte_ring_enqueue_elem_finish [30] 4 k r1 = Some (tt, r2)
    /\ rte_ring_enqueue_zc_elem_finish k (set_slots (zc_fill 1 z k [30] (slots r1)) r1)
       = Some (tt, r2))
  /\ exists k z obj' rest r1,
    rte_ring_dequeue_bulk_elem_start [30] 4 1 true peek_ring = Some (k, obj', rest, r1)
    /\ rte_ring_dequeue_zc_bulk_elem_start 4 1 (mk_zc_data 0 None 0) true peek_ring
       = Some (k, z, rest, r1)
    /\ zc_read 1 z k (slots r1) = take (Z.to_nat k * 1) obj'.
Proof.
  apply (zero_copy_equivalent 1 peek_ring 1 RTE_RING_QUEUE_FIXED true [30] (mk_zc_data 0 None 0)).
  - apply peek_ring_inv.
  - apply peek_ring_sync.
  - lia.
  - simpl. lia.
Defined.
