(* ===== verification/Locks.v ===== *)
(** * Locks ([include/rte_spinlock.h], [include/generic/rte_ticketlock.h],
    [include/generic/rte_rwlock.h]).

    Each lock is a shared word and a program per thread; a step of a thread is
    one access of the memory, as the processor executes it, so the runs are
    all the interleavings of the threads on a sequentially consistent memory.
    A schedule says which thread takes the next step, which function it calls
    when it is idle, and whether a weak compare-and-swap fails spuriously. *)
From stdpp Require Import prelude list numbers.
From S2P Require Import Prelude.
Open Scope Z_scope.

(** ** Counting threads *)

Fixpoint tally {A} (f : A -> bool) (l : list A) : Z :=
  match l with
  | [] => 0
  | a :: l => b2z (f a) + tally f l
  end.

Lemma tally_range {A} (f : A -> bool) l : 0 <= tally f l <= Z.of_nat (length l).
Proof. induction l as [|a l IH]; simpl tally; simpl length; [lia|]. destruct (f a); simpl; lia. Qed.

(** One thread changes. *)
Lemma tally_insert {A} (f : A -> bool) l t p q :
  l !! t = Some p -> tally f (<[t := q]> l) = tally f l - b2z (f p) + b2z (f q).
Proof.
  revert t. induction l as [|a l IH]; intros [|t] H; simpl in H; [done..| |].
  - simplify_eq. simpl. lia.
  - simpl. rewrite (IH t H). lia.
Qed.

Lemma tally_repeat {A} (f : A -> bool) a n : f a = false -> tally f (repeat a n) = 0.
Proof. intros H. induction n as [|n IH]; [done|]. simpl. by rewrite H, IH. Qed.

(** Two different threads that count are at least two. *)
Lemma tally_two {A} (f : A -> bool) l t1 t2 p1 p2 :
  l !! t1 = Some p1 -> l !! t2 = Some p2 -> f p1 = true -> f p2 = true -> tally f l <= 1 -> t1 = t2.
Proof.
  revert t1 t2. induction l as [|a l IH]; intros t1 t2 H1 H2 F1 F2 Hl; [done|].
  pose proof (tally_range f l) as R. simpl in Hl.
  assert (forall t p, l !! t = Some p -> f p = true -> 1 <= tally f l) as G.
  { clear. intros t p. revert t. induction l as [|a l IH]; intros [|t] H F; simpl in H; [done..| |].
    - simplify_eq. simpl. rewrite F. pose proof (tally_range f l). simpl. lia.
    - simpl. pose proof (IH t H F). destruct (f a); simpl; lia. }
  destruct t1 as [|t1], t2 as [|t2]; simpl in H1, H2; simplify_eq; [done|..].
  - rewrite F1 in Hl. pose proof (G t2 p2 H2 F2). simpl in Hl. lia.
  - rewrite F2 in Hl. pose proof (G t1 p1 H1 F1). simpl in Hl. lia.
  - f_equal. apply IH; [done..|]. destruct (f a); simpl in Hl; lia.
Qed.

(** A run keeps what each step keeps. *)
Lemma run_invariant {S E} (step : E -> S -> S) (I : S -> Prop) (sched : list E) (s : S) :
  (forall e s, I s -> I (step e s)) -> I s -> I (foldl (fun s e => step e s) s sched).
Proof.
  intros H. revert s. induction sched as [|e sched IH]; intros s Hs; [done|]. apply IH, H, Hs.
Qed.

(** ** Spinlock: the exchange instruction of x86 *)
Module Spin.

(** [locked] is 0 or 1. *)
Definition rte_spinlock_t : Type := Z.
Definition rte_spinlock_init : rte_spinlock_t := 0.
Definition rte_spinlock_is_locked (sl : rte_spinlock_t) : Z := sl.

Inductive call := CLock | CTrylock.

(** Where a thread stands: not in the lock's code, before the exchange of
    [rte_spinlock_lock], in its inner loop, or owning the lock. *)
Inductive pc := Idle | Xchg | Spinning | Held.

(** [xchg %[locked], %[lv]] with [lv] = 1; [jz 3f]. *)
Definition rte_spinlock_lock (p : pc) (sl : rte_spinlock_t) : pc * rte_spinlock_t :=
  match p with
  | Spinning => (if sl =? 0 then Xchg else Spinning, sl)
  | _ => (if sl =? 0 then Held else Spinning, 1)
  end.

Definition rte_spinlock_trylock (sl : rte_spinlock_t) : pc * rte_spinlock_t :=
  (if sl =? 0 then Held else Idle, 1).

Definition rte_spinlock_unlock (sl : rte_spinlock_t) : pc * rte_spinlock_t := (Idle, 0).

Definition pc_step (c : call) (p : pc) (sl : rte_spinlock_t) : pc * rte_spinlock_t :=
  match p with
  | Idle => match c with CLock => rte_spinlock_lock Xchg sl | CTrylock => rte_spinlock_trylock sl end
  | Held => rte_spinlock_unlock sl
  | _ => rte_spinlock_lock p sl
  end.

Definition conf : Type := rte_spinlock_t * list pc.

Definition step (e : nat * call) (s : conf) : conf :=
  let '(t, c) := e in
  match s.2 !! t with
  | Some p => let '(p', sl) := pc_step c p s.1 in (sl, <[t := p']> s.2)
  | None => s
  end.

Definition run (sched : list (nat * call)) (s : conf) : conf := foldl (fun s e => step e s) s sched.

Definition owns (p : pc) : bool := match p with Held => true | _ => false end.
Definition inv (s : conf) : Prop := s.1 = tally owns s.2 /\ 0 <= s.1 <= 1.

Lemma spin_inv_step e s : inv s -> inv (step e s).
Proof.
  destruct e as [t c], s as [sl pcs]. intros [E R]. unfold step, inv in *. simpl in *.
  destruct (pcs !! t) as [p|] eqn:Hp; [|done].
  assert (H : forall q sl', sl' = sl - b2z (owns p) + b2z (owns q) -> 0 <= sl' <= 1 ->
            sl' = tally owns (<[t := q]> pcs) /\ 0 <= sl' <= 1).
  { intros q sl' -> Hr. rewrite (tally_insert _ _ _ p q Hp). by rewrite <- E. }
  assert (owns p = true -> sl = 1) as Ho.
  { intros Ho. pose proof (tally_insert owns pcs t p Idle Hp) as T. rewrite Ho in T. simpl in T.
    pose proof (tally_range owns (<[t := Idle]> pcs)). lia. }
  destruct p; [destruct c|..]; simpl; destruct (Z.eqb_spec sl 0); simpl in *;
    apply H; simpl; try lia; specialize (Ho eq_refl); lia.
Qed.

Lemma spin_inv_init n : inv (rte_spinlock_init, repeat Idle n).
Proof. split; simpl; [by rewrite tally_repeat|unfold rte_spinlock_init; lia]. Qed.
End Spin.

(** The spinlock excludes: in every interleaving of any number of threads
    that call lock, trylock and unlock, at most one owns the lock at a time,
    [rte_spinlock_is_locked] tells whether one does, and when none does, the
    next exchange of a thread takes the lock. *)
Theorem spinlock_exclusion (n : nat) (sched : list (nat * Spin.call)) :
  let s := Spin.run sched (Spin.rte_spinlock_init, repeat Spin.Idle n) in
  (forall t1 t2, s.2 !! t1 = Some Spin.Held -> s.2 !! t2 = Some Spin.Held -> t1 = t2)
  /\ (Spin.rte_spinlock_is_locked s.1 = 1 <-> exists t, s.2 !! t = Some Spin.Held)
  /\ (Spin.rte_spinlock_is_locked s.1 = 0 -> forall p, p = Spin.Xchg ->
      (Spin.rte_spinlock_lock p s.1).1 = Spin.Held).
Proof.
  intros s. assert (Spin.inv s) as [E R]
    by exact (run_invariant Spin.step Spin.inv sched _
    Spin.spin_inv_step (Spin.spin_inv_init n)).
  unfold Spin.rte_spinlock_is_locked. split_and!.
  - intros t1 t2 H1 H2. apply (tally_two Spin.owns s.2 t1 t2 Spin.Held Spin.Held); try done. lia.
  - split.
    + rewrite E. clear. induction s.2 as [|p l IH]; simpl; [lia|].
      destruct p; simpl; try (intros H; destruct IH as [t Ht]; [lia|by exists (Datatypes.S t)]).
      intros _. by exists 0%nat.
    + intros [t Ht]. pose proof (tally_insert Spin.owns s.2 t _ Spin.Idle Ht) as T. simpl in T.
      pose proof (tally_range Spin.owns (<[t := Spin.Idle]> s.2)). lia.
  - intros E0 p ->. simpl. rewrite E0. done.
Qed.

(** ** Reader-writer lock *)
Module Rw.

(** [cnt] is an [int32_t]. *)
Definition rte_rwlock_t : Type := Z.
Definition rte_rwlock_init : rte_rwlock_t := 0.

Inductive call := CRead | CTryRead | CWrite | CTryWrite.

(** Idle, before a load, between the load of [x] and the compare-and-swap, or
    holding the lock for reading or writing. *)
Inductive pc :=
  | Idle
  | ReadLoad | ReadCas (x : Z) | TryReadLoad | TryReadCas (x : Z)
  | WriteLoad | WriteCas (x : Z) | TryWriteCas (x : Z)
  | Reading | Writing.

(** [__atomic_compare_exchange_n(&rwl->cnt, &x, v, weak = 1)]. *)
Definition cas_weak (spurious : bool) (cnt x v : Z) : bool * Z :=
  if (cnt =? x) && negb spurious then (true, v) else (false, cnt).

Definition rte_rwlock_read_lock (sp : bool) (p : pc) (cnt : Z) : pc * Z :=
  match p with
  | ReadCas x =>
      let '(success, cnt) := cas_weak sp cnt x (i32 (x + 1)) in
      (if success then Reading else ReadLoad, cnt)
  | _ => (if cnt <? 0 then ReadLoad else ReadCas cnt, cnt)
  end.

Definition rte_rwlock_read_trylock (sp : bool) (p : pc) (cnt : Z) : pc * Z :=
  match p with
  | TryReadCas x =>
      let '(success, cnt) := cas_weak sp cnt x (i32 (x + 1)) in
      (if success then Reading else TryReadLoad, cnt)
  | _ => (if cnt <? 0 then Idle else TryReadCas cnt, cnt)
  end.

Definition rte_rwlock_read_unlock (cnt : Z) : pc * Z := (Idle, i32 (cnt - 1)).

Definition rte_rwlock_write_trylock (sp : bool) (p : pc) (cnt : Z) : pc * Z :=
  match p with
  | TryWriteCas x =>
      let '(success, cnt) := cas_weak sp cnt x (-1) in (if success then Writing else Idle, cnt)
  | _ => (if negb (cnt =? 0) then Idle else TryWriteCas cnt, cnt)
  end.

Definition rte_rwlock_write_lock (sp : bool) (p : pc) (cnt : Z) : pc * Z :=
  match p with
  | WriteCas x =>
      let '(success, cnt) := cas_weak sp cnt x (-1) in (if success then Writing else WriteLoad, cnt)
  | _ => (if negb (cnt =? 0) then WriteLoad else WriteCas cnt, cnt)
  end.

Definition rte_rwlock_write_unlock (cnt : Z) : pc * Z := (Idle, 0).

Definition pc_step (c : call) (sp : bool) (p : pc) (cnt : Z) : pc * Z :=
  match p with
  | Idle =>
      match c with
      | CRead => rte_rwlock_read_lock sp ReadLoad cnt
      | CTryRead => rte_rwlock_read_trylock sp TryReadLoad cnt
      | CWrite => rte_rwlock_write_lock sp WriteLoad cnt
      | CTryWrite => rte_rwlock_write_trylock sp Idle cnt
      end
  | ReadLoad | ReadCas _ => rte_rwlock_read_lock sp p cnt
  | TryReadLoad | TryReadCas _ => rte_rwlock_read_trylock sp p cnt
  | WriteLoad | WriteCas _ => rte_rwlock_write_lock sp p cnt
  | TryWriteCas _ => rte_rwlock_write_trylock sp p cnt
  | Reading => rte_rwlock_read_unlock cnt
  | Writing => rte_rwlock_write_unlock cnt
  end.

Definition conf : Type := rte_rwlock_t * list pc.

Definition step (e : nat * call * bool) (s : conf) : conf :=
  let '(t, c, sp) := e in
  match s.2 !! t with
  | Some p => let '(p', cnt) := pc_step c sp p s.1 in (cnt, <[t := p']> s.2)
  | None => s
  end.

Definition run (sched : list (nat * call * bool)) (s : conf) : conf :=
  foldl (fun s e => step e s) s sched.

Definition reads (p : pc) : bool := match p with Reading => true | _ => false end.
Definition writes (p : pc) : bool := match p with Writing => true | _ => false end.

(** The loaded values that a compare-and-swap compares with. *)
Definition loaded_ok (p : pc) : Prop :=
  match p with
  | ReadCas x | TryReadCas x => 0 <= x
  | WriteCas x | TryWriteCas x => x = 0
  | _ => True
  end.

Record inv (s : conf) : Prop := {
  inv_cnt : (s.1 = -1 /\ tally writes s.2 = 1 /\ tally reads s.2 = 0)
            \/ (s.1 = tally reads s.2 /\ tally writes s.2 = 0);
  inv_loaded : forall t p, s.2 !! t = Some p -> loaded_ok p;
  inv_threads : Z.of_nat (length s.2) < 2 ^ 31
}.

(** The thread at [t] moves on to [q] and the count to [cnt']. *)
Lemma inv_move s t p q cnt' :
  inv s -> s.2 !! t = Some p -> loaded_ok q ->
  ((cnt' = -1 /\ tally writes s.2 - b2z (writes p) + b2z (writes q) = 1
    /\ tally reads s.2 - b2z (reads p) + b2z (reads q) = 0)
   \/ (cnt' = tally reads s.2 - b2z (reads p) + b2z (reads q)
       /\ tally writes s.2 - b2z (writes p) + b2z (writes q) = 0)) ->
  inv (cnt', <[t := q]> s.2).
Proof.
  intros [Hc Hl Hn] Hp Hq H. split; simpl.
  - by rewrite !(tally_insert _ _ _ p q Hp).
  - intros t' p' Hp'. destruct (decide (t = t')) as [<-|].
    + rewrite list_lookup_insert_eq in Hp' by (by eapply lookup_lt_Some). by simplify_eq.
    + rewrite list_lookup_insert_ne in Hp' by done. by eapply Hl.
  - by rewrite length_insert.
Qed.

Lemma rw_inv_step e s : inv s -> inv (step e s).
Proof.
  destruct e as [[t c] sp]. intros I. unfold step.
  destruct (s.2 !! t) as [p|] eqn:Hp; [|by destruct s].
  pose proof (inv_cnt _ I) as Hc. pose proof (inv_loaded _ I t p Hp) as Hl.
  pose proof (inv_threads _ I) as Hn.
  pose proof (tally_range reads s.2) as Rr. pose proof (tally_range writes s.2) as Rw.
  pose proof (tally_insert reads s.2 t p Idle Hp) as Tr.
  pose proof (tally_insert writes s.2 t p Idle Hp) as Tw.
  pose proof (tally_range reads (<[t := Idle]> s.2)) as Rr'.
  pose proof (tally_range writes (<[t := Idle]> s.2)) as Rw'.
  rewrite length_insert in Rr', Rw'.
  pose proof (tally_insert reads s.2 t p Reading Hp) as Tr2.
  pose proof (tally_range reads (<[t := Reading]> s.2)) as Rr2. rewrite length_insert in Rr2.
  destruct (pc_step c sp p s.1) as [q cnt'] eqn:E.
  apply (inv_move s t p q cnt' I Hp);
    destruct p; [destruct c|..]; simpl in E, Hl, Tr, Tw, Tr2 |- *;
    unfold rte_rwlock_read_unlock, rte_rwlock_write_unlock, cas_weak in E; repeat case_match; simplify_eq; simpl; try done; try lia.
  all: try (rewrite swrap_small by lia); try lia.
Qed.

Lemma rw_inv_init n : Z.of_nat n < 2 ^ 31 -> inv (rte_rwlock_init, repeat Idle n).
Proof.
  intros Hn. split; simpl; [right; by rewrite !tally_repeat| |by rewrite repeat_length].
  intros t p Hp. apply list_elem_of_lookup_2, list_elem_of_In, repeat_spec in Hp. by subst.
Qed.
End Rw.

(** The reader-writer lock excludes: in every interleaving of fewer than
    2^31 threads that lock, try and unlock for reading and writing, with
    compare-and-swaps that fail at will, a thread that holds the lock for
    writing is alone, [cnt] is -1 exactly then and otherwise the number of
    readers, which does not overflow; and a free lock ([cnt] = 0) is taken by
    the next two steps of a thread that locks for writing. *)
Theorem rwlock_exclusion (n : nat) (sched : list (nat * Rw.call * bool)) :
  Z.of_nat n < 2 ^ 31 ->
  let s := Rw.run sched (Rw.rte_rwlock_init, repeat Rw.Idle n) in
  (forall t1 t2 p, s.2 !! t1 = Some Rw.Writing -> s.2 !! t2 = Some p ->
     p = Rw.Writing \/ p = Rw.Reading -> t1 = t2)
  /\ (s.1 = -1 <-> exists t, s.2 !! t = Some Rw.Writing)
  /\ (0 <= s.1 -> s.1 = tally Rw.reads s.2)
  /\ (s.1 = 0 -> Rw.rte_rwlock_write_lock false (Rw.rte_rwlock_write_lock false Rw.WriteLoad s.1).1 s.1
                 = (Rw.Writing, -1)).
Proof.
  intros Hn s. assert (Rw.inv s) as I
    by exact (run_invariant Rw.step Rw.inv sched _
    Rw.rw_inv_step (Rw.rw_inv_init n Hn)).
  pose proof (Rw.inv_cnt _ I) as Hc.
  pose proof (tally_range Rw.reads s.2). pose proof (tally_range Rw.writes s.2).
  assert (W : forall t, s.2 !! t = Some Rw.Writing -> 1 <= tally Rw.writes s.2).
  { intros t Ht. pose proof (tally_insert Rw.writes s.2 t _ Rw.Idle Ht) as T. simpl in T.
    pose proof (tally_range Rw.writes (<[t := Rw.Idle]> s.2)). lia. }
  split_and!.
  - intros t1 t2 p H1 H2 [->| ->].
    + apply (tally_two Rw.writes s.2 t1 t2 Rw.Writing Rw.Writing); try done. lia.
    + pose proof (W t1 H1). pose proof (tally_insert Rw.reads s.2 t2 _ Rw.Idle H2) as T.
      simpl in T. pose proof (tally_range Rw.reads (<[t2 := Rw.Idle]> s.2)). lia.
  - split.
    + intros E. assert (1 <= tally Rw.writes s.2) as G by lia. clear - G.
      induction s.2 as [|p l IH]; simpl in G; [lia|].
      destruct p; simpl in G; try (destruct IH as [t Ht]; [lia|by exists (Datatypes.S t)]).
      by exists 0%nat.
    + intros [t Ht]. pose proof (W t Ht). lia.
  - lia.
  - intros E. rewrite E. reflexivity.
Qed.

Lemma rwlock_exclusion_witness :
  let s := Rw.run [(0%nat, Rw.CRead, false); (1%nat, Rw.CRead, false); (0%nat, Rw.CRead, false);
                   (1%nat, Rw.CRead, true); (1%nat, Rw.CRead, false); (1%nat, Rw.CRead, false)]
             (Rw.rte_rwlock_init, repeat Rw.Idle 3) in
  s.1 = 2 /\ s.1 = tally Rw.reads s.2.
Proof.
  intros s. split; [reflexivity|].
  apply (rwlock_exclusion 3 [(0%nat, Rw.CRead, false); (1%nat, Rw.CRead, false);
    (0%nat, Rw.CRead, false); (1%nat, Rw.CRead, true); (1%nat, Rw.CRead, false);
    (1%nat, Rw.CRead, false)]); [simpl; lia|]. vm_compute. discriminate.
Defined.

(** ** Ticket lock *)
Module Ticket.

(** The two 16-bit halves of [tickets]. *)
Record rte_ticketlock_t := mk_lock { current : Z; next : Z }.

#[global] Instance lock_eq_dec : EqDecision rte_ticketlock_t.
Proof. solve_decision. Defined.

Definition rte_ticketlock_init : rte_ticketlock_t := mk_lock 0 0.
Definition rte_ticketlock_is_locked (tl : rte_ticketlock_t) : Z :=
  b2z (negb (current tl =? next tl)).

Inductive call := CLock | CTrylock.

(** Idle, waiting for its ticket, between the load and the compare-and-swap of
    trylock, owning the lock, or between the load and the store of unlock. *)
Inductive pc := Idle | Wait (me : Z) | TryCas (oldl : rte_ticketlock_t) | Held | Store (i : Z).

Definition rte_ticketlock_lock (p : pc) (tl : rte_ticketlock_t) : pc * rte_ticketlock_t :=
  match p with
  | Wait me => (if current tl =? me then Held else Wait me, tl)
  | _ => (Wait (next tl), mk_lock (current tl) (u16 (next tl + 1)))
  end.

Definition rte_ticketlock_unlock (p : pc) (tl : rte_ticketlock_t) : pc * rte_ticketlock_t :=
  match p with
  | Store i => (Idle, mk_lock (u16 (i + 1)) (next tl))
  | _ => (Store (current tl), tl)
  end.

Definition rte_ticketlock_trylock (p : pc) (tl : rte_ticketlock_t) : pc * rte_ticketlock_t :=
  match p with
  | TryCas oldl =>
      let newl := mk_lock (current oldl) (u16 (next oldl + 1)) in
      if next oldl =? current oldl then
        if decide (tl = oldl) then (Held, newl) else (Idle, tl)
      else (Idle, tl)
  | _ => (TryCas tl, tl)
  end.

Definition pc_step (c : call) (p : pc) (tl : rte_ticketlock_t) : pc * rte_ticketlock_t :=
  match p with
  | Idle => match c with
            | CLock => rte_ticketlock_lock p tl
            | CTrylock => rte_ticketlock_trylock p tl
            end
  | Wait _ => rte_ticketlock_lock p tl
  | TryCas _ => rte_ticketlock_trylock p tl
  | Held | Store _ => rte_ticketlock_unlock p tl
  end.

(** The lock, the threads, and the history: the threads in the order in which
    they took a ticket, those in the order in which they got the lock, and how
    many have released it. *)
Record conf := mk_conf {
  lock : rte_ticketlock_t;
  threads : list pc;
  arrived : list nat;
  entered : list nat;
  departed : nat
}.

Definition step (e : nat * call) (s : conf) : conf :=
  let '(t, c) := e in
  match threads s !! t with
  | Some p =>
      let '(p', tl) := pc_step c p (lock s) in
      mk_conf tl (<[t := p']> (threads s))
        (match p, p' with
         | Idle, Wait _ | TryCas _, Held => arrived s ++ [t]
         | _, _ => arrived s end)
        (match p, p' with
         | Wait _, Held | TryCas _, Held => entered s ++ [t]
         | _, _ => entered s end)
        (match p, p' with
         | Store _, Idle => Datatypes.S (departed s)
         | _, _ => departed s end)
  | None => s
  end.

Definition run (sched : list (nat * call)) (s : conf) : conf := foldl (fun s e => step e s) s sched.

Definition init (n : nat) : conf := mk_conf rte_ticketlock_init (repeat Idle n) [] [] 0.

Definition owns (p : pc) : bool := match p with Held | Store _ => true | _ => false end.

(** The threads with a ticket that have not released it, in order. *)
Definition queue (s : conf) : list nat := drop (departed s) (arrived s).

(** What a thread may do when it is the [i]-th of the queue. *)
Definition queued (cur : Z) (i : nat) (p : pc) : Prop :=
  p = Wait (u16 (cur + Z.of_nat i)) \/ (i = 0%nat /\ (p = Held \/ p = Store cur)).

(** How many threads have got the lock, if [p] is the head of the queue. *)
Definition head_entered (s : conf) : nat :=
  match queue s with
  | [] => 0
  | t :: _ => match threads s !! t with Some p => if owns p then 1 else 0 | None => 0 end
  end.

Record inv (s : conf) : Prop := {
  i_cur : fits 16 (current (lock s));
  i_next : next (lock s) = u16 (current (lock s) + Z.of_nat (length (queue s)));
  i_departed : (departed s <= length (arrived s))%nat;
  i_nodup : NoDup (queue s);
  i_queue : forall i t, queue s !! i = Some t ->
            exists p, threads s !! t = Some p /\ queued (current (lock s)) i p;
  i_others : forall t p, threads s !! t = Some p -> t ∉ queue s ->
             p = Idle \/ exists oldl, p = TryCas oldl;
  i_entered : entered s = take (departed s + head_entered s) (arrived s);
  i_threads : (length (threads s) < Z.to_nat (2 ^ 16))%nat
}.

(** *** Facts of the invariant *)

Lemma queue_length s : inv s -> (length (queue s) <= length (threads s))%nat.
Proof.
  intros I. rewrite <- (length_seq (length (threads s)) 0).
  apply submseteq_length, NoDup_submseteq; [apply I|].
  intros t Ht. apply list_elem_of_lookup in Ht as [i Hi].
  destruct (i_queue _ I i t Hi) as (p & Hp & _). apply elem_of_seq.
  pose proof (lookup_lt_Some _ _ _ Hp). lia.
Qed.

Lemma ticket_eq cur (i j : nat) :
  fits 16 cur -> (i < Z.to_nat (2 ^ 16))%nat -> (j < Z.to_nat (2 ^ 16))%nat ->
  u16 (cur + Z.of_nat i) = u16 (cur + Z.of_nat j) -> i = j.
Proof.
  unfold fits, wrap. intros Hc Hi Hj E.
  pose proof (Z.div_mod (cur + Z.of_nat i) (2 ^ 16) ltac:(lia)).
  pose proof (Z.div_mod (cur + Z.of_nat j) (2 ^ 16) ltac:(lia)).
  pose proof (Z.mod_pos_bound (cur + Z.of_nat i) (2 ^ 16) ltac:(lia)). nia.
Qed.

(** A thread with a ticket that waits, owns or releases is in the queue. *)
Lemma in_queue s t p :
  inv s -> threads s !! t = Some p -> p <> Idle -> (forall o, p <> TryCas o) ->
  exists i, queue s !! i = Some t /\ queued (current (lock s)) i p.
Proof.
  intros I Hp H1 H2. destruct (decide (t ∈ queue s)) as [Hin|Hn].
  - apply list_elem_of_lookup in Hin as [i Hi]. exists i. split; [done|].
    destruct (i_queue _ I i t Hi) as (p' & Hp' & Q). by simplify_eq.
  - destruct (i_others _ I t p Hp Hn) as [->|[o ->]]; [done|]. by destruct (H2 o).
Qed.

Lemma not_in_queue s t p :
  inv s -> threads s !! t = Some p -> p = Idle \/ (exists o, p = TryCas o) -> t ∉ queue s.
Proof.
  intros I Hp H Hin. apply list_elem_of_lookup in Hin as [i Hi].
  destruct (i_queue _ I i t Hi) as (p' & Hp' & Q). simplify_eq.
  destruct Q as [->|[_ [->| ->]]]; destruct H as [H|[o H]]; done.
Qed.

(** The waiting thread whose ticket is the current one is the head. *)
Lemma current_is_head s t :
  inv s -> threads s !! t = Some (Wait (current (lock s))) -> queue s !! 0%nat = Some t.
Proof.
  intros I Hp. destruct (in_queue s t _ I Hp) as (i & Hi & Q); [done|done|].
  destruct Q as [E|[_ [E|E]]]; [|done|done]. injection E as E.
  pose proof (queue_length s I). pose proof (i_threads _ I). pose proof (lookup_lt_Some _ _ _ Hi).
  pose proof (i_cur _ I) as Hc.
  assert (0%nat = i) as <-; [|done]. apply (ticket_eq (current (lock s))); [done|lia|lia|].
  rewrite <- E, Z.add_0_r. by apply wrap_small.
Qed.

Lemma owner_is_head s t p :
  inv s -> threads s !! t = Some p -> owns p = true ->
  queue s !! 0%nat = Some t /\ (p = Held \/ p = Store (current (lock s))).
Proof.
  intros I Hp Ho. destruct (in_queue s t p I Hp) as (i & Hi & Q); [by intros ->|by intros o ->|].
  destruct Q as [->|[-> H]]; [done|]. done.
Qed.

Lemma head_entered_head s t p :
  queue s !! 0%nat = Some t -> threads s !! t = Some p ->
  head_entered s = if owns p then 1%nat else 0%nat.
Proof.
  intros Hq Hp. unfold head_entered. destruct (queue s) as [|t' q]; [done|]. simpl in Hq.
  simplify_eq. by rewrite Hp.
Qed.

Lemma head_of_queue s t : queue s !! 0%nat = Some t -> arrived s !! departed s = Some t.
Proof. unfold queue. rewrite lookup_drop. by rewrite Nat.add_0_r. Qed.

Lemma head_entered_le s : (head_entered s <= length (queue s))%nat.
Proof.
  unfold head_entered. destruct (queue s) as [|t q]; simpl; [lia|].
  destruct (threads s !! t) as [p|]; [destruct (owns p)|]; lia.
Qed.

(** *** Every step keeps it *)

(** A thread outside the queue that stays outside. *)
Lemma inv_outside s t p q :
  inv s -> threads s !! t = Some p -> t ∉ queue s -> q = Idle \/ (exists o, q = TryCas o) ->
  inv (mk_conf (lock s) (<[t := q]> (threads s)) (arrived s) (entered s) (departed s)).
Proof.
  intros I Hp Hn Hq. pose proof (lookup_lt_Some _ _ _ Hp) as Hlt.
  destruct I as [I1 I2 I3 I4 I5 I6 I7 I8]. split; simpl; try done.
  - intros i t' Hi. destruct (I5 i t' Hi) as (p' & Hp' & Q). exists p'. split; [|done].
    rewrite list_lookup_insert_ne; [done|]. intros ->. by apply Hn, list_elem_of_lookup_2 with i.
  - intros t' p' Hp' Hn'. destruct (decide (t = t')) as [<-|].
    + rewrite list_lookup_insert_eq in Hp' by done. by simplify_eq.
    + rewrite list_lookup_insert_ne in Hp' by done. by eapply I6.
  - rewrite I7. f_equal. f_equal. unfold head_entered, queue. simpl.
    destruct (drop (departed s) (arrived s)) as [|t' r] eqn:E; [done|].
    rewrite list_lookup_insert_ne; [done|]. intros ->. apply Hn. unfold queue. rewrite E. by left.
  - by rewrite length_insert.
Qed.

Lemma queue_join s tl ths ent t :
  (departed s <= length (arrived s))%nat ->
  queue (mk_conf tl ths (arrived s ++ [t]) ent (departed s)) = queue s ++ [t].
Proof. intros H. unfold queue. simpl. by rewrite drop_app_le. Qed.

Lemma queue_leave s tl ths ent t r :
  queue s = t :: r -> queue (mk_conf tl ths (arrived s) ent (Datatypes.S (departed s))) = r.
Proof.
  intros E. unfold queue in *. simpl. by rewrite <- Nat.add_1_r, <- drop_drop, E.
Qed.

(** A thread joins the queue at its end. *)
Lemma inv_join s t p q ent :
  inv s -> threads s !! t = Some p -> t ∉ queue s ->
  queued (current (lock s)) (length (queue s)) q ->
  ent = (if owns q then entered s ++ [t] else entered s) ->
  inv (mk_conf (mk_lock (current (lock s)) (u16 (next (lock s) + 1))) (<[t := q]> (threads s))
         (arrived s ++ [t]) ent (departed s)).
Proof.
  intros I Hp Hn Q ->. pose proof (lookup_lt_Some _ _ _ Hp) as Hlt.
  pose proof (head_entered_le s) as Hle. destruct I as [I1 I2 I3 I4 I5 I6 I7 I8].
  assert (Lq : length (queue s) = (length (arrived s) - departed s)%nat) by apply length_drop.
  split; rewrite ?queue_join by done; simpl; try done.
  - rewrite length_app, I2. autorewrite with wrapdb. f_equal. simpl. lia.
  - rewrite length_app. lia.
  - apply list.NoDup_app. split_and!; [done| |apply NoDup_singleton].
    intros x Hx Hx'. apply list_elem_of_singleton in Hx' as ->. done.
  - intros i t' Hi. destruct (decide (i < length (queue s))%nat) as [Hi'|Hi'].
    + rewrite lookup_app_l in Hi by done. destruct (I5 i t' Hi) as (p' & Hp' & Q').
      exists p'. split; [|done]. rewrite list_lookup_insert_ne; [done|].
      intros ->. by apply Hn, list_elem_of_lookup_2 with i.
    + rewrite lookup_app_r in Hi by lia. apply list_lookup_singleton_Some in Hi as [Hi <-].
      replace i with (length (queue s)) by lia. exists q. by rewrite list_lookup_insert_eq.
  - intros t' p' Hp' Hn'. rewrite elem_of_app, list_elem_of_singleton in Hn'.
    rewrite list_lookup_insert_ne in Hp' by (intros ->; tauto). apply (I6 t' p' Hp'). tauto.
  - assert (He : head_entered (mk_conf (mk_lock (current (lock s)) (u16 (next (lock s) + 1)))
                  (<[t := q]> (threads s)) (arrived s ++ [t])
                  (if owns q then entered s ++ [t] else entered s) (departed s))
                = if owns q then 1%nat else head_entered s).
    { unfold head_entered at 1. rewrite queue_join by done. cbn [threads].
      destruct (queue s) as [|t' r] eqn:E; simpl.
      - rewrite list_lookup_insert_eq by done. unfold head_entered. by rewrite E.
      - destruct Q as [->|[Q _]]; [|done]. simpl. unfold head_entered. rewrite E.
        rewrite list_lookup_insert_ne; [done|]. intros ->. apply Hn. by left. }
    rewrite He. destruct (owns q) eqn:O.
    + assert (length (queue s) = 0%nat) as L0 by (destruct Q as [->|[Q _]]; done).
      rewrite I7, !take_ge by (rewrite ?length_app; simpl; lia). done.
    + rewrite I7. by rewrite take_app_le by lia.
  - by rewrite length_insert.
Qed.

(** The head of the queue moves on: it gets the lock or starts to release it. *)
Lemma inv_head s t p q ent :
  inv s -> queue s !! 0%nat = Some t -> threads s !! t = Some p ->
  q = Held \/ q = Store (current (lock s)) ->
  ent = (if owns p then entered s else entered s ++ [t]) ->
  inv (mk_conf (lock s) (<[t := q]> (threads s)) (arrived s) ent (departed s)).
Proof.
  intros I Hq Hp Ht ->. pose proof (head_entered_head s t p Hq Hp) as He.
  pose proof (head_of_queue s t Hq) as Ha. pose proof (lookup_lt_Some _ _ _ Hp) as Hlt.
  destruct I as [I1 I2 I3 I4 I5 I6 I7 I8]. split; simpl; try done.
  - intros i t' Hi. destruct (decide (t = t')) as [<-|].
    + assert (i = 0%nat) as -> by (by eapply NoDup_lookup).
      exists q. rewrite list_lookup_insert_eq by done. split; [done|]. by right.
    + rewrite list_lookup_insert_ne by done. by apply I5.
  - intros t' p' Hp' Hn'. rewrite list_lookup_insert_ne in Hp'; [by eapply I6|].
    intros ->. by apply Hn', list_elem_of_lookup_2 with 0%nat.
  - rewrite (head_entered_head _ t q) by (done || (by apply list_lookup_insert_eq)).
    replace (owns q) with true by (by destruct Ht as [->| ->]).
    rewrite I7, He. destruct (owns p); [done|].
    rewrite Nat.add_0_r, Nat.add_1_r. symmetry. by apply take_S_r.
  - by rewrite length_insert.
Qed.

(** The head of the queue leaves it. *)
Lemma inv_leave s t p :
  inv s -> queue s !! 0%nat = Some t -> threads s !! t = Some p -> owns p = true ->
  inv (mk_conf (mk_lock (u16 (current (lock s) + 1)) (next (lock s))) (<[t := Idle]> (threads s))
         (arrived s) (entered s) (Datatypes.S (departed s))).
Proof.
  intros I Hq Hp Ho. pose proof (head_entered_head s t p Hq Hp) as He. rewrite Ho in He.
  pose proof (lookup_lt_Some _ _ _ Hp) as Hlt. pose proof (head_of_queue s t Hq) as Ha.
  apply lookup_lt_Some in Ha. destruct I as [I1 I2 I3 I4 I5 I6 I7 I8].
  assert (exists r, queue s = t :: r) as [r Er].
  { destruct (queue s) as [|x r]; [done|]. simpl in Hq. simplify_eq. by exists r. }
  pose proof Er as Er'. rewrite Er in I2, I4, I5, I6. apply list.NoDup_cons in I4 as [Ht Hr].
  assert (W : forall i t', r !! i = Some t' -> exists p', <[t := Idle]> (threads s) !! t' = Some p'
            /\ p' = Wait (u16 (current (lock s) + 1 + Z.of_nat i))).
  { intros i t' Hi. destruct (I5 (Datatypes.S i) t' Hi) as (p' & Hp' & Q). exists p'. split.
    - rewrite list_lookup_insert_ne; [done|]. intros ->. by apply Ht, list_elem_of_lookup_2 with i.
    - destruct Q as [->|[? _]]; [|done]. do 2 f_equal. lia. }
  split; rewrite ?(queue_leave s _ _ _ t r Er'); simpl; try done.
  - by apply wrap_fits.
  - rewrite I2. autorewrite with wrapdb. f_equal. cbn [length]. lia.
  - intros i t' Hi. destruct (W i t' Hi) as (p' & Hp' & ->). eexists. split; [exact Hp'|]. left.
    by autorewrite with wrapdb.
  - intros t' p' Hp' Hn'. destruct (decide (t = t')) as [<-|].
    + rewrite list_lookup_insert_eq in Hp' by done. simplify_eq. by left.
    + rewrite list_lookup_insert_ne in Hp' by done. apply (I6 t' p' Hp').
      rewrite elem_of_cons. intros [->|]; done.
  - assert (forall tl ent, head_entered (mk_conf tl (<[t := Idle]> (threads s)) (arrived s) ent
              (Datatypes.S (departed s))) = 0%nat) as ->.
    { intros tl ent. unfold head_entered. rewrite (queue_leave s _ _ _ t r Er'). cbn [threads].
      destruct r as [|t' r]; [done|]. by destruct (W 0%nat t' eq_refl) as (p' & -> & ->). }
    rewrite I7, He. f_equal. lia.
  - by rewrite length_insert.
Qed.

Lemma ticket_inv_step e s : inv s -> inv (step e s).
Proof.
  destruct e as [t c]. intros I. unfold step.
  destruct (threads s !! t) as [p|] eqn:Hp; [|done]. pose proof (i_cur _ I) as Hc.
  destruct p as [|me|o| |i].
  - pose proof (not_in_queue s t _ I Hp (or_introl eq_refl)) as Hn. destruct c; simpl.
    + apply (inv_join s t Idle); try done. left. by rewrite (i_next _ I).
    + apply (inv_outside s t Idle); try done. right. by eexists.
  - simpl. destruct (Z.eqb_spec (current (lock s)) me) as [<-|Ne].
    + pose proof (current_is_head s t I Hp) as Hq.
      apply (inv_head s t (Wait (current (lock s)))); try done. by left.
    + rewrite list_insert_id by done. by destruct s.
  - pose proof (not_in_queue s t _ I Hp (or_intror (ex_intro _ o eq_refl))) as Hn. simpl.
    destruct (Z.eqb_spec (next o) (current o)) as [E|]; [destruct (decide (lock s = o)) as [<-|]|].
    + apply (inv_join s t (TryCas (lock s))); try done.
      right. split; [|by left]. pose proof (queue_length s I). pose proof (i_threads _ I).
      apply (ticket_eq (current (lock s))); [done|lia|lia|].
      rewrite <- (i_next _ I), E, Z.add_0_r. symmetry. by apply wrap_small.
    + apply (inv_outside s t (TryCas o)); try done. by left.
    + apply (inv_outside s t (TryCas o)); try done. by left.
  - destruct (owner_is_head s t Held I Hp eq_refl) as [Hq _]. simpl.
    apply (inv_head s t Held); try done. by right.
  - destruct (owner_is_head s t (Store i) I Hp eq_refl) as [Hq [E|E]]; [done|].
    injection E as ->. simpl. by apply (inv_leave s t (Store (current (lock s)))).
Qed.

Lemma ticket_inv_init n : (n < Z.to_nat (2 ^ 16))%nat -> inv (init n).
Proof.
  intros Hn. split; simpl; try done.
  - constructor.
  - intros t p Hp _. apply list_elem_of_lookup_2, list_elem_of_In, repeat_spec in Hp. by left.
  - by rewrite repeat_length.
Qed.
End Ticket.

(** The ticket lock is fair and excludes: in every interleaving of fewer
    than 2^16 threads that call lock, trylock and unlock, at most one thread
    owns the lock; the threads have got it exactly in the order in which they
    took their tickets, across the wrap-around of the 16-bit counters;
    [rte_ticketlock_is_locked] tells whether a thread has a ticket that it has
    not released; and then the first of these owns the lock already or gets it
    with its next step. *)
Theorem ticketlock_fair (n : nat) (sched : list (nat * Ticket.call)) :
  (n < Z.to_nat (2 ^ 16))%nat ->
  let s := Ticket.run sched (Ticket.init n) in
  (forall t1 t2 p1 p2, Ticket.threads s !! t1 = Some p1 -> Ticket.threads s !! t2 = Some p2 ->
     Ticket.owns p1 = true -> Ticket.owns p2 = true -> t1 = t2)
  /\ Ticket.entered s `prefix_of` Ticket.arrived s
  /\ Ticket.rte_ticketlock_is_locked (Ticket.lock s) = b2z (bool_decide (Ticket.queue s <> []))
  /\ (forall t, Ticket.queue s !! 0%nat = Some t ->
       exists p, Ticket.threads s !! t = Some p
         /\ (Ticket.owns p = true
             \/ (Ticket.rte_ticketlock_lock p (Ticket.lock s)).1 = Ticket.Held)).
Proof.
  intros Hn s. assert (Ticket.inv s) as I
    by exact (run_invariant Ticket.step Ticket.inv sched _
    Ticket.ticket_inv_step (Ticket.ticket_inv_init n Hn)).
  pose proof (Ticket.i_cur _ I) as Hc. split_and!.
  - intros t1 t2 p1 p2 H1 H2 O1 O2.
    destruct (Ticket.owner_is_head s t1 p1 I H1 O1) as [Q1 _].
    destruct (Ticket.owner_is_head s t2 p2 I H2 O2) as [Q2 _]. congruence.
  - rewrite (Ticket.i_entered _ I). apply prefix_take.
  - unfold Ticket.rte_ticketlock_is_locked. f_equal. rewrite (Ticket.i_next _ I).
    pose proof (Ticket.queue_length s I). pose proof (Ticket.i_threads _ I).
    destruct (Ticket.queue s) as [|t r] eqn:E.
    + by rewrite Z.add_0_r, (wrap_small 16), Z.eqb_refl.
    + rewrite bool_decide_true by done. apply negb_true_iff, Z.eqb_neq. intros Ec.
      assert (0%nat = length (t :: r)) as HL; [|done].
      apply (Ticket.ticket_eq (Ticket.current (Ticket.lock s))); [done|lia|lia|].
      rewrite <- Ec, Z.add_0_r. by apply wrap_small.
  - intros t Hq. destruct (Ticket.i_queue _ I 0 t Hq) as (p & Hp & Q). exists p. split; [done|].
    destruct Q as [->|[_ [->| ->]]]; [right|by left|by left].
    simpl. by rewrite Z.add_0_r, (wrap_small 16), Z.eqb_refl by done.
Qed.

Lemma ticketlock_fair_witness :
  let s := Ticket.run [(1%nat, Ticket.CLock); (0%nat, Ticket.CLock); (0%nat, Ticket.CLock);
                       (1%nat, Ticket.CLock); (1%nat, Ticket.CLock); (1%nat, Ticket.CLock);
                       (0%nat, Ticket.CLock)] (Ticket.init 2) in
  Ticket.entered s = [1; 0]%nat /\ Ticket.rte_ticketlock_is_locked (Ticket.lock s) = 1.
Proof.
  intros s. split; [reflexivity|].
  destruct (ticketlock_fair 2 [(1%nat, Ticket.CLock); (0%nat, Ticket.CLock); (0%nat, Ticket.CLock);
    (1%nat, Ticket.CLock); (1%nat, Ticket.CLock); (1%nat, Ticket.CLock); (0%nat, Ticket.CLock)])
    as (_ & _ & E & _).
  - apply Nat2Z.inj_lt. simpl. lia.
  - fold s in E. rewrite E. reflexivity.
Defined.
