(* ===== verification/RecLocks.v ===== *)
(** * Recursive locks ([include/generic/rte_spinlock.h],
    [include/generic/rte_ticketlock.h]).

    A recursive lock is a lock with the identifier of its owner and a count.
    Both locks of DPDK have the same code over a different base lock: it is
    written once over the interface [BaseLock], whose laws ([LawfulLock]) the
    spinlock and the ticket lock of [Locks] satisfy.  As in [Locks], a step of a
    thread is one access of the memory; the owner and the count are read and
    written without holding the base lock where the code does so. *)
From stdpp Require Import prelude list numbers.
From S2P Require Import Prelude Locks.
Open Scope Z_scope.

(** ** The interface of a base lock *)

Class BaseLock := {
  word : Type;
  pc : Type;
  pc_eq :: EqDecision pc;
  unlocked : word;
  is_locked : word -> Z;
  idle : pc;
  held : pc;
  (** A step of a thread; in [idle] it calls trylock or lock, in [held] unlock. *)
  pc_step : bool -> pc -> word -> pc * word
}.

Class LawfulLock (B : BaseLock) := {
  (** How many threads there may be. *)
  max_threads : nat -> Prop;
  inv : word -> list pc -> Prop;
  (** In the code of unlock. *)
  leaving : pc -> Prop;
  inv_init n : max_threads n -> inv unlocked (repeat idle n);
  inv_step w ps t p try : inv w ps -> ps !! t = Some p ->
    inv (pc_step try p w).2 (<[t := (pc_step try p w).1]> ps);
  exclusive w ps t1 t2 : inv w ps -> ps !! t1 = Some held -> ps !! t2 = Some held -> t1 = t2;
  idle_not_held : idle <> held;
  all_idle w ps : inv w ps -> (forall t p, ps !! t = Some p -> p = idle) -> is_locked w = 0;
  leaving_held : leaving held;
  leaving_step p try w : leaving p ->
    (pc_step try p w).1 <> held /\ ((pc_step try p w).1 = idle \/ leaving (pc_step try p w).1)
}.

(** How the count goes up and down; [None] is the overflow of a signed int. *)
Class Counter := {
  count_up : Z -> option Z;
  count_down : Z -> option Z
}.

Class LawfulCounter (C : Counter) := {
  up_ok c : 0 <= c < 2 ^ 31 - 1 -> count_up c = Some (c + 1);
  down_ok c : 1 <= c < 2 ^ 31 -> count_down c = Some (c - 1)
}.

Section Recursive.
Context `{B : BaseLock} `{C : Counter}.

Record rlock := mk_rlock { base : word; user : Z; count : Z }.

Definition recursive_init : rlock := mk_rlock unlocked (-1) 0.

(** Where a thread stands; [d] is how many calls of lock it has not undone.
    Outside the code, in the base lock's lock or trylock, before the store of
    the owner, before the load and the store of the count in lock, before the
    store of the count and of the owner in unlock, and in the base lock's
    unlock. *)
Inductive rpc :=
  | Out (d : nat)
  | Base (try : bool) (p : pc) (d : nat)
  | SetUser (d : nat) | LoadInc (d : nat) | StoreInc (c : Z) (d : nat)
  | StoreDec (c : Z) (d : nat) | ClearUser (d : nat) | Leave (p : pc) (d : nat).

Definition recursive_lock (try : bool) (id : Z) (p : rpc) (l : rlock) : option (rpc * rlock) :=
  match p with
  | Out d => Some (if user l =? id then LoadInc d else Base try idle d, l)
  | Base try p d =>
      let '(p', w) := pc_step try p (base l) in
      Some (if decide (p' = held) then SetUser d
            else if decide (p' = idle) then Out d else Base try p' d,
            mk_rlock w (user l) (count l))
  | SetUser d => Some (LoadInc d, mk_rlock (base l) id (count l))
  | LoadInc d => Some (StoreInc (count l) d, l)
  | StoreInc c d =>
      c ← count_up c ; Some (Out (Datatypes.S d), mk_rlock (base l) (user l) c)
  | _ => Some (p, l)
  end.

Definition recursive_unlock (p : rpc) (l : rlock) : option (rpc * rlock) :=
  match p with
  | Out d => Some (StoreDec (count l) d, l)
  | StoreDec c d =>
      c ← count_down c ;
      Some (if c =? 0 then ClearUser d else Out (Nat.pred d), mk_rlock (base l) (user l) c)
  | ClearUser d => Some (Leave held d, mk_rlock (base l) (-1) (count l))
  | Leave p d =>
      let '(p', w) := pc_step false p (base l) in
      Some (if decide (p' = idle) then Out (Nat.pred d) else Leave p' d,
            mk_rlock w (user l) (count l))
  | _ => Some (p, l)
  end.

Inductive rcall := RLock | RTrylock | RUnlock.

(** A thread outside the code calls a function, and unlocks only what it has
    locked; inside, it goes on. *)
Definition rpc_step (c : rcall) (id : Z) (p : rpc) (l : rlock) : option (rpc * rlock) :=
  match p, c with
  | Out 0, RUnlock => Some (p, l)
  | Out _, RUnlock => recursive_unlock p l
  | Out _, RLock => recursive_lock false id p l
  | Out _, RTrylock => recursive_lock true id p l
  | (StoreDec _ _ | ClearUser _ | Leave _ _), _ => recursive_unlock p l
  | _, _ => recursive_lock false id p l
  end.

(** [rte_gettid] of a thread. *)
Variable tid : nat -> Z.

Definition rconf : Type := rlock * list rpc.

Definition rstep (e : nat * rcall) (s : rconf) : option rconf :=
  let '(t, c) := e in
  match s.2 !! t with
  | Some p => '(p', l) ← rpc_step c (tid t) p s.1 ; Some (l, <[t := p']> s.2)
  | None => Some s
  end.

Fixpoint rrun (sched : list (nat * rcall)) (s : rconf) : option rconf :=
  match sched with
  | [] => Some s
  | e :: sched => s ← rstep e s ; rrun sched s
  end.

(** ** The invariant *)

(** The base lock's view of a thread. *)
Definition proj (p : rpc) : pc :=
  match p with
  | Out 0 => idle
  | Base _ p _ | Leave p _ => p
  | _ => held
  end.

Context `{LB : !LawfulLock B} `{LC : !LawfulCounter C}.

Definition local_ok (id : Z) (l : rlock) (p : rpc) : Prop :=
  match p with
  | Out 0 => True
  | Out d => user l = id /\ count l = Z.of_nat d
  | Base _ p d => d = 0%nat /\ p <> held
  | SetUser d => d = 0%nat /\ user l = -1 /\ count l = 0
  | LoadInc d => user l = id /\ count l = Z.of_nat d
  | StoreInc c d => user l = id /\ c = count l /\ count l = Z.of_nat d
  | StoreDec c d => user l = id /\ c = count l /\ count l = Z.of_nat d /\ (1 <= d)%nat
  | ClearUser d => user l = id /\ count l = 0 /\ d = 1%nat
  | Leave p d => d = 1%nat /\ leaving p /\ (p = held -> user l = -1 /\ count l = 0)
  end.

Record rinv (N : Z) (s : rconf) : Prop := {
  r_base : inv (base s.1) (proj <$> s.2);
  r_local : forall t p, s.2 !! t = Some p -> local_ok (tid t) s.1 p;
  r_user : forall t p, s.2 !! t = Some p -> proj p <> held -> user s.1 <> tid t;
  r_free : (forall t p, s.2 !! t = Some p -> proj p <> held) -> user s.1 = -1 /\ count s.1 = 0;
  r_bound : 0 <= count s.1 <= N
}.

(** What a thread that does not hold the base lock knows says nothing of the
    owner and the count. *)
Lemma local_unheld id l l' p : proj p <> held -> local_ok id l p -> local_ok id l' p.
Proof. destruct p as [[|d]|try p d|d|d|c d|c d|d|p d]; simpl; try done. by intros Hp (-> & Hl & _). Qed.

Lemma only_holder N s t p t' p' :
  rinv N s -> s.2 !! t = Some p -> proj p = held -> s.2 !! t' = Some p' -> t' <> t -> proj p' <> held.
Proof.
  intros I Ht Hp Ht' Hne Hp'. apply Hne. apply (exclusive (base s.1) (proj <$> s.2) t' t); [apply I|..].
  - by rewrite list_lookup_fmap, Ht', <- Hp'.
  - by rewrite list_lookup_fmap, Ht, <- Hp.
Qed.

(** A step of the thread [t]: the base lock moves as its laws say, and the
    owner and the count stay unless the thread holds the base lock before or
    after the step. *)
Lemma rinv_move N s t p p' l' :
  rinv N s -> s.2 !! t = Some p ->
  inv (base l') (<[t := proj p']> (proj <$> s.2)) ->
  (user l' = user s.1 /\ count l' = count s.1 \/ proj p = held) ->
  local_ok (tid t) l' p' ->
  (proj p' <> held -> user l' <> tid t) ->
  (forall t', t' <> t -> proj p = held -> user l' <> tid t') ->
  (proj p' <> held -> proj p = held -> user l' = -1 /\ count l' = 0) ->
  0 <= count l' <= N + 1 ->
  rinv (N + 1) (l', <[t := p']> s.2).
Proof.
  intros I Hp Hb Hsame Hl Hu Ho Hf Hc. pose proof (lookup_lt_Some _ _ _ Hp) as Hlt.
  split; cbn [fst snd].
  - by rewrite list_fmap_insert.
  - intros t' q Hq. destruct (decide (t' = t)) as [->|Ne].
    { rewrite list_lookup_insert_eq in Hq by done. by injection Hq as <-. }
    rewrite list_lookup_insert_ne in Hq by done. pose proof (r_local _ _ I t' q Hq) as L.
    destruct Hsame as [[E1 E2]|Hh].
    + destruct q as [[|d]|try x d|d|d|c d|c d|d|x d]; simpl in *; by rewrite ?E1, ?E2.
    + apply (local_unheld _ s.1); [|done]. by apply (only_holder N s t p t' q).
  - intros t' q Hq Hn. destruct (decide (t' = t)) as [->|Ne].
    { rewrite list_lookup_insert_eq in Hq by done. injection Hq as <-. by apply Hu. }
    rewrite list_lookup_insert_ne in Hq by done.
    destruct Hsame as [[-> _]|Hh]; [by apply (r_user _ _ I t' q)|by apply Ho].
  - intros Hall. assert (proj p' <> held) as Hp' by (apply (Hall t); by rewrite list_lookup_insert_eq).
    destruct (decide (proj p = held)) as [Hh|Hh]; [by apply Hf|].
    destruct Hsame as [[-> ->]|]; [|done]. apply (r_free _ _ I). intros t' q Hq.
    destruct (decide (t' = t)) as [->|Ne]; [by rewrite Hp in Hq; injection Hq as <-|].
    apply (Hall t'). by rewrite list_lookup_insert_ne.
  - done.
Qed.

Lemma base_stays N s t p p' w :
  rinv N s -> s.2 !! t = Some p -> proj p' = proj p -> w = base s.1 ->
  inv w (<[t := proj p']> (proj <$> s.2)).
Proof.
  intros I Hp E ->. rewrite E, list_insert_id; [apply I|]. by rewrite list_lookup_fmap, Hp.
Qed.

Lemma base_moves N s t p x try :
  rinv N s -> s.2 !! t = Some p -> proj p = x ->
  inv (pc_step try x (base s.1)).2 (<[t := (pc_step try x (base s.1)).1]> (proj <$> s.2)).
Proof.
  intros I Hp <-. apply inv_step; [apply I|]. by rewrite list_lookup_fmap, Hp.
Qed.

Lemma rinv_weaken N s : rinv N s -> rinv (N + 1) s.
Proof. intros [I1 I2 I3 I4 I5]. split; try done. lia. Qed.

(** The thread identifiers differ from each other and from -1. *)
Hypothesis tid_inj : forall t t', tid t = tid t' -> t = t'.
Hypothesis tid_valid : forall t, tid t <> -1.

Definition step_ok (N : Z) (s : rconf) (t : nat) (r : option (rpc * rlock)) : Prop :=
  exists p' l', r = Some (p', l') /\ rinv (N + 1) (l', <[t := p']> s.2).

(** A thread that holds the base lock moves inside. *)
Lemma held_moves N s t p p' l' :
  rinv N s -> s.2 !! t = Some p -> proj p = held -> proj p' = held -> base l' = base s.1 ->
  user l' = -1 \/ user l' = tid t -> local_ok (tid t) l' p' -> 0 <= count l' <= N + 1 ->
  rinv (N + 1) (l', <[t := p']> s.2).
Proof.
  intros I Hp Hh Hh' Hb Hu Hl Hc. apply (rinv_move N s t p); try done.
  - apply (base_stays N s t p); [done|done|congruence|done].
  - by right.
  - intros t' Ne _. destruct Hu as [-> | ->]; [by apply not_eq_sym, tid_valid|].
    intros E. by apply tid_inj in E as ->.
Qed.

Lemma lock_out_ok N s t d try :
  rinv N s -> s.2 !! t = Some (Out d) -> step_ok N s t (recursive_lock try (tid t) (Out d) s.1).
Proof.
  intros I Hp. pose proof (r_bound _ _ I). pose proof (r_local _ _ I t _ Hp) as L.
  eexists _, _. split; [reflexivity|]. destruct d as [|d].
  - pose proof (r_user _ _ I t _ Hp idle_not_held) as Hu. rewrite (proj2 (Z.eqb_neq _ _) Hu).
    apply (rinv_move N s t (Out 0)); try done.
    + by apply (base_stays N s t (Out 0)).
    + by left.
    + split; [done|apply idle_not_held].
    + intros t' _ E. by destruct (idle_not_held E).
    + lia.
  - destruct L as [Hu Hc]. rewrite (proj2 (Z.eqb_eq _ _) Hu).
    apply (held_moves N s t (Out (Datatypes.S d))); try done; [by right|lia].
Qed.

Lemma base_step_ok N s t try p d :
  rinv N s -> s.2 !! t = Some (Base try p d) ->
  step_ok N s t (recursive_lock try (tid t) (Base try p d) s.1).
Proof.
  intros I Hp. pose proof (r_bound _ _ I). pose proof (r_local _ _ I t _ Hp) as [-> Hn].
  pose proof (r_user _ _ I t _ Hp Hn) as Hu. pose proof (base_moves N s t _ p try I Hp eq_refl) as Hb.
  unfold step_ok, recursive_lock. destruct (pc_step try p (base s.1)) as [p' w]. cbn [fst snd] in Hb.
  eexists _, _. split; [reflexivity|]. apply (rinv_move N s t (Base try p 0)); try done; try by intros.
  - destruct (decide (p' = held)) as [->|]; [done|]. by destruct (decide (p' = idle)) as [->|].
  - by left.
  - destruct (decide (p' = held)) as [->|]; [|by destruct (decide (p' = idle))].
    split; [done|]. apply (r_free _ _ I). intros t' q Hq Hqh. destruct (decide (t' = t)) as [->|Ne].
    { rewrite Hp in Hq. by injection Hq as <-. }
    apply Ne. apply (exclusive w _ t' t Hb).
    + by rewrite list_lookup_insert_ne, list_lookup_fmap, Hq, <- Hqh by done.
    + apply list_lookup_insert_eq. rewrite length_fmap. by apply (lookup_lt_Some _ _ _ Hp).
  - simpl. lia.
Qed.

Lemma lock_held_ok N s t p :
  N < 2 ^ 31 - 1 -> rinv N s -> s.2 !! t = Some p ->
  match p with SetUser _ | LoadInc _ | StoreInc _ _ => True | _ => False end ->
  step_ok N s t (recursive_lock false (tid t) p s.1).
Proof.
  intros HN I Hp Hc. pose proof (r_bound _ _ I) as Hb. pose proof (r_local _ _ I t _ Hp) as L.
  destruct p as [| |d|d|c d| | |]; try done; simpl in L; unfold step_ok; simpl.
  - destruct L as (-> & Hu & Hn). eexists _, _. split; [reflexivity|].
    apply (held_moves N s t (SetUser 0)); simpl; try done; [by right|lia].
  - eexists _, _. split; [reflexivity|].
    apply (held_moves N s t (LoadInc d)); simpl; try done.
    + right. apply L.
    + split_and!; [apply L|done|apply L].
    + lia.
  - destruct L as (Hu & -> & Hn). rewrite up_ok by lia. eexists _, _. split; [reflexivity|].
    apply (held_moves N s t (StoreInc (count s.1) d)); simpl; try done.
    + by right.
    + split; [done|lia].
    + lia.
Qed.

Lemma unlock_held_ok N s t p :
  N < 2 ^ 31 - 1 -> rinv N s -> s.2 !! t = Some p ->
  match p with Out (Datatypes.S _) | StoreDec _ _ | ClearUser _ => True | _ => False end ->
  step_ok N s t (recursive_unlock p s.1).
Proof.
  intros HN I Hp Hc. pose proof (r_bound _ _ I) as Hb. pose proof (r_local _ _ I t _ Hp) as L.
  destruct p as [[|d]| | | | |c d|d|]; try done; simpl in L; unfold step_ok; simpl.
  - eexists _, _. split; [reflexivity|].
    apply (held_moves N s t (Out (Datatypes.S d))); simpl; try done.
    + right. apply L.
    + split_and!; [apply L|done|apply L|lia].
    + lia.
  - destruct L as (Hu & -> & Hn & Hd). rewrite down_ok by lia. simpl. eexists _, _. split; [reflexivity|].
    apply (held_moves N s t (StoreDec (count s.1) d)); simpl; try done.
    + destruct (Z.eqb_spec (count s.1 - 1) 0); [done|]. destruct d as [|[|d]]; [lia..|done].
    + by right.
    + destruct (Z.eqb_spec (count s.1 - 1) 0); simpl.
      * split; [done|split; lia].
      * destruct d as [|[|d]]; [lia..|]. simpl. split; [done|lia].
    + lia.
  - destruct L as (Hu & Hn & ->). eexists _, _. split; [reflexivity|].
    apply (held_moves N s t (ClearUser 1)); simpl; try done; [by left| |lia].
    split; [done|]. split; [apply leaving_held|done].
Qed.

Lemma leave_ok N s t p d :
  rinv N s -> s.2 !! t = Some (Leave p d) -> step_ok N s t (recursive_unlock (Leave p d) s.1).
Proof.
  intros I Hp. pose proof (r_bound _ _ I) as Hb. pose proof (r_local _ _ I t _ Hp) as (-> & Hl & Hf).
  pose proof (base_moves N s t _ p false I Hp eq_refl) as Hm.
  destruct (leaving_step p false (base s.1) Hl) as [Hne Hnext].
  unfold step_ok, recursive_unlock. destruct (pc_step false p (base s.1)) as [p' w]. cbn [fst snd] in *.
  eexists _, _. split; [reflexivity|].
  assert (Hfree : p = held -> forall t', user s.1 <> tid t').
  { intros E t'. destruct (Hf E) as [-> _]. by apply not_eq_sym, tid_valid. }
  apply (rinv_move N s t (Leave p 1)); try done.
  - by destruct (decide (p' = idle)) as [->|].
  - by left.
  - destruct (decide (p' = idle)); [done|]. split; [done|]. split; [|done]. by destruct Hnext.
  - intros _. simpl. destruct (decide (p = held)) as [E|E]; [by apply Hfree|].
    by apply (r_user _ _ I t _ Hp).
  - intros t' _ E. by apply Hfree.
  - simpl. lia.
Qed.

(** ** Steps and runs *)

Lemma rstep_ok N s e :
  N < 2 ^ 31 - 1 -> rinv N s -> exists s', rstep e s = Some s' /\ rinv (N + 1) s'.
Proof.
  intros HN I. destruct e as [t c]. unfold rstep. destruct (s.2 !! t) as [p|] eqn:Hp; [|eauto using rinv_weaken].
  assert (step_ok N s t (rpc_step c (tid t) p s.1)) as (p' & l' & -> & I');
    [|by exists (l', <[t := p']> s.2)].
  destruct p as [[|d]|try p d|d|d|k d|k d|d|p d]; cbn [rpc_step];
    try (by apply (lock_held_ok N s t)); try (by apply (unlock_held_ok N s t)); [| | |].
  - destruct c; [by apply (lock_out_ok N s t)..|]. exists (Out 0), s.1. split; [done|].
    rewrite list_insert_id by done. destruct s. by apply rinv_weaken.
  - destruct c; [by apply (lock_out_ok N s t)..|]. by apply (unlock_held_ok N s t).
  - exact (base_step_ok N s t try p d I Hp).
  - by apply (leave_ok N s t).
Qed.

Lemma rrun_ok sched : forall N s,
  0 <= N -> N + Z.of_nat (length sched) < 2 ^ 31 -> rinv N s ->
  exists s', rrun sched s = Some s' /\ rinv (N + Z.of_nat (length sched)) s'.
Proof.
  induction sched as [|e sched IH]; intros N s HN Hl I; cbn [length rrun] in *.
  { exists s. rewrite Z.add_0_r. by split. }
  destruct (rstep_ok N s e ltac:(lia) I) as (s1 & E & I1). rewrite E.
  destruct (IH (N + 1) s1 ltac:(lia) ltac:(lia) I1) as (s' & E' & I'). exists s'. split; [exact E'|].
  by replace (N + Z.of_nat (Datatypes.S (length sched))) with (N + 1 + Z.of_nat (length sched)) by lia.
Qed.

Lemma rinv_init n : max_threads n -> rinv 0 (recursive_init, repeat (Out 0) n).
Proof.
  intros Hn.
  assert (forall t p, repeat (Out 0) n !! t = Some p -> p = Out 0) as H.
  { intros t p Hp. apply list_elem_of_lookup_2, list_elem_of_In, repeat_spec in Hp. done. }
  split; simpl; [| | |done|lia].
  - replace (proj <$> repeat (Out 0) n) with (repeat idle n); [by apply inv_init|].
    clear. induction n as [|n IH]; [done|]. simpl. by rewrite IH.
  - intros t p Hp. by rewrite (H t p Hp).
  - intros t p _ _. by apply not_eq_sym, tid_valid.
Qed.

(** What is true between any two steps: at most one thread holds the lock; the
    owner and the count are those of the thread that holds it and of its calls;
    a thread that does not hold it is not the owner, so its test sends it to the
    base lock, where a thread that holds it never goes; and when no thread is
    concerned with the lock, it is free. *)
Definition recursive_facts (s : rconf) : Prop :=
  (forall t1 t2 d1 d2, s.2 !! t1 = Some (Out (Datatypes.S d1)) -> s.2 !! t2 = Some (Out (Datatypes.S d2)) ->
     t1 = t2)
  /\ (forall t d, s.2 !! t = Some (Out d) ->
       if decide (d = 0%nat) then user s.1 <> tid t else user s.1 = tid t /\ count s.1 = Z.of_nat d)
  /\ (forall t try p d, s.2 !! t = Some (Base try p d) -> d = 0%nat)
  /\ ((forall t p, s.2 !! t = Some p -> p = Out 0) ->
       user s.1 = -1 /\ count s.1 = 0 /\ is_locked (base s.1) = 0).

Lemma rinv_facts N s : rinv N s -> recursive_facts s.
Proof.
  intros I. unfold recursive_facts. split_and!.
  - intros t1 t2 d1 d2 H1 H2. destruct (decide (t2 = t1)) as [|Ne]; [done|].
    by destruct (only_holder N s t1 _ t2 _ I H1 eq_refl H2 Ne).
  - intros t d Ht. pose proof (r_local _ _ I t _ Ht) as L. destruct d as [|d]; [|done].
    by apply (r_user _ _ I t _ Ht), idle_not_held.
  - intros t try p d Ht. apply (r_local _ _ I t _ Ht).
  - intros H. destruct (r_free _ _ I) as [E1 E2].
    { intros t p Hp. rewrite (H t p Hp). apply idle_not_held. }
    split; [done|]. split; [done|]. apply (all_idle _ _ (r_base _ _ I)). intros t p Hp.
    rewrite list_lookup_fmap in Hp. destruct (s.2 !! t) as [q|] eqn:E; [|done].
    injection Hp as <-. by rewrite (H t q E).
Qed.

Lemma recursive_run_ok n sched :
  max_threads n -> Z.of_nat (length sched) < 2 ^ 31 ->
  exists s, rrun sched (recursive_init, repeat (Out 0) n) = Some s /\ recursive_facts s.
Proof.
  intros Hn Hl. destruct (rrun_ok sched 0 _ ltac:(lia) Hl (rinv_init n Hn)) as (s & E & I).
  exists s. split; [done|]. by apply rinv_facts in I.
Qed.
End Recursive.

(** ** The two base locks *)

#[global] Instance spin_pc_eq : EqDecision Spin.pc.
Proof. solve_decision. Defined.
#[global] Instance ticket_pc_eq : EqDecision Ticket.pc.
Proof. solve_decision. Defined.

#[global] Instance spin_base : BaseLock := {|
  word := Spin.rte_spinlock_t; pc := Spin.pc; unlocked := Spin.rte_spinlock_init;
  is_locked := Spin.rte_spinlock_is_locked;
  idle := Spin.Idle; held := Spin.Held;
  pc_step try := Spin.pc_step (if try then Spin.CTrylock else Spin.CLock)
|}.

#[global] Instance ticket_base : BaseLock := {|
  word := Ticket.rte_ticketlock_t; pc := Ticket.pc; unlocked := Ticket.rte_ticketlock_init;
  is_locked := Ticket.rte_ticketlock_is_locked;
  idle := Ticket.Idle; held := Ticket.Held;
  pc_step try := Ticket.pc_step (if try then Ticket.CTrylock else Ticket.CLock)
|}.

(** [volatile int count]. *)
#[global] Instance int_counter : Counter := {|
  count_up c := if c =? 2 ^ 31 - 1 then None else Some (c + 1);
  count_down c := if c =? - 2 ^ 31 then None else Some (c - 1)
|}.

(** [unsigned int count]. *)
#[global] Instance unsigned_counter : Counter := {|
  count_up c := Some (u32 (c + 1));
  count_down c := Some (u32 (c - 1))
|}.

#[global] Instance int_counter_lawful : LawfulCounter int_counter.
Proof.
  split; intros c Hc; simpl.
  - by rewrite (proj2 (Z.eqb_neq c _)) by lia.
  - by rewrite (proj2 (Z.eqb_neq c _)) by lia.
Qed.

#[global] Instance unsigned_counter_lawful : LawfulCounter unsigned_counter.
Proof. split; intros c Hc; simpl; by rewrite wrap_small by (unfold fits; lia). Qed.

#[global] Program Instance spin_lawful : LawfulLock spin_base := {|
  max_threads _ := True;
  inv w ps := Spin.inv (w, ps);
  leaving p := p = Spin.Held
|}.
Next Obligation. intros n _. apply Spin.spin_inv_init. Qed.
Next Obligation.
  intros w ps t p try I Hp. pose proof (Spin.spin_inv_step (t, if try then Spin.CTrylock else Spin.CLock) _ I) as H.
  unfold Spin.step in H. simpl in *. rewrite Hp in H. by destruct (Spin.pc_step _ p w).
Qed.
Next Obligation.
  intros w ps t1 t2 [E R] H1 H2. apply (tally_two Spin.owns ps t1 t2 Spin.Held Spin.Held); try done.
  simpl in *. lia.
Qed.
Next Obligation. done. Qed.
Next Obligation.
  intros w ps [E _] H. simpl in *. rewrite E. clear E.
  induction ps as [|p ps IH]; [done|]. rewrite (H 0%nat p eq_refl). simpl.
  apply IH. intros t q Hq. by apply (H (Datatypes.S t)).
Qed.
Next Obligation. done. Qed.
Next Obligation. intros p try w ->. simpl. split; [done|by left]. Qed.

#[global] Program Instance ticket_lawful : LawfulLock ticket_base := {|
  max_threads n := (n < Z.to_nat (2 ^ 16))%nat;
  inv w ps := exists a e d, Ticket.inv (Ticket.mk_conf w ps a e d);
  leaving p := Ticket.owns p = true
|}.
Next Obligation. intros n Hn. eexists _, _, _. by apply (Ticket.ticket_inv_init n). Qed.
Next Obligation.
  intros w ps t p try (a & e & d & I) Hp.
  pose proof (Ticket.ticket_inv_step (t, if try then Ticket.CTrylock else Ticket.CLock) _ I) as H.
  unfold Ticket.step in H. simpl in *. rewrite Hp in H.
  destruct (Ticket.pc_step _ p w). eexists _, _, _. exact H.
Qed.
Next Obligation.
  intros w ps t1 t2 (a & e & d & I) H1 H2.
  destruct (Ticket.owner_is_head _ t1 _ I H1 eq_refl) as [Q1 _].
  destruct (Ticket.owner_is_head _ t2 _ I H2 eq_refl) as [Q2 _]. congruence.
Qed.
Next Obligation. done. Qed.
Next Obligation.
  intros w ps (a & e & d & I) H. simpl in *. unfold Ticket.rte_ticketlock_is_locked.
  pose proof (Ticket.i_next _ I) as Hn. pose proof (Ticket.i_cur _ I) as Hc. simpl in *.
  destruct (Ticket.queue (Ticket.mk_conf w ps a e d)) as [|t q] eqn:E.
  - simpl in Hn. rewrite Z.add_0_r, wrap_small in Hn by done. by rewrite Hn, Z.eqb_refl.
  - destruct (Ticket.i_queue _ I 0 t ltac:(by rewrite E)) as (p & Hp & [-> | [_ [-> | ->]]]);
      by specialize (H t _ Hp).
Qed.
Next Obligation. done. Qed.
Next Obligation.
  intros p try w Hl. destruct p; try done; simpl; split; try done; [by right|by left].
Qed.

Module RecSpin.
Definition rte_spinlock_recursive_t : Type := @rlock spin_base.
Definition rte_spinlock_recursive_init : rte_spinlock_recursive_t := @recursive_init spin_base.
Definition rte_spinlock_recursive_lock := @recursive_lock spin_base int_counter false.
Definition rte_spinlock_recursive_trylock := @recursive_lock spin_base int_counter true.
Definition rte_spinlock_recursive_unlock := @recursive_unlock spin_base int_counter.
Definition run := @rrun spin_base int_counter.
End RecSpin.

Module RecTicket.
Definition rte_ticketlock_recursive_t : Type := @rlock ticket_base.
Definition rte_ticketlock_recursive_init : rte_ticketlock_recursive_t := @recursive_init ticket_base.
Definition rte_ticketlock_recursive_lock := @recursive_lock ticket_base unsigned_counter false.
Definition rte_ticketlock_recursive_trylock := @recursive_lock ticket_base unsigned_counter true.
Definition rte_ticketlock_recursive_unlock := @recursive_unlock ticket_base unsigned_counter.
Definition run := @rrun ticket_base unsigned_counter.
End RecTicket.

(** The recursive spinlock and the recursive ticket lock: in every
    interleaving of the memory accesses of any number of threads (fewer than 2^16
    on the ticket lock) that call lock, trylock and unlock, nested as they like,
    and unlock what they have locked, the calls run (the count does not
    overflow), at most one thread holds the lock, [user] and [count] are its
    identifier and the depth of its calls, a thread that holds the lock takes it
    again without the base lock, although [user] is read without it, and the lock
    is free when every call has been undone. *)
Theorem recursive_locks_exclude (tid : nat -> Z) (n : nat) (sched : list (nat * rcall)) :
  (forall t t', tid t = tid t' -> t = t') -> (forall t, tid t <> -1) ->
  Z.of_nat (length sched) < 2 ^ 31 ->
  (exists s, RecSpin.run tid sched (RecSpin.rte_spinlock_recursive_init, repeat (Out 0) n) = Some s
     /\ recursive_facts tid s)
  /\ ((n < Z.to_nat (2 ^ 16))%nat ->
      exists s, RecTicket.run tid sched (RecTicket.rte_ticketlock_recursive_init, repeat (Out 0) n) = Some s
        /\ recursive_facts tid s).
Proof.
  intros Hi Hv Hl. split.
  - by apply (recursive_run_ok tid Hi Hv).
  - intros Hn. by apply (recursive_run_ok tid Hi Hv).
Qed.

Lemma recursive_locks_exclude_witness :
  let sched := replicate 5 (0%nat, RLock) ++ [(1%nat, RLock)] ++ replicate 3 (0%nat, RTrylock)
                 ++ replicate 6 (0%nat, RUnlock) ++ replicate 4 (1%nat, RLock) in
  exists s, RecSpin.run (fun t => Z.of_nat t + 100) sched
    (RecSpin.rte_spinlock_recursive_init, repeat (Out 0) 2) = Some s
    /\ recursive_facts (fun t => Z.of_nat t + 100) s /\ user s.1 = 101.
Proof.
  intros sched. destruct (recursive_locks_exclude (fun t => Z.of_nat t + 100) 2 sched) as [(s & E & F) _].
  - intros t t' H. lia.
  - intros t. lia.
  - vm_compute. reflexivity.
  - exists s. split; [exact E|]. split; [exact F|].
    vm_compute in E. injection E as <-. reflexivity.
Defined.
