(* ===== verification/McsLock.v ===== *)
(** * Queued lock of Mellor-Crummey and Scott ([include/generic/rte_mcslock.h]).

    The threads that want the lock form a list through their own nodes, and each
    spins on its own node until its predecessor passes the lock on.  As in
    [Locks], a thread is a program and a step is one access of the shared memory;
    the runs are all the interleavings of any number of threads. *)
From stdpp Require Import prelude list numbers.
From S2P Require Import Prelude Locks.
Open Scope Z_scope.

(** ** Data

    Thread [t] uses the node [t], so a pointer to a node is a thread or [NULL]. *)
Definition node_ptr : Type := option nat.

Record rte_mcslock_t := mk_node { next : node_ptr; locked : Z }.

(** The lock, a pointer to the last node, and the nodes. *)
Record shared := mk_mem { msl : node_ptr; nodes : list rte_mcslock_t }.

Definition load_next (t : nat) (m : shared) : option node_ptr := next <$> nodes m !! t.
Definition load_locked (t : nat) (m : shared) : option Z := locked <$> nodes m !! t.
Definition store_next (t : nat) (p : node_ptr) (m : shared) : option shared :=
  nd ← nodes m !! t ; Some (mk_mem (msl m) (<[t := mk_node p (locked nd)]> (nodes m))).
Definition store_locked (t : nat) (v : Z) (m : shared) : option shared :=
  nd ← nodes m !! t ; Some (mk_mem (msl m) (<[t := mk_node (next nd) v]> (nodes m))).
Definition store_msl (p : node_ptr) (m : shared) : shared := mk_mem p (nodes m).

(** ** Programs *)

Inductive call := CLock | CTrylock.

(** Where a thread stands: idle; in lock before the store of [next], before the
    exchange, before it links its node to the previous one, and spinning; owning
    the lock; in unlock before the compare-and-swap, waiting for the successor to
    link itself, before it reads the successor, and before it passes the lock; in
    trylock before the compare-and-swap. *)
Inductive pc :=
  | Idle | SetNext | Xchg | Link (prev : nat) | Spin | Held
  | CasTail | WaitNext | LdNext | Pass (nx : nat) | TryCas.

(** A [None] is a wild or null pointer. *)
Definition rte_mcslock_lock (me : nat) (p : pc) (m : shared) : option (pc * shared) :=
  match p with
  | SetNext => m ← store_next me None m ; Some (Xchg, m)
  | Xchg =>
      let prev := msl m in
      let m := store_msl (Some me) m in
      Some (match prev with None => Held | Some prev => Link prev end, m)
  | Link prev => m ← store_next prev (Some me) m ; Some (Spin, m)
  | Spin => v ← load_locked me m ; Some (if v =? 0 then Held else Spin, m)
  | _ => m ← store_locked me 1 m ; Some (SetNext, m)
  end.

Definition rte_mcslock_unlock (me : nat) (p : pc) (m : shared) : option (pc * shared) :=
  match p with
  | CasTail => Some (if decide (msl m = Some me) then (Idle, store_msl None m) else (WaitNext, m))
  | WaitNext => nx ← load_next me m ; Some (match nx with None => WaitNext | Some _ => LdNext end, m)
  | LdNext => nx ← load_next me m ; nx ← nx ; Some (Pass nx, m)
  | Pass nx => m ← store_locked nx 0 m ; Some (Idle, m)
  | _ => nx ← load_next me m ; Some (match nx with None => CasTail | Some _ => LdNext end, m)
  end.

Definition rte_mcslock_trylock (me : nat) (p : pc) (m : shared) : option (pc * shared) :=
  match p with
  | TryCas => Some (if decide (msl m = None) then (Held, store_msl (Some me) m) else (Idle, m))
  | _ => m ← store_next me None m ; Some (TryCas, m)
  end.

(** [msl] is given by value. *)
Definition rte_mcslock_is_locked (msl : node_ptr) : Z := b2z (bool_decide (msl <> None)).

Definition pc_step (me : nat) (c : call) (p : pc) (m : shared) : option (pc * shared) :=
  match p with
  | Idle => match c with CLock => rte_mcslock_lock me p m | CTrylock => rte_mcslock_trylock me p m end
  | SetNext | Xchg | Link _ | Spin => rte_mcslock_lock me p m
  | Held | CasTail | WaitNext | LdNext | Pass _ => rte_mcslock_unlock me p m
  | TryCas => rte_mcslock_trylock me p m
  end.

(** ** Any number of threads, with their history: the threads in the order in
    which they entered the list, those in the order in which they got the lock,
    and how many have left. *)
Record conf := mk_conf {
  mem : shared;
  threads : list pc;
  arrived : list nat;
  entered : list nat;
  departed : nat
}.

Definition step (e : nat * call) (s : conf) : option conf :=
  let '(t, c) := e in
  match threads s !! t with
  | None => Some s
  | Some p =>
      '(p', m) ← pc_step t c p (mem s) ;
      Some (mk_conf m (<[t := p']> (threads s))
        (match p, p' with
         | Xchg, _ | TryCas, Held => arrived s ++ [t]
         | _, _ => arrived s end)
        (match p, p' with
         | Xchg, Held | Spin, Held | TryCas, Held => entered s ++ [t]
         | _, _ => entered s end)
        (match p, p' with
         | CasTail, Idle | Pass _, Idle => Datatypes.S (departed s)
         | _, _ => departed s end))
  end.

Fixpoint run (sched : list (nat * call)) (s : conf) : option conf :=
  match sched with
  | [] => Some s
  | e :: sched => s ← step e s ; run sched s
  end.

Definition init (n : nat) : conf :=
  mk_conf (mk_mem None (repeat (mk_node None 0) n)) (repeat Idle n) [] [] 0.

Definition owns (p : pc) : bool :=
  match p with Held | CasTail | WaitNext | LdNext | Pass _ => true | _ => false end.

(** The threads in the list. *)
Definition queue (s : conf) : list nat := drop (departed s) (arrived s).

(** ** Invariant *)

(** Threads that are not in the list. *)
Definition outside_ok (p : pc) (nd : rte_mcslock_t) : Prop :=
  p = Idle \/ (p = SetNext /\ locked nd = 1) \/ (p = Xchg /\ locked nd = 1 /\ next nd = None)
  \/ (p = TryCas /\ next nd = None).

(** The first thread of the list [q]. *)
Definition head_ok (p : pc) (nd : rte_mcslock_t) (q : list nat) : Prop :=
  match p with
  | Spin => locked nd = 0
  | Held | CasTail => True
  | WaitNext => (2 <= length q)%nat
  | LdNext => next nd <> None
  | Pass n => next nd = Some n
  | _ => False
  end.

(** A thread with a predecessor. *)
Definition wait_ok (p : pc) (nd : rte_mcslock_t) (pred : nat) : Prop :=
  locked nd = 1 /\ (p = Link pred \/ p = Spin).

(** What the node before thread [o] points to. *)
Definition linked (ths : list pc) (o : option nat) : node_ptr :=
  u ← o ; match ths !! u with Some (Link _) => None | _ => Some u end.

Definition head_entered (s : conf) : nat :=
  match queue s with
  | [] => 0
  | t :: _ => match threads s !! t with Some p => if owns p then 1 else 0 | None => 0 end
  end.

Record inv (s : conf) : Prop := {
  i_length : length (nodes (mem s)) = length (threads s);
  i_departed : (departed s <= length (arrived s))%nat;
  i_nodup : NoDup (queue s);
  i_tail : msl (mem s) = list.last (queue s);
  i_outside : forall t p nd, threads s !! t = Some p -> nodes (mem s) !! t = Some nd -> t ∉ queue s -> outside_ok p nd;
  i_head : forall t, queue s !! 0%nat = Some t -> exists p nd, threads s !! t = Some p
             /\ nodes (mem s) !! t = Some nd /\ head_ok p nd (queue s);
  i_wait : forall i t u, queue s !! i = Some u -> queue s !! Datatypes.S i = Some t -> exists p nd,
             threads s !! t = Some p /\ nodes (mem s) !! t = Some nd /\ wait_ok p nd u;
  i_next : forall i t nd, queue s !! i = Some t -> nodes (mem s) !! t = Some nd ->
             next nd = linked (threads s) (queue s !! Datatypes.S i);
  i_entered : entered s = take (departed s + head_entered s) (arrived s)
}.

(** ** Facts of the invariant *)

Lemma queue_node s i t : inv s -> queue s !! i = Some t ->
  exists p nd, threads s !! t = Some p /\ nodes (mem s) !! t = Some nd
    /\ match i with O => head_ok p nd (queue s) | Datatypes.S i => exists u, queue s !! i = Some u /\ wait_ok p nd u end.
Proof.
  intros I Hi. destruct i as [|i]; [by apply (i_head _ I)|].
  destruct (lookup_lt_is_Some_2 (queue s) i) as [u Hu]; [apply lookup_lt_Some in Hi; lia|].
  destruct (i_wait _ I i t u Hu Hi) as (p & nd & Hp & Hnd & W). exists p, nd. split; [done|]. split; [done|]. by exists u.
Qed.

(** The programs that only threads outside the list, or only threads in it, run. *)
Lemma pc_outside s t p : inv s -> threads s !! t = Some p ->
  match p with Idle | SetNext | Xchg | TryCas => True | _ => False end -> t ∉ queue s.
Proof.
  intros I Hp Ho Hin. apply list_elem_of_lookup in Hin as [i Hi].
  destruct (queue_node s i t I Hi) as (p' & nd & Hp' & Hnd & H). simplify_eq.
  destruct i as [|i]; [by destruct p|]. destruct H as (u & _ & _ & [->| ->]); done.
Qed.

Lemma pc_inside s t p : inv s -> threads s !! t = Some p ->
  match p with Idle | SetNext | Xchg | TryCas => False | _ => True end -> t ∈ queue s.
Proof.
  intros I Hp Ho. destruct (decide (t ∈ queue s)) as [|Hn]; [done|exfalso].
  destruct (lookup_lt_is_Some_2 (nodes (mem s)) t) as [nd Hnd].
  { rewrite (i_length _ I). by eapply lookup_lt_Some. }
  destruct (i_outside _ I t p nd Hp Hnd Hn) as [->|[[-> _]|[[-> _]|[-> _]]]]; done.
Qed.

(** The thread that owns the lock is the first of the list. *)
Lemma mcs_owner_is_head s t p : inv s -> threads s !! t = Some p -> owns p = true -> queue s !! 0%nat = Some t.
Proof.
  intros I Hp Ho. assert (t ∈ queue s) as Hin by (apply (pc_inside s t p I Hp); by destruct p).
  apply list_elem_of_lookup in Hin as [i Hi]. destruct (queue_node s i t I Hi) as (p' & nd & Hp' & Hnd & H). simplify_eq.
  destruct i as [|i]; [done|]. destruct H as (u & _ & _ & [->| ->]); done.
Qed.

(** A thread that links itself has its predecessor before it. *)
Lemma link_pred s t u : inv s -> threads s !! t = Some (Link u) ->
  exists i, queue s !! i = Some u /\ queue s !! Datatypes.S i = Some t.
Proof.
  intros I Hp. assert (t ∈ queue s) as Hin by (by apply (pc_inside s t _ I Hp)).
  apply list_elem_of_lookup in Hin as [i Hi]. destruct (queue_node s i t I Hi) as (p' & nd & Hp' & Hnd & H). simplify_eq.
  destruct i as [|i]; [done|]. destruct H as (v & Hv & _ & [E|E]); [|done]. simplify_eq. by exists i.
Qed.

(** A spinning thread whose flag is down is the first. *)
Lemma spin_head s t nd : inv s -> threads s !! t = Some Spin -> nodes (mem s) !! t = Some nd -> locked nd = 0 ->
  queue s !! 0%nat = Some t.
Proof.
  intros I Hp Hnd Hl. assert (t ∈ queue s) as Hin by (by apply (pc_inside s t _ I Hp)).
  apply list_elem_of_lookup in Hin as [i Hi]. destruct (queue_node s i t I Hi) as (p' & nd' & Hp' & Hnd' & H). simplify_eq.
  destruct i as [|i]; [done|]. destruct H as (u & _ & H1 & _). lia.
Qed.

Lemma mcs_head_entered_head s t p : queue s !! 0%nat = Some t -> threads s !! t = Some p ->
  head_entered s = if owns p then 1%nat else 0%nat.
Proof. intros Hq Hp. unfold head_entered. destruct (queue s) as [|t' q]; [done|]. simpl in Hq. simplify_eq. by rewrite Hp. Qed.

Lemma mcs_head_of_queue s t : queue s !! 0%nat = Some t -> arrived s !! departed s = Some t.
Proof. unfold queue. rewrite lookup_drop. by rewrite Nat.add_0_r. Qed.

Lemma mcs_queue_join s m ths ent t : (departed s <= length (arrived s))%nat ->
  queue (mk_conf m ths (arrived s ++ [t]) ent (departed s)) = queue s ++ [t].
Proof. intros H. unfold queue. simpl. by rewrite drop_app_le. Qed.

Lemma mcs_queue_leave s m ths ent t r :
  queue s = t :: r -> queue (mk_conf m ths (arrived s) ent (Datatypes.S (departed s))) = r.
Proof. intros E. unfold queue in *. simpl. by rewrite <- Nat.add_1_r, <- drop_drop, E. Qed.

(** [linked] looks at one thread only. *)
Lemma linked_insert ths t q o : o <> Some t -> linked (<[t := q]> ths) o = linked ths o.
Proof.
  intros Hn. destruct o as [u|]; [|done]. cbn [linked mbind option_bind]. by rewrite list_lookup_insert_ne by congruence.
Qed.

Lemma linked_insert_same ths t p q : ths !! t = Some p ->
  match q with Link _ => False | _ => True end -> match p with Link _ => False | _ => True end ->
  forall o, linked (<[t := q]> ths) o = linked ths o.
Proof.
  intros Hp Hq Hp' o. destruct (decide (o = Some t)) as [->|]; [|by apply linked_insert].
  unfold linked. cbn [mbind option_bind]. rewrite list_lookup_insert_eq, Hp by (by eapply lookup_lt_Some).
  by destruct p, q.
Qed.

(** ** Steps *)

Lemma elem_ne (q : list nat) i t u : t ∉ q -> q !! i = Some u -> u <> t.
Proof. intros Hn Hi ->. by apply Hn, list_elem_of_lookup_2 with i. Qed.

(** A thread outside the list stays outside. *)
Lemma mcs_inv_outside s t p q nd nd' : inv s -> threads s !! t = Some p -> nodes (mem s) !! t = Some nd ->
  t ∉ queue s -> outside_ok q nd' ->
  inv (mk_conf (mk_mem (msl (mem s)) (<[t := nd']> (nodes (mem s)))) (<[t := q]> (threads s))
         (arrived s) (entered s) (departed s)).
Proof.
  intros I Hp Hnd Hn Hq. pose proof (lookup_lt_Some _ _ _ Hp) as Hlt. pose proof (lookup_lt_Some _ _ _ Hnd) as Hlt'.
  pose proof (elem_ne (queue s)) as Ne. destruct I as [I1 I2 I3 I4 I5 I6 I7 I8 I9].
  change (queue s) with (drop (departed s) (arrived s)) in *. split; unfold queue; simpl; try done.
  - by rewrite !length_insert.
  - intros t' p' nd1 Hp' Hnd1 Hn'. destruct (decide (t' = t)) as [->|].
    + rewrite list_lookup_insert_eq in Hp' by done. rewrite list_lookup_insert_eq in Hnd1 by done. by simplify_eq.
    + rewrite list_lookup_insert_ne in Hp' by done. rewrite list_lookup_insert_ne in Hnd1 by done. by eapply I5.
  - intros t' Hi. pose proof (Ne _ _ _ Hn Hi). rewrite !list_lookup_insert_ne by done. by apply I6.
  - intros i t' u Hu Hi. pose proof (Ne _ _ _ Hn Hi). rewrite !list_lookup_insert_ne by done. by eapply I7.
  - intros i t' nd1 Hi Hnd1. pose proof (Ne _ _ _ Hn Hi). rewrite list_lookup_insert_ne in Hnd1 by done.
    rewrite linked_insert; [by eapply I8|]. intros Hx. by apply (Ne _ _ _ Hn) in Hx.
  - rewrite I9. f_equal. f_equal. unfold head_entered, queue. simpl.
    destruct (drop (departed s) (arrived s)) as [|t' r] eqn:E; [done|].
    rewrite list_lookup_insert_ne; [done|]. by apply not_eq_sym, (Ne 0%nat).
Qed.

(** A thread in the list changes its program position only, and still owns the
    lock, gets it, or keeps waiting. *)
Lemma mcs_inv_inside s t p q ent : inv s -> threads s !! t = Some p -> queue s !! 0%nat = Some t ->
  (forall nd, nodes (mem s) !! t = Some nd -> head_ok q nd (queue s)) -> owns q = true ->
  ent = (if owns p then entered s else entered s ++ [t]) ->
  inv (mk_conf (mem s) (<[t := q]> (threads s)) (arrived s) ent (departed s)).
Proof.
  intros I Hp Hq Hok Ho ->. pose proof (mcs_head_entered_head s t p Hq Hp) as He.
  pose proof (mcs_head_of_queue s t Hq) as Ha. pose proof (lookup_lt_Some _ _ _ Hp) as Hlt.
  destruct (queue_node s 0 t I Hq) as (p0 & nd & Hp0 & Hnd & Hh). simplify_eq.
  assert (match p with Link _ => False | _ => True end) as Hl by (by destruct p).
  assert (match q with Link _ => False | _ => True end) as Hl' by (by destruct q).
  destruct I as [I1 I2 I3 I4 I5 I6 I7 I8 I9]. change (queue s) with (drop (departed s) (arrived s)) in *.
  split; unfold queue; simpl; try done.
  - by rewrite length_insert.
  - intros t' p' nd1 Hp' Hnd1 Hn'. rewrite list_lookup_insert_ne in Hp'; [by eapply I5|].
    intros ->. by apply Hn', list_elem_of_lookup_2 with 0%nat.
  - intros t' Hi. rewrite Hq in Hi. simplify_eq. exists q, nd. rewrite list_lookup_insert_eq by done. auto.
  - intros i t' u Hu Hi. rewrite list_lookup_insert_ne; [by eapply I7|].
    intros ->. assert (0%nat = Datatypes.S i) by (by eapply NoDup_lookup). done.
  - intros i t' nd1 Hi Hnd1. rewrite (linked_insert_same _ _ _ _ Hp Hl' Hl). by eapply I8.
  - rewrite (mcs_head_entered_head _ t q), Ho by (done || (by apply list_lookup_insert_eq)).
    rewrite I9, He. destruct (owns p); [done|]. rewrite Nat.add_0_r, Nat.add_1_r. symmetry. by apply take_S_r.
Qed.

(** What the nodes point to, and who has got the lock, after a thread has entered
    the list at its end. *)
Definition joins (s : conf) (t : nat) (q : pc) : Prop :=
  match list.last (queue s) with None => q = Held | Some u => q = Link u end.

Lemma mcs_next_join s t p nd q i t' nd1 : inv s -> threads s !! t = Some p -> nodes (mem s) !! t = Some nd ->
  t ∉ queue s -> next nd = None -> joins s t q ->
  (queue s ++ [t]) !! i = Some t' -> nodes (mem s) !! t' = Some nd1 ->
  next nd1 = linked (<[t := q]> (threads s)) ((queue s ++ [t]) !! Datatypes.S i).
Proof.
  intros I Hp Hnd Hn Hnx Hq Hi Hnd1. pose proof (lookup_lt_Some _ _ _ Hp) as Hlt. unfold joins in Hq.
  destruct (decide (i < length (queue s))%nat) as [Hi'|Hi'].
  - rewrite lookup_app_l in Hi by done. rewrite (i_next _ I i t' nd1 Hi Hnd1).
    destruct (decide (Datatypes.S i < length (queue s))%nat) as [Hs|Hs].
    + rewrite lookup_app_l by done. rewrite linked_insert; [done|]. intros Hx. by apply (elem_ne _ _ _ _ Hn) in Hx.
    + rewrite (lookup_ge_None_2 (queue s)) by lia. rewrite lookup_app_r by lia.
      replace (Datatypes.S i - length (queue s))%nat with 0%nat by lia. unfold linked. simpl.
      rewrite list_lookup_insert_eq by done. rewrite last_lookup in Hq.
      replace (pred (length (queue s))) with i in Hq by lia. rewrite Hi in Hq. by subst q.
  - apply lookup_lt_Some in Hi as Hl. rewrite length_app in Hl. simpl in Hl.
    rewrite (lookup_ge_None_2 (queue s ++ [t]) (Datatypes.S i)) by (rewrite length_app; simpl; lia).
    rewrite lookup_app_r in Hi by lia. replace (i - length (queue s))%nat with 0%nat in Hi by lia.
    simpl in Hi. by simplify_eq.
Qed.

Lemma mcs_entered_join s t p m q ent : inv s -> threads s !! t = Some p -> t ∉ queue s -> joins s t q ->
  let s' := mk_conf m (<[t := q]> (threads s)) (arrived s ++ [t]) ent (departed s) in
  (if owns q then entered s ++ [t] else entered s) = take (departed s + head_entered s') (arrived s ++ [t]).
Proof.
  intros I Hp Hn Hq s'. pose proof (lookup_lt_Some _ _ _ Hp) as Hlt. pose proof (i_departed _ I).
  assert (queue s' = queue s ++ [t]) as Eq by (by apply mcs_queue_join).
  assert (length (queue s) = (length (arrived s) - departed s)%nat) as Lq by apply length_drop.
  unfold joins in Hq. rewrite (i_entered _ I). destruct (queue s) as [|t0 r] eqn:E.
  - simpl in Hq. subst q. rewrite (mcs_head_entered_head s' t Held) by (rewrite ?Eq; done || by apply list_lookup_insert_eq).
    simpl in Lq |- *. rewrite !take_ge by (rewrite ?length_app; simpl; lia). done.
  - destruct (list.last (t0 :: r)) as [u|] eqn:El; [|by apply last_None in El]. subst q. cbn [owns].
    destruct (i_head _ I t0) as (p0 & nd0 & Hp0 & _ & _); [by rewrite E|].
    rewrite (mcs_head_entered_head s' t0 p0), (mcs_head_entered_head s t0 p0) by first [done|by rewrite ?Eq, ?E|
      cbn [threads s']; rewrite list_lookup_insert_ne by (intros ->; apply Hn; by left); done].
    simpl in Lq. rewrite take_app_le; [done|]. destruct (owns p0); lia.
Qed.

(** A thread enters the list at its end. *)
Lemma mcs_inv_join s t p nd q ent : inv s -> threads s !! t = Some p -> nodes (mem s) !! t = Some nd ->
  t ∉ queue s -> next nd = None ->
  joins s t q -> (queue s <> [] -> locked nd = 1) ->
  ent = (if owns q then entered s ++ [t] else entered s) ->
  inv (mk_conf (store_msl (Some t) (mem s)) (<[t := q]> (threads s)) (arrived s ++ [t]) ent (departed s)).
Proof.
  intros I Hp Hnd Hn Hnx Hq Hlk ->. pose proof (lookup_lt_Some _ _ _ Hp) as Hlt.
  pose proof (elem_ne (queue s)) as Ne. pose proof I as [I1 I2 I3 I4 I5 I6 I7 I8 I9].
  split; rewrite ?mcs_queue_join by done; simpl; try done.
  - by rewrite length_insert.
  - rewrite length_app. lia.
  - apply list.NoDup_app. split; [done|]. split; [|apply NoDup_singleton].
    intros x Hx Hx'. apply list_elem_of_singleton in Hx' as ->. done.
  - by rewrite last_snoc.
  - intros t' p' nd1 Hp' Hnd1 Hn'. rewrite elem_of_app, list_elem_of_singleton in Hn'.
    rewrite list_lookup_insert_ne in Hp' by (intros ->; tauto). apply (I5 t' p' nd1); tauto.
  - intros t' Hi. destruct (queue s) as [|t0 r] eqn:Eq; simpl in Hi; simplify_eq.
    + exists q, nd. rewrite list_lookup_insert_eq by done. unfold joins in Hq. rewrite Eq in Hq. simpl in Hq. by subst q.
    + destruct (I6 t' eq_refl) as (p' & nd1 & Hp' & Hnd1 & Hh). exists p', nd1.
      rewrite list_lookup_insert_ne by (intros ->; apply Hn; by left). split; [done|]. split; [done|].
      destruct p'; try done. simpl in *. rewrite length_app. simpl. lia.
  - intros i t' u Hu Hi. destruct (decide (Datatypes.S i < length (queue s))%nat) as [Hi'|Hi'].
    + rewrite lookup_app_l in Hi, Hu by lia. pose proof (Ne _ _ _ Hn Hi).
      rewrite list_lookup_insert_ne by done. by eapply I7.
    + apply lookup_lt_Some in Hi as Hl. rewrite length_app in Hl. simpl in Hl.
      assert (length (queue s) = Datatypes.S i) as El by lia.
      rewrite lookup_app_r in Hi by lia. rewrite El, Nat.sub_diag in Hi. simpl in Hi. simplify_eq.
      rewrite lookup_app_l in Hu by lia. unfold joins in Hq. rewrite last_lookup, El in Hq. simpl in Hq. rewrite Hu in Hq.
      subst q. exists (Link u), nd. rewrite list_lookup_insert_eq by done.
      split; [done|]. split; [done|].
      split; [apply Hlk; by intros E0; rewrite E0 in El|by left].
  - intros i t' nd1 Hi Hnd1. by eapply mcs_next_join.
  - by apply (mcs_entered_join s t p).
Qed.

(** A thread links its node to the one before. *)
Lemma mcs_inv_link s t u nd : inv s -> threads s !! t = Some (Link u) -> nodes (mem s) !! u = Some nd ->
  inv (mk_conf (mk_mem (msl (mem s)) (<[u := mk_node (Some t) (locked nd)]> (nodes (mem s)))) (<[t := Spin]> (threads s))
         (arrived s) (entered s) (departed s)).
Proof.
  intros I Hp Hnd. destruct (link_pred s t u I Hp) as (i & Hu & Ht). pose proof (lookup_lt_Some _ _ _ Hp) as Hlt.
  pose proof (lookup_lt_Some _ _ _ Hnd) as Hlu. pose proof (i_nodup _ I) as ND.
  assert (u <> t) as Hut by (intros ->; assert (i = Datatypes.S i) by (by eapply NoDup_lookup); lia).
  assert (forall o, o <> Some t -> linked (<[t := Spin]> (threads s)) o = linked (threads s) o) as Hl by (intros; by apply linked_insert).
  destruct I as [I1 I2 _ I4 I5 I6 I7 I8 I9]. change (queue s) with (drop (departed s) (arrived s)) in *.
  split; unfold queue; simpl; try done.
  - by rewrite !length_insert.
  - intros t' p' nd1 Hp' Hnd1 Hn'.
    rewrite list_lookup_insert_ne in Hp' by (intros ->; by apply Hn', list_elem_of_lookup_2 with (Datatypes.S i)).
    rewrite list_lookup_insert_ne in Hnd1 by (intros ->; by apply Hn', list_elem_of_lookup_2 with i). by eapply I5.
  - intros t' Hi. destruct (I6 t' Hi) as (p' & nd1 & Hp' & Hnd1 & Hh).
    rewrite list_lookup_insert_ne by (intros ->; assert (0%nat = Datatypes.S i) by (by eapply NoDup_lookup); lia).
    destruct (decide (t' = u)) as [->|]; [|rewrite list_lookup_insert_ne by done; eauto].
    simplify_eq. assert (i = 0%nat) as -> by (by eapply NoDup_lookup).
    pose proof (I8 0%nat u nd Hu Hnd) as Hx. rewrite Ht in Hx. unfold linked in Hx. simpl in Hx. rewrite Hp in Hx.
    exists p', (mk_node (Some t) (locked nd)). rewrite list_lookup_insert_eq by done. split; [done|]. split; [done|].
    destruct p'; simpl in *; congruence.
  - intros j t' v Hv Hj. destruct (I7 j t' v Hv Hj) as (p' & nd1 & Hp' & Hnd1 & Hlk & Hw).
    exists (if decide (t' = t) then Spin else p'), (if decide (t' = u) then mk_node (Some t) (locked nd) else nd1).
    split; [|split; [|split]].
    + case_decide as D; [subst t'; by rewrite list_lookup_insert_eq|by rewrite list_lookup_insert_ne].
    + case_decide as D; [subst t'; by rewrite list_lookup_insert_eq|by rewrite list_lookup_insert_ne].
    + case_decide as D; [subst t'; by simplify_eq|done].
    + case_decide as D; [by right|done].
  - intros j t' nd1 Hj Hnd1. destruct (decide (t' = u)) as [->|Hne].
    + assert (j = i) as -> by (by eapply NoDup_lookup). rewrite list_lookup_insert_eq in Hnd1 by done. simplify_eq.
      rewrite Ht. unfold linked. simpl. by rewrite list_lookup_insert_eq.
    + rewrite list_lookup_insert_ne in Hnd1 by done. rewrite Hl; [by eapply I8|].
      intros Hx. assert (Datatypes.S j = Datatypes.S i) as [= ->] by (by eapply NoDup_lookup). congruence.
  - rewrite I9. f_equal. f_equal. unfold head_entered, queue. simpl.
    destruct (drop (departed s) (arrived s)) as [|t' r] eqn:E; [done|].
    rewrite list_lookup_insert_ne; [done|]. intros ->.
    assert (0%nat = Datatypes.S i) by (eapply NoDup_lookup; [exact ND|done|done]). lia.
Qed.

(** The owner leaves the list: it is alone, or passes the lock to the next. *)
Lemma mcs_inv_leave s t p r m : inv s -> queue s = t :: r -> threads s !! t = Some p -> owns p = true ->
  length (nodes m) = length (nodes (mem s)) -> msl m = list.last r ->
  (forall u, u ∉ r -> nodes m !! u = nodes (mem s) !! u) ->
  (forall i u nd, r !! i = Some u -> nodes (mem s) !! u = Some nd ->
     nodes m !! u = Some (match i with O => mk_node (next nd) 0 | _ => nd end)) ->
  (forall u, r !! 0%nat = Some u -> threads s !! u = Some Spin) ->
  inv (mk_conf m (<[t := Idle]> (threads s)) (arrived s) (entered s) (Datatypes.S (departed s))).
Proof.
  intros I Eq Hp Ho Hlen Htail Hout Hin Hspin. pose proof (lookup_lt_Some _ _ _ Hp) as Hlt.
  pose proof (mcs_head_entered_head s t p ltac:(by rewrite Eq) Hp) as He. rewrite Ho in He.
  pose proof (mcs_head_of_queue s t ltac:(by rewrite Eq)) as Ha. apply lookup_lt_Some in Ha.
  pose proof (i_nodup _ I) as ND. rewrite Eq in ND. apply list.NoDup_cons in ND as [Ht ND].
  assert (forall i u, r !! i = Some u -> u <> t) as Ne by (intros i u Hi ->; by apply Ht, list_elem_of_lookup_2 with i).
  assert (forall i u, r !! i = Some u -> <[t := Idle]> (threads s) !! u = threads s !! u) as Hth.
  { intros i u Hi. rewrite list_lookup_insert_ne; [done|]. by apply not_eq_sym, (Ne i). }
  pose proof (mcs_queue_leave s m (<[t := Idle]> (threads s)) (entered s) t r Eq) as Eq'.
  assert (head_entered (mk_conf m (<[t := Idle]> (threads s)) (arrived s) (entered s) (Datatypes.S (departed s))) = 0%nat) as He'.
  { unfold head_entered. rewrite Eq'. simpl. destruct r as [|u r]; [done|]. rewrite (Hth 0%nat) by done. by rewrite Hspin. }
  split; rewrite ?Eq'; simpl; try done.
  - by rewrite length_insert, Hlen, (i_length _ I).
  - intros t' p' nd Hp' Hnd Hn'. rewrite Hout in Hnd by done. destruct (decide (t' = t)) as [->|].
    + rewrite list_lookup_insert_eq in Hp' by done. simplify_eq. by left.
    + rewrite list_lookup_insert_ne in Hp' by done. apply (i_outside _ I t' p' nd Hp' Hnd).
      rewrite Eq, elem_of_cons. intros [->|]; done.
  - intros u Hu. destruct (queue_node s 1 u I) as (p' & nd & Hp' & Hnd & _); [by rewrite Eq|].
    exists p', (mk_node (next nd) 0). rewrite (Hth 0%nat) by done. split; [done|].
    split; [by rewrite (Hin 0%nat u nd)|]. rewrite (Hspin u Hu) in Hp'. by simplify_eq.
  - intros i u v Hv Hu. destruct (i_wait _ I (Datatypes.S i) u v) as (p' & nd & Hp' & Hnd & W); [by rewrite Eq..|].
    exists p', nd. rewrite (Hth (Datatypes.S i)) by done. split; [done|]. split; [|done]. by rewrite (Hin (Datatypes.S i) u nd).
  - intros i u nd Hu Hnd. destruct (queue_node s (Datatypes.S i) u I) as (p' & nd' & Hp' & Hnd' & _); [by rewrite Eq|].
    pose proof (i_next _ I (Datatypes.S i) u nd' ltac:(by rewrite Eq) Hnd') as Hx. rewrite Eq in Hx. simpl in Hx.
    rewrite (Hin i u nd' Hu Hnd') in Hnd. rewrite linked_insert.
    + destruct i; injection Hnd as <-; exact Hx.
    + intros Hy. by apply Ne in Hy.
  - rewrite He', (i_entered _ I), He. f_equal. lia.
Qed.

Lemma insert_node_id (m : shared) t nd : nodes m !! t = Some nd -> mk_mem (msl m) (<[t := nd]> (nodes m)) = m.
Proof. intros H. rewrite list_insert_id by done. by destruct m. Qed.

(** The next of the owner, when it has linked itself, spins. *)
Lemma next_of_head s t nd n : inv s -> queue s !! 0%nat = Some t -> nodes (mem s) !! t = Some nd -> next nd = Some n ->
  exists r p ndn, queue s = t :: n :: r /\ nodes (mem s) !! n = Some ndn /\ threads s !! n = Some p /\ p = Spin.
Proof.
  intros I Hq Hnd Hn. pose proof (i_next _ I 0%nat t nd Hq Hnd) as Hx. rewrite Hn in Hx.
  destruct (queue s) as [|t0 [|u r]] eqn:E; simpl in Hq; simplify_eq. simpl in Hx. unfold linked in Hx. simpl in Hx.
  destruct (queue_node s 1 u I) as (p & ndn & Hp & Hndn & v & Hv & W); [by rewrite E|]. rewrite Hp in Hx.
  exists r, p, ndn. destruct W as [_ [->| ->]]; [done|]. by simplify_eq.
Qed.

Lemma mcs_inv_unlock s t p c : inv s -> threads s !! t = Some p -> owns p = true ->
  exists s', step (t, c) s = Some s' /\ inv s'.
Proof.
  intros I Hp Ho. pose proof (mcs_owner_is_head s t p I Hp Ho) as Hq.
  destruct (queue_node s 0 t I Hq) as (p' & nd & Hp' & Hnd & Hh). simplify_eq.
  unfold step. rewrite Hp. destruct p; try done; cbn [pc_step rte_mcslock_unlock]; unfold load_next; rewrite ?Hnd; cbn [fmap option_fmap option_map mbind option_bind].
  - eexists. split; [reflexivity|]. destruct (next nd) as [n|] eqn:En.
    + apply (mcs_inv_inside s t Held); try done. intros nd' Hnd'. simplify_eq. simpl. by rewrite En.
    + by apply (mcs_inv_inside s t Held).
  - destruct (decide (msl (mem s) = Some t)) as [E|E]; (eexists; split; [reflexivity|]).
    + rewrite (i_tail _ I) in E. destruct (queue s) as [|t0 r] eqn:Eq; [done|]. simpl in Hq. injection Hq as ->.
      assert (r = []) as ->.
      { destruct r as [|u r]; [done|]. change (list.last (t :: u :: r)) with (list.last (u :: r)) in E.
        apply last_Some_elem_of in E. pose proof (i_nodup _ I) as ND. rewrite Eq in ND.
        apply list.NoDup_cons in ND as [ND _]. done. }
      by apply (mcs_inv_leave s t CasTail []).
    + apply (mcs_inv_inside s t CasTail); try done. intros nd' _. simpl. rewrite (i_tail _ I) in E.
      destruct (queue s) as [|t0 [|u r]]; simpl in *; [done|congruence|lia].
  - eexists. split; [reflexivity|]. destruct (next nd) as [n|] eqn:En.
    + apply (mcs_inv_inside s t WaitNext); try done. intros nd' Hnd'. simplify_eq. simpl. by rewrite En.
    + by apply (mcs_inv_inside s t WaitNext).
  - simpl in Hh. destruct (next nd) as [n|] eqn:En; [|done]. cbn [mbind option_bind]. eexists. split; [reflexivity|].
    apply (mcs_inv_inside s t LdNext); try done. intros nd' Hnd'. by simplify_eq.
  - simpl in Hh. destruct (next_of_head s t nd nx I Hq Hnd Hh) as (r & q & ndn & Eq & Hndn & Hpn & ->).
    unfold store_locked. rewrite Hndn. cbn [mbind option_bind]. eexists. split; [reflexivity|].
    pose proof (i_nodup _ I) as ND. rewrite Eq in ND. apply list.NoDup_cons in ND as [_ ND].
    pose proof (lookup_lt_Some _ _ _ Hndn).
    apply (mcs_inv_leave s t (Pass nx) (nx :: r)); try done; simpl.
    + by rewrite length_insert.
    + by rewrite (i_tail _ I), Eq.
    + intros u Hu. rewrite list_lookup_insert_ne; [done|]. intros ->. apply Hu. by left.
    + intros i u nd1 Hi Hnd1. destruct i as [|i]; simpl in Hi; simplify_eq.
      * by rewrite list_lookup_insert_eq.
      * rewrite list_lookup_insert_ne; [done|]. intros ->. apply list.NoDup_cons in ND as [ND _].
        by apply ND, list_elem_of_lookup_2 with i.
    + intros u Hu. by simplify_eq.
Qed.

Lemma mcs_inv_step e s : inv s -> exists s', step e s = Some s' /\ inv s'.
Proof.
  destruct e as [t c]. intros I. destruct (threads s !! t) as [p|] eqn:Hp.
  2: { exists s. unfold step. by rewrite Hp. }
  destruct (owns p) eqn:Ho; [by eapply mcs_inv_unlock|].
  destruct (lookup_lt_is_Some_2 (nodes (mem s)) t) as [nd Hnd]; [rewrite (i_length _ I); by eapply lookup_lt_Some|].
  pose proof (pc_outside s t p I Hp) as Hn. pose proof (fun H => i_outside _ I t p nd Hp Hnd H) as Out.
  unfold step. rewrite Hp. destruct p; try done.
  - specialize (Hn Logic.I). destruct c; cbn [pc_step rte_mcslock_lock rte_mcslock_trylock]; unfold store_locked, store_next;
      rewrite Hnd; cbn [mbind option_bind]; (eexists; split; [reflexivity|]).
    + apply (mcs_inv_outside s t Idle _ nd); try done. right; left. done.
    + apply (mcs_inv_outside s t Idle _ nd); try done. right; right; right. done.
  - specialize (Hn Logic.I). destruct (Out Hn) as [|[[_ Hl]|[[? _]|[? _]]]]; try done.
    cbn [pc_step rte_mcslock_lock]. unfold store_next. rewrite Hnd. cbn [mbind option_bind]. eexists. split; [reflexivity|].
    apply (mcs_inv_outside s t SetNext _ nd); try done. right; right; left. done.
  - specialize (Hn Logic.I). destruct (Out Hn) as [|[[? _]|[(_ & Hl & Hx)|[? _]]]]; try done.
    cbn [pc_step rte_mcslock_lock mbind option_bind]. eexists. split; [reflexivity|].
    apply (mcs_inv_join s t Xchg nd); try done.
    + unfold joins. rewrite <- (i_tail _ I). by destruct (msl (mem s)).
    + by destruct (msl (mem s)).
  - destruct (link_pred s t prev I Hp) as (i & Hu & _). destruct (queue_node s i prev I Hu) as (pu & ndu & _ & Hndu & _).
    cbn [pc_step rte_mcslock_lock]. unfold store_next. rewrite Hndu. cbn [mbind option_bind]. eexists. split; [reflexivity|].
    by apply mcs_inv_link.
  - cbn [pc_step rte_mcslock_lock]. unfold load_locked. rewrite Hnd. cbn [fmap option_fmap option_map mbind option_bind].
    eexists. split; [reflexivity|]. destruct (Z.eqb_spec (locked nd) 0) as [El|].
    + pose proof (spin_head s t nd I Hp Hnd El) as Hq. by apply (mcs_inv_inside s t Spin).
    + rewrite list_insert_id by done. by destruct s.
  - specialize (Hn Logic.I). destruct (Out Hn) as [|[[? _]|[[? _]|[_ Hx]]]]; try done.
    cbn [pc_step rte_mcslock_trylock mbind option_bind].
    destruct (decide (msl (mem s) = None)) as [E|E]; (eexists; split; [reflexivity|]).
    + pose proof E as E'. rewrite (i_tail _ I) in E'. apply last_None in E'.
      apply (mcs_inv_join s t TryCas nd); try done. unfold joins. by rewrite E'.
    + rewrite <- (insert_node_id (mem s) t nd Hnd). apply (mcs_inv_outside s t TryCas _ nd); try done. by left.
Qed.

Lemma mcs_inv_init n : inv (init n).
Proof.
  assert (forall {A} (a : A) t b, repeat a n !! t = Some b -> b = a) as R.
  { intros A a t b H. by apply list_elem_of_lookup_2, list_elem_of_In, repeat_spec in H. }
  split; simpl; try done.
  - by rewrite !repeat_length.
  - constructor.
  - intros t p nd Hp _ _. apply R in Hp. by left.
Qed.

Lemma mcs_inv_run sched s : inv s -> exists s', run sched s = Some s' /\ inv s'.
Proof.
  revert s. induction sched as [|e sched IH]; intros s I; [by exists s|].
  destruct (mcs_inv_step e s I) as (s1 & E & I1). cbn [run]. rewrite E. cbn [mbind option_bind]. by apply IH.
Qed.

(** ** Property *)

(** C21. The queued lock excludes and is fair: in every interleaving of any number
    of threads that call lock, trylock and unlock no pointer is wild or null when
    it is followed; at most one thread owns the lock; the threads have got it in
    the order in which they entered the list; [rte_mcslock_is_locked] tells
    whether the list is empty; and its first thread owns the lock or gets it with
    its next step, or, when it waits in unlock, the thread that it waits for is
    there and links itself with its next step or has done so. *)
Theorem mcslock_fair (n : nat) (sched : list (nat * call)) :
  exists s, run sched (init n) = Some s
  /\ (forall t1 t2 p1 p2, threads s !! t1 = Some p1 -> threads s !! t2 = Some p2 ->
        owns p1 = true -> owns p2 = true -> t1 = t2)
  /\ entered s `prefix_of` arrived s
  /\ rte_mcslock_is_locked (msl (mem s)) = b2z (bool_decide (queue s <> []))
  /\ (forall t, queue s !! 0%nat = Some t -> exists p, threads s !! t = Some p
        /\ (owns p = true \/ rte_mcslock_lock t p (mem s) = Some (Held, mem s)))
  /\ (forall t, threads s !! t = Some WaitNext -> exists u, queue s !! 1%nat = Some u
        /\ (threads s !! u = Some (Link t)
            \/ threads s !! u = Some Spin /\ rte_mcslock_unlock t WaitNext (mem s) = Some (LdNext, mem s))).
Proof.
  destruct (mcs_inv_run sched _ (mcs_inv_init n)) as (s & E & I). exists s. split; [done|]. split; [|split; [|split; [|split]]].
  - intros t1 t2 p1 p2 H1 H2 O1 O2. pose proof (mcs_owner_is_head s t1 p1 I H1 O1).
    pose proof (mcs_owner_is_head s t2 p2 I H2 O2). congruence.
  - rewrite (i_entered _ I). apply prefix_take.
  - unfold rte_mcslock_is_locked. f_equal. apply bool_decide_ext. rewrite (i_tail _ I).
    destruct (queue s) as [|t q]; [done|]. split; [done|]. intros _ H. by apply last_None in H.
  - intros t Hq. destruct (queue_node s 0 t I Hq) as (p & nd & Hp & Hnd & Hh). exists p. split; [done|].
    destruct p; try done; try (by left). right. cbn [rte_mcslock_lock]. unfold load_locked. rewrite Hnd.
    cbn [fmap option_fmap option_map mbind option_bind]. simpl in Hh. by rewrite Hh.
  - intros t Hp. pose proof (mcs_owner_is_head s t _ I Hp eq_refl) as Hq.
    destruct (queue_node s 0 t I Hq) as (p & nd & Hp' & Hnd & Hh). simplify_eq. simpl in Hh.
    destruct (lookup_lt_is_Some_2 (queue s) 1 ltac:(lia)) as [u Hu]. exists u. split; [done|].
    destruct (i_wait _ I 0%nat u t Hq Hu) as (p & ndu & Hpu & _ & _ & [->| ->]); [by left|right].
    split; [done|]. pose proof (i_next _ I 0%nat t nd Hq Hnd) as Hx. rewrite Hu in Hx. unfold linked in Hx. simpl in Hx.
    rewrite Hpu in Hx. cbn [rte_mcslock_unlock]. unfold load_next. rewrite Hnd.
    cbn [fmap option_fmap option_map mbind option_bind]. by rewrite Hx.
Qed.
