(* ===== verification/PfLock.v ===== *)
(** * Phase-fair reader-writer lock ([include/generic/rte_pflock.h]).

    Readers and writers take turns: a reader that arrives while a writer is
    announced waits for that writer only, and a writer waits for the readers that
    arrived before it was announced only.  As in [Locks], a thread is a program
    and a step is one access of the shared memory. *)
From stdpp Require Import prelude list numbers.
From S2P Require Import Prelude Bits Locks.
Open Scope Z_scope.

(** ** Data *)

Record rte_pflock := mk_pflock { rd_in : Z; rd_out : Z; wr_in : Z; wr_out : Z }.

Definition RTE_PFLOCK_WBITS : Z := 0x3.
Definition RTE_PFLOCK_PRES : Z := 0x2.
Definition RTE_PFLOCK_PHID : Z := 0x1.
Definition RTE_PFLOCK_LSB : Z := 0xFFF0.
Definition RTE_PFLOCK_RINC : Z := 0x10.

Definition set_rd_in (x : Z) (pf : rte_pflock) : rte_pflock := mk_pflock x (rd_out pf) (wr_in pf) (wr_out pf).
Definition set_rd_out (x : Z) (pf : rte_pflock) : rte_pflock := mk_pflock (rd_in pf) x (wr_in pf) (wr_out pf).
Definition set_wr_in (x : Z) (pf : rte_pflock) : rte_pflock := mk_pflock (rd_in pf) (rd_out pf) x (wr_out pf).
Definition set_wr_out (x : Z) (pf : rte_pflock) : rte_pflock := mk_pflock (rd_in pf) (rd_out pf) (wr_in pf) x.

Definition rte_pflock_init : rte_pflock := mk_pflock 0 0 0 0.

(** ** Programs *)

Inductive call := CRead | CWrite.

(** Where a thread stands: idle; in read_lock, waiting for the end of the write
    phase [w]; reading; in write_lock, waiting for its turn, before it announces
    itself, and waiting for the readers before it; writing; in write_unlock before
    it lets the next writer go on. *)
Inductive pc :=
  | Idle | RWait (w : Z) | Reading
  | WTurn (ticket : Z) | WAdd (ticket : Z) | WFlush (ticket : Z) | Writing | WOut.

Definition rte_pflock_read_lock (p : pc) (pf : rte_pflock) : pc * rte_pflock :=
  match p with
  | RWait w => (if negb (Z.land (rd_in pf) RTE_PFLOCK_WBITS =? w) then Reading else RWait w, pf)
  | _ =>
      let w := Z.land (rd_in pf) RTE_PFLOCK_WBITS in
      (if w =? 0 then Reading else RWait w, set_rd_in (u16 (rd_in pf + RTE_PFLOCK_RINC)) pf)
  end.

Definition rte_pflock_read_unlock (pf : rte_pflock) : pc * rte_pflock :=
  (Idle, set_rd_out (u16 (rd_out pf + RTE_PFLOCK_RINC)) pf).

Definition rte_pflock_write_lock (p : pc) (pf : rte_pflock) : pc * rte_pflock :=
  match p with
  | WTurn ticket => (if wr_out pf =? ticket then WAdd ticket else WTurn ticket, pf)
  | WAdd ticket =>
      let w := Z.lor RTE_PFLOCK_PRES (Z.land ticket RTE_PFLOCK_PHID) in
      (WFlush (rd_in pf), set_rd_in (u16 (rd_in pf + w)) pf)
  | WFlush ticket => (if rd_out pf =? ticket then Writing else WFlush ticket, pf)
  | _ => (WTurn (wr_in pf), set_wr_in (u16 (wr_in pf + 1)) pf)
  end.

Definition rte_pflock_write_unlock (p : pc) (pf : rte_pflock) : pc * rte_pflock :=
  match p with
  | WOut => (Idle, set_wr_out (u16 (wr_out pf + 1)) pf)
  | _ => (WOut, set_rd_in (Z.land (rd_in pf) RTE_PFLOCK_LSB) pf)
  end.

Definition pc_step (c : call) (p : pc) (pf : rte_pflock) : pc * rte_pflock :=
  match p with
  | Idle => match c with CRead => rte_pflock_read_lock p pf | CWrite => rte_pflock_write_lock p pf end
  | RWait _ => rte_pflock_read_lock p pf
  | Reading => rte_pflock_read_unlock pf
  | WTurn _ | WAdd _ | WFlush _ => rte_pflock_write_lock p pf
  | Writing | WOut => rte_pflock_write_unlock p pf
  end.

(** ** Any number of threads, with their history: the writers in the order of
    their tickets, those that have begun to write, how many have left; and for
    each thread how many write sections were over when it last arrived as a
    reader. *)
Record conf := mk_conf {
  lock : rte_pflock;
  threads : list pc;
  arrived : list nat;
  entered : list nat;
  departed : nat;
  since : list nat
}.

Definition is_writing (p : pc) : bool := match p with Writing => true | _ => false end.

(** The write sections that are over: those that have begun, without the running
    one. *)
Definition over (s : conf) : nat :=
  length (entered s) - (if existsb is_writing (threads s) then 1 else 0).

Definition step (e : nat * call) (s : conf) : conf :=
  let '(t, c) := e in
  match threads s !! t with
  | None => s
  | Some p =>
      let '(p', pf) := pc_step c p (lock s) in
      mk_conf pf (<[t := p']> (threads s))
        (match p, p' with Idle, WTurn _ => arrived s ++ [t] | _, _ => arrived s end)
        (match p, p' with WFlush _, Writing => entered s ++ [t] | _, _ => entered s end)
        (match p, p' with WOut, Idle => Datatypes.S (departed s) | _, _ => departed s end)
        (match p, p' with Idle, RWait _ | Idle, Reading => <[t := over s]> (since s) | _, _ => since s end)
  end.

Definition run (sched : list (nat * call)) (s : conf) : conf := foldl (fun s e => step e s) s sched.

Definition init (n : nat) : conf := mk_conf rte_pflock_init (repeat Idle n) [] [] 0 (repeat 0%nat n).

(** The writers that have a ticket, in order. *)
Definition queue (s : conf) : list nat := drop (departed s) (arrived s).

(** What the first writer does. *)
Definition first (s : conf) : pc :=
  match queue s with [] => Idle | t :: _ => default Idle (threads s !! t) end.

(** ** Invariant *)

Definition reads (p : pc) : bool := match p with RWait _ | Reading => true | _ => false end.

(** The two bits of the writer with the ticket [k]. *)
Definition phase (k : Z) : Z := 2 + k mod 2.

(** The bits that are set in [rd_in], and those that waiting readers have seen, as
    the first writer stands; the last writer that has left had the ticket
    before. *)
Definition bits (h : pc) (k : Z) : Z := match h with WFlush _ | Writing => phase k | _ => 0 end.
Definition may_wait (h : pc) (k w : Z) : Prop :=
  match h with
  | WFlush _ => w = phase k \/ w = phase (k + 1)
  | Writing | WOut => w = phase k
  | _ => w = phase (k + 1)
  end.

(** Readers that the first writer has to wait for. *)
Definition active (b : Z) (p : pc) : bool :=
  match p with Reading => true | RWait w => negb (w =? b) | _ => false end.

(** Writer [i] in the order of tickets. *)
Definition queued (k : Z) (i : nat) (p : pc) : Prop :=
  p = WTurn (u16 (k + Z.of_nat i))
  \/ (i = 0%nat /\ (p = WAdd k \/ (exists tk, p = WFlush tk) \/ p = Writing \/ p = WOut)).

Definition begun (p : pc) : bool := match p with Writing | WOut => true | _ => false end.

(** The writers: their tickets, their order and their history. *)
Record writers_ok (s : conf) : Prop := {
  w_out : fits 16 (wr_out (lock s));
  w_in : wr_in (lock s) = u16 (wr_out (lock s) + Z.of_nat (length (queue s)));
  w_departed : (departed s <= length (arrived s))%nat;
  w_nodup : NoDup (queue s);
  w_queue : forall i t, queue s !! i = Some t ->
              exists p, threads s !! t = Some p /\ queued (wr_out (lock s)) i p;
  w_others : forall t p, threads s !! t = Some p -> t ∉ queue s -> p = Idle \/ reads p = true;
  w_entered : entered s = take (departed s + if begun (first s) then 1 else 0) (arrived s);
  w_threads : (length (threads s) < 4096)%nat
}.

(** The readers, when the first writer [h] has the ticket [k], [n] write sections
    have begun and [sn] were over when each arrived. *)
Record readers_ok (ri ro k : Z) (h : pc) (ths : list pc) (n : nat) (sn : list nat) : Prop := {
  r_counts : exists o, ro = 16 * o /\ 0 <= o < 4096 /\ ri = 16 * ((o + tally reads ths) mod 4096) + bits h k
      /\ match h with
         | WFlush tk => tk = 16 * ((o + tally (active (phase k)) ths) mod 4096)
         | Writing => tally (active (phase k)) ths = 0
         | _ => True end;
  r_wait : forall t w, ths !! t = Some (RWait w) -> may_wait h k w;
  r_since : forall t w m, ths !! t = Some (RWait w) -> sn !! t = Some m ->
      (n <= m + 1)%nat /\ match h with WFlush _ => w = phase k -> (n <= m)%nat | _ => True end;
  r_sinces : length sn = length ths
}.

Definition inv (s : conf) : Prop :=
  writers_ok s /\ readers_ok (rd_in (lock s)) (rd_out (lock s)) (wr_out (lock s)) (first s) (threads s)
                   (length (entered s)) (since s).

(** ** The writers *)

Lemma queue_bound s : writers_ok s -> (length (queue s) <= length (threads s))%nat.
Proof.
  intros W. rewrite <- (length_seq (length (threads s)) 0).
  apply submseteq_length, NoDup_submseteq; [apply W|].
  intros t Ht. apply list_elem_of_lookup in Ht as [i Hi].
  destruct (w_queue _ W i t Hi) as (p & Hp & _). apply elem_of_seq. pose proof (lookup_lt_Some _ _ _ Hp). lia.
Qed.

Lemma tickets_differ k (i j : nat) : (i < 4096)%nat -> (j < 4096)%nat -> u16 (k + Z.of_nat i) = u16 (k + Z.of_nat j) -> i = j.
Proof.
  unfold wrap. intros Hi Hj E. pose proof (Z.div_mod (k + Z.of_nat i) (2 ^ 16) ltac:(lia)).
  pose proof (Z.div_mod (k + Z.of_nat j) (2 ^ 16) ltac:(lia)). nia.
Qed.

Lemma first_lookup s t p : queue s !! 0%nat = Some t -> threads s !! t = Some p -> first s = p.
Proof. intros Hq Hp. unfold first. destruct (queue s) as [|t' q]; simpl in Hq; simplify_eq. by rewrite Hp. Qed.

(** A thread that is idle or reads is not a writer, any other one is. *)
Lemma not_writer s t p : writers_ok s -> threads s !! t = Some p -> p = Idle \/ reads p = true -> t ∉ queue s.
Proof.
  intros W Hp Hr Hin. apply list_elem_of_lookup in Hin as [i Hi].
  destruct (w_queue _ W i t Hi) as (p' & Hp' & Q). simplify_eq.
  destruct Q as [->|(_ & [->|[[tk ->]|[->| ->]]])]; destruct Hr; done.
Qed.

Lemma is_writer s t p : writers_ok s -> threads s !! t = Some p -> p <> Idle -> reads p = false ->
  exists i, queue s !! i = Some t /\ queued (wr_out (lock s)) i p.
Proof.
  intros W Hp H1 H2. destruct (decide (t ∈ queue s)) as [Hin|Hn].
  - apply list_elem_of_lookup in Hin as [i Hi]. exists i. split; [done|].
    destruct (w_queue _ W i t Hi) as (p' & Hp' & Q). by simplify_eq.
  - destruct (w_others _ W t p Hp Hn); congruence.
Qed.

(** A writer past its turn is the first, and so is the one whose turn it is. *)
Lemma is_first s t p : writers_ok s -> threads s !! t = Some p ->
  match p with WTurn tk => tk = wr_out (lock s) | WAdd _ | WFlush _ | Writing | WOut => True | _ => False end ->
  queue s !! 0%nat = Some t /\ queued (wr_out (lock s)) 0 p.
Proof.
  intros W Hp Hk. destruct (is_writer s t p W Hp) as (i & Hi & Q); [by intros ->|by destruct p|].
  assert (i = 0%nat) as ->; [|done]. destruct Q as [->|[-> _]]; [|done].
  pose proof (queue_bound s W). pose proof (w_threads _ W). pose proof (lookup_lt_Some _ _ _ Hi).
  apply (tickets_differ (wr_out (lock s))); [lia|lia|]. rewrite Hk, Z.add_0_r. symmetry. apply wrap_small, W.
Qed.

(** The first writer is the one that writes. *)
Lemma writing_first s : writers_ok s -> existsb is_writing (threads s) = is_writing (first s).
Proof.
  intros W. apply eq_bool_prop_intro. rewrite !Is_true_true, existsb_exists. split.
  - intros (p & Hp & E). apply list_elem_of_In, list_elem_of_lookup in Hp as [t Ht].
    destruct p; try done. destruct (is_first s t Writing W Ht Logic.I) as [Hq _].
    by rewrite (first_lookup s t _ Hq Ht).
  - intros E. unfold first in E. destruct (queue s) as [|t q] eqn:Eq; [done|].
    destruct (threads s !! t) as [p|] eqn:Hp; [|done]. exists p. split; [|done].
    apply list_elem_of_In. by eapply list_elem_of_lookup_2.
Qed.

Lemma first_other s t q pf sn : t ∉ queue s ->
  first (mk_conf pf (<[t := q]> (threads s)) (arrived s) (entered s) (departed s) sn) = first s.
Proof.
  intros Hn. unfold first, queue in *. simpl. destruct (drop (departed s) (arrived s)) as [|t' r]; [done|].
  by rewrite list_lookup_insert_ne by (intros ->; apply Hn; by left).
Qed.

(** A thread that is not a writer. *)
Lemma writers_other s t p q pf sn : writers_ok s -> threads s !! t = Some p -> t ∉ queue s ->
  q = Idle \/ reads q = true -> wr_in pf = wr_in (lock s) -> wr_out pf = wr_out (lock s) ->
  writers_ok (mk_conf pf (<[t := q]> (threads s)) (arrived s) (entered s) (departed s) sn).
Proof.
  intros W Hp Hn Hq Ei Eo. pose proof (lookup_lt_Some _ _ _ Hp) as Hlt. pose proof (first_other s t q pf sn Hn) as Ef.
  destruct W as [W1 W2 W3 W4 W5 W6 W7 W8]. split; rewrite ?Ef; unfold queue in *; simpl; rewrite ?Ei, ?Eo; try done.
  - intros i t' Hi. destruct (W5 i t' Hi) as (p' & Hp' & Q). exists p'. split; [|done].
    rewrite list_lookup_insert_ne; [done|]. intros ->. by apply Hn, list_elem_of_lookup_2 with i.
  - intros t' p' Hp' Hn'. destruct (decide (t = t')) as [<-|].
    + rewrite list_lookup_insert_eq in Hp' by done. by simplify_eq.
    + rewrite list_lookup_insert_ne in Hp' by done. by eapply W6.
  - by rewrite length_insert.
Qed.

(** The first writer goes on. *)
Lemma writers_first s t p q pf sn ent : writers_ok s -> threads s !! t = Some p -> queue s !! 0%nat = Some t ->
  queued (wr_out (lock s)) 0 q -> wr_in pf = wr_in (lock s) -> wr_out pf = wr_out (lock s) ->
  ent = (if begun p then entered s else if begun q then entered s ++ [t] else entered s) -> (begun p = true -> begun q = true) ->
  writers_ok (mk_conf pf (<[t := q]> (threads s)) (arrived s) ent (departed s) sn)
  /\ first (mk_conf pf (<[t := q]> (threads s)) (arrived s) ent (departed s) sn) = q.
Proof.
  intros W Hp Hq Q Ei Eo -> Hb. pose proof (lookup_lt_Some _ _ _ Hp) as Hlt.
  pose proof (first_lookup s t p Hq Hp) as Ep.
  set (ent := if begun p then _ else _). set (s' := mk_conf _ _ _ _ _ _).
  assert (first s' = q) as Ef by (apply (first_lookup s' t); [done|]; by apply list_lookup_insert_eq).
  split; [|done]. destruct W as [W1 W2 W3 W4 W5 W6 W7 W8]. rewrite Ep in W7.
  split; rewrite ?Ef; unfold queue in *; simpl; rewrite ?Ei, ?Eo; try done.
  - intros i t' Hi. destruct (decide (t = t')) as [<-|].
    + assert (i = 0%nat) as -> by (by eapply NoDup_lookup). exists q. by rewrite list_lookup_insert_eq.
    + rewrite list_lookup_insert_ne by done. by apply W5.
  - intros t' p' Hp' Hn'. rewrite list_lookup_insert_ne in Hp'; [by eapply W6|].
    intros ->. by apply Hn', list_elem_of_lookup_2 with 0%nat.
  - unfold ent. rewrite lookup_drop, Nat.add_0_r in Hq.
    destruct (begun p); [by rewrite Hb|]. rewrite Nat.add_0_r in W7. destruct (begun q); [|by rewrite Nat.add_0_r].
    rewrite W7, Nat.add_1_r. symmetry. by apply take_S_r.
  - by rewrite length_insert.
Qed.

(** The next ticket is taken. *)
Lemma writers_join s t p pf sn : writers_ok s -> threads s !! t = Some p -> t ∉ queue s ->
  wr_in pf = u16 (wr_in (lock s) + 1) -> wr_out pf = wr_out (lock s) ->
  let s' := mk_conf pf (<[t := WTurn (wr_in (lock s))]> (threads s)) (arrived s ++ [t]) (entered s) (departed s) sn in
  writers_ok s' /\ (first s' = first s \/ first s = Idle /\ exists tk, first s' = WTurn tk).
Proof.
  intros W Hp Hn Ei Eo s'. pose proof (lookup_lt_Some _ _ _ Hp) as Hlt. destruct W as [W1 W2 W3 W4 W5 W6 W7 W8].
  assert (queue s' = queue s ++ [t]) as Eq by (unfold queue, s'; simpl; by rewrite drop_app_le).
  assert (first s' = first s \/ first s = Idle /\ exists tk, first s' = WTurn tk) as Ef.
  { unfold first. rewrite Eq. destruct (queue s) as [|t' r]; simpl.
    - right. rewrite list_lookup_insert_eq by done. split; [done|]. by eexists.
    - left. rewrite list_lookup_insert_ne; [done|]. intros ->. apply Hn. by left. }
  split; [|done]. assert (begun (first s') = begun (first s)) as Eb by (by destruct Ef as [->|[-> [tk ->]]]).
  split; rewrite ?Eb, ?Eq; simpl; rewrite ?Ei, ?Eo; try done.
  - rewrite length_app, W2. autorewrite with wrapdb. f_equal. simpl. lia.
  - rewrite length_app. lia.
  - apply list.NoDup_app. split; [done|]. split; [|apply NoDup_singleton].
    intros x Hx Hx'. apply list_elem_of_singleton in Hx' as ->. done.
  - intros i t' Hi. destruct (decide (i < length (queue s))%nat) as [Hi'|Hi'].
    + rewrite lookup_app_l in Hi by done. destruct (W5 i t' Hi) as (p' & Hp' & Q'). exists p'. split; [|done].
      rewrite list_lookup_insert_ne; [done|]. intros ->. by apply Hn, list_elem_of_lookup_2 with i.
    + rewrite lookup_app_r in Hi by lia. apply list_lookup_singleton_Some in Hi as [Hi <-].
      exists (WTurn (wr_in (lock s))). rewrite list_lookup_insert_eq by done. split; [done|]. left.
      rewrite W2. do 3 f_equal. lia.
  - intros t' p' Hp' Hn'. rewrite elem_of_app, list_elem_of_singleton in Hn'.
    rewrite list_lookup_insert_ne in Hp' by (intros ->; tauto). apply (W6 t' p' Hp'). tauto.
  - rewrite W7, take_app_le; [done|]. unfold first, queue in *. rewrite length_drop in *.
    destruct (drop (departed s) (arrived s)) as [|t' r] eqn:E; simpl; [lia|].
    pose proof (f_equal length E) as El. rewrite length_drop in El. simpl in El. destruct (begun _); lia.
  - by rewrite length_insert.
Qed.

(** The first writer leaves. *)
Lemma writers_leave s t pf sn : writers_ok s -> threads s !! t = Some WOut -> queue s !! 0%nat = Some t ->
  wr_in pf = wr_in (lock s) -> wr_out pf = u16 (wr_out (lock s) + 1) ->
  let s' := mk_conf pf (<[t := Idle]> (threads s)) (arrived s) (entered s) (Datatypes.S (departed s)) sn in
  writers_ok s' /\ (first s' = Idle \/ exists tk, first s' = WTurn tk).
Proof.
  intros W Hp Hq Ei Eo s'. pose proof (lookup_lt_Some _ _ _ Hp) as Hlt. pose proof (first_lookup s t WOut Hq Hp) as Ep.
  destruct W as [W1 W2 W3 W4 W5 W6 W7 W8]. rewrite Ep in W7.
  assert (exists r, queue s = t :: r) as [r Er] by (destruct (queue s) as [|x r]; simpl in Hq; simplify_eq; by exists r).
  assert (queue s' = r) as Eq by (unfold queue, s' in *; simpl; by rewrite <- Nat.add_1_r, <- drop_drop, Er).
  assert (departed s < length (arrived s))%nat as Hd by (unfold queue in Er; apply (f_equal length) in Er; rewrite length_drop in Er; simpl in Er; lia).
  rewrite Er in *. apply list.NoDup_cons in W4 as [Ht ND].
  assert (forall i t', r !! i = Some t' -> threads s' !! t' = Some (WTurn (u16 (wr_out pf + Z.of_nat i)))) as Hr.
  { intros i t' Hi. destruct (W5 (Datatypes.S i) t' Hi) as (p' & Hp' & Q). unfold s'. simpl.
    rewrite list_lookup_insert_ne by (intros ->; by apply Ht, list_elem_of_lookup_2 with i). rewrite Hp'.
    destruct Q as [->|[? _]]; [|done]. rewrite Eo. autorewrite with wrapdb. do 3 f_equal. lia. }
  assert (first s' = Idle \/ exists tk, first s' = WTurn tk) as Ef.
  { destruct r as [|t' r]; [left; unfold first; by rewrite Eq|right].
    eexists. apply (first_lookup s' t'); [by rewrite Eq|]. by apply (Hr 0%nat). }
  split; [|done]. assert (begun (first s') = false) as Eb by (by destruct Ef as [->|[tk ->]]).
  split; rewrite ?Eb, ?Eq; simpl; rewrite ?Ei, ?Eo; try done.
  - by apply wrap_fits.
  - rewrite W2. autorewrite with wrapdb. f_equal. cbn [length]. lia.
  - intros i t' Hi. eexists. split; [by apply Hr|]. left. by rewrite Eo.
  - intros t' p' Hp' Hn'. destruct (decide (t = t')) as [<-|].
    + rewrite list_lookup_insert_eq in Hp' by done. simplify_eq. by left.
    + rewrite list_lookup_insert_ne in Hp' by done. apply (W6 t' p' Hp'). rewrite elem_of_cons. intros [->|]; done.
  - rewrite W7. cbn [begun]. f_equal. lia.
  - by rewrite length_insert.
Qed.

(** ** The readers *)

Lemma phase_range k : 2 <= phase k <= 3.
Proof. unfold phase. pose proof (Z.mod_pos_bound k 2 ltac:(lia)). lia. Qed.

Lemma phase_next k : phase (k + 1) <> phase k.
Proof. unfold phase. intros E. pose proof (Z.div_mod k 2 ltac:(lia)). pose proof (Z.div_mod (k + 1) 2 ltac:(lia)).
  pose proof (Z.mod_pos_bound k 2 ltac:(lia)). lia. Qed.

Lemma phase_wrap k : phase (u16 k) = phase k.
Proof.
  unfold phase, wrap. f_equal. apply Z.mod_mod_divide. by exists (2 ^ 15).
Qed.

Lemma phase_again k : phase (k + 1 + 1) = phase k.
Proof. unfold phase. f_equal. rewrite <- Z.add_assoc. apply (Z.mod_add k 1 2). lia. Qed.

Lemma bits_range h k : 0 <= bits h k <= 3.
Proof. pose proof (phase_range k). destruct h; simpl; lia. Qed.

Lemma rd_in_bits m b : 0 <= m -> 0 <= b <= 3 -> Z.land (16 * m + b) RTE_PFLOCK_WBITS = b.
Proof.
  intros Hm Hb. change RTE_PFLOCK_WBITS with (2 ^ 2 - 1). rewrite land_mask by lia.
  replace (16 * m + b) with (b + 4 * m * 2 ^ 2) by lia. rewrite Z.mod_add by lia. by rewrite Z.mod_small by lia.
Qed.

Lemma rd_in_clear m b : 0 <= m < 4096 -> 0 <= b <= 3 -> Z.land (16 * m + b) RTE_PFLOCK_LSB = 16 * m.
Proof.
  intros Hm Hb. change RTE_PFLOCK_LSB with (wrap 16 (Z.lnot (2 ^ 4 - 1))).
  rewrite land_clear_low by (unfold fits; lia). replace (16 * m + b) with (b + m * 2 ^ 4) at 2 by lia.
  rewrite Z.mod_add, Z.mod_small by lia. lia.
Qed.

Lemma rd_in_add x b : 0 <= b <= 3 -> u16 (16 * (x mod 4096) + b + RTE_PFLOCK_RINC) = 16 * ((x + 1) mod 4096) + b.
Proof.
  intros Hb. unfold wrap, RTE_PFLOCK_RINC. pose proof (Z.div_mod x 4096 ltac:(lia)). pose proof (Z.mod_pos_bound x 4096 ltac:(lia)).
  pose proof (Z.div_mod (x + 1) 4096 ltac:(lia)). pose proof (Z.mod_pos_bound (x + 1) 4096 ltac:(lia)).
  symmetry. apply (Z.mod_unique_pos _ _ ((x + 1) / 4096 - x / 4096)); lia.
Qed.

Section readers.
Context (ri ro k : Z) (h : pc) (ths : list pc) (n : nat) (sn : list nat) (R : readers_ok ri ro k h ths n sn).

Lemma insert_rwait t q t' w : ths !! t <> None -> <[t := q]> ths !! t' = Some (RWait w) ->
  (t' = t /\ q = RWait w) \/ (t' <> t /\ ths !! t' = Some (RWait w)).
Proof.
  intros Ht H. destruct (decide (t' = t)) as [->|Hn]; [left|right].
  - rewrite list_lookup_insert_eq in H; [by simplify_eq|]. apply lookup_lt_is_Some. by destruct (ths !! t); eauto.
  - by rewrite list_lookup_insert_ne in H.
Qed.

(** A writer changes. *)
Lemma readers_writer t p q : ths !! t = Some p -> reads p = false -> reads q = false ->
  readers_ok ri ro k h (<[t := q]> ths) n sn.
Proof.
  intros Hp Hrp Hrq. destruct R as [(o & E1 & E2 & E3 & E4) R2 R3 R4].
  assert (forall f, f p = false -> f q = false -> tally f (<[t := q]> ths) = tally f ths) as T.
  { intros f Fp Fq. rewrite (tally_insert _ _ _ _ _ Hp), Fp, Fq. simpl. lia. }
  assert (forall b, active b p = false /\ active b q = false) as A by (intros b; by destruct p, q).
  split.
  - exists o. rewrite (T reads) by done. split; [done|]. split; [done|]. split; [done|].
    destruct h; try done; destruct (A (phase k)); by rewrite T.
  - intros t' w Hw. apply insert_rwait in Hw as [[-> ->]|[_ Hw]]; [done|by eapply R2|by rewrite Hp].
  - intros t' w m Hw Hm. apply insert_rwait in Hw as [[-> ->]|[_ Hw]]; [done|by eapply R3|by rewrite Hp].
  - by rewrite length_insert.
Qed.

(** A reader arrives. *)
Lemma readers_arrive t : ths !! t = Some Idle ->
  let w := Z.land ri RTE_PFLOCK_WBITS in
  readers_ok (u16 (ri + RTE_PFLOCK_RINC)) ro k h (<[t := if w =? 0 then Reading else RWait w]> ths) n
    (<[t := (n - (if is_writing h then 1 else 0))%nat]> sn).
Proof.
  intros Hp w. destruct R as [(o & E1 & E2 & E3 & E4) R2 R3 R4]. pose proof (bits_range h k) as Hb.
  assert (0 <= (o + tally reads ths) mod 4096) as Hm by (apply Z.mod_pos_bound; lia).
  assert (w = bits h k) as Ew by (unfold w; rewrite E3; by apply rd_in_bits). clearbody w. subst w.
  set (q := if bits h k =? 0 then Reading else RWait (bits h k)). pose proof (lookup_lt_Some _ _ _ Hp) as Hlt.
  assert (reads q = true) as Hq by (unfold q; by destruct (bits h k =? 0)).
  split.
  - exists o. split; [done|]. split; [done|]. split.
    + rewrite E3, rd_in_add, (tally_insert _ _ _ _ _ Hp), Hq by done. simpl. do 3 f_equal. lia.
    + assert (match h with WFlush _ | Writing => active (phase k) q = false | _ => True end) as Ha.
      { unfold q. pose proof (phase_range k). destruct h; try done; simpl;
          (rewrite (proj2 (Z.eqb_neq (phase k) 0)) by lia; simpl; by rewrite Z.eqb_refl). }
      destruct h; try done; rewrite (tally_insert _ _ _ _ _ Hp), Ha; simpl; rewrite Z.sub_0_r, Z.add_0_r; done.
  - intros t' w Hw. apply insert_rwait in Hw as [[-> Hw]|[_ Hw]]; [|by eapply R2|by rewrite Hp].
    unfold q in Hw. pose proof (phase_range k). destruct (Z.eqb_spec (bits h k) 0) as [|Hn]; [done|]. injection Hw as <-.
    destruct h; simpl in *; (done || by left).
  - intros t' w m Hw Hm'. apply insert_rwait in Hw as [[-> Hw]|[Hne Hw]]; [| |by rewrite Hp].
    + rewrite list_lookup_insert_eq in Hm' by (by rewrite R4). injection Hm' as <-.
      split; [by destruct h; simpl; lia|]. destruct h; try done. intros _. simpl. lia.
    + rewrite list_lookup_insert_ne in Hm' by done. by eapply R3.
  - by rewrite !length_insert.
Qed.

(** A waiting reader sees other bits. *)
Lemma readers_enter t w : ths !! t = Some (RWait w) -> Z.land ri RTE_PFLOCK_WBITS <> w ->
  readers_ok ri ro k h (<[t := Reading]> ths) n sn.
Proof.
  intros Hp Hw. destruct R as [(o & E1 & E2 & E3 & E4) R2 R3 R4]. pose proof (bits_range h k) as Hb.
  rewrite E3, rd_in_bits in Hw by (done || (apply Z.mod_pos_bound; lia)).
  split.
  - exists o. split; [done|]. split; [done|]. split.
    + rewrite (tally_insert _ _ _ _ _ Hp). simpl. rewrite E3. do 3 f_equal. lia.
    + destruct h; try done; rewrite (tally_insert _ _ _ _ _ Hp); simpl in *;
        rewrite (proj2 (Z.eqb_neq w (phase k))) by congruence; simpl.
      * rewrite E4. do 2 f_equal. lia.
      * pose proof (R2 _ _ Hp) as Hx. simpl in Hx. congruence.
  - intros t' w' Hw'. apply insert_rwait in Hw' as [[-> ?]|[_ Hw']]; [done|by eapply R2|by rewrite Hp].
  - intros t' w' m Hw' Hm. apply insert_rwait in Hw' as [[-> ?]|[_ Hw']]; [done|by eapply R3|by rewrite Hp].
  - by rewrite length_insert.
Qed.

(** A reader leaves. *)
Lemma readers_leave t : ths !! t = Some Reading -> readers_ok ri (u16 (ro + RTE_PFLOCK_RINC)) k h (<[t := Idle]> ths) n sn.
Proof.
  intros Hp. destruct R as [(o & E1 & E2 & E3 & E4) R2 R3 R4].
  assert (forall x, (o + x) mod 4096 = ((o + 1) mod 4096 + (x - 1)) mod 4096) as Em.
  { intros x. rewrite Zplus_mod_idemp_l. f_equal. lia. }
  split.
  - exists ((o + 1) mod 4096). pose proof (Z.mod_pos_bound (o + 1) 4096 ltac:(lia)) as Hb. split; [|split; [done|split]].
    + pose proof (rd_in_add o 0 ltac:(lia)) as A. rewrite !Z.add_0_r, (Z.mod_small o) in A by lia. by rewrite E1.
    + rewrite E3, (tally_insert _ _ _ _ _ Hp), Em. simpl. do 4 f_equal. lia.
    + destruct h; try done; rewrite (tally_insert _ _ _ _ _ Hp); simpl.
      * rewrite E4, Em. do 3 f_equal. lia.
      * pose proof (tally_insert (active (phase k)) ths t Reading Idle Hp) as T. simpl in T.
        pose proof (tally_range (active (phase k)) (<[t := Idle]> ths)). lia.
  - intros t' w' Hw'. apply insert_rwait in Hw' as [[-> ?]|[_ Hw']]; [done|by eapply R2|by rewrite Hp].
  - intros t' w' m Hw' Hm. apply insert_rwait in Hw' as [[-> ?]|[_ Hw']]; [done|by eapply R3|by rewrite Hp].
  - by rewrite length_insert.
Qed.
End readers.

Lemma tally_ext {A} (f g : A -> bool) l : (forall t p, l !! t = Some p -> f p = g p) -> tally f l = tally g l.
Proof.
  induction l as [|a l IH]; intros H; [done|]. simpl. rewrite (H 0%nat a) by done. f_equal. apply IH.
  intros t p Hp. by apply (H (Datatypes.S t)).
Qed.

Lemma tally_zero {A} (f : A -> bool) l t p : tally f l = 0 -> l !! t = Some p -> f p = false.
Proof.
  intros H Hp. destruct (f p) eqn:E; [|done]. pose proof (list_insert_id _ _ _ Hp) as Ei.
  destruct (tally_range f (take t l)), (tally_range f (drop (Datatypes.S t) l)).
  assert (forall l1 l2, tally f (l1 ++ l2) = tally f l1 + tally f l2) as App.
  { clear. intros l1 l2. induction l1 as [|a l1 IH]; [done|]. simpl. lia. }
  rewrite <- (take_drop_middle l t p Hp), App in H. simpl in H. rewrite E in H. simpl in H. lia.
Qed.

(** ** The first writer goes on *)

Definition no_writer (h : pc) : bool := match h with WFlush _ | Writing | WOut => false | _ => true end.

Section phases.
Context (ri ro k : Z) (ths : list pc) (n : nat) (sn : list nat).

Lemma readers_open h h' : no_writer h = true -> no_writer h' = true ->
  readers_ok ri ro k h ths n sn -> readers_ok ri ro k h' ths n sn.
Proof.
  intros H H' [(o & E1 & E2 & E3 & E4) R2 R3 R4].
  split; [exists o; split_and!; destruct h, h'; done || lia| | |done].
  - intros t w Hw. pose proof (R2 t w Hw). by destruct h, h'.
  - intros t w m Hw Hm. destruct (R3 t w m Hw Hm) as [? _]. split; [done|]. by destruct h'.
Qed.

Lemma announced_bits : Z.lor RTE_PFLOCK_PRES (Z.land k RTE_PFLOCK_PHID) = phase k.
Proof.
  unfold phase. change RTE_PFLOCK_PHID with (2 ^ 1 - 1). rewrite land_mask by lia. change (2 ^ 1) with 2.
  pose proof (Z.mod_pos_bound k 2 ltac:(lia)). assert (k mod 2 = 0 \/ k mod 2 = 1) as [-> | ->] by lia; reflexivity.
Qed.

(** It announces itself: the readers there are those it waits for. *)
Lemma readers_announce tk : (length ths < 4096)%nat -> readers_ok ri ro k (WAdd tk) ths n sn ->
  readers_ok (u16 (ri + phase k)) ro k (WFlush ri) ths n sn.
Proof.
  intros Hl [(o & E1 & E2 & E3 & E4) R2 R3 R4]. pose proof (phase_range k). simpl in E3.
  pose proof (Z.mod_pos_bound (o + tally reads ths) 4096 ltac:(lia)).
  assert (tally (active (phase k)) ths = tally reads ths) as Ea.
  { apply tally_ext. intros t p Hp. destruct p; try done. pose proof (R2 t w Hp) as Hw. simpl in *.
    apply negb_true_iff, Z.eqb_neq. rewrite Hw. apply phase_next. }
  split; [exists o|intros t w Hw; right; by apply (R2 t)| |done].
  - split; [done|]. split; [done|]. split.
    + rewrite E3, Z.add_0_r. simpl. apply wrap_small. unfold fits. lia.
    + rewrite Ea. lia.
  - intros t w m Hw Hm. destruct (R3 t w m Hw Hm) as [? _]. split; [done|]. intros ->.
    pose proof (R2 _ _ Hw) as Hx. simpl in Hx. symmetry in Hx. by apply phase_next in Hx.
Qed.

(** They have left: it writes. *)
Lemma readers_flushed tk : (length ths < 4096)%nat -> ro = tk -> readers_ok ri ro k (WFlush tk) ths n sn ->
  readers_ok ri ro k Writing ths (Datatypes.S n) sn.
Proof.
  intros Hl -> [(o & E1 & E2 & E3 & E4) R2 R3 R4]. pose proof (tally_range (active (phase k)) ths) as T.
  assert (tally (active (phase k)) ths = 0) as E0.
  { clear E3 R2 R3. revert E4 T. generalize (tally (active (phase k)) ths) as x. intros x E4 T.
    pose proof (Z.div_mod (o + x) 4096 ltac:(lia)). lia. }
  assert (forall t w, ths !! t = Some (RWait w) -> w = phase k) as Hw.
  { intros t w Hp. pose proof (tally_zero _ _ _ _ E0 Hp) as Hx. simpl in Hx.
    by apply negb_false_iff, Z.eqb_eq in Hx. }
  split; [exists o|intros t w Hp; by apply (Hw t)| |done].
  - split; [done|]. split; [done|]. split; [done|]. done.
  - intros t w m Hp Hm. destruct (R3 t w m Hp Hm) as [_ Hs]. specialize (Hs (Hw t w Hp)). split; [lia|done].
Qed.

(** It stops writing: those that wait may enter. *)
Lemma readers_release : readers_ok ri ro k Writing ths n sn -> readers_ok (Z.land ri RTE_PFLOCK_LSB) ro k WOut ths n sn.
Proof.
  intros [(o & E1 & E2 & E3 & E4) R2 R3 R4]. pose proof (bits_range Writing k).
  pose proof (Z.mod_pos_bound (o + tally reads ths) 4096 ltac:(lia)).
  split; [exists o|intros t w Hp; by apply (R2 t)| |done].
  - split; [done|]. split; [done|]. split; [|done]. rewrite E3, rd_in_clear by done. simpl. lia.
  - intros t w m Hp Hm. exact (R3 t w m Hp Hm).
Qed.

(** The next one has another phase. *)
Lemma readers_next h : no_writer h = true -> readers_ok ri ro k WOut ths n sn -> readers_ok ri ro (u16 (k + 1)) h ths n sn.
Proof.
  intros Hh [(o & E1 & E2 & E3 & E4) R2 R3 R4]. split; [exists o; by destruct h| | |done].
  - intros t w Hp. pose proof (R2 t w Hp) as ->.
    assert (phase k = phase (u16 (k + 1) + 1)) as E
      by (by rewrite <- (phase_wrap (u16 (k + 1) + 1)), wrap_add_l, phase_wrap, phase_again).
    by destruct h.
  - intros t w m Hp Hm. destruct (R3 t w m Hp Hm) as [? _]. split; [done|]. by destruct h.
Qed.
End phases.

(** ** Steps *)

Lemma pf_inv_writer_step s t p c : inv s -> threads s !! t = Some p ->
  match p with WTurn _ | WAdd _ | WFlush _ | Writing | WOut => True | _ => False end -> inv (step (t, c) s).
Proof.
  intros [W R] Hp Hk. pose proof (w_threads _ W) as Hl. unfold step. rewrite Hp.
  assert (forall q, reads q = false -> readers_ok (rd_in (lock s)) (rd_out (lock s)) (wr_out (lock s)) (first s)
    (<[t := q]> (threads s)) (length (entered s)) (since s)) as R1.
  { intros q Hq. apply (readers_writer _ _ _ _ _ _ _ R t p q); [done|by destruct p|done]. }
  destruct p as [| | |tk|tk|tk| |]; try done; cbn [pc_step rte_pflock_write_lock rte_pflock_write_unlock].
  - destruct (Z.eqb_spec (wr_out (lock s)) tk) as [E|_].
    2: { rewrite list_insert_id by done. by destruct s. }
    destruct (is_first s t (WTurn tk) W Hp) as [Hq Q]; [done|]. pose proof (first_lookup s t _ Hq Hp) as Ef.
    destruct (writers_first s t (WTurn tk) (WAdd tk) (lock s) (since s) (entered s)) as [W' Ef']; try done.
    { right. split; [done|]. left. by subst tk. }
    split; [done|]. rewrite Ef'. simpl. apply (readers_open _ _ _ _ _ _ (first s)); [by rewrite Ef|done|by apply R1].
  - destruct (is_first s t (WAdd tk) W Hp Logic.I) as [Hq Q]. pose proof (first_lookup s t _ Hq Hp) as Ef.
    assert (tk = wr_out (lock s)) as -> by (destruct Q as [Q|(_ & [Q|[[? Q]|[Q|Q]]])]; congruence).
    rewrite announced_bits.
    destruct (writers_first s t (WAdd (wr_out (lock s))) (WFlush (rd_in (lock s)))
      (set_rd_in (u16 (rd_in (lock s) + phase (wr_out (lock s)))) (lock s)) (since s) (entered s)) as [W' Ef']; try done.
    { right. split; [done|]. right; left. by eexists. }
    split; [done|]. rewrite Ef'. simpl. apply (readers_announce _ _ _ _ _ _ (wr_out (lock s))); [by rewrite length_insert|].
    rewrite <- Ef at 1. by apply R1.
  - destruct (Z.eqb_spec (rd_out (lock s)) tk) as [E|_].
    2: { rewrite list_insert_id by done. by destruct s. }
    destruct (is_first s t (WFlush tk) W Hp Logic.I) as [Hq Q]. pose proof (first_lookup s t _ Hq Hp) as Ef.
    destruct (writers_first s t (WFlush tk) Writing (lock s) (since s) (entered s ++ [t])) as [W' Ef']; try done.
    { right. split; [done|]. right; right; by left. }
    split; [done|]. rewrite Ef'. simpl. rewrite length_app, Nat.add_1_r.
    apply (readers_flushed _ _ _ _ _ _ tk); [by rewrite length_insert|done|]. rewrite <- Ef. by apply R1.
  - destruct (is_first s t Writing W Hp Logic.I) as [Hq Q]. pose proof (first_lookup s t _ Hq Hp) as Ef.
    destruct (writers_first s t Writing WOut (set_rd_in (Z.land (rd_in (lock s)) RTE_PFLOCK_LSB) (lock s)) (since s) (entered s))
      as [W' Ef']; try done.
    { right. split; [done|]. by right; right; right. }
    split; [done|]. rewrite Ef'. simpl. apply readers_release. rewrite <- Ef. by apply R1.
  - destruct (is_first s t WOut W Hp Logic.I) as [Hq Q]. pose proof (first_lookup s t _ Hq Hp) as Ef.
    destruct (writers_leave s t (set_wr_out (u16 (wr_out (lock s) + 1)) (lock s)) (since s) W Hp Hq) as [W' Ef']; [done|done|].
    split; [done|]. simpl in *. apply readers_next; [by destruct Ef' as [->|[x ->]]|]. rewrite <- Ef. by apply R1.
Qed.

Lemma pf_inv_step e s : inv s -> inv (step e s).
Proof.
  destruct e as [t c]. intros I. destruct (threads s !! t) as [p|] eqn:Hp.
  2: { unfold step. by rewrite Hp. }
  destruct p as [|w| |tk|tk|tk| |]; try by eapply pf_inv_writer_step.
  all: destruct I as [W R]; pose proof (not_writer s t _ W Hp) as Hn; unfold step; rewrite Hp.
  - specialize (Hn (or_introl eq_refl)). destruct c; cbn [pc_step rte_pflock_read_lock rte_pflock_write_lock].
    + set (q := if Z.land _ _ =? 0 then Reading else _).
      assert (reads q = true) as Hq by (unfold q; by case_match).
      replace (match q with WTurn _ => arrived s ++ [t] | _ => arrived s end) with (arrived s) by (by destruct q).
      replace (match q with RWait _ | Reading => <[t := over s]> (since s) | _ => since s end)
        with (<[t := over s]> (since s)) by (by destruct q).
      split; [apply (writers_other s t Idle); auto|]. rewrite first_other by done. simpl.
      unfold over. rewrite (writing_first s W). by apply readers_arrive.
    + destruct (writers_join s t Idle (set_wr_in (u16 (wr_in (lock s) + 1)) (lock s)) (since s) W Hp Hn) as [W' Ef]; [done|done|].
      split; [done|]. simpl in *.
      pose proof (readers_writer _ _ _ _ _ _ _ R t Idle (WTurn (wr_in (lock s))) Hp eq_refl eq_refl) as R'.
      destruct Ef as [->|[E [tk ->]]]; [done|]. rewrite E in R'. by apply (readers_open _ _ _ _ _ _ Idle).
  - specialize (Hn (or_intror eq_refl)). cbn [pc_step rte_pflock_read_lock].
    destruct (Z.eqb_spec (Z.land (rd_in (lock s)) RTE_PFLOCK_WBITS) w) as [E|E]; cbn [negb].
    + rewrite list_insert_id by done. by destruct s.
    + split; [apply (writers_other s t (RWait w)); auto|]. rewrite first_other by done. simpl. by apply (readers_enter _ _ _ _ _ _ _ R t w).
  - specialize (Hn (or_intror eq_refl)). cbn [pc_step rte_pflock_read_unlock].
    split; [apply (writers_other s t Reading); auto|]. rewrite first_other by done. simpl. by apply readers_leave.
Qed.

Lemma pf_inv_init n : (n < 4096)%nat -> inv (init n).
Proof.
  intros Hn. assert (forall {A} (a : A) t b, repeat a n !! t = Some b -> b = a) as R.
  { intros A a t b H. by apply list_elem_of_lookup_2, list_elem_of_In, repeat_spec in H. }
  split; split; simpl; try done.
  - constructor.
  - intros t p Hp _. apply R in Hp. by left.
  - by rewrite repeat_length.
  - exists 0. rewrite tally_repeat by done. done.
  - intros t w Hp. by apply R in Hp.
  - intros t w m Hp. by apply R in Hp.
  - by rewrite !repeat_length.
Qed.

(** ** Property *)

Lemma tally_some {A} (f : A -> bool) l : tally f l <> 0 -> exists t p, l !! t = Some p /\ f p = true.
Proof.
  induction l as [|a l IH]; intros H; [done|]. simpl in H. destruct (f a) eqn:E; [by exists 0%nat, a|].
  destruct IH as (t & p & Hp & Hf); [simpl in H; lia|]. by exists (Datatypes.S t), p.
Qed.

(** A thread that is neither reading nor writing can go on, if there is one that
    is not idle and none that reads or writes. *)
Lemma pf_progress s t0 p0 : inv s -> threads s !! t0 = Some p0 -> p0 <> Idle ->
  exists t p, threads s !! t = Some p /\ p <> Idle /\ forall c, (pc_step c p (lock s)).1 <> p.
Proof.
  intros [W [(o & E1 & E2 & E3 & E4) R2 R3 R4]] Hp0 Hn0.
  pose proof (Z.mod_pos_bound (o + tally reads (threads s)) 4096 ltac:(lia)) as Hm.
  assert (Z.land (rd_in (lock s)) RTE_PFLOCK_WBITS = bits (first s) (wr_out (lock s))) as Eb.
  { rewrite E3. apply rd_in_bits; [lia|apply bits_range]. }
  destruct (queue s) as [|t q] eqn:Eq.
  - assert (first s = Idle) as Ef by (unfold first; by rewrite Eq). rewrite Ef in *.
    exists t0, p0. split; [done|]. split; [done|]. intros c.
    destruct (w_others _ W t0 p0 Hp0) as [|Hr]; [rewrite Eq; by intros ?%elem_of_nil|done|].
    destruct p0 as [|w| | | | | |]; try done. pose proof (R2 t0 w Hp0) as Hw. simpl in Hw. cbn [pc_step rte_pflock_read_lock].
    rewrite Eb. pose proof (phase_range (wr_out (lock s) + 1)). cbn [bits]. destruct (Z.eqb_spec 0 w); [lia|done].
  - destruct (w_queue _ W 0 t) as (p & Hp & Q); [by rewrite Eq|].
    pose proof (first_lookup s t p ltac:(by rewrite Eq) Hp) as Ef. rewrite Ef in *.
    destruct Q as [->|(_ & [->|[[tk ->]|[->| ->]]])].
    + exists t, (WTurn (u16 (wr_out (lock s) + 0))). split; [done|]. split; [done|]. intros c. cbn [pc_step rte_pflock_write_lock].
      rewrite Z.add_0_r, (wrap_small 16), Z.eqb_refl by apply W. done.
    + by exists t, (WAdd (wr_out (lock s))).
    + destruct (decide (tally (active (phase (wr_out (lock s)))) (threads s) = 0)) as [E0|E0].
      * exists t, (WFlush tk). split; [done|]. split; [done|]. intros c. cbn [pc_step rte_pflock_write_lock].
        rewrite E4, E0, E1, Z.add_0_r, Z.mod_small, Z.eqb_refl by done. done.
      * apply tally_some in E0 as (t' & p & Hp' & Ha). exists t', p. split; [done|]. split; [by intros ->|]. intros c.
        destruct p as [|w| | | | | |]; try done. cbn [pc_step rte_pflock_read_lock]. rewrite Eb. simpl in *.
        rewrite Z.eqb_sym in Ha. by rewrite Ha.
    + by exists t, Writing.
    + by exists t, WOut.
Qed.

(** C20. The phase-fair lock: in every interleaving of at most 4095 threads that
    read and write, nobody reads or writes beside a writer; the writers write in
    the order of their tickets; a reader that has to wait waits for at most one
    write section, the one that runs when it arrives if there is one, even if
    writers keep coming (of the sections that were not over when it arrived at
    most one has begun); and the threads never block each other: as long as one is
    not idle, some thread that is not idle goes on with its next step. *)
Theorem pflock_phase_fair (n : nat) (sched : list (nat * call)) : (n < 4096)%nat ->
  let s := run sched (init n) in
  (forall t1 t2 p, threads s !! t1 = Some Writing -> threads s !! t2 = Some p -> p <> Reading /\ (p = Writing -> t1 = t2))
  /\ entered s `prefix_of` arrived s
  /\ (forall t w m, threads s !! t = Some (RWait w) -> since s !! t = Some m -> (length (entered s) <= m + 1)%nat)
  /\ (forall t p, threads s !! t = Some p -> p <> Idle ->
       exists t' p', threads s !! t' = Some p' /\ p' <> Idle /\ forall c, (pc_step c p' (lock s)).1 <> p').
Proof.
  intros Hn s. assert (inv s) as I by exact (run_invariant step inv sched _ pf_inv_step (pf_inv_init n Hn)).
  pose proof I as [W R]. split; [|split; [|split]].
  - intros t1 t2 p H1 H2. destruct (is_first s t1 Writing W H1 Logic.I) as [Hq _].
    pose proof (first_lookup s t1 _ Hq H1) as Ef. split.
    + intros ->. destruct R as [(o & _ & _ & _ & E4) _ _ _]. rewrite Ef in E4. pose proof (tally_zero _ _ _ _ E4 H2). done.
    + intros ->. destruct (is_first s t2 Writing W H2 Logic.I) as [Hq' _]. congruence.
  - rewrite (w_entered _ W). apply prefix_take.
  - intros t w m Hp Hm. by apply (r_since _ _ _ _ _ _ _ R t w m Hp Hm).
  - intros t p Hp Hi. by apply (pf_progress s t p).
Qed.

(** A reader, a writer that waits for it and a reader behind the writer. *)
Lemma pflock_phase_fair_witness :
  let s := run [(0%nat, CRead); (1%nat, CWrite); (1%nat, CWrite); (1%nat, CWrite); (2%nat, CRead); (0%nat, CRead); (1%nat, CWrite)] (init 3) in
  threads s = [Idle; Writing; RWait 2] /\ forall m, since s !! 2%nat = Some m -> (length (entered s) <= m + 1)%nat.
Proof.
  intros s. split; [reflexivity|].
  destruct (pflock_phase_fair 3 [(0%nat, CRead); (1%nat, CWrite); (1%nat, CWrite); (1%nat, CWrite); (2%nat, CRead); (0%nat, CRead); (1%nat, CWrite)]
    ltac:(lia)) as (_ & _ & H & _).
  intros m. apply (H 2%nat 2). reflexivity.
Defined.
