(* ===== verification/Lpm.v ===== *)
(** * Longest prefix match ([include/rte_lpm.h], [include/rte_lpm_sse.h]).

    The lookups of routes: one address, an array of addresses, and four addresses
    at once with SSE2 instructions, which are a parameter.  The tables are filled
    by the library; [holds] says what they contain for a set of rules, after the
    comments of [struct rte_lpm_tbl_entry]. *)
From stdpp Require Import prelude list numbers.
From S2P Require Import Prelude Bits.
Open Scope Z_scope.

(** ** Data *)

Definition RTE_LPM_MAX_DEPTH : Z := 32.
Definition RTE_LPM_TBL8_GROUP_NUM_ENTRIES : Z := 256.
Definition RTE_LPM_VALID_EXT_ENTRY_BITMASK : Z := 0x03000000.
Definition RTE_LPM_LOOKUP_SUCCESS : Z := 0x01000000.
Definition ENOENT : Z := 2.

(** An entry is a word: [next_hop] in the 24 low bits, then [valid],
    [valid_group] and six bits of [depth]. *)
Definition next_hop (e : Z) : Z := Z.land e 0x00FFFFFF.
Definition valid (e : Z) : bool := Z.testbit e 24.
Definition valid_group (e : Z) : bool := Z.testbit e 25.
Definition depth (e : Z) : Z := Z.shiftr e 26.

(** The two arrays, as the words that can be read at an index. *)
Record rte_lpm := mk_lpm { tbl24 : Z -> option Z; tbl8 : Z -> option Z }.

(** ** Lookups *)

(** The address of the [tbl8] entry that a [tbl24] entry points to. *)
Definition rte_lpm_lookup (lpm : rte_lpm) (ip : Z) : option (Z * Z) :=
  let tbl24_index := Z.shiftr ip 8 in
  tbl_entry ← tbl24 lpm tbl24_index ;
  tbl_entry ← (if Z.land tbl_entry RTE_LPM_VALID_EXT_ENTRY_BITMASK
                  =? RTE_LPM_VALID_EXT_ENTRY_BITMASK then
                 let tbl8_index := u32 (u8 ip + u32 (Z.land tbl_entry 0x00FFFFFF
                                                     * RTE_LPM_TBL8_GROUP_NUM_ENTRIES)) in
                 tbl8 lpm tbl8_index
               else Some tbl_entry) ;
  Some (if truthy (Z.land tbl_entry RTE_LPM_LOOKUP_SUCCESS) then 0 else - ENOENT,
        Z.land tbl_entry 0x00FFFFFF).

(** [for (i = 0; i < n; i++)] of the indexes, from [i] on. *)
Fixpoint bulk_indexes (ips : list Z) (fuel : nat) (i : Z) (tbl24_indexes : list Z) : option (list Z) :=
  match fuel with
  | O => Some tbl24_indexes
  | Datatypes.S fuel =>
      ip ← aget ips i ;
      tbl24_indexes ← aset tbl24_indexes i (Z.shiftr ip 8) ;
      bulk_indexes ips fuel (i + 1) tbl24_indexes
  end.

(** [for (i = 0; i < n; i++)] of the entries, from [i] on. *)
Fixpoint bulk_entries (lpm : rte_lpm) (ips tbl24_indexes : list Z) (fuel : nat) (i : Z)
  (next_hops : list Z) : option (list Z) :=
  match fuel with
  | O => Some next_hops
  | Datatypes.S fuel =>
      idx ← aget tbl24_indexes i ;
      e ← tbl24 lpm idx ;
      next_hops ← aset next_hops i e ;
      h ← aget next_hops i ;
      next_hops ←
        (if Z.land h RTE_LPM_VALID_EXT_ENTRY_BITMASK =? RTE_LPM_VALID_EXT_ENTRY_BITMASK then
           ip ← aget ips i ;
           let tbl8_index := u32 (u8 ip + u32 (Z.land h 0x00FFFFFF
                                               * RTE_LPM_TBL8_GROUP_NUM_ENTRIES)) in
           e ← tbl8 lpm tbl8_index ;
           aset next_hops i e
         else Some next_hops) ;
      bulk_entries lpm ips tbl24_indexes fuel (i + 1) next_hops
  end.

(** The local array of indexes is not initialised. *)
Definition rte_lpm_lookup_bulk_func (lpm : rte_lpm) (ips next_hops : list Z) (n : Z)
  : option (Z * list Z) :=
  tbl24_indexes ← bulk_indexes ips (Z.to_nat n) 0 (repeat 0 (Z.to_nat n)) ;
  next_hops ← bulk_entries lpm ips tbl24_indexes (Z.to_nat n) 0 next_hops ;
  Some (0, next_hops).

(** *** Four addresses at once

    A register of 128 bits is an integer; [lane k] is its word [u32[k]]. *)
Definition lane (k x : Z) : Z := u32 (Z.shiftr x (32 * k)).

Class Sse2 := {
  mm_set_epi32 : Z -> Z -> Z -> Z -> Z;
  mm_srli_epi32 : Z -> Z -> Z;
  mm_srli_si128 : Z -> Z -> Z;
  mm_cvtsi128_si64 : Z -> Z;
  mm_and_si128 : Z -> Z -> Z
}.

(** What the instruction set reference says of them, where they are used: shifts
    of the four words and of the whole register, its low 64 bits, the
    conjunction. *)
Class LawfulSse2 (sse : Sse2) := {
  set_law a b c d : fits 32 a -> fits 32 b -> fits 32 c -> fits 32 d ->
    mm_set_epi32 a b c d = ((a * 2 ^ 32 + b) * 2 ^ 32 + c) * 2 ^ 32 + d;
  srl_law x n : fits 128 x -> 0 <= n < 32 ->
    fits 128 (mm_srli_epi32 x n)
    /\ forall k, 0 <= k < 4 -> lane k (mm_srli_epi32 x n) = Z.shiftr (lane k x) n;
  srl_bytes_law x n : fits 128 x -> 0 <= n < 16 -> mm_srli_si128 x n = Z.shiftr x (8 * n);
  cvt_law x : fits 128 x -> mm_cvtsi128_si64 x = i64 x;
  and_law x y : fits 128 x -> fits 128 y -> mm_and_si128 x y = Z.land x y
}.

Definition RTE_LPM_MASKX4_RES : Z := 0x00ffffff00ffffff.

Section x4.
Context {sse : Sse2} (lpm : rte_lpm).

(** The word of [tbl8] for the entry [tbl], whose flags are read in [pt]. *)
Definition x4_extend (pt i8 tbl : Z) : option Z :=
  if Z.land pt RTE_LPM_VALID_EXT_ENTRY_BITMASK =? RTE_LPM_VALID_EXT_ENTRY_BITMASK then
    let i8 := u32 (i8 + u32 (Z.land tbl 0x00FFFFFF * RTE_LPM_TBL8_GROUP_NUM_ENTRIES)) in
    tbl8 lpm i8
  else Some tbl.

Definition x4_hop (tbl defv : Z) : Z :=
  if truthy (Z.land tbl RTE_LPM_LOOKUP_SUCCESS) then Z.land tbl 0x00FFFFFF else defv.

(** The result is the contents of [hop]. *)
Definition rte_lpm_lookupx4 (ip defv : Z) : option (list Z) :=
  let mask8 := mm_set_epi32 255 255 255 255 in
  let mask_xv := Z.lor RTE_LPM_VALID_EXT_ENTRY_BITMASK (Z.shiftl RTE_LPM_VALID_EXT_ENTRY_BITMASK 32) in
  let mask_v := Z.lor RTE_LPM_LOOKUP_SUCCESS (Z.shiftl RTE_LPM_LOOKUP_SUCCESS 32) in
  let i24 := mm_srli_epi32 ip 8 in
  let idx := u64 (mm_cvtsi128_si64 i24) in
  let i24 := mm_srli_si128 i24 8 in
  tbl0 ← tbl24 lpm (u32 idx) ;
  tbl1 ← tbl24 lpm (Z.shiftr idx 32) ;
  let idx := u64 (mm_cvtsi128_si64 i24) in
  tbl2 ← tbl24 lpm (u32 idx) ;
  tbl3 ← tbl24 lpm (Z.shiftr idx 32) ;
  let i8 := mm_and_si128 ip mask8 in
  let pt := Z.lor tbl0 (u64 (Z.shiftl tbl1 32)) in
  let pt2 := Z.lor tbl2 (u64 (Z.shiftl tbl3 32)) in
  if (Z.land pt mask_xv =? mask_v) && (Z.land pt2 mask_xv =? mask_v) then
    let a := Z.land pt RTE_LPM_MASKX4_RES in
    let b := Z.land pt2 RTE_LPM_MASKX4_RES in
    Some [u32 a; Z.shiftr a 32; u32 b; Z.shiftr b 32]
  else
    tbl0 ← x4_extend pt (lane 0 i8) tbl0 ;
    tbl1 ← x4_extend (Z.shiftr pt 32) (lane 1 i8) tbl1 ;
    tbl2 ← x4_extend pt2 (lane 2 i8) tbl2 ;
    tbl3 ← x4_extend (Z.shiftr pt2 32) (lane 3 i8) tbl3 ;
    Some [x4_hop tbl0 defv; x4_hop tbl1 defv; x4_hop tbl2 defv; x4_hop tbl3 defv].
End x4.

(** ** Rules

    A rule sends the addresses that begin with the first [r_depth] bits of [r_ip]
    to [r_hop]. *)
Record rule := mk_rule { r_ip : Z; r_depth : Z; r_hop : Z }.

Definition covers (r : rule) (ip : Z) : Prop :=
  Z.shiftr ip (32 - r_depth r) = Z.shiftr (r_ip r) (32 - r_depth r).

(** The longest of the rules that cover an address. *)
Definition longest (rules : list rule) (ip : Z) (r : rule) : Prop :=
  r ∈ rules /\ covers r ip /\ forall r', r' ∈ rules -> covers r' ip -> r_depth r' <= r_depth r.

(** What the tables say for the [2 ^ k] addresses that begin with [p]: the entry
    is valid when a rule contains them all, and then it is the one of the
    greatest depth; no rule is deeper than the entry and covers one of them. *)
Definition entry_ok (rules : list rule) (k p e : Z) : Prop :=
  fits 32 e /\
  if valid e then
    (exists r, r ∈ rules /\ r_depth r = depth e /\ r_hop r = next_hop e /\ r_depth r <= 32 - k
               /\ Z.shiftr p (32 - k - r_depth r) = Z.shiftr (r_ip r) (32 - r_depth r))
    /\ forall r ip, r ∈ rules -> Z.shiftr ip k = p -> covers r ip -> r_depth r <= depth e
  else forall r ip, r ∈ rules -> Z.shiftr ip k = p -> ~ covers r ip.

(** The tables hold the rules: an entry of [tbl24] speaks for 256 addresses, or
    points to a group of [tbl8] that has an entry for each of them. *)
Definition holds (lpm : rte_lpm) (rules : list rule) : Prop :=
  forall p, fits 24 p ->
    exists e, tbl24 lpm p = Some e /\ fits 32 e /\
      if valid e && valid_group e then
        forall j, 0 <= j < 256 ->
          exists e', tbl8 lpm (next_hop e * 256 + j) = Some e' /\ entry_ok rules 0 (p * 256 + j) e'
      else entry_ok rules 8 p e.

(** * Lemmas *)

(** ** Flags of an entry *)

Lemma land_two_bits e : Z.land e RTE_LPM_VALID_EXT_ENTRY_BITMASK = Z.shiftl (Z.land (Z.shiftr e 24) 3) 24.
Proof.
  change RTE_LPM_VALID_EXT_ENTRY_BITMASK with (Z.shiftl 3 24).
  apply Z.bits_inj'. intros n Hn. rewrite Z.land_spec. destruct (decide (24 <= n)).
  - rewrite !Z.shiftl_spec, Z.land_spec, Z.shiftr_spec by lia. do 2 f_equal. lia.
  - rewrite !Z.shiftl_spec_low by lia. apply andb_false_r.
Qed.

Lemma two_bits e : Z.land (Z.shiftr e 24) 3 = b2z (valid e) + 2 * b2z (valid_group e).
Proof.
  unfold valid, valid_group. change 3 with (2 ^ 2 - 1). rewrite land_mask by lia.
  rewrite <- (Z.add_0_l 24) at 2. rewrite <- (Z.shiftr_spec e 24 0) by lia.
  change 25 with (1 + 24). rewrite <- (Z.shiftr_spec e 24 1) by lia.
  set (x := Z.shiftr e 24). rewrite Z.bit0_eqb, (Z.testbit_eqb x 1) by lia.
  pose proof (Z.div_mod x 4 ltac:(lia)). pose proof (Z.mod_pos_bound x 4 ltac:(lia)).
  change (2 ^ 2) with 4. change (2 ^ 1) with 2.
  assert (x mod 2 = (x mod 4) mod 2) as -> by (symmetry; apply Z.mod_mod_divide; by exists 2).
  assert ((x / 2) mod 2 = (x mod 4) / 2) as ->.
  { clearbody x. clear. Z.div_mod_to_equations. lia. }
  assert (x mod 4 = 0 \/ x mod 4 = 1 \/ x mod 4 = 2 \/ x mod 4 = 3) as [->|[->|[->| ->]]] by lia; done.
Qed.

Lemma extended_flags e :
  (Z.land e RTE_LPM_VALID_EXT_ENTRY_BITMASK =? RTE_LPM_VALID_EXT_ENTRY_BITMASK)
  = valid e && valid_group e.
Proof. rewrite land_two_bits, two_bits. by destruct (valid e), (valid_group e). Qed.

(** A hop that needs no second access. *)
Lemma direct_flags e :
  (Z.land e RTE_LPM_VALID_EXT_ENTRY_BITMASK =? RTE_LPM_LOOKUP_SUCCESS)
  = valid e && negb (valid_group e).
Proof. rewrite land_two_bits, two_bits. by destruct (valid e), (valid_group e). Qed.

Lemma success_flag e : truthy (Z.land e RTE_LPM_LOOKUP_SUCCESS) = valid e.
Proof.
  change RTE_LPM_LOOKUP_SUCCESS with (Z.land RTE_LPM_VALID_EXT_ENTRY_BITMASK 0x01000000).
  rewrite Z.land_assoc, land_two_bits, two_bits. by destruct (valid e), (valid_group e).
Qed.

Lemma next_hop_mod e : next_hop e = e mod 2 ^ 24.
Proof. apply (land_mask e 24). lia. Qed.

Lemma next_hop_fits e : fits 24 (next_hop e).
Proof. rewrite next_hop_mod. by apply wrap_fits. Qed.

(** ** The entry of an address *)

Definition entry_at (lpm : rte_lpm) (ip : Z) : option Z :=
  e ← tbl24 lpm (Z.shiftr ip 8) ;
  if valid e && valid_group e then tbl8 lpm (next_hop e * 256 + u8 ip) else Some e.

Definition hop_of (e : Z) : option Z := if valid e then Some (next_hop e) else None.

(** The right answer for an address. *)
Definition route (rules : list rule) (ip : Z) (o : option Z) : Prop :=
  match o with
  | Some hop => exists r, longest rules ip r /\ r_hop r = hop
  | None => forall r, r ∈ rules -> ~ covers r ip
  end.

Lemma group_index e ip :
  u32 (u8 ip + u32 (Z.land e 0x00FFFFFF * RTE_LPM_TBL8_GROUP_NUM_ENTRIES)) = next_hop e * 256 + u8 ip.
Proof.
  change (Z.land e 0x00FFFFFF) with (next_hop e). pose proof (next_hop_fits e) as H. unfold fits in H.
  pose proof (wrap_range 8 ip ltac:(lia)). unfold RTE_LPM_TBL8_GROUP_NUM_ENTRIES.
  rewrite (wrap_small 32 (_ * _)), wrap_small by (unfold fits; lia). lia.
Qed.

Lemma lookup_entry lpm ip :
  rte_lpm_lookup lpm ip = e ← entry_at lpm ip ; Some (if valid e then 0 else - ENOENT, next_hop e).
Proof.
  unfold rte_lpm_lookup, entry_at. destruct (tbl24 lpm _) as [e|]; [|done]. cbn [mbind option_bind].
  rewrite extended_flags, group_index. case_match.
  - destruct (tbl8 _ _) as [e'|]; [|done]. cbn [mbind option_bind]. by rewrite success_flag.
  - cbn [mbind option_bind]. by rewrite success_flag.
Qed.

Section rules.
Context (lpm : rte_lpm) (rules : list rule).

Lemma entry_route k p e ip :
  0 <= k -> entry_ok rules k p e -> Z.shiftr ip k = p -> route rules ip (hop_of e).
Proof.
  intros Hk [_ E] Hip. unfold hop_of. destruct (valid e); [|by intros r Hr; apply E].
  destruct E as ((r & Hr & Hd & Hh & Hl & Hp) & Hmax). exists r. split; [|done]. split; [done|]. split.
  - unfold covers. rewrite <- Hp, <- Hip, Z.shiftr_shiftr by lia. f_equal. lia.
  - intros r' Hr' Hc. rewrite Hd. by apply (Hmax r' ip).
Qed.

Lemma holds_entry (H : holds lpm rules) ip :
  fits 32 ip -> exists e, entry_at lpm ip = Some e /\ fits 32 e /\ route rules ip (hop_of e).
Proof.
  intros Hip. unfold fits in Hip.
  assert (Z.shiftr ip 8 = ip / 256) as Es by (apply Z.shiftr_div_pow2; lia).
  pose proof (Z.div_mod ip 256 ltac:(lia)). pose proof (Z.mod_pos_bound ip 256 ltac:(lia)).
  destruct (H (Z.shiftr ip 8)) as (e & He & Hf & E); [unfold fits; lia|].
  unfold entry_at. rewrite He. cbn [mbind option_bind]. destruct (valid e && valid_group e).
  - destruct (E (u8 ip)) as (e' & He' & E'); [by apply (wrap_range 8)|]. exists e'.
    do 2 (split; [apply He' || apply E'|]). eapply (entry_route 0); [lia|exact E'|].
    rewrite Z.shiftr_0_r, Es. unfold wrap. change (2 ^ 8) with 256. lia.
  - exists e. do 2 (split; [done|]). by eapply (entry_route 8).
Qed.
End rules.

(** ** The array of addresses *)

Lemma bulk_indexes_ok ips fuel : forall i l,
  (i + fuel <= length l)%nat -> (i + fuel <= length ips)%nat ->
  exists l', bulk_indexes ips fuel (Z.of_nat i) l = Some l' /\ length l' = length l
    /\ forall j ip, (i <= j < i + fuel)%nat -> ips !! j = Some ip -> l' !! j = Some (Z.shiftr ip 8).
Proof.
  enough (forall i l, (i + fuel <= length l)%nat -> (i + fuel <= length ips)%nat ->
    exists l', bulk_indexes ips fuel (Z.of_nat i) l = Some l' /\ length l' = length l
    /\ (forall j, (j < i)%nat -> l' !! j = l !! j)
    /\ forall j ip, (i <= j < i + fuel)%nat -> ips !! j = Some ip -> l' !! j = Some (Z.shiftr ip 8)) as Q.
  { intros i l H1 H2. destruct (Q i l H1 H2) as (l' & ? & ? & _ & ?). eauto. }
  induction fuel as [|fuel IH]; intros i l Hl Hi; cbn [bulk_indexes].
  { exists l. do 3 (split; [done|]). lia. }
  destruct (lookup_lt_is_Some_2 ips i ltac:(lia)) as [ip Hip].
  rewrite (aget_nat ips), Hip. cbn [mbind option_bind].
  rewrite aset_nat by lia. cbn [mbind option_bind].
  replace (Z.of_nat i + 1) with (Z.of_nat (Datatypes.S i)) by lia.
  destruct (IH (Datatypes.S i) (<[i:=Z.shiftr ip 8]> l)) as (l' & E & Hlen & Hlow & Hin); [rewrite length_insert; lia|lia|].
  rewrite length_insert in Hlen. exists l'. split; [done|]. split; [done|]. split.
  - intros j Hj. rewrite Hlow by lia. by rewrite list_lookup_insert_ne by lia.
  - intros j ip' Hj Hip'. destruct (decide (j = i)) as [->|]; [|by apply Hin; [lia|]].
    simplify_eq. rewrite Hlow by lia. by rewrite list_lookup_insert_eq by lia.
Qed.

Section bulk.
Context (lpm : rte_lpm) (ips idx : list Z).

Lemma bulk_entries_ok fuel : forall i l,
  (i + fuel <= length l)%nat ->
  (forall j, (i <= j < i + fuel)%nat -> exists ip e, ips !! j = Some ip
       /\ idx !! j = Some (Z.shiftr ip 8) /\ entry_at lpm ip = Some e) ->
  exists l', bulk_entries lpm ips idx fuel (Z.of_nat i) l = Some l' /\ length l' = length l
    /\ (forall j, (j < i \/ i + fuel <= j)%nat -> l' !! j = l !! j)
    /\ forall j ip, (i <= j < i + fuel)%nat -> ips !! j = Some ip -> l' !! j = entry_at lpm ip.
Proof.
  induction fuel as [|fuel IH]; intros i l Hl Hall; cbn [bulk_entries].
  { exists l. do 3 (split; [done|]). lia. }
  destruct (Hall i ltac:(lia)) as (ip & e & Hip & Hidx & He). pose proof He as He'. unfold entry_at in He'.
  rewrite (aget_nat idx), Hidx. cbn [mbind option_bind].
  destruct (tbl24 lpm (Z.shiftr ip 8)) as [e0|]; [|done]. cbn [mbind option_bind] in *.
  rewrite aset_nat by lia. cbn [mbind option_bind].
  rewrite (aget_nat (<[i:=e0]> l)), list_lookup_insert_eq by lia.
  cbn [mbind option_bind]. rewrite extended_flags.
  match goal with |- context [(if valid e0 && valid_group e0 then ?a else ?b)] =>
    assert ((if valid e0 && valid_group e0 then a else b) = Some (<[i := e]> l)) as -> end.
  { destruct (valid e0 && valid_group e0); [|by simplify_eq].
    rewrite (aget_nat ips), Hip. cbn [mbind option_bind].
    rewrite group_index, He'. cbn [mbind option_bind]. rewrite aset_nat by (rewrite length_insert; lia).
    by rewrite list_insert_insert_eq. }
  cbn [mbind option_bind]. replace (Z.of_nat i + 1) with (Z.of_nat (Datatypes.S i)) by lia.
  destruct (IH (Datatypes.S i) (<[i:=e]> l)) as (l' & E & Hlen & Hlow & Hin);
    [rewrite length_insert; lia|intros j Hj; apply Hall; lia|].
  rewrite length_insert in Hlen. exists l'. split; [done|]. split; [done|]. split.
  - intros j Hj. rewrite Hlow by lia. by rewrite list_lookup_insert_ne by lia.
  - intros j ip' Hj Hip'. destruct (decide (j = i)) as [->|]; [|by apply Hin; [lia|]].
    simplify_eq. rewrite Hlow by lia. by rewrite list_lookup_insert_eq by lia.
Qed.
End bulk.

(** ** Four addresses at once *)

Section pairs.
Context (a b c d : Z) (Ha : fits 32 a) (Hb : fits 32 b) (Hc : fits 32 c).

Lemma pair_testbit n : 0 <= n ->
  Z.testbit (Z.lor a (Z.shiftl b 32)) n = if n <? 32 then Z.testbit a n else Z.testbit b (n - 32).
Proof.
  intros Hn. rewrite Z.lor_spec. destruct (Z.ltb_spec n 32).
  - rewrite Z.shiftl_spec_low by done. apply orb_false_r.
  - rewrite Z.shiftl_spec by lia. rewrite (testbit_beyond 32 a) by (done || lia). done.
Qed.

Lemma pair_low : u32 (Z.lor a (Z.shiftl b 32)) = a.
Proof.
  apply Z.bits_inj'. intros n Hn. rewrite testbit_wrap by lia. rewrite pair_testbit by done.
  destruct (Z.ltb_spec n 32); [done|]. symmetry. apply (testbit_beyond 32); [done|lia].
Qed.

Lemma pair_high : Z.shiftr (Z.lor a (Z.shiftl b 32)) 32 = b.
Proof.
  apply Z.bits_inj'. intros n Hn. rewrite Z.shiftr_spec, pair_testbit by lia.
  rewrite (proj2 (Z.ltb_ge _ _)) by lia. f_equal. lia.
Qed.

Lemma pair_shift : u64 (Z.shiftl b 32) = Z.shiftl b 32.
Proof. unfold fits in Hb. rewrite Z.shiftl_mul_pow2 by lia. apply wrap_small. unfold fits. lia. Qed.
End pairs.

Lemma pair_land a b c d : fits 32 a -> fits 32 c ->
  Z.land (Z.lor a (Z.shiftl b 32)) (Z.lor c (Z.shiftl d 32)) = Z.lor (Z.land a c) (Z.shiftl (Z.land b d) 32).
Proof.
  intros Ha Hc. apply Z.bits_inj'. intros n Hn.
  rewrite Z.land_spec, !pair_testbit by (done || by apply fits_land). rewrite !Z.land_spec. by destruct (n <? 32).
Qed.

Lemma pair_eqb a b c d : fits 32 a -> fits 32 c ->
  (Z.lor a (Z.shiftl b 32) =? Z.lor c (Z.shiftl d 32)) = (a =? c) && (b =? d).
Proof.
  intros Ha Hc. apply eq_true_iff_eq. rewrite andb_true_iff, !Z.eqb_eq. split; [|by intros [-> ->]].
  intros E. split; [rewrite <- (pair_low a b), <- (pair_low c d) by done; by rewrite E|].
  rewrite <- (pair_high a b), <- (pair_high c d) by done. by rewrite E.
Qed.

Section x4.
Context (sse : Sse2) (L : LawfulSse2 sse) (lpm : rte_lpm).

Lemma lane_u64 x : u32 (u64 x) = lane 0 x /\ Z.shiftr (u64 x) 32 = lane 1 x.
Proof.
  unfold lane. split; apply Z.bits_inj'; intros n Hn.
  - rewrite !testbit_wrap, Z.shiftr_spec by lia. rewrite Z.mul_0_r, Z.add_0_r.
    destruct (Z.ltb_spec n 32); [|done]. by rewrite (proj2 (Z.ltb_lt n 64)) by lia.
  - rewrite Z.shiftr_spec, !testbit_wrap, Z.shiftr_spec by lia. rewrite Z.mul_1_r. f_equal.
    apply eq_true_iff_eq. rewrite !Z.ltb_lt. lia.
Qed.

Lemma lane_shift k x : 0 <= k -> lane k (Z.shiftr x 64) = lane (k + 2) x.
Proof. intros. unfold lane. rewrite Z.shiftr_shiftr by lia. do 2 f_equal. lia. Qed.

(** The two indexes that a conversion delivers. *)
Lemma lanes_cvt x : fits 128 x ->
  u32 (u64 (mm_cvtsi128_si64 x)) = lane 0 x /\ Z.shiftr (u64 (mm_cvtsi128_si64 x)) 32 = lane 1 x.
Proof. intros Hx. rewrite cvt_law, wrap_swrap by (done || lia). apply lane_u64. Qed.

Lemma lane_and k x : fits 128 x -> 0 <= k < 4 ->
  lane k (mm_and_si128 x (mm_set_epi32 255 255 255 255)) = u8 (lane k x).
Proof.
  intros Hx Hk. rewrite set_law by (unfold fits; lia). rewrite and_law by (done || (unfold fits; lia)).
  unfold lane. rewrite Z.shiftr_land. set (m := Z.shiftr (_ + 255) (32 * k)).
  assert (u32 m = Z.ones 8) as E.
  { assert (k = 0 \/ k = 1 \/ k = 2 \/ k = 3) as [->|[->|[->| ->]]] by lia; reflexivity. }
  apply Z.bits_inj'. intros n Hn. rewrite testbit_wrap, Z.land_spec, !testbit_wrap by lia.
  assert ((n <? 32) && Z.testbit m n = (n <? 8)) as Em.
  { rewrite <- testbit_wrap, E, Z.testbit_ones by lia. by rewrite (proj2 (Z.leb_le 0 n)) by lia. }
  destruct (n <? 32), (Z.testbit m n), (n <? 8); simpl in *; try done; by rewrite ?andb_true_r, ?andb_false_r.
Qed.

Lemma pair_flags a b m : fits 32 a -> fits 32 m -> Z.land (Z.lor a (Z.shiftl b 32)) m = Z.land a m.
Proof.
  intros Ha Hm. rewrite <- (Z.lor_0_r m) at 1. rewrite <- (Z.shiftl_0_l 32) at 1.
  rewrite pair_land by done. by rewrite Z.land_0_r, Z.shiftl_0_l, Z.lor_0_r.
Qed.

(** An address whose first access delivers [t] and whose lookup delivers [e]. *)
Definition looks_up (ip t e : Z) : Prop :=
  tbl24 lpm (Z.shiftr ip 8) = Some t /\ fits 32 t /\ entry_at lpm ip = Some e.

Lemma x4_extend_ok pt ip t e :
  looks_up ip t e ->
  Z.land pt RTE_LPM_VALID_EXT_ENTRY_BITMASK = Z.land t RTE_LPM_VALID_EXT_ENTRY_BITMASK ->
  x4_extend lpm pt (u8 ip) t = Some e.
Proof.
  intros (Ht & _ & He) Hp. unfold x4_extend. rewrite Hp, extended_flags, group_index.
  unfold entry_at in He. by rewrite Ht in He.
Qed.

Lemma x4_hop_ok e defv : x4_hop e defv = default defv (hop_of e).
Proof. unfold x4_hop, hop_of. rewrite success_flag. by destruct (valid e). Qed.

Lemma direct_entry ip t e :
  looks_up ip t e -> valid t && negb (valid_group t) = true -> hop_of e = Some (next_hop t).
Proof.
  intros (Ht & _ & He) Hd. unfold entry_at in He. rewrite Ht in He. cbn [mbind option_bind] in He.
  unfold hop_of. destruct (valid t) eqn:V, (valid_group t); try done. simplify_eq/=. by rewrite V.
Qed.

Lemma lookupx4_ok ip defv t0 t1 t2 t3 e0 e1 e2 e3 :
  fits 128 ip -> looks_up (lane 0 ip) t0 e0 -> looks_up (lane 1 ip) t1 e1 ->
  looks_up (lane 2 ip) t2 e2 -> looks_up (lane 3 ip) t3 e3 ->
  rte_lpm_lookupx4 lpm ip defv = Some (map (fun e => default defv (hop_of e)) [e0; e1; e2; e3]).
Proof.
  intros Hip L0 L1 L2 L3. unfold rte_lpm_lookupx4.
  destruct (srl_law ip 8 Hip ltac:(lia)) as [Hf Hl].
  set (i24 := mm_srli_epi32 ip 8) in *. rewrite srl_bytes_law by (done || lia). change (8 * 8) with 64.
  assert (fits 128 (Z.shiftr i24 64)) as Hf' by (apply fits_shiftr; [lia|lia|done]).
  destruct (lanes_cvt i24 Hf) as [-> ->]. destruct (lanes_cvt _ Hf') as [-> ->].
  rewrite !lane_shift by lia. change (0 + 2) with 2. change (1 + 2) with 3.
  rewrite !Hl by lia. pose proof L0 as (-> & F0 & _). cbn [mbind option_bind].
  pose proof L1 as (-> & F1 & _). cbn [mbind option_bind]. pose proof L2 as (-> & F2 & _). cbn [mbind option_bind].
  pose proof L3 as (-> & F3 & _). cbn [mbind option_bind]. rewrite !pair_shift by done.
  rewrite !pair_land, !pair_eqb, !direct_flags by (done || by apply fits_land).
  case_match eqn:D.
  - rewrite !andb_true_iff in D. destruct D as [[D0 D1] [D2 D3]].
    change RTE_LPM_MASKX4_RES with (Z.lor 0x00FFFFFF (Z.shiftl 0x00FFFFFF 32)).
    rewrite !pair_land by done. rewrite !pair_low, !pair_high by by apply fits_land.
    cbn [map].
    rewrite (direct_entry _ _ _ L0), (direct_entry _ _ _ L1), (direct_entry _ _ _ L2), (direct_entry _ _ _ L3)
      by by apply andb_true_iff. done.
  - rewrite !pair_high, !lane_and by (done || lia).
    rewrite (x4_extend_ok _ _ _ _ L0) by by apply pair_flags. cbn [mbind option_bind].
    rewrite (x4_extend_ok _ _ _ _ L1) by done. cbn [mbind option_bind].
    rewrite (x4_extend_ok _ _ _ _ L2) by by apply pair_flags. cbn [mbind option_bind].
    rewrite (x4_extend_ok _ _ _ _ L3) by done. cbn [mbind option_bind map]. by rewrite !x4_hop_ok.
Qed.
End x4.

(** ** The theorem *)

Lemma holds_first lpm rules ip :
  holds lpm rules -> fits 32 ip -> exists t e, looks_up lpm ip t e /\ fits 32 e /\ route rules ip (hop_of e).
Proof.
  intros H Hip. destruct (holds_entry lpm rules H ip Hip) as (e & He & Hf & Hr).
  destruct (H (Z.shiftr ip 8)) as (t & Ht & Htf & _).
  { rewrite Z.shiftr_div_pow2 by lia. unfold fits in *. Z.div_mod_to_equations. lia. }
  exists t, e. split; [done|]. by split.
Qed.

Lemma lane_fits k x : fits 32 (lane k x).
Proof. by apply wrap_fits. Qed.

(** C36. When the tables hold the rules, the three lookups answer with the rule of
    the longest prefix that covers the address.  The lookup of one address returns
    0 and the hop, or [-ENOENT] when no rule covers it; the lookup of [n]
    addresses fills the first [n] slots of the output with entries whose valid bit
    and hop say the same and leaves the others; the lookup of four addresses puts
    the default where there is no rule, for any way the four fall on the two
    tables. *)
Theorem lpm_lookups_longest_prefix (sse : Sse2) (L : LawfulSse2 sse) (lpm : rte_lpm) (rules : list rule) :
  holds lpm rules ->
  (forall ip, fits 32 ip -> exists o h, route rules ip o
     /\ rte_lpm_lookup lpm ip = Some (match o with Some _ => 0 | None => - ENOENT end, h) /\ (is_Some o -> o = Some h))
  /\ (forall ips out (n : nat), (n <= length ips)%nat -> (n <= length out)%nat -> Forall (fits 32) ips ->
       exists out', rte_lpm_lookup_bulk_func lpm ips out (Z.of_nat n) = Some (0, out')
         /\ drop n out' = drop n out /\ length out' = length out
         /\ forall i ip, (i < n)%nat -> ips !! i = Some ip ->
              exists e, out' !! i = Some e /\ route rules ip (hop_of e))
  /\ (forall ip defv, fits 128 ip -> exists hops, rte_lpm_lookupx4 lpm ip defv = Some hops
       /\ length hops = 4%nat /\ forall k : nat, (k < 4)%nat ->
            exists o, route rules (lane (Z.of_nat k) ip) o /\ hops !! k = Some (default defv o)).
Proof.
  intros H. split; [|split].
  - intros ip Hip. destruct (holds_first lpm rules ip H Hip) as (t & e & (_ & _ & He) & _ & Hr).
    exists (hop_of e), (next_hop e). split; [done|]. rewrite lookup_entry, He. cbn [mbind option_bind].
    unfold hop_of. destruct (valid e); [done|]. split; [done|]. by intros [? ?].
  - intros ips out n Hn Ho Hall. unfold rte_lpm_lookup_bulk_func. rewrite Nat2Z.id.
    destruct (bulk_indexes_ok ips n 0 (repeat 0 n)) as (idx & Ei & _ & Hidx); [by rewrite repeat_length|done|].
    change (Z.of_nat 0) with 0 in Ei. rewrite Ei.
    cbn [mbind option_bind].
    destruct (bulk_entries_ok lpm ips idx n 0 out) as (out' & Eo & Hlen & Hrest & Hin); [done| |].
    { intros j Hj. destruct (lookup_lt_is_Some_2 ips j ltac:(lia)) as [ip Hip].
      destruct (holds_first lpm rules ip H) as (t & e & (_ & _ & He) & _); [by eapply Forall_lookup_1|].
      exists ip, e. split; [done|]. split; [by apply Hidx|done]. }
    change (Z.of_nat 0) with 0 in Eo. rewrite Eo.
    exists out'. split; [done|]. split; [|split; [done|]].
    + apply list_eq. intros i. rewrite !lookup_drop. apply Hrest. lia.
    + intros i ip Hi Hip. destruct (holds_first lpm rules ip H) as (t & e & (_ & _ & He) & _ & Hr); [by eapply Forall_lookup_1|].
      exists e. split; [|done]. by rewrite (Hin i ip) by (done || lia).
  - intros ip defv Hip.
    destruct (holds_first lpm rules (lane 0 ip) H (lane_fits _ _)) as (t0 & e0 & L0 & _ & R0).
    destruct (holds_first lpm rules (lane 1 ip) H (lane_fits _ _)) as (t1 & e1 & L1 & _ & R1).
    destruct (holds_first lpm rules (lane 2 ip) H (lane_fits _ _)) as (t2 & e2 & L2 & _ & R2).
    destruct (holds_first lpm rules (lane 3 ip) H (lane_fits _ _)) as (t3 & e3 & L3 & _ & R3).
    rewrite (lookupx4_ok sse L lpm ip defv t0 t1 t2 t3 e0 e1 e2 e3) by done.
    eexists. split; [done|]. split; [done|]. intros [|[|[|[|k]]]] Hk; [| | |  |lia]; cbn; eauto.
Qed.

(** *** An instance and two routes *)

#[local] Instance sse2_words : Sse2 := {|
  mm_set_epi32 a b c d := ((a * 2 ^ 32 + b) * 2 ^ 32 + c) * 2 ^ 32 + d;
  mm_srli_epi32 x n := ((Z.shiftr (lane 3 x) n * 2 ^ 32 + Z.shiftr (lane 2 x) n) * 2 ^ 32
                        + Z.shiftr (lane 1 x) n) * 2 ^ 32 + Z.shiftr (lane 0 x) n;
  mm_srli_si128 x n := Z.shiftr x (8 * n);
  mm_cvtsi128_si64 x := i64 x;
  mm_and_si128 := Z.land |}.

Lemma pack_lanes k a b c d : fits 32 a -> fits 32 b -> fits 32 c -> fits 32 d -> 0 <= k < 4 ->
  let x := ((d * 2 ^ 32 + c) * 2 ^ 32 + b) * 2 ^ 32 + a in
  fits 128 x /\ lane k x = if k =? 0 then a else if k =? 1 then b else if k =? 2 then c else d.
Proof.
  intros Ha Hb Hc Hd Hk x. subst x. unfold fits in *. split; [lia|]. unfold lane, wrap. rewrite Z.shiftr_div_pow2 by lia.
  assert (k = 0 \/ k = 1 \/ k = 2 \/ k = 3) as [->|[->|[->| ->]]] by lia; cbn -[Z.div Z.modulo];
    clear Hk; Z.div_mod_to_equations; lia.
Qed.

#[local] Instance sse2_words_lawful : LawfulSse2 sse2_words.
Proof.
  split; [done| |done|done|done]. intros x n Hx Hn.
  assert (forall k, fits 32 (Z.shiftr (lane k x) n)) as F by (intros; apply fits_shiftr; [lia|lia|apply lane_fits]).
  split; [by apply (pack_lanes 0); [..|lia]|]. intros k Hk. cbn [mm_srli_epi32 sse2_words].
  rewrite (proj2 (pack_lanes k _ _ _ _ (F 0) (F 1) (F 2) (F 3) Hk)).
  assert (k = 0 \/ k = 1 \/ k = 2 \/ k = 3) as [->|[->|[->| ->]]] by lia; done.
Qed.

(** 10.0.0.0/8 goes to 1 and 10.0.0.128/25 goes to 2; the second one has the
    group 5 of [tbl8]. *)
Definition demo_rules : list rule := [mk_rule 0x0A000000 8 1; mk_rule 0x0A000080 25 2].
Definition demo_entry (hop valid group depth : Z) : Z := ((depth * 2 + group) * 2 + valid) * 2 ^ 24 + hop.
Definition demo_lpm : rte_lpm := mk_lpm
  (fun p => Some (if p =? 0x0A0000 then demo_entry 5 1 1 8
                  else if p / 2 ^ 16 =? 10 then demo_entry 1 1 0 8 else 0))
  (fun i => if i <? 5 * 256 then None else if i <? 5 * 256 + 128 then Some (demo_entry 1 1 1 8)
            else if i <? 6 * 256 then Some (demo_entry 2 1 1 25) else None).

Lemma demo_rule r : r ∈ demo_rules -> r = mk_rule 0x0A000000 8 1 \/ r = mk_rule 0x0A000080 25 2.
Proof. intros [->|[->|[]%not_elem_of_nil]%elem_of_cons]%elem_of_cons; auto. Qed.

Lemma demo_covers r ip : r ∈ demo_rules -> covers r ip ->
  (r = mk_rule 0x0A000000 8 1 /\ ip / 2 ^ 24 = 10) \/ (r = mk_rule 0x0A000080 25 2 /\ ip / 2 ^ 7 = 0x0A000080 / 2 ^ 7).
Proof.
  intros [->| ->]%demo_rule; unfold covers; cbn [r_ip r_depth]; rewrite !Z.shiftr_div_pow2 by lia;
    [left|right]; done.
Qed.

(** The entries of the two tables, each for the addresses it speaks for. *)
Lemma demo_entry_ok k p r g :
  r ∈ demo_rules -> 0 <= k <= 32 - r_depth r -> b2z g = 0 \/ b2z g = 1 ->
  Z.shiftr p (32 - k - r_depth r) = Z.shiftr (r_ip r) (32 - r_depth r) ->
  (forall r' ip, r' ∈ demo_rules -> Z.shiftr ip k = p -> covers r' ip -> r_depth r' <= r_depth r) ->
  entry_ok demo_rules k p (demo_entry (r_hop r) 1 (b2z g) (r_depth r)).
Proof.
  intros Hr Hk Hg Hp Hmax. set (e := demo_entry _ _ _ _).
  assert (fits 32 e /\ valid e = true /\ depth e = r_depth r /\ next_hop e = r_hop r) as (Hf & Hv & Hd & Hh).
  { unfold e. pose proof (demo_rule r Hr) as [-> | ->]; destruct g; by vm_compute. }
  split; [done|]. rewrite Hv, Hd, Hh. split; [|done]. exists r. do 3 (split; [done|]). by split; [lia|].
Qed.

Lemma lpm_demo_holds : holds demo_lpm demo_rules.
Proof.
  assert (mk_rule 0x0A000000 8 1 ∈ demo_rules /\ mk_rule 0x0A000080 25 2 ∈ demo_rules) as [R1 R2] by (unfold demo_rules; set_solver).
  intros p Hp. eexists. split; [done|]. cbn [tbl24 tbl8 demo_lpm]. case_match eqn:E1.
  - apply Z.eqb_eq in E1 as ->. split; [by vm_compute|]. change (valid _ && valid_group _) with true. intros j Hj.
    change (next_hop (demo_entry 5 1 1 8)) with 5. rewrite (proj2 (Z.ltb_ge _ (5 * 256))) by lia.
    destruct (Z.ltb_spec (5 * 256 + j) (5 * 256 + 128)).
    + eexists. split; [done|]. apply (demo_entry_ok 0 _ _ true R1); cbn [r_depth r_ip]; [lia|by right| |].
      * rewrite !Z.shiftr_div_pow2 by lia. change (2 ^ _) with (2 ^ 24). Z.div_mod_to_equations. lia.
      * intros r ip Hr Hip [[-> _]|[-> Hc]]%demo_covers; [done| |done]. rewrite Z.shiftr_0_r in Hip.
        exfalso. Z.div_mod_to_equations. lia.
    + rewrite (proj2 (Z.ltb_lt _ (6 * 256))) by lia.
      eexists. split; [done|]. apply (demo_entry_ok 0 _ _ true R2); cbn [r_depth r_ip]; [lia|by right| |].
      * rewrite !Z.shiftr_div_pow2 by lia. change (2 ^ _) with (2 ^ 7). Z.div_mod_to_equations. lia.
      * by intros r ip Hr Hip [[-> _]|[-> _]]%demo_covers.
  - apply Z.eqb_neq in E1. case_match eqn:E2.
    + apply Z.eqb_eq in E2. split; [by vm_compute|]. change (valid _ && valid_group _) with false.
      apply (demo_entry_ok 8 _ _ false R1); cbn [r_depth r_ip]; [lia|by left| |].
      * rewrite !Z.shiftr_div_pow2 by lia. done.
      * intros r ip Hr Hip [[-> _]|[-> Hc]]%demo_covers; [done| |done]. exfalso.
        rewrite Z.shiftr_div_pow2 in Hip by lia. Z.div_mod_to_equations. lia.
    + apply Z.eqb_neq in E2. split; [done|]. split; [done|]. change (valid 0) with false.
      intros r ip Hr Hip Hc. rewrite Z.shiftr_div_pow2 in Hip by lia.
      destruct (demo_covers r ip Hr Hc) as [[_ D]|[_ D]]; Z.div_mod_to_equations; lia.
Qed.

Lemma lpm_lookups_longest_prefix_witness :
  exists o h, route demo_rules 0x0A0000C8 o
    /\ rte_lpm_lookup demo_lpm 0x0A0000C8 = Some (match o with Some _ => 0 | None => - ENOENT end, h) /\ (is_Some o -> o = Some h).
Proof.
  exact (proj1 (lpm_lookups_longest_prefix sse2_words sse2_words_lawful demo_lpm demo_rules lpm_demo_holds)
           0x0A0000C8 ltac:(unfold fits; lia)).
Defined.

(** The deeper rule wins, the wider one takes the rest, other addresses miss. *)
Example demo_lookups :
  rte_lpm_lookup demo_lpm 0x0A0000C8 = Some (0, 2) /\ rte_lpm_lookup demo_lpm 0x0A000008 = Some (0, 1)
  /\ rte_lpm_lookup demo_lpm 0x0B000000 = Some (- ENOENT, 0)
  /\ rte_lpm_lookupx4 demo_lpm (((0x0A0000C8 * 2 ^ 32 + 0x0A000008) * 2 ^ 32 + 0x0B000000) * 2 ^ 32 + 0x0A010203) 99
     = Some [1; 99; 1; 2].
Proof. by vm_compute. Qed.
