(* ===== verification/Red.v ===== *)
(** * Random early detection ([include/rte_red.h]).

    The verdict on a packet from a moving average of the length of its queue, in
    fixed point.  The two tables of logarithms and powers and the configuration
    are filled by the library: they are parameters. *)
From Stdlib Require Import QArith Lqa.
From stdpp Require Import prelude list numbers.
From S2P Require Import Prelude Bits.
Open Scope Z_scope.

(** ** Data *)

Definition RTE_RED_SCALING : Z := 10.
Definition RTE_RED_S : Z := 2 ^ 22.
Definition RTE_RED_MAX_TH_MAX : Z := 1023.
Definition RTE_RED_WQ_LOG2_MIN : Z := 1.
Definition RTE_RED_WQ_LOG2_MAX : Z := 12.
Definition RTE_RED_2POW16 : Z := 2 ^ 16.

Record rte_red_config := mk_red_config { min_th : Z; max_th : Z; pa_const : Z; maxp_inv : Z; wq_log2 : Z }.
Record rte_red := mk_red { avg : Z; count : Z; q_time : Z }.

(** [rte_red_rand_val] and [rte_red_rand_seed]. *)
Record red_rand := mk_rand { rte_red_rand_val : Z; rte_red_rand_seed : Z }.

Definition set_avg (x : Z) (r : rte_red) : rte_red := mk_red x (count r) (q_time r).
Definition set_count (x : Z) (r : rte_red) : rte_red := mk_red (avg r) x (q_time r).

(** ** Operations *)

Definition rte_fast_rand (g : red_rand) : Z * red_rand :=
  let seed := u32 (u32 (214013 * rte_red_rand_seed g) + 2531011) in
  (Z.shiftr seed 10, mk_rand (rte_red_rand_val g) seed).

Section tables.
Context (rte_red_log2_1_minus_Wq rte_red_pow2_frac_inv : list Z).

(** The product of two 16-bit values is an [int]; a shift by a negative count, or
    by more than the width, is undefined, and [n - 1] is unsigned. *)
Definition __rte_red_calc_qempty_factor (wq_log2 m : Z) : option Z :=
  l ← aget rte_red_log2_1_minus_Wq (wq_log2 - RTE_RED_WQ_LOG2_MIN) ;
  let n := m * l in
  if 2 ^ 31 <=? n then None
  else
    let f := Z.land (Z.shiftr n 6) 0xf in
    let n := Z.shiftr n 10 in
    if n <? RTE_RED_SCALING then
      p ← aget rte_red_pow2_frac_inv f ;
      if 31 <=? u32 (n - 1) then None
      else Some (u16 (Z.shiftr (p + Z.shiftl 1 (u32 (n - 1))) n))
    else Some 0.

Definition rte_red_enqueue_empty (red_cfg : rte_red_config) (red : rte_red) (time : Z)
  : option (Z * rte_red) :=
  let red := set_count (u32 (count red + 1)) red in
  let time_diff := u64 (time - q_time red) in
  let m := time_diff / RTE_RED_S in
  if m >=? RTE_RED_2POW16 then Some (0, set_avg 0 red)
  else
    f ← __rte_red_calc_qempty_factor (wq_log2 red_cfg) m ;
    Some (0, set_avg (u32 (Z.shiftr (avg red) RTE_RED_SCALING * f)) red).

Definition __rte_red_drop (red_cfg : rte_red_config) (red : rte_red) (g : red_rand) : Z * red_rand :=
  let pa_num := Z.shiftr (u32 (avg red - min_th red_cfg)) (wq_log2 red_cfg) in
  let pa_num_count := u32 (count red * pa_num) in
  if pa_const red_cfg <=? pa_num_count then (1, g)
  else
    let pa_den := u32 (pa_const red_cfg - pa_num_count) in
    if rte_red_rand_val g mod pa_den <? pa_num then
      let '(v, g) := rte_fast_rand g in (1, mk_rand v (rte_red_rand_seed g))
    else (0, g).

Definition rte_red_enqueue_nonempty (red_cfg : rte_red_config) (red : rte_red) (q : Z) (g : red_rand)
  : Z * rte_red * red_rand :=
  let red := set_avg (u32 (avg red + u32 (u32 (Z.shiftl q RTE_RED_SCALING)
                                          - Z.shiftr (avg red) (wq_log2 red_cfg)))) red in
  if avg red <? min_th red_cfg then (0, set_count (u32 (count red + 1)) red, g)
  else if avg red <? max_th red_cfg then
    let '(d, g) := __rte_red_drop red_cfg red g in
    if d =? 0 then (0, set_count (u32 (count red + 1)) red, g)
    else (2, set_count 0 red, g)
  else (1, set_count 0 red, g).

Definition rte_red_enqueue (red_cfg : rte_red_config) (red : rte_red) (q time : Z) (g : red_rand)
  : option (Z * rte_red * red_rand) :=
  if negb (q =? 0) then Some (rte_red_enqueue_nonempty red_cfg red q g)
  else '(v, red) ← rte_red_enqueue_empty red_cfg red time ; Some (v, red, g).
End tables.

Definition rte_red_mark_queue_empty (red : rte_red) (time : Z) : rte_red :=
  mk_red (avg red) (count red) time.

(** A run of packets that find the queue with the given lengths: the verdicts, in
    order, and what is left. *)
Fixpoint red_run (cfg : rte_red_config) (qs : list Z) (red : rte_red) (g : red_rand)
  : list Z * rte_red * red_rand :=
  match qs with
  | [] => ([], red, g)
  | q :: qs =>
      let '(v, red, g) := rte_red_enqueue_nonempty cfg red q g in
      let '(vs, red, g) := red_run cfg qs red g in (v :: vs, red, g)
  end.

(** The same through the dispatch of [rte_red_enqueue], for packets that find the
    queue with a length and come at a time. *)
Section runs.
Context (log2 pow2 : list Z) (cfg : rte_red_config).

Fixpoint red_packets (ps : list (Z * Z)) (red : rte_red) (g : red_rand)
  : option (list Z * rte_red * red_rand) :=
  match ps with
  | [] => Some ([], red, g)
  | (q, t) :: ps =>
      '(v, red, g) ← rte_red_enqueue log2 pow2 cfg red q t g ;
      '(vs, red, g) ← red_packets ps red g ; Some (v :: vs, red, g)
  end.
End runs.

(** ** The exact average

    The filter of the comments, [avg = (1 - wq) avg + wq q] with [wq = 2^-n], over
    the rationals. *)
Definition weight (cfg : rte_red_config) : Z := 2 ^ wq_log2 cfg.

Definition ewma (cfg : rte_red_config) (a : Q) (q : Z) : Q :=
  ((1 - / inject_Z (weight cfg)) * a + / inject_Z (weight cfg) * inject_Z q)%Q.

(** The packets that the fixed-point value [a] stands for. *)
Definition packets (cfg : rte_red_config) (a : Z) : Q := (inject_Z a / inject_Z (1024 * weight cfg))%Q.

(** *** Configurations and queues for which nothing wraps *)
Record red_ok (cfg : rte_red_config) (qmax : Z) : Prop := {
  ok_wq : RTE_RED_WQ_LOG2_MIN <= wq_log2 cfg <= RTE_RED_WQ_LOG2_MAX;
  ok_qmax : 0 <= qmax <= RTE_RED_MAX_TH_MAX;
  ok_min : 0 <= min_th cfg <= max_th cfg;
  ok_max : fits 32 (max_th cfg);
  ok_pa : 0 < pa_const cfg < 2 ^ 32
}.

(** The greatest average that queues of at most [qmax] packets reach. *)
Definition top (cfg : rte_red_config) (qmax : Z) : Z := qmax * 1024 * weight cfg + weight cfg - 1.

Section bounds.
Context (cfg : rte_red_config) (qmax : Z) (K : red_ok cfg qmax).
Implicit Types (red : rte_red) (g : red_rand).

Lemma weight_bounds : 2 <= weight cfg <= 4096.
Proof.
  unfold weight. destruct (ok_wq _ _ K) as [H1 H2]. unfold RTE_RED_WQ_LOG2_MIN, RTE_RED_WQ_LOG2_MAX in *.
  split; [change 2 with (2 ^ 1) at 1|change 4096 with (2 ^ 12)]; apply Z.pow_le_mono_r; lia.
Qed.

Lemma top_fits : fits 32 (top cfg qmax).
Proof.
  pose proof weight_bounds. pose proof (ok_qmax _ _ K) as Hq. unfold fits, top, RTE_RED_MAX_TH_MAX in *. nia.
Qed.

(** The step of the average without wrap-around. *)
Definition step_avg (a q : Z) : Z := a + q * 1024 - a / weight cfg.

Lemma step_avg_bounds a q :
  0 <= a <= top cfg qmax -> 0 <= q <= qmax -> 0 <= step_avg a q <= top cfg qmax.
Proof.
  intros Ha Hq. pose proof weight_bounds. unfold step_avg, top in *.
  pose proof (Z.div_mod a (weight cfg) ltac:(lia)). pose proof (Z.mod_pos_bound a (weight cfg) ltac:(lia)).
  assert (0 <= a / weight cfg) by (apply Z.div_pos; lia). set (d := a / weight cfg) in *. clearbody d.
  set (w := weight cfg) in *. clearbody w. split; nia.
Qed.

Lemma avg_step red q :
  0 <= avg red <= top cfg qmax -> 0 <= q <= qmax ->
  u32 (avg red + u32 (u32 (Z.shiftl q RTE_RED_SCALING) - Z.shiftr (avg red) (wq_log2 cfg)))
  = step_avg (avg red) q.
Proof.
  intros Ha Hq. pose proof (step_avg_bounds _ _ Ha Hq) as B. pose proof top_fits as T. unfold fits in T.
  pose proof (ok_wq _ _ K) as Hw. unfold RTE_RED_WQ_LOG2_MIN in *.
  rewrite wrap_add_r, Z.shiftl_mul_pow2, Z.shiftr_div_pow2 by (unfold RTE_RED_SCALING; lia).
  change (2 ^ RTE_RED_SCALING) with 1024. fold (weight cfg).
  replace (avg red + (u32 (q * 1024) - avg red / weight cfg))
    with (u32 (q * 1024) + (avg red - avg red / weight cfg)) by lia.
  rewrite wrap_add_l. unfold step_avg in *. rewrite wrap_small by (unfold fits; lia). lia.
Qed.

(** ** The average and its error *)

(** One step keeps the fixed-point average within 1/1024 packet above the exact
    one: what the shift cuts off is less than the average forgets. *)
Lemma step_avg_error a q e :
  0 <= a ->
  (e <= packets cfg a /\ packets cfg a < e + (1 # 1024))%Q ->
  (ewma cfg e q <= packets cfg (step_avg a q) /\ packets cfg (step_avg a q) < ewma cfg e q + (1 # 1024))%Q.
Proof.
  intros Ha [E1 E2]. pose proof weight_bounds as Hw. set (w := weight cfg) in *.
  pose proof (Z.div_mod a w ltac:(lia)) as D. pose proof (Z.mod_pos_bound a w ltac:(lia)) as M.
  unfold packets, ewma, step_avg in *. fold w in E1, E2 |- *.
  set (d := a / w) in *. set (r := a mod w) in *. clearbody d r w.
  rewrite inject_Z_mult in *. change (inject_Z 1024) with (1024 # 1)%Q in *.
  unfold Z.sub. rewrite !inject_Z_plus, inject_Z_opp, inject_Z_mult. change (inject_Z 1024) with (1024 # 1)%Q.
  assert (inject_Z a == inject_Z w * inject_Z d + inject_Z r)%Q as D' by (rewrite D, inject_Z_plus, inject_Z_mult; done).
  assert (2 <= inject_Z w)%Q as W by (rewrite <- (Zle_Qle 2); lia).
  assert (0 <= inject_Z r)%Q as R1 by (rewrite <- (Zle_Qle 0); lia).
  assert (inject_Z r < inject_Z w)%Q as R2 by (rewrite <- Zlt_Qlt; lia).
  set (W' := inject_Z w) in *. set (A := inject_Z a) in *. set (B := inject_Z d) in *.
  set (R := inject_Z r) in *. set (X := inject_Z q) in *. clearbody W' A B R X. clear D M Hw Ha.
  set (i := (/ W')%Q). assert (W' * i == 1)%Q as Hi by (unfold i; field; lra).
  assert (A / (1024 * W') == A * i * (1 # 1024))%Q as Q1 by (unfold i; field; lra).
  assert ((A + X * 1024 + - B) / (1024 * W') == (A + X * 1024 + - B) * i * (1 # 1024))%Q as -> by (unfold i; field; lra).
  rewrite Q1 in E1, E2. clear Q1. clearbody i.
  assert (0 < i)%Q as Hi0 by nra. assert (i <= 1 # 2)%Q as Hi1 by nra.
  assert (0 <= R * i)%Q as S1 by nra. assert (R * i < 1)%Q as S2 by nra.
  assert (B == A * i - R * i)%Q as -> by (rewrite D'; transitivity (W' * i * B)%Q; [rewrite Hi; ring|ring]).
  set (P := (A * i)%Q) in *. set (p := (R * i)%Q) in *.
  assert ((A + X * 1024 + - (P - p)) * i == P + 1024 * (X * i) - P * i + p * i)%Q as -> by (unfold P, p; ring).
  clearbody P p. clear D' R1 R2 W Hi A B R W'. split; nra.
Qed.

Lemma nonempty_avg red q g v red' g' :
  0 <= avg red <= top cfg qmax -> 0 <= q <= qmax -> rte_red_enqueue_nonempty cfg red q g = (v, red', g') ->
  avg red' = step_avg (avg red) q
  /\ (avg red' < min_th cfg -> v = 0) /\ (max_th cfg <= avg red' -> v = 1)
  /\ (min_th cfg <= avg red' < max_th cfg -> v = 0 \/ v = 2)
  /\ count red' = (if v =? 0 then u32 (count red + 1) else 0).
Proof.
  intros Ha Hq E. unfold rte_red_enqueue_nonempty in E. rewrite avg_step in E by done.
  pose proof (ok_min _ _ K). cbn [avg count set_avg] in E.
  destruct (Z.ltb_spec (step_avg (avg red) q) (min_th cfg)).
  { simplify_eq. cbn [avg count set_avg set_count Z.eqb]. repeat split; lia || auto. }
  destruct (Z.ltb_spec (step_avg (avg red) q) (max_th cfg)).
  - destruct (__rte_red_drop _ _ _) as [d g1].
    destruct (d =? 0); simplify_eq; cbn [avg count set_avg set_count Z.eqb]; repeat split; lia || auto.
  - simplify_eq. cbn [avg count set_avg set_count Z.eqb]. repeat split; lia || auto.
Qed.

(** The exact average after packets that find the queues [qs]. *)
Fixpoint ewma_run (e : Q) (qs : list Z) : Q :=
  match qs with [] => e | q :: qs => ewma_run (ewma cfg e q) qs end.

Lemma run_average qs : forall red g e,
  0 <= avg red <= top cfg qmax -> Forall (fun q => 0 <= q <= qmax) qs ->
  (e <= packets cfg (avg red) /\ packets cfg (avg red) < e + (1 # 1024))%Q ->
  let '(vs, red', g') := red_run cfg qs red g in
  0 <= avg red' <= top cfg qmax /\ length vs = length qs
  /\ (ewma_run e qs <= packets cfg (avg red') /\ packets cfg (avg red') < ewma_run e qs + (1 # 1024))%Q.
Proof.
  induction qs as [|q qs IH]; intros red g e Ha Hall He; cbn [red_run]; [done|].
  apply list.Forall_cons in Hall as [Hq Hall].
  destruct (rte_red_enqueue_nonempty cfg red q g) as [[v red1] g1] eqn:E.
  destruct (nonempty_avg _ _ _ _ _ _ Ha Hq E) as (A & _).
  specialize (IH red1 g1 (ewma cfg e q)). rewrite A in IH.
  specialize (IH (step_avg_bounds _ _ Ha Hq) Hall (step_avg_error _ _ _ (proj1 Ha) He)).
  destruct (red_run cfg qs red1 g1) as [[vs red2] g2]. destruct IH as (? & ? & ?). cbn. auto.
Qed.

(** ** Marks *)

(** The averages after each packet. *)
Fixpoint averages (a : Z) (qs : list Z) : list Z :=
  match qs with [] => [] | q :: qs => step_avg a q :: averages (step_avg a q) qs end.

Lemma nonempty_pass red q g v red' g' (k : Z) :
  0 <= avg red <= top cfg qmax -> 0 <= q <= qmax -> rte_red_enqueue_nonempty cfg red q g = (v, red', g') ->
  min_th cfg + k * weight cfg <= step_avg (avg red) q < max_th cfg -> 0 <= k ->
  0 <= count red -> count red * ((max_th cfg - min_th cfg) / weight cfg) < 2 ^ 32 ->
  v = 0 -> count red * k < pa_const cfg.
Proof.
  intros Ha Hq E Hb Hk Hc Hw ->. unfold rte_red_enqueue_nonempty in E. rewrite avg_step in E by done.
  cbn [avg count set_avg] in E. pose proof weight_bounds as W. pose proof (ok_min _ _ K) as [M1 M2].
  rewrite (proj2 (Z.ltb_ge _ (min_th cfg))), (proj2 (Z.ltb_lt _ (max_th cfg))) in E by nia.
  destruct (__rte_red_drop _ _ _) as [d g1] eqn:D. destruct (Z.eqb_spec d 0) as [->|]; [|simplify_eq].
  unfold __rte_red_drop in D. cbn [avg count set_avg] in D. set (a := step_avg (avg red) q) in *.
  pose proof (ok_max _ _ K) as MX. unfold fits in MX.
  rewrite (wrap_small 32 (a - min_th cfg)) in D by (unfold fits; nia).
  rewrite Z.shiftr_div_pow2 in D by (pose proof (ok_wq _ _ K); unfold RTE_RED_WQ_LOG2_MIN in *; lia).
  fold (weight cfg) in D. set (n := (a - min_th cfg) / weight cfg) in *.
  assert (k <= n) by (apply Z.div_le_lower_bound; lia).
  assert (n <= (max_th cfg - min_th cfg) / weight cfg) by (apply Z.div_le_mono; lia).
  rewrite (wrap_small 32 (count red * n)) in D by (unfold fits; nia).
  destruct (Z.leb_spec (pa_const cfg) (count red * n)); [done|]. nia.
Qed.

(** While the average is at least [k] units above the lower threshold, at most
    [pa_const / k] packets pass between two marks. *)
Theorem red_marks_in_time qs : forall red g k,
  0 <= avg red <= top cfg qmax -> Forall (fun q => 0 <= q <= qmax) qs -> 0 < k ->
  (pa_const cfg / k + 1) * ((max_th cfg - min_th cfg) / weight cfg) < 2 ^ 32 ->
  Forall (fun a => min_th cfg + k * weight cfg <= a < max_th cfg) (averages (avg red) qs) ->
  0 <= count red <= pa_const cfg / k + 1 ->
  pa_const cfg < (count red + Z.of_nat (length qs) - 1) * k ->
  let '(vs, _, _) := red_run cfg qs red g in 2 ∈ vs.
Proof.
  induction qs as [|q qs IH]; intros red g k Ha Hq Hk Hw Hb Hc Hlen; cbn [red_run length averages] in *.
  { exfalso. pose proof (Z.mul_div_le (pa_const cfg) k ltac:(lia)). nia. }
  apply list.Forall_cons in Hq as [Hq Hall]. apply list.Forall_cons in Hb as [Hb Hbs].
  destruct (rte_red_enqueue_nonempty cfg red q g) as [[v red1] g1] eqn:E.
  destruct (nonempty_avg _ _ _ _ _ _ Ha Hq E) as (A & _ & _ & Hv & C). pose proof weight_bounds.
  specialize (Hv ltac:(rewrite A; nia)). destruct (red_run cfg qs red1 g1) as [[vs red2] g2] eqn:R.
  destruct Hv as [-> | ->]; [|by left]. right. cbn in C.
  pose proof (ok_pa _ _ K) as Hpa. pose proof (ok_min _ _ K).
  assert (0 <= (max_th cfg - min_th cfg) / weight cfg) by (apply Z.div_pos; lia).
  assert (count red * k < pa_const cfg) as Hck.
  { eapply nonempty_pass; [exact Ha|exact Hq|exact E|exact Hb|lia|lia| |done]. nia. }
  assert (count red <= pa_const cfg / k) as Hcd by (apply Z.div_le_lower_bound; lia).
  rewrite wrap_small in C by (unfold fits; nia).
  specialize (IH red1 g1 k). rewrite R, A, C in IH. apply IH; try done; [|lia|].
  - by apply step_avg_bounds.
  - rewrite Nat2Z.inj_succ in Hlen. replace (count red + 1 + Z.of_nat (length qs) - 1) with (count red + Z.succ (Z.of_nat (length qs)) - 1) by lia. done.
Qed.
End bounds.

Lemma packets_le cfg qmax a b : red_ok cfg qmax -> (packets cfg a <= packets cfg b)%Q <-> a <= b.
Proof.
  intros K. pose proof (weight_bounds cfg qmax K). unfold packets, Qdiv.
  rewrite Qmult_le_r; [by rewrite <- Zle_Qle|]. apply Qinv_lt_0_compat. rewrite <- (Zlt_Qlt 0). lia.
Qed.

(** ** Packets that find the queue empty *)

(** What the library puts in its two tables: 16-bit values, and the powers
    [2 ^ -f] of the fractions [f] below 1 in fixed point. *)
Record tables_ok (log2 pow2 : list Z) : Prop := {
  ok_log2 : Forall (fits 16) log2;
  ok_pow2 : Forall (fun p => 0 <= p <= 2 ^ RTE_RED_SCALING) pow2
}.

Section idle.
Context (log2 pow2 : list Z) (T : tables_ok log2 pow2).
Context (cfg : rte_red_config) (qmax : Z) (K : red_ok cfg qmax).
Implicit Types (red : rte_red) (g : red_rand).

Lemma aget_Forall {A} (Q : A -> Prop) (l : list A) i x : Forall Q l -> aget l i = Some x -> Q x.
Proof using. intros H E. unfold aget in E. case_match; [|done]. eapply Forall_lookup_1; eauto. Qed.

(** The factor is at most 1. *)
Lemma qempty_factor_le m f :
  0 <= m -> __rte_red_calc_qempty_factor log2 pow2 (wq_log2 cfg) m = Some f -> 0 <= f <= 1024.
Proof using T.
  intros Hm E. unfold __rte_red_calc_qempty_factor in E.
  destruct (aget log2 _) as [l|] eqn:L; cbn [mbind option_bind] in E; [|done].
  apply (aget_Forall _ _ _ _ (ok_log2 _ _ T)) in L. unfold fits in L.
  case_match; [done|]. set (n := Z.shiftr (m * l) 10) in *.
  assert (0 <= n) by (apply Z.shiftr_nonneg; nia).
  destruct (Z.ltb_spec n RTE_RED_SCALING) as [Hn|]; [|simplify_eq; lia]. unfold RTE_RED_SCALING in Hn.
  destruct (aget pow2 _) as [p|] eqn:Ep; cbn [mbind option_bind] in E; [|done].
  apply (aget_Forall _ _ _ _ (ok_pow2 _ _ T)) in Ep. change (2 ^ RTE_RED_SCALING) with 1024 in Ep.
  assert (n ∈ seqZ 0 10) as Hin by (apply elem_of_seqZ; lia). clearbody n.
  assert (forall k, 0 <= k -> Z.shiftr (p + 2 ^ k) (k + 1) <= 1024) as S.
  { intros k Hk. rewrite Z.shiftr_div_pow2, Z.pow_add_r by lia. pose proof (Z.pow_pos_nonneg 2 k ltac:(lia) Hk).
    change (2 ^ 1) with 2. apply Z.div_le_upper_bound; nia. }
  destruct (decide (n = 0)) as [->|N0]; [done|]. rewrite (wrap_small 32 (n - 1)) in E by (unfold fits; lia).
  destruct (Z.leb_spec 31 (n - 1)); [lia|]. specialize (S (n - 1) ltac:(lia)).
  replace (n - 1 + 1) with n in S by lia. rewrite Z.shiftl_mul_pow2, Z.mul_1_l in E by lia.
  assert (0 <= Z.shiftr (p + 2 ^ (n - 1)) n) by (apply Z.shiftr_nonneg; pose proof (Z.pow_nonneg 2 (n - 1)); lia).
  rewrite wrap_small in E by (unfold fits; lia). simplify_eq. lia.
Qed.

(** The average never rises while the queue is empty, and the packet passes. *)
Lemma empty_avg red t v red' :
  0 <= avg red <= top cfg qmax -> rte_red_enqueue_empty log2 pow2 cfg red t = Some (v, red') ->
  v = 0 /\ 0 <= avg red' <= avg red.
Proof using T K.
  intros Ha E. unfold rte_red_enqueue_empty in E. cbn [set_count q_time avg count] in E.
  assert (0 <= u64 (t - q_time red) / RTE_RED_S) as Hm by (apply Z.div_pos; [by apply wrap_range|by vm_compute]).
  case_match; [simplify_eq; cbn; lia|].
  destruct (__rte_red_calc_qempty_factor _ _ _ _) as [f|] eqn:F; cbn [mbind option_bind] in E; [|done].
  apply (qempty_factor_le _ _ Hm) in F. pose proof (top_fits cfg qmax K) as Tf. unfold fits in Tf.
  simplify_eq. cbn [avg set_avg]. split; [done|]. unfold RTE_RED_SCALING. rewrite Z.shiftr_div_pow2 by lia.
  change (2 ^ 10) with 1024. pose proof (Z.mul_div_le (avg red) 1024 ltac:(lia)).
  assert (0 <= avg red / 1024) by (apply Z.div_pos; lia). rewrite wrap_small by (unfold fits; nia). nia.
Qed.

(** Any packet keeps the average in its range. *)
Lemma enqueue_avg red q t g v red' g' :
  0 <= avg red <= top cfg qmax -> 0 <= q <= qmax ->
  rte_red_enqueue log2 pow2 cfg red q t g = Some (v, red', g') -> 0 <= avg red' <= top cfg qmax.
Proof using T K.
  intros Ha Hq E. unfold rte_red_enqueue in E. destruct (Z.eqb_spec q 0) as [->|Hq0]; cbn [negb] in E.
  - destruct (rte_red_enqueue_empty _ _ _ _ _) as [[v1 r1]|] eqn:M; cbn [mbind option_bind] in E; [|done].
    simplify_eq. apply (empty_avg _ _ _ _ Ha) in M. lia.
  - simplify_eq E. intros E'. destruct (nonempty_avg cfg qmax K _ _ _ _ _ _ Ha Hq E') as (-> & _).
    by apply step_avg_bounds.
Qed.

Lemma packets_avg ps : forall red g vs red' g',
  0 <= avg red <= top cfg qmax -> Forall (fun p => 0 <= p.1 <= qmax) ps ->
  red_packets log2 pow2 cfg ps red g = Some (vs, red', g') ->
  length vs = length ps /\ 0 <= avg red' <= top cfg qmax.
Proof using T K.
  induction ps as [|[q t] ps IH]; intros red g vs red' g' Ha Hall E; cbn [red_packets] in E; [by simplify_eq|].
  apply list.Forall_cons in Hall as [Hq Hall].
  destruct (rte_red_enqueue _ _ _ _ _ _ _) as [[[v r1] g1]|] eqn:E1; cbn [mbind option_bind] in E; [|done].
  destruct (red_packets _ _ _ _ _ _) as [[[vs1 r2] g2]|] eqn:E2; cbn [mbind option_bind] in E; [|done].
  simplify_eq. apply IH in E2 as [Hl Ha']; [|by eapply enqueue_avg|done]. split; [cbn; by rewrite Hl|done].
Qed.

(** While the queue is never empty no call is undefined. *)
Lemma busy_packets ps : forall red g,
  Forall (fun p => p.1 <> 0) ps -> red_packets log2 pow2 cfg ps red g = Some (red_run cfg ps.*1 red g).
Proof using.
  induction ps as [|[q t] ps IH]; intros red g Hall; [done|]. apply list.Forall_cons in Hall as [Hq Hall].
  cbn [red_packets red_run fmap list_fmap fst]. unfold rte_red_enqueue. cbn [fst] in Hq.
  rewrite (proj2 (Z.eqb_neq _ _) Hq). cbn [negb mbind option_bind].
  destruct (rte_red_enqueue_nonempty cfg red q g) as [[v r1] g1]. rewrite IH by done. cbn [mbind option_bind].
  by destruct (red_run _ _ _ _) as [[vs r2] g2].
Qed.
End idle.

(** ** The theorems *)

(** The verdict on a packet, from the exact average after it. *)
Definition verdict_by (cfg : rte_red_config) (e : Q) (v : Z) : Prop :=
  ((e + (1 # 1024) <= packets cfg (min_th cfg))%Q -> v = 0)
  /\ ((packets cfg (max_th cfg) <= e)%Q -> v = 1)
  /\ (v = 1 -> (packets cfg (max_th cfg) < e + (1 # 1024))%Q)
  /\ (v = 2 -> (packets cfg (min_th cfg) < e + (1 # 1024))%Q)
  /\ (v = 0 \/ v = 1 \/ v = 2).

(** A packet that finds packets, after an average that is within 1/1024 packet of
    the exact one. *)
Lemma nonempty_verdict cfg qmax red q g v red' g' e0 :
  red_ok cfg qmax -> 0 <= avg red <= top cfg qmax -> 0 <= q <= qmax ->
  (e0 <= packets cfg (avg red) /\ packets cfg (avg red) < e0 + (1 # 1024))%Q ->
  rte_red_enqueue_nonempty cfg red q g = (v, red', g') ->
  0 <= avg red' <= top cfg qmax
  /\ (ewma cfg e0 q <= packets cfg (avg red') /\ packets cfg (avg red') < ewma cfg e0 q + (1 # 1024))%Q
  /\ verdict_by cfg (ewma cfg e0 q) v.
Proof.
  intros K Ha Hq He E. destruct (nonempty_avg cfg qmax K _ _ _ _ _ _ Ha Hq E) as (A & V0 & V1 & V2 & _).
  destruct (step_avg_error cfg qmax K (avg red) q _ (proj1 Ha) He) as [E1 E2]. rewrite <- A in E1, E2.
  set (e := ewma cfg e0 q) in *.
  split; [rewrite A; by apply step_avg_bounds|]. split; [done|].
  pose proof (ok_min _ _ K) as M. pose proof (fun a b => packets_le cfg qmax a b K) as P.
  split; [|split; [|split; [|split]]].
  - intros Hm. apply V0. apply Z.nle_gt. intros Hn. apply P in Hn. lra.
  - intros Hm. apply V1. apply P. lra.
  - intros ->. destruct (decide (max_th cfg <= avg red')) as [Hm|Hm]; [apply P in Hm; lra|].
    destruct (decide (min_th cfg <= avg red')) as [Hn|Hn]; [by destruct V2; lia|]. by specialize (V0 ltac:(lia)).
  - intros ->. destruct (decide (min_th cfg <= avg red')) as [Hn|Hn]; [apply P in Hn; lra|].
    by specialize (V0 ltac:(lia)).
  - destruct (decide (max_th cfg <= avg red')); [by rewrite V1; auto|].
    destruct (decide (min_th cfg <= avg red')); [destruct V2; auto; lia|]. rewrite V0; [auto|lia].
Qed.

(** C37. For queues of at most [qmax <= 1023] packets, thresholds that the
    configuration keeps in 32 bits and library tables whose powers are at most 1:
    after any defined run of calls of [rte_red_enqueue], whether they found the
    queue empty or not, the 32-bit fixed-point average is in its range and has
    not wrapped.  From there, a packet that finds the queue empty passes and the
    average does not rise.  Packets that find a queue that is not empty are always
    decided, and while they follow one another the average is, from the value
    where it stood, the exact exponential average of the lengths that they found,
    within 1/1024 packet.  The verdict on each follows from the exact average up
    to this error: 0 below the lower threshold, 1 above the upper one, 0 or 2
    between. *)
Theorem red_average_is_ewma (log2 pow2 : list Z) (cfg : rte_red_config) (qmax : Z)
    (red red1 : rte_red) (g g1 : red_rand) (before busy : list (Z * Z)) (vs : list Z) (q t : Z) :
  tables_ok log2 pow2 -> red_ok cfg qmax -> 0 <= avg red <= top cfg qmax ->
  Forall (fun p => 0 <= p.1 <= qmax) before -> Forall (fun p => 1 <= p.1 <= qmax) busy -> 1 <= q <= qmax ->
  red_packets log2 pow2 cfg before red g = Some (vs, red1, g1) ->
  length vs = length before /\ 0 <= avg red1 <= top cfg qmax
  /\ (forall v r g', rte_red_enqueue log2 pow2 cfg red1 0 t g1 = Some (v, r, g') -> v = 0 /\ 0 <= avg r <= avg red1)
  /\ exists ws red2 g2 v red3 g3,
       red_packets log2 pow2 cfg busy red1 g1 = Some (ws, red2, g2) /\ length ws = length busy
       /\ rte_red_enqueue log2 pow2 cfg red2 q t g2 = Some (v, red3, g3)
       /\ 0 <= avg red3 <= top cfg qmax
       /\ let e := ewma cfg (ewma_run cfg (packets cfg (avg red1)) busy.*1) q in
          (e <= packets cfg (avg red3) /\ packets cfg (avg red3) < e + (1 # 1024))%Q /\ verdict_by cfg e v.
Proof.
  intros T K Ha Hb Hall Hq E. destruct (packets_avg log2 pow2 T cfg qmax K _ _ _ _ _ _ Ha Hb E) as [Hl Ha1].
  do 2 (split; [done|]). split.
  { intros v r g' Ee. unfold rte_red_enqueue in Ee. cbn [Z.eqb negb] in Ee.
    destruct (rte_red_enqueue_empty _ _ _ _ _) as [[v1 r1]|] eqn:M; cbn [mbind option_bind] in Ee; [|done].
    simplify_eq. by eapply empty_avg. }
  assert (packets cfg (avg red1) < packets cfg (avg red1) + (1 # 1024))%Q as H0 by lra.
  pose proof (run_average cfg qmax K busy.*1 red1 g1 (packets cfg (avg red1)) Ha1) as R.
  destruct (red_run cfg busy.*1 red1 g1) as [[ws red2] g2] eqn:Er.
  destruct (R ltac:(apply Forall_fmap; eapply Forall_impl; [|exact Hall]; cbn; lia) (conj (Qle_refl _) H0))
    as (Ha2 & Hw & He). rewrite length_fmap in Hw.
  destruct (rte_red_enqueue_nonempty cfg red2 q g2) as [[v red3] g3] eqn:En.
  destruct (nonempty_verdict cfg qmax _ q _ _ _ _ _ K Ha2 ltac:(lia) He En) as (Ha3 & He3 & V).
  exists ws, red2, g2, v, red3, g3. split; [|split; [done|split; [|split; [done|by split]]]].
  - rewrite busy_packets, Er; [done|]. eapply Forall_impl; [|exact Hall]; cbn; lia.
  - unfold rte_red_enqueue. rewrite (proj2 (Z.eqb_neq q 0)) by lia. cbn [negb]. by rewrite En.
Qed.

(** Thresholds of 4 and 8 packets, a weight of 1/4 and a mark for every tenth
    packet.  The queue is empty for 3 steps of the clock of the average, then grows
    to 20 packets.  The tables are those of the library at the entries used. *)
Definition demo_red : rte_red_config := mk_red_config (4 * 4096) (8 * 4096) (2 * 4 * 10 * 1024) 10 2.
Definition demo_log2 : list Z := [1024; 425; 197].
Definition demo_pow2 : list Z := [1024; 981; 939; 899; 861; 825; 790; 756; 724; 693; 664; 636; 609; 583; 558; 535].
Definition demo_before : list (Z * Z) := [(2, 0); (4, 0); (0, 3 * 2 ^ 22)].
Definition demo_busy : list (Z * Z) := [(1, 0); (3, 0); (5, 0); (8, 0); (12, 0); (15, 0)].

Lemma demo_red_ok : red_ok demo_red 20.
Proof. split; vm_compute; intuition congruence. Qed.

Lemma demo_tables_ok : tables_ok demo_log2 demo_pow2.
Proof. split; repeat constructor; vm_compute; discriminate. Qed.

Lemma red_average_is_ewma_witness :
  exists ws red2 g2 v red3 g3,
    red_packets demo_log2 demo_pow2 demo_red demo_busy (mk_red 2250 3 0) (mk_rand 7 1) = Some (ws, red2, g2)
    /\ length ws = 6%nat
    /\ rte_red_enqueue demo_log2 demo_pow2 demo_red red2 20 0 g2 = Some (v, red3, g3)
    /\ 0 <= avg red3 <= top demo_red 20
    /\ let e := ewma demo_red (ewma_run demo_red (packets demo_red 2250) demo_busy.*1) 20 in
       (e <= packets demo_red (avg red3) /\ packets demo_red (avg red3) < e + (1 # 1024))%Q /\ verdict_by demo_red e v.
Proof.
  destruct (red_average_is_ewma demo_log2 demo_pow2 demo_red 20 (mk_red 0 0 0) (mk_red 2250 3 0) (mk_rand 7 1) (mk_rand 7 1)
              demo_before demo_busy [0; 0; 0] 20 0 demo_tables_ok demo_red_ok) as (_ & _ & _ & R).
  - by vm_compute.
  - repeat constructor; vm_compute; discriminate.
  - repeat constructor; vm_compute; discriminate.
  - lia.
  - vm_compute. reflexivity.
  - exact R.
Defined.

(** The age of the average when the queue was idle for less than one integer step
    of the logarithm: the count of the shift is [0 - 1] in 32 bits. *)
Theorem red_short_idle_undefined (log2 pow2 : list Z) (cfg : rte_red_config) (red : rte_red) (time l : Z) :
  aget log2 (wq_log2 cfg - RTE_RED_WQ_LOG2_MIN) = Some l -> 0 < l ->
  u64 (time - q_time red) / RTE_RED_S * l < 1024 ->
  rte_red_enqueue_empty log2 pow2 cfg red time = None.
Proof.
  intros Hl H0 Hm. unfold rte_red_enqueue_empty. cbn [set_count q_time avg count].
  set (m := u64 (time - q_time red) / RTE_RED_S) in *.
  assert (0 <= m) by (apply Z.div_pos; [by apply wrap_range|by vm_compute]).
  assert (m < 1024) by nia. unfold RTE_RED_2POW16. rewrite Z.geb_leb, (proj2 (Z.leb_gt _ _)) by lia.
  unfold __rte_red_calc_qempty_factor. rewrite Hl. cbn [mbind option_bind].
  rewrite (proj2 (Z.leb_gt (2 ^ 31) (m * l))) by lia.
  assert (Z.shiftr (m * l) 10 = 0) as -> by (rewrite Z.shiftr_div_pow2 by lia; apply Z.div_small; nia).
  by destruct (aget pow2 _).
Qed.

(** A packet that finds the queue empty is never dropped, and after 2^38 units of
    idle time or more the average starts again from zero. *)
Theorem red_empty_accepts (log2 pow2 : list Z) (cfg : rte_red_config) (red red' : rte_red) (time v : Z) :
  rte_red_enqueue_empty log2 pow2 cfg red time = Some (v, red') ->
  v = 0 /\ count red' = u32 (count red + 1) /\ (2 ^ 38 <= u64 (time - q_time red) -> avg red' = 0).
Proof.
  unfold rte_red_enqueue_empty. cbn [set_count q_time avg count]. intros E.
  destruct (_ >=? RTE_RED_2POW16) eqn:D; [by simplify_eq|].
  destruct (__rte_red_calc_qempty_factor _ _ _ _); cbn [mbind option_bind] in E; [|done]. simplify_eq.
  do 2 (split; [done|]). intros Hi. exfalso. rewrite Z.geb_leb in D. apply Z.leb_gt in D.
  assert (2 ^ 16 <= u64 (time - q_time red) / RTE_RED_S); [|unfold RTE_RED_2POW16 in *; lia].
  apply Z.div_le_lower_bound; [by vm_compute|exact Hi].
Qed.
