(* ===== verification/Lru.v ===== *)
(** * Least recently used entries ([include/rte_lru.h], [include/rte_lru_x86.h]).

    A bucket of a hash table keeps in 64 bits the order in which its four keys
    were used.  The three strategies: shifts and masks, instructions that find and
    permute 16-bit words, and a count per key; the instructions are a parameter.
    The macros become functions of the field [lru_list]. *)
From stdpp Require Import prelude list numbers sorting.
From S2P Require Import Prelude Bits.
Open Scope Z_scope.

(** The 16-bit word [k] and the byte [k] of a register. *)
Definition word (k x : Z) : Z := u16 (Z.shiftr x (16 * k)).
Definition byte (k x : Z) : Z := u8 (Z.shiftr x (8 * k)).

(** ** The order in a list *)

Definition lru_init : Z := 0x0000000100020003.
Definition lru_pos (lru_list : Z) : Z := Z.land lru_list 0xFFFF.

(** [RTE_TABLE_HASH_LRU_STRATEGY] 1.  A shift by the width or more is undefined. *)
Definition shl64 (x n : Z) : option Z := if (0 <=? n) && (n <? 64) then Some (u64 (Z.shiftl x n)) else None.

Definition lru_update_1 (lru_list mru_val : Z) : option Z :=
  let x := lru_list in
  let pos := 4 in
  let pos := if Z.shiftr x 48 =? mru_val then 3 else pos in
  let pos := if Z.land (Z.shiftr x 32) 0xFFFF =? mru_val then 2 else pos in
  let pos := if Z.land (Z.shiftr x 16) 0xFFFF =? mru_val then 1 else pos in
  let pos := if Z.land x 0xFFFF =? mru_val then 0 else pos in
  let pos := u64 (Z.shiftl pos 4) in
  mask ← shl64 (2 ^ 64 - 1) pos ;
  let x0 := Z.land x (u64 (Z.lnot mask)) in
  let x1 := Z.land (Z.shiftr x 16) mask in
  y ← shl64 x (u64 (48 - pos)) ;
  let x2 := Z.land y (Z.shiftl 0xFFFF 48) in
  let x := Z.lor (Z.lor x0 x1) x2 in
  Some (if negb (pos =? 64) then x else lru_list).

(** ** The instructions *)

Class Sse41 := {
  mm_cvtsi64_si128 : Z -> Z;
  mm_minpos_epu16 : Z -> Z;
  mm_extract_epi16 : Z -> Z -> Z;
  mm_extract_epi64 : Z -> Z -> Z;
  mm_shuffle_epi8 : Z -> Z -> Z;
  mm_subs_epu16 : Z -> Z -> Z;
  mm_set_epi64x : Z -> Z -> Z
}.

(** What the instruction set reference says of them: moves that clear the upper
    half, the place of the first of the smallest words, words, bytes chosen by a
    mask, subtraction that stops at 0. *)
Class LawfulSse41 (sse : Sse41) := {
  cvtsi64_law x : fits 64 x -> mm_cvtsi64_si128 x = x;
  minpos_law x : fits 128 x ->
    let i := mm_extract_epi16 (mm_minpos_epu16 x) 1 in
    0 <= i < 8 /\ (forall j, 0 <= j < 8 -> word i x <= word j x) /\ (forall j, 0 <= j < i -> word i x < word j x);
  extract64_law x : fits 128 x -> u64 (mm_extract_epi64 x 0) = u64 x;
  shuffle_law x m : fits 128 x -> fits 128 m -> fits 128 (mm_shuffle_epi8 x m)
    /\ forall j, 0 <= j < 16 ->
       byte j (mm_shuffle_epi8 x m) = if Z.testbit (byte j m) 7 then 0 else byte (byte j m mod 16) x;
  subs_law x y : fits 128 x -> fits 128 y -> fits 128 (mm_subs_epu16 x y)
    /\ forall j, 0 <= j < 8 -> word j (mm_subs_epu16 x y) = Z.max 0 (word j x - word j y);
  set64_law a b : fits 64 a -> fits 64 b -> mm_set_epi64x a b = a * 2 ^ 64 + b
}.

Section x86.
Context {sse : Sse41}.

(** Strategy 2.  Entry [2 * pos] of [masks] and the next one are read together. *)
Definition lru_masks : list Z :=
  [0x0100070605040302; 0x8080808080808080; 0x0302070605040100; 0x8080808080808080;
   0x0504070603020100; 0x8080808080808080; 0x0706050403020100; 0x8080808080808080;
   0x0706050403020100; 0x8080808080808080].

Definition lru_update_2 (lru_list mru_val : Z) : option Z :=
  let mru2 := mru_val in
  let mru3 := Z.lor mru2 (u64 (Z.shiftl mru2 16)) in
  let lru := lru_list in
  let mru := Z.lxor lru (Z.lor (u64 (Z.shiftl mru3 32)) mru3) in
  let c := mm_cvtsi64_si128 mru in
  let b := mm_cvtsi64_si128 lru in
  let d := mm_minpos_epu16 c in
  let pos := mm_extract_epi16 d 1 in
  m0 ← aget lru_masks (2 * pos) ;
  m1 ← aget lru_masks (2 * pos + 1) ;
  let k := mm_shuffle_epi8 b (m1 * 2 ^ 64 + m0) in
  Some (u64 (mm_extract_epi64 k 0)).

(** Strategy 3. *)
Definition lru_init_3 : Z := 2 ^ 64 - 1.

Definition f_lru_pos (lru_list : Z) : Z :=
  let lst := mm_set_epi64x (2 ^ 64 - 1) lru_list in
  let min := mm_minpos_epu16 lst in
  mm_extract_epi16 min 1.

Definition lru_update_3 (lru_list mru_val : Z) : option Z :=
  let orvals := [0xFFFF; Z.shiftl 0xFFFF 16; Z.shiftl 0xFFFF 32; Z.shiftl 0xFFFF 48; 0] in
  let decs := [0x1000100010001; 0] in
  let lru := mm_cvtsi64_si128 lru_list in
  dec ← aget decs (Z.shiftr mru_val 2) ;
  let vdec := mm_cvtsi64_si128 dec in
  let lru := mm_subs_epu16 lru vdec in
  o ← aget orvals mru_val ;
  Some (Z.lor (u64 (mm_extract_epi64 lru 0)) o).
End x86.

(** * Specification

    The uses of the four keys, the last one first; [age us k] is the number of
    uses of other keys since the last use of [k], or since the start. *)
Fixpoint age (us : list Z) (k : Z) : Z :=
  match us with
  | [] => 0
  | u :: us => if u =? k then 0 else age us k + 1
  end.

(** The bucket after the uses. *)
Fixpoint lru_run (update : Z -> Z -> option Z) (init : Z) (us : list Z) : option Z :=
  match us with
  | [] => Some init
  | u :: us => x ← lru_run update init us ; update x u
  end.

Definition is_key (k : Z) : Prop := 0 <= k < 4.

(** No key was used longer ago than [v]. *)
Definition oldest (us : list Z) (v : Z) : Prop :=
  is_key v /\ forall k, is_key k -> age us k <= age us v.

(** The key moves to the end of the list. *)
Definition touch (l : list Z) (v : Z) : list Z := filter (.≠ v) l ++ [v].

Definition words (x : Z) : list Z := [word 0 x; word 1 x; word 2 x; word 3 x].

(** * Lemmas *)

(** ** Ages *)

Lemma age_nonneg us k : 0 <= age us k.
Proof. induction us as [|u us IH]; simpl; [lia|]. destruct (u =? k); lia. Qed.

(** The list [[a; b; c; d]] of the four keys, the one that was used longest ago
    first. *)
Definition ordered (us : list Z) (l : list Z) : Prop :=
  match l with
  | [a; b; c; d] =>
      NoDup l /\ Forall is_key l /\ age us d <= age us c <= age us b /\ age us b <= age us a
  | _ => False
  end.

Lemma touch_cases a b c d v : NoDup [a; b; c; d] ->
  (v = a -> touch [a; b; c; d] v = [b; c; d; a]) /\ (v = b -> touch [a; b; c; d] v = [a; c; d; b])
  /\ (v = c -> touch [a; b; c; d] v = [a; b; d; c]) /\ (v = d -> touch [a; b; c; d] v = [a; b; c; d]).
Proof.
  rewrite !NoDup_cons, !not_elem_of_cons. intros ([? [? [? _]]] & [? [? _]] & [? _] & _). unfold touch.
  split; [|split; [|split]]; intros ->; rewrite !filter_cons, filter_nil;
    repeat match goal with |- context [decide (?x <> ?y)] =>
      first [rewrite (decide_False (P := x <> y)) by (intros E; by apply E) | rewrite (decide_True (P := x <> y)) by congruence] end; done.
Qed.

Lemma keys_all a b c d k : NoDup [a; b; c; d] -> Forall is_key [a; b; c; d] -> is_key k ->
  k = a \/ k = b \/ k = c \/ k = d.
Proof.
  rewrite !NoDup_cons, !not_elem_of_cons, !Forall_cons. unfold is_key.
  intros ([? [? [? _]]] & [? [? _]] & [? _] & _) (? & ? & ? & ? & _) ?. lia.
Qed.

Lemma ordered_touch us l v : ordered us l -> is_key v -> ordered (v :: us) (touch l v).
Proof.
  intros O Hv. destruct l as [|a [|b [|c [|d [|]]]]]; try done. destruct O as (N & K & O1 & O2).
  pose proof (touch_cases a b c d v N) as (Ta & Tb & Tc & Td).
  pose proof (age_nonneg us a). pose proof (age_nonneg us b). pose proof (age_nonneg us c). pose proof (age_nonneg us d).
  pose proof N as N'. rewrite !NoDup_cons, !not_elem_of_cons in N'. destruct N' as ([? [? [? _]]] & [? [? _]] & [? _] & _).
  pose proof K as K'. rewrite !Forall_cons in K'. destruct K' as (? & ? & ? & ? & _).
  destruct (keys_all a b c d v N K Hv) as [E|[E|[E|E]]];
    [rewrite (Ta E)|rewrite (Tb E)|rewrite (Tc E)|rewrite (Td E)]; subst v; (split; [|split]).
  all: try (rewrite !NoDup_cons, !not_elem_of_cons; repeat split; (congruence || apply not_elem_of_nil || apply NoDup_nil_2)).
  all: try (rewrite !Forall_cons, Forall_nil; tauto).
  all: cbn [age]; rewrite ?Z.eqb_refl;
    repeat match goal with |- context [?x =? ?y] => rewrite (proj2 (Z.eqb_neq x y)) by congruence end; lia.
Qed.

Lemma ordered_oldest us l v : ordered us (v :: l) -> oldest us v.
Proof.
  intros O. destruct l as [|b [|c [|d [|]]]]; try done. destruct O as (N & K & O1 & O2).
  split; [by apply Forall_cons in K as [? _]|]. intros k Hk.
  destruct (keys_all _ _ _ _ k N K Hk) as [->|[->|[->| ->]]]; lia.
Qed.

(** ** Words *)

Lemma word_testbit k x n : 0 <= k -> 0 <= n -> Z.testbit (word k x) n = (n <? 16) && Z.testbit x (n + 16 * k).
Proof. intros. unfold word. by rewrite testbit_wrap, Z.shiftr_spec by lia. Qed.

Ltac word_bits := apply Z.bits_inj'; intros n Hn;
  rewrite ?Z.lor_spec, ?Z.land_spec, ?Z.lxor_spec, ?word_testbit by lia;
  rewrite ?Z.lor_spec, ?Z.land_spec, ?Z.lxor_spec; destruct (n <? 16); simpl; rewrite ?orb_false_r, ?andb_false_r; try done.

Lemma word_lor k a b : 0 <= k -> word k (Z.lor a b) = Z.lor (word k a) (word k b).
Proof. intros. word_bits. Qed.
Lemma word_land k a b : 0 <= k -> word k (Z.land a b) = Z.land (word k a) (word k b).
Proof. intros. word_bits. Qed.
Lemma word_lxor k a b : 0 <= k -> word k (Z.lxor a b) = Z.lxor (word k a) (word k b).
Proof. intros. word_bits. Qed.

Lemma word_shiftr k x j : 0 <= k -> 0 <= j -> word k (Z.shiftr x (16 * j)) = word (k + j) x.
Proof. intros. unfold word. rewrite Z.shiftr_shiftr by lia. do 2 f_equal. lia. Qed.

Lemma word_u64 k x : 0 <= k < 4 -> word k (u64 x) = word k x.
Proof.
  intros. apply Z.bits_inj'. intros n Hn. rewrite !word_testbit, testbit_wrap by lia.
  destruct (Z.ltb_spec n 16); [|done]. by rewrite (proj2 (Z.ltb_lt (n + 16 * k) 64)) by lia.
Qed.

Lemma word_shiftl k x j : 0 <= k < 4 -> 0 <= j ->
  word k (u64 (Z.shiftl x (16 * j))) = if k <? j then 0 else word (k - j) x.
Proof.
  intros. rewrite word_u64 by done. apply Z.bits_inj'. intros n Hn. rewrite word_testbit by lia.
  destruct (Z.ltb_spec n 16) as [Hn16|]; cbn [andb].
  - rewrite Z.shiftl_spec by lia. destruct (Z.ltb_spec k j).
    + rewrite Z.bits_0. apply Z.testbit_neg_r. lia.
    + rewrite word_testbit, (proj2 (Z.ltb_lt n 16) Hn16) by lia. cbn [andb]. f_equal. lia.
  - destruct (k <? j) eqn:?; [by rewrite Z.bits_0|]. rewrite word_testbit by lia.
    by rewrite (proj2 (Z.ltb_ge n 16)) by lia.
Qed.

Lemma word_fits k x : fits 16 (word k x).
Proof. by apply wrap_fits. Qed.

Lemma word_small x : fits 16 x -> word 0 x = x.
Proof. intros. unfold word. rewrite Z.shiftr_0_r. by apply wrap_small. Qed.

Lemma word_high w k x : fits w x -> w <= 16 * k -> word k x = 0.
Proof.
  intros Hx Hk. apply zero_bits; [apply word_fits|]. intros n Hn.
  assert (0 <= w) by (destruct (decide (0 <= w)); [done|unfold fits in Hx; rewrite Z.pow_neg_r in Hx; lia]).
  rewrite word_testbit by lia. rewrite (testbit_beyond w x) by (done || lia). apply andb_false_r.
Qed.

Lemma land_word k x : Z.land (word k x) 0xFFFF = word k x.
Proof. change 0xFFFF with (2 ^ 16 - 1). rewrite land_mask by lia. apply wrap_wrap. Qed.

Lemma low_word x : Z.land x 0xFFFF = word 0 x.
Proof. change 0xFFFF with (2 ^ 16 - 1). rewrite land_mask by lia. unfold word. by rewrite Z.shiftr_0_r. Qed.

Lemma nth_word k x : 0 <= k -> Z.land (Z.shiftr x (16 * k)) 0xFFFF = word k x.
Proof. intros. rewrite low_word, word_shiftr by lia. f_equal. Qed.

Lemma top_word x : fits 64 x -> Z.shiftr x 48 = word 3 x.
Proof.
  intros Hx. unfold word. symmetry. apply wrap_small. pose proof (fits_shiftr 64 x 48) as F. unfold fits in *.
  rewrite Z.shiftr_div_pow2 by lia. split; [apply Z.div_pos; lia|apply Z.div_lt_upper_bound; lia].
Qed.

Lemma words_lookup k x : (k < 4)%nat -> words x !! k = Some (word (Z.of_nat k) x).
Proof. intros. by destruct k as [|[|[|[|]]]]; [| | | |lia]. Qed.

(** Words of constants. *)
Ltac ground_Z c :=
  lazymatch c with
  | Z0 => idtac | Zpos _ => idtac
  | Z.sub ?a ?b => ground_Z a; ground_Z b
  | Z.add ?a ?b => ground_Z a; ground_Z b
  | Z.pow ?a ?b => ground_Z a; ground_Z b
  | Z.mul ?a ?b => ground_Z a; ground_Z b
  end.

Ltac const_words :=
  repeat match goal with
  | |- context [word ?k ?c] =>
      ground_Z c; let r := eval vm_compute in (word k c) in change (word k c) with r
  end.

(** Indexes and comparisons of constants. *)
Ltac const_index :=
  repeat match goal with
  | |- context [word ?k ?x] =>
      ground_Z k; let r := eval vm_compute in k in progress change (word k x) with (word r x)
  | |- context [?a <? ?b] =>
      ground_Z a; ground_Z b; let r := eval vm_compute in (a <? b) in change (a <? b) with r
  end; cbv iota.

(** ** Strategy 1 *)

(** Where the key is. *)
Definition place (l : list Z) (v : Z) (p : nat) : Prop :=
  l !! p = Some v /\ forall j, (j < p)%nat -> l !! j <> Some v.

Lemma place_found us l v : ordered us l -> is_key v -> exists p, place l v p /\ (p < 4)%nat.
Proof.
  intros O Hv. destruct l as [|a [|b [|c [|d [|]]]]]; try done. destruct O as (N & K & _).
  pose proof N as N'. rewrite !NoDup_cons, !not_elem_of_cons in N'. destruct N' as ([? [? [? _]]] & [? [? _]] & [? _] & _).
  destruct (keys_all a b c d v N K Hv) as [->|[->|[->| ->]]];
    [exists 0%nat|exists 1%nat|exists 2%nat|exists 3%nat]; (split; [|lia]); (split; [done|]);
    intros [|[|[|[|]]]] Hj; simpl; try lia; congruence.
Qed.

(** What an update makes of the words when it moves the word [p] to the end. *)
Definition moved (l : list Z) (p : nat) : list Z := take p l ++ drop (Datatypes.S p) l ++ take 1 (drop p l).

Lemma moved_touch us l v p : ordered us l -> place l v p -> moved l p = touch l v.
Proof.
  intros O [Hp _]. destruct l as [|a [|b [|c [|d [|]]]]]; try done. destruct O as (N & _).
  pose proof (touch_cases a b c d v N) as (Ta & Tb & Tc & Td).
  destruct p as [|[|[|[|]]]]; simpl in Hp; simplify_eq;
    [rewrite Ta by done|rewrite Tb by done|rewrite Tc by done|rewrite Td by done]; done.
Qed.

(** The masks for the place [p]. *)
Lemma rotate_words x p : fits 64 x -> 0 <= p < 4 ->
  let y := Z.lor (Z.lor (Z.land x (2 ^ (16 * p) - 1)) (Z.land (Z.shiftr x (16 * 1)) (2 ^ 64 - 2 ^ (16 * p))))
             (Z.land (u64 (Z.shiftl x (16 * (3 - p)))) (2 ^ 64 - 2 ^ 48)) in
  fits 64 y /\ words y = moved (words x) (Z.to_nat p).
Proof.
  intros Hx Hp y. split.
  - unfold y. apply fits_lor; [lia|apply fits_lor; [lia| |]|].
    + by apply fits_land.
    + apply fits_land; [lia|]. by apply fits_shiftr.
    + apply fits_land; [lia|]. by apply wrap_fits.
  - assert (word 4 x = 0) as H4 by (by apply (word_high 64)).
    assert (p = 0 \/ p = 1 \/ p = 2 \/ p = 3) as [->|[->|[->| ->]]] by lia;
    subst y; unfold words; rewrite !word_lor, !word_land, !word_shiftr, !word_shiftl by lia;
    const_index;
    const_words; rewrite ?H4, ?Z.land_0_r, ?land_word, ?Z.lor_0_r, ?Z.lor_0_l; done.
Qed.

Lemma update_1_words x v p : fits 64 x -> place (words x) v p -> (p < 4)%nat ->
  exists y, lru_update_1 x v = Some y /\ fits 64 y /\ words y = moved (words x) p.
Proof.
  intros Hx [Hp Hj] H4. unfold lru_update_1.
  change (Z.shiftr x 32) with (Z.shiftr x (16 * 2)). change (Z.shiftr x 16) with (Z.shiftr x (16 * 1)).
  rewrite top_word, !nth_word, low_word by (done || lia).
  match goal with |- context [Z.shiftl ?e 4] => set (pos := e) end.
  assert (pos = Z.of_nat p) as ->.
  { unfold pos. clear pos.
    assert (forall k, (k < p)%nat -> (word (Z.of_nat k) x =? v) = false) as N.
    { intros k Hk. apply Z.eqb_neq. intros E. apply (Hj k Hk). by rewrite words_lookup, E by lia. }
    pose proof (N 0%nat) as N0. pose proof (N 1%nat) as N1. pose proof (N 2%nat) as N2.
    change (Z.of_nat 0) with 0 in N0. change (Z.of_nat 1) with 1 in N1. change (Z.of_nat 2) with 2 in N2.
    destruct p as [|[|[|[|]]]]; [| | | |lia]; simpl in Hp; injection Hp as Hp;
      rewrite ?N0, ?N1, ?N2 by lia; by rewrite Hp, Z.eqb_refl. }
  destruct (rotate_words x (Z.of_nat p) Hx ltac:(lia)) as [F W]. rewrite Nat2Z.id in W.
  eexists. split; [|split; [exact F|exact W]]. clear F W Hp Hj.
  destruct p as [|[|[|[|]]]]; [| | | |lia]; done.
Qed.

(** ** Strategy 2 *)

Section x86.
Context (sse : Sse41) (L : LawfulSse41 sse).

Lemma fits_wider x : fits 64 x -> fits 128 x.
Proof. unfold fits. lia. Qed.

(** The register with [v] in its four words. *)
Definition repeated (v : Z) : Z :=
  let mru3 := Z.lor v (u64 (Z.shiftl v 16)) in Z.lor (u64 (Z.shiftl mru3 32)) mru3.

Lemma repeated_words v k : fits 16 v -> 0 <= k < 4 -> word k (repeated v) = v.
Proof.
  intros Hv Hk. assert (fits 64 v) by (unfold fits in *; lia).
  unfold repeated. change (Z.shiftl v 16) with (Z.shiftl v (16 * 1)).
  set (m := Z.lor v (u64 (Z.shiftl v (16 * 1)))). change (Z.shiftl m 32) with (Z.shiftl m (16 * 2)).
  assert (forall j, 1 <= j -> word j v = 0) as H0 by (intros; apply (word_high 16); [done|lia]).
  pose proof (word_small v Hv) as H1.
  assert (k = 0 \/ k = 1 \/ k = 2 \/ k = 3) as [->|[->|[->| ->]]] by lia;
    rewrite word_lor, word_shiftl by lia; const_index; unfold m; rewrite !word_lor, !word_shiftl by lia; const_index;
    rewrite ?H1, ?H0 by lia; by rewrite ?Z.lor_0_r, ?Z.lor_0_l.
Qed.

(** The search finds the first word that holds the key. *)
Lemma minpos_place x v p : fits 64 x -> fits 16 v -> place (words x) v p -> (p < 4)%nat ->
  mm_extract_epi16 (mm_minpos_epu16 (Z.lxor x (repeated v))) 1 = Z.of_nat p.
Proof.
  intros Hx Hv [Hp Hj] H4.
  assert (fits 64 (repeated v)) as Fr.
  { unfold repeated. apply fits_lor; [lia|by apply wrap_fits|]. apply fits_lor; [lia|unfold fits in *; lia|by apply wrap_fits]. }
  assert (fits 128 (Z.lxor x (repeated v))) as Fc by (apply fits_wider, fits_lxor; [lia|done..]).
  destruct (minpos_law _ Fc) as (Hi & Hmin & Hfirst). set (i := mm_extract_epi16 _ 1) in *. clearbody i.
  assert (forall k, (k < 4)%nat -> word (Z.of_nat k) (Z.lxor x (repeated v)) = 0 <-> words x !! k = Some v) as Hz.
  { intros k Hk. rewrite word_lxor, repeated_words, Z.lxor_eq_0_iff by (done || lia).
    rewrite words_lookup by done. split; congruence. }
  pose proof (proj2 (Hz p H4) Hp) as Zp.
  assert (0 <= word i (Z.lxor x (repeated v))) as H0 by apply word_fits.
  destruct (decide (Z.of_nat p < i)) as [Hlt|Hge]; [specialize (Hfirst (Z.of_nat p) ltac:(lia)); lia|].
  destruct (decide (i < Z.of_nat p)) as [Hlt|Hge']; [|lia].
  specialize (Hmin (Z.of_nat p) ltac:(lia)). exfalso. apply (Hj (Z.to_nat i)); [lia|].
  apply Hz; [lia|]. rewrite Z2Nat.id by lia. lia.
Qed.

Lemma word_of_bytes k x : 0 <= k -> word k x = byte (2 * k) x + 2 ^ 8 * byte (2 * k + 1) x.
Proof.
  intros Hk. unfold word, byte. replace (8 * (2 * k)) with (16 * k) by lia.
  replace (8 * (2 * k + 1)) with (16 * k + 8) by lia. rewrite <- Z.shiftr_shiftr by lia.
  set (y := Z.shiftr x (16 * k)). rewrite Z.shiftr_div_pow2 by lia.
  unfold wrap. change (2 ^ 16) with (2 ^ 8 * 2 ^ 8). by rewrite Z.rem_mul_r by lia.
Qed.

Lemma update_2_words x v p : fits 64 x -> fits 16 v -> place (words x) v p -> (p < 4)%nat ->
  exists y, lru_update_2 x v = Some y /\ fits 64 y /\ words y = moved (words x) p.
Proof.
  intros Hx Hv Hp H4. unfold lru_update_2. fold (repeated v).
  assert (fits 64 (Z.lxor x (repeated v))) as Fc.
  { apply fits_lxor; [lia|done|]. unfold repeated. apply fits_lor; [lia|by apply wrap_fits|].
    apply fits_lor; [lia|unfold fits in *; lia|by apply wrap_fits]. }
  rewrite !cvtsi64_law, (minpos_place x v p) by done.
  assert (exists m, (m0 ← aget lru_masks (2 * Z.of_nat p) ; m1 ← aget lru_masks (2 * Z.of_nat p + 1) ;
             Some (u64 (mm_extract_epi64 (mm_shuffle_epi8 x (m1 * 2 ^ 64 + m0)) 0)))
            = Some (u64 (mm_extract_epi64 (mm_shuffle_epi8 x m) 0)) /\ fits 128 m /\
            forall k, 0 <= k < 4 -> word k (mm_shuffle_epi8 x m) = default 0 (moved (words x) p !! Z.to_nat k)) as (m & E & Fm & Hm).
  { destruct p as [|[|[|[|]]]]; [| | | |lia]; (eexists; split; [reflexivity|]); (split; [by vm_compute|]); intros k Hk;
      assert (k = 0 \/ k = 1 \/ k = 2 \/ k = 3) as [->|[->|[->| ->]]] by lia;
      rewrite word_of_bytes by lia.
    all: match goal with F : fits 64 ?z |- context [mm_shuffle_epi8 ?z ?m] =>
      destruct (shuffle_law z m (fits_wider z F) ltac:(by vm_compute)) as [_ S]; rewrite !S by lia;
      repeat match goal with |- context [byte ?j m] => let r := eval vm_compute in (byte j m) in change (byte j m) with r end end.
    all: match goal with |- context [Z.to_nat ?k] => let r := eval vm_compute in (Z.to_nat k) in change (Z.to_nat k) with r end.
    all: cbn [moved words take drop app lookup list_lookup default from_option id].
    all: rewrite word_of_bytes by lia; reflexivity. }
  destruct (shuffle_law x m (fits_wider x Hx) Fm) as [Fs _].
  exists (u64 (mm_extract_epi64 (mm_shuffle_epi8 x m) 0)). split; [exact E|]. split; [by apply wrap_fits|].
  rewrite extract64_law by done. unfold words at 1. rewrite !word_u64, !Hm by lia.
  destruct Hp as [Hp _]. destruct p as [|[|[|[|]]]]; [| | | |lia]; done.
Qed.

(** ** Strategy 3 *)

Lemma update_3_words x v : fits 64 x -> is_key v ->
  exists y, lru_update_3 x v = Some y /\ fits 64 y
    /\ forall k, is_key k -> word k y = if k =? v then 65535 else Z.max 0 (word k x - 1).
Proof.
  intros Hx Hv. unfold lru_update_3, is_key in *.
  assert (Z.shiftr v 2 = 0) as -> by (rewrite Z.shiftr_div_pow2 by lia; apply Z.div_small; lia).
  change (aget [0x1000100010001; 0] 0) with (Some 0x1000100010001). cbn [mbind option_bind].
  rewrite !cvtsi64_law by (done || (unfold fits; lia)).
  destruct (subs_law x 0x1000100010001 (fits_wider x Hx) ltac:(unfold fits; lia)) as [Fs Hs].
  assert (v = 0 \/ v = 1 \/ v = 2 \/ v = 3) as Hc by lia.
  assert (exists o, aget [0xFFFF; Z.shiftl 0xFFFF 16; Z.shiftl 0xFFFF 32; Z.shiftl 0xFFFF 48; 0] v = Some o
            /\ fits 64 o /\ forall k, 0 <= k < 4 -> word k o = if k =? v then 0xFFFF else 0) as (o & -> & Fo & Ho).
  { destruct Hc as [->|[->|[->| ->]]]; (eexists; split; [reflexivity|]); (split; [by vm_compute|]); intros k Hk;
      assert (k = 0 \/ k = 1 \/ k = 2 \/ k = 3) as [->|[->|[->| ->]]] by lia; reflexivity. }
  cbn [mbind option_bind]. eexists. split; [done|]. split; [apply fits_lor; [lia|by apply wrap_fits|done]|].
  intros k Hk. rewrite word_lor, extract64_law, word_u64, Hs, Ho by (done || lia).
  assert (word k 0x1000100010001 = 1) as ->.
  { assert (k = 0 \/ k = 1 \/ k = 2 \/ k = 3) as [->|[->|[->| ->]]] by lia; reflexivity. }
  destruct (k =? v); [|apply Z.lor_0_r]. pose proof (word_fits k x) as F. unfold fits in F.
  set (w := Z.max 0 (word k x - 1)). assert (fits 16 w) as Fw by (unfold fits, w; lia).
  change 0xFFFF with (Z.ones 16). apply Z.lor_ones_low; [apply Fw|].
  destruct (decide (w = 0)) as [->|]; [done|]. apply Z.log2_lt_pow2; apply Fw || (unfold fits in Fw; lia).
Qed.
End x86.

(** ** Runs *)

(** An update that moves the key to the end of the list. *)
Lemma list_run (update : Z -> Z -> option Z) us :
  (forall x v p, fits 64 x -> fits 16 v -> place (words x) v p -> (p < 4)%nat ->
     exists y, update x v = Some y /\ fits 64 y /\ words y = moved (words x) p) ->
  Forall is_key us ->
  exists x, lru_run update lru_init us = Some x /\ fits 64 x /\ ordered us (words x).
Proof.
  intros Hu. induction us as [|u us IH]; intros K; cbn [lru_run].
  - exists lru_init. split; [done|]. split; [by vm_compute|].
    change (words lru_init) with [3; 2; 1; 0]. split; [|split; [|done]].
    + rewrite !NoDup_cons, !not_elem_of_cons. repeat split; try (by vm_compute); apply not_elem_of_nil || apply NoDup_nil_2.
    + rewrite !Forall_cons, Forall_nil. unfold is_key. vm_compute. intuition congruence.
  - apply Forall_cons in K as [Ku K]. destruct (IH K) as (x & -> & Hx & O). cbn [mbind option_bind].
    destruct (place_found us (words x) u O Ku) as (p & Hp & H4).
    destruct (Hu x u p Hx ltac:(unfold is_key, fits in *; lia) Hp H4) as (y & Hy & Fy & Wy).
    exists y. split; [done|]. split; [done|]. rewrite Wy, (moved_touch us _ u) by done. by apply ordered_touch.
Qed.

Lemma list_oldest us x : ordered us (words x) -> oldest us (lru_pos x).
Proof. intros O. unfold lru_pos. rewrite low_word. by eapply ordered_oldest. Qed.

Lemma count_run (sse : Sse41) (L : LawfulSse41 sse) us : Forall is_key us ->
  exists x, lru_run lru_update_3 lru_init_3 us = Some x /\ fits 64 x
    /\ forall k, is_key k -> word k x = Z.max 0 (65535 - age us k).
Proof.
  induction us as [|u us IH]; intros K; cbn [lru_run].
  - exists lru_init_3. split; [done|]. split; [by vm_compute|]. intros k Hk. unfold is_key in Hk.
    assert (k = 0 \/ k = 1 \/ k = 2 \/ k = 3) as [->|[->|[->| ->]]] by lia; reflexivity.
  - apply Forall_cons in K as [Ku K]. destruct (IH K) as (x & -> & Hx & W). cbn [mbind option_bind].
    destruct (update_3_words sse L x u Hx Ku) as (y & Hy & Fy & Wy). exists y. split; [done|]. split; [done|].
    intros k Hk. rewrite Wy, W by done. cbn [age]. rewrite (Z.eqb_sym u k). destruct (k =? u); lia.
Qed.

Lemma count_oldest (sse : Sse41) (L : LawfulSse41 sse) us x :
  fits 64 x -> (forall k, is_key k -> word k x = Z.max 0 (65535 - age us k)) ->
  (forall k, is_key k -> age us k <= 65535) -> oldest us (f_lru_pos x).
Proof.
  intros Hx W A. unfold f_lru_pos. rewrite set64_law by (done || (unfold fits; lia)).
  set (l := (2 ^ 64 - 1) * 2 ^ 64 + x).
  assert (fits 128 l) as Fl by (unfold l, fits in *; lia).
  destruct (minpos_law l Fl) as (Hi & Hmin & Hfirst). set (i := mm_extract_epi16 _ 1) in *. clearbody i.
  assert (forall k, 0 <= k < 4 -> word k l = word k x) as Hlow.
  { intros k Hk. rewrite <- (word_u64 k l) by done. f_equal. unfold l.
    rewrite Z.add_comm, wrap_add_mult by lia. by apply wrap_small. }
  assert (4 <= i -> word i l = 65535) as Hhigh.
  { intros H4. replace i with ((i - 4) + 4) at 1 by lia. rewrite <- word_shiftr by lia. change (16 * 4) with 64.
    assert (Z.shiftr l 64 = 2 ^ 64 - 1) as ->.
    { unfold l. rewrite Z.shiftr_div_pow2, Z.div_add_l, Z.div_small by (lia || apply Hx). lia. }
    assert (i - 4 = 0 \/ i - 4 = 1 \/ i - 4 = 2 \/ i - 4 = 3) as [->|[->|[->| ->]]] by lia; reflexivity. }
  assert (i < 4) as H4.
  { destruct (decide (i < 4)); [done|]. specialize (Hfirst 0 ltac:(lia)). rewrite Hhigh in Hfirst by lia.
    pose proof (word_fits 0 l) as F. unfold fits in F. lia. }
  split; [unfold is_key; lia|]. intros k Hk. specialize (Hmin k ltac:(unfold is_key in Hk; lia)).
  rewrite !Hlow, !W in Hmin by (unfold is_key in *; lia). pose proof (A k Hk). pose proof (A i ltac:(unfold is_key; lia)). lia.
Qed.

(** C38. All three strategies evict a key that was used as long ago as any other:
    for any sequence of uses of the four keys the update returns, and the position
    that the bucket offers next is a key that no other key has been left unused
    longer than; for the strategy that counts, as long as no key was left unused
    for more than 65535 updates. *)
Theorem lru_evicts_oldest (sse : Sse41) (L : LawfulSse41 sse) (us : list Z) :
  Forall is_key us ->
  (exists x, lru_run lru_update_1 lru_init us = Some x /\ oldest us (lru_pos x))
  /\ (exists x, lru_run lru_update_2 lru_init us = Some x /\ oldest us (lru_pos x))
  /\ (exists x, lru_run lru_update_3 lru_init_3 us = Some x
        /\ ((forall k, is_key k -> age us k <= 65535) -> oldest us (f_lru_pos x))).
Proof.
  intros K. split; [|split].
  - destruct (list_run lru_update_1 us) as (x & E & _ & O); [|done|].
    + intros x v p Hx _. by apply update_1_words.
    + exists x. split; [done|]. by apply list_oldest.
  - destruct (list_run lru_update_2 us) as (x & E & _ & O); [|done|].
    + intros x v p Hx Hv. by apply update_2_words.
    + exists x. split; [done|]. by apply list_oldest.
  - destruct (count_run sse L us K) as (x & E & Fx & W). exists x. split; [done|]. by apply count_oldest.
Qed.

(** *** An instance *)

Fixpoint first_min (x : Z) (n : nat) : Z :=
  match n with
  | O => 0
  | Datatypes.S n =>
      let i := first_min x n in if word (Z.of_nat (Datatypes.S n)) x <? word i x then Z.of_nat (Datatypes.S n) else i
  end.

Definition digits (w : Z) (l : list Z) : Z := foldr (fun d acc => d + 2 ^ w * acc) 0 l.

#[local] Instance sse41_words : Sse41 := {|
  mm_cvtsi64_si128 x := x;
  mm_minpos_epu16 x := word (first_min x 7) x + 2 ^ 16 * first_min x 7;
  mm_extract_epi16 x i := word i x;
  mm_extract_epi64 x i := i64 (Z.shiftr x (64 * i));
  mm_shuffle_epi8 x m :=
    digits 8 (map (fun j => if Z.testbit (byte j m) 7 then 0 else byte (byte j m mod 16) x) (seqZ 0 16));
  mm_subs_epu16 x y := digits 16 (map (fun j => Z.max 0 (word j x - word j y)) (seqZ 0 8));
  mm_set_epi64x a b := a * 2 ^ 64 + b |}.

Lemma first_min_ok x n :
  0 <= first_min x n <= Z.of_nat n
  /\ (forall j, 0 <= j <= Z.of_nat n -> word (first_min x n) x <= word j x)
  /\ (forall j, 0 <= j < first_min x n -> word (first_min x n) x < word j x).
Proof.
  induction n as [|n (I1 & I2 & I3)]; cbn [first_min].
  { split; [lia|]. split; [|lia]. intros j Hj. by replace j with 0 by lia. }
  set (i := first_min x n) in *. destruct (Z.ltb_spec (word (Z.of_nat (Datatypes.S n)) x) (word i x)) as [H|H].
  - split; [lia|]. split; intros j Hj.
    + destruct (decide (j = Z.of_nat (Datatypes.S n))) as [->|]; [lia|]. specialize (I2 j ltac:(lia)). lia.
    + specialize (I2 j ltac:(lia)). lia.
  - split; [lia|]. split; [|done]. intros j Hj.
    destruct (decide (j = Z.of_nat (Datatypes.S n))) as [->|]; [lia|]. apply I2. lia.
Qed.

Lemma digits_ok w l : 0 < w -> Forall (fits w) l ->
  fits (w * Z.of_nat (length l)) (digits w l)
  /\ forall j d, l !! j = Some d -> wrap w (Z.shiftr (digits w l) (w * Z.of_nat j)) = d.
Proof.
  intros Hw. induction 1 as [|d l Hd _ [I1 I2]]; cbn [digits foldr length].
  { split; [|by intros j d Hj]. unfold fits. rewrite Z.mul_0_r. simpl. lia. }
  fold (digits w l). unfold fits in *. split.
  - replace (w * Z.of_nat (Datatypes.S (length l))) with (w + w * Z.of_nat (length l)) by lia.
    rewrite Z.pow_add_r by lia. nia.
  - intros [|j] e Hj; simpl in Hj.
    + simplify_eq. rewrite Z.mul_0_r, Z.shiftr_0_r. unfold wrap. rewrite Z.mul_comm, Z.mod_add by lia. by apply Z.mod_small.
    + replace (w * Z.of_nat (Datatypes.S j)) with (w + w * Z.of_nat j) by lia.
      rewrite <- Z.shiftr_shiftr by lia. rewrite (Z.shiftr_div_pow2 _ w) by lia.
      rewrite Z.mul_comm, Z.div_add, Z.div_small by lia. by apply I2.
Qed.

#[local] Instance sse41_words_lawful : LawfulSse41 sse41_words.
Proof.
  split; cbn [mm_cvtsi64_si128 mm_minpos_epu16 mm_extract_epi16 mm_extract_epi64 mm_shuffle_epi8 mm_subs_epu16 mm_set_epi64x sse41_words].
  - done.
  - intros x Hx. set (i := word 1 _). destruct (first_min_ok x 7) as (F1 & F2 & F3).
    assert (i = first_min x 7) as ->.
    { unfold i, word at 1. rewrite Z.shiftr_div_pow2 by lia. pose proof (word_fits (first_min x 7) x) as W. unfold fits in W.
      rewrite Z.mul_comm, Z.div_add, Z.div_small by lia. apply wrap_small. unfold fits. lia. }
    split; [lia|]. split; [intros j Hj; apply F2; lia|done].
  - intros x Hx. rewrite wrap_swrap, Z.mul_0_r, Z.shiftr_0_r by lia. done.
  - intros x m Hx Hm. set (f := fun j => if Z.testbit (byte j m) 7 then 0 else byte (byte j m mod 16) x).
    destruct (digits_ok 8 (map f (seqZ 0 16))) as [D1 D2]; [lia| |split].
    + apply Forall_map, Forall_true. intros j. unfold f, fits. simpl. case_match; [lia|by apply (wrap_range 8)].
    + exact D1.
    + intros j Hj. unfold byte at 1. specialize (D2 (Z.to_nat j) (f j)). rewrite Z2Nat.id in D2 by lia. apply D2.
      rewrite list_lookup_fmap, lookup_seqZ_lt by lia. simpl. by rewrite Z2Nat.id by lia.
  - intros x y Hx Hy. set (f := fun j => Z.max 0 (word j x - word j y)).
    destruct (digits_ok 16 (map f (seqZ 0 8))) as [D1 D2]; [lia| |split].
    + apply Forall_map, Forall_true. intros j. unfold f, fits. simpl. pose proof (word_fits j x) as W.
      pose proof (word_fits j y) as W'. unfold fits in *. lia.
    + exact D1.
    + intros j Hj. unfold word at 1. specialize (D2 (Z.to_nat j) (f j)). rewrite Z2Nat.id in D2 by lia. apply D2.
      rewrite list_lookup_fmap, lookup_seqZ_lt by lia. simpl. by rewrite Z2Nat.id by lia.
  - done.
Qed.

Lemma lru_evicts_oldest_witness :
  exists x, lru_run lru_update_2 lru_init [3; 0; 2; 1; 1; 3] = Some x /\ oldest [3; 0; 2; 1; 1; 3] (lru_pos x).
Proof.
  refine (proj1 (proj2 (lru_evicts_oldest sse41_words sse41_words_lawful [3; 0; 2; 1; 1; 3] _))).
  rewrite !Forall_cons, Forall_nil. unfold is_key. lia.
Defined.

(** Key 1 was used longest ago. *)
Example lru_example :
  (lru_pos <$> lru_run lru_update_1 lru_init [3; 0; 2; 1; 1; 3]) = Some 1
  /\ (lru_pos <$> lru_run lru_update_2 lru_init [3; 0; 2; 1; 1; 3]) = Some 1
  /\ (f_lru_pos <$> lru_run lru_update_3 lru_init_3 [3; 0; 2; 1; 1; 3]) = Some 1.
Proof. by vm_compute. Qed.

(** Strategy 1 shifts by 64 when the bucket does not hold the key. *)
Theorem lru_update_absent_undefined x v :
  fits 64 x -> (forall k, is_key k -> word k x <> v) -> lru_update_1 x v = None.
Proof.
  intros Hx Hv. unfold lru_update_1.
  change (Z.shiftr x 32) with (Z.shiftr x (16 * 2)). change (Z.shiftr x 16) with (Z.shiftr x (16 * 1)).
  rewrite top_word, !nth_word, low_word by (done || lia).
  rewrite (proj2 (Z.eqb_neq _ _) (Hv 3 ltac:(unfold is_key; lia))), (proj2 (Z.eqb_neq _ _) (Hv 2 ltac:(unfold is_key; lia))).
  by rewrite (proj2 (Z.eqb_neq _ _) (Hv 1 ltac:(unfold is_key; lia))), (proj2 (Z.eqb_neq _ _) (Hv 0 ltac:(unfold is_key; lia))).
Qed.
