(* ===== verification/Reciprocal.v ===== *)
(** * Division by multiplication ([include/rte_reciprocal.h]).

    A division by a divisor that stays the same is a multiplication and two
    shifts.  The constants of a divisor are computed by the library;
    [reciprocal_of] is the formula of the article that the header cites. *)
From stdpp Require Import prelude list numbers.
From S2P Require Import Prelude.
Open Scope Z_scope.

(** ** Data *)

Record rte_reciprocal := mk_reciprocal { m : Z; sh1 : Z; sh2 : Z }.

(** [struct rte_reciprocal_u64] has the same members, with [m] of 64 bits. *)
Definition rte_reciprocal_u64 : Type := rte_reciprocal.

(** ** Operations *)

Definition rte_reciprocal_divide (a : Z) (R : rte_reciprocal) : Z :=
  let t := u32 (Z.shiftr (u64 (a * m R)) 32) in
  Z.shiftr (u32 (t + Z.shiftr (u32 (a - t)) (sh1 R))) (sh2 R).

(** With a type of 128 bits, and without. *)
Definition mullhi_u64_wide (x y : Z) : Z :=
  let xl := x in
  let rl := wrap 128 (xl * y) in
  u64 (Z.shiftr rl 64).

Definition mullhi_u64_narrow (x y : Z) : Z :=
  let u1 := Z.shiftr x 32 in
  let u0 := Z.land x 0xFFFFFFFF in
  let v1 := Z.shiftr y 32 in
  let v0 := Z.land y 0xFFFFFFFF in
  let t := u64 (u0 * v0) in
  let k := Z.shiftr t 32 in
  let t := u64 (u64 (u1 * v0) + k) in
  let w1 := Z.land t 0xFFFFFFFF in
  let w2 := Z.shiftr t 32 in
  let t := u64 (u64 (u0 * v1) + w1) in
  let k := Z.shiftr t 32 in
  u64 (u64 (u64 (u1 * v1) + w2) + k).

Definition mullhi_u64 (int128 : bool) (x y : Z) : Z :=
  if int128 then mullhi_u64_wide x y else mullhi_u64_narrow x y.

Definition rte_reciprocal_divide_u64 (int128 : bool) (a : Z) (R : rte_reciprocal_u64) : Z :=
  let t := mullhi_u64 int128 a (m R) in
  Z.shiftr (u64 (t + Z.shiftr (u64 (a - t)) (sh1 R))) (sh2 R).

(** ** The constants of a divisor

    [l] is the number of bits of [d - 1]; the two shifts are one bit and the rest. *)
Definition divisor_bits (d : Z) : Z := if d =? 1 then 0 else Z.log2 (d - 1) + 1.

Definition reciprocal_of (w d : Z) (R : rte_reciprocal) : Prop :=
  let l := divisor_bits d in
  m R = 2 ^ w * (2 ^ l - d) / d + 1 /\ sh1 R = Z.min l 1 /\ sh2 R = Z.max (l - 1) 0.

(** * Lemmas *)

Lemma divisor_bits_ok d : 0 < d -> 0 <= divisor_bits d /\ d <= 2 ^ divisor_bits d < 2 * d.
Proof.
  intros Hd. unfold divisor_bits. destruct (Z.eqb_spec d 1) as [->|]; [split; lia|].
  pose proof (Z.log2_spec (d - 1) ltac:(lia)) as H. pose proof (Z.log2_nonneg (d - 1)).
  rewrite Z.pow_succ_r in H by lia. rewrite Z.pow_add_r by lia. split; lia.
Qed.

(** The multiplier of [w + 1] bits divides exactly: its excess over [2^(w+l)/d],
    taken [a] times, does not reach the next quotient. *)
Lemma multiplier w d l a : 0 <= w -> 0 <= l -> 0 < d <= 2 ^ l -> 0 <= a < 2 ^ w ->
  a * (2 ^ (w + l) / d + 1) / 2 ^ (w + l) = a / d.
Proof.
  intros Hw Hl Hd Ha. set (N := 2 ^ (w + l)). set (M := N / d + 1).
  assert (0 < N) by (apply Z.pow_pos_nonneg; lia).
  assert (N < M * d <= N + d) as HM.
  { unfold M. pose proof (Z.div_mod N d ltac:(lia)). pose proof (Z.mod_pos_bound N d ltac:(lia)). nia. }
  assert (2 ^ w * 2 ^ l = N) as HN by (unfold N; by rewrite Z.pow_add_r).
  pose proof (Z.div_mod a d ltac:(lia)) as Da. pose proof (Z.mod_pos_bound a d ltac:(lia)).
  set (q := a / d) in *. symmetry. apply Z.div_unique with (a * M - N * q); [left|lia].
  assert (a * (M * d) < (q + 1) * d * N) by nia.
  assert (q * d * N <= a * (M * d)) by nia. split; nia.
Qed.

(** The sum of [w + 1] bits is halved before it is formed. *)
Lemma halved_sum w a t : 0 <= t <= a -> a < 2 ^ w -> 0 <= w ->
  wrap w (t + (a - t) / 2) = (t + a) / 2.
Proof.
  intros Ht Ha Hw. replace (t + a) with (t * 2 + (a - t)) by lia. rewrite Z.div_add_l by lia.
  apply wrap_small. unfold fits. pose proof (Z.div_mod (a - t) 2 ltac:(lia)).
  pose proof (Z.mod_pos_bound (a - t) 2 ltac:(lia)). lia.
Qed.

Section width.
Context (w : Z) (Hw : 0 <= w).

(** Both divisions, once the high half of the product is known. *)
Lemma divide_core d R a :
  0 < d -> reciprocal_of w d R -> 0 <= a < 2 ^ w ->
  let t := a * m R / 2 ^ w in
  0 <= t <= a /\ Z.shiftr (wrap w (t + Z.shiftr (wrap w (a - t)) (sh1 R))) (sh2 R) = a / d.
Proof.
  intros Hd (Hm & H1 & H2) Ha t. destruct (divisor_bits_ok d Hd) as [Hl Hdl].
  set (l := divisor_bits d) in *.
  assert (m R + 2 ^ w = 2 ^ (w + l) / d + 1) as HM.
  { rewrite Hm, Z.pow_add_r by lia. replace (2 ^ w * 2 ^ l) with (2 ^ w * (2 ^ l - d) + 2 ^ w * d) by lia.
    rewrite Z.div_add by lia. lia. }
  assert (0 <= m R <= 2 ^ w) as Rm.
  { assert (0 < 2 ^ w) by (apply Z.pow_pos_nonneg; lia).
    assert (2 ^ w * (2 ^ l - d) / d < 2 ^ w) by (apply Z.div_lt_upper_bound; nia).
    assert (0 <= 2 ^ w * (2 ^ l - d) / d) by (apply Z.div_pos; nia). lia. }
  assert (0 <= t <= a) as Ht.
  { unfold t. split; [apply Z.div_pos; nia|]. apply Z.div_le_upper_bound; nia. }
  split; [done|]. rewrite (wrap_small w (a - t)) by (unfold fits; lia).
  assert ((t + a) / 2 ^ l = a / d) as E.
  { rewrite <- (multiplier w d l a) by lia. rewrite <- HM, Z.pow_add_r, <- Z.div_div by lia. f_equal.
    rewrite Z.mul_add_distr_l, Z.div_add by lia. done. }
  rewrite H1, H2. destruct (decide (l = 0)) as [Hl0|].
  - rewrite Hl0 in *. rewrite Z.min_l, Z.max_r, !Z.shiftr_0_r by lia. rewrite <- E, Z.div_1_r.
    assert (2 ^ 0 = 1) by done. assert (d = 1) as Hd1 by lia.
    rewrite wrap_small by (unfold fits; lia).
    assert (t = 0) as ->; [|lia]. unfold t. rewrite Hm, Hd1. change (2 ^ 0 - 1) with 0.
    rewrite Z.mul_0_r, Z.mul_1_r. by apply Z.div_small.
  - rewrite Z.min_r, Z.max_l by lia. rewrite !Z.shiftr_div_pow2 by lia. change (2 ^ 1) with 2.
    rewrite halved_sum by lia. rewrite Z.div_div by lia. rewrite <- Z.pow_succ_r by lia.
    by replace (Z.succ (l - 1)) with l by lia.
Qed.
End width.

Lemma multiplier_fits w d R : 0 <= w -> 0 < d < 2 ^ w -> reciprocal_of w d R -> fits w (m R).
Proof.
  intros Hw Hd (Hm & _). destruct (divisor_bits_ok d ltac:(lia)) as [Hl Hdl]. set (l := divisor_bits d) in *.
  unfold fits. rewrite Hm.
  assert (0 <= 2 ^ w * (2 ^ l - d) / d) by (apply Z.div_pos; nia).
  assert (2 ^ w * (2 ^ l - d) / d < 2 ^ w - 1); [|lia]. apply Z.div_lt_upper_bound; nia.
Qed.

(** The high half of a product of two 64-bit numbers, from four products of their
    halves. *)
Lemma mullhi_ok int128 x y : fits 64 x -> fits 64 y -> mullhi_u64 int128 x y = x * y / 2 ^ 64.
Proof.
  intros Hx Hy. unfold fits in *.
  assert (0 <= x * y / 2 ^ 64 < 2 ^ 64) as R by (split; [apply Z.div_pos; nia|apply Z.div_lt_upper_bound; nia]).
  destruct int128; simpl; unfold mullhi_u64_wide, mullhi_u64_narrow.
  - rewrite (wrap_small 128), Z.shiftr_div_pow2 by (unfold fits; nia || lia). by apply wrap_small.
  - change 0xFFFFFFFF with (2 ^ 32 - 1). rewrite !land_mask, !Z.shiftr_div_pow2 by lia.
    pose proof (Z.div_mod x (2 ^ 32) ltac:(lia)) as Dx. pose proof (Z.mod_pos_bound x (2 ^ 32) ltac:(lia)).
    pose proof (Z.div_mod y (2 ^ 32) ltac:(lia)) as Dy. pose proof (Z.mod_pos_bound y (2 ^ 32) ltac:(lia)).
    assert (0 <= x / 2 ^ 32 < 2 ^ 32) by (split; [apply Z.div_pos; lia|apply Z.div_lt_upper_bound; lia]).
    assert (0 <= y / 2 ^ 32 < 2 ^ 32) by (split; [apply Z.div_pos; lia|apply Z.div_lt_upper_bound; lia]).
    set (u1 := x / 2 ^ 32) in *. set (u0 := x mod 2 ^ 32) in *. set (v1 := y / 2 ^ 32) in *. set (v0 := y mod 2 ^ 32) in *.
    clearbody u0 u1 v0 v1.
    assert (0 <= u0 * v0 <= (2 ^ 32 - 1) * (2 ^ 32 - 1)) as HA by nia.
    assert (0 <= u1 * v0 <= (2 ^ 32 - 1) * (2 ^ 32 - 1)) as HB by nia.
    assert (0 <= u0 * v1 <= (2 ^ 32 - 1) * (2 ^ 32 - 1)) as HC by nia.
    assert (0 <= u1 * v1 <= (2 ^ 32 - 1) * (2 ^ 32 - 1)) as HD by nia.
    assert (x * y = u1 * v1 * 2 ^ 64 + (u1 * v0 + u0 * v1) * 2 ^ 32 + u0 * v0) as Exy by (rewrite Dx, Dy; ring).
    rewrite Exy in *. clear Dx Dy Exy Hx Hy.
    set (A := u0 * v0) in *. set (B := u1 * v0) in *. set (C := u0 * v1) in *. set (D := u1 * v1) in *.
    clearbody A B C D. rewrite (wrap_small 64 A), (wrap_small 64 B), (wrap_small 64 C), (wrap_small 64 D) by (unfold fits; lia).
    set (k := A / 2 ^ 32). assert (0 <= k < 2 ^ 32) by (unfold k; Z.div_mod_to_equations; lia).
    rewrite (wrap_small 64 (B + k)) by (unfold fits; lia).
    set (w1 := (B + k) mod 2 ^ 32). set (w2 := (B + k) / 2 ^ 32).
    assert (0 <= w1 < 2 ^ 32) by (unfold w1; Z.div_mod_to_equations; lia).
    rewrite (wrap_small 64 (C + w1)) by (unfold fits; lia).
    assert (D + w2 + (C + w1) / 2 ^ 32 = (D * 2 ^ 64 + (B + C) * 2 ^ 32 + A) / 2 ^ 64) as E.
    { unfold w2, w1, k. clear. Z.div_mod_to_equations. lia. }
    rewrite <- E in *.
    assert (0 <= w2) by (apply Z.div_pos; lia). assert (0 <= (C + w1) / 2 ^ 32) by (apply Z.div_pos; lia).
    rewrite (wrap_small 64 (D + w2)), wrap_small by (unfold fits; lia). done.
Qed.

(** ** The theorem *)

(** C39. For every divisor and every dividend of 32 bits, and for every divisor and
    every dividend of 64 bits, with a type of 128 bits or without, the
    multiplication with the constants of the divisor is the division, although the
    exact multiplier needs one bit more than the width. *)
Theorem reciprocal_divides :
  (forall a d R, fits 32 a -> 0 < d < 2 ^ 32 -> reciprocal_of 32 d R -> rte_reciprocal_divide a R = a / d)
  /\ (forall int128 a d R, fits 64 a -> 0 < d < 2 ^ 64 -> reciprocal_of 64 d R ->
        rte_reciprocal_divide_u64 int128 a R = a / d).
Proof.
  split.
  - intros a d R Ha Hd HR. destruct (divide_core 32 ltac:(lia) d R a ltac:(lia) HR Ha) as [Ht E].
    unfold rte_reciprocal_divide. pose proof (multiplier_fits 32 d R ltac:(lia) ltac:(lia) HR) as Fm. unfold fits in *.
    assert (0 <= a * m R <= (2 ^ 32 - 1) * (2 ^ 32 - 1)) by nia.
    rewrite (wrap_small 64 (a * m R)), (Z.shiftr_div_pow2 (a * m R)) by (unfold fits; lia).
    rewrite (wrap_small 32 (a * m R / 2 ^ 32)) by (unfold fits; lia). exact E.
  - intros int128 a d R Ha Hd HR. destruct (divide_core 64 ltac:(lia) d R a ltac:(lia) HR Ha) as [_ E].
    unfold rte_reciprocal_divide_u64. rewrite mullhi_ok; [exact E|done|].
    apply (multiplier_fits 64 d R); [lia|lia|done].
Qed.

(** The constants of 7, which needs the additional bit. *)
Lemma reciprocal_divides_witness :
  rte_reciprocal_divide 4294967295 (mk_reciprocal 0x24924925 1 2) = 4294967295 / 7.
Proof. apply (proj1 reciprocal_divides 4294967295 7); [unfold fits; lia|lia|by vm_compute]. Defined.
