(* ===== verification/Sched.v ===== *)
(** * Arithmetic of the scheduler and time counters
    ([include/rte_sched_common.h], [include/rte_time.h]).

    The place of the least of four numbers, the greatest common divisor and the
    least common multiple; the nanoseconds of a free-running counter of cycles. *)
From stdpp Require Import prelude list numbers.
From S2P Require Import Prelude.
Open Scope Z_scope.

(** ** [rte_sched_common.h] *)

Definition rte_min_pos_4_u16 (x : list Z) : option Z :=
  x0 ← aget x 0 ; x1 ← aget x 1 ; x2 ← aget x 2 ; x3 ← aget x 3 ;
  let pos0 := if x1 <=? x0 then 1 else 0 in
  let pos1 := if x3 <=? x2 then 3 else 2 in
  a ← aget x pos1 ; b ← aget x pos0 ;
  Some (if a <=? b then pos1 else pos0).

(** [while (b != 0)]: the state is [a] and [b]. *)
Definition gcd_loop (fuel : nat) (a b : Z) : option (Z * Z) :=
  while fuel (fun '(_, b) => negb (b =? 0)) (fun '(a, b) => let c := a mod b in Some (b, c)) (a, b).

(** A remainder loses a bit in two rounds. *)
Definition gcd_fuel : nat := 130.

Definition rte_get_gcd64 (a b : Z) : option Z :=
  if a =? 0 then Some b
  else if b =? 0 then Some a
  else
    let '(a, b) := if a <? b then (b, a) else (a, b) in
    '(a, _) ← gcd_loop gcd_fuel a b ;
    Some a.

Definition rte_get_gcd (a b : Z) : option Z := g ← rte_get_gcd64 a b ; Some (u32 g).

(** A division by zero is undefined. *)
Definition rte_get_lcd (a b : Z) : option Z :=
  g ← rte_get_gcd a b ;
  if g =? 0 then None else Some (u32 (a * b) / g).

(** ** [rte_time.h] *)

Definition NSEC_PER_SEC : Z := 1000000000.

Record rte_timecounter := mk_timecounter {
  cycle_last : Z;
  nsec : Z;
  nsec_mask : Z;
  nsec_frac : Z;
  cc_mask : Z;
  cc_shift : Z
}.

Definition set_nsec_frac (x : Z) (tc : rte_timecounter) : rte_timecounter :=
  mk_timecounter (cycle_last tc) (nsec tc) (nsec_mask tc) x (cc_mask tc) (cc_shift tc).
Definition set_cycle_last (x : Z) (tc : rte_timecounter) : rte_timecounter :=
  mk_timecounter x (nsec tc) (nsec_mask tc) (nsec_frac tc) (cc_mask tc) (cc_shift tc).
Definition set_nsec (x : Z) (tc : rte_timecounter) : rte_timecounter :=
  mk_timecounter (cycle_last tc) x (nsec_mask tc) (nsec_frac tc) (cc_mask tc) (cc_shift tc).

Definition rte_cyclecounter_cycles_to_ns (tc : rte_timecounter) (cycles : Z) : Z * rte_timecounter :=
  (* Add fractional nanoseconds. *)
  let ns := u64 (cycles + nsec_frac tc) in
  let tc := set_nsec_frac (Z.land ns (nsec_mask tc)) tc in
  (* Shift to get only nanoseconds. *)
  (Z.shiftr ns (cc_shift tc), tc).

Definition rte_timecounter_update (tc : rte_timecounter) (cycle_now : Z) : Z * rte_timecounter :=
  (* Calculate the delta since the last call. *)
  let cycle_delta :=
    if cycle_last tc <=? cycle_now then Z.land (u64 (cycle_now - cycle_last tc)) (cc_mask tc)
    else u64 (Z.land (u64 (Z.lnot (cycle_last tc - cycle_now))) (cc_mask tc) + 1) in
  (* Convert to nanoseconds. *)
  let '(ns_offset, tc) := rte_cyclecounter_cycles_to_ns tc cycle_delta in
  (* Store current cycle counter for next call. *)
  let tc := set_cycle_last cycle_now tc in
  (* Update the nanosecond count. *)
  let tc := set_nsec (u64 (nsec tc + ns_offset)) tc in
  (nsec tc, tc).

(** The seconds and the nanoseconds of a [struct timespec], signed 64-bit. *)
Definition rte_timespec_to_ns (ts : Z * Z) : Z :=
  let '(tv_sec, tv_nsec) := ts in u64 (u64 (u64 tv_sec * NSEC_PER_SEC) + u64 tv_nsec).

Definition rte_ns_to_timespec (nsec : Z) : Z * Z :=
  if nsec =? 0 then (0, 0) else (i64 (nsec / NSEC_PER_SEC), i64 (nsec mod NSEC_PER_SEC)).

(** * Lemmas *)

(** ** The least of four *)

Theorem min_pos_4_ok (a b c d : Z) :
  exists p, rte_min_pos_4_u16 [a; b; c; d] = Some p /\ 0 <= p < 4
    /\ forall i x, [a; b; c; d] !! i = Some x -> exists y, aget [a; b; c; d] p = Some y /\ y <= x.
Proof.
  set (l := [a; b; c; d]). unfold rte_min_pos_4_u16.
  assert (aget l 0 = Some a /\ aget l 1 = Some b /\ aget l 2 = Some c /\ aget l 3 = Some d) as (A & B & C & D) by done.
  rewrite A, B, C, D. cbn [mbind option_bind].
  destruct (Z.leb_spec b a), (Z.leb_spec d c); rewrite ?A, ?B, ?C, ?D; cbn [mbind option_bind];
    case_match eqn:E; (eexists; split; [reflexivity|]); (split; [lia|]); intros [|[|[|[|i]]]] x Hx; simpl in Hx; simplify_eq;
    rewrite ?A, ?B, ?C, ?D; (eexists; split; [reflexivity|lia]).
Qed.

(** ** Euclid's algorithm *)

(** Each round takes a bit of the two numbers. *)
Lemma gcd_loop_ok fuel : forall a b,
  0 <= b <= a -> 0 < a -> (b = 0 /\ (1 <= fuel)%nat) \/ (0 < b /\ Z.log2 a + Z.log2 b + 2 <= Z.of_nat fuel) ->
  gcd_loop fuel a b = Some (Z.gcd a b, 0).
Proof.
  induction fuel as [|fuel IH]; intros a b Hb Ha Hf.
  { pose proof (Z.log2_nonneg a). pose proof (Z.log2_nonneg b). lia. }
  unfold gcd_loop. cbn [while]. destruct (Z.eqb_spec b 0) as [->|Hb0]; cbn [negb].
  { by rewrite Z.gcd_0_r, Z.abs_eq by lia. }
  fold (gcd_loop fuel b (a mod b)). pose proof (Z.mod_pos_bound a b ltac:(lia)) as Hm.
  rewrite IH; [by rewrite (Z.gcd_comm b), Z.gcd_mod, Z.gcd_comm by lia|lia|lia|].
  pose proof (Z.log2_nonneg a). pose proof (Z.log2_nonneg b).
  destruct (decide (a mod b = 0)); [left; lia|right]. split; [lia|].
  assert (2 * (a mod b) <= a).
  { pose proof (Z.div_mod a b ltac:(lia)). assert (1 <= a / b) by (apply Z.div_le_lower_bound; lia). nia. }
  assert (Z.log2 (a mod b) + 1 <= Z.log2 a); [|lia].
  rewrite Z.add_1_r, <- Z.log2_double by lia. by apply Z.log2_le_mono.
Qed.

Lemma log2_fits w x : 0 < w -> fits w x -> Z.log2 x < w.
Proof.
  intros Hw Hx. unfold fits in Hx. destruct (decide (x = 0)) as [->|]; [done|]. apply Z.log2_lt_pow2; lia.
Qed.

Lemma gcd64_ok a b : fits 64 a -> fits 64 b -> rte_get_gcd64 a b = Some (Z.gcd a b).
Proof.
  intros Ha Hb. unfold rte_get_gcd64. pose proof (log2_fits 64 a ltac:(lia) Ha). pose proof (log2_fits 64 b ltac:(lia) Hb).
  unfold fits in *. destruct (Z.eqb_spec a 0) as [->|]; [by rewrite Z.gcd_0_l, Z.abs_eq by lia|].
  destruct (Z.eqb_spec b 0) as [->|]; [by rewrite Z.gcd_0_r, Z.abs_eq by lia|].
  unfold gcd_fuel. destruct (Z.ltb_spec a b).
  - rewrite gcd_loop_ok by lia. cbn [mbind option_bind]. by rewrite Z.gcd_comm.
  - by rewrite gcd_loop_ok by lia.
Qed.

(** The loops end, the greatest common divisor is exact for all 64-bit and 32-bit
    numbers, and the least common multiple is, as long as the product of the two
    numbers has 32 bits. *)
Theorem gcd_lcd_ok (a b : Z) :
  (fits 64 a -> fits 64 b -> rte_get_gcd64 a b = Some (Z.gcd a b))
  /\ (fits 32 a -> fits 32 b -> rte_get_gcd a b = Some (Z.gcd a b))
  /\ (fits 32 a -> fits 32 b -> a * b < 2 ^ 32 -> a <> 0 \/ b <> 0 -> rte_get_lcd a b = Some (Z.lcm a b)).
Proof.
  split; [apply gcd64_ok|].
  assert (forall x, fits 32 x -> fits 64 x) as F by (unfold fits; lia).
  assert (fits 32 a -> fits 32 b -> rte_get_gcd a b = Some (Z.gcd a b)) as G.
  { intros Ha Hb. unfold rte_get_gcd. rewrite gcd64_ok by auto. cbn [mbind option_bind]. f_equal. apply wrap_small.
    unfold fits in *. pose proof (Z.gcd_nonneg a b).
    destruct (decide (a = 0)) as [->|]; [rewrite Z.gcd_0_l; lia|].
    pose proof (Z.divide_pos_le (Z.gcd a b) a ltac:(lia) (Z.gcd_divide_l a b)). lia. }
  split; [done|]. intros Ha Hb Hp Hn. unfold rte_get_lcd. rewrite G by done. cbn [mbind option_bind].
  assert (Z.gcd a b <> 0) as Hg by (intros E; apply Z.gcd_eq_0 in E; lia).
  rewrite (proj2 (Z.eqb_neq _ _) Hg). f_equal. unfold fits in *. rewrite wrap_small by (unfold fits; nia).
  unfold Z.lcm. rewrite Z.abs_eq by (apply Z.mul_nonneg_nonneg; [lia|]; apply Z.div_pos; pose proof (Z.gcd_nonneg a b); lia).
  apply Z.divide_div_mul_exact; [done|]. apply Z.gcd_divide_r.
Qed.

(** A product of more than 32 bits is cut before the division. *)
Theorem lcd_overflows : rte_get_lcd 65536 65536 = Some 0 /\ Z.lcm 65536 65536 = 65536.
Proof. by vm_compute. Qed.

(** ** Time *)

(** A counter of [n] bits whose cycles are [2^-cc_shift] nanoseconds. *)
Record tc_ok (n : Z) (tc : rte_timecounter) : Prop := {
  tc_n : 0 < n <= 64;
  tc_cc : cc_mask tc = 2 ^ n - 1;
  tc_shift : 0 <= cc_shift tc < 64;
  tc_ns : nsec_mask tc = 2 ^ cc_shift tc - 1;
  tc_frac : 0 <= nsec_frac tc < 2 ^ cc_shift tc
}.

(** The cycles since the last reading, for a counter that may have started again
    from zero once. *)
Lemma delta_ok n c0 c :
  0 < n <= 64 -> 0 <= c0 <= c -> c < c0 + 2 ^ n ->
  (if c0 mod 2 ^ n <=? c mod 2 ^ n then Z.land (u64 (c mod 2 ^ n - c0 mod 2 ^ n)) (2 ^ n - 1)
   else u64 (Z.land (u64 (Z.lnot (c0 mod 2 ^ n - c mod 2 ^ n))) (2 ^ n - 1) + 1)) = c - c0.
Proof.
  intros Hn Hc Hlt. set (N := 2 ^ n) in *.
  assert (0 < N <= 2 ^ 64) as HN by (unfold N; split; [apply Z.pow_pos_nonneg|apply Z.pow_le_mono_r]; lia).
  rewrite !(land_mask _ n) by lia. fold N.
  pose proof (Z.mod_pos_bound c0 N ltac:(lia)). pose proof (Z.mod_pos_bound c N ltac:(lia)).
  pose proof (Z.div_mod c0 N ltac:(lia)) as D0. pose proof (Z.div_mod c N ltac:(lia)) as D1.
  assert (forall x, u64 x mod N = x mod N) as Hu.
  { intros x. unfold wrap. apply Z.mod_mod_divide. exists (2 ^ (64 - n)). unfold N. rewrite <- Z.pow_add_r by lia. f_equal. lia. }
  rewrite !Hu. set (r0 := c0 mod N) in *. set (r := c mod N) in *. set (q0 := c0 / N) in *. set (q := c / N) in *.
  clearbody r0 r q0 q. destruct (Z.leb_spec r0 r).
  - rewrite Z.mod_small by lia. assert (q = q0) by nia. nia.
  - assert (q = q0 + 1) by nia. replace (Z.lnot (r0 - r)) with (N - 1 - (r0 - r) + (-1) * N) by (unfold Z.lnot; lia).
    rewrite Z.mod_add, Z.mod_small by lia. rewrite wrap_small by (unfold fits; lia). nia.
Qed.

Lemma update_ok n tc c0 c :
  tc_ok n tc -> 0 <= c0 <= c -> c < c0 + 2 ^ n -> cycle_last tc = c0 mod 2 ^ n -> c - c0 + nsec_frac tc < 2 ^ 64 ->
  exists tc', rte_timecounter_update tc (c mod 2 ^ n) = (nsec tc', tc') /\ tc_ok n tc'
    /\ cycle_last tc' = c mod 2 ^ n /\ cc_shift tc' = cc_shift tc
    /\ nsec tc' = u64 (nsec tc + (nsec_frac tc + (c - c0)) / 2 ^ cc_shift tc)
    /\ nsec_frac tc' = (nsec_frac tc + (c - c0)) mod 2 ^ cc_shift tc.
Proof.
  intros [T1 T2 T3 T4 T5] Hc Hlt Hl Hf. eexists. split; [reflexivity|].
  cbn [cycle_last nsec nsec_frac cc_mask cc_shift nsec_mask set_cycle_last set_nsec set_nsec_frac].
  rewrite Hl, T2, (delta_ok n c0 c) by done. rewrite (wrap_small 64 (c - c0 + nsec_frac tc)) by (unfold fits; lia).
  rewrite T4, land_mask, Z.shiftr_div_pow2, (Z.add_comm (c - c0)) by lia.
  split; [|done]. split; cbn [cycle_last nsec nsec_frac cc_mask cc_shift nsec_mask set_cycle_last set_nsec set_nsec_frac]; try done.
  apply Z.mod_pos_bound. apply Z.pow_pos_nonneg; lia.
Qed.

(** The readings of a counter at the true times [cs]. *)
Fixpoint readings (n : Z) (cs : list Z) (tc : rte_timecounter) : rte_timecounter :=
  match cs with
  | [] => tc
  | c :: cs => readings n cs (snd (rte_timecounter_update tc (c mod 2 ^ n)))
  end.

(** Times that go on, each within one period of the one before it. *)
Fixpoint within_period (n c0 : Z) (cs : list Z) (shift : Z) : Prop :=
  match cs with
  | [] => True
  | c :: cs => c0 <= c < c0 + 2 ^ n /\ c - c0 + 2 ^ shift <= 2 ^ 64 /\ within_period n c cs shift
  end.

(** However often a free-running counter of any width is read, and however
    often it starts again from zero, as long as it is read once in every period:
    the nanoseconds are those of the whole time that went by, and the fraction
    that is kept is what the division leaves, so nothing is lost between the
    readings. *)
Theorem timecounter_exact (n : Z) (cs : list Z) (tc : rte_timecounter) (c0 : Z) :
  tc_ok n tc -> 0 <= c0 -> cycle_last tc = c0 mod 2 ^ n -> fits 64 (nsec tc) ->
  within_period n c0 cs (cc_shift tc) ->
  let tc' := readings n cs tc in
  let passed := nsec_frac tc + (List.last cs c0 - c0) in
  nsec tc' = u64 (nsec tc + passed / 2 ^ cc_shift tc) /\ nsec_frac tc' = passed mod 2 ^ cc_shift tc.
Proof.
  revert tc c0. induction cs as [|c cs IH]; intros tc c0 T H0 Hl Hs Hw; cbn [readings].
  - cbn [List.last]. cbv zeta. rewrite Z.sub_diag, Z.add_0_r. destruct T as [_ _ T3 _ T5].
    rewrite Z.div_small, Z.mod_small, Z.add_0_r by lia. by rewrite wrap_small.
  - destruct Hw as (Hc & H64 & Hw). pose proof (tc_frac _ _ T) as Tf. pose proof (tc_shift _ _ T) as Ts.
    destruct (update_ok n tc c0 c T ltac:(lia) ltac:(lia) Hl ltac:(lia)) as (tc1 & E & T1 & L1 & S1 & N1 & F1).
    rewrite E. cbn [snd]. assert (fits 64 (nsec tc1)) as F64 by (rewrite N1; by apply wrap_fits).
    rewrite <- S1 in Hw. destruct (IH tc1 c T1 ltac:(lia) L1 F64 Hw) as [IN IF].
    assert (List.last (c :: cs) c0 = List.last cs c) as ->.
    { destruct cs as [|d cs]; [done|]. change (List.last (c :: d :: cs) c0) with (List.last (d :: cs) c0).
      clear. revert d. induction cs as [|e cs IH]; intros d; [done|]. exact (IH e). }
    cbv zeta in IN, IF |- *. rewrite S1, F1 in IN, IF. set (e := List.last cs c) in *.
    assert (0 < 2 ^ cc_shift tc) by (apply Z.pow_pos_nonneg; lia). set (p := 2 ^ cc_shift tc) in *.
    set (x := nsec_frac tc + (c - c0)) in *.
    assert (nsec_frac tc + (e - c0) = x mod p + (e - c) + x / p * p) as ->
      by (pose proof (Z.div_mod x p ltac:(lia)); assert (x = nsec_frac tc + (c - c0)) by done; lia).
    rewrite Z.div_add, Z.mod_add by lia. split; [|exact IF]. rewrite IN, N1, wrap_add_l. f_equal. lia.
Qed.

(** A counter of 16 bits with four cycles to a nanosecond, read four times while it
    starts again from zero twice. *)
Lemma timecounter_exact_witness :
  let tc' := readings 16 [40000; 70000; 120000; 150001] (mk_timecounter 100 7 3 2 65535 2) in
  let passed := 2 + (150001 - 100) in
  nsec tc' = u64 (7 + passed / 2 ^ 2) /\ nsec_frac tc' = passed mod 2 ^ 2.
Proof.
  apply (timecounter_exact 16 [40000; 70000; 120000; 150001] (mk_timecounter 100 7 3 2 65535 2) 100).
  - split; cbn; lia.
  - lia.
  - done.
  - unfold fits. cbn. lia.
  - cbn. lia.
Defined.

(** From nanoseconds to a [struct timespec] and back. *)
Theorem timespec_roundtrip (ns : Z) : fits 64 ns -> rte_timespec_to_ns (rte_ns_to_timespec ns) = ns.
Proof.
  intros Hn. unfold fits in Hn. unfold rte_ns_to_timespec. destruct (Z.eqb_spec ns 0) as [->|]; [done|].
  unfold NSEC_PER_SEC, rte_timespec_to_ns.
  pose proof (Z.div_mod ns 1000000000 ltac:(lia)). pose proof (Z.mod_pos_bound ns 1000000000 ltac:(lia)).
  assert (0 <= ns / 1000000000 < 2 ^ 63) by (split; [apply Z.div_pos; lia|apply Z.div_lt_upper_bound; lia]).
  rewrite !swrap_small by lia. rewrite (wrap_small 64 (ns / 1000000000)), (wrap_small 64 (ns mod 1000000000)) by (unfold fits; lia).
  unfold NSEC_PER_SEC. rewrite (wrap_small 64 (_ * _)), wrap_small by (unfold fits; lia). lia.
Qed.
