(* ===== verification/AvpFifo.v ===== *)
(** * A queue with one writer and one reader ([include/rte_avp_fifo.h]).

    The writer and the reader run at the same time, one access to the shared
    structure at a time; each keeps its own copies of the two indexes while it
    works.  The memory is sequentially consistent, which is what the barriers
    before the last store of each side are for. *)
From stdpp Require Import prelude list numbers.
From S2P Require Import Prelude Bits.
Open Scope Z_scope.

(** ** Data *)

(** [elem_size] is not used by the operations. *)
Record rte_avp_fifo := mk_fifo { f_write : Z; f_read : Z; f_len : Z; buffer : list Z }.

Definition set_write (x : Z) (f : rte_avp_fifo) : rte_avp_fifo := mk_fifo x (f_read f) (f_len f) (buffer f).
Definition set_read (x : Z) (f : rte_avp_fifo) : rte_avp_fifo := mk_fifo (f_write f) x (f_len f) (buffer f).
Definition set_buffer (l : list Z) (f : rte_avp_fifo) : rte_avp_fifo := mk_fifo (f_write f) (f_read f) (f_len f) l.

(** A size that is no power of two panics. *)
Definition avp_fifo_init (f : rte_avp_fifo) (size : Z) : option rte_avp_fifo :=
  if truthy (Z.land size (u32 (size - 1))) then None else Some (mk_fifo 0 0 size (buffer f)).

(** ** The writer *)

(** In [avp_fifo_put]: the local [fifo_write] is read, then [fifo_read]; the loop
    at [i]; the store of [write]; the call has returned [i].  The last argument is
    auxiliary: how many elements had been released when [read] was read. *)
Inductive put_pc :=
  | PutIdle
  | PutCalled (data : list Z) (num : nat)
  | PutReadRead (data : list Z) (num : nat) (w : Z)
  | PutLoop (data : list Z) (num : nat) (w r : Z) (i g : nat)
  | PutPublish (data : list Z) (num : nat) (w : Z) (i g : nat)
  | PutDone (data : list Z) (num i g : nat).

(** The next point, the structure, and the element that was stored. *)
Definition avp_fifo_put (g0 : nat) (p : put_pc) (f : rte_avp_fifo) : option (put_pc * rte_avp_fifo * list Z) :=
  match p with
  | PutIdle | PutDone _ _ _ _ => None
  | PutCalled data num => Some (PutReadRead data num (f_write f), f, [])
  | PutReadRead data num w => Some (PutLoop data num w (f_read f) 0 g0, f, [])
  | PutLoop data num w r i g =>
      if (i <? num)%nat then
        let new_write := Z.land (u32 (w + 1)) (u32 (f_len f - 1)) in
        if new_write =? r then Some (PutPublish data num w i g, f, [])
        else
          x ← data !! i ;
          b ← aset (buffer f) w x ;
          Some (PutLoop data num new_write r (Datatypes.S i) g, set_buffer b f, [x])
      else Some (PutPublish data num w i g, f, [])
  | PutPublish data num w i g => Some (PutDone data num i g, set_write w f, [])
  end.

(** ** The reader *)

Inductive get_pc :=
  | GetIdle
  | GetCalled (num : nat)
  | GetReadWrite (num : nat) (r : Z)
  | GetLoop (num : nat) (r w : Z) (out : list Z) (g : nat)
  | GetPublish (num : nat) (r : Z) (out : list Z) (g : nat)
  | GetDone (num : nat) (out : list Z) (g : nat).

(** [out] holds the elements put in [data]; [g0] is auxiliary: how many elements
    have been published. *)
Definition avp_fifo_get (g0 : nat) (p : get_pc) (f : rte_avp_fifo) : option (get_pc * rte_avp_fifo * list Z) :=
  match p with
  | GetIdle | GetDone _ _ _ => None
  | GetCalled num => Some (GetReadWrite num (f_read f), f, [])
  | GetReadWrite num r =>
      let w := f_write f in
      Some (if r =? w then GetDone num [] g0 else GetLoop num r w [] g0, f, [])
  | GetLoop num r w out g =>
      if (length out <? num)%nat then
        if r =? w then Some (GetPublish num r out g, f, [])
        else
          x ← aget (buffer f) r ;
          let new_read := Z.land (u32 (r + 1)) (u32 (f_len f - 1)) in
          Some (GetLoop num new_read w (out ++ [x]) g, f, [x])
      else Some (GetPublish num r out g, f, [])
  | GetPublish num r out g => Some (GetDone num out g, set_read r f, [])
  end.

(** ** Counts *)

Definition avp_fifo_count (f : rte_avp_fifo) : Z :=
  Z.land (u32 (u32 (f_len f + f_write f) - f_read f)) (u32 (f_len f - 1)).

Definition avp_fifo_free_count (f : rte_avp_fifo) : Z :=
  Z.land (u32 (u32 (f_read f - f_write f) - 1)) (u32 (f_len f - 1)).

(** ** Both at work, with their history: the elements stored and taken so far, and
    how many of them the other side may know of. *)
Record conf := mk_conf {
  fifo : rte_avp_fifo;
  putter : put_pc;
  getter : get_pc;
  stored : list Z;
  taken : list Z;
  published : nat;
  released : nat
}.

Inductive act := CallPut (data : list Z) (num : nat) | StepPut | CallGet (num : nat) | StepGet.

Definition put_free (p : put_pc) : bool := match p with PutIdle | PutDone _ _ _ _ => true | _ => false end.
Definition get_free (p : get_pc) : bool := match p with GetIdle | GetDone _ _ _ => true | _ => false end.

(** What the callers may do. *)
Definition allowed (a : act) (c : conf) : bool :=
  match a with
  | CallPut data num => put_free (putter c) && (num <=? length data)%nat && (Z.of_nat num <? 2 ^ 32)
  | StepPut => negb (put_free (putter c))
  | CallGet num => get_free (getter c) && (Z.of_nat num <? 2 ^ 32)
  | StepGet => negb (get_free (getter c))
  end.

Definition step (a : act) (c : conf) : option conf :=
  match a with
  | CallPut data num =>
      Some (mk_conf (fifo c) (PutCalled data num) (getter c) (stored c) (taken c) (published c) (released c))
  | CallGet num =>
      Some (mk_conf (fifo c) (putter c) (GetCalled num) (stored c) (taken c) (published c) (released c))
  | StepPut =>
      '(p, f, xs) ← avp_fifo_put (released c) (putter c) (fifo c) ;
      Some (mk_conf f p (getter c) (stored c ++ xs) (taken c)
              (match putter c with PutPublish _ _ _ _ _ => length (stored c) | _ => published c end) (released c))
  | StepGet =>
      '(p, f, xs) ← avp_fifo_get (published c) (getter c) (fifo c) ;
      Some (mk_conf f (putter c) p (stored c) (taken c ++ xs) (published c)
              (match getter c with GetPublish _ _ _ _ => length (taken c) | _ => released c end))
  end.

Fixpoint run (acts : list act) (c : conf) : option conf :=
  match acts with
  | [] => Some c
  | a :: acts => if allowed a c then c ← step a c ; run acts c else None
  end.

Definition start (f : rte_avp_fifo) : conf := mk_conf f PutIdle GetIdle [] [] 0 0.

(** ** The invariant *)

Lemma init_pow2 f size f' :
  0 < size < 2 ^ 32 -> avp_fifo_init f size = Some f' ->
  exists k, 0 <= k <= 31 /\ size = 2 ^ k /\ f' = mk_fifo 0 0 (2 ^ k) (buffer f).
Proof.
  unfold avp_fifo_init, truthy. intros Hs. rewrite wrap_small by (unfold fits; lia).
  destruct (Z.land _ _ =? 0) eqn:E; [|done]. intros [= <-].
  apply Z.eqb_eq, pow2_test in E; [|lia]. exists (Z.log2 size). rewrite <- E.
  split; [|done]. split; [apply Z.log2_nonneg|].
  enough (Z.log2 size < 32) by lia. apply Z.log2_lt_pow2; lia.
Qed.

Section Invariant.
Context (k : Z) (Hk : 0 <= k <= 31).
Implicit Types (c : conf) (f : rte_avp_fifo).

(** The position of the element with the given number. *)
Definition slot (n : nat) : Z := Z.of_nat n mod 2 ^ k.

Lemma len_range : 1 <= 2 ^ k <= 2 ^ 31.
Proof. split; [apply (Z.pow_le_mono_r 2 0); lia|apply Z.pow_le_mono_r; lia]. Qed.

Lemma slot_range n : 0 <= slot n < 2 ^ k.
Proof. pose proof len_range. apply Z.mod_pos_bound. lia. Qed.

Lemma slot_next n : Z.land (u32 (slot n + 1)) (u32 (2 ^ k - 1)) = slot (S n).
Proof.
  pose proof len_range. pose proof (slot_range n).
  rewrite !wrap_small by (unfold fits; lia). rewrite land_mask by lia.
  unfold slot. rewrite Z.add_mod_idemp_l by lia. f_equal. lia.
Qed.

(** Numbers less than a length apart have different positions. *)
Lemma slot_eq m n : (m <= n)%nat -> Z.of_nat n - Z.of_nat m <= 2 ^ k ->
  (slot n = slot m <-> n = m \/ Z.of_nat n - Z.of_nat m = 2 ^ k).
Proof.
  pose proof len_range. intros ? ?. unfold slot. split.
  - intros E. pose proof (Z.div_mod (Z.of_nat n) (2 ^ k) ltac:(lia)).
    pose proof (Z.div_mod (Z.of_nat m) (2 ^ k) ltac:(lia)).
    set (q := Z.of_nat n / 2 ^ k) in *. set (q' := Z.of_nat m / 2 ^ k) in *.
    assert (0 <= q - q' <= 1) by nia. assert (q = q' \/ q = q' + 1) as [->| ->] by lia; lia.
  - intros [->|E]; [done|]. replace (Z.of_nat n) with (Z.of_nat m + 1 * 2 ^ k) by lia.
    by rewrite Z_mod_plus_full.
Qed.

(** What the writer knows at each point. *)
Definition put_inv (p : put_pc) (st : list Z) (pub rel : nat) : Prop :=
  let n := length st in
  match p with
  | PutIdle => pub = n
  | PutCalled data num => pub = n /\ (num <= length data)%nat
  | PutReadRead data num w => pub = n /\ (num <= length data)%nat /\ w = slot n
  | PutLoop data num w r i g =>
      (i <= num <= length data)%nat /\ w = slot n /\ r = slot g
      /\ (g <= rel)%nat /\ Z.of_nat n <= Z.of_nat g + 2 ^ k - 1 /\ st = take pub st ++ take i data
  | PutPublish data num w i g =>
      (i <= num <= length data)%nat /\ w = slot n
      /\ ((i < num)%nat -> Z.of_nat n = Z.of_nat g + 2 ^ k - 1) /\ st = take pub st ++ take i data
  | PutDone data num i g =>
      pub = n /\ (i <= num <= length data)%nat
      /\ ((i < num)%nat -> Z.of_nat n = Z.of_nat g + 2 ^ k - 1) /\ take i data `suffix_of` st
  end.

(** What the reader knows. *)
Definition get_inv (p : get_pc) (ta : list Z) (pub rel : nat) : Prop :=
  let n := length ta in
  match p with
  | GetIdle | GetCalled _ => rel = n
  | GetReadWrite num r => rel = n /\ r = slot n
  | GetLoop num r w out g =>
      (length out <= num)%nat /\ r = slot n /\ w = slot g /\ (n <= g <= pub)%nat /\ ta = take rel ta ++ out
  | GetPublish num r out g =>
      (length out <= num)%nat /\ r = slot n /\ (length out < num -> n = g)%nat /\ ta = take rel ta ++ out
  | GetDone num out g =>
      rel = n /\ (length out <= num)%nat /\ (length out < num -> n = g)%nat /\ out `suffix_of` ta
  end.

Record inv c : Prop := {
  inv_fifo : exists b, fifo c = mk_fifo (slot (published c)) (slot (released c)) (2 ^ k) b
    /\ Z.of_nat (length b) = 2 ^ k
    /\ forall i, (released c <= i < length (stored c))%nat -> aget b (slot i) = stored c !! i;
  inv_order : (released c <= length (taken c) <= published c)%nat /\ (published c <= length (stored c))%nat
    /\ Z.of_nat (length (stored c)) <= Z.of_nat (released c) + 2 ^ k - 1;
  inv_prefix : taken c `prefix_of` stored c;
  inv_put : put_inv (putter c) (stored c) (published c) (released c);
  inv_get : get_inv (getter c) (taken c) (published c) (released c)
}.

Lemma put_inv_mono p st pub rel rel' :
  (rel <= rel')%nat -> put_inv p st pub rel -> put_inv p st pub rel'.
Proof. destruct p; simpl; intuition lia. Qed.

Lemma get_inv_mono p ta pub pub' rel :
  (pub <= pub')%nat -> get_inv p ta pub rel -> get_inv p ta pub' rel.
Proof. destruct p; simpl; intuition lia. Qed.

(** One element more is stored. *)
Lemma store_buffer b (st : list Z) rel x :
  Z.of_nat (length b) = 2 ^ k -> (rel <= length st)%nat ->
  Z.of_nat (length st) < Z.of_nat rel + 2 ^ k - 1 ->
  (forall i, (rel <= i < length st)%nat -> aget b (slot i) = st !! i) ->
  exists b', aset b (slot (length st)) x = Some b' /\ Z.of_nat (length b') = 2 ^ k
    /\ forall i, (rel <= i < length (st ++ [x]))%nat -> aget b' (slot i) = (st ++ [x]) !! i.
Proof.
  intros Lb Hr Hn Hb. pose proof (slot_range (length st)) as R.
  assert (forall i, exists j, slot i = Z.of_nat j /\ (j < length b)%nat) as S.
  { intros i. pose proof (slot_range i). exists (Z.to_nat (slot i)). lia. }
  destruct (S (length st)) as (j & Ej & Hj).
  exists (<[j := x]> b). rewrite Ej. split; [by apply aset_nat|].
  rewrite length_insert, length_app. split; [done|]. simpl. intros i Hi.
  destruct (S i) as (j' & Ej' & Hj'). rewrite Ej', aget_nat.
  destruct (decide (i = length st)) as [->|].
  - assert (j' = j) as -> by lia. rewrite list_lookup_insert_eq by done.
    by rewrite lookup_app_r, Nat.sub_diag by lia.
  - rewrite list_lookup_insert_ne, lookup_app_l by
      (try lia; intros ->; destruct (slot_eq i (length st)) as [Q _]; lia).
    rewrite <- aget_nat, <- Ej'. apply Hb. lia.
Qed.

Lemma put_step_inv c :
  inv c -> put_free (putter c) = false -> exists c', step StepPut c = Some c' /\ inv c'.
Proof.
  destruct c as [f p gp st ta pub rel]. intros [(b & E & Lb & Hb) (Ho1 & Ho2 & Ho3) Hpre Hp Hg] Hf.
  simpl in *. subst f.
  destruct p as [|data num|data num w|data num w r i g|data num w i g|]; try discriminate Hf; simpl in *.
  - destruct Hp as [-> Hn]. eexists. split; [done|]. rewrite app_nil_r. split; simpl; eauto.
  - destruct Hp as (-> & Hn & ->). eexists. split; [done|]. rewrite app_nil_r. split; simpl; eauto.
    rewrite firstn_all, app_nil_r. split_and!; eauto; lia.
  - destruct Hp as (Hi & -> & -> & Hg' & Hroom & Hst). destruct (Nat.ltb_spec i num) as [L|L].
    2:{ eexists. split; [done|]. rewrite app_nil_r. split; simpl; eauto. split_and!; eauto; intros; lia. }
    rewrite slot_next. destruct (_ =? _) eqn:Efull.
    + eexists. split; [done|]. rewrite app_nil_r. split; simpl; eauto. split_and!; eauto; [lia..|].
      intros _. apply Z.eqb_eq, slot_eq in Efull; lia.
    + assert (Z.of_nat (length st) < Z.of_nat g + 2 ^ k - 1) as Hlt.
      { apply Z.eqb_neq in Efull. destruct (slot_eq g (S (length st))) as [_ Q]; [lia..|].
        destruct (decide (Z.of_nat (S (length st)) - Z.of_nat g = 2 ^ k)); [|lia]. destruct Efull. auto. }
      destruct (lookup_lt_is_Some_2 data i) as [x Ex]; [lia|]. rewrite Ex. cbn [mbind option_bind].
      destruct (store_buffer b st rel x) as (b' & Eb & Lb' & Hb'); [done|lia..|done|].
      rewrite Eb. eexists. split; [done|]. split; simpl.
      * exists b'. done.
      * rewrite length_app. simpl. lia.
      * by apply prefix_app_r.
      * rewrite length_app, take_app_le by lia. simpl. split_and!; [lia..|f_equal; lia|done|done|lia|].
        rewrite (take_S_r data i x Ex), app_assoc. by rewrite <- Hst.
      * done.
  - destruct Hp as (Hi & -> & Hfull & Hst). eexists. split; [done|]. rewrite app_nil_r. split; simpl.
    + exists b. done.
    + lia.
    + done.
    + split_and!; eauto; [lia..|]. by exists (take pub st).
    + eapply get_inv_mono; [|done]. lia.
Qed.

Lemma get_step_inv c :
  inv c -> get_free (getter c) = false -> exists c', step StepGet c = Some c' /\ inv c'.
Proof.
  destruct c as [f p gp st ta pub rel]. intros [(b & E & Lb & Hb) (Ho1 & Ho2 & Ho3) Hpre Hp Hg] Hf.
  simpl in *. subst f. assert (length ta <= length st)%nat by by apply prefix_length.
  destruct gp as [|num|num r|num r w out g|num r out g|]; try discriminate Hf; simpl in *.
  - subst rel. eexists. split; [done|]. rewrite app_nil_r. split; simpl; eauto.
  - destruct Hg as (-> & ->). eexists. split; [done|]. rewrite app_nil_r. split; simpl; eauto.
    destruct (_ =? _) eqn:Eempty; simpl.
    + split_and!; [done|lia| |apply suffix_nil]. intros _.
      apply Z.eqb_eq, eq_sym, slot_eq in Eempty; lia.
    + rewrite firstn_all, app_nil_r. split_and!; eauto; lia.
  - destruct Hg as (Ho & -> & -> & Hg' & Hta). destruct (Nat.ltb_spec (length out) num) as [L|L].
    2:{ eexists. split; [done|]. rewrite app_nil_r. split; simpl; eauto. split_and!; eauto; intros; lia. }
    destruct (_ =? _) eqn:Eempty.
    + eexists. split; [done|]. rewrite app_nil_r. split; simpl; eauto. split_and!; eauto.
      intros _. apply Z.eqb_eq, eq_sym, slot_eq in Eempty; lia.
    + assert (length ta < g)%nat.
      { apply Z.eqb_neq in Eempty. destruct (decide (length ta = g)) as [<-|]; [done|lia]. }
      destruct (lookup_lt_is_Some_2 st (length ta)) as [x Ex]; [lia|].
      rewrite Hb, Ex, slot_next by lia. cbn [mbind option_bind].
      eexists. split; [done|]. split; simpl.
      * exists b. done.
      * rewrite length_app. simpl. lia.
      * destruct Hpre as [l ->]. rewrite lookup_app_r, Nat.sub_diag in Ex by lia.
        destruct l as [|y l]; [done|]. injection Ex as ->. exists l. by rewrite <- app_assoc.
      * done.
      * rewrite !length_app, take_app_le by lia. simpl. split_and!; [lia|f_equal; lia|done|lia|lia|].
        rewrite app_assoc. by rewrite <- Hta.
  - destruct Hg as (Ho & -> & Hempty & Hta). eexists. split; [done|]. rewrite app_nil_r. split; simpl.
    + exists b. split_and!; [done|done|]. intros. apply Hb. lia.
    + lia.
    + done.
    + eapply put_inv_mono; [|done]. lia.
    + split_and!; eauto. by exists (take rel ta).
Qed.

Lemma step_inv a c : inv c -> allowed a c = true -> exists c', step a c = Some c' /\ inv c'.
Proof.
  destruct a as [data num| |num|]; simpl; intros I Ha.
  - apply andb_true_iff in Ha as [Ha _]. apply andb_true_iff in Ha as [Hf Hn]. apply Nat.leb_le in Hn.
    eexists. split; [done|]. destruct I as [? ? ? Hp ?]. split; simpl; eauto.
    split; [|done]. destruct (putter c); try discriminate Hf; simpl in Hp; tauto.
  - apply put_step_inv; [done|]. by apply negb_true_iff in Ha.
  - apply andb_true_iff in Ha as [Hf _]. eexists. split; [done|]. destruct I as [? ? ? ? Hg].
    split; simpl; eauto. destruct (getter c); try discriminate Hf; simpl in Hg; tauto.
  - apply get_step_inv; [done|]. by apply negb_true_iff in Ha.
Qed.

Lemma run_inv acts c c' : inv c -> run acts c = Some c' -> inv c'.
Proof.
  revert c. induction acts as [|a acts IH]; simpl; [by intros c ? [= ->]|].
  intros c I. destruct (allowed a c) eqn:Ha; [|done].
  destruct (step_inv a c I Ha) as (c1 & -> & I1). cbn [mbind option_bind]. by apply IH.
Qed.

Lemma start_inv b : Z.of_nat (length b) = 2 ^ k -> inv (start (mk_fifo 0 0 (2 ^ k) b)).
Proof.
  intros Lb. pose proof len_range. split; simpl; try done; try lia.
  exists b. split; [by unfold slot|]. split; [done|]. intros. lia.
Qed.

Lemma counts_ok c : inv c ->
  avp_fifo_count (fifo c) = Z.of_nat (published c) - Z.of_nat (released c)
  /\ avp_fifo_count (fifo c) + avp_fifo_free_count (fifo c) = 2 ^ k - 1.
Proof.
  intros [(b & E & _) (Ho1 & Ho2 & Ho3) _ _ _]. pose proof len_range. rewrite E.
  assert (forall z, Z.land (u32 z) (u32 (2 ^ k - 1)) = z mod 2 ^ k) as M.
  { intros z. rewrite (wrap_small 32 (2 ^ k - 1)) by (unfold fits; lia). rewrite land_mask by lia.
    unfold wrap. apply Z.mod_mod_divide.
    exists (2 ^ (32 - k)). rewrite <- Z.pow_add_r by lia. f_equal. lia. }
  unfold avp_fifo_count, avp_fifo_free_count. simpl. autorewrite with wrapdb. rewrite !M. unfold slot.
  replace (2 ^ k + Z.of_nat (published c) mod 2 ^ k - Z.of_nat (released c) mod 2 ^ k)
    with (Z.of_nat (published c) mod 2 ^ k - Z.of_nat (released c) mod 2 ^ k + 1 * 2 ^ k) by lia.
  rewrite Z_mod_plus_full, <- Zminus_mod, Z.mod_small by lia. split; [done|].
  rewrite (Zminus_mod _ 1), <- (Zminus_mod (Z.of_nat (released c))), <- Zminus_mod.
  replace (Z.of_nat (released c) - Z.of_nat (published c) - 1)
    with (2 ^ k - 1 - (Z.of_nat (published c) - Z.of_nat (released c)) + -1 * 2 ^ k) by lia.
  rewrite Z_mod_plus_full, Z.mod_small; lia.
Qed.
End Invariant.

(** C15. On a queue that [avp_fifo_init] has accepted, with a buffer of [size]
    elements, one writer and one reader may run at any interleaving of their
    accesses: no access leaves the buffer or an argument, the elements taken are
    the first of those stored, at most [size - 1] are in the queue, and
    [avp_fifo_count] and [avp_fifo_free_count] add up to [size - 1] and give what
    is published and not yet released.  A put that returns has stored the first
    elements of its argument, and fewer than asked for only when the queue was full
    by the index it read; a get that returns has taken the last elements of the
    sequence, and fewer than asked for only when it has seen no more. *)
Theorem avp_fifo_spsc f size f' acts c
    (Hsize : 0 < size < 2 ^ 32) (Hinit : avp_fifo_init f size = Some f')
    (Hbuf : Z.of_nat (length (buffer f)) = size) (Hrun : run acts (start f') = Some c) :
  (forall a, allowed a c = true -> is_Some (step a c))
  /\ taken c `prefix_of` stored c
  /\ Z.of_nat (length (stored c)) - Z.of_nat (length (taken c)) <= size - 1
  /\ avp_fifo_count (fifo c) = Z.of_nat (published c) - Z.of_nat (released c)
  /\ avp_fifo_count (fifo c) + avp_fifo_free_count (fifo c) = size - 1
  /\ match putter c with
     | PutDone data num i g =>
         published c = length (stored c) /\ take i data `suffix_of` stored c /\ (i <= num)%nat
         /\ ((i < num)%nat -> Z.of_nat (length (stored c)) = Z.of_nat g + size - 1)
     | _ => True
     end
  /\ match getter c with
     | GetDone num out g =>
         released c = length (taken c) /\ out `suffix_of` taken c /\ (length out <= num)%nat
         /\ ((length out < num)%nat -> length (taken c) = g)
     | _ => True
     end.
Proof.
  destruct (init_pow2 f size f' Hsize Hinit) as (k & Hk & -> & ->).
  assert (inv k c) as I by (eapply run_inv; [done|by apply start_inv|done]).
  destruct (counts_ok k Hk c I) as [C1 C2]. pose proof I as [_ (O1 & O2 & O3) Hpre Hp Hg].
  split; [|split_and!; try done; try lia].
  - intros a Ha. destruct (step_inv k Hk a c I Ha) as (c' & -> & _). done.
  - destruct (putter c); try done. simpl in Hp. split_and!; try tauto; lia.
  - destruct (getter c); try done. simpl in Hg. split_and!; try tauto; lia.
Qed.

(** A queue of four: the put of four stores three, while the reader takes two. *)
Definition demo_acts : list act :=
  [CallPut [11; 12; 13; 14] 4; CallGet 2; StepPut; StepPut; StepPut; StepGet; StepPut; StepPut; StepPut; StepPut;
   StepGet; StepGet; StepGet; StepGet; StepGet].

Definition demo_end : conf := default (start (mk_fifo 0 0 4 [])) (run demo_acts (start (mk_fifo 0 0 4 [0; 0; 0; 0]))).

Lemma avp_fifo_spsc_witness :
  run demo_acts (start (mk_fifo 0 0 4 [0; 0; 0; 0])) = Some demo_end
  /\ putter demo_end = PutDone [11; 12; 13; 14] 4 3 0 /\ getter demo_end = GetDone 2 [11; 12] 3
  /\ avp_fifo_count (fifo demo_end) + avp_fifo_free_count (fifo demo_end) = 3.
Proof.
  assert (run demo_acts (start (mk_fifo 0 0 4 [0; 0; 0; 0])) = Some demo_end) as R by (vm_compute; reflexivity).
  split; [exact R|]. do 2 (split; [vm_compute; reflexivity|]).
  pose proof (avp_fifo_spsc (mk_fifo 7 7 7 [0; 0; 0; 0]) 4 (mk_fifo 0 0 4 [0; 0; 0; 0]) demo_acts
    demo_end ltac:(lia) eq_refl eq_refl R) as (_ & _ & _ & _ & C & _). exact C.
Defined.
