(* ===== verification/Graph.v ===== *)
(** * Walks over a graph of nodes ([include/rte_graph_worker.h]).

    A node holds a stream of objects; the walk calls the process function of the
    nodes that are pending, and the functions put objects into the streams of
    the next nodes.  The streams are a store of arrays with their addresses, so
    that the exchange of two streams and the move of one when it grows are as in
    the code.  A node is named by its offset in the memory of the graph.
    Statistics are compiled in ([RTE_LIBRTE_GRAPH_STATS] is 1), assertions are
    compiled out. *)
From stdpp Require Import prelude list numbers gmap.
From S2P Require Import Prelude Bits.
Open Scope Z_scope.

(** ** What a process function does

    A process function reads the objects of its node and makes calls; the
    functions themselves belong to the applications, so they are any function
    from the context and the objects to the calls, the number it returns and the
    new context.  The argument of an enqueue points into the stream that the
    function has been given, or to an array of its own. *)
Inductive source := Own (pos : Z) | Local (l : list Z).

Inductive call :=
  | Enqueue (next : Z) (src : source) (nb_objs : Z)
  | EnqueueX1 (next obj : Z)
  | EnqueueX2 (next obj0 obj1 : Z)
  | EnqueueX4 (next obj0 obj1 obj2 obj3 : Z)
  | EnqueueNext (nexts : list Z) (src : source) (nb_objs : Z)
  (* rte_node_next_stream_get, the objects written there, rte_node_next_stream_put *)
  | StreamFill (next nb_objs : Z) (l : list Z)
  | StreamMove (next : Z).

Definition rte_node_process_t : Type := list Z -> list Z -> list call * Z * list Z.

(** ** Data *)

(** The fields of the slow path are left out, except the edges. *)
Record rte_node := mk_node {
  ctx : list Z;
  size : Z;
  idx : Z;
  off : Z;
  total_cycles : Z;
  total_calls : Z;
  total_objs : Z;
  objs : Z;
  process : rte_node_process_t;
  nodes : list Z
}.

(** The entry [cir_start[i]] is entry [nb_src + i] of [cir]: the source nodes lie
    before [cir_start].  [streams] is the memory of the streams; [log] is
    auxiliary, the calls of process functions so far, and [clock] the number of
    readings of the time stamp counter. *)
Record event := mk_event { e_node : Z; e_objs : list Z; e_calls : list call }.

Record rte_graph := mk_graph {
  tail : Z;
  head : Z;
  cir_mask : Z;
  cir : list Z;
  nb_src : Z;
  nodes_mem : gmap Z rte_node;
  streams : gmap Z (list Z);
  clock : nat;
  log : list event
}.

Definition set_tail (x : Z) (g : rte_graph) : rte_graph :=
  mk_graph x (head g) (cir_mask g) (cir g) (nb_src g) (nodes_mem g) (streams g) (clock g) (log g).
Definition set_cir (x : list Z) (g : rte_graph) : rte_graph :=
  mk_graph (tail g) (head g) (cir_mask g) x (nb_src g) (nodes_mem g) (streams g) (clock g) (log g).
Definition set_nodes_mem (x : gmap Z rte_node) (g : rte_graph) : rte_graph :=
  mk_graph (tail g) (head g) (cir_mask g) (cir g) (nb_src g) x (streams g) (clock g) (log g).
Definition set_streams (x : gmap Z (list Z)) (g : rte_graph) : rte_graph :=
  mk_graph (tail g) (head g) (cir_mask g) (cir g) (nb_src g) (nodes_mem g) x (clock g) (log g).
Definition set_clock (x : nat) (g : rte_graph) : rte_graph :=
  mk_graph (tail g) (head g) (cir_mask g) (cir g) (nb_src g) (nodes_mem g) (streams g) x (log g).
Definition set_log (x : list event) (g : rte_graph) : rte_graph :=
  mk_graph (tail g) (head g) (cir_mask g) (cir g) (nb_src g) (nodes_mem g) (streams g) (clock g) x.

Definition set_ctx (x : list Z) (b : rte_node) : rte_node :=
  mk_node x (size b) (idx b) (off b) (total_cycles b) (total_calls b) (total_objs b) (objs b) (process b) (nodes b).
Definition set_stream (sz a : Z) (b : rte_node) : rte_node :=
  mk_node (ctx b) sz (idx b) (off b) (total_cycles b) (total_calls b) (total_objs b) a (process b) (nodes b).
Definition set_idx (x : Z) (b : rte_node) : rte_node :=
  mk_node (ctx b) (size b) x (off b) (total_cycles b) (total_calls b) (total_objs b) (objs b) (process b) (nodes b).
Definition set_totals (cycles calls n : Z) (b : rte_node) : rte_node :=
  mk_node (ctx b) (size b) (idx b) (off b) cycles calls n (objs b) (process b) (nodes b).

Definition rd (n : Z) : M rte_graph rte_node := fun g => lift (nodes_mem g !! n) g.
Definition upd (n : Z) (f : rte_node -> rte_node) : M rte_graph unit :=
  b ← rd n ; modify (fun g => set_nodes_mem (<[n := f b]> (nodes_mem g)) g).

(** ** The operations

    [stream_alloc_size] stands for [__rte_node_stream_alloc_size]: from the memory
    of the streams, the stream of the node and the size asked for, the new size,
    the new stream and the new memory.  [tsc] delivers the readings of the time
    stamp counter. *)
Section Graph.
Context (stream_alloc_size : gmap Z (list Z) -> Z -> Z -> Z * Z * gmap Z (list Z)).
Context (tsc : nat -> Z).

Definition __rte_node_stream_alloc_size (node req_size : Z) : M rte_graph unit :=
  b ← rd node ;
  g ← get ;
  let '(sz, a, st) := stream_alloc_size (streams g) (objs b) req_size in
  put (set_streams st g) ;;
  upd node (set_stream sz a).

Definition __rte_node_enqueue_tail_update (node : Z) : M rte_graph unit :=
  g ← get ;
  b ← rd node ;
  c ← lift (aset (cir g) (nb_src g + tail g) (off b)) ;
  modify (set_cir c) ;;
  modify (set_tail (Z.land (u32 (tail g + 1)) (cir_mask g))).

Definition __rte_node_enqueue_prologue (node idx space : Z) : M rte_graph unit :=
  (if idx =? 0 then __rte_node_enqueue_tail_update node else mret tt) ;;
  b ← rd node ;
  if size b <? idx + space then __rte_node_stream_alloc_size node (u16 (size b + space))
  else mret tt.

Definition __rte_node_next_node_get (node next : Z) : M rte_graph Z :=
  b ← rd node ; lift (aget (nodes b) next).

(** [node->objs[i] = obj] *)
Definition store_obj (node i obj : Z) : M rte_graph unit :=
  b ← rd node ;
  g ← get ;
  l ← lift (streams g !! objs b) ;
  l ← lift (aset l i obj) ;
  put (set_streams (<[objs b := l]> (streams g)) g).

(** [objs[i]] of a source, where [p] is the stream that the function was given. *)
Definition array_of (p : Z) (src : source) : M rte_graph (list Z * Z) :=
  match src with
  | Own pos => g ← get ; l ← lift (streams g !! p) ; mret (l, pos)
  | Local l => mret (l, 0)
  end.

Definition rte_node_enqueue (p node next : Z) (src : source) (nb_objs : Z) : M rte_graph unit :=
  node ← __rte_node_next_node_get node next ;
  b ← rd node ;
  let idx := idx b in
  __rte_node_enqueue_prologue node idx nb_objs ;;
  '(l, pos) ← array_of p src ;
  b ← rd node ;
  g ← get ;
  dst ← lift (streams g !! objs b) ;
  dst ← lift (mem_cpy dst idx l pos nb_objs) ;
  put (set_streams (<[objs b := dst]> (streams g)) g) ;;
  upd node (set_idx (u16 (idx + nb_objs))).

Definition rte_node_enqueue_x1 (node next obj : Z) : M rte_graph unit :=
  node ← __rte_node_next_node_get node next ;
  b ← rd node ;
  let idx := idx b in
  __rte_node_enqueue_prologue node idx 1 ;;
  store_obj node idx obj ;;
  upd node (set_idx (u16 (idx + 1))).

Definition rte_node_enqueue_x2 (node next obj0 obj1 : Z) : M rte_graph unit :=
  node ← __rte_node_next_node_get node next ;
  b ← rd node ;
  let idx := idx b in
  __rte_node_enqueue_prologue node idx 2 ;;
  store_obj node idx obj0 ;;
  let idx := u16 (idx + 1) in
  store_obj node idx obj1 ;;
  upd node (set_idx (u16 (idx + 1))).

Definition rte_node_enqueue_x4 (node next obj0 obj1 obj2 obj3 : Z) : M rte_graph unit :=
  node ← __rte_node_next_node_get node next ;
  b ← rd node ;
  let idx := idx b in
  __rte_node_enqueue_prologue node idx 4 ;;
  store_obj node idx obj0 ;;
  let idx := u16 (idx + 1) in
  store_obj node idx obj1 ;;
  let idx := u16 (idx + 1) in
  store_obj node idx obj2 ;;
  let idx := u16 (idx + 1) in
  store_obj node idx obj3 ;;
  upd node (set_idx (u16 (idx + 1))).

(** [for (i = 0; i < nb_objs; i++)], from [i] on. *)
Fixpoint enqueue_next (p node : Z) (nexts : list Z) (src : source) (fuel : nat) (i : Z) : M rte_graph unit :=
  match fuel with
  | O => mret tt
  | Datatypes.S fuel =>
      next ← lift (aget nexts i) ;
      '(l, pos) ← array_of p src ;
      obj ← lift (aget l (pos + i)) ;
      rte_node_enqueue_x1 node next obj ;;
      enqueue_next p node nexts src fuel (u16 (i + 1))
  end.

Definition rte_node_enqueue_next (p node : Z) (nexts : list Z) (src : source) (nb_objs : Z) : M rte_graph unit :=
  enqueue_next p node nexts src (Z.to_nat nb_objs) 0.

(** The stream and the position in it. *)
Definition rte_node_next_stream_get (node next nb_objs : Z) : M rte_graph (Z * Z) :=
  node ← __rte_node_next_node_get node next ;
  b ← rd node ;
  let idx := idx b in
  let free_space := u16 (size b - idx) in
  (if free_space <? nb_objs then __rte_node_stream_alloc_size node (u16 (size b + nb_objs)) else mret tt) ;;
  b ← rd node ;
  mret (objs b, idx).

Definition rte_node_next_stream_put (node next idx' : Z) : M rte_graph unit :=
  if idx' =? 0 then mret tt
  else
    node ← __rte_node_next_node_get node next ;
    b ← rd node ;
    (if idx b =? 0 then __rte_node_enqueue_tail_update node else mret tt) ;;
    upd node (fun b => set_idx (u16 (idx b + idx')) b).

Definition rte_node_next_stream_move (src next : Z) : M rte_graph unit :=
  dst ← __rte_node_next_node_get src next ;
  d ← rd dst ;
  if idx d =? 0 then
    let dobjs := objs d in
    let dsz := size d in
    s ← rd src ;
    upd dst (set_stream (size s) (objs s)) ;;
    upd src (set_stream dsz dobjs) ;;
    s ← rd src ;
    upd dst (set_idx (idx s)) ;;
    __rte_node_enqueue_tail_update dst
  else
    s ← rd src ;
    rte_node_enqueue (objs s) src next (Own 0) (idx s).

(** ** The walk *)

(** A call of a process function, whose stream is [p]. *)
Definition do_call (p node : Z) (c : call) : M rte_graph unit :=
  match c with
  | Enqueue next src nb_objs => rte_node_enqueue p node next src nb_objs
  | EnqueueX1 next obj => rte_node_enqueue_x1 node next obj
  | EnqueueX2 next obj0 obj1 => rte_node_enqueue_x2 node next obj0 obj1
  | EnqueueX4 next obj0 obj1 obj2 obj3 => rte_node_enqueue_x4 node next obj0 obj1 obj2 obj3
  | EnqueueNext nexts src nb_objs => rte_node_enqueue_next p node nexts src nb_objs
  | StreamFill next nb_objs l =>
      '(q, pos) ← rte_node_next_stream_get node next nb_objs ;
      g ← get ;
      dst ← lift (streams g !! q) ;
      dst ← lift (mem_cpy dst pos l 0 (Z.of_nat (length l))) ;
      put (set_streams (<[q := dst]> (streams g)) g) ;;
      rte_node_next_stream_put node next (Z.of_nat (length l))
  | StreamMove next => rte_node_next_stream_move node next
  end.

(** [node->process(graph, node, objs, node->idx)]; the call is noted in [log]. *)
Definition do_process (node : Z) : M rte_graph Z :=
  b ← rd node ;
  g ← get ;
  l ← lift (streams g !! objs b) ;
  let xs := take (Z.to_nat (idx b)) l in
  let '(calls, rc, c) := process b (ctx b) xs in
  upd node (set_ctx c) ;;
  modify (fun g => set_log (log g ++ [mk_event node xs calls]) g) ;;
  mfor calls (do_call (objs b) node) ;;
  mret (u16 rc).

Definition rte_rdtsc : M rte_graph Z :=
  g ← get ; put (set_clock (Datatypes.S (clock g)) g) ;; mret (u64 (tsc (clock g))).

Definition rte_graph_has_stats_feature : Z := 1.

Definition sint32 (x : Z) : Z := swrap 32 x.

(** The body of the loop, from [head]. *)
Definition walk_body (head : Z) : M rte_graph Z :=
  g ← get ;
  node ← lift (aget (cir g) (nb_src g + sint32 head)) ;
  let head := u32 (head + 1) in
  (if truthy rte_graph_has_stats_feature then
     start ← rte_rdtsc ;
     rc ← do_process node ;
     stop ← rte_rdtsc ;
     upd node (fun b => set_totals (u64 (total_cycles b + u64 (stop - start))) (u64 (total_calls b + 1))
                          (u64 (total_objs b + rc)) b)
   else
     do_process node ;; mret tt) ;;
  upd node (set_idx 0) ;;
  g ← get ;
  mret (if 0 <? sint32 head then Z.land head (cir_mask g) else head).

(** The state of the loop is [head] and the graph. *)
Definition rte_graph_walk (fuel : nat) (g : rte_graph) : option rte_graph :=
  '(_, g) ← while fuel (fun '(head, g) => negb (head =? tail g)) (fun '(head, g) => walk_body head g) (head g, g) ;
  Some (set_tail 0 g).
End Graph.
