(* ===== verification/GraphSpec.v ===== *)
(** * A walk delivers every object ([Graph]). *)
From stdpp Require Import prelude list numbers gmap.
From S2P Require Import Prelude Bits Graph.
Open Scope Z_scope.

(** ** What is assumed of the allocation of a stream

    Its documentation: a stream of at least the size asked for, with the objects
    of the old one, which is released. *)
Definition alloc_fn : Type := gmap Z (list Z) -> Z -> Z -> Z * Z * gmap Z (list Z).

Class LawfulAlloc (alloc : alloc_fn) := {
  alloc_law st a l req : st !! a = Some l -> Z.of_nat (length l) < req <= 32768 ->
    exists sz a' l', alloc st a req = (sz, a', <[a' := l']> (delete a st))
      /\ (a' = a \/ st !! a' = None) /\ Z.of_nat (length l') = sz /\ req <= sz <= 32768
      /\ take (length l) l' = l
}.

(** ** What is sent *)

(** The objects of a source, for a function that was given [xs]. *)
Definition block_of (xs : list Z) (src : source) (nb : Z) : list Z :=
  match src with
  | Own pos => take (Z.to_nat nb) (drop (Z.to_nat pos) xs)
  | Local l => take (Z.to_nat nb) l
  end.

(** The streams and objects that a call appends, in order, when [ns] are the next
    nodes. *)
Definition edge (ns : list Z) (next : Z) : Z := default 0 (aget ns next).

Definition sends (ns xs : list Z) (c : call) : list (Z * list Z) :=
  match c with
  | Enqueue next src nb => [(edge ns next, block_of xs src nb)]
  | EnqueueX1 next a => [(edge ns next, [a])]
  | EnqueueX2 next a b => [(edge ns next, [a; b])]
  | EnqueueX4 next a b c d => [(edge ns next, [a; b; c; d])]
  | EnqueueNext nexts src nb =>
      zip_with (fun next x => (edge ns next, [x])) (take (Z.to_nat nb) nexts) (block_of xs src nb)
  | StreamFill next _ l => [(edge ns next, l)]
  | StreamMove next => [(edge ns next, xs)]
  end.

(** What the calls of [ss] send to [m], and how much they send in all. *)
Definition sent_to (m : Z) (ss : list (Z * list Z)) : list Z :=
  concat ((fun s => if decide (s.1 = m) then s.2 else []) <$> ss).

Definition amount (ss : list (Z * list Z)) : nat := sum_list_with (fun s => length (s.2)) ss.

(** ** What is asked of a process function *)

Definition edge_ok (ns : list Z) (next : Z) : Prop := 0 <= next < Z.of_nat (length ns).

Definition source_ok (xs : list Z) (src : source) (nb : Z) : Prop :=
  match src with
  | Own pos => 0 <= pos /\ pos + nb <= Z.of_nat (length xs)
  | Local l => nb <= Z.of_nat (length l)
  end.

Definition call_ok (ns xs : list Z) (c : call) : Prop :=
  match c with
  | Enqueue next src nb => edge_ok ns next /\ source_ok xs src nb /\ 1 <= nb
  | EnqueueX1 next _ | EnqueueX2 next _ _ | EnqueueX4 next _ _ _ _ => edge_ok ns next
  | EnqueueNext nexts src nb =>
      0 <= nb < 2 ^ 16 /\ source_ok xs src nb /\ nb <= Z.of_nat (length nexts)
      /\ Forall (edge_ok ns) (take (Z.to_nat nb) nexts)
  | StreamFill next nb l => edge_ok ns next /\ Z.of_nat (length l) <= nb <= 8192
  | StreamMove next => False
  end.

(** Either the stream as a whole goes to one next node, or the calls are well
    formed and send no more than [most] objects. *)
Definition calls_ok (ns xs : list Z) (most : nat) (cs : list call) : Prop :=
  (exists next, cs = [StreamMove next] /\ edge_ok ns next /\ xs <> [] /\ (length xs <= most)%nat)
  \/ Forall (call_ok ns xs) cs /\ (amount (cs ≫= sends ns xs) <= most)%nat.

(** * Proofs *)

Lemma lift_run {St A} (o : option A) a (s : St) : o = Some a -> lift o s = Some (a, s).
Proof. by intros ->. Qed.

(** One step of a program, by computation or by what is known of it. *)
Ltac mstep := erewrite mbind_run by reflexivity.
Ltac mrun H := erewrite mbind_run by (apply H).

(** ** The measure of the walk *)

(** The pending nodes as a binary number: the first of [t] has the highest digit. *)
Fixpoint weight (Q t : list Z) : nat :=
  match t with
  | [] => 0
  | m :: t => (if decide (m ∈ Q) then 2 ^ length t else 0) + weight Q t
  end.

Lemma weight_lt Q t : (weight Q t < 2 ^ length t)%nat.
Proof. induction t as [|m t IH]; simpl; [lia|]. destruct (decide (m ∈ Q)); lia. Qed.

Lemma weight_step Q n new pre post :
  NoDup (pre ++ n :: post) -> n ∉ Q -> new ⊆ post ->
  (weight (Q ++ new) (pre ++ n :: post) < weight (n :: Q) (pre ++ n :: post))%nat.
Proof.
  intros Hnd Hn Hnew. induction pre as [|m pre IH]; simpl in *; apply NoDup_cons in Hnd as [Hm Hnd].
  - rewrite (decide_True (P := n ∈ n :: Q)) by (by left).
    rewrite decide_False by (rewrite elem_of_app; intros [|Hx]; [done|by apply Hm, Hnew]).
    pose proof (weight_lt (Q ++ new) post). lia.
  - specialize (IH Hnd). rewrite elem_of_app, elem_of_cons in Hm.
    assert (m ∈ Q ++ new <-> m ∈ n :: Q) as Hiff.
    { rewrite elem_of_app, elem_of_cons. split; [intros [?|Hx]; [by right|apply Hnew in Hx; tauto]|].
      intros [?|?]; [tauto|by left]. }
    destruct (decide (m ∈ Q ++ new)), (decide (m ∈ n :: Q)); [lia|tauto|tauto|lia].
Qed.

Section Walk.
Context (alloc : alloc_fn) {L : LawfulAlloc alloc} (tsc : nat -> Z).
(** The nodes that are no sources, each before the nodes that its edges lead to;
    the sources; the length of the reel; the graph before the walk. *)
Context (topo srcs : list Z) (k : Z) (g0 : rte_graph).
Context (Hk : 0 <= k <= 30) (Htopo : NoDup topo) (Hroom : Z.of_nat (length topo) < 2 ^ k).

Definition shape (b : rte_node) : rte_node_process_t * list Z := (process b, nodes b).

Definition pend (g : rte_graph) (m : Z) : list Z :=
  match nodes_mem g !! m with
  | Some b => take (Z.to_nat (idx b)) (default [] (streams g !! objs b))
  | None => []
  end.

(** [cur] is the node whose function runs, [Q] are the pending nodes, from entry
    [p] of the reel on. *)
Record inv (cur : option Z) (p : Z) (Q : list Z) (g : rte_graph) : Prop := {
  i_node n b : nodes_mem g !! n = Some b -> off b = n /\ 0 <= idx b
    /\ exists l, streams g !! objs b = Some l /\ Z.of_nat (length l) = size b /\ size b <= 32768
    /\ (cur <> Some n -> idx b <= size b);
  i_apart n1 n2 b1 b2 : nodes_mem g !! n1 = Some b1 -> nodes_mem g !! n2 = Some b2 -> objs b1 = objs b2 -> n1 = n2;
  i_shape n : shape <$> nodes_mem g !! n = shape <$> nodes_mem g0 !! n;
  i_reel : cir_mask g = 2 ^ k - 1 /\ nb_src g = Z.of_nat (length srcs)
    /\ Z.of_nat (length (cir g)) = nb_src g + 2 ^ k /\ take (length srcs) (cir g) = srcs
    /\ 0 <= p < 2 ^ k /\ tail g = (p + Z.of_nat (length Q)) mod 2 ^ k
    /\ forall j m, Q !! j = Some m -> aget (cir g) (nb_src g + (p + Z.of_nat j) mod 2 ^ k) = Some m;
  i_queue : NoDup Q /\ Q ⊆ topo /\ (forall n, cur = Some n -> n ∉ Q)
    /\ forall m, m ∈ topo -> cur <> Some m -> (m ∈ Q <-> pend g m <> []);
  i_nodes m : m ∈ topo -> is_Some (nodes_mem g !! m)
}.

(** ** Writing to a next node *)

(** [xs] is being written behind the objects of [d], whose stream may have been
    moved; [pu] tells whether [d] has been put on the reel; there is room for
    [room] objects more. *)
Record writing (d : Z) (b : rte_node) (l : list Z) (pu : bool) (xs : list Z) (room : nat) (g g' : rte_graph)
  (b' : rte_node) (l' : list Z) : Prop := {
  w_nodes : nodes_mem g' = <[d := b']> (nodes_mem g);
  w_node : b' = set_stream (size b') (objs b') b;
  w_streams : streams g' = <[objs b' := l']> (delete (objs b) (streams g));
  w_addr : objs b' = objs b \/ streams g !! objs b' = None;
  w_len : Z.of_nat (length l') = size b' /\ size b' <= 32768 /\ idx b + Z.of_nat (length xs + room) <= size b';
  w_data : take (Z.to_nat (idx b) + length xs) l' = take (Z.to_nat (idx b)) l ++ xs;
  w_reel : if pu then aset (cir g) (nb_src g + tail g) d = Some (cir g')
                      /\ tail g' = Z.land (u32 (tail g + 1)) (cir_mask g)
           else cir g' = cir g /\ tail g' = tail g;
  w_rest : head g' = head g /\ cir_mask g' = cir_mask g /\ nb_src g' = nb_src g /\ clock g' = clock g /\ log g' = log g
}.

Section one.
Context (d : Z) (b : rte_node) (l : list Z) (g : rte_graph).
Context (Hd : nodes_mem g !! d = Some b) (Hl : streams g !! objs b = Some l).
Context (Hoff : off b = d) (Hidx : 0 <= idx b <= Z.of_nat (length l)) (Hsz : Z.of_nat (length l) = size b) (Hmax : size b <= 32768).

Lemma w_get pu xs room g' b' l' : writing d b l pu xs room g g' b' l' -> rd d g' = Some (b', g').
Proof. intros W. unfold rd, lift. by rewrite (w_nodes _ _ _ _ _ _ _ _ _ _ W), lookup_insert_eq. Qed.

Lemma w_stream pu xs room g' b' l' : writing d b l pu xs room g g' b' l' -> streams g' !! objs b' = Some l'.
Proof. intros W. by rewrite (w_streams _ _ _ _ _ _ _ _ _ _ W), lookup_insert_eq. Qed.

Lemma writing_start room : idx b + Z.of_nat room <= size b -> writing d b l false [] room g g b l.
Proof.
  intros. split; try done.
  - by rewrite insert_id.
  - by destruct b.
  - by rewrite insert_delete_id.
  - by left.
  - by rewrite Nat.add_0_r, app_nil_r.
Qed.

Lemma tail_update_ok xs room g' b' l' :
  0 <= nb_src g + tail g < Z.of_nat (length (cir g)) ->
  writing d b l false xs room g g' b' l' ->
  exists g'', __rte_node_enqueue_tail_update d g' = Some (tt, g'') /\ writing d b l true xs room g g'' b' l'.
Proof.
  intros Ht W. pose proof W as [E1 E2 E3 E4 E5 E6 [E7 E7'] (E8 & E9 & E10 & E11 & E12)].
  unfold __rte_node_enqueue_tail_update. mstep. mrun (w_get _ _ _ _ _ _ W).
  assert (off b' = d) as -> by (rewrite E2; done). rewrite E7, E7', E10, E9.
  mrun (lift_run _ _ g' (aset_ok (cir g) (nb_src g + tail g) d Ht)). mstep.
  eexists. split; [done|]. split; try done. by rewrite aset_ok.
Qed.

Lemma grow_ok pu xs room room' g' req :
  writing d b l pu xs room g g' b l -> size b < req <= 32768 -> idx b + Z.of_nat (length xs + room') <= req ->
  exists g'' b' l', __rte_node_stream_alloc_size alloc d req g' = Some (tt, g'')
    /\ writing d b l pu xs room' g g'' b' l'.
Proof.
  intros W Hreq Hr. pose proof W as [E1 E2 E3 E4 E5 E6 E7 (E8 & E9 & E10 & E11 & E12)].
  destruct (alloc_law (streams g') (objs b) l req) as (sz & a & l' & Ea & Ha & Hl' & Hsz' & Ht);
    [by rewrite E3, lookup_insert_eq|lia|].
  unfold __rte_node_stream_alloc_size. mrun (w_get _ _ _ _ _ _ W). mstep. rewrite Ea. mstep.
  unfold upd. erewrite mbind_run by (unfold rd, lift; cbn; by rewrite E1, lookup_insert_eq).
  exists (set_nodes_mem (<[d := set_stream sz a b]> (nodes_mem g')) (set_streams (<[a := l']> (delete (objs b) (streams g'))) g')).
  exists (set_stream sz a b), l'. split; [done|]. split; simpl; try done.
  - by rewrite E1, insert_insert_eq.
  - by rewrite E3, delete_insert_eq, delete_delete_eq.
  - destruct Ha as [->|Ha]; [by left|]. right. rewrite E3 in Ha.
    destruct (decide (a = objs b)) as [->|N]; [by rewrite lookup_insert_eq in Ha|].
    by rewrite lookup_insert_ne, lookup_delete_ne in Ha.
  - lia.
  - replace (take (Z.to_nat (idx b) + length xs) l') with (take (Z.to_nat (idx b) + length xs) l);
      [done|]. rewrite <- Ht, take_take. f_equal. lia.
Qed.

Lemma store_ok pu xs room g' b' l' x :
  writing d b l pu xs (S room) g g' b' l' ->
  exists g'' l'', store_obj d (idx b + Z.of_nat (length xs)) x g' = Some (tt, g'')
    /\ writing d b l pu (xs ++ [x]) room g g'' b' l''.
Proof.
  intros W. pose proof W as [E1 E2 E3 E4 (E5 & E5' & E5'') E6 E7 E8].
  unfold store_obj. mrun (w_get _ _ _ _ _ _ W). mstep.
  mrun (lift_run _ _ g' (w_stream _ _ _ _ _ _ W)). erewrite mbind_run.
  2:{ apply lift_run, aset_ok. lia. }
  eexists _, _. split; [done|]. split; simpl; try done.
  - by rewrite E3, insert_insert_eq.
  - rewrite length_insert, length_app. simpl. lia.
  - rewrite length_app. simpl.
    replace (Z.to_nat (idx b + Z.of_nat (length xs))) with (Z.to_nat (idx b) + length xs)%nat by lia.
    rewrite Nat.add_1_r, Nat.add_succ_r. erewrite take_S_r by (apply list_lookup_insert_eq; lia).
    by rewrite take_insert_ge, E6, app_assoc by lia.
Qed.

Lemma copy_ok pu n g' b' l' src pos ys :
  writing d b l pu [] n g g' b' l' -> 0 <= pos -> pos + Z.of_nat n <= Z.of_nat (length src) ->
  take n (drop (Z.to_nat pos) src) = ys ->
  exists l'', mem_cpy l' (idx b) src pos (Z.of_nat n) = Some l''
    /\ writing d b l pu ys 0 g (set_streams (<[objs b' := l'']> (streams g')) g') b' l''.
Proof.
  intros [E1 E2 E3 E4 (E5 & E5' & E5'') E6 E7 E8] Hpos Hsrc Hys. unfold mem_cpy. simpl in *.
  assert (length ys = n) as Ly by (rewrite <- Hys, length_take, length_drop; lia).
  rewrite Nat2Z.id, Hys. eexists. split.
  { replace (_ && _) with true; [done|]. symmetry. repeat (apply andb_true_iff; split); lia. }
  split; simpl; try done.
  - by rewrite E3, insert_insert_eq.
  - rewrite length_splice by lia. lia.
  - unfold splice. rewrite app_assoc, take_app_le by (rewrite length_app, length_take; lia).
    rewrite firstn_all2 by (rewrite length_app, length_take; lia). f_equal.
    by rewrite Nat.add_0_r, app_nil_r in E6.
Qed.

Lemma w_room pu xs room room' g' b' l' :
  writing d b l pu xs room g g' b' l' -> idx b + Z.of_nat (length xs + room') <= size b' ->
  writing d b l pu xs room' g g' b' l'.
Proof. intros [? ? ? ? (? & ? & ?) ? ? ?] ?. by split. Qed.

(** Other streams stay. *)
Lemma w_other pu xs room g' b' l' q lq :
  writing d b l pu xs room g g' b' l' -> q <> objs b -> streams g !! q = Some lq -> streams g' !! q = Some lq.
Proof.
  intros W Hq E. pose proof W as [_ _ E3 E4 _ _ _ _].
  rewrite E3, lookup_insert_ne, lookup_delete_ne; [done|congruence|].
  intros N. destruct E4 as [E4|E4]; congruence.
Qed.

Lemma prologue_ok (s : nat) :
  0 <= nb_src g + tail g < Z.of_nat (length (cir g)) -> (0 < s)%nat -> idx b + Z.of_nat s <= 16384 ->
  exists g' b' l', __rte_node_enqueue_prologue alloc d (idx b) (Z.of_nat s) g = Some (tt, g')
    /\ writing d b l (idx b =? 0) [] s g g' b' l'.
Proof.
  intros Ht Hs Hr. unfold __rte_node_enqueue_prologue.
  assert (exists g1, (if idx b =? 0 then __rte_node_enqueue_tail_update d else mret tt) g = Some (tt, g1)
    /\ writing d b l (idx b =? 0) [] 0 g g1 b l) as (g1 & E1 & W1).
  { pose proof (writing_start 0 ltac:(lia)) as W. destruct (idx b =? 0); [|by exists g].
    apply (tail_update_ok _ _ _ _ _ Ht W). }
  mrun E1. mrun (w_get _ _ _ _ _ _ W1). destruct (Z.ltb_spec (size b) (idx b + Z.of_nat s)).
  - rewrite wrap_small by (unfold fits; lia). apply (grow_ok _ _ _ _ _ _ W1); simpl; lia.
  - exists g1, b, l. split; [done|]. apply (w_room _ _ _ _ _ _ _ W1). simpl. lia.
Qed.

(** The calls end by setting the index. *)
Definition appended (xs : list Z) (pu : bool) (g' : rte_graph) : Prop :=
  exists b' l' g1, writing d b l pu xs 0 g g1 b' l'
    /\ g' = set_nodes_mem (<[d := set_idx (idx b + Z.of_nat (length xs)) b']> (nodes_mem g1)) g1.

Lemma set_idx_ok pu xs room g' b' l' x :
  writing d b l pu xs room g g' b' l' -> x = idx b + Z.of_nat (length xs) ->
  exists g'', upd d (set_idx x) g' = Some (tt, g'') /\ appended xs pu g''.
Proof.
  intros W ->. unfold upd. mrun (w_get _ _ _ _ _ _ W).
  eexists. split; [done|]. exists b', l', g'. split; [|done].
  apply (w_room _ _ _ _ _ _ _ W). destruct (w_len _ _ _ _ _ _ _ _ _ _ W) as (_ & _ & ?). lia.
Qed.

(** ** The calls *)

Context (n e q : Z) (c : rte_node) (lq : list Z).
Context (Hn : nodes_mem g !! n = Some c) (He : aget (nodes c) e = Some d).
Context (Hq : q <> objs b) (Hlq : streams g !! q = Some lq).
Context (Ht : 0 <= nb_src g + tail g < Z.of_nat (length (cir g))).

Lemma next_get_ok : __rte_node_next_node_get n e g = Some (d, g).
Proof. unfold __rte_node_next_node_get, rd. mrun (lift_run _ _ g Hn). by apply lift_run. Qed.

(** The objects stored one by one, with the index that goes along. *)
Lemma enqueue_x1_ok a : idx b + 1 <= 16384 ->
  exists g', rte_node_enqueue_x1 alloc n e a g = Some (tt, g') /\ appended [a] (idx b =? 0) g'.
Proof.
  intros Hr. unfold rte_node_enqueue_x1. mrun next_get_ok. unfold rd at 1. mrun (lift_run _ _ g Hd).
  destruct (prologue_ok 1 Ht ltac:(lia) ltac:(lia)) as (g1 & b1 & l1 & E1 & W1). mrun E1.
  destruct (store_ok _ _ _ _ _ _ a W1) as (g2 & l2 & E2 & W2). rewrite Z.add_0_r in E2. mrun E2.
  apply (set_idx_ok _ _ _ _ _ _ _ W2). rewrite wrap_small by (unfold fits; lia). simpl. lia.
Qed.

Lemma enqueue_x2_ok a1 a2 : idx b + 2 <= 16384 ->
  exists g', rte_node_enqueue_x2 alloc n e a1 a2 g = Some (tt, g') /\ appended [a1; a2] (idx b =? 0) g'.
Proof.
  intros Hr. unfold rte_node_enqueue_x2. mrun next_get_ok. unfold rd at 1. mrun (lift_run _ _ g Hd).
  destruct (prologue_ok 2 Ht ltac:(lia) ltac:(lia)) as (g1 & b1 & l1 & E1 & W1). mrun E1.
  destruct (store_ok _ _ _ _ _ _ a1 W1) as (g2 & l2 & E2 & W2). rewrite Z.add_0_r in E2. mrun E2.
  rewrite (wrap_small 16 (idx b + 1)) by (unfold fits; lia).
  destruct (store_ok _ _ _ _ _ _ a2 W2) as (g3 & l3 & E3 & W3). mrun E3.
  apply (set_idx_ok _ _ _ _ _ _ _ W3). rewrite wrap_small by (unfold fits; lia). simpl. lia.
Qed.

Lemma enqueue_x4_ok a1 a2 a3 a4 : idx b + 4 <= 16384 ->
  exists g', rte_node_enqueue_x4 alloc n e a1 a2 a3 a4 g = Some (tt, g') /\ appended [a1; a2; a3; a4] (idx b =? 0) g'.
Proof.
  intros Hr. unfold rte_node_enqueue_x4. mrun next_get_ok. unfold rd at 1. mrun (lift_run _ _ g Hd).
  destruct (prologue_ok 4 Ht ltac:(lia) ltac:(lia)) as (g1 & b1 & l1 & E1 & W1). mrun E1.
  destruct (store_ok _ _ _ _ _ _ a1 W1) as (g2 & l2 & E2 & W2). rewrite Z.add_0_r in E2. mrun E2.
  rewrite (wrap_small 16 (idx b + 1)) by (unfold fits; lia).
  destruct (store_ok _ _ _ _ _ _ a2 W2) as (g3 & l3 & E3 & W3). mrun E3.
  replace (u16 (idx b + 1 + 1)) with (idx b + 2) by (rewrite wrap_small by (unfold fits; lia); lia).
  destruct (store_ok _ _ _ _ _ _ a3 W3) as (g4 & l4 & E4 & W4). mrun E4.
  replace (u16 (idx b + 2 + 1)) with (idx b + 3) by (rewrite wrap_small by (unfold fits; lia); lia).
  destruct (store_ok _ _ _ _ _ _ a4 W4) as (g5 & l5 & E5 & W5). mrun E5.
  apply (set_idx_ok _ _ _ _ _ _ _ W5). rewrite wrap_small by (unfold fits; lia). simpl. lia.
Qed.

(** [lq] begins with the objects [xs] of the node that runs. *)
Lemma enqueue_ok xs src (m : nat) : take (length xs) lq = xs -> source_ok xs src (Z.of_nat m) ->
  (0 < m)%nat -> idx b + Z.of_nat m <= 16384 ->
  exists g', rte_node_enqueue alloc q n e src (Z.of_nat m) g = Some (tt, g')
    /\ appended (block_of xs src (Z.of_nat m)) (idx b =? 0) g'.
Proof.
  intros Hxs Hsrc Hm Hr. unfold rte_node_enqueue. mrun next_get_ok. unfold rd at 1. mrun (lift_run _ _ g Hd).
  destruct (prologue_ok m Ht Hm Hr) as (g1 & b1 & l1 & E1 & W1). mrun E1.
  assert (length xs <= length lq)%nat by (rewrite <- Hxs at 1; rewrite length_take; lia).
  assert (exists arr pos, array_of q src g1 = Some ((arr, pos), g1) /\ 0 <= pos
    /\ pos + Z.of_nat m <= Z.of_nat (length arr)
    /\ take m (drop (Z.to_nat pos) arr) = block_of xs src (Z.of_nat m)) as (arr & pos & E2 & P1 & P2 & P3).
  { destruct src as [pos|l0]; simpl in Hsrc |- *.
    - exists lq, pos. split_and!; [|lia..|].
      + mstep. by mrun (lift_run _ _ g1 (w_other _ _ _ _ _ _ _ _ W1 Hq Hlq)).
      + rewrite <- Hxs. rewrite Nat2Z.id, skipn_firstn_comm, take_take. f_equal. lia.
    - exists l0, 0. split_and!; [done|lia..|]. by rewrite Nat2Z.id. }
  mrun E2. cbv beta iota. mrun (w_get _ _ _ _ _ _ W1). mstep. mrun (lift_run _ _ g1 (w_stream _ _ _ _ _ _ W1)).
  destruct (copy_ok _ _ _ _ _ _ _ _ W1 P1 P2 P3) as (l2 & E3 & W2). mrun (lift_run _ _ g1 E3). mstep.
  assert (length (block_of xs src (Z.of_nat m)) = m) as Lm by (rewrite <- P3, length_take, length_drop; lia).
  apply (set_idx_ok _ _ _ _ _ _ _ W2). rewrite wrap_small by (unfold fits; lia). lia.
Qed.

Context (Hnd : n <> d).

Lemma w_self pu xs room g' b' l' : writing d b l pu xs room g g' b' l' -> nodes_mem g' !! n = Some c.
Proof. intros W. by rewrite (w_nodes _ _ _ _ _ _ _ _ _ _ W), lookup_insert_ne. Qed.

Lemma stream_get_ok nb (m : nat) : Z.of_nat m <= nb <= 8192 -> idx b <= 16384 ->
  exists g' b' l', rte_node_next_stream_get alloc n e nb g = Some ((objs b', idx b), g')
    /\ writing d b l false [] m g g' b' l'.
Proof.
  intros Hm Hr. unfold rte_node_next_stream_get. mrun next_get_ok. unfold rd at 1. mrun (lift_run _ _ g Hd).
  rewrite (wrap_small 16 (size b - idx b)) by (unfold fits; lia). pose proof (writing_start 0 ltac:(lia)) as W.
  destruct (Z.ltb_spec (size b - idx b) nb).
  - rewrite wrap_small by (unfold fits; lia).
    destruct (grow_ok _ _ _ m _ (size b + nb) W ltac:(lia) ltac:(simpl; lia)) as (g1 & b1 & l1 & E1 & W1).
    mrun E1. mrun (w_get _ _ _ _ _ _ W1). by exists g1, b1, l1.
  - mstep. mrun (w_get _ _ _ _ _ _ W). exists g, b, l. split; [done|].
    apply (w_room _ _ _ _ _ _ _ W). simpl. lia.
Qed.

Lemma stream_put_ok g1 b1 l1 ys :
  writing d b l false ys 0 g g1 b1 l1 -> idx b + Z.of_nat (length ys) <= 16384 ->
  exists g', rte_node_next_stream_put n e (Z.of_nat (length ys)) g1 = Some (tt, g')
    /\ appended ys ((idx b =? 0) && negb (bool_decide (ys = []))) g'.
Proof.
  intros W Hr. unfold rte_node_next_stream_put.
  assert (idx b1 = idx b) as Ei by (rewrite (w_node _ _ _ _ _ _ _ _ _ _ W); done).
  destruct ys as [|y ys].
  { rewrite andb_false_r. exists g1. split; [done|]. exists b1, l1, g1. split; [done|].
    rewrite Z.add_0_r, <- Ei. replace (set_idx (idx b1) b1) with b1 by by destruct b1.
    rewrite insert_id by (by rewrite (w_nodes _ _ _ _ _ _ _ _ _ _ W), lookup_insert_eq). by destruct g1. }
  destruct (Z.eqb_spec (Z.of_nat (length (y :: ys))) 0) as [|_]; [by simpl in *|].
  unfold __rte_node_next_node_get, rd at 1. rewrite bool_decide_false, andb_true_r by done.
  erewrite mbind_run.
  2:{ erewrite mbind_run by (apply lift_run, (w_self _ _ _ _ _ _ W)). by apply lift_run. }
  mrun (w_get _ _ _ _ _ _ W). rewrite Ei.
  assert (exists g2, (if idx b =? 0 then __rte_node_enqueue_tail_update d else mret tt) g1 = Some (tt, g2)
    /\ writing d b l (idx b =? 0) (y :: ys) 0 g g2 b1 l1) as (g2 & E2 & W2).
  { destruct (idx b =? 0); [|by exists g1]. apply (tail_update_ok _ _ _ _ _ Ht W). }
  mrun E2. unfold upd. mrun (w_get _ _ _ _ _ _ W2). eexists. split; [done|].
  exists b1, l1, g2. split; [done|]. by rewrite Ei, wrap_small by (unfold fits; lia).
Qed.

Lemma fill_ok nb ys : Z.of_nat (length ys) <= nb <= 8192 -> idx b + Z.of_nat (length ys) <= 16384 ->
  exists g', do_call alloc q n (StreamFill e nb ys) g = Some (tt, g')
    /\ appended ys ((idx b =? 0) && negb (bool_decide (ys = []))) g'.
Proof.
  intros Hm Hr. unfold do_call.
  destruct (stream_get_ok nb (length ys) Hm ltac:(lia)) as (g1 & b1 & l1 & E1 & W1). mrun E1. cbv beta iota.
  mstep. mrun (lift_run _ _ g1 (w_stream _ _ _ _ _ _ W1)).
  destruct (copy_ok _ _ _ _ _ ys 0 ys W1 ltac:(lia) ltac:(lia) ltac:(by rewrite drop_0, firstn_all)) as (l2 & E2 & W2).
  mrun (lift_run _ _ g1 E2). mstep. by apply (stream_put_ok _ _ _ _ W2).
Qed.
End one.

(** ** The invariant across a call *)

Lemma pend_at g m b l : nodes_mem g !! m = Some b -> streams g !! objs b = Some l ->
  pend g m = take (Z.to_nat (idx b)) l.
Proof. intros E1 E2. unfold pend. by rewrite E1, E2. Qed.

Lemma queue_short cur p Q g : inv cur p Q g -> (length Q <= length topo)%nat.
Proof.
  intros I. destruct (i_queue _ _ _ _ I) as (N & S & _). by apply submseteq_length, NoDup_submseteq.
Qed.

(** A free entry of the reel. *)
Lemma push_slot cur p Q g d c : inv cur p Q g -> d ∉ Q -> d ∈ topo ->
  aset (cir g) (nb_src g + tail g) d = Some c ->
  Z.of_nat (length c) = nb_src g + 2 ^ k /\ take (length srcs) c = srcs
  /\ Z.land (u32 (tail g + 1)) (cir_mask g) = (p + Z.of_nat (length (Q ++ [d]))) mod 2 ^ k
  /\ forall j m, (Q ++ [d]) !! j = Some m -> aget c (nb_src g + (p + Z.of_nat j) mod 2 ^ k) = Some m.
Proof.
  intros I Hd Ht Ec. destruct (i_reel _ _ _ _ I) as (-> & Hnb & Hlen & Hsrc & Hp & Htail & Hq).
  assert (0 < 2 ^ k <= 2 ^ 31) as Hpow by (split; [lia|apply Z.pow_le_mono_r; lia]).
  pose proof (queue_short _ _ _ _ I) as Hs. destruct (i_queue _ _ _ _ I) as (N & S & _).
  assert (length (Q ++ [d]) <= length topo)%nat as Hs'.
  { apply submseteq_length, NoDup_submseteq.
    - apply NoDup_app. split; [done|]. split; [|apply NoDup_singleton]. intros x Hx [->|[]%not_elem_of_nil]%elem_of_cons. done.
    - intros x [Hx|[->|[]%not_elem_of_nil]%elem_of_cons]%elem_of_app; [by apply S|done]. }
  rewrite length_app in Hs' |- *. simpl in Hs' |- *.
  assert (0 <= tail g < 2 ^ k) as Hr by (rewrite Htail; apply Z.mod_pos_bound; lia).
  rewrite aset_ok in Ec by lia. injection Ec as <-. rewrite length_insert. split; [done|]. split.
  { rewrite take_insert_ge by lia. done. }
  split.
  { rewrite wrap_small, land_mask by (unfold fits; lia). rewrite Htail, Z.add_mod_idemp_l by lia. f_equal. lia. }
  intros j m Hj. unfold aget in *.
  pose proof (Z.mod_pos_bound (p + Z.of_nat j) (2 ^ k) ltac:(lia)).
  replace (0 <=? _) with true in * by lia.
  apply lookup_app_Some in Hj as [Hj|[Hge Hj]].
  - assert (j < length Q)%nat by (by eapply lookup_lt_Some).
    rewrite list_lookup_insert_ne.
    + specialize (Hq _ _ Hj). by replace (0 <=? _) with true in Hq by lia.
    + intros E. assert ((p + Z.of_nat j) mod 2 ^ k = (p + Z.of_nat (length Q)) mod 2 ^ k) as E' by lia.
      apply Z.cong_iff_0 in E'. replace (p + Z.of_nat j - (p + Z.of_nat (length Q))) with (- Z.of_nat (length Q - j)) in E' by lia.
      apply Z.mod_divide, Z.divide_opp_r, Z.divide_pos_le in E'; lia.
  - apply list_lookup_singleton_Some in Hj as [E <-]. assert (j = length Q) as -> by lia.
    rewrite <- Htail, list_lookup_insert_eq by lia. done.
Qed.

(** What else a call leaves as it was. *)
Definition same_rest (g g' : rte_graph) : Prop :=
  head g' = head g /\ clock g' = clock g /\ log g' = log g.

Section appended.
Context (n p : Z) (Q : list Z) (g : rte_graph) (I : inv (Some n) p Q g).
Context (d : Z) (b : rte_node) (l xs : list Z) (pu : bool) (g' : rte_graph).
Context (Hd : d ∈ topo) (Hnd : n <> d) (Eb : nodes_mem g !! d = Some b) (El : streams g !! objs b = Some l).
Context (A : appended d b l g xs pu g').

Lemma appended_other m bm lm : m <> d -> nodes_mem g !! m = Some bm -> streams g !! objs bm = Some lm ->
  nodes_mem g' !! m = Some bm /\ streams g' !! objs bm = Some lm.
Proof.
  intros Hm Em Elm. destruct A as (b' & l' & g1 & W & ->). simpl.
  rewrite lookup_insert_ne, (w_nodes _ _ _ _ _ _ _ _ _ _ W), lookup_insert_ne by done. split; [done|].
  apply (w_other _ _ _ _ _ _ _ _ _ _ _ _ W); [|done]. intros E. apply Hm. by apply (i_apart _ _ _ _ I m d bm b).
Qed.

Lemma appended_dest : exists b' l', nodes_mem g' !! d = Some b' /\ streams g' !! objs b' = Some l'
  /\ idx b' = idx b + Z.of_nat (length xs) /\ off b' = off b /\ shape b' = shape b
  /\ Z.of_nat (length l') = size b' /\ size b' <= 32768 /\ idx b' <= size b'
  /\ (objs b' = objs b \/ streams g !! objs b' = None)
  /\ take (Z.to_nat (idx b')) l' = take (Z.to_nat (idx b)) l ++ xs.
Proof.
  destruct A as (b' & l' & g1 & W & ->). pose proof W as [E1 E2 E3 E4 (E5 & E5' & E5'') E6 E7 E8].
  destruct (i_node _ _ _ _ I d b Eb) as (_ & ? & _).
  exists (set_idx (idx b + Z.of_nat (length xs)) b'), l'. simpl. rewrite lookup_insert_eq.
  split; [done|]. split; [by rewrite E3, lookup_insert_eq|]. split; [done|].
  split; [by rewrite E2|]. split; [by rewrite E2|]. split_and!; [lia..|done|].
  rewrite <- E6. f_equal. lia.
Qed.

Lemma appended_pend m : pend g' m = if decide (m = d) then pend g m ++ xs else pend g m.
Proof.
  destruct (decide (m = d)) as [->|Hm].
  - destruct appended_dest as (b' & l' & E1 & E2 & _ & _ & _ & _ & _ & _ & _ & E3).
    by rewrite (pend_at g' d b' l'), (pend_at g d b l).
  - destruct (nodes_mem g !! m) as [bm|] eqn:Em.
    + destruct (i_node _ _ _ _ I m bm Em) as (_ & _ & lm & Elm & _).
      destruct (appended_other m bm lm Hm Em Elm) as [E1 E2].
      by rewrite (pend_at g' m bm lm), (pend_at g m bm lm).
    + unfold pend. rewrite Em. destruct A as (b' & l' & g1 & W & ->). simpl.
      by rewrite lookup_insert_ne, (w_nodes _ _ _ _ _ _ _ _ _ _ W), lookup_insert_ne, Em.
Qed.

Lemma idx_pend : (idx b =? 0) = bool_decide (pend g d = []).
Proof.
  destruct (i_node _ _ _ _ I d b Eb) as (_ & ? & l0 & El0 & ? & ? & Hs).
  rewrite El in El0. injection El0 as <-. specialize (Hs ltac:(congruence)).
  rewrite (pend_at g d b l Eb El). destruct (Z.eqb_spec (idx b) 0) as [->|]; [by rewrite bool_decide_true|].
  rewrite bool_decide_false; [done|]. intros E%(f_equal length). rewrite length_take in E. simpl in E. lia.
Qed.

Context (Hpu : pu = (idx b =? 0) && negb (bool_decide (xs = []))).

Lemma push_new : pu = true -> d ∉ Q.
Proof.
  destruct (i_queue _ _ _ _ I) as (_ & _ & _ & Q4).
  intros E. rewrite E, idx_pend in Hpu. symmetry in Hpu. apply andb_true_iff in Hpu as [Hp%bool_decide_eq_true_1 _].
  intros Hd'. by apply (Q4 d Hd ltac:(congruence)) in Hd'.
Qed.

Lemma appended_queue : let Q' := if pu then Q ++ [d] else Q in
  NoDup Q' /\ Q' ⊆ topo /\ (forall m, Some n = Some m -> m ∉ Q')
  /\ forall m, m ∈ topo -> Some n <> Some m -> (m ∈ Q' <-> pend g' m <> []).
Proof.
  destruct (i_queue _ _ _ _ I) as (Q1 & Q2 & Q3 & Q4). pose proof push_new as Hpush. cbv zeta. split_and!.
  - destruct pu; [|done]. apply NoDup_app. split; [done|]. split; [|apply NoDup_singleton].
    intros x Hx [->|[]%not_elem_of_nil]%elem_of_cons. by apply Hpush.
  - destruct pu; [|done]. intros x [Hx|[->|[]%not_elem_of_nil]%elem_of_cons]%elem_of_app; [by apply Q2|done].
  - intros ? [= <-]. destruct pu; [|by apply Q3]. intros [Hx|[->|[]%not_elem_of_nil]%elem_of_cons]%elem_of_app; [|done].
    by apply (Q3 n).
  - intros m Hm Hc. rewrite appended_pend. specialize (Q4 m Hm Hc). rewrite Hpu, idx_pend.
    destruct (decide (m = d)) as [->|Hmd].
    + destruct (bool_decide_reflect (pend g d = [])) as [C1|C1], (bool_decide_reflect (xs = [])) as [C2|C2];
        cbn [andb negb]; rewrite ?elem_of_app, ?elem_of_cons, Q4.
      * by rewrite C1, C2.
      * rewrite C1. split; [by intros|by right; left].
      * split; [|done]. intros _. by destruct (pend g d).
      * split; [|done]. intros _. by destruct (pend g d).
    + rewrite <- Q4. destruct (bool_decide (pend g d = []) && negb (bool_decide (xs = []))); [|done].
      rewrite elem_of_app, elem_of_cons. split; [|by left]. intros [?|[?|[]%not_elem_of_nil]]; done.
Qed.

Lemma appended_inv : inv (Some n) p (if pu then Q ++ [d] else Q) g'
  /\ nodes_mem g' !! n = nodes_mem g !! n /\ same_rest g g'.
Proof.
  pose proof push_new as Hpush. pose proof appended_queue as Hqueue.
  destruct appended_dest as (b' & l' & E1 & E2 & E3 & E4 & E5 & E6 & E7 & E8 & E9 & E10).
  pose proof A as (b1 & l1 & g1 & W & Eg). pose proof W as [W1 _ _ _ _ _ W7 (W8 & W9 & W10 & W11 & W12)].
  assert (forall m, m <> d -> nodes_mem g' !! m = nodes_mem g !! m) as Hother.
  { intros m Hm. rewrite Eg. simpl. by rewrite lookup_insert_ne, W1, lookup_insert_ne by done. }
  split; [|split; [by apply Hother|rewrite Eg; by split_and!]]. split.
  - intros m bm Em. destruct (decide (m = d)) as [->|Hm].
    + rewrite E1 in Em. injection Em as <-. destruct (i_node _ _ _ _ I d b Eb) as (Ho & ? & _).
      split; [congruence|]. split; [lia|]. by exists l'.
    + rewrite Hother in Em by done. destruct (i_node _ _ _ _ I m bm Em) as (Ho & ? & lm & Elm & ?).
      split; [done|]. split; [done|]. exists lm. split; [|done]. by apply (appended_other m bm lm).
  - intros m1 m2 b1' b2' F1 F2 Eo.
    assert (forall m bm, m <> d -> nodes_mem g' !! m = Some bm -> objs bm <> objs b') as Hne.
    { intros m bm Hm Em Eo'. rewrite Hother in Em by done.
      destruct (i_node _ _ _ _ I m bm Em) as (_ & _ & lm & Elm & _).
      destruct E9 as [E9|E9]; [|congruence]. apply Hm. apply (i_apart _ _ _ _ I m d bm b); congruence. }
    destruct (decide (m1 = d)) as [->|H1], (decide (m2 = d)) as [->|H2]; [done|..].
    + rewrite E1 in F1. injection F1 as <-. by destruct (Hne m2 b2').
    + rewrite E1 in F2. injection F2 as <-. by destruct (Hne m1 b1').
    + rewrite Hother in F1, F2 by done. by apply (i_apart _ _ _ _ I m1 m2 b1' b2').
  - intros m. rewrite <- (i_shape _ _ _ _ I). destruct (decide (m = d)) as [->|Hm]; [|by rewrite Hother].
    rewrite E1, Eb. cbn [fmap option_fmap option_map]. by rewrite E5.
  - destruct (i_reel _ _ _ _ I) as (R1 & R2 & R3 & R4 & R5 & R6 & R7). rewrite Eg. simpl. rewrite W9, W10.
    destruct pu.
    + destruct W7 as [Ec Et]. destruct (push_slot _ _ _ _ d _ I (Hpush eq_refl) Hd Ec) as (P1 & P2 & P3 & P4).
      rewrite Et. split_and!; try done; lia.
    + destruct W7 as [-> ->]. split_and!; try done; lia.
  - exact Hqueue.
  - intros m Hm. destruct (decide (m = d)) as [->|]; [by eexists|]. rewrite Hother by done. by apply (i_nodes _ _ _ _ I).
Qed.
End appended.

(** ** Runs of calls *)

(** The objects that wait, those of [n] left out. *)
Definition load (n : Z) (g : rte_graph) : nat :=
  sum_list_with (fun m => if decide (m = n) then 0%nat else length (pend g m)) topo.

Lemma pend_load n g d : d ∈ topo -> d <> n -> (length (pend g d) <= load n g)%nat.
Proof.
  unfold load. intros Hd Hn. clear Hroom Htopo. induction topo as [|m t IH]; [by apply not_elem_of_nil in Hd|].
  simpl. apply elem_of_cons in Hd as [<-|Hd]; [rewrite decide_False by done; lia|]. specialize (IH Hd). lia.
Qed.

Lemma load_add n g g' d (xs : list Z) : d ∈ topo -> d <> n ->
  (forall m, pend g' m = if decide (m = d) then pend g m ++ xs else pend g m) ->
  load n g' = (load n g + length xs)%nat.
Proof.
  intros Hd Hn Hp. unfold load. clear Hroom.
  assert (forall t, NoDup t -> sum_list_with (fun m => if decide (m = n) then 0%nat else length (pend g' m)) t
    = (sum_list_with (fun m => if decide (m = n) then 0%nat else length (pend g m)) t
       + if decide (d ∈ t) then length xs else 0)%nat) as H; [|by rewrite H, decide_True].
  induction t as [|m t IH]; intros Ht; [by rewrite decide_False by apply not_elem_of_nil|].
  apply NoDup_cons in Ht as [Hm Ht]. simpl. rewrite (IH Ht), Hp. destruct (decide (m = d)) as [->|Hmd].
  - rewrite !(decide_False (P := d = n)), (decide_False (P := d ∈ t)), (decide_True (P := d ∈ d :: t)) by (done || by left).
    rewrite length_app. lia.
  - destruct (decide (d ∈ t)); [rewrite (decide_True (P := d ∈ m :: t)) by (by right); lia|].
    rewrite (decide_False (P := d ∈ m :: t)); [lia|]. rewrite elem_of_cons. intros [|]; done.
Qed.

(** From [g] to [g'] the function of [n] has sent [ss]. *)
Record ran (n p : Z) (Q : list Z) (g : rte_graph) (ss : list (Z * list Z)) (Q' : list Z) (g' : rte_graph) : Prop := {
  r_inv : inv (Some n) p Q' g';
  r_self : nodes_mem g' !! n = nodes_mem g !! n;
  r_stream c l : nodes_mem g !! n = Some c -> streams g !! objs c = Some l -> streams g' !! objs c = Some l;
  r_rest : same_rest g g';
  r_pend m : pend g' m = pend g m ++ sent_to m ss;
  r_queue : exists new, Q' = Q ++ new /\ new ⊆ ss.*1;
  r_load : load n g' = (load n g + amount ss)%nat
}.

Lemma sent_to_app m ss1 ss2 : sent_to m (ss1 ++ ss2) = sent_to m ss1 ++ sent_to m ss2.
Proof. unfold sent_to. by rewrite fmap_app, concat_app. Qed.

Lemma amount_app ss1 ss2 : amount (ss1 ++ ss2) = (amount ss1 + amount ss2)%nat.
Proof. apply sum_list_with_app. Qed.

Lemma ran_refl n p Q g : inv (Some n) p Q g -> ran n p Q g [] Q g.
Proof.
  intros I. split; try done; [intros m; by rewrite app_nil_r|exists []; by rewrite app_nil_r].
Qed.

Lemma ran_trans n p Q1 Q2 Q3 g1 g2 g3 ss1 ss2 :
  ran n p Q1 g1 ss1 Q2 g2 -> ran n p Q2 g2 ss2 Q3 g3 -> ran n p Q1 g1 (ss1 ++ ss2) Q3 g3.
Proof.
  intros [A1 A2 A3 (A4 & A5 & A6) A7 (new1 & A8 & A9) A10] [B1 B2 B3 (B4 & B5 & B6) B7 (new2 & B8 & B9) B10].
  split.
  - done.
  - congruence.
  - intros c l E1 E2. apply B3; [congruence|]. by apply A3.
  - unfold same_rest. split_and!; congruence.
  - intros m. by rewrite B7, A7, sent_to_app, app_assoc.
  - exists (new1 ++ new2). rewrite B8, A8, app_assoc. split; [done|]. rewrite fmap_app. intros x [Hx|Hx]%elem_of_app; apply elem_of_app; [left; by apply A9|right; by apply B9].
  - rewrite B10, A10, amount_app. lia.
Qed.

Lemma appended_ran n p Q g d b l xs pu g' :
  inv (Some n) p Q g -> d ∈ topo -> n <> d -> nodes_mem g !! d = Some b -> streams g !! objs b = Some l ->
  pu = (idx b =? 0) && negb (bool_decide (xs = [])) -> appended d b l g xs pu g' ->
  exists Q', ran n p Q g [(d, xs)] Q' g'.
Proof.
  intros I Hd Hnd Eb El Hpu A.
  destruct (appended_inv n p Q g I d b l xs pu g' Hd Hnd Eb El A Hpu) as (I' & Es & Er).
  exists (if pu then Q ++ [d] else Q). split; try done.
  - intros c lc Ec Elc. by apply (appended_other n p Q g I d b l xs pu g' Eb A n c lc).
  - intros m. rewrite (appended_pend n p Q g I d b l xs pu g' Eb El A). unfold sent_to. simpl.
    rewrite app_nil_r. destruct (decide (m = d)) as [->|]; [by rewrite decide_True|].
    rewrite decide_False by congruence. by rewrite app_nil_r.
  - destruct pu; [exists [d]|exists []; rewrite app_nil_r]; (split; [done|]); simpl; [done|apply list_subseteq_nil].
  - simpl. rewrite Nat.add_0_r. apply (load_add n g g' d xs); [done|congruence|].
    apply (appended_pend n p Q g I d b l xs pu g' Eb El A).
Qed.

(** ** One call *)

Lemma dest_facts n p Q g d : inv (Some n) p Q g -> d ∈ topo -> n <> d ->
  exists b l, nodes_mem g !! d = Some b /\ streams g !! objs b = Some l /\ off b = d
    /\ 0 <= idx b <= Z.of_nat (length l) /\ Z.of_nat (length l) = size b /\ size b <= 32768
    /\ idx b <= Z.of_nat (load n g)
    /\ 0 <= nb_src g + tail g < Z.of_nat (length (cir g)).
Proof.
  intros I Hd Hn. destruct (i_nodes _ _ _ _ I d Hd) as [b Eb].
  destruct (i_node _ _ _ _ I d b Eb) as (Ho & Hi & l & El & Hl & Hs & Hle). specialize (Hle ltac:(congruence)).
  exists b, l. split_and!; try done; try lia.
  - pose proof (pend_load n g d Hd ltac:(congruence)) as Hp. rewrite (pend_at g d b l Eb El), length_take in Hp. lia.
  - destruct (i_reel _ _ _ _ I) as (_ & -> & _ & _ & _ & -> & _).
    assert (0 < 2 ^ k) by lia. pose proof (Z.mod_pos_bound (p + Z.of_nat (length Q)) (2 ^ k) ltac:(lia)). lia.
  - destruct (i_reel _ _ _ _ I) as (_ & Hnb & -> & _ & _ & -> & _).
    assert (0 < 2 ^ k) by lia. pose proof (Z.mod_pos_bound (p + Z.of_nat (length Q)) (2 ^ k) ltac:(lia)). lia.
Qed.

Lemma edge_get ns next : edge_ok ns next -> aget ns next = Some (edge ns next) /\ edge ns next ∈ ns.
Proof.
  intros He. pose proof (aget_in ns next He) as E. split; [done|]. unfold edge.
  unfold aget in E at 1. destruct (0 <=? next); [|done]. by eapply list_elem_of_lookup_2.
Qed.

Section running.
Context (n p : Z) (c : rte_node) (lq xs : list Z).
Context (Hxs : take (length xs) lq = xs) (Hedges : forall d, d ∈ nodes c -> d ∈ topo /\ n <> d).

(** The function of [n] runs and its stream still holds its objects. *)
Definition at_work (Q : list Z) (g : rte_graph) : Prop :=
  inv (Some n) p Q g /\ nodes_mem g !! n = Some c /\ streams g !! objs c = Some lq.

Lemma at_work_ran Q g ss Q' g' : at_work Q g -> ran n p Q g ss Q' g' -> at_work Q' g'.
Proof.
  intros (I & Ec & El) R. split; [apply R|]. split; [by rewrite (r_self _ _ _ _ _ _ _ R)|].
  by apply (r_stream _ _ _ _ _ _ _ R).
Qed.

(** A call that appends [ys] to the next node of an edge. *)
Lemma append_call next ys (pu_of : Z -> bool) (op : M rte_graph unit) Q g :
  at_work Q g -> edge_ok (nodes c) next -> Z.of_nat (load n g + length ys) <= 16384 ->
  (forall i, pu_of i = (i =? 0) && negb (bool_decide (ys = []))) ->
  (forall d b l, aget (nodes c) next = Some d -> nodes_mem g !! d = Some b -> streams g !! objs b = Some l ->
     off b = d -> 0 <= idx b <= Z.of_nat (length l) -> Z.of_nat (length l) = size b -> size b <= 32768 ->
     objs c <> objs b -> 0 <= nb_src g + tail g < Z.of_nat (length (cir g)) -> n <> d ->
     idx b + Z.of_nat (length ys) <= 16384 ->
     exists g', op g = Some (tt, g') /\ appended d b l g ys (pu_of (idx b)) g') ->
  exists Q' g', op g = Some (tt, g') /\ ran n p Q g [(edge (nodes c) next, ys)] Q' g'.
Proof.
  intros (I & Ec & Elq) He Hload Hpu Hop. destruct (edge_get _ _ He) as [E Hin].
  destruct (Hedges _ Hin) as [Hd Hn]. set (d := edge (nodes c) next) in *.
  destruct (dest_facts _ _ _ _ d I Hd Hn) as (b & l & Eb & El & Ho & Hi & Hl & Hs & Hidx & Ht).
  destruct (Hop d b l E Eb El Ho Hi Hl Hs) as (g' & Eg & A); [|done|done|lia|].
  { intros Eq. apply Hn. by apply (i_apart _ _ _ _ I n d c b). }
  destruct (appended_ran _ _ _ _ _ _ _ _ _ _ I Hd Hn Eb El (Hpu _) A) as (Q' & R). by exists Q', g'.
Qed.

Lemma x1_ran next a Q g : at_work Q g -> edge_ok (nodes c) next -> Z.of_nat (load n g + 1) <= 16384 ->
  exists Q' g', rte_node_enqueue_x1 alloc n next a g = Some (tt, g') /\ ran n p Q g [(edge (nodes c) next, [a])] Q' g'.
Proof.
  intros W He Hl. apply (append_call next [a] (fun i => i =? 0)); [done..| |].
  { intros i. by rewrite andb_true_r. }
  intros. pose proof W as (_ & ? & _). by eapply enqueue_x1_ok.
Qed.

Lemma array_at src Q g i (m : nat) : at_work Q g -> 0 <= i -> source_ok xs src (i + Z.of_nat (S m)) ->
  exists arr pos a, array_of (objs c) src g = Some ((arr, pos), g) /\ aget arr (pos + i) = Some a
    /\ block_of xs src (i + Z.of_nat (S m)) !! Z.to_nat i = Some a.
Proof.
  intros (_ & _ & El) Hi Hs. destruct src as [pos|l0]; simpl in Hs |- *.
  - destruct (lookup_lt_is_Some_2 xs (Z.to_nat (pos + i))) as [a Ea]; [lia|].
    exists lq, pos, a. split; [|split].
    + mstep. by mrun (lift_run _ _ g El).
    + unfold aget. replace (0 <=? pos + i) with true by lia.
      rewrite <- Hxs in Ea. apply lookup_take_Some in Ea. tauto.
    + rewrite lookup_take_lt, lookup_drop by lia. rewrite <- Ea. f_equal. lia.
  - destruct (lookup_lt_is_Some_2 l0 (Z.to_nat i)) as [a Ea]; [lia|].
    exists l0, 0, a. split; [done|]. split.
    + unfold aget. by replace (0 <=? 0 + i) with true by lia.
    + by rewrite lookup_take_lt by lia.
Qed.

(** The loop of [rte_node_enqueue_next]. *)
Lemma next_ran nexts src : forall (m : nat) i Q g, at_work Q g -> 0 <= i -> i + Z.of_nat m < 2 ^ 16 ->
  (i + Z.of_nat m <= Z.of_nat (length nexts)) -> source_ok xs src (i + Z.of_nat m) ->
  Forall (edge_ok (nodes c)) (take m (drop (Z.to_nat i) nexts)) ->
  Z.of_nat (load n g + m) <= 16384 ->
  exists Q' g', enqueue_next alloc (objs c) n nexts src m i g = Some (tt, g')
    /\ ran n p Q g (zip_with (fun next x => (edge (nodes c) next, [x])) (take m (drop (Z.to_nat i) nexts))
                     (drop (Z.to_nat i) (block_of xs src (i + Z.of_nat m)))) Q' g'.
Proof.
  induction m as [|m IH]; intros i Q g W Hi Hm Hn Hsrc He Hload.
  { exists Q, g. split; [done|]. rewrite take_0. apply ran_refl, W. }
  destruct (lookup_lt_is_Some_2 nexts (Z.to_nat i)) as [next En]; [lia|].
  rewrite (drop_S _ _ _ En) in He |- *. simpl in He |- *. apply list.Forall_cons in He as [He1 He2].
  assert (exists arr pos a, array_of (objs c) src g = Some ((arr, pos), g) /\ aget arr (pos + i) = Some a
    /\ block_of xs src (i + Z.of_nat (S m)) !! Z.to_nat i = Some a) as (arr & pos & a & E1 & E2 & E3).
  { by apply (array_at src Q). }
  rewrite (drop_S _ _ _ E3). simpl.
  erewrite mbind_run by (apply lift_run; unfold aget; rewrite (proj2 (Z.leb_le 0 i)) by done; exact En).
  mrun E1. cbv beta iota. mrun (lift_run _ _ g E2).
  destruct (x1_ran next a Q g W He1 ltac:(lia)) as (Q1 & g1 & Ex & R1). mrun Ex.
  pose proof (at_work_ran _ _ _ _ _ W R1) as W1.
  rewrite wrap_small by (unfold fits; lia).
  destruct (IH (i + 1) Q1 g1 W1 ltac:(lia) ltac:(lia) ltac:(lia)) as (Q2 & g2 & E & R2).
  - by replace (i + 1 + Z.of_nat m) with (i + Z.of_nat (S m)) by lia.
  - by replace (Z.to_nat (i + 1)) with (S (Z.to_nat i)) by lia.
  - rewrite (r_load _ _ _ _ _ _ _ R1). simpl. lia.
  - exists Q2, g2. split; [done|]. replace (i + 1 + Z.of_nat m) with (i + Z.of_nat (S m)) in R2 by lia.
    replace (Z.to_nat (i + 1)) with (S (Z.to_nat i)) in R2 by lia.
    apply (ran_trans _ _ _ _ _ _ _ _ _ _ R1 R2).
Qed.


Lemma call_ran cl Q g : at_work Q g -> call_ok (nodes c) xs cl ->
  Z.of_nat (load n g + amount (sends (nodes c) xs cl)) <= 16384 ->
  exists Q' g', do_call alloc (objs c) n cl g = Some (tt, g') /\ ran n p Q g (sends (nodes c) xs cl) Q' g'.
Proof.
  intros W Hok Hl. pose proof W as (_ & Ec & Elq).
  destruct cl as [next src nb|next a|next a1 a2|next a1 a2 a3 a4|nexts src nb|next nb l|next]; simpl in Hok |- *; [..|done].
  - destruct Hok as (He & Hsrc & Hnb). unfold sends, amount in Hl. simpl in Hl. rewrite Nat.add_0_r in Hl.
    assert (Z.of_nat (length (block_of xs src nb)) = nb) as Lb.
    { destruct src; simpl in Hsrc |- *; rewrite length_take, ?length_drop; lia. }
    apply (append_call next _ (fun i => i =? 0)); [done..| |].
    { intros i. rewrite bool_decide_false, andb_true_r; [done|]. intros E. rewrite E in Lb. simpl in Lb. lia. }
    intros. replace nb with (Z.of_nat (Z.to_nat nb)) by lia. eapply enqueue_ok; try done; [|lia..].
    by replace (Z.of_nat (Z.to_nat nb)) with nb by lia.
  - by apply x1_ran.
  - apply (append_call next _ (fun i => i =? 0)); [done..| |].
    { intros i. by rewrite andb_true_r. }
    intros. by eapply enqueue_x2_ok.
  - apply (append_call next _ (fun i => i =? 0)); [done..| |].
    { intros i. by rewrite andb_true_r. }
    intros. by eapply enqueue_x4_ok.
  - destruct Hok as (Hnb & Hsrc & Hn & He). unfold rte_node_enqueue_next.
    assert (length (block_of xs src nb) = Z.to_nat nb) as Lb.
    { destruct src; simpl in Hsrc |- *; rewrite length_take, ?length_drop; lia. }
    assert (amount (zip_with (fun next x => (edge (nodes c) next, [x])) (take (Z.to_nat nb) nexts) (block_of xs src nb))
      = Z.to_nat nb) as Ha.
    { simpl in Hl. clear -Lb Hn. assert (length (take (Z.to_nat nb) nexts) = Z.to_nat nb) as Lt by (rewrite length_take; lia).
      revert Lb Lt. generalize (Z.to_nat nb) (block_of xs src nb) (take (Z.to_nat nb) nexts). clear.
      intros m l2 l1. revert m l2. induction l1 as [|a1 l1 IH]; intros [|m] [|a2 l2]; simpl; try done.
      intros [= E2] [= E1]. unfold amount in *. simpl. f_equal. by apply IH. }
    simpl in Hl. rewrite Ha in Hl.
    destruct (next_ran nexts src (Z.to_nat nb) 0 Q g W) as (Q' & g' & E & R); try (simpl; lia).
    + by replace (0 + Z.of_nat (Z.to_nat nb)) with nb by lia.
    + done.
    + exists Q', g'. split; [done|]. replace (0 + Z.of_nat (Z.to_nat nb)) with nb in R by lia. done.
  - destruct Hok as (He & Hm). unfold amount in Hl. simpl in Hl. rewrite Nat.add_0_r in Hl.
    apply (append_call next _ (fun i => (i =? 0) && negb (bool_decide (l = [])))); [done..|].
    intros. by eapply fill_ok with (q := objs c).
Qed.

Lemma calls_ran cs : forall Q g, at_work Q g -> Forall (call_ok (nodes c) xs) cs ->
  Z.of_nat (load n g + amount (cs ≫= sends (nodes c) xs)) <= 16384 ->
  exists Q' g', mfor cs (do_call alloc (objs c) n) g = Some (tt, g') /\ ran n p Q g (cs ≫= sends (nodes c) xs) Q' g'.
Proof.
  induction cs as [|cl cs IH]; intros Q g W Hok Hl; [exists Q, g; split; [done|apply ran_refl, W]|].
  apply list.Forall_cons in Hok as [H1 H2]. rewrite bind_cons, amount_app in Hl.
  destruct (call_ran cl Q g W H1 ltac:(lia)) as (Q1 & g1 & E1 & R1).
  destruct (IH Q1 g1) as (Q2 & g2 & E2 & R2); [by eapply at_work_ran|done| |].
  { rewrite (r_load _ _ _ _ _ _ _ R1). lia. }
  exists Q2, g2. split; [|rewrite bind_cons; by eapply ran_trans]. simpl. by mrun E1.
Qed.

(** What holds when the function has returned: its own stream may be another. *)
Record returned (Q : list Z) (g : rte_graph) (ss : list (Z * list Z)) (Q' : list Z) (g' : rte_graph) : Prop := {
  t_inv : inv (Some n) p Q' g';
  t_self : exists c', nodes_mem g' !! n = Some c' /\ 0 <= idx c';
  t_rest : same_rest g g';
  t_pend m : m <> n -> pend g' m = pend g m ++ sent_to m ss;
  t_queue : exists new, Q' = Q ++ new /\ new ⊆ ss.*1;
  t_load : load n g' = (load n g + amount ss)%nat
}.

Lemma ran_returned Q g ss Q' g' : at_work Q g -> ran n p Q g ss Q' g' -> returned Q g ss Q' g'.
Proof.
  intros (I & Ec & _) R. split; try apply R.
  - exists c. rewrite (r_self _ _ _ _ _ _ _ R). split; [done|]. by destruct (i_node _ _ _ _ I n c Ec) as (_ & ? & _).
  - intros m _. apply R.
Qed.

Lemma node_rd_run m b g : nodes_mem g !! m = Some b -> rd m g = Some (b, g).
Proof. by apply lift_run. Qed.

Lemma node_upd_run m f b g : nodes_mem g !! m = Some b ->
  upd m f g = Some (tt, set_nodes_mem (<[m := f b]> (nodes_mem g)) g).
Proof. intros E. unfold upd. by mrun (node_rd_run _ _ _ E). Qed.

(** The exchange of the two streams. *)
Lemma swap_ok Q g d b l :
  at_work Q g -> d ∈ topo -> n <> d -> nodes_mem g !! d = Some b -> streams g !! objs b = Some l -> idx b = 0 ->
  let b' := set_stream (size c) (objs c) b in
  let c' := set_stream (size b) (objs b) c in
  let g' := set_nodes_mem (<[d := b']> (<[n := c']> (nodes_mem g))) g in
  inv (Some n) p Q g' /\ (forall m, m <> n -> pend g' m = pend g m) /\ load n g' = load n g.
Proof.
  intros (I & Ec & Elq) Hd Hn Eb El Hi b' c' g'.
  assert (forall m, m <> n -> m <> d -> nodes_mem g' !! m = nodes_mem g !! m) as Ho.
  { intros m H1 H2. simpl. by rewrite !lookup_insert_ne by done. }
  assert (nodes_mem g' !! d = Some b') as Ed by (simpl; by rewrite lookup_insert_eq).
  assert (nodes_mem g' !! n = Some c') as En by (simpl; by rewrite lookup_insert_ne, lookup_insert_eq by done).
  assert (forall m, m <> n -> pend g' m = pend g m) as Hp.
  { intros m Hm. destruct (decide (m = d)) as [->|].
    - rewrite (pend_at g' d b' lq), (pend_at g d b l) by done. simpl. by rewrite Hi.
    - unfold pend. by rewrite Ho. }
  assert (forall m bm, nodes_mem g' !! m = Some bm -> exists m' bm', nodes_mem g !! m' = Some bm' /\ objs bm' = objs bm
    /\ m' = if decide (m = n) then d else if decide (m = d) then n else m) as Hown.
  { intros m bm Em. destruct (decide (m = n)) as [->|]; [exists d, b; rewrite En in Em; by injection Em as <-|].
    destruct (decide (m = d)) as [->|]; [exists n, c; rewrite Ed in Em; by injection Em as <-|].
    exists m, bm. by rewrite <- Ho. }
  split; [|split; [done|]].
  2:{ unfold load. clear -Hp. induction topo as [|m t IH]; [done|]. simpl. rewrite IH.
      destruct (decide (m = n)); [done|]. by rewrite Hp. }
  split.
  - intros m bm Em. destruct (decide (m = n)) as [->|]; [|destruct (decide (m = d)) as [->|]].
    + rewrite En in Em. injection Em as <-. destruct (i_node _ _ _ _ I n c Ec) as (? & ? & _).
      destruct (i_node _ _ _ _ I d b Eb) as (_ & _ & l1 & ? & ? & ? & _). split; [done|]. split; [done|].
      exists l1. by split_and!.
    + rewrite Ed in Em. injection Em as <-. destruct (i_node _ _ _ _ I d b Eb) as (? & ? & _).
      destruct (i_node _ _ _ _ I n c Ec) as (_ & _ & l1 & ? & ? & ? & _). split; [done|]. split; [done|].
      exists l1. split_and!; try done. intros _. simpl. lia.
    + rewrite Ho in Em by done. by apply (i_node _ _ _ _ I).
  - intros m1 m2 b1 b2 F1 F2 Eo. destruct (Hown m1 b1 F1) as (k1 & a1 & G1 & O1 & K1).
    destruct (Hown m2 b2 F2) as (k2 & a2 & G2 & O2 & K2).
    assert (k1 = k2) as K by (apply (i_apart _ _ _ _ I k1 k2 a1 a2); congruence). subst k1 k2.
    repeat case_decide; congruence.
  - intros m. rewrite <- (i_shape _ _ _ _ I). destruct (decide (m = n)) as [->|]; [by rewrite En, Ec|].
    destruct (decide (m = d)) as [->|]; [by rewrite Ed, Eb|by rewrite Ho].
  - apply (i_reel _ _ _ _ I).
  - destruct (i_queue _ _ _ _ I) as (Q1 & Q2 & Q3 & Q4). split_and!; try done.
    intros m Hm Hc. rewrite Hp by congruence. by apply Q4.
  - intros m Hm. destruct (decide (m = d)) as [->|]; [by eexists|]. destruct (decide (m = n)) as [->|]; [by eexists|].
    rewrite Ho by done. by apply (i_nodes _ _ _ _ I).
Qed.

(** A move to an idle node, which is put on the reel. *)
Lemma move_idle Q g d b l : at_work Q g -> d ∈ topo -> n <> d -> nodes_mem g !! d = Some b ->
  streams g !! objs b = Some l -> off b = d -> idx b = 0 -> idx c = Z.of_nat (length xs) -> xs <> [] ->
  0 <= nb_src g + tail g < Z.of_nat (length (cir g)) ->
  exists Q' g',
    (s ← rd n ; upd d (set_stream (size s) (objs s)) ;; upd n (set_stream (size b) (objs b)) ;;
     s ← rd n ; upd d (set_idx (idx s)) ;; __rte_node_enqueue_tail_update d) g = Some (tt, g')
    /\ returned Q g [(d, xs)] Q' g'.
Proof.
  intros W Hd Hn Eb El Ho Hz Hidx Hne Ht. pose proof W as (I & Ec & Elq).
  destruct (swap_ok Q g d b l W Hd Hn Eb El Hz) as (I' & Hp & Hlo). cbv zeta in *.
  set (b' := set_stream (size c) (objs c) b) in *. set (c' := set_stream (size b) (objs b) c) in *.
  set (g1 := set_nodes_mem (<[d := b']> (<[n := c']> (nodes_mem g))) g) in *.
  assert (length xs <= length lq)%nat by (rewrite <- Hxs at 1; rewrite length_take; lia).
  destruct (i_node _ _ _ _ I n c Ec) as (_ & _ & l0 & El0 & Hl0 & Hs0 & _). rewrite Elq in El0. injection El0 as <-.
  assert (nodes_mem g1 !! d = Some b') as Ed by (simpl; by rewrite lookup_insert_eq).
  pose proof (aset_ok (cir g) (nb_src g + tail g) d Ht) as Ecr. set (cr := <[_ := d]> (cir g)) in Ecr.
  set (g2 := set_tail (Z.land (u32 (tail g + 1)) (cir_mask g)) (set_cir cr g1)).
  assert (writing d b' lq true xs 0 g1 g2 b' lq) as W2.
  { split; try done; simpl; rewrite ?Hz; simpl.
    - by rewrite insert_insert_eq.
    - by rewrite insert_delete_id.
    - by left.
    - lia.
    - done. }
  set (g3 := set_nodes_mem (<[d := set_idx (idx c) b']> (nodes_mem g2)) g2).
  assert (appended d b' lq g1 xs true g3) as A.
  { exists b', lq, g2. split; [done|]. replace (idx b' + Z.of_nat (length xs)) with (idx c); [done|]. simpl. lia. }
  destruct (appended_ran n p Q g1 d b' lq xs true g3 I' Hd Hn Ed Elq) as (Q' & R); [|exact A|].
  { rewrite bool_decide_false by done. simpl. by rewrite Hz. }
  exists Q', g3. split.
  + mrun (node_rd_run _ _ _ Ec). erewrite mbind_run by (by apply node_upd_run).
    erewrite mbind_run by (apply node_upd_run; simpl; by rewrite lookup_insert_ne).
    erewrite mbind_run by (apply node_rd_run; simpl; by rewrite lookup_insert_eq).
    erewrite mbind_run by (apply node_upd_run; simpl; by rewrite lookup_insert_ne, lookup_insert_eq by done).
    unfold __rte_node_enqueue_tail_update. mstep.
    erewrite mbind_run by (apply node_rd_run; simpl; by rewrite lookup_insert_eq).
    cbn [off set_idx set_stream cir nb_src tail set_nodes_mem]. rewrite Ho. erewrite mbind_run by (apply lift_run; exact Ecr). mstep.
    unfold modify, g3, g2, g1, set_tail, set_cir, set_nodes_mem. simpl. do 3 f_equal.
    rewrite (insert_insert_ne (nodes_mem g) n d) by done. by rewrite !insert_insert_eq.
  + destruct (r_rest _ _ _ _ _ _ _ R) as (R1 & R2 & R3). split; try apply R.
    * exists c'. rewrite (r_self _ _ _ _ _ _ _ R). simpl. rewrite lookup_insert_ne, lookup_insert_eq by done.
      split; [done|]. simpl. lia.
    * intros m Hm. by rewrite (r_pend _ _ _ _ _ _ _ R), Hp.
    * by rewrite (r_load _ _ _ _ _ _ _ R), Hlo.
Qed.

Lemma move_returned next Q g : at_work Q g -> edge_ok (nodes c) next -> idx c = Z.of_nat (length xs) -> xs <> [] ->
  Z.of_nat (load n g + length xs) <= 16384 ->
  exists Q' g', rte_node_next_stream_move alloc n next g = Some (tt, g')
    /\ returned Q g [(edge (nodes c) next, xs)] Q' g'.
Proof.
  intros W He Hidx Hne Hload. pose proof W as (I & Ec & Elq). destruct (edge_get _ _ He) as [E Hin].
  destruct (Hedges _ Hin) as [Hd Hn]. set (d := edge (nodes c) next) in *.
  destruct (dest_facts _ _ _ _ d I Hd Hn) as (b & l & Eb & El & Ho & Hi & Hl & Hs & Hib & Ht).
  unfold rte_node_next_stream_move. erewrite mbind_run by (by eapply next_get_ok).
  mrun (node_rd_run _ _ _ Eb). destruct (Z.eqb_spec (idx b) 0) as [Hz|Hz].
  - by apply (move_idle Q g d b l).
  - mrun (node_rd_run _ _ _ Ec).
    destruct (append_call next xs (fun i => i =? 0) (rte_node_enqueue alloc (objs c) n next (Own 0) (idx c)) Q g W He Hload)
      as (Q' & g' & E' & R).
    + intros i. rewrite bool_decide_false by done. by rewrite andb_true_r.
    + intros d0 b0 l0 ? ? ? ? ? ? ? ? ? ? ?. rewrite Hidx.
      cut (exists g', rte_node_enqueue alloc (objs c) n next (Own 0) (Z.of_nat (length xs)) g = Some (tt, g')
        /\ appended d0 b0 l0 g (block_of xs (Own 0) (Z.of_nat (length xs))) (idx b0 =? 0) g').
      { simpl. by rewrite Nat2Z.id, firstn_all. }
      eapply enqueue_ok; try done; simpl. destruct xs; [done|simpl; lia].
    + exists Q', g'. split; [done|]. by apply ran_returned.
Qed.
End running.

(** ** One turn of the walk *)

(** The fields that a node changes outside the calls. *)
Definition same_stream (b b' : rte_node) : Prop :=
  off b' = off b /\ objs b' = objs b /\ size b' = size b /\ shape b' = shape b /\ 0 <= idx b'.

Definition with_node (n : Z) (b : rte_node) (g : rte_graph) : rte_graph := set_nodes_mem (<[n := b]> (nodes_mem g)) g.

Lemma pend_other n b g m : m <> n -> pend (with_node n b g) m = pend g m.
Proof. intros Hm. unfold pend. simpl. by rewrite lookup_insert_ne. Qed.

Lemma load_ext n g g' : (forall m, m <> n -> pend g' m = pend g m) -> load n g' = load n g.
Proof.
  intros Hp. unfold load. clear Hroom Htopo. induction topo as [|m t IH]; [done|]. simpl. rewrite IH.
  destruct (decide (m = n)); [done|]. by rewrite Hp.
Qed.

Lemma touch n p Q g b b' : inv (Some n) p Q g -> nodes_mem g !! n = Some b -> same_stream b b' ->
  inv (Some n) p Q (with_node n b' g).
Proof.
  intros I Eb (H1 & H2 & H3 & H4 & H5).
  assert (forall m bm, nodes_mem (with_node n b' g) !! m = Some bm ->
    exists bm', nodes_mem g !! m = Some bm' /\ objs bm' = objs bm) as Hown.
  { intros m bm. simpl. destruct (decide (m = n)) as [->|]; [|rewrite lookup_insert_ne by done; by exists bm].
    rewrite lookup_insert_eq. intros [= <-]. by exists b. }
  split.
  - intros m bm Em. simpl in *. destruct (decide (m = n)) as [->|].
    + rewrite lookup_insert_eq in Em. injection Em as <-.
      destruct (i_node _ _ _ _ I n b Eb) as (? & _ & l & ? & ? & ? & _). split; [congruence|]. split; [done|].
      exists l. rewrite H2, H3. by split_and!.
    + rewrite lookup_insert_ne in Em by done. by apply (i_node _ _ _ _ I).
  - intros m1 m2 b1 b2 F1 F2 Eo. destruct (Hown _ _ F1) as (a1 & G1 & O1), (Hown _ _ F2) as (a2 & G2 & O2).
    apply (i_apart _ _ _ _ I m1 m2 a1 a2); congruence.
  - intros m. rewrite <- (i_shape _ _ _ _ I). simpl. destruct (decide (m = n)) as [->|]; [|by rewrite lookup_insert_ne].
    rewrite lookup_insert_eq, Eb. cbn [fmap option_fmap option_map]. by rewrite H4.
  - apply (i_reel _ _ _ _ I).
  - destruct (i_queue _ _ _ _ I) as (Q1 & Q2 & Q3 & Q4). split_and!; try done.
    intros m Hm Hc. rewrite pend_other by congruence. by apply Q4.
  - intros m Hm. simpl. destruct (decide (m = n)) as [->|]; [by rewrite lookup_insert_eq|].
    rewrite lookup_insert_ne by done. by apply (i_nodes _ _ _ _ I).
Qed.

(** The node is empty again. *)
Lemma close n p Q g b b' : inv (Some n) p Q g -> nodes_mem g !! n = Some b -> same_stream b b' -> idx b' = 0 ->
  inv None p Q (with_node n b' g) /\ pend (with_node n b' g) n = [].
Proof.
  intros I Eb Hs Hi. pose proof (touch n p Q g b b' I Eb Hs) as I'.
  assert (pend (with_node n b' g) n = []) as Hp by (unfold pend; simpl; by rewrite lookup_insert_eq, Hi).
  split; [|done]. pose proof I' as [J1 J2 J3 J4 (Q1 & Q2 & Q3 & Q4) J6]. split; try done.
  - intros m bm Em. destruct (J1 m bm Em) as (? & ? & l & ? & ? & ? & Hle). split; [done|]. split; [done|].
    exists l. split_and!; try done. intros _. destruct (decide (m = n)) as [->|].
    + simpl in Em. rewrite lookup_insert_eq in Em. injection Em as <-. lia.
    + apply Hle. congruence.
  - split_and!; try done. intros m Hm _. destruct (decide (m = n)) as [->|]; [|apply Q4; congruence].
    split; [|done]. intros Hq. by destruct (Q3 n eq_refl).
Qed.

Lemma inv_ext cur p Q g g' : nodes_mem g' = nodes_mem g -> streams g' = streams g -> cir g' = cir g -> tail g' = tail g ->
  cir_mask g' = cir_mask g -> nb_src g' = nb_src g -> inv cur p Q g -> inv cur p Q g'.
Proof.
  destruct g, g'. simpl. intros -> -> -> -> -> -> [? ? ? ? ? ?]. by split.
Qed.

Lemma sends_edges ns xs most cs d : calls_ok ns xs most cs -> d ∈ (cs ≫= sends ns xs).*1 -> d ∈ ns.
Proof.
  intros H (s & -> & Hs)%list_elem_of_fmap. destruct H as [(next & -> & He & _)|[Hok _]].
  { simpl in Hs. apply elem_of_cons in Hs as [->|[]%not_elem_of_nil]. by apply edge_get. }
  apply list_elem_of_bind in Hs as (cl & Hs & Hcl). rewrite list.Forall_forall in Hok. specialize (Hok cl Hcl).
  destruct cl as [next src nb|next a|next a1 a2|next a1 a2 a3 a4|nexts src nb|next nb l|next]; simpl in Hok, Hs; [..|done].
  1-4,6: apply elem_of_cons in Hs as [->|[]%not_elem_of_nil]; apply edge_get; tauto.
  apply list_elem_of_lookup in Hs as [i Hi]. apply lookup_zip_with_Some in Hi as (next & x & -> & E & _).
  destruct Hok as (_ & _ & _ & He). apply edge_get. by eapply Forall_lookup_1.
Qed.

(** From [g] to [g'] the function of [n] has been called and has sent [ss]. *)
Record turn (n : Z) (Q : list Z) (g : rte_graph) (ev : event) (ss : list (Z * list Z)) (Q' : list Z) (g' : rte_graph)
  : Prop := {
  u_head : head g' = head g;
  u_log : log g' = log g ++ [ev];
  u_pend m : m <> n -> pend g' m = pend g m ++ sent_to m ss;
  u_queue : exists new, Q' = Q ++ new /\ new ⊆ ss.*1;
  u_load : load n g' = (load n g + amount ss)%nat
}.

Section process.
Context (n p : Z) (Q : list Z) (g : rte_graph) (b : rte_node) (lq xs : list Z) (calls : list call) (rc : Z)
  (ctx' : list Z) (most : nat).
Context (I : inv (Some n) p Q g) (Eb : nodes_mem g !! n = Some b) (Elq : streams g !! objs b = Some lq).
Context (Hxs : xs = take (Z.to_nat (idx b)) lq) (Hidx : idx b <= Z.of_nat (length lq)).
Context (Hproc : process b (ctx b) xs = (calls, rc, ctx')) (Hcalls : calls_ok (nodes b) xs most calls).
Context (Hedges : forall d, d ∈ nodes b -> d ∈ topo /\ n <> d) (Hload : Z.of_nat (load n g + most) <= 16384).

Let ss : list (Z * list Z) := calls ≫= sends (nodes b) xs.

Lemma process_ok :
  exists Q' g', do_process alloc n g = Some (u16 rc, g') /\ inv (Some n) p Q' g'
    /\ (exists c, nodes_mem g' !! n = Some c /\ 0 <= idx c) /\ turn n Q g (mk_event n xs calls) ss Q' g'.
Proof.
  destruct (i_node _ _ _ _ I n b Eb) as (_ & Hi & _).
  set (c := set_ctx ctx' b). set (g1 := set_log (log g ++ [mk_event n xs calls]) (with_node n c g)).
  assert (length xs = Z.to_nat (idx b)) as Lx by (rewrite Hxs, length_take; lia).
  assert (take (length xs) lq = xs) as Hx by (by rewrite Lx).
  assert (inv (Some n) p Q g1) as I1.
  { apply (inv_ext _ _ _ (with_node n c g)); try done. by apply (touch n p Q g b). }
  assert (nodes_mem g1 !! n = Some c) as Ec by (simpl; by rewrite lookup_insert_eq).
  assert (forall m, m <> n -> pend g1 m = pend g m) as Hp by (intros m Hm; by apply (pend_other n c g)).
  pose proof (load_ext n g g1 Hp) as Hlo.
  assert (exists Q' g', mfor calls (do_call alloc (objs b) n) g1 = Some (tt, g') /\ returned n p Q g1 ss Q' g')
    as (Q' & g' & E & R).
  { assert (at_work n p c lq Q g1) as W by (by split_and!).
    destruct Hcalls as [(next & -> & He & Hne & Hm)|[Hok Ham]].
    - destruct (move_returned n p c lq xs Hx Hedges next Q g1 W He) as (Q' & g' & E & R); [simpl; lia|done|lia|].
      exists Q', g'. split; [|by unfold ss; simpl]. unfold mfor, do_call. by mrun E.
    - destruct (calls_ran n p c lq xs Hx Hedges calls Q g1 W Hok) as (Q' & g' & E & R).
      { rewrite Hlo. unfold ss in *. simpl in *. lia. }
      exists Q', g'. split; [done|]. by apply (ran_returned n p c lq). }
  exists Q', g'. split.
  { unfold do_process. mrun (node_rd_run _ _ _ Eb). mstep. mrun (lift_run _ _ g Elq). cbv zeta. rewrite <- Hxs, Hproc.
    erewrite mbind_run by (by apply node_upd_run). mstep. erewrite mbind_run by exact E. done. }
  split; [apply R|]. split; [apply R|]. destruct (t_rest _ _ _ _ _ _ _ R) as (R1 & _ & R3). split.
  - done.
  - done.
  - intros m Hm. by rewrite (t_pend _ _ _ _ _ _ _ R), Hp.
  - apply R.
  - by rewrite (t_load _ _ _ _ _ _ _ R), Hlo.
Qed.

Lemma body_ok h gp : g = set_clock (S (clock gp)) gp -> aget (cir g) (nb_src g + sint32 h) = Some n ->
  exists Q' g', walk_body alloc tsc h gp
      = Some (if 0 <? sint32 (u32 (h + 1)) then Z.land (u32 (h + 1)) (2 ^ k - 1) else u32 (h + 1), g')
    /\ inv None p Q' g' /\ pend g' n = [] /\ turn n Q g (mk_event n xs calls) ss Q' g'.
Proof.
  intros Eg Hh. destruct process_ok as (Q' & g1 & E1 & I1 & (c & Ec & Hc) & T).
  set (g2 := set_clock (S (clock g1)) g1).
  set (c2 := set_totals (u64 (total_cycles c + u64 (u64 (tsc (clock g1)) - u64 (tsc (clock gp))))) (u64 (total_calls c + 1))
               (u64 (total_objs c + u16 rc)) c).
  destruct (close n p Q' (with_node n c2 g2) c2 (set_idx 0 c2)) as [I3 P3].
  { apply (touch n p Q' g2 c); [by apply (inv_ext _ _ _ g1)|done|by split_and!]. }
  { simpl. by rewrite lookup_insert_eq. }
  { split_and!; done. }
  { done. }
  set (g3 := with_node n (set_idx 0 c2) (with_node n c2 g2)) in *. exists Q', g3. split; [|split; [done|split; [done|]]].
  - unfold walk_body. mstep. erewrite mbind_run by (apply lift_run; subst g; exact Hh).
    cbv zeta. change (truthy rte_graph_has_stats_feature) with true. cbv iota.
    erewrite mbind_run.
    2:{ mstep. rewrite <- Eg. mrun E1. mstep. by erewrite node_upd_run. }
    fold g2. erewrite mbind_run by (apply node_upd_run; simpl; by rewrite lookup_insert_eq). mstep.
    destruct (i_reel _ _ _ _ I3) as (<- & _). done.
  - assert (forall m, m <> n -> pend g3 m = pend g1 m) as Hp.
    { intros m Hm. unfold g3. by rewrite !pend_other by done. }
    split; try apply T.
    + intros m Hm. rewrite Hp by done. by apply T.
    + rewrite (load_ext n g1 g3 Hp). apply T.
Qed.
End process.

(** ** The objects that wait *)

Definition total (g : rte_graph) : nat := sum_list_with (fun m => length (pend g m)) topo.

Lemma total_load n g : total g = (load n g + if decide (n ∈ topo) then length (pend g n) else 0)%nat.
Proof.
  unfold total, load. clear Hroom. induction topo as [|m t IH]; [done|].
  apply NoDup_cons in Htopo as [Hm Ht]. simpl. rewrite (IH Ht). destruct (decide (m = n)) as [->|Hmn].
  - rewrite (decide_False (P := n ∈ t)), (decide_True (P := n ∈ n :: t)) by (done || by left). lia.
  - destruct (decide (n ∈ t)); [rewrite (decide_True (P := n ∈ m :: t)) by (by right); lia|].
    rewrite (decide_False (P := n ∈ m :: t)); [lia|]. rewrite elem_of_cons. intros [|]; done.
Qed.

(** ** Taking the next node *)

Lemma take_source p Q g n : inv None p Q g -> n ∉ topo -> inv (Some n) p Q g.
Proof.
  intros [J1 J2 J3 J4 (Q1 & Q2 & Q3 & Q4) J6] Hn. split; try done.
  - intros m bm Em. destruct (J1 m bm Em) as (? & ? & l & ? & ? & ? & Hle). split; [done|]. split; [done|].
    exists l. split_and!; try done. intros _. by apply Hle.
  - split_and!; try done.
    + intros ? [= <-]. contradict Hn. by apply Q2.
    + intros m Hm _. by apply Q4.
Qed.

Lemma take_pending p Q g n : inv None p (n :: Q) g -> inv (Some n) ((p + 1) mod 2 ^ k) Q g.
Proof.
  assert (0 < 2 ^ k) as Hpow by lia.
  intros [J1 J2 J3 (R1 & R2 & R3 & R4 & R5 & R6 & R7) (Q1 & Q2 & Q3 & Q4) J6].
  apply NoDup_cons in Q1 as [Hn Q1]. split; try done.
  - intros m bm Em. destruct (J1 m bm Em) as (? & ? & l & ? & ? & ? & Hle). split; [done|]. split; [done|].
    exists l. split_and!; try done. intros _. by apply Hle.
  - split_and!; try done.
    + apply Z.mod_pos_bound. lia.
    + apply Z.mod_pos_bound. lia.
    + rewrite R6, Z.add_mod_idemp_l by lia. simpl. f_equal. lia.
    + intros j m Hj. rewrite Z.add_mod_idemp_l by lia. rewrite <- (R7 (S j) m Hj). do 3 f_equal. lia.
  - split_and!; try done.
    + intros m Hm. apply Q2. by right.
    + by intros ? [= <-].
    + intros m Hm Hc. rewrite <- (Q4 m Hm) by done. rewrite elem_of_cons. split; [by right|]. intros [->|]; [congruence|done].
Qed.

(** ** The walk *)

Definition edges_of (n : Z) : list Z := match nodes_mem g0 !! n with Some b => nodes b | None => [] end.

(** What a call of a process function sends. *)
Definition ev_sends (e : event) : list (Z * list Z) := e_calls e ≫= sends (edges_of (e_node e)) (e_objs e).

Definition sent (m : Z) (evs : list event) : list Z := concat ((fun e => sent_to m (ev_sends e)) <$> evs).

(** The objects that the function of [m] was given. *)
Definition delivered (m : Z) (evs : list event) : list Z :=
  concat ((fun e => if decide (e_node e = m) then e_objs e else []) <$> evs).

(** [e] is a call of the function of its node, in some context. *)
Definition real (e : event) : Prop :=
  exists b c, nodes_mem g0 !! e_node e = Some b /\ e_calls e = (process b c (e_objs e)).1.1.

Context (gen : nat).
Context (Hsrcs : forall s, s ∈ srcs -> (s ∉ topo) /\ is_Some (nodes_mem g0 !! s)).
Context (Hnsrc : Z.of_nat (length srcs) <= 2 ^ 31).
Context (Hedge : forall n b d, nodes_mem g0 !! n = Some b -> d ∈ nodes b ->
  d ∈ topo /\ (n ∈ topo -> exists pre post, topo = pre ++ n :: post /\ nodes b ⊆ post)).
Context (Hproc : forall n b c xs calls rc c', nodes_mem g0 !! n = Some b -> process b c xs = (calls, rc, c') ->
  (n ∈ topo -> xs <> []) -> calls_ok (nodes b) xs (if decide (n ∈ topo) then length xs else gen) calls).

Lemma edge_apart n b d : nodes_mem g0 !! n = Some b -> d ∈ nodes b -> d ∈ topo /\ n <> d.
Proof.
  intros Eb Hd. destruct (Hedge n b d Eb Hd) as [Ht Ho]. split; [done|]. intros ->.
  destruct (Ho Ht) as (pre & post & E & Hs). rewrite E in Htopo. apply NoDup_app in Htopo as (_ & _ & Hn).
  apply NoDup_cons in Hn as [Hn _]. by apply Hn, Hs.
Qed.

Lemma sent_to_none m ss : m ∉ ss.*1 -> sent_to m ss = [].
Proof.
  unfold sent_to. induction ss as [|[d ys] ss IH]; [done|]. simpl. rewrite elem_of_cons. intros Hn.
  rewrite decide_False by (intros ->; tauto). apply IH. tauto.
Qed.

(** The state of the loop: [i] sources have been called, [Q] is pending from [p]
    on, [evs] are the calls so far. *)
Record walking (i : nat) (p : Z) (Q : list Z) (evs : list event) (h : Z) (g : rte_graph) : Prop := {
  k_inv : inv None p Q g;
  k_src : (i <= length srcs)%nat;
  k_head : h = if decide (i = length srcs) then p else 2 ^ 32 - Z.of_nat (length srcs - i);
  k_first : i <> length srcs -> p = 0;
  k_graph : head g = head g0 /\ log g = log g0 ++ evs;
  k_objs m : m ∈ topo -> delivered m evs ++ pend g m = pend g0 m ++ sent m evs;
  k_nodes : exists ns, (e_node <$> evs) = take i srcs ++ ns /\ ns ⊆ topo /\ (i <> length srcs -> ns = []);
  k_real : Forall real evs;
  k_total : Z.of_nat (total g + gen * (length srcs - i)) <= 16384
}.

(** What a turn leaves of the accounts. *)
Lemma account n Q evs g ev ss Q' g' : turn n Q g ev ss Q' g' -> pend g' n = [] ->
  e_node ev = n -> e_objs ev = pend g n -> ss = ev_sends ev -> n ∉ ss.*1 ->
  (forall m, m ∈ topo -> delivered m evs ++ pend g m = pend g0 m ++ sent m evs) ->
  (forall m, m ∈ topo -> delivered m (evs ++ [ev]) ++ pend g' m = pend g0 m ++ sent m (evs ++ [ev]))
  /\ (total g' + (if decide (n ∈ topo) then length (pend g n) else 0) = total g + amount ss)%nat.
Proof.
  intros T Hp Hn Ho Hss Hns Hm. split.
  - intros m Hmt. unfold delivered, sent. rewrite !fmap_app, !concat_app. simpl. rewrite !app_nil_r.
    fold (delivered m evs) (sent m evs). rewrite app_assoc, <- (Hm m Hmt), <- Hss, Hn.
    destruct (decide (n = m)) as [<-|Hne].
    + by rewrite Hp, Ho, sent_to_none, !app_nil_r.
    + rewrite (u_pend _ _ _ _ _ _ _ T) by done. by rewrite app_nil_r, app_assoc.
  - rewrite (total_load n g), (total_load n g'), Hp, (u_load _ _ _ _ _ _ _ T). simpl. destruct (decide (n ∈ topo)); lia.
Qed.

Lemma calls_amount ns xs most cs : calls_ok ns xs most cs -> (amount (cs ≫= sends ns xs) <= most)%nat.
Proof. intros [(next & -> & _ & _ & H)|[_ H]]; [|done]. unfold amount. simpl. lia. Qed.

(** The node [n] is called. *)
Lemma turn_ok n p p1 Q Q1 g h :
  inv None p Q g -> inv (Some n) p1 Q1 g -> is_Some (nodes_mem g0 !! n) -> (n ∈ topo -> pend g n <> []) ->
  Z.of_nat (load n g + if decide (n ∈ topo) then length (pend g n) else gen) <= 16384 ->
  aget (cir g) (nb_src g + sint32 h) = Some n ->
  exists Q' g' ev, walk_body alloc tsc h g
      = Some (if 0 <? sint32 (u32 (h + 1)) then Z.land (u32 (h + 1)) (2 ^ k - 1) else u32 (h + 1), g')
    /\ inv None p1 Q' g' /\ pend g' n = [] /\ turn n Q1 g ev (ev_sends ev) Q' g'
    /\ e_node ev = n /\ e_objs ev = pend g n /\ real ev
    /\ (amount (ev_sends ev) <= if decide (n ∈ topo) then length (pend g n) else gen)%nat
    /\ (ev_sends ev).*1 ⊆ edges_of n.
Proof.
  intros I0 I [b0 Eb0] Hne Hload Hh. pose proof (i_shape _ _ _ _ I n) as Hsh. rewrite Eb0 in Hsh.
  destruct (nodes_mem g !! n) as [b|] eqn:Eb; [|done]. injection Hsh as Hpr Hno.
  destruct (i_node _ _ _ _ I0 n b Eb) as (_ & Hi & lq & Elq & Hlq & _ & Hle). specialize (Hle ltac:(done)).
  rewrite (pend_at g n b lq Eb Elq) in *. set (xs := take (Z.to_nat (idx b)) lq) in *.
  destruct (process b (ctx b) xs) as [[calls rc] ctx'] eqn:Ep.
  assert (calls_ok (nodes b) xs (if decide (n ∈ topo) then length xs else gen) calls) as Hok.
  { rewrite Hno. eapply (Hproc n b0 (ctx b)); [done|by rewrite <- Hpr|done]. }
  assert (edges_of n = nodes b) as Eed by (unfold edges_of; by rewrite Eb0).
  set (ev := mk_event n xs calls). set (g1 := set_clock (S (clock g)) g).
  assert (inv (Some n) p1 Q1 g1) as I1 by (by apply (inv_ext _ _ _ g)).
  destruct (body_ok n p1 Q1 g1 b lq xs calls rc ctx' (if decide (n ∈ topo) then length xs else gen) I1 Eb Elq eq_refl ltac:(lia) Ep Hok)
    with (h := h) (gp := g) as (Q' & g' & E & I' & Hp' & T); [..|done|done|].
  { intros d Hd. apply (edge_apart n b0); [done|]. by rewrite <- Hno. }
  { done. }
  exists Q', g', ev. assert (ev_sends ev = calls ≫= sends (nodes b) xs) as Es by (unfold ev_sends; simpl; by rewrite Eed).
  rewrite Es. split; [done|]. split; [done|]. split; [done|]. split; [destruct T; by split|]. split; [done|].
  split; [done|]. split; [exists b0, (ctx b); split; [done|]; simpl; by rewrite <- Hpr, Ep|].
  split; [by apply calls_amount|]. rewrite Eed. intros d Hd. by eapply sends_edges.
Qed.

Definition turns_left (i : nat) (Q : list Z) : nat := (length srcs - i) * 2 ^ length topo + weight Q topo.

Lemma head_range cur p Q g : inv cur p Q g -> 0 <= p < 2 ^ k /\ 0 < 2 ^ k <= 2 ^ 30 /\ 0 <= tail g < 2 ^ k.
Proof.
  intros I. destruct (i_reel _ _ _ _ I) as (_ & _ & _ & _ & Hp & -> & _).
  split; [done|]. split; [|apply Z.mod_pos_bound; lia]. split; [lia|]. apply Z.pow_le_mono_r; lia.
Qed.

Lemma sint32_high x : 2 ^ 31 <= x < 2 ^ 32 -> sint32 x = x - 2 ^ 32.
Proof.
  intros Hx. unfold sint32, swrap. rewrite Z.mod_small by lia.
  destruct (Z.ltb_spec x (2 ^ (32 - 1))); [lia|done].
Qed.

Lemma source_turn i p Q evs h g : walking i p Q evs h g -> i <> length srcs ->
  exists Q' evs' h' g', walk_body alloc tsc h g = Some (h', g') /\ walking (S i) p Q' evs' h' g'
    /\ (turns_left (S i) Q' < turns_left i Q)%nat.
Proof.
  intros [I Hi Hh Hfirst (Hg & Hlog) Hobjs (ns & Hns & Hns1 & Hns2) Hreal Htot] Hne.
  rewrite decide_False in Hh by done. rewrite (Hns2 Hne), app_nil_r in Hns. pose proof (Hfirst Hne) as ->.
  destruct (lookup_lt_is_Some_2 srcs i) as [n En]; [lia|].
  destruct (Hsrcs n) as [Hnt Hnode]; [by eapply list_elem_of_lookup_2|].
  assert (sint32 h = - Z.of_nat (length srcs - i)) as Eh.
  { rewrite sint32_high by lia. lia. }
  destruct (i_reel _ _ _ _ I) as (R1 & R2 & R3 & R4 & _).
  destruct (turn_ok n 0 0 Q Q g h I (take_source _ _ _ _ I Hnt) Hnode) as (Q' & g' & ev & E & I' & Hp & T & U1 & U2 & U3 & U4 & U5).
  - done.
  - rewrite decide_False by done. pose proof (total_load n g) as Et. rewrite decide_False in Et by done. nia.
  - rewrite Eh, R2. replace (_ + _) with (Z.of_nat i) by lia. rewrite aget_nat.
    rewrite <- R4 in En. by apply lookup_take_Some in En as [En _].
  - destruct (u_queue _ _ _ _ _ _ _ T) as (new & -> & Hnew).
    destruct (account n Q evs g ev (ev_sends ev) _ g' T Hp U1 U2 eq_refl) as [A1 A2]; [|done|].
    { intros Hx%U5. unfold edges_of in Hx. destruct Hnode as [b Eb]. rewrite Eb in Hx. by destruct (edge_apart n b n Eb Hx). }
    rewrite decide_False in A2, U4 by done.
    eexists (Q ++ new), (evs ++ [ev]), _, g'. split; [exact E|]. split.
    + split; try done.
      * lia.
      * destruct (decide (S i = length srcs)) as [Hs|Hs].
        -- replace (h + 1) with (2 ^ 32) by lia. by rewrite wrap_wrap || reflexivity.
        -- rewrite wrap_small by (unfold fits; lia). rewrite sint32_high by lia. replace (0 <? _) with false by lia. lia.
      * rewrite (u_head _ _ _ _ _ _ _ T), (u_log _ _ _ _ _ _ _ T), Hlog, app_assoc. done.
      * exists []. rewrite fmap_app, Hns. simpl. rewrite U1, app_nil_r. split_and!; [|apply list_subseteq_nil|done].
        by rewrite (take_S_r _ _ _ En).
      * apply Forall_app. split; [done|by apply Forall_singleton].
      * nia.
    + unfold turns_left. pose proof (weight_lt (Q ++ new) topo). nia.
Qed.

Lemma pending_turn p n Q evs h g : walking (length srcs) p (n :: Q) evs h g ->
  exists p' Q' evs' h' g', walk_body alloc tsc h g = Some (h', g') /\ walking (length srcs) p' Q' evs' h' g'
    /\ (turns_left (length srcs) Q' < turns_left (length srcs) (n :: Q))%nat.
Proof.
  intros [I Hi Hh Hfirst (Hg & Hlog) Hobjs (ns & Hns & Hns1 & Hns2) Hreal Htot].
  rewrite decide_True in Hh by done. subst h. destruct (head_range _ _ _ _ I) as (Hp & Hpow & _).
  destruct (i_queue _ _ _ _ I) as (Q1 & Q2 & _ & Q4). assert (n ∈ topo) as Hnt by (apply Q2; by left).
  assert (is_Some (nodes_mem g0 !! n)) as Hnode.
  { destruct (i_nodes _ _ _ _ I n Hnt) as [b Eb]. pose proof (i_shape _ _ _ _ I n) as Hsh.
    rewrite Eb in Hsh. destruct (nodes_mem g0 !! n); [by eexists|done]. }
  destruct (i_reel _ _ _ _ I) as (_ & _ & _ & _ & _ & _ & R7). specialize (R7 0%nat n eq_refl).
  rewrite Z.add_0_r, Z.mod_small in R7 by lia.
  destruct (turn_ok n p _ _ Q g p I (take_pending _ _ _ _ I) Hnode) as (Q' & g' & ev & E & I' & Hpe & T & U1 & U2 & U3 & U4 & U5).
  - intros _. apply Q4; [done|done|by left].
  - rewrite decide_True by done. pose proof (total_load n g) as Et. rewrite decide_True in Et by done. nia.
  - unfold sint32. by rewrite swrap_small by lia.
  - destruct (u_queue _ _ _ _ _ _ _ T) as (new & -> & Hnew).
    destruct Hnode as [b Eb]. assert (edges_of n = nodes b) as Eed by (unfold edges_of; by rewrite Eb).
    destruct (account n Q evs g ev (ev_sends ev) _ g' T Hpe U1 U2 eq_refl) as [A1 A2]; [|done|].
    { intros Hx%U5. rewrite Eed in Hx. by destruct (edge_apart n b n Eb Hx). }
    rewrite decide_True in A2, U4 by done.
    eexists _, (Q ++ new), (evs ++ [ev]), _, g'. split; [exact E|]. split.
    + split; try done.
      * rewrite decide_True, wrap_small by (done || unfold fits; lia). unfold sint32. rewrite swrap_small by lia.
        replace (0 <? p + 1) with true by lia. by rewrite land_mask by lia.
      * by rewrite (u_head _ _ _ _ _ _ _ T), (u_log _ _ _ _ _ _ _ T), Hlog, app_assoc.
      * exists (ns ++ [n]). rewrite fmap_app, Hns. simpl. rewrite U1, app_assoc. split_and!; [done| |done].
        intros x [Hx|[->|[]%not_elem_of_nil]%elem_of_cons]%elem_of_app; [by apply Hns1|done].
      * apply Forall_app. split; [done|by apply Forall_singleton].
      * nia.
    + unfold turns_left. apply Nat.add_lt_mono_l.
      assert (exists pre post, topo = pre ++ n :: post /\ new ⊆ post) as (pre & post & Et & Hs).
      { destruct (nodes b) as [|d0 ds] eqn:En.
        - destruct (list_elem_of_split _ _ Hnt) as (pre & post & Et). exists pre, post. split; [done|].
          intros x Hx%Hnew%U5. rewrite Eed in Hx. by apply not_elem_of_nil in Hx.
        - destruct (Hedge n b d0 Eb) as (_ & Ho); [rewrite En; by left|]. destruct (Ho Hnt) as (pre & post & Et & Hs).
          exists pre, post. split; [done|]. intros x Hx%Hnew%U5. rewrite Eed in Hx. apply Hs. by rewrite En. }
      apply NoDup_cons in Q1 as [Hn _]. rewrite Et in Htopo |- *. by apply weight_step.
Qed.

Lemma walking_end i p Q evs h g : walking i p Q evs h g -> (h =? tail g) = bool_decide (i = length srcs /\ Q = []).
Proof.
  intros [I Hi Hh _ _ _ _ _ _]. destruct (head_range _ _ _ _ I) as (Hp & Hpow & Ht).
  destruct (i_reel _ _ _ _ I) as (_ & _ & _ & _ & _ & Htail & _). destruct (decide (i = length srcs)) as [->|Hne].
  - subst h. destruct Q as [|n Q].
    + rewrite bool_decide_true by done. rewrite Htail, Z.add_0_r, Z.mod_small by lia. lia.
    + rewrite bool_decide_false by (intros [_ ?]; done). apply Z.eqb_neq. intros E. rewrite Htail in E.
      pose proof (queue_short _ _ _ _ I) as Hs. set (q := length (n :: Q)) in *. assert (0 < q)%nat by (subst q; simpl; lia).
      assert ((p + Z.of_nat q) mod 2 ^ k = p mod 2 ^ k) as E' by (rewrite <- E; symmetry; apply Z.mod_small; lia).
      apply Z.cong_iff_0 in E'. replace (p + Z.of_nat q - p) with (Z.of_nat q) in E' by lia.
      rewrite Z.mod_small in E' by lia. lia.
  - rewrite bool_decide_false by tauto. lia.
Qed.

Lemma loop_ok fuel : forall i p Q evs h g, walking i p Q evs h g -> (turns_left i Q < fuel)%nat ->
  exists p' evs' h' g',
    while fuel (fun '(head, g) => negb (head =? tail g)) (fun '(head, g) => walk_body alloc tsc head g) (h, g) = Some (h', g')
    /\ walking (length srcs) p' [] evs' h' g'.
Proof.
  induction fuel as [|fuel IH]; intros i p Q evs h g W Hf; [lia|]. simpl.
  rewrite (walking_end _ _ _ _ _ _ W). case_bool_decide as C.
  - destruct C as [-> ->]. by exists p, evs, h, g.
  - simpl. destruct (decide (i = length srcs)) as [->|Hne].
    + destruct Q as [|n Q]; [tauto|].
      destruct (pending_turn _ _ _ _ _ _ W) as (p' & Q' & evs' & h' & g' & -> & W' & Hm).
      apply (IH _ _ _ _ _ _ W'). lia.
    + destruct (source_turn _ _ _ _ _ _ W Hne) as (Q' & evs' & h' & g' & -> & W' & Hm).
      apply (IH _ _ _ _ _ _ W'). lia.
Qed.
End Walk.
