(* ===== verification/GraphThm.v ===== *)
(** * What a walk over a graph delivers ([Graph], [GraphSpec]).

    The theorem on whole walks, and two ways to lose objects. *)
From stdpp Require Import prelude list numbers gmap.
From S2P Require Import Prelude Bits Graph GraphSpec.
Open Scope Z_scope.

(** A graph that can be walked: [topo] lists the nodes that are no sources, each
    before those that it sends to; [srcs] are the sources; the reel has [2 ^ k]
    entries; a node sends no more objects than it is given and a source no more
    than [gen]; all in all there are few enough for the 16-bit indexes. *)
Record graph_ok (topo srcs : list Z) (k : Z) (gen : nat) (g : rte_graph) : Prop := {
  go_size : 0 <= k <= 30 /\ Z.of_nat (length topo) < 2 ^ k /\ Z.of_nat (length srcs) <= 2 ^ 31;
  go_topo : NoDup topo;
  go_srcs s : s ∈ srcs -> (s ∉ topo) /\ is_Some (nodes_mem g !! s);
  go_edges n b d : nodes_mem g !! n = Some b -> d ∈ nodes b ->
    d ∈ topo /\ (n ∈ topo -> exists pre post, topo = pre ++ n :: post /\ nodes b ⊆ post);
  go_process n b c xs calls rc c' : nodes_mem g !! n = Some b -> process b c xs = (calls, rc, c') ->
    (n ∈ topo -> xs <> []) -> calls_ok (nodes b) xs (if decide (n ∈ topo) then length xs else gen) calls;
  go_head : head g = u32 (- Z.of_nat (length srcs));
  go_reel : exists Q, inv topo srcs k g None 0 Q g;
  go_total : Z.of_nat (total topo g + gen * length srcs) <= 16384
}.

Definition walk_fuel (topo srcs : list Z) : nat := (length srcs + 1) * 2 ^ length topo.

Lemma inv_base topo srcs k g0 g1 cur p Q g :
  inv topo srcs k g0 cur p Q g -> (forall n, shape <$> nodes_mem g !! n = shape <$> nodes_mem g1 !! n) ->
  inv topo srcs k g1 cur p Q g.
Proof. intros [J1 J2 J3 J4 J5 J6] H. by split. Qed.

(** Between two walks the reel may begin anywhere: it is empty. *)
Lemma inv_restart topo srcs k g0 p g : 0 <= k ->
  inv topo srcs k g0 None p [] g -> inv topo srcs k g0 None 0 [] (set_tail 0 g).
Proof.
  intros Hk [J1 J2 J3 (R1 & R2 & R3 & R4 & R5 & R6 & R7) J5 J6]. split; try done.
  assert (0 < 2 ^ k) by lia. by split_and!.
Qed.

Lemma total_none topo g : (forall m, m ∈ topo -> pend g m = []) -> total topo g = 0%nat.
Proof.
  unfold total. induction topo as [|m t IH]; [done|]. intros H. simpl. rewrite IH, H; [done|by left|].
  intros x Hx. apply H. by right.
Qed.

Lemma graph_ok_next topo srcs k gen g g' : graph_ok topo srcs k gen g ->
  (forall n, shape <$> nodes_mem g' !! n = shape <$> nodes_mem g !! n) -> head g' = head g ->
  inv topo srcs k g None 0 [] g' -> (forall m, m ∈ topo -> pend g' m = []) -> graph_ok topo srcs k gen g'.
Proof.
  intros [G1 G2 G3 G4 G5 G6 G7 G8] Hs Hh I Hp.
  assert (forall n b', nodes_mem g' !! n = Some b' ->
    exists b, nodes_mem g !! n = Some b /\ process b' = process b /\ nodes b' = nodes b) as Hn.
  { intros n b' E. specialize (Hs n). rewrite E in Hs. destruct (nodes_mem g !! n) as [b|]; [|done].
    exists b. injection Hs as ? ?. done. }
  split; try done.
  - intros s Hsr. destruct (G3 s Hsr) as [? [b Eb]]. split; [done|]. specialize (Hs s). rewrite Eb in Hs.
    destruct (nodes_mem g' !! s); [by eexists|done].
  - intros n b' d E Hd. destruct (Hn n b' E) as (b & Eb & _ & E2). rewrite E2 in *. by apply (G4 n b).
  - intros n b' c xs calls rc c' E Ep. destruct (Hn n b' E) as (b & Eb & E1 & E2). rewrite E1, E2 in *. by apply (G5 n b c xs calls rc c').
  - congruence.
  - exists []. by apply (inv_base _ _ _ g).
  - rewrite total_none by done. lia.
Qed.

(** C16. A walk ends, whatever the process functions do within their contract, and
    loses nothing: the sources are called once each, in their order, before the
    other nodes; every other node is given, in order, exactly the objects that
    were pending in its stream and those that the functions called in the walk
    have sent to it, by any of the calls of the interface, while streams grow,
    move and are exchanged; afterwards no object is pending and the graph is
    ready for the next walk. *)
Theorem graph_walk_delivers (alloc : alloc_fn) (L : LawfulAlloc alloc) (tsc : nat -> Z)
    (topo srcs : list Z) (k : Z) (gen : nat) (g : rte_graph) (fuel : nat) :
  graph_ok topo srcs k gen g -> (walk_fuel topo srcs <= fuel)%nat ->
  exists g' evs, rte_graph_walk alloc tsc fuel g = Some g'
    /\ log g' = log g ++ evs
    /\ (exists ns, (e_node <$> evs) = srcs ++ ns /\ ns ⊆ topo)
    /\ Forall (real g) evs
    /\ (forall m, m ∈ topo -> delivered m evs = pend g m ++ sent g m evs /\ pend g' m = [])
    /\ graph_ok topo srcs k gen g'.
Proof.
  intros G Hf. pose proof G as [(G0 & G1 & G1') G2 G3 G4 G5 G6 (Q & I) G8].
  assert (walking topo srcs k g gen 0 0 Q [] (head g) g) as W.
  { split; try done.
    - lia.
    - rewrite G6. case_decide as C; [by rewrite <- C|]. unfold wrap.
      rewrite <- (Z.mod_unique_pos (- Z.of_nat (length srcs)) (2 ^ 32) (-1) (2 ^ 32 - Z.of_nat (length srcs - 0))); lia.
    - by rewrite app_nil_r.
    - intros m _. by rewrite app_nil_r.
    - exists []. split_and!; try done. apply list_subseteq_nil.
    - by rewrite Nat.sub_0_r. }
  destruct (loop_ok alloc tsc topo srcs k g G0 G2 G1 gen G3 G1' G4 G5 fuel _ _ _ _ _ _ W) as (p' & evs & h' & g' & E & W').
  { unfold turns_left. pose proof (weight_lt Q topo). unfold walk_fuel in Hf. lia. }
  destruct W' as [I' _ _ _ (Hh & Hlog) Hobjs (ns & Hns & Hns1 & _) Hreal _].
  assert (forall m, m ∈ topo -> pend (set_tail 0 g') m = []) as Hempty.
  { intros m Hm. destruct (i_queue _ _ _ _ _ _ _ _ I') as (_ & _ & _ & Q4).
    destruct (pend g' m) eqn:Ep; [done|]. assert (m ∈ ([] : list Z)) as Hx; [|by apply not_elem_of_nil in Hx].
    apply (Q4 m Hm); [done|]. by rewrite Ep. }
  exists (set_tail 0 g'), evs. split; [unfold rte_graph_walk; by rewrite E|]. split; [done|].
  split; [exists ns; by rewrite firstn_all in Hns|]. split; [done|]. split.
  - intros m Hm. split; [|by apply Hempty]. specialize (Hobjs m Hm). specialize (Hempty m Hm).
    change (pend (set_tail 0 g') m) with (pend g' m) in Hempty. by rewrite Hempty, app_nil_r in Hobjs.
  - apply (graph_ok_next topo srcs k gen g); try done.
    + intros n. apply (i_shape _ _ _ _ _ _ _ _ I').
    + apply (inv_restart _ _ _ _ p'); [lia|done].
Qed.

(** ** An instance *)

(** A stream that grows stays where it is. *)
Definition exact_alloc : alloc_fn := fun st a req =>
  let l := default [] (st !! a) in
  (req, a, <[a := l ++ replicate (Z.to_nat req - length l) 0]> (delete a st)).

#[export] Instance exact_alloc_lawful : LawfulAlloc exact_alloc.
Proof.
  split. intros st a l req E Hr. unfold exact_alloc. rewrite E. simpl.
  exists req, a, (l ++ replicate (Z.to_nat req - length l) 0). split; [done|]. split; [by left|].
  rewrite length_app, length_replicate. split; [lia|]. split; [lia|]. by rewrite take_app_length.
Qed.

(** A source sends three objects to the node 2, which sends the first one to 4
    and the others to 3; 3 passes its whole stream on to 4. *)
Definition source_process : rte_node_process_t := fun c _ => ([Enqueue 0 (Local [7; 8; 9]) 3], 3, c).
Definition split_process : rte_node_process_t := fun c xs =>
  (match xs with
   | x :: _ :: _ => [EnqueueX1 1 x; Enqueue 0 (Own 1) (Z.of_nat (length xs) - 1)]
   | _ => []
   end, Z.of_nat (length xs), c).
Definition pass_process : rte_node_process_t := fun c xs =>
  (match xs with [] => [] | _ => [StreamMove 0] end, Z.of_nat (length xs), c).
Definition drop_process : rte_node_process_t := fun c xs => ([], Z.of_nat (length xs), c).

Definition demo_node (o a : Z) (f : rte_node_process_t) (ns : list Z) : rte_node := mk_node [] 2 0 o 0 0 0 a f ns.

Definition demo_graph : rte_graph :=
  mk_graph 0 (2 ^ 32 - 1) 3 [1; 0; 0; 0; 0] 1
    (list_to_map [(1, demo_node 1 100 source_process [2]); (2, demo_node 2 200 split_process [3; 4]);
                  (3, demo_node 3 300 pass_process [4]); (4, demo_node 4 400 drop_process [])])
    (list_to_map [(100, [0; 0]); (200, [0; 0]); (300, [0; 0]); (400, [0; 0])]) 0 [].

Lemma demo_nodes n b : nodes_mem demo_graph !! n = Some b ->
  (n = 1 /\ b = demo_node 1 100 source_process [2]) \/ (n = 2 /\ b = demo_node 2 200 split_process [3; 4])
  \/ (n = 3 /\ b = demo_node 3 300 pass_process [4]) \/ (n = 4 /\ b = demo_node 4 400 drop_process []).
Proof.
  intros E%elem_of_list_to_map_2. rewrite !elem_of_cons in E.
  destruct E as [[= -> ->]|[[= -> ->]|[[= -> ->]|[[= -> ->]|[]%not_elem_of_nil]]]]; tauto.
Qed.

Lemma graph_demo_inv : inv [2; 3; 4] [1] 2 demo_graph None 0 [] demo_graph.
Proof.
  split.
  - intros n b E. destruct (demo_nodes n b E) as [[-> ->]|[[-> ->]|[[-> ->]|[-> ->]]]];
      (split; [done|]; split; [done|]; exists [0; 0]; by split_and!).
  - intros n1 n2 b1 b2 E1 E2 Eo.
    destruct (demo_nodes n1 b1 E1) as [[-> ->]|[[-> ->]|[[-> ->]|[-> ->]]]];
      destruct (demo_nodes n2 b2 E2) as [[-> ->]|[[-> ->]|[[-> ->]|[-> ->]]]]; done.
  - done.
  - by split_and!.
  - split_and!; [apply NoDup_nil; done|apply list_subseteq_nil|done|].
    intros m Hm _. rewrite !elem_of_cons in Hm. split; [by intros ?%not_elem_of_nil|].
    destruct Hm as [->|[->|[->|[]%not_elem_of_nil]]]; by intros [].
  - intros m Hm. rewrite !elem_of_cons in Hm. destruct Hm as [->|[->|[->|[]%not_elem_of_nil]]]; by eexists.
Qed.

Lemma demo_graph_ok : graph_ok [2; 3; 4] [1] 2 3 demo_graph.
Proof.
  split.
  - simpl. lia.
  - by apply (bool_decide_unpack (NoDup [2; 3; 4])).
  - intros s [->|[]%not_elem_of_nil]%elem_of_cons. split; [by apply (bool_decide_unpack (1 ∉ [2; 3; 4]))|by eexists].
  - intros n b d E Hd.
    destruct (demo_nodes n b E) as [[-> ->]|[[-> ->]|[[-> ->]|[-> ->]]]]; simpl in Hd.
    + apply elem_of_cons in Hd as [->|[]%not_elem_of_nil]. split; [by left|]. intros H.
      by apply (bool_decide_unpack (1 ∉ [2; 3; 4])) in H.
    + split; [by right|]. intros _. by exists [], [3; 4].
    + split; [do 2 right; done|]. intros _. by exists [2], [4].
    + by apply not_elem_of_nil in Hd.
  - intros n b c xs calls rc c' E Ep Hne.
    destruct (demo_nodes n b E) as [[-> ->]|[[-> ->]|[[-> ->]|[-> ->]]]]; simpl in Ep; injection Ep as <- <- <-.
    + right. split; [|done]. repeat constructor; simpl; unfold edge_ok; simpl; lia.
    + right. destruct xs as [|x [|y xs]]; [by split; [constructor|simpl; lia]..|].
      split; [repeat constructor; simpl; unfold edge_ok; simpl; lia|].
      replace (decide _) with (left (A := 2 ∈ [2; 3; 4]) (B := 2 ∉ [2; 3; 4]) (list_elem_of_here 2 [3; 4])) by done.
      unfold amount. simpl. rewrite length_take. simpl. lia.
    + destruct xs as [|x xs]; [right; by split; [constructor|simpl; lia]|]. left.
      exists 0. split_and!; done.
    + right. by split; [constructor|simpl; lia].
  - done.
  - exists []. apply graph_demo_inv.
  - by vm_compute.
Qed.

(** The walk of the instance, with the calls that are made. *)
Definition demo_walked : rte_graph :=
  default demo_graph (rte_graph_walk exact_alloc (fun n => Z.of_nat n) 16 demo_graph).

Lemma graph_walk_delivers_witness :
  rte_graph_walk exact_alloc (fun n => Z.of_nat n) 16 demo_graph = Some demo_walked
  /\ ((fun e => (e_node e, e_objs e)) <$> log demo_walked) = [(1, []); (2, [7; 8; 9]); (4, [7]); (3, [8; 9]); (4, [8; 9])]
  /\ pend demo_walked 4 = [].
Proof.
  assert (rte_graph_walk exact_alloc (fun n => Z.of_nat n) 16 demo_graph = Some demo_walked) as E by (vm_compute; reflexivity).
  split; [exact E|]. split; [vm_compute; reflexivity|].
  destruct (graph_walk_delivers exact_alloc exact_alloc_lawful (fun n => Z.of_nat n) [2; 3; 4] [1] 2 3 demo_graph 16
    demo_graph_ok ltac:(vm_compute; lia)) as (g' & evs & E' & _ & _ & _ & H & _).
  assert (demo_walked = g') as -> by exact (Some_inj _ _ (eq_trans (eq_sym E) E')). apply (H 4). by apply (bool_decide_unpack (4 ∈ [2; 3; 4])).
Defined.

(** ** Two ways to lose objects *)

(** A node that sends its objects to itself: while its function runs its index is
    not 0, so the node is not put on the reel, and after the function the index is
    set to 0: the objects are nowhere. *)
Definition again_process : rte_node_process_t := fun c xs => ([Enqueue 0 (Own 0) (Z.of_nat (length xs))], Z.of_nat (length xs), c).

Definition loop_graph : rte_graph :=
  mk_graph 0 (2 ^ 32 - 1) 3 [1; 0; 0; 0; 0] 1
    (list_to_map [(1, demo_node 1 100 source_process [2]); (2, demo_node 2 200 again_process [2])])
    (list_to_map [(100, [0; 0]); (200, [0; 0])]) 0 [].

Definition loop_walked : rte_graph :=
  default loop_graph (rte_graph_walk exact_alloc (fun n => Z.of_nat n) 16 loop_graph).

Theorem self_enqueue_loses :
  rte_graph_walk exact_alloc (fun n => Z.of_nat n) 16 loop_graph = Some loop_walked
  /\ ((fun e => (e_node e, e_objs e)) <$> log loop_walked) = [(1, []); (2, [7; 8; 9])]
  /\ sent loop_graph 2 (log loop_walked) = [7; 8; 9; 7; 8; 9] /\ pend loop_walked 2 = [].
Proof. split_and!; vm_compute; reflexivity. Qed.

(** An enqueue of no objects puts the node on the reel and leaves its index 0, so
    that the next enqueue puts it there again: the tail comes round to the head,
    the walk ends with the object pending, and as the index is not 0 any more no
    later enqueue brings the node back to the reel. *)
Definition empty_process : rte_node_process_t := fun c _ => ([Enqueue 0 (Local []) 0; EnqueueX1 0 7], 1, c).

Definition strand_graph : rte_graph :=
  mk_graph 0 (2 ^ 32 - 1) 1 [1; 0; 0] 1
    (list_to_map [(1, demo_node 1 100 empty_process [2]); (2, demo_node 2 200 drop_process [])])
    (list_to_map [(100, [0; 0]); (200, [0; 0])]) 0 [].

Definition strand_walked (n : nat) : rte_graph :=
  Nat.iter n (fun g => default g (rte_graph_walk exact_alloc (fun n => Z.of_nat n) 16 g)) strand_graph.

Theorem empty_enqueue_strands :
  rte_graph_walk exact_alloc (fun n => Z.of_nat n) 16 strand_graph = Some (strand_walked 1)
  /\ pend (strand_walked 1) 2 = [7] /\ pend (strand_walked 2) 2 = [7; 7]
  /\ delivered 2 (log (strand_walked 2)) = [].
Proof. split_and!; vm_compute; reflexivity. Qed.
