(* ===== verification/Meter.v ===== *)
(** * Traffic meters ([include/rte_meter.h]).

    The run-time half of the three meters: the two token buckets of a flow are
    brought up to the time of a packet, and the packet gets a colour.  The
    configuration of profiles and flows is in the compiled library. *)
From stdpp Require Import prelude list numbers.
From S2P Require Import Prelude.
Open Scope Z_scope.

Inductive rte_color := RTE_COLOR_GREEN | RTE_COLOR_YELLOW | RTE_COLOR_RED.

#[global] Instance rte_color_eq_dec : EqDecision rte_color.
Proof. solve_decision. Defined.

(** A division of the source, undefined by 0. *)
Definition udiv (a b : Z) : option Z := if b =? 0 then None else Some (a / b).

(** ** Single rate three colour marker (RFC 2697) *)

Record rte_meter_srtcm_profile := mk_srtcm_profile {
  sr_cbs : Z; sr_ebs : Z; sr_cir_period : Z; sr_cir_bytes_per_period : Z
}.
Record rte_meter_srtcm := mk_srtcm { sr_time : Z; sr_tc : Z; sr_te : Z }.

Definition rte_meter_srtcm_color_blind_check (m : rte_meter_srtcm) (p : rte_meter_srtcm_profile)
    (time pkt_len : Z) : option (rte_color * rte_meter_srtcm) :=
  let time_diff := u64 (time - sr_time m) in
  n_periods ← udiv time_diff (sr_cir_period p) ;
  let m_time := u64 (sr_time m + u64 (n_periods * sr_cir_period p)) in
  let tc := u64 (sr_tc m + u64 (n_periods * sr_cir_bytes_per_period p)) in
  let te := sr_te m in
  let '(tc, te) :=
    if tc >? sr_cbs p then
      let te := u64 (te + u64 (tc - sr_cbs p)) in
      (sr_cbs p, if te >? sr_ebs p then sr_ebs p else te)
    else (tc, te) in
  if tc >=? pkt_len then Some (RTE_COLOR_GREEN, mk_srtcm m_time (u64 (tc - pkt_len)) te)
  else if te >=? pkt_len then Some (RTE_COLOR_YELLOW, mk_srtcm m_time tc (u64 (te - pkt_len)))
  else Some (RTE_COLOR_RED, mk_srtcm m_time tc te).

Definition rte_meter_srtcm_color_aware_check (m : rte_meter_srtcm) (p : rte_meter_srtcm_profile)
    (time pkt_len : Z) (pkt_color : rte_color) : option (rte_color * rte_meter_srtcm) :=
  let time_diff := u64 (time - sr_time m) in
  n_periods ← udiv time_diff (sr_cir_period p) ;
  let m_time := u64 (sr_time m + u64 (n_periods * sr_cir_period p)) in
  let tc := u64 (sr_tc m + u64 (n_periods * sr_cir_bytes_per_period p)) in
  let te := sr_te m in
  let '(tc, te) :=
    if tc >? sr_cbs p then
      let te := u64 (te + u64 (tc - sr_cbs p)) in
      (sr_cbs p, if te >? sr_ebs p then sr_ebs p else te)
    else (tc, te) in
  if (bool_decide (pkt_color = RTE_COLOR_GREEN)) && (tc >=? pkt_len) then Some (RTE_COLOR_GREEN, mk_srtcm m_time (u64 (tc - pkt_len)) te)
  else if (bool_decide (pkt_color <> RTE_COLOR_RED)) && (te >=? pkt_len) then Some (RTE_COLOR_YELLOW, mk_srtcm m_time tc (u64 (te - pkt_len)))
  else Some (RTE_COLOR_RED, mk_srtcm m_time tc te).

(** ** Two rate three colour marker (RFC 2698) *)

Record rte_meter_trtcm_profile := mk_trtcm_profile {
  tr_cbs : Z; tr_pbs : Z; tr_cir_period : Z; tr_cir_bytes_per_period : Z;
  tr_pir_period : Z; tr_pir_bytes_per_period : Z
}.
Record rte_meter_trtcm := mk_trtcm { tr_time_tc : Z; tr_time_tp : Z; tr_tc : Z; tr_tp : Z }.

Definition rte_meter_trtcm_color_blind_check (m : rte_meter_trtcm) (p : rte_meter_trtcm_profile)
    (time pkt_len : Z) : option (rte_color * rte_meter_trtcm) :=
  let time_diff_tc := u64 (time - tr_time_tc m) in
  let time_diff_tp := u64 (time - tr_time_tp m) in
  n_periods_tc ← udiv time_diff_tc (tr_cir_period p) ;
  n_periods_tp ← udiv time_diff_tp (tr_pir_period p) ;
  let m_time_tc := u64 (tr_time_tc m + u64 (n_periods_tc * tr_cir_period p)) in
  let m_time_tp := u64 (tr_time_tp m + u64 (n_periods_tp * tr_pir_period p)) in
  let tc := u64 (tr_tc m + u64 (n_periods_tc * tr_cir_bytes_per_period p)) in
  let tc := if tc >? tr_cbs p then tr_cbs p else tc in
  let tp := u64 (tr_tp m + u64 (n_periods_tp * tr_pir_bytes_per_period p)) in
  let tp := if tp >? tr_pbs p then tr_pbs p else tp in
  if tp <? pkt_len then Some (RTE_COLOR_RED, mk_trtcm m_time_tc m_time_tp tc tp)
  else if tc <? pkt_len then Some (RTE_COLOR_YELLOW, mk_trtcm m_time_tc m_time_tp tc (u64 (tp - pkt_len)))
  else Some (RTE_COLOR_GREEN, mk_trtcm m_time_tc m_time_tp (u64 (tc - pkt_len)) (u64 (tp - pkt_len))).

Definition rte_meter_trtcm_color_aware_check (m : rte_meter_trtcm) (p : rte_meter_trtcm_profile)
    (time pkt_len : Z) (pkt_color : rte_color) : option (rte_color * rte_meter_trtcm) :=
  let time_diff_tc := u64 (time - tr_time_tc m) in
  let time_diff_tp := u64 (time - tr_time_tp m) in
  n_periods_tc ← udiv time_diff_tc (tr_cir_period p) ;
  n_periods_tp ← udiv time_diff_tp (tr_pir_period p) ;
  let m_time_tc := u64 (tr_time_tc m + u64 (n_periods_tc * tr_cir_period p)) in
  let m_time_tp := u64 (tr_time_tp m + u64 (n_periods_tp * tr_pir_period p)) in
  let tc := u64 (tr_tc m + u64 (n_periods_tc * tr_cir_bytes_per_period p)) in
  let tc := if tc >? tr_cbs p then tr_cbs p else tc in
  let tp := u64 (tr_tp m + u64 (n_periods_tp * tr_pir_bytes_per_period p)) in
  let tp := if tp >? tr_pbs p then tr_pbs p else tp in
  if (bool_decide (pkt_color = RTE_COLOR_RED)) || (tp <? pkt_len) then Some (RTE_COLOR_RED, mk_trtcm m_time_tc m_time_tp tc tp)
  else if (bool_decide (pkt_color = RTE_COLOR_YELLOW)) || (tc <? pkt_len) then Some (RTE_COLOR_YELLOW, mk_trtcm m_time_tc m_time_tp tc (u64 (tp - pkt_len)))
  else Some (RTE_COLOR_GREEN, mk_trtcm m_time_tc m_time_tp (u64 (tc - pkt_len)) (u64 (tp - pkt_len))).

(** ** Two rate three colour marker with separate buckets (RFC 4115) *)

Record rte_meter_trtcm_rfc4115_profile := mk_rfc4115_profile {
  rf_cbs : Z; rf_ebs : Z; rf_cir_period : Z; rf_cir_bytes_per_period : Z;
  rf_eir_period : Z; rf_eir_bytes_per_period : Z
}.
Record rte_meter_trtcm_rfc4115 := mk_rfc4115 { rf_time_tc : Z; rf_time_te : Z; rf_tc : Z; rf_te : Z }.

Definition rte_meter_trtcm_rfc4115_color_blind_check (m : rte_meter_trtcm_rfc4115)
    (p : rte_meter_trtcm_rfc4115_profile) (time pkt_len : Z)
  : option (rte_color * rte_meter_trtcm_rfc4115) :=
  let time_diff_tc := u64 (time - rf_time_tc m) in
  let time_diff_te := u64 (time - rf_time_te m) in
  n_periods_tc ← udiv time_diff_tc (rf_cir_period p) ;
  n_periods_te ← udiv time_diff_te (rf_eir_period p) ;
  let m_time_tc := u64 (rf_time_tc m + u64 (n_periods_tc * rf_cir_period p)) in
  let m_time_te := u64 (rf_time_te m + u64 (n_periods_te * rf_eir_period p)) in
  let tc := u64 (rf_tc m + u64 (n_periods_tc * rf_cir_bytes_per_period p)) in
  let tc := if tc >? rf_cbs p then rf_cbs p else tc in
  let te := u64 (rf_te m + u64 (n_periods_te * rf_eir_bytes_per_period p)) in
  let te := if te >? rf_ebs p then rf_ebs p else te in
  if tc >=? pkt_len then Some (RTE_COLOR_GREEN, mk_rfc4115 m_time_tc m_time_te (u64 (tc - pkt_len)) te)
  else if te >=? pkt_len then Some (RTE_COLOR_YELLOW, mk_rfc4115 m_time_tc m_time_te tc (u64 (te - pkt_len)))
  else Some (RTE_COLOR_RED, mk_rfc4115 m_time_tc m_time_te tc te).

Definition rte_meter_trtcm_rfc4115_color_aware_check (m : rte_meter_trtcm_rfc4115)
    (p : rte_meter_trtcm_rfc4115_profile) (time pkt_len : Z) (pkt_color : rte_color)
  : option (rte_color * rte_meter_trtcm_rfc4115) :=
  let time_diff_tc := u64 (time - rf_time_tc m) in
  let time_diff_te := u64 (time - rf_time_te m) in
  n_periods_tc ← udiv time_diff_tc (rf_cir_period p) ;
  n_periods_te ← udiv time_diff_te (rf_eir_period p) ;
  let m_time_tc := u64 (rf_time_tc m + u64 (n_periods_tc * rf_cir_period p)) in
  let m_time_te := u64 (rf_time_te m + u64 (n_periods_te * rf_eir_period p)) in
  let tc := u64 (rf_tc m + u64 (n_periods_tc * rf_cir_bytes_per_period p)) in
  let tc := if tc >? rf_cbs p then rf_cbs p else tc in
  let te := u64 (rf_te m + u64 (n_periods_te * rf_eir_bytes_per_period p)) in
  let te := if te >? rf_ebs p then rf_ebs p else te in
  if (bool_decide (pkt_color = RTE_COLOR_GREEN)) && (tc >=? pkt_len) then Some (RTE_COLOR_GREEN, mk_rfc4115 m_time_tc m_time_te (u64 (tc - pkt_len)) te)
  else if (bool_decide (pkt_color <> RTE_COLOR_RED)) && (te >=? pkt_len) then Some (RTE_COLOR_YELLOW, mk_rfc4115 m_time_tc m_time_te tc (u64 (te - pkt_len)))
  else Some (RTE_COLOR_RED, mk_rfc4115 m_time_tc m_time_te tc te).
