(* ===== verification/MeterSpec.v ===== *)
(** * What the traffic meters promise.

    The reference meters of the RFCs, which add one token at a time; the code is
    equivalent to them.  The accounts of the buckets: over any run of packets the
    bytes of a colour are bounded by the burst size and the rate. *)
From stdpp Require Import prelude list numbers.
From S2P Require Import Prelude Meter.
Open Scope Z_scope.

(** ** The reference meters *)

(** One token for a bucket, lost when it is full. *)
Definition add_token (cap c : Z) : Z := if c <? cap then c + 1 else c.

(** RFC 2697: one token, for the committed bucket or else for the excess one. *)
Definition add_token2 (cbs ebs : Z) (b : Z * Z) : Z * Z :=
  let '(c, e) := b in if c <? cbs then (c + 1, e) else if e <? ebs then (c, e + 1) else (c, e).

(** The tokens of [n] periods. *)
Definition tokens {A} (add : A -> A) (n bytes_per_period : Z) (b : A) : A :=
  Nat.iter (Z.to_nat n) (Nat.iter (Z.to_nat bytes_per_period) add) b.

Definition periods (clock period time : Z) : Z := (time - clock) / period.

(** RFC 2697, colour-aware mode. *)
Definition rfc2697 (p : rte_meter_srtcm_profile) (time len : Z) (col : rte_color) (m : rte_meter_srtcm)
  : rte_color * rte_meter_srtcm :=
  let n := periods (sr_time m) (sr_cir_period p) time in
  let clock := sr_time m + n * sr_cir_period p in
  let '(c, e) := tokens (add_token2 (sr_cbs p) (sr_ebs p)) n (sr_cir_bytes_per_period p) (sr_tc m, sr_te m) in
  if bool_decide (col = RTE_COLOR_GREEN /\ len <= c) then (RTE_COLOR_GREEN, mk_srtcm clock (c - len) e)
  else if bool_decide (col <> RTE_COLOR_RED /\ len <= e) then (RTE_COLOR_YELLOW, mk_srtcm clock c (e - len))
  else (RTE_COLOR_RED, mk_srtcm clock c e).

(** RFC 2698, colour-aware mode. *)
Definition rfc2698 (p : rte_meter_trtcm_profile) (time len : Z) (col : rte_color) (m : rte_meter_trtcm)
  : rte_color * rte_meter_trtcm :=
  let nc := periods (tr_time_tc m) (tr_cir_period p) time in
  let np := periods (tr_time_tp m) (tr_pir_period p) time in
  let clockc := tr_time_tc m + nc * tr_cir_period p in
  let clockp := tr_time_tp m + np * tr_pir_period p in
  let c := tokens (add_token (tr_cbs p)) nc (tr_cir_bytes_per_period p) (tr_tc m) in
  let q := tokens (add_token (tr_pbs p)) np (tr_pir_bytes_per_period p) (tr_tp m) in
  if bool_decide (col = RTE_COLOR_RED \/ q < len) then (RTE_COLOR_RED, mk_trtcm clockc clockp c q)
  else if bool_decide (col = RTE_COLOR_YELLOW \/ c < len)
       then (RTE_COLOR_YELLOW, mk_trtcm clockc clockp c (q - len))
  else (RTE_COLOR_GREEN, mk_trtcm clockc clockp (c - len) (q - len)).

(** RFC 4115, colour-aware mode. *)
Definition rfc4115 (p : rte_meter_trtcm_rfc4115_profile) (time len : Z) (col : rte_color)
    (m : rte_meter_trtcm_rfc4115) : rte_color * rte_meter_trtcm_rfc4115 :=
  let nc := periods (rf_time_tc m) (rf_cir_period p) time in
  let ne := periods (rf_time_te m) (rf_eir_period p) time in
  let clockc := rf_time_tc m + nc * rf_cir_period p in
  let clocke := rf_time_te m + ne * rf_eir_period p in
  let c := tokens (add_token (rf_cbs p)) nc (rf_cir_bytes_per_period p) (rf_tc m) in
  let e := tokens (add_token (rf_ebs p)) ne (rf_eir_bytes_per_period p) (rf_te m) in
  if bool_decide (col = RTE_COLOR_GREEN /\ len <= c) then (RTE_COLOR_GREEN, mk_rfc4115 clockc clocke (c - len) e)
  else if bool_decide (col <> RTE_COLOR_RED /\ len <= e) then (RTE_COLOR_YELLOW, mk_rfc4115 clockc clocke c (e - len))
  else (RTE_COLOR_RED, mk_rfc4115 clockc clocke c e).

(** ** Well-formed states *)

Record srtcm_ok (p : rte_meter_srtcm_profile) (m : rte_meter_srtcm) : Prop := {
  sk_period : 0 < sr_cir_period p;
  sk_bytes : 0 <= sr_cir_bytes_per_period p;
  sk_caps : fits 64 (sr_cbs p) /\ fits 64 (sr_ebs p);
  sk_tc : 0 <= sr_tc m <= sr_cbs p;
  sk_te : 0 <= sr_te m <= sr_ebs p;
  sk_time : 0 <= sr_time m
}.

Record trtcm_ok (p : rte_meter_trtcm_profile) (m : rte_meter_trtcm) : Prop := {
  tk_periods : 0 < tr_cir_period p /\ 0 < tr_pir_period p;
  tk_bytes : 0 <= tr_cir_bytes_per_period p /\ 0 <= tr_pir_bytes_per_period p;
  tk_caps : fits 64 (tr_cbs p) /\ fits 64 (tr_pbs p);
  tk_tc : 0 <= tr_tc m <= tr_cbs p;
  tk_tp : 0 <= tr_tp m <= tr_pbs p;
  tk_times : 0 <= tr_time_tc m /\ 0 <= tr_time_tp m
}.

Record rfc4115_ok (p : rte_meter_trtcm_rfc4115_profile) (m : rte_meter_trtcm_rfc4115) : Prop := {
  rk_periods : 0 < rf_cir_period p /\ 0 < rf_eir_period p;
  rk_bytes : 0 <= rf_cir_bytes_per_period p /\ 0 <= rf_eir_bytes_per_period p;
  rk_caps : fits 64 (rf_cbs p) /\ fits 64 (rf_ebs p);
  rk_tc : 0 <= rf_tc m <= rf_cbs p;
  rk_te : 0 <= rf_te m <= rf_ebs p;
  rk_times : 0 <= rf_time_tc m /\ 0 <= rf_time_te m
}.

(** ** Buckets *)

Lemma iter_mul {A} (f : A -> A) n k x : Nat.iter n (Nat.iter k f) x = Nat.iter (n * k) f x.
Proof. induction n as [|n IH]; simpl; [done|]. by rewrite IH, Nat.iter_add. Qed.

Lemma tokens_iter {A} (add : A -> A) n b x : 0 <= n -> 0 <= b ->
  tokens add n b x = Nat.iter (Z.to_nat (n * b)) add x.
Proof. intros. unfold tokens. by rewrite iter_mul, Z2Nat.inj_mul. Qed.

Lemma add_tokens cap c k : c <= cap -> Nat.iter k (add_token cap) c = Z.min cap (c + Z.of_nat k).
Proof.
  intros Hc. induction k as [|k IH]; [simpl; lia|].
  rewrite Nat.iter_succ, IH. unfold add_token. destruct (Z.ltb_spec (Z.min cap (c + Z.of_nat k)) cap); lia.
Qed.

Lemma add_tokens2 cbs ebs c e k : c <= cbs -> e <= ebs ->
  Nat.iter k (add_token2 cbs ebs) (c, e)
  = (Z.min cbs (c + Z.of_nat k), Z.min ebs (e + Z.max 0 (c + Z.of_nat k - cbs))).
Proof.
  intros Hc He. induction k as [|k IH]; [simpl; f_equal; lia|].
  rewrite Nat.iter_succ, IH. unfold add_token2.
  destruct (Z.ltb_spec (Z.min cbs (c + Z.of_nat k)) cbs); [f_equal; lia|].
  destruct (Z.ltb_spec (Z.min ebs (e + Z.max 0 (c + Z.of_nat k - cbs))) ebs); f_equal; lia.
Qed.

Lemma wrap_le x : 0 <= x -> 0 <= u64 x <= x.
Proof. intros. unfold wrap. pose proof (Z.mod_pos_bound x (2 ^ 64) ltac:(lia)). pose proof (Z.mod_le x (2 ^ 64)). lia. Qed.

(** The clock of a bucket moves by whole periods and stays behind the time. *)
Lemma clock_step clock period time : 0 < period -> 0 <= clock <= time -> time < 2 ^ 64 ->
  exists n, periods clock period time = n /\ udiv (u64 (time - clock)) period = Some n /\ 0 <= n
    /\ u64 (clock + u64 (n * period)) = clock + n * period /\ clock + n * period <= time.
Proof.
  intros Hp Hc Ht. exists (periods clock period time). split; [done|]. unfold periods, udiv.
  rewrite (proj2 (Z.eqb_neq period 0)), wrap_small by (unfold fits; lia). split; [done|].
  pose proof (Z.div_pos (time - clock) period ltac:(lia) Hp). pose proof (Z.mul_div_le (time - clock) period Hp).
  split; [done|]. rewrite (wrap_small 64 (_ * _)) by (unfold fits; lia).
  rewrite wrap_small by (unfold fits; lia). lia.
Qed.

(** ** The meters follow the RFCs *)

Lemma srtcm_blind m p time len :
  rte_meter_srtcm_color_blind_check m p time len = rte_meter_srtcm_color_aware_check m p time len RTE_COLOR_GREEN.
Proof. reflexivity. Qed.

Lemma trtcm_blind m p time len :
  rte_meter_trtcm_color_blind_check m p time len = rte_meter_trtcm_color_aware_check m p time len RTE_COLOR_GREEN.
Proof. reflexivity. Qed.

Lemma rfc4115_blind m p time len :
  rte_meter_trtcm_rfc4115_color_blind_check m p time len
  = rte_meter_trtcm_rfc4115_color_aware_check m p time len RTE_COLOR_GREEN.
Proof. reflexivity. Qed.

Ltac meter_cases := repeat first
  [ match goal with |- context [bool_decide ?P] => destruct (bool_decide_reflect P) end
  | match goal with |- context [?a >=? ?b] => destruct (Z.geb_spec a b) end
  | match goal with |- context [?a <? ?b] => destruct (Z.ltb_spec a b) end ]; simpl; try lia.

Lemma srtcm_rfc m p time len col :
  srtcm_ok p m -> sr_time m <= time < 2 ^ 64 -> fits 32 len ->
  sr_cbs p + sr_ebs p + periods (sr_time m) (sr_cir_period p) time * sr_cir_bytes_per_period p < 2 ^ 64 ->
  rte_meter_srtcm_color_aware_check m p time len col = Some (rfc2697 p time len col m).
Proof.
  intros [] Ht Hl Ho. unfold rte_meter_srtcm_color_aware_check, rfc2697.
  destruct (clock_step (sr_time m) (sr_cir_period p) time) as (n & En & Eu & Hn & Ec & _); [lia..|].
  rewrite Eu. cbn [mbind option_bind]. rewrite Ec, En in *. pose proof (Z.mul_nonneg_nonneg n _ Hn sk_bytes0).
  rewrite tokens_iter, add_tokens2 by lia. rewrite Z2Nat.id by lia.
  rewrite (wrap_small 64 (n * _)), (wrap_small 64 (sr_tc m + _)) by (unfold fits; lia).
  set (k := n * sr_cir_bytes_per_period p) in *.
  assert ((if sr_tc m + k >? sr_cbs p
           then (sr_cbs p, if u64 (sr_te m + u64 (sr_tc m + k - sr_cbs p)) >? sr_ebs p then sr_ebs p
                           else u64 (sr_te m + u64 (sr_tc m + k - sr_cbs p)))
           else (sr_tc m + k, sr_te m))
    = (Z.min (sr_cbs p) (sr_tc m + k), Z.min (sr_ebs p) (sr_te m + Z.max 0 (sr_tc m + k - sr_cbs p)))) as ->.
  { destruct (Z.gtb_spec (sr_tc m + k) (sr_cbs p)); [|f_equal; lia].
    rewrite (wrap_small 64 (_ - _)) by (unfold fits; lia). rewrite wrap_small by (unfold fits; lia).
    destruct (Z.gtb_spec (sr_te m + (sr_tc m + k - sr_cbs p)) (sr_ebs p)); f_equal; lia. }
  set (c := Z.min (sr_cbs p) _). set (e := Z.min (sr_ebs p) _). unfold fits in *.
  destruct col; meter_cases; try tauto; rewrite ?wrap_small by (unfold fits; lia); auto; exfalso; intuition (done || lia).
Qed.

Lemma refill cap c n b : 0 <= c <= cap -> 0 <= n -> 0 <= b -> cap + n * b < 2 ^ 64 ->
  (if u64 (c + u64 (n * b)) >? cap then cap else u64 (c + u64 (n * b))) = tokens (add_token cap) n b c
  /\ 0 <= tokens (add_token cap) n b c < 2 ^ 64.
Proof.
  intros Hc Hn Hb Ho. pose proof (Z.mul_nonneg_nonneg n b Hn Hb).
  rewrite tokens_iter, add_tokens, Z2Nat.id by lia.
  rewrite (wrap_small 64 (n * b)), wrap_small by (unfold fits; lia).
  split; [|lia]. destruct (Z.gtb_spec (c + n * b) cap); lia.
Qed.

Lemma trtcm_rfc m p time len col :
  trtcm_ok p m -> tr_time_tc m <= time -> tr_time_tp m <= time < 2 ^ 64 -> fits 32 len ->
  tr_cbs p + periods (tr_time_tc m) (tr_cir_period p) time * tr_cir_bytes_per_period p < 2 ^ 64 ->
  tr_pbs p + periods (tr_time_tp m) (tr_pir_period p) time * tr_pir_bytes_per_period p < 2 ^ 64 ->
  rte_meter_trtcm_color_aware_check m p time len col = Some (rfc2698 p time len col m).
Proof.
  intros [] Ht1 Ht2 Hl Ho1 Ho2. unfold rte_meter_trtcm_color_aware_check, rfc2698.
  destruct (clock_step (tr_time_tc m) (tr_cir_period p) time) as (n & En & Eu & Hn & Ec & _); [lia..|].
  destruct (clock_step (tr_time_tp m) (tr_pir_period p) time) as (q & Eq & Ev & Hq & Ed & _); [lia..|].
  rewrite Eu. cbn [mbind option_bind]. rewrite Ev. cbn [mbind option_bind]. rewrite Ec, Ed, En, Eq in *.
  destruct (refill (tr_cbs p) (tr_tc m) n (tr_cir_bytes_per_period p)) as [-> Rc]; [lia..|].
  destruct (refill (tr_pbs p) (tr_tp m) q (tr_pir_bytes_per_period p)) as [-> Rp]; [lia..|].
  unfold fits in *. set (tc := tokens _ n _ _) in *. set (tp := tokens _ q _ _) in *. clearbody tc tp.
  destruct col; meter_cases; try tauto; rewrite ?wrap_small by (unfold fits; lia); auto; exfalso; intuition (done || lia).
Qed.

Lemma rfc4115_rfc m p time len col :
  rfc4115_ok p m -> rf_time_tc m <= time -> rf_time_te m <= time < 2 ^ 64 -> fits 32 len ->
  rf_cbs p + periods (rf_time_tc m) (rf_cir_period p) time * rf_cir_bytes_per_period p < 2 ^ 64 ->
  rf_ebs p + periods (rf_time_te m) (rf_eir_period p) time * rf_eir_bytes_per_period p < 2 ^ 64 ->
  rte_meter_trtcm_rfc4115_color_aware_check m p time len col = Some (rfc4115 p time len col m).
Proof.
  intros [] Ht1 Ht2 Hl Ho1 Ho2. unfold rte_meter_trtcm_rfc4115_color_aware_check, rfc4115.
  destruct (clock_step (rf_time_tc m) (rf_cir_period p) time) as (n & En & Eu & Hn & Ec & _); [lia..|].
  destruct (clock_step (rf_time_te m) (rf_eir_period p) time) as (q & Eq & Ev & Hq & Ed & _); [lia..|].
  rewrite Eu. cbn [mbind option_bind]. rewrite Ev. cbn [mbind option_bind]. rewrite Ec, Ed, En, Eq in *.
  destruct (refill (rf_cbs p) (rf_tc m) n (rf_cir_bytes_per_period p)) as [-> Rc]; [lia..|].
  destruct (refill (rf_ebs p) (rf_te m) q (rf_eir_bytes_per_period p)) as [-> Rp]; [lia..|].
  unfold fits in *. set (tc := tokens _ n _ _) in *. set (te := tokens _ q _ _) in *. clearbody tc te.
  destruct col; meter_cases; try tauto; rewrite ?wrap_small by (unfold fits; lia); auto; exfalso; intuition (done || lia).
Qed.

(** ** Accounts

    A meter with a bucket seen from outside: its clock, the tokens in it, and
    the bytes that a packet of a colour costs. *)

Section account.
Context {S : Type} (step : S -> Z -> Z -> rte_color -> option (rte_color * S)).

Record packet := mk_packet { pk_time : Z; pk_len : Z; pk_color : rte_color }.

(** The colours of the packets of a run. *)
Fixpoint meter_run (s : S) (pkts : list packet) : option (list rte_color * S) :=
  match pkts with
  | [] => Some ([], s)
  | k :: pkts =>
      '(r, s) ← step s (pk_time k) (pk_len k) (pk_color k) ;
      '(rs, s) ← meter_run s pkts ;
      Some (r :: rs, s)
  end.

(** The bytes of the packets whose new colour counts. *)
Fixpoint bytes_of (counts : rte_color -> bool) (pkts : list packet) (rs : list rte_color) : Z :=
  match pkts, rs with
  | k :: pkts, r :: rs => (if counts r then pk_len k else 0) + bytes_of counts pkts rs
  | _, _ => 0
  end.

(** The times of the packets do not go back, and are not before [t]. *)
Fixpoint in_order (t : Z) (pkts : list packet) : Prop :=
  match pkts with
  | [] => True
  | k :: pkts => t <= pk_time k < 2 ^ 64 /\ fits 32 (pk_len k) /\ in_order (pk_time k) pkts
  end.

Context (inv : S -> Z -> Prop) (clock level : S -> Z) (period bytes_per_period : Z) (counts : rte_color -> bool).

(** What a packet does to a bucket. *)
Definition pays (s s' : S) (time len : Z) (r : rte_color) : Prop :=
  exists n, 0 <= n /\ clock s' = clock s + n * period /\ clock s' <= time
    /\ level s' + (if counts r then len else 0) <= level s + n * bytes_per_period.

(** [inv s t]: the state is well formed and its clocks are not after [t]. *)
Hypothesis period_pos : 0 < period.
Hypothesis bytes_pos : 0 <= bytes_per_period.
Hypothesis inv_level : forall s t, inv s t -> 0 <= level s.
Hypothesis inv_later : forall s t t', inv s t -> t <= t' -> inv s t'.
Hypothesis step_pays : forall s time len col, inv s time -> time < 2 ^ 64 -> fits 32 len ->
  exists r s', step s time len col = Some (r, s') /\ inv s' time /\ pays s s' time len r.

Lemma meter_account pkts : forall s t T,
  inv s t -> clock s <= t -> in_order t pkts -> t <= T -> Forall (fun k => pk_time k <= T) pkts ->
  exists rs s', meter_run s pkts = Some (rs, s') /\ inv s' T
    /\ exists n, 0 <= n /\ clock s' = clock s + n * period /\ clock s' <= T
       /\ bytes_of counts pkts rs + level s' <= level s + n * bytes_per_period.
Proof.
  induction pkts as [|k pkts IH]; intros s t T I Hc Ho HT Hf; simpl.
  - exists [], s. split; [done|]. split; [by apply (inv_later s t)|]. exists 0. simpl. lia.
  - destruct Ho as (Ht & Hl & Ho). inversion_clear Hf as [|? ? Hk Hf'].
    destruct (step_pays s (pk_time k) (pk_len k) (pk_color k) (inv_later s t _ I (proj1 Ht)) (proj2 Ht) Hl)
      as (r & s1 & E & I1 & n & Hn & C1 & C2 & L). rewrite E. cbn [mbind option_bind].
    destruct (IH s1 (pk_time k) T I1 C2 Ho Hk Hf') as (rs & s2 & E2 & I2 & q & Hq & D1 & D2 & D3).
    rewrite E2. cbn [mbind option_bind]. eexists _, _. split; [reflexivity|]. split; [done|].
    exists (n + q). simpl. split; [lia|]. split; [lia|]. split; [lia|]. lia.
Qed.

(** The bytes that count are at most what the bucket held and what the elapsed
    time brought. *)
Lemma meter_bound s t T pkts :
  inv s t -> clock s <= t -> in_order t pkts -> t <= T -> Forall (fun k => pk_time k <= T) pkts ->
  exists rs s', meter_run s pkts = Some (rs, s') /\ inv s' T
    /\ bytes_of counts pkts rs <= level s + periods (clock s) period T * bytes_per_period.
Proof.
  intros I Hc Ho HT Hf. destruct (meter_account pkts s t T I Hc Ho HT Hf) as (rs & s' & E & I' & n & Hn & C1 & C2 & H).
  exists rs, s'. split; [done|]. split; [done|]. pose proof (inv_level s' T I').
  assert (n <= periods (clock s) period T) by (apply Z.div_le_lower_bound; lia). nia.
Qed.
End account.

(** ** The buckets of the three meters *)

Definition is_green (r : rte_color) : bool := bool_decide (r = RTE_COLOR_GREEN).
Definition is_yellow (r : rte_color) : bool := bool_decide (r = RTE_COLOR_YELLOW).
Definition not_red (r : rte_color) : bool := bool_decide (r <> RTE_COLOR_RED).

Lemma refill_le cap c n b : 0 <= c <= cap -> 0 <= n -> 0 <= b ->
  let tc := if u64 (c + u64 (n * b)) >? cap then cap else u64 (c + u64 (n * b)) in
  0 <= tc <= cap /\ tc <= c + n * b.
Proof.
  intros Hc Hn Hb tc. pose proof (Z.mul_nonneg_nonneg n b Hn Hb) as Hnb. pose proof (wrap_le (n * b) Hnb).
  pose proof (wrap_le (c + u64 (n * b)) ltac:(lia)). subst tc. destruct (Z.gtb_spec (u64 (c + u64 (n * b))) cap); lia.
Qed.

Lemma srtcm_pays p m time len col :
  srtcm_ok p m -> sr_time m <= time < 2 ^ 64 -> fits 32 len ->
  exists r m', rte_meter_srtcm_color_aware_check m p time len col = Some (r, m') /\ srtcm_ok p m'
    /\ pays sr_time sr_tc (sr_cir_period p) (sr_cir_bytes_per_period p) is_green m m' time len r
    /\ pays sr_time (fun m => sr_tc m + sr_te m) (sr_cir_period p) (sr_cir_bytes_per_period p) not_red m m' time len r.
Proof.
  intros [] Ht Hl. unfold rte_meter_srtcm_color_aware_check.
  destruct (clock_step (sr_time m) (sr_cir_period p) time) as (n & En & Eu & Hn & Ec & Hle); [lia..|].
  rewrite Eu. cbn [mbind option_bind]. rewrite Ec.
  pose proof (Z.mul_nonneg_nonneg n _ Hn sk_bytes0) as Hnb. pose proof (wrap_le _ Hnb) as W.
  pose proof (wrap_le (sr_tc m + u64 (n * sr_cir_bytes_per_period p)) ltac:(lia)) as Hx.
  set (x := u64 (sr_tc m + _)) in *.
  assert (exists tc te, (if x >? sr_cbs p
      then (sr_cbs p, if u64 (sr_te m + u64 (x - sr_cbs p)) >? sr_ebs p then sr_ebs p
                      else u64 (sr_te m + u64 (x - sr_cbs p)))
      else (x, sr_te m)) = (tc, te)
    /\ 0 <= tc <= sr_cbs p /\ 0 <= te <= sr_ebs p /\ tc <= x /\ tc + te <= x + sr_te m) as (tc & te & -> & Htc & Hte & Hx1 & Hx2).
  { destruct (Z.gtb_spec x (sr_cbs p)); (eexists _, _; split; [reflexivity|]); [|lia].
    pose proof (wrap_le (x - sr_cbs p) ltac:(lia)). pose proof (wrap_le (sr_te m + u64 (x - sr_cbs p)) ltac:(lia)).
    destruct (Z.gtb_spec (u64 (sr_te m + u64 (x - sr_cbs p))) (sr_ebs p)); lia. }
  assert (0 <= n * sr_cir_period p) as Hnp by (apply Z.mul_nonneg_nonneg; lia). unfold fits in *.
  assert (forall r c e, 0 <= c -> 0 <= e -> c + (if is_green r then len else 0) <= tc ->
    c + e + (if not_red r then len else 0) <= tc + te -> e <= te ->
    exists r' m', Some (r, mk_srtcm (sr_time m + n * sr_cir_period p) c e) = Some (r', m') /\ srtcm_ok p m'
    /\ pays sr_time sr_tc (sr_cir_period p) (sr_cir_bytes_per_period p) is_green m m' time len r'
    /\ pays sr_time (fun m => sr_tc m + sr_te m) (sr_cir_period p) (sr_cir_bytes_per_period p) not_red m m' time len r') as G.
  { intros r c e Hc He G1 G2 G3. eexists _, _. split; [reflexivity|].
    split; [split; simpl; (done || (destruct (is_green r); lia))|]. split; exists n; simpl; lia. }
  destruct (bool_decide (col = _) && _) eqn:B1; [|destruct (bool_decide (col <> _) && _) eqn:B2].
  - apply andb_prop in B1 as [_ B1]. rewrite wrap_small by (unfold fits; lia). apply G; simpl; lia.
  - apply andb_prop in B2 as [_ B2]. rewrite wrap_small by (unfold fits; lia). apply G; simpl; lia.
  - apply G; simpl; lia.
Qed.

Lemma trtcm_pays p m time len col :
  trtcm_ok p m -> tr_time_tc m <= time -> tr_time_tp m <= time < 2 ^ 64 -> fits 32 len ->
  exists r m', rte_meter_trtcm_color_aware_check m p time len col = Some (r, m') /\ trtcm_ok p m'
    /\ pays tr_time_tc tr_tc (tr_cir_period p) (tr_cir_bytes_per_period p) is_green m m' time len r
    /\ pays tr_time_tp tr_tp (tr_pir_period p) (tr_pir_bytes_per_period p) not_red m m' time len r.
Proof.
  intros [] Ht1 Ht2 Hl. unfold rte_meter_trtcm_color_aware_check.
  destruct (clock_step (tr_time_tc m) (tr_cir_period p) time) as (n & _ & Eu & Hn & Ec & Hle); [lia..|].
  destruct (clock_step (tr_time_tp m) (tr_pir_period p) time) as (q & _ & Ev & Hq & Ed & Hlq); [lia..|].
  rewrite Eu. cbn [mbind option_bind]. rewrite Ev. cbn [mbind option_bind]. rewrite Ec, Ed.
  pose proof (refill_le (tr_cbs p) (tr_tc m) n (tr_cir_bytes_per_period p) tk_tc0 Hn ltac:(lia)) as Rc.
  pose proof (refill_le (tr_pbs p) (tr_tp m) q (tr_pir_bytes_per_period p) tk_tp0 Hq ltac:(lia)) as Rp.
  cbv zeta in Rc, Rp. set (tc := if _ >? tr_cbs p then _ else _) in *. set (tp := if _ >? tr_pbs p then _ else _) in *.
  clearbody tc tp. assert (0 <= n * tr_cir_period p) by (apply Z.mul_nonneg_nonneg; lia).
  assert (0 <= q * tr_pir_period p) by (apply Z.mul_nonneg_nonneg; lia). unfold fits in *.
  assert (forall r c e, 0 <= c -> 0 <= e -> c + (if is_green r then len else 0) <= tc ->
    e + (if not_red r then len else 0) <= tp ->
    exists r' m', Some (r, mk_trtcm (tr_time_tc m + n * tr_cir_period p) (tr_time_tp m + q * tr_pir_period p) c e)
      = Some (r', m') /\ trtcm_ok p m'
    /\ pays tr_time_tc tr_tc (tr_cir_period p) (tr_cir_bytes_per_period p) is_green m m' time len r'
    /\ pays tr_time_tp tr_tp (tr_pir_period p) (tr_pir_bytes_per_period p) not_red m m' time len r') as G.
  { intros r c e Hc He G1 G2. eexists _, _. split; [reflexivity|].
    split; [split; simpl; (done || (destruct (is_green r), (not_red r); lia))|].
    split; [exists n|exists q]; simpl; lia. }
  destruct (_ || (tp <? len)) eqn:B1; [|destruct (_ || (tc <? len)) eqn:B2]; rewrite ?wrap_small by (unfold fits; lia);
    apply G; simpl; lia.
Qed.

Lemma rfc4115_pays p m time len col :
  rfc4115_ok p m -> rf_time_tc m <= time -> rf_time_te m <= time < 2 ^ 64 -> fits 32 len ->
  exists r m', rte_meter_trtcm_rfc4115_color_aware_check m p time len col = Some (r, m') /\ rfc4115_ok p m'
    /\ pays rf_time_tc rf_tc (rf_cir_period p) (rf_cir_bytes_per_period p) is_green m m' time len r
    /\ pays rf_time_te rf_te (rf_eir_period p) (rf_eir_bytes_per_period p) is_yellow m m' time len r.
Proof.
  intros [] Ht1 Ht2 Hl. unfold rte_meter_trtcm_rfc4115_color_aware_check.
  destruct (clock_step (rf_time_tc m) (rf_cir_period p) time) as (n & _ & Eu & Hn & Ec & Hle); [lia..|].
  destruct (clock_step (rf_time_te m) (rf_eir_period p) time) as (q & _ & Ev & Hq & Ed & Hlq); [lia..|].
  rewrite Eu. cbn [mbind option_bind]. rewrite Ev. cbn [mbind option_bind]. rewrite Ec, Ed.
  pose proof (refill_le (rf_cbs p) (rf_tc m) n (rf_cir_bytes_per_period p) rk_tc0 Hn ltac:(lia)) as Rc.
  pose proof (refill_le (rf_ebs p) (rf_te m) q (rf_eir_bytes_per_period p) rk_te0 Hq ltac:(lia)) as Re.
  cbv zeta in Rc, Re. set (tc := if _ >? rf_cbs p then _ else _) in *. set (te := if _ >? rf_ebs p then _ else _) in *.
  clearbody tc te. assert (0 <= n * rf_cir_period p) by (apply Z.mul_nonneg_nonneg; lia).
  assert (0 <= q * rf_eir_period p) by (apply Z.mul_nonneg_nonneg; lia). unfold fits in *.
  assert (forall r c e, 0 <= c -> 0 <= e -> c + (if is_green r then len else 0) <= tc ->
    e + (if is_yellow r then len else 0) <= te ->
    exists r' m', Some (r, mk_rfc4115 (rf_time_tc m + n * rf_cir_period p) (rf_time_te m + q * rf_eir_period p) c e)
      = Some (r', m') /\ rfc4115_ok p m'
    /\ pays rf_time_tc rf_tc (rf_cir_period p) (rf_cir_bytes_per_period p) is_green m m' time len r'
    /\ pays rf_time_te rf_te (rf_eir_period p) (rf_eir_bytes_per_period p) is_yellow m m' time len r') as G.
  { intros r c e Hc He G1 G2. eexists _, _. split; [reflexivity|].
    split; [split; simpl; (done || (destruct (is_green r), (is_yellow r); lia))|].
    split; [exists n|exists q]; simpl; lia. }
  destruct (_ && (tc >=? len)) eqn:B1; [|destruct (_ && (te >=? len)) eqn:B2]; rewrite ?wrap_small by (unfold fits; lia);
    apply G; simpl; lia.
Qed.

(** Two buckets of one meter. *)
Lemma meter_bounds {S} (step : S -> Z -> Z -> rte_color -> option (rte_color * S)) (ok : S -> Prop)
    (clock1 level1 clock2 level2 : S -> Z) (period1 bytes1 period2 bytes2 : Z) (counts1 counts2 : rte_color -> bool) :
  0 < period1 -> 0 <= bytes1 -> 0 < period2 -> 0 <= bytes2 ->
  (forall s, ok s -> 0 <= level1 s /\ 0 <= level2 s) ->
  (forall s time len col, ok s -> clock1 s <= time -> clock2 s <= time < 2 ^ 64 -> fits 32 len ->
     exists r s', step s time len col = Some (r, s') /\ ok s'
       /\ pays clock1 level1 period1 bytes1 counts1 s s' time len r
       /\ pays clock2 level2 period2 bytes2 counts2 s s' time len r) ->
  forall s t T pkts, ok s -> clock1 s <= t -> clock2 s <= t ->
  in_order t pkts -> t <= T -> Forall (fun k => pk_time k <= T) pkts ->
  exists rs s', meter_run step s pkts = Some (rs, s') /\ ok s'
    /\ bytes_of counts1 pkts rs <= level1 s + periods (clock1 s) period1 T * bytes1
    /\ bytes_of counts2 pkts rs <= level2 s + periods (clock2 s) period2 T * bytes2.
Proof.
  intros P1 B1 P2 B2 L St s t T pkts I C1 C2 Ho HT Hf.
  set (inv := fun s t => ok s /\ clock1 s <= t /\ clock2 s <= t).
  assert (forall s t t', inv s t -> t <= t' -> inv s t') as Hl.
  { intros x u u' (? & ? & ?) ?. split; [done|lia]. }
  assert (forall s time len col, inv s time -> time < 2 ^ 64 -> fits 32 len ->
    exists r s', step s time len col = Some (r, s') /\ inv s' time
      /\ pays clock1 level1 period1 bytes1 counts1 s s' time len r
      /\ pays clock2 level2 period2 bytes2 counts2 s s' time len r) as St'.
  { intros x time len col (? & ? & ?) ? ?. destruct (St x time len col) as (r & s' & E & O & Q1 & Q2); [done|lia..|done|].
    exists r, s'. split; [done|]. split; [|done]. split; [done|].
    destruct Q1 as (? & ? & ? & ? & ?), Q2 as (? & ? & ? & ? & ?). lia. }
  destruct (meter_bound step inv clock1 level1 period1 bytes1 counts1) with s t T pkts as (rs & s' & E & I' & H1); try done.
  { intros x u [? _]. by apply L. }
  { intros x u len col Hx Hu Hn. destruct (St' x u len col Hx Hu Hn) as (r & y & ? & ? & ? & _). by exists r, y. }
  destruct (meter_bound step inv clock2 level2 period2 bytes2 counts2) with s t T pkts as (rs2 & s2 & E2 & _ & H2); try done.
  { intros x u [? _]. by apply L. }
  { intros x u len col Hx Hu Hn. destruct (St' x u len col Hx Hu Hn) as (r & y & ? & ? & _ & ?). by exists r, y. }
  rewrite E in E2. simplify_eq. exists rs2, s2. split; [done|]. split; [apply I'|done].
Qed.

(** ** Properties *)

(** C17. The meters follow their RFCs: as long as the buckets do not overflow 64
    bits between two packets, each check gives the colour and the buckets of the
    reference meter that adds the tokens one at a time (RFC 2697, 2698 and 4115),
    and the colour-blind checks are the colour-aware ones for green packets. *)
Theorem meters_follow_rfcs time len col : fits 32 len -> time < 2 ^ 64 ->
  (forall p m, srtcm_ok p m -> sr_time m <= time ->
     sr_cbs p + sr_ebs p + periods (sr_time m) (sr_cir_period p) time * sr_cir_bytes_per_period p < 2 ^ 64 ->
     rte_meter_srtcm_color_aware_check m p time len col = Some (rfc2697 p time len col m)
     /\ rte_meter_srtcm_color_blind_check m p time len = Some (rfc2697 p time len RTE_COLOR_GREEN m))
  /\ (forall p m, trtcm_ok p m -> tr_time_tc m <= time -> tr_time_tp m <= time ->
     tr_cbs p + periods (tr_time_tc m) (tr_cir_period p) time * tr_cir_bytes_per_period p < 2 ^ 64 ->
     tr_pbs p + periods (tr_time_tp m) (tr_pir_period p) time * tr_pir_bytes_per_period p < 2 ^ 64 ->
     rte_meter_trtcm_color_aware_check m p time len col = Some (rfc2698 p time len col m)
     /\ rte_meter_trtcm_color_blind_check m p time len = Some (rfc2698 p time len RTE_COLOR_GREEN m))
  /\ (forall p m, rfc4115_ok p m -> rf_time_tc m <= time -> rf_time_te m <= time ->
     rf_cbs p + periods (rf_time_tc m) (rf_cir_period p) time * rf_cir_bytes_per_period p < 2 ^ 64 ->
     rf_ebs p + periods (rf_time_te m) (rf_eir_period p) time * rf_eir_bytes_per_period p < 2 ^ 64 ->
     rte_meter_trtcm_rfc4115_color_aware_check m p time len col = Some (rfc4115 p time len col m)
     /\ rte_meter_trtcm_rfc4115_color_blind_check m p time len = Some (rfc4115 p time len RTE_COLOR_GREEN m)).
Proof.
  intros Hl HT. split_and!; intros p m; [intros O H Ho|intros O H1 H2 Ho1 Ho2..].
  - rewrite srtcm_blind. by rewrite !srtcm_rfc.
  - rewrite trtcm_blind. by rewrite !trtcm_rfc.
  - rewrite rfc4115_blind. by rewrite !rfc4115_rfc.
Qed.

Definition demo_srtcm_profile := mk_srtcm_profile 1500 500 1000 100.
Definition demo_trtcm_profile := mk_trtcm_profile 1500 3000 1000 100 1000 200.

Lemma meters_follow_rfcs_witness :
  rte_meter_srtcm_color_aware_check (mk_srtcm 0 1400 0) demo_srtcm_profile 3500 600 RTE_COLOR_GREEN
    = Some (rfc2697 demo_srtcm_profile 3500 600 RTE_COLOR_GREEN (mk_srtcm 0 1400 0))
  /\ rfc2697 demo_srtcm_profile 3500 600 RTE_COLOR_GREEN (mk_srtcm 0 1400 0)
     = (RTE_COLOR_GREEN, mk_srtcm 3000 900 200).
Proof.
  split; [|vm_compute; reflexivity].
  destruct (meters_follow_rfcs 3500 600 RTE_COLOR_GREEN) as (H & _); [unfold fits; lia|lia|].
  apply H; [split; unfold fits; simpl; lia|simpl; lia|vm_compute; reflexivity].
Defined.

(** The check of either kind: colour-aware, or blind to the colour of the packet. *)
Definition srtcm_check (aware : bool) p m time len col :=
  if aware then rte_meter_srtcm_color_aware_check m p time len col
  else rte_meter_srtcm_color_blind_check m p time len.
Definition trtcm_check (aware : bool) p m time len col :=
  if aware then rte_meter_trtcm_color_aware_check m p time len col
  else rte_meter_trtcm_color_blind_check m p time len.
Definition rfc4115_check (aware : bool) p m time len col :=
  if aware then rte_meter_trtcm_rfc4115_color_aware_check m p time len col
  else rte_meter_trtcm_rfc4115_color_blind_check m p time len.

(** C18. The meters enforce their rates, colour-aware or colour-blind: over any run
    of packets with times that do not go back, up to the time [T] and whatever the
    overflows, no check fails, the buckets stay within their sizes, and the bytes
    that come out green are at most what the committed bucket held plus the bytes
    of the periods that have elapsed; likewise for green and yellow together with
    both buckets (single rate) and with the peak bucket (RFC 2698), and for yellow
    alone with the excess bucket (RFC 4115). *)
Theorem meters_enforce_rates (aware : bool) t T pkts :
  in_order t pkts -> t <= T -> Forall (fun k => pk_time k <= T) pkts ->
  (forall p m, srtcm_ok p m -> sr_time m <= t ->
     exists rs m', meter_run (srtcm_check aware p) m pkts = Some (rs, m') /\ srtcm_ok p m'
       /\ bytes_of is_green pkts rs
           <= sr_tc m + periods (sr_time m) (sr_cir_period p) T * sr_cir_bytes_per_period p
       /\ bytes_of not_red pkts rs
           <= sr_tc m + sr_te m + periods (sr_time m) (sr_cir_period p) T * sr_cir_bytes_per_period p)
  /\ (forall p m, trtcm_ok p m -> tr_time_tc m <= t -> tr_time_tp m <= t ->
     exists rs m', meter_run (trtcm_check aware p) m pkts = Some (rs, m') /\ trtcm_ok p m'
       /\ bytes_of is_green pkts rs
           <= tr_tc m + periods (tr_time_tc m) (tr_cir_period p) T * tr_cir_bytes_per_period p
       /\ bytes_of not_red pkts rs
           <= tr_tp m + periods (tr_time_tp m) (tr_pir_period p) T * tr_pir_bytes_per_period p)
  /\ (forall p m, rfc4115_ok p m -> rf_time_tc m <= t -> rf_time_te m <= t ->
     exists rs m', meter_run (rfc4115_check aware p) m pkts = Some (rs, m') /\ rfc4115_ok p m'
       /\ bytes_of is_green pkts rs
           <= rf_tc m + periods (rf_time_tc m) (rf_cir_period p) T * rf_cir_bytes_per_period p
       /\ bytes_of is_yellow pkts rs
           <= rf_te m + periods (rf_time_te m) (rf_eir_period p) T * rf_eir_bytes_per_period p).
Proof.
  intros Ho HT Hf. split_and!; intros p m O.
  - intros Ht. pose proof O as [].
    apply (meter_bounds (srtcm_check aware p) (srtcm_ok p) sr_time sr_tc sr_time
      (fun m => sr_tc m + sr_te m) _ _ _ _ is_green not_red sk_period0 sk_bytes0 sk_period0 sk_bytes0) with t; try done.
    + intros s []. lia.
    + intros s time len col Hs _ Hc Hn. unfold srtcm_check. rewrite srtcm_blind.
      destruct aware; by apply srtcm_pays.
  - intros Ht1 Ht2. pose proof O as [].
    apply (meter_bounds (trtcm_check aware p) (trtcm_ok p) tr_time_tc tr_tc tr_time_tp
      tr_tp (tr_cir_period p) (tr_cir_bytes_per_period p) (tr_pir_period p) (tr_pir_bytes_per_period p) is_green not_red)
      with t; try done; try lia.
    + intros s []. lia.
    + intros s time len col Hs H1 H2 Hn. unfold trtcm_check. rewrite trtcm_blind.
      destruct aware; by apply trtcm_pays.
  - intros Ht1 Ht2. pose proof O as [].
    apply (meter_bounds (rfc4115_check aware p) (rfc4115_ok p) rf_time_tc rf_tc
      rf_time_te rf_te (rf_cir_period p) (rf_cir_bytes_per_period p) (rf_eir_period p) (rf_eir_bytes_per_period p)
      is_green is_yellow) with t; try done; try lia.
    + intros s []. lia.
    + intros s time len col Hs H1 H2 Hn. unfold rfc4115_check. rewrite rfc4115_blind.
      destruct aware; by apply rfc4115_pays.
Qed.

Lemma meters_enforce_rates_witness :
  let pkts := map (fun i => mk_packet (1000 + 100 * i) 300 RTE_COLOR_YELLOW) (seqZ 0 12) in
  exists rs m', meter_run (trtcm_check false demo_trtcm_profile) (mk_trtcm 0 0 700 2000) pkts
      = Some (rs, m')
    /\ bytes_of is_green pkts rs <= 700 + 2 * 100 /\ bytes_of not_red pkts rs <= 2000 + 2 * 200
    /\ bytes_of is_green pkts rs = 900.
Proof.
  intros pkts. destruct (meters_enforce_rates false 1000 2100 pkts) as (_ & H & _).
  - vm_compute. repeat split; try (intros; discriminate).
  - lia.
  - apply Forall_forall. intros k Hk. vm_compute in Hk.
    repeat (destruct Hk as [<-|Hk]; [simpl; lia|]). done.
  - destruct (H demo_trtcm_profile (mk_trtcm 0 0 700 2000)) as (rs & m' & E & _ & H1 & H2);
      [split; unfold fits; simpl; lia|simpl; lia..|].
    exists rs, m'. split; [exact E|]. split; [exact H1|]. split; [exact H2|].
    vm_compute in E. injection E as <- <-. vm_compute. reflexivity.
Defined.
