(* ===== verification/Rcu.v ===== *)
(** * Quiescent-state based reclamation ([include/rte_rcu_qsbr.h]).

    A writer that has unlinked an object takes a token ([rte_rcu_qsbr_start])
    and frees the object once [rte_rcu_qsbr_check] has answered 1: every reader
    has been quiescent since.  Each function is a program, one access of the
    shared memory at a time, and the runs are all the interleavings of any number
    of readers and writers.  Registration is in the compiled library: it is a step
    of the environment that respects its documentation. *)
From stdpp Require Import prelude list numbers.
From S2P Require Import Prelude Bits.
Open Scope Z_scope.

(** ** Data *)

Record rte_rcu_qsbr_cnt := mk_cnt { cnt : Z; lock_cnt : Z }.

(** [qsbr_cnt] and [thrid], the words of the registered threads, follow the
    structure in memory. *)
Record rte_rcu_qsbr := mk_qsbr {
  token : Z; acked_token : Z;
  num_elems : Z; num_threads : Z; max_threads : Z;
  qsbr_cnt : list rte_rcu_qsbr_cnt;
  thrid : list Z
}.

Definition __RTE_QSBR_THRID_ARRAY_ELM_SIZE : Z := 64.
Definition __RTE_QSBR_THRID_INDEX_SHIFT : Z := 6.
Definition __RTE_QSBR_CNT_THR_OFFLINE : Z := 0.
Definition __RTE_QSBR_CNT_MAX : Z := u64 (-1).

Definition set_token (x : Z) (v : rte_rcu_qsbr) : rte_rcu_qsbr :=
  mk_qsbr x (acked_token v) (num_elems v) (num_threads v) (max_threads v) (qsbr_cnt v) (thrid v).
Definition set_acked (x : Z) (v : rte_rcu_qsbr) : rte_rcu_qsbr :=
  mk_qsbr (token v) x (num_elems v) (num_threads v) (max_threads v) (qsbr_cnt v) (thrid v).
Definition set_cnts (l : list rte_rcu_qsbr_cnt) (v : rte_rcu_qsbr) : rte_rcu_qsbr :=
  mk_qsbr (token v) (acked_token v) (num_elems v) (num_threads v) (max_threads v) l (thrid v).
Definition set_registered (regs : list Z) (num : Z) (v : rte_rcu_qsbr) : rte_rcu_qsbr :=
  mk_qsbr (token v) (acked_token v) (num_elems v) num (max_threads v) (qsbr_cnt v) regs.

Definition store_cnt (i x : Z) (v : rte_rcu_qsbr) : option rte_rcu_qsbr :=
  c ← aget (qsbr_cnt v) i ; l ← aset (qsbr_cnt v) i (mk_cnt x (lock_cnt c)) ; Some (set_cnts l v).
Definition store_lock_cnt (i : Z) (f : Z -> Z) (v : rte_rcu_qsbr) : option rte_rcu_qsbr :=
  c ← aget (qsbr_cnt v) i ; l ← aset (qsbr_cnt v) i (mk_cnt (cnt c) (f (lock_cnt c))) ; Some (set_cnts l v).

(** ** Readers

    A function is at a position and moves to the next one; [None] when it
    returns. *)

Inductive online_pc := OnLoad | OnStore (t : Z).

Definition rte_rcu_qsbr_thread_online (thread_id : Z) (p : online_pc) (v : rte_rcu_qsbr)
  : option (option online_pc * rte_rcu_qsbr) :=
  match p with
  | OnLoad => Some (Some (OnStore (token v)), v)
  | OnStore t => v ← store_cnt thread_id t v ; Some (None, v)
  end.

Definition rte_rcu_qsbr_thread_offline (thread_id : Z) (v : rte_rcu_qsbr) : option rte_rcu_qsbr :=
  store_cnt thread_id __RTE_QSBR_CNT_THR_OFFLINE v.

(** [debug] is [RTE_LIBRTE_RCU_DEBUG]; its messages are left out. *)
Definition rte_rcu_qsbr_lock (debug : bool) (thread_id : Z) (v : rte_rcu_qsbr) : option rte_rcu_qsbr :=
  if debug then store_lock_cnt thread_id (fun n => u32 (n + 1)) v else Some v.

Definition rte_rcu_qsbr_unlock (debug : bool) (thread_id : Z) (v : rte_rcu_qsbr) : option rte_rcu_qsbr :=
  if debug then store_lock_cnt thread_id (fun n => u32 (n - 1)) v else Some v.

Inductive quiescent_pc := QLoad | QCmp (t : Z) | QStore (t : Z).

Definition rte_rcu_qsbr_quiescent (thread_id : Z) (p : quiescent_pc) (v : rte_rcu_qsbr)
  : option (option quiescent_pc * rte_rcu_qsbr) :=
  match p with
  | QLoad => Some (Some (QCmp (token v)), v)
  | QCmp t => c ← aget (qsbr_cnt v) thread_id ; Some (if negb (t =? cnt c) then Some (QStore t) else None, v)
  | QStore t => v ← store_cnt thread_id t v ; Some (None, v)
  end.

(** ** Writers *)

Definition rte_rcu_qsbr_start (v : rte_rcu_qsbr) : Z * rte_rcu_qsbr :=
  let t := u64 (token v + 1) in (t, set_token t v).

(** The position of a check, or its return value. *)
Inductive check_res (P : Type) := CGo (p : P) | CRet (r : Z).
Arguments CGo {P}. Arguments CRet {P}.

(** [if (c != __RTE_QSBR_CNT_THR_OFFLINE && acked_token > c) acked_token = c;] *)
Definition least (c acked : Z) : Z :=
  if negb (c =? __RTE_QSBR_CNT_THR_OFFLINE) && (acked >? c) then c else acked.

(** [c == __RTE_QSBR_CNT_THR_OFFLINE || c >= t] *)
Definition caught_up (t c : Z) : bool := (c =? __RTE_QSBR_CNT_THR_OFFLINE) || (c >=? t).

(** At the load of a counter, or at the store of [acked_token]. *)
Inductive all_pc := AllLd (i acked : Z) | AllAck (acked : Z).

(** The test [i < v->max_threads] and what follows the loop. *)
Definition all_loop (v : rte_rcu_qsbr) (i acked : Z) : check_res all_pc :=
  if i <? max_threads v then CGo (AllLd i acked)
  else if negb (acked =? __RTE_QSBR_CNT_MAX) then CGo (AllAck acked) else CRet 1.

Definition __rte_rcu_qsbr_check_all (t : Z) (wait : bool) (p : all_pc) (v : rte_rcu_qsbr)
  : option (check_res all_pc * rte_rcu_qsbr) :=
  match p with
  | AllLd i acked =>
      c ← aget (qsbr_cnt v) i ;
      Some (if caught_up t (cnt c) then all_loop v (u32 (i + 1)) (least (cnt c) acked)
            else if wait then CGo (AllLd i acked) else CRet 0, v)
  | AllAck acked => Some (CRet 1, set_acked acked v)
  end.

(** At the load of a word of the registered threads, at the load of the counter
    of the first thread in [bmap], or at the store of [acked_token]. *)
Inductive sel_pc := SelWord (i acked : Z) | SelCnt (i bmap acked : Z) | SelAck (acked : Z).

(** The test [i < v->num_elems] and what follows the loop; the test [while
    (bmap)]. *)
Definition sel_loop (v : rte_rcu_qsbr) (i acked : Z) : check_res sel_pc :=
  if i <? num_elems v then CGo (SelWord i acked)
  else if negb (acked =? __RTE_QSBR_CNT_MAX) then CGo (SelAck acked) else CRet 1.

Definition sel_bits (v : rte_rcu_qsbr) (i bmap acked : Z) : check_res sel_pc :=
  if truthy bmap then CGo (SelCnt i bmap acked) else sel_loop v (u32 (i + 1)) acked.

Definition __rte_rcu_qsbr_check_selective (t : Z) (wait : bool) (p : sel_pc) (v : rte_rcu_qsbr)
  : option (check_res sel_pc * rte_rcu_qsbr) :=
  match p with
  | SelWord i acked => bmap ← aget (thrid v) i ; Some (sel_bits v i bmap acked, v)
  | SelCnt i bmap acked =>
      let id := u32 (Z.shiftl i __RTE_QSBR_THRID_INDEX_SHIFT) in
      j ← __builtin_ctz bmap ;
      c ← aget (qsbr_cnt v) (u32 (id + j)) ;
      Some (if negb (caught_up t (cnt c)) then if wait then CGo (SelWord i acked) else CRet 0
            else sel_bits v i (Z.land bmap (u64 (Z.lnot (Z.shiftl 1 j)))) (least (cnt c) acked), v)
  | SelAck acked => Some (CRet 1, set_acked acked v)
  end.

(** At the load of [acked_token], at the comparison of the numbers of threads,
    or in one of the two scans. *)
Inductive check_pc := ChkAcked | ChkNum | ChkAll (p : all_pc) | ChkSel (p : sel_pc).

Definition lift_res {P} (f : P -> check_pc) (r : check_res P) : check_res check_pc :=
  match r with CGo p => CGo (f p) | CRet r => CRet r end.

Definition rte_rcu_qsbr_check (t : Z) (wait : bool) (p : check_pc) (v : rte_rcu_qsbr)
  : option (check_res check_pc * rte_rcu_qsbr) :=
  match p with
  | ChkAcked => Some (if t <=? acked_token v then CRet 1 else CGo ChkNum, v)
  | ChkNum =>
      Some (if num_threads v =? max_threads v
            then lift_res ChkAll (all_loop v 0 __RTE_QSBR_CNT_MAX)
            else lift_res ChkSel (sel_loop v 0 __RTE_QSBR_CNT_MAX), v)
  | ChkAll p => '(r, v) ← __rte_rcu_qsbr_check_all t wait p v ; Some (lift_res ChkAll r, v)
  | ChkSel p => '(r, v) ← __rte_rcu_qsbr_check_selective t wait p v ; Some (lift_res ChkSel r, v)
  end.

(** ** Any number of readers and writers *)

(** A reader may use the shared data when it is [Online] only. *)
Inductive rpc := Offline | Onlining (p : online_pc) | Online | Quiescing (p : quiescent_pc).
Inductive wpc := WIdle | Checking (t : Z) (wait : bool) (p : check_pc).

#[global] Instance online_pc_eq_dec : EqDecision online_pc.
Proof. solve_decision. Defined.
#[global] Instance quiescent_pc_eq_dec : EqDecision quiescent_pc.
Proof. solve_decision. Defined.
#[global] Instance rpc_eq_dec : EqDecision rpc.
Proof. solve_decision. Defined.

Record conf := mk_conf { qs : rte_rcu_qsbr; readers : list rpc; writers : list wpc }.

Inductive rcall := ROnline | ROffline | RQuiescent | RLock | RUnlock.
Inductive wcall := WStart | WCheck (t : Z) (wait : bool).

(** Reader [i] (writer [w]) takes a step, or makes the call if it is between two
    calls; or a registration changes the words and the number of threads. *)
Inductive act := ARead (i : nat) (c : rcall) | AWrite (w : nat) (c : wcall) | AReg (regs : list Z) (num : Z).

(** A reader begins or ends a section in which it may use the shared data; a
    start returns its token; a check for a token returns, [scan] says whether it
    has looked at the readers. *)
Inductive event :=
  | EvEnter (i : nat) | EvLeave (i : nat) | EvStart (w : nat) (t : Z)
  | EvCheck (w : nat) (t r : Z) (scan : bool).

#[global] Instance event_eq_dec : EqDecision event.
Proof. solve_decision. Defined.

Definition reg_bit (regs : list Z) (i : Z) : bool :=
  match aget regs (i / 64) with Some wd => Z.testbit wd (i mod 64) | None => false end.

(** Threads that are not offline stay registered, and only thread ids below
    [max_threads] are. *)
Definition reg_ok (c : conf) (regs : list Z) : bool :=
  (length regs =? length (thrid (qs c)))%nat
  && forallb (fun wd => (0 <=? wd) && (wd <? 2 ^ 64)) regs
  && forallb (fun '(i, p) => bool_decide (p = Offline) || reg_bit regs (Z.of_nat i)) (imap pair (readers c))
  && forallb (fun i => (Z.of_nat i <? max_threads (qs c)) || negb (reg_bit regs (Z.of_nat i)))
       (seq 0 (64 * length regs)).

Section system.
Context (debug : bool).

(** A call that breaks the rules of its documentation (a reader that is not
    registered, a token that was never given out) is not made. *)
Definition reader_step (i : nat) (c : rcall) (p : rpc) (v : rte_rcu_qsbr)
  : option (option event * rpc * rte_rcu_qsbr) :=
  let id := Z.of_nat i in
  match p, c with
  | Offline, ROnline =>
      if reg_bit (thrid v) id then
        '(p, v) ← rte_rcu_qsbr_thread_online id OnLoad v ; Some (None, from_option Onlining Online p, v)
      else Some (None, Offline, v)
  | Offline, _ => Some (None, Offline, v)
  | Onlining p, _ =>
      '(p, v) ← rte_rcu_qsbr_thread_online id p v ;
      Some (match p with None => Some (EvEnter i) | Some _ => None end, from_option Onlining Online p, v)
  | Online, ROffline => v ← rte_rcu_qsbr_thread_offline id v ; Some (Some (EvLeave i), Offline, v)
  | Online, RQuiescent =>
      '(p, v) ← rte_rcu_qsbr_quiescent id QLoad v ;
      Some (Some (EvLeave i), from_option Quiescing Online p, v)
  | Online, RLock => v ← rte_rcu_qsbr_lock debug id v ; Some (None, Online, v)
  | Online, RUnlock => v ← rte_rcu_qsbr_unlock debug id v ; Some (None, Online, v)
  | Online, ROnline => Some (None, Online, v)
  | Quiescing p, _ =>
      '(p, v) ← rte_rcu_qsbr_quiescent id p v ;
      Some (match p with None => Some (EvEnter i) | Some _ => None end, from_option Quiescing Online p, v)
  end.

Definition check_step (w : nat) (t : Z) (wait : bool) (p : check_pc) (v : rte_rcu_qsbr)
  : option (option event * wpc * rte_rcu_qsbr) :=
  '(r, v) ← rte_rcu_qsbr_check t wait p v ;
  Some (match r with
        | CGo p => (None, Checking t wait p)
        | CRet r => (Some (EvCheck w t r match p with ChkAcked => false | _ => true end), WIdle)
        end, v).

Definition writer_step (w : nat) (c : wcall) (p : wpc) (v : rte_rcu_qsbr)
  : option (option event * wpc * rte_rcu_qsbr) :=
  match p, c with
  | WIdle, WStart => let '(t, v) := rte_rcu_qsbr_start v in Some (Some (EvStart w t), WIdle, v)
  | WIdle, WCheck t wait => if t <=? token v then check_step w t wait ChkAcked v else Some (None, WIdle, v)
  | Checking t wait p, _ => check_step w t wait p v
  end.

Definition exec1 (a : act) (c : conf) : option (option event * conf) :=
  match a with
  | ARead i call =>
      match readers c !! i with
      | None => Some (None, c)
      | Some p =>
          '(e, p, v) ← reader_step i call p (qs c) ;
          Some (e, mk_conf v (<[i := p]> (readers c)) (writers c))
      end
  | AWrite w call =>
      match writers c !! w with
      | None => Some (None, c)
      | Some p =>
          '(e, p, v) ← writer_step w call p (qs c) ;
          Some (e, mk_conf v (readers c) (<[w := p]> (writers c)))
      end
  | AReg regs num =>
      Some (None, if reg_ok c regs then mk_conf (set_registered regs num (qs c)) (readers c) (writers c) else c)
  end.

(** The events of a run, and the state it ends in. *)
Fixpoint exec (sched : list act) (c : conf) : option (list event * conf) :=
  match sched with
  | [] => Some ([], c)
  | a :: sched =>
      '(e, c) ← exec1 a c ;
      '(es, c) ← exec sched c ;
      Some (option_list e ++ es, c)
  end.
End system.
