(* ===== verification/RcuSpec.v ===== *)
(** * What a check of quiescent states promises.

    The sections of the readers are followed along the events of a run; the
    invariant relates the counters to the sections and says, for a check under
    way, which readers it has passed.  [grace]: the section of a reader that was
    open at a start has ended when a check of its token answers 1. *)
From stdpp Require Import prelude list numbers.
From S2P Require Import Prelude Bits Rcu.
Open Scope Z_scope.

(** ** Sections along a trace *)

(** Reader [i] is in a section after the events. *)
Definition inside (i : nat) (tr : list event) : bool :=
  foldl (fun b e => match e with
                    | EvEnter j => if decide (i = j) then true else b
                    | EvLeave j => if decide (i = j) then false else b
                    | _ => b
                    end) false tr.

(** The token, and for every reader in a section the token when it entered. *)
Definition ghost : Type := Z * (nat -> option Z).

Definition track (g : ghost) (e : event) : ghost :=
  match e with
  | EvEnter j => (g.1, fun i => if decide (i = j) then match g.2 i with None => Some g.1 | x => x end else g.2 i)
  | EvLeave j => (g.1, fun i => if decide (i = j) then None else g.2 i)
  | EvStart _ t => (t, g.2)
  | EvCheck _ _ _ _ => g
  end.

Definition tracked (T : Z) (tr : list event) : ghost := foldl track (T, fun _ => None) tr.

Lemma tracked_app T tr1 tr2 : tracked T (tr1 ++ tr2) = foldl track (tracked T tr1) tr2.
Proof. apply foldl_app. Qed.

Lemma inside_tracked T i tr : inside i tr = true <-> is_Some ((tracked T tr).2 i).
Proof.
  unfold inside, tracked. induction tr as [|e tr IH] using rev_ind; simpl.
  - split; [done|by intros []].
  - rewrite !foldl_app. simpl. destruct e; simpl; try done.
    + case_decide; [|done]. destruct (_.2 i); split; try done; by eexists.
    + case_decide; [|done]. split; [done|by intros []].
Qed.

(** A section that does not end keeps the token of its entry. *)
Lemma tracked_stays g i x tr :
  g.2 i = Some x -> EvLeave i ∉ tr -> (foldl track g tr).2 i = Some x.
Proof.
  revert g. induction tr as [|e tr IH]; intros g Hg Hn; [done|]. simpl. apply IH.
  - destruct e as [j|j| |]; simpl; [| |done..].
    + case_decide; [by rewrite Hg|done].
    + case_decide; [|done]. subst. destruct Hn. by left.
  - intros H. apply Hn. by right.
Qed.

(** ** The invariant *)

(** A counter [k] and the token [e] at which the section of its reader began. *)
Definition reader_ok (T k : Z) (e : option Z) (p : rpc) : Prop :=
  match p with
  | Offline => k = 0 /\ e = None
  | Onlining (OnStore t) => k = 0 /\ e = None /\ 1 <= t <= T
  | Online => exists x, e = Some x /\ 1 <= k <= x /\ x <= T
  | Quiescing (QCmp t) | Quiescing (QStore t) => e = None /\ 1 <= k <= T /\ 1 <= t <= T
  | Onlining OnLoad | Quiescing QLoad => False
  end.

Section invariant.
(** [alone]: there is one writer at most. *)
Context (alone : bool).

(** A reader that a check of [t] has passed entered its section after [t], and
    after the tokens that the check may acknowledge. *)
Definition passed (g : ghost) (t acked : Z) (j : Z) : Prop :=
  forall x, g.2 (Z.to_nat j) = Some x -> t <= x /\ (alone = true -> Z.min acked g.1 <= x).

Definition acked_ok (T acked : Z) : Prop := acked = __RTE_QSBR_CNT_MAX \/ acked <= T.

Definition check_ok (g : ghost) (v : rte_rcu_qsbr) (t : Z) (p : check_pc) : Prop :=
  match p with
  | ChkAcked | ChkNum => True
  | ChkAll (AllLd i acked) =>
      0 <= i < max_threads v /\ acked_ok g.1 acked /\ forall j, 0 <= j < i -> passed g t acked j
  | ChkSel (SelWord i acked) =>
      0 <= i < num_elems v /\ acked_ok g.1 acked /\ forall j, 0 <= j < 64 * i -> passed g t acked j
  | ChkSel (SelCnt i bmap acked) =>
      0 <= i < num_elems v /\ acked_ok g.1 acked /\ (forall j, 0 <= j < 64 * i -> passed g t acked j)
      /\ fits 64 bmap /\ bmap <> 0
      /\ (forall k, 0 <= k < 64 -> Z.testbit bmap k = true -> 64 * i + k < max_threads v)
      /\ (forall k, 0 <= k < 64 -> Z.testbit bmap k = false -> passed g t acked (64 * i + k))
  | ChkAll (AllAck acked) | ChkSel (SelAck acked) =>
      acked <= g.1 /\ forall j, 0 <= j -> passed g t acked j
  end.

Definition writer_ok (g : ghost) (v : rte_rcu_qsbr) (p : wpc) : Prop :=
  match p with
  | WIdle => True
  | Checking t _ p => t <= g.1 /\ check_ok g v t p
  end.

Record inv (c : conf) (g : ghost) : Prop := {
  i_token : token (qs c) = g.1;
  i_range : 1 <= g.1;
  i_cnts : Z.of_nat (length (qsbr_cnt (qs c))) = max_threads (qs c);
  i_readers : length (readers c) = length (qsbr_cnt (qs c));
  i_elems : Z.of_nat (length (thrid (qs c))) = num_elems (qs c);
  i_cover : max_threads (qs c) <= 64 * num_elems (qs c);
  i_max : max_threads (qs c) < 2 ^ 32 /\ num_elems (qs c) <= 2 ^ 26;
  i_regs : reg_ok c (thrid (qs c)) = true;
  i_reader : forall i p k, readers c !! i = Some p -> qsbr_cnt (qs c) !! i = Some k ->
    reader_ok g.1 (cnt k) (g.2 i) p;
  i_ghost : forall i, is_Some (g.2 i) -> (i < length (readers c))%nat;
  i_writer : forall w p, writers c !! w = Some p -> writer_ok g (qs c) p;
  i_acked : alone = true -> acked_token (qs c) <= g.1
    /\ forall i x, g.2 i = Some x -> acked_token (qs c) <= x;
  i_alone : alone = true -> (length (writers c) <= 1)%nat
}.

(** ** Registration *)

Lemma reg_okP c regs : reg_ok c regs = true <->
  length regs = length (thrid (qs c))
  /\ (forall wd, wd ∈ regs -> fits 64 wd)
  /\ (forall i p, readers c !! i = Some p -> p <> Offline -> reg_bit regs (Z.of_nat i) = true)
  /\ (forall j, 0 <= j < 64 * Z.of_nat (length regs) -> reg_bit regs j = true -> j < max_threads (qs c)).
Proof.
  unfold reg_ok. rewrite !andb_true_iff, Nat.eqb_eq, !forallb_forall. split.
  - intros [[[Hl Hw] Hr] Hb]. split; [done|]. split.
    { intros wd Hd. apply list_elem_of_In, Hw in Hd. unfold fits. lia. }
    split.
    + intros i p Hp Ne. specialize (Hr (i, p)). simpl in Hr. rewrite bool_decide_eq_false_2 in Hr by done.
      apply Hr, list_elem_of_In, list_elem_of_lookup. exists i. by rewrite list_lookup_imap, Hp.
    + intros j Hj Hbit. specialize (Hb (Z.to_nat j)). simpl in Hb. rewrite Z2Nat.id, Hbit in Hb by lia.
      specialize (Hb ltac:(apply in_seq; lia)). rewrite orb_false_r in Hb. lia.
  - intros (Hl & Hw & Hr & Hb). split; [split; [split|]|].
    + done.
    + intros wd Hd. apply list_elem_of_In, Hw in Hd. unfold fits in Hd. lia.
    + intros [i p] Hip. apply list_elem_of_In, list_elem_of_lookup in Hip as [j Hj].
      rewrite list_lookup_imap in Hj.
      destruct (readers c !! j) as [p'|] eqn:E; simplify_eq/=. case_bool_decide; [done|]. by apply (Hr _ p).
    + intros i Hi. apply in_seq in Hi. destruct (reg_bit regs (Z.of_nat i)) eqn:E; [|by rewrite orb_true_r].
      specialize (Hb (Z.of_nat i) ltac:(lia) E). simpl. lia.
Qed.

(** A reader whose bit is not set is not in a section. *)
Lemma unregistered_out c g i :
  inv c g -> 0 <= i -> reg_bit (thrid (qs c)) i = false -> g.2 (Z.to_nat i) = None.
Proof.
  intros I Hi Hb. destruct (g.2 (Z.to_nat i)) as [x|] eqn:E; [|done]. exfalso.
  pose proof (i_ghost _ _ I (Z.to_nat i) ltac:(by eexists)) as Hl.
  destruct (lookup_lt_is_Some_2 _ _ Hl) as [p Hp].
  destruct (lookup_lt_is_Some_2 (qsbr_cnt (qs c)) (Z.to_nat i)) as [k Hk]; [by rewrite <- (i_readers _ _ I)|].
  pose proof (i_reader _ _ I _ _ _ Hp Hk) as Hr. rewrite E in Hr.
  pose proof (proj1 (reg_okP c _) (i_regs _ _ I)) as (_ & _ & Hreg & _).
  specialize (Hreg _ _ Hp). rewrite Z2Nat.id in Hreg by done. rewrite Hb in Hreg.
  destruct p as [| | |]; simpl in Hr; [by destruct Hr|..]; by specialize (Hreg ltac:(done)).
Qed.
(** ** Steps of readers *)

(** The sections that begin, begin with the current token. *)
Definition later (g g' : ghost) : Prop :=
  g'.1 = g.1 /\ forall i x, g'.2 i = Some x -> g.2 i = Some x \/ x = g.1.

Lemma passed_later g g' t acked j : later g g' -> t <= g.1 -> passed g t acked j -> passed g' t acked j.
Proof.
  intros [E H] Ht P x Hx. rewrite E. destruct (H _ _ Hx) as [Hx'| ->]; [by apply P|]. split; [done|]. lia.
Qed.

Lemma check_ok_later g g' v v' t p :
  later g g' -> max_threads v' = max_threads v -> num_elems v' = num_elems v -> t <= g.1 ->
  check_ok g v t p -> check_ok g' v' t p.
Proof.
  intros L Em En Ht. pose proof (proj1 L) as E.
  destruct p as [| |[i a|a]|[i a|i b a|a]]; simpl; rewrite ?E, ?Em, ?En; try done.
  - intros (? & ? & H). do 2 (split; [done|]). intros j Hj. by apply (passed_later g), H.
  - intros (? & H). split; [done|]. intros j Hj. by apply (passed_later g), H.
  - intros (? & ? & H). do 2 (split; [done|]). intros j Hj. by apply (passed_later g), H.
  - intros (? & ? & H & ? & ? & ? & H'). do 2 (split; [done|]).
    split; [intros j Hj; by apply (passed_later g), H|]. do 3 (split; [done|]).
    intros j Hj Hb. by apply (passed_later g), H'.
  - intros (? & H). split; [done|]. intros j Hj. by apply (passed_later g), H.
Qed.

(** What a step of reader [i] leaves alone. *)
Record same_but (i : nat) (v v' : rte_rcu_qsbr) : Prop := {
  sb_token : token v' = token v;
  sb_acked : acked_token v' = acked_token v;
  sb_elems : num_elems v' = num_elems v;
  sb_max : max_threads v' = max_threads v;
  sb_thrid : thrid v' = thrid v;
  sb_len : length (qsbr_cnt v') = length (qsbr_cnt v);
  sb_cnt : forall j, j <> i -> qsbr_cnt v' !! j = qsbr_cnt v !! j
}.

Lemma same_but_refl i v : same_but i v v.
Proof. by split. Qed.

Lemma store_same i v k : qsbr_cnt v !! i = Some k ->
  exists k', forall x, store_cnt (Z.of_nat i) x v = Some (set_cnts (<[i := mk_cnt x k']> (qsbr_cnt v)) v).
Proof.
  intros Hk. exists (lock_cnt k). intros x. unfold store_cnt, aget. rewrite (proj2 (Z.leb_le 0 _)) by lia.
  rewrite Nat2Z.id, Hk. cbn [mbind option_bind].
  rewrite aset_ok by (apply lookup_lt_Some in Hk; lia). by rewrite Nat2Z.id.
Qed.

Lemma store_lock_same i v k f : qsbr_cnt v !! i = Some k ->
  store_lock_cnt (Z.of_nat i) f v
  = Some (set_cnts (<[i := mk_cnt (cnt k) (f (lock_cnt k))]> (qsbr_cnt v)) v).
Proof.
  intros Hk. unfold store_lock_cnt, aget. rewrite (proj2 (Z.leb_le 0 _)) by lia.
  rewrite Nat2Z.id, Hk. cbn [mbind option_bind].
  rewrite aset_ok by (apply lookup_lt_Some in Hk; lia). by rewrite Nat2Z.id.
Qed.

Lemma set_cnts_same i v k : qsbr_cnt v !! i = Some k ->
  forall k', same_but i v (set_cnts (<[i := k']> (qsbr_cnt v)) v)
    /\ qsbr_cnt (set_cnts (<[i := k']> (qsbr_cnt v)) v) !! i = Some k'.
Proof.
  intros Hk k'. split; [split|]; simpl; try done.
  - apply length_insert.
  - intros j Hj. by rewrite list_lookup_insert_ne.
  - apply list_lookup_insert_eq. by eapply lookup_lt_Some.
Qed.

Lemma reader_moves c g i p p' v' k' e' :
  inv c g -> readers c !! i = Some p ->
  same_but i (qs c) v' -> qsbr_cnt v' !! i = Some k' ->
  reader_ok g.1 (cnt k') e' p' ->
  (p' <> Offline -> reg_bit (thrid (qs c)) (Z.of_nat i) = true) ->
  (forall x, e' = Some x -> g.2 i = Some x \/ x = g.1) ->
  forall g', g'.1 = g.1 -> (forall j, g'.2 j = if decide (j = i) then e' else g.2 j) ->
  inv (mk_conf v' (<[i := p']> (readers c)) (writers c)) g'.
Proof.
  intros I Hp S Hk Ho Hr He g' E1 E2. destruct S as [S1 S2 S3 S4 S5 S6 S7].
  assert (later g g') as L.
  { split; [done|]. intros j x. rewrite E2. case_decide; subst; [by apply He|by left]. }
  split; simpl; rewrite ?E1, ?S1, ?S2, ?S3, ?S4, ?S5, ?S6, ?length_insert; try apply I.
  - apply reg_okP. simpl. pose proof (proj1 (reg_okP c _) (i_regs _ _ I)) as (_ & R2 & R3 & R4).
    rewrite S5, S4. split_and!; try done. intros j q Hq Ne. destruct (decide (i = j)) as [<-|Nj].
    + rewrite list_lookup_insert_eq in Hq by (by eapply lookup_lt_Some). simplify_eq. by apply Hr.
    + rewrite list_lookup_insert_ne in Hq by done. by eapply R3.
  - intros j q k Hq Hk2. rewrite E2. destruct (decide (j = i)) as [->|Nj].
    + rewrite list_lookup_insert_eq in Hq by (by eapply lookup_lt_Some). by simplify_eq.
    + rewrite list_lookup_insert_ne in Hq by done. rewrite S7 in Hk2 by done. by apply (i_reader _ _ I).
  - intros j. rewrite E2. case_decide; subst; [|apply (i_ghost _ _ I)]. intros _. by eapply lookup_lt_Some.
  - intros w q Hq. specialize (i_writer _ _ I w q Hq). destruct q as [|t wt q]; [done|]. simpl. rewrite E1.
    intros [Ht Hc]. split; [done|]. by eapply check_ok_later.
  - intros Ha. destruct (i_acked _ _ I Ha) as [A1 A2]. split; [done|]. intros j x Hx.
    destruct (proj2 L _ _ Hx) as [Hx'| ->]; [by eapply A2|done].
Qed.

Definition is_check (e : event) : bool := match e with EvCheck _ _ _ _ => true | _ => false end.

(** What an event promises: a start takes the next token; a check that answers
    1 leaves no reader in a section that it entered before the token. *)
Definition promise (g : ghost) (e : event) : Prop :=
  match e with
  | EvStart _ t => t = g.1 + 1
  | EvCheck _ t 1 scan => scan = true \/ alone = true -> forall i x, g.2 i = Some x -> t <= x
  | _ => True
  end.

Definition after (g : ghost) (e : option event) : ghost := foldl track g (option_list e).

Lemma reader_step_inv debug i call c g p :
  inv c g -> readers c !! i = Some p ->
  exists e p' v', reader_step debug i call p (qs c) = Some (e, p', v')
    /\ inv (mk_conf v' (<[i := p']> (readers c)) (writers c)) (after g e)
    /\ from_option (promise g) True e.
Proof.
  intros I Hp.
  destruct (lookup_lt_is_Some_2 (qsbr_cnt (qs c)) i) as [k Hk].
  { rewrite <- (i_readers _ _ I). by eapply lookup_lt_Some. }
  destruct (store_same i _ k Hk) as [k' Hs].
  pose proof (i_reader _ _ I i p k Hp Hk) as Ho. pose proof (i_token _ _ I) as ET.
  pose proof (i_range _ _ I) as HT.
  pose proof (proj1 (reg_okP c _) (i_regs _ _ I)) as (_ & _ & HR & _).
  pose proof (HR _ _ Hp) as HR'. clear HR.
  assert (aget (qsbr_cnt (qs c)) (Z.of_nat i) = Some k) as Hg.
  { unfold aget. by rewrite (proj2 (Z.leb_le 0 _)), Nat2Z.id by lia. }
  pose proof (fun k' => proj1 (set_cnts_same i _ k Hk k')) as HS.
  pose proof (fun k' => proj2 (set_cnts_same i _ k Hk k')) as HC.
  pose proof (fun p' v' k' e' S Hk' Ho' Hr' He' => reader_moves c g i p p' v' k' e' I Hp S Hk' Ho' Hr' He') as Mv.
  assert (forall p', p' = p -> inv (mk_conf (qs c) (<[i := p']> (readers c)) (writers c)) g) as Stay.
  { intros p' ->. apply (Mv p (qs c) k (g.2 i) (same_but_refl _ _) Hk Ho HR' (fun x H => or_introl H)); [done|].
    intros j. by case_decide; subst. }
  destruct p as [|[|t]| |[|t|t]]; simpl in Ho; try done.
  - destruct call; try (eexists _, _, _; split; [reflexivity|]; split; [by apply Stay|done]).
    simpl. destruct (reg_bit (thrid (qs c)) (Z.of_nat i)) eqn:Er;
      [|eexists _, _, _; split; [reflexivity|]; split; [by apply Stay|done]].
    eexists _, _, _; split; [reflexivity|]. split; [|done].
    apply (Mv _ _ k None (same_but_refl _ _) Hk); try done.
    + simpl. rewrite ET. destruct Ho. split; [done|]. split; [done|lia].
    + intros j. case_decide; subst; [by destruct Ho|done].
  - destruct Ho as (Hk0 & He & Ht). simpl. rewrite Hs. cbn [mbind option_bind].
    eexists _, _, _; split; [reflexivity|]. split; [|done].
    apply (Mv Online _ _ (Some g.1) (HS _) (HC _)); try done.
    + simpl. exists g.1. split; [done|]. lia.
    + intros _. by apply HR'.
    + intros x [= <-]. by right.
    + intros j. simpl. case_decide; subst; [by rewrite He|done].
  - destruct Ho as (x & He & Hkx & Hx).
    assert (forall v', same_but i (qs c) v' -> forall k'', qsbr_cnt v' !! i = Some k'' -> cnt k'' = cnt k ->
      inv (mk_conf v' (<[i := Online]> (readers c)) (writers c)) g) as St.
    { intros v' S k'' Hk' Ec. apply (Mv Online v' k'' (g.2 i) S Hk'); try done; [simpl; rewrite Ec; by exists x|by left|].
      intros j. by case_decide; subst. }
    destruct call; simpl.
    + eexists _, _, _; split; [reflexivity|]. split; [by apply Stay|done].
    + unfold rte_rcu_qsbr_thread_offline. rewrite Hs. cbn [mbind option_bind].
      eexists _, _, _; split; [reflexivity|]. split; [|done].
      apply (Mv Offline _ _ None (HS _) (HC _)); try done.
    + eexists _, _, _; split; [reflexivity|]. split; [|done].
      apply (Mv (Quiescing (QCmp (token (qs c)))) _ k None (same_but_refl _ _) Hk); try done.
      * simpl. rewrite ET. split; [done|]. lia.
      * intros _. by apply HR'.
    + unfold rte_rcu_qsbr_lock. destruct debug.
      * rewrite (store_lock_same _ _ _ _ Hk). cbn [mbind option_bind].
        eexists _, _, _; split; [reflexivity|]. split; [by eapply St|done].
      * eexists _, _, _; split; [reflexivity|]. split; [by apply Stay|done].
    + unfold rte_rcu_qsbr_unlock. destruct debug.
      * rewrite (store_lock_same _ _ _ _ Hk). cbn [mbind option_bind].
        eexists _, _, _; split; [reflexivity|]. split; [by eapply St|done].
      * eexists _, _, _; split; [reflexivity|]. split; [by apply Stay|done].
  - destruct Ho as (He & Hkr & Ht). simpl. rewrite Hg. cbn [mbind option_bind].
    destruct (Z.eqb_spec t (cnt k)) as [Et|Et]; simpl.
    + eexists _, _, _; split; [reflexivity|]. split; [|done].
      apply (Mv Online _ k (Some g.1) (same_but_refl _ _) Hk); try done.
      * simpl. exists g.1. split; [done|]. lia.
      * intros _. by apply HR'.
      * intros x [= <-]. by right.
      * intros j. simpl. case_decide; subst; [by rewrite He|done].
    + eexists _, _, _; split; [reflexivity|]. split; [|done].
      apply (Mv (Quiescing (QStore t)) _ k None (same_but_refl _ _) Hk); try done.
      * intros _. by apply HR'.
      * intros j. simpl. by case_decide; subst.
  - destruct Ho as (He & Hkr & Ht). simpl. rewrite Hs. cbn [mbind option_bind].
    eexists _, _, _; split; [reflexivity|]. split; [|done].
    apply (Mv Online _ _ (Some g.1) (HS _) (HC _)); try done.
    + simpl. exists g.1. split; [done|]. lia.
    + intros _. by apply HR'.
    + intros x [= <-]. by right.
    + intros j. simpl. case_decide; subst; [by rewrite He|done].
Qed.

(** ** Steps of writers *)

Lemma reg_bit_word regs i k wd :
  0 <= i -> 0 <= k < 64 -> aget regs i = Some wd -> reg_bit regs (64 * i + k) = Z.testbit wd k.
Proof.
  intros Hi Hk E. unfold reg_bit.
  rewrite (Z.mul_comm 64), Z.div_add_l, (Z.div_small k), Z.add_0_r, E by lia.
  by rewrite Z.add_comm, Z.mod_add, Z.mod_small by lia.
Qed.

Lemma least_le k acked : least k acked <= acked /\ (k <> 0 -> least k acked <= k).
Proof.
  unfold least, __RTE_QSBR_CNT_THR_OFFLINE. destruct (Z.eqb_spec k 0); simpl; [split; lia|].
  destruct (Z.gtb_spec acked k); split; lia.
Qed.

Lemma passed_least g t k acked j : passed g t acked j -> passed g t (least k acked) j.
Proof.
  intros H x Hx. destruct (H x Hx) as [Ht Ha]. split; [done|]. intros Hal.
  pose proof (proj1 (least_le k acked)). specialize (Ha Hal). lia.
Qed.

(** The counter of a reader below [max_threads], and what its value tells. *)
Lemma look_at_reader c g t acked j :
  inv c g -> 0 <= j < max_threads (qs c) -> acked_ok g.1 acked ->
  exists k, aget (qsbr_cnt (qs c)) j = Some k /\ acked_ok g.1 (least (cnt k) acked)
    /\ (caught_up t (cnt k) = true -> passed g t (least (cnt k) acked) j).
Proof.
  intros I Hj Ha. pose proof (i_cnts _ _ I) as Hc.
  destruct (lookup_lt_is_Some_2 (qsbr_cnt (qs c)) (Z.to_nat j)) as [k Hk]; [lia|].
  destruct (lookup_lt_is_Some_2 (readers c) (Z.to_nat j)) as [p Hp]; [rewrite (i_readers _ _ I); lia|].
  pose proof (i_reader _ _ I _ _ _ Hp Hk) as Ho. exists k. split.
  { unfold aget. by rewrite (proj2 (Z.leb_le 0 j)), Hk by lia. }
  assert (cnt k <= g.1 /\ forall x, g.2 (Z.to_nat j) = Some x -> cnt k <> 0 /\ cnt k <= x) as [HT Hx].
  { pose proof (i_range _ _ I).
    destruct p as [|[|u]| |[|u|u]]; simpl in Ho; try done.
    - destruct Ho as [-> ->]. split; [lia|done].
    - destruct Ho as (-> & -> & _). split; [lia|done].
    - destruct Ho as (x & -> & ? & ?). split; [lia|]. intros y [= <-]. lia.
    - destruct Ho as (-> & ? & _). split; [lia|done].
    - destruct Ho as (-> & ? & _). split; [lia|done]. }
  split.
  - unfold acked_ok in *. unfold least. case_match; [right; lia|done].
  - unfold caught_up, __RTE_QSBR_CNT_THR_OFFLINE. intros Hcu x Ex. destruct (Hx _ Ex) as [Hn Hle].
    pose proof (proj2 (least_le (cnt k) acked) Hn).
    destruct (Z.eqb_spec (cnt k) 0); [done|]. simpl in Hcu. split; [lia|]. intros _. lia.
Qed.

(** What a position or a return value of a check stands for. *)
Definition res_ok (g : ghost) (v : rte_rcu_qsbr) (t : Z) (r : check_res check_pc) : Prop :=
  match r with
  | CGo p => check_ok g v t p
  | CRet 1 => exists acked, forall j, 0 <= j -> passed g t acked j
  | CRet r => r = 0
  end.

Lemma passed_all c g t acked n :
  inv c g -> max_threads (qs c) <= n -> (forall j, 0 <= j < n -> passed g t acked j) ->
  forall j, 0 <= j -> passed g t acked j.
Proof.
  intros I Hn H j Hj. destruct (decide (j < n)); [by apply H|]. intros x Hx.
  pose proof (i_ghost _ _ I _ (ltac:(by eexists) : is_Some (g.2 (Z.to_nat j)))) as Hl.
  rewrite (i_readers _ _ I) in Hl. pose proof (i_cnts _ _ I). lia.
Qed.

Lemma acked_end T acked : acked_ok T acked -> negb (acked =? __RTE_QSBR_CNT_MAX) = true -> acked <= T.
Proof. intros [->|]; [done|lia]. Qed.

Lemma all_loop_ok c g t i acked :
  inv c g -> 0 <= i <= max_threads (qs c) -> acked_ok g.1 acked ->
  (forall j, 0 <= j < i -> passed g t acked j) ->
  res_ok g (qs c) t (lift_res ChkAll (all_loop (qs c) i acked)).
Proof.
  intros I Hi Ha H. unfold all_loop. destruct (Z.ltb_spec i (max_threads (qs c))); simpl.
  - split; [lia|]. by split.
  - destruct (negb _) eqn:E; simpl.
    + split; [by eapply acked_end|]. by eapply (passed_all c g t acked i).
    + exists acked. by eapply (passed_all c g t acked i).
Qed.

Lemma sel_loop_ok c g t i acked :
  inv c g -> 0 <= i <= num_elems (qs c) -> acked_ok g.1 acked ->
  (forall j, 0 <= j < 64 * i -> passed g t acked j) ->
  res_ok g (qs c) t (lift_res ChkSel (sel_loop (qs c) i acked)).
Proof.
  intros I Hi Ha H. unfold sel_loop. pose proof (i_cover _ _ I).
  destruct (Z.ltb_spec i (num_elems (qs c))); simpl.
  - split; [lia|]. by split.
  - destruct (negb _) eqn:E; simpl.
    + split; [by eapply acked_end|]. eapply (passed_all c g t acked (64 * i)); (done || lia).
    + exists acked. eapply (passed_all c g t acked (64 * i)); (done || lia).
Qed.

Lemma sel_bits_ok c g t i bmap acked :
  inv c g -> 0 <= i < num_elems (qs c) -> acked_ok g.1 acked ->
  (forall j, 0 <= j < 64 * i -> passed g t acked j) -> fits 64 bmap ->
  (forall k, 0 <= k < 64 -> Z.testbit bmap k = true -> 64 * i + k < max_threads (qs c)) ->
  (forall k, 0 <= k < 64 -> Z.testbit bmap k = false -> passed g t acked (64 * i + k)) ->
  res_ok g (qs c) t (lift_res ChkSel (sel_bits (qs c) i bmap acked)).
Proof.
  intros I Hi Ha H Hf H1 H0. unfold sel_bits, truthy. destruct (Z.eqb_spec bmap 0) as [->|Hb]; simpl.
  - pose proof (i_max _ _ I). rewrite wrap_small by (unfold fits; lia). apply sel_loop_ok; [done|lia|done|].
    intros j Hj. destruct (decide (j < 64 * i)); [apply H; lia|].
    replace j with (64 * i + (j - 64 * i)) by lia. apply H0; [lia|apply Z.bits_0].
  - do 6 (split; [done|]). done.
Qed.

Lemma word_ok c g t i acked :
  inv c g -> 0 <= i < num_elems (qs c) -> acked_ok g.1 acked ->
  (forall j, 0 <= j < 64 * i -> passed g t acked j) ->
  exists wd, aget (thrid (qs c)) i = Some wd
    /\ res_ok g (qs c) t (lift_res ChkSel (sel_bits (qs c) i wd acked)).
Proof.
  intros I Hi Ha H. pose proof (proj1 (reg_okP c _) (i_regs _ _ I)) as (_ & Rw & _ & Rm).
  pose proof (i_elems _ _ I) as He. set (wd := default 0 (aget (thrid (qs c)) i)).
  pose proof (aget_in (thrid (qs c)) i ltac:(lia)) as E. fold wd in E. exists wd. split; [done|].
  assert (fits 64 wd) as Hf.
  { apply Rw. unfold aget in E. destruct (0 <=? i); [|done]. by eapply list_elem_of_lookup_2. }
  apply sel_bits_ok; try done.
  - intros k Hk Hb. apply Rm; [lia|]. by rewrite (reg_bit_word _ i k wd) by (done || lia).
  - intros k Hk Hb x Hx. rewrite (unregistered_out c g) in Hx; [done|done|lia|].
    by rewrite (reg_bit_word _ i k wd) by (done || lia).
Qed.

Lemma cnt_ok c g t i bmap acked :
  inv c g -> check_ok g (qs c) t (ChkSel (SelCnt i bmap acked)) ->
  exists j k, __builtin_ctz bmap = Some j
    /\ aget (qsbr_cnt (qs c)) (u32 (u32 (Z.shiftl i __RTE_QSBR_THRID_INDEX_SHIFT) + j)) = Some k
    /\ (caught_up t (cnt k) = true ->
        res_ok g (qs c) t (lift_res ChkSel
          (sel_bits (qs c) i (Z.land bmap (u64 (Z.lnot (Z.shiftl 1 j)))) (least (cnt k) acked)))).
Proof.
  intros I (Hi & Ha & H & Hf & Hn & H1 & H0). destruct (lowest_bit bmap ltac:(unfold fits in Hf; lia)) as (j & Ej & Hj & Hb & _).
  assert (j < 64) as Hj64.
  { destruct (decide (j < 64)); [done|]. rewrite (testbit_beyond 64 bmap j) in Hb by (done || lia). done. }
  pose proof (H1 j ltac:(lia) Hb) as Hmax. pose proof (i_max _ _ I) as [HM _].
  exists j. destruct (look_at_reader c g t acked (64 * i + j) I ltac:(lia) Ha) as (k & Ek & Ha' & Hp).
  exists k. split; [done|]. split.
  { unfold __RTE_QSBR_THRID_INDEX_SHIFT. rewrite Z.shiftl_mul_pow2, Z.mul_comm by lia. change (2 ^ 6) with 64.
    by rewrite !wrap_small by (rewrite ?wrap_small; unfold fits; lia). }
  intros Hcu. specialize (Hp Hcu). apply sel_bits_ok; try done.
  - intros x Hx. apply passed_least, H, Hx.
  - unfold fits in *. split; [apply Z.land_nonneg; lia|].
    destruct (decide (Z.land bmap (u64 (Z.lnot (Z.shiftl 1 j))) = 0)) as [->|]; [lia|].
    apply Z.log2_lt_pow2; [assert (0 <= Z.land bmap (u64 (Z.lnot (Z.shiftl 1 j)))) by (apply Z.land_nonneg; lia); lia|].
    eapply Z.le_lt_trans; [apply Z.log2_land; [lia|apply (wrap_fits 64); lia]|].
    apply Z.min_lt_iff. left. apply Z.log2_lt_pow2; lia.
  - intros x Hx. rewrite Z.land_spec. intros Hbx. apply andb_prop in Hbx as [Hbx _]. by apply H1.
  - intros x Hx. rewrite Z.land_spec, other_bits by lia. rewrite (proj2 (Z.ltb_lt x 64)) by lia. simpl.
    destruct (Z.eqb_spec j x) as [<-|]; [done|]. simpl. rewrite andb_true_r. intros Hbx.
    by apply passed_least, H0.
Qed.

(** The result of a step of a check: a position or value as it should be, the
    fast path, or the store of [acked_token]. *)
Lemma check_step_ok c g t wait p :
  inv c g -> check_ok g (qs c) t p ->
  exists r v', rte_rcu_qsbr_check t wait p (qs c) = Some (r, v')
    /\ ((v' = qs c /\ (p <> ChkAcked \/ r = CGo ChkNum) /\ res_ok g (qs c) t r)
        \/ (v' = qs c /\ p = ChkAcked /\ r = CRet 1 /\ t <= acked_token (qs c))
        \/ exists acked, v' = set_acked acked (qs c) /\ r = CRet 1 /\ acked <= g.1 /\ p <> ChkAcked
             /\ forall j, 0 <= j -> passed g t acked j).
Proof.
  intros I Hc. destruct p as [| |[i a|a]|[i a|i b a|a]]; simpl.
  - eexists _, _. split; [reflexivity|]. destruct (Z.leb_spec t (acked_token (qs c))); [|by left; auto].
    right. left. auto.
  - assert (acked_ok g.1 __RTE_QSBR_CNT_MAX) as HA by by left. pose proof (i_cnts _ _ I). pose proof (i_elems _ _ I).
    eexists _, _. split; [reflexivity|]. left. split; [done|]. split; [by left|]. case_match.
    + apply all_loop_ok; [done|lia|done|]. intros j Hj. lia.
    + apply sel_loop_ok; [done|lia|done|]. intros j Hj. lia.
  - destruct Hc as (Hi & Ha & H). destruct (look_at_reader c g t a i I Hi Ha) as (k & E & Ha' & Hp).
    rewrite E. cbn [mbind option_bind]. eexists _, _. split; [reflexivity|]. left. split; [done|]. split; [by left|].
    destruct (caught_up t (cnt k)); [|destruct wait; simpl; [|done]; split; [lia|by split]].
    specialize (Hp eq_refl). pose proof (i_max _ _ I). rewrite wrap_small by (unfold fits; lia).
    apply all_loop_ok; [done|lia|done|]. intros j Hj.
    destruct (decide (j = i)) as [->|]; [done|]. apply passed_least, H. lia.
  - eexists _, _. split; [reflexivity|]. right. right. exists a. destruct Hc. by split_and!.
  - destruct Hc as (Hi & Ha & H). destruct (word_ok c g t i a I Hi Ha H) as (wd & E & Hr).
    rewrite E. cbn [mbind option_bind]. eexists _, _. split; [reflexivity|]. left. split; [done|]. by split; [left|].
  - destruct (cnt_ok c g t i b a I Hc) as (j & k & E1 & E2 & Hr). destruct Hc as (Hi & Ha & H & _).
    rewrite E1. cbn [mbind option_bind]. rewrite E2. cbn [mbind option_bind].
    eexists _, _. split; [reflexivity|]. left. split; [done|]. split; [by left|].
    destruct (caught_up t (cnt k)); simpl; [by apply Hr|]. destruct wait; simpl; [by split|done].
  - eexists _, _. split; [reflexivity|]. right. right. exists a. destruct Hc. by split_and!.
Qed.

Lemma writer_moves c g w p p' v' g' :
  inv c g -> writers c !! w = Some p -> g'.2 = g.2 ->
  (v' = qs c /\ g' = g
   \/ (exists acked t, v' = set_acked acked (qs c) /\ g' = g /\ acked <= g.1
        /\ forall j, 0 <= j -> passed g t acked j)
   \/ (v' = set_token (g.1 + 1) (qs c) /\ g'.1 = g.1 + 1)) ->
  writer_ok g' v' p' ->
  inv (mk_conf v' (readers c) (<[w := p']> (writers c))) g'.
Proof.
  intros I Hp Eg Hv Hw.
  assert (forall q x, writers c !! x = Some q -> x <> w -> writer_ok g' v' q) as Hoth.
  { intros q x Hq Ne. pose proof (i_writer _ _ I _ _ Hq) as Ho. destruct q as [|t wt q]; [done|].
    destruct Hv as [[-> ->]|[(a & u & -> & -> & _)|[-> E]]]; [done|done|].
    assert (alone = true -> False) as Hna.
    { intros Ha. pose proof (i_alone _ _ I Ha). apply lookup_lt_Some in Hq, Hp. lia. }
    destruct Ho as [Ht Hc]. split; [lia|].
    assert (forall a j, passed g t a j -> passed g' t a j) as Hpa.
    { intros a j Hj y. rewrite Eg. intros Hy. split; [by apply Hj|]. intros; exfalso; auto. }
    assert (forall a, acked_ok g.1 a -> acked_ok g'.1 a) as Hac by (intros a [|]; [by left|right; lia]).
    destruct q as [| |[i a|a]|[i a|i b a|a]]; simpl in *; try done.
    - destruct Hc as (? & ? & ?). split_and!; auto; lia.
    - destruct Hc. split; auto; lia.
    - destruct Hc as (? & ? & ?). split_and!; auto; lia.
    - destruct Hc as (? & ? & ? & ? & ? & ? & ?). split; [done|]. split; [auto|]. split; [auto|]. do 3 (split; [done|]). auto.
    - destruct Hc. split; auto; lia. }
  assert (forall x q, <[w := p']> (writers c) !! x = Some q -> writer_ok g' v' q) as Hall.
  { intros x q Hq. destruct (decide (x = w)) as [->|Ne].
    - rewrite list_lookup_insert_eq in Hq by (by eapply lookup_lt_Some). by simplify_eq.
    - rewrite list_lookup_insert_ne in Hq by done. by eapply Hoth. }
  clear Hoth Hw. destruct I as [I1 I2 I3 I4 I5 I6 I7 I8 I9 I10 I11 I12 I13].
  destruct Hv as [[-> ->]|[(a & u & -> & -> & Ha & Hpa)|[-> E]]]; split; simpl; rewrite ?length_insert, ?Eg, ?E; try done.
  - intros Hal. split; [done|]. intros i x Hx. destruct (Hpa (Z.of_nat i) ltac:(lia) x) as [_ Hm]; [by rewrite Nat2Z.id|].
    specialize (Hm Hal). lia.
  - lia.
  - intros i q k Hq Hk. specialize (I9 i q k Hq Hk). destruct q as [|[|t]| |[|t|t]]; simpl in *; try done.
    + destruct I9 as (? & ? & ?). split_and!; (done || lia).
    + destruct I9 as (x & ? & ? & ?). exists x. split; [done|]. split; [done|lia].
    + destruct I9 as (? & ? & ?). split; [done|]. lia.
    + destruct I9 as (? & ? & ?). split; [done|]. lia.
  - intros Hal. destruct (I12 Hal). split; [lia|done].
Qed.

Lemma check_step_inv c g w p t wait q :
  inv c g -> writers c !! w = Some p -> t <= g.1 -> check_ok g (qs c) t q ->
  exists e p' v', check_step w t wait q (qs c) = Some (e, p', v')
    /\ inv (mk_conf v' (readers c) (<[w := p']> (writers c))) (after g e)
    /\ from_option (promise g) True e.
Proof.
  intros I Hp Ht Hc. destruct (check_step_ok c g t wait q I Hc) as (r & v' & E & H).
  unfold check_step. rewrite E. cbn [mbind option_bind].
  destruct H as [(-> & Hq & Hr)|[(-> & -> & -> & Hle)|(a & -> & -> & Ha & Hq & Hpa)]].
  - destruct r as [q'|r]; (eexists _, _, _; split; [reflexivity|]; split; [|simpl; try done]).
    + eapply writer_moves; try done. by left.
    + eapply writer_moves; try done. by left.
    + destruct Hq as [Hq|?]; [|done]. destruct r as [|[r|r|]|r]; try done. intros _ i x Hx. destruct Hr as [a Hpa].
      apply (Hpa (Z.of_nat i) ltac:(lia)). by rewrite Nat2Z.id.
  - eexists _, _, _. split; [reflexivity|]. split; simpl.
    + eapply writer_moves; try done. by left.
    + intros [|Hal]; [done|]. intros i x Hx. pose proof (proj2 (i_acked _ _ I Hal) _ _ Hx). lia.
  - eexists _, _, _. split; [reflexivity|]. split; simpl.
    + eapply writer_moves; try done. right. left. by exists a, t.
    + intros _ i x Hx. apply (Hpa (Z.of_nat i) ltac:(lia)). by rewrite Nat2Z.id.
Qed.

Lemma writer_step_inv call c g w p :
  inv c g -> g.1 + 1 < 2 ^ 64 -> writers c !! w = Some p ->
  exists e p' v', writer_step w call p (qs c) = Some (e, p', v')
    /\ inv (mk_conf v' (readers c) (<[w := p']> (writers c))) (after g e)
    /\ from_option (promise g) True e.
Proof.
  intros I HT Hp. pose proof (i_token _ _ I) as ET. pose proof (i_range _ _ I).
  destruct p as [|t wt q].
  - destruct call as [|t wt]; simpl.
    + unfold rte_rcu_qsbr_start. rewrite ET, wrap_small by (unfold fits; lia).
      eexists _, _, _. split; [reflexivity|]. split; [|done].
      eapply writer_moves; try done. right. by right.
    + destruct (Z.leb_spec t (token (qs c))).
      * eapply check_step_inv; try done. by rewrite <- ET.
      * eexists _, _, _. split; [reflexivity|]. split; [|done]. eapply writer_moves; try done. by left.
  - pose proof (i_writer _ _ I _ _ Hp) as [Ht Hc]. by eapply check_step_inv.
Qed.

Lemma reg_inv c g regs num :
  inv c g -> reg_ok c regs = true -> inv (mk_conf (set_registered regs num (qs c)) (readers c) (writers c)) g.
Proof.
  intros I Hr. pose proof (proj1 (reg_okP c _) Hr) as (Hl & Rw & Rr & Rm).
  split; simpl; rewrite ?Hl; try apply I.
  by apply reg_okP.
Qed.

Theorem exec1_inv debug a c g :
  inv c g -> g.1 + 1 < 2 ^ 64 ->
  exists e c', exec1 debug a c = Some (e, c') /\ inv c' (after g e) /\ from_option (promise g) True e.
Proof.
  intros I HT. destruct a as [i call|w call|regs num]; simpl.
  - destruct (readers c !! i) as [p|] eqn:Hp; [|by exists None, c].
    destruct (reader_step_inv debug i call c g p I Hp) as (e & p' & v' & E & H). rewrite E. by eexists _, _.
  - destruct (writers c !! w) as [p|] eqn:Hp; [|by exists None, c].
    destruct (writer_step_inv call c g w p I HT Hp) as (e & p' & v' & E & H). rewrite E. by eexists _, _.
  - destruct (reg_ok c regs) eqn:Hr; [|by exists None, c].
    eexists _, _. split; [reflexivity|]. split; [by apply reg_inv|done].
Qed.
End invariant.
