(* ===== verification/RcuThm.v ===== *)
(** * Grace periods and termination of the checks of quiescent states. *)
From stdpp Require Import prelude list numbers.
From S2P Require Import Prelude Bits Rcu RcuSpec.
Open Scope Z_scope.

(** ** Runs *)

Lemma exec_inv alone debug sched : forall c g,
  inv alone c g -> g.1 + Z.of_nat (length sched) < 2 ^ 64 ->
  exists tr c', exec debug sched c = Some (tr, c') /\ inv alone c' (foldl track g tr)
    /\ (foldl track g tr).1 <= g.1 + Z.of_nat (length sched)
    /\ forall tr1 e tr2, tr = tr1 ++ e :: tr2 -> promise alone (foldl track g tr1) e.
Proof.
  induction sched as [|a sched IH]; intros c g I HT; simpl length in HT.
  - exists [], c. split; [done|]. split; [done|]. split; [simpl; lia|]. by intros [|] ? ? ?.
  - destruct (exec1_inv alone debug a c g I ltac:(lia)) as (e & c1 & E & I1 & P).
    assert ((after g e).1 <= g.1 + 1) as HT1 by (unfold after; destruct e as [[| | |]|]; simpl in *; lia).
    destruct (IH c1 (after g e) I1 ltac:(lia)) as (tr & c' & E' & I' & HT' & P').
    exists (option_list e ++ tr), c'. simpl. rewrite E. cbn [mbind option_bind]. rewrite E'. cbn [mbind option_bind].
    split; [done|]. rewrite foldl_app. split; [done|].
    split; [unfold after in *; simpl length; lia|]. intros tr1 x tr2 Et.
    destruct e as [e|]; simpl in Et; [|by eapply P'].
    destruct tr1 as [|y tr1]; simplify_eq/=; [done|]. by apply (P' _ _ tr2).
Qed.

(** A section began with a token that has been taken. *)
Lemma tracked_le alone T tr :
  (forall tr1 e tr2, tr = tr1 ++ e :: tr2 -> promise alone (foldl track (T, fun _ => None) tr1) e) ->
  forall i x, (tracked T tr).2 i = Some x -> x <= (tracked T tr).1.
Proof.
  induction tr as [|e tr IH] using rev_ind; intros P i x Hx; [done|].
  rewrite tracked_app in Hx |- *. pose proof (P tr e [] eq_refl) as Pe. fold (tracked T tr) in Pe.
  specialize (IH (fun tr1 e' tr2 H => P tr1 e' (tr2 ++ [e]) ltac:(by rewrite H, <- app_assoc))).
  destruct e as [j|j|w t|]; simpl in *; [| | |by eapply IH].
  - case_decide; [|by eapply IH]. destruct ((tracked T tr).2 i) as [y|] eqn:E; simplify_eq; [by eapply IH|done].
  - case_decide; [done|by eapply IH].
  - specialize (IH i x Hx). lia.
Qed.

(** A state in which no reader is online and no check is under way. *)
Record rest (c : conf) : Prop := {
  r_token : 1 <= token (qs c);
  r_acked : acked_token (qs c) <= token (qs c);
  r_cnts : Z.of_nat (length (qsbr_cnt (qs c))) = max_threads (qs c);
  r_readers : length (readers c) = length (qsbr_cnt (qs c));
  r_elems : Z.of_nat (length (thrid (qs c))) = num_elems (qs c);
  r_cover : max_threads (qs c) <= 64 * num_elems (qs c);
  r_max : max_threads (qs c) < 2 ^ 32 /\ num_elems (qs c) <= 2 ^ 26;
  r_regs : reg_ok c (thrid (qs c)) = true;
  r_offline : Forall (fun p => p = Offline) (readers c);
  r_zero : Forall (fun k => cnt k = 0) (qsbr_cnt (qs c));
  r_idle : Forall (fun p => p = WIdle) (writers c)
}.

Lemma rest_keeps alone c :
  rest c -> (alone = true -> (length (writers c) <= 1)%nat) -> inv alone c (token (qs c), fun _ => None).
Proof.
  intros [] Ha. split; simpl; try done.
  - intros i p k Hp Hk. rewrite (Forall_lookup_1 _ _ _ _ r_offline0 Hp). split; [|done].
    apply (Forall_lookup_1 _ _ _ _ r_zero0 Hk).
  - intros w p Hw. by rewrite (Forall_lookup_1 _ _ _ _ r_idle0 Hw).
Qed.

(** ** The work left to a check *)

Definition set_bits (bmap : Z) : nat := length (filter (fun k => Z.testbit bmap (Z.of_nat k)) (seq 0 64)).

Lemma set_bits_le bmap : (set_bits bmap <= 64)%nat.
Proof. unfold set_bits. pose proof (length_filter (fun k => Z.testbit bmap (Z.of_nat k)) (seq 0 64)) as H. by rewrite length_seq in H. Qed.

(** How many steps of its own a check still takes when it does not wait. *)
Definition work (v : rte_rcu_qsbr) (p : check_pc) : Z :=
  match p with
  | ChkAcked => max_threads v + 65 * num_elems v + 3
  | ChkNum => max_threads v + 65 * num_elems v + 2
  | ChkAll (AllLd i _) => max_threads v - i + 1
  | ChkSel (SelWord i _) => 65 * (num_elems v - i) + 1
  | ChkSel (SelCnt i bmap _) => 65 * (num_elems v - i - 1) + 1 + Z.of_nat (set_bits bmap)
  | ChkAll (AllAck _) | ChkSel (SelAck _) => 1
  end.

(** A reader that checks of [t] need not wait for, now and later. *)
Definition caught (t : Z) (p : rpc) (k : Z) : Prop :=
  match p with
  | Offline => True
  | Onlining OnLoad => True
  | Onlining (OnStore u) => t <= u
  | Online | Quiescing QLoad => t <= k
  | Quiescing (QCmp u) | Quiescing (QStore u) => t <= k /\ t <= u
  end.

Definition all_caught (t : Z) (c : conf) : Prop :=
  forall i p k, readers c !! i = Some p -> qsbr_cnt (qs c) !! i = Some k -> caught t p (cnt k).

Lemma set_acked_id v : set_acked (acked_token v) v = v.
Proof. by destruct v. Qed.

Lemma check_same t wait p v r v' : rte_rcu_qsbr_check t wait p v = Some (r, v') -> exists a, v' = set_acked a v.
Proof.
  pose proof (set_acked_id v) as Hid.
  destruct p as [| |[i a|a]|[i a|i b a|a]]; simpl; intros E.
  - exists (acked_token v). congruence.
  - exists (acked_token v). congruence.
  - exists (acked_token v). destruct (aget (qsbr_cnt v) i); simpl in E; congruence.
  - exists a. congruence.
  - exists (acked_token v). destruct (aget (thrid v) i); simpl in E; congruence.
  - exists (acked_token v). destruct (__builtin_ctz b) as [j|]; simpl in E; [|done].
    destruct (aget (qsbr_cnt v) _); simpl in E; congruence.
  - exists a. congruence.
Qed.

Lemma writer_step_same w call p v e p' v' : writer_step w call p v = Some (e, p', v') ->
  qsbr_cnt v' = qsbr_cnt v /\ max_threads v' = max_threads v /\ num_elems v' = num_elems v.
Proof.
  intros E. assert (forall t wt q, check_step w t wt q v = Some (e, p', v') ->
    qsbr_cnt v' = qsbr_cnt v /\ max_threads v' = max_threads v /\ num_elems v' = num_elems v) as H.
  { unfold check_step. intros t wt q H. apply bind_Some in H as ([r v1] & H & Hv). simplify_eq.
    by destruct (check_same _ _ _ _ _ _ H) as [a ->]. }
  destruct p as [|t wt q]; [destruct call as [|t wt]|]; simpl in E; [by simplify_eq| |by eapply H].
  destruct (t <=? token v); [by eapply H|by simplify_eq].
Qed.

Lemma reader_step_caught debug i call p v e p' v' k t :
  reader_step debug i call p v = Some (e, p', v') -> qsbr_cnt v !! i = Some k ->
  t <= token v ->
  same_but i v v' /\ exists k', qsbr_cnt v' !! i = Some k' /\ (caught t p (cnt k) -> caught t p' (cnt k')).
Proof.
  intros E Hk Ht. destruct (store_same i v k Hk) as [k' Hs].
  pose proof (fun k' => proj1 (set_cnts_same i v k Hk k')) as HS.
  pose proof (fun k' => proj2 (set_cnts_same i v k Hk k')) as HC.
  assert (aget (qsbr_cnt v) (Z.of_nat i) = Some k) as Hg.
  { unfold aget. by rewrite (proj2 (Z.leb_le 0 _)), Nat2Z.id by lia. }
  set (goal := same_but i v v' /\ exists k', qsbr_cnt v' !! i = Some k' /\ (caught t p (cnt k) -> caught t p' (cnt k'))).
  assert (forall q, (caught t p (cnt k) -> caught t q (cnt k)) -> v' = v -> p' = q -> goal) as Keep.
  { intros q Hq -> ->. split; [apply same_but_refl|]. by exists k. }
  assert (forall q k', (caught t p (cnt k) -> caught t q (cnt k')) ->
    v' = set_cnts (<[i := k']> (qsbr_cnt v)) v -> p' = q -> goal) as New.
  { intros q k1 Hq -> ->. split; [apply HS|]. by exists k1. }
  destruct p as [|[|u]| |[|u|u]]; [destruct call| | |destruct call| | |]; simpl in E.
  all: unfold rte_rcu_qsbr_thread_offline, rte_rcu_qsbr_lock, rte_rcu_qsbr_unlock in E.
  all: try destruct debug; try destruct (reg_bit _ _).
  all: rewrite ?Hs, ?Hg, ?(store_lock_same _ _ _ _ Hk) in E; cbn [mbind option_bind] in E.
  all: try (destruct (negb _) in E).
  all: injection E as <- <- <-.
  all: first [refine (Keep _ _ eq_refl eq_refl)|refine (New _ _ _ eq_refl eq_refl)]; simpl; intuition lia.
Qed.

Lemma exec1_caught alone debug a c g e c' t :
  inv alone c g -> t <= g.1 -> exec1 debug a c = Some (e, c') -> all_caught t c -> all_caught t c'.
Proof.
  intros I Ht E Hc. pose proof (i_token _ _ _ I) as ET. destruct a as [i call|w call|regs num]; simpl in E.
  - destruct (readers c !! i) as [p|] eqn:Hp; [|by simplify_eq].
    apply bind_Some in E as ([[e' p'] v'] & E & Hv). simplify_eq.
    destruct (lookup_lt_is_Some_2 (qsbr_cnt (qs c)) i) as [k Hk].
    { rewrite <- (i_readers _ _ _ I). by eapply lookup_lt_Some. }
    destruct (reader_step_caught debug i call p _ _ _ _ k t E Hk ltac:(lia)) as (S & k' & Hk' & Hc').
    intros j q x Hq Hx. simpl in Hq, Hx. destruct (decide (i = j)) as [<-|Ne].
    + rewrite list_lookup_insert_eq in Hq by (by eapply lookup_lt_Some). simplify_eq. by eapply Hc', Hc.
    + rewrite list_lookup_insert_ne in Hq by done. rewrite (sb_cnt _ _ _ S) in Hx by done. by eapply Hc.
  - destruct (writers c !! w) as [p|] eqn:Hp; [|by simplify_eq].
    apply bind_Some in E as ([[e' p'] v'] & E & Hv). simplify_eq.
    destruct (writer_step_same _ _ _ _ _ _ _ E) as [Eq _]. intros j q x Hq Hx. simpl in Hx. rewrite Eq in Hx. by eapply Hc.
  - simplify_eq. by destruct (reg_ok c regs).
Qed.

(** ** Progress *)

Lemma all_loop_work v i acked :
  match all_loop v i acked with
  | CGo p => 0 <= i -> work v (ChkAll p) <= Z.max 1 (max_threads v - i + 1)
  | CRet r => r = 1
  end.
Proof. unfold all_loop. destruct (i <? max_threads v); [simpl; lia|]. destruct (negb _); simpl; lia. Qed.

Lemma sel_loop_work v i acked :
  match sel_loop v i acked with
  | CGo p => 0 <= i -> work v (ChkSel p) <= Z.max 1 (65 * (num_elems v - i) + 1)
  | CRet r => r = 1
  end.
Proof. unfold sel_loop. destruct (i <? num_elems v); [simpl; lia|]. destruct (negb _); simpl; lia. Qed.

Lemma sel_bits_work v i bmap acked : 0 <= i < num_elems v -> num_elems v <= 2 ^ 26 ->
  match sel_bits v i bmap acked with
  | CGo p => work v (ChkSel p) <= 65 * (num_elems v - i - 1) + 1 + Z.of_nat (set_bits bmap)
  | CRet r => r = 1
  end.
Proof.
  intros Hi Hn. unfold sel_bits. destruct (truthy bmap); [done|].
  rewrite wrap_small by (unfold fits; lia). pose proof (sel_loop_work v (i + 1) acked) as H.
  case_match; [|done]. specialize (H ltac:(lia)). lia.
Qed.

Lemma length_filter_impl {A} (P Q : A -> bool) l :
  (forall x, P x = true -> Q x = true) -> (length (filter P l) <= length (filter Q l))%nat.
Proof.
  intros H. induction l as [|x l IH]; [done|]. rewrite !filter_cons. specialize (H x).
  destruct (P x), (Q x); simpl; lia || by specialize (H eq_refl).
Qed.

Lemma set_bits_clear bmap j : 0 <= j < 64 -> Z.testbit bmap j = true ->
  (set_bits (Z.land bmap (u64 (Z.lnot (Z.shiftl 1 j)))) < set_bits bmap)%nat.
Proof.
  intros Hj Hb. unfold set_bits. set (b' := Z.land bmap _).
  assert (seq 0 64 = seq 0 (Z.to_nat j) ++ Z.to_nat j :: seq (Datatypes.S (Z.to_nat j)) (63 - Z.to_nat j)) as ->.
  { change 64%nat with (Z.to_nat 64). replace (Z.to_nat 64) with (Z.to_nat j + Datatypes.S (63 - Z.to_nat j))%nat by lia.
    by rewrite seq_app. }
  assert (forall l, (length (filter (fun k => Z.testbit b' (Z.of_nat k)) l)
    <= length (filter (fun k => Z.testbit bmap (Z.of_nat k)) l))%nat) as Hle.
  { intros l. apply length_filter_impl. intros x. unfold b'. rewrite Z.land_spec. by intros [? _]%andb_prop. }
  assert (Z.testbit b' (Z.of_nat (Z.to_nat j)) = false) as Hc.
  { unfold b'. by rewrite Z2Nat.id, Z.land_spec, other_bits, Z.eqb_refl, !andb_false_r by lia. }
  rewrite !list.filter_app, !length_app. pose proof (Hle (seq 0 (Z.to_nat j))).
  pose proof (Hle (seq (Datatypes.S (Z.to_nat j)) (63 - Z.to_nat j))).
  rewrite !filter_cons. rewrite Hc, Z2Nat.id, Hb by lia. simpl. lia.
Qed.

Lemma caught_cnt alone c g t j k :
  inv alone c g -> all_caught t c -> aget (qsbr_cnt (qs c)) j = Some k -> caught_up t (cnt k) = true.
Proof.
  intros I Hc E. unfold aget in E. destruct (0 <=? j) eqn:Ej; [|done].
  destruct (lookup_lt_is_Some_2 (readers c) (Z.to_nat j)) as [p Hp].
  { rewrite (i_readers _ _ _ I). by eapply lookup_lt_Some. }
  pose proof (i_reader _ _ _ I _ _ _ Hp E) as Ho. specialize (Hc _ _ _ Hp E).
  unfold caught_up, __RTE_QSBR_CNT_THR_OFFLINE. destruct p as [|[|u]| |[|u|u]]; simpl in *; try done; lia.
Qed.

Lemma check_progress alone c g t wait p r v' :
  inv alone c g -> check_ok alone g (qs c) t p -> wait = false \/ all_caught t c ->
  rte_rcu_qsbr_check t wait p (qs c) = Some (r, v') ->
  match r with
  | CGo p' => work (qs c) p' < work (qs c) p
  | CRet x => all_caught t c -> x = 1
  end.
Proof.
  intros I Hc Hw E. pose proof (i_max _ _ _ I) as [HM HN].
  assert (0 <= max_threads (qs c) /\ 0 <= num_elems (qs c)) as [HM0 HN0].
  { pose proof (i_cnts _ _ _ I). pose proof (i_elems _ _ _ I). lia. }
  destruct p as [| |[i a|a]|[i a|i b a|a]]; simpl in E.
  - simplify_eq. destruct (_ <=? _); simpl; [done|lia].
  - simplify_eq. destruct (num_threads _ =? _).
    + pose proof (all_loop_work (qs c) 0 __RTE_QSBR_CNT_MAX) as H. destruct (all_loop _ _ _); simpl in *; [|done]. lia.
    + pose proof (sel_loop_work (qs c) 0 __RTE_QSBR_CNT_MAX) as H. destruct (sel_loop _ _ _); simpl in *; [|done]. lia.
  - destruct Hc as (Hi & _). destruct (aget _ _) as [k|] eqn:Ek; [|done]. cbn [mbind option_bind] in E. simplify_eq.
    destruct (caught_up t (cnt k)) eqn:Ec.
    + rewrite wrap_small by (unfold fits; lia). pose proof (all_loop_work (qs c) (i + 1) (least (cnt k) a)) as H.
      destruct (all_loop _ _ _); simpl in *; [lia|done].
    + destruct Hw as [->|Hw]; [|by rewrite (caught_cnt _ _ _ _ _ _ I Hw Ek) in Ec]. simpl. intros Hw.
      by rewrite (caught_cnt _ _ _ _ _ _ I Hw Ek) in Ec.
  - by simplify_eq.
  - destruct Hc as (Hi & _). destruct (aget _ _) as [wd|] eqn:Ek; [|done]. cbn [mbind option_bind] in E. simplify_eq.
    pose proof (sel_bits_work (qs c) i wd a Hi HN) as H. pose proof (set_bits_le wd).
    destruct (sel_bits _ _ _ _); simpl in *; [lia|done].
  - destruct Hc as (Hi & _ & _ & Hf & Hn & _).
    destruct (lowest_bit b ltac:(unfold fits in Hf; lia)) as (j & Ej & Hj & Hb & _). rewrite Ej in E.
    cbn [mbind option_bind] in E. destruct (aget _ _) as [k|] eqn:Ek; [|done]. cbn [mbind option_bind] in E. simplify_eq.
    assert (j < 64) as Hj64.
    { destruct (decide (j < 64)); [done|]. rewrite (testbit_beyond 64 b j) in Hb by (done || lia). done. }
    destruct (caught_up t (cnt k)) eqn:Ec; simpl.
    + pose proof (sel_bits_work (qs c) i (Z.land b (u64 (Z.lnot (Z.shiftl 1 j)))) (least (cnt k) a) Hi HN) as H'.
      pose proof (set_bits_clear b j ltac:(lia) Hb). destruct (sel_bits _ _ _ _); simpl in *; [lia|done].
    + destruct Hw as [->|Hw]; [|by rewrite (caught_cnt _ _ _ _ _ _ I Hw Ek) in Ec]. simpl. intros Hw.
      by rewrite (caught_cnt _ _ _ _ _ _ I Hw Ek) in Ec.
  - by simplify_eq.
Qed.

Lemma check_work_bound alone c g t p :
  inv alone c g -> check_ok alone g (qs c) t p -> work (qs c) p <= max_threads (qs c) + 65 * num_elems (qs c) + 3.
Proof.
  intros I Hc. assert (0 <= max_threads (qs c) /\ 0 <= num_elems (qs c)) as [HM0 HN0].
  { pose proof (i_cnts _ _ _ I). pose proof (i_elems _ _ _ I). lia. }
  destruct p as [| |[i a|a]|[i a|i b a|a]]; simpl in *; try lia. pose proof (set_bits_le b). lia.
Qed.

(** The number of steps that writer [w] takes. *)
Fixpoint own (w : nat) (sched : list act) : Z :=
  match sched with
  | [] => 0
  | AWrite w' _ :: sched => b2z (bool_decide (w = w')) + own w sched
  | _ :: sched => own w sched
  end.

(** A step of another thread, or of the check itself. *)
Lemma exec1_check alone debug w t wait p a c g e c' :
  inv alone c g -> g.1 + 1 < 2 ^ 64 -> writers c !! w = Some (Checking t wait p) ->
  wait = false \/ all_caught t c -> exec1 debug a c = Some (e, c') ->
  work (qs c') = work (qs c)
  /\ ((own w [a] = 0 /\ writers c' !! w = Some (Checking t wait p))
      \/ (own w [a] = 1 /\ exists p', writers c' !! w = Some (Checking t wait p') /\ work (qs c) p' < work (qs c) p)
      \/ exists r scan, e = Some (EvCheck w t r scan) /\ (all_caught t c -> r = 1)).
Proof.
  intros I HT Hw Hr E.
  assert (forall v', max_threads v' = max_threads (qs c) -> num_elems v' = num_elems (qs c) -> work v' = work (qs c)) as Hwork.
  { intros v' E1 E2. unfold work. by rewrite E1, E2. }
  destruct a as [i call|w' call|regs num]; simpl in E.
  - destruct (readers c !! i) as [q|] eqn:Hq; [|simplify_eq; split; [done|by left]].
    apply bind_Some in E as ([[e' q'] v'] & E & Hv). simplify_eq. simpl. split; [|by left].
    destruct (lookup_lt_is_Some_2 (qsbr_cnt (qs c)) i) as [k Hk].
    { rewrite <- (i_readers _ _ _ I). by eapply lookup_lt_Some. }
    destruct (reader_step_caught debug i call q _ _ _ _ k (token (qs c)) E Hk ltac:(lia)) as (S & _).
    apply Hwork; apply S.
  - destruct (writers c !! w') as [q|] eqn:Hq.
    + apply bind_Some in E as ([[e' q'] v'] & E & Hv). simplify_eq. simpl.
      destruct (writer_step_same _ _ _ _ _ _ _ E) as (_ & E1 & E2). split; [by apply Hwork|].
      destruct (decide (w = w')) as [<-|Ne].
      * rewrite bool_decide_true by done. right. rewrite Hw in Hq. simplify_eq. simpl in E.
        pose proof (i_writer _ _ _ I _ _ Hw) as [_ Hc]. unfold check_step in E.
        apply bind_Some in E as ([r v1] & E & Hv). simplify_eq.
        pose proof (check_progress _ _ _ _ _ _ _ _ I Hc Hr E) as Hcp. destruct r as [p'|r]; simplify_eq.
        -- left. split; [done|]. exists p'. split; [|done]. apply list_lookup_insert_eq. by eapply lookup_lt_Some.
        -- right. by eexists _, _.
      * rewrite bool_decide_false by done. left. split; [done|]. by rewrite list_lookup_insert_ne.
    + simplify_eq. split; [done|]. left. simpl. rewrite bool_decide_false by congruence. done.
  - simplify_eq. split; [|left]; by destruct (reg_ok c regs).
Qed.

Lemma own_cons w a sched : own w (a :: sched) = own w [a] + own w sched.
Proof. destruct a; simpl; lia. Qed.

Lemma check_ends alone debug w t wait sched : forall c g p tr c',
  inv alone c g -> g.1 + Z.of_nat (length sched) < 2 ^ 64 -> writers c !! w = Some (Checking t wait p) ->
  wait = false \/ all_caught t c -> exec debug sched c = Some (tr, c') -> work (qs c) p <= own w sched ->
  exists r scan, EvCheck w t r scan ∈ tr /\ (all_caught t c -> r = 1).
Proof.
  induction sched as [|a sched IH]; intros c g p tr c' I HT Hw Hr E Hn.
  - pose proof (i_writer _ _ _ I _ _ Hw) as [_ Hc]. exfalso. simpl in Hn.
    assert (0 <= max_threads (qs c) /\ 0 <= num_elems (qs c)) as [HM0 HN0].
    { pose proof (i_cnts _ _ _ I). pose proof (i_elems _ _ _ I). lia. }
    destruct p as [| |[i a|a]|[i a|i b a|a]]; simpl in *; lia.
  - simpl length in HT. simpl in E. apply bind_Some in E as ([e c1] & E1 & E).
    apply bind_Some in E as ([es c2] & E2 & E). simplify_eq.
    destruct (exec1_inv alone debug a c g I ltac:(lia)) as (e' & c1' & E1' & I1 & P). rewrite E1 in E1'. simplify_eq.
    assert ((after g e').1 <= g.1 + 1) as HT1 by (unfold after; destruct e' as [[| | |]|]; simpl in *; lia).
    pose proof (i_writer _ _ _ I _ _ Hw) as [Ht _].
    assert (all_caught t c -> all_caught t c1') as Hkeep by (by eapply exec1_caught).
    assert (wait = false \/ all_caught t c1') as Hr' by (destruct Hr; auto).
    rewrite own_cons in Hn.
    destruct (exec1_check alone debug w t wait p a c g e' c1' I ltac:(lia) Hw Hr E1)
      as (Ew & [[Ho Hw']|[(Ho & p' & Hw' & Hl)|(r & scan & -> & Hr1)]]).
    + destruct (IH c1' _ p es c' I1 ltac:(lia) Hw' Hr' E2 ltac:(rewrite Ew; lia)) as (r & s & Hin & H).
      exists r, s. split; [|auto]. apply elem_of_app. by right.
    + destruct (IH c1' _ p' es c' I1 ltac:(lia) Hw' Hr' E2 ltac:(rewrite Ew; lia)) as (r & s & Hin & H).
      exists r, s. split; [|auto]. apply elem_of_app. by right.
    + exists r, scan. split; [|done]. by left.
Qed.

(** ** A small system *)

(** [n] readers that are registered and offline, [w] idle writers. *)
Definition quiet_system (n w : nat) : conf :=
  mk_conf (mk_qsbr 1 0 1 (Z.of_nat n) (Z.of_nat n) (replicate n (mk_cnt 0 0)) [2 ^ Z.of_nat n - 1])
    (replicate n Offline) (replicate w WIdle).

(** With two writers a check may acknowledge the token of the other writer for a
    reader it found offline and that has come online since: the check of that
    token answers 1 although the reader is still in the section it was in at the
    start. *)
Theorem rcu_two_writers_unsafe :
  let on i := replicate 2 (ARead i ROnline) in
  let sched := on 1%nat ++ [AWrite 0 WStart] ++ replicate 3 (AWrite 0 (WCheck 2 true)) ++ on 0%nat
    ++ [AWrite 1 WStart] ++ replicate 3 (ARead 1 RQuiescent)
    ++ replicate 2 (AWrite 0 WStart) ++ [AWrite 1 (WCheck 3 false)] in
  exists c', exec false sched (quiet_system 2 2)
    = Some ([EvEnter 1; EvStart 0 2; EvEnter 0; EvStart 1 3; EvLeave 1; EvEnter 1; EvCheck 0 2 1 true;
             EvCheck 1 3 1 false], c')
    /\ readers c' = [Online; Online].
Proof. eexists. split; vm_compute; reflexivity. Qed.

(** * Properties *)

(** C14. Grace periods: from a state in which no reader is online, whatever the
    interleaving of any number of readers, writers and registrations, no access
    is out of bounds, and when a check of a token answers 1 every reader that was
    in a section when the token was taken has left it since; so an object that
    was unlinked before can be freed.  This holds for every check that looks at
    the readers, and for those that rely on [acked_token] when there is one
    writer. *)
Theorem rcu_grace_period debug c sched :
  rest c -> token (qs c) + Z.of_nat (length sched) < 2 ^ 64 ->
  exists tr c', exec debug sched c = Some (tr, c')
    /\ forall tr1 w t tr2 w' scan tr3, tr = tr1 ++ EvStart w t :: tr2 ++ EvCheck w' t 1 scan :: tr3 ->
         scan = true \/ (length (writers c) <= 1)%nat ->
         forall i, inside i tr1 = true -> EvLeave i ∈ tr2.
Proof.
  intros R HT. set (alone := bool_decide (length (writers c) <= 1)%nat).
  assert (alone = true -> (length (writers c) <= 1)%nat) as Ha by (intros H; by apply bool_decide_eq_true in H).
  destruct (exec_inv alone debug sched c _ (rest_keeps alone c R Ha) HT) as (tr & c' & E & _ & _ & P).
  exists tr, c'. split; [done|]. intros tr1 w t tr2 w' scan tr3 Et Hs i Hin.
  destruct (decide (EvLeave i ∈ tr2)) as [|Hn]; [done|]. exfalso.
  pose proof (P tr1 (EvStart w t) _ Et) as Pt. simpl in Pt.
  pose proof P as P0. pose proof Et as Et0. rewrite app_comm_cons, app_assoc in Et. specialize (P _ _ _ Et). simpl in P.
  apply (inside_tracked (token (qs c))) in Hin as [x Hx].
  assert (x <= (tracked (token (qs c)) tr1).1) as Hle.
  { eapply (tracked_le alone); [|exact Hx]. intros u1 e u2 ->. apply (P0 u1 e (u2 ++ EvStart w t :: tr2 ++ EvCheck w' t 1 scan :: tr3)).
    by rewrite Et0, <- app_assoc. }
  specialize (P ltac:(destruct Hs; [by left|right; by apply bool_decide_eq_true]) i x).
  rewrite foldl_app in P. rewrite (tracked_stays _ i x (EvStart w t :: tr2)) in P; [|done|].
  - specialize (P eq_refl). unfold tracked in Hle. lia.
  - intros [H|H]%elem_of_cons; done.
Qed.

Lemma quiet_rest n w : (0 < n <= 64)%nat -> reg_ok (quiet_system n w) [2 ^ Z.of_nat n - 1] = true -> rest (quiet_system n w).
Proof.
  intros Hn Hr. unfold quiet_system. split; simpl; rewrite ?length_replicate; try done; try lia.
  - by apply Forall_replicate.
  - by apply Forall_replicate.
  - by apply Forall_replicate.
Qed.

Lemma rcu_grace_period_witness :
  let sched := replicate 2 (ARead 0 ROnline) ++ [AWrite 0 WStart] ++ replicate 3 (AWrite 0 (WCheck 2 true))
    ++ replicate 3 (ARead 0 RQuiescent) ++ replicate 3 (AWrite 0 (WCheck 2 true)) in
  exists tr1 tr2 c', exec false sched (quiet_system 2 1)
    = Some (tr1 ++ EvStart 0 2 :: tr2 ++ [EvCheck 0 2 1 true], c')
    /\ inside 0 tr1 = true /\ EvLeave 0 ∈ tr2.
Proof.
  intros sched.
  destruct (rcu_grace_period false (quiet_system 2 1) sched) as (tr & c' & E & H).
  - apply quiet_rest; [lia|vm_compute; reflexivity].
  - vm_compute. reflexivity.
  - vm_compute in E. injection E as <- <-.
    eexists [EvEnter 0], [EvLeave 0; EvEnter 0], _. split; [vm_compute; reflexivity|]. split; [reflexivity|].
    by eapply (H [EvEnter 0%nat] _ _ [EvLeave 0; EvEnter 0]%nat _ true []); [reflexivity|left|].
Defined.

(** Checks end: wherever the other threads are and whatever they do, a check
    that does not wait returns after at most [max_threads + 65 num_elems + 3]
    steps of its own; so does a check that waits, from the moment when every
    reader is offline or has seen its token, and then every check answers 1. *)
Theorem rcu_check_returns debug c0 pre tr0 c w t wait p sched tr c' :
  rest c0 -> token (qs c0) + Z.of_nat (length pre) + Z.of_nat (length sched) < 2 ^ 64 ->
  exec debug pre c0 = Some (tr0, c) -> writers c !! w = Some (Checking t wait p) ->
  wait = false \/ all_caught t c -> exec debug sched c = Some (tr, c') ->
  max_threads (qs c) + 65 * num_elems (qs c) + 3 <= own w sched ->
  exists r scan, EvCheck w t r scan ∈ tr /\ (all_caught t c -> r = 1).
Proof.
  intros R HT E0 Hw Hr E Hn.
  destruct (exec_inv false debug pre c0 _ (rest_keeps false c0 R ltac:(done)) ltac:(simpl; lia))
    as (tr0' & c1 & E' & I & HT' & _). rewrite E0 in E'. simplify_eq. simpl in HT'.
  pose proof (i_writer _ _ _ I _ _ Hw) as [_ Hc]. pose proof (check_work_bound _ _ _ _ _ I Hc).
  eapply (check_ends false debug w t wait sched); try done; lia.
Qed.

Lemma rcu_check_returns_witness :
  let pre := replicate 2 (ARead 0 ROnline) ++ [AWrite 0 WStart] ++ replicate 3 (AWrite 0 (WCheck 2 true))
    ++ replicate 3 (ARead 0 RQuiescent) in
  let sched := replicate 69 (AWrite 0 (WCheck 2 true)) in
  exists tr0 c tr c', exec false pre (quiet_system 1 1) = Some (tr0, c) /\ exec false sched c = Some (tr, c')
    /\ exists scan, EvCheck 0 2 1 scan ∈ tr.
Proof.
  intros pre sched. destruct (exec false pre (quiet_system 1 1)) as [[tr0 c]|] eqn:E0; [|by vm_compute in E0].
  destruct (exec false sched c) as [[tr c']|] eqn:E; [|vm_compute in E0; injection E0 as <- <-; by vm_compute in E].
  assert (all_caught 2 c) as Hc.
  { clear E. vm_compute in E0. injection E0 as <- <-. intros [|i] p k Hp Hk; simpl in Hp, Hk; [|done]. by simplify_eq. }
  assert (exists wt p, writers c !! 0%nat = Some (Checking 2 wt p)) as (wt & p & Hw).
  { clear E. vm_compute in E0. injection E0 as <- <-. by eexists _, _. }
  destruct (rcu_check_returns false (quiet_system 1 1) pre tr0 c 0 2 wt p sched tr c') as (r & scan & Hin & Hr1).
  - apply quiet_rest; [lia|vm_compute; reflexivity].
  - vm_compute. reflexivity.
  - done.
  - done.
  - by right.
  - done.
  - clear E. vm_compute in E0. injection E0 as <- <-. by vm_compute.
  - exists tr0, c, tr, c'. split; [done|]. split; [done|]. exists scan. by rewrite Hr1 in Hin.
Defined.
