(* ===== verification/Stack.v ===== *)
(** * Stacks ([include/rte_stack.h], [rte_stack_std.h], [rte_stack_lf.h],
    [rte_stack_lf_generic.h], [rte_stack_lf_c11.h]).

    A stack of object pointers, either an array behind a spinlock or two
    lock-free lists of elements.  The lock-free code is a program per thread, one
    access of the shared memory at a time, so its runs are all the interleavings
    of any number of threads on a sequentially consistent memory; the reads of
    a list head outside of the compare-and-swap are two accesses, as the source
    allows.  An element is its index in [elems]; the null pointer is [None]. *)
From stdpp Require Import prelude list numbers.
From S2P Require Import Prelude Locks.
Open Scope Z_scope.

(** ** Data *)

Definition ptr : Type := option nat.

Record rte_stack_lf_elem := mk_elem { data : Z; next : ptr }.
Record rte_stack_lf_head := mk_head { top : ptr; cnt : Z }.
Record rte_stack_lf_list := mk_list { head : rte_stack_lf_head; len : Z }.
Record rte_stack_lf := mk_lf {
  used : rte_stack_lf_list;
  free : rte_stack_lf_list;
  elems : list rte_stack_lf_elem
}.

Record rte_stack_std := mk_std { lock : Spin.rte_spinlock_t; std_len : Z; objs : list Z }.

(** The union of [rte_stack]. *)
Inductive rte_stack_impl := stack_lf (l : rte_stack_lf) | stack_std (s : rte_stack_std).

Record rte_stack := mk_stack { capacity : Z; flags : Z; impl : rte_stack_impl }.

Definition RTE_STACK_F_LF : Z := 0x0001.

#[global] Instance lf_head_eq_dec : EqDecision rte_stack_lf_head.
Proof. solve_decision. Defined.

(** ** The array behind a lock *)

(** A spinlock taken by nobody else; [None] would spin for ever. *)
Definition locked {A} (f : rte_stack_std -> option (A * rte_stack_std)) (s : rte_stack_std)
  : option (A * rte_stack_std) :=
  match Spin.rte_spinlock_lock Spin.Xchg (lock s) with
  | (Spin.Held, l) =>
      '(a, s) ← f (mk_std l (std_len s) (objs s)) ;
      Some (a, mk_std (Spin.rte_spinlock_unlock (lock s)).2 (std_len s) (objs s))
  | _ => None
  end.

(** [for (index = 0; index < n; ++index, obj_table++) cache_objs[index] =
    *obj_table;], [k] left. *)
Fixpoint copy_up (objs obj_table : list Z) (at_ index : Z) (k : nat) : option (list Z) :=
  match k with
  | O => Some objs
  | Datatypes.S k =>
      v ← aget obj_table index ;
      objs ← aset objs (at_ + index) v ;
      copy_up objs obj_table at_ (u32 (index + 1)) k
  end.

Definition __rte_stack_std_push (capacity : Z) (obj_table : list Z) (n : Z)
  : rte_stack_std -> option (Z * rte_stack_std) :=
  locked (fun s =>
    if u32 (std_len s + n) >? capacity then Some (0, s)
    else
      o ← copy_up (objs s) obj_table (std_len s) 0 (Z.to_nat n) ;
      Some (n, mk_std (lock s) (u32 (std_len s + n)) o)).

(** [for (index = 0, len = stack->len - 1; index < n; ++index, len--,
    obj_table++) *obj_table = cache_objs[len];], [k] left. *)
Fixpoint copy_down (objs obj_table : list Z) (index len : Z) (k : nat) : option (list Z) :=
  match k with
  | O => Some obj_table
  | Datatypes.S k =>
      v ← aget objs len ;
      obj_table ← aset obj_table index v ;
      copy_down objs obj_table (u32 (index + 1)) (u32 (len - 1)) k
  end.

Definition __rte_stack_std_pop (obj_table : list Z) (n : Z)
  : rte_stack_std -> option (Z * list Z * rte_stack_std) :=
  locked (fun s =>
    if n >? std_len s then Some (0, obj_table, s)
    else
      t ← copy_down (objs s) obj_table 0 (u32 (std_len s - 1)) (Z.to_nat n) ;
      Some (n, t, mk_std (lock s) (u32 (std_len s - n)) (objs s))).

Definition __rte_stack_std_count (s : rte_stack_std) : Z := std_len s.

(** ** The lock-free lists *)

(** [rte_stack_lf_generic.h] or [rte_stack_lf_c11.h]. *)
Inductive variant := Generic | C11.

(** What the memory and the compiler choose: whether a weak compare-and-swap
    fails spuriously, and whether an uninitialised [success] is not 0. *)
Record noise := mk_noise { spurious : bool; garbage : bool }.

(** The traversal of [__rte_stack_lf_pop_elems]: [old_head], and whether
    [success] has been assigned. *)
Record walk := mk_walk { old_head : rte_stack_lf_head; success_set : bool }.

(** Where a thread stands in [__rte_stack_lf_pop_elems]: before the load of
    [len], its compare-and-swap, the two halves of the load of the head ([Some
    last]: it comes from the [continue] with [success] unassigned), the read of
    [tmp->data] and of [tmp->next], the compare-and-swap of the head.  [tbl] is
    the caller's [obj_table]. *)
Inductive pop_pc :=
| LdLen (tbl : list Z)
| CasLen (len : Z) (tbl : list Z)
| LdTop (set : bool) (again : option ptr) (tbl : list Z)
| LdCnt (set : bool) (again : option ptr) (t : ptr) (tbl : list Z)
| RdData (w : walk) (i a : nat) (tbl : list Z)
| RdNext (w : walk) (i a : nat) (tbl : list Z)
| CasHead (w : walk) (tmp last : ptr) (tbl : list Z).

Inductive pop_res := PGo (p : pop_pc) | PNull | PGot (first last : ptr) (tbl : list Z).

(** The test [i < num && tmp != NULL] and what follows up to the next access. *)
Definition at_loop (tab : bool) (n i : nat) (w : walk) (tmp last : ptr) (tbl : list Z) : pop_pc :=
  if (i =? n)%nat then CasHead w tmp last tbl
  else match tmp with
       | Some a => if tab then RdData w i a tbl else RdNext w i a tbl
       | None => LdTop (success_set w) (if success_set w then None else Some last) tbl
       end.

Definition __rte_stack_lf_pop_elems (v : variant) (z : noise) (tab : bool) (n : nat) (p : pop_pc)
    (l : rte_stack_lf_list) (e : list rte_stack_lf_elem) : option (pop_res * rte_stack_lf_list) :=
  let num := Z.of_nat n in
  match p with
  | LdLen tbl => Some (if len l <? num then PNull else PGo (CasLen (len l) tbl), l)
  | CasLen x tbl =>
      if (len l =? x) && negb (match v with C11 => spurious z | Generic => false end)
      then Some (PGo (LdTop (match v with Generic => true | C11 => false end) None tbl),
                 mk_list (head l) (u64 (x - num)))
      else Some (match v with
                 | Generic => PGo (LdLen tbl)
                 | C11 => if len l <? num then PNull else PGo (CasLen (len l) tbl)
                 end, l)
  | LdTop set again tbl => Some (PGo (LdCnt set again (top (head l)) tbl), l)
  | LdCnt set again t tbl =>
      let h := mk_head t (cnt (head l)) in
      Some (match again with
            | Some last => if garbage z then PGot t last tbl
                           else PGo (at_loop tab n 0 (mk_walk h set) t last tbl)
            | None => PGo (at_loop tab n 0 (mk_walk h set) t None tbl)
            end, l)
  | RdData w i a tbl => x ← e !! a ; Some (PGo (RdNext w i a (<[i := data x]> tbl)), l)
  | RdNext w i a tbl => x ← e !! a ; Some (PGo (at_loop tab n (Datatypes.S i) w (next x) (Some a) tbl), l)
  | CasHead w tmp last tbl =>
      if decide (head l = old_head w)
      then Some (PGot (top (old_head w)) last tbl,
                 mk_list (mk_head tmp (u64 (cnt (old_head w) + 1))) (len l))
      else Some (PGo (at_loop tab n 0 (mk_walk (head l) true) (top (head l)) last tbl), l)
  end.

(** Where a thread stands in [__rte_stack_lf_push_elems]: the two halves of the
    load of the head, the store of [last->next], the compare-and-swap, the
    addition to [len]. *)
Inductive push_pc :=
| PTop | PCnt (t : ptr) | PNext (h : rte_stack_lf_head) | PCas (h : rte_stack_lf_head) | PAdd.

(** [None] for the new position when the function returns. *)
Definition __rte_stack_lf_push_elems (first last : ptr) (n : nat) (p : push_pc)
    (l : rte_stack_lf_list) (e : list rte_stack_lf_elem)
  : option (option push_pc * rte_stack_lf_list * list rte_stack_lf_elem) :=
  match p with
  | PTop => Some (Some (PCnt (top (head l))), l, e)
  | PCnt t => Some (Some (PNext (mk_head t (cnt (head l)))), l, e)
  | PNext h =>
      a ← last ; x ← e !! a ;
      Some (Some (PCas h), l, <[a := mk_elem (data x) (top h)]> e)
  | PCas h =>
      if decide (head l = h)
      then Some (Some PAdd, mk_list (mk_head first (u64 (cnt h + 1))) (len l), e)
      else Some (Some (PNext (head l)), l, e)
  | PAdd => Some (None, mk_list (head l) (u64 (len l + Z.of_nat n)), e)
  end.

(** ** [__rte_stack_lf_push] and [__rte_stack_lf_pop] *)

(** A call with its [obj_table], of [n] entries. *)
Inductive call := CPush (obj_table : list Z) | CPop (obj_table : list Z).

Definition call_n (c : call) : nat := match c with CPush t | CPop t => length t end.

(** [tmp->data = obj_table[n - i - 1]] in the list from [first], between the
    two list operations of a push. *)
Inductive pc :=
| Idle
| Entry (c : call)
| Popping (c : call) (p : pop_pc)
| FillData (objs : list Z) (first last : ptr) (i : nat) (tmp : ptr)
| FillNext (objs : list Z) (first last : ptr) (i : nat) (tmp : ptr)
| Pushing (c : call) (first last : ptr) (tbl : list Z) (p : push_pc).

(** The list a call pops from, and the one it pushes to. *)
Inductive which := Used | Free.
Definition src (c : call) : which := match c with CPush _ => Free | CPop _ => Used end.
Definition dst (c : call) : which := match c with CPush _ => Used | CPop _ => Free end.

Definition lst (w : which) (s : rte_stack_lf) : rte_stack_lf_list :=
  match w with Used => used s | Free => free s end.
Definition set_lst (w : which) (l : rte_stack_lf_list) (s : rte_stack_lf) : rte_stack_lf :=
  match w with Used => mk_lf l (free s) (elems s) | Free => mk_lf (used s) l (elems s) end.
Definition set_elems (e : list rte_stack_lf_elem) (s : rte_stack_lf) : rte_stack_lf :=
  mk_lf (used s) (free s) e.

(** The position after a step, or the return value and [obj_table]. *)
Inductive after := Go (p : pc) | Return (r : nat) (tbl : list Z).

Definition wants_data (c : call) : bool := match c with CPush _ => false | CPop _ => true end.

(** [if (unlikely(first == NULL)) return 0;] *)
Definition after_pop (c : call) (first last : ptr) (tbl : list Z) : after :=
  match first with
  | None => Return 0 tbl
  | Some _ => Go (match c with
                  | CPush objs => FillData objs first last 0 first
                  | CPop _ => Pushing c first last tbl PTop
                  end)
  end.

Definition thread_step (v : variant) (z : noise) (p : pc) (s : rte_stack_lf)
  : option (after * rte_stack_lf) :=
  match p with
  | Idle => Some (Go Idle, s)
  | Entry c =>
      let tbl := match c with CPush _ => [] | CPop t => t end in
      Some (if (call_n c =? 0)%nat then Return 0 tbl else Go (Popping c (LdLen tbl)), s)
  | Popping c p =>
      '(r, l) ← __rte_stack_lf_pop_elems v z (wants_data c) (call_n c) p (lst (src c) s) (elems s) ;
      Some (match r with
            | PGo p => Go (Popping c p)
            | PNull => after_pop c None None (match c with CPush _ => [] | CPop t => t end)
            | PGot first last tbl => after_pop c first last tbl
            end, set_lst (src c) l s)
  | FillData objs first last i tmp =>
      a ← tmp ; x ← elems s !! a ; d ← objs !! (length objs - i - 1)%nat ;
      Some (Go (FillNext objs first last i tmp), set_elems (<[a := mk_elem d (next x)]> (elems s)) s)
  | FillNext objs first last i tmp =>
      a ← tmp ; x ← elems s !! a ;
      Some (Go (if (Datatypes.S i =? length objs)%nat then Pushing (CPush objs) first last [] PTop
                else FillData objs first last (Datatypes.S i) (next x)), s)
  | Pushing c first last tbl p =>
      '(r, l, e) ← __rte_stack_lf_push_elems first last (call_n c) p (lst (dst c) s) (elems s) ;
      Some (match r with
            | Some p => Go (Pushing c first last tbl p)
            | None => Return (call_n c) tbl
            end, set_elems e (set_lst (dst c) l s))
  end.

(** ** Any number of threads *)

Record conf := mk_conf { lf : rte_stack_lf; pcs : list pc }.

Inductive event := EvCall (t : nat) (c : call) | EvReturn (t r : nat) (tbl : list Z).

(** The thread [a_thread] takes a step, or makes the call [a_call] if it is
    idle. *)
Record act := mk_act { a_thread : nat; a_call : call; a_noise : noise }.

Definition exec1 (v : variant) (a : act) (c : conf) : option (option event * conf) :=
  let t := a_thread a in
  match pcs c !! t with
  | None => Some (None, c)
  | Some Idle => Some (Some (EvCall t (a_call a)), mk_conf (lf c) (<[t := Entry (a_call a)]> (pcs c)))
  | Some p =>
      '(r, s) ← thread_step v (a_noise a) p (lf c) ;
      Some (match r with
            | Go p' => (None, mk_conf s (<[t := p']> (pcs c)))
            | Return n tbl => (Some (EvReturn t n tbl), mk_conf s (<[t := Idle]> (pcs c)))
            end)
  end.

(** The calls and returns of a run, and the state it ends in. *)
Fixpoint exec (v : variant) (sched : list act) (c : conf) : option (list event * conf) :=
  match sched with
  | [] => Some ([], c)
  | a :: sched =>
      '(e, c) ← exec1 v a c ;
      '(es, c) ← exec v sched c ;
      Some (option_list e ++ es, c)
  end.

(** A thread runs alone up to its return. *)
Fixpoint solo (fuel : nat) (v : variant) (z : noise) (p : pc) (s : rte_stack_lf)
  : option (nat * list Z * rte_stack_lf) :=
  match fuel with
  | O => None
  | Datatypes.S fuel =>
      '(r, s) ← thread_step v z p s ;
      match r with
      | Go p => solo fuel v z p s
      | Return n tbl => Some (n, tbl, s)
      end
  end.

(** The same, the memory and the compiler choosing anew at each step. *)
Fixpoint solo_noisy (v : variant) (zs : list noise) (p : pc) (s : rte_stack_lf)
  : option (nat * list Z * rte_stack_lf) :=
  match zs with
  | [] => None
  | z :: zs =>
      '(r, s) ← thread_step v z p s ;
      match r with
      | Go p => solo_noisy v zs p s
      | Return n tbl => Some (n, tbl, s)
      end
  end.

(** How many spurious failures are chosen. *)
Definition failures (zs : list noise) : nat := sum_list_with (fun z => Nat.b2n (spurious z)) zs.

(** ** The functions of [rte_stack.h], called by one thread *)

(** Enough for a call with [n] entries that nobody disturbs. *)
Definition lf_fuel (n : nat) : nat := 4 * n + 16.

Definition quiet : noise := mk_noise false false.

Definition __rte_stack_lf_push (v : variant) (obj_table : list Z) (s : rte_stack_lf)
  : option (Z * rte_stack_lf) :=
  '(r, _, s) ← solo (lf_fuel (length obj_table)) v quiet (Entry (CPush obj_table)) s ;
  Some (Z.of_nat r, s).

Definition __rte_stack_lf_pop (v : variant) (obj_table : list Z) (s : rte_stack_lf)
  : option (Z * list Z * rte_stack_lf) :=
  '(r, t, s) ← solo (lf_fuel (length obj_table)) v quiet (Entry (CPop obj_table)) s ;
  Some (Z.of_nat r, t, s).

Definition __rte_stack_lf_count (s : rte_stack_lf) : Z := u32 (len (used s)).

Definition set_impl (i : rte_stack_impl) (s : rte_stack) : rte_stack :=
  mk_stack (capacity s) (flags s) i.

(** [n] is the length of [obj_table]; the union is read as [flags] says. *)
Definition rte_stack_push (v : variant) (s : rte_stack) (obj_table : list Z) : option (Z * rte_stack) :=
  match truthy (Z.land (flags s) RTE_STACK_F_LF), impl s with
  | true, stack_lf l =>
      '(r, l) ← __rte_stack_lf_push v obj_table l ; Some (r, set_impl (stack_lf l) s)
  | false, stack_std l =>
      '(r, l) ← __rte_stack_std_push (capacity s) obj_table (Z.of_nat (length obj_table)) l ;
      Some (r, set_impl (stack_std l) s)
  | _, _ => None
  end.

Definition rte_stack_pop (v : variant) (s : rte_stack) (obj_table : list Z)
  : option (Z * list Z * rte_stack) :=
  match truthy (Z.land (flags s) RTE_STACK_F_LF), impl s with
  | true, stack_lf l =>
      '(r, t, l) ← __rte_stack_lf_pop v obj_table l ; Some (r, t, set_impl (stack_lf l) s)
  | false, stack_std l =>
      '(r, t, l) ← __rte_stack_std_pop obj_table (Z.of_nat (length obj_table)) l ;
      Some (r, t, set_impl (stack_std l) s)
  | _, _ => None
  end.

Definition rte_stack_count (s : rte_stack) : option Z :=
  match truthy (Z.land (flags s) RTE_STACK_F_LF), impl s with
  | true, stack_lf l => Some (__rte_stack_lf_count l)
  | false, stack_std l => Some (__rte_stack_std_count l)
  | _, _ => None
  end.

Definition rte_stack_free_count (s : rte_stack) : option Z :=
  c ← rte_stack_count s ; Some (u32 (capacity s - c)).

(** ** The two variants by name *)

Module LfGeneric.
Definition __rte_stack_lf_count := Stack.__rte_stack_lf_count.
Definition __rte_stack_lf_push_elems := Stack.__rte_stack_lf_push_elems.
Definition __rte_stack_lf_pop_elems := Stack.__rte_stack_lf_pop_elems Generic.
End LfGeneric.

Module LfC11.
Definition __rte_stack_lf_count := Stack.__rte_stack_lf_count.
Definition __rte_stack_lf_push_elems := Stack.__rte_stack_lf_push_elems.
Definition __rte_stack_lf_pop_elems := Stack.__rte_stack_lf_pop_elems C11.
End LfC11.
