(* ===== verification/StackSpec.v ===== *)
(** * The lock-free stack: specification and invariant

    The abstract stack is a list of pointers, and a call takes effect on it at
    once.  The invariant says which elements are linked into which list, which
    belong to a thread, and what a thread in the middle of its call knows; from
    it, every step of a thread is a step of the abstract stack or none. *)
From stdpp Require Import prelude list numbers.
From S2P Require Import Prelude Locks Stack.
Open Scope Z_scope.

(** ** The abstract stack *)

Inductive astat := AIdle | APending (c : call) | ADone (c : call) (tbl : list Z).

Record aconf := mk_aconf { a_stack : list Z; a_thr : list astat }.

Definition astat_n (a : astat) : nat :=
  match a with AIdle => 0 | APending c | ADone c _ => call_n c end.

Fixpoint total {A} (f : A -> nat) (l : list A) : nat :=
  match l with [] => 0 | a :: l => f a + total f l end.

(** How many pointers the other calls under way may hold. *)
Definition others (t : nat) (a : aconf) : nat := total astat_n (<[t := AIdle]> (a_thr a)).

(** The [obj_table] of a call that returns 0. *)
Definition untouched (c : call) : list Z := match c with CPush _ => [] | CPop t => t end.

(** A call may return 0 when it moves no pointer, or when, counting what the
    other calls under way may hold, the stack may lack room for a push or
    pointers for a pop. *)
Definition may_fail (cap : nat) (t : nat) (c : call) (a : aconf) : Prop :=
  match c with
  | CPush objs => length objs = 0%nat \/ (cap < length (a_stack a) + length objs + others t a)%nat
  | CPop tbl => length tbl = 0%nat \/ (length (a_stack a) < length tbl + others t a)%nat
  end.

Inductive astep (cap : nat) (a : aconf) : option event -> aconf -> Prop :=
| st_call t c : a_thr a !! t = Some AIdle ->
    astep cap a (Some (EvCall t c)) (mk_aconf (a_stack a) (<[t := APending c]> (a_thr a)))
| st_push t objs : a_thr a !! t = Some (APending (CPush objs)) ->
    (length (a_stack a) + length objs <= cap)%nat ->
    astep cap a None (mk_aconf (reverse objs ++ a_stack a) (<[t := ADone (CPush objs) []]> (a_thr a)))
| st_pop t tbl objs rest : a_thr a !! t = Some (APending (CPop tbl)) ->
    a_stack a = objs ++ rest -> length objs = length tbl ->
    astep cap a None (mk_aconf rest (<[t := ADone (CPop tbl) objs]> (a_thr a)))
| st_return t c tbl : a_thr a !! t = Some (ADone c tbl) ->
    astep cap a (Some (EvReturn t (call_n c) tbl)) (mk_aconf (a_stack a) (<[t := AIdle]> (a_thr a)))
| st_fail t c : a_thr a !! t = Some (APending c) -> may_fail cap t c a ->
    astep cap a (Some (EvReturn t 0 (untouched c))) (mk_aconf (a_stack a) (<[t := AIdle]> (a_thr a))).

Inductive arun (cap : nat) (a : aconf) : list event -> aconf -> Prop :=
| ar_nil : arun cap a [] a
| ar_step e es a1 a2 : astep cap a e a1 -> arun cap a1 es a2 -> arun cap a (option_list e ++ es) a2.

(** ** Linked elements *)

(** From the pointer [p] the elements [l] are linked, the last one to [q]. *)
Fixpoint seg (e : list rte_stack_lf_elem) (p : ptr) (l : list nat) (q : ptr) : Prop :=
  match l with
  | [] => p = q
  | a :: l => p = Some a /\ exists x, e !! a = Some x /\ seg e (next x) l q
  end.

Definition val (e : list rte_stack_lf_elem) (a : nat) : Z := default 0 (data <$> e !! a).
Definition vals (e : list rte_stack_lf_elem) (l : list nat) : list Z := val e <$> l.

Lemma seg_app e p l1 l2 q : seg e p (l1 ++ l2) q <-> exists m, seg e p l1 m /\ seg e m l2 q.
Proof.
  revert p. induction l1 as [|a l1 IH]; intros p; simpl.
  - split; [intros H; by exists p|by intros (m & -> & H)].
  - split.
    + intros (-> & x & Hx & H). apply IH in H as (m & H1 & H2). exists m. eauto.
    + intros (m & (-> & x & Hx & H1) & H2). split; [done|]. exists x. split; [done|]. apply IH. eauto.
Qed.

Lemma seg_ext e e' p l q :
  (forall a, a ∈ l -> e' !! a = e !! a) -> seg e p l q -> seg e' p l q.
Proof.
  revert p. induction l as [|a l IH]; intros p H; simpl; [done|]. intros (-> & x & Hx & Hs).
  split; [done|]. exists x. split; [rewrite H; [done|left]|]. apply IH; [|done].
  intros b Hb. apply H. by right.
Qed.

Lemma vals_ext e e' l : (forall a, a ∈ l -> e' !! a = e !! a) -> vals e' l = vals e l.
Proof.
  intros H. unfold vals. apply list_fmap_ext. intros i a Ha. unfold val.
  by rewrite H by by eapply list_elem_of_lookup_2.
Qed.

(** Only the links matter to [seg]. *)
Lemma seg_data e p l q a x d :
  e !! a = Some x -> seg e p l q -> seg (<[a := mk_elem d (next x)]> e) p l q.
Proof.
  intros Ha. revert p. induction l as [|b l IH]; intros p; simpl; [done|].
  intros (-> & y & Hy & Hs). split; [done|]. destruct (decide (b = a)) as [->|N].
  - simplify_eq. exists (mk_elem d (next x)).
    rewrite list_lookup_insert_eq by (by eapply lookup_lt_Some). split; [done|]. by apply IH.
  - exists y. rewrite list_lookup_insert_ne by done. split; [done|]. by apply IH.
Qed.

Lemma seg_next e p l q i a x :
  seg e p l q -> l !! i = Some a -> e !! a = Some x ->
  next x = match l !! Datatypes.S i with Some b => Some b | None => q end.
Proof.
  revert p i. induction l as [|b l IH]; intros p [|i]; simpl; [done..| |].
  - intros (-> & y & Hy & Hs) ? Hx. simplify_eq. destruct l; simpl in *; [done|]. apply Hs.
  - intros (-> & y & Hy & Hs). by apply (IH (next y)).
Qed.

Lemma seg_head e p l q : seg e p l q -> p = match l !! 0%nat with Some a => Some a | None => q end.
Proof. destruct l; simpl; [done|]. by intros [-> _]. Qed.

Lemma seg_in e p l q a : seg e p l q -> a ∈ l -> is_Some (e !! a).
Proof.
  revert p. induction l as [|b l IH]; intros p; simpl; [by intros _ ?%not_elem_of_nil|].
  intros (-> & y & Hy & Hs) [->|Ha]%elem_of_cons; [by exists y|by eapply IH].
Qed.

(** The link of the last element is redirected. *)
Lemma seg_relink e p l a x q q' d :
  seg e p (l ++ [a]) q -> NoDup (l ++ [a]) -> e !! a = Some x ->
  seg (<[a := mk_elem d q']> e) p (l ++ [a]) q'.
Proof.
  intros (m & H1 & H2)%seg_app (_ & Hn & _)%list.NoDup_app Ha. apply seg_app. exists m. split.
  - eapply seg_ext; [|exact H1]. intros b Hb. apply list_lookup_insert_ne. intros ->.
    by apply (Hn b Hb), list_elem_of_singleton.
  - simpl in *. destruct H2 as [-> _]. split; [done|]. eexists.
    rewrite list_lookup_insert_eq by (by eapply lookup_lt_Some). by split.
Qed.

Lemma set_lst_id w s : set_lst w (lst w s) s = s.
Proof. by destruct w, s. Qed.

(** ** What holds between any two steps *)

(** The elements linked into the two lists, and those of each thread. *)
Record ghost := mk_ghost { g_used : list nat; g_free : list nat; g_own : list (list nat) }.

Definition chain (w : which) (g : ghost) : list nat :=
  match w with Used => g_used g | Free => g_free g end.

(** What a thread has subtracted from [len] and not yet taken off the list, or
    put on the list and not yet added to [len]. *)
Definition debt (w : which) (p : pc) : nat :=
  match p with
  | Popping c (LdTop _ _ _ | LdCnt _ _ _ _ | RdData _ _ _ _ | RdNext _ _ _ _ | CasHead _ _ _ _) =>
      match src c, w with Used, Used | Free, Free => call_n c | _, _ => 0 end
  | Pushing c _ _ _ PAdd =>
      match dst c, w with Used, Used | Free, Free => call_n c | _, _ => 0 end
  | _ => 0
  end.

(** The call as the abstract stack sees it: a push takes effect when the elements
    are linked into [used], a pop when they are unlinked from it. *)
Definition astat_of (p : pc) : astat :=
  match p with
  | Idle => AIdle
  | Entry c | Popping c _ => APending c
  | FillData objs _ _ _ _ | FillNext objs _ _ _ _ => APending (CPush objs)
  | Pushing (CPush objs) _ _ _ q =>
      match q with PAdd => ADone (CPush objs) [] | _ => APending (CPush objs) end
  | Pushing (CPop t) _ _ tbl _ => ADone (CPop t) tbl
  end.

Section invariant.
Context (v : variant) (N : nat).

Definition ptr_ok (p : ptr) : Prop := forall a, p = Some a -> (a < N)%nat.

Definition start_ok (set : bool) (again : option ptr) : Prop :=
  v = Generic -> set = true /\ again = None.

Definition walk_ok (l : rte_stack_lf_list) (w : walk) : Prop :=
  cnt (old_head w) <= cnt (head l) /\ (v = Generic -> success_set w = true).

(** What the traversal of a list with the elements [ch] knows, as long as its
    head has not changed. *)
Definition pop_ok (tab : bool) (n : nat) (l : rte_stack_lf_list) (ch : list nat)
    (e : list rte_stack_lf_elem) (q : pop_pc) : Prop :=
  let same w P := old_head w = head l -> P in
  match q with
  | LdLen tbl => tab = true -> length tbl = n
  | CasLen x tbl => Z.of_nat n <= x /\ (tab = true -> length tbl = n)
  | LdTop set again tbl => start_ok set again /\ (tab = true -> length tbl = n)
  | LdCnt set again t tbl => start_ok set again /\ ptr_ok t /\ (tab = true -> length tbl = n)
  | RdData w i a tbl =>
      walk_ok l w /\ (i < n)%nat /\ (a < N)%nat /\ tab = true /\ length tbl = n
      /\ same w (ch !! i = Some a /\ take i tbl = vals e (take i ch))
  | RdNext w i a tbl =>
      walk_ok l w /\ (i < n)%nat /\ (a < N)%nat /\ (tab = true -> length tbl = n)
      /\ same w (ch !! i = Some a
                 /\ (tab = true -> take (Datatypes.S i) tbl = vals e (take (Datatypes.S i) ch)))
  | CasHead w tmp last tbl =>
      walk_ok l w /\ ptr_ok tmp /\ (tab = true -> length tbl = n)
      /\ same w ((n <= length ch)%nat /\ ch !! n = tmp /\ ch !! (n - 1)%nat = last
                 /\ (tab = true -> tbl = vals e (take n ch)))
  end.

(** The thread's elements [o], from [first] to [last], the last one linked to
    [m]. *)
Definition linked (e : list rte_stack_lf_elem) (n : nat) (first last : ptr) (o : list nat) (m : ptr) : Prop :=
  seg e first o m /\ length o = n /\ last = o !! (n - 1)%nat.

Definition push_ok (e : list rte_stack_lf_elem) (n : nat) (first last : ptr) (o : list nat) (q : push_pc)
  : Prop :=
  match q with
  | PTop => exists m, linked e n first last o m
  | PCnt t => ptr_ok t /\ exists m, linked e n first last o m
  | PNext h => ptr_ok (top h) /\ exists m, linked e n first last o m
  | PCas h => linked e n first last o (top h)
  | PAdd => o = []
  end.

Definition fill_ok (e : list rte_stack_lf_elem) (objs : list Z) (first last : ptr) (i done : nat) (tmp : ptr)
    (o : list nat) : Prop :=
  (exists m, linked e (length objs) first last o m) /\ (i < length objs)%nat /\ o !! i = tmp
  /\ take done (vals e o) = take done (reverse objs).

Definition local (s : rte_stack_lf) (g : ghost) (p : pc) (o : list nat) : Prop :=
  match p with
  | Idle | Entry _ => o = []
  | Popping c q =>
      o = [] /\ (1 <= call_n c)%nat
      /\ pop_ok (wants_data c) (call_n c) (lst (src c) s) (chain (src c) g) (elems s) q
  | FillData objs first last i tmp => fill_ok (elems s) objs first last i i tmp o
  | FillNext objs first last i tmp => fill_ok (elems s) objs first last i (Datatypes.S i) tmp o
  | Pushing c first last tbl q =>
      (1 <= call_n c)%nat /\ push_ok (elems s) (call_n c) first last o q
      /\ match c with
         | CPush objs => tbl = [] /\ (q <> PAdd -> vals (elems s) o = reverse objs)
         | CPop _ => True
         end
  end.

Record inv (K : Z) (s : rte_stack_lf) (ps : list pc) (g : ghost) : Prop := {
  i_size : length (elems s) = N;
  i_threads : length (g_own g) = length ps;
  i_perm : g_used g ++ g_free g ++ concat (g_own g) ≡ₚ seq 0 N;
  i_closed : forall a x, elems s !! a = Some x -> ptr_ok (next x);
  i_chain : forall w, seg (elems s) (top (head (lst w s))) (chain w g) None;
  i_cnt : forall w, 0 <= cnt (head (lst w s)) <= K;
  i_debt : forall w, len (lst w s) + Z.of_nat (total (debt w) ps) = Z.of_nat (length (chain w g));
  i_len : forall w, 0 <= len (lst w s);
  i_local : forall t p o, ps !! t = Some p -> g_own g !! t = Some o -> local s g p o
}.

(** *** Where the elements are *)

Lemma total_insert {A} (f : A -> nat) l t p q :
  l !! t = Some p -> (total f (<[t := q]> l) + f p = total f l + f q)%nat.
Proof.
  revert t. induction l as [|a l IH]; intros [|t] H; simpl in *; [done..| |].
  - simplify_eq. lia.
  - specialize (IH t H). lia.
Qed.

Lemma all_NoDup K s ps g : inv K s ps g -> NoDup (g_used g ++ g_free g ++ concat (g_own g)).
Proof. intros I. rewrite (i_perm _ _ _ _ I). apply NoDup_seq. Qed.

Lemma own_in_concat (O : list (list nat)) t o a : O !! t = Some o -> a ∈ o -> a ∈ concat O.
Proof.
  intros H Ha. apply list_elem_of_In, in_concat. exists o.
  split; apply list_elem_of_In; [by eapply list_elem_of_lookup_2|done].
Qed.

Lemma own_not_chain K s ps g t o w a :
  inv K s ps g -> g_own g !! t = Some o -> a ∈ o -> a ∉ chain w g.
Proof.
  intros I Ho Ha Hw. pose proof (all_NoDup _ _ _ _ I) as (_ & H1 & (_ & H2 & _)%list.NoDup_app)%list.NoDup_app.
  pose proof (own_in_concat _ _ _ _ Ho Ha). destruct w; simpl in Hw.
  - apply (H1 a Hw), elem_of_app. by right.
  - by apply (H2 a Hw).
Qed.

Lemma concat_NoDup_other (O : list (list nat)) t t' o o' a :
  NoDup (concat O) -> O !! t = Some o -> O !! t' = Some o' -> a ∈ o -> a ∈ o' -> t = t'.
Proof.
  revert t t'. induction O as [|x O IH]; intros [|t] [|t'] Hn H1 H2 Ha Ha'; simpl in *; try done;
    apply list.NoDup_app in Hn as (_ & Hd & Hn); simplify_eq.
  - destruct (Hd a Ha). by apply (own_in_concat O t' o').
  - destruct (Hd a Ha'). by apply (own_in_concat O t o).
  - f_equal. by apply (IH t t').
Qed.

Lemma own_other K s ps g t t' o o' a :
  inv K s ps g -> g_own g !! t = Some o -> g_own g !! t' = Some o' -> t' <> t -> a ∈ o -> a ∉ o'.
Proof.
  intros I Ho Ho' Hne Ha Ha'. apply Hne. symmetry.
  pose proof (all_NoDup _ _ _ _ I) as (_ & _ & (_ & _ & H)%list.NoDup_app)%list.NoDup_app.
  by apply (concat_NoDup_other (g_own g) t t' o o' a).
Qed.

Lemma own_NoDup K s ps g t o : inv K s ps g -> g_own g !! t = Some o -> NoDup o.
Proof.
  intros I Ho. pose proof (all_NoDup _ _ _ _ I) as (_ & _ & (_ & _ & H)%list.NoDup_app)%list.NoDup_app.
  clear I. revert t Ho. induction (g_own g) as [|x O IH]; intros [|t] Ho; simpl in *; [done..| |];
    apply list.NoDup_app in H as (H1 & _ & H2); [by simplify_eq|by apply (IH H2 t)].
Qed.

Lemma concat_insert_nil (O : list (list nat)) t o :
  O !! t = Some o -> concat O ≡ₚ o ++ concat (<[t := []]> O).
Proof.
  revert t. induction O as [|x O IH]; intros [|t] H; simpl in *; [done..| |].
  - by simplify_eq.
  - rewrite (IH t H). by rewrite !app_assoc, (Permutation_app_comm x o).
Qed.

Lemma concat_insert (O : list (list nat)) t o o' :
  O !! t = Some o -> concat (<[t := o']> O) ++ o ≡ₚ concat O ++ o'.
Proof.
  intros H. pose proof (lookup_lt_Some _ _ _ H) as Hl.
  rewrite (concat_insert_nil O t o H).
  rewrite (concat_insert_nil (<[t := o']> O) t o') by by apply list_lookup_insert_eq.
  rewrite list_insert_insert_eq. rewrite <- !app_assoc. rewrite (Permutation_app_comm o).
  rewrite (app_assoc o'), (Permutation_app_comm o'). rewrite <- app_assoc, (Permutation_app_comm o' o).
  by rewrite !app_assoc.
Qed.

(** *** Steps of other threads *)

(** The list [w] is as it was, or its head has moved on. *)
Definition keeps (s s' : rte_stack_lf) (g g' : ghost) (w : which) : Prop :=
  (head (lst w s') = head (lst w s) /\ chain w g' = chain w g
   /\ forall a, a ∈ chain w g -> elems s' !! a = elems s !! a)
  \/ cnt (head (lst w s)) < cnt (head (lst w s')).

Lemma keeps_cnt s s' g g' w : keeps s s' g g' w -> cnt (head (lst w s)) <= cnt (head (lst w s')).
Proof. intros [(-> & _)|]; lia. Qed.

(** What is known while the head is the old one. *)
Lemma keeps_same s s' g g' w h (P P' : Prop) :
  keeps s s' g g' w -> cnt h <= cnt (head (lst w s)) ->
  (head (lst w s') = head (lst w s) -> chain w g' = chain w g ->
   (forall a, a ∈ chain w g -> elems s' !! a = elems s !! a) -> P -> P') ->
  (h = head (lst w s) -> P) -> h = head (lst w s') -> P'.
Proof.
  intros [(E & Ec & Ee)|Hlt] Hc H HP Hh; [apply H; try done; apply HP; congruence|subst; lia].
Qed.

Lemma vals_take_ext e e' l i :
  (forall a, a ∈ l -> e' !! a = e !! a) -> vals e' (take i l) = vals e (take i l).
Proof.
  intros H. apply vals_ext. intros a Ha. apply H.
  apply elem_of_take in Ha as (j & Hj & _). by eapply list_elem_of_lookup_2.
Qed.

Lemma linked_ext e e' n first last o m :
  (forall a, a ∈ o -> e' !! a = e !! a) -> linked e n first last o m -> linked e' n first last o m.
Proof. intros H (Hs & Hn & Hl). split; [by eapply seg_ext|done]. Qed.

Lemma pop_ok_stable s s' g g' w tab n q :
  keeps s s' g g' w ->
  pop_ok tab n (lst w s) (chain w g) (elems s) q -> pop_ok tab n (lst w s') (chain w g') (elems s') q.
Proof.
  intros Hk. pose proof (keeps_cnt _ _ _ _ _ Hk) as Hc.
  destruct q as [tbl|x tbl|set ag tbl|set ag t tbl|k i a tbl|k i a tbl|k tmp last tbl]; simpl; try done.
  - intros ([Hw Hs] & Hi & Ha & Ht & Hl & H). do 5 (split; [first [done|split; [lia|done]]|]). revert H. apply (keeps_same s s' g g' w _ _ _ Hk Hw).
    intros _ -> He [H1 H2]. split; [done|]. by rewrite (vals_take_ext _ _ _ _ He).
  - intros ([Hw Hs] & Hi & Ha & Hl & H). do 4 (split; [first [done|split; [lia|done]]|]). revert H.
    apply (keeps_same s s' g g' w _ _ _ Hk Hw).
    intros _ -> He [H1 H2]. split; [done|]. intros Ht. by rewrite (vals_take_ext _ _ _ _ He), H2.
  - intros ([Hw Hs] & Hp & Hl & H). do 3 (split; [first [done|split; [lia|done]]|]). revert H.
    apply (keeps_same s s' g g' w _ _ _ Hk Hw).
    intros _ -> He (H1 & H2 & H3 & H4). do 3 (split; [done|]). intros Ht.
    by rewrite (vals_take_ext _ _ _ _ He), H4.
Qed.

Lemma local_stable s s' g g' p o :
  (forall a, a ∈ o -> elems s' !! a = elems s !! a) -> (forall w, keeps s s' g g' w) ->
  local s g p o -> local s' g' p o.
Proof.
  intros He Hk. destruct p as [|c|c q|objs first last i tmp|objs first last i tmp|c first last tbl q]; simpl; try done.
  - intros (-> & Hn & Hp). split; [done|]. split; [done|]. by apply (pop_ok_stable s s' g g').
  - intros ([m Hl] & Hi & Ho & Hv). unfold fill_ok. rewrite (vals_ext _ _ _ He).
    split; [exists m; by eapply linked_ext|done].
  - intros ([m Hl] & Hi & Ho & Hv). unfold fill_ok. rewrite (vals_ext _ _ _ He).
    split; [exists m; by eapply linked_ext|done].
  - intros (Hn & Hp & Hc). rewrite (vals_ext _ _ _ He). split; [done|]. split; [|done].
    destruct q as [|t|h|h|]; simpl in *; [| | | |done].
    + destruct Hp as [m Hl]. exists m. by eapply linked_ext.
    + destruct Hp as (Hp & m & Hl). split; [done|]. exists m. by eapply linked_ext.
    + destruct Hp as (Hp & m & Hl). split; [done|]. exists m. by eapply linked_ext.
    + by eapply linked_ext.
Qed.

(** *** One step of a thread

    The thread [t] goes from [p] to [p'] and from the elements [o] to [o'];
    outside of [o] the elements are as they were. *)
Definition moved_to (g : ghost) (t : nat) (o' u f : list nat) : ghost :=
  mk_ghost u f (<[t := o']> (g_own g)).

Lemma stack_inv_move K s ps g t p p' o o' u f s' :
  inv K s ps g -> ps !! t = Some p -> g_own g !! t = Some o ->
  let g' := moved_to g t o' u f in
  length (elems s') = N ->
  (forall a, a ∉ o -> elems s' !! a = elems s !! a) ->
  (forall w, head (lst w s') = head (lst w s) /\ chain w g' = chain w g
     \/ cnt (head (lst w s)) < cnt (head (lst w s'))) ->
  u ++ f ++ o' ≡ₚ g_used g ++ g_free g ++ o ->
  (forall a x, a ∈ o -> elems s' !! a = Some x -> ptr_ok (next x)) ->
  (forall w, seg (elems s') (top (head (lst w s'))) (chain w g') None) ->
  (forall w, 0 <= cnt (head (lst w s')) <= K + 1) ->
  (forall w, len (lst w s') + Z.of_nat (debt w p') - Z.of_nat (length (chain w g'))
     = len (lst w s) + Z.of_nat (debt w p) - Z.of_nat (length (chain w g))) ->
  (forall w, 0 <= len (lst w s')) ->
  local s' g' p' o' ->
  inv (K + 1) s' (<[t := p']> ps) g'.
Proof.
  intros I Hp Ho g' Hsz He Hk Hperm Hcl Hch Hcnt Hd Hlen Hl. split; try done.
  - unfold g', moved_to. simpl. by rewrite !length_insert, (i_threads _ _ _ _ I).
  - pose proof (i_perm _ _ _ _ I) as P. unfold g', moved_to. cbn [g_used g_free g_own].
    rewrite (concat_insert_nil _ t o') by (apply list_lookup_insert_eq; by eapply lookup_lt_Some).
    rewrite list_insert_insert_eq. rewrite (concat_insert_nil _ t o Ho) in P.
    rewrite !app_assoc in Hperm, P |- *. by rewrite Hperm.
  - intros a x Hx. destruct (decide (a ∈ o)) as [Hin|Hin]; [by apply (Hcl a)|].
    rewrite He in Hx by done. by apply (i_closed _ _ _ _ I a).
  - intros w. specialize (Hd w). pose proof (i_debt _ _ _ _ I w).
    pose proof (total_insert (debt w) ps t p p' Hp). lia.
  - intros t' q oq Hq Hoq. destruct (decide (t' = t)) as [->|Hne].
    { rewrite list_lookup_insert_eq in Hq by (by eapply lookup_lt_Some). simplify_eq.
      unfold g', moved_to in Hoq. simpl in Hoq.
      rewrite list_lookup_insert_eq in Hoq by (by eapply lookup_lt_Some). by simplify_eq. }
    rewrite list_lookup_insert_ne in Hq by done.
    unfold g', moved_to in Hoq. simpl in Hoq. rewrite list_lookup_insert_ne in Hoq by done.
    apply (local_stable s s' g g'); [| |by apply (i_local _ _ _ _ I t')].
    + intros a Ha. apply He. intros Hin. by apply (own_other _ _ _ _ t t' o oq a I Ho Hoq Hne Hin).
    + intros w. destruct (Hk w) as [[E1 E2]|Hlt]; [left|by right]. split; [done|]. split; [done|].
      intros a Ha. apply He. intros Hin. by apply (own_not_chain _ _ _ _ t o w a I Ho Hin).
Qed.

(** The thread only moves on: the memory and the elements stay, except that [len]
    may change. *)
Lemma inv_stay K s ps g t p p' o s' :
  inv K s ps g -> ps !! t = Some p -> g_own g !! t = Some o ->
  elems s' = elems s -> (forall w, head (lst w s') = head (lst w s)) ->
  (forall w, len (lst w s') + Z.of_nat (debt w p') = len (lst w s) + Z.of_nat (debt w p)) ->
  (forall w, 0 <= len (lst w s')) ->
  local s' g p' o ->
  inv (K + 1) s' (<[t := p']> ps) g.
Proof.
  intros I Hp Ho He Hh Hd Hlen Hl.
  assert (moved_to g t o (g_used g) (g_free g) = g) as Eg.
  { unfold moved_to. rewrite list_insert_id by done. by destruct g. }
  rewrite <- Eg. apply (stack_inv_move K s ps g t p p' o o); rewrite ?Eg; try done.
  - rewrite He. apply I.
  - intros a _. by rewrite He.
  - intros w. left. split; [apply Hh|done].
  - intros a x _. rewrite He. apply I.
  - intros w. rewrite He, Hh. apply I.
  - intros w. rewrite Hh. pose proof (i_cnt _ _ _ _ I w). lia.
  - intros w. by rewrite Hd.
Qed.

(** ** The simulation *)

Definition abs (s : rte_stack_lf) (ps : list pc) (g : ghost) : aconf :=
  mk_aconf (vals (elems s) (g_used g)) (astat_of <$> ps).

Definition simulated (K : Z) (s : rte_stack_lf) (ps : list pc) (g : ghost) (t : nat) (r : after)
    (s' : rte_stack_lf) : Prop :=
  exists g', match r with
  | Go p' => inv (K + 1) s' (<[t := p']> ps) g'
      /\ (abs s' (<[t := p']> ps) g' = abs s ps g \/ astep N (abs s ps g) None (abs s' (<[t := p']> ps) g'))
  | Return n tbl => inv (K + 1) s' (<[t := Idle]> ps) g'
      /\ astep N (abs s ps g) (Some (EvReturn t n tbl)) (abs s' (<[t := Idle]> ps) g')
  end.

Lemma abs_same s s' ps g g' t p p' :
  ps !! t = Some p -> astat_of p' = astat_of p ->
  vals (elems s') (g_used g') = vals (elems s) (g_used g) -> abs s' (<[t := p']> ps) g' = abs s ps g.
Proof.
  intros Hp Ha Hv. unfold abs. rewrite Hv, list_fmap_insert, Ha, list_insert_id; [done|].
  by rewrite list_lookup_fmap, Hp.
Qed.

Lemma abs_thread s ps g t p : ps !! t = Some p -> a_thr (abs s ps g) !! t = Some (astat_of p).
Proof. intros Hp. simpl. by rewrite list_lookup_fmap, Hp. Qed.

Lemma own_of K s ps g t p :
  inv K s ps g -> ps !! t = Some p -> exists o, g_own g !! t = Some o /\ local s g p o.
Proof.
  intros I Hp. destruct (g_own g !! t) as [o|] eqn:Ho.
  - exists o. split; [done|]. by apply (i_local _ _ _ _ I t).
  - apply lookup_ge_None in Ho. pose proof (lookup_lt_Some _ _ _ Hp). pose proof (i_threads _ _ _ _ I). lia.
Qed.

Lemma sizes K s ps g : inv K s ps g ->
  (length (g_used g) + length (g_free g) + length (concat (g_own g)) = N)%nat.
Proof.
  intros I. pose proof (Permutation_length (i_perm _ _ _ _ I)) as E.
  rewrite !length_app, length_seq in E. lia.
Qed.

Lemma chain_len K s ps g w : inv K s ps g -> (length (chain w g) <= N)%nat.
Proof. intros I. pose proof (sizes _ _ _ _ I). destruct w; simpl; lia. Qed.

Lemma chain_valid K s ps g w i a : inv K s ps g -> chain w g !! i = Some a -> (a < N)%nat.
Proof.
  intros I Ha. pose proof (seg_in _ _ _ _ _ (i_chain _ _ _ _ I w) (list_elem_of_lookup_2 _ _ _ Ha)) as [x Hx].
  rewrite <- (i_size _ _ _ _ I). by eapply lookup_lt_Some.
Qed.

Lemma top_valid K s ps g w : inv K s ps g -> ptr_ok (top (head (lst w s))).
Proof.
  intros I a Ha. rewrite (seg_head _ _ _ _ (i_chain _ _ _ _ I w)) in Ha.
  destruct (chain w g !! 0%nat) as [b|] eqn:E; [|done]. simplify_eq. by eapply chain_valid.
Qed.

Lemma elem_valid K s ps g a : inv K s ps g -> (a < N)%nat -> exists x, elems s !! a = Some x.
Proof. intros I Ha. rewrite <- (i_size _ _ _ _ I) in Ha. by apply lookup_lt_is_Some_2 in Ha as [x ?]; exists x. Qed.

(** *** A call that returns 0 *)

Lemma total_pair {A} (f h : A -> nat) (l : list A) (O : list (list nat)) :
  length O = length l ->
  (forall i p o, l !! i = Some p -> O !! i = Some o -> (f p + length o <= h p)%nat) ->
  (total f l + length (concat O) <= total h l)%nat.
Proof.
  revert O. induction l as [|p l IH]; intros [|o O] Hl H; simpl in *; try done.
  rewrite length_app. pose proof (H 0%nat p o eq_refl eq_refl).
  pose proof (IH O ltac:(lia) (fun i => H (Datatypes.S i))). lia.
Qed.

Lemma total_fmap {A B} (f : B -> nat) (h : A -> B) l : total f (h <$> l) = total (fun a => f (h a)) l.
Proof. induction l as [|a l IH]; [done|]. rewrite fmap_cons. cbn [total]. by rewrite IH. Qed.

Lemma total_mono {A} (f h : A -> nat) l : (forall i a, l !! i = Some a -> (f a <= h a)%nat) -> (total f l <= total h l)%nat.
Proof.
  induction l as [|a l IH]; intros H; simpl; [done|]. pose proof (H 0%nat a eq_refl).
  pose proof (IH (fun i => H (Datatypes.S i))). lia.
Qed.

(** What a thread holds or owes is bounded by its call. *)
Lemma share_ok s g p o w : local s g p o -> (debt w p + length o <= astat_n (astat_of p))%nat.
Proof.
  destruct p as [|c|c q|objs first last i tmp|objs first last i tmp|c first last tbl q]; simpl.
  - by intros ->.
  - intros ->. simpl. lia.
  - intros (-> & _ & _). simpl. destruct q, c, w; simpl; lia.
  - intros ([m (_ & -> & _)] & _). lia.
  - intros ([m (_ & -> & _)] & _). lia.
  - intros (Hn & Hq & _). assert (length o = match q with PAdd => 0 | _ => call_n c end)%nat as ->.
    { destruct q; simpl in Hq; [by destruct Hq as (m & _ & -> & _)|by destruct Hq as (_ & m & _ & -> & _)
        |by destruct Hq as (_ & m & _ & -> & _)|by destruct Hq as (_ & -> & _)|by subst]. }
    destruct q, c, w; simpl; lia.
Qed.

Lemma fail_ok K s ps g t p c :
  inv K s ps g -> ps !! t = Some p -> astat_of p = APending c -> g_own g !! t = Some [] ->
  (forall w, debt w p = 0%nat) -> len (lst (src c) s) < Z.of_nat (call_n c) ->
  may_fail N t c (abs s ps g).
Proof.
  intros I Hp Ha Ho Hd Hlt. pose proof (i_debt _ _ _ _ I (src c)) as D. pose proof (sizes _ _ _ _ I) as Hs.
  set (h q := astat_n (astat_of q)).
  assert (others t (abs s ps g) = total h (<[t := Idle]> ps)) as Eo.
  { unfold others. cbn [abs a_thr]. change AIdle with (astat_of Idle). rewrite <- list_fmap_insert.
    exact (total_fmap astat_n astat_of _). }
  assert (total (debt (src c)) ps + length (concat (g_own g)) <= total h (<[t := Idle]> ps))%nat as Hle.
  { pose proof (total_insert (debt (src c)) ps t p Idle Hp) as E. rewrite Hd in E. simpl in E.
    replace (total (debt (src c)) ps) with (total (debt (src c)) (<[t := Idle]> ps)) by lia.
    apply total_pair; [by rewrite length_insert, (i_threads _ _ _ _ I)|].
    intros i q o Hq Hoq. destruct (decide (i = t)) as [->|Hne].
    - rewrite list_lookup_insert_eq in Hq by (by eapply lookup_lt_Some). by simplify_eq.
    - rewrite list_lookup_insert_ne in Hq by done. apply (share_ok s g).
      by apply (i_local _ _ _ _ I i). }
  unfold may_fail. rewrite Eo. simpl. unfold vals. rewrite length_fmap.
  destruct c; simpl in *; right; lia.
Qed.

End invariant.
