(* ===== verification/StackSim.v ===== *)
(** * The lock-free stack: every step is a step of the abstract stack

    One lemma per place in the code at which a thread may stand. *)
From stdpp Require Import prelude list numbers.
From S2P Require Import Prelude Locks Stack StackSpec.
Open Scope Z_scope.

Section steps.
Context (v : variant) (N : nat).
Context (K : Z) (s : rte_stack_lf) (ps : list pc) (g : ghost).
Hypothesis HI : inv v N K s ps g.
Hypothesis HK : K + 1 < 2 ^ 64.
Hypothesis HN : Z.of_nat N < 2 ^ 32.

(** What a thread at [p] does. *)
Definition steps_to (z : noise) (t : nat) (p : pc) : Prop :=
  exists r s', thread_step v z p s = Some (r, s') /\ simulated v N K s ps g t r s'.

(** The thread moves on without effect on the abstract stack. *)
Lemma stay_sim t p p' o s' z :
  ps !! t = Some p -> g_own g !! t = Some o ->
  thread_step v z p s = Some (Go p', s') ->
  elems s' = elems s -> (forall w, head (lst w s') = head (lst w s)) ->
  (forall w, len (lst w s') + Z.of_nat (debt w p') = len (lst w s) + Z.of_nat (debt w p)) ->
  (forall w, 0 <= len (lst w s')) ->
  astat_of p' = astat_of p -> local v N s' g p' o ->
  steps_to z t p.
Proof.
  intros Hp Ho E He Hh Hd Hl Ha Hloc. exists (Go p'), s'. split; [done|]. exists g. split.
  - by apply (inv_stay v N K s ps g t p p' o).
  - left. apply abs_same with p; [done|done|]. by rewrite He.
Qed.

(** The same when the memory does not change at all. *)
Lemma look_sim t p p' o z :
  ps !! t = Some p -> g_own g !! t = Some o -> thread_step v z p s = Some (Go p', s) ->
  (forall w, debt w p' = debt w p) -> astat_of p' = astat_of p -> local v N s g p' o ->
  steps_to z t p.
Proof.
  intros Hp Ho E Hd Ha Hloc. apply (stay_sim t p p' o s); try done.
  - intros w. by rewrite Hd.
  - apply HI.
Qed.

Lemma abs_step s' g' t p' :
  abs s' (<[t := p']> ps) g'
  = mk_aconf (vals (elems s') (g_used g')) (<[t := astat_of p']> (a_thr (abs s ps g))).
Proof. unfold abs. by rewrite list_fmap_insert. Qed.

(** The call returns 0. *)
Lemma fail_sim t p c z :
  ps !! t = Some p -> g_own g !! t = Some [] -> astat_of p = APending c ->
  (forall w, debt w p = 0%nat) -> may_fail N t c (abs s ps g) ->
  thread_step v z p s = Some (Return 0 (untouched c), s) -> steps_to z t p.
Proof.
  intros Hp Ho Ha Hd Hf E. eexists _, _. split; [exact E|]. exists g. split.
  - apply (inv_stay v N K s ps g t p Idle []); try done; [|apply HI]. intros w. by rewrite Hd.
  - rewrite abs_step. apply (st_fail N (abs s ps g)); [|done]. rewrite (abs_thread s ps g t p Hp). by rewrite Ha.
Qed.

(** *** [__rte_stack_lf_pop_elems] *)

(** The list that the call [c] pops from. *)
Lemma at_loop_local c i w tmp last tbl :
  let l := lst (src c) s in let ch := chain (src c) g in
  (1 <= call_n c)%nat -> walk_ok v l w -> (i <= call_n c)%nat -> ptr_ok N tmp ->
  (wants_data c = true -> length tbl = call_n c) ->
  (old_head w = head l -> (i <= length ch)%nat /\ ch !! i = tmp
     /\ ((0 < i)%nat -> ch !! (i - 1)%nat = last)
     /\ (wants_data c = true -> take i tbl = vals (elems s) (take i ch))) ->
  local v N s g (Popping c (at_loop (wants_data c) (call_n c) i w tmp last tbl)) [].
Proof.
  intros l ch Hn [Hw1 Hw2] Hi Hp Hl H. simpl. split; [done|]. split; [done|]. unfold at_loop.
  destruct (Nat.eqb_spec i (call_n c)) as [->|Ne].
  - simpl. split; [done|]. split; [done|]. split; [done|]. intros E. destruct (H E) as (H1 & H2 & H3 & H4).
    split; [done|]. split; [done|]. split; [apply H3; lia|]. intros Ht.
    pose proof (H4 Ht) as E4. by rewrite take_ge in E4 by (by rewrite Hl).
  - destruct tmp as [a|].
    + destruct (wants_data c) eqn:Et; simpl.
      * do 2 (split; [done || lia|]). split; [by apply Hp|]. split; [done|]. split; [by apply Hl|].
        intros E. destruct (H E) as (_ & H2 & _ & H4). split; [done|]. by apply H4.
      * do 2 (split; [done || lia|]). split; [by apply Hp|]. split; [done|].
        intros E. destruct (H E) as (_ & H2 & _). split; done.
    + simpl. split; [|done]. intros Hv. rewrite (Hw2 Hv). done.
Qed.

Lemma at_loop_debt w' c tab n i w tmp last tbl q :
  debt w' (Popping c q) = debt w' (Popping c (LdTop true None [])) ->
  debt w' (Popping c (at_loop tab n i w tmp last tbl)) = debt w' (Popping c q).
Proof. intros ->. unfold at_loop. destruct (_ =? _)%nat; [done|]. destruct tmp; [by destruct tab|done]. Qed.

Lemma pop_look c q q' z t :
  ps !! t = Some (Popping c q) -> g_own g !! t = Some [] ->
  __rte_stack_lf_pop_elems v z (wants_data c) (call_n c) q (lst (src c) s) (elems s) = Some (PGo q', lst (src c) s) ->
  (forall w, debt w (Popping c q') = debt w (Popping c q)) ->
  local v N s g (Popping c q') [] -> steps_to z t (Popping c q).
Proof.
  intros Hp Ho E Hd Hl. apply (look_sim t _ (Popping c q') []); try done.
  unfold thread_step. rewrite E. simpl. by rewrite set_lst_id.
Qed.

Lemma src_local t c q :
  ps !! t = Some (Popping c q) ->
  g_own g !! t = Some [] /\ (1 <= call_n c)%nat
  /\ pop_ok v N (wants_data c) (call_n c) (lst (src c) s) (chain (src c) g) (elems s) q.
Proof.
  intros Hp. destruct (own_of _ _ _ _ _ _ _ _ HI Hp) as (o & Ho & -> & Hn & Hq). done.
Qed.

Lemma fail_pop t c q z :
  ps !! t = Some (Popping c q) -> (forall w, debt w (Popping c q) = 0%nat) ->
  len (lst (src c) s) < Z.of_nat (call_n c) ->
  __rte_stack_lf_pop_elems v z (wants_data c) (call_n c) q (lst (src c) s) (elems s)
  = Some (PNull, lst (src c) s) ->
  steps_to z t (Popping c q).
Proof.
  intros Hp Hd Hl E. destruct (src_local t c q Hp) as (Ho & _ & _).
  apply (fail_sim t _ c); try done.
  - by apply (fail_ok v N K s ps g t (Popping c q)).
  - unfold thread_step. rewrite E. simpl. by rewrite set_lst_id.
Qed.

Lemma len_bound w : 0 <= len (lst w s) <= Z.of_nat N.
Proof.
  pose proof (i_debt _ _ _ _ _ _ HI w). pose proof (i_len _ _ _ _ _ _ HI w).
  pose proof (chain_len _ _ _ _ _ _ w HI). lia.
Qed.

(** Looking at [len]: too few elements, or on to the compare-and-swap. *)
Lemma LdLen_sim t c tbl z : ps !! t = Some (Popping c (LdLen tbl)) -> steps_to z t (Popping c (LdLen tbl)).
Proof.
  intros Hp. destruct (src_local t c _ Hp) as (Ho & Hn & Hq). simpl in Hq.
  destruct (Z.ltb_spec (len (lst (src c) s)) (Z.of_nat (call_n c))) as [Hlt|Hge].
  - apply fail_pop; [done|by intros w; destruct c, w|done|]. simpl. by rewrite (proj2 (Z.ltb_lt _ _) Hlt).
  - apply (pop_look c _ (CasLen (len (lst (src c) s)) tbl)); try done.
    simpl. by rewrite (proj2 (Z.ltb_ge _ _) Hge).
Qed.

Lemma CasLen_sim t c x tbl z :
  ps !! t = Some (Popping c (CasLen x tbl)) -> steps_to z t (Popping c (CasLen x tbl)).
Proof.
  intros Hp. destruct (src_local t c _ Hp) as (Ho & Hn & Hq). simpl in Hq. destruct Hq as [Hx Hl].
  set (lose := match v with C11 => spurious z | Generic => false end).
  destruct ((len (lst (src c) s) =? x) && negb lose) eqn:E.
  - pose proof E as [Ex%Z.eqb_eq _]%andb_true_iff. pose proof (len_bound (src c)).
    set (set0 := match v with Generic => true | C11 => false end).
    apply (stay_sim t _ (Popping c (LdTop set0 None tbl)) []
             (set_lst (src c) (mk_list (head (lst (src c) s)) (len (lst (src c) s) - Z.of_nat (call_n c))) s)); try done.
    + unfold thread_step, __rte_stack_lf_pop_elems. fold lose. rewrite E. simpl.
      rewrite <- Ex, wrap_small by (unfold fits; lia). done.
    + by destruct c.
    + intros w. by destruct c, w.
    + intros w. destruct c, w; simpl in *; lia.
    + intros w. pose proof (i_len _ _ _ _ _ _ HI w). destruct c, w; simpl in *; lia.
    + simpl. split; [done|]. split; [done|]. split; [|done]. unfold start_ok, set0. by intros ->.
  - destruct (Z.ltb_spec (len (lst (src c) s)) (Z.of_nat (call_n c))) as [Hlt|Hge].
    + assert (v = Generic \/ v = C11) as [Ev|Ev] by (destruct v; auto).
      * apply (pop_look c _ (LdLen tbl)); try done. unfold __rte_stack_lf_pop_elems. fold lose. by rewrite E, Ev.
      * apply fail_pop; [done|by intros w; destruct c, w|done|].
        unfold __rte_stack_lf_pop_elems. fold lose. by rewrite E, Ev, (proj2 (Z.ltb_lt _ _) Hlt).
    + apply (pop_look c _ (match v with Generic => LdLen tbl | C11 => CasLen (len (lst (src c) s)) tbl end)); try done.
      * unfold __rte_stack_lf_pop_elems. fold lose. rewrite E, (proj2 (Z.ltb_ge _ _) Hge). by destruct v.
      * intros w. by destruct v.
      * simpl. split; [done|]. split; [done|]. by destruct v.
Qed.

Lemma LdTop_sim t c set ag tbl z :
  ps !! t = Some (Popping c (LdTop set ag tbl)) -> steps_to z t (Popping c (LdTop set ag tbl)).
Proof.
  intros Hp. destruct (src_local t c _ Hp) as (Ho & Hn & Hq). simpl in Hq.
  apply (pop_look c _ (LdCnt set ag (top (head (lst (src c) s))) tbl)); try done.
  simpl. split; [done|]. split; [done|]. split; [apply Hq|]. split; [|apply Hq].
  by apply (top_valid v N K s ps g).
Qed.

Lemma LdCnt_sim t c set ag tp tbl z :
  v = Generic \/ garbage z = false ->
  ps !! t = Some (Popping c (LdCnt set ag tp tbl)) -> steps_to z t (Popping c (LdCnt set ag tp tbl)).
Proof.
  intros Hz Hp. destruct (src_local t c _ Hp) as (Ho & Hn & Hs & Ht & Hl).
  set (w := mk_walk (mk_head tp (cnt (head (lst (src c) s)))) set).
  set (last := default None ag).
  apply (pop_look c _ (at_loop (wants_data c) (call_n c) 0 w tp last tbl)); try done.
  - simpl. unfold last. destruct ag as [la|]; [|done]. destruct Hz as [Hv| ->]; [|done].
    by destruct (Hs Hv).
  - intros w'. rewrite (at_loop_debt _ _ _ _ _ _ _ _ _ (LdTop true None [])); done.
  - apply at_loop_local; [done| |lia|done|done|].
    + split; [simpl; lia|]. intros Hv. by destruct (Hs Hv).
    + intros E. split; [lia|]. split; [|split; [lia|done]].
      pose proof (seg_head _ _ _ _ (i_chain _ _ _ _ _ _ HI (src c))) as Eh.
      rewrite <- E in Eh. simpl in Eh. rewrite Eh. by destruct (chain (src c) g !! 0%nat).
Qed.

Lemma RdData_sim t c w i a tbl z :
  ps !! t = Some (Popping c (RdData w i a tbl)) -> steps_to z t (Popping c (RdData w i a tbl)).
Proof.
  intros Hp. destruct (src_local t c _ Hp) as (Ho & Hn & Hw & Hi & Ha & Htab & Hl & H).
  destruct (elem_valid _ _ _ _ _ _ a HI Ha) as [x Hx].
  apply (pop_look c _ (RdNext w i a (<[i := data x]> tbl))); try done.
  - simpl. by rewrite Hx.
  - simpl. split; [done|]. split; [done|]. do 3 (split; [done|]). split; [by rewrite length_insert|].
    intros E. destruct (H E) as [H1 H2]. split; [done|]. intros _.
    rewrite (take_S_r _ _ (data x)) by (rewrite list_lookup_insert_eq; [done|lia]).
    rewrite take_insert_ge by lia. rewrite H2, (take_S_r _ _ a H1). unfold vals. rewrite fmap_app. simpl.
    unfold val. by rewrite Hx.
Qed.

Lemma RdNext_sim t c w i a tbl z :
  ps !! t = Some (Popping c (RdNext w i a tbl)) -> steps_to z t (Popping c (RdNext w i a tbl)).
Proof.
  intros Hp. destruct (src_local t c _ Hp) as (Ho & Hn & Hw & Hi & Ha & Hl & H).
  destruct (elem_valid _ _ _ _ _ _ a HI Ha) as [x Hx].
  apply (pop_look c _ (at_loop (wants_data c) (call_n c) (Datatypes.S i) w (next x) (Some a) tbl)); try done.
  - simpl. by rewrite Hx.
  - intros w'. rewrite (at_loop_debt _ _ _ _ _ _ _ _ _ (LdTop true None [])); done.
  - apply at_loop_local; try done.
    + by apply (i_closed _ _ _ _ _ _ HI a).
    + intros E. destruct (H E) as [H1 H2]. pose proof (lookup_lt_Some _ _ _ H1).
      split; [lia|]. split; [|split; [by rewrite Nat.sub_succ, Nat.sub_0_r|done]].
      rewrite (seg_next _ _ _ _ i a x (i_chain _ _ _ _ _ _ HI (src c)) H1 Hx).
      by destruct (chain (src c) g !! Datatypes.S i).
Qed.

(** The elements of a list are taken off it. *)
Definition taken (w : which) (n : nat) (tmp : ptr) : rte_stack_lf :=
  set_lst w (mk_list (mk_head tmp (cnt (head (lst w s)) + 1)) (len (lst w s))) s.

Definition taken_ghost (w : which) (n t : nat) : ghost :=
  match w with
  | Used => moved_to g t (take n (g_used g)) (drop n (g_used g)) (g_free g)
  | Free => moved_to g t (take n (g_free g)) (g_used g) (drop n (g_free g))
  end.

Lemma cnt_small w : u64 (cnt (head (lst w s)) + 1) = cnt (head (lst w s)) + 1.
Proof. pose proof (i_cnt _ _ _ _ _ _ HI w). apply wrap_small. unfold fits. lia. Qed.

Lemma taken_chain n c t tmp :
  (n <= length (chain (src c) g))%nat -> chain (src c) g !! n = tmp ->
  seg (elems s) (top (head (lst (src c) s))) (take n (chain (src c) g)) tmp
  /\ forall w, seg (elems s) (top (head (lst w (taken (src c) n tmp)))) (chain w (taken_ghost (src c) n t)) None.
Proof.
  intros Hn Ht. pose proof (i_chain _ _ _ _ _ _ HI (src c)) as Hs.
  rewrite <- (take_drop n (chain (src c) g)) in Hs. apply seg_app in Hs as (m & H1 & H2).
  assert (m = tmp) as ->.
  { rewrite (seg_head _ _ _ _ H2), lookup_drop, Nat.add_0_r, Ht. by destruct tmp. }
  split; [done|]. intros w. pose proof (i_chain _ _ _ _ _ _ HI w) as Hw. by destruct c, w.
Qed.

Lemma taken_inv c t tmp w last tbl p' :
  let n := call_n c in
  ps !! t = Some (Popping c (CasHead w tmp last tbl)) -> g_own g !! t = Some [] ->
  (n <= length (chain (src c) g))%nat -> chain (src c) g !! n = tmp ->
  (forall w, debt w p' = 0%nat) ->
  local v N (taken (src c) n tmp) (taken_ghost (src c) n t) p' (take n (chain (src c) g)) ->
  inv v N (K + 1) (taken (src c) n tmp) (<[t := p']> ps) (taken_ghost (src c) n t).
Proof.
  intros n Hp Ho Hn Ht Hd Hl. destruct (taken_chain n c t tmp Hn Ht) as [_ Hs].
  set (o' := take n (chain (src c) g)) in *.
  assert (taken_ghost (src c) n t = moved_to g t o' (chain Used (taken_ghost (src c) n t))
            (chain Free (taken_ghost (src c) n t))) as Eg by (by destruct c).
  rewrite Eg in *. apply (stack_inv_move v N K s ps g t (Popping c (CasHead w tmp last tbl)) p' [] o'); try done.
  - destruct c; apply HI.
  - intros a _. by destruct c.
  - intros w'. pose proof (i_cnt _ _ _ _ _ _ HI w'). destruct c, w'; simpl in *; (left; done) || (right; lia).
  - rewrite app_nil_r. destruct c; simpl; unfold o'; simpl.
    + rewrite (Permutation_app_comm (drop _ _)), take_drop. done.
    + rewrite (app_assoc (drop _ _)), Permutation_app_comm, app_assoc, take_drop. done.
  - intros a x Ha. by apply not_elem_of_nil in Ha.
  - intros w'. pose proof (Hs w') as Hw. by destruct c, w'.
  - intros w'. pose proof (i_cnt _ _ _ _ _ _ HI w'). destruct c, w'; simpl in *; lia.
  - intros w'. rewrite Hd. destruct c, w'; subst n; simpl in *; rewrite ?length_drop; lia.
  - intros w'. pose proof (i_len _ _ _ _ _ _ HI w'). by destruct c, w'.
Qed.

Lemma linked_taken c tmp last :
  let n := call_n c in let ch := chain (src c) g in
  (1 <= n <= length ch)%nat -> ch !! n = tmp -> ch !! (n - 1)%nat = last ->
  linked (elems s) n (top (head (lst (src c) s))) last (take n ch) tmp.
Proof.
  intros n ch Hn Ht Hl. split; [exact (proj1 (taken_chain n c 0 tmp (proj2 Hn) Ht))|].
  split; [rewrite length_take; lia|]. by rewrite lookup_take_lt by lia.
Qed.

Lemma top_chain w : top (head (lst w s)) = chain w g !! 0%nat.
Proof.
  rewrite (seg_head _ _ _ _ (i_chain _ _ _ _ _ _ HI w)). by destruct (chain w g !! 0%nat).
Qed.

(** The compare-and-swap of the head, in a call of pop: here the pop takes
    effect. *)
Lemma CasHead_pop_sim t tb w tmp last tbl z :
  let c := CPop tb in
  ps !! t = Some (Popping c (CasHead w tmp last tbl)) -> head (lst (src c) s) = old_head w ->
  steps_to z t (Popping c (CasHead w tmp last tbl)).
Proof.
  intros c Hp Hh. destruct (src_local t c _ Hp) as (Ho & Hn & Hw & Htmp & Hl & H).
  destruct (H (eq_sym Hh)) as (H1 & H2 & H3 & H4). simpl in H1, H2, H3, H4, Hn, Hh. specialize (H4 eq_refl).
  pose proof (linked_taken c tmp last (conj Hn H1) H2 H3) as HL. simpl in HL.
  destruct (g_used g) as [|a r] eqn:Eg; [simpl in H1; lia|]. rewrite <- Eg in *.
  assert (top (old_head w) = Some a) as Et.
  { pose proof (top_chain Used) as E. simpl in E. by rewrite <- Hh, E, Eg. }
  set (p' := Pushing c (Some a) last tbl PTop).
  exists (Go p'), (taken (src c) (call_n c) tmp). split.
  { pose proof (cnt_small Used) as Ec. simpl in Ec.
    unfold thread_step. simpl. rewrite decide_True by done. simpl. rewrite Et, <- Hh. by rewrite Ec. }
  exists (taken_ghost (src c) (call_n c) t). split.
  - apply (taken_inv c t tmp w last tbl p'); try done.
    simpl. split; [done|]. split; [|done]. exists tmp. rewrite <- Et, <- Hh. exact HL.
  - right. rewrite abs_step.
    apply (st_pop N (abs s ps g) t tb tbl (vals (elems s) (drop (length tb) (g_used g)))).
    + rewrite (abs_thread s ps g t _ Hp). done.
    + simpl. rewrite H4. unfold vals. by rewrite <- fmap_app, take_drop.
    + by apply Hl.
Qed.

(** The same in a call of push: the thread gets free elements. *)
Lemma CasHead_push_sim t objs w tmp last tbl z :
  let c := CPush objs in
  ps !! t = Some (Popping c (CasHead w tmp last tbl)) -> head (lst (src c) s) = old_head w ->
  steps_to z t (Popping c (CasHead w tmp last tbl)).
Proof.
  intros c Hp Hh. destruct (src_local t c _ Hp) as (Ho & Hn & Hw & Htmp & Hl & H).
  destruct (H (eq_sym Hh)) as (H1 & H2 & H3 & _). simpl in H1, H2, H3, Hn, Hh.
  pose proof (linked_taken c tmp last (conj Hn H1) H2 H3) as HL. simpl in HL.
  destruct (g_free g) as [|a r] eqn:Eg; [simpl in H1; lia|]. rewrite <- Eg in *.
  assert (top (old_head w) = Some a) as Et.
  { pose proof (top_chain Free) as E. simpl in E. by rewrite <- Hh, E, Eg. }
  set (p' := FillData objs (Some a) last 0 (Some a)).
  exists (Go p'), (taken (src c) (call_n c) tmp). split.
  { pose proof (cnt_small Free) as Ec. simpl in Ec.
    unfold thread_step. simpl. rewrite decide_True by done. simpl. rewrite Et, <- Hh. by rewrite Ec. }
  exists (taken_ghost (src c) (call_n c) t). split.
  - apply (taken_inv c t tmp w last tbl p'); try done.
    simpl. split; [exists tmp; rewrite <- Et, <- Hh; exact HL|]. split; [lia|]. split; [|done].
    rewrite lookup_take_lt by lia. by rewrite Eg.
  - left. by apply abs_same with (Popping c (CasHead w tmp last tbl)).
Qed.

Lemma CasHead_sim t c w tmp last tbl z :
  ps !! t = Some (Popping c (CasHead w tmp last tbl)) -> steps_to z t (Popping c (CasHead w tmp last tbl)).
Proof.
  intros Hp. destruct (decide (head (lst (src c) s) = old_head w)) as [Hh|Hh].
  { destruct c; [by apply CasHead_push_sim|by apply CasHead_pop_sim]. }
  destruct (src_local t c _ Hp) as (Ho & Hn & Hw & Htmp & Hl & H).
  apply (pop_look c _ (at_loop (wants_data c) (call_n c) 0 (mk_walk (head (lst (src c) s)) true)
    (top (head (lst (src c) s))) last tbl)); try done.
  - simpl. by rewrite decide_False by done.
  - intros w'. rewrite (at_loop_debt _ _ _ _ _ _ _ _ _ (LdTop true None [])); done.
  - apply at_loop_local; [done| |lia|by apply (top_valid v N K s ps g)|done|].
    + split; [simpl; lia|done].
    + intros _. split; [lia|]. split; [|split; [lia|done]].
      by rewrite top_chain.
Qed.

Lemma Entry_sim t c z : ps !! t = Some (Entry c) -> steps_to z t (Entry c).
Proof.
  intros Hp. destruct (own_of _ _ _ _ _ _ _ _ HI Hp) as (o & Ho & ->).
  destruct (Nat.eqb_spec (call_n c) 0) as [E|E].
  - apply (fail_sim t _ c); try done.
    + destruct c; by left.
    + unfold thread_step. by rewrite (proj2 (Nat.eqb_eq _ _) E).
  - apply (look_sim t _ (Popping c (LdLen (untouched c))) []); try done.
    + unfold thread_step. by rewrite (proj2 (Nat.eqb_neq _ _) E).
    + simpl. split; [done|]. split; [lia|]. by destruct c.
Qed.

(** *** Filling the elements *)

(** An element of the thread is written, its link or its pointer. *)
Definition wrote (a : nat) (x : rte_stack_lf_elem) : rte_stack_lf := set_elems (<[a := x]> (elems s)) s.

Lemma vals_insert e a x l : a ∉ l -> vals (<[a := x]> e) l = vals e l.
Proof. intros Ha. apply vals_ext. intros b Hb. apply list_lookup_insert_ne. by intros ->. Qed.

Lemma wrote_sim t p p' o a x z :
  ps !! t = Some p -> g_own g !! t = Some o -> a ∈ o -> (a < N)%nat -> ptr_ok N (next x) ->
  thread_step v z p s = Some (Go p', wrote a x) ->
  (forall w, debt w p' = debt w p) -> astat_of p' = astat_of p ->
  local v N (wrote a x) g p' o -> steps_to z t p.
Proof.
  intros Hp Ho Hin Ha Hx E Hd Hst Hl.
  assert (Eg : moved_to g t o (g_used g) (g_free g) = g).
  { unfold moved_to. rewrite list_insert_id by done. by destruct g. }
  assert (Hch : forall w, a ∉ chain w g) by (intros w; by apply (own_not_chain v N K s ps g t o)).
  exists (Go p'), (wrote a x). split; [done|]. exists g. split.
  - rewrite <- Eg. apply (stack_inv_move v N K s ps g t p p' o o); rewrite ?Eg; try done.
    + simpl. rewrite length_insert. apply HI.
    + intros b Hb. simpl. apply list_lookup_insert_ne. by intros ->.
    + intros w. left. by destruct w.
    + intros b y Hb Hy. simpl in Hy. destruct (decide (b = a)) as [->|Hne].
      * rewrite list_lookup_insert_eq in Hy by (by rewrite (i_size _ _ _ _ _ _ HI)). by simplify_eq.
      * rewrite list_lookup_insert_ne in Hy by done. by apply (i_closed _ _ _ _ _ _ HI b).
    + intros w. pose proof (i_chain _ _ _ _ _ _ HI w) as Hs.
      replace (head (lst w (wrote a x))) with (head (lst w s)) by by destruct w.
      eapply seg_ext; [|exact Hs]. intros b Hb. simpl. apply list_lookup_insert_ne. intros ->. by apply (Hch w).
    + intros w. pose proof (i_cnt _ _ _ _ _ _ HI w). destruct w; simpl in *; lia.
    + intros w. rewrite Hd. by destruct w.
    + intros w. pose proof (i_len _ _ _ _ _ _ HI w). by destruct w.
  - left. apply abs_same with p; [done|done|]. simpl. apply vals_insert. apply (Hch Used).
Qed.

Lemma fill_facts objs first last i k tmp o t :
  g_own g !! t = Some o -> fill_ok (elems s) objs first last i k tmp o ->
  exists a x, tmp = Some a /\ o !! i = Some a /\ a ∈ o /\ (a < N)%nat /\ elems s !! a = Some x.
Proof.
  intros Ho ([m (Hs & Hl & _)] & Hi & Ht & _).
  destruct (lookup_lt_is_Some_2 o i ltac:(lia)) as [a Ha].
  assert (a ∈ o) as Hin by (by eapply list_elem_of_lookup_2).
  destruct (seg_in _ _ _ _ _ Hs Hin) as [x Hx]. exists a, x.
  split; [by rewrite <- Ht|]. do 2 (split; [done|]). split; [|done].
  rewrite <- (i_size _ _ _ _ _ _ HI). by eapply lookup_lt_Some.
Qed.

Lemma FillData_sim t objs first last i tmp z :
  ps !! t = Some (FillData objs first last i tmp) -> steps_to z t (FillData objs first last i tmp).
Proof.
  intros Hp. destruct (own_of _ _ _ _ _ _ _ _ HI Hp) as (o & Ho & F). simpl in F.
  destruct (fill_facts _ _ _ _ _ _ _ _ Ho F) as (a & x & -> & Hai & Hin & Ha & Hx).
  pose proof F as ([m (Hs & Hl & Hlast)] & Hi & _ & Hv).
  destruct (lookup_lt_is_Some_2 objs (length objs - i - 1) ltac:(lia)) as [d Hd].
  apply (wrote_sim t _ (FillNext objs first last i (Some a)) o a (mk_elem d (next x))); try done.
  - exact (i_closed _ _ _ _ _ _ HI a x Hx).
  - unfold thread_step. simpl. by rewrite Hx, Hd.
  - simpl. split; [|split; [done|split; [done|]]].
    + exists m. split; [by apply seg_data|done].
    + pose proof (own_NoDup _ _ _ _ _ _ _ _ HI Ho) as Hnd.
      assert (reverse objs !! i = Some d) as Hr.
      { rewrite reverse_lookup by done. rewrite <- Hd. f_equal. lia. }
      unfold vals in *. rewrite (take_S_r _ _ d Hr), <- Hv.
      rewrite (take_S_r _ _ d).
      2: { rewrite list_lookup_fmap, Hai. simpl. unfold val.
           by rewrite list_lookup_insert_eq by (by rewrite (i_size _ _ _ _ _ _ HI)). }
      f_equal. rewrite <- !fmap_take. apply (vals_insert (elems s)). intros Hb.
      apply elem_of_take in Hb as (j & Hj & Hji).
      pose proof (NoDup_lookup _ _ _ _ Hnd Hj Hai). lia.
Qed.

Lemma FillNext_sim t objs first last i tmp z :
  ps !! t = Some (FillNext objs first last i tmp) -> steps_to z t (FillNext objs first last i tmp).
Proof.
  intros Hp. destruct (own_of _ _ _ _ _ _ _ _ HI Hp) as (o & Ho & F). simpl in F.
  destruct (fill_facts _ _ _ _ _ _ _ _ Ho F) as (a & x & -> & Hai & Hin & Ha & Hx).
  pose proof F as ([m (Hs & Hl & Hlast)] & Hi & _ & Hv).
  destruct (Nat.eqb_spec (Datatypes.S i) (length objs)) as [E|E].
  - apply (look_sim t _ (Pushing (CPush objs) first last [] PTop) o); try done.
    + unfold thread_step. cbn [mbind option_bind]. rewrite Hx. cbn [mbind option_bind]. by rewrite (proj2 (Nat.eqb_eq _ _) E).
    + simpl. split; [lia|]. split; [by exists m|]. split; [done|]. intros _.
      rewrite E in Hv. rewrite !take_ge in Hv; [done|by rewrite length_reverse|].
      unfold vals. by rewrite length_fmap, Hl.
  - apply (look_sim t _ (FillData objs first last (Datatypes.S i) (next x)) o); try done.
    + unfold thread_step. cbn [mbind option_bind]. rewrite Hx. cbn [mbind option_bind]. by rewrite (proj2 (Nat.eqb_neq _ _) E).
    + simpl. split; [by exists m|]. split; [lia|]. split; [|done].
      destruct (lookup_lt_is_Some_2 o (Datatypes.S i) ltac:(lia)) as [b Hb].
      by rewrite (seg_next _ _ _ _ i a x Hs Hai Hx), Hb.
Qed.

(** *** [__rte_stack_lf_push_elems] *)

Lemma push_look t c first last tbl q q' o z :
  ps !! t = Some (Pushing c first last tbl q) -> g_own g !! t = Some o ->
  __rte_stack_lf_push_elems first last (call_n c) q (lst (dst c) s) (elems s)
  = Some (Some q', lst (dst c) s, elems s) ->
  q <> PAdd -> q' <> PAdd ->
  local v N s g (Pushing c first last tbl q') o -> steps_to z t (Pushing c first last tbl q).
Proof.
  intros Hp Ho E Hq Hq' Hl. apply (look_sim t _ (Pushing c first last tbl q') o); try done.
  - unfold thread_step. rewrite E. simpl. rewrite set_lst_id. by destruct s.
  - intros w. by destruct q, q'.
  - destruct c; [|done]. by destruct q, q'.
Qed.

Lemma PTop_sim t c first last tbl z :
  ps !! t = Some (Pushing c first last tbl PTop) -> steps_to z t (Pushing c first last tbl PTop).
Proof.
  intros Hp. destruct (own_of _ _ _ _ _ _ _ _ HI Hp) as (o & Ho & Hn & Hl & Hc).
  apply (push_look t c first last tbl PTop (PCnt (top (head (lst (dst c) s)))) o); try done.
  simpl. split; [done|]. split; [split; [by apply (top_valid v N K s ps g)|done]|].
  destruct c; [|done]. destruct Hc as [-> Hc]. split; [done|]. intros _. by apply Hc.
Qed.

Lemma PCnt_sim t c first last tbl tp z :
  ps !! t = Some (Pushing c first last tbl (PCnt tp)) -> steps_to z t (Pushing c first last tbl (PCnt tp)).
Proof.
  intros Hp. destruct (own_of _ _ _ _ _ _ _ _ HI Hp) as (o & Ho & Hn & Hl & Hc).
  apply (push_look t c first last tbl (PCnt tp) (PNext (mk_head tp (cnt (head (lst (dst c) s))))) o); try done.
  simpl. split; [done|]. split; [exact Hl|].
  destruct c; [|done]. destruct Hc as [-> Hc]. split; [done|]. intros _. by apply Hc.
Qed.

Lemma split_last (o : list nat) n : length o = n -> (1 <= n)%nat -> exists f a, o = f ++ [a] /\ o !! (n - 1)%nat = Some a.
Proof.
  intros Hl Hn. destruct o as [|a f _] using rev_ind; [simpl in *; lia|]. exists f, a.
  split; [done|]. rewrite length_app in Hl. simpl in Hl. rewrite lookup_app_r by lia.
  by replace (n - 1 - length f)%nat with 0%nat by lia.
Qed.

Lemma PNext_sim t c first last tbl h z :
  ps !! t = Some (Pushing c first last tbl (PNext h)) -> steps_to z t (Pushing c first last tbl (PNext h)).
Proof.
  intros Hp. destruct (own_of _ _ _ _ _ _ _ _ HI Hp) as (o & Ho & Hn & (Ht & m & Hs & Hl & Hlast) & Hc).
  destruct (split_last o _ Hl Hn) as (f & a & Eo & Ea). rewrite Ea in Hlast.
  assert (a ∈ o) as Hin by (by eapply list_elem_of_lookup_2).
  destruct (seg_in _ _ _ _ _ Hs Hin) as [x Hx].
  assert (a < N)%nat as Ha by (rewrite <- (i_size _ _ _ _ _ _ HI); by eapply lookup_lt_Some).
  pose proof (own_NoDup _ _ _ _ _ _ _ _ HI Ho) as Hnd.
  apply (wrote_sim t _ (Pushing c first last tbl (PCas h)) o a (mk_elem (data x) (top h))); try done.
  - unfold thread_step. simpl. rewrite Hlast. simpl. rewrite Hx. simpl. rewrite set_lst_id. done.
  - simpl. split; [done|]. split.
    + split; [|by rewrite Hlast, Ea]. rewrite Eo in *. by apply (seg_relink _ _ _ _ x m).
    + destruct c; [|done]. destruct Hc as [-> Hc]. split; [done|]. intros _.
      rewrite <- (Hc ltac:(done)). unfold vals. apply list_fmap_ext. intros i b Hb. unfold val.
      destruct (decide (b = a)) as [->|Hne]; [|by rewrite list_lookup_insert_ne].
      by rewrite list_lookup_insert_eq, Hx by (by rewrite (i_size _ _ _ _ _ _ HI)).
Qed.

(** The elements are linked in front of a list. *)
Definition given (w : which) (first : ptr) : rte_stack_lf :=
  set_lst w (mk_list (mk_head first (cnt (head (lst w s)) + 1)) (len (lst w s))) s.

Definition given_ghost (w : which) (o : list nat) (t : nat) : ghost :=
  match w with
  | Used => moved_to g t [] (o ++ g_used g) (g_free g)
  | Free => moved_to g t [] (g_used g) (o ++ g_free g)
  end.

Lemma given_inv c t first last tbl o :
  let p' := Pushing c first last tbl PAdd in
  ps !! t = Some (Pushing c first last tbl (PCas (head (lst (dst c) s)))) -> g_own g !! t = Some o ->
  linked (elems s) (call_n c) first last o (top (head (lst (dst c) s))) ->
  local v N (given (dst c) first) (given_ghost (dst c) o t) p' [] ->
  inv v N (K + 1) (given (dst c) first) (<[t := p']> ps) (given_ghost (dst c) o t).
Proof.
  intros p' Hp Ho (Hs & Hlen & _) Hl.
  assert (given_ghost (dst c) o t = moved_to g t [] (chain Used (given_ghost (dst c) o t))
            (chain Free (given_ghost (dst c) o t))) as Eg by (by destruct c).
  rewrite Eg in *.
  apply (stack_inv_move v N K s ps g t (Pushing c first last tbl (PCas (head (lst (dst c) s)))) p' o []); try done.
  - destruct c; apply HI.
  - intros a _. by destruct c.
  - intros w. pose proof (i_cnt _ _ _ _ _ _ HI w). destruct c, w; simpl in *; (left; done) || (right; lia).
  - rewrite app_nil_r. destruct c; simpl; unfold given_ghost; simpl.
    + rewrite Permutation_app_comm, (Permutation_app_comm o), !app_assoc.
      by rewrite (Permutation_app_comm (g_free g)).
    + by rewrite (Permutation_app_comm o).
  - intros a x _ Hx. apply (i_closed _ _ _ _ _ _ HI a). by destruct c.
  - intros w. pose proof (i_chain _ _ _ _ _ _ HI w) as Hw.
    destruct c, w; simpl in *; try done; apply seg_app; by eexists.
  - intros w. pose proof (i_cnt _ _ _ _ _ _ HI w). destruct c, w; simpl in *; lia.
  - intros w. destruct c, w; simpl in *; rewrite ?length_app; lia.
  - intros w. pose proof (i_len _ _ _ _ _ _ HI w). by destruct c, w.
Qed.

Lemma PCas_sim t c first last tbl h z :
  ps !! t = Some (Pushing c first last tbl (PCas h)) -> steps_to z t (Pushing c first last tbl (PCas h)).
Proof.
  intros Hp. destruct (own_of _ _ _ _ _ _ _ _ HI Hp) as (o & Ho & Hn & Hl & Hc).
  destruct (decide (head (lst (dst c) s) = h)) as [<-|Hne].
  2: { apply (push_look t c first last tbl (PCas h) (PNext (head (lst (dst c) s))) o); try done.
       - unfold __rte_stack_lf_push_elems. by rewrite decide_False by done.
       - simpl. split; [done|]. split; [split; [by apply (top_valid v N K s ps g)|by exists (top h)]|].
         destruct c; [|done]. destruct Hc as [-> Hc]. split; [done|]. intros _. by apply Hc. }
  exists (Go (Pushing c first last tbl PAdd)), (given (dst c) first). split.
  { unfold thread_step, __rte_stack_lf_push_elems. rewrite decide_True by done. simpl.
    rewrite cnt_small. by destruct c. }
  exists (given_ghost (dst c) o t). split.
  - apply (given_inv c t first last tbl o); try done. simpl. split; [done|]. split; [done|].
    destruct c; [|done]. by destruct Hc.
  - destruct c as [objs|tb].
    + right. rewrite abs_step. destruct Hc as [-> Hc].
      replace (vals _ _) with (reverse objs ++ a_stack (abs s ps g)).
      * apply (st_push N (abs s ps g) t objs); [by rewrite (abs_thread s ps g t _ Hp)|].
        pose proof (sizes _ _ _ _ _ _ HI) as Hsz. destruct Hl as (_ & Hol & _). simpl in *.
        rewrite (Permutation_length (concat_insert_nil _ _ _ Ho)), length_app in Hsz.
        unfold vals. rewrite length_fmap. lia.
      * simpl. unfold vals. rewrite fmap_app. f_equal. symmetry. by apply Hc.
    + left. by apply abs_same with (Pushing (CPop tb) first last tbl (PCas (head (lst (dst (CPop tb)) s)))).
Qed.

Lemma PAdd_sim t c first last tbl z :
  ps !! t = Some (Pushing c first last tbl PAdd) -> steps_to z t (Pushing c first last tbl PAdd).
Proof.
  intros Hp. destruct (own_of _ _ _ _ _ _ _ _ HI Hp) as (o & Ho & Hn & -> & Hc).
  set (w := dst c). set (s' := set_lst w (mk_list (head (lst w s)) (len (lst w s) + Z.of_nat (call_n c))) s).
  assert (Hd : debt w (Pushing c first last tbl PAdd) = call_n c) by (unfold w; by destruct c).
  exists (Return (call_n c) tbl), s'. split.
  { unfold thread_step. simpl. fold w.
    pose proof (total_insert (debt w) ps t _ Idle Hp) as E. rewrite Hd in E. change (debt w Idle) with 0%nat in E.
    pose proof (i_debt _ _ _ _ _ _ HI w) as D. pose proof (chain_len _ _ _ _ _ _ w HI).
    pose proof (i_len _ _ _ _ _ _ HI w).
    rewrite wrap_small by (unfold fits; lia). unfold s'. by destruct c. }
  exists g. split.
  - apply (inv_stay v N K s ps g t (Pushing c first last tbl PAdd) Idle []); try done.
    + by destruct c.
    + intros w'. by destruct c, w'.
    + intros w'. destruct c, w'; simpl; lia.
    + intros w'. pose proof (i_len _ _ _ _ _ _ HI w'). destruct c, w'; simpl in *; lia.
  - rewrite abs_step. replace (vals (elems s') (g_used g)) with (a_stack (abs s ps g)) by (unfold s'; by destruct c).
    apply (st_return N (abs s ps g) t c tbl). rewrite (abs_thread s ps g t _ Hp).
    destruct c; [|done]. simpl. by destruct Hc as [-> _].
Qed.

(** ** Every step *)

Theorem thread_sim t p z :
  v = Generic \/ garbage z = false -> ps !! t = Some p -> p <> Idle -> steps_to z t p.
Proof.
  intros Hz Hp Hi. destruct p as [|c|c q|objs first last i tmp|objs first last i tmp|c first last tbl q]; [done|..].
  - by apply Entry_sim.
  - destruct q; [by apply LdLen_sim|by apply CasLen_sim|by apply LdTop_sim|by apply LdCnt_sim
      |by apply RdData_sim|by apply RdNext_sim|by apply CasHead_sim].
  - by apply FillData_sim.
  - by apply FillNext_sim.
  - destruct q; [by apply PTop_sim|by apply PCnt_sim|by apply PNext_sim|by apply PCas_sim|by apply PAdd_sim].
Qed.
End steps.
