(* ===== verification/StackThm.v ===== *)
(** * The stack: theorems

    Linearizability and progress of the lock-free stack, the sequential contract
    of both stacks, and what the model shows about the source. *)
From stdpp Require Import prelude list numbers.
From S2P Require Import Prelude Locks Stack StackSpec StackSim.
Open Scope Z_scope.

(** ** Runs *)

Section runs.
Context (v : variant) (N : nat).
Hypothesis HN : Z.of_nat N < 2 ^ 32.

Lemma exec1_sim K c g a :
  inv v N K (lf c) (pcs c) g -> K + 1 < 2 ^ 64 -> v = Generic \/ garbage (a_noise a) = false ->
  exists e c' g', exec1 v a c = Some (e, c') /\ inv v N (K + 1) (lf c') (pcs c') g'
    /\ (e = None /\ abs (lf c') (pcs c') g' = abs (lf c) (pcs c) g
        \/ astep N (abs (lf c) (pcs c) g) e (abs (lf c') (pcs c') g')).
Proof.
  intros I HK Hz. unfold exec1. destruct (pcs c !! a_thread a) as [p|] eqn:Hp.
  2: { exists None, c, g. split; [done|]. split; [|by left]. destruct I. split; try done.
       intros w. pose proof (i_cnt w). lia. }
  assert (p = Idle \/ p <> Idle) as [->|Hi] by (destruct p; (by left) || (by right)).
  - eexists _, _, g. split; [reflexivity|]. simpl.
    destruct (own_of _ _ _ _ _ _ _ _ I Hp) as (o & Ho & ->). split.
    + apply (inv_stay v N K (lf c) (pcs c) g (a_thread a) Idle (Entry (a_call a)) []); try done. apply I.
    + right. rewrite (abs_step (lf c) (pcs c) g). apply (st_call N (abs (lf c) (pcs c) g)).
      by rewrite (abs_thread _ _ _ _ _ Hp).
  - destruct (thread_sim v N K (lf c) (pcs c) g I HK HN (a_thread a) p (a_noise a) Hz Hp Hi)
      as (r & s' & E & g' & H).
    assert (match p with
            | Idle => Some (Some (EvCall (a_thread a) (a_call a)),
                        mk_conf (lf c) (<[a_thread a := Entry (a_call a)]> (pcs c)))
            | _ => '(r, s) ← thread_step v (a_noise a) p (lf c) ;
                Some (match r with
                      | Go p' => (None, mk_conf s (<[a_thread a := p']> (pcs c)))
                      | Return n tbl => (Some (EvReturn (a_thread a) n tbl), mk_conf s (<[a_thread a := Idle]> (pcs c)))
                      end)
            end = Some (match r with
                        | Go p' => (None, mk_conf s' (<[a_thread a := p']> (pcs c)))
                        | Return n tbl => (Some (EvReturn (a_thread a) n tbl), mk_conf s' (<[a_thread a := Idle]> (pcs c)))
                        end)) as -> by (destruct p; try done; by rewrite E).
    destruct r as [p'|n tbl]; (eexists _, _, g'; split; [reflexivity|]).
    + destruct H as [I' [H|H]]; (split; [exact I'|]); [by left|by right].
    + destruct H as [I' H]. split; [exact I'|]. by right.
Qed.

Lemma arun_app a es1 a1 es2 a2 : arun N a es1 a1 -> arun N a1 es2 a2 -> arun N a (es1 ++ es2) a2.
Proof.
  intros R1 R2. induction R1 as [|a e es a1 a3 S1 R1 IH]; [done|]. rewrite <- app_assoc.
  eapply ar_step; [exact S1|by apply IH].
Qed.

Lemma exec_sim sched : forall K c g,
  inv v N K (lf c) (pcs c) g -> K + Z.of_nat (length sched) < 2 ^ 64 ->
  v = Generic \/ Forall (fun a => garbage (a_noise a) = false) sched ->
  exists es c' g', exec v sched c = Some (es, c')
    /\ inv v N (K + Z.of_nat (length sched)) (lf c') (pcs c') g'
    /\ arun N (abs (lf c) (pcs c) g) es (abs (lf c') (pcs c') g').
Proof.
  induction sched as [|a sched IH]; intros K c g I HK Hz; cbn [length exec] in *.
  { exists [], c, g. rewrite Z.add_0_r. split; [done|]. split; [done|constructor]. }
  assert (v = Generic \/ garbage (a_noise a) = false) as Ha
    by (destruct Hz as [|Hz]; [by left|right; by inversion Hz]).
  assert (v = Generic \/ Forall (fun a => garbage (a_noise a) = false) sched) as Hs
    by (destruct Hz as [|Hz]; [by left|right; by inversion Hz]).
  destruct (exec1_sim K c g a I ltac:(lia) Ha) as (e & c1 & g1 & E1 & I1 & S1). rewrite E1.
  destruct (IH (K + 1) c1 g1 I1 ltac:(lia) Hs) as (es & c2 & g2 & E2 & I2 & S2).
  exists (option_list e ++ es), c2, g2. cbn [mbind option_bind]. rewrite E2. split; [done|].
  replace (K + Z.of_nat (Datatypes.S (length sched))) with (K + 1 + Z.of_nat (length sched)) by lia.
  split; [done|]. destruct S1 as [[-> E]|S1]; [by rewrite E in S2|]. by eapply ar_step.
Qed.
End runs.

(** ** A stack at rest *)

(** The lists of [s] hold the [N] elements, [used] those with the pointers [l];
    the heads have moved at most [K] times. *)
Record at_rest (N : nat) (K : Z) (s : rte_stack_lf) (l : list Z) : Prop := {
  ar_elems : length (elems s) = N;
  ar_lists : exists u f, u ++ f ≡ₚ seq 0 N /\ vals (elems s) u = l
    /\ seg (elems s) (top (head (used s))) u None /\ seg (elems s) (top (head (free s))) f None
    /\ len (used s) = Z.of_nat (length u) /\ len (free s) = Z.of_nat (length f);
  ar_links : forall a x, elems s !! a = Some x -> forall b, next x = Some b -> (b < N)%nat;
  ar_cnt : 0 <= cnt (head (used s)) <= K /\ 0 <= cnt (head (free s)) <= K
}.

Lemma at_rest_weaken N K K' s l : at_rest N K s l -> K <= K' -> at_rest N K' s l.
Proof. intros [H1 H2 H3 H4] HK. split; try done. lia. Qed.

Lemma at_rest_inv v N K s l k :
  at_rest N K s l -> exists g, inv v N K s (replicate k Idle) g
    /\ abs s (replicate k Idle) g = mk_aconf l (replicate k AIdle).
Proof.
  intros [H1 (u & f & Hp & Hv & Su & Sf & Lu & Lf) H3 H4]. exists (mk_ghost u f (replicate k [])).
  assert (total (debt Used) (replicate k Idle) = 0 /\ total (debt Free) (replicate k Idle) = 0)%nat as [T1 T2]
    by (clear; induction k; simpl; [done|]; lia).
  assert (concat (replicate k (@nil nat)) = []) as Ec by (clear; by induction k).
  split.
  - split; simpl; try done.
    + by rewrite !length_replicate.
    + by rewrite Ec, app_nil_r.
    + by intros [].
    + intros []; simpl; lia.
    + intros []; simpl; [rewrite T1|rewrite T2]; lia.
    + intros []; simpl; lia.
    + intros t p o Ht Ho. apply lookup_replicate in Ht as [-> _]. by apply lookup_replicate in Ho as [-> _].
  - unfold abs. simpl. rewrite Hv. f_equal. clear. induction k; simpl; [done|]. by f_equal.
Qed.

Lemma inv_at_rest v N K s ps g :
  inv v N K s ps g -> Forall (fun p => p = Idle) ps -> at_rest N K s (vals (elems s) (g_used g)).
Proof.
  intros I Hi.
  assert (forall w, total (debt w) ps = 0%nat) as T.
  { intros w. clear I. induction Hi as [|p ps -> _ IH]; simpl; [done|]. by rewrite IH. }
  assert (concat (g_own g) = []) as Ec.
  { pose proof (i_threads _ _ _ _ _ _ I) as Hl. pose proof (i_local _ _ _ _ _ _ I) as L. clear I T.
    revert Hl L. generalize (g_own g). induction Hi as [|p ps -> _ IH]; intros [|o O] Hl L; try done.
    simpl. rewrite (L 0%nat Idle o eq_refl eq_refl). apply IH; [by injection Hl|].
    intros t p o' Hp Ho. by apply (L (Datatypes.S t)). }
  split.
  - apply I.
  - exists (g_used g), (g_free g). pose proof (i_perm _ _ _ _ _ _ I) as P. rewrite Ec, app_nil_r in P.
    pose proof (i_debt _ _ _ _ _ _ I Used) as D1. pose proof (i_debt _ _ _ _ _ _ I Free) as D2.
    rewrite T in D1, D2. simpl in *. split; [done|]. split; [done|].
    split; [apply (i_chain _ _ _ _ _ _ I Used)|]. split; [apply (i_chain _ _ _ _ _ _ I Free)|]. lia.
  - intros a x Hx b Hb. by apply (i_closed _ _ _ _ _ _ I a x Hx).
  - split; [apply (i_cnt _ _ _ _ _ _ I Used)|apply (i_cnt _ _ _ _ _ _ I Free)].
Qed.

(** The count never shows more than the stack holds. *)
Lemma count_le v N K s ps g :
  inv v N K s ps g -> Z.of_nat N < 2 ^ 32 ->
  0 <= __rte_stack_lf_count s <= Z.of_nat (length (a_stack (abs s ps g))).
Proof.
  intros I HN. pose proof (i_debt _ _ _ _ _ _ I Used) as D. pose proof (i_len _ _ _ _ _ _ I Used).
  pose proof (chain_len _ _ _ _ _ _ Used I). simpl in *. unfold __rte_stack_lf_count, vals.
  rewrite length_fmap, wrap_small; [lia|unfold fits; lia].
Qed.

(** ** Progress *)

(** How many steps a thread needs at most when it runs alone. *)
Definition work (s : rte_stack_lf) (p : pc) : nat :=
  match p with
  | Idle => 0
  | Entry c => 4 * call_n c + 13
  | Popping c q =>
      let n := call_n c in
      let f := (4 * n + 8)%nat in
      let l := lst (src c) s in
      let fresh w := bool_decide (old_head w = head l) in
      match q with
      | LdLen _ => f + 4
      | CasLen x _ => if (len l =? x)%Z then f + 3 else f + 5
      | LdTop _ _ _ => f + 2
      | LdCnt _ _ t _ => if bool_decide (t = top (head l)) then f + 1 else f + 4 + 2 * n
      | RdData w i _ _ => if fresh w then 2 * n + 8 + 2 * (n - i) else f + 3 + 2 * (n - i)
      | RdNext w i _ _ => if fresh w then 2 * n + 7 + 2 * (n - i) else f + 2 + 2 * (n - i)
      | CasHead w _ _ _ => if fresh w then 2 * n + 8 else f + 1
      end
  | FillData objs _ _ i _ => 7 + 2 * (length objs - i)
  | FillNext objs _ _ i _ => 6 + 2 * (length objs - i)
  | Pushing c _ _ _ q =>
      let l := lst (dst c) s in
      match q with
      | PTop => 7
      | PCnt _ => 6
      | PNext h => if bool_decide (h = head l) then 3 else 5
      | PCas h => if bool_decide (h = head l) then 2 else 4
      | PAdd => 1
      end
  end%nat.

Lemma work_bound s p : (work s p <= 6 * astat_n (astat_of p) + 13)%nat.
Proof.
  destruct p as [|c|c q|o f l i t|o f l i t|c f l t q]; simpl; try lia.
  - destruct q; simpl; repeat (case_match || case_bool_decide); lia.
  - destruct c, q; simpl; repeat case_bool_decide; lia.
Qed.

Section progress.
Context (v : variant) (N : nat) (K : Z) (s : rte_stack_lf) (ps : list pc) (g : ghost).
Hypothesis HI : inv v N K s ps g.
Hypothesis HK : K + 1 < 2 ^ 64.

(** A thread that has reserved finds the elements, as long as the head stays. *)
Lemma reserved_enough t c q :
  ps !! t = Some (Popping c q) -> debt (src c) (Popping c q) = call_n c ->
  (call_n c <= length (chain (src c) g))%nat.
Proof.
  intros Hp Hd. pose proof (total_insert (debt (src c)) ps t _ Idle Hp) as E. rewrite Hd in E.
  change (debt (src c) Idle) with 0%nat in E.
  pose proof (i_debt _ _ _ _ _ _ HI (src c)). pose proof (i_len _ _ _ _ _ _ HI (src c)). lia.
Qed.

(** The work left at the test of the traversal. *)
Lemma at_loop_work c i w tmp last tbl :
  let l := lst (src c) s in let n := call_n c in
  (i <= n)%nat -> (old_head w = head l -> (i < n)%nat -> is_Some tmp) ->
  (work s (Popping c (at_loop (wants_data c) n i w tmp last tbl))
   <= if bool_decide (old_head w = head l) then 2 * n + 8 + 2 * (n - i) else 4 * n + 8 + 3 + 2 * (n - i))%nat.
Proof.
  intros l n Hi H. unfold at_loop. destruct (Nat.eqb_spec i n) as [->|Ne].
  - simpl. fold l n. case_bool_decide; lia.
  - destruct tmp as [a|]; [destruct (wants_data c); simpl; fold l n; case_bool_decide; lia|].
    simpl. fold l n. case_bool_decide as E; [|lia]. destruct (H E ltac:(lia)) as [x Hx]; done.
Qed.

Lemma next_is_some e l i a x :
  seg e (l !! 0%nat) l None -> l !! i = Some a -> e !! a = Some x -> (Datatypes.S i < length l)%nat ->
  is_Some (next x).
Proof.
  intros Hs Ha Hx Hi. rewrite (seg_next _ _ _ _ i a x Hs Ha Hx).
  destruct (lookup_lt_is_Some_2 l (Datatypes.S i) Hi) as [b ->]. by exists b.
Qed.

Lemma pop_work t c q z r l' :
  v = Generic \/ garbage z = false -> ps !! t = Some (Popping c q) ->
  __rte_stack_lf_pop_elems v z (wants_data c) (call_n c) q (lst (src c) s) (elems s) = Some (PGo r, l') ->
  (work (set_lst (src c) l' s) (Popping c r) < work s (Popping c q) + Nat.b2n (spurious z))%nat.
Proof.
  intros Hz Hp E. destruct (src_local v N K s ps g HI t c q Hp) as (Ho & Hn & Hq).
  pose proof (i_chain _ _ _ _ _ _ HI (src c)) as Hs. rewrite (top_chain v N K s ps g HI) in Hs.
  assert (Hid : lst (src c) (set_lst (src c) l' s) = l') by (by destruct c).
  destruct q as [tbl|x tbl|st ag tbl|st ag tp tbl|w i a tbl|w i a tbl|w tmp last tbl]; simpl in E, Hq.
  - case_match; [done|]. simplify_eq. rewrite set_lst_id. simpl. rewrite Z.eqb_refl. lia.
  - destruct (len (lst (src c) s) =? x) eqn:Ex; cbn [andb] in E.
    + destruct v; cbn [negb] in E; [simplify_eq; cbn [work]; rewrite Ex; lia|].
      destruct (spurious z); cbn [negb] in E; [|simplify_eq; cbn [work]; rewrite Ex; lia].
      case_match; [done|]. simplify_eq. rewrite set_lst_id. cbn [work Nat.b2n]. rewrite Ex, Z.eqb_refl. lia.
    + destruct v; [simplify_eq; rewrite set_lst_id; cbn [work]; rewrite Ex; lia|].
      case_match; [done|]. simplify_eq. rewrite set_lst_id. cbn [work]. rewrite Ex, Z.eqb_refl. lia.
  - simplify_eq. rewrite set_lst_id. cbn [work]. rewrite bool_decide_true by done. lia.
  - assert (exists last, r = at_loop (wants_data c) (call_n c) 0
        (mk_walk (mk_head tp (cnt (head (lst (src c) s)))) st) tp last tbl /\ l' = lst (src c) s) as (last & -> & ->).
    { destruct ag as [la|]; [|simplify_eq; by eexists]. destruct Hq as [Hst _].
      destruct Hz as [Hv|Hg]; [by destruct (Hst Hv)|]. rewrite Hg in E. simplify_eq. by eexists. }
    rewrite set_lst_id. pose proof (at_loop_work c 0 (mk_walk (mk_head tp (cnt (head (lst (src c) s)))) st)
      tp last tbl ltac:(lia)) as H. cbn [old_head] in H.
    assert (bool_decide (mk_head tp (cnt (head (lst (src c) s))) = head (lst (src c) s))
            = bool_decide (tp = top (head (lst (src c) s)))) as Eb.
    { apply bool_decide_ext. destruct (head (lst (src c) s)). simpl. split; congruence. }
    rewrite Eb in H. clear Eb. pose proof (reserved_enough t c _ Hp ltac:(by destruct c)) as Hr.
    specialize (H ltac:(intros Eh _; assert (tp = chain (src c) g !! 0%nat) as -> by
      (by rewrite <- (top_chain v N K s ps g HI), <- Eh); apply lookup_lt_is_Some; lia)).
    eapply Nat.le_lt_trans; [exact H|]. cbn [work]. case_bool_decide; lia.
  - apply bind_Some in E as (x & Hx & E). simplify_eq. rewrite set_lst_id. cbn [work]. destruct Hq as (_ & Hi & _).
    case_bool_decide; lia.
  - apply bind_Some in E as (x & Hx & E). simplify_eq. rewrite set_lst_id.
    destruct Hq as (_ & Hi & Ha & _ & H).
    assert (Hx' : old_head w = head (lst (src c) s) -> (Datatypes.S i < call_n c)%nat -> is_Some (next x)).
    { intros Eh Hlt. destruct (H Eh) as [H1 _]. apply (next_is_some (elems s) (chain (src c) g) i a x Hs H1 Hx).
      pose proof (reserved_enough t c _ Hp ltac:(by destruct c)). lia. }
    pose proof (at_loop_work c (Datatypes.S i) w (next x) (Some a) tbl ltac:(lia) Hx') as Hle.
    eapply Nat.le_lt_trans; [exact Hle|]. cbn [work]. case_bool_decide; lia.
  - destruct (decide _) as [|Hne]; simplify_eq. rewrite set_lst_id.
    pose proof (reserved_enough t c _ Hp ltac:(by destruct c)) as Hr.
    pose proof (at_loop_work c 0 (mk_walk (head (lst (src c) s)) true) (top (head (lst (src c) s))) last tbl
      ltac:(lia) ltac:(intros _ Hlt; rewrite (top_chain v N K s ps g HI); apply lookup_lt_is_Some; lia)) as Hle.
    cbn [old_head] in Hle. rewrite bool_decide_true in Hle by done.
    eapply Nat.le_lt_trans; [exact Hle|]. cbn [work].
    rewrite (bool_decide_false (old_head w = _)) by congruence. lia.
Qed.

Lemma step_work t p z p' s' :
  v = Generic \/ garbage z = false -> ps !! t = Some p -> p <> Idle ->
  thread_step v z p s = Some (Go p', s') -> (work s' p' < work s p + Nat.b2n (spurious z))%nat.
Proof.
  intros Hz Hp Hi E. destruct p as [|c|c q|objs first last i tmp|objs first last i tmp|c first last tbl q]; [done|..].
  - cbn [thread_step] in E. destruct (call_n c =? 0)%nat; simplify_eq. cbn [work]. simpl src. lia.
  - unfold thread_step in E. apply bind_Some in E as ([r l'] & Er & E). destruct r as [q'| |f la tb].
    + simplify_eq. by apply (pop_work t c q z q' l').
    + simplify_eq.
    + destruct q as [tbl|x tbl|st ag tbl|st ag tp tbl|w i a tbl|w i a tbl|w tmp last tbl]; simpl in Er.
      * by case_match.
      * case_match; [done|]. destruct v; [done|]. by case_match.
      * done.
      * destruct ag as [lx|]; [|done]. destruct Hz as [Hv|Hg]; [|by rewrite Hg in Er].
        destruct (src_local v N K s ps g HI t c _ Hp) as (_ & _ & Hst & _). by destruct (Hst Hv).
      * by apply bind_Some in Er as (y & _ & ?).
      * by apply bind_Some in Er as (y & _ & ?).
      * destruct (decide _) as [Eh|]; [|done]. injection Er as <- <- <- <-.
        injection E as E <-. cbn [work]. rewrite bool_decide_true by done.
        unfold after_pop in E. destruct (top (old_head w)); [|done]. destruct c; simplify_eq; simpl; lia.
  - simpl in E. apply bind_Some in E as (a & -> & E). apply bind_Some in E as (x & _ & E).
    apply bind_Some in E as (d & _ & E). simplify_eq.
    destruct (own_of _ _ _ _ _ _ _ _ HI Hp) as (o & Ho & _ & Hlt & _). simpl. lia.
  - cbn [thread_step] in E. apply bind_Some in E as (a & -> & E). apply bind_Some in E as (x & _ & E).
    destruct (own_of _ _ _ _ _ _ _ _ HI Hp) as (o & Ho & _ & Hlt & _).
    destruct (Nat.eqb_spec (Datatypes.S i) (length objs)); simplify_eq; cbn [work]; lia.
  - unfold thread_step in E. apply bind_Some in E as ([[r l'] e'] & Er & E). destruct r as [q'|]; simplify_eq.
    assert (Hid : forall e, lst (dst c) (set_elems e (set_lst (dst c) l' s)) = l') by (by destruct c).
    cbn [work]. rewrite Hid. destruct q as [|tp|h|h|]; simpl in Er.
    + simplify_eq. lia.
    + simplify_eq. case_bool_decide; lia.
    + apply bind_Some in Er as (a & -> & Er). apply bind_Some in Er as (x & _ & Er). simplify_eq.
      case_bool_decide; lia.
    + destruct (decide _) as [Eh|Eh]; simplify_eq; [rewrite bool_decide_true by done; lia|].
      rewrite bool_decide_true by done. rewrite bool_decide_false by congruence. lia.
    + done.
Qed.
End progress.

Lemma step_not_idle v z p s p' s' :
  p <> Idle -> thread_step v z p s = Some (Go p', s') -> p' <> Idle.
Proof.
  intros Hi E. destruct p as [|c|c q|objs first last i tmp|objs first last i tmp|c first last tbl q]; [done|..].
  - cbn [thread_step] in E. by destruct (call_n c =? 0)%nat; simplify_eq.
  - unfold thread_step in E. apply bind_Some in E as ([[q'| |f la tb] l'] & _ & E); unfold after_pop in E;
      simplify_eq; try done. destruct f; simplify_eq. by destruct c.
  - cbn [thread_step] in E. apply bind_Some in E as (a & _ & E). apply bind_Some in E as (x & _ & E).
    apply bind_Some in E as (d & _ & E). by simplify_eq.
  - cbn [thread_step] in E. apply bind_Some in E as (a & _ & E). apply bind_Some in E as (x & _ & E).
    by destruct (_ =? _)%nat; simplify_eq.
  - unfold thread_step in E. apply bind_Some in E as ([[[q'|] l'] e'] & _ & E); by simplify_eq.
Qed.

Lemma solo_noisy_sim v N t (HN : Z.of_nat N < 2 ^ 32) zs : forall K s ps g p,
  v = Generic \/ Forall (fun z => garbage z = false) zs ->
  inv v N K s ps g -> ps !! t = Some p -> p <> Idle -> (work s p + failures zs < length zs)%nat ->
  K + Z.of_nat (length zs) < 2 ^ 64 ->
  exists r tbl s' g' n, solo_noisy v zs p s = Some (r, tbl, s') /\ (n <= length zs)%nat
    /\ inv v N (K + Z.of_nat n) s' (<[t := Idle]> ps) g'
    /\ arun N (abs s ps g) [EvReturn t r tbl] (abs s' (<[t := Idle]> ps) g').
Proof.
  induction zs as [|z zs IH]; intros K s ps g p Hzs I Hp Hi Hw HK; [simpl in Hw; lia|].
  cbn [length] in *. cbn [failures sum_list_with] in Hw. fold (failures zs) in Hw.
  assert (v = Generic \/ garbage z = false) as Hz
    by (destruct Hzs as [|Hzs]; [by left|]; inversion Hzs; by right).
  assert (v = Generic \/ Forall (fun z => garbage z = false) zs) as Hzs'
    by (destruct Hzs as [|Hzs]; [by left|]; inversion Hzs; by right).
  destruct (thread_sim v N K s ps g I ltac:(lia) HN t p z Hz Hp Hi) as (r & s1 & E & g1 & H).
  cbn [solo_noisy]. rewrite E. cbn [mbind option_bind]. destruct r as [p1|r tbl].
  - destruct H as [I1 H]. pose proof (step_work v N K s ps g I t p z p1 s1 Hz Hp Hi E) as Hlt.
    assert (Hp1 : <[t := p1]> ps !! t = Some p1) by (apply list_lookup_insert_eq; by eapply lookup_lt_Some).
    assert (p1 <> Idle) as Hi1.
    { by eapply step_not_idle. }
    destruct (IH (K + 1) s1 _ g1 p1 Hzs' I1 Hp1 Hi1 ltac:(lia) ltac:(lia))
      as (r & tbl & s2 & g2 & n & E2 & Hn & I2 & R2).
    rewrite list_insert_insert_eq in *. exists r, tbl, s2, g2, (Datatypes.S n). split; [exact E2|]. split; [lia|].
    replace (K + Z.of_nat (Datatypes.S n)) with (K + 1 + Z.of_nat n) by lia. split; [done|].
    destruct H as [E3|H]; [by rewrite E3 in R2|]. change ([EvReturn t r tbl]) with (option_list None ++ [EvReturn t r tbl]).
    by eapply ar_step.
  - destruct H as [I1 H]. exists r, tbl, s1, g1, 1%nat. split; [done|]. split; [lia|]. split; [done|].
    change ([EvReturn t r tbl]) with (option_list (Some (EvReturn t r tbl)) ++ []).
    eapply ar_step; [exact H|constructor].
Qed.

Lemma solo_replicate fuel v z p s : solo fuel v z p s = solo_noisy v (replicate fuel z) p s.
Proof.
  revert p s. induction fuel as [|fuel IH]; intros p s; [done|]. cbn [solo solo_noisy replicate].
  destruct (thread_step v z p s) as [[[p1|r tbl] s1]|]; try done. simpl. apply IH.
Qed.

Lemma failures_replicate fuel z : spurious z = false -> failures (replicate fuel z) = 0%nat.
Proof. intros Hz. induction fuel as [|fuel IH]; [done|]. unfold failures in *. simpl. by rewrite Hz, IH. Qed.

Lemma solo_sim v N z t (HN : Z.of_nat N < 2 ^ 32) (Hz : v = Generic \/ garbage z = false)
    (Hsp : spurious z = false) fuel : forall K s ps g p,
  inv v N K s ps g -> ps !! t = Some p -> p <> Idle -> (work s p < fuel)%nat ->
  K + Z.of_nat fuel < 2 ^ 64 ->
  exists r tbl s' g' n, solo fuel v z p s = Some (r, tbl, s') /\ (n <= fuel)%nat
    /\ inv v N (K + Z.of_nat n) s' (<[t := Idle]> ps) g'
    /\ arun N (abs s ps g) [EvReturn t r tbl] (abs s' (<[t := Idle]> ps) g').
Proof.
  intros K s ps g p I Hp Hi Hw HK. rewrite solo_replicate.
  destruct (solo_noisy_sim v N t HN (replicate fuel z) K s ps g p)
    as (r & tbl & s' & g' & n & E & Hn & HR); rewrite ?failures_replicate, ?length_replicate in *; try done; try lia.
  - destruct Hz as [|Hz]; [by left|right; by apply Forall_replicate].
  - eauto 10.
Qed.
