(* ===== verification/StackSeq.v ===== *)
(** * The stack as one thread sees it

    Both kinds of [rte_stack] are a bounded last-in first-out list. *)
From stdpp Require Import prelude list numbers.
From S2P Require Import Prelude Locks Stack StackSpec StackSim StackThm.
Open Scope Z_scope.

(** ** The lock-free stack *)

(** What a call alone on the abstract stack does. *)
Definition alone (cap : nat) (l : list Z) (c : call) (r : nat) (tbl : list Z) (l' : list Z) : Prop :=
  match c with
  | CPush objs =>
      (r = length objs /\ (length l + length objs <= cap)%nat /\ l' = reverse objs ++ l)
      \/ (r = 0%nat /\ l' = l /\ (length objs = 0 \/ cap < length l + length objs)%nat)
  | CPop t =>
      (r = length t /\ (length t <= length l)%nat /\ tbl = take (length t) l /\ l' = drop (length t) l)
      \/ (r = 0%nat /\ l' = l /\ tbl = t /\ (length t = 0 \/ length l < length t)%nat)
  end.

Lemma singleton_lookup {A} (x y : A) t : [x] !! t = Some y -> t = 0%nat /\ x = y.
Proof. destruct t; simpl; [by intros [= ->]|done]. Qed.

Lemma done_returns cap l c tbl0 r tbl a :
  arun cap (mk_aconf l [ADone c tbl0]) [EvReturn 0 r tbl] a -> r = call_n c /\ tbl = tbl0 /\ a_stack a = l.
Proof.
  intros R. inversion R as [|e es a1 a2 S1 R1 E]; subst.
  inversion S1 as [t c' H|t objs H|t tb objs rest H|t c' tb H|t c' H]; subst; simpl in H;
    apply singleton_lookup in H as [-> [=]]; subst.
  simpl in E. injection E as <- <- ->. simpl in R1.
  inversion R1 as [|e es a3 a4 S2 R2 E2]; subst; [done|].
  inversion S2 as [t2 c2 H2|t2 o2 H2|t2 tb2 o2 rest2 H2|t2 c2 tb2 H2|t2 c2 H2]; subst; simpl in H2;
    apply singleton_lookup in H2 as [-> [=]]; subst. done.
Qed.

Lemma pending_alone cap l c r tbl a :
  arun cap (mk_aconf l [APending c]) [EvReturn 0 r tbl] a -> alone cap l c r tbl (a_stack a).
Proof.
  intros R. inversion R as [|e es a1 a2 S1 R1 E]; subst.
  inversion S1 as [t c' H|t objs H Hl|t tb objs rest H Hs Hl|t c' tb H|t c' H Hf]; subst; simpl in H;
    apply singleton_lookup in H as [-> [=]]; subst; simpl in *.
  - subst es. apply done_returns in R1 as (-> & -> & ->). by left.
  - subst es. apply done_returns in R1 as (-> & -> & ->). left. subst l. rewrite length_app.
    split; [done|]. split; [lia|]. by rewrite <- Hl, take_app_length, drop_app_length.
  - injection E as <- <- ->. inversion R1 as [|e es a3 a4 S2 R2 E2]; subst.
    + destruct c'; simpl in *; rewrite ?Nat.add_0_r in Hf; right; split_and?; try done; tauto.
    + inversion S2 as [t2 c2 H2|t2 o2 H2|t2 tb2 o2 rest2 H2|t2 c2 tb2 H2|t2 c2 H2]; subst; simpl in H2;
        apply singleton_lookup in H2 as [-> [=]]; subst. done.
Qed.

Section alone.
Context (v : variant) (N : nat).
Hypothesis HN : Z.of_nat N < 2 ^ 32.

Lemma lf_alone K s l c :
  at_rest N K s l -> K + 1 + Z.of_nat (lf_fuel (call_n c)) < 2 ^ 64 ->
  exists r tbl s' l', solo (lf_fuel (call_n c)) v quiet (Entry c) s = Some (r, tbl, s')
    /\ alone N l c r tbl l' /\ at_rest N (K + 1 + Z.of_nat (lf_fuel (call_n c))) s' l'.
Proof.
  intros R HK. destruct (at_rest_inv v N K s l 1 R) as (g & I & Ea).
  assert (I1 : inv v N (K + 1) s [Entry c] g).
  { apply (inv_stay v N K s [Idle] g 0 Idle (Entry c) []); try done; [|apply I].
    by destruct (own_of v N K s [Idle] g 0 Idle I eq_refl) as (o & Ho & ->). }
  assert (Hw : (work s (Entry c) < lf_fuel (call_n c))%nat) by (unfold lf_fuel; simpl; lia).
  destruct (solo_sim v N quiet 0 HN (or_intror eq_refl) eq_refl _ (K + 1) s [Entry c] g (Entry c) I1
    eq_refl ltac:(done) Hw ltac:(unfold lf_fuel in *; lia)) as (r & tbl & s' & g' & n & E & Hn & I' & Ra).
  exists r, tbl, s', (a_stack (abs s' [Idle] g')). split; [exact E|].
  assert (abs s [Entry c] g = mk_aconf l [APending c]) as Eb.
  { apply (f_equal a_stack) in Ea. simpl in Ea. unfold abs. by rewrite Ea. }
  rewrite Eb in Ra. split; [by apply (pending_alone N l c r tbl) in Ra|].
  apply (at_rest_weaken N (K + 1 + Z.of_nat n)); [|lia].
  apply (inv_at_rest v N _ s' [Idle] g' I'). by constructor.
Qed.
End alone.

(** ** The array behind a lock *)

Record std_holds (cap : nat) (s : rte_stack_std) (l : list Z) : Prop := {
  sh_lock : lock s = 0;
  sh_objs : length (objs s) = cap;
  sh_len : std_len s = Z.of_nat (length l);
  sh_items : take (length l) (objs s) = reverse l
}.

Lemma sh_fits cap s l : std_holds cap s l -> (length l <= cap)%nat.
Proof.
  intros [_ Hc _ Hi]. apply (f_equal length) in Hi. rewrite length_take, length_reverse in Hi. lia.
Qed.

Lemma copy_up_run k : forall (os tbl : list Z) (a i : nat),
  (i + k = length tbl)%nat -> (a + i + k <= length os)%nat -> Z.of_nat (length tbl) < 2 ^ 32 ->
  copy_up os tbl (Z.of_nat a) (Z.of_nat i) k = Some (take (a + i) os ++ drop i tbl ++ drop (a + i + k) os).
Proof.
  induction k as [|k IH]; intros os tbl a i Hi Ha Ht; cbn [copy_up].
  - rewrite (drop_ge tbl) by lia. simpl. by rewrite Nat.add_0_r, take_drop.
  - destruct (lookup_lt_is_Some_2 tbl i ltac:(lia)) as [x Hx].
    assert (aget tbl (Z.of_nat i) = Some x) as ->
      by (unfold aget; rewrite (proj2 (Z.leb_le _ _)), Nat2Z.id by lia; done).
    cbn [mbind option_bind]. rewrite <- Nat2Z.inj_add, aset_ok by lia. cbn [mbind option_bind]. rewrite Nat2Z.id.
    replace (u32 (Z.of_nat i + 1)) with (Z.of_nat (Datatypes.S i)) by (rewrite wrap_small; [lia|unfold fits; lia]).
    rewrite IH; [|lia|rewrite length_insert; lia|lia]. f_equal.
    rewrite (drop_S _ _ _ Hx). rewrite drop_insert_lt by lia.
    replace (a + Datatypes.S i)%nat with (Datatypes.S (a + i)) by lia.
    rewrite (take_S_r _ _ x) by (apply list_lookup_insert_eq; lia). rewrite take_insert_ge by lia.
    rewrite <- app_assoc. simpl. by replace (a + i + Datatypes.S k)%nat with (Datatypes.S (a + i + k)) by lia.
Qed.

Lemma copy_down_run (os : list Z) k : forall (tbl : list Z) (m i : nat),
  (i + k = length tbl)%nat -> (k <= m <= length os)%nat -> Z.of_nat (length tbl) < 2 ^ 32 -> Z.of_nat m < 2 ^ 32 ->
  copy_down os tbl (Z.of_nat i) (u32 (Z.of_nat m - 1)) k
  = Some (take i tbl ++ take k (reverse (take m os))).
Proof.
  induction k as [|k IH]; intros tbl m i Hi Hm Ht Hm2; cbn [copy_down].
  - rewrite take_0, app_nil_r, take_ge by lia. done.
  - destruct m as [|m]; [lia|].
    replace (u32 (Z.of_nat (Datatypes.S m) - 1)) with (Z.of_nat m) by (rewrite wrap_small; [lia|unfold fits; lia]).
    destruct (lookup_lt_is_Some_2 os m ltac:(lia)) as [x Hx].
    assert (aget os (Z.of_nat m) = Some x) as ->
      by (unfold aget; rewrite (proj2 (Z.leb_le _ _)), Nat2Z.id by lia; done).
    cbn [mbind option_bind]. rewrite aset_ok by lia. cbn [mbind option_bind]. rewrite Nat2Z.id.
    replace (u32 (Z.of_nat i + 1)) with (Z.of_nat (Datatypes.S i)) by (rewrite wrap_small; [lia|unfold fits; lia]).
    rewrite IH; [|rewrite length_insert; lia|lia|rewrite length_insert; lia|lia]. f_equal.
    rewrite (take_S_r _ _ x) by (apply list_lookup_insert_eq; lia). rewrite take_insert_ge by lia.
    rewrite (take_S_r _ _ x Hx), reverse_snoc. by rewrite <- app_assoc.
Qed.

Lemma std_push_run cap s l tbl :
  std_holds cap s l -> Z.of_nat cap < 2 ^ 32 -> Z.of_nat (length l + length tbl) < 2 ^ 32 ->
  exists s', __rte_stack_std_push (Z.of_nat cap) tbl (Z.of_nat (length tbl)) s
    = Some (if (length l + length tbl <=? cap)%nat then Z.of_nat (length tbl) else 0, s')
    /\ std_holds cap s' (if (length l + length tbl <=? cap)%nat then reverse tbl ++ l else l).
Proof.
  intros H Hc Hn. pose proof (sh_fits _ _ _ H) as Hf. destruct H as [Hl Ho Hs Hi].
  unfold __rte_stack_std_push, locked. rewrite Hl. simpl. rewrite Hs, <- Nat2Z.inj_add.
  rewrite wrap_small by (unfold fits; lia). rewrite Z.gtb_ltb.
  destruct (Nat.leb_spec (length l + length tbl) cap).
  - rewrite (proj2 (Z.ltb_ge _ _)) by lia. rewrite Nat2Z.id.
    pose proof (copy_up_run (length tbl) (objs s) tbl (length l) 0 ltac:(lia) ltac:(lia) ltac:(lia)) as E.
    change (Z.of_nat 0) with 0 in E. rewrite E. eexists. split; [reflexivity|].
    rewrite Nat.add_0_r, drop_0. split; simpl; try done.
    + rewrite !length_app, length_take, length_drop. lia.
    + rewrite length_app, length_reverse. lia.
    + rewrite Hi, app_assoc, reverse_app, reverse_involutive, take_app_le
        by (rewrite !length_app, !length_reverse; lia).
      apply take_ge. rewrite !length_app, !length_reverse. lia.
  - rewrite (proj2 (Z.ltb_lt _ _)) by lia. eexists. split; [reflexivity|]. by split.
Qed.

Lemma std_pop_run cap s l tbl :
  std_holds cap s l -> Z.of_nat cap < 2 ^ 32 -> Z.of_nat (length tbl) < 2 ^ 32 ->
  exists s', __rte_stack_std_pop tbl (Z.of_nat (length tbl)) s
    = Some (if (length tbl <=? length l)%nat then (Z.of_nat (length tbl), take (length tbl) l) else (0, tbl), s')
    /\ std_holds cap s' (if (length tbl <=? length l)%nat then drop (length tbl) l else l).
Proof.
  intros H Hc Hn. pose proof (sh_fits _ _ _ H) as Hf. destruct H as [Hl Ho Hs Hi].
  unfold __rte_stack_std_pop, locked. rewrite Hl. simpl. rewrite Hs, Z.gtb_ltb.
  destruct (Nat.leb_spec (length tbl) (length l)).
  - rewrite (proj2 (Z.ltb_ge _ _)) by lia. rewrite Nat2Z.id.
    pose proof (copy_down_run (objs s) (length tbl) tbl (length l) 0 ltac:(lia) ltac:(lia) ltac:(lia) ltac:(lia)) as E.
    change (Z.of_nat 0) with 0 in E. rewrite E, Hi, reverse_involutive. eexists. split; [reflexivity|]. split; simpl; try done.
    + rewrite length_drop, wrap_small; [lia|unfold fits; lia].
    + rewrite length_drop. replace (length l - length tbl)%nat with (length (drop (length tbl) l)) by apply length_drop.
      rewrite <- (take_drop (length tbl) l) in Hi at 2. rewrite reverse_app in Hi.
      apply (f_equal (take (length (drop (length tbl) l)))) in Hi.
      rewrite take_take, take_app_le, (take_ge (reverse (drop (length tbl) l))) in Hi by (rewrite length_reverse; lia).
      rewrite <- Hi. f_equal. rewrite length_drop. lia.
  - rewrite (proj2 (Z.ltb_lt _ _)) by lia. eexists. split; [reflexivity|]. by split.
Qed.

(** ** [rte_stack] *)

(** The stack [st] of capacity [N] holds the pointers [l], the last pushed
    first; a lock-free one has had at most [K] moves of its heads. *)
Record stack_holds (N : nat) (K : Z) (st : rte_stack) (l : list Z) : Prop := {
  st_capacity : capacity st = Z.of_nat N;
  st_impl : if truthy (Z.land (flags st) RTE_STACK_F_LF)
            then exists s, impl st = stack_lf s /\ at_rest N K s l
            else exists s, impl st = stack_std s /\ std_holds N s l
}.

Lemma at_rest_len N K s l : at_rest N K s l -> len (used s) = Z.of_nat (length l) /\ (length l <= N)%nat.
Proof.
  intros [_ (u & f & Hp & <- & _ & _ & Lu & _) _ _]. unfold vals. rewrite length_fmap. split; [done|].
  apply Permutation_length in Hp. rewrite length_app, length_seq in Hp. lia.
Qed.

Lemma stack_count_run N K st l :
  stack_holds N K st l -> Z.of_nat N < 2 ^ 32 ->
  rte_stack_count st = Some (Z.of_nat (length l)) /\ (length l <= N)%nat.
Proof.
  intros [_ H] HN. unfold rte_stack_count. destruct (truthy _).
  - destruct H as (s & -> & R). destruct (at_rest_len _ _ _ _ R) as [E Hle]. split; [|done].
    unfold __rte_stack_lf_count. rewrite E, wrap_small; [done|unfold fits; lia].
  - destruct H as (s & -> & R). split; [|by eapply sh_fits]. unfold __rte_stack_std_count. by rewrite (sh_len _ _ _ R).
Qed.

Lemma stack_push_run v N K st l tbl :
  stack_holds N K st l -> Z.of_nat N < 2 ^ 32 -> Z.of_nat (length l + length tbl) < 2 ^ 32 -> K < 2 ^ 63 ->
  let fits_in := (length l + length tbl <=? N)%nat in
  exists st', rte_stack_push v st tbl = Some (if fits_in then Z.of_nat (length tbl) else 0, st')
    /\ stack_holds N (K + 1 + Z.of_nat (lf_fuel (length tbl))) st' (if fits_in then reverse tbl ++ l else l).
Proof.
  intros [Hc H] HN Hn HK fits_in. unfold rte_stack_push. destruct (truthy _) eqn:E.
  - destruct H as (s & -> & R).
    destruct (lf_alone v N HN K s l (CPush tbl) R ltac:(unfold lf_fuel; simpl; lia)) as (r & t' & s' & l' & E1 & A & R').
    unfold __rte_stack_lf_push. simpl call_n in E1. rewrite E1. cbn [mbind option_bind]. eexists.
    assert (r = (if fits_in then length tbl else 0)%nat /\ l' = if fits_in then reverse tbl ++ l else l) as [-> ->].
    { unfold fits_in. simpl in A. destruct (Nat.leb_spec (length l + length tbl) N).
      - destruct A as [(-> & _ & ->)|(-> & -> & [Hz|])]; [done| |lia]. by destruct tbl.
      - destruct A as [(-> & ? & ->)|(-> & -> & _)]; [lia|done]. }
    split; [by destruct fits_in|]. split; [done|]. simpl. rewrite E. exists s'. split; [done|exact R'].
  - destruct H as (s & -> & R). rewrite Hc.
    destruct (std_push_run N s l tbl R HN Hn) as (s' & -> & R'). cbn [mbind option_bind].
    eexists. split; [reflexivity|]. split; [done|]. simpl. rewrite E. by exists s'.
Qed.

Lemma stack_pop_run v N K st l tbl :
  stack_holds N K st l -> Z.of_nat N < 2 ^ 32 -> Z.of_nat (length tbl) < 2 ^ 32 -> K < 2 ^ 63 ->
  let enough := (length tbl <=? length l)%nat in
  exists st', rte_stack_pop v st tbl
      = Some (if enough then Z.of_nat (length tbl) else 0, if enough then take (length tbl) l else tbl, st')
    /\ stack_holds N (K + 1 + Z.of_nat (lf_fuel (length tbl))) st' (if enough then drop (length tbl) l else l).
Proof.
  intros [Hc H] HN Hn HK enough. unfold rte_stack_pop. destruct (truthy _) eqn:E.
  - destruct H as (s & -> & R).
    destruct (lf_alone v N HN K s l (CPop tbl) R ltac:(unfold lf_fuel; simpl; lia)) as (r & t' & s' & l' & E1 & A & R').
    unfold __rte_stack_lf_pop. simpl call_n in E1. rewrite E1. cbn [mbind option_bind]. eexists.
    assert (r = (if enough then length tbl else 0)%nat /\ t' = (if enough then take (length tbl) l else tbl)
            /\ l' = if enough then drop (length tbl) l else l) as (-> & -> & ->).
    { unfold enough. simpl in A. destruct (Nat.leb_spec (length tbl) (length l)).
      - destruct A as [(-> & _ & -> & ->)|(-> & -> & -> & [Hz|])]; [done| |lia]. by destruct tbl.
      - destruct A as [(-> & ? & _)|(-> & -> & -> & _)]; [lia|done]. }
    split; [by destruct enough|]. split; [done|]. simpl. rewrite E. exists s'. split; [done|exact R'].
  - destruct H as (s & -> & R).
    destruct (std_pop_run N s l tbl R HN Hn) as (s' & -> & R'). fold enough in R' |- *.
    exists (set_impl (stack_std s') st). split; [by destruct enough|]. split; [done|]. simpl. rewrite E. by exists s'.
Qed.

(** ** A stack to run *)

(** The stack with the elements [0 .. n - 1], those below [k] in [used]. *)
Definition sample (data : list Z) (k n : nat) : rte_stack_lf :=
  let link i := mk_elem (default 0 (data !! i)) (if (Datatypes.S i =? k)%nat || (Datatypes.S i =? n)%nat then None else Some (Datatypes.S i)) in
  mk_lf (mk_list (mk_head (if (k =? 0)%nat then None else Some 0%nat) 0) (Z.of_nat k))
    (mk_list (mk_head (if (k =? n)%nat then None else Some k) 0) (Z.of_nat (n - k)))
    (link <$> seq 0 n).

Lemma sample_at_rest : at_rest 4 0 (sample [10; 20; 30] 3 4) [10; 20; 30].
Proof.
  split; [done| | |done].
  - exists [0; 1; 2]%nat, [3%nat]. split; [done|]. split; [done|].
    split; [repeat (split; [done|]; eexists; split; [done|]); done|].
    split; [repeat (split; [done|]; eexists; split; [done|]); done|]. done.
  - intros a x Hx b Hb. assert (forall a, b = a -> (a < 4)%nat -> (b < 4)%nat) as G by (intros; lia).
    do 4 (destruct a as [|a]; [simpl in Hx; injection Hx as <-; simpl in Hb; simplify_eq; lia|]). done.
Qed.

Definition mk n c z := mk_act n c (mk_noise false z).

(** ** Findings *)

Lemma copy_up_beyond os0 tbl a k : forall os i,
  length os = os0 -> (a + i <= os0 < a + i + k)%nat -> Z.of_nat os0 < 2 ^ 32 ->
  copy_up os tbl (Z.of_nat a) (Z.of_nat i) k = None.
Proof.
  induction k as [|k IH]; intros os i Ho Hi H32; [lia|]. cbn [copy_up].
  destruct (aget tbl (Z.of_nat i)) as [x|]; [|done]. cbn [mbind option_bind]. rewrite <- Nat2Z.inj_add.
  destruct (decide (a + i = os0)%nat) as [E|E].
  - unfold aset. rewrite (proj2 (Z.ltb_ge _ (Z.of_nat (length os)))) by lia. by rewrite andb_false_r.
  - rewrite aset_ok by lia. cbn [mbind option_bind].
    replace (u32 (Z.of_nat i + 1)) with (Z.of_nat (Datatypes.S i)) by (rewrite wrap_small; [lia|unfold fits; lia]).
    apply IH; [by rewrite length_insert|lia|done].
Qed.

(** The test of [__rte_stack_std_push] for room adds in 32 bits: with a number
    that wraps the sum around to 0 it passes, and the copy runs beyond the
    array. *)
Theorem std_push_wraps cap s l tbl :
  std_holds cap s l -> Z.of_nat cap < 2 ^ 32 -> (1 <= length l)%nat ->
  __rte_stack_std_push (Z.of_nat cap) tbl (2 ^ 32 - Z.of_nat (length l)) s = None.
Proof.
  intros H Hc Hl. pose proof (sh_fits _ _ _ H). destruct H as [Hlk Ho Hs Hi].
  unfold __rte_stack_std_push, locked. rewrite Hlk. simpl. rewrite Hs.
  replace (Z.of_nat (length l) + (2 ^ 32 - Z.of_nat (length l))) with (2 ^ 32) by lia.
  change (u32 (2 ^ 32)) with 0. rewrite Z.gtb_ltb, (proj2 (Z.ltb_ge _ _)) by lia.
  pose proof (copy_up_beyond cap tbl (length l) (Z.to_nat (2 ^ 32 - Z.of_nat (length l))) (objs s) 0 Ho ltac:(lia) Hc) as E.
  change (Z.of_nat 0) with 0 in E. rewrite E. done.
Qed.

(** In the C11 variant [success] has no value when [continue] reaches the test of
    the loop before the first compare-and-swap.  If it happens not to be 0, the
    loop ends although nothing was taken: thread 0 returns 2 with the pointer 10
    that thread 1 has popped, and an entry of [obj_table] that was never
    written. *)
Theorem c11_uninitialised_success :
  let t0 := mk 0 (CPop [0; 0]) true in
  let t1 := mk 1 (CPop [0]) true in
  exists c, exec C11 (replicate 6 t0 ++ replicate 14 t1 ++ replicate 9 t0)
      (mk_conf (sample [10; 20; 30] 3 3) [Idle; Idle])
    = Some ([EvCall 0 (CPop [0; 0]); EvCall 1 (CPop [0]); EvReturn 1 1 [10]; EvReturn 0 2 [10; 0]], c).
Proof. eexists. vm_compute. reflexivity. Qed.

(** * Properties *)

(** C9. The lock-free stack is linearizable: from a stack at rest, whatever the
    interleaving of the memory accesses of any number of threads that push and
    pop any numbers of pointers, in both variants (the C11 one as long as the
    uninitialised [success] is read as 0), every access is inside the elements
    and the calls and returns are those of a bounded stack on which each call
    takes effect at once; a call returns 0 only when, counting what the other
    calls under way may hold, there may be too few pointers or too little room.
    [__rte_stack_lf_count] never exceeds what the stack holds, and when no call is
    under way the lists hold exactly the pointers of that stack. *)
Theorem lf_stack_linearizable v N K s l k sched :
  at_rest N K s l -> Z.of_nat N < 2 ^ 32 -> K + Z.of_nat (length sched) < 2 ^ 64 ->
  v = Generic \/ Forall (fun a => garbage (a_noise a) = false) sched ->
  exists tr c a, exec v sched (mk_conf s (replicate k Idle)) = Some (tr, c)
    /\ arun N (mk_aconf l (replicate k AIdle)) tr a
    /\ (length (a_stack a) <= N)%nat
    /\ 0 <= __rte_stack_lf_count (lf c) <= Z.of_nat (length (a_stack a))
    /\ (Forall (fun p => p = Idle) (pcs c) -> at_rest N (K + Z.of_nat (length sched)) (lf c) (a_stack a)).
Proof.
  intros R HN HK Hz. destruct (at_rest_inv v N K s l k R) as (g & I & E).
  destruct (exec_sim v N HN sched K (mk_conf s (replicate k Idle)) g I HK Hz) as (tr & c & g' & Ex & I' & Ra).
  simpl in Ra. rewrite E in Ra. exists tr, c, (abs (lf c) (pcs c) g').
  split; [done|]. split; [done|]. split.
  - simpl. unfold vals. rewrite length_fmap. apply (chain_len _ _ _ _ _ _ Used I').
  - split; [by eapply count_le|]. intros Hi. by apply (inv_at_rest v N _ (lf c) (pcs c) g').
Qed.

Lemma lf_stack_linearizable_witness :
  let t0 := mk 0 (CPop [0; 0]) true in
  let t1 := mk 1 (CPush [5]) true in
  exists tr c, exec Generic (replicate 7 t0 ++ replicate 15 t1 ++ replicate 14 t0)
      (mk_conf (sample [10; 20; 30] 3 4) [Idle; Idle]) = Some (tr, c)
    /\ (exists a, arun 4 (mk_aconf [10; 20; 30] [AIdle; AIdle]) tr a /\ a_stack a = [20; 30])
    /\ tr = [EvCall 0 (CPop [0; 0]); EvCall 1 (CPush [5]); EvReturn 1 1 []; EvReturn 0 2 [5; 10]].
Proof.
  intros t0 t1.
  destruct (lf_stack_linearizable Generic 4 0 (sample [10; 20; 30] 3 4) [10; 20; 30] 2
    (replicate 7 t0 ++ replicate 15 t1 ++ replicate 14 t0)) as (tr & c & a & E & Ra & _ & _ & Hr).
  - apply sample_at_rest.
  - vm_compute. reflexivity.
  - vm_compute. reflexivity.
  - by left.
  - exists tr, c. split; [exact E|]. vm_compute in E. injection E as <- <-. split; [|reflexivity].
    exists a. split; [exact Ra|]. destruct (Hr ltac:(repeat constructor)) as [_ (u & f & _ & Hv & Su & _) _ _].
    rewrite <- Hv. clear - Su. simpl in Su.
    repeat (destruct u as [|? u]; simpl in Su; [by (discriminate Su || (vm_compute; reflexivity))|];
            destruct Su as [[= <-] (x & Hx & Su)]; simpl in Hx; injection Hx as <-; simpl in Su).
Defined.

(** C13. The lock-free stack is never blocked: in every state that a run reaches,
    a thread in the middle of a call with [n] pointers, wherever the others have
    stopped, returns after at most 6n + 14 steps of its own when it is left to
    run alone, and one more for each spurious failure of its weak
    compare-and-swaps; what it returns is a result of the abstract stack.  This
    is for fewer than 2^32 pointers and 2^63 steps, and for the C11 functions it
    supposes that the uninitialised [success] never reads as true. *)
Theorem lf_stack_progress v N K s l k sched tr c t p zs :
  at_rest N K s l -> Z.of_nat N < 2 ^ 32 -> K + Z.of_nat (length sched) < 2 ^ 63 ->
  v = Generic \/ Forall (fun a => garbage (a_noise a) = false) sched
                 /\ Forall (fun z => garbage z = false) zs ->
  exec v sched (mk_conf s (replicate k Idle)) = Some (tr, c) -> pcs c !! t = Some p -> p <> Idle ->
  Z.of_nat (astat_n (astat_of p)) < 2 ^ 32 ->
  (6 * astat_n (astat_of p) + 14 + failures zs <= length zs)%nat -> Z.of_nat (length zs) < 2 ^ 63 ->
  exists r tbl s' a, solo_noisy v zs p (lf c) = Some (r, tbl, s')
    /\ arun N (mk_aconf l (replicate k AIdle)) (tr ++ [EvReturn t r tbl]) a.
Proof.
  intros R HN HK Hz Ex Hp Hi Hn Hzs Hmax. destruct (at_rest_inv v N K s l k R) as (g & I & E).
  destruct (exec_sim v N HN sched K (mk_conf s (replicate k Idle)) g I ltac:(lia))
    as (tr' & c' & g' & Ex' & I' & Ra); [by destruct Hz as [|[? _]]; [left|right]|].
  rewrite Ex in Ex'. injection Ex' as <- <-. simpl in Ra. rewrite E in Ra.
  pose proof (work_bound (lf c) p) as Hw.
  destruct (solo_noisy_sim v N t HN zs _ _ _ g' p ltac:(by destruct Hz as [|[_ ?]]; [left|right]) I' Hp Hi
    ltac:(lia) ltac:(lia)) as (r & tbl & s' & g2 & n & Es & _ & _ & Ra2).
  exists r, tbl, s', (abs s' (<[t := Idle]> (pcs c)) g2). split; [exact Es|]. by eapply arun_app.
Qed.

(** One compare-and-swap of the C11 pop fails spuriously. *)
Lemma lf_stack_progress_witness :
  let t0 := mk 0 (CPop [0; 0]) false in
  let t1 := mk 1 (CPush [5]) false in
  let zs := mk_noise true false :: replicate 26 (mk_noise false false) in
  exists tr c r tbl s', exec C11 (replicate 3 t0 ++ replicate 11 t1)
      (mk_conf (sample [10; 20; 30] 3 4) [Idle; Idle]) = Some (tr, c)
    /\ solo_noisy C11 zs (default Idle (pcs c !! 0%nat)) (lf c) = Some (r, tbl, s').
Proof.
  intros t0 t1 zs.
  destruct (exec C11 (replicate 3 t0 ++ replicate 11 t1) (mk_conf (sample [10; 20; 30] 3 4) [Idle; Idle]))
    as [[tr c]|] eqn:E; [|by vm_compute in E].
  destruct (lf_stack_progress C11 4 0 (sample [10; 20; 30] 3 4) [10; 20; 30] 2
    (replicate 3 t0 ++ replicate 11 t1) tr c 0 (default Idle (pcs c !! 0%nat)) zs)
    as (r & tbl & s' & a & Hs & _).
  - apply sample_at_rest.
  - vm_compute. reflexivity.
  - vm_compute. reflexivity.
  - right. split; repeat constructor.
  - exact E.
  - vm_compute in E. by injection E as <- <-.
  - vm_compute in E. by injection E as <- <-.
  - vm_compute in E. injection E as <- <-. vm_compute. reflexivity.
  - vm_compute in E. injection E as <- <-. vm_compute. lia.
  - vm_compute. reflexivity.
  - exists tr, c, r, tbl, s'. split; [done|exact Hs].
Defined.

(** C25. Both kinds of [rte_stack], called by one thread, are a bounded last-in
    first-out list, as long as the list and the table together have fewer than
    2^32 pointers (the 32-bit sum of the room test wraps around beyond,
    [std_push_wraps]): a push of [n] pointers either stores them all, the last one
    on top, or returns 0 and changes nothing when they do not fit; a pop of [n]
    pointers either delivers the [n] on top in order or returns 0 and leaves
    [obj_table] alone when there are fewer; the counts are those of the list and
    of the room left. *)
Theorem rte_stack_lifo v N K st l tbl :
  stack_holds N K st l -> Z.of_nat N < 2 ^ 32 -> Z.of_nat (length l + length tbl) < 2 ^ 32 -> K < 2 ^ 63 ->
  let n := length tbl in
  let K' := K + 1 + Z.of_nat (lf_fuel n) in
  (exists st', stack_holds N K' st' (if (length l + n <=? N)%nat then reverse tbl ++ l else l)
     /\ rte_stack_push v st tbl = Some (if (length l + n <=? N)%nat then Z.of_nat n else 0, st'))
  /\ (exists st', stack_holds N K' st' (if (n <=? length l)%nat then drop n l else l)
     /\ rte_stack_pop v st tbl
        = Some (if (n <=? length l)%nat then Z.of_nat n else 0, if (n <=? length l)%nat then take n l else tbl, st'))
  /\ rte_stack_count st = Some (Z.of_nat (length l))
  /\ rte_stack_free_count st = Some (Z.of_nat N - Z.of_nat (length l)).
Proof.
  intros H HN Hn HK n K'. split_and!.
  - destruct (stack_push_run v N K st l tbl H HN Hn HK) as (st' & E & H'). by exists st'.
  - destruct (stack_pop_run v N K st l tbl H HN ltac:(lia) HK) as (st' & E & H'). by exists st'.
  - by apply (stack_count_run N K).
  - destruct (stack_count_run N K st l H HN) as [E Hle]. unfold rte_stack_free_count. rewrite E.
    cbn [mbind option_bind]. rewrite (st_capacity _ _ _ _ H), wrap_small; [done|unfold fits; lia].
Qed.

Lemma rte_stack_lifo_witness :
  exists st1 st2, rte_stack_push C11 (mk_stack 4 RTE_STACK_F_LF (stack_lf (sample [10; 20; 30] 3 4))) [7]
      = Some (1, st1)
    /\ rte_stack_pop Generic (mk_stack 4 0 (stack_std (mk_std 0 3 [30; 20; 10; 0]))) [0; 0]
      = Some (2, [10; 20], st2).
Proof.
  assert (stack_holds 4 0 (mk_stack 4 RTE_STACK_F_LF (stack_lf (sample [10; 20; 30] 3 4))) [10; 20; 30]) as H1.
  { split; [done|]. simpl. eexists. split; [done|apply sample_at_rest]. }
  assert (stack_holds 4 0 (mk_stack 4 0 (stack_std (mk_std 0 3 [30; 20; 10; 0]))) [10; 20; 30]) as H2.
  { split; [done|]. simpl. eexists. split; [done|by split]. }
  destruct (rte_stack_lifo C11 4 0 _ _ [7] H1) as ((st1 & _ & E1) & _); [done..|].
  destruct (rte_stack_lifo Generic 4 0 _ _ [0; 0] H2) as (_ & (st2 & _ & E2) & _); [done..|].
  by exists st1, st2.
Defined.
