(* ===== verification/Mempool.v ===== *)
(** * Mempools ([include/rte_mempool.h]): a common pool behind a driver, and
    per-lcore object caches in front of it.

    The driver that stores the objects of the common pool (the
    [rte_mempool_ops] of the pool, by default a ring) is registered by a
    library: it is a table of functions the model takes as a parameter, with
    the documented behaviour of such functions as the class [LawfulOps].
    Debug statistics, cookies and trace points are compiled out.

    An object is its address, a [Z].  A cache is the array of the C structure
    with its bounds: a copy that leaves the array is undefined. *)
From stdpp Require Import prelude list numbers gmap.
From S2P Require Import Prelude.
Open Scope Z_scope.

Definition RTE_MAX_LCORE : Z := 128.
Definition RTE_MEMPOOL_CACHE_MAX_SIZE : Z := 512.
Definition RTE_MEMPOOL_MAX_OPS_IDX : Z := 16.

(** ** Data *)

(** A per-lcore or user-owned cache; [c_objs] has
    [RTE_MEMPOOL_CACHE_MAX_SIZE * 3] entries. *)
Record rte_mempool_cache := mk_cache {
  c_size : Z;
  c_flushthresh : Z;
  c_len : Z;
  c_objs : list Z
}.

(** The functions of a driver over its private data [P]: enqueue the first [n]
    objects of a table, dequeue [n] objects to the start of a table, count. *)
Record rte_mempool_ops (P : Type) := mk_ops {
  ops_enqueue : P -> list Z -> Z -> Z * P;
  ops_dequeue : P -> list Z -> Z -> Z * list Z * P;
  ops_get_count : P -> Z;
  ops_dequeue_contig_blocks : P -> list Z -> Z -> Z * list Z * P
}.
Arguments ops_enqueue {P}.
Arguments ops_dequeue {P}.
Arguments ops_get_count {P}.
Arguments ops_dequeue_contig_blocks {P}.

(** A mempool; [local_cache] is the array of the per-lcore caches. *)
Record rte_mempool (P : Type) := mk_mempool {
  pool_data : P;
  mp_flags : Z;
  mp_size : Z;
  cache_size : Z;
  elt_size : Z;
  header_size : Z;
  trailer_size : Z;
  private_data_size : Z;
  ops_index : Z;
  local_cache : list rte_mempool_cache;
  populated_size : Z
}.
Arguments mk_mempool {P}.
Arguments pool_data {P}.
Arguments mp_flags {P}.
Arguments mp_size {P}.
Arguments cache_size {P}.
Arguments elt_size {P}.
Arguments header_size {P}.
Arguments trailer_size {P}.
Arguments private_data_size {P}.
Arguments ops_index {P}.
Arguments local_cache {P}.
Arguments populated_size {P}.

(** The header in front of every object. *)
Record rte_mempool_objhdr := mk_objhdr {
  oh_next : Z;
  oh_mp : Z;
  oh_iova : Z
}.

(** A non-NULL pointer to a cache: one of the pool's own, or one that belongs
    to the caller. *)
Inductive cache_ptr :=
| LocalCache (lcore : Z)
| UserCache (i : Z).

(** The memory a mempool operation works on. *)
Record mp_state (P : Type) := mk_mps {
  mps_pool : rte_mempool P;
  mps_user : list rte_mempool_cache
}.
Arguments mk_mps {P}.
Arguments mps_pool {P}.
Arguments mps_user {P}.

Section access.
Context {P : Type}.
Implicit Types (mp : rte_mempool P) (s : mp_state P).

Definition set_pool_data (p : P) mp : rte_mempool P :=
  mk_mempool p (mp_flags mp) (mp_size mp) (cache_size mp) (elt_size mp) (header_size mp)
    (trailer_size mp) (private_data_size mp) (ops_index mp) (local_cache mp)
    (populated_size mp).

Definition set_local_cache (l : list rte_mempool_cache) mp : rte_mempool P :=
  mk_mempool (pool_data mp) (mp_flags mp) (mp_size mp) (cache_size mp) (elt_size mp)
    (header_size mp) (trailer_size mp) (private_data_size mp) (ops_index mp) l
    (populated_size mp).

Definition set_len (n : Z) (c : rte_mempool_cache) : rte_mempool_cache :=
  mk_cache (c_size c) (c_flushthresh c) n (c_objs c).
Definition set_objs (l : list Z) (c : rte_mempool_cache) : rte_mempool_cache :=
  mk_cache (c_size c) (c_flushthresh c) (c_len c) l.

(** [*cache], read and written through the pointer. *)
Definition load_cache (p : cache_ptr) : M (mp_state P) rte_mempool_cache := fun s =>
  c ← match p with
      | LocalCache i => aget (local_cache (mps_pool s)) i
      | UserCache i => aget (mps_user s) i
      end ;
  Some (c, s).

Definition store_cache (p : cache_ptr) (c : rte_mempool_cache) : M (mp_state P) unit := fun s =>
  match p with
  | LocalCache i =>
      l ← aset (local_cache (mps_pool s)) i c ;
      Some (tt, mk_mps (set_local_cache l (mps_pool s)) (mps_user s))
  | UserCache i =>
      l ← aset (mps_user s) i c ;
      Some (tt, mk_mps (mps_pool s) l)
  end.
End access.

(** ** Operations

    [rte_mempool_ops_table] is filled by the libraries; [lcore_id] is the value
    of [rte_lcore_id()] for the running thread. *)
Section operations.
Context {P : Type} (rte_mempool_ops_table : Z -> rte_mempool_ops P).
Context (lcore_id : Z).

(** [RTE_VERIFY] panics when the index is out of range. *)
Definition rte_mempool_get_ops (ops_index : Z) : option (rte_mempool_ops P) :=
  if (0 <=? ops_index) && (ops_index <? RTE_MEMPOOL_MAX_OPS_IDX)
  then Some (rte_mempool_ops_table ops_index) else None.

(** The result is the return code and the object table. *)
Definition rte_mempool_ops_dequeue_bulk (obj_table : list Z) (n : Z)
  : M (mp_state P) (Z * list Z) := fun s =>
  let mp := mps_pool s in
  ops ← rte_mempool_get_ops (ops_index mp) ;
  let '(ret, obj_table, p) := ops_dequeue ops (pool_data mp) obj_table n in
  Some (ret, obj_table, mk_mps (set_pool_data p mp) (mps_user s)).

Definition rte_mempool_ops_dequeue_contig_blocks (first_obj_table : list Z) (n : Z)
  : M (mp_state P) (Z * list Z) := fun s =>
  let mp := mps_pool s in
  ops ← rte_mempool_get_ops (ops_index mp) ;
  let '(ret, obj_table, p) :=
    ops_dequeue_contig_blocks ops (pool_data mp) first_obj_table n in
  Some (ret, obj_table, mk_mps (set_pool_data p mp) (mps_user s)).

Definition rte_mempool_ops_enqueue_bulk (obj_table : list Z) (n : Z)
  : M (mp_state P) Z := fun s =>
  let mp := mps_pool s in
  ops ← rte_mempool_get_ops (ops_index mp) ;
  let '(ret, p) := ops_enqueue ops (pool_data mp) obj_table n in
  Some (ret, mk_mps (set_pool_data p mp) (mps_user s)).

(** [None] is the NULL pointer. *)
Definition rte_mempool_default_cache (mp : rte_mempool P) (lcore_id : Z) : option cache_ptr :=
  if cache_size mp =? 0 then None
  else if RTE_MAX_LCORE <=? lcore_id then None
  else Some (LocalCache lcore_id).

Definition rte_mempool_cache_flush (cache : option cache_ptr) : M (mp_state P) unit :=
  s ← get ;
  let cache := match cache with
               | None => rte_mempool_default_cache (mps_pool s) lcore_id
               | Some _ => cache
               end in
  match cache with
  | None => mret tt
  | Some cp =>
      c ← load_cache cp ;
      if c_len c =? 0 then mret tt
      else
        rte_mempool_ops_enqueue_bulk (c_objs c) (c_len c) ;;
        store_cache cp (set_len 0 c)
  end.

Definition rte_mempool_do_generic_put (obj_table : list Z) (n : Z) (cache : option cache_ptr)
  : M (mp_state P) unit :=
  let ring_enqueue := rte_mempool_ops_enqueue_bulk obj_table n ;; mret tt in
  match cache with
  | None => ring_enqueue
  | Some cp =>
      if n >? RTE_MEMPOOL_CACHE_MAX_SIZE then ring_enqueue
      else
        c ← load_cache cp ;
        (* Add elements back into the cache *)
        objs ← lift (mem_cpy (c_objs c) (c_len c) obj_table 0 n) ;
        let c := set_len (u32 (c_len c + n)) (set_objs objs c) in
        store_cache cp c ;;
        if c_flushthresh c <=? c_len c then
          rte_mempool_ops_enqueue_bulk (drop (Z.to_nat (c_size c)) (c_objs c))
            (u32 (c_len c - c_size c)) ;;
          store_cache cp (set_len (c_size c) c)
        else mret tt
  end.

Definition rte_mempool_generic_put (obj_table : list Z) (n : Z) (cache : option cache_ptr)
  : M (mp_state P) unit :=
  rte_mempool_do_generic_put obj_table n cache.

Definition rte_mempool_put_bulk (obj_table : list Z) (n : Z) : M (mp_state P) unit :=
  s ← get ;
  let cache := rte_mempool_default_cache (mps_pool s) lcore_id in
  rte_mempool_generic_put obj_table n cache.

Definition rte_mempool_put (obj : Z) : M (mp_state P) unit :=
  rte_mempool_put_bulk [obj] 1.

(** The loop that fills the response: [index] counts up, [len] down. *)
Fixpoint fill_response (fuel : nat) (cache_objs : list Z) (obj_table : list Z)
  (index len n : Z) : option (list Z) :=
  match fuel with
  | O => None
  | Datatypes.S fuel' =>
      if index <? n then
        o ← aget cache_objs len ;
        obj_table ← aset obj_table index o ;
        fill_response fuel' cache_objs obj_table (u32 (index + 1)) (u32 (len - 1)) n
      else Some obj_table
  end.

Definition rte_mempool_do_generic_get (obj_table : list Z) (n : Z) (cache : option cache_ptr)
  : M (mp_state P) (Z * list Z) :=
  let ring_dequeue := rte_mempool_ops_dequeue_bulk obj_table n in
  match cache with
  | None => ring_dequeue
  | Some cp =>
      c ← load_cache cp ;
      if c_size c <=? n then ring_dequeue
      else
        (* Can this be satisfied from the cache? *)
        ok ← (if c_len c <? n then
                (* No. Backfill the cache first *)
                let req := u32 (n + u32 (c_size c - c_len c)) in
                '(ret, tbl) ← rte_mempool_ops_dequeue_bulk
                                (drop (Z.to_nat (c_len c)) (c_objs c)) req ;
                let c := set_objs (take (Z.to_nat (c_len c)) (c_objs c) ++ tbl) c in
                if ret <? 0 then store_cache cp c ;; mret false
                else store_cache cp (set_len (u32 (c_len c + req)) c) ;; mret true
              else mret true) ;
        if negb ok then ring_dequeue
        else
          (* Now fill in the response *)
          c ← load_cache cp ;
          obj_table ← lift (fill_response (Datatypes.S (Z.to_nat n)) (c_objs c) obj_table
                              0 (u32 (c_len c - 1)) n) ;
          store_cache cp (set_len (u32 (c_len c - n)) c) ;;
          mret (0, obj_table)
  end.

Definition rte_mempool_generic_get (obj_table : list Z) (n : Z) (cache : option cache_ptr)
  : M (mp_state P) (Z * list Z) :=
  rte_mempool_do_generic_get obj_table n cache.

Definition rte_mempool_get_bulk (obj_table : list Z) (n : Z) : M (mp_state P) (Z * list Z) :=
  s ← get ;
  let cache := rte_mempool_default_cache (mps_pool s) lcore_id in
  rte_mempool_generic_get obj_table n cache.

Definition rte_mempool_get (obj_p : Z) : M (mp_state P) (Z * Z) :=
  '(ret, tbl) ← rte_mempool_get_bulk [obj_p] 1 ;
  o ← lift (aget tbl 0) ;
  mret (ret, o).

Definition rte_mempool_get_contig_blocks (first_obj_table : list Z) (n : Z)
  : M (mp_state P) (Z * list Z) :=
  rte_mempool_ops_dequeue_contig_blocks first_obj_table n.

(** [rte_mempool_avail_count] is a library function. *)
Definition rte_mempool_full (avail_count : rte_mempool P -> Z) (mp : rte_mempool P) : bool :=
  avail_count mp =? mp_size mp.

Definition rte_mempool_empty (avail_count : rte_mempool P -> Z) (mp : rte_mempool P) : bool :=
  avail_count mp =? 0.

(** *** Addresses around an object *)

(** [sizeof(struct rte_mempool_objhdr)], [sizeof(struct rte_mempool)] and
    [sizeof(struct rte_mempool_cache)] on x86-64. *)
Definition sizeof_objhdr : Z := 24.
Definition sizeof_mempool : Z := 192.
Definition sizeof_cache : Z := 12352.

Definition rte_mempool_get_header (obj : Z) : Z := u64 (obj - sizeof_objhdr).

Definition rte_mempool_from_obj (hdrs : gmap Z rte_mempool_objhdr) (obj : Z) : option Z :=
  hdr ← hdrs !! rte_mempool_get_header obj ;
  Some (oh_mp hdr).

Definition rte_mempool_get_trailer (hdrs : gmap Z rte_mempool_objhdr)
  (pools : gmap Z (rte_mempool P)) (obj : Z) : option Z :=
  a ← rte_mempool_from_obj hdrs obj ;
  mp ← pools !! a ;
  Some (u64 (obj + elt_size mp)).

Definition rte_mempool_virt2iova (hdrs : gmap Z rte_mempool_objhdr) (elt : Z) : option Z :=
  hdr ← hdrs !! u64 (elt - sizeof_objhdr) ;
  Some (oh_iova hdr).

(** [RTE_MEMPOOL_HEADER_SIZE]. *)
Definition RTE_MEMPOOL_HEADER_SIZE (cs : Z) : Z :=
  sizeof_mempool + (if cs =? 0 then 0 else sizeof_cache * RTE_MAX_LCORE).

Definition rte_mempool_get_priv (addr : Z) (mp : rte_mempool P) : Z :=
  u64 (addr + RTE_MEMPOOL_HEADER_SIZE (cache_size mp)).
End operations.

(** ** The documented behaviour of a driver

    [pool_objs] are the objects stored, [pool_room] how many more it accepts.
    An enqueue that fits returns 0 and stores the objects; a dequeue returns 0
    and delivers the objects when there are enough of them, and otherwise a
    negative code with nothing taken; it may have scribbled on the table. *)
Class LawfulOps {P} (o : rte_mempool_ops P) := {
  pool_objs : P -> list Z;
  pool_room : P -> Z;
  enqueue_law p tbl n :
    0 <= n <= Z.of_nat (length tbl) -> n <= pool_room p ->
    exists p', ops_enqueue o p tbl n = (0, p')
      /\ pool_objs p' ≡ₚ take (Z.to_nat n) tbl ++ pool_objs p
      /\ pool_room p' = pool_room p - n;
  dequeue_law p tbl n :
    0 <= n <= Z.of_nat (length tbl) ->
    exists ret tbl' p', ops_dequeue o p tbl n = (ret, tbl', p')
      /\ length tbl' = length tbl
      /\ if n <=? Z.of_nat (length (pool_objs p))
         then ret = 0 /\ drop (Z.to_nat n) tbl' = drop (Z.to_nat n) tbl
              /\ pool_objs p ≡ₚ take (Z.to_nat n) tbl' ++ pool_objs p'
              /\ pool_room p' = pool_room p + n
         else ret < 0 /\ pool_objs p' ≡ₚ pool_objs p /\ pool_room p' = pool_room p;
  count_law p : ops_get_count o p = Z.of_nat (length (pool_objs p))
}.

(** ** The caches as a whole *)

Definition cached (c : rte_mempool_cache) : list Z := take (Z.to_nat (c_len c)) (c_objs c).

Definition cached_all (l : list rte_mempool_cache) : list Z := concat (cached <$> l).

(** The bounds of a cache: they hold for the caches the library creates, whose
    flush threshold is one and a half times their size. *)
Record cache_ok (c : rte_mempool_cache) : Prop := {
  ok_objs : length (c_objs c) = Z.to_nat (RTE_MEMPOOL_CACHE_MAX_SIZE * 3);
  ok_size : 0 <= c_size c <= RTE_MEMPOOL_CACHE_MAX_SIZE;
  ok_thresh : c_size c <= c_flushthresh c;
  ok_thresh_bound : 2 * c_flushthresh c <= 3 * RTE_MEMPOOL_CACHE_MAX_SIZE;
  ok_len : 0 <= c_len c <= c_flushthresh c
}.

(** The bounds that hold even between the steps of an operation. *)
Definition cache_mem (c : rte_mempool_cache) : Prop :=
  length (c_objs c) = Z.to_nat (RTE_MEMPOOL_CACHE_MAX_SIZE * 3)
  /\ 0 <= c_len c <= RTE_MEMPOOL_CACHE_MAX_SIZE * 3.

Lemma cache_ok_mem c : cache_ok c -> cache_mem c.
Proof. intros []. split; [done|]. unfold RTE_MEMPOOL_CACHE_MAX_SIZE in *. lia. Qed.

Lemma length_cached_mem c : cache_mem c -> Z.of_nat (length (cached c)) = c_len c.
Proof.
  intros [Ho Hl]. unfold cached. rewrite length_take. unfold RTE_MEMPOOL_CACHE_MAX_SIZE in *. lia.
Qed.

Lemma length_cached c : cache_ok c -> Z.of_nat (length (cached c)) = c_len c.
Proof. intros H. by apply length_cached_mem, cache_ok_mem. Qed.

Lemma cached_all_update l i c :
  l !! i = Some c ->
  exists rest, cached_all l ≡ₚ cached c ++ rest
    /\ forall c', cached_all (<[i := c']> l) ≡ₚ cached c' ++ rest.
Proof.
  intros H. exists (cached_all (take i l) ++ cached_all (drop (Datatypes.S i) l)).
  assert (forall a b, cached_all (a ++ b) = cached_all a ++ cached_all b) as Happ.
  { intros a b. unfold cached_all. by rewrite fmap_app, concat_app. }
  split.
  - rewrite <- (take_drop_middle l i c H) at 1. rewrite Happ.
    unfold cached_all at 2. simpl. fold (cached_all (drop (Datatypes.S i) l)).
    by rewrite !(assoc_L (++)), (comm (++) (cached_all (take i l)) (cached c)).
  - intros c'. assert (i < length l)%nat by (by eapply lookup_lt_Some).
    rewrite insert_take_drop by done. rewrite Happ.
    unfold cached_all at 2. simpl. fold (cached_all (drop (Datatypes.S i) l)).
    by rewrite !(assoc_L (++)), (comm (++) (cached_all (take i l)) (cached c')).
Qed.

Section state.
Context {P : Type}.
Implicit Types (s : mp_state P) (cp : cache_ptr).

Definition all_cached s : list Z :=
  cached_all (local_cache (mps_pool s)) ++ cached_all (mps_user s).

Definition with_pool (p : P) s : mp_state P := mk_mps (set_pool_data p (mps_pool s)) (mps_user s).

Definition lookup_cache cp s : option rte_mempool_cache :=
  match cp with
  | LocalCache i => aget (local_cache (mps_pool s)) i
  | UserCache i => aget (mps_user s) i
  end.

Definition with_cache cp (c : rte_mempool_cache) s : mp_state P :=
  match cp with
  | LocalCache i =>
      mk_mps (set_local_cache (<[Z.to_nat i := c]> (local_cache (mps_pool s))) (mps_pool s))
        (mps_user s)
  | UserCache i => mk_mps (mps_pool s) (<[Z.to_nat i := c]> (mps_user s))
  end.

Lemma load_cache_run cp c s : lookup_cache cp s = Some c -> load_cache cp s = Some (c, s).
Proof. unfold load_cache, lookup_cache. by intros ->. Qed.

Lemma aget_nth {A} (l : list A) i x : aget l i = Some x -> l !! Z.to_nat i = Some x.
Proof. unfold aget. by case_match. Qed.

Lemma store_cache_run cp c c' s :
  lookup_cache cp s = Some c -> store_cache cp c' s = Some (tt, with_cache cp c' s).
Proof.
  unfold lookup_cache, store_cache, with_cache.
  destruct cp; intros H%aget_Some; by rewrite aset_ok.
Qed.

Lemma aget_insert {A} (l : list A) i x y :
  aget l i = Some x -> aget (<[Z.to_nat i := y]> l) i = Some y.
Proof.
  intros H. pose proof (aget_Some _ _ _ H). unfold aget.
  replace (0 <=? i) with true by lia. apply list_lookup_insert_eq. lia.
Qed.

Lemma lookup_with_cache cp c c' s :
  lookup_cache cp s = Some c -> lookup_cache cp (with_cache cp c' s) = Some c'.
Proof. destruct cp; apply aget_insert. Qed.

Lemma lookup_with_pool cp p s : lookup_cache cp (with_pool p s) = lookup_cache cp s.
Proof. by destruct cp. Qed.

Lemma with_cache_twice cp c c' s : with_cache cp c (with_cache cp c' s) = with_cache cp c s.
Proof. destruct cp; unfold with_cache; simpl; unfold set_local_cache; simpl; by rewrite list_insert_insert_eq. Qed.

Lemma with_cache_pool cp c p s : with_cache cp c (with_pool p s) = with_pool p (with_cache cp c s).
Proof. by destruct cp. Qed.

Lemma with_pool_twice p q s : with_pool p (with_pool q s) = with_pool p s.
Proof. done. Qed.

Lemma all_cached_with_pool p s : all_cached (with_pool p s) = all_cached s.
Proof. done. Qed.

Lemma all_cached_update cp c s :
  lookup_cache cp s = Some c ->
  exists rest, all_cached s ≡ₚ cached c ++ rest
    /\ forall c', all_cached (with_cache cp c' s) ≡ₚ cached c' ++ rest.
Proof.
  intros H. destruct cp as [i|i]; apply aget_nth in H;
    destruct (cached_all_update _ _ _ H) as (rest & E & Hu); unfold all_cached; simpl.
  - exists (rest ++ cached_all (mps_user s)). rewrite E, <- (assoc_L (++)). split; [done|].
    intros c'. by rewrite Hu, <- (assoc_L (++)).
  - exists (rest ++ cached_all (local_cache (mps_pool s))). rewrite E. split.
    + rewrite (comm (++)). by rewrite <- (assoc_L (++)).
    + intros c'. rewrite Hu, (comm (++)). by rewrite <- (assoc_L (++)).
Qed.
End state.

(** ** Filling the response: the last [n] objects of the cache, last first *)

Lemma take_snoc {A} (l : list A) i x :
  l !! i = Some x -> take (Datatypes.S i) l = take i l ++ [x].
Proof. apply take_S_r. Qed.

Lemma fill_response_run objs (d : nat) : forall (tbl : list Z) (i len fuel : nat),
  (d < fuel)%nat -> (i + d <= length tbl)%nat -> (d <= len <= length objs)%nat ->
  Z.of_nat (length objs) < 2 ^ 32 -> Z.of_nat (i + d) < 2 ^ 32 ->
  fill_response fuel objs tbl (Z.of_nat i) (u32 (Z.of_nat len - 1)) (Z.of_nat (i + d))
  = Some (take i tbl ++ reverse (take d (drop (len - d) objs)) ++ drop (i + d) tbl).
Proof.
  induction d as [|d IH]; intros tbl i len fuel Hf Ht Hl Hb Hi;
    (destruct fuel as [|fuel]; [lia|]); cbn [fill_response].
  - rewrite (proj2 (Z.ltb_ge (Z.of_nat i) (Z.of_nat (i + 0)))) by lia.
    rewrite Nat.add_0_r. simpl. by rewrite take_drop.
  - rewrite (proj2 (Z.ltb_lt (Z.of_nat i) (Z.of_nat (i + Datatypes.S d)))) by lia.
    rewrite (wrap_small 32 (Z.of_nat len - 1)) by (unfold fits; lia).
    destruct (lookup_lt_is_Some_2 objs (len - 1)%nat) as [x Hx]; [lia|].
    assert (aget objs (Z.of_nat len - 1) = Some x) as ->.
    { unfold aget. replace (0 <=? Z.of_nat len - 1) with true by lia.
      by replace (Z.to_nat (Z.of_nat len - 1)) with (len - 1)%nat by lia. }
    cbn [mbind option_bind]. rewrite aset_ok by lia. cbn [mbind option_bind]. rewrite Nat2Z.id.
    rewrite (wrap_small 32 (Z.of_nat i + 1)) by (unfold fits; lia).
    replace (Z.of_nat i + 1) with (Z.of_nat (Datatypes.S i)) by lia.
    replace (Z.of_nat len - 1 - 1) with (Z.of_nat (len - 1) - 1) by lia.
    replace (i + Datatypes.S d)%nat with (Datatypes.S i + d)%nat by lia.
    rewrite IH; rewrite ?length_insert; try lia. f_equal.
    rewrite (take_snoc _ i x) by (apply list_lookup_insert_eq; lia).
    rewrite take_insert_ge by lia. rewrite drop_insert_lt by lia.
    rewrite <- !(assoc_L (++)). f_equal.
    rewrite (take_snoc (drop (len - Datatypes.S d) objs) d x).
    + rewrite reverse_app. by replace (len - 1 - d)%nat with (len - Datatypes.S d)%nat by lia.
    + rewrite lookup_drop. by replace (len - Datatypes.S d + d)%nat with (len - 1)%nat by lia.
Qed.

(** ** The invariant of a mempool and what its operations conserve *)
Section correctness.
Context {P : Type} (table : Z -> rte_mempool_ops P) (o : rte_mempool_ops P) `{LawfulOps P o}.
Context (lcore_id : Z).
Implicit Types (s : mp_state P) (cp : cache_ptr).

(** Every object of the pool that is not in somebody's hands. *)
Definition all_objs s : list Z := pool_objs (pool_data (mps_pool s)) ++ all_cached s.

(** [k] objects are in use: the driver has room for them and for every cached
    object. *)
Record mp_inv (k : Z) s : Prop := {
  inv_idx : 0 <= ops_index (mps_pool s) < RTE_MEMPOOL_MAX_OPS_IDX;
  inv_ops : table (ops_index (mps_pool s)) = o;
  inv_lcores : cache_size (mps_pool s) <> 0 ->
    length (local_cache (mps_pool s)) = Z.to_nat RTE_MAX_LCORE;
  inv_local : Forall cache_ok (local_cache (mps_pool s));
  inv_user : Forall cache_ok (mps_user s);
  inv_room : Z.of_nat (length (all_cached s)) + k <= pool_room (pool_data (mps_pool s))
}.

(** A cache argument: NULL or a pointer to an existing cache. *)
Definition cache_arg s (cache : option cache_ptr) : Prop :=
  match cache with
  | None => True
  | Some cp => is_Some (lookup_cache cp s)
  end.

Lemma get_ops_run k s : mp_inv k s ->
  rte_mempool_get_ops table (ops_index (mps_pool s)) = Some o.
Proof.
  intros I. unfold rte_mempool_get_ops. pose proof (inv_idx _ _ I).
  replace (0 <=? ops_index (mps_pool s)) with true by lia.
  replace (ops_index (mps_pool s) <? RTE_MEMPOOL_MAX_OPS_IDX) with true by lia.
  by rewrite (inv_ops _ _ I).
Qed.

Lemma lookup_cache_ok k s cp c : mp_inv k s -> lookup_cache cp s = Some c -> cache_ok c.
Proof.
  intros I. destruct cp; intros Hl%aget_nth;
    [eapply (Forall_lookup_1 cache_ok) in Hl; [done|apply I]..].
Qed.

Lemma mp_inv_with_cache k k' s cp c :
  mp_inv k s -> cache_ok c -> is_Some (lookup_cache cp s) ->
  Z.of_nat (length (all_cached (with_cache cp c s))) + k'
    <= pool_room (pool_data (mps_pool s)) ->
  mp_inv k' (with_cache cp c s).
Proof.
  intros I Hc Hp Hr. destruct cp; destruct I; split; simpl in *; try done.
  - intros. rewrite length_insert. auto.
  - by apply Forall_insert.
  - by apply Forall_insert.
Qed.

Lemma mp_inv_with_pool k k' s p :
  mp_inv k s -> Z.of_nat (length (all_cached s)) + k' <= pool_room p ->
  mp_inv k' (with_pool p s).
Proof. intros [] Hr. by split. Qed.

Lemma ops_enqueue_run s tbl n :
  rte_mempool_get_ops table (ops_index (mps_pool s)) = Some o -> 0 <= n <= Z.of_nat (length tbl) ->
  n <= pool_room (pool_data (mps_pool s)) ->
  exists p', rte_mempool_ops_enqueue_bulk table tbl n s = Some (0, with_pool p' s)
    /\ pool_objs p' ≡ₚ take (Z.to_nat n) tbl ++ pool_objs (pool_data (mps_pool s))
    /\ pool_room p' = pool_room (pool_data (mps_pool s)) - n.
Proof.
  intros I Hn Hr. destruct (enqueue_law (pool_data (mps_pool s)) tbl n Hn Hr) as (p' & E & Hp).
  exists p'. split; [|done]. unfold rte_mempool_ops_enqueue_bulk.
  rewrite I. simpl. by rewrite E.
Qed.

Lemma ops_dequeue_run s tbl n :
  rte_mempool_get_ops table (ops_index (mps_pool s)) = Some o -> 0 <= n <= Z.of_nat (length tbl) ->
  exists ret tbl' p',
    rte_mempool_ops_dequeue_bulk table tbl n s = Some (ret, tbl', with_pool p' s)
    /\ length tbl' = length tbl
    /\ if n <=? Z.of_nat (length (pool_objs (pool_data (mps_pool s))))
       then ret = 0 /\ drop (Z.to_nat n) tbl' = drop (Z.to_nat n) tbl
            /\ pool_objs (pool_data (mps_pool s)) ≡ₚ take (Z.to_nat n) tbl' ++ pool_objs p'
            /\ pool_room p' = pool_room (pool_data (mps_pool s)) + n
       else ret < 0 /\ pool_objs p' ≡ₚ pool_objs (pool_data (mps_pool s))
            /\ pool_room p' = pool_room (pool_data (mps_pool s)).
Proof.
  intros I Hn. destruct (dequeue_law (pool_data (mps_pool s)) tbl n Hn)
    as (ret & tbl' & p' & E & Hp).
  exists ret, tbl', p'. split; [|done]. unfold rte_mempool_ops_dequeue_bulk.
  rewrite I. simpl. by rewrite E.
Qed.

(** What a put of [n] objects of [tbl] leaves. *)
Definition put_post (k n : Z) (tbl : list Z) s s' : Prop :=
  all_objs s' ≡ₚ take (Z.to_nat n) tbl ++ all_objs s /\ mp_inv (k - n) s'
  /\ mp_flags (mps_pool s') = mp_flags (mps_pool s)
  /\ cache_size (mps_pool s') = cache_size (mps_pool s).

Lemma put_to_pool k n tbl s :
  mp_inv k s -> 0 <= n <= k -> n <= Z.of_nat (length tbl) ->
  exists s', (rte_mempool_ops_enqueue_bulk table tbl n ;; mret tt) s = Some (tt, s')
    /\ put_post k n tbl s s'.
Proof.
  intros I Hn Ht. pose proof (inv_room _ _ I).
  destruct (ops_enqueue_run s tbl n (get_ops_run _ _ I)) as (p' & E & Hp & Hr); [lia..|].
  exists (with_pool p' s). rewrite (mbind_run _ _ _ _ _ E). split; [done|].
  split; [|split; [|done]].
  - unfold all_objs. rewrite all_cached_with_pool. simpl. rewrite Hp. by rewrite (assoc_L (++)).
  - eapply mp_inv_with_pool; [done|]. lia.
Qed.

Lemma take_splice_end {A} (l : list A) (p n : nat) (a : list A) :
  length a = n -> (p + n <= length l)%nat -> take (p + n) (splice l p a) = take p l ++ a.
Proof.
  intros Ha Hl. unfold splice. rewrite (assoc_L (++)). rewrite take_app_length'; [done|].
  rewrite length_app, length_take. lia.
Qed.

(** The first [n] objects of [tbl] appended to a cache. *)
Definition pushed (c : rte_mempool_cache) (tbl : list Z) (n : Z) : rte_mempool_cache :=
  mk_cache (c_size c) (c_flushthresh c) (c_len c + n)
    (splice (c_objs c) (Z.to_nat (c_len c)) (take (Z.to_nat n) tbl)).

Lemma pushed_spec c tbl n :
  cache_ok c -> 0 <= n <= RTE_MEMPOOL_CACHE_MAX_SIZE -> n <= Z.of_nat (length tbl) ->
  length (c_objs (pushed c tbl n)) = Z.to_nat (RTE_MEMPOOL_CACHE_MAX_SIZE * 3)
  /\ cached (pushed c tbl n) = cached c ++ take (Z.to_nat n) tbl
  /\ c_len c + n < RTE_MEMPOOL_CACHE_MAX_SIZE * 3.
Proof.
  intros [Ho Hs Ht Hb Hl] Hn Htb. unfold RTE_MEMPOOL_CACHE_MAX_SIZE in *.
  assert (length (take (Z.to_nat n) tbl) = Z.to_nat n) as El by (rewrite length_take; lia).
  split; [|split; [|lia]].
  - simpl. rewrite length_splice; lia.
  - unfold cached. simpl. rewrite Z2Nat.inj_add by lia. apply take_splice_end; lia.
Qed.

Lemma cached_split c m :
  0 <= m <= c_len c -> cached c = cached (set_len m c) ++
    take (Z.to_nat (c_len c - m)) (drop (Z.to_nat m) (c_objs c)).
Proof.
  intros Hm. unfold cached. simpl.
  replace (Z.to_nat (c_len c)) with (Z.to_nat m + Z.to_nat (c_len c - m))%nat by lia.
  apply take_add.
Qed.

(** Storing a valid cache of [m] more objects. *)
Lemma with_cache_post k m s cp c c' :
  mp_inv k s -> lookup_cache cp s = Some c -> cache_ok c' -> c_len c' = c_len c + m ->
  mp_inv (k - m) (with_cache cp c' s).
Proof.
  intros I Hc Hok Hl. pose proof (lookup_cache_ok _ _ _ _ I Hc) as Hok0.
  destruct (all_cached_update _ _ _ Hc) as (rest & Er & Eu).
  eapply mp_inv_with_cache; [done|done|by rewrite Hc|].
  pose proof (inv_room _ _ I) as Hr. rewrite Eu. rewrite Er in Hr.
  rewrite !length_app, !Nat2Z.inj_add in *. rewrite length_cached in * by done. lia.
Qed.

Lemma flush_ok k s cp c objs len :
  mp_inv k s -> lookup_cache cp s = Some c ->
  let c1 := mk_cache (c_size c) (c_flushthresh c) len objs in
  let s1 := with_cache cp c1 s in
  length objs = Z.to_nat (RTE_MEMPOOL_CACHE_MAX_SIZE * 3) ->
  c_size c <= len <= RTE_MEMPOOL_CACHE_MAX_SIZE * 3 ->
  len - c_len c <= k ->
  exists p', rte_mempool_ops_enqueue_bulk table (drop (Z.to_nat (c_size c)) objs)
      (len - c_size c) s1 = Some (0, with_pool p' s1)
    /\ let s2 := with_pool p' (with_cache cp (set_len (c_size c) c1) s) in
       pool_objs p' ++ all_cached s2
       ≡ₚ pool_objs (pool_data (mps_pool s)) ++ all_cached s1
    /\ mp_inv (k - (len - c_len c)) s2.
Proof.
  intros I Hc c1 s1 Hobjs Hlen Hk. pose proof (lookup_cache_ok _ _ _ _ I Hc) as Hok.
  pose proof (ok_size _ Hok). pose proof (ok_len _ Hok). pose proof (ok_thresh _ Hok).
  pose proof (ok_thresh_bound _ Hok).
  destruct (all_cached_update _ _ _ Hc) as (rest & Er & Eu).
  pose proof (inv_room _ _ I) as Hr. rewrite Er in Hr.
  rewrite length_app, Nat2Z.inj_add, length_cached in Hr by done.
  assert (mps_pool s1 = mps_pool s \/ exists l, mps_pool s1 = set_local_cache l (mps_pool s)) as Hp.
  { unfold s1. destruct cp; simpl; eauto. }
  assert (pool_data (mps_pool s1) = pool_data (mps_pool s)
    /\ ops_index (mps_pool s1) = ops_index (mps_pool s)) as [Ep Ei] by (destruct Hp as [->|[l ->]]; done).
  destruct (ops_enqueue_run s1 (drop (Z.to_nat (c_size c)) objs) (len - c_size c))
    as (p' & E & Hpp & Hrr).
  - rewrite Ei. eapply get_ops_run, I.
  - rewrite length_drop, Hobjs. lia.
  - rewrite Ep. lia.
  - exists p'. split; [done|]. rewrite Ep in *. cbv zeta. split.
    + rewrite all_cached_with_pool. unfold s1. rewrite !Eu.
      rewrite (cached_split c1 (c_size c)) by (simpl; lia). simpl. clear -Hpp. perm_count.
    + pose proof (Eu (set_len (c_size c) c1)) as Es.
      assert (cache_ok (set_len (c_size c) c1)) as Hok2.
      { destruct Hok. split; simpl; try done. lia. }
      eapply (mp_inv_with_pool (k - (c_size c - c_len c))).
      * eapply with_cache_post; [done|done|done|simpl; lia].
      * rewrite Es, length_app, Nat2Z.inj_add, length_cached by done. simpl. lia.
Qed.

Lemma do_generic_put_ok k n tbl cache s :
  mp_inv k s -> cache_arg s cache -> 0 <= n <= k -> n <= Z.of_nat (length tbl) ->
  exists s', rte_mempool_do_generic_put table tbl n cache s = Some (tt, s')
    /\ put_post k n tbl s s'.
Proof.
  intros I Ha Hn Ht. unfold rte_mempool_do_generic_put.
  destruct cache as [cp|]; [|by apply put_to_pool].
  destruct (n >? RTE_MEMPOOL_CACHE_MAX_SIZE) eqn:Eb; [by apply put_to_pool|].
  rewrite Z.gtb_ltb in Eb. apply Z.ltb_ge in Eb.
  destruct Ha as [c Hc]. pose proof (lookup_cache_ok _ _ _ _ I Hc) as Hok.
  destruct (pushed_spec c tbl n Hok) as (Hlp & Hcp & Hlen); [lia..|].
  rewrite (mbind_run _ _ _ _ _ (load_cache_run _ _ _ Hc)).
  pose proof (ok_len _ Hok) as Hl. pose proof (ok_objs _ Hok) as Ho.
  pose proof (ok_thresh _ Hok). pose proof (ok_size _ Hok).
  rewrite (mbind_run _ _ s (c_objs (pushed c tbl n)) s).
  2:{ unfold lift. unfold RTE_MEMPOOL_CACHE_MAX_SIZE in *.
      rewrite mem_cpy_ok by lia. by rewrite drop_0. }
  cbv zeta. rewrite wrap_small by (unfold fits, RTE_MEMPOOL_CACHE_MAX_SIZE in *; simpl; lia).
  change (set_len (c_len c + n) (set_objs (c_objs (pushed c tbl n)) c)) with (pushed c tbl n).
  rewrite (mbind_run _ _ _ _ _ (store_cache_run cp c (pushed c tbl n) s Hc)).
  set (s1 := with_cache cp (pushed c tbl n) s).
  destruct (all_cached_update _ _ _ Hc) as (rest & Er & Eu).
  change (c_flushthresh (pushed c tbl n)) with (c_flushthresh c).
  change (c_len (pushed c tbl n)) with (c_len c + n).
  change (c_size (pushed c tbl n)) with (c_size c).
  pose proof (Eu (pushed c tbl n)) as E1. rewrite Hcp in E1. fold s1 in E1.
  destruct (c_flushthresh c <=? c_len c + n) eqn:Ef.
  - destruct (flush_ok k s cp c (c_objs (pushed c tbl n)) (c_len c + n) I Hc Hlp)
      as (p' & E & Ep & I'); [lia..|].
    rewrite wrap_small by (unfold fits, RTE_MEMPOOL_CACHE_MAX_SIZE in *; lia).
    rewrite (mbind_run _ _ _ _ _ E).
    rewrite (store_cache_run cp (pushed c tbl n)) by (by eapply lookup_with_cache).
    eexists. split; [done|]. rewrite with_cache_pool, with_cache_twice.
    split; [|split; [|by destruct cp]].
    + unfold all_objs. simpl. rewrite Ep.
      change (all_cached (with_cache cp _ s)) with (all_cached s1). clear -E1 Er. perm_count.
    + replace (k - n) with (k - (c_len c + n - c_len c)) by lia. exact I'.
  - eexists. split; [done|]. split; [|split; [|by destruct cp]].
    + unfold all_objs. replace (pool_data (mps_pool s1)) with (pool_data (mps_pool s))
        by (by unfold s1; destruct cp). clear -E1 Er. perm_count.
    + eapply with_cache_post; [done|done| |done]. destruct Hok. split; try done. simpl. lia.
Qed.

Lemma fill_from_cache c tbl n :
  cache_mem c -> 0 <= n <= c_len c -> n <= Z.of_nat (length tbl) ->
  fill_response (Datatypes.S (Z.to_nat n)) (c_objs c) tbl 0 (u32 (c_len c - 1)) n
  = Some (reverse (drop (Z.to_nat (c_len c - n)) (cached c)) ++ drop (Z.to_nat n) tbl).
Proof.
  intros [Ho Hl] Hn Ht. unfold RTE_MEMPOOL_CACHE_MAX_SIZE in *.
  pose proof (fill_response_run (c_objs c) (Z.to_nat n) tbl 0 (Z.to_nat (c_len c))
    (Datatypes.S (Z.to_nat n))) as HF.
  rewrite Nat.add_0_l, !Z2Nat.id in HF by lia. change (Z.of_nat 0) with 0 in HF.
  rewrite HF by lia. rewrite take_0, app_nil_l. do 3 f_equal. unfold cached.
  rewrite skipn_firstn_comm. f_equal; [lia|]. f_equal. lia.
Qed.

(** What a get of [n] objects leaves: on success the objects, which were in
    the pool or its caches, at the start of the table. *)
Definition get_post (k n : Z) (tbl : list Z) s (ret : Z) (tbl' : list Z) s' : Prop :=
  (ret = 0 /\ length tbl' = length tbl
   /\ drop (Z.to_nat n) tbl' = drop (Z.to_nat n) tbl
   /\ all_objs s ≡ₚ take (Z.to_nat n) tbl' ++ all_objs s' /\ mp_inv (k + n) s')
  \/ (ret < 0 /\ length tbl' = length tbl /\ all_objs s' ≡ₚ all_objs s /\ mp_inv k s'
      /\ Z.of_nat (length (pool_objs (pool_data (mps_pool s)))) < n
      /\ pool_objs (pool_data (mps_pool s')) ≡ₚ pool_objs (pool_data (mps_pool s))).

Lemma get_from_pool k n tbl s :
  mp_inv k s -> 0 <= n <= Z.of_nat (length tbl) ->
  exists ret tbl' s', rte_mempool_ops_dequeue_bulk table tbl n s = Some (ret, tbl', s')
    /\ get_post k n tbl s ret tbl' s'.
Proof.
  intros I Hn. pose proof (inv_room _ _ I).
  destruct (ops_dequeue_run s tbl n (get_ops_run _ _ I) Hn) as (ret & tbl' & p' & E & Hl & Hp).
  eexists ret, tbl', _. split; [done|]. destruct (n <=? _) eqn:En; [left|right].
  - destruct Hp as (-> & Hd & Hperm & Hr). split; [done|]. split; [done|]. split; [done|].
    split; [unfold all_objs; rewrite Hperm; by rewrite (assoc_L (++))|].
    eapply mp_inv_with_pool; [done|]. lia.
  - destruct Hp as (Hret & Hperm & Hr). split; [done|]. split; [done|].
    split; [unfold all_objs; simpl; by rewrite Hperm|]. split; [|split; [lia|done]].
    eapply mp_inv_with_pool; [done|]. lia.
Qed.

(** The objects a cache hands out: its last [n], last first. *)
Definition popped (c : rte_mempool_cache) (n : Z) : list Z :=
  reverse (drop (Z.to_nat (c_len c - n)) (cached c)).

Definition respond (cp : cache_ptr) (tbl : list Z) (n : Z) : M (mp_state P) (Z * list Z) :=
  c ← load_cache cp ;
  obj_table ← lift (fill_response (Datatypes.S (Z.to_nat n)) (c_objs c) tbl
                      0 (u32 (c_len c - 1)) n) ;
  store_cache cp (set_len (u32 (c_len c - n)) c) ;;
  mret (0, obj_table).

Lemma length_popped c n : cache_mem c -> 0 <= n <= c_len c -> length (popped c n) = Z.to_nat n.
Proof.
  intros Hm Hn. pose proof (length_cached_mem _ Hm). unfold popped.
  rewrite length_reverse, length_drop. lia.
Qed.

Lemma respond_run tbl n s cp c :
  lookup_cache cp s = Some c -> cache_mem c -> 0 <= n <= c_len c -> n <= Z.of_nat (length tbl) ->
  let s' := with_cache cp (set_len (c_len c - n) c) s in
  respond cp tbl n s = Some (0, popped c n ++ drop (Z.to_nat n) tbl, s')
  /\ all_objs s ≡ₚ popped c n ++ all_objs s'.
Proof.
  intros Hc Hm Hn Ht s'. unfold respond.
  rewrite (mbind_run _ _ _ _ _ (load_cache_run _ _ _ Hc)).
  rewrite fill_from_cache by done. rewrite (mbind_run _ _ s _ s) by done.
  rewrite wrap_small by (destruct Hm; unfold fits, RTE_MEMPOOL_CACHE_MAX_SIZE in *; lia).
  rewrite (mbind_run _ _ _ _ _ (store_cache_run cp c _ s Hc)). split; [done|].
  destruct (all_cached_update _ _ _ Hc) as (rest & Er & Eu).
  unfold popped. rewrite reverse_Permutation.
  unfold all_objs. replace (pool_data (mps_pool s')) with (pool_data (mps_pool s))
    by (by unfold s'; destruct cp). unfold s'. rewrite Eu, Er.
  assert (cached c = cached (set_len (c_len c - n) c) ++ drop (Z.to_nat (c_len c - n)) (cached c))
    as Ec.
  { rewrite <- (take_drop (Z.to_nat (c_len c - n)) (cached c)) at 1. f_equal.
    unfold cached. simpl. rewrite take_take. f_equal. lia. }
  rewrite Ec at 1. clear. perm_count.
Qed.

(** The backfill of a cache that holds fewer than [n] objects. *)
Lemma backfill_run k n s cp c :
  mp_inv k s -> lookup_cache cp s = Some c -> c_len c < n < c_size c ->
  let req := n + (c_size c - c_len c) in
  exists ret tbl' p',
    rte_mempool_ops_dequeue_bulk table (drop (Z.to_nat (c_len c)) (c_objs c)) req s
    = Some (ret, tbl', with_pool p' s)
    /\ let c' := set_objs (take (Z.to_nat (c_len c)) (c_objs c) ++ tbl') c in
       if ret <? 0
       then cache_ok c' /\ cached c' = cached c /\ pool_room p' = pool_room (pool_data (mps_pool s))
            /\ pool_objs p' ≡ₚ pool_objs (pool_data (mps_pool s))
       else cache_mem (set_len (c_len c + req) c')
            /\ cached (set_len (c_len c + req) c') = cached c ++ take (Z.to_nat req) tbl'
            /\ pool_room p' = pool_room (pool_data (mps_pool s)) + req
            /\ pool_objs (pool_data (mps_pool s)) ≡ₚ take (Z.to_nat req) tbl' ++ pool_objs p'.
Proof.
  intros I Hc Hn req. pose proof (lookup_cache_ok _ _ _ _ I Hc) as Hok.
  destruct Hok as [Ho Hs Ht Hb Hl]. unfold RTE_MEMPOOL_CACHE_MAX_SIZE in *.
  destruct (ops_dequeue_run s (drop (Z.to_nat (c_len c)) (c_objs c)) req (get_ops_run _ _ I))
    as (ret & tbl' & p' & E & Hlt & Hp); [rewrite length_drop; lia|].
  rewrite length_drop in Hlt. exists ret, tbl', p'. split; [done|]. cbv zeta.
  assert (length (take (Z.to_nat (c_len c)) (c_objs c) ++ tbl')
    = Z.to_nat (RTE_MEMPOOL_CACHE_MAX_SIZE * 3)) as Hl'.
  { unfold RTE_MEMPOOL_CACHE_MAX_SIZE. rewrite length_app, length_take. lia. }
  destruct (req <=? _).
  - destruct Hp as (-> & Hd & Hperm & Hr). simpl. split; [|split; [|done]].
    + split; [done|]. unfold RTE_MEMPOOL_CACHE_MAX_SIZE. simpl. lia.
    + unfold cached. simpl. rewrite Z2Nat.inj_add by lia.
      rewrite take_app_ge by (rewrite length_take; lia). f_equal.
      f_equal. rewrite length_take. lia.
  - destruct Hp as (Hret & Hperm & Hr). rewrite (proj2 (Z.ltb_lt _ _) Hret).
    split; [by split|]. split; [|done]. unfold cached. simpl.
    rewrite take_app_le by (rewrite length_take; lia). rewrite take_take. f_equal. lia.
Qed.

(** A get that the cache satisfies. *)
Lemma get_hit k n tbl s cp c :
  mp_inv k s -> lookup_cache cp s = Some c -> 0 <= n <= c_len c -> n <= Z.of_nat (length tbl) ->
  let s' := with_cache cp (set_len (c_len c - n) c) s in
  respond cp tbl n s = Some (0, popped c n ++ drop (Z.to_nat n) tbl, s')
  /\ get_post k n tbl s 0 (popped c n ++ drop (Z.to_nat n) tbl) s'.
Proof.
  intros I Hc Hn Ht s'. pose proof (lookup_cache_ok _ _ _ _ I Hc) as Hok.
  pose proof (cache_ok_mem _ Hok) as Hm. pose proof (length_popped c n Hm Hn) as Hl.
  destruct (respond_run tbl n s cp c Hc Hm Hn Ht) as [HR Hp]. split; [done|]. left.
  split; [done|]. split; [rewrite length_app, length_drop; lia|].
  split; [by rewrite drop_app_length'|]. split; [by rewrite take_app_length'|].
  replace (k + n) with (k - (- n)) by lia. eapply with_cache_post; [done|done| |simpl; lia].
  destruct Hok. split; try done. simpl. lia.
Qed.

(** A get after a successful backfill. *)
Lemma get_filled k n tbl s cp c c1 p' :
  mp_inv k s -> lookup_cache cp s = Some c -> 0 <= c_len c < n -> n < c_size c ->
  n <= Z.of_nat (length tbl) ->
  c_size c1 = c_size c -> c_flushthresh c1 = c_flushthresh c -> c_len c1 = n + c_size c ->
  cache_mem c1 -> (exists x, cached c1 = cached c ++ x
    /\ pool_objs (pool_data (mps_pool s)) ≡ₚ x ++ pool_objs p') ->
  pool_room p' = pool_room (pool_data (mps_pool s)) + (n + (c_size c - c_len c)) ->
  exists tbl' s', respond cp tbl n (with_cache cp c1 (with_pool p' s)) = Some (0, tbl', s')
  /\ get_post k n tbl s 0 tbl' s'.
Proof.
  intros I Hc Hn Hsz Ht E1 E2 E3 Hm (x & Hx & Hp) Hr.
  pose proof (lookup_cache_ok _ _ _ _ I Hc) as Hok.
  set (s1 := with_cache cp c1 (with_pool p' s)).
  assert (lookup_cache cp s1 = Some c1) as Hc1 by (by eapply lookup_with_cache).
  destruct (respond_run tbl n s1 cp c1 Hc1 Hm) as [HR Hperm]; [lia..|].
  pose proof (length_popped c1 n Hm ltac:(lia)) as Hl.
  eexists _, _. split; [exact HR|]. left.
  split; [done|]. split; [rewrite length_app, length_drop; lia|].
  split; [by rewrite drop_app_length'|].
  destruct (all_cached_update _ _ _ Hc) as (rest & Er & Eu).
  unfold s1 in *. rewrite with_cache_twice, with_cache_pool in *.
  rewrite take_app_length' by done. rewrite with_cache_pool in Hperm. split.
  - rewrite <- Hperm. unfold all_objs. rewrite all_cached_with_pool. simpl.
    pose proof (Eu c1) as E4. rewrite Hx in E4. clear -E4 Er Hp. perm_count.
  - assert (cache_ok (set_len (c_len c1 - n) c1)) as Hok'.
    { destruct Hok, Hm. split; simpl; try done; lia. }
    eapply (mp_inv_with_pool (k - (c_size c - c_len c))).
    + eapply with_cache_post; [done|done|done|]. simpl. lia.
    + rewrite Eu. pose proof (inv_room _ _ I) as Hrm. rewrite Er in Hrm.
      rewrite !length_app, !Nat2Z.inj_add in *. rewrite length_cached in * by done. simpl. lia.
Qed.

Lemma get_post_ext k n tbl s1 s ret tbl' s' :
  pool_objs (pool_data (mps_pool s1)) ≡ₚ pool_objs (pool_data (mps_pool s)) ->
  all_cached s1 ≡ₚ all_cached s ->
  get_post k n tbl s1 ret tbl' s' -> get_post k n tbl s ret tbl' s'.
Proof.
  intros Ep Ec [(Hr & Hl & Hd & Ho & I')|(Hr & Hl & Ho & I' & Hlt & Hpo)]; [left|right].
  - do 3 (split; [done|]). split; [|done]. unfold all_objs in *. clear -Ho Ep Ec. perm_count.
  - do 2 (split; [done|]). split; [unfold all_objs in *; clear -Ho Ep Ec; perm_count|].
    split; [done|]. rewrite <- Ep. by split.
Qed.

Lemma do_generic_get_ok k n tbl cache s :
  mp_inv k s -> cache_arg s cache -> 0 <= n <= Z.of_nat (length tbl) ->
  exists ret tbl' s', rte_mempool_do_generic_get table tbl n cache s = Some (ret, tbl', s')
    /\ get_post k n tbl s ret tbl' s'.
Proof.
  intros I Ha Hn. unfold rte_mempool_do_generic_get.
  destruct cache as [cp|]; [|by apply get_from_pool].
  destruct Ha as [c Hc]. pose proof (lookup_cache_ok _ _ _ _ I Hc) as Hok.
  rewrite (mbind_run _ _ _ _ _ (load_cache_run _ _ _ Hc)).
  destruct (c_size c <=? n) eqn:Es; [by apply get_from_pool|]. apply Z.leb_gt in Es.
  pose proof (ok_len _ Hok) as Hl. pose proof (ok_size _ Hok) as Hs.
  destruct (c_len c <? n) eqn:El.
  2:{ apply Z.ltb_ge in El. rewrite (mbind_run _ _ s true s) by done. cbn [negb].
      destruct (get_hit k n tbl s cp c I Hc) as [HR HP]; [lia..|]. eauto. }
  apply Z.ltb_lt in El. unfold RTE_MEMPOOL_CACHE_MAX_SIZE in Hs.
  rewrite (wrap_small 32 (c_size c - c_len c)) by (unfold fits; lia).
  rewrite (wrap_small 32 (n + _)) by (unfold fits; lia).
  destruct (backfill_run k n s cp c I Hc) as (ret & tbl' & p' & E & HB); [lia|].
  cbv zeta. unfold mbind at 1, M_bind. rewrite (mbind_run _ _ _ _ _ E).
  set (c' := set_objs _ c) in *. destruct (ret <? 0) eqn:Er.
  - destruct HB as (Hok' & Hcc & Hr & Hpo).
    rewrite (mbind_run _ _ _ _ _ (store_cache_run cp c c' (with_pool p' s) ltac:(by rewrite lookup_with_pool))).
    cbn [mret M_ret negb].
    destruct (all_cached_update _ _ _ Hc) as (rest & E1 & E2).
    assert (all_cached (with_cache cp c' s) ≡ₚ all_cached s) as Ec by (by rewrite E2, E1, Hcc).
    destruct (get_from_pool k n tbl (with_cache cp c' (with_pool p' s))) as (ret' & tbl2 & s' & HR & HP).
    + rewrite with_cache_pool. eapply (mp_inv_with_pool k).
      * replace k with (k - 0) by lia. eapply with_cache_post; [done|done|done|simpl; lia].
      * rewrite Ec, Hr. apply I.
    + done.
    + exists ret', tbl2, s'. split; [exact HR|]. rewrite with_cache_pool in HP.
      eapply get_post_ext; [..|exact HP]; [exact Hpo|]. by rewrite all_cached_with_pool.
  - destruct HB as (Hm & Hcc & Hr & Hpo).
    rewrite (wrap_small 32 (c_len c + _)) by (unfold fits; lia).
    rewrite (mbind_run _ _ _ _ _ (store_cache_run cp c _ (with_pool p' s) ltac:(by rewrite lookup_with_pool))).
    cbn [mret M_ret negb].
    eapply (get_filled k n tbl s cp c _ p' I Hc) in Hm as (tbl2 & s' & HR & HP);
      [|lia..|done|done|simpl; lia|eauto|done].
    exists 0, tbl2, s'. split; [exact HR|done].
Qed.

(** ** The functions that use the cache of the running lcore *)

Lemma default_cache_arg k s lcore :
  mp_inv k s -> 0 <= lcore -> cache_arg s (rte_mempool_default_cache (mps_pool s) lcore).
Proof.
  intros I Hl. unfold rte_mempool_default_cache.
  destruct (cache_size (mps_pool s) =? 0) eqn:E; [done|]. apply Z.eqb_neq in E.
  destruct (RTE_MAX_LCORE <=? lcore) eqn:Em; [done|]. apply Z.leb_gt in Em.
  simpl. pose proof (inv_lcores _ _ I E) as Hlen. unfold aget.
  rewrite (proj2 (Z.leb_le 0 lcore)) by done. apply lookup_lt_is_Some_2. lia.
Qed.

Lemma put_bulk_ok k n tbl s :
  mp_inv k s -> 0 <= lcore_id -> 0 <= n <= k -> n <= Z.of_nat (length tbl) ->
  exists s', rte_mempool_put_bulk table lcore_id tbl n s = Some (tt, s')
    /\ put_post k n tbl s s'.
Proof.
  intros I Hl Hn Ht. unfold rte_mempool_put_bulk. rewrite (mbind_run get _ s s s) by done.
  apply do_generic_put_ok; [done|by eapply default_cache_arg|done|done].
Qed.

Lemma get_bulk_ok k n tbl s :
  mp_inv k s -> 0 <= lcore_id -> 0 <= n <= Z.of_nat (length tbl) ->
  exists ret tbl' s', rte_mempool_get_bulk table lcore_id tbl n s = Some (ret, tbl', s')
    /\ get_post k n tbl s ret tbl' s'.
Proof.
  intros I Hl Hn. unfold rte_mempool_get_bulk. rewrite (mbind_run get _ s s s) by done.
  apply do_generic_get_ok; [done|by eapply default_cache_arg|done].
Qed.

(** [rte_mempool_cache_flush] empties the given cache, or the one of the
    running lcore when none is given, into the common pool: it returns
    normally, conserves the objects, keeps the invariant, and the cache holds
    no object afterwards. *)
Theorem cache_flush_empties (k : Z) (cache : option cache_ptr) (s : mp_state P) :
  mp_inv k s -> 0 <= k -> 0 <= lcore_id -> cache_arg s cache ->
  exists s', rte_mempool_cache_flush table lcore_id cache s = Some (tt, s')
    /\ all_objs s' ≡ₚ all_objs s /\ mp_inv k s'
    /\ match (match cache with
              | None => rte_mempool_default_cache (mps_pool s) lcore_id
              | Some _ => cache
              end) with
       | Some cp => exists c, lookup_cache cp s' = Some c /\ cached c = []
       | None => s' = s
       end.
Proof.
  intros I Hk Hl Ha. unfold rte_mempool_cache_flush. rewrite (mbind_run get _ s s s) by done.
  set (cache' := match cache with None => _ | Some _ => cache end).
  assert (cache_arg s cache') as Ha'.
  { unfold cache'. destruct cache; [done|]. by eapply default_cache_arg. }
  destruct cache' as [cp|]; [|by exists s]. destruct Ha' as [c Hc].
  pose proof (lookup_cache_ok _ _ _ _ I Hc) as Hok. pose proof (length_cached _ Hok) as Hlc.
  pose proof (ok_len _ Hok) as Hlen. pose proof (ok_objs _ Hok) as Ho.
  pose proof (ok_thresh_bound _ Hok) as Hb. unfold RTE_MEMPOOL_CACHE_MAX_SIZE in *.
  rewrite (mbind_run _ _ _ _ _ (load_cache_run _ _ _ Hc)).
  destruct (c_len c =? 0) eqn:E0.
  - exists s. repeat (split; [done|]). exists c. split; [done|]. apply nil_length_inv. lia.
  - destruct (all_cached_update _ _ _ Hc) as (rest & Er & Eu).
    pose proof (inv_room _ _ I) as Hr. rewrite Er, length_app, Nat2Z.inj_add, Hlc in Hr.
    destruct (ops_enqueue_run s (c_objs c) (c_len c) (get_ops_run _ _ I)) as (p' & E & Hp & Hrr);
      [lia..|].
    rewrite (mbind_run _ _ _ _ _ E).
    rewrite (store_cache_run cp c) by (by rewrite lookup_with_pool).
    eexists. split; [done|]. rewrite with_cache_pool.
    pose proof (Eu (set_len 0 c)) as E2. change (cached (set_len 0 c)) with (@nil Z) in E2. split; [|split].
    + unfold all_objs. rewrite all_cached_with_pool. simpl.
      change (take (Z.to_nat (c_len c)) (c_objs c)) with (cached c) in Hp.
      clear -E2 Er Hp. perm_count.
    + eapply (mp_inv_with_pool (k - (- c_len c))).
      * eapply with_cache_post; [done|done| |simpl; lia]. destruct Hok. split; simpl; try done. lia.
      * rewrite E2. simpl. lia.
    + exists (set_len 0 c). rewrite lookup_with_pool. split; [by eapply lookup_with_cache|done].
Qed.

(** Putting objects back conserves them: on a mempool whose invariant
    holds with [k] objects in use, [rte_mempool_generic_put] of [n] of them,
    to no cache, a per-lcore cache or a caller's cache, returns normally (no
    copy leaves the cache array, no index is out of range), adds exactly these
    objects to the pool and its caches, and the invariant holds again: each
    cache is at most at its flush threshold, and the driver still has room
    for every object that is not in it. *)
Theorem mempool_put_conserves (k n : Z) (tbl : list Z) (cache : option cache_ptr)
  (s : mp_state P) :
  mp_inv k s -> cache_arg s cache -> 0 <= n <= k -> n <= Z.of_nat (length tbl) ->
  exists s', rte_mempool_generic_put table tbl n cache s = Some (tt, s')
    /\ all_objs s' ≡ₚ take (Z.to_nat n) tbl ++ all_objs s
    /\ mp_inv (k - n) s'.
Proof.
  intros I Ha Hn Ht. destruct (do_generic_put_ok k n tbl cache s I Ha Hn Ht) as (s' & HR & Hp).
  exists s'. split; [exact HR|]. by destruct Hp as (H1 & H2 & _).
Qed.

(** Taking objects conserves them: [rte_mempool_generic_get] returns
    normally, and either returns 0 with [n] objects at the start of the table,
    all of which were in the pool or its caches and no longer are, or returns a
    negative code with every object still in the pool or its caches; it fails
    only when the common pool itself holds fewer than [n] objects, and leaves
    that pool as it was.  The
    invariant is kept in both cases. *)
Theorem mempool_get_conserves (k n : Z) (tbl : list Z) (cache : option cache_ptr)
  (s : mp_state P) :
  mp_inv k s -> cache_arg s cache -> 0 <= n <= Z.of_nat (length tbl) ->
  exists ret tbl' s', rte_mempool_generic_get table tbl n cache s = Some (ret, tbl', s')
    /\ ((ret = 0 /\ drop (Z.to_nat n) tbl' = drop (Z.to_nat n) tbl
          /\ all_objs s ≡ₚ take (Z.to_nat n) tbl' ++ all_objs s' /\ mp_inv (k + n) s')
        \/ (ret < 0 /\ all_objs s' ≡ₚ all_objs s /\ mp_inv k s'
            /\ Z.of_nat (length (pool_objs (pool_data (mps_pool s)))) < n
            /\ pool_objs (pool_data (mps_pool s')) ≡ₚ pool_objs (pool_data (mps_pool s)))).
Proof.
  intros I Ha Hn. destruct (do_generic_get_ok k n tbl cache s I Ha Hn) as (r & t & s' & HR & Hp).
  exists r, t, s'. split; [exact HR|].
  destruct Hp as [(H1 & _ & H2)|(H1 & _ & H2)]; [left|right]; by split.
Qed.

(** A request smaller than the cache that the cache can serve is served
    from it, last in, first out, and leaves the common pool alone. *)
Theorem mempool_get_lifo (k n : Z) (tbl : list Z) (cp : cache_ptr) (c : rte_mempool_cache)
  (s : mp_state P) :
  mp_inv k s -> lookup_cache cp s = Some c ->
  0 <= n <= c_len c -> n < c_size c -> n <= Z.of_nat (length tbl) ->
  rte_mempool_generic_get table tbl n (Some cp) s
  = Some (0, reverse (drop (Z.to_nat (c_len c - n)) (cached c)) ++ drop (Z.to_nat n) tbl,
          with_cache cp (set_len (c_len c - n) c) s).
Proof.
  intros I Hc Hn Hs Ht. destruct (get_hit k n tbl s cp c I Hc Hn Ht) as [HR _].
  unfold rte_mempool_generic_get, rte_mempool_do_generic_get.
  rewrite (mbind_run _ _ _ _ _ (load_cache_run _ _ _ Hc)).
  rewrite (proj2 (Z.leb_gt _ _) Hs), (proj2 (Z.ltb_ge _ _) (proj2 Hn)).
  rewrite (mbind_run _ _ s true s) by done. exact HR.
Qed.
End correctness.

(** ** The caches of the callers are not touched by the default functions *)
Section frame.
Context {P : Type} (table : Z -> rte_mempool_ops P) (lcore_id : Z).

Definition keeps_user {A} (m : M (mp_state P) A) : Prop :=
  forall s a s', m s = Some (a, s') -> mps_user s' = mps_user s.

Lemma keeps_user_bind {A B} (m : M (mp_state P) A) (f : A -> M (mp_state P) B) :
  keeps_user m -> (forall a, keeps_user (f a)) -> keeps_user (m ≫= f).
Proof.
  intros Hm Hf s b s' H. minv H. rewrite (Hf _ _ _ _ H). by apply (Hm _ _ _ E).
Qed.

Lemma keeps_user_ret {A} (a : A) : keeps_user (mret a : M (mp_state P) A).
Proof. by intros s b s' [= _ <-]. Qed.

Lemma keeps_user_get : keeps_user (get : M (mp_state P) _).
Proof. by intros s b s' [= _ <-]. Qed.

Lemma keeps_user_lift {A} (o : option A) : keeps_user (lift o : M (mp_state P) A).
Proof. intros s b s'. unfold lift. destruct o; [|done]. by intros [= _ <-]. Qed.

Lemma keeps_user_enqueue tbl n : keeps_user (rte_mempool_ops_enqueue_bulk table tbl n).
Proof.
  intros s b s' H. apply bind_Some in H as (o & _ & H).
  destruct (ops_enqueue o _ _ _). by injection H as _ <-.
Qed.

Lemma keeps_user_dequeue tbl n : keeps_user (rte_mempool_ops_dequeue_bulk table tbl n).
Proof.
  intros s b s' H. apply bind_Some in H as (o & _ & H).
  destruct (ops_dequeue o _ _ _) as [[] ?]. by injection H as _ <-.
Qed.

Lemma keeps_user_load cp : keeps_user (load_cache cp : M (mp_state P) _).
Proof. intros s b s' H. apply bind_Some in H as (c & _ & H). by injection H as _ <-. Qed.

Lemma keeps_user_store i c : keeps_user (store_cache (LocalCache i) c : M (mp_state P) _).
Proof. intros s b s' H. apply bind_Some in H as (l & _ & H). by injection H as _ <-. Qed.

(** Each step of a default function is one of the above. *)
Ltac keeps :=
  repeat match goal with
  | |- keeps_user (_ ≫= _) => apply keeps_user_bind; [|intros]
  | |- keeps_user (mret _) => apply keeps_user_ret
  | |- keeps_user get => apply keeps_user_get
  | |- keeps_user (lift _) => apply keeps_user_lift
  | |- keeps_user (rte_mempool_ops_enqueue_bulk _ _ _) => apply keeps_user_enqueue
  | |- keeps_user (rte_mempool_ops_dequeue_bulk _ _ _) => apply keeps_user_dequeue
  | |- keeps_user (load_cache _) => apply keeps_user_load
  | |- keeps_user (store_cache (LocalCache _) _) => apply keeps_user_store
  | |- keeps_user (if ?c then _ else _) => destruct c
  | |- keeps_user (let '(_, _) := ?p in _) => destruct p
  | |- keeps_user (match ?p with (_, _) => _ end) => destruct p
  end.

Lemma keeps_user_put_bulk tbl n : keeps_user (rte_mempool_put_bulk table lcore_id tbl n).
Proof.
  unfold rte_mempool_put_bulk, rte_mempool_generic_put, rte_mempool_do_generic_put.
  apply keeps_user_bind; [apply keeps_user_get|intros s]. unfold rte_mempool_default_cache.
  destruct (cache_size (mps_pool s) =? 0); [keeps|].
  destruct (RTE_MAX_LCORE <=? lcore_id); keeps.
Qed.

Lemma keeps_user_get_bulk tbl n : keeps_user (rte_mempool_get_bulk table lcore_id tbl n).
Proof.
  unfold rte_mempool_get_bulk, rte_mempool_generic_get, rte_mempool_do_generic_get.
  apply keeps_user_bind; [apply keeps_user_get|intros s]. unfold rte_mempool_default_cache.
  destruct (cache_size (mps_pool s) =? 0); [keeps|].
  destruct (RTE_MAX_LCORE <=? lcore_id); keeps.
Qed.
End frame.

(** ** Clients

    Any number of lcores take and return objects, one call at a time; [in_use]
    are the objects they hold. *)
Section clients.
Context {P : Type} (table : Z -> rte_mempool_ops P) (o : rte_mempool_ops P) `{LawfulOps P o}.

Inductive client_op :=
| ClientGet (lcore n : Z)
| ClientPut (lcore n : Z).

(** A client returns the first [n] objects in use; it never returns more than
    there are. *)
Definition client_step (op : client_op) (st : mp_state P * list Z)
  : option (mp_state P * list Z) :=
  let '(s, in_use) := st in
  match op with
  | ClientGet lcore n =>
      '(ret, tbl, s') ← rte_mempool_get_bulk table lcore (replicate (Z.to_nat n) 0) n s ;
      Some (s', if ret =? 0 then take (Z.to_nat n) tbl ++ in_use else in_use)
  | ClientPut lcore n =>
      let n := Z.min n (Z.of_nat (length in_use)) in
      '(_, s') ← rte_mempool_put_bulk table lcore in_use n s ;
      Some (s', drop (Z.to_nat n) in_use)
  end.

Definition client_ok (op : client_op) : Prop :=
  match op with
  | ClientGet lcore n | ClientPut lcore n => 0 <= lcore /\ 0 <= n
  end.

Lemma client_step_ok op s in_use :
  mp_inv table o (Z.of_nat (length in_use)) s -> client_ok op ->
  exists s' in_use', client_step op (s, in_use) = Some (s', in_use')
    /\ mp_inv table o (Z.of_nat (length in_use')) s'
    /\ in_use' ++ all_objs o s' ≡ₚ in_use ++ all_objs o s.
Proof.
  intros I Hop. destruct op as [lcore n|lcore n]; destruct Hop as [Hl Hn]; simpl.
  - destruct (get_bulk_ok table o lcore _ n (replicate (Z.to_nat n) 0) s I Hl)
      as (ret & tbl' & s' & HR & Hp); [rewrite length_replicate; lia|].
    rewrite HR. cbn [mbind option_bind]. eexists _, _. split; [done|].
    destruct Hp as [(-> & Hlt & _ & Ho & I')|(Hr & _ & Ho & I' & _)].
    + rewrite length_replicate in Hlt. simpl (0 =? 0). cbv iota. split.
      * replace (Z.of_nat (length _)) with (Z.of_nat (length in_use) + n); [done|].
        rewrite length_app, length_take. lia.
      * clear -Ho. perm_count.
    + rewrite (proj2 (Z.eqb_neq ret 0)) by lia. split; [done|]. clear -Ho. perm_count.
  - set (m := Z.min n (Z.of_nat (length in_use))).
    destruct (put_bulk_ok table o lcore _ m in_use s I Hl) as (s' & HR & Hp); [lia..|].
    rewrite HR. cbn [mbind option_bind]. eexists _, _. split; [done|].
    destruct Hp as (Ho & I' & _). split.
    + replace (Z.of_nat (length _)) with (Z.of_nat (length in_use) - m); [done|].
      rewrite length_drop. lia.
    + rewrite <- (take_drop (Z.to_nat m) in_use) at 2. clear -Ho. perm_count.
Qed.

Fixpoint client_run (ops : list client_op) (st : mp_state P * list Z)
  : option (mp_state P * list Z) :=
  match ops with
  | [] => Some st
  | op :: ops' => st' ← client_step op st ; client_run ops' st'
  end.

(** C26. No object is lost or handed out twice: whatever sequence of bulk gets
    and puts the lcores run, it runs to the end, the objects in use together
    with those in the pool and in the caches are the objects there were at the
    start, and if these were distinct they stay distinct; in particular no
    object is at the same time in use and available. *)
Theorem mempool_no_double_allocation (ops : list client_op) (s : mp_state P) (in_use : list Z) :
  mp_inv table o (Z.of_nat (length in_use)) s -> Forall client_ok ops ->
  NoDup (in_use ++ all_objs o s) ->
  exists s' in_use', client_run ops (s, in_use) = Some (s', in_use')
    /\ mp_inv table o (Z.of_nat (length in_use')) s'
    /\ in_use' ++ all_objs o s' ≡ₚ in_use ++ all_objs o s
    /\ NoDup (in_use' ++ all_objs o s').
Proof.
  intros I Hops Hnd.
  assert (exists s' in_use', client_run ops (s, in_use) = Some (s', in_use')
    /\ mp_inv table o (Z.of_nat (length in_use')) s'
    /\ in_use' ++ all_objs o s' ≡ₚ in_use ++ all_objs o s) as (s' & u & HR & I' & Hp).
  - clear Hnd. revert s in_use I. induction Hops as [|op ops Hop Hops IH]; intros s in_use I.
    { by exists s, in_use. }
    destruct (client_step_ok op s in_use I Hop) as (s1 & u1 & E1 & I1 & P1).
    destruct (IH s1 u1 I1) as (s2 & u2 & E2 & I2 & P2).
    exists s2, u2. cbn [client_run]. rewrite E1. split; [exact E2|]. split; [done|].
    by rewrite P2.
  - exists s', u. split; [done|]. split; [done|]. split; [done|]. by rewrite Hp.
Qed.
End clients.

(** ** A concrete driver

    A first-in first-out list of at most 4096 objects: the hypotheses above
    have an instance. *)
Definition fifo_enqueue (p tbl : list Z) (n : Z) : Z * list Z :=
  if n <=? 4096 - Z.of_nat (length p) then (0, p ++ take (Z.to_nat n) tbl) else (-105, p).

Definition fifo_dequeue (p tbl : list Z) (n : Z) : Z * list Z * list Z :=
  if n <=? Z.of_nat (length p)
  then (0, take (Z.to_nat n) p ++ drop (Z.to_nat n) tbl, drop (Z.to_nat n) p)
  else (-2, tbl, p).

Definition fifo_ops : rte_mempool_ops (list Z) :=
  mk_ops _ fifo_enqueue fifo_dequeue (fun p => Z.of_nat (length p)) fifo_dequeue.

#[refine] Instance fifo_lawful : LawfulOps fifo_ops := {|
  pool_objs := id;
  pool_room p := 4096 - Z.of_nat (length p)
|}.
Proof.
  - intros p tbl n Hn Hr. simpl. unfold fifo_enqueue. rewrite (proj2 (Z.leb_le _ _) Hr).
    eexists. split; [done|]. split; [apply Permutation_app_comm|].
    rewrite length_app, length_take. lia.
  - intros p tbl n Hn. simpl. unfold fifo_dequeue. unfold id.
    destruct (n <=? Z.of_nat (length p)) eqn:E; eexists _, _, _; (split; [done|]).
    + apply Z.leb_le in E.
      assert (length (take (Z.to_nat n) p) = Z.to_nat n) as El by (rewrite length_take; lia).
      split; [rewrite length_app, length_drop; lia|]. split; [done|].
      split; [by rewrite drop_app_length'|].
      split; [by rewrite take_app_length', take_drop|]. rewrite length_drop. lia.
    + done.
  - done.
Defined.

(** Reads the result of a run without unfolding the whole state. *)
Lemma run_proj {A B} (f : A -> B) (run : option A) (r : A) (b : B) :
  run = Some r -> option_map f run = Some b -> f r = b.
Proof. intros ->. simpl. congruence. Qed.

(** A pool of the objects 1..9 with one cache of size 4 (threshold 6) that
    holds three more, used by the lcore 0. *)
Definition demo_cache : rte_mempool_cache :=
  mk_cache 4 6 3 ([101;102;103] ++ replicate 1533 0).
Definition empty_cache : rte_mempool_cache := mk_cache 4 6 0 (replicate 1536 0).
Definition demo_pool : mp_state (list Z) :=
  mk_mps (mk_mempool [1;2;3;4;5;6;7;8;9] 0 12 4 64 24 0 0 0
            (demo_cache :: replicate 127 empty_cache) 12) [].

Lemma demo_inv k : 0 <= k <= 4000 -> mp_inv (fun _ => fifo_ops) fifo_ops k demo_pool.
Proof.
  intros Hk.
  assert (cache_ok demo_cache /\ cache_ok empty_cache) as [Hd He].
  { split; split; simpl; unfold RTE_MEMPOOL_CACHE_MAX_SIZE; try done; lia. }
  split; try done.
  - exact (Forall_cons_2 cache_ok _ _ Hd (Forall_replicate cache_ok 127 empty_cache He)).
  - change (Z.of_nat (length (all_cached demo_pool))) with 3.
    change (pool_room (pool_data (mps_pool demo_pool))) with 4087. lia.
Qed.

Lemma mempool_put_conserves_witness :
  exists s', rte_mempool_generic_put (fun _ => fifo_ops) [201; 202; 203; 204] 4
               (Some (LocalCache 0)) demo_pool = Some (tt, s')
    /\ pool_data (mps_pool s') = [1;2;3;4;5;6;7;8;9;202;203;204].
Proof.
  destruct (mempool_put_conserves (fun _ => fifo_ops) fifo_ops 4 4 [201;202;203;204]
    (Some (LocalCache 0)) demo_pool (demo_inv 4 ltac:(lia))) as (s' & H & _ & _).
  - by exists demo_cache.
  - lia.
  - simpl. lia.
  - exists s'. split; [exact H|].
    apply (run_proj (fun r => pool_data (mps_pool (snd r))) _ _ _ H). vm_compute. reflexivity.
Defined.

Lemma mempool_get_conserves_witness :
  exists s', rte_mempool_generic_get (fun _ => fifo_ops) [0;0] 2 None demo_pool
             = Some (0, [1;2], s').
Proof.
  destruct (mempool_get_conserves (fun _ => fifo_ops) fifo_ops 0 2 [0;0] None demo_pool
    (demo_inv 0 ltac:(lia))) as (ret & tbl & s' & H & _).
  - done.
  - simpl. lia.
  - exists s'. rewrite H.
    rewrite <- (run_proj (fun r => fst r) _ _ (0, [1;2]) H ltac:(vm_compute; reflexivity)).
    reflexivity.
Defined.

Lemma mempool_get_lifo_witness :
  rte_mempool_generic_get (fun _ => fifo_ops) [0;0] 2 (Some (LocalCache 0)) demo_pool
  = Some (0, [103;102], with_cache (LocalCache 0) (set_len 1 demo_cache) demo_pool).
Proof.
  apply (mempool_get_lifo (fun _ => fifo_ops) fifo_ops 0 2 [0;0] (LocalCache 0) demo_cache
    demo_pool (demo_inv 0 ltac:(lia))).
  - reflexivity.
  - simpl. lia.
  - simpl. lia.
  - simpl. lia.
Defined.

Lemma cache_flush_empties_witness :
  exists s', rte_mempool_cache_flush (fun _ => fifo_ops) 0 None demo_pool = Some (tt, s')
    /\ pool_data (mps_pool s') = [1;2;3;4;5;6;7;8;9;101;102;103].
Proof.
  destruct (cache_flush_empties (fun _ => fifo_ops) fifo_ops 0 0 None demo_pool
    (demo_inv 0 ltac:(lia))) as (s' & H & _).
  - lia.
  - lia.
  - done.
  - exists s'. split; [exact H|].
    apply (run_proj (fun r => pool_data (mps_pool (snd r))) _ _ _ H). vm_compute. reflexivity.
Defined.

Lemma mempool_no_double_allocation_witness :
  exists s' u, client_run (fun _ => fifo_ops)
      [ClientGet 0 2; ClientGet 1 3; ClientPut 5 4; ClientGet 200 20] (demo_pool, [])
    = Some (s', u) /\ length u = 1%nat.
Proof.
  destruct (mempool_no_double_allocation (fun _ => fifo_ops) fifo_ops
    [ClientGet 0 2; ClientGet 1 3; ClientPut 5 4; ClientGet 200 20] demo_pool [])
    as (s' & u & H & _).
  - apply demo_inv. simpl. lia.
  - repeat constructor; simpl; lia.
  - apply (bool_decide_unpack _). vm_compute. exact I.
  - exists s', u. split; [exact H|].
    apply (run_proj (fun r => length (snd r)) _ _ _ H). vm_compute. reflexivity.
Defined.

(** A get from a cache that is not full enough is refilled from the common
    pool with the request plus a full cache, and when the pool cannot supply
    that many, the request goes to the pool alone: it is refused, with
    [-ENOENT] from the driver, although the cache and the pool together hold
    enough objects, and the refusal changes nothing. *)
Theorem mempool_get_ignores_cache_on_failure :
  let s := mk_mps (mk_mempool [1] 0 4 4 64 24 0 0 0
                     (mk_cache 4 6 2 ([101;102] ++ replicate 1534 0) :: replicate 127 empty_cache) 4)
             [] in
  length (all_objs fifo_ops s) = 3%nat
  /\ rte_mempool_get_bulk (fun _ => fifo_ops) 0 [0;0;0] 3 s = Some (-2, [0;0;0], s).
Proof. split; vm_compute; reflexivity. Qed.
