(* ===== verification/MbufCore.v ===== *)
(** * The packet buffer and the memory it lives in ([include/rte_mbuf_core.h],
    [include/rte_mbuf.h], pointer macros of [include/rte_common.h]).

    An mbuf is the structure of the source, one field per member; unions are
    kept as the machine word their variants share ([mbuf_hash] is the 8-byte
    hash/sched union, [tx_offload] the 8-byte offload bit-fields).  The heap
    holds the mbufs, the shared informations of external buffers, the mempools
    with their private areas and object headers, each at its address; the
    bytes of the packets are in [h_bytes].  Reading an address that holds no
    such object is undefined. *)
From stdpp Require Import prelude list numbers gmap.
From S2P Require Import Prelude Mempool.
Open Scope Z_scope.

(** ** Pointers *)

Definition NULL : Z := 0.
Definition RTE_PTR_ADD (ptr x : Z) : Z := u64 (ptr + x).
Definition RTE_PTR_SUB (ptr x : Z) : Z := u64 (ptr - x).
Definition RTE_PTR_DIFF (ptr1 ptr2 : Z) : Z := u64 (ptr1 - ptr2).
Definition RTE_PTR_ALIGN_FLOOR (ptr align : Z) : Z := Z.land ptr (u64 (Z.lnot (align - 1))).

(** ** Constants *)

Definition RTE_PKTMBUF_HEADROOM : Z := 128.
Definition RTE_MBUF_PORT_INVALID : Z := 2 ^ 16 - 1.
Definition RTE_MBUF_MAX_NB_SEGS : Z := 2 ^ 16 - 1.
Definition EINVAL : Z := 22.
Definition EOVERFLOW : Z := 75.

(** [sizeof(struct rte_mbuf)] and [sizeof(struct rte_mbuf_ext_shared_info)]. *)
Definition sizeof_mbuf : Z := 128.
Definition sizeof_ext_shared_info : Z := 24.

(** Offload flags. *)
Definition bit (n : Z) : Z := Z.shiftl 1 n.
Definition RTE_MBUF_F_TX_OUTER_UDP_CKSUM : Z := bit 41.
Definition RTE_MBUF_F_TX_UDP_SEG : Z := bit 42.
Definition RTE_MBUF_F_TX_SEC_OFFLOAD : Z := bit 43.
Definition RTE_MBUF_F_TX_MACSEC : Z := bit 44.
Definition RTE_MBUF_F_TX_TUNNEL_MASK : Z := Z.shiftl 15 45.
Definition RTE_MBUF_F_TX_QINQ : Z := bit 49.
Definition RTE_MBUF_F_TX_TCP_SEG : Z := bit 50.
Definition RTE_MBUF_F_TX_IEEE1588_TMST : Z := bit 51.
Definition RTE_MBUF_F_TX_L4_MASK : Z := Z.shiftl 3 52.
Definition RTE_MBUF_F_TX_IP_CKSUM : Z := bit 54.
Definition RTE_MBUF_F_TX_IPV4 : Z := bit 55.
Definition RTE_MBUF_F_TX_IPV6 : Z := bit 56.
Definition RTE_MBUF_F_TX_VLAN : Z := bit 57.
Definition RTE_MBUF_F_TX_OUTER_IP_CKSUM : Z := bit 58.
Definition RTE_MBUF_F_TX_OUTER_IPV4 : Z := bit 59.
Definition RTE_MBUF_F_TX_OUTER_IPV6 : Z := bit 60.
Definition RTE_MBUF_F_EXTERNAL : Z := bit 61.
Definition RTE_MBUF_F_INDIRECT : Z := bit 62.

Definition RTE_MBUF_F_TX_OFFLOAD_MASK : Z :=
  fold_right Z.lor 0
    [RTE_MBUF_F_TX_OUTER_IPV6; RTE_MBUF_F_TX_OUTER_IPV4; RTE_MBUF_F_TX_OUTER_IP_CKSUM;
     RTE_MBUF_F_TX_VLAN; RTE_MBUF_F_TX_IPV6; RTE_MBUF_F_TX_IPV4; RTE_MBUF_F_TX_IP_CKSUM;
     RTE_MBUF_F_TX_L4_MASK; RTE_MBUF_F_TX_IEEE1588_TMST; RTE_MBUF_F_TX_TCP_SEG;
     RTE_MBUF_F_TX_QINQ; RTE_MBUF_F_TX_TUNNEL_MASK; RTE_MBUF_F_TX_MACSEC;
     RTE_MBUF_F_TX_SEC_OFFLOAD; RTE_MBUF_F_TX_UDP_SEG; RTE_MBUF_F_TX_OUTER_UDP_CKSUM].

Definition RTE_PKTMBUF_POOL_F_PINNED_EXT_BUF : Z := bit 0.

(** Offsets of the bit-fields of [tx_offload]. *)
Definition RTE_MBUF_L2_LEN_OFS : Z := 0.
Definition RTE_MBUF_L3_LEN_OFS : Z := RTE_MBUF_L2_LEN_OFS + 7.
Definition RTE_MBUF_L4_LEN_OFS : Z := RTE_MBUF_L3_LEN_OFS + 9.
Definition RTE_MBUF_TSO_SEGSZ_OFS : Z := RTE_MBUF_L4_LEN_OFS + 8.
Definition RTE_MBUF_OUTL3_LEN_OFS : Z := RTE_MBUF_TSO_SEGSZ_OFS + 16.
Definition RTE_MBUF_OUTL2_LEN_OFS : Z := RTE_MBUF_OUTL3_LEN_OFS + 9.
Definition RTE_MBUF_TXOFLD_UNUSED_OFS : Z := RTE_MBUF_OUTL2_LEN_OFS + 7.

(** ** Data *)

Record rte_mbuf := mk_mbuf {
  buf_addr : Z;
  buf_iova : Z;
  data_off : Z;
  refcnt : Z;
  nb_segs : Z;
  port : Z;
  ol_flags : Z;
  packet_type : Z;
  pkt_len : Z;
  data_len : Z;
  vlan_tci : Z;
  mbuf_hash : Z;
  vlan_tci_outer : Z;
  buf_len : Z;
  pool : Z;
  next : Z;
  tx_offload : Z;
  shinfo : Z;
  priv_size : Z;
  timesync : Z;
  dynfield1 : list Z
}.

Record rte_mbuf_ext_shared_info := mk_shinfo {
  free_cb : Z;
  fcb_opaque : Z;
  sh_refcnt : Z
}.

(** The private area of a pool of mbufs. *)
Record rte_pktmbuf_pool_private := mk_priv {
  mbuf_data_room_size : Z;
  mbuf_priv_size : Z;
  priv_flags : Z
}.

(** The scheduler view of the hash union. *)
Record rte_mbuf_sched := mk_sched {
  sched_queue_id : Z;
  sched_traffic_class : Z;
  sched_color : Z;
  sched_reserved : Z
}.

(** ** Field updates *)

Definition set_buf_addr (v : Z) (m : rte_mbuf) : rte_mbuf :=
  mk_mbuf v (buf_iova m) (data_off m) (refcnt m) (nb_segs m) (port m) (ol_flags m)
    (packet_type m) (pkt_len m) (data_len m) (vlan_tci m) (mbuf_hash m) (vlan_tci_outer m)
    (buf_len m) (pool m) (next m) (tx_offload m) (shinfo m) (priv_size m) (timesync m)
    (dynfield1 m).
Definition set_buf_iova (v : Z) (m : rte_mbuf) : rte_mbuf :=
  mk_mbuf (buf_addr m) v (data_off m) (refcnt m) (nb_segs m) (port m) (ol_flags m)
    (packet_type m) (pkt_len m) (data_len m) (vlan_tci m) (mbuf_hash m) (vlan_tci_outer m)
    (buf_len m) (pool m) (next m) (tx_offload m) (shinfo m) (priv_size m) (timesync m)
    (dynfield1 m).
Definition set_data_off (v : Z) (m : rte_mbuf) : rte_mbuf :=
  mk_mbuf (buf_addr m) (buf_iova m) v (refcnt m) (nb_segs m) (port m) (ol_flags m)
    (packet_type m) (pkt_len m) (data_len m) (vlan_tci m) (mbuf_hash m) (vlan_tci_outer m)
    (buf_len m) (pool m) (next m) (tx_offload m) (shinfo m) (priv_size m) (timesync m)
    (dynfield1 m).
Definition set_refcnt (v : Z) (m : rte_mbuf) : rte_mbuf :=
  mk_mbuf (buf_addr m) (buf_iova m) (data_off m) v (nb_segs m) (port m) (ol_flags m)
    (packet_type m) (pkt_len m) (data_len m) (vlan_tci m) (mbuf_hash m) (vlan_tci_outer m)
    (buf_len m) (pool m) (next m) (tx_offload m) (shinfo m) (priv_size m) (timesync m)
    (dynfield1 m).
Definition set_nb_segs (v : Z) (m : rte_mbuf) : rte_mbuf :=
  mk_mbuf (buf_addr m) (buf_iova m) (data_off m) (refcnt m) v (port m) (ol_flags m)
    (packet_type m) (pkt_len m) (data_len m) (vlan_tci m) (mbuf_hash m) (vlan_tci_outer m)
    (buf_len m) (pool m) (next m) (tx_offload m) (shinfo m) (priv_size m) (timesync m)
    (dynfield1 m).
Definition set_port (v : Z) (m : rte_mbuf) : rte_mbuf :=
  mk_mbuf (buf_addr m) (buf_iova m) (data_off m) (refcnt m) (nb_segs m) v (ol_flags m)
    (packet_type m) (pkt_len m) (data_len m) (vlan_tci m) (mbuf_hash m) (vlan_tci_outer m)
    (buf_len m) (pool m) (next m) (tx_offload m) (shinfo m) (priv_size m) (timesync m)
    (dynfield1 m).
Definition set_ol_flags (v : Z) (m : rte_mbuf) : rte_mbuf :=
  mk_mbuf (buf_addr m) (buf_iova m) (data_off m) (refcnt m) (nb_segs m) (port m) v
    (packet_type m) (pkt_len m) (data_len m) (vlan_tci m) (mbuf_hash m) (vlan_tci_outer m)
    (buf_len m) (pool m) (next m) (tx_offload m) (shinfo m) (priv_size m) (timesync m)
    (dynfield1 m).
Definition set_packet_type (v : Z) (m : rte_mbuf) : rte_mbuf :=
  mk_mbuf (buf_addr m) (buf_iova m) (data_off m) (refcnt m) (nb_segs m) (port m) (ol_flags
    m) v (pkt_len m) (data_len m) (vlan_tci m) (mbuf_hash m) (vlan_tci_outer m) (buf_len m)
    (pool m) (next m) (tx_offload m) (shinfo m) (priv_size m) (timesync m) (dynfield1 m).
Definition set_pkt_len (v : Z) (m : rte_mbuf) : rte_mbuf :=
  mk_mbuf (buf_addr m) (buf_iova m) (data_off m) (refcnt m) (nb_segs m) (port m) (ol_flags
    m) (packet_type m) v (data_len m) (vlan_tci m) (mbuf_hash m) (vlan_tci_outer m) (buf_len
    m) (pool m) (next m) (tx_offload m) (shinfo m) (priv_size m) (timesync m) (dynfield1 m).
Definition set_data_len (v : Z) (m : rte_mbuf) : rte_mbuf :=
  mk_mbuf (buf_addr m) (buf_iova m) (data_off m) (refcnt m) (nb_segs m) (port m) (ol_flags
    m) (packet_type m) (pkt_len m) v (vlan_tci m) (mbuf_hash m) (vlan_tci_outer m) (buf_len
    m) (pool m) (next m) (tx_offload m) (shinfo m) (priv_size m) (timesync m) (dynfield1 m).
Definition set_vlan_tci (v : Z) (m : rte_mbuf) : rte_mbuf :=
  mk_mbuf (buf_addr m) (buf_iova m) (data_off m) (refcnt m) (nb_segs m) (port m) (ol_flags
    m) (packet_type m) (pkt_len m) (data_len m) v (mbuf_hash m) (vlan_tci_outer m) (buf_len
    m) (pool m) (next m) (tx_offload m) (shinfo m) (priv_size m) (timesync m) (dynfield1 m).
Definition set_mbuf_hash (v : Z) (m : rte_mbuf) : rte_mbuf :=
  mk_mbuf (buf_addr m) (buf_iova m) (data_off m) (refcnt m) (nb_segs m) (port m) (ol_flags
    m) (packet_type m) (pkt_len m) (data_len m) (vlan_tci m) v (vlan_tci_outer m) (buf_len
    m) (pool m) (next m) (tx_offload m) (shinfo m) (priv_size m) (timesync m) (dynfield1 m).
Definition set_vlan_tci_outer (v : Z) (m : rte_mbuf) : rte_mbuf :=
  mk_mbuf (buf_addr m) (buf_iova m) (data_off m) (refcnt m) (nb_segs m) (port m) (ol_flags
    m) (packet_type m) (pkt_len m) (data_len m) (vlan_tci m) (mbuf_hash m) v (buf_len m)
    (pool m) (next m) (tx_offload m) (shinfo m) (priv_size m) (timesync m) (dynfield1 m).
Definition set_buf_len (v : Z) (m : rte_mbuf) : rte_mbuf :=
  mk_mbuf (buf_addr m) (buf_iova m) (data_off m) (refcnt m) (nb_segs m) (port m) (ol_flags
    m) (packet_type m) (pkt_len m) (data_len m) (vlan_tci m) (mbuf_hash m) (vlan_tci_outer
    m) v (pool m) (next m) (tx_offload m) (shinfo m) (priv_size m) (timesync m) (dynfield1
    m).
Definition set_pool (v : Z) (m : rte_mbuf) : rte_mbuf :=
  mk_mbuf (buf_addr m) (buf_iova m) (data_off m) (refcnt m) (nb_segs m) (port m) (ol_flags
    m) (packet_type m) (pkt_len m) (data_len m) (vlan_tci m) (mbuf_hash m) (vlan_tci_outer
    m) (buf_len m) v (next m) (tx_offload m) (shinfo m) (priv_size m) (timesync m)
    (dynfield1 m).
Definition set_next (v : Z) (m : rte_mbuf) : rte_mbuf :=
  mk_mbuf (buf_addr m) (buf_iova m) (data_off m) (refcnt m) (nb_segs m) (port m) (ol_flags
    m) (packet_type m) (pkt_len m) (data_len m) (vlan_tci m) (mbuf_hash m) (vlan_tci_outer
    m) (buf_len m) (pool m) v (tx_offload m) (shinfo m) (priv_size m) (timesync m)
    (dynfield1 m).
Definition set_tx_offload (v : Z) (m : rte_mbuf) : rte_mbuf :=
  mk_mbuf (buf_addr m) (buf_iova m) (data_off m) (refcnt m) (nb_segs m) (port m) (ol_flags
    m) (packet_type m) (pkt_len m) (data_len m) (vlan_tci m) (mbuf_hash m) (vlan_tci_outer
    m) (buf_len m) (pool m) (next m) v (shinfo m) (priv_size m) (timesync m) (dynfield1 m).
Definition set_shinfo (v : Z) (m : rte_mbuf) : rte_mbuf :=
  mk_mbuf (buf_addr m) (buf_iova m) (data_off m) (refcnt m) (nb_segs m) (port m) (ol_flags
    m) (packet_type m) (pkt_len m) (data_len m) (vlan_tci m) (mbuf_hash m) (vlan_tci_outer
    m) (buf_len m) (pool m) (next m) (tx_offload m) v (priv_size m) (timesync m) (dynfield1
    m).
Definition set_priv_size (v : Z) (m : rte_mbuf) : rte_mbuf :=
  mk_mbuf (buf_addr m) (buf_iova m) (data_off m) (refcnt m) (nb_segs m) (port m) (ol_flags
    m) (packet_type m) (pkt_len m) (data_len m) (vlan_tci m) (mbuf_hash m) (vlan_tci_outer
    m) (buf_len m) (pool m) (next m) (tx_offload m) (shinfo m) v (timesync m) (dynfield1 m).
Definition set_timesync (v : Z) (m : rte_mbuf) : rte_mbuf :=
  mk_mbuf (buf_addr m) (buf_iova m) (data_off m) (refcnt m) (nb_segs m) (port m) (ol_flags
    m) (packet_type m) (pkt_len m) (data_len m) (vlan_tci m) (mbuf_hash m) (vlan_tci_outer
    m) (buf_len m) (pool m) (next m) (tx_offload m) (shinfo m) (priv_size m) v (dynfield1 m).
Definition set_dynfield1 (v : list Z) (m : rte_mbuf) : rte_mbuf :=
  mk_mbuf (buf_addr m) (buf_iova m) (data_off m) (refcnt m) (nb_segs m) (port m) (ol_flags
    m) (packet_type m) (pkt_len m) (data_len m) (vlan_tci m) (mbuf_hash m) (vlan_tci_outer
    m) (buf_len m) (pool m) (next m) (tx_offload m) (shinfo m) (priv_size m) (timesync m) v.

(** ** Attachment *)

Definition RTE_MBUF_CLONED (m : rte_mbuf) : bool :=
  truthy (Z.land (ol_flags m) RTE_MBUF_F_INDIRECT).
Definition RTE_MBUF_HAS_EXTBUF (m : rte_mbuf) : bool :=
  truthy (Z.land (ol_flags m) RTE_MBUF_F_EXTERNAL).
Definition RTE_MBUF_DIRECT (m : rte_mbuf) : bool :=
  negb (truthy (Z.land (ol_flags m) (Z.lor RTE_MBUF_F_INDIRECT RTE_MBUF_F_EXTERNAL))).

Definition rte_pktmbuf_mtod_offset (m : rte_mbuf) (o : Z) : Z :=
  u64 (buf_addr m + data_off m + o).
Definition rte_pktmbuf_mtod (m : rte_mbuf) : Z := rte_pktmbuf_mtod_offset m 0.

(** ** The heap *)

Record heap (P : Type) := mk_heap {
  h_mbufs : gmap Z rte_mbuf;
  h_shinfos : gmap Z rte_mbuf_ext_shared_info;
  h_pools : gmap Z (rte_mempool P);
  h_privs : gmap Z rte_pktmbuf_pool_private;
  h_hdrs : gmap Z rte_mempool_objhdr;
  h_bytes : gmap Z Z
}.
Arguments mk_heap {P}.
Arguments h_mbufs {P}.
Arguments h_shinfos {P}.
Arguments h_pools {P}.
Arguments h_privs {P}.
Arguments h_hdrs {P}.
Arguments h_bytes {P}.

Section heap_access.
Context {P : Type}.
Implicit Types (h : heap P).

Definition set_h_mbufs (v : gmap Z rte_mbuf) h : heap P :=
  mk_heap v (h_shinfos h) (h_pools h) (h_privs h) (h_hdrs h) (h_bytes h).
Definition set_h_shinfos (v : gmap Z rte_mbuf_ext_shared_info) h : heap P :=
  mk_heap (h_mbufs h) v (h_pools h) (h_privs h) (h_hdrs h) (h_bytes h).
Definition set_h_pools (v : gmap Z (rte_mempool P)) h : heap P :=
  mk_heap (h_mbufs h) (h_shinfos h) v (h_privs h) (h_hdrs h) (h_bytes h).
Definition set_h_bytes (v : gmap Z Z) h : heap P :=
  mk_heap (h_mbufs h) (h_shinfos h) (h_pools h) (h_privs h) (h_hdrs h) v.

(** [*m], for a pointer to an mbuf. *)
Definition rd (m : Z) : M (heap P) rte_mbuf := fun h =>
  b ← h_mbufs h !! m ; Some (b, h).

(** [m->field = v]: an update of the mbuf at [m]. *)
Definition upd (m : Z) (f : rte_mbuf -> rte_mbuf) : M (heap P) unit := fun h =>
  b ← h_mbufs h !! m ; Some (tt, set_h_mbufs (<[m := f b]> (h_mbufs h)) h).

Definition rd_shinfo (a : Z) : M (heap P) rte_mbuf_ext_shared_info := fun h =>
  s ← h_shinfos h !! a ; Some (s, h).

Definition rd_pool (mp : Z) : M (heap P) (rte_mempool P) := fun h =>
  p ← h_pools h !! mp ; Some (p, h).

Definition rd_priv (a : Z) : M (heap P) rte_pktmbuf_pool_private := fun h =>
  p ← h_privs h !! a ; Some (p, h).

(** An operation of [Mempool.v] on the pool at [mp]. *)
Definition in_pool {A} (mp : Z) (op : M (mp_state P) A) : M (heap P) A := fun h =>
  p ← h_pools h !! mp ;
  '(a, s) ← op (mk_mps p []) ;
  Some (a, set_h_pools (<[mp := mps_pool s]> (h_pools h)) h).
End heap_access.

(** ** Lemmas: one access of the heap *)

Section heap_lemmas.
Context {P : Type}.
Implicit Types (h : heap P).

Lemma rd_run m b h : h_mbufs h !! m = Some b -> rd m h = Some (b, h).
Proof. unfold rd. by intros ->. Qed.

Lemma upd_run m f b h :
  h_mbufs h !! m = Some b -> upd m f h = Some (tt, set_h_mbufs (<[m := f b]> (h_mbufs h)) h).
Proof. unfold upd. by intros ->. Qed.

Lemma rd_pool_run mp p h : h_pools h !! mp = Some p -> rd_pool mp h = Some (p, h).
Proof. unfold rd_pool. by intros ->. Qed.

Lemma set_h_mbufs_twice v v' h : set_h_mbufs v (set_h_mbufs v' h) = set_h_mbufs v h.
Proof. done. Qed.

Lemma h_mbufs_set v h : h_mbufs (set_h_mbufs v h) = v.
Proof. done. Qed.

Lemma set_h_mbufs_id h : set_h_mbufs (h_mbufs h) h = h.
Proof. by destruct h. Qed.
End heap_lemmas.

(** The contents of an mbuf, behind updates of it or of others. *)
Ltac heap_lookup :=
  rewrite ?h_mbufs_set;
  first [ eassumption
        | apply lookup_insert_eq
        | rewrite lookup_insert_ne by done; first [eassumption | apply lookup_insert_eq] ].

(** Runs the reads and writes of mbufs whose contents the heap gives. *)
Ltac heap_run :=
  unfold mbind, M_bind;
  repeat (first
    [ erewrite upd_run by heap_lookup
    | erewrite rd_run by heap_lookup
    | progress cbn [mret M_ret] ];
    rewrite ?set_h_mbufs_twice, ?h_mbufs_set, ?insert_insert_eq).
