(* ===== verification/Bytes.v ===== *)
(** * The bytes of the packets, and the words in them.

    A memory gives the byte at each mapped address; the machine is
    little-endian.  The functions that only read take the memory they read,
    the heap's or that of a local structure; those that write are operations
    on the heap. *)
From stdpp Require Import prelude list numbers gmap.
From S2P Require Import Prelude Bits Mempool MbufCore.
Open Scope Z_scope.

(** ** Reading *)

Definition memory : Type := Z -> option Z.

(** A local object, at address 0. *)
Definition local_mem (l : list Z) : memory := aget l.

Definition ld16 (mem : memory) (a : Z) : option Z :=
  b0 ← mem a ; b1 ← mem (a + 1) ; Some (b0 + 2 ^ 8 * b1).

Definition ld32 (mem : memory) (a : Z) : option Z :=
  w0 ← ld16 mem a ; w1 ← ld16 mem (a + 2) ; Some (w0 + 2 ^ 16 * w1).

Definition ld64 (mem : memory) (a : Z) : option Z :=
  w0 ← ld32 mem a ; w1 ← ld32 mem (a + 4) ; Some (w0 + 2 ^ 32 * w1).

(** ** Bytes in memory *)

Section bytes.
Context {P : Type}.

(** The bytes of the heap. *)
Definition heap_mem (h : heap P) : memory := fun a => h_bytes h !! a.

Definition load8 (a : Z) : M (heap P) Z := fun h => v ← h_bytes h !! a ; Some (v, h).

Definition store8 (a v : Z) : M (heap P) unit := fun h =>
  _ ← h_bytes h !! a ; Some (tt, set_h_bytes (<[a := u8 v]> (h_bytes h)) h).

Definition load16 (a : Z) : M (heap P) Z := fun h =>
  v ← ld16 (heap_mem h) a ; Some (v, h).

Definition store16 (a v : Z) : M (heap P) unit :=
  store8 a v ;; store8 (a + 1) (v / 2 ^ 8).

Definition load32 (a : Z) : M (heap P) Z :=
  b0 ← load8 a ; b1 ← load8 (a + 1) ; b2 ← load8 (a + 2) ; b3 ← load8 (a + 3) ;
  mret (b0 + 2 ^ 8 * b1 + 2 ^ 16 * b2 + 2 ^ 24 * b3).

Definition store32 (a v : Z) : M (heap P) unit :=
  store8 a v ;; store8 (a + 1) (v / 2 ^ 8) ;; store8 (a + 2) (v / 2 ^ 16) ;;
  store8 (a + 3) (v / 2 ^ 24).

(** [memmove]: the bytes are read before any is written. *)
Fixpoint load_bytes (a : Z) (n : nat) : M (heap P) (list Z) :=
  match n with
  | O => mret []
  | Datatypes.S n => b ← load8 a ; l ← load_bytes (a + 1) n ; mret (b :: l)
  end.

Fixpoint store_bytes (a : Z) (l : list Z) : M (heap P) unit :=
  match l with
  | [] => mret tt
  | b :: l => store8 a b ;; store_bytes (a + 1) l
  end.

Definition memmove (dst src n : Z) : M (heap P) unit :=
  if (dst =? NULL) || (src =? NULL) then ub
  else l ← load_bytes src (Z.to_nat n) ; store_bytes dst l.
End bytes.

(** * Lemmas *)

Section bytes_lemmas.
Context {P : Type}.
Implicit Types (h : heap P).

(** The [n] bytes from [a] on are mapped. *)
Definition mapped h (a : Z) (n : nat) : Prop :=
  forall i, (i < n)%nat -> is_Some (h_bytes h !! (a + Z.of_nat i)).

(** The little-endian bytes of a word. *)
Definition word_bytes (v : Z) : list Z := [u8 v; u8 (v / 2 ^ 8); u8 (v / 2 ^ 16); u8 (v / 2 ^ 24)].

Definition put_word (a v : Z) (m : gmap Z Z) : gmap Z Z :=
  <[a + 3 := u8 (v / 2 ^ 24)]> (<[a + 2 := u8 (v / 2 ^ 16)]>
    (<[a + 1 := u8 (v / 2 ^ 8)]> (<[a := u8 v]> m))).

Lemma of_word_bytes v :
  u8 v + 2 ^ 8 * u8 (v / 2 ^ 8) + 2 ^ 16 * u8 (v / 2 ^ 16) + 2 ^ 24 * u8 (v / 2 ^ 24) = u32 v.
Proof.
  unfold wrap. change (2 ^ 16) with (2 ^ 8 * 2 ^ 8). change (2 ^ 24) with (2 ^ 8 * (2 ^ 8 * 2 ^ 8)).
  change (2 ^ 32) with (2 ^ 8 * (2 ^ 8 * (2 ^ 8 * 2 ^ 8))).
  rewrite <- !Z.div_div by lia. rewrite !Z.rem_mul_r by lia. lia.
Qed.

Lemma store32_run h a v :
  mapped h a 4 -> store32 a v h = Some (tt, set_h_bytes (put_word a v (h_bytes h)) h).
Proof.
  intros Hm. destruct (Hm 0%nat ltac:(lia)) as [b0 H0]. destruct (Hm 1%nat ltac:(lia)) as [b1 H1].
  destruct (Hm 2%nat ltac:(lia)) as [b2 H2]. destruct (Hm 3%nat ltac:(lia)) as [b3 H3].
  rewrite Z.add_0_r in H0.
  change (Z.of_nat 1) with 1 in H1. change (Z.of_nat 2) with 2 in H2.
  change (Z.of_nat 3) with 3 in H3.
  unfold store32, store8, mbind, M_bind. rewrite H0. simpl.
  rewrite lookup_insert_ne, H1 by lia. simpl. rewrite !lookup_insert_ne, H2 by lia. simpl.
  rewrite !lookup_insert_ne, H3 by lia. done.
Qed.

(** The word at [a] is [v]. *)
Definition word_at (m : gmap Z Z) (a v : Z) : Prop :=
  fits 32 v /\ m !! a = Some (u8 v) /\ m !! (a + 1) = Some (u8 (v / 2 ^ 8))
  /\ m !! (a + 2) = Some (u8 (v / 2 ^ 16)) /\ m !! (a + 3) = Some (u8 (v / 2 ^ 24)).

Lemma load32_run h a v : word_at (h_bytes h) a v -> load32 a h = Some (v, h).
Proof.
  intros (Hf & H0 & H1 & H2 & H3). unfold load32, load8, mbind, M_bind.
  rewrite H0. simpl. rewrite H1. simpl. rewrite H2. simpl. rewrite H3. simpl.
  unfold mret, M_ret. by rewrite of_word_bytes, wrap_small.
Qed.

Lemma u8_u32 v k : 0 <= k <= 24 -> u8 (u32 v / 2 ^ k) = u8 (v / 2 ^ k).
Proof.
  intros Hk. unfold wrap. apply Z.bits_inj'. intros i Hi.
  destruct (decide (i < 8)).
  - rewrite !Z.mod_pow2_bits_low, <- !Z.shiftr_div_pow2, !Z.shiftr_spec by lia.
    by rewrite Z.mod_pow2_bits_low by lia.
  - by rewrite !Z.mod_pow2_bits_high by lia.
Qed.

Lemma put_word_at m a v : word_at (put_word a v m) a (u32 v).
Proof.
  unfold word_at, put_word. split; [by apply wrap_fits|].
  pose proof (u8_u32 v 0 ltac:(lia)) as E0. rewrite !Z.div_1_r in E0.
  rewrite E0, !u8_u32 by lia.
  rewrite !lookup_insert_ne by lia. rewrite !lookup_insert_eq.
  rewrite (lookup_insert_ne _ (a + 3) (a + 2)) by lia. rewrite lookup_insert_eq.
  rewrite (lookup_insert_ne _ (a + 3) (a + 1)), (lookup_insert_ne _ (a + 2) (a + 1)) by lia.
  by rewrite lookup_insert_eq.
Qed.

Lemma put_word_fits m a v : fits 32 v -> word_at (put_word a v m) a v.
Proof. intros Hf. pose proof (put_word_at m a v) as H. by rewrite (wrap_small 32 v Hf) in H. Qed.

Lemma put_word_ne m a v x : x < a \/ a + 4 <= x -> put_word a v m !! x = m !! x.
Proof. intros H. unfold put_word. by rewrite !lookup_insert_ne by lia. Qed.

Lemma word_at_ne m a v b w : word_at m b w -> b + 4 <= a \/ a + 4 <= b -> word_at (put_word a v m) b w.
Proof. intros (Hf & H) Hd. split; [done|]. by rewrite !put_word_ne by lia. Qed.

Lemma word_at_mapped h a v : word_at (h_bytes h) a v -> mapped h a 4.
Proof.
  intros (_ & H0 & H1 & H2 & H3) i Hi.
  destruct i as [|[|[|[|]]]]; [rewrite Z.add_0_r|..]; simpl; eauto. lia.
Qed.

Lemma load8_run h a v : h_bytes h !! a = Some v -> load8 a h = Some (v, h).
Proof. unfold load8. by intros ->. Qed.

Lemma word_at_ext m m' a v :
  (forall x, a <= x < a + 4 -> m' !! x = m !! x) -> word_at m a v -> word_at m' a v.
Proof. intros Hx (Hf & H). split; [done|]. by rewrite !Hx by lia. Qed.
End bytes_lemmas.

(** ** Lists of bytes in memory *)

(** The bytes from [a] on are [l]. *)
Definition bytes_at (mem : memory) (a : Z) (l : list Z) : Prop :=
  forall i c, l !! i = Some c -> mem (a + Z.of_nat i) = Some c /\ fits 8 c.

Lemma bytes_at_cons mem a c l :
  bytes_at mem a (c :: l) <-> mem a = Some c /\ fits 8 c /\ bytes_at mem (a + 1) l.
Proof.
  split.
  - intros H. destruct (H 0%nat c eq_refl) as [E F]. rewrite Z.add_0_r in E.
    split_and!; [done..|]. intros i d Hi.
    replace (a + 1 + Z.of_nat i) with (a + Z.of_nat (Datatypes.S i)) by lia. by apply H.
  - intros (E & F & H) [|i] d Hi; simpl in Hi.
    + simplify_eq. by rewrite Z.add_0_r.
    + replace (a + Z.of_nat (Datatypes.S i)) with (a + 1 + Z.of_nat i) by lia. by apply H.
Qed.

Lemma bytes_at_app mem a l1 l2 :
  bytes_at mem a (l1 ++ l2) <->
  bytes_at mem a l1 /\ bytes_at mem (a + Z.of_nat (length l1)) l2.
Proof.
  revert a. induction l1 as [|c l1 IH]; intros a; cbn [app length].
  - rewrite Z.add_0_r. split; [intros H; split; [|done]|by intros [_ H]].
    by intros i d Hi.
  - rewrite !bytes_at_cons, IH.
    replace (a + Z.of_nat (Datatypes.S (length l1))) with (a + 1 + Z.of_nat (length l1)) by lia.
    tauto.
Qed.

Lemma bytes_at_local l : Forall (fits 8) l -> bytes_at (local_mem l) 0 l.
Proof.
  intros H i c Hi. split; [|by eapply Forall_lookup_1].
  unfold local_mem, aget. rewrite Z.add_0_l, Nat2Z.id.
  by rewrite (proj2 (Z.leb_le 0 (Z.of_nat i))) by lia.
Qed.

Lemma bytes_at_fits mem a l : bytes_at mem a l -> Forall (fits 8) l.
Proof. intros H. apply Forall_lookup. intros i c Hi. by eapply H. Qed.

Lemma bytes_at_range mem a l n k :
  bytes_at mem a l -> bytes_at mem (a + Z.of_nat n) (take k (drop n l)).
Proof.
  intros H i c Hi. rewrite <- Z.add_assoc, <- Nat2Z.inj_add. apply H.
  apply lookup_take_Some in Hi as [Hi _]. by rewrite lookup_drop in Hi.
Qed.

Lemma bytes_at_ext mem mem' a l :
  (forall x, a <= x < a + Z.of_nat (length l) -> mem' x = mem x) ->
  bytes_at mem a l -> bytes_at mem' a l.
Proof.
  intros E H i c Hi. rewrite E; [by apply H|]. apply lookup_lt_Some in Hi. lia.
Qed.

Lemma ld16_run mem a b0 b1 l : bytes_at mem a (b0 :: b1 :: l) -> ld16 mem a = Some (b0 + 2 ^ 8 * b1).
Proof.
  rewrite !bytes_at_cons. intros (E0 & _ & E1 & _). unfold ld16. rewrite E0. simpl. by rewrite E1.
Qed.

(** The bytes of a 16-bit word. *)
Definition half_bytes (v : Z) : list Z := [u8 v; u8 (v / 2 ^ 8)].

Lemma of_half_bytes v : u8 v + 2 ^ 8 * u8 (v / 2 ^ 8) = u16 v.
Proof. unfold wrap. change (2 ^ 16) with (2 ^ 8 * 2 ^ 8). by rewrite Z.rem_mul_r by lia. Qed.

Lemma length_put l o v : (o + 2 <= length l)%nat -> length (splice l o (half_bytes v)) = length l.
Proof. apply (length_splice l o (half_bytes v)). Qed.

Lemma half_bytes_fits v : Forall (fits 8) (half_bytes v).
Proof. repeat constructor; apply wrap_range; lia. Qed.

Lemma word_bytes_fits v : Forall (fits 8) (word_bytes v).
Proof. repeat constructor; apply wrap_range; lia. Qed.

(** Writing the 16-bit word at position [o] of the bytes from [a] on. *)
Lemma store16_run {P} (h : heap P) a l o v :
  bytes_at (heap_mem h) a l -> (o + 2 <= length l)%nat ->
  exists h', store16 (a + Z.of_nat o) v h = Some (tt, h')
    /\ bytes_at (heap_mem h') a (splice l o (half_bytes v))
    /\ (forall x, x < a + Z.of_nat o \/ a + Z.of_nat o + 2 <= x -> heap_mem h' x = heap_mem h x)
    /\ h' = set_h_bytes (h_bytes h') h.
Proof.
  intros H Ho.
  destruct (lookup_lt_is_Some_2 l o ltac:(lia)) as [c0 H0].
  destruct (lookup_lt_is_Some_2 l (Datatypes.S o) ltac:(lia)) as [c1 H1].
  destruct (H _ _ H0) as [E0 _]. destruct (H _ _ H1) as [E1 _].
  replace (a + Z.of_nat (Datatypes.S o)) with (a + Z.of_nat o + 1) in E1 by lia.
  set (b := a + Z.of_nat o) in *. unfold heap_mem in E0, E1.
  unfold store16, store8, mbind, M_bind. rewrite E0. simpl.
  rewrite lookup_insert_ne, E1 by lia. simpl.
  eexists. split; [reflexivity|]. split; [|split; [|done]].
  - intros i c. rewrite lookup_splice by (simpl; lia). unfold heap_mem; simpl.
    case_decide as D; simpl in D.
    + intros Hc. assert (i = o \/ i = Datatypes.S o) as [->| ->] by lia.
      * rewrite Nat.sub_diag in Hc. simpl in Hc. simplify_eq. fold b.
        rewrite lookup_insert_ne, lookup_insert_eq by lia. split; [done|apply wrap_fits; lia].
      * replace (Datatypes.S o - o)%nat with 1%nat in Hc by lia. simpl in Hc. simplify_eq.
        replace (a + Z.of_nat (Datatypes.S o)) with (b + 1) by lia.
        rewrite lookup_insert_eq. split; [done|apply wrap_fits; lia].
    + intros Hc. rewrite !lookup_insert_ne by lia. by apply H.
  - intros x Hx. unfold heap_mem; simpl. by rewrite !lookup_insert_ne by lia.
Qed.

Lemma bytes_at_lookup mem a l i c : bytes_at mem a l -> l !! i = Some c -> mem (a + Z.of_nat i) = Some c.
Proof. intros H Hi. by apply H. Qed.

(** The little-endian and the big-endian words at position [i] of a list. *)
Definition le16_at (l : list Z) (i : nat) : Z :=
  default 0 (l !! i) + 2 ^ 8 * default 0 (l !! Datatypes.S i).
Definition be16_at (l : list Z) (i : nat) : Z :=
  default 0 (l !! i) * 2 ^ 8 + default 0 (l !! Datatypes.S i).
Definition le32_at (l : list Z) (i : nat) : Z := le16_at l i + 2 ^ 16 * le16_at l (i + 2).

Lemma byte_default l i : Forall (fits 8) l -> fits 8 (default 0 (l !! i)).
Proof.
  intros H. destruct (l !! i) as [c|] eqn:E; [by eapply Forall_lookup_1|]. unfold fits. simpl. lia.
Qed.

Lemma le16_range l i : Forall (fits 8) l -> fits 16 (le16_at l i).
Proof.
  intros H. pose proof (byte_default l i H) as H0. pose proof (byte_default l (Datatypes.S i) H) as H1.
  unfold le16_at, fits in *. lia.
Qed.

Lemma be16_range l i : Forall (fits 8) l -> fits 16 (be16_at l i).
Proof.
  intros H. pose proof (byte_default l i H) as H0. pose proof (byte_default l (Datatypes.S i) H) as H1.
  unfold be16_at, fits in *. lia.
Qed.

Lemma le16_be l i : Forall (fits 8) l -> rte_be_to_cpu_16 (le16_at l i) = be16_at l i.
Proof. intros H. apply bswap16_bytes; by apply byte_default. Qed.

Lemma ld16_at mem a l i :
  bytes_at mem a l -> (i + 2 <= length l)%nat -> ld16 mem (a + Z.of_nat i) = Some (le16_at l i).
Proof.
  intros H Hl. destruct (lookup_lt_is_Some_2 l i ltac:(lia)) as [b0 H0].
  destruct (lookup_lt_is_Some_2 l (Datatypes.S i) ltac:(lia)) as [b1 H1].
  destruct (H _ _ H0) as [E0 _]. destruct (H _ _ H1) as [E1 _].
  replace (a + Z.of_nat (Datatypes.S i)) with (a + Z.of_nat i + 1) in E1 by lia.
  unfold ld16, le16_at. rewrite E0. simpl. rewrite E1. by rewrite H0, H1.
Qed.

Lemma ld32_at mem a l i :
  bytes_at mem a l -> (i + 4 <= length l)%nat -> ld32 mem (a + Z.of_nat i) = Some (le32_at l i).
Proof.
  intros H Hl. unfold ld32. rewrite (ld16_at mem a l i H) by lia. simpl.
  replace (a + Z.of_nat i + 2) with (a + Z.of_nat (i + 2)) by lia.
  by rewrite (ld16_at mem a l (i + 2) H) by lia.
Qed.

(** ** Copies of bytes *)

Section copies.
Context {P : Type}.
Implicit Types (h : heap P).

Lemma load_bytes_run h a l : bytes_at (heap_mem h) a l -> load_bytes a (length l) h = Some (l, h).
Proof.
  revert a. induction l as [|b l IH]; intros a H; [done|].
  apply bytes_at_cons in H as (E & _ & H). cbn [length load_bytes].
  rewrite (mbind_run _ _ _ _ _ (load8_run _ _ _ E)). by rewrite (mbind_run _ _ _ _ _ (IH _ H)).
Qed.

(** Writing the bytes [l] at position [o] of the bytes from [a] on. *)
Lemma store_bytes_run l : forall h a old o,
  bytes_at (heap_mem h) a old -> (o + length l <= length old)%nat -> Forall (fits 8) l ->
  exists m, store_bytes (a + Z.of_nat o) l h = Some (tt, set_h_bytes m h)
    /\ bytes_at (fun x => m !! x) a (splice old o l).
Proof.
  induction l as [|b l IH]; intros h a old o H Hl F.
  - exists (h_bytes h). rewrite splice_nil. split; [by destruct h|done].
  - apply Forall_cons in F as [Fb F]. cbn [length] in Hl.
    destruct (lookup_lt_is_Some_2 old o ltac:(lia)) as [c Hc]. destruct (H _ _ Hc) as [E _].
    set (h1 := set_h_bytes (<[a + Z.of_nat o := u8 b]> (h_bytes h)) h).
    assert (bytes_at (heap_mem h1) a (splice old o [b])) as H1.
    { intros i d. rewrite lookup_splice by (simpl; lia). unfold h1, heap_mem; simpl.
      case_decide as D; simpl in D; intros Hd.
      - assert (i = o) as -> by lia. rewrite Nat.sub_diag in Hd. simpl in Hd. simplify_eq.
        rewrite lookup_insert_eq, wrap_small by done. done.
      - rewrite lookup_insert_ne by lia. by apply H. }
    destruct (IH h1 a (splice old o [b]) (Datatypes.S o) H1) as (m & Es & Hm);
      [rewrite length_splice; simpl; lia|done|].
    exists m. split.
    + cbn [store_bytes]. unfold mbind, M_bind, store8. unfold heap_mem in E. rewrite E. simpl.
      replace (a + Z.of_nat o + 1) with (a + Z.of_nat (Datatypes.S o)) by lia. exact Es.
    + replace (Datatypes.S o) with (o + length [b])%nat in Hm by (simpl; lia).
      rewrite splice_app in Hm by (simpl; lia). exact Hm.
Qed.

Lemma memmove_run h a old o s n :
  bytes_at (heap_mem h) a old -> 0 < a ->
  (o + n <= length old)%nat -> (s + n <= length old)%nat ->
  exists m, memmove (a + Z.of_nat o) (a + Z.of_nat s) (Z.of_nat n) h = Some (tt, set_h_bytes m h)
    /\ bytes_at (fun x => m !! x) a (splice old o (take n (drop s old))).
Proof.
  intros H Ha Ho Hs. unfold memmove, NULL.
  rewrite (proj2 (Z.eqb_neq (a + Z.of_nat o) 0)), (proj2 (Z.eqb_neq (a + Z.of_nat s) 0)) by lia.
  cbn [orb]. pose proof (bytes_at_range _ _ _ s n H) as Hr. rewrite Nat2Z.id.
  assert (length (take n (drop s old)) = n) as L by (rewrite length_take, length_drop; lia).
  pose proof (load_bytes_run _ _ _ Hr) as E. rewrite L in E. rewrite (mbind_run _ _ _ _ _ E).
  apply store_bytes_run; [done|by rewrite L|by eapply bytes_at_fits].
Qed.
End copies.

(** ** Deciding what a memory holds, for examples *)

Definition bytes_of {P} (h : heap P) (a : Z) (l : list Z) : bool :=
  forallb (fun '(i, b) => bool_decide (h_bytes h !! (a + Z.of_nat i) = Some b /\ fits 8 b))
    (imap pair l).

Lemma bytes_of_at {P} (h : heap P) a l : bytes_of h a l = true -> bytes_at (heap_mem h) a l.
Proof.
  intros H i c Hi. unfold bytes_of in H. rewrite forallb_forall in H.
  assert (In (i, c) (imap pair l)) as Hin.
  { apply list_elem_of_In, list_elem_of_lookup. exists i. by rewrite list_lookup_imap, Hi. }
  specialize (H _ Hin). simpl in H. by apply bool_decide_eq_true in H.
Qed.
