(* ===== verification/Mbuf.v ===== *)
(** * Packet buffers ([include/rte_mbuf.h]): reference counts, allocation,
    external and indirect attachment, release, and the edition of packets.

    Assertions, sanity checks and prefetches are compiled out.  The functions
    the header only declares ([__rte_pktmbuf_read], [__rte_pktmbuf_linearize])
    and the callbacks that release external buffers are parameters. *)
From stdpp Require Import prelude list numbers gmap.
From S2P Require Import Prelude Mempool MbufCore.
Open Scope Z_scope.

Section operations.
Context {P : Type} (rte_mempool_ops_table : Z -> rte_mempool_ops P) (lcore_id : Z).
(** [ext_free cb addr opaque] is the effect of calling the callback [cb]. *)
Context (ext_free : Z -> Z -> Z -> M (heap P) unit).
Context (__rte_pktmbuf_read : Z -> Z -> Z -> Z -> M (heap P) Z).
Context (__rte_pktmbuf_linearize : Z -> M (heap P) Z).

(** ** Addresses *)

Definition rte_mbuf_prefetch_part1 (m : Z) : M (heap P) unit := mret tt.
Definition rte_mbuf_prefetch_part2 (m : Z) : M (heap P) unit := mret tt.

Definition rte_mbuf_data_iova (mb : rte_mbuf) : Z := u64 (buf_iova mb + data_off mb).

Definition rte_mbuf_data_iova_default (mb : rte_mbuf) : Z :=
  u64 (buf_iova mb + RTE_PKTMBUF_HEADROOM).

Definition rte_mbuf_from_indirect (mi : rte_mbuf) : Z :=
  RTE_PTR_SUB (buf_addr mi) (sizeof_mbuf + priv_size mi).

(** The private area of the pool of mbufs at [mp]. *)
Definition mbp_priv (mp : Z) : M (heap P) rte_pktmbuf_pool_private :=
  p ← rd_pool mp ; rd_priv (rte_mempool_get_priv mp p).

Definition rte_pktmbuf_priv_flags (mp : Z) : M (heap P) Z :=
  mbp_priv ← mbp_priv mp ; mret (priv_flags mbp_priv).

Definition rte_pktmbuf_data_room_size (mp : Z) : M (heap P) Z :=
  mbp_priv ← mbp_priv mp ; mret (mbuf_data_room_size mbp_priv).

Definition rte_pktmbuf_priv_size (mp : Z) : M (heap P) Z :=
  mbp_priv ← mbp_priv mp ; mret (mbuf_priv_size mbp_priv).

Definition rte_mbuf_buf_addr (mb mp : Z) : M (heap P) Z :=
  priv_size ← rte_pktmbuf_priv_size mp ;
  mret (u64 (mb + sizeof_mbuf + priv_size)).

Definition rte_mbuf_data_addr_default (mb : Z) : M (heap P) Z :=
  b ← rd mb ;
  a ← rte_mbuf_buf_addr mb (pool b) ;
  mret (u64 (a + RTE_PKTMBUF_HEADROOM)).

Definition rte_mbuf_to_baddr (md : Z) : M (heap P) Z :=
  b ← rd md ; rte_mbuf_buf_addr md (pool b).

Definition rte_mbuf_to_priv (m : Z) : Z := RTE_PTR_ADD m sizeof_mbuf.

(** [RTE_MBUF_HAS_PINNED_EXTBUF]. *)
Definition RTE_MBUF_HAS_PINNED_EXTBUF (m : Z) : M (heap P) bool :=
  b ← rd m ;
  flags ← rte_pktmbuf_priv_flags (pool b) ;
  mret (truthy (Z.land flags RTE_PKTMBUF_POOL_F_PINNED_EXT_BUF)).

(** ** Reference counts ([RTE_MBUF_REFCNT_ATOMIC]) *)

Definition rte_mbuf_refcnt_read (m : Z) : M (heap P) Z :=
  b ← rd m ; mret (refcnt b).

Definition rte_mbuf_refcnt_set (m new_value : Z) : M (heap P) unit :=
  upd m (set_refcnt new_value).

Definition __rte_mbuf_refcnt_update (m value : Z) : M (heap P) Z :=
  b ← rd m ;
  let v := u16 (refcnt b + u16 value) in
  upd m (set_refcnt v) ;;
  mret v.

(** [value] is an [int16_t]: the increment is converted back to it. *)
Definition rte_mbuf_refcnt_update (m value : Z) : M (heap P) Z :=
  r ← rte_mbuf_refcnt_read m ;
  if r =? 1 then
    let value := i16 (value + 1) in
    rte_mbuf_refcnt_set m (u16 value) ;;
    mret (u16 value)
  else __rte_mbuf_refcnt_update m value.

Definition upd_shinfo_refcnt (a v : Z) : M (heap P) unit := fun h =>
  s ← h_shinfos h !! a ;
  Some (tt, set_h_shinfos (<[a := mk_shinfo (free_cb s) (fcb_opaque s) v]> (h_shinfos h)) h).

Definition rte_mbuf_ext_refcnt_read (shinfo : Z) : M (heap P) Z :=
  s ← rd_shinfo shinfo ; mret (sh_refcnt s).

Definition rte_mbuf_ext_refcnt_set (shinfo new_value : Z) : M (heap P) unit :=
  upd_shinfo_refcnt shinfo new_value.

(** [__atomic_add_fetch(&shinfo->refcnt, (uint16_t)value)]. *)
Definition ext_refcnt_add_fetch (shinfo value : Z) : M (heap P) Z :=
  s ← rd_shinfo shinfo ;
  let v := u16 (sh_refcnt s + u16 value) in
  upd_shinfo_refcnt shinfo v ;;
  mret v.

Definition rte_mbuf_ext_refcnt_update (shinfo value : Z) : M (heap P) Z :=
  r ← rte_mbuf_ext_refcnt_read shinfo ;
  if r =? 1 then
    let value := i16 (value + 1) in
    rte_mbuf_ext_refcnt_set shinfo (u16 value) ;;
    mret (u16 value)
  else ext_refcnt_add_fetch shinfo value.

(** ** Raw allocation and release *)

Definition __rte_mbuf_raw_sanity_check (m : Z) : M (heap P) unit := mret tt.

Definition rte_mbuf_raw_alloc (mp : Z) : M (heap P) Z :=
  '(ret, m) ← in_pool mp (rte_mempool_get rte_mempool_ops_table lcore_id 0) ;
  if ret <? 0 then mret NULL
  else __rte_mbuf_raw_sanity_check m ;; mret m.

Definition rte_mbuf_raw_free (m : Z) : M (heap P) unit :=
  __rte_mbuf_raw_sanity_check m ;;
  b ← rd m ;
  in_pool (pool b) (rte_mempool_put rte_mempool_ops_table lcore_id m).

Definition rte_pktmbuf_reset_headroom (m : Z) : M (heap P) unit :=
  b ← rd m ;
  upd m (set_data_off (u16 (Z.min (u16 RTE_PKTMBUF_HEADROOM) (u16 (buf_len b))))).

Definition rte_pktmbuf_reset (m : Z) : M (heap P) unit :=
  upd m (set_next NULL) ;;
  upd m (set_pkt_len 0) ;;
  upd m (set_tx_offload 0) ;;
  upd m (set_vlan_tci 0) ;;
  upd m (set_vlan_tci_outer 0) ;;
  upd m (set_nb_segs 1) ;;
  upd m (set_port RTE_MBUF_PORT_INVALID) ;;
  b ← rd m ;
  upd m (set_ol_flags (Z.land (ol_flags b) RTE_MBUF_F_EXTERNAL)) ;;
  upd m (set_packet_type 0) ;;
  rte_pktmbuf_reset_headroom m ;;
  upd m (set_data_len 0).

Definition rte_pktmbuf_alloc (mp : Z) : M (heap P) Z :=
  m ← rte_mbuf_raw_alloc mp ;
  (if negb (m =? NULL) then rte_pktmbuf_reset m else mret tt) ;;
  mret m.

(** [k] consecutive cases of the switch in [rte_pktmbuf_alloc_bulk]: each
    resets [mbufs[idx]] and increments [idx]. *)
Fixpoint reset_cases (k : nat) (mbufs : list Z) (idx : Z) : M (heap P) Z :=
  match k with
  | O => mret idx
  | Datatypes.S k' =>
      m ← lift (aget mbufs idx) ;
      __rte_mbuf_raw_sanity_check m ;;
      rte_pktmbuf_reset m ;;
      reset_cases k' mbufs (u32 (idx + 1))
  end.

(** The device: the switch enters the loop body at case [count % 4]; each
    later round runs the four cases. *)
Definition reset_loop (mbufs : list Z) (count : Z) (idx : Z) : M (heap P) unit :=
  do_while (Datatypes.S (Z.to_nat count)) (fun idx =>
    if negb (idx =? count) then idx ← reset_cases 4 mbufs idx ; mret (inl idx)
    else mret (inr tt)) idx.

Definition rte_pktmbuf_alloc_bulk (pool : Z) (mbufs : list Z) (count : Z)
  : M (heap P) (Z * list Z) :=
  let idx := 0 in
  '(rc, mbufs) ← in_pool pool (rte_mempool_get_bulk rte_mempool_ops_table lcore_id mbufs count) ;
  if truthy rc then mret (rc, mbufs)
  else
    (if count mod 4 =? 0 then reset_loop mbufs count idx
     else
       idx ← reset_cases (Z.to_nat (count mod 4)) mbufs idx ;
       reset_loop mbufs count idx) ;;
    mret (0, mbufs).

(** ** External buffers *)

(** The result is the shared information, or NULL, and the new [*buf_len]. *)
Definition rte_pktmbuf_ext_shinfo_init_helper (buf_addr buf_len cb opaque : Z)
  : M (heap P) (Z * Z) :=
  let buf_end := RTE_PTR_ADD buf_addr buf_len in
  let addr := RTE_PTR_ALIGN_FLOOR (RTE_PTR_SUB buf_end sizeof_ext_shared_info) 8 in
  if addr <=? buf_addr then mret (NULL, buf_len)
  else
    modify (fun h => set_h_shinfos
      (<[addr := mk_shinfo cb opaque
                   (match h_shinfos h !! addr with Some s => sh_refcnt s | None => 0 end)]>
         (h_shinfos h)) h) ;;
    rte_mbuf_ext_refcnt_set addr 1 ;;
    mret (addr, u16 (RTE_PTR_DIFF addr buf_addr)).

Definition rte_pktmbuf_attach_extbuf (m buf_addr buf_iova buf_len shinfo : Z) : M (heap P) unit :=
  upd m (set_buf_addr buf_addr) ;;
  upd m (set_buf_iova buf_iova) ;;
  upd m (set_buf_len buf_len) ;;
  upd m (set_data_len 0) ;;
  upd m (set_data_off 0) ;;
  b ← rd m ;
  upd m (set_ol_flags (Z.lor (ol_flags b) RTE_MBUF_F_EXTERNAL)) ;;
  upd m (set_shinfo shinfo).

(** ** Copying headers and attaching *)

Definition rte_mbuf_dynfield_copy (mdst : Z) (msrc : rte_mbuf) : M (heap P) unit :=
  upd mdst (set_dynfield1 (dynfield1 msrc)).

Definition __rte_pktmbuf_copy_hdr (mdst : Z) (msrc : rte_mbuf) : M (heap P) unit :=
  upd mdst (set_port (port msrc)) ;;
  upd mdst (set_vlan_tci (vlan_tci msrc)) ;;
  upd mdst (set_vlan_tci_outer (vlan_tci_outer msrc)) ;;
  upd mdst (set_tx_offload (tx_offload msrc)) ;;
  upd mdst (set_mbuf_hash (mbuf_hash msrc)) ;;
  upd mdst (set_packet_type (packet_type msrc)) ;;
  rte_mbuf_dynfield_copy mdst msrc.

Definition rte_pktmbuf_attach (mi m : Z) : M (heap P) unit :=
  b ← rd m ;
  (if RTE_MBUF_HAS_EXTBUF b then
     rte_mbuf_ext_refcnt_update (shinfo b) 1 ;;
     upd mi (set_ol_flags (ol_flags b)) ;;
     upd mi (set_shinfo (shinfo b))
   else
     (* if m is not direct, get the mbuf that embeds the data *)
     rte_mbuf_refcnt_update (rte_mbuf_from_indirect b) 1 ;;
     upd mi (set_priv_size (priv_size b)) ;;
     upd mi (set_ol_flags (Z.lor (ol_flags b) RTE_MBUF_F_INDIRECT))) ;;
  b ← rd m ;
  __rte_pktmbuf_copy_hdr mi b ;;
  upd mi (set_data_off (data_off b)) ;;
  upd mi (set_data_len (data_len b)) ;;
  upd mi (set_buf_iova (buf_iova b)) ;;
  upd mi (set_buf_addr (buf_addr b)) ;;
  upd mi (set_buf_len (buf_len b)) ;;
  upd mi (set_next NULL) ;;
  bi ← rd mi ;
  upd mi (set_pkt_len (data_len bi)) ;;
  upd mi (set_nb_segs 1).

(** ** Detaching and releasing *)

Definition __rte_pktmbuf_free_extbuf (m : Z) : M (heap P) unit :=
  b ← rd m ;
  v ← rte_mbuf_ext_refcnt_update (shinfo b) (-1) ;
  if v =? 0 then
    s ← rd_shinfo (shinfo b) ;
    ext_free (free_cb s) (buf_addr b) (fcb_opaque s)
  else mret tt.

Definition __rte_pktmbuf_free_direct (m : Z) : M (heap P) unit :=
  b ← rd m ;
  let md := rte_mbuf_from_indirect b in
  v ← rte_mbuf_refcnt_update md (-1) ;
  if v =? 0 then
    upd md (set_next NULL) ;;
    upd md (set_nb_segs 1) ;;
    rte_mbuf_refcnt_set md 1 ;;
    rte_mbuf_raw_free md
  else mret tt.

(** [rte_mempool_virt2iova(m)]. *)
Definition virt2iova (m : Z) : M (heap P) Z := fun h =>
  v ← rte_mempool_virt2iova (h_hdrs h) m ; Some (v, h).

(** The part of [rte_pktmbuf_detach] after the buffer is released. *)
Definition detach_reset (m mp : Z) : M (heap P) unit :=
  priv_size ← rte_pktmbuf_priv_size mp ;
  let mbuf_size := u32 (sizeof_mbuf + priv_size) in
  buf_len ← rte_pktmbuf_data_room_size mp ;
  upd m (set_priv_size priv_size) ;;
  upd m (set_buf_addr (u64 (m + mbuf_size))) ;;
  iova ← virt2iova m ;
  upd m (set_buf_iova (u64 (iova + mbuf_size))) ;;
  upd m (set_buf_len (u16 buf_len)) ;;
  rte_pktmbuf_reset_headroom m ;;
  upd m (set_data_len 0) ;;
  upd m (set_ol_flags 0).

Definition rte_pktmbuf_detach (m : Z) : M (heap P) unit :=
  b ← rd m ;
  let mp := pool b in
  if RTE_MBUF_HAS_EXTBUF b then
    flags ← rte_pktmbuf_priv_flags mp ;
    if truthy (Z.land flags RTE_PKTMBUF_POOL_F_PINNED_EXT_BUF) then
      (* the pinned external buffer stays with its mbuf *)
      mret tt
    else __rte_pktmbuf_free_extbuf m ;; detach_reset m mp
  else __rte_pktmbuf_free_direct m ;; detach_reset m mp.

Definition __rte_pktmbuf_pinned_extbuf_decref (m : Z) : M (heap P) Z :=
  upd m (set_ol_flags RTE_MBUF_F_EXTERNAL) ;;
  b ← rd m ;
  r ← rte_mbuf_ext_refcnt_read (shinfo b) ;
  if r =? 1 then mret 0
  else
    v ← ext_refcnt_add_fetch (shinfo b) (-1) ;
    if truthy v then mret 1
    else rte_mbuf_ext_refcnt_set (shinfo b) 1 ;; mret 0.

(** [if (!RTE_MBUF_DIRECT(m)) ...]: [true] when the caller returns NULL. *)
Definition prefree_detach (m : Z) : M (heap P) bool :=
  b ← rd m ;
  if negb (RTE_MBUF_DIRECT b) then
    rte_pktmbuf_detach m ;;
    b ← rd m ;
    if RTE_MBUF_HAS_EXTBUF b then
      pinned ← RTE_MBUF_HAS_PINNED_EXTBUF m ;
      if pinned : bool then
        v ← __rte_pktmbuf_pinned_extbuf_decref m ;
        mret (truthy v)
      else mret false
    else mret false
  else mret false.

(** The links are cleared when they are not clear already. *)
Definition prefree_unlink (m : Z) : M (heap P) unit :=
  b ← rd m ;
  (if negb (next b =? NULL) then upd m (set_next NULL) else mret tt) ;;
  b ← rd m ;
  (if negb (nb_segs b =? 1) then upd m (set_nb_segs 1) else mret tt).

Definition rte_pktmbuf_prefree_seg (m : Z) : M (heap P) Z :=
  r ← rte_mbuf_refcnt_read m ;
  if r =? 1 then
    shared ← prefree_detach m ;
    if shared : bool then mret NULL
    else prefree_unlink m ;; mret m
  else
    v ← __rte_mbuf_refcnt_update m (-1) ;
    if v =? 0 then
      shared ← prefree_detach m ;
      if shared : bool then mret NULL
      else prefree_unlink m ;; rte_mbuf_refcnt_set m 1 ;; mret m
    else mret NULL.

Definition rte_pktmbuf_free_seg (m : Z) : M (heap P) unit :=
  m ← rte_pktmbuf_prefree_seg m ;
  if negb (m =? NULL) then rte_mbuf_raw_free m else mret tt.

(** Chains are walked with one unit of fuel per mbuf of the heap and one for
    the end: a walk that needs more has met a cycle. *)
Definition chain_fuel (h : heap P) : nat := Datatypes.S (Datatypes.S (size (h_mbufs h))).

Definition rte_pktmbuf_free (m : Z) : M (heap P) unit :=
  h ← get ;
  do_while (chain_fuel h) (fun m =>
    if negb (m =? NULL) then
      b ← rd m ;
      let m_next := next b in
      rte_pktmbuf_free_seg m ;;
      mret (inl m_next)
    else mret (inr tt)) m.

Definition rte_pktmbuf_refcnt_update (m v : Z) : M (heap P) unit :=
  h ← get ;
  do_while (chain_fuel h) (fun m =>
    rte_mbuf_refcnt_update m v ;;
    b ← rd m ;
    mret (if negb (next b =? NULL) then inl (next b) else inr tt)) m.

(** ** Reading and editing packets *)

Definition rte_pktmbuf_headroom (m : rte_mbuf) : Z := data_off m.

Definition rte_pktmbuf_tailroom (m : rte_mbuf) : Z :=
  u16 (buf_len m - rte_pktmbuf_headroom m - data_len m).

Definition rte_pktmbuf_lastseg (m : Z) : M (heap P) Z :=
  h ← get ;
  do_while (chain_fuel h) (fun m =>
    b ← rd m ;
    mret (if negb (next b =? NULL) then inl (next b) else inr m)) m.

Definition rte_pktmbuf_prepend (m len : Z) : M (heap P) Z :=
  b ← rd m ;
  if len >? rte_pktmbuf_headroom b then mret NULL
  else
    upd m (set_data_off (u16 (data_off b - len))) ;;
    upd m (set_data_len (u16 (data_len b + len))) ;;
    upd m (set_pkt_len (u32 (pkt_len b + len))) ;;
    b ← rd m ;
    mret (u64 (buf_addr b + data_off b)).

Definition rte_pktmbuf_append (m len : Z) : M (heap P) Z :=
  m_last ← rte_pktmbuf_lastseg m ;
  b ← rd m_last ;
  if len >? rte_pktmbuf_tailroom b then mret NULL
  else
    let tail := u64 (buf_addr b + data_off b + data_len b) in
    upd m_last (set_data_len (u16 (data_len b + len))) ;;
    bm ← rd m ;
    upd m (set_pkt_len (u32 (pkt_len bm + len))) ;;
    mret tail.

Definition rte_pktmbuf_adj (m len : Z) : M (heap P) Z :=
  b ← rd m ;
  if len >? data_len b then mret NULL
  else
    upd m (set_data_len (u16 (data_len b - len))) ;;
    upd m (set_data_off (u16 (data_off b + len))) ;;
    upd m (set_pkt_len (u32 (pkt_len b - len))) ;;
    b ← rd m ;
    mret (u64 (buf_addr b + data_off b)).

Definition rte_pktmbuf_trim (m len : Z) : M (heap P) Z :=
  m_last ← rte_pktmbuf_lastseg m ;
  b ← rd m_last ;
  if len >? data_len b then mret (-1)
  else
    upd m_last (set_data_len (u16 (data_len b - len))) ;;
    bm ← rd m ;
    upd m (set_pkt_len (u32 (pkt_len bm - len))) ;;
    mret 0.

Definition rte_pktmbuf_is_contiguous (m : rte_mbuf) : bool := nb_segs m =? 1.

Definition rte_pktmbuf_read (m off len buf : Z) : M (heap P) Z :=
  b ← rd m ;
  if u32 (off + len) <=? data_len b then mret (rte_pktmbuf_mtod_offset b off)
  else __rte_pktmbuf_read m off len buf.

Definition rte_pktmbuf_chain (head tail : Z) : M (heap P) Z :=
  bh ← rd head ;
  bt ← rd tail ;
  if nb_segs bh + nb_segs bt >? RTE_MBUF_MAX_NB_SEGS then mret (- EOVERFLOW)
  else
    (* Chain 'tail' onto the old tail *)
    cur_tail ← rte_pktmbuf_lastseg head ;
    upd cur_tail (set_next tail) ;;
    bh ← rd head ;
    bt ← rd tail ;
    upd head (set_nb_segs (u16 (nb_segs bh + nb_segs bt))) ;;
    upd head (set_pkt_len (u32 (pkt_len bh + pkt_len bt))) ;;
    (* pkt_len is only set in the head *)
    bt ← rd tail ;
    upd tail (set_pkt_len (data_len bt)) ;;
    mret 0.

Definition rte_pktmbuf_linearize (mbuf : Z) : M (heap P) Z :=
  b ← rd mbuf ;
  if rte_pktmbuf_is_contiguous b then mret 0 else __rte_pktmbuf_linearize mbuf.
End operations.

(** ** Offloads *)

Definition rte_mbuf_tx_offload (il2 il3 il4 tso ol3 ol2 unused : Z) : Z :=
  fold_right Z.lor 0
    [u64 (Z.shiftl il2 RTE_MBUF_L2_LEN_OFS);
     u64 (Z.shiftl il3 RTE_MBUF_L3_LEN_OFS);
     u64 (Z.shiftl il4 RTE_MBUF_L4_LEN_OFS);
     u64 (Z.shiftl tso RTE_MBUF_TSO_SEGSZ_OFS);
     u64 (Z.shiftl ol3 RTE_MBUF_OUTL3_LEN_OFS);
     u64 (Z.shiftl ol2 RTE_MBUF_OUTL2_LEN_OFS);
     u64 (Z.shiftl unused RTE_MBUF_TXOFLD_UNUSED_OFS)].

(** The [w] bits of a word from bit [o] on. *)
Definition bits_at (o w z : Z) : Z := Z.land (Z.shiftr z o) (Z.ones w).

(** The bit-field [m->tso_segsz]. *)
Definition tso_segsz (m : rte_mbuf) : Z := bits_at RTE_MBUF_TSO_SEGSZ_OFS 16 (tx_offload m).

Definition rte_validate_tx_offload (m : rte_mbuf) : Z :=
  let has := fun f => truthy (Z.land (ol_flags m) f) in
  (* Does packet set any of available offloads? *)
  if negb (has RTE_MBUF_F_TX_OFFLOAD_MASK) then 0
  (* IP checksum can be counted only for IPv4 packet *)
  else if has RTE_MBUF_F_TX_IP_CKSUM && has RTE_MBUF_F_TX_IPV6 then - EINVAL
  (* IP type not set when required *)
  else if has (Z.lor RTE_MBUF_F_TX_L4_MASK RTE_MBUF_F_TX_TCP_SEG)
          && negb (has (Z.lor RTE_MBUF_F_TX_IPV4 RTE_MBUF_F_TX_IPV6)) then - EINVAL
  (* Check requirements for TSO packet *)
  else if has RTE_MBUF_F_TX_TCP_SEG
          && ((tso_segsz m =? 0)
              || (has RTE_MBUF_F_TX_IPV4 && negb (has RTE_MBUF_F_TX_IP_CKSUM))) then - EINVAL
  (* RTE_MBUF_F_TX_OUTER_IP_CKSUM set for non outer IPv4 packet. *)
  else if has RTE_MBUF_F_TX_OUTER_IP_CKSUM && negb (has RTE_MBUF_F_TX_OUTER_IPV4) then - EINVAL
  else 0.

(** ** Scheduler fields

    [m->hash.sched] is the 8-byte union: queue id, traffic class, color and
    reserved bits, from the low bits up. *)

(** [z] with its [w] bits from bit [o] on replaced by [v]. *)
Definition set_bits_at (o w v z : Z) : Z :=
  Z.lor (Z.land z (Z.lnot (Z.shiftl (Z.ones w) o))) (Z.shiftl (wrap w v) o).

Definition rte_mbuf_sched_queue_get (m : rte_mbuf) : Z := bits_at 0 32 (mbuf_hash m).

Definition rte_mbuf_sched_traffic_class_get (m : rte_mbuf) : Z := bits_at 32 8 (mbuf_hash m).

Definition rte_mbuf_sched_color_get (m : rte_mbuf) : Z := bits_at 40 8 (mbuf_hash m).

Definition rte_mbuf_sched_get (m : rte_mbuf) : Z * Z * Z :=
  let sched := mk_sched (bits_at 0 32 (mbuf_hash m)) (bits_at 32 8 (mbuf_hash m))
                 (bits_at 40 8 (mbuf_hash m)) (bits_at 48 16 (mbuf_hash m)) in
  (sched_queue_id sched, sched_traffic_class sched, sched_color sched).

Definition rte_mbuf_sched_queue_set (queue_id : Z) (m : rte_mbuf) : rte_mbuf :=
  set_mbuf_hash (set_bits_at 0 32 queue_id (mbuf_hash m)) m.

Definition rte_mbuf_sched_traffic_class_set (traffic_class : Z) (m : rte_mbuf) : rte_mbuf :=
  set_mbuf_hash (set_bits_at 32 8 traffic_class (mbuf_hash m)) m.

Definition rte_mbuf_sched_color_set (color : Z) (m : rte_mbuf) : rte_mbuf :=
  set_mbuf_hash (set_bits_at 40 8 color (mbuf_hash m)) m.

Definition rte_mbuf_sched_set (queue_id traffic_class color : Z) (m : rte_mbuf) : rte_mbuf :=
  set_mbuf_hash (set_bits_at 48 16 0 (set_bits_at 40 8 color
    (set_bits_at 32 8 traffic_class (set_bits_at 0 32 queue_id (mbuf_hash m))))) m.
