(* ===== verification/MbufSpec.v ===== *)
(** * Properties of packet buffers.

    A packet is a chain of segments linked by [next]; [pkt_ok] says that its
    head counts the segments and the bytes of the chain and that the data of
    every segment lie inside its buffer. *)
From stdpp Require Import prelude list numbers gmap.
From S2P Require Import Prelude Mempool MbufCore Mbuf.
Open Scope Z_scope.

(** ** Chains of segments *)

(** [l] are the addresses of the segments of the chain that starts at [m]. *)
Fixpoint is_chain (mb : gmap Z rte_mbuf) (m : Z) (l : list Z) : Prop :=
  match l with
  | [] => m = NULL
  | a :: l' => a = m /\ m <> NULL /\ exists b, mb !! m = Some b /\ is_chain mb (next b) l'
  end.

Lemma is_chain_det mb m l l' : is_chain mb m l -> is_chain mb m l' -> l = l'.
Proof.
  revert m l'. induction l as [|a l IH]; intros m [|a' l']; simpl; try done.
  - intros -> (-> & ? & _). done.
  - intros (-> & ? & _) ->. done.
  - intros (-> & _ & b & Hb & Hl) (-> & _ & b' & Hb' & Hl'). simplify_eq.
    f_equal. by eapply IH.
Qed.

(** A segment of the chain starts a chain, the rest of it. *)
Lemma is_chain_app mb m l1 a l2 :
  is_chain mb m (l1 ++ a :: l2) -> is_chain mb a (a :: l2).
Proof.
  revert m. induction l1 as [|x l1 IH]; intros m; simpl.
  - intros (-> & H). by split.
  - intros (-> & _ & b & _ & H). by apply (IH (next b)).
Qed.

(** A chain that ends has no cycle. *)
Lemma is_chain_NoDup mb m l : is_chain mb m l -> NoDup l.
Proof.
  revert m. induction l as [|a l IH]; intros m H; [constructor|].
  pose proof H as (-> & _ & b & _ & Hl). constructor; [|by eapply IH].
  intros Hin. apply list_elem_of_split in Hin as (l1 & l2 & ->).
  assert (is_chain mb m (m :: l2)) as H2 by (eapply (is_chain_app _ _ (m :: l1)), H).
  pose proof (is_chain_det _ _ _ _ H H2) as E. apply (f_equal length) in E.
  simpl in E. rewrite length_app in E. simpl in E. lia.
Qed.

Lemma is_chain_elem mb m l a : is_chain mb m l -> a ∈ l -> is_Some (mb !! a) /\ a <> NULL.
Proof.
  revert m. induction l as [|x l IH]; intros m H Hin; [by apply elem_of_nil in Hin|].
  destruct H as (-> & Hn & b & Hb & Hl). apply elem_of_cons in Hin as [->|Hin]; [by eauto|].
  by eapply IH.
Qed.

Lemma is_chain_length mb m l : is_chain mb m l -> (length l <= size mb)%nat.
Proof.
  intros H. rewrite <- size_dom.
  rewrite <- (size_list_to_set (C := gset Z)) by (by eapply is_chain_NoDup).
  apply subseteq_size. intros a Ha. apply elem_of_list_to_set in Ha.
  apply elem_of_dom. by eapply is_chain_elem.
Qed.

(** Updates that keep the links keep the chain. *)
Lemma is_chain_links mb mb' m l :
  is_chain mb m l ->
  (forall a b, a ∈ l -> mb !! a = Some b -> exists b', mb' !! a = Some b' /\ next b' = next b) ->
  is_chain mb' m l.
Proof.
  revert m. induction l as [|x l IH]; intros m H Hk; [done|].
  destruct H as (-> & Hn & b & Hb & Hl). split; [done|]. split; [done|].
  destruct (Hk m b ltac:(by left) Hb) as (b' & Hb' & En). exists b'. split; [done|].
  rewrite En. apply IH; [done|]. intros a b0 Ha. apply Hk. by right.
Qed.

(** Two chains, the first one relinked to the second. *)
Lemma is_chain_join mb m l1 a l2 b :
  is_chain mb m (l1 ++ [a]) -> is_chain mb (next b) l2 -> a ∉ l2 -> a ∉ l1 ->
  is_chain (<[a := b]> mb) m (l1 ++ a :: l2).
Proof.
  intros H1 H2 Ha Ha1. revert m H1. induction l1 as [|x l1 IH]; intros m H1.
  - destruct H1 as (-> & Hn & _). split; [done|]. split; [done|].
    exists b. split; [apply lookup_insert_eq|]. eapply is_chain_links; [done|].
    intros c bc Hc Hbc. exists bc. split; [|done]. rewrite lookup_insert_ne; [done|].
    intros ->. done.
  - destruct H1 as (-> & Hn & bx & Hbx & Hl). split; [done|]. split; [done|].
    exists bx. apply not_elem_of_cons in Ha1 as [Hne Hni].
    rewrite lookup_insert_ne by done. split; [done|]. by apply IH.
Qed.

Section lastseg.
Context {P : Type}.
Implicit Types (h : heap P).

Definition lastseg_body (m : Z) : M (heap P) (Z + Z) :=
  b ← rd m ; mret (if negb (next b =? NULL) then inl (next b) else inr m).

Lemma lastseg_loop h l a : forall m fuel,
  is_chain (h_mbufs h) m (l ++ [a]) -> (length l < fuel)%nat ->
  do_while fuel lastseg_body m h = Some (a, h).
Proof.
  induction l as [|x l IH]; intros m fuel H Hf; (destruct fuel as [|fuel]; [lia|]);
    cbn [do_while]; destruct H as (-> & Hn & b & Hb & Hl).
  - unfold lastseg_body. heap_run. simpl in Hl. rewrite Hl. done.
  - unfold lastseg_body. heap_run. simpl in Hf.
    assert (next b <> NULL) as Hnn.
    { destruct l; destruct Hl as (-> & Hn' & _); done. }
    apply Z.eqb_neq in Hnn. rewrite Hnn. apply IH; [done|lia].
Qed.

(** The walk of [rte_pktmbuf_lastseg] ends on the last segment: the fuel is
    enough for every chain of the heap. *)
Lemma lastseg_run h m l a :
  is_chain (h_mbufs h) m (l ++ [a]) -> rte_pktmbuf_lastseg m h = Some (a, h).
Proof.
  intros H. unfold rte_pktmbuf_lastseg. rewrite (mbind_run get _ h h h) by done.
  apply (lastseg_loop h l a); [done|]. unfold chain_fuel.
  pose proof (is_chain_length _ _ _ H) as Hl. rewrite length_app in Hl. simpl in Hl. lia.
Qed.
End lastseg.

(** ** Well-formed packets *)

(** The data of a segment lie inside its buffer. *)
Record seg_ok (b : rte_mbuf) : Prop := {
  seg_off : 0 <= data_off b;
  seg_len : 0 <= data_len b;
  seg_fit : data_off b + data_len b <= buf_len b;
  seg_buf : fits 16 (buf_len b)
}.

(** The bytes of the listed segments. *)
Fixpoint total_len (mb : gmap Z rte_mbuf) (l : list Z) : Z :=
  match l with
  | [] => 0
  | a :: l' => (match mb !! a with Some b => data_len b | None => 0 end) + total_len mb l'
  end.

Record pkt_ok (mb : gmap Z rte_mbuf) (m : Z) (l : list Z) : Prop := {
  pkt_nonempty : l <> [];
  pkt_chain : is_chain mb m l;
  pkt_segs : forall a b, a ∈ l -> mb !! a = Some b -> seg_ok b;
  pkt_head : exists b, mb !! m = Some b
    /\ nb_segs b = Z.of_nat (length l) /\ nb_segs b <= RTE_MBUF_MAX_NB_SEGS
    /\ pkt_len b = total_len mb l /\ fits 32 (pkt_len b)
}.

Lemma total_len_app mb l1 l2 : total_len mb (l1 ++ l2) = total_len mb l1 + total_len mb l2.
Proof. induction l1 as [|a l1 IH]; simpl; [done|]. rewrite IH. lia. Qed.

Lemma total_len_ext mb mb' l :
  (forall a b, a ∈ l -> mb !! a = Some b -> exists b', mb' !! a = Some b' /\ data_len b' = data_len b) ->
  (forall a, a ∈ l -> is_Some (mb !! a)) ->
  total_len mb' l = total_len mb l.
Proof.
  induction l as [|a l IH]; intros Hk Hs; simpl; [done|].
  destruct (Hs a ltac:(by left)) as [b Hb].
  destruct (Hk a b ltac:(by left) Hb) as (b' & Hb' & E). rewrite Hb, Hb', E, IH; [done| |].
  - intros x bx Hx. apply Hk. by right.
  - intros x Hx. apply Hs. by right.
Qed.

Lemma total_len_insert_ne mb a b l : a ∉ l -> total_len (<[a := b]> mb) l = total_len mb l.
Proof.
  induction l as [|x l IH]; intros Hn; simpl; [done|].
  apply not_elem_of_cons in Hn as [Hx Hl]. rewrite lookup_insert_ne by done. by rewrite IH.
Qed.

Lemma total_len_nonneg mb l :
  (forall a b, a ∈ l -> mb !! a = Some b -> 0 <= data_len b) -> 0 <= total_len mb l.
Proof.
  induction l as [|a l IH]; intros H; simpl; [lia|].
  assert (0 <= total_len mb l) by (apply IH; intros x b Hx; apply H; by right).
  destruct (mb !! a) as [b|] eqn:E; [|lia]. pose proof (H a b ltac:(by left) E). lia.
Qed.

(** Changing the length of one segment changes the total accordingly. *)
Lemma total_len_update mb a b b' l :
  NoDup l -> a ∈ l -> mb !! a = Some b ->
  total_len (<[a := b']> mb) l = total_len mb l + (data_len b' - data_len b).
Proof.
  induction l as [|x l IH]; intros Hnd Hin Hb; [by apply elem_of_nil in Hin|].
  apply NoDup_cons in Hnd as [Hx Hnd]. cbn [total_len].
  apply elem_of_cons in Hin as [<-|Hin].
  - rewrite lookup_insert_eq, Hb, total_len_insert_ne by done. lia.
  - assert (x <> a) by (intros ->; done).
    rewrite lookup_insert_ne by done. rewrite IH by done. lia.
Qed.


Lemma pkt_head_in mb m l : pkt_ok mb m l -> m ∈ l.
Proof. intros [Hn Hc _ _]. destruct l; [done|]. destruct Hc as (-> & _). by left. Qed.

Lemma pkt_last mb m l : pkt_ok mb m l -> exists l1 a, l = l1 ++ [a].
Proof. intros [Hn _ _ _]. destruct l as [|x l] using rev_ind; eauto. done. Qed.

(** Replacing one segment by one of the same links and other data, and storing
    the new packet length in the head, gives a well-formed packet. *)
Lemma edit_segment mb m l a ba ba' :
  pkt_ok mb m l -> a ∈ l -> mb !! a = Some ba ->
  seg_ok ba' -> next ba' = next ba -> nb_segs ba' = nb_segs ba -> pkt_len ba' = pkt_len ba ->
  let total := total_len mb l + (data_len ba' - data_len ba) in
  fits 32 total ->
  exists bm, <[a := ba']> mb !! m = Some bm /\ pkt_len bm = total_len mb l
    /\ let mb' := <[m := set_pkt_len total bm]> (<[a := ba']> mb) in
       pkt_ok mb' m l /\ total_len mb' l = total.
Proof.
  intros Hp Ha Hb Hs Hn Hg Hl total Hf. pose proof (is_chain_NoDup _ _ _ (pkt_chain _ _ _ Hp)) as Hnd.
  pose proof (pkt_head_in _ _ _ Hp) as Hm. destruct Hp as [Hne Hc Hsegs (b & Hbm & Hnb & Hmx & Hpl & _)].
  assert (exists bm, <[a := ba']> mb !! m = Some bm /\ pkt_len bm = pkt_len b
    /\ nb_segs bm = nb_segs b /\ next bm = next b /\ seg_ok bm) as (bm & Hbm' & E1 & E2 & E3 & E4).
  { destruct (decide (a = m)) as [->|Ham].
    - exists ba'. rewrite lookup_insert_eq. simplify_eq. done.
    - exists b. rewrite lookup_insert_ne by done. repeat split; try done; by eapply Hsegs. }
  exists bm. split; [done|]. split; [congruence|]. intros mb'.
  assert (total_len mb' l = total) as Et.
  { unfold mb'. rewrite (total_len_update _ m bm) by done. simpl.
    rewrite (total_len_update _ a ba) by done. unfold total. lia. }
  split; [|done]. split; [done| | |].
  - eapply is_chain_links; [exact Hc|]. intros x bx Hx Hbx. unfold mb'.
    destruct (decide (x = m)) as [->|Hxm].
    { rewrite lookup_insert_eq. eexists. split; [done|]. simpl. congruence. }
    rewrite lookup_insert_ne by done. destruct (decide (x = a)) as [->|Hxa].
    + rewrite lookup_insert_eq. eexists. split; [done|]. congruence.
    + rewrite lookup_insert_ne by done. eauto.
  - intros x bx Hx. unfold mb'. destruct (decide (x = m)) as [->|Hxm].
    { rewrite lookup_insert_eq. intros [= <-]. destruct E4. by split. }
    rewrite lookup_insert_ne by done. destruct (decide (x = a)) as [->|Hxa].
    + rewrite lookup_insert_eq. by intros [= <-].
    + rewrite lookup_insert_ne by done. by apply Hsegs.
  - eexists. unfold mb'. rewrite lookup_insert_eq. split; [done|]. simpl. fold mb'.
    rewrite Et, E2. done.
Qed.

(** Memories whose mbufs hold the same data. *)
Definition same_data (b b' : rte_mbuf) : Prop :=
  data_off b' = data_off b /\ data_len b' = data_len b /\ buf_len b' = buf_len b.

Definition keeps_data (mb mb' : gmap Z rte_mbuf) : Prop :=
  forall x b, mb !! x = Some b -> exists b', mb' !! x = Some b' /\ same_data b b'.

#[global] Instance same_data_preorder : PreOrder same_data.
Proof. split; [by intros b|]. intros b1 b2 b3 (?&?&?) (?&?&?). repeat split; congruence. Qed.

#[global] Instance keeps_data_preorder : PreOrder keeps_data.
Proof.
  split; [intros mb x b Hb; by exists b|]. intros m1 m2 m3 H1 H2 x b Hb.
  destruct (H1 x b Hb) as (b2 & Hb2 & E2). destruct (H2 x b2 Hb2) as (b3 & Hb3 & E3).
  exists b3. split; [done|]. by etrans.
Qed.

Lemma keeps_data_insert mb a b b' :
  mb !! a = Some b -> same_data b b' -> keeps_data mb (<[a := b']> mb).
Proof.
  intros Hb Hs x bx Hx. destruct (decide (x = a)) as [->|].
  - rewrite lookup_insert_eq. simplify_eq. eauto.
  - rewrite lookup_insert_ne by done. by exists bx.
Qed.

Lemma keeps_data_total mb mb' l :
  keeps_data mb mb' -> (forall a, a ∈ l -> is_Some (mb !! a)) -> total_len mb' l = total_len mb l.
Proof.
  intros Hk Hs. apply total_len_ext; [|done]. intros a b _ Hb.
  destruct (Hk a b Hb) as (b' & Hb' & _ & E & _). eauto.
Qed.

Lemma same_data_seg_ok b b' : same_data b b' -> seg_ok b -> seg_ok b'.
Proof. intros (E1 & E2 & E3) []. split; rewrite ?E1, ?E2, ?E3; done. Qed.

(** ** Editing *)

Lemma last_in {A} (l : list A) a : a ∈ l ++ [a].
Proof. apply elem_of_app. right. by left. Qed.
Section edit.
Context {P : Type}.
Implicit Types (h : heap P).

Lemma seg_len_bound b : seg_ok b -> 0 <= data_len b <= buf_len b /\ buf_len b < 2 ^ 16.
Proof. intros []. unfold fits in *. lia. Qed.

(** A segment with [len] bytes of data. *)
Definition resized (len : Z) (b : rte_mbuf) : rte_mbuf := set_data_len len b.

(** The segment [a] changed to [ba], and the length of the packet at [m]. *)
Definition edited (mb mb' : gmap Z rte_mbuf) (m a total : Z) (ba : rte_mbuf) : Prop :=
  exists bm, <[a := ba]> mb !! m = Some bm /\ mb' = <[m := set_pkt_len total bm]> (<[a := ba]> mb).

(** Resizing the last segment within its buffer. *)
Lemma resize_last mb m l1 a ba len :
  pkt_ok mb m (l1 ++ [a]) -> mb !! a = Some ba -> 0 <= len -> data_off ba + len <= buf_len ba ->
  let total := total_len mb (l1 ++ [a]) + (len - data_len ba) in
  total < 2 ^ 32 ->
  exists bm, <[a := resized len ba]> mb !! m = Some bm /\ pkt_len bm = total_len mb (l1 ++ [a])
    /\ 0 <= total /\ let mb' := <[m := set_pkt_len total bm]> (<[a := resized len ba]> mb) in
       pkt_ok mb' m (l1 ++ [a]) /\ total_len mb' (l1 ++ [a]) = total.
Proof.
  intros Hp Hb Hlen Hfit total Hmax. pose proof (pkt_segs _ _ _ Hp a ba (last_in _ _) Hb) as Hs.
  assert (0 <= total).
  { assert (0 <= total_len mb l1).
    { apply total_len_nonneg. intros x bx Hx Hbx.
      eapply seg_len, (pkt_segs _ _ _ Hp x); [apply elem_of_app; by left|done]. }
    unfold total. rewrite total_len_app. simpl. rewrite Hb. lia. }
  destruct (edit_segment _ _ _ a ba (resized len ba) Hp)
    as (bm & Hbm & Hpl & Hok & Ht); [apply last_in|done| |done|done|done|simpl; unfold fits; lia|eauto 6].
  destruct Hs. by split.
Qed.

Lemma append_run (h : heap P) (m len : Z) (l1 : list Z) (a : Z) (ba : rte_mbuf) :
  pkt_ok (h_mbufs h) m (l1 ++ [a]) -> h_mbufs h !! a = Some ba -> 0 <= len < 2 ^ 16 ->
  total_len (h_mbufs h) (l1 ++ [a]) + len < 2 ^ 32 ->
  len <= buf_len ba - data_off ba - data_len ba ->
  exists mb', rte_pktmbuf_append m len h
      = Some (u64 (buf_addr ba + data_off ba + data_len ba), set_h_mbufs mb' h)
    /\ edited (h_mbufs h) mb' m a (total_len (h_mbufs h) (l1 ++ [a]) + len) (resized (data_len ba + len) ba)
    /\ pkt_ok mb' m (l1 ++ [a])
    /\ total_len mb' (l1 ++ [a]) = total_len (h_mbufs h) (l1 ++ [a]) + len.
Proof.
  intros Hp Hb Hlen Hmax E. pose proof (pkt_segs _ _ _ Hp a ba (last_in _ _) Hb) as Hs.
  pose proof (seg_len_bound _ Hs) as [Hd Hbl]. pose proof (seg_off _ Hs) as Ho. pose proof (seg_fit _ Hs) as Hfit.
  assert (rte_pktmbuf_tailroom ba = buf_len ba - data_off ba - data_len ba) as Et.
  { unfold rte_pktmbuf_tailroom, rte_pktmbuf_headroom. apply wrap_small. unfold fits. lia. }
  destruct (resize_last _ _ _ _ ba (data_len ba + len) Hp Hb) as (bm & Hbm & Hpl & Hpos & Hok & Ht); [lia..|].
  replace (total_len (h_mbufs h) (l1 ++ [a]) + (data_len ba + len - data_len ba))
    with (total_len (h_mbufs h) (l1 ++ [a]) + len) in * by lia.
  eexists. split; [|split; [by exists bm|by split]].
  unfold rte_pktmbuf_append.
  rewrite (mbind_run _ _ _ _ _ (lastseg_run h m l1 a (pkt_chain _ _ _ Hp))).
  heap_run. rewrite Et, Z.gtb_ltb, (proj2 (Z.ltb_ge _ _)) by lia.
  rewrite (wrap_small 16) by (unfold fits; lia). unfold resized in *.
  heap_run. rewrite Hpl, (wrap_small 32) by (unfold fits; lia). done.
Qed.

Lemma append_refused (h : heap P) (m len : Z) (l1 : list Z) (a : Z) (ba : rte_mbuf) :
  pkt_ok (h_mbufs h) m (l1 ++ [a]) -> h_mbufs h !! a = Some ba ->
  buf_len ba - data_off ba - data_len ba < len -> rte_pktmbuf_append m len h = Some (NULL, h).
Proof.
  intros Hp Hb E. pose proof (pkt_segs _ _ _ Hp a ba (last_in _ _) Hb) as Hs.
  pose proof (seg_len_bound _ Hs) as [Hd Hbl]. pose proof (seg_off _ Hs) as Ho. pose proof (seg_fit _ Hs) as Hfit.
  assert (rte_pktmbuf_tailroom ba = buf_len ba - data_off ba - data_len ba) as Et.
  { unfold rte_pktmbuf_tailroom, rte_pktmbuf_headroom. apply wrap_small. unfold fits. lia. }
  unfold rte_pktmbuf_append.
  rewrite (mbind_run _ _ _ _ _ (lastseg_run h m l1 a (pkt_chain _ _ _ Hp))).
  heap_run. by rewrite Et, Z.gtb_ltb, (proj2 (Z.ltb_lt _ _)) by lia.
Qed.

(** [rte_pktmbuf_append] adds [len] bytes at the end of a well-formed packet
    of any number of segments when the last segment has room for them: it
    returns the address just after the data, every added byte lies inside the
    buffer of the last segment, the packet is still well formed and its length
    has grown by [len].  Without the room it returns NULL and changes nothing. *)
Theorem append_ok (h : heap P) (m len : Z) (l1 : list Z) (a : Z) (ba : rte_mbuf) :
  pkt_ok (h_mbufs h) m (l1 ++ [a]) -> h_mbufs h !! a = Some ba -> 0 <= len < 2 ^ 16 ->
  total_len (h_mbufs h) (l1 ++ [a]) + len < 2 ^ 32 ->
  if buf_len ba - data_off ba - data_len ba <? len
  then rte_pktmbuf_append m len h = Some (NULL, h)
  else exists h', rte_pktmbuf_append m len h = Some (u64 (buf_addr ba + data_off ba + data_len ba), h')
    /\ data_off ba + data_len ba + len <= buf_len ba
    /\ pkt_ok (h_mbufs h') m (l1 ++ [a])
    /\ total_len (h_mbufs h') (l1 ++ [a]) = total_len (h_mbufs h) (l1 ++ [a]) + len.
Proof.
  intros Hp Hb Hlen Hmax. destruct (_ <? len) eqn:E.
  - apply Z.ltb_lt in E. by eapply append_refused.
  - apply Z.ltb_ge in E. destruct (append_run h m len l1 a ba Hp Hb Hlen Hmax E) as (mb' & HR & _ & Hok).
    eexists. split; [exact HR|]. split; [lia|exact Hok].
Qed.

Lemma trim_run (h : heap P) (m len : Z) (l1 : list Z) (a : Z) (ba : rte_mbuf) :
  pkt_ok (h_mbufs h) m (l1 ++ [a]) -> h_mbufs h !! a = Some ba -> 0 <= len <= data_len ba ->
  exists mb', rte_pktmbuf_trim m len h = Some (0, set_h_mbufs mb' h)
    /\ edited (h_mbufs h) mb' m a (total_len (h_mbufs h) (l1 ++ [a]) - len) (resized (data_len ba - len) ba)
    /\ pkt_ok mb' m (l1 ++ [a])
    /\ total_len mb' (l1 ++ [a]) = total_len (h_mbufs h) (l1 ++ [a]) - len.
Proof.
  intros Hp Hb E. pose proof (pkt_segs _ _ _ Hp a ba (last_in _ _) Hb) as Hs.
  pose proof (seg_len_bound _ Hs) as [Hd Hbl]. pose proof (seg_fit _ Hs) as Hfit.
  destruct (pkt_head _ _ _ Hp) as (b0 & _ & _ & _ & E0 & Hf0). rewrite E0 in Hf0. unfold fits in Hf0.
  destruct (resize_last _ _ _ _ ba (data_len ba - len) Hp Hb) as (bm & Hbm & Hpl & Hpos & Hok & Ht); [lia..|].
  replace (total_len (h_mbufs h) (l1 ++ [a]) + (data_len ba - len - data_len ba))
    with (total_len (h_mbufs h) (l1 ++ [a]) - len) in * by lia.
  eexists. split; [|split; [by exists bm|by split]].
  unfold rte_pktmbuf_trim.
  rewrite (mbind_run _ _ _ _ _ (lastseg_run h m l1 a (pkt_chain _ _ _ Hp))).
  heap_run. rewrite Z.gtb_ltb, (proj2 (Z.ltb_ge _ _)) by lia.
  rewrite (wrap_small 16) by (unfold fits; lia). unfold resized in *.
  heap_run. rewrite Hpl, (wrap_small 32) by (unfold fits; lia). done.
Qed.

Lemma trim_refused (h : heap P) (m len : Z) (l1 : list Z) (a : Z) (ba : rte_mbuf) :
  pkt_ok (h_mbufs h) m (l1 ++ [a]) -> h_mbufs h !! a = Some ba -> data_len ba < len ->
  rte_pktmbuf_trim m len h = Some (-1, h).
Proof.
  intros Hp Hb E. unfold rte_pktmbuf_trim.
  rewrite (mbind_run _ _ _ _ _ (lastseg_run h m l1 a (pkt_chain _ _ _ Hp))).
  heap_run. by rewrite Z.gtb_ltb, (proj2 (Z.ltb_lt _ _)) by lia.
Qed.

(** [rte_pktmbuf_trim] removes [len] bytes at the end of the last segment of
    a well-formed packet and returns 0, or returns -1 and changes nothing when
    the last segment holds fewer. *)
Theorem trim_ok (h : heap P) (m len : Z) (l1 : list Z) (a : Z) (ba : rte_mbuf) :
  pkt_ok (h_mbufs h) m (l1 ++ [a]) -> h_mbufs h !! a = Some ba -> 0 <= len < 2 ^ 16 ->
  if data_len ba <? len then rte_pktmbuf_trim m len h = Some (-1, h)
  else exists h', rte_pktmbuf_trim m len h = Some (0, h')
    /\ pkt_ok (h_mbufs h') m (l1 ++ [a])
    /\ total_len (h_mbufs h') (l1 ++ [a]) = total_len (h_mbufs h) (l1 ++ [a]) - len.
Proof.
  intros Hp Hb Hlen. destruct (_ <? len) eqn:E.
  - apply Z.ltb_lt in E. by eapply trim_refused.
  - apply Z.ltb_ge in E. destruct (trim_run h m len l1 a ba Hp Hb ltac:(lia)) as (mb' & HR & _ & Hok).
    eexists. split; [exact HR|exact Hok].
Qed.

(** The three updates of [rte_pktmbuf_prepend] and [rte_pktmbuf_adj]. *)
Definition shifted (d : Z) (b : rte_mbuf) : rte_mbuf :=
  set_pkt_len (pkt_len b - d) (set_data_off (data_off b + d) (set_data_len (data_len b - d) b)).

Lemma shifted_back len b : shifted len (shifted (- len) b) = b.
Proof.
  destruct b. lazy -[Z.add Z.sub Z.opp].
  replace (data_off + - len + len) with data_off by lia.
  replace (data_len - - len - len) with data_len by lia.
  by replace (pkt_len - - len - len) with pkt_len by lia.
Qed.

Lemma head_lengths h m l b :
  pkt_ok (h_mbufs h) m l -> h_mbufs h !! m = Some b ->
  seg_ok b /\ 0 <= data_len b <= pkt_len b /\ pkt_len b = total_len (h_mbufs h) l
  /\ pkt_len b < 2 ^ 32.
Proof.
  intros Hp Hb. pose proof (pkt_head_in _ _ _ Hp) as Hm.
  pose proof (pkt_segs _ _ _ Hp m b Hm Hb) as Hs. split; [done|].
  destruct (pkt_head _ _ _ Hp) as (b0 & Hb0 & _ & _ & E0 & Hf0). simplify_eq.
  unfold fits in Hf0. split; [|split; [done|lia]]. split; [apply Hs|]. rewrite E0.
  destruct Hp as [Hne Hc Hsg _]. destruct l as [|x l]; [done|]. destruct Hc as (-> & _).
  simpl. rewrite Hb. assert (0 <= total_len (h_mbufs h) l); [|lia].
  apply total_len_nonneg. intros y by' Hy Hby. eapply seg_len, (Hsg y); [by right|done].
Qed.

Lemma shifted_ok h m l b d :
  pkt_ok (h_mbufs h) m l -> h_mbufs h !! m = Some b ->
  0 <= data_off b + d -> d <= data_len b -> pkt_len b - d < 2 ^ 32 ->
  let h' := set_h_mbufs (<[m := shifted d b]> (h_mbufs h)) h in
  pkt_ok (h_mbufs h') m l /\ total_len (h_mbufs h') l = total_len (h_mbufs h) l - d.
Proof.
  intros Hp Hb Hd Hl Hmx h'. destruct (head_lengths _ _ _ _ Hp Hb) as (Hs & Hdl & Epl & _).
  destruct (edit_segment _ _ _ m b (set_data_off (data_off b + d) (set_data_len (data_len b - d) b)) Hp)
    as (bm & Hbm & Hpl & Hok & Ht);
    [by eapply pkt_head_in|done| |done|done|done|simpl; unfold fits; lia|].
  { destruct Hs. split; simpl; try done; lia. }
  rewrite lookup_insert_eq in Hbm. injection Hbm as <-. rewrite insert_insert_eq in Hok, Ht.
  simpl in Hok, Ht. unfold h'. rewrite h_mbufs_set. unfold shifted.
  replace (pkt_len b - d) with (total_len (h_mbufs h) l + (data_len b - d - data_len b)) by lia.
  split; [exact Hok|]. rewrite Ht. lia.
Qed.

Lemma adj_run h m l b len :
  pkt_ok (h_mbufs h) m l -> h_mbufs h !! m = Some b -> 0 <= len <= data_len b ->
  rte_pktmbuf_adj m len h
  = Some (u64 (buf_addr b + (data_off b + len)),
          set_h_mbufs (<[m := shifted len b]> (h_mbufs h)) h).
Proof.
  intros Hp Hb Hl. destruct (head_lengths _ _ _ _ Hp Hb) as (Hs & Hdl & _ & Hmx).
  pose proof (seg_len_bound _ Hs). pose proof (seg_off _ Hs). pose proof (seg_fit _ Hs).
  unfold rte_pktmbuf_adj. heap_run. rewrite Z.gtb_ltb, (proj2 (Z.ltb_ge _ _)) by lia.
  heap_run. unfold shifted. rewrite !(wrap_small 16), (wrap_small 32) by (unfold fits; lia). done.
Qed.

Lemma prepend_run h m l b len :
  pkt_ok (h_mbufs h) m l -> h_mbufs h !! m = Some b -> 0 <= len <= data_off b ->
  pkt_len b + len < 2 ^ 32 ->
  rte_pktmbuf_prepend m len h
  = Some (u64 (buf_addr b + (data_off b - len)),
          set_h_mbufs (<[m := shifted (- len) b]> (h_mbufs h)) h).
Proof.
  intros Hp Hb Hl Hmax. destruct (head_lengths _ _ _ _ Hp Hb) as (Hs & Hdl & _ & Hmx).
  pose proof (seg_len_bound _ Hs). pose proof (seg_off _ Hs). pose proof (seg_fit _ Hs).
  unfold rte_pktmbuf_prepend, rte_pktmbuf_headroom. heap_run.
  rewrite Z.gtb_ltb, (proj2 (Z.ltb_ge _ _)) by lia.
  heap_run. unfold shifted. rewrite !(wrap_small 16), (wrap_small 32) by (unfold fits; lia).
  by rewrite !Z.sub_opp_r, Z.add_opp_r.
Qed.

(** [rte_pktmbuf_prepend] takes [len] bytes of the headroom of a well-formed
    packet: it returns the address of the new first byte, which is inside the
    buffer, and the packet is well formed and [len] bytes longer; without the
    headroom it returns NULL and changes nothing.  [rte_pktmbuf_adj] by the same
    length then restores the memory exactly. *)
Theorem prepend_adj_roundtrip (h : heap P) (m len : Z) (l : list Z) (b : rte_mbuf) :
  pkt_ok (h_mbufs h) m l -> h_mbufs h !! m = Some b -> 0 <= len < 2 ^ 16 ->
  pkt_len b + len < 2 ^ 32 ->
  if data_off b <? len then rte_pktmbuf_prepend m len h = Some (NULL, h)
  else exists h',
    rte_pktmbuf_prepend m len h = Some (u64 (buf_addr b + (data_off b - len)), h')
    /\ 0 <= data_off b - len < data_off b + 1
    /\ pkt_ok (h_mbufs h') m l
    /\ total_len (h_mbufs h') l = total_len (h_mbufs h) l + len
    /\ rte_pktmbuf_adj m len h' = Some (u64 (buf_addr b + data_off b), h).
Proof.
  intros Hp Hb Hlen Hmax. destruct (head_lengths _ _ _ _ Hp Hb) as (Hs & Hdl & _ & Hmx).
  destruct (data_off b <? len) eqn:E.
  { unfold rte_pktmbuf_prepend, rte_pktmbuf_headroom. heap_run. by rewrite Z.gtb_ltb, E. }
  apply Z.ltb_ge in E. rewrite (prepend_run h m l b len) by (done || lia).
  eexists. split; [done|]. split; [lia|].
  destruct (shifted_ok h m l b (- len) Hp Hb) as [Hok Ht]; [lia..|].
  split; [exact Hok|]. split; [rewrite Ht; lia|].
  rewrite (adj_run _ m l (shifted (- len) b) len Hok);
    [|by rewrite h_mbufs_set, lookup_insert_eq|simpl; lia].
  rewrite h_mbufs_set, insert_insert_eq, set_h_mbufs_twice. f_equal. f_equal.
  - simpl. f_equal. lia.
  - rewrite insert_id, set_h_mbufs_id; [done|]. rewrite Hb. f_equal. symmetry. apply shifted_back.
Qed.

(** [rte_pktmbuf_adj] removes [len] bytes at the beginning of a well-formed
    packet and returns the address of its new first byte, or returns NULL and
    changes nothing when the first segment holds fewer bytes. *)
Theorem adj_ok (h : heap P) (m len : Z) (l : list Z) (b : rte_mbuf) :
  pkt_ok (h_mbufs h) m l -> h_mbufs h !! m = Some b -> 0 <= len < 2 ^ 16 ->
  if data_len b <? len then rte_pktmbuf_adj m len h = Some (NULL, h)
  else exists h', rte_pktmbuf_adj m len h = Some (u64 (buf_addr b + (data_off b + len)), h')
    /\ pkt_ok (h_mbufs h') m l
    /\ total_len (h_mbufs h') l = total_len (h_mbufs h) l - len.
Proof.
  intros Hp Hb Hlen. destruct (head_lengths _ _ _ _ Hp Hb) as (Hs & Hdl & _ & Hmx).
  destruct (data_len b <? len) eqn:E.
  { unfold rte_pktmbuf_adj. heap_run. by rewrite Z.gtb_ltb, E. }
  apply Z.ltb_ge in E. pose proof (seg_off _ Hs).
  rewrite (adj_run h m l b len) by (done || lia). eexists. split; [done|].
  apply (shifted_ok h m l b len Hp Hb); lia.
Qed.

(** The mbufs after a chain: [a] was the last segment of the packet [head]. *)
Definition chained (mb : gmap Z rte_mbuf) (head a tail : Z) (ba bh b2 : rte_mbuf) (len nb : Z) :=
  <[tail := set_pkt_len (data_len b2) b2]>
    (<[head := set_pkt_len len (set_nb_segs nb bh)]> (<[a := set_next tail ba]> mb)).

Lemma chain_run (h : heap P) (head tail : Z) (l1 l2 : list Z) (a : Z) (ba b2 : rte_mbuf) :
  pkt_ok (h_mbufs h) head (l1 ++ [a]) -> pkt_ok (h_mbufs h) tail l2 ->
  (forall x, x ∈ l1 ++ [a] -> x ∉ l2) ->
  total_len (h_mbufs h) (l1 ++ [a]) + total_len (h_mbufs h) l2 < 2 ^ 32 ->
  Z.of_nat (length (l1 ++ [a]) + length l2) <= RTE_MBUF_MAX_NB_SEGS ->
  h_mbufs h !! a = Some ba -> h_mbufs h !! tail = Some b2 ->
  exists bh, <[a := set_next tail ba]> (h_mbufs h) !! head = Some bh
    /\ rte_pktmbuf_chain head tail h = Some (0, set_h_mbufs
         (chained (h_mbufs h) head a tail ba bh b2
            (total_len (h_mbufs h) (l1 ++ [a]) + total_len (h_mbufs h) l2)
            (Z.of_nat (length (l1 ++ [a]) + length l2))) h).
Proof.
  intros Hp1 Hp2 Hdis Hmax E Hba Hb2.
  pose proof (pkt_head_in _ _ _ Hp1) as Hm1. pose proof (pkt_head_in _ _ _ Hp2) as Hm2.
  assert (head <> tail) as Hht by (intros ->; by eapply Hdis).
  destruct (pkt_head _ _ _ Hp1) as (b1 & Hb1 & N1 & _ & L1 & F1).
  destruct (pkt_head _ _ _ Hp2) as (b2' & Hb2' & N2 & _ & L2 & F2). simplify_eq.
  unfold rte_pktmbuf_chain. heap_run. rewrite N1, N2, <- Nat2Z.inj_add.
  rewrite Z.gtb_ltb, (proj2 (Z.ltb_ge _ _) E).
  assert (a <> tail) as Hat by (intros ->; by apply (Hdis tail); [apply last_in|]).
  rewrite (lastseg_run h head l1 a (pkt_chain _ _ _ Hp1)).
  set (mb := h_mbufs h) in *.
  erewrite upd_run by exact Hba. fold mb. set (mb1 := <[a := set_next tail ba]> mb).
  assert (exists bh, mb1 !! head = Some bh /\ nb_segs bh = nb_segs b1 /\ pkt_len bh = pkt_len b1)
    as (bh & Hbh & E1 & E2).
  { unfold mb1. destruct (decide (a = head)) as [->|].
    - exists (set_next tail ba). rewrite lookup_insert_eq. by simplify_eq.
    - exists b1. by rewrite lookup_insert_ne. }
  exists bh. split; [done|]. unfold chained. fold mb1.
  assert (mb1 !! tail = Some b2) as Hb3 by (unfold mb1; by rewrite lookup_insert_ne).
  unfold fits in F1, F2.
  rewrite (rd_run head bh) by exact Hbh. rewrite (rd_run tail b2) by exact Hb3.
  rewrite (upd_run head _ bh) by exact Hbh. rewrite set_h_mbufs_twice, h_mbufs_set.
  rewrite (upd_run head _ (set_nb_segs (u16 (nb_segs bh + nb_segs b2)) bh))
    by apply lookup_insert_eq.
  rewrite set_h_mbufs_twice, h_mbufs_set, insert_insert_eq, E1, E2, N1, N2.
  rewrite <- Nat2Z.inj_add, (wrap_small 16), (wrap_small 32)
    by (unfold fits, RTE_MBUF_MAX_NB_SEGS in *; lia). rewrite L1, L2.
  set (mb2 := <[head := _]> mb1).
  assert (mb2 !! tail = Some b2) as Hb4 by (unfold mb2; by rewrite lookup_insert_ne).
  rewrite (rd_run tail b2) by exact Hb4. by rewrite (upd_run tail _ b2) by exact Hb4.
Qed.

Lemma chained_links (mb : gmap Z rte_mbuf) (head tail : Z) (l1 l2 : list Z) (a : Z) (ba : rte_mbuf) :
  pkt_ok mb head (l1 ++ [a]) -> pkt_ok mb tail l2 -> mb !! a = Some ba -> a ∉ l2 ->
  is_chain (<[a := set_next tail ba]> mb) head (l1 ++ a :: l2).
Proof.
  intros Hp1 Hp2 Hba Ha2. apply is_chain_join; [apply Hp1|simpl; apply Hp2|done|].
  pose proof (is_chain_NoDup _ _ _ (pkt_chain _ _ _ Hp1)) as Hnd.
  apply NoDup_app in Hnd as (_ & Hnd & _). intros Hin. apply (Hnd a Hin). by left.
Qed.

(** [rte_pktmbuf_chain] links two disjoint well-formed packets: it returns 0
    and the result is one well-formed packet with the segments of both, in
    order, and the sum of their lengths; when the number of segments would not
    fit 16 bits it returns [-EOVERFLOW] and changes nothing. *)
Theorem chain_ok (h : heap P) (head tail : Z) (l1 l2 : list Z) :
  pkt_ok (h_mbufs h) head l1 -> pkt_ok (h_mbufs h) tail l2 ->
  (forall a, a ∈ l1 -> a ∉ l2) ->
  total_len (h_mbufs h) l1 + total_len (h_mbufs h) l2 < 2 ^ 32 ->
  if Z.of_nat (length l1 + length l2) >? RTE_MBUF_MAX_NB_SEGS
  then rte_pktmbuf_chain head tail h = Some (- EOVERFLOW, h)
  else exists h', rte_pktmbuf_chain head tail h = Some (0, h')
    /\ pkt_ok (h_mbufs h') head (l1 ++ l2)
    /\ total_len (h_mbufs h') (l1 ++ l2)
       = total_len (h_mbufs h) l1 + total_len (h_mbufs h) l2.
Proof.
  intros Hp1 Hp2 Hdis Hmax.
  pose proof (pkt_head_in _ _ _ Hp1) as Hm1. pose proof (pkt_head_in _ _ _ Hp2) as Hm2.
  assert (head <> tail) as Hht by (intros ->; by eapply Hdis).
  destruct (pkt_head _ _ _ Hp1) as (b1 & Hb1 & N1 & _ & L1 & F1).
  destruct (pkt_head _ _ _ Hp2) as (b2 & Hb2 & N2 & _ & L2 & F2).
  destruct (_ >? _) eqn:E; rewrite Z.gtb_ltb in E.
  { unfold rte_pktmbuf_chain. heap_run. by rewrite N1, N2, <- Nat2Z.inj_add, Z.gtb_ltb, E. }
  apply Z.ltb_ge in E. destruct (pkt_last _ _ _ Hp1) as (l1' & a & ->).
  destruct (is_chain_elem _ _ _ a (pkt_chain _ _ _ Hp1) (last_in _ _)) as ([ba Hba] & _).
  assert (a ∉ l2) as Ha2 by (apply Hdis, last_in). assert (a <> tail) as Hat by (intros ->; done).
  destruct (chain_run h head tail l1' l2 a ba b2 Hp1 Hp2 Hdis Hmax E Hba Hb2) as (bh & Hbh & Er).
  eexists. split; [exact Er|]. rewrite h_mbufs_set. unfold chained.
  set (mb := h_mbufs h) in *. set (mb1 := <[a := set_next tail ba]> mb) in *.
  set (bh' := set_pkt_len _ (set_nb_segs _ bh)). set (mb2 := <[head := bh']> mb1).
  assert (mb1 !! tail = Some b2) as Hb4 by (unfold mb1; by rewrite lookup_insert_ne).
  assert (mb2 !! tail = Some b2) as Hb3 by (unfold mb2; by rewrite lookup_insert_ne).
  set (mb' := <[tail := _]> mb2).
  assert (keeps_data mb mb') as Hk.
  { transitivity mb1; [by eapply keeps_data_insert|]. transitivity mb2.
    - eapply keeps_data_insert; [exact Hbh|done].
    - eapply keeps_data_insert; [exact Hb3|done]. }
  assert (forall x, x ∈ (l1' ++ [a]) ++ l2 -> is_Some (mb !! x)) as Hsome.
  { intros x Hx. apply elem_of_app in Hx as [Hx|Hx];
      (eapply is_chain_elem; [|exact Hx]); [apply Hp1|apply Hp2]. }
  assert (total_len mb' ((l1' ++ [a]) ++ l2) = total_len mb (l1' ++ [a]) + total_len mb l2) as Et.
  { rewrite (keeps_data_total mb) by done. by rewrite total_len_app. }
  split; [|done]. split.
  - intros En. by apply app_eq_nil in En as [En _]; apply app_eq_nil in En as [_ ?].
  - rewrite <- app_assoc. simpl. apply (is_chain_links mb1);
      [by apply chained_links|]. intros x b _ Hx. unfold mb', mb2.
    destruct (decide (x = tail)) as [->|]; [rewrite lookup_insert_eq; simplify_eq; eauto|].
    rewrite lookup_insert_ne by done.
    destruct (decide (x = head)) as [->|]; [rewrite lookup_insert_eq; simplify_eq; eauto|].
    rewrite lookup_insert_ne by done. eauto.
  - intros x b Hx Hb. destruct (Hsome x Hx) as [b0 Hb0].
    destruct (Hk x b0 Hb0) as (b' & Hb' & Hsd). simplify_eq.
    pose proof Hp1 as [_ _ Hs1 _]. pose proof Hp2 as [_ _ Hs2 _].
    eapply same_data_seg_ok; [done|]. apply elem_of_app in Hx as [Hx|Hx]; eauto.
  - exists bh'. unfold mb', mb2. rewrite lookup_insert_ne by done. rewrite lookup_insert_eq.
    split; [done|]. simpl. rewrite (length_app (l1' ++ [a]) l2). fold mb2 mb'. rewrite Et.
    unfold fits in *. split; [done|]. split; [lia|]. split; [done|lia].
Qed.
End edit.

(** ** Example packets

    A packet of two segments, at 1000 and 4000, and one of one segment, at
    7000, in buffers of 2176 bytes. *)
Definition demo_mbuf (a next plen dlen segs : Z) : rte_mbuf :=
  mk_mbuf (a + 128) (a + 128) 128 1 segs 0 0 0 plen dlen 0 0 0 2176 64 next 0 0 0 0 [].

Definition demo_packets : heap (list Z) :=
  mk_heap (list_to_map [(1000, demo_mbuf 1000 4000 150 100 2); (4000, demo_mbuf 4000 0 0 50 1);
                        (7000, demo_mbuf 7000 0 60 60 1)]) ∅ ∅ ∅ ∅ ∅.

Ltac demo_pkt :=
  split;
  [ done
  | repeat first [ split; [done|split; [done|eexists; split; [reflexivity|]]] | reflexivity ]
  | intros ? ? Hx Hb; repeat (apply elem_of_cons in Hx as [->|Hx]);
    try (by apply elem_of_nil in Hx);
    vm_compute in Hb; injection Hb as <-; split; done
  | eexists; split; [reflexivity|]; split_and!; done ].

Lemma demo_long : pkt_ok (h_mbufs demo_packets) 1000 [1000; 4000].
Proof. demo_pkt. Qed.

Lemma demo_short : pkt_ok (h_mbufs demo_packets) 7000 [7000].
Proof. demo_pkt. Qed.

Lemma append_ok_witness :
  exists h', rte_pktmbuf_append 1000 1998 demo_packets = Some (4306, h')
    /\ total_len (h_mbufs h') [1000; 4000] = 2148.
Proof.
  destruct (append_ok demo_packets 1000 1998 [1000] 4000 _ demo_long eq_refl) as (h' & H & _ & _ & E).
  - lia.
  - vm_compute. reflexivity.
  - exists h'. split; [exact H|exact E].
Defined.

Lemma trim_ok_witness :
  exists h', rte_pktmbuf_trim 1000 50 demo_packets = Some (0, h')
    /\ total_len (h_mbufs h') [1000; 4000] = 100.
Proof.
  destruct (trim_ok demo_packets 1000 50 [1000] 4000 _ demo_long eq_refl) as (h' & H & _ & E).
  - lia.
  - exists h'. split; [exact H|exact E].
Defined.

Lemma prepend_adj_roundtrip_witness :
  exists h', rte_pktmbuf_prepend 1000 14 demo_packets = Some (1242, h')
    /\ rte_pktmbuf_adj 1000 14 h' = Some (1256, demo_packets).
Proof.
  destruct (prepend_adj_roundtrip demo_packets 1000 14 [1000; 4000] _ demo_long eq_refl)
    as (h' & H & _ & _ & _ & E).
  - lia.
  - vm_compute. reflexivity.
  - exists h'. split; [exact H|exact E].
Defined.

Lemma adj_ok_witness :
  exists h', rte_pktmbuf_adj 1000 14 demo_packets = Some (1270, h')
    /\ total_len (h_mbufs h') [1000; 4000] = 136.
Proof.
  destruct (adj_ok demo_packets 1000 14 [1000; 4000] _ demo_long eq_refl) as (h' & H & _ & E).
  - lia.
  - exists h'. split; [exact H|exact E].
Defined.

Lemma chain_ok_witness :
  exists h', rte_pktmbuf_chain 1000 7000 demo_packets = Some (0, h')
    /\ pkt_ok (h_mbufs h') 1000 [1000; 4000; 7000]
    /\ total_len (h_mbufs h') [1000; 4000; 7000] = 210.
Proof.
  destruct (chain_ok demo_packets 1000 7000 [1000; 4000] [7000] demo_long demo_short)
    as (h' & H & Hp & E).
  - intros a Ha Hb. apply list_elem_of_singleton in Hb as ->.
    repeat (apply elem_of_cons in Ha as [Ha|Ha]; [done|]). by apply elem_of_nil in Ha.
  - vm_compute. reflexivity.
  - exists h'. split; [exact H|]. split; [exact Hp|exact E].
Defined.
