(* ===== verification/MbufEdit.v ===== *)
(** * Edits of a packet as moves of its windows.

    The data of a segment are a window of its buffer.  [rte_pktmbuf_prepend],
    [append], [adj] and [trim] move one end of the first or of the last window of
    a packet, or refuse; any sequence of them does on the memory what it does on
    the windows. *)
From stdpp Require Import prelude list numbers gmap.
From S2P Require Import Prelude Mempool MbufCore Mbuf MbufSpec.
Open Scope Z_scope.

(** ** The specification *)

(** The buffer of a segment, with the positions of its first byte of data and of
    the byte after the last. *)
Record window := mk_window { base : Z; room : Z; lo : Z; hi : Z }.

(** An edit with its length. *)
Inductive edit := Prepend (n : Z) | Append (n : Z) | Adj (n : Z) | Trim (n : Z).

Definition edit_len (e : edit) : Z := match e with Prepend n | Append n | Adj n | Trim n => n end.

(** The value returned and the window after it; [None] when there is no room
    before or after the data, or fewer bytes. *)
Definition edit_window (e : edit) (w : window) : option (Z * window) :=
  match e with
  | Prepend n =>
      if lo w <? n then None
      else Some (u64 (base w + (lo w - n)), mk_window (base w) (room w) (lo w - n) (hi w))
  | Append n =>
      if room w - hi w <? n then None
      else Some (u64 (base w + hi w), mk_window (base w) (room w) (lo w) (hi w + n))
  | Adj n =>
      if hi w - lo w <? n then None
      else Some (u64 (base w + (lo w + n)), mk_window (base w) (room w) (lo w + n) (hi w))
  | Trim n =>
      if hi w - lo w <? n then None
      else Some (0, mk_window (base w) (room w) (lo w) (hi w - n))
  end.

(** The segment that is edited, and the value returned when it cannot be. *)
Definition place (e : edit) (ws : list window) : nat :=
  match e with Prepend _ | Adj _ => 0 | Append _ | Trim _ => length ws - 1 end.
Definition refusal (e : edit) : Z := match e with Trim _ => -1 | _ => NULL end.

Definition edit_windows (e : edit) (ws : list window) : Z * list window :=
  match ws !! place e ws ≫= edit_window e with
  | Some (r, w) => (r, <[place e ws := w]> ws)
  | None => (refusal e, ws)
  end.

Fixpoint edits_windows (es : list edit) (ws : list window) : list Z * list window :=
  match es with
  | [] => ([], ws)
  | e :: es =>
      let '(r, ws1) := edit_windows e ws in
      let '(rs, ws2) := edits_windows es ws1 in
      (r :: rs, ws2)
  end.

(** ** The code *)

Section code.
Context {P : Type}.

Definition do_edit (m : Z) (e : edit) : M (heap P) Z :=
  match e with
  | Prepend n => rte_pktmbuf_prepend m n
  | Append n => rte_pktmbuf_append m n
  | Adj n => rte_pktmbuf_adj m n
  | Trim n => rte_pktmbuf_trim m n
  end.

Fixpoint do_edits (m : Z) (es : list edit) : M (heap P) (list Z) :=
  match es with
  | [] => mret []
  | e :: es => r ← do_edit m e ; rs ← do_edits m es ; mret (r :: rs)
  end.
End code.

(** The windows of the segments of a packet. *)
Definition win (b : rte_mbuf) : window :=
  mk_window (buf_addr b) (buf_len b) (data_off b) (data_off b + data_len b).
Definition win_at (mb : gmap Z rte_mbuf) (a : Z) : window :=
  match mb !! a with Some b => win b | None => mk_window 0 0 0 0 end.
Definition windows (mb : gmap Z rte_mbuf) (l : list Z) : list window := map (win_at mb) l.

(** All but the three members that an edit may change. *)
Definition blank (b : rte_mbuf) : rte_mbuf := set_pkt_len 0 (set_data_len 0 (set_data_off 0 b)).

Definition others_kept (mb mb' : gmap Z rte_mbuf) (l : list Z) : Prop :=
  (forall a, a ∉ l -> mb' !! a = mb !! a) /\ forall a, blank <$> mb' !! a = blank <$> mb !! a.

Lemma windows_lookup mb l i a b : l !! i = Some a -> mb !! a = Some b -> windows mb l !! i = Some (win b).
Proof. intros Hi Hb. unfold windows. rewrite list_lookup_fmap, Hi. simpl. unfold win_at. by rewrite Hb. Qed.

(** ** One edit *)

Lemma edited_lookup mb mb' m a t ba x : edited mb mb' m a t ba ->
  mb' !! x = (if decide (x = m) then set_pkt_len t <$> <[a := ba]> mb !! m else <[a := ba]> mb !! x).
Proof.
  intros (bm & Hbm & ->). case_decide as E; [subst|].
  - by rewrite lookup_insert_eq, Hbm.
  - by rewrite lookup_insert_ne.
Qed.

Lemma edited_win mb mb' m a t ba x : edited mb mb' m a t ba ->
  win_at mb' x = if decide (x = a) then win ba else win_at mb x.
Proof.
  intros E. unfold win_at. rewrite (edited_lookup _ _ _ _ _ _ x E).
  destruct (decide (x = m)) as [->|].
  - destruct (decide (m = a)) as [->|]; [by rewrite lookup_insert_eq|].
    rewrite lookup_insert_ne by done. by destruct (mb !! m).
  - destruct (decide (x = a)) as [->|]; [by rewrite lookup_insert_eq|]. by rewrite lookup_insert_ne.
Qed.

Lemma edited_windows mb mb' m a t ba l i : edited mb mb' m a t ba -> NoDup l -> l !! i = Some a ->
  windows mb' l = <[i := win ba]> (windows mb l).
Proof.
  intros E Hnd Hi. unfold windows. apply list_eq. intros j. rewrite list_lookup_fmap.
  pose proof (lookup_lt_Some _ _ _ Hi). destruct (decide (j = i)) as [->|Hne].
  - rewrite list_lookup_insert_eq by (by rewrite length_map). rewrite Hi. simpl.
    by rewrite (edited_win _ _ _ _ _ _ a E), decide_True.
  - rewrite list_lookup_insert_ne, list_lookup_fmap by done. destruct (l !! j) as [x|] eqn:Hj; [|done].
    simpl. rewrite (edited_win _ _ _ _ _ _ x E), decide_False; [done|].
    intros ->. apply Hne. by eapply NoDup_lookup.
Qed.

Lemma edited_kept mb mb' m a t ba b l : edited mb mb' m a t ba -> mb !! a = Some b ->
  blank ba = blank b -> m ∈ l -> a ∈ l -> others_kept mb mb' l.
Proof.
  intros E Hb Hk Hm Ha. split; intros x; rewrite (edited_lookup _ _ _ _ _ _ x E).
  - intros Hx. rewrite decide_False by (by intros ->). by rewrite lookup_insert_ne by (by intros ->).
  - assert (forall y, blank <$> <[a := ba]> mb !! y = blank <$> mb !! y) as Hy.
    { intros y. destruct (decide (a = y)) as [->|].
      - rewrite lookup_insert_eq, Hb. simpl. by rewrite Hk.
      - by rewrite lookup_insert_ne. }
    case_decide as Ex; [subst x|apply Hy]. rewrite <- Hy. by destruct (_ !! m).
Qed.

Lemma others_kept_trans mb1 mb2 mb3 l : others_kept mb1 mb2 l -> others_kept mb2 mb3 l -> others_kept mb1 mb3 l.
Proof. intros [A1 B1] [A2 B2]. split; intros a; [intros Ha; by rewrite A2, A1|by rewrite B2, B1]. Qed.

(** The bytes of a packet are fewer than 2^32: its segments are at most 65535. *)
Lemma total_len_bound mb l (k : Z) :
  (forall a b, a ∈ l -> mb !! a = Some b -> data_len b <= k) -> 0 <= k ->
  total_len mb l <= k * Z.of_nat (length l).
Proof.
  intros H Hk. induction l as [|a l IH]; [simpl; lia|]. cbn [total_len length].
  assert (total_len mb l <= k * Z.of_nat (length l)) by (apply IH; intros x b Hx; apply H; by right).
  destruct (mb !! a) as [b|] eqn:E; [|lia]. pose proof (H a b ltac:(by left) E). lia.
Qed.

Lemma pkt_ok_small mb m l a b n : pkt_ok mb m l -> a ∈ l -> mb !! a = Some b ->
  0 <= n -> data_len b + n <= buf_len b -> total_len mb l + n < 2 ^ 32.
Proof.
  intros Hp Ha Hb Hn Hfit. pose proof (is_chain_NoDup _ _ _ (pkt_chain _ _ _ Hp)) as Hnd.
  pose proof (pkt_segs _ _ _ Hp) as Hs. destruct (pkt_head _ _ _ Hp) as (b0 & _ & E1 & E2 & _).
  pose proof (total_len_update mb a b (set_data_len (data_len b + n) b) l Hnd Ha Hb) as E. simpl in E.
  pose proof (total_len_bound (<[a := set_data_len (data_len b + n) b]> mb) l (2 ^ 16 - 1)) as B.
  unfold RTE_MBUF_MAX_NB_SEGS in E2. pose proof (seg_len_bound _ (Hs a b Ha Hb)).
  assert (total_len (<[a := set_data_len (data_len b + n) b]> mb) l <= (2 ^ 16 - 1) * Z.of_nat (length l)); [|lia].
  apply B; [|lia]. intros x bx Hx Hbx. destruct (decide (a = x)) as [<-|].
  - rewrite lookup_insert_eq in Hbx. simplify_eq. simpl. lia.
  - rewrite lookup_insert_ne in Hbx by done. pose proof (seg_len_bound _ (Hs x bx Hx Hbx)). lia.
Qed.

Section edits.
Context {P : Type}.
Implicit Types (h : heap P).

(** What an edit does: an answer, and memory that holds the packet [l] at [m] with
    the windows [ws]. *)
Definition edit_done (m : Z) (l : list Z) h (e : edit) : Prop :=
  exists mb', do_edit m e h = Some ((edit_windows e (windows (h_mbufs h) l)).1, set_h_mbufs mb' h)
    /\ pkt_ok mb' m l /\ windows mb' l = (edit_windows e (windows (h_mbufs h) l)).2
    /\ others_kept (h_mbufs h) mb' l.

Lemma edit_refused m l h e i a b :
  l !! i = Some a -> h_mbufs h !! a = Some b -> i = place e (windows (h_mbufs h) l) ->
  edit_window e (win b) = None -> pkt_ok (h_mbufs h) m l -> do_edit m e h = Some (refusal e, h) ->
  edit_done m l h e.
Proof.
  intros Hi Hb Ei Ew Hp E. exists (h_mbufs h). rewrite set_h_mbufs_id. unfold edit_windows.
  rewrite <- Ei, (windows_lookup _ _ _ _ _ Hi Hb). simpl. rewrite Ew. by split_and!.
Qed.

Lemma edit_moved m l h e i a b r mb' ba t :
  l !! i = Some a -> h_mbufs h !! a = Some b -> i = place e (windows (h_mbufs h) l) ->
  edit_window e (win b) = Some (r, win ba) -> edited (h_mbufs h) mb' m a t ba -> blank ba = blank b ->
  pkt_ok (h_mbufs h) m l -> pkt_ok mb' m l -> do_edit m e h = Some (r, set_h_mbufs mb' h) ->
  edit_done m l h e.
Proof.
  intros Hi Hb Ei Ew Ed Bl Hp Hp' E. exists mb'. unfold edit_windows.
  rewrite <- Ei, (windows_lookup _ _ _ _ _ Hi Hb). simpl. rewrite Ew. simpl.
  split; [done|]. split; [done|]. split.
  - apply (edited_windows _ _ _ _ _ _ _ _ Ed); [|done]. eapply is_chain_NoDup, Hp.
  - eapply edited_kept; [exact Ed|exact Hb|done|by eapply pkt_head_in|by eapply list_elem_of_lookup_2].
Qed.

Lemma shifted_edited (mb : gmap Z rte_mbuf) m b d :
  edited mb (<[m := shifted d b]> mb) m m (pkt_len b - d) (shifted d b).
Proof. exists (shifted d b). rewrite lookup_insert_eq, insert_insert_eq. by destruct b. Qed.

Lemma win_shifted d b : win (shifted d b)
  = mk_window (buf_addr b) (buf_len b) (data_off b + d) (data_off b + data_len b).
Proof. unfold win, shifted. simpl. f_equal. lia. Qed.

(** An edit of the first segment. *)
Lemma edit_first m l h n : pkt_ok (h_mbufs h) m l -> 0 <= n < 2 ^ 16 ->
  edit_done m l h (Prepend n) /\ edit_done m l h (Adj n).
Proof.
  intros Hp Hn. pose proof (pkt_head_in _ _ _ Hp) as Hm. pose proof (pkt_chain _ _ _ Hp) as Hc.
  destruct (is_chain_elem _ _ _ m Hc Hm) as [[b Hb] _].
  assert (l !! 0%nat = Some m) as H0.
  { destruct l as [|x l]; [by apply elem_of_nil in Hm|]. by destruct Hc as (-> & _). }
  destruct (head_lengths _ _ _ _ Hp Hb) as ([S1 S2 S3 S4] & Hdl & Epl & Hpmx). split.
  - destruct (data_off b <? n) eqn:E.
    + eapply (edit_refused m l h (Prepend n) 0 m b); try done; [simpl; by rewrite E|].
      simpl. unfold rte_pktmbuf_prepend, rte_pktmbuf_headroom. heap_run. by rewrite Z.gtb_ltb, E.
    + pose proof E as E'. apply Z.ltb_ge in E'.
      assert (pkt_len b + n < 2 ^ 32) as Hmax
        by (rewrite Epl; apply (pkt_ok_small _ _ _ _ b n Hp Hm Hb); lia).
      eapply (edit_moved m l h (Prepend n) 0 m b _ (<[m := shifted (- n) b]> (h_mbufs h)) (shifted (- n) b)); try done.
      * simpl. rewrite E, win_shifted. by rewrite Z.add_opp_r.
      * apply shifted_edited.
      * apply (shifted_ok h m l b (- n) Hp Hb); lia.
      * simpl. by rewrite (prepend_run h m l b n Hp Hb) by lia.
  - destruct (data_len b <? n) eqn:E.
    + eapply (edit_refused m l h (Adj n) 0 m b); try done.
      * simpl. replace (data_off b + data_len b - data_off b) with (data_len b) by lia. by rewrite E.
      * simpl. unfold rte_pktmbuf_adj. heap_run. by rewrite Z.gtb_ltb, E.
    + pose proof E as E'. apply Z.ltb_ge in E'.
      eapply (edit_moved m l h (Adj n) 0 m b _ (<[m := shifted n b]> (h_mbufs h)) (shifted n b)); try done.
      * simpl. replace (data_off b + data_len b - data_off b) with (data_len b) by lia.
        by rewrite E, win_shifted.
      * apply shifted_edited.
      * apply (shifted_ok h m l b n Hp Hb); lia.
      * simpl. by rewrite (adj_run h m l b n Hp Hb) by lia.
Qed.

(** An edit of the last one. *)
Lemma edit_last m l h n : pkt_ok (h_mbufs h) m l -> 0 <= n < 2 ^ 16 ->
  edit_done m l h (Append n) /\ edit_done m l h (Trim n).
Proof.
  intros Hp Hn. destruct (pkt_last _ _ _ Hp) as (l1 & a & El).
  assert (a ∈ l) as Ha by (rewrite El; apply last_in).
  destruct (is_chain_elem _ _ _ a (pkt_chain _ _ _ Hp) Ha) as [[ba Hba] _].
  assert (l !! (length (windows (h_mbufs h) l) - 1)%nat = Some a) as H1.
  { unfold windows. rewrite length_map, El, length_app. simpl.
    replace (length l1 + 1 - 1)%nat with (length l1) by lia. by apply list_lookup_middle. }
  destruct (pkt_segs _ _ _ Hp a ba Ha Hba) as [A1 A2 A3 A4]. split.
  - destruct (buf_len ba - (data_off ba + data_len ba) <? n) eqn:E.
    + eapply (edit_refused m l h (Append n) _ a ba H1 Hba eq_refl); [simpl; by rewrite E|done|].
      apply Z.ltb_lt in E. rewrite El in Hp. by apply (append_refused h m n l1 a ba Hp Hba); lia.
    + pose proof E as E'. apply Z.ltb_ge in E'.
      pose proof (pkt_ok_small _ _ _ _ ba n Hp Ha Hba ltac:(lia) ltac:(lia)) as Hmax.
      pose proof Hp as Hp'. rewrite El in Hp', Hmax.
      destruct (append_run h m n l1 a ba Hp' Hba Hn Hmax ltac:(lia)) as (mb' & HR & Ed & Hok & _).
      rewrite <- El in Hok.
      eapply (edit_moved m l h (Append n) _ a ba _ mb' (resized (data_len ba + n) ba) _ H1 Hba eq_refl); try done.
      simpl. rewrite E. unfold win. simpl. by rewrite !Z.add_assoc.
  - destruct (data_len ba <? n) eqn:E.
    + eapply (edit_refused m l h (Trim n) _ a ba H1 Hba eq_refl); [|done|].
      * simpl. replace (data_off ba + data_len ba - data_off ba) with (data_len ba) by lia. by rewrite E.
      * apply Z.ltb_lt in E. rewrite El in Hp. by apply (trim_refused h m n l1 a ba Hp Hba).
    + pose proof E as E'. apply Z.ltb_ge in E'. pose proof Hp as Hp'. rewrite El in Hp'.
      destruct (trim_run h m n l1 a ba Hp' Hba ltac:(lia)) as (mb' & HR & Ed & Hok & _).
      rewrite <- El in Hok.
      eapply (edit_moved m l h (Trim n) _ a ba _ mb' (resized (data_len ba - n) ba) _ H1 Hba eq_refl); try done.
      simpl. replace (data_off ba + data_len ba - data_off ba) with (data_len ba) by lia. rewrite E.
      unfold win. simpl. do 3 f_equal. lia.
Qed.

Lemma edit_ok m l h e : pkt_ok (h_mbufs h) m l -> 0 <= edit_len e < 2 ^ 16 -> edit_done m l h e.
Proof.
  intros Hp Hn. destruct e as [n|n|n|n]; simpl in Hn; by apply edit_first || apply edit_last.
Qed.

(** C29. Any sequence of [rte_pktmbuf_prepend], [append], [adj] and [trim], with
    lengths of 16 bits, on a well-formed packet of any number of segments moves
    the ends of its data as the sequence says: [prepend] and [adj] move the start
    of the first segment, [append] and [trim] the end of the last one, each by its
    length, and they return the address of the new first byte, of the bytes that
    are added, or 0; one that would leave the buffer, or has too few bytes in the
    segment, returns NULL (-1 for [trim]) and changes nothing.  The packet stays
    well formed, its length in the head included, so that no offset or length
    wraps around; no other mbuf, no other member and nothing else of the memory
    changes. *)
Theorem mbuf_edits_move_windows (es : list edit) (h : heap P) (m : Z) (l : list Z) :
  pkt_ok (h_mbufs h) m l -> Forall (fun e => 0 <= edit_len e < 2 ^ 16) es ->
  exists mb', do_edits m es h
      = Some ((edits_windows es (windows (h_mbufs h) l)).1, set_h_mbufs mb' h)
    /\ pkt_ok mb' m l /\ windows mb' l = (edits_windows es (windows (h_mbufs h) l)).2
    /\ others_kept (h_mbufs h) mb' l.
Proof.
  intros Hp F. revert h Hp. induction F as [|e es He F IH]; intros h Hp.
  { exists (h_mbufs h). by rewrite set_h_mbufs_id. }
  destruct (edit_ok m l h e Hp He) as (mb1 & E1 & Hp1 & W1 & K1).
  destruct (IH (set_h_mbufs mb1 h) Hp1) as (mb2 & E2 & Hp2 & W2 & K2).
  rewrite h_mbufs_set, W1, set_h_mbufs_twice in *. exists mb2. cbn [do_edits edits_windows].
  rewrite (mbind_run _ _ _ _ _ E1), (mbind_run _ _ _ _ _ E2).
  destruct (edit_windows e _) as [r ws1]. simpl in *. destruct (edits_windows es ws1) as [rs ws2].
  split; [done|]. split; [done|]. split; [done|]. by eapply others_kept_trans.
Qed.
End edits.

(** A header of 14 bytes is put before the packet of two segments and one of 130
    is refused; the tail takes 8 bytes, gives all its 58 bytes back and has no more
    to give; 4 bytes are removed from the start. *)
Lemma mbuf_edits_move_windows_witness :
  let es := [Prepend 14; Prepend 130; Append 8; Trim 58; Trim 1; Adj 4] in
  exists mb', do_edits 1000 es demo_packets
      = Some ([1242; 0; 4306; 0; -1; 1246], set_h_mbufs mb' demo_packets)
    /\ windows mb' [1000; 4000] = [mk_window 1128 2176 118 228; mk_window 4128 2176 128 128]
    /\ mb' !! 7000 = h_mbufs demo_packets !! 7000.
Proof.
  intros es.
  destruct (mbuf_edits_move_windows es demo_packets 1000 [1000; 4000] demo_long)
    as (mb' & E & _ & W & K & _).
  - repeat constructor; simpl; lia.
  - exists mb'. split; [exact E|]. split; [exact W|]. apply K.
    intros Hin. repeat (apply elem_of_cons in Hin as [Hin|Hin]; [discriminate Hin|]).
    by apply elem_of_nil in Hin.
Defined.
