(* ===== verification/MbufPool.v ===== *)
(** * Allocation, sharing and release of packet buffers.

    The mempool of the buffers is any lawful one ([Mempool.v]); the theorems
    say which mbufs leave and enter it, and in which state. *)
From stdpp Require Import prelude list numbers gmap.
From S2P Require Import Prelude Mempool MbufCore Mbuf MbufSpec.
Open Scope Z_scope.

Section pool.
Context {P : Type} (table : Z -> rte_mempool_ops P) (o : rte_mempool_ops P) `{LawfulOps P o}.
Context (lcore_id : Z) (Hlcore : 0 <= lcore_id).
Context (ext_free : Z -> Z -> Z -> M (heap P) unit).
Implicit Types (h : heap P) (p : rte_mempool P).

(** ** One pool of the heap *)

(** [k] objects of the pool are in use. *)
Definition pool_inv (k : Z) p : Prop := mp_inv table o k (mk_mps p []).
(** The objects that are not. *)
Definition free_objs p : list Z := all_objs o (mk_mps p []).

Definition with_pool_at (mp : Z) p h : heap P := set_h_pools (<[mp := p]> (h_pools h)) h.

Lemma in_pool_run {A} mp p (op : M (mp_state P) A) a p' h :
  h_pools h !! mp = Some p -> op (mk_mps p []) = Some (a, mk_mps p' []) ->
  in_pool mp op h = Some (a, with_pool_at mp p' h).
Proof. intros Hp E. unfold in_pool. rewrite Hp. simpl. by rewrite E. Qed.

Lemma pool_get_bulk_run k mp p tbl n h :
  h_pools h !! mp = Some p -> pool_inv k p -> 0 <= n <= Z.of_nat (length tbl) ->
  exists ret tbl' p',
    in_pool mp (rte_mempool_get_bulk table lcore_id tbl n) h
    = Some (ret, tbl', with_pool_at mp p' h)
    /\ ((ret = 0 /\ length tbl' = length tbl
         /\ free_objs p ≡ₚ take (Z.to_nat n) tbl' ++ free_objs p' /\ pool_inv (k + n) p')
        \/ (ret < 0 /\ free_objs p' ≡ₚ free_objs p /\ pool_inv k p'
            /\ Z.of_nat (length (pool_objs (pool_data p))) < n
            /\ pool_objs (pool_data p') ≡ₚ pool_objs (pool_data p))).
Proof.
  intros Hp I Hn.
  destruct (get_bulk_ok table o lcore_id k n tbl _ I Hlcore Hn) as (ret & tbl' & [p' u] & HR & HP).
  pose proof (keeps_user_get_bulk _ _ _ _ _ _ _ HR) as Hu. simpl in Hu. subst u.
  exists ret, tbl', p'. split; [by eapply in_pool_run|].
  destruct HP as [(H1 & H2 & _ & H3 & H4)|(H1 & _ & H2)]; [left|right]; done.
Qed.

Lemma pool_get_run k mp p h :
  h_pools h !! mp = Some p -> pool_inv k p ->
  exists ret m p', in_pool mp (rte_mempool_get table lcore_id 0) h
      = Some (ret, m, with_pool_at mp p' h)
    /\ ((ret = 0 /\ free_objs p ≡ₚ m :: free_objs p' /\ pool_inv (k + 1) p')
        \/ (ret < 0 /\ free_objs p' ≡ₚ free_objs p /\ pool_inv k p'
            /\ pool_objs (pool_data p') = [])).
Proof.
  intros Hp I. assert (0 <= 1 <= Z.of_nat (length [0])) as H1 by (simpl; lia).
  destruct (get_bulk_ok table o lcore_id k 1 [0] _ I Hlcore H1) as (ret & tbl' & [p' u] & HR & HP).
  pose proof (keeps_user_get_bulk _ _ _ _ _ _ _ HR) as Hu. simpl in Hu. subst u.
  assert (length tbl' = 1%nat) as Hl by (destruct HP as [(_ & E & _)|(_ & E & _)]; exact E).
  destruct tbl' as [|m [|]]; try done. exists ret, m, p'. split.
  - eapply in_pool_run; [done|]. unfold rte_mempool_get. by rewrite (mbind_run _ _ _ _ _ HR).
  - destruct HP as [(-> & _ & _ & Hf & I')|(Hr & _ & Hf & I' & Hlt & Hpo)]; [by left|right].
    split; [done|]. split; [done|]. split; [done|]. apply Permutation_nil_r.
    rewrite Hpo. cbn [mps_pool] in Hlt |- *.
    destruct (pool_objs (pool_data p)); [done|cbn [length] in Hlt; lia].
Qed.

Lemma pool_put_run k mp p m h :
  h_pools h !! mp = Some p -> pool_inv k p -> 1 <= k ->
  exists p', in_pool mp (rte_mempool_put table lcore_id m) h = Some (tt, with_pool_at mp p' h)
    /\ free_objs p' ≡ₚ m :: free_objs p /\ pool_inv (k - 1) p'
    /\ cache_size p' = cache_size p.
Proof.
  intros Hp I Hk. assert (1 <= Z.of_nat (length [m])) as H1 by (simpl; lia).
  destruct (put_bulk_ok table o lcore_id k 1 [m] _ I Hlcore ltac:(lia) H1) as ([p' u] & HR & HP).
  pose proof (keeps_user_put_bulk _ _ _ _ _ _ _ HR) as Hu. simpl in Hu. subst u.
  exists p'. split; [by eapply in_pool_run|]. by destruct HP as (H2 & H3 & _ & H4).
Qed.

(** ** Allocation *)

(** A fresh mbuf: everything but the buffer, the owner and the fields of the
    application is reset. *)
Definition reset_fields (b : rte_mbuf) : rte_mbuf :=
  mk_mbuf (buf_addr b) (buf_iova b) (Z.min RTE_PKTMBUF_HEADROOM (buf_len b)) (refcnt b) 1
    RTE_MBUF_PORT_INVALID (Z.land (ol_flags b) RTE_MBUF_F_EXTERNAL) 0 0 0 0 (mbuf_hash b) 0
    (buf_len b) (pool b) NULL 0 (shinfo b) (priv_size b) (timesync b) (dynfield1 b).

(** The free objects of a pool are mbufs of the heap. *)
Definition mbufs_of h (l : list Z) : Prop :=
  forall a, a ∈ l -> a <> NULL /\ exists b, h_mbufs h !! a = Some b /\ fits 16 (buf_len b).

Lemma reset_run h m b :
  h_mbufs h !! m = Some b -> fits 16 (buf_len b) ->
  rte_pktmbuf_reset m h = Some (tt, set_h_mbufs (<[m := reset_fields b]> (h_mbufs h)) h).
Proof.
  intros Hb Hf. unfold rte_pktmbuf_reset, rte_pktmbuf_reset_headroom. heap_run.
  cbn [buf_len set_packet_type set_ol_flags set_port set_nb_segs set_vlan_tci_outer
       set_vlan_tci set_tx_offload set_pkt_len set_next].
  rewrite (wrap_small 16 (buf_len b)) by done. change (u16 RTE_PKTMBUF_HEADROOM) with 128.
  rewrite wrap_small by (unfold fits in *; lia). by destruct b.
Qed.

Lemma alloc_run (k mp : Z) (p : rte_mempool P) (h : heap P) :
  h_pools h !! mp = Some p -> pool_inv k p -> mbufs_of h (free_objs p) ->
  exists m p' h', rte_pktmbuf_alloc table lcore_id mp h = Some (m, h')
    /\ ((m = NULL /\ h' = with_pool_at mp p' h /\ free_objs p' ≡ₚ free_objs p /\ pool_inv k p'
         /\ pool_objs (pool_data p') = [])
        \/ (m <> NULL /\ free_objs p ≡ₚ m :: free_objs p' /\ pool_inv (k + 1) p'
            /\ exists b, h_mbufs h !! m = Some b
                 /\ h' = set_h_mbufs (<[m := reset_fields b]> (h_mbufs h)) (with_pool_at mp p' h))).
Proof.
  intros Hp I Hm. destruct (pool_get_run k mp p h Hp I) as (ret & m & p' & HR & HP).
  unfold rte_pktmbuf_alloc, rte_mbuf_raw_alloc.
  destruct HP as [(-> & Hf & I')|(Hr & Hf & I' & Hlt)].
  - destruct (Hm m) as (Hn & b & Hb & Hbl); [rewrite Hf; by left|].
    rewrite (mbind_run _ _ h m (with_pool_at mp p' h)) by (by rewrite (mbind_run _ _ _ _ _ HR)).
    rewrite (proj2 (Z.eqb_neq m NULL) Hn). cbn [negb].
    rewrite (mbind_run _ _ _ _ _ (reset_run (with_pool_at mp p' h) m b Hb Hbl)).
    eexists m, p', _. split; [done|]. right. eauto 6.
  - rewrite (mbind_run _ _ h NULL (with_pool_at mp p' h)).
    2:{ rewrite (mbind_run _ _ _ _ _ HR). by rewrite (proj2 (Z.ltb_lt ret 0) Hr). }
    eexists NULL, p', _. split; [done|]. left. eauto 6.
Qed.

(** [rte_pktmbuf_alloc] returns NULL, with every mbuf unchanged and none
    taken, only when the common pool is empty, which it still is; otherwise it returns an mbuf that
    was free and no longer is, reset: no data, one segment, no successor, no
    offload, the data offset at the headroom (or at the end of a smaller
    buffer), and no other mbuf is touched. *)
Theorem pktmbuf_alloc_ok (k mp : Z) (p : rte_mempool P) (h : heap P) :
  h_pools h !! mp = Some p -> pool_inv k p -> mbufs_of h (free_objs p) ->
  exists m h', rte_pktmbuf_alloc table lcore_id mp h = Some (m, h')
    /\ exists p', h_pools h' = <[mp := p']> (h_pools h)
    /\ ((m = NULL /\ h_mbufs h' = h_mbufs h /\ free_objs p' ≡ₚ free_objs p /\ pool_inv k p'
         /\ pool_objs (pool_data p') = [])
        \/ (m <> NULL /\ free_objs p ≡ₚ m :: free_objs p' /\ pool_inv (k + 1) p'
            /\ exists b, h_mbufs h !! m = Some b
                 /\ h_mbufs h' = <[m := reset_fields b]> (h_mbufs h))).
Proof.
  intros Hp I Hm. destruct (alloc_run k mp p h Hp I Hm) as (m & p' & h' & HR & HP).
  exists m, h'. split; [exact HR|]. exists p'.
  destruct HP as [(-> & -> & HP)|(Hn & Hf & I' & b & Hb & ->)]; (split; [done|]); [left|right]; eauto 6.
Qed.

(** ** Bulk allocation: the unrolled loop resets every mbuf once *)

Definition reset_all (ms : list Z) (mb : gmap Z rte_mbuf) : gmap Z rte_mbuf :=
  foldl (fun mb m => alter reset_fields m mb) mb ms.

Lemma reset_fields_buf_len b : buf_len (reset_fields b) = buf_len b.
Proof. done. Qed.

Lemma mbufs_of_alter h m l v :
  mbufs_of h l -> v = alter reset_fields m (h_mbufs h) -> mbufs_of (set_h_mbufs v h) l.
Proof.
  intros Hm -> a Ha. destruct (Hm a Ha) as (Hn & b & Hb & Hf). split; [done|].
  rewrite h_mbufs_set. destruct (decide (a = m)) as [->|].
  - exists (reset_fields b). by rewrite lookup_alter_eq, Hb.
  - exists b. by rewrite lookup_alter_ne.
Qed.

Lemma alter_as_insert (f : rte_mbuf -> rte_mbuf) (m : Z) b (mb : gmap Z rte_mbuf) :
  mb !! m = Some b -> alter f m mb = <[m := f b]> mb.
Proof.
  intros Hb. apply map_eq. intros i. destruct (decide (i = m)) as [->|].
  - by rewrite lookup_alter_eq, lookup_insert_eq, Hb.
  - by rewrite lookup_alter_ne, lookup_insert_ne.
Qed.

Lemma reset_run_alter h m l :
  mbufs_of h l -> m ∈ l ->
  rte_pktmbuf_reset m h = Some (tt, set_h_mbufs (alter reset_fields m (h_mbufs h)) h).
Proof.
  intros Hm Hin. destruct (Hm m Hin) as (_ & b & Hb & Hf).
  rewrite (reset_run h m b Hb Hf). do 3 f_equal. symmetry. by apply alter_as_insert.
Qed.

Lemma reset_cases_run k : forall ms idx h,
  (idx + k <= length ms)%nat -> Z.of_nat (length ms) < 2 ^ 32 -> mbufs_of h ms ->
  reset_cases k ms (Z.of_nat idx) h
  = Some (Z.of_nat (idx + k), set_h_mbufs (reset_all (take k (drop idx ms)) (h_mbufs h)) h)
  /\ mbufs_of (set_h_mbufs (reset_all (take k (drop idx ms)) (h_mbufs h)) h) ms.
Proof.
  induction k as [|k IH]; intros ms idx h Hl Hmax Hm.
  { simpl. rewrite Nat.add_0_r, set_h_mbufs_id. done. }
  destruct (lookup_lt_is_Some_2 ms idx) as [m Em]; [lia|].
  assert (aget ms (Z.of_nat idx) = Some m) as Eg.
  { unfold aget. rewrite (proj2 (Z.leb_le _ _)) by lia. by rewrite Nat2Z.id. }
  cbn [reset_cases]. rewrite Eg. rewrite (mbind_run _ _ h m h) by done.
  rewrite (mbind_run _ _ h tt h) by done.
  rewrite (mbind_run _ _ _ _ _ (reset_run_alter h m ms Hm ltac:(by eapply list_elem_of_lookup_2))).
  rewrite wrap_small by (unfold fits; lia).
  replace (Z.of_nat idx + 1) with (Z.of_nat (Datatypes.S idx)) by lia.
  set (h1 := set_h_mbufs _ h).
  assert (mbufs_of h1 ms) as Hm1 by (by eapply mbufs_of_alter).
  destruct (IH ms (Datatypes.S idx) h1) as [HR HM]; [lia|done|done|].
  rewrite HR. rewrite (drop_S ms m idx Em). cbn [take]. unfold h1 in *.
  rewrite h_mbufs_set, set_h_mbufs_twice in *. split; [|exact HM].
  do 2 f_equal. lia.
Qed.

Lemma reset_all_app l1 l2 mb : reset_all (l1 ++ l2) mb = reset_all l2 (reset_all l1 mb).
Proof. apply foldl_app. Qed.

Lemma reset_loop_run j : forall fuel ms n idx h,
  (j < fuel)%nat -> (idx + 4 * j = n)%nat -> (n <= length ms)%nat ->
  Z.of_nat (length ms) < 2 ^ 32 -> mbufs_of h ms ->
  do_while fuel (fun idx : Z =>
    if negb (idx =? Z.of_nat n) then idx ← reset_cases 4 ms idx ; mret (inl idx)
    else mret (inr tt)) (Z.of_nat idx) h
  = Some (tt, set_h_mbufs (reset_all (take (4 * j) (drop idx ms)) (h_mbufs h)) h).
Proof.
  induction j as [|j IH]; intros fuel ms n idx h Hf Hi Hn Hmax Hm;
    (destruct fuel as [|fuel]; [lia|]); cbn [do_while].
  - replace idx with n by lia. rewrite Z.eqb_refl. simpl. by rewrite set_h_mbufs_id.
  - rewrite (proj2 (Z.eqb_neq (Z.of_nat idx) (Z.of_nat n))) by lia. cbn [negb].
    destruct (reset_cases_run 4 ms idx h) as [HR HM]; [lia|done|done|].
    unfold mbind at 1, M_bind. rewrite (mbind_run _ _ _ _ _ HR).
    cbn [mret M_ret]. rewrite (IH fuel ms n) by (done || lia).
    rewrite h_mbufs_set, set_h_mbufs_twice, <- reset_all_app.
    replace (4 * Datatypes.S j)%nat with (4 + 4 * j)%nat by lia.
    by rewrite take_add, drop_drop.
Qed.

(** [rte_pktmbuf_alloc_bulk] returns the error of the mempool, with no mbuf
    taken or changed, or 0 with [count] mbufs that were free and no longer
    are; the unrolled loop (Duff's device, entered in the middle when [count]
    is not a multiple of four) has then reset exactly these mbufs, and returned
    for every [count]. *)
Theorem pktmbuf_alloc_bulk_ok (k mp : Z) (p : rte_mempool P) (h : heap P) (tbl : list Z) :
  h_pools h !! mp = Some p -> pool_inv k p -> mbufs_of h (free_objs p) ->
  Z.of_nat (length tbl) < 2 ^ 32 ->
  let count := Z.of_nat (length tbl) in
  exists rc ms h', rte_pktmbuf_alloc_bulk table lcore_id mp tbl count h = Some (rc, ms, h')
    /\ exists p', h_pools h' = <[mp := p']> (h_pools h)
    /\ ((rc = 0 /\ length ms = length tbl /\ free_objs p ≡ₚ ms ++ free_objs p'
         /\ pool_inv (k + count) p' /\ h_mbufs h' = reset_all ms (h_mbufs h))
        \/ (rc < 0 /\ free_objs p' ≡ₚ free_objs p /\ pool_inv k p'
            /\ h_mbufs h' = h_mbufs h)).
Proof.
  intros Hp I Hm Hmax count. unfold rte_pktmbuf_alloc_bulk.
  destruct (pool_get_bulk_run k mp p tbl count h Hp I) as (ret & ms & p' & HR & HP); [lia|].
  rewrite (mbind_run _ _ _ _ _ HR).
  destruct HP as [(-> & Hl & Hf & I')|(Hr & Hf & I' & _)].
  2:{ unfold truthy. rewrite (proj2 (Z.eqb_neq ret 0)) by lia. cbn [negb].
      eexists ret, ms, _. split; [done|]. exists p'. split; [done|]. right. done. }
  unfold count in *. rewrite take_ge in Hf by lia. set (h1 := with_pool_at mp p' h).
  assert (mbufs_of h1 ms) as Hm1.
  { intros a Ha. apply (Hm a). rewrite Hf. apply elem_of_app. by left. }
  set (n := length tbl) in *. set (r := (n mod 4)%nat).
  pose proof (Nat.div_mod n 4 ltac:(lia)) as Hdm. fold r in Hdm.
  pose proof (Nat.mod_upper_bound n 4 ltac:(lia)) as Hr. fold r in Hr.
  assert (Z.of_nat n mod 4 = Z.of_nat r) as Er by (unfold r; by rewrite Nat2Z.inj_mod).
  exists 0, ms, (set_h_mbufs (reset_all ms (h_mbufs h)) h1). split.
  - change (truthy 0) with false. cbv iota. rewrite Er. unfold reset_loop. rewrite Nat2Z.id.
    destruct (reset_cases_run r ms 0 h1) as [HC HM]; [lia|lia|done|].
    rewrite drop_0, Nat.add_0_l in HC. rewrite drop_0 in HM. change (Z.of_nat 0) with 0 in HC.
    assert (reset_all ms (h_mbufs h) = reset_all (drop r ms) (reset_all (take r ms) (h_mbufs h)))
      as Es by (by rewrite <- reset_all_app, take_drop).
    assert (take (4 * (n / 4)) (drop r ms) = drop r ms) as Et
      by (apply take_ge; rewrite length_drop; lia).
    destruct (Z.of_nat r =? 0) eqn:E0.
    + apply Z.eqb_eq in E0. assert (r = 0%nat) as Hr0 by lia.
      assert (0 + 4 * (n / 4) = n)%nat as H1 by lia. assert (n / 4 < Datatypes.S n)%nat as H2 by lia.
      assert (n <= length ms)%nat as H3 by lia.
      assert (Z.of_nat (length ms) < 2 ^ 32) as H4 by lia.
      rewrite Hr0 in Et.
      rewrite (mbind_run _ _ _ _ _ (reset_loop_run (n / 4) _ ms n 0 h1 H2 H1 H3 H4 Hm1)).
      rewrite Et. done.
    + rewrite Nat2Z.id. unfold mbind at 1, M_bind. rewrite (mbind_run _ _ _ _ _ HC).
      rewrite (reset_loop_run (n / 4) _ ms n r) by (done || lia).
      rewrite h_mbufs_set, set_h_mbufs_twice, Et. by rewrite Es.
  - exists p'. split; [done|]. left. done.
Qed.

(** ** Release *)

(** A segment that goes back to its pool: alone, with one reference. *)
Definition released (b : rte_mbuf) : rte_mbuf := set_refcnt 1 (set_nb_segs 1 (set_next NULL b)).

Lemma set_next_id b : next b = NULL -> set_next NULL b = b.
Proof. destruct b; simpl. by intros ->. Qed.

Lemma set_nb_segs_id b : nb_segs b = 1 -> set_nb_segs 1 b = b.
Proof. destruct b; simpl. by intros ->. Qed.

Lemma set_refcnt_id b v : refcnt b = v -> set_refcnt v b = b.
Proof. destruct b; simpl. by intros ->. Qed.

Lemma prefree_unlink_run h m b :
  h_mbufs h !! m = Some b ->
  prefree_unlink m h
  = Some (tt, set_h_mbufs (<[m := set_nb_segs 1 (set_next NULL b)]> (h_mbufs h)) h).
Proof.
  intros Hb. unfold prefree_unlink. rewrite (mbind_run _ _ _ _ _ (rd_run m b h Hb)).
  destruct (next b =? NULL) eqn:E; cbn [negb].
  - apply Z.eqb_eq in E. rewrite (set_next_id b E). heap_run.
    destruct (nb_segs b =? 1) eqn:E1; cbn [negb].
    + apply Z.eqb_eq in E1. rewrite (set_nb_segs_id b E1), insert_id by done.
      by rewrite set_h_mbufs_id.
    + by heap_run.
  - heap_run. change (nb_segs (set_next NULL b)) with (nb_segs b).
    destruct (nb_segs b =? 1) eqn:E1; cbn [negb]; heap_run; [|done].
    apply Z.eqb_eq in E1. by rewrite (set_nb_segs_id (set_next NULL b) E1).
Qed.

Lemma prefree_direct_last h m b :
  h_mbufs h !! m = Some b -> RTE_MBUF_DIRECT b = true -> refcnt b = 1 ->
  rte_pktmbuf_prefree_seg table lcore_id ext_free m h
  = Some (m, set_h_mbufs (<[m := released b]> (h_mbufs h)) h).
Proof.
  intros Hb Hd Hr. unfold rte_pktmbuf_prefree_seg, rte_mbuf_refcnt_read, prefree_detach.
  heap_run. cbn [mret M_ret]. rewrite Hr. change (1 =? 1) with true. cbv iota.
  heap_run. rewrite Hd. cbn [negb mret M_ret]. rewrite (prefree_unlink_run _ _ _ Hb).
  unfold released. by rewrite (set_refcnt_id _ 1) by done.
Qed.

Lemma prefree_shared h m b :
  h_mbufs h !! m = Some b -> 2 <= refcnt b < 2 ^ 16 ->
  rte_pktmbuf_prefree_seg table lcore_id ext_free m h
  = Some (NULL, set_h_mbufs (<[m := set_refcnt (refcnt b - 1) b]> (h_mbufs h)) h).
Proof.
  intros Hb Hr. unfold rte_pktmbuf_prefree_seg, rte_mbuf_refcnt_read, __rte_mbuf_refcnt_update.
  heap_run. rewrite (proj2 (Z.eqb_neq (refcnt b) 1)) by lia. heap_run.
  replace (u16 (refcnt b + u16 (-1))) with (refcnt b - 1).
  2:{ rewrite wrap_add_r, wrap_small by (unfold fits; lia). lia. }
  by rewrite (proj2 (Z.eqb_neq (refcnt b - 1) 0)) by lia.
Qed.

(** Releasing one direct segment of a pool: it goes back to the pool when it
    was the last reference, and otherwise loses a reference. *)
Definition seg_after (b : rte_mbuf) : rte_mbuf :=
  if refcnt b =? 1 then released b else set_refcnt (refcnt b - 1) b.

Definition gives_back (b : rte_mbuf) (a : Z) : list Z := if refcnt b =? 1 then [a] else [].

Lemma pool_after b : pool (seg_after b) = pool b.
Proof. unfold seg_after. by destruct (refcnt b =? 1). Qed.

Lemma free_seg_run k mp p h m b :
  h_pools h !! mp = Some p -> pool_inv k p -> h_mbufs h !! m = Some b -> pool b = mp ->
  RTE_MBUF_DIRECT b = true -> m <> NULL -> 1 <= refcnt b < 2 ^ 16 ->
  Z.of_nat (length (gives_back b m)) <= k ->
  exists p', rte_pktmbuf_free_seg table lcore_id ext_free m h
    = Some (tt, with_pool_at mp p' (set_h_mbufs (<[m := seg_after b]> (h_mbufs h)) h))
  /\ free_objs p' ≡ₚ gives_back b m ++ free_objs p
  /\ pool_inv (k - Z.of_nat (length (gives_back b m))) p'.
Proof.
  intros Hp I Hb Hpool Hd Hn Hr Hk. unfold rte_pktmbuf_free_seg, gives_back, seg_after in *.
  destruct (refcnt b =? 1) eqn:E.
  - apply Z.eqb_eq in E. rewrite (mbind_run _ _ _ _ _ (prefree_direct_last h m b Hb Hd E)).
    rewrite (proj2 (Z.eqb_neq m NULL) Hn). cbn [negb]. unfold rte_mbuf_raw_free.
    set (h1 := set_h_mbufs _ h).
    destruct (pool_put_run k mp p m h1 Hp I) as (p' & HR & Hf & I' & _); [simpl in Hk; lia|].
    exists p'. split; [|done]. rewrite (mbind_run _ _ h1 tt h1) by done.
    rewrite (mbind_run _ _ _ _ _ (rd_run m (released b) h1 (lookup_insert_eq _ _ _))).
    change (pool (released b)) with (pool b). by rewrite Hpool.
  - apply Z.eqb_neq in E. rewrite (mbind_run _ _ _ _ _ (prefree_shared h m b Hb ltac:(lia))).
    exists p. split; [|split; [done|]].
    + change (NULL =? NULL) with true. cbn [negb mret M_ret]. unfold with_pool_at. do 2 f_equal.
      destruct h as [? ? hp ? ? ?]; unfold set_h_pools, set_h_mbufs; simpl in *.
      by rewrite (insert_id hp).
    + simpl. by rewrite Z.sub_0_r.
Qed.

(** Every segment of [l] is a direct mbuf of the pool [mp], in use. *)
Definition direct_of (mb : gmap Z rte_mbuf) (mp : Z) (l : list Z) : Prop :=
  forall a b, a ∈ l -> mb !! a = Some b ->
    pool b = mp /\ RTE_MBUF_DIRECT b = true /\ 1 <= refcnt b < 2 ^ 16.

Definition free_all (l : list Z) (mb : gmap Z rte_mbuf) : gmap Z rte_mbuf :=
  foldl (fun mb a => alter seg_after a mb) mb l.

(** The segments of [l] that hold the last reference. *)
Fixpoint last_refs (mb : gmap Z rte_mbuf) (l : list Z) : list Z :=
  match l with
  | [] => []
  | a :: l' => (match mb !! a with Some b => gives_back b a | None => [] end) ++ last_refs mb l'
  end.

Lemma last_refs_insert mb a b l : a ∉ l -> last_refs (<[a := b]> mb) l = last_refs mb l.
Proof.
  induction l as [|x l IH]; intros Hn; [done|]. apply not_elem_of_cons in Hn as [Hx Hl].
  simpl. rewrite lookup_insert_ne by done. by rewrite IH.
Qed.

Definition free_body (m : Z) : M (heap P) (Z + unit) :=
  if negb (m =? NULL) then
    b ← rd m ;
    let m_next := next b in
    rte_pktmbuf_free_seg table lcore_id ext_free m ;;
    mret (inl m_next)
  else mret (inr tt).

Lemma free_loop mp l : forall fuel k p h m,
  h_pools h !! mp = Some p -> pool_inv k p -> is_chain (h_mbufs h) m l ->
  direct_of (h_mbufs h) mp l -> Z.of_nat (length (last_refs (h_mbufs h) l)) <= k ->
  (length l < fuel)%nat ->
  exists p' h', do_while fuel free_body m h = Some (tt, h')
    /\ h' = with_pool_at mp p' (set_h_mbufs (free_all l (h_mbufs h)) h)
    /\ free_objs p' ≡ₚ last_refs (h_mbufs h) l ++ free_objs p
    /\ pool_inv (k - Z.of_nat (length (last_refs (h_mbufs h) l))) p'.
Proof.
  induction l as [|a l IH]; intros fuel k p h m Hp I Hc Hd Hk Hf;
    (destruct fuel as [|fuel]; [simpl in Hf; lia|]); cbn [do_while].
  - simpl in Hc. subst m. exists p, h. split; [done|]. split; [|split; [done|]].
    + destruct h as [? ? hp ? ? ?]; unfold with_pool_at, set_h_pools, set_h_mbufs; simpl in *.
      by rewrite (insert_id hp).
    + simpl. by rewrite Z.sub_0_r.
  - pose proof (is_chain_NoDup _ _ _ Hc) as Hnd. apply NoDup_cons in Hnd as [Hna Hnd].
    destruct Hc as (-> & Hn & b & Hb & Hl).
    destruct (Hd m b ltac:(by left) Hb) as (Hpool & Hdir & Hr).
    cbn [last_refs] in Hk |- *. rewrite Hb in Hk |- *. rewrite length_app, Nat2Z.inj_add in Hk |- *.
    destruct (free_seg_run k mp p h m b Hp I Hb Hpool Hdir Hn Hr) as (p1 & HR & Hf1 & I1); [lia|].
    set (h1 := with_pool_at mp p1 _) in HR.
    assert (free_body m h = Some (inl (next b), h1)) as HB.
    { unfold free_body. rewrite (proj2 (Z.eqb_neq m NULL) Hn). cbn [negb].
      rewrite (mbind_run _ _ _ _ _ (rd_run m b h Hb)). by rewrite (mbind_run _ _ _ _ _ HR). }
    rewrite (mbind_run _ _ _ _ _ HB).
    assert (h_mbufs h1 = <[m := seg_after b]> (h_mbufs h)) as E1 by done.
    destruct (IH fuel (k - Z.of_nat (length (gives_back b m))) p1 h1 (next b))
      as (p' & h' & HR' & -> & Hf' & I').
    + unfold h1, with_pool_at. simpl. apply lookup_insert_eq.
    + done.
    + rewrite E1. eapply is_chain_links; [exact Hl|]. intros x bx Hx Hbx. exists bx.
      rewrite lookup_insert_ne; [done|]. intros ->. done.
    + rewrite E1. intros x bx Hx Hbx. rewrite lookup_insert_ne in Hbx by (intros ->; done).
      apply (Hd x bx); [by right|done].
    + rewrite E1, last_refs_insert by done. lia.
    + simpl in Hf. lia.
    + rewrite E1, last_refs_insert in * by done. eexists p', _. split; [exact HR'|].
      split; [|split].
      * unfold h1, with_pool_at. simpl. unfold set_h_pools, set_h_mbufs. simpl.
        rewrite insert_insert_eq. by rewrite (alter_as_insert seg_after m b) by done.
      * rewrite Hf', Hf1. by rewrite !(assoc_L (++)), (comm (++) (last_refs _ _)).
      * rewrite Z.sub_add_distr. done.
Qed.

Lemma free_chain_run (k mp : Z) (p : rte_mempool P) (h : heap P) (m : Z) (l : list Z) :
  h_pools h !! mp = Some p -> pool_inv k p -> is_chain (h_mbufs h) m l ->
  direct_of (h_mbufs h) mp l -> Z.of_nat (length (last_refs (h_mbufs h) l)) <= k ->
  exists p' h', rte_pktmbuf_free table lcore_id ext_free m h = Some (tt, h')
    /\ h' = with_pool_at mp p' (set_h_mbufs (free_all l (h_mbufs h)) h)
    /\ free_objs p' ≡ₚ last_refs (h_mbufs h) l ++ free_objs p
    /\ pool_inv (k - Z.of_nat (length (last_refs (h_mbufs h) l))) p'.
Proof.
  intros Hp I Hc Hd Hk. unfold rte_pktmbuf_free. rewrite (mbind_run get _ h h h) by done.
  destruct (free_loop mp l (chain_fuel h) k p h m Hp I Hc Hd Hk) as (p' & h' & HR & -> & Hf & I').
  { pose proof (is_chain_length _ _ _ Hc). unfold chain_fuel. lia. }
  exists p'. eexists. split; [exact HR|]. done.
Qed.

(** C27. [rte_pktmbuf_free] of a chain of direct mbufs of one pool ends, gives
    back to the pool exactly the segments that held their last reference, each
    alone and with one reference for its next user, removes one reference from
    the others, which stay out of the pool, and touches no other mbuf. *)
Theorem pktmbuf_free_ok (k mp : Z) (p : rte_mempool P) (h : heap P) (m : Z) (l : list Z) :
  h_pools h !! mp = Some p -> pool_inv k p -> is_chain (h_mbufs h) m l ->
  direct_of (h_mbufs h) mp l -> Z.of_nat (length (last_refs (h_mbufs h) l)) <= k ->
  exists p' h', rte_pktmbuf_free table lcore_id ext_free m h = Some (tt, h')
    /\ h_pools h' = <[mp := p']> (h_pools h)
    /\ h_mbufs h' = free_all l (h_mbufs h)
    /\ free_objs p' ≡ₚ last_refs (h_mbufs h) l ++ free_objs p
    /\ pool_inv (k - Z.of_nat (length (last_refs (h_mbufs h) l))) p'.
Proof.
  intros Hp I Hc Hd Hk. destruct (free_chain_run k mp p h m l Hp I Hc Hd Hk)
    as (p' & h' & HR & -> & Hf & I'). by eexists _, _.
Qed.

(** ** Sharing *)

(** [rte_mbuf_refcnt_update] adds [v] to the reference count modulo 2^16 and
    returns the result, on both of its paths: the store that is used when the
    count is one and the atomic addition. *)
Lemma refcnt_update_adds (h : heap P) (m v : Z) (b : rte_mbuf) :
  h_mbufs h !! m = Some b ->
  rte_mbuf_refcnt_update m v h
  = Some (u16 (refcnt b + v), set_h_mbufs (<[m := set_refcnt (u16 (refcnt b + v)) b]> (h_mbufs h)) h).
Proof.
  intros Hb. unfold rte_mbuf_refcnt_update, rte_mbuf_refcnt_read, __rte_mbuf_refcnt_update,
    rte_mbuf_refcnt_set. heap_run.
  destruct (refcnt b =? 1) eqn:E; heap_run.
  - apply Z.eqb_eq in E. rewrite wrap_swrap, E by done. by rewrite (Z.add_comm v 1).
  - by rewrite wrap_add_r.
Qed.

Lemma refcnt_update_run h m v b :
  h_mbufs h !! m = Some b -> fits 16 (refcnt b + v) ->
  rte_mbuf_refcnt_update m v h
  = Some (refcnt b + v, set_h_mbufs (<[m := set_refcnt (refcnt b + v) b]> (h_mbufs h)) h).
Proof.
  intros Hb Hf. unfold rte_mbuf_refcnt_update, rte_mbuf_refcnt_read, __rte_mbuf_refcnt_update,
    rte_mbuf_refcnt_set. heap_run.
  destruct (refcnt b =? 1) eqn:E; heap_run.
  - apply Z.eqb_eq in E. rewrite wrap_swrap, E, (Z.add_comm v 1) in * by done.
    by rewrite wrap_small.
  - by rewrite wrap_add_r, wrap_small.
Qed.

(** The fields of an indirect mbuf attached to [b]. *)
Record attached_to (b bi bi' : rte_mbuf) : Prop := {
  att_addr : buf_addr bi' = buf_addr b;
  att_len : buf_len bi' = buf_len b;
  att_data : data_off bi' = data_off b /\ data_len bi' = data_len b;
  att_pkt : pkt_len bi' = data_len b /\ nb_segs bi' = 1 /\ next bi' = NULL;
  att_flags : ol_flags bi' = Z.lor (ol_flags b) RTE_MBUF_F_INDIRECT;
  att_priv : priv_size bi' = priv_size b;
  att_own : pool bi' = pool bi /\ refcnt bi' = refcnt bi
}.

Lemma attach_run h mi m b bi :
  h_mbufs h !! m = Some b -> h_mbufs h !! mi = Some bi -> mi <> m ->
  RTE_MBUF_HAS_EXTBUF b = false -> rte_mbuf_from_indirect b = m -> fits 16 (refcnt b + 1) ->
  exists bi', rte_pktmbuf_attach mi m h
    = Some (tt, set_h_mbufs (<[mi := bi']> (<[m := set_refcnt (refcnt b + 1) b]> (h_mbufs h))) h)
  /\ attached_to b bi bi'.
Proof.
  intros Hb Hbi Hne He Hfi Hf. assert (m <> mi) as Hne' by congruence.
  unfold rte_pktmbuf_attach, __rte_pktmbuf_copy_hdr, rte_mbuf_dynfield_copy.
  unfold mbind, M_bind. rewrite (rd_run m b h Hb), He, Hfi.
  rewrite (refcnt_update_run h m 1 b Hb Hf). heap_run.
  eexists. split; [reflexivity|]. split; lazy -[Z.lor Z.add RTE_MBUF_F_INDIRECT NULL]; auto.
Qed.

(** ** Detaching *)

(** What the pool of an mbuf knows of it: the sizes and the IO address. *)
Record owned_by (h : heap P) (m mp priv room iova : Z) : Prop := {
  own_pool : exists p pr, h_pools h !! mp = Some p
    /\ h_privs h !! rte_mempool_get_priv mp p = Some pr
    /\ mbuf_priv_size pr = priv /\ mbuf_data_room_size pr = room;
  own_iova : rte_mempool_virt2iova (h_hdrs h) m = Some iova
}.

Lemma mbp_priv_run h m mp priv room iova :
  owned_by h m mp priv room iova ->
  rte_pktmbuf_priv_size mp h = Some (priv, h) /\ rte_pktmbuf_data_room_size mp h = Some (room, h).
Proof.
  intros [(p & pr & Hp & Hpr & <- & <-) _].
  assert (mbp_priv mp h = Some (pr, h)) as E.
  { unfold mbp_priv. rewrite (mbind_run _ _ _ _ _ (rd_pool_run mp p h Hp)).
    unfold rd_priv. by rewrite Hpr. }
  unfold rte_pktmbuf_priv_size, rte_pktmbuf_data_room_size.
  by rewrite !(mbind_run _ _ _ _ _ E).
Qed.

Lemma owned_by_mbufs v h m mp priv room iova :
  owned_by h m mp priv room iova -> owned_by (set_h_mbufs v h) m mp priv room iova.
Proof. by intros [(p & pr & Hp) Hi]; split; [exists p, pr|]. Qed.

(** The state in which [rte_pktmbuf_detach] leaves an mbuf: its own buffer,
    which follows its private area, no data and no flag. *)
Definition detached (m priv room iova : Z) (b : rte_mbuf) : rte_mbuf :=
  mk_mbuf (u64 (m + u32 (sizeof_mbuf + priv))) (u64 (iova + u32 (sizeof_mbuf + priv)))
    (Z.min RTE_PKTMBUF_HEADROOM (u16 room)) (refcnt b) (nb_segs b) (port b) 0 (packet_type b)
    (pkt_len b) 0 (vlan_tci b) (mbuf_hash b) (vlan_tci_outer b) (u16 room) (pool b) (next b)
    (tx_offload b) (shinfo b) priv (timesync b) (dynfield1 b).

Lemma detach_reset_run h m mp priv room iova b :
  h_mbufs h !! m = Some b -> owned_by h m mp priv room iova ->
  detach_reset m mp h
  = Some (tt, set_h_mbufs (<[m := detached m priv room iova b]> (h_mbufs h)) h).
Proof.
  intros Hb O. destruct (mbp_priv_run _ _ _ _ _ _ O) as [E1 E2].
  unfold detach_reset, rte_pktmbuf_reset_headroom.
  rewrite (mbind_run _ _ _ _ _ E1), (mbind_run _ _ _ _ _ E2). heap_run.
  assert (forall v, virt2iova m (set_h_mbufs v h) = Some (iova, set_h_mbufs v h)) as E3.
  { intros v. unfold virt2iova. simpl. by rewrite (own_iova _ _ _ _ _ _ O). }
  rewrite E3. heap_run. do 4 f_equal.
  cbn [buf_len set_buf_len]. rewrite (wrap_small 16 (u16 room)) by (by apply wrap_fits).
  change (u16 RTE_PKTMBUF_HEADROOM) with RTE_PKTMBUF_HEADROOM.
  pose proof (wrap_fits 16 room ltac:(lia)) as Hw. rewrite wrap_small.
  - by destruct b.
  - unfold fits, RTE_PKTMBUF_HEADROOM in *. lia.
Qed.

(** An indirect mbuf that holds its last reference drops the reference it has on
    the mbuf that embeds the data, and detaches from it. *)
Lemma prefree_indirect h mi m mp priv room iova b bi :
  h_mbufs h !! m = Some b -> h_mbufs h !! mi = Some bi -> mi <> m ->
  RTE_MBUF_CLONED bi = true -> RTE_MBUF_HAS_EXTBUF bi = false -> pool bi = mp ->
  rte_mbuf_from_indirect bi = m -> refcnt bi = 1 -> 2 <= refcnt b < 2 ^ 16 ->
  owned_by h mi mp priv room iova ->
  rte_pktmbuf_prefree_seg table lcore_id ext_free mi h
  = Some (mi, set_h_mbufs (<[mi := set_nb_segs 1 (set_next NULL (detached mi priv room iova bi))]>
                (<[m := set_refcnt (refcnt b - 1) b]> (h_mbufs h))) h).
Proof.
  intros Hb Hbi Hne Hc He Hp Hfi Hr Hrb O. assert (m <> mi) as Hne' by congruence.
  assert (RTE_MBUF_DIRECT bi = false) as Hd.
  { unfold RTE_MBUF_DIRECT, RTE_MBUF_CLONED, RTE_MBUF_HAS_EXTBUF, truthy in *.
    rewrite Z.land_lor_distr_r. destruct (Z.land _ RTE_MBUF_F_EXTERNAL =? 0) eqn:E; [|done].
    apply Z.eqb_eq in E. by rewrite E, Z.lor_0_r, Hc. }
  set (h1 := set_h_mbufs (<[m := set_refcnt (refcnt b - 1) b]> (h_mbufs h)) h).
  assert (h_mbufs h1 !! mi = Some bi) as Hbi1.
  { unfold h1. rewrite h_mbufs_set. by rewrite lookup_insert_ne. }
  set (bd := detached mi priv room iova bi).
  set (h2 := set_h_mbufs (<[mi := bd]> (h_mbufs h1)) h1).
  assert (h_mbufs h2 !! mi = Some bd) as Hbd by apply lookup_insert_eq.
  assert (rte_pktmbuf_detach table lcore_id ext_free mi h = Some (tt, h2)) as HD.
  { unfold rte_pktmbuf_detach, __rte_pktmbuf_free_direct. heap_run. rewrite He. heap_run.
    rewrite Hfi, (refcnt_update_run h m (-1) b Hb) by (unfold fits; lia).
    rewrite (proj2 (Z.eqb_neq (refcnt b + -1) 0)) by lia. cbn [mret M_ret]. rewrite Hp.
    pose proof (detach_reset_run h1 mi mp priv room iova bi Hbi1 (owned_by_mbufs _ _ _ _ _ _ _ O))
      as E. unfold h1 in E |- *. replace (refcnt b + -1) with (refcnt b - 1) by lia. rewrite E. done. }
  unfold rte_pktmbuf_prefree_seg, rte_mbuf_refcnt_read, prefree_detach. heap_run.
  rewrite Hr. change (1 =? 1) with true. cbv iota. heap_run. rewrite Hd. cbn [negb].
  rewrite HD. heap_run. change (RTE_MBUF_HAS_EXTBUF bd) with false. cbn [mret M_ret].
  rewrite (prefree_unlink_run h2 mi bd Hbd). unfold h2, h1.
  by rewrite !h_mbufs_set, !set_h_mbufs_twice, insert_insert_eq.
Qed.

(** C28. Attaching a free mbuf [mi] to a direct mbuf [m] and releasing it again is
    neutral for [m], which gets its reference count back and keeps its data, and
    for the pool of [mi], to which [mi] returns: it is then a direct mbuf again,
    alone, that designates its own buffer, behind its private area. *)
Theorem attach_free_neutral (k mp : Z) (p : rte_mempool P) (h : heap P)
    (mi m priv room iova : Z) (b bi : rte_mbuf) :
  h_pools h !! mp = Some p -> pool_inv k p -> 1 <= k ->
  h_mbufs h !! m = Some b -> h_mbufs h !! mi = Some bi -> mi <> m -> mi <> NULL ->
  RTE_MBUF_HAS_EXTBUF b = false -> rte_mbuf_from_indirect b = m -> 1 <= refcnt b < 2 ^ 16 - 1 ->
  pool bi = mp -> refcnt bi = 1 -> owned_by h mi mp priv room iova ->
  exists h1 h2 p' bi', rte_pktmbuf_attach mi m h = Some (tt, h1)
    /\ rte_pktmbuf_free_seg table lcore_id ext_free mi h1 = Some (tt, h2)
    /\ h_pools h2 = <[mp := p']> (h_pools h)
    /\ free_objs p' ≡ₚ mi :: free_objs p /\ pool_inv (k - 1) p'
    /\ h_mbufs h2 = <[mi := bi']> (h_mbufs h)
    /\ RTE_MBUF_DIRECT bi' = true /\ refcnt bi' = 1 /\ nb_segs bi' = 1 /\ next bi' = NULL
    /\ buf_addr bi' = u64 (mi + u32 (sizeof_mbuf + priv)) /\ data_len bi' = 0
    /\ pool bi' = mp.
Proof.
  intros Hp I Hk Hb Hbi Hne Hn He Hfi Hr Hpool Hri O. assert (m <> mi) as Hne' by congruence.
  destruct (attach_run h mi m b bi Hb Hbi Hne He Hfi) as (ba & HA & A); [unfold fits; lia|].
  destruct A as [Aa Al Ad Ap Af Av Ao]. destruct Ao as [Ao Ar].
  set (b1 := set_refcnt (refcnt b + 1) b) in *.
  set (h1 := set_h_mbufs (<[mi := ba]> (<[m := b1]> (h_mbufs h))) h) in *.
  assert (h_mbufs h1 !! m = Some b1) as Hb1.
  { unfold h1. rewrite h_mbufs_set, lookup_insert_ne by done. apply lookup_insert_eq. }
  assert (RTE_MBUF_CLONED ba = true /\ RTE_MBUF_HAS_EXTBUF ba = false) as [Hc1 He1].
  { unfold RTE_MBUF_CLONED, RTE_MBUF_HAS_EXTBUF, truthy in *. rewrite Af.
    rewrite !Z.land_lor_distr_l. change (Z.land RTE_MBUF_F_INDIRECT RTE_MBUF_F_EXTERNAL) with 0.
    rewrite Z.lor_0_r. split; [|done]. apply negb_true_iff, Z.eqb_neq. intros E.
    apply Z.lor_eq_0_iff in E as [_ E]. done. }
  assert (rte_mbuf_from_indirect ba = m) as Hfa.
  { unfold rte_mbuf_from_indirect in *. by rewrite Aa, Av. }
  pose proof (prefree_indirect h1 mi m mp priv room iova b1 ba Hb1 (lookup_insert_eq _ _ _) Hne
    Hc1 He1 ltac:(congruence) Hfa ltac:(congruence)) as HF.
  specialize (HF ltac:(change (refcnt b1) with (refcnt b + 1); lia) (owned_by_mbufs _ _ _ _ _ _ _ O)).
  set (bd := set_nb_segs 1 _) in HF. set (h2 := set_h_mbufs _ h1) in HF.
  assert (h_mbufs h2 = <[mi := bd]> (h_mbufs h)) as E2.
  { unfold h2, h1. rewrite !h_mbufs_set.
    replace (set_refcnt (refcnt b1 - 1) b1) with b.
    - rewrite (insert_insert_ne (<[m := b1]> _)) by done.
      rewrite !insert_insert_eq, insert_insert_ne by done.
      by apply insert_id; rewrite lookup_insert_ne.
    - destruct b. unfold b1, set_refcnt. simpl. f_equal. lia. }
  destruct (pool_put_run k mp p mi h2 Hp I Hk) as (p' & HR & Hf & I' & _).
  exists h1, (with_pool_at mp p' h2), p', bd. split; [exact HA|].
  split; [|by rewrite <- E2; split_and!; try done; unfold bd; simpl; congruence].
  unfold rte_pktmbuf_free_seg. rewrite (mbind_run _ _ _ _ _ HF).
  rewrite (proj2 (Z.eqb_neq mi NULL) Hn). cbn [negb]. unfold rte_mbuf_raw_free.
  rewrite (mbind_run _ _ h2 tt h2) by done.
  assert (h_mbufs h2 !! mi = Some bd) as Hbd by (rewrite E2; apply lookup_insert_eq).
  rewrite (mbind_run _ _ _ _ _ (rd_run mi bd h2 Hbd)).
  change (pool bd) with (pool ba). by replace (pool ba) with mp by congruence.
Qed.
End pool.

(** ** An example pool: five free mbufs, and three in use, the packets of
    [demo_packets], one segment of which is shared. *)
Definition demo_mempool : rte_mempool (list Z) :=
  mk_mempool [10000; 14000; 18000; 22000; 26000] 0 8 0 2304 24 0 8 0 [] 8.

Definition demo_free (a : Z) : Z * rte_mbuf := (a, demo_mbuf a 0 0 0 1).

Definition demo_heap : heap (list Z) :=
  mk_heap (list_to_map ([(1000, demo_mbuf 1000 4000 150 100 2);
                         (4000, set_refcnt 2 (demo_mbuf 4000 0 0 50 1));
                         (7000, demo_mbuf 7000 0 60 60 1)]
                        ++ map demo_free [10000; 14000; 18000; 22000; 26000]))
    ∅ {[64 := demo_mempool]} {[256 := mk_priv 2176 0 0]} {[6976 := mk_objhdr 0 64 7000]} ∅.

Lemma demo_pool_inv : pool_inv (fun _ => fifo_ops) fifo_ops 3 demo_mempool.
Proof. split; try done. Qed.

Lemma demo_mbufs_of : mbufs_of demo_heap (free_objs fifo_ops demo_mempool).
Proof.
  intros a Ha. change (free_objs fifo_ops demo_mempool) with [10000; 14000; 18000; 22000; 26000] in Ha.
  repeat (apply elem_of_cons in Ha as [->|Ha];
    [split; [done|]; eexists; split; [vm_compute; reflexivity|by split]|]).
  by apply elem_of_nil in Ha.
Qed.

Lemma pktmbuf_alloc_ok_witness :
  exists h', rte_pktmbuf_alloc (fun _ => fifo_ops) 0 64 demo_heap = Some (10000, h')
    /\ h_mbufs h' !! 10000 = Some (reset_fields (demo_mbuf 10000 0 0 0 1)).
Proof.
  destruct (pktmbuf_alloc_ok (fun _ => fifo_ops) fifo_ops 0 ltac:(lia) 3 64 demo_mempool demo_heap
    eq_refl demo_pool_inv demo_mbufs_of) as (m & h' & HR & _).
  assert (m = 10000) as ->
    by (apply (run_proj fst _ _ 10000 HR); vm_compute; reflexivity).
  exists h'. split; [exact HR|].
  apply (run_proj (fun r => h_mbufs (snd r) !! 10000) _ _ _ HR). vm_compute. reflexivity.
Defined.

Lemma pktmbuf_alloc_bulk_ok_witness :
  exists h', rte_pktmbuf_alloc_bulk (fun _ => fifo_ops) 0 64 (replicate 5 0) 5 demo_heap
    = Some (0, [10000; 14000; 18000; 22000; 26000], h')
    /\ h_mbufs h' !! 26000 = Some (reset_fields (demo_mbuf 26000 0 0 0 1)).
Proof.
  destruct (pktmbuf_alloc_bulk_ok (fun _ => fifo_ops) fifo_ops 0 ltac:(lia) 3 64 demo_mempool demo_heap
    (replicate 5 0) eq_refl demo_pool_inv demo_mbufs_of) as (rc & ms & h' & HR & _).
  { vm_compute. reflexivity. }
  assert ((rc, ms) = (0, [10000; 14000; 18000; 22000; 26000])) as E
    by (apply (run_proj (fun r => fst r) _ _ _ HR); vm_compute; reflexivity).
  exists h'. rewrite <- E. split; [exact HR|].
  apply (run_proj (fun r => h_mbufs (snd r) !! 26000) _ _ _ HR). vm_compute. reflexivity.
Defined.

Lemma pktmbuf_free_ok_witness :
  exists p' h', rte_pktmbuf_free (fun _ => fifo_ops) 0 (fun _ _ _ => mret tt) 1000 demo_heap
      = Some (tt, h')
    /\ free_objs fifo_ops p' ≡ₚ 1000 :: free_objs fifo_ops demo_mempool
    /\ h_mbufs h' !! 4000 = Some (demo_mbuf 4000 0 0 50 1).
Proof.
  destruct (pktmbuf_free_ok (fun _ => fifo_ops) fifo_ops 0 ltac:(lia) (fun _ _ _ => mret tt)
    3 64 demo_mempool demo_heap 1000 [1000; 4000] eq_refl demo_pool_inv)
    as (p' & h' & HR & _ & _ & Hf & _).
  - repeat first [ split; [done|split; [done|eexists; split; [reflexivity|]]] | reflexivity ].
  - intros a b Ha Hb. repeat (apply elem_of_cons in Ha as [->|Ha];
      [vm_compute in Hb; injection Hb as <-; by repeat split|]). by apply elem_of_nil in Ha.
  - vm_compute. done.
  - exists p', h'. split; [exact HR|]. split; [exact Hf|].
    apply (run_proj (fun r => h_mbufs (snd r) !! 4000) _ _ _ HR). vm_compute. reflexivity.
Defined.

Lemma attach_free_neutral_witness :
  exists h1 h2 bi, rte_pktmbuf_attach 7000 1000 demo_heap = Some (tt, h1)
    /\ rte_pktmbuf_free_seg (fun _ => fifo_ops) 0 (fun _ _ _ => mret tt) 7000 h1 = Some (tt, h2)
    /\ h_mbufs h2 = <[7000 := bi]> (h_mbufs demo_heap) /\ buf_addr bi = 7128.
Proof.
  destruct (attach_free_neutral (fun _ => fifo_ops) fifo_ops 0 ltac:(lia) (fun _ _ _ => mret tt)
    3 64 demo_mempool demo_heap 7000 1000 0 2176 7000 _ _ eq_refl demo_pool_inv ltac:(lia)
    eq_refl eq_refl ltac:(done) ltac:(done) eq_refl eq_refl)
    as (h1 & h2 & p' & bi & H1 & H2 & _ & _ & _ & E & _ & _ & _ & _ & B & _).
  - by split.
  - reflexivity.
  - reflexivity.
  - split; [|reflexivity]. exists demo_mempool, (mk_priv 2176 0 0). by repeat split.
  - exists h1, h2, bi. split; [exact H1|]. split; [exact H2|]. split; [exact E|exact B].
Defined.
