(* ===== verification/MbufFields.v ===== *)
(** * Bit-fields of a packet buffer: the packed offload word and the scheduler
    view of the hash union ([include/rte_mbuf.h]). *)
From stdpp Require Import prelude list numbers gmap.
From S2P Require Import Prelude MbufCore Mbuf.
Open Scope Z_scope.

Lemma bits_at_spec o w z i :
  0 <= o -> 0 <= i -> 0 <= w -> Z.testbit (bits_at o w z) i = (i <? w) && Z.testbit z (i + o).
Proof.
  intros Ho Hi Hw. unfold bits_at. rewrite Z.land_spec, Z.shiftr_spec, Z.testbit_ones by lia.
  rewrite (proj2 (Z.leb_le 0 i)) by lia. simpl. apply andb_comm.
Qed.

Lemma wrap_spec w z i : 0 <= w -> 0 <= i -> Z.testbit (wrap w z) i = (i <? w) && Z.testbit z i.
Proof.
  intros Hw Hi. unfold wrap. rewrite Z.testbit_mod_pow2 by lia. done.
Qed.

Lemma set_bits_at_spec o w v z i :
  0 <= o -> 0 <= w -> 0 <= i ->
  Z.testbit (set_bits_at o w v z) i
  = if (o <=? i) && (i <? o + w) then Z.testbit v (i - o) else Z.testbit z i.
Proof.
  intros Ho Hw Hi. unfold set_bits_at.
  rewrite Z.lor_spec, Z.land_spec, Z.lnot_spec, !Z.shiftl_spec by lia.
  destruct (Z.leb_spec o i); simpl.
  - rewrite Z.testbit_ones, wrap_spec by lia. rewrite (proj2 (Z.leb_le 0 (i - o))) by lia. simpl.
    destruct (Z.ltb_spec i (o + w)).
    + rewrite (proj2 (Z.ltb_lt (i - o) w)) by lia. simpl. by rewrite andb_false_r.
    + rewrite (proj2 (Z.ltb_ge (i - o) w)) by lia. simpl. by rewrite andb_true_r, orb_false_r.
  - rewrite !(Z.testbit_neg_r _ (i - o)) by lia. simpl. by rewrite andb_true_r, orb_false_r.
Qed.

(** A field that has just been written is read back; one that does not overlap
    it is not changed. *)
Lemma bits_at_set_same o w v z : 0 <= o -> 0 <= w -> bits_at o w (set_bits_at o w v z) = wrap w v.
Proof.
  intros Ho Hw. apply Z.bits_inj'. intros i Hi.
  rewrite bits_at_spec, set_bits_at_spec, wrap_spec by lia.
  rewrite (proj2 (Z.leb_le o (i + o))) by lia. replace (i + o - o) with i by lia. simpl.
  destruct (Z.ltb_spec i w); simpl; [|done]. by rewrite (proj2 (Z.ltb_lt (i + o) (o + w))) by lia.
Qed.

Lemma bits_at_set_other o w v o' w' z :
  0 <= o -> 0 <= w -> 0 <= o' -> 0 <= w' -> o + w <= o' \/ o' + w' <= o ->
  bits_at o' w' (set_bits_at o w v z) = bits_at o' w' z.
Proof.
  intros Ho Hw Ho' Hw' Hd. apply Z.bits_inj'. intros i Hi.
  rewrite !bits_at_spec, set_bits_at_spec by lia.
  destruct (Z.ltb_spec i w'); simpl; [|done].
  destruct ((o <=? i + o') && (i + o' <? o + w)) eqn:E; [|done].
  apply andb_true_iff in E as [E1%Z.leb_le E2%Z.ltb_lt]. lia.
Qed.

(** The scheduler fields are independent: after [rte_mbuf_sched_set] the
    three getters return the queue, the class and the color given, truncated to
    32, 8 and 8 bits; each single setter changes its own field only. *)
Theorem sched_roundtrip (m : rte_mbuf) (queue_id traffic_class color v : Z) :
  rte_mbuf_sched_get (rte_mbuf_sched_set queue_id traffic_class color m)
  = (u32 queue_id, u8 traffic_class, u8 color)
  /\ (let '(_, tc, c) := rte_mbuf_sched_get m in
      rte_mbuf_sched_get (rte_mbuf_sched_queue_set v m) = (u32 v, tc, c))
  /\ (let '(q, _, c) := rte_mbuf_sched_get m in
      rte_mbuf_sched_get (rte_mbuf_sched_traffic_class_set v m) = (q, u8 v, c))
  /\ (let '(q, tc, _) := rte_mbuf_sched_get m in
      rte_mbuf_sched_get (rte_mbuf_sched_color_set v m) = (q, tc, u8 v)).
Proof.
  unfold rte_mbuf_sched_get, rte_mbuf_sched_set, rte_mbuf_sched_queue_set,
    rte_mbuf_sched_traffic_class_set, rte_mbuf_sched_color_set.
  cbn [mbuf_hash set_mbuf_hash sched_queue_id sched_traffic_class sched_color].
  split_and!; repeat first [rewrite bits_at_set_same by lia | rewrite bits_at_set_other by lia]; done.
Qed.

Lemma shifted_field o w v i j :
  0 <= o -> fits w v -> 0 <= w -> o + w <= 64 -> 0 <= i ->
  i + j < 64 -> 0 <= i + j ->
  Z.testbit (u64 (Z.shiftl v o)) (i + j)
  = (o <=? i + j) && (i + j <? o + w) && Z.testbit v (i + j - o).
Proof.
  intros Ho Hf Hw How Hi Hj Hij. rewrite wrap_spec, Z.shiftl_spec by lia.
  rewrite (proj2 (Z.ltb_lt (i + j) 64)) by lia. simpl.
  destruct (Z.leb_spec o (i + j)); simpl; [|by rewrite Z.testbit_neg_r by lia].
  destruct (Z.ltb_spec (i + j) (o + w)); simpl; [done|].
  rewrite <- (wrap_small w v Hf), wrap_spec by lia.
  by rewrite (proj2 (Z.ltb_ge (i + j - o) w)) by lia.
Qed.

(** [rte_mbuf_tx_offload] packs the lengths of the headers and the segment
    size into the bit-fields of [m->tx_offload]: each value that fits its field
    is read back from it, whatever the others are. *)
Theorem tx_offload_roundtrip (il2 il3 il4 tso ol3 ol2 unused : Z) :
  fits 7 il2 -> fits 9 il3 -> fits 8 il4 -> fits 16 tso -> fits 9 ol3 -> fits 7 ol2 ->
  fits 8 unused ->
  let w := rte_mbuf_tx_offload il2 il3 il4 tso ol3 ol2 unused in
  fits 64 w
  /\ bits_at RTE_MBUF_L2_LEN_OFS 7 w = il2 /\ bits_at RTE_MBUF_L3_LEN_OFS 9 w = il3
  /\ bits_at RTE_MBUF_L4_LEN_OFS 8 w = il4 /\ bits_at RTE_MBUF_TSO_SEGSZ_OFS 16 w = tso
  /\ bits_at RTE_MBUF_OUTL3_LEN_OFS 9 w = ol3 /\ bits_at RTE_MBUF_OUTL2_LEN_OFS 7 w = ol2
  /\ bits_at RTE_MBUF_TXOFLD_UNUSED_OFS 8 w = unused.
Proof.
  intros H1 H2 H3 H4 H5 H6 H7 w.
  assert (forall o k v, 0 <= o -> 0 <= k -> o + k <= 64 -> fits k v ->
    (forall i, 0 <= i < k -> Z.testbit w (i + o) = Z.testbit v i) -> bits_at o k w = v) as HB.
  { intros o k v Ho Hk Hok Hf HB. apply Z.bits_inj'. intros i Hi. rewrite bits_at_spec by lia.
    rewrite <- (wrap_small k v Hf), wrap_spec by lia.
    destruct (Z.ltb_spec i k); simpl; [by apply HB|done]. }
  unfold w, rte_mbuf_tx_offload, RTE_MBUF_TXOFLD_UNUSED_OFS, RTE_MBUF_OUTL2_LEN_OFS,
    RTE_MBUF_OUTL3_LEN_OFS, RTE_MBUF_TSO_SEGSZ_OFS, RTE_MBUF_L4_LEN_OFS, RTE_MBUF_L3_LEN_OFS,
    RTE_MBUF_L2_LEN_OFS in *.
  split.
  { clear HB. assert (forall l, Forall (fits 64) l -> fits 64 (fold_right Z.lor 0 l)) as HF.
    { clear. induction 1 as [|x l Hx Hl IH]; [by split|]. simpl.
      rewrite <- (wrap_small 64 x Hx), <- (wrap_small 64 _ IH).
      apply Z.bounded_iff_bits_nonneg'; [lia| |].
      - apply Z.lor_nonneg. split; apply (wrap_fits 64); lia.
      - intros i Hi. rewrite Z.lor_spec, !wrap_spec by lia.
        by rewrite (proj2 (Z.ltb_ge i 64)) by lia. }
    apply HF. repeat constructor; apply wrap_fits; lia. }
  assert (forall l i, Z.testbit (fold_right Z.lor 0 l) i = existsb (fun z => Z.testbit z i) l)
    as HE.
  { intros l i. induction l as [|x l IH]; simpl; [apply Z.testbit_0_l|]. by rewrite Z.lor_spec, IH. }
  split_and!; apply HB; try lia; try done; intros i Hi; rewrite HE; simpl;
    rewrite (shifted_field _ 7 il2), (shifted_field _ 9 il3), (shifted_field _ 8 il4),
      (shifted_field _ 16 tso), (shifted_field _ 9 ol3), (shifted_field _ 7 ol2),
      (shifted_field _ 8 unused) by (done || lia);
    repeat (let H := fresh in
      match goal with |- context [?a <=? ?b] =>
        first [ assert (H : (a <=? b) = true) by (apply Z.leb_le; lia)
              | assert (H : (a <=? b) = false) by (apply Z.leb_gt; lia) ]; rewrite H; clear H
      | |- context [?a <? ?b] =>
        first [ assert (H : (a <? b) = true) by (apply Z.ltb_lt; lia)
              | assert (H : (a <? b) = false) by (apply Z.ltb_ge; lia) ]; rewrite H; clear H
      end; cbn [andb]); rewrite ?orb_false_r; cbn [orb]; f_equal; lia.
Qed.

Lemma tx_offload_roundtrip_witness :
  bits_at RTE_MBUF_TSO_SEGSZ_OFS 16 (rte_mbuf_tx_offload 14 20 20 1460 20 14 0) = 1460.
Proof. apply (tx_offload_roundtrip 14 20 20 1460 20 14 0); by split. Defined.
