(* ===== verification/FbkHash.v ===== *)
(** * Hash table with four-byte keys ([include/rte_fbk_hash.h]).

    A flat table of buckets of 64-bit entries.  Creation is in the compiled
    library; the load factor, a quotient of floating-point numbers, is left
    out. *)
From stdpp Require Import prelude list numbers gmap.
From S2P Require Import Prelude.
Open Scope Z_scope.

Definition ENOENT : Z := 2.
Definition ENOSPC : Z := 28.

(** ** Data *)

(** The union of an entry: 16 bits that are not 0 if it is in use, 16 bits of
    value and 32 bits of key, in the order of a little-endian machine. *)
Definition rte_fbk_hash_entry : Type := Z.
Definition is_entry (e : rte_fbk_hash_entry) : Z := u16 e.
Definition value (e : rte_fbk_hash_entry) : Z := u16 (Z.shiftr e 16).
Definition key (e : rte_fbk_hash_entry) : Z := u32 (Z.shiftr e 32).
Definition set_value (v : Z) (e : rte_fbk_hash_entry) : rte_fbk_hash_entry :=
  is_entry e + 2 ^ 16 * v + 2 ^ 32 * key e.

Record rte_fbk_hash_table := mk_table {
  entries : Z; entries_per_bucket : Z; used_entries : Z;
  bucket_mask : Z; bucket_shift : Z;
  hash_func : Z -> Z -> Z; init_val : Z;
  t : list rte_fbk_hash_entry
}.

Definition set_t (l : list rte_fbk_hash_entry) (ht : rte_fbk_hash_table) : rte_fbk_hash_table :=
  mk_table (entries ht) (entries_per_bucket ht) (used_entries ht) (bucket_mask ht) (bucket_shift ht)
    (hash_func ht) (init_val ht) l.
Definition set_used (n : Z) (ht : rte_fbk_hash_table) : rte_fbk_hash_table :=
  mk_table (entries ht) (entries_per_bucket ht) n (bucket_mask ht) (bucket_shift ht)
    (hash_func ht) (init_val ht) (t ht).

(** [ht->t[i]] read and written. *)
Definition entry_at (ht : rte_fbk_hash_table) (i : Z) : option rte_fbk_hash_entry := aget (t ht) i.
Definition put_entry (i : Z) (e : rte_fbk_hash_entry) (ht : rte_fbk_hash_table) : option rte_fbk_hash_table :=
  l ← aset (t ht) i e ; Some (set_t l ht).

(** ** Operations *)

Definition rte_fbk_hash_get_bucket (ht : rte_fbk_hash_table) (key : Z) : Z :=
  u32 (Z.shiftl (Z.land (hash_func ht key (init_val ht)) (bucket_mask ht)) (bucket_shift ht)).

Section loops.
Context (k bucket : Z).

Fixpoint add_loop (v new_entry : Z) (fuel : nat) (i : Z) (ht : rte_fbk_hash_table)
  : option (Z * rte_fbk_hash_table) :=
  if i <? entries_per_bucket ht then
    match fuel with
    | O => None
    | Datatypes.S fuel =>
        e ← entry_at ht (u32 (bucket + i)) ;
        if negb (truthy (is_entry e)) then
          ht ← put_entry (u32 (bucket + i)) new_entry ht ;
          Some (0, set_used (u32 (used_entries ht + 1)) ht)
        else if key e =? k then
          ht ← put_entry (u32 (bucket + i)) (set_value v e) ht ;
          Some (0, ht)
        else add_loop v new_entry fuel (u32 (i + 1)) ht
    end
  else Some (- ENOSPC, ht).

(** [for (j = ht->entries_per_bucket - 1; j > i; j-- )] *)
Fixpoint find_last (fuel : nat) (i j last_entry : Z) (ht : rte_fbk_hash_table) : option Z :=
  if j >? i then
    match fuel with
    | O => None
    | Datatypes.S fuel =>
        e ← entry_at ht (u32 (bucket + j)) ;
        find_last fuel i (u32 (j - 1)) (if negb (truthy (is_entry e)) then u32 (j - 1) else last_entry) ht
    end
  else Some last_entry.

Fixpoint delete_loop (last_entry : Z) (fuel : nat) (i : Z) (ht : rte_fbk_hash_table)
  : option (Z * rte_fbk_hash_table) :=
  if i <? entries_per_bucket ht then
    match fuel with
    | O => None
    | Datatypes.S fuel =>
        e ← entry_at ht (u32 (bucket + i)) ;
        if key e =? k then
          last_entry ← find_last (Z.to_nat (entries_per_bucket ht)) i (u32 (entries_per_bucket ht - 1)) last_entry ht ;
          e ← entry_at ht (u32 (bucket + last_entry)) ;
          ht ← put_entry (u32 (bucket + i)) e ht ;
          ht ← put_entry (u32 (bucket + last_entry)) 0 ht ;
          Some (0, set_used (u32 (used_entries ht - 1)) ht)
        else delete_loop last_entry fuel (u32 (i + 1)) ht
    end
  else Some (- ENOENT, ht).

Fixpoint lookup_loop (fuel : nat) (i : Z) (ht : rte_fbk_hash_table) : option Z :=
  if i <? entries_per_bucket ht then
    match fuel with
    | O => None
    | Datatypes.S fuel =>
        current_entry ← entry_at ht (u32 (bucket + i)) ;
        if negb (truthy (is_entry current_entry)) then Some (- ENOENT)
        else if key current_entry =? k then Some (value current_entry)
        else lookup_loop fuel (u32 (i + 1)) ht
    end
  else Some (- ENOENT).
End loops.

Definition rte_fbk_hash_add_key_with_bucket (ht : rte_fbk_hash_table) (key value bucket : Z)
  : option (Z * rte_fbk_hash_table) :=
  let new_entry := Z.lor (Z.lor (u64 (Z.shiftl key 32)) (u64 (Z.shiftl value 16))) 1 in
  add_loop key bucket value new_entry (Z.to_nat (entries_per_bucket ht)) 0 ht.

Definition rte_fbk_hash_add_key (ht : rte_fbk_hash_table) (key value : Z) : option (Z * rte_fbk_hash_table) :=
  rte_fbk_hash_add_key_with_bucket ht key value (rte_fbk_hash_get_bucket ht key).

Definition rte_fbk_hash_delete_key_with_bucket (ht : rte_fbk_hash_table) (key bucket : Z)
  : option (Z * rte_fbk_hash_table) :=
  let last_entry := u32 (entries_per_bucket ht - 1) in
  delete_loop key bucket last_entry (Z.to_nat (entries_per_bucket ht)) 0 ht.

Definition rte_fbk_hash_delete_key (ht : rte_fbk_hash_table) (key : Z) : option (Z * rte_fbk_hash_table) :=
  rte_fbk_hash_delete_key_with_bucket ht key (rte_fbk_hash_get_bucket ht key).

Definition rte_fbk_hash_lookup_with_bucket (ht : rte_fbk_hash_table) (key bucket : Z) : option Z :=
  lookup_loop key bucket (Z.to_nat (entries_per_bucket ht)) 0 ht.

Definition rte_fbk_hash_lookup (ht : rte_fbk_hash_table) (key : Z) : option Z :=
  rte_fbk_hash_lookup_with_bucket ht key (rte_fbk_hash_get_bucket ht key).

(** [memset] of all entries. *)
Definition rte_fbk_hash_clear_all (ht : rte_fbk_hash_table) : option rte_fbk_hash_table :=
  l ← mem_cpy (t ht) 0 (replicate (Z.to_nat (entries ht)) 0) 0 (entries ht) ;
  Some (set_used 0 (set_t l ht)).
