(* ===== verification/FbkHashSpec.v ===== *)
(** * The hash table with four-byte keys is a finite map with full buckets. *)
From stdpp Require Import prelude list numbers gmap.
From S2P Require Import Prelude Bits FbkHash.
Open Scope Z_scope.

(** ** Entries *)

Definition enc (kv : Z * Z) : Z := 1 + 2 ^ 16 * kv.2 + 2 ^ 32 * kv.1.

Definition kv_ok (kv : Z * Z) : Prop := fits 32 kv.1 /\ fits 16 kv.2.

Lemma enc_fields kv : kv_ok kv -> is_entry (enc kv) = 1 /\ value (enc kv) = kv.2 /\ key (enc kv) = kv.1.
Proof.
  destruct kv as [k v]. intros [Hk Hv]. unfold fits in *. simpl in *. unfold is_entry, value, key, enc. simpl.
  rewrite !Z.shiftr_div_pow2 by lia. split_and!.
  - unfold wrap. symmetry. apply (Z.mod_unique_pos _ _ (v + 2 ^ 16 * k)); lia.
  - rewrite <- (Z.div_unique _ (2 ^ 16) (v + 2 ^ 16 * k) 1) by lia.
    unfold wrap. symmetry. apply (Z.mod_unique_pos _ _ k); lia.
  - rewrite <- (Z.div_unique _ (2 ^ 32) k (1 + 2 ^ 16 * v)) by lia. by apply wrap_small.
Qed.

Lemma enc_new k v : kv_ok (k, v) ->
  Z.lor (Z.lor (u64 (Z.shiftl k 32)) (u64 (Z.shiftl v 16))) 1 = enc (k, v).
Proof.
  intros [Hk Hv]. unfold fits in *. simpl in *. rewrite !Z.shiftl_mul_pow2 by lia.
  rewrite !wrap_small by (unfold fits; lia). unfold enc. simpl.
  rewrite (Z.lor_comm (k * _)), (lor_disjoint (v * 2 ^ 16) k 32) by lia.
  rewrite Z.lor_comm. replace (v * 2 ^ 16 + k * 2 ^ 32) with ((v + k * 2 ^ 16) * 2 ^ 16) by lia.
  rewrite (lor_disjoint 1) by lia. lia.
Qed.

Lemma enc_set k v v' : kv_ok (k, v) -> set_value v' (enc (k, v)) = enc (k, v').
Proof. intros H. unfold set_value. destruct (enc_fields _ H) as (-> & _ & ->). done. Qed.

(** ** The shape of a table *)

Record geometry (ht : rte_fbk_hash_table) : Prop := {
  g_shift : 0 <= bucket_shift ht;
  g_bucket : entries_per_bucket ht = 2 ^ bucket_shift ht;
  g_mask : exists m, 0 <= m /\ bucket_mask ht = 2 ^ m - 1;
  g_entries : entries ht = (bucket_mask ht + 1) * entries_per_bucket ht;
  g_size : entries ht <= 2 ^ 20;
  g_length : Z.of_nat (length (t ht)) = entries ht
}.

(** The number of the bucket of a key. *)
Definition bucket_no (ht : rte_fbk_hash_table) (k : Z) : Z := Z.land (hash_func ht k (init_val ht)) (bucket_mask ht).

Lemma geometry_bounds ht : geometry ht ->
  1 <= entries_per_bucket ht /\ 0 <= bucket_mask ht
  /\ forall q, 0 <= q <= bucket_mask ht -> q * entries_per_bucket ht + entries_per_bucket ht <= entries ht.
Proof.
  intros [H1 H2 (m & Hm & H3) H4 H5 H6]. pose proof (Z.pow_pos_nonneg 2 (bucket_shift ht) ltac:(lia) H1).
  pose proof (Z.pow_pos_nonneg 2 m ltac:(lia) Hm). split_and!; [lia..|]. intros q Hq. nia.
Qed.

Lemma bucket_no_range ht k : geometry ht -> 0 <= bucket_no ht k <= bucket_mask ht.
Proof.
  intros [_ _ (m & Hm & E) _ _ _]. unfold bucket_no. rewrite E, land_mask by done.
  pose proof (Z.mod_pos_bound (hash_func ht k (init_val ht)) (2 ^ m)). lia.
Qed.

Lemma get_bucket_ok ht k : geometry ht ->
  rte_fbk_hash_get_bucket ht k = bucket_no ht k * entries_per_bucket ht.
Proof.
  intros G. pose proof (bucket_no_range ht k G) as R. destruct (geometry_bounds ht G) as (Hb & Hm & Hq).
  specialize (Hq _ R). unfold rte_fbk_hash_get_bucket. fold (bucket_no ht k).
  rewrite Z.shiftl_mul_pow2 by apply G. rewrite <- (g_bucket _ G). apply wrap_small. unfold fits.
  pose proof (g_size _ G). nia.
Qed.

(** The entries of a bucket are those of [kvs], without holes. *)
Definition bucket_holds (ht : rte_fbk_hash_table) (off : Z) (kvs : list (Z * Z)) : Prop :=
  Z.of_nat (length kvs) <= entries_per_bucket ht
  /\ Forall kv_ok kvs /\ NoDup kvs.*1
  /\ forall i, 0 <= i < entries_per_bucket ht ->
       entry_at ht (off + i) = Some (from_option enc 0 (kvs !! Z.to_nat i)).

(** A table and the map it stands for. *)
Record holds (ht : rte_fbk_hash_table) (m : gmap Z Z) : Prop := {
  h_geometry : geometry ht;
  h_bucket : forall q, 0 <= q <= bucket_mask ht -> exists kvs, bucket_holds ht (q * entries_per_bucket ht) kvs
    /\ forall k v, (k, v) ∈ kvs <-> m !! k = Some v /\ bucket_no ht k = q;
  h_used : used_entries ht = Z.of_nat (size m)
}.

(** ** The abstract map *)

Inductive fbk_op := Add (k v : Z) | Delete (k : Z) | Lookup (k : Z) | Clear.

Section spec.
Context (bucket_of : Z -> Z) (per_bucket : Z).

(** How many keys of a bucket are in the map. *)
Definition load (m : gmap Z Z) (q : Z) : nat := size (filter (fun kv => bucket_of kv.1 = q) m).

Definition map_step (op : fbk_op) (m : gmap Z Z) : Z * gmap Z Z :=
  match op with
  | Add k v =>
      if bool_decide (is_Some (m !! k)) || (Z.of_nat (load m (bucket_of k)) <? per_bucket)
      then (0, <[k := v]> m) else (- ENOSPC, m)
  | Delete k => if m !! k is Some _ then (0, delete k m) else (- ENOENT, m)
  | Lookup k => (default (- ENOENT) (m !! k), m)
  | Clear => (0, ∅)
  end.

(** Keys and values of their types; the key 0 is deleted only when it is there. *)
Definition op_ok (m : gmap Z Z) (op : fbk_op) : Prop :=
  match op with
  | Add k v => fits 32 k /\ fits 16 v
  | Delete k => fits 32 k /\ (k <> 0 \/ is_Some (m !! k))
  | Lookup k => fits 32 k
  | Clear => True
  end.

Fixpoint map_run (ops : list fbk_op) (m : gmap Z Z) : list Z * gmap Z Z :=
  match ops with
  | [] => ([], m)
  | op :: ops => let '(r, m) := map_step op m in let '(rs, m) := map_run ops m in (r :: rs, m)
  end.

Fixpoint ops_ok (ops : list fbk_op) (m : gmap Z Z) : Prop :=
  match ops with
  | [] => True
  | op :: ops => op_ok m op /\ ops_ok ops (map_step op m).2
  end.
End spec.

Definition fbk_step (op : fbk_op) (ht : rte_fbk_hash_table) : option (Z * rte_fbk_hash_table) :=
  match op with
  | Add k v => rte_fbk_hash_add_key ht k v
  | Delete k => rte_fbk_hash_delete_key ht k
  | Lookup k => r ← rte_fbk_hash_lookup ht k ; Some (r, ht)
  | Clear => ht ← rte_fbk_hash_clear_all ht ; Some (0, ht)
  end.

Fixpoint fbk_run (ops : list fbk_op) (ht : rte_fbk_hash_table) : option (list Z * rte_fbk_hash_table) :=
  match ops with
  | [] => Some ([], ht)
  | op :: ops => '(r, ht) ← fbk_step op ht ; '(rs, ht) ← fbk_run ops ht ; Some (r :: rs, ht)
  end.

(** ** Going along a bucket *)

Section bucket.
Context (ht : rte_fbk_hash_table) (off : Z) (kvs : list (Z * Z)) (k : Z).
Hypothesis Hoff : 0 <= off /\ off + entries_per_bucket ht <= 2 ^ 20.
Hypothesis Hb : bucket_holds ht off kvs.

Lemma entry_used i kv : kvs !! i = Some kv ->
  Z.of_nat i < entries_per_bucket ht /\ u32 (off + Z.of_nat i) = off + Z.of_nat i
  /\ entry_at ht (off + Z.of_nat i) = Some (enc kv)
  /\ is_entry (enc kv) = 1 /\ value (enc kv) = kv.2 /\ key (enc kv) = kv.1.
Proof.
  intros Hi. destruct Hb as (Hl & Hf & _ & He). pose proof (lookup_lt_Some _ _ _ Hi) as Hlt.
  split; [lia|]. split; [apply wrap_small; unfold fits; lia|]. split.
  - rewrite He by lia. by rewrite Nat2Z.id, Hi.
  - apply enc_fields. by apply (Forall_lookup_1 _ _ _ _ Hf Hi).
Qed.

Lemma entry_free i : (length kvs <= i)%nat -> Z.of_nat i < entries_per_bucket ht ->
  u32 (off + Z.of_nat i) = off + Z.of_nat i /\ entry_at ht (off + Z.of_nat i) = Some 0.
Proof.
  intros Hi Hn. destruct Hb as (Hl & _ & _ & He). split; [apply wrap_small; unfold fits; lia|].
  rewrite He by lia. by rewrite Nat2Z.id, lookup_ge_None_2.
Qed.

(** None of the first [p] keys is [k]. *)
Definition none_before (p : nat) : Prop := forall j kv, (j < p)%nat -> kvs !! j = Some kv -> kv.1 <> k.

Lemma next_index p : Z.of_nat p < entries_per_bucket ht -> u32 (Z.of_nat p + 1) = Z.of_nat (Datatypes.S p).
Proof. intros H. rewrite wrap_small by (unfold fits; lia). lia. Qed.

Lemma add_pass v ne f p : (p <= length kvs)%nat -> none_before p ->
  add_loop k off v ne (p + f) 0 ht = add_loop k off v ne f (Z.of_nat p) ht.
Proof.
  revert f. induction p as [|p IH]; intros f Hp Hn; [done|].
  replace (Datatypes.S p + f)%nat with (p + Datatypes.S f)%nat by lia.
  rewrite IH by (try lia; intros j kv Hj; apply Hn; lia).
  destruct (lookup_lt_is_Some_2 kvs p ltac:(lia)) as [kv E]. destruct (entry_used p kv E) as (H1 & H2 & H3 & H4 & _ & H5).
  cbn [add_loop]. rewrite (proj2 (Z.ltb_lt _ _) H1), H2, H3. cbn [mbind option_bind]. rewrite H4, H5. cbn [truthy negb].
  rewrite (proj2 (Z.eqb_neq kv.1 k)) by (by apply (Hn p kv); [lia|]). by rewrite next_index.
Qed.

Lemma lookup_pass f p : (p <= length kvs)%nat -> none_before p ->
  lookup_loop k off (p + f) 0 ht = lookup_loop k off f (Z.of_nat p) ht.
Proof.
  revert f. induction p as [|p IH]; intros f Hp Hn; [done|].
  replace (Datatypes.S p + f)%nat with (p + Datatypes.S f)%nat by lia.
  rewrite IH by (try lia; intros j kv Hj; apply Hn; lia).
  destruct (lookup_lt_is_Some_2 kvs p ltac:(lia)) as [kv E]. destruct (entry_used p kv E) as (H1 & H2 & H3 & H4 & _ & H5).
  cbn [lookup_loop]. rewrite (proj2 (Z.ltb_lt _ _) H1), H2, H3. cbn [mbind option_bind]. rewrite H4, H5. cbn [truthy negb].
  rewrite (proj2 (Z.eqb_neq kv.1 k)) by (by apply (Hn p kv); [lia|]). by rewrite next_index.
Qed.

(** A free entry looks like the key 0 to the deletion, which does not test
    [is_entry]. *)
Lemma delete_pass le f p : (Z.of_nat p <= entries_per_bucket ht) -> none_before p -> k <> 0 \/ (p <= length kvs)%nat ->
  delete_loop k off le (p + f) 0 ht = delete_loop k off le f (Z.of_nat p) ht.
Proof.
  revert f. induction p as [|p IH]; intros f Hp Hn Hk; [done|].
  replace (Datatypes.S p + f)%nat with (p + Datatypes.S f)%nat by lia.
  rewrite IH by (first [lia|intros j kv Hj; apply Hn; lia|destruct Hk; [by left|right; lia]]).
  cbn [delete_loop]. rewrite (proj2 (Z.ltb_lt (Z.of_nat p) _)) by lia.
  destruct (kvs !! p) as [kv|] eqn:E.
  - destruct (entry_used p kv E) as (H1 & H2 & H3 & _ & _ & H5). rewrite H2, H3. cbn [mbind option_bind]. rewrite H5.
    rewrite (proj2 (Z.eqb_neq kv.1 k)) by (by apply (Hn p kv); [lia|]). by rewrite next_index.
  - apply lookup_ge_None in E. destruct (entry_free p E ltac:(lia)) as [H2 H3]. rewrite H2, H3. cbn [mbind option_bind].
    destruct Hk as [Hk|]; [|lia]. change (key 0) with 0. rewrite (proj2 (Z.eqb_neq 0 k)) by done.
    by rewrite next_index by lia.
Qed.

(** The last used entry of the bucket, from a position in use on. *)
Lemma find_last_ok i : (i < length kvs)%nat -> forall f j,
  (Z.to_nat j <= f)%nat -> Z.of_nat i <= j < entries_per_bucket ht ->
  find_last off f (Z.of_nat i) j (Z.max j (Z.of_nat (length kvs) - 1)) ht = Some (Z.of_nat (length kvs) - 1).
Proof.
  intros Hi. induction f as [|f IH]; intros j Hf Hj; cbn [find_last]; rewrite Z.gtb_ltb.
  - rewrite (proj2 (Z.ltb_ge _ j)) by lia. f_equal. lia.
  - destruct (Z.ltb_spec (Z.of_nat i) j) as [Hij|Hij]; [|f_equal; lia].
    rewrite (wrap_small 32 (j - 1)) by (unfold fits; lia).
    destruct (decide (Z.to_nat j < length kvs)%nat) as [Hl|Hl].
    + destruct (lookup_lt_is_Some_2 kvs _ Hl) as [kv E]. destruct (entry_used _ kv E) as (_ & H2 & H3 & H4 & _).
      rewrite Z2Nat.id in H2, H3 by lia. rewrite H2, H3. cbn [mbind option_bind]. rewrite H4. cbn [truthy negb].
      replace (Z.max j (Z.of_nat (length kvs) - 1)) with (Z.max (j - 1) (Z.of_nat (length kvs) - 1)) by lia.
      apply IH; lia.
    + destruct (entry_free (Z.to_nat j)) as [H2 H3]; [lia..|]. rewrite Z2Nat.id in H2, H3 by lia. rewrite H2, H3.
      cbn [mbind option_bind]. change (negb (truthy (is_entry 0))) with true. cbv iota.
      replace (j - 1) with (Z.max (j - 1) (Z.of_nat (length kvs) - 1)) at 2 by lia. apply IH; lia.
Qed.

(** ** The operations on a bucket *)

Definition position (p : nat) : Prop := none_before p /\ exists v, kvs !! p = Some (k, v).

Lemma position_dec : (exists p, position p) \/ none_before (length kvs).
Proof.
  destruct (list_find (fun kv => kv.1 = k) kvs) as [[p [k' v]]|] eqn:E.
  - apply list_find_Some in E as (E & Hk & Hn). simpl in Hk. subst. left. exists p. split; [|by exists v].
    intros j kv Hj Hl. by apply (Hn j).
  - right. apply list_find_None in E. intros j kv _ Hj. by apply (Forall_lookup_1 _ _ _ _ E Hj).
Qed.

Lemma bucket_fuel p : Z.of_nat p < entries_per_bucket ht ->
  exists f, Z.to_nat (entries_per_bucket ht) = (p + Datatypes.S f)%nat.
Proof. intros H. exists (Z.to_nat (entries_per_bucket ht) - p - 1)%nat. lia. Qed.

Lemma lookup_found p v : none_before p -> kvs !! p = Some (k, v) ->
  rte_fbk_hash_lookup_with_bucket ht k off = Some v.
Proof.
  intros Hn E. destruct (entry_used p _ E) as (H1 & H2 & H3 & H4 & H5 & H6). destruct (bucket_fuel p H1) as [f Ef].
  unfold rte_fbk_hash_lookup_with_bucket. rewrite Ef, lookup_pass by (done || (apply lookup_lt_Some in E; lia)).
  cbn [lookup_loop]. rewrite (proj2 (Z.ltb_lt _ _) H1), H2, H3. cbn [mbind option_bind]. rewrite H4, H5, H6, Z.eqb_refl. done.
Qed.

Lemma lookup_missing : none_before (length kvs) -> rte_fbk_hash_lookup_with_bucket ht k off = Some (- ENOENT).
Proof.
  intros Hn. unfold rte_fbk_hash_lookup_with_bucket. destruct (decide (Z.of_nat (length kvs) < entries_per_bucket ht)) as [Hl|Hl].
  - destruct (bucket_fuel _ Hl) as [f ->]. rewrite lookup_pass by done. cbn [lookup_loop].
    rewrite (proj2 (Z.ltb_lt _ _) Hl). destruct (entry_free (length kvs)) as [-> ->]; [lia..|]. done.
  - destruct Hb as (Hle & _). replace (Z.to_nat (entries_per_bucket ht)) with (length kvs + 0)%nat by lia.
    rewrite lookup_pass by done. cbn [lookup_loop]. by rewrite (proj2 (Z.ltb_ge _ _)) by lia.
Qed.

Lemma add_found v p v0 : none_before p -> kvs !! p = Some (k, v0) ->
  rte_fbk_hash_add_key_with_bucket ht k v off
  = (ht ← put_entry (off + Z.of_nat p) (enc (k, v)) ht ; Some (0, ht)).
Proof.
  intros Hn E. destruct (entry_used p _ E) as (H1 & H2 & H3 & H4 & H5 & H6). destruct (bucket_fuel p H1) as [f Ef].
  unfold rte_fbk_hash_add_key_with_bucket. rewrite Ef, add_pass by (done || (apply lookup_lt_Some in E; lia)).
  cbn [add_loop]. rewrite (proj2 (Z.ltb_lt _ _) H1), H2, H3. cbn [mbind option_bind]. rewrite H4, H6, Z.eqb_refl.
  cbn [truthy negb]. rewrite enc_set; [done|]. destruct Hb as (_ & Hf & _). apply (Forall_lookup_1 _ _ _ _ Hf E).
Qed.

Lemma add_new v : none_before (length kvs) -> Z.of_nat (length kvs) < entries_per_bucket ht -> kv_ok (k, v) ->
  rte_fbk_hash_add_key_with_bucket ht k v off
  = (ht ← put_entry (off + Z.of_nat (length kvs)) (enc (k, v)) ht ;
     Some (0, set_used (u32 (used_entries ht + 1)) ht)).
Proof.
  intros Hn Hl Hkv. destruct (bucket_fuel _ Hl) as [f Ef]. unfold rte_fbk_hash_add_key_with_bucket.
  rewrite Ef, add_pass by done. cbn [add_loop]. rewrite (proj2 (Z.ltb_lt _ _) Hl).
  destruct (entry_free (length kvs)) as [-> ->]; [lia..|]. cbn [mbind option_bind]. by rewrite enc_new.
Qed.

Lemma add_full v : none_before (length kvs) -> Z.of_nat (length kvs) = entries_per_bucket ht ->
  rte_fbk_hash_add_key_with_bucket ht k v off = Some (- ENOSPC, ht).
Proof.
  intros Hn Hl. unfold rte_fbk_hash_add_key_with_bucket.
  replace (Z.to_nat (entries_per_bucket ht)) with (length kvs + 0)%nat by lia. rewrite add_pass by done.
  cbn [add_loop]. by rewrite (proj2 (Z.ltb_ge _ _)) by lia.
Qed.

Lemma delete_found p v : none_before p -> kvs !! p = Some (k, v) ->
  rte_fbk_hash_delete_key_with_bucket ht k off
  = (let last := off + Z.of_nat (length kvs) - 1 in
     e ← entry_at ht last ;
     ht ← put_entry (off + Z.of_nat p) e ht ;
     ht ← put_entry last 0 ht ;
     Some (0, set_used (u32 (used_entries ht - 1)) ht)).
Proof.
  intros Hn E. destruct (entry_used p _ E) as (H1 & H2 & H3 & H4 & H5 & H6). destruct (bucket_fuel p H1) as [f Ef].
  pose proof (lookup_lt_Some _ _ _ E) as Hlt. unfold rte_fbk_hash_delete_key_with_bucket.
  destruct Hb as (Hle & _). rewrite (wrap_small 32 (entries_per_bucket ht - 1)) by (unfold fits; lia).
  rewrite Ef at 1. rewrite delete_pass by (done || lia || (right; lia)).
  cbn [delete_loop]. rewrite (proj2 (Z.ltb_lt _ _) H1), H2, H3. cbn [mbind option_bind]. rewrite H6, Z.eqb_refl.
  rewrite (wrap_small 32 (entries_per_bucket ht - 1)) by (unfold fits; lia).
  replace (find_last off _ _ _ (entries_per_bucket ht - 1) ht)
    with (Some (Z.of_nat (length kvs) - 1)).
  - cbn [mbind option_bind]. rewrite (wrap_small 32 (off + (Z.of_nat (length kvs) - 1))) by (unfold fits; lia).
    replace (off + (Z.of_nat (length kvs) - 1)) with (off + Z.of_nat (length kvs) - 1) by lia. done.
  - symmetry. replace (entries_per_bucket ht - 1) with (Z.max (entries_per_bucket ht - 1) (Z.of_nat (length kvs) - 1)) at 2 by lia.
    apply find_last_ok; lia.
Qed.

Lemma delete_missing : none_before (length kvs) -> k <> 0 \/ Z.of_nat (length kvs) = entries_per_bucket ht ->
  rte_fbk_hash_delete_key_with_bucket ht k off = Some (- ENOENT, ht).
Proof.
  intros Hn Hk. unfold rte_fbk_hash_delete_key_with_bucket. destruct Hb as (Hle & _).
  replace (Z.to_nat (entries_per_bucket ht)) with (Z.to_nat (entries_per_bucket ht) + 0)%nat by lia.
  rewrite delete_pass.
  - cbn [delete_loop]. by rewrite Z2Nat.id, Z.ltb_irrefl by lia.
  - lia.
  - intros j kv Hj Hl. apply (Hn j); [by eapply lookup_lt_Some|done].
  - destruct Hk; [by left|right; lia].
Qed.
End bucket.

(** ** Tables and maps *)

Record same_shape (ht ht' : rte_fbk_hash_table) : Prop := {
  ss_entries : entries ht' = entries ht;
  ss_bucket : entries_per_bucket ht' = entries_per_bucket ht;
  ss_mask : bucket_mask ht' = bucket_mask ht;
  ss_shift : bucket_shift ht' = bucket_shift ht;
  ss_func : hash_func ht' = hash_func ht;
  ss_init : init_val ht' = init_val ht;
  ss_length : length (t ht') = length (t ht)
}.

Lemma same_geometry ht ht' : same_shape ht ht' -> geometry ht -> geometry ht'.
Proof. intros [E1 E2 E3 E4 E5 E6 E7] []. split; by rewrite ?E1, ?E2, ?E3, ?E4, ?E7. Qed.

Lemma same_bucket_no ht ht' k : same_shape ht ht' -> bucket_no ht' k = bucket_no ht k.
Proof. intros [E1 E2 E3 E4 E5 E6 E7]. unfold bucket_no. by rewrite E3, E5, E6. Qed.

(** Only one bucket changes. *)
Lemma holds_update ht ht' m m' q kvs' :
  holds ht m -> same_shape ht ht' -> 0 <= q <= bucket_mask ht ->
  (forall i, ~ q * entries_per_bucket ht <= i < q * entries_per_bucket ht + entries_per_bucket ht ->
     entry_at ht' i = entry_at ht i) ->
  bucket_holds ht' (q * entries_per_bucket ht) kvs' ->
  (forall k v, (k, v) ∈ kvs' <-> m' !! k = Some v /\ bucket_no ht k = q) ->
  (forall k, bucket_no ht k <> q -> m' !! k = m !! k) ->
  used_entries ht' = Z.of_nat (size m') -> holds ht' m'.
Proof.
  intros [G B _] S Hq Hout Hb Hm Hm' Hu. pose proof (geometry_bounds ht G) as (Hbp & _ & _). split; [by eapply same_geometry| |done].
  rewrite (ss_mask _ _ S), (ss_bucket _ _ S). intros q' Hq'. destruct (decide (q' = q)) as [->|Ne].
  - exists kvs'. split; [done|]. intros k v. by rewrite (same_bucket_no ht ht').
  - destruct (B q' Hq') as (kvs & (H1 & H2 & H3 & H4) & Hk). exists kvs. split.
    + rewrite <- (ss_bucket _ _ S) in H1. split; [done|]. split; [done|]. split; [done|].
      rewrite (ss_bucket _ _ S) in H1 |- *. intros i Hi. rewrite Hout by nia. by apply H4.
    + intros k v. rewrite (same_bucket_no ht ht') by done. rewrite Hk.
      split; intros [E <-]; (split; [|done]); by rewrite (Hm' k) in *.
Qed.

Lemma put_entry_ok ht i e : 0 <= i < Z.of_nat (length (t ht)) ->
  exists ht', put_entry i e ht = Some ht' /\ same_shape ht ht' /\ used_entries ht' = used_entries ht
    /\ forall j, entry_at ht' j = if decide (j = i) then Some e else entry_at ht j.
Proof.
  intros Hi. unfold put_entry. rewrite aset_ok by lia. cbn [mbind option_bind].
  eexists. split; [reflexivity|]. split; [split; try done; apply length_insert|]. split; [done|].
  intros j. unfold entry_at, aget. simpl. destruct (Z.leb_spec 0 j); case_decide; subst; try lia; try done.
  - by rewrite list_lookup_insert_eq by lia.
  - by rewrite list_lookup_insert_ne by lia.
Qed.

Lemma same_shape_used ht ht' n : same_shape ht ht' -> same_shape ht (set_used n ht').
Proof. by intros []. Qed.

Lemma same_shape_trans ht1 ht2 ht3 : same_shape ht1 ht2 -> same_shape ht2 ht3 -> same_shape ht1 ht3.
Proof. intros [] []. split; congruence. Qed.

(** The bucket of a key, and whether the key is in it. *)
Lemma key_bucket ht m k : holds ht m -> exists kvs,
  let off := bucket_no ht k * entries_per_bucket ht in
  rte_fbk_hash_get_bucket ht k = off /\ (0 <= off /\ off + entries_per_bucket ht <= 2 ^ 20)
  /\ off + entries_per_bucket ht <= Z.of_nat (length (t ht))
  /\ bucket_holds ht off kvs /\ (forall k' v, (k', v) ∈ kvs <-> m !! k' = Some v /\ bucket_no ht k' = bucket_no ht k)
  /\ length kvs = load (bucket_no ht) m (bucket_no ht k)
  /\ ((exists p v, none_before kvs k p /\ kvs !! p = Some (k, v) /\ m !! k = Some v)
      \/ (none_before kvs k (length kvs) /\ m !! k = None)).
Proof.
  intros H. pose proof (h_geometry _ _ H) as G. pose proof (bucket_no_range ht k G) as R.
  destruct (geometry_bounds ht G) as (Hb & Hm & Hq). specialize (Hq _ R). pose proof (g_size _ G). pose proof (g_length _ G).
  destruct (h_bucket _ _ H _ R) as (kvs & HB & Hk). exists kvs. cbv zeta.
  split; [by apply get_bucket_ok|]. split; [split; [nia|lia]|]. split; [lia|]. split; [done|]. split; [done|]. split.
  - unfold load. rewrite <- length_map_to_list.
    assert (kvs ≡ₚ map_to_list (filter (fun kv => bucket_no ht kv.1 = bucket_no ht k) m)) as ->.
    { apply NoDup_Permutation.
      - destruct HB as (_ & _ & Hn & _). by eapply NoDup_fmap_1.
      - apply NoDup_map_to_list.
      - intros [k' v]. rewrite Hk, elem_of_map_to_list, map_lookup_filter_Some. done. }
    done.
  - destruct (position_dec kvs k) as [(p & Hn & v & E)|Hn]; [left|right].
    + exists p, v. split; [done|]. split; [done|]. apply Hk. by eapply list_elem_of_lookup_2.
    + split; [done|]. destruct (m !! k) as [v|] eqn:E; [|done]. exfalso.
      assert ((k, v) ∈ kvs) as Hin by (by apply Hk). apply list_elem_of_lookup in Hin as [j Hj].
      apply (Hn j (k, v)); [by eapply lookup_lt_Some|done|done].
Qed.

(** ** The operations on maps *)

Lemma map_fits ht m k v : holds ht m -> m !! k = Some v -> kv_ok (k, v).
Proof.
  intros H E. destruct (key_bucket ht m k H) as (kvs & _ & _ & _ & (_ & Hf & _) & Hk & _).
  pose proof (proj2 (Hk k v) (conj E eq_refl)) as Hin. apply list_elem_of_lookup in Hin as [i Hi].
  by apply (Forall_lookup_1 _ _ _ _ Hf Hi).
Qed.

Lemma map_entry ht m k v : holds ht m -> m !! k = Some v -> enc (k, v) ∈ t ht.
Proof.
  intros H E. destruct (key_bucket ht m k H) as (kvs & _ & Ho & _ & HB & Hk & _).
  pose proof (proj2 (Hk k v) (conj E eq_refl)) as Hin. apply list_elem_of_lookup in Hin as [i Hi].
  destruct (entry_used ht _ kvs Ho HB i _ Hi) as (_ & _ & He & _). unfold entry_at, aget in He.
  destruct (0 <=? _); [|done]. by eapply list_elem_of_lookup_2.
Qed.

(** There are no more keys than entries. *)
Lemma map_size_le ht m : holds ht m -> Z.of_nat (size m) <= 2 ^ 20.
Proof.
  intros H. pose proof (g_length _ (h_geometry _ _ H)). pose proof (g_size _ (h_geometry _ _ H)).
  rewrite <- length_map_to_list, <- (length_fmap enc).
  assert (length (enc <$> map_to_list m) <= length (t ht))%nat; [|lia].
  apply submseteq_length, NoDup_submseteq.
  - apply NoDup_fmap_2_strong; [|apply NoDup_map_to_list].
    intros [k v] [k' v'] M1%elem_of_map_to_list M2%elem_of_map_to_list E.
    destruct (enc_fields _ (map_fits ht m k v H M1)) as (_ & Ev & Ek).
    destruct (enc_fields _ (map_fits ht m k' v' H M2)) as (_ & Ev' & Ek'). simpl in *. congruence.
  - intros x ([k v] & -> & Hin)%list_elem_of_fmap. apply elem_of_map_to_list in Hin. by apply (map_entry ht m).
Qed.

Lemma lookup_map ht m k : holds ht m -> rte_fbk_hash_lookup ht k = Some (default (- ENOENT) (m !! k)).
Proof.
  intros H. destruct (key_bucket ht m k H) as (kvs & Eb & Ho & _ & HB & _ & _ & [(p & v & Hn & E & ->)|[Hn ->]]);
    unfold rte_fbk_hash_lookup; rewrite Eb.
  - by eapply lookup_found.
  - by eapply lookup_missing.
Qed.

Lemma bucket_insert ht ht' off kvs kvs' i e :
  bucket_holds ht off kvs -> entries_per_bucket ht' = entries_per_bucket ht ->
  (forall j, entry_at ht' j = if decide (j = off + i) then Some e else entry_at ht j) ->
  Z.of_nat (length kvs') <= entries_per_bucket ht -> Forall kv_ok kvs' -> NoDup kvs'.*1 ->
  0 <= i < entries_per_bucket ht ->
  e = from_option enc 0 (kvs' !! Z.to_nat i) -> (forall j, 0 <= j -> j <> i -> kvs' !! Z.to_nat j = kvs !! Z.to_nat j) ->
  bucket_holds ht' off kvs'.
Proof.
  intros (H1 & H2 & H3 & H4) Eb He Hl Hf Hn Hi -> Hj. split; [by rewrite Eb|]. split; [done|]. split; [done|].
  rewrite Eb. intros j Hji. rewrite He. case_decide as E.
  - by replace j with i by lia.
  - rewrite H4, Hj by lia. done.
Qed.

Lemma nodup_keys (kvs : list (Z * Z)) i j k v v' : NoDup kvs.*1 ->
  kvs !! i = Some (k, v) -> kvs !! j = Some (k, v') -> i = j /\ v = v'.
Proof.
  intros Hn Hi Hj. assert (i = j) as ->.
  { apply (NoDup_lookup kvs.*1 i j k Hn); by rewrite list_lookup_fmap, ?Hi, ?Hj. }
  split; congruence.
Qed.

Section one_bucket.
Context (ht : rte_fbk_hash_table) (m : gmap Z Z) (k : Z) (kvs : list (Z * Z)).
Let off := bucket_no ht k * entries_per_bucket ht.
Hypothesis H : holds ht m.
Hypothesis Ho : 0 <= off /\ off + entries_per_bucket ht <= 2 ^ 20.
Hypothesis Hle : off + entries_per_bucket ht <= Z.of_nat (length (t ht)).
Hypothesis HB : bucket_holds ht off kvs.
Hypothesis Hk : forall k' v, (k', v) ∈ kvs <-> m !! k' = Some v /\ bucket_no ht k' = bucket_no ht k.

Lemma add_present v p v0 : kv_ok (k, v) -> none_before kvs k p -> kvs !! p = Some (k, v0) -> m !! k = Some v0 ->
  exists ht', rte_fbk_hash_add_key_with_bucket ht k v off = Some (0, ht')
    /\ holds ht' (<[k := v]> m) /\ same_shape ht ht'.
Proof.
  intros Hkv Hb Ep Em. pose proof HB as (Hl & Hf & Hn & _). pose proof (bucket_no_range ht k (h_geometry _ _ H)) as Hr.
  destruct (entry_used ht off kvs Ho HB p _ Ep) as (Hp & _). pose proof (lookup_lt_Some _ _ _ Ep) as Hlt.
  rewrite (add_found ht off kvs k Ho HB v p v0 Hb Ep).
  destruct (put_entry_ok ht (off + Z.of_nat p) (enc (k, v)) ltac:(lia)) as (ht' & E & S & Hu & He).
  rewrite E. cbn [mbind option_bind]. exists ht'. split; [done|]. split; [|done].
  eapply (holds_update ht ht' m _ _ (<[p := (k, v)]> kvs) H S Hr).
  - intros i Hi. fold off in Hi. rewrite He. case_decide; [lia|done].
  - eapply bucket_insert; [exact HB|by rewrite (ss_bucket _ _ S)|exact He|by rewrite length_insert| | |lia| |].
    + by apply Forall_insert.
    + rewrite list_fmap_insert. by rewrite list_insert_id by (by rewrite list_lookup_fmap, Ep).
    + by rewrite Nat2Z.id, list_lookup_insert_eq.
    + intros j Hj Hne. rewrite list_lookup_insert_ne; [done|lia].
  - intros k' v'. rewrite lookup_insert. split.
    + intros [j Hj]%list_elem_of_lookup. destruct (decide (p = j)) as [<-|Nj].
      * rewrite list_lookup_insert_eq in Hj by done. simplify_eq. by case_decide.
      * rewrite list_lookup_insert_ne in Hj by done. case_decide as Ek.
        -- subst. by destruct (nodup_keys _ _ _ _ _ _ Hn Ep Hj).
        -- apply Hk. by eapply list_elem_of_lookup_2.
    + intros [Ek Eq]. case_decide as Ek'; [simplify_eq; apply (list_elem_of_lookup_2 _ p); by rewrite list_lookup_insert_eq|].
      pose proof (proj2 (Hk k' v') (conj Ek Eq)) as [j Hj]%list_elem_of_lookup. apply (list_elem_of_lookup_2 _ j).
      rewrite list_lookup_insert_ne; [done|]. intros ->. congruence.
  - intros k' Hk'. rewrite lookup_insert_ne; [done|]. by intros ->.
  - rewrite Hu, (h_used _ _ H), map_size_insert_Some; [done|by eexists].
Qed.

Lemma add_absent v : kv_ok (k, v) -> none_before kvs k (length kvs) -> m !! k = None ->
  Z.of_nat (length kvs) < entries_per_bucket ht ->
  exists ht', rte_fbk_hash_add_key_with_bucket ht k v off = Some (0, ht')
    /\ holds ht' (<[k := v]> m) /\ same_shape ht ht'.
Proof.
  intros Hkv Hb Em Hc. pose proof HB as (Hl & Hf & Hn & _). pose proof (bucket_no_range ht k (h_geometry _ _ H)) as Hr.
  rewrite (add_new ht off kvs k Ho HB v Hb Hc Hkv).
  destruct (put_entry_ok ht (off + Z.of_nat (length kvs)) (enc (k, v)) ltac:(lia)) as (ht' & E & S & Hu & He).
  rewrite E. cbn [mbind option_bind]. eexists. split; [reflexivity|]. split; [|by apply same_shape_used].
  eapply (holds_update ht _ m _ _ (kvs ++ [(k, v)]) H (same_shape_used _ _ _ S) Hr).
  - intros i Hi. fold off in Hi. change (entry_at ht' i = entry_at ht i). rewrite He. case_decide; [lia|done].
  - eapply (bucket_insert ht _ off kvs); [exact HB|by apply S|exact He|rewrite length_app; simpl; lia| | |lia| |].
    + apply Forall_app. split; [done|]. by constructor.
    + rewrite fmap_app. apply list.NoDup_app. split; [done|]. split; [|apply NoDup_singleton].
      intros x [j Hj]%list_elem_of_lookup ->%list_elem_of_singleton. rewrite list_lookup_fmap in Hj.
      destruct (kvs !! j) as [kv|] eqn:Ej; [|done]. simpl in Hj. simplify_eq. apply (Hb j kv); [by eapply lookup_lt_Some|done|done].
    + by rewrite Nat2Z.id, list_lookup_middle.
    + intros j Hj Hne. destruct (decide (Z.to_nat j < length kvs)%nat); [by rewrite lookup_app_l|].
      rewrite !lookup_ge_None_2; [done|lia|rewrite length_app; simpl; lia].
  - intros k' v'. rewrite elem_of_app, list_elem_of_singleton, lookup_insert, Hk. case_decide as Ek.
    + subst. rewrite Em. split; [intros [[? _]|E']; [done|by simplify_eq]|intros [[= <-] _]; by right].
    + split; [intros [?|E']; [done|by simplify_eq]|by left].
  - intros k' Hk'. rewrite lookup_insert_ne; [done|]. by intros ->.
  - simpl. rewrite Hu, (h_used _ _ H), map_size_insert_None by done. pose proof (map_size_le ht m H).
    rewrite wrap_small by (unfold fits; lia). lia.
Qed.

(** The bucket without its entry [p]: the last one takes its place. *)
Definition without (p : nat) : list (Z * Z) :=
  match kvs !! (length kvs - 1)%nat with
  | Some last => take (length kvs - 1) (<[p := last]> kvs)
  | None => []
  end.

Lemma without_lookup p last j : (p < length kvs)%nat -> kvs !! (length kvs - 1)%nat = Some last ->
  without p !! j = if decide (j < length kvs - 1)%nat then if decide (j = p) then Some last else kvs !! j else None.
Proof.
  intros Hp El. unfold without. rewrite El. case_decide.
  - rewrite lookup_take_lt by done. case_decide; subst; [by rewrite list_lookup_insert_eq|by rewrite list_lookup_insert_ne].
  - apply lookup_ge_None_2. rewrite length_take. lia.
Qed.

Lemma without_length p last : (p < length kvs)%nat -> kvs !! (length kvs - 1)%nat = Some last ->
  length (without p) = (length kvs - 1)%nat.
Proof. intros Hp El. unfold without. rewrite El, length_take, length_insert. lia. Qed.

(** Where an entry of the new bucket was in the old one. *)
Lemma without_from p last j kv : (p < length kvs)%nat -> kvs !! (length kvs - 1)%nat = Some last ->
  without p !! j = Some kv ->
  (j < length kvs - 1)%nat /\ kvs !! (if decide (j = p) then length kvs - 1 else j)%nat = Some kv.
Proof. intros Hp El. rewrite (without_lookup p last j Hp El). do 2 case_decide; try done. by intros [= <-]. Qed.

Lemma without_in p last v k' v' : (p < length kvs)%nat -> kvs !! (length kvs - 1)%nat = Some last ->
  NoDup kvs.*1 -> kvs !! p = Some (k, v) -> (k', v') ∈ without p <-> (k', v') ∈ kvs /\ k' <> k.
Proof.
  intros Hp El Hn Ep. split.
  - intros [j Hj]%list_elem_of_lookup. destruct (without_from p last j _ Hp El Hj) as [Hlt Hj'].
    split; [by eapply list_elem_of_lookup_2|]. intros ->.
    destruct (nodup_keys _ _ _ _ _ _ Hn Hj' Ep) as [E _]. case_decide; lia.
  - intros [[j Hj]%list_elem_of_lookup Ne]. pose proof (lookup_lt_Some _ _ _ Hj).
    assert (j <> p) by (intros ->; congruence).
    destruct (decide (j = length kvs - 1)%nat) as [->|Nj].
    + apply (list_elem_of_lookup_2 _ p). rewrite (without_lookup p last p Hp El).
      rewrite decide_True by lia. rewrite decide_True by done. congruence.
    + apply (list_elem_of_lookup_2 _ j). rewrite (without_lookup p last j Hp El).
      rewrite decide_True by lia. by rewrite decide_False.
Qed.

Lemma without_holds ht' p v last : kvs !! p = Some (k, v) -> kvs !! (length kvs - 1)%nat = Some last ->
  entries_per_bucket ht' = entries_per_bucket ht ->
  (forall j, entry_at ht' j = if decide (j = off + Z.of_nat (length kvs - 1)) then Some 0
                              else if decide (j = off + Z.of_nat p) then Some (enc last) else entry_at ht j) ->
  bucket_holds ht' off (without p).
Proof.
  intros Ep El Eb He. pose proof HB as (Hl & Hf & Hn & Hent). pose proof (lookup_lt_Some _ _ _ Ep) as Hp.
  split; [rewrite Eb, (without_length p last) by done; lia|]. split.
  { apply Forall_lookup_2. intros j kv Hj. destruct (without_from p last j _ Hp El Hj) as [_ Hj'].
    apply (Forall_lookup_1 _ _ _ _ Hf Hj'). }
  split.
  { apply NoDup_alt. intros i j x Hi Hj. rewrite list_lookup_fmap in Hi, Hj.
    destruct (without p !! i) as [[a va]|] eqn:Ei; [|done]. destruct (without p !! j) as [[b vb]|] eqn:Ej; [|done].
    simplify_eq/=. destruct (without_from p last i _ Hp El Ei) as [Hi Hi'], (without_from p last j _ Hp El Ej) as [Hj Hj'].
    destruct (nodup_keys _ _ _ _ _ _ Hn Hi' Hj') as [E _]. repeat case_decide; lia. }
  rewrite Eb. intros i Hi. rewrite He, (without_lookup p last) by done.
  destruct (decide (off + i = _)) as [E|E]; [rewrite decide_False by lia; done|].
  destruct (decide (off + i = off + Z.of_nat p)) as [E'|E'].
  - rewrite decide_True by lia. by rewrite decide_True by lia.
  - rewrite Hent by done. case_decide; [by rewrite decide_False by lia|]. by rewrite lookup_ge_None_2 by lia.
Qed.

Lemma delete_present p v : none_before kvs k p -> kvs !! p = Some (k, v) -> m !! k = Some v ->
  exists ht', rte_fbk_hash_delete_key_with_bucket ht k off = Some (0, ht')
    /\ holds ht' (delete k m) /\ same_shape ht ht'.
Proof.
  intros Hb Ep Em. pose proof HB as (Hl & Hf & Hn & _). pose proof (bucket_no_range ht k (h_geometry _ _ H)) as Hr.
  destruct (entry_used ht off kvs Ho HB p _ Ep) as (Hp & _). pose proof (lookup_lt_Some _ _ _ Ep) as Hlt.
  destruct (lookup_lt_is_Some_2 kvs (length kvs - 1) ltac:(lia)) as [last El].
  destruct (entry_used ht off kvs Ho HB _ _ El) as (_ & _ & Hlast & _).
  rewrite (delete_found ht off kvs k Ho HB p v Hb Ep). cbv zeta.
  replace (off + Z.of_nat (length kvs) - 1) with (off + Z.of_nat (length kvs - 1)) by lia.
  rewrite Hlast. cbn [mbind option_bind].
  destruct (put_entry_ok ht (off + Z.of_nat p) (enc last) ltac:(lia)) as (ht1 & E1 & S1 & Hu1 & He1).
  rewrite E1. cbn [mbind option_bind].
  destruct (put_entry_ok ht1 (off + Z.of_nat (length kvs - 1)) 0) as (ht2 & E2 & S2 & Hu2 & He2).
  { rewrite (ss_length _ _ S1). lia. }
  rewrite E2. cbn [mbind option_bind]. eexists. split; [reflexivity|].
  pose proof (same_shape_used _ _ (u32 (used_entries ht2 - 1)) (same_shape_trans _ _ _ S1 S2)) as S. split; [|done].
  eapply (holds_update ht _ m _ _ (without p) H S Hr).
  - intros i Hi. fold off in Hi. change (entry_at ht2 i = entry_at ht i). rewrite He2, He1. do 2 (case_decide; [lia|]). done.
  - apply (without_holds _ p v last Ep El); [by apply S|]. intros j. change (entry_at (set_used _ ht2) j) with (entry_at ht2 j).
    by rewrite He2, He1.
  - intros k' v'. rewrite (without_in p last v) by done. rewrite Hk, lookup_delete_Some.
    split; intros [[? ?] ?]; split_and!; congruence.
  - intros k' Hk'. rewrite lookup_delete_ne; [done|]. by intros ->.
  - simpl. rewrite Hu2, Hu1, (h_used _ _ H). pose proof (map_size_le ht m H).
    assert (size m <> 0%nat) by (apply map_size_ne_0_lookup; eauto).
    rewrite map_size_delete_Some by (by eexists). rewrite wrap_small by (unfold fits; lia). lia.
Qed.
End one_bucket.

(** ** Runs *)

Lemma clear_map ht m : holds ht m ->
  exists ht', rte_fbk_hash_clear_all ht = Some ht' /\ holds ht' ∅ /\ same_shape ht ht'.
Proof.
  intros H. pose proof (h_geometry _ _ H) as G. pose proof (geometry_bounds ht G) as (Hb & Hm & Hq).
  pose proof (g_length _ G) as Hlen. set (z := replicate (Z.to_nat (entries ht)) 0).
  assert (mem_cpy (t ht) 0 z 0 (entries ht) = Some z) as E.
  { rewrite mem_cpy_ok by (unfold z; rewrite ?length_replicate; lia). f_equal. change (Z.to_nat 0) with 0%nat.
    unfold splice. rewrite drop_0, take_0, take_ge by (unfold z; rewrite length_replicate; lia).
    unfold z. rewrite length_replicate, drop_ge by lia. by rewrite app_nil_r. }
  unfold rte_fbk_hash_clear_all. fold z. rewrite E. cbn [mbind option_bind].
  assert (same_shape ht (set_used 0 (set_t z ht))) as S.
  { unfold z. split; simpl; rewrite ?length_replicate; (done || lia). }
  eexists. split; [reflexivity|]. split; [|done].
  split; [by eapply same_geometry| |simpl; by rewrite map_size_empty].
  intros q Hq'. exists []. split.
  - split; [simpl; lia|]. split; [done|]. split; [constructor|]. intros i Hi. simpl in *. specialize (Hq q Hq').
    unfold entry_at, aget, z. simpl. rewrite (proj2 (Z.leb_le 0 _)) by nia. by rewrite lookup_replicate_2 by nia.
  - intros k v. rewrite lookup_empty. split; [by intros ?%elem_of_nil|by intros []].
Qed.

Lemma step_map ht m op : holds ht m ->
  op_ok m op ->
  exists ht', fbk_step op ht = Some ((map_step (bucket_no ht) (entries_per_bucket ht) op m).1, ht')
    /\ holds ht' (map_step (bucket_no ht) (entries_per_bucket ht) op m).2 /\ same_shape ht ht'.
Proof.
  intros H Hop. destruct op as [k v|k|k|]; simpl.
  - destruct (key_bucket ht m k H) as (kvs & Eb & Ho & Hle & HB & Hk & Hload & Hcase). simpl in *.
    unfold rte_fbk_hash_add_key. rewrite Eb, <- Hload. destruct Hcase as [(p & v0 & Hb & Ep & Em)|[Hb Em]].
    + rewrite bool_decide_true by (rewrite Em; by eexists). by eapply add_present.
    + rewrite bool_decide_false by (rewrite Em; by intros []). cbn [orb].
      destruct (Z.ltb_spec (Z.of_nat (length kvs)) (entries_per_bucket ht)); [by eapply add_absent|].
      exists ht. rewrite (add_full ht _ kvs k Ho HB v Hb) by (destruct HB; lia). split; [done|]. split; [done|by split].
  - destruct (key_bucket ht m k H) as (kvs & Eb & Ho & Hle & HB & Hk & _ & [(p & v0 & Hb & Ep & Em)|[Hb Em]]); simpl in *;
      unfold rte_fbk_hash_delete_key; rewrite Eb, Em; simpl.
    + by eapply delete_present.
    + exists ht. rewrite (delete_missing ht _ kvs k Ho HB Hb); [split; [done|]; split; [done|by split]|].
      destruct Hop as [_ [Hk0|[v Hv]]]; [by left|congruence].
  - exists ht. rewrite (lookup_map ht m k H). split; [done|]. split; [done|by split].
  - destruct (clear_map ht m H) as (ht' & E & H' & S). rewrite E. by exists ht'.
Qed.

(** C19. The hash table is a finite map whose buckets can be full: from a table
    that holds a map, any sequence of additions, deletions, lookups and clearings
    stays inside the table and answers as the map does; an addition of a new key
    is refused exactly when [entries_per_bucket] keys of its bucket are present;
    [used_entries] is the number of keys.  The hash function is any function.
    (The key 0 is only deleted when it is present, see
    [fbk_delete_absent_zero].) *)
Theorem fbk_refines_map ops ht m : holds ht m ->
  ops_ok (bucket_no ht) (entries_per_bucket ht) ops m ->
  exists ht', fbk_run ops ht = Some ((map_run (bucket_no ht) (entries_per_bucket ht) ops m).1, ht')
    /\ holds ht' (map_run (bucket_no ht) (entries_per_bucket ht) ops m).2.
Proof.
  revert ht m. induction ops as [|op ops IH]; intros ht m H Hops; [by exists ht|]. destruct Hops as [Hop Hops].
  destruct (step_map ht m op H Hop) as (ht1 & E1 & H1 & S). simpl. rewrite E1. cbn [mbind option_bind].
  destruct (map_step _ _ op m) as [r m1] eqn:Em. simpl in *.
  assert (bucket_no ht1 = bucket_no ht) as Eb.
  { unfold bucket_no. destruct S as [_ _ -> _ -> -> _]. done. }
  destruct (IH ht1 m1 H1) as (ht2 & E2 & H2); [by rewrite Eb, (ss_bucket _ _ S)|].
  rewrite Eb, (ss_bucket _ _ S) in E2, H2. rewrite E2. cbn [mbind option_bind]. exists ht2.
  by destruct (map_run _ _ ops m1) as [rs m2].
Qed.

(** ** A small table *)

(** Two buckets of two entries; the bucket of a key is its lowest bit. *)
Definition demo_table (l : list Z) (used : Z) : rte_fbk_hash_table := mk_table 4 2 used 1 1 (fun k _ => k) 0 l.

Lemma demo_holds : holds (demo_table [0; 0; 0; 0] 0) ∅.
Proof.
  split.
  - split; simpl; try lia. exists 1. lia.
  - intros q Hq. exists []. split.
    + split; [simpl; lia|]. split; [done|]. split; [constructor|]. simpl in *. intros i Hi.
      assert (q * 2 + i = 0 \/ q * 2 + i = 1 \/ q * 2 + i = 2 \/ q * 2 + i = 3) as [->|[->|[->| ->]]] by lia; done.
    + intros k v. rewrite lookup_empty. split; [by intros ?%elem_of_nil|by intros []].
  - done.
Qed.

Lemma fbk_refines_map_witness :
  let ops := [Add 4 7; Add 6 8; Add 8 9; Lookup 6; Delete 4; Add 8 9; Lookup 8; Lookup 4; Delete 5] in
  exists ht', fbk_run ops (demo_table [0; 0; 0; 0] 0)
    = Some ([0; 0; - ENOSPC; 8; 0; 0; 9; - ENOENT; - ENOENT], ht') /\ used_entries ht' = 2.
Proof.
  intros ops. destruct (fbk_refines_map ops (demo_table [0; 0; 0; 0] 0) ∅ demo_holds) as (ht' & E & H).
  - vm_compute. repeat split; try (intros; discriminate); left; discriminate.
  - exists ht'. split; [vm_compute in E |- *; exact E|]. vm_compute in E. by injection E as <-.
Defined.

(** The deletion of the key 0, absent from a bucket with room, finds a free entry,
    answers 0 and counts one key less. *)
Theorem fbk_delete_absent_zero :
  rte_fbk_hash_lookup (demo_table [0; 0; 0; 0] 0) 0 = Some (- ENOENT)
  /\ rte_fbk_hash_delete_key (demo_table [0; 0; 0; 0] 0) 0 = Some (0, demo_table [0; 0; 0; 0] (2 ^ 32 - 1)).
Proof. by vm_compute. Qed.

(** A lookup during which the table changes: it reads each entry in the table of
    that moment. *)
Fixpoint lookup_during (k bucket : Z) (hts : list rte_fbk_hash_table) (i : Z) : option Z :=
  match hts with
  | [] => None
  | ht :: hts =>
      if i <? entries_per_bucket ht then
        e ← entry_at ht (u32 (bucket + i)) ;
        if negb (truthy (is_entry e)) then Some (- ENOENT)
        else if key e =? k then Some (value e)
        else lookup_during k bucket hts (u32 (i + 1))
      else Some (- ENOENT)
  end.

Lemma lookup_during_same k bucket ht n : forall i r,
  lookup_loop k bucket n i ht = Some r -> lookup_during k bucket (replicate (Datatypes.S n) ht) i = Some r.
Proof.
  induction n as [|n IH]; intros i r; cbn [lookup_loop lookup_during replicate]; destruct (_ <? _); try done.
  destruct (entry_at ht _) as [e|]; [|done]. cbn [mbind option_bind]. destruct (negb _); [done|].
  destruct (_ =? _); [done|]. apply IH.
Qed.

(** A lookup can miss a key that is in the table before, during and after it,
    when another key is deleted from its bucket at the same time. *)
Theorem fbk_lookup_races_with_delete :
  let ht := demo_table [enc (2, 10); enc (4, 20); 0; 0] 2 in
  exists ht', rte_fbk_hash_delete_key ht 2 = Some (0, ht')
    /\ rte_fbk_hash_lookup ht 4 = Some 20 /\ rte_fbk_hash_lookup ht' 4 = Some 20
    /\ lookup_during 4 (rte_fbk_hash_get_bucket ht 4) [ht; ht'] 0 = Some (- ENOENT).
Proof. eexists. split; [vm_compute; reflexivity|]. by vm_compute. Qed.
