(* ===== verification/HashCrcSpec.v ===== *)
(** * The CRC32C hash is the remainder of a division of polynomials over GF(2). *)
From stdpp Require Import prelude list numbers gmap.
From S2P Require Import Prelude Bits Bytes HashCrc.
Open Scope Z_scope.

(** ** Polynomials with coefficients 0 and 1, as bits

    As in the registers of the code, the bits are reversed: bit 0 is the
    coefficient of the highest power. *)

Fixpoint pclmul (q : positive) (p : Z) : Z :=
  match q with
  | xH => p
  | xO q => 2 * pclmul q p
  | xI q => Z.lxor p (2 * pclmul q p)
  end.

(** Multiplication without carries. *)
Definition clmul (q p : Z) : Z := match q with Zpos q => pclmul q p | _ => 0 end.

(** The polynomial of CRC32C, 0x11EDC6F41, reversed. *)
Definition crc32c_poly : Z := 0x105EC76F1.

(** [r] is the remainder of the division of [m], a polynomial that was multiplied
    by the [n]-th power, by the polynomial: [m] minus a multiple is [r]. *)
Definition remainder (n m r : Z) : Prop :=
  fits 32 r /\ exists q, fits n q /\ Z.lxor m (clmul q crc32c_poly) = Z.shiftl r n.

(** What the instructions do: the register and the operand are added and divided
    by the polynomial; [crc32q] uses the low half of the register. *)
Class LawfulSse42 (sse : Sse42) : Prop := {
  crc32b_law d c : fits 8 d -> fits 32 c -> remainder 8 (Z.lxor c d) (crc32b d c);
  crc32w_law d c : fits 16 d -> fits 32 c -> remainder 16 (Z.lxor c d) (crc32w d c);
  crc32l_law d c : fits 32 d -> fits 32 c -> remainder 32 (Z.lxor c d) (crc32l d c);
  crc32q_law d c : fits 64 d -> fits 64 c -> remainder 64 (Z.lxor (u32 c) d) (crc32q d c)
}.

(** ** The division one bit at a time *)

Lemma fits_lxor_wider k n a b : 0 <= n -> 32 <= k -> n <= k -> fits 32 a -> fits n b -> fits k (Z.lxor a b).
Proof.
  intros Hn Hk Hnk Ha Hb. assert (2 ^ 32 <= 2 ^ k /\ 2 ^ n <= 2 ^ k) by (split; apply Z.pow_le_mono_r; lia).
  apply fits_lxor; unfold fits in *; lia.
Qed.

Definition crc_step (c : Z) : Z := Z.lxor (Z.shiftr c 1) (if Z.odd c then 0x82F63B78 else 0).

Definition crc_steps (n : nat) (c : Z) : Z := Nat.iter n crc_step c.

Lemma crc_steps_S n c : crc_steps (Datatypes.S n) c = crc_steps n (crc_step c).
Proof. apply Nat.iter_succ_r. Qed.

Lemma crc_steps_add n k c : crc_steps (n + k) c = crc_steps k (crc_steps n c).
Proof. revert c. induction n as [|n IH]; intros c; [done|]. cbn [Nat.add]. by rewrite !crc_steps_S. Qed.

Lemma odd_bit c : Z.odd c = Z.testbit c 0.
Proof. symmetry. apply Z.bit0_odd. Qed.

Lemma crc_step_lxor a b : crc_step (Z.lxor a b) = Z.lxor (crc_step a) (crc_step b).
Proof.
  unfold crc_step. rewrite Z.shiftr_lxor, !odd_bit, Z.lxor_spec.
  rewrite !Z.lxor_assoc. f_equal. rewrite (Z.lxor_comm (if Z.testbit a 0 then _ else _)), Z.lxor_assoc. f_equal.
  by destruct (Z.testbit a 0), (Z.testbit b 0).
Qed.

Lemma crc_steps_lxor n a b : crc_steps n (Z.lxor a b) = Z.lxor (crc_steps n a) (crc_steps n b).
Proof.
  revert a b. induction n as [|n IH]; intros a b; [done|]. rewrite !crc_steps_S. by rewrite crc_step_lxor, IH.
Qed.

Lemma crc_steps_shiftl n a : crc_steps n (Z.shiftl a (Z.of_nat n)) = a.
Proof.
  revert a. induction n as [|n IH]; intros a; [apply Z.shiftl_0_r|]. rewrite crc_steps_S.
  replace (Z.of_nat (Datatypes.S n)) with (Z.of_nat n + 1) by lia. rewrite <- Z.shiftl_shiftl by lia.
  unfold crc_step. rewrite odd_bit, Z.shiftl_spec_low by lia.
  rewrite Z.shiftr_shiftl_l by lia. rewrite Z.lxor_0_r, Z.shiftl_0_r. apply IH.
Qed.

(** The first [k] bits apart. *)
Lemma crc_steps_split n k x :
  crc_steps (n + k) x = Z.lxor (crc_steps (n + k) (x mod 2 ^ Z.of_nat k)) (crc_steps n (Z.shiftr x (Z.of_nat k))).
Proof.
  rewrite <- (crc_steps_shiftl k (Z.shiftr x (Z.of_nat k))) at 1.
  rewrite <- crc_steps_add, (Nat.add_comm k n), <- crc_steps_lxor. f_equal.
  rewrite Z.shiftl_mul_pow2, Z.shiftr_div_pow2 by lia. pose proof (Z.mod_pos_bound x (2 ^ Z.of_nat k) ltac:(lia)).
  assert (Z.lxor (x mod 2 ^ Z.of_nat k) (x / 2 ^ Z.of_nat k * 2 ^ Z.of_nat k)
    = Z.lor (x mod 2 ^ Z.of_nat k) (x / 2 ^ Z.of_nat k * 2 ^ Z.of_nat k)) as ->.
  { apply Z.lxor_lor. rewrite <- Z.shiftl_mul_pow2 by lia. apply Z.bits_inj'. intros i Hi.
    rewrite Z.land_spec, Z.bits_0. destruct (decide (i < Z.of_nat k)).
    - by rewrite (Z.shiftl_spec_low _ _ i), andb_false_r by lia.
    - by rewrite Z.mod_pow2_bits_high by lia. }
  rewrite lor_disjoint by lia. pose proof (Z.div_mod x (2 ^ Z.of_nat k) ltac:(lia)). lia.
Qed.

Lemma crc_step_fits n c : 32 <= n -> fits (n + 1) c -> fits n (crc_step c).
Proof.
  intros Hn Hc. apply fits_lxor; [lia| |].
  - unfold fits in *. rewrite Z.shiftr_div_pow2, Z.pow_add_r in * by lia.
    split; [apply Z.div_pos; lia|]. apply Z.div_lt_upper_bound; lia.
  - assert (2 ^ 32 <= 2 ^ n) by (apply Z.pow_le_mono_r; lia). unfold fits. destruct (Z.odd c); lia.
Qed.

Lemma crc_steps_fits n c : fits (32 + Z.of_nat n) c -> fits 32 (crc_steps n c).
Proof.
  revert c. induction n as [|n IH]; intros c Hc; [by rewrite Z.add_0_r in Hc|].
  rewrite crc_steps_S. apply IH, crc_step_fits; [lia|].
  by replace (32 + Z.of_nat n + 1) with (32 + Z.of_nat (Datatypes.S n)) by lia.
Qed.

Lemma clmul_step (b : bool) q p : 0 <= q ->
  clmul (2 * q + Z.b2z b) p = Z.lxor (if b then p else 0) (2 * clmul q p).
Proof. intros Hq. destruct q as [|q|q]; [by destruct b; simpl; rewrite ?Z.lxor_0_r| |lia]. by destruct b. Qed.

Lemma odd_split z : z = 2 * Z.shiftr z 1 + Z.b2z (Z.odd z).
Proof. rewrite <- Z.div2_spec. apply Z.div2_odd. Qed.

Lemma double_odd x y b c : 2 * x + Z.b2z b = 2 * y + Z.b2z c -> x = y /\ b = c.
Proof. intros H. destruct b, c; cbn [Z.b2z] in H; (split; [|done || lia]); lia. Qed.

Lemma lxor_double x y b c : Z.lxor (2 * x + Z.b2z b) (2 * y + Z.b2z c) = 2 * Z.lxor x y + Z.b2z (xorb b c).
Proof.
  apply Z.bits_inj'. intros i Hi. rewrite Z.lxor_spec. destruct (decide (i = 0)) as [->|].
  - rewrite !Z.testbit_0_r. reflexivity.
  - replace i with (Z.succ (i - 1)) by lia. rewrite !Z.testbit_succ_r by lia. by rewrite Z.lxor_spec.
Qed.

(** One step of the division: the lowest bit tells the bit of the quotient. *)
Lemma division_step m r n b q : 0 <= q ->
  Z.lxor m (clmul (2 * q + Z.b2z b) crc32c_poly) = Z.shiftl r (Z.of_nat (Datatypes.S n))
  <-> b = Z.odd m /\ Z.lxor (crc_step m) (clmul q crc32c_poly) = Z.shiftl r (Z.of_nat n).
Proof.
  intros Hq. rewrite clmul_step by done.
  replace (Z.shiftl r (Z.of_nat (Datatypes.S n))) with (2 * Z.shiftl r (Z.of_nat n) + Z.b2z false).
  2: { rewrite !Z.shiftl_mul_pow2, Nat2Z.inj_succ, Z.pow_succ_r by lia. cbn [Z.b2z]. lia. }
  assert ((if b then crc32c_poly else 0) = 2 * (if b then 0x82F63B78 else 0) + Z.b2z b) as ->.
  { by destruct b. }
  pose proof (odd_split m) as Em. set (x := clmul q crc32c_poly). set (g := if b then _ else _).
  rewrite Em at 1. replace (2 * x) with (2 * x + Z.b2z false) by (cbn [Z.b2z]; lia).
  rewrite !lxor_double. unfold crc_step.
  split.
  - intros [H Hb]%double_odd. rewrite xorb_false_r in Hb. apply xorb_eq in Hb as ->. split; [done|].
    rewrite <- H, Z.lxor_assoc. done.
  - intros [-> H]. subst g. rewrite xorb_false_r, xorb_nilpotent. rewrite <- H, Z.lxor_assoc. done.
Qed.

Theorem remainder_iff n m r : fits (32 + Z.of_nat n) m ->
  remainder (Z.of_nat n) m r <-> r = crc_steps n m.
Proof.
  revert m. induction n as [|n IH]; intros m Hm.
  - unfold remainder, fits in *. rewrite Z.add_0_r in Hm. cbn [Z.of_nat]. split.
    + intros (_ & q & Hq & E). replace q with 0 in E by lia. cbn [clmul] in E.
      rewrite Z.lxor_0_r, Z.shiftl_0_r in E. done.
    + intros ->. split; [done|]. exists 0. split; [lia|]. cbn [clmul]. by rewrite Z.lxor_0_r, Z.shiftl_0_r.
  - assert (fits (32 + Z.of_nat n) (crc_step m)) as Hs.
    { apply crc_step_fits; [lia|]. by replace (32 + Z.of_nat n + 1) with (32 + Z.of_nat (Datatypes.S n)) by lia. }
    rewrite crc_steps_S, <- (IH _ Hs). unfold remainder, fits.
    replace (2 ^ Z.of_nat (Datatypes.S n)) with (2 * 2 ^ Z.of_nat n) by (rewrite Nat2Z.inj_succ, Z.pow_succ_r; lia).
    split; intros (Hr & q & Hq & E); (split; [done|]).
    + pose proof (odd_split q) as Eq. set (q' := Z.shiftr q 1) in *. set (b := Z.odd q) in *.
      exists q'. assert (0 <= q') by (destruct b; cbn [Z.b2z] in Eq; lia).
      split; [destruct b; cbn [Z.b2z] in Eq; lia|]. rewrite Eq in E. by apply division_step in E as [_ E].
    + exists (2 * q + Z.b2z (Z.odd m)). split; [destruct (Z.odd m); cbn [Z.b2z]; lia|].
      apply division_step; [lia|done].
Qed.

(** ** The tables *)

Lemma crc32c_entry_ok n i : 0 <= n < 8 -> fits 8 i ->
  crc32c_entry n i = Some (crc_steps (8 * Datatypes.S (Z.to_nat n)) i).
Proof.
  intros Hn Hi.
  assert (forallb (fun n => forallb (fun i => bool_decide
    (crc32c_entry (Z.of_nat n) (Z.of_nat i) = Some (crc_steps (8 * Datatypes.S n) (Z.of_nat i)))) (seq 0 256)) (seq 0 8) = true)
    as H by (vm_compute; reflexivity).
  rewrite forallb_forall in H. specialize (H (Z.to_nat n)). rewrite in_seq, forallb_forall in H.
  specialize (H ltac:(lia) (Z.to_nat i)). unfold fits in Hi. rewrite in_seq, bool_decide_eq_true in H.
  specialize (H ltac:(lia)). by rewrite !Z2Nat.id in H by lia.
Qed.

Lemma land_byte x : Z.land x 0xff = x mod 2 ^ 8.
Proof. by apply (land_mask x 8). Qed.

Lemma crc32_upd_ok x n k : 1 <= n < 8 -> Z.of_nat k = 8 * (n - 1) ->
  exists u, CRC32_UPD x n = Some u
    /\ crc_steps (k + 16) x = Z.lxor u (crc_steps k (Z.shiftr x 16)).
Proof.
  intros Hn Hk. unfold CRC32_UPD. rewrite !land_byte.
  rewrite !crc32c_entry_ok by first [lia|apply (wrap_fits 8); lia]. cbn [mbind option_bind].
  eexists. split; [reflexivity|].
  replace (8 * Datatypes.S (Z.to_nat n))%nat with (k + 16)%nat by lia.
  replace (8 * Datatypes.S (Z.to_nat (n - 1)))%nat with (k + 8)%nat by lia.
  rewrite Z.lxor_assoc. replace (k + 16)%nat with ((k + 8) + 8)%nat by lia.
  rewrite (crc_steps_split (k + 8) 8 x) at 1. f_equal.
  rewrite (crc_steps_split k 8 (Z.shiftr x (Z.of_nat 8))). f_equal.
Qed.

(** ** The functions on words *)

(** A word is looked up in four tables; it is followed by [k] more bits. *)
Lemma crc32_word_ok x n k : fits 32 x -> 3 <= n < 8 -> Z.of_nat k = 8 * (n - 3) ->
  exists u v, CRC32_UPD x n = Some u /\ CRC32_UPD (Z.shiftr x 16) (n - 2) = Some v
    /\ crc_steps (k + 32) x = Z.lxor u v.
Proof.
  intros Hx Hn Hk.
  destruct (crc32_upd_ok x n (k + 16) ltac:(lia) ltac:(lia)) as (u & Eu & Hu).
  destruct (crc32_upd_ok (Z.shiftr x 16) (n - 2) k ltac:(lia) ltac:(lia)) as (v & Ev & Hv).
  exists u, v. split; [done|]. split; [done|]. replace (k + 32)%nat with (k + 16 + 16)%nat by lia.
  rewrite Hu, Hv, Z.shiftr_shiftr by lia. f_equal.
  assert (Z.shiftr x (16 + 16) = 0) as ->.
  { rewrite Z.shiftr_div_pow2 by lia. by apply Z.div_small. }
  assert (crc_steps k 0 = 0) as -> by (pose proof (crc_steps_shiftl k 0) as E; by rewrite Z.shiftl_0_l in E).
  apply Z.lxor_0_r.
Qed.

Lemma lxor_low_high c d : fits 32 c -> fits 64 d ->
  u32 (Z.lxor c d) = Z.lxor c (u32 d) /\ Z.shiftr (Z.lxor c d) 32 = Z.shiftr d 32.
Proof.
  intros Hc Hd. split.
  - by rewrite wrap_lxor, (wrap_small 32 c Hc) by lia.
  - rewrite Z.shiftr_lxor. assert (Z.shiftr c 32 = 0) as -> by (rewrite Z.shiftr_div_pow2 by lia; by apply Z.div_small).
    apply Z.lxor_0_l.
Qed.

Lemma high_word d : fits 64 d -> u32 (Z.shiftr d 32) = Z.shiftr d 32 /\ fits 32 (Z.shiftr d 32).
Proof.
  intros Hd. assert (fits 32 (Z.shiftr d 32)) as Hf.
  { unfold fits in *. rewrite Z.shiftr_div_pow2 by lia. split; [apply Z.div_pos; lia|apply Z.div_lt_upper_bound; lia]. }
  split; [by apply wrap_small|done].
Qed.

(** Two words, one after the other. *)
Lemma crc_steps_64 c d : fits 32 c -> fits 64 d ->
  crc_steps 64 (Z.lxor c d) = crc_steps 32 (Z.lxor (crc_steps 32 (Z.lxor c (u32 d))) (u32 (Z.shiftr d 32))).
Proof.
  intros Hc Hd. rewrite (crc_steps_split 32 32 (Z.lxor c d)) at 1. change (Z.of_nat 32) with 32.
  destruct (lxor_low_high c d Hc Hd) as [El Eh]. unfold wrap at 1 in El. rewrite El, Eh.
  destruct (high_word d Hd) as [-> _]. by rewrite crc_steps_add, (crc_steps_lxor 32 (crc_steps 32 _)).
Qed.

Section words.
Context (data init_val : Z) (Hi : fits 32 init_val).

Lemma crc32c_1byte_ok : crc32c_1byte data init_val = Some (crc_steps 8 (Z.lxor init_val data)).
Proof.
  unfold crc32c_1byte. cbv zeta. rewrite land_byte, crc32c_entry_ok by first [lia|apply (wrap_fits 8); lia].
  cbn [mbind option_bind]. f_equal. symmetry. apply (crc_steps_split 0 8).
Qed.

Lemma crc32c_2bytes_ok : crc32c_2bytes data init_val = Some (crc_steps 16 (Z.lxor init_val data)).
Proof.
  unfold crc32c_2bytes. cbv zeta. destruct (crc32_upd_ok (Z.lxor init_val data) 1 0 ltac:(lia) ltac:(lia)) as (u & -> & Eu).
  cbn [mbind option_bind]. f_equal. symmetry. exact Eu.
Qed.

Lemma crc32c_1word_ok : fits 32 data -> crc32c_1word data init_val = Some (crc_steps 32 (Z.lxor init_val data)).
Proof.
  intros Hd. unfold crc32c_1word. cbv zeta.
  destruct (crc32_word_ok (Z.lxor init_val data) 3 0) as (u & v & -> & Ev & E); [apply fits_lxor; done || lia|lia..|].
  cbn [mbind option_bind]. change (3 - 2) with 1 in Ev. rewrite Ev. cbn [mbind option_bind]. f_equal. symmetry. exact E.
Qed.

Lemma crc32c_2words_ok : fits 64 data -> crc32c_2words data init_val = Some (crc_steps 64 (Z.lxor init_val data)).
Proof.
  intros Hd. destruct (high_word data Hd) as [Eh Hh]. unfold crc32c_2words. cbv zeta. rewrite Eh.
  assert (fits 32 (u32 data)) as Hl by (apply (wrap_fits 32); lia).
  destruct (crc32_word_ok (Z.lxor init_val (u32 data)) 7 32) as (u & v & -> & Ev & E); [apply fits_lxor; done || lia|lia..|].
  cbn [mbind option_bind]. change (7 - 2) with 5 in Ev. rewrite Ev. cbn [mbind option_bind].
  destruct (crc32_word_ok (Z.shiftr data 32) 3 0) as (u' & v' & -> & Ev' & E'); [done|lia..|].
  cbn [mbind option_bind]. change (3 - 2) with 1 in Ev'. rewrite Ev'. cbn [mbind option_bind]. f_equal.
  rewrite crc_steps_64, Eh, (crc_steps_lxor 32 (crc_steps 32 _)), <- crc_steps_add by done. f_equal; symmetry; [exact E|exact E'].
Qed.
End words.

Section machines.
Context {sse : Sse42} {L : LawfulSse42 sse} (ar : arch) (alg : Z).

(** Whatever the machine and the algorithm. *)
Lemma rte_hash_crc_words data c : fits 32 c ->
  (fits 8 data -> rte_hash_crc_1byte ar alg data c = Some (crc_steps 8 (Z.lxor c data)))
  /\ (fits 16 data -> rte_hash_crc_2byte ar alg data c = Some (crc_steps 16 (Z.lxor c data)))
  /\ (fits 32 data -> rte_hash_crc_4byte ar alg data c = Some (crc_steps 32 (Z.lxor c data)))
  /\ (fits 64 data -> rte_hash_crc_8byte ar alg data c = Some (crc_steps 64 (Z.lxor c data))).
Proof.
  intros Hc. unfold rte_hash_crc_1byte, rte_hash_crc_2byte, rte_hash_crc_4byte, rte_hash_crc_8byte.
  assert (forall w, 32 <= w -> fits w c) as Hw.
  { intros w ?. assert (2 ^ 32 <= 2 ^ w) by (apply Z.pow_le_mono_r; lia). unfold fits in *. lia. }
  assert (forall w, 0 <= w <= 64 -> fits w data -> fits (32 + w) (Z.lxor c data)) as Hx.
  { intros w ? Hd. apply fits_lxor; [lia|apply Hw; lia|].
    assert (2 ^ w <= 2 ^ (32 + w)) by (apply Z.pow_le_mono_r; lia). unfold fits in *. lia. }
  split_and!; intros Hd; repeat case_match.
  all: try (by rewrite ?crc32c_1byte_ok, ?crc32c_2bytes_ok, ?crc32c_1word_ok, ?crc32c_2words_ok).
  - f_equal. apply (remainder_iff 8); [by apply Hx|by apply crc32b_law].
  - f_equal. apply (remainder_iff 16); [by apply Hx|by apply crc32w_law].
  - f_equal. apply (remainder_iff 32); [by apply Hx|by apply crc32l_law].
  - f_equal. pose proof (crc32q_law data c Hd (Hw 64 ltac:(lia))) as R. rewrite (wrap_small 32 c Hc) in R.
    unfold crc32c_sse42_u64. rewrite wrap_small by apply R.
    apply (remainder_iff 64) in R; [done|by apply Hx].
  - f_equal. unfold crc32c_sse42_u64_mimic, crc32c_sse42_u32.
    assert (fits 32 (u32 data)) as Fl by (apply (wrap_fits 32); lia).
    assert (fits 32 (u32 (Z.shiftr data 32))) as Fh by (apply (wrap_fits 32); lia).
    assert (forall d x, fits 32 d -> fits 32 x -> crc32l d x = crc_steps 32 (Z.lxor x d)) as E.
    { intros d x Hd' Hx'. apply (remainder_iff 32); [|by apply crc32l_law].
      apply (Z.lxor_comm x d) || idtac. apply fits_lxor; unfold fits in *; lia. }
    assert (forall x d, fits 32 x -> fits 32 d -> fits 32 (crc_steps 32 (Z.lxor x d))) as F.
    { intros x d Hx' Hd'. apply crc_steps_fits, fits_lxor; unfold fits in *; lia. }
    rewrite (wrap_small 32 c Hc), (E _ c) by done. rewrite (wrap_small 32 (crc_steps _ _)) by by apply F.
    rewrite E, crc_steps_64 by auto. apply wrap_small. auto.
Qed.
End machines.

(** ** Messages *)

(** The number with the bytes [l], least significant first. *)
Definition le_value (l : list Z) : Z := foldr (fun b v => b + 2 ^ 8 * v) 0 l.

Definition crc_message (c : Z) (l : list Z) : Z := crc_steps (8 * length l) (Z.lxor c (le_value l)).

Lemma le_value_fits l : Forall (fits 8) l -> fits (8 * Z.of_nat (length l)) (le_value l).
Proof.
  induction 1 as [|b l Hb _ IH]; [unfold fits; simpl; lia|]. cbn [length le_value foldr]. fold (le_value l).
  replace (8 * Z.of_nat (Datatypes.S (length l))) with (8 + 8 * Z.of_nat (length l)) by lia.
  unfold fits in *. rewrite Z.pow_add_r by lia. nia.
Qed.

Lemma lxor_disjoint x y k : 0 <= k -> fits k x -> Z.lxor x (Z.shiftl y k) = x + 2 ^ k * y.
Proof.
  intros Hk Hx. rewrite Z.lxor_lor.
  - rewrite Z.shiftl_mul_pow2, lor_disjoint by done. lia.
  - apply Z.bits_inj'. intros i Hi. rewrite Z.land_spec, Z.bits_0. destruct (decide (i < k)).
    + by rewrite (Z.shiftl_spec_low _ _ i), andb_false_r by lia.
    + by rewrite (testbit_beyond k x i) by (done || lia).
Qed.

Lemma le_value_app l1 l2 : Forall (fits 8) l1 ->
  le_value (l1 ++ l2) = Z.lxor (le_value l1) (Z.shiftl (le_value l2) (8 * Z.of_nat (length l1))).
Proof.
  intros F. rewrite lxor_disjoint; [|lia|by apply le_value_fits].
  clear F. induction l1 as [|b l1 IH]; [change (8 * Z.of_nat (length (@nil Z))) with 0; rewrite Z.pow_0_r; cbn [app]; change (le_value []) with 0; lia|].
  cbn [app length]. unfold le_value in *. cbn [foldr]. rewrite IH.
  replace (8 * Z.of_nat (Datatypes.S (length l1))) with (8 + 8 * Z.of_nat (length l1)) by lia.
  rewrite Z.pow_add_r by lia. ring.
Qed.

Lemma crc_message_app c l1 l2 : Forall (fits 8) l1 ->
  crc_message c (l1 ++ l2) = crc_message (crc_message c l1) l2.
Proof.
  intros F. unfold crc_message. rewrite length_app, le_value_app by done.
  replace (8 * (length l1 + length l2))%nat with (8 * length l1 + 8 * length l2)%nat by lia.
  rewrite crc_steps_add, <- Z.lxor_assoc. f_equal. rewrite crc_steps_lxor. f_equal.
  replace (8 * Z.of_nat (length l1)) with (Z.of_nat (8 * length l1)) by lia. apply crc_steps_shiftl.
Qed.

Lemma crc_message_fits c l : fits 32 c -> Forall (fits 8) l -> fits 32 (crc_message c l).
Proof.
  intros Hc F. apply crc_steps_fits, (fits_lxor_wider _ (8 * Z.of_nat (length l))); try lia; [done|].
  by apply le_value_fits.
Qed.

(** The words read are the numbers with their bytes. *)
Lemma ld_words mem a l : bytes_at mem a l ->
  (length l = 8%nat -> ld64 mem a = Some (le_value l))
  /\ (length l = 4%nat -> ld32 mem a = Some (le_value l))
  /\ (length l = 2%nat -> ld16 mem a = Some (le_value l))
  /\ (length l = 1%nat -> mem a = Some (le_value l)).
Proof.
  intros H.
  assert (length l = 8 \/ length l = 4 \/ length l = 2 \/ length l = 1 \/ ~ (length l = 8 \/ length l = 4 \/ length l = 2 \/ length l = 1))%nat
    as [E|[E|[E|[E|E]]]] by lia; [| | | |split_and!; lia].
  all: repeat (destruct l as [|? l]; try discriminate E); clear E; rewrite !bytes_at_cons in H; rewrite <- ?Z.add_assoc in H.
  all: destruct_and!; split_and!; try discriminate; intros _; unfold ld64, ld32, ld16; rewrite <- ?Z.add_assoc.
  all: cbn [Z.add Pos.add Pos.succ] in *; repeat (simplify_option_eq); cbn [le_value foldr]; first [apply (f_equal Some)|etransitivity; [eassumption|apply (f_equal Some)]]; lia.
Qed.

Section message.
Context {sse : Sse42} {L : LawfulSse42 sse} (ar : arch) (alg : Z) (mem : memory).

(** A word of the message, of any of the four sizes. *)
Lemma word_hashed a l c : bytes_at mem a l -> fits 32 c ->
  (length l = 8%nat -> (d ← ld64 mem a ; rte_hash_crc_8byte ar alg d c) = Some (crc_message c l))
  /\ (length l = 4%nat -> (d ← ld32 mem a ; rte_hash_crc_4byte ar alg d c) = Some (crc_message c l))
  /\ (length l = 2%nat -> (d ← ld16 mem a ; rte_hash_crc_2byte ar alg d c) = Some (crc_message c l))
  /\ (length l = 1%nat -> (d ← mem a ; rte_hash_crc_1byte ar alg d c) = Some (crc_message c l)).
Proof.
  intros H Hc. destruct (ld_words mem a l H) as (H8 & H4 & H2 & H1).
  pose proof (le_value_fits l (bytes_at_fits _ _ _ H)) as F.
  destruct (rte_hash_crc_words ar alg (le_value l) c Hc) as (W1 & W2 & W4 & W8).
  unfold crc_message.
  split_and!; intros E; rewrite E in *; [rewrite H8 by done|rewrite H4 by done|rewrite H2 by done|rewrite H1 by done];
    cbn [mbind option_bind]; [apply W8|apply W4|apply W2|apply W1]; exact F.
Qed.

Lemma crc_8bytes_ok n : forall pd l c, bytes_at mem pd l -> length l = (8 * n)%nat -> fits 32 c ->
  crc_8bytes ar alg mem n pd c = Some (crc_message c l, pd + Z.of_nat (8 * n)).
Proof.
  induction n as [|n IH]; intros pd l c H Hl Hc.
  - destruct l; [|done]. cbn [crc_8bytes]. f_equal. f_equal; [|lia].
    unfold crc_message. cbn. by rewrite Z.lxor_0_r.
  - rewrite <- (take_drop 8 l) in H |- *. apply bytes_at_app in H as [H1 H2].
    assert (length (take 8 l) = 8%nat) as L8 by (rewrite length_take; lia). rewrite L8 in H2.
    pose proof (bytes_at_fits _ _ _ H1) as F.
    destruct (word_hashed pd (take 8 l) c H1 Hc) as (E & _). specialize (E L8).
    cbn [crc_8bytes]. destruct (ld64 mem pd) as [d|]; [|done]. cbn [mbind option_bind] in E |- *. rewrite E.
    cbn [mbind option_bind]. change (Z.of_nat 8) with 8 in H2.
    rewrite (IH _ (drop 8 l)) by (done || rewrite ?length_drop; try lia; by apply crc_message_fits).
    rewrite crc_message_app by done. f_equal. f_equal. lia.
Qed.

(** The test of a bit of the length, and the bytes it stands for. *)
Lemma tail_hashed k (o : option Z) (g : Z -> option Z) pd (b : bool) l c :
  (length l = if b then k else 0)%nat ->
  (b = true -> (d ← o ; g d) = Some (crc_message c l)) ->
  (if b then d ← o ; x ← g d ; Some (x, pd + Z.of_nat k) else Some (c, pd))
    = Some (crc_message c l, pd + Z.of_nat (length l)).
Proof.
  intros Hl Hf. destruct b.
  - specialize (Hf eq_refl). destruct o as [d|]; [|done]. cbn [mbind option_bind] in *. rewrite Hf, Hl. done.
  - destruct l; [|done]. cbn [length]. rewrite Z.add_0_r. f_equal. f_equal. unfold crc_message. cbn.
    by rewrite Z.lxor_0_r.
Qed.

Lemma bit_split n : 0 <= n ->
  n = 8 * (n / 8) + (if truthy (Z.land n 4) then 4 else 0) + (if truthy (Z.land n 2) then 2 else 0)
      + (if truthy (Z.land n 1) then 1 else 0).
Proof.
  intros Hn. pose proof (Z.div_mod n 8 ltac:(lia)). pose proof (Z.mod_pos_bound n 8 ltac:(lia)) as Hm.
  assert (forall m, 0 <= m < 8 -> Z.land n m = Z.land (n mod 8) m) as E.
  { intros m Hm'. apply Z.bits_inj'. intros i Hi. rewrite !Z.land_spec. destruct (decide (i < 3)).
    - change 8 with (2 ^ 3). by rewrite Z.mod_pow2_bits_low by lia.
    - by rewrite (testbit_beyond 3 m), !andb_false_r by (unfold fits; lia). }
  rewrite !E by lia. set (m := n mod 8) in *.
  assert (m = 0 \/ m = 1 \/ m = 2 \/ m = 3 \/ m = 4 \/ m = 5 \/ m = 6 \/ m = 7) as C by lia.
  destruct C as [C|[C|[C|[C|[C|[C|[C|C]]]]]]]; rewrite C in *; simpl; lia.
Qed.

(** The message in words of 8, 4, 2 and 1 bytes, as the bits of its length say. *)
Lemma message_parts (l : list Z) : let n := Z.of_nat (length l) in
  exists l8 l4 l2 l1, l = l8 ++ l4 ++ l2 ++ l1
    /\ length l8 = (8 * Z.to_nat (n / 8))%nat
    /\ length l4 = (if truthy (Z.land n 4) then 4 else 0)%nat
    /\ length l2 = (if truthy (Z.land n 2) then 2 else 0)%nat
    /\ length l1 = (if truthy (Z.land n 1) then 1 else 0)%nat.
Proof.
  intros n. pose proof (bit_split n ltac:(lia)) as Hn. assert (0 <= n / 8) by (apply Z.div_pos; lia).
  set (n8 := (8 * Z.to_nat (n / 8))%nat).
  set (n4 := (if truthy (Z.land n 4) then 4 else 0)%nat). set (n2 := (if truthy (Z.land n 2) then 2 else 0)%nat).
  set (n1 := (if truthy (Z.land n 1) then 1 else 0)%nat).
  assert (length l = n8 + (n4 + (n2 + n1)))%nat by (unfold n8, n4, n2, n1; repeat case_match; lia).
  exists (take n8 l), (take n4 (drop n8 l)), (take n2 (drop n4 (drop n8 l))), (drop n2 (drop n4 (drop n8 l))).
  rewrite !take_drop, !length_take, !length_drop. split_and!; [done|lia..].
Qed.

Lemma hash_crc_message l a c : bytes_at mem a l -> fits 32 c ->
  rte_hash_crc ar alg mem a (Z.of_nat (length l)) c = Some (crc_message c l).
Proof.
  intros H Hc. destruct (message_parts l) as (l8 & l4 & l2 & l1 & El & E8 & E4 & E2 & E1).
  unfold rte_hash_crc. set (n := Z.of_nat (length l)) in *. clearbody n. subst l.
  apply bytes_at_app in H as [H8 H]. apply bytes_at_app in H as [H4 H]. apply bytes_at_app in H as [H2 H1].
  pose proof (bytes_at_fits _ _ _ H8) as F8. pose proof (bytes_at_fits _ _ _ H4) as F4.
  pose proof (bytes_at_fits _ _ _ H2) as F2. pose proof (crc_message_fits c l8 Hc F8) as C8.
  pose proof (crc_message_fits _ l4 C8 F4) as C4. pose proof (crc_message_fits _ l2 C4 F2) as C2.
  rewrite !crc_message_app by done. rewrite (crc_8bytes_ok _ a l8 c H8 E8 Hc). cbn [mbind option_bind].
  rewrite <- E8.
  destruct (word_hashed _ l4 _ H4 C8) as (_ & W4 & _). destruct (word_hashed _ l2 _ H2 C4) as (_ & _ & W2 & _).
  destruct (word_hashed _ l1 _ H1 C2) as (_ & _ & _ & W1).
  rewrite (tail_hashed 4 (ld32 mem _) (fun d => rte_hash_crc_4byte ar alg d _) _ _ l4 _ E4)
    by (intros B; rewrite B in E4; by apply W4). cbn [mbind option_bind].
  rewrite (tail_hashed 2 (ld16 mem _) (fun d => rte_hash_crc_2byte ar alg d _) _ _ l2 _ E2)
    by (intros B; rewrite B in E2; by apply W2). cbn [mbind option_bind].
  destruct (truthy (Z.land n 1)); [by apply W1|].
  destruct l1; [|done]. unfold crc_message at 4. cbn. by rewrite Z.lxor_0_r.
Qed.
End message.

(** ** Bursts of errors *)

(** The top bit of the reversed polynomial is set, so a step loses nothing. *)
Lemma crc_step_nonzero e : 0 < e < 2 ^ 32 -> 0 < crc_step e < 2 ^ 32.
Proof.
  intros He. assert (fits 32 (crc_step e)) as F.
  { apply crc_step_fits; [lia|]. unfold fits. change (2 ^ (32 + 1)) with (2 * 2 ^ 32). lia. }
  unfold fits in F. assert (crc_step e <> 0); [|lia]. intros E.
  pose proof (odd_split e) as Es. unfold crc_step in E. apply Z.lxor_eq in E. rewrite E in Es.
  destruct (Z.odd e); cbn [Z.b2z] in Es; lia.
Qed.

Lemma crc_steps_nonzero n e : 0 < e < 2 ^ 32 -> 0 < crc_steps n e < 2 ^ 32.
Proof. revert e. induction n as [|n IH]; intros e He; [done|]. rewrite crc_steps_S. by apply IH, crc_step_nonzero. Qed.

(** Two messages that differ in at most 32 neighbouring bits. *)
Lemma crc_message_burst c l l' e j : length l = length l' -> Forall (fits 8) l -> Forall (fits 8) l' ->
  0 < e < 2 ^ 32 -> 0 <= j -> Z.lxor (le_value l) (le_value l') = Z.shiftl e j ->
  crc_message c l <> crc_message c l'.
Proof.
  intros Hl F F' He Hj Hd E. unfold crc_message in E. rewrite <- Hl in E.
  apply Z.lxor_eq_0_iff in E. rewrite <- crc_steps_lxor in E.
  replace (Z.lxor (Z.lxor c (le_value l)) (Z.lxor c (le_value l'))) with (Z.shiftl e j) in E.
  2: { rewrite <- Hd. rewrite (Z.lxor_comm c), <- Z.lxor_assoc, (Z.lxor_assoc _ c c), Z.lxor_nilpotent. by rewrite Z.lxor_0_r. }
  assert (j < 8 * Z.of_nat (length l)) as Hj'.
  { pose proof (fits_lxor (8 * Z.of_nat (length l)) _ _ ltac:(lia) (le_value_fits l F)
      ltac:(rewrite Hl; by apply le_value_fits)) as Fd. rewrite Hd, Z.shiftl_mul_pow2 in Fd by done.
    destruct (decide (j < 8 * Z.of_nat (length l))) as [|Hn]; [done|]. unfold fits in Fd.
    assert (2 ^ (8 * Z.of_nat (length l)) <= 2 ^ j) by (apply Z.pow_le_mono_r; lia). nia. }
  replace (8 * length l)%nat with (Z.to_nat j + (8 * length l - Z.to_nat j))%nat in E by lia.
  rewrite crc_steps_add in E. replace j with (Z.of_nat (Z.to_nat j)) in E at 3 by lia.
  rewrite crc_steps_shiftl in E. pose proof (crc_steps_nonzero (8 * length l - Z.to_nat j) e He). lia.
Qed.

(** ** Properties *)

(** C22. The hash is CRC32C: on every machine and with every algorithm chosen,
    [rte_hash_crc] reads the bytes of the key only, and gives the one remainder
    of the division of the key, added to the initial value, by the polynomial
    0x11EDC6F41; so keys of one length that differ in at most 32 neighbouring
    bits never collide. *)
Theorem hash_crc_is_crc32c {sse : Sse42} {L : LawfulSse42 sse} ar alg mem a c l :
  bytes_at mem a l -> fits 32 c ->
  exists r, rte_hash_crc ar alg mem a (Z.of_nat (length l)) c = Some r
    /\ (forall x, remainder (8 * Z.of_nat (length l)) (Z.lxor c (le_value l)) x <-> x = r)
    /\ (forall ar' alg' mem' a' l' e j r', bytes_at mem' a' l' -> length l' = length l ->
          0 < e < 2 ^ 32 -> 0 <= j -> Z.lxor (le_value l) (le_value l') = Z.shiftl e j ->
          rte_hash_crc ar' alg' mem' a' (Z.of_nat (length l')) c = Some r' -> r' <> r).
Proof.
  intros H Hc. exists (crc_message c l). split_and!; [by apply hash_crc_message| |].
  - intros x. replace (8 * Z.of_nat (length l)) with (Z.of_nat (8 * length l)) by lia. apply remainder_iff.
    apply (fits_lxor_wider _ (8 * Z.of_nat (length l))); try lia; [done|]. eapply le_value_fits, bytes_at_fits, H.
  - intros ar' alg' mem' a' l' e j r' H' Hl He Hj Hd E. rewrite hash_crc_message in E by done. injection E as <-.
    apply not_eq_sym. apply (crc_message_burst c l l' e j); try done; by eapply bytes_at_fits.
Qed.

(** The instructions as the manuals of the processor describe them. *)
#[global] Instance intel_sse42 : Sse42 := {|
  crc32b d c := crc_steps 8 (Z.lxor c d); crc32w d c := crc_steps 16 (Z.lxor c d);
  crc32l d c := crc_steps 32 (Z.lxor c d); crc32q d c := crc_steps 64 (Z.lxor (u32 c) d)
|}.

#[global] Instance intel_lawful : LawfulSse42 intel_sse42.
Proof.
  split; intros d c Hd Hc; cbn [crc32b crc32w crc32l crc32q intel_sse42].
  - apply (remainder_iff 8); [|done]. by apply (fits_lxor_wider _ 8); done || lia.
  - apply (remainder_iff 16); [|done]. by apply (fits_lxor_wider _ 16); done || lia.
  - apply (remainder_iff 32); [|done]. by apply (fits_lxor_wider _ 32); done || lia.
  - apply (remainder_iff 64); [|done]. apply (fits_lxor_wider _ 64); done || lia || (apply (wrap_fits 32); lia).
Qed.

(** The check value of CRC32C: the digits 1 to 9, all ones before and after. *)
Lemma hash_crc_is_crc32c_witness :
  (exists r, rte_hash_crc (mk_arch true true) CRC32_SSE42_x64 (local_mem [49;50;51;52;53;54;55;56;57]) 0 9 0xFFFFFFFF = Some r
    /\ forall x, remainder 72 (Z.lxor 0xFFFFFFFF (le_value [49;50;51;52;53;54;55;56;57])) x <-> x = r)
  /\ rte_hash_crc (mk_arch false false) CRC32_SW (local_mem [49;50;51;52;53;54;55;56;57]) 0 9 0xFFFFFFFF
     = Some (Z.lxor 0xE3069283 0xFFFFFFFF).
Proof.
  split; [|vm_compute; reflexivity].
  destruct (hash_crc_is_crc32c (mk_arch true true) CRC32_SSE42_x64 (local_mem [49;50;51;52;53;54;55;56;57]) 0 0xFFFFFFFF
    [49;50;51;52;53;54;55;56;57]) as (r & E & R & _);
    [apply bytes_at_local; repeat constructor; unfold fits; lia|unfold fits; lia|].
  exists r. split; [exact E|exact R].
Defined.
