(* ===== verification/TableHash.v ===== *)
(** * Hash functions of the tables ([include/rte_table_hash_func.h]).

    Hashes of keys of 8 to 64 bytes under a mask, from CRC32C of pairs of
    words, with the instruction of the processor or in software. *)
From stdpp Require Import prelude list numbers gmap.
From S2P Require Import Prelude Bits Bytes HashCrc HashCrcSpec.
Open Scope Z_scope.

(** [for (i = 63; i >= 0; i--)], the rounds that are left. *)
Fixpoint crc32_rounds (n : nat) (crc : Z) : Z :=
  match n with
  | O => crc
  | Datatypes.S n =>
      let mask := u64 (- Z.land crc 1) in
      crc32_rounds n (Z.lxor (Z.shiftr crc 1) (Z.land 0x82F63B78 mask))
  end.

Definition rte_crc32_u64_generic (crc value : Z) : Z :=
  crc32_rounds 64 (Z.lxor (Z.land crc 0xFFFFFFFF) value).

Section functions.
Context {sse : Sse42} (x86_64 : bool).

(** [_mm_crc32_u64] is the instruction [crc32q]. *)
Definition rte_crc32_u64 (crc v : Z) : Z := if x86_64 then crc32q v crc else rte_crc32_u64_generic crc v.

Context (mem : memory) (key mask : Z).

(** [k[i] & m[i]] *)
Definition masked_word (i : Z) : option Z :=
  k ← ld64 mem (key + 8 * i) ; m ← ld64 mem (mask + 8 * i) ; Some (Z.land k m).

Definition rte_table_hash_crc_key8 (seed : Z) : option Z :=
  k0 ← masked_word 0 ;
  let crc0 := rte_crc32_u64 seed k0 in Some crc0.

Definition rte_table_hash_crc_key16 (seed : Z) : option Z :=
  k0 ← masked_word 0 ;
  let crc0 := rte_crc32_u64 k0 seed in
  k1 ← masked_word 1 ;
  let crc1 := rte_crc32_u64 (Z.shiftr k0 32) k1 in
  Some (Z.lxor crc0 crc1).

Definition rte_table_hash_crc_key24 (seed : Z) : option Z :=
  k0 ← masked_word 0 ; k2 ← masked_word 2 ;
  let crc0 := rte_crc32_u64 k0 seed in
  k1 ← masked_word 1 ;
  let crc1 := rte_crc32_u64 (Z.shiftr k0 32) k1 in
  let crc0 := rte_crc32_u64 crc0 k2 in
  Some (Z.lxor crc0 crc1).

Definition rte_table_hash_crc_key32 (seed : Z) : option Z :=
  k0 ← masked_word 0 ; k2 ← masked_word 2 ;
  let crc0 := rte_crc32_u64 k0 seed in
  k1 ← masked_word 1 ;
  let crc1 := rte_crc32_u64 (Z.shiftr k0 32) k1 in
  k3 ← masked_word 3 ;
  let crc2 := rte_crc32_u64 k2 k3 in
  let crc3 := Z.shiftr k2 32 in
  let crc0 := rte_crc32_u64 crc0 crc1 in
  let crc1 := rte_crc32_u64 crc2 crc3 in
  Some (Z.lxor crc0 crc1).

Definition rte_table_hash_crc_key40 (seed : Z) : option Z :=
  k0 ← masked_word 0 ; k2 ← masked_word 2 ;
  let crc0 := rte_crc32_u64 k0 seed in
  k1 ← masked_word 1 ;
  let crc1 := rte_crc32_u64 (Z.shiftr k0 32) k1 in
  k3 ← masked_word 3 ;
  let crc2 := rte_crc32_u64 k2 k3 in
  k4 ← masked_word 4 ;
  let crc3 := rte_crc32_u64 (Z.shiftr k2 32) k4 in
  let crc0 := rte_crc32_u64 crc0 crc1 in
  let crc1 := rte_crc32_u64 crc2 crc3 in
  Some (Z.lxor crc0 crc1).

Definition rte_table_hash_crc_key48 (seed : Z) : option Z :=
  k0 ← masked_word 0 ; k2 ← masked_word 2 ; k5 ← masked_word 5 ;
  let crc0 := rte_crc32_u64 k0 seed in
  k1 ← masked_word 1 ;
  let crc1 := rte_crc32_u64 (Z.shiftr k0 32) k1 in
  k3 ← masked_word 3 ;
  let crc2 := rte_crc32_u64 k2 k3 in
  k4 ← masked_word 4 ;
  let crc3 := rte_crc32_u64 (Z.shiftr k2 32) k4 in
  let crc0 := rte_crc32_u64 crc0 (Z.lxor (u64 (Z.shiftl crc1 32)) crc2) in
  let crc1 := rte_crc32_u64 crc3 k5 in
  Some (Z.lxor crc0 crc1).

Definition rte_table_hash_crc_key56 (seed : Z) : option Z :=
  k0 ← masked_word 0 ; k2 ← masked_word 2 ; k5 ← masked_word 5 ;
  let crc0 := rte_crc32_u64 k0 seed in
  k1 ← masked_word 1 ;
  let crc1 := rte_crc32_u64 (Z.shiftr k0 32) k1 in
  k3 ← masked_word 3 ;
  let crc2 := rte_crc32_u64 k2 k3 in
  k4 ← masked_word 4 ;
  let crc3 := rte_crc32_u64 (Z.shiftr k2 32) k4 in
  k6 ← masked_word 6 ;
  let crc4 := rte_crc32_u64 k5 k6 in
  let crc5 := Z.shiftr k5 32 in
  let crc0 := rte_crc32_u64 crc0 (Z.lxor (u64 (Z.shiftl crc1 32)) crc2) in
  let crc1 := rte_crc32_u64 crc3 (Z.lxor (u64 (Z.shiftl crc4 32)) crc5) in
  Some (Z.lxor crc0 crc1).

Definition rte_table_hash_crc_key64 (seed : Z) : option Z :=
  k0 ← masked_word 0 ; k2 ← masked_word 2 ; k5 ← masked_word 5 ;
  let crc0 := rte_crc32_u64 k0 seed in
  k1 ← masked_word 1 ;
  let crc1 := rte_crc32_u64 (Z.shiftr k0 32) k1 in
  k3 ← masked_word 3 ;
  let crc2 := rte_crc32_u64 k2 k3 in
  k4 ← masked_word 4 ;
  let crc3 := rte_crc32_u64 (Z.shiftr k2 32) k4 in
  k6 ← masked_word 6 ;
  let crc4 := rte_crc32_u64 k5 k6 in
  k7 ← masked_word 7 ;
  let crc5 := rte_crc32_u64 (Z.shiftr k5 32) k7 in
  let crc0 := rte_crc32_u64 crc0 (Z.lxor (u64 (Z.shiftl crc1 32)) crc2) in
  let crc1 := rte_crc32_u64 crc3 (Z.lxor (u64 (Z.shiftl crc4 32)) crc5) in
  Some (Z.lxor crc0 crc1).
End functions.

(** The hash of keys of [n] words. *)
Definition table_hash {sse : Sse42} (x86_64 : bool) (n : nat) : memory -> Z -> Z -> Z -> option Z :=
  match n with
  | 1%nat => rte_table_hash_crc_key8 x86_64 | 2%nat => rte_table_hash_crc_key16 x86_64
  | 3%nat => rte_table_hash_crc_key24 x86_64 | 4%nat => rte_table_hash_crc_key32 x86_64
  | 5%nat => rte_table_hash_crc_key40 x86_64 | 6%nat => rte_table_hash_crc_key48 x86_64
  | 7%nat => rte_table_hash_crc_key56 x86_64 | _ => rte_table_hash_crc_key64 x86_64
  end.

(** * Lemmas *)

(** ** The step on 64 bits *)

Definition crc64 (crc v : Z) : Z := crc_steps 64 (Z.lxor (u32 crc) v).

Lemma crc32_rounds_steps n c : fits 64 c -> crc32_rounds n c = crc_steps n c.
Proof.
  revert c. induction n as [|n IH]; intros c Hc; [done|]. rewrite crc_steps_S. cbn [crc32_rounds].
  assert (Z.lxor (Z.shiftr c 1) (Z.land 0x82F63B78 (u64 (- Z.land c 1))) = crc_step c) as ->.
  { unfold crc_step. f_equal. change 1 with (2 ^ 1 - 1). rewrite land_mask by lia.
    rewrite <- Z.bit0_odd, Z.testbit_odd, Z.shiftr_0_r. pose proof (Zmod_odd c) as E. change (2 ^ 1) with 2.
    rewrite E. by destruct (Z.odd c). }
  apply IH. unfold crc_step. apply fits_lxor; [lia|by apply fits_shiftr|].
  unfold fits. destruct (Z.odd c); lia.
Qed.

Lemma crc64_fits c v : fits 64 v -> fits 32 (crc64 c v).
Proof.
  intros Hv. apply crc_steps_fits, (fits_lxor_wider _ 64); try lia; [apply (wrap_fits 32); lia|done].
Qed.

Lemma rte_crc32_u64_ok {sse : Sse42} {L : LawfulSse42 sse} x86_64 c v : fits 64 c -> fits 64 v ->
  rte_crc32_u64 x86_64 c v = crc64 c v.
Proof.
  intros Hc Hv. unfold rte_crc32_u64, crc64. destruct x86_64.
  - apply (remainder_iff 64); [|by apply crc32q_law].
    apply (fits_lxor_wider _ 64); try lia; [apply (wrap_fits 32); lia|done].
  - unfold rte_crc32_u64_generic. change 0xFFFFFFFF with (2 ^ 32 - 1). rewrite land_mask by lia. apply crc32_rounds_steps.
    apply (fits_lxor_wider _ 64); try lia; [apply (wrap_fits 32); lia|done].
Qed.

(** ** Differences in one half of a word *)

(** [w] and [w'] differ in 32 bits at most, the upper ones ([h = 1]) or the lower
    ones. *)
Definition half_differs (h : bool) (w w' : Z) : Prop :=
  if h then u32 w = u32 w' /\ Z.shiftr w 32 <> Z.shiftr w' 32
  else Z.shiftr w 32 = Z.shiftr w' 32 /\ u32 w <> u32 w'.

Lemma half_burst h w w' : fits 64 w -> fits 64 w' -> half_differs h w w' ->
  exists e j, 0 < e < 2 ^ 32 /\ (j <= 32)%nat /\ Z.lxor w w' = Z.shiftl e (Z.of_nat j).
Proof.
  intros Hw Hw' Hd.
  assert (forall x, fits 64 x -> x = Z.lxor (u32 x) (Z.shiftl (Z.shiftr x 32) 32)) as E.
  { intros x Hx. rewrite lxor_disjoint by (lia || (apply (wrap_fits 32); lia)).
    rewrite Z.shiftr_div_pow2 by lia. pose proof (Z.div_mod x (2 ^ 32) ltac:(lia)). unfold wrap. lia. }
  destruct (high_word w Hw) as [_ F], (high_word w' Hw') as [_ F'].
  pose proof (fits_lxor 32 _ _ ltac:(lia) F F') as Fh.
  pose proof (fits_lxor 32 _ _ ltac:(lia) (wrap_fits 32 w ltac:(lia)) (wrap_fits 32 w' ltac:(lia))) as Fl.
  unfold fits in Fh, Fl. rewrite (E w Hw), (E w' Hw').
  destruct h; destruct Hd as [-> Hn].
  - exists (Z.lxor (Z.shiftr w 32) (Z.shiftr w' 32)), 32%nat. split; [|split; [lia|]].
    + assert (Z.lxor (Z.shiftr w 32) (Z.shiftr w' 32) <> 0) by (by rewrite Z.lxor_eq_0_iff). lia.
    + rewrite Z.shiftl_lxor, (Z.lxor_comm (u32 w')), Z.lxor_assoc, <- (Z.lxor_assoc (u32 w')), Z.lxor_nilpotent.
      by rewrite Z.lxor_0_l.
  - exists (Z.lxor (u32 w) (u32 w')), 0%nat. split; [|split; [lia|]].
    + assert (Z.lxor (u32 w) (u32 w') <> 0) by (by rewrite Z.lxor_eq_0_iff). lia.
    + rewrite Z.shiftl_0_r, Z.lxor_assoc, <- (Z.lxor_assoc (Z.shiftl _ _)), (Z.lxor_comm (Z.shiftl _ _)).
      rewrite Z.lxor_assoc, Z.lxor_nilpotent. by rewrite Z.lxor_0_r.
Qed.

Lemma lxor_cancel_l c a b : Z.lxor c a = Z.lxor c b -> a = b.
Proof.
  intros E. apply (f_equal (Z.lxor c)) in E. by rewrite <- !Z.lxor_assoc, Z.lxor_nilpotent, !Z.lxor_0_l in E.
Qed.

Lemma lxor_differs_r c a b : a <> b -> Z.lxor c a <> Z.lxor c b.
Proof. intros Hn E. by apply lxor_cancel_l in E. Qed.

Lemma lxor_differs_l c a b : a <> b -> Z.lxor a c <> Z.lxor b c.
Proof. rewrite !(Z.lxor_comm _ c). apply lxor_differs_r. Qed.

Lemma half_lxor_r h c a b : half_differs h a b -> half_differs h (Z.lxor c a) (Z.lxor c b).
Proof.
  unfold half_differs. rewrite !wrap_lxor, !Z.shiftr_lxor by lia.
  destruct h; intros [-> Hn]; (split; [done|by apply lxor_differs_r]).
Qed.

Lemma half_lxor_l h c a b : half_differs h a b -> half_differs h (Z.lxor a c) (Z.lxor b c).
Proof. rewrite !(Z.lxor_comm _ c). apply half_lxor_r. Qed.

Lemma crc_steps_differ h a b : fits 64 a -> fits 64 b -> half_differs h a b -> crc_steps 64 a <> crc_steps 64 b.
Proof.
  intros Ha Hb Hd E. destruct (half_burst h a b Ha Hb Hd) as (e & j & He & Hj & Ex).
  apply Z.lxor_eq_0_iff in E. rewrite <- crc_steps_lxor, Ex in E.
  replace 64%nat with (j + (64 - j))%nat in E by lia. rewrite crc_steps_add, crc_steps_shiftl in E.
  pose proof (crc_steps_nonzero (64 - j) e He). lia.
Qed.

Lemma fits_register c v : fits 64 v -> fits 64 (Z.lxor (u32 c) v).
Proof. intros Hv. apply (fits_lxor_wider _ 64); try lia; [apply (wrap_fits 32); lia|done]. Qed.

Lemma crc64_r h c v v' : fits 64 v -> fits 64 v' -> half_differs h v v' -> crc64 c v <> crc64 c v'.
Proof. intros Hv Hv' Hd. apply (crc_steps_differ h); [by apply fits_register..|by apply half_lxor_r]. Qed.

(** Values of 32 bits. *)
Lemma small_differs a b : fits 32 a -> fits 32 b -> a <> b -> half_differs false a b.
Proof.
  intros Ha Hb Hn. unfold half_differs. rewrite !wrap_small, !Z.shiftr_div_pow2 by (done || lia).
  by rewrite !Z.div_small by done.
Qed.

Lemma crc64_l c c' v : fits 64 v -> u32 c <> u32 c' -> crc64 c v <> crc64 c' v.
Proof.
  intros Hv Hn. apply (crc_steps_differ false); [by apply fits_register..|].
  apply half_lxor_l, small_differs; [apply (wrap_fits 32); lia..|done].
Qed.

Lemma crc64_low c c' v : u32 c = u32 c' -> crc64 c v = crc64 c' v.
Proof. unfold crc64. by intros ->. Qed.

(** [((uint64_t)a << 32)] *)
Lemma high_differs a b : fits 32 a -> fits 32 b -> a <> b -> half_differs true (u64 (Z.shiftl a 32)) (u64 (Z.shiftl b 32)).
Proof.
  intros Ha Hb Hn. unfold fits in *. unfold half_differs. rewrite !Z.shiftl_mul_pow2 by lia.
  rewrite !(wrap_small 64) by (unfold fits; lia). unfold wrap. rewrite !Z.mod_mul, !Z.shiftr_div_pow2, !Z.div_mul by lia. done.
Qed.

Create HintDb crc discriminated.
Lemma fits_64_of_32 a : fits 32 a -> fits 64 a.
Proof. unfold fits. lia. Qed.
Lemma shiftr_half w : fits 64 w -> fits 32 (Z.shiftr w 32).
Proof. intros Hw. by apply high_word. Qed.
Lemma fits_u64 a : fits 64 (u64 a).
Proof. apply (wrap_fits 64). lia. Qed.
Lemma fits_lxor64 a b : fits 64 a -> fits 64 b -> fits 64 (Z.lxor a b).
Proof. apply fits_lxor. lia. Qed.
Lemma fits_lxor32 a b : fits 32 a -> fits 32 b -> fits 32 (Z.lxor a b).
Proof. apply fits_lxor. lia. Qed.
#[local] Hint Resolve fits_lxor32 crc64_fits fits_64_of_32 shiftr_half fits_u64 fits_lxor64 : crc.

Lemma u32_crc64 c v : fits 64 v -> u32 (crc64 c v) = crc64 c v.
Proof. intros Hv. by apply wrap_small, crc64_fits. Qed.
Lemma u32_shiftr w : fits 64 w -> u32 (Z.shiftr w 32) = Z.shiftr w 32.
Proof. intros Hw. by apply high_word. Qed.

(** Follows the difference from the result down to the word. *)
Ltac follow H :=
  lazymatch goal with
  | |- Z.lxor ?a ?c <> Z.lxor ?b ?c => apply lxor_differs_l; follow H
  | |- Z.lxor ?c ?a <> Z.lxor ?c ?b => apply lxor_differs_r; follow H
  | |- crc64 ?c ?v <> crc64 ?c ?w => eapply crc64_r; [auto with crc|auto with crc|follow H]
  | |- crc64 ?c ?v <> crc64 ?d ?v => apply crc64_l; [auto with crc|]; follow H
  | |- u32 (crc64 _ _) <> u32 _ => rewrite !u32_crc64 by auto with crc; follow H
  | |- u32 (Z.shiftr _ _) <> u32 _ => rewrite !u32_shiftr by auto with crc; follow H
  | |- half_differs _ (Z.lxor ?a ?c) (Z.lxor ?b ?c) => apply half_lxor_l; follow H
  | |- half_differs _ (Z.lxor ?c ?a) (Z.lxor ?c ?b) => apply half_lxor_r; follow H
  | |- half_differs _ (u64 (Z.shiftl _ _)) _ => apply high_differs; [auto with crc..|follow H]
  | |- half_differs _ (crc64 _ _) _ => apply small_differs; [auto with crc..|follow H]
  | |- half_differs _ (Z.shiftr _ _) _ => apply small_differs; [auto with crc..|follow H]
  | |- half_differs _ _ _ => eassumption
  | |- _ => exact H
  end.

(** ** Keys *)

(** The words at [a] are [l]. *)
Definition words_at (mem : memory) (a : Z) (l : list Z) : Prop :=
  forall i w, l !! i = Some w -> ld64 mem (a + 8 * Z.of_nat i) = Some w /\ fits 64 w.

Definition masked (ks ms : list Z) : list Z := zip_with Z.land ks ms.

Lemma masked_words mem key mask ks ms i w : words_at mem key ks -> words_at mem mask ms ->
  masked ks ms !! i = Some w -> masked_word mem key mask (Z.of_nat i) = Some w /\ fits 64 w.
Proof.
  intros Hk Hm (k & m & -> & Ek & Em)%lookup_zip_with_Some.
  destruct (Hk _ _ Ek) as [Lk Fk], (Hm _ _ Em) as [Lm Fm]. unfold masked_word. rewrite Lk. cbn [mbind option_bind].
  rewrite Lm. split; [done|]. by apply fits_land.
Qed.

Section hashes.
Context {sse : Sse42} {L : LawfulSse42 sse} (n : nat) (seed : Z) (Hn : (1 <= n <= 8)%nat) (Hs : fits 64 seed).

(** The words that the functions read. *)
Definition reads_words (mem : memory) (key mask : Z) (ws : list Z) : Prop :=
  forall i w, ws !! i = Some w -> masked_word mem key mask (Z.of_nat i) = Some w /\ fits 64 w.

Lemma rte_crc32_u64_fits x86_64 c v : fits 64 c -> fits 64 v -> fits 64 (rte_crc32_u64 x86_64 c v).
Proof. intros Hc Hv. rewrite rte_crc32_u64_ok by done. by apply fits_64_of_32, crc64_fits. Qed.

#[local] Hint Resolve rte_crc32_u64_fits : crc.

(** The reads of the words of an explicit list. *)
Ltac read_words H :=
  try destruct (H 0%nat _ eq_refl) as [? ?]; try destruct (H 1%nat _ eq_refl) as [? ?];
  try destruct (H 2%nat _ eq_refl) as [? ?]; try destruct (H 3%nat _ eq_refl) as [? ?];
  try destruct (H 4%nat _ eq_refl) as [? ?]; try destruct (H 5%nat _ eq_refl) as [? ?];
  try destruct (H 6%nat _ eq_refl) as [? ?]; try destruct (H 7%nat _ eq_refl) as [? ?]; clear H.

Ltac run_hash :=
  cbn [table_hash]; unfold rte_table_hash_crc_key8, rte_table_hash_crc_key16, rte_table_hash_crc_key24,
    rte_table_hash_crc_key32, rte_table_hash_crc_key40, rte_table_hash_crc_key48, rte_table_hash_crc_key56,
    rte_table_hash_crc_key64;
  repeat match goal with
  | H : masked_word _ _ _ (Z.of_nat ?k) = Some _ |- _ =>
      let z := eval compute in (Z.of_nat k) in change (Z.of_nat k) with z in H; rewrite H; clear H; cbn [mbind option_bind]
  end;
  rewrite !rte_crc32_u64_ok by auto 10 with crc.

(** The hash is a function of the words, the same on either machine. *)
Lemma table_hash_words ws : length ws = n -> Forall (fits 64) ws ->
  exists r, fits 32 r /\ forall x86_64 mem key mask, reads_words mem key mask ws ->
    table_hash x86_64 n mem key mask seed = Some r.
Proof.
  intros Hl F.
  destruct n as [|[|[|[|[|[|[|[|[|?]]]]]]]]]; try lia; clear Hn.
  all: repeat (destruct ws as [|? ws]; try discriminate Hl); clear Hl; decompose_Forall_hyps.
  all: eexists; (split; [|intros x86_64 mem key mask Hw; read_words Hw; run_hash; reflexivity]).
  all: auto 12 with crc.
Qed.

(** A difference in one half of one word shows in the hash. *)
Lemma table_hash_differs ws i h w w' x86_64 mem key mask x86_64' mem' key' mask' r r' :
  length ws = n -> ws !! i = Some w -> half_differs h w w' ->
  reads_words mem key mask ws -> reads_words mem' key' mask' (<[i := w']> ws) ->
  table_hash x86_64 n mem key mask seed = Some r -> table_hash x86_64' n mem' key' mask' seed = Some r' -> r <> r'.
Proof.
  intros Hl Hi Hd Hw Hw' E E'. pose proof (lookup_lt_Some _ _ _ Hi).
  destruct n as [|[|[|[|[|[|[|[|[|?]]]]]]]]]; try lia; clear Hn.
  all: repeat (destruct ws as [|? ws]; try discriminate Hl); clear Hl.
  all: destruct i as [|[|[|[|[|[|[|[|?]]]]]]]]; try (simpl in *; lia); simpl in Hi; injection Hi as ->; simpl in Hw'.
  all: revert E E'; read_words Hw; read_words Hw'; run_hash; intros [= <-] [= <-].
  all: destruct h; pose proof Hd as [Hq Hdh].
  all: rewrite ?Hq; rewrite ?(crc64_low w w') by done; follow Hdh.
Qed.
End hashes.

(** * Property *)

(** The hashes of the tables: for keys of 8 to 64 bytes in words of 8, the
    function reads the key and the mask only, gives the same 32 bits whether it
    uses the instruction or the software version, and depends on every bit under
    the mask: two keys that, under their masks, differ only in one half of one
    word never have the same hash. *)
Theorem table_hash_ok {sse : Sse42} {L : LawfulSse42 sse} n seed mem key mask ks ms :
  (1 <= n <= 8)%nat -> fits 64 seed -> length ks = n -> length ms = n ->
  words_at mem key ks -> words_at mem mask ms ->
  exists r, fits 32 r /\ (forall x86_64, table_hash x86_64 n mem key mask seed = Some r)
    /\ forall x86_64 mem' key' mask' ks' ms' i h w w' r', words_at mem' key' ks' -> words_at mem' mask' ms' ->
         masked ks ms !! i = Some w -> masked ks' ms' = <[i := w']> (masked ks ms) -> half_differs h w w' ->
         table_hash x86_64 n mem' key' mask' seed = Some r' -> r' <> r.
Proof.
  intros Hn Hs Hk Hm K M.
  assert (reads_words mem key mask (masked ks ms)) as R by (intros i w; by apply masked_words).
  assert (length (masked ks ms) = n) as Hl by (unfold masked; rewrite length_zip_with_l_eq; lia).
  destruct (table_hash_words n seed Hn Hs (masked ks ms) Hl) as (r & Fr & Er).
  { apply Forall_lookup. intros i w Hi. by apply (R i w). }
  exists r. split; [done|]. split; [intros x86_64; by apply Er|].
  intros x86_64 mem' key' mask' ks' ms' i h w w' r' K' M' Hi E' Hd Er'. apply not_eq_sym.
  eapply (table_hash_differs n seed Hn Hs (masked ks ms) i h w w' x86_64 mem key mask x86_64 mem' key' mask'); try done.
  - rewrite <- E'. intros j x. by apply masked_words.
  - by apply Er.
Qed.

Definition demo_key : list Z := concat (map word_bytes [1; 0; 2; 0; 3; 0; 0xFFFFFFFF; 0xFFFFFFFF]).

Lemma table_hash_ok_witness :
  (exists r, fits 32 r /\ forall x86_64, table_hash x86_64 3 (local_mem demo_key) 0 0 7 = Some r)
  /\ table_hash false 3 (local_mem demo_key) 0 0 7 = table_hash true 3 (local_mem demo_key) 0 0 7.
Proof.
  split; [|vm_compute; reflexivity].
  destruct (table_hash_ok 3 7 (local_mem demo_key) 0 0 [1; 2; 3] [1; 2; 3]) as (r & F & E & _);
    [lia|unfold fits; lia|done|done| | |].
  1, 2: intros i w Hi; destruct i as [|[|[|]]]; simpl in Hi; simplify_eq; (split; [vm_compute; reflexivity|unfold fits; lia]).
  exists r. split; [exact F|exact E].
Defined.
