(* ===== verification/Thash.v ===== *)
(** * Toeplitz hash ([include/rte_thash.h]).

    The hash of receive side scaling: of words in host order under a key of
    bytes, with the key as it is or converted.  The machine is little-endian. *)
From stdpp Require Import prelude list numbers gmap.
From S2P Require Import Prelude Bits Bytes.
Open Scope Z_scope.

(** ** Keys *)

(** The words [targ[0], targ[1], ...] after the call; [orig] and [targ] are
    arrays of words. *)
Fixpoint convert_words (orig : list Z) (n : nat) (i : Z) (targ : list Z) : option (list Z) :=
  match n with
  | O => Some targ
  | Datatypes.S n =>
      w ← aget orig i ; targ ← aset targ i (rte_be_to_cpu_32 w) ; convert_words orig n (i + 1) targ
  end.

Definition rte_convert_rss_key (orig targ : list Z) (len : Z) : option (list Z) :=
  convert_words orig (Z.to_nat (Z.shiftr len 2)) 0 targ.

(** ** Tuples *)

(** [rte_thash_ipv6_bswap_mask], the bytes of its two words. *)
Definition rte_thash_ipv6_bswap_mask : list Z := [3;2;1;0;7;6;5;4; 11;10;9;8;15;14;13;12].

(** The instruction [pshufb], of the bytes of two registers. *)
Class Ssse3 := { shuffle_epi8 : list Z -> list Z -> list Z }.

Fixpoint load_16 (mem : memory) (n : nat) (a : Z) : option (list Z) :=
  match n with O => Some [] | Datatypes.S n => b ← mem a ; l ← load_16 mem n (a + 1) ; Some (b :: l) end.

(** The loop of the portable version, for one address: the bytes of its words. *)
Fixpoint load_swapped (mem : memory) (n : nat) (a : Z) : option (list Z) :=
  match n with
  | O => Some []
  | Datatypes.S n => w ← ld32 mem a ; l ← load_swapped mem n (a + 4) ; Some (word_bytes (rte_be_to_cpu_32 w) ++ l)
  end.

(** The bytes of [targ->v6.src_addr] and of [targ->v6.dst_addr]; in the header the
    addresses are 8 and 24 bytes after the beginning. *)
Definition rte_thash_load_v6_addrs {ssse : Ssse3} (x86 : bool) (mem : memory) (orig : Z) : option (list Z * list Z) :=
  if x86 then
    ipv6 ← load_16 mem 16 (orig + 8) ;
    let src := shuffle_epi8 ipv6 rte_thash_ipv6_bswap_mask in
    ipv6 ← load_16 mem 16 (orig + 24) ;
    let dst := shuffle_epi8 ipv6 rte_thash_ipv6_bswap_mask in
    Some (src, dst)
  else
    src ← load_swapped mem 4 (orig + 8) ; dst ← load_swapped mem 4 (orig + 24) ; Some (src, dst).

(** ** Hash *)

Section hash.
Context (mem : memory) (input_tuple : list Z).

(** The two words of the key at [j] that a set bit of [input_tuple[j]] selects
    from, as the two functions read them. *)
Definition rss_words (rss_key j : Z) : option (Z * Z) :=
  a ← ld32 mem (rss_key + 4 * j) ; b ← ld32 mem (rss_key + 4 * (j + 1)) ; Some (rte_cpu_to_be_32 a, rte_cpu_to_be_32 b).
Definition rss_words_be (rss_key j : Z) : option (Z * Z) :=
  a ← ld32 mem (rss_key + 4 * j) ; b ← ld32 mem (rss_key + 4 * (j + 1)) ; Some (a, b).

(** [for (map = input_tuple[j]; map; map &= (map - 1))] *)
Fixpoint softrss_bits (words : option (Z * Z)) (fuel : nat) (map ret : Z) : option Z :=
  if truthy map then
    match fuel with
    | O => None
    | Datatypes.S fuel =>
        i ← rte_bsf32 map ;
        '(a, b) ← words ;
        softrss_bits words fuel (Z.land map (u32 (map - 1)))
          (Z.lxor ret (Z.lor (u32 (Z.shiftl a (31 - i))) (u32 (Z.shiftr b (i + 1)))))
    end
  else Some ret.

(** [for (j = 0; j < input_len; j++)], the rounds that are left. *)
Fixpoint softrss_loop (words : Z -> option (Z * Z)) (n : nat) (j ret : Z) : option Z :=
  match n with
  | O => Some ret
  | Datatypes.S n =>
      map ← aget input_tuple j ; ret ← softrss_bits (words j) 32 map ret ; softrss_loop words n (j + 1) ret
  end.

Definition rte_softrss (input_len rss_key : Z) : option Z :=
  softrss_loop (rss_words rss_key) (Z.to_nat input_len) 0 0.

Definition rte_softrss_be (input_len rss_key : Z) : option Z :=
  softrss_loop (rss_words_be rss_key) (Z.to_nat input_len) 0 0.
End hash.

(** * The textbook hash

    Bit [p] of the input and of the key, from the most significant bit of the
    first word or byte on. *)
Definition input_bit (ws : list Z) (p : Z) : bool := Z.testbit (nth (Z.to_nat (p / 32)) ws 0) (31 - p mod 32).
Definition key_bit (kb : list Z) (p : Z) : bool := Z.testbit (nth (Z.to_nat (p / 8)) kb 0) (7 - p mod 8).

(** The sum of bits. *)
Definition xor_all (l : list bool) : bool := foldr xorb false l.

(** Every bit of the input that is set adds the 32 bits of the key from its own
    position on. *)
Definition toeplitz (kb ws : list Z) (r : Z) : Prop :=
  fits 32 r /\ forall t, 0 <= t < 32 ->
    Z.testbit r t = xor_all (map (fun p => input_bit ws p && key_bit kb (p + (31 - t))) (seqZ 0 (32 * Z.of_nat (length ws)))).

(** * Lemmas *)

(** ** Sums of bits *)

Lemma xor_all_app l1 l2 : xor_all (l1 ++ l2) = xorb (xor_all l1) (xor_all l2).
Proof.
  induction l1 as [|b l1 IH]; [cbn [app]; by destruct (xor_all l2)|]. cbn [app xor_all foldr].
  fold (xor_all (l1 ++ l2)) (xor_all l1). by rewrite IH, xorb_assoc.
Qed.

Lemma xor_all_rev l : xor_all (rev l) = xor_all l.
Proof.
  induction l as [|b l IH]; [done|]. cbn [rev]. rewrite xor_all_app, IH. cbn [xor_all foldr]. fold (xor_all l).
  by rewrite xorb_false_r, xorb_comm.
Qed.

Lemma xor_all_xorb {A} (f g : A -> bool) l :
  xor_all (map (fun x => xorb (f x) (g x)) l) = xorb (xor_all (map f l)) (xor_all (map g l)).
Proof.
  induction l as [|x l IH]; [done|]. cbn [map xor_all foldr]. fold (xor_all (map f l)) (xor_all (map g l)).
  fold (xor_all (map (fun x => xorb (f x) (g x)) l)). rewrite IH.
  by destruct (f x), (g x), (xor_all (map f l)), (xor_all (map g l)).
Qed.

Lemma xor_all_one w k l : NoDup l -> k ∈ l -> xor_all (map (fun i => (i =? k) && w i) l) = w k.
Proof.
  induction 1 as [|i l Hi Hl IH]; [by rewrite elem_of_nil|].
  intros Hk. cbn [map xor_all foldr]. fold (xor_all (map (fun i => (i =? k) && w i) l)).
  destruct (Z.eqb_spec i k) as [->|Hn].
  - assert (forall l, k ∉ l -> xor_all (map (fun i => (i =? k) && w i) l) = false) as E.
    { clear. induction l as [|j l IH]; [done|]. intros H. apply not_elem_of_cons in H as [Hj Hl].
      cbn [map xor_all foldr]. fold (xor_all (map (fun i => (i =? k) && w i) l)). rewrite IH by done.
      by rewrite (proj2 (Z.eqb_neq j k)) by done. }
    rewrite E by done. cbn [andb]. by rewrite xorb_false_r.
  - apply elem_of_cons in Hk as [->|Hk]; [done|]. rewrite IH by done. by destruct (w k).
Qed.

(** One summand taken out. *)
Lemma xor_all_clear m m' w k : 0 <= k < 32 -> Z.testbit m k = true ->
  (forall i, Z.testbit m' i = Z.testbit m i && negb (i =? k)) ->
  xor_all (map (fun i => Z.testbit m i && w i) (seqZ 0 32))
    = xorb (w k) (xor_all (map (fun i => Z.testbit m' i && w i) (seqZ 0 32))).
Proof.
  intros Hk Hm Hm'. rewrite <- (xor_all_one w k (seqZ 0 32)) by first [apply NoDup_seqZ|apply elem_of_seqZ; lia].
  rewrite <- xor_all_xorb. f_equal. apply map_ext. intros i. rewrite Hm'.
  destruct (Z.eqb_spec i k) as [->|].
  - rewrite Hm. by destruct (w k).
  - by destruct (Z.testbit m i), (w i).
Qed.

(** ** One word of the input *)

(** Bit [t] of what bit [i] of the input adds. *)
Definition window (a b t i : Z) : bool :=
  if 31 - i <=? t then Z.testbit a (t - (31 - i)) else Z.testbit b (t + i + 1).

Lemma window_bit a b t i : 0 <= t < 32 -> 0 <= i < 32 -> fits 32 a -> fits 32 b ->
  Z.testbit (Z.lor (u32 (Z.shiftl a (31 - i))) (u32 (Z.shiftr b (i + 1)))) t = window a b t i.
Proof.
  intros Ht Hi Ha Hb. unfold window. rewrite Z.lor_spec, !testbit_wrap, (proj2 (Z.ltb_lt t 32)) by lia. cbn [andb].
  rewrite Z.shiftr_spec, Z.shiftl_spec by lia. destruct (Z.leb_spec (31 - i) t).
  - rewrite (testbit_beyond 32 b), orb_false_r by (done || lia). f_equal.
  - rewrite (Z.testbit_neg_r a) by lia. cbn [orb]. f_equal. lia.
Qed.

Lemma softrss_bits_ok a b : fits 32 a -> fits 32 b -> forall fuel map ret, fits 32 map -> fits 32 ret ->
  (forall i, i < 32 - Z.of_nat fuel -> Z.testbit map i = false) ->
  exists r, softrss_bits (Some (a, b)) fuel map ret = Some r /\ fits 32 r
    /\ forall t, 0 <= t < 32 -> Z.testbit r t
         = xorb (Z.testbit ret t) (xor_all (List.map (fun i => Z.testbit map i && window a b t i) (seqZ 0 32))).
Proof.
  intros Ha Hb. induction fuel as [|fuel IH]; intros m ret Hm Hr Hlow.
  - assert (m = 0) as ->.
    { apply zero_bits; [apply Hm|]. intros k Hk. destruct (decide (k < 32)); [by apply Hlow; lia|].
      by apply (testbit_beyond 32); [|lia]. }
    exists ret. split; [done|]. split; [done|]. intros t Ht. by rewrite xorb_false_r.
  - cbn [softrss_bits]. destruct (truthy m) eqn:Em.
    2: { apply negb_false_iff, Z.eqb_eq in Em as ->. exists ret. split; [done|]. split; [done|].
         intros t Ht. by rewrite xorb_false_r. }
    apply truthy_true in Em. unfold fits in Hm.
    destruct (lowest_bit m ltac:(lia)) as (k & Ek & Hk & Hb1 & Hb0). unfold rte_bsf32. rewrite Ek. cbn [mbind option_bind].
    assert (k < 32) as Hk32 by (destruct (decide (k < 32)); [done|]; by rewrite (testbit_beyond 32 m) in Hb1 by (done || lia)).
    rewrite (wrap_small 32 (m - 1)) by (unfold fits; lia). pose proof (clear_lowest m k ltac:(lia) Ek) as Hc.
    set (m' := Z.land m (m - 1)) in *.
    destruct (IH m' (Z.lxor ret (Z.lor (u32 (Z.shiftl a (31 - k))) (u32 (Z.shiftr b (k + 1)))))) as (r & E & Fr & Br).
    + by apply fits_land.
    + apply fits_lxor; [lia|done|]. apply fits_lor; [lia|apply (wrap_fits 32); lia..].
    + intros i Hi. rewrite Hc. destruct (Z.eqb_spec i k) as [->|]; [apply andb_false_r|]. rewrite andb_true_r.
      destruct (decide (i < k)) as [Hik|]; [destruct (decide (0 <= i)); [by apply Hb0|by rewrite Z.testbit_neg_r by lia]|].
      apply Hlow. destruct (decide (i < 32 - Z.of_nat (Datatypes.S fuel))); [done|].
      exfalso. rewrite (Hlow k) in Hb1; [done|lia].
    + exists r. split; [done|]. split; [done|]. intros t Ht. rewrite Br by done.
      rewrite Z.lxor_spec, window_bit, xorb_assoc by done. f_equal. symmetry. by apply xor_all_clear.
Qed.

(** ** The words of the key *)

Lemma concat_bit x y k m : 0 <= k -> 0 <= x < 2 ^ k -> 0 <= m ->
  Z.testbit (x + 2 ^ k * y) m = if m <? k then Z.testbit x m else Z.testbit y (m - k).
Proof.
  intros Hk Hx Hm. rewrite (Z.mul_comm (2 ^ k)), <- lor_disjoint by done. rewrite Z.lor_spec, <- Z.shiftl_mul_pow2 by lia.
  destruct (Z.ltb_spec m k).
  - by rewrite (Z.shiftl_spec_low _ _ m), orb_false_r by lia.
  - rewrite Z.shiftl_spec, (testbit_beyond k x m) by (done || lia). done.
Qed.

Lemma le32_fits l i : Forall (fits 8) l -> fits 32 (le32_at l i).
Proof.
  intros F. unfold le32_at. pose proof (le16_range l i F). pose proof (le16_range l (i + 2) F). unfold fits in *. lia.
Qed.

Lemma le32_bit l i m : Forall (fits 8) l -> 0 <= m < 32 ->
  Z.testbit (le32_at l i) m = Z.testbit (nth (i + Z.to_nat (m / 8)) l 0) (m mod 8).
Proof.
  intros F Hm. assert (forall j, default 0 (l !! j) = nth j l 0) as N by (intros j; by rewrite nth_lookup).
  assert (forall j, fits 8 (nth j l 0)) as B by (intros j; rewrite <- N; by apply byte_default).
  unfold fits in B. unfold le32_at, le16_at. rewrite !N.
  pose proof (B i). pose proof (B (Datatypes.S i)). pose proof (B (i + 2)%nat). pose proof (B (Datatypes.S (i + 2))).
  pose proof (Z.div_mod m 8 ltac:(lia)). pose proof (Z.mod_pos_bound m 8 ltac:(lia)).
  rewrite concat_bit by lia. destruct (Z.ltb_spec m 16); (rewrite concat_bit by lia; case_match).
  all: assert (m / 8 = 0 \/ m / 8 = 1 \/ m / 8 = 2 \/ m / 8 = 3) as [E|[E|[E|E]]] by lia; rewrite E in *; try lia.
  all: f_equal; try lia; f_equal; lia.
Qed.

(** A word of the key as the hash uses it: bit 31 is the first. *)
Definition key_words (kb : list Z) (words : Z -> option (Z * Z)) : Prop :=
  forall j, 0 <= j -> 4 * j + 8 <= Z.of_nat (length kb) ->
    exists a b, words j = Some (a, b) /\ fits 32 a /\ fits 32 b
      /\ forall m, 0 <= m < 32 -> Z.testbit a m = key_bit kb (32 * j + 31 - m)
                                  /\ Z.testbit b m = key_bit kb (32 * (j + 1) + 31 - m).

Lemma be_word_bit kb j m : Forall (fits 8) kb -> 0 <= j -> 0 <= m < 32 ->
  Z.testbit (rte_bswap32 (le32_at kb (Z.to_nat (4 * j)))) m = key_bit kb (32 * j + 31 - m).
Proof.
  intros F Hj Hm. rewrite bswap32_bit by done. unfold mirror. change (32 / 8) with 4.
  pose proof (Z.div_mod m 8 ltac:(lia)). pose proof (Z.mod_pos_bound m 8 ltac:(lia)).
  assert (0 <= m / 8 <= 3) by lia. rewrite le32_bit by (done || lia).
  destruct (div_8 (4 - 1 - m / 8) (m mod 8) ltac:(lia)) as [-> ->]. unfold key_bit.
  destruct (div_8 (4 * j + 3 - m / 8) (7 - m mod 8) ltac:(lia)) as [Ed Em].
  replace (8 * (4 * j + 3 - m / 8) + (7 - m mod 8)) with (32 * j + 31 - m) in Ed, Em by lia.
  rewrite Ed, Em. f_equal; [f_equal; lia|lia].
Qed.

Section key.
Context (mem : memory) (key : Z) (kb : list Z) (H : bytes_at mem key kb).

Lemma key_ld32 j : 0 <= j -> 4 * j + 4 <= Z.of_nat (length kb) ->
  ld32 mem (key + 4 * j) = Some (le32_at kb (Z.to_nat (4 * j))).
Proof.
  intros Hj Hl. rewrite <- (ld32_at mem key kb (Z.to_nat (4 * j)) H) by lia. f_equal. lia.
Qed.

Lemma rss_words_key : key_words kb (rss_words mem key).
Proof.
  intros j Hj Hl. pose proof (bytes_at_fits _ _ _ H) as F. unfold rss_words. rewrite !key_ld32 by lia.
  eexists _, _. split; [reflexivity|]. unfold rte_cpu_to_be_32.
  split; [apply (bswap_fits 32); lia|]. split; [apply (bswap_fits 32); lia|].
  intros m Hm. rewrite !be_word_bit by (done || lia). done.
Qed.

(** The words [targ] are at [targ_key], converted. *)
Lemma rss_words_be_key mem' (targ : list Z) targ_key :
  (forall i w, targ !! i = Some w -> ld32 mem' (targ_key + 4 * Z.of_nat i) = Some w) ->
  (forall i, (4 * i + 4 <= length kb)%nat -> targ !! i = Some (rte_bswap32 (le32_at kb (4 * i)))) ->
  key_words kb (rss_words_be mem' targ_key).
Proof.
  intros Hm Ht j Hj Hl. pose proof (bytes_at_fits _ _ _ H) as F. unfold rss_words_be.
  assert (forall j, 0 <= j -> 4 * j + 4 <= Z.of_nat (length kb) ->
    ld32 mem' (targ_key + 4 * j) = Some (rte_bswap32 (le32_at kb (Z.to_nat (4 * j))))) as E.
  { intros i Hi Hil. replace i with (Z.of_nat (Z.to_nat i)) at 1 by lia. apply Hm. rewrite Ht by lia.
    do 3 f_equal. lia. }
  rewrite !E by lia. eexists _, _. split; [reflexivity|].
  split; [apply (bswap_fits 32); lia|]. split; [apply (bswap_fits 32); lia|].
  intros m Hm'. rewrite !be_word_bit by (done || lia). done.
Qed.
End key.

(** ** All words *)

Lemma word_sum kb ws j w a b t : 0 <= j -> ws !! Z.to_nat j = Some w -> 0 <= t < 32 ->
  (forall m, 0 <= m < 32 -> Z.testbit a m = key_bit kb (32 * j + 31 - m)
                            /\ Z.testbit b m = key_bit kb (32 * (j + 1) + 31 - m)) ->
  xor_all (map (fun i => Z.testbit w i && window a b t i) (seqZ 0 32))
    = xor_all (map (fun p => input_bit ws p && key_bit kb (p + (31 - t))) (seqZ (32 * j) 32)).
Proof.
  intros Hj Hw Ht Hab. rewrite <- xor_all_rev, <- map_rev.
  assert (rev (seqZ 0 32) = map (fun i => 31 - i) (seqZ 0 32)) as -> by (vm_compute; reflexivity).
  rewrite map_map. replace (seqZ (32 * j) 32) with (map (Z.add (32 * j)) (seqZ 0 32)).
  2: { etransitivity; [apply (fmap_add_seqZ (32 * j) 0 32)|]. f_equal. lia. }
  rewrite map_map. f_equal. apply map_ext_in. intros q Hq. apply list_elem_of_In, elem_of_seqZ in Hq.
  assert ((32 * j + q) / 32 = j /\ (32 * j + q) mod 32 = q) as [Ed Em].
  { rewrite (Z.mul_comm 32), Z.add_comm, Z.div_add, Z.mod_add, Z.div_small, Z.mod_small by lia. lia. }
  unfold input_bit. rewrite Ed, Em, (nth_lookup_Some _ _ _ _ Hw). f_equal. unfold window.
  destruct (Z.leb_spec (31 - (31 - q)) t).
  - rewrite (proj1 (Hab (t - (31 - (31 - q))) ltac:(lia))). f_equal. lia.
  - rewrite (proj2 (Hab (t + (31 - q) + 1) ltac:(lia))). f_equal. lia.
Qed.

Lemma option_bind_run {A B} (o : option A) a (f : A -> option B) : o = Some a -> (o ≫= f) = f a.
Proof. by intros ->. Qed.

Lemma softrss_loop_S ws words n j ret : softrss_loop ws words (Datatypes.S n) j ret =
  map ← aget ws j ; ret ← softrss_bits (words j) 32 map ret ; softrss_loop ws words n (j + 1) ret.
Proof. reflexivity. Qed.

Lemma softrss_loop_ok kb ws words n : key_words kb words -> Forall (fits 32) ws ->
  4 * Z.of_nat (length ws) + 4 <= Z.of_nat (length kb) ->
  forall j ret, 0 <= j -> j + Z.of_nat n = Z.of_nat (length ws) -> fits 32 ret ->
  exists r, softrss_loop ws words n j ret = Some r /\ fits 32 r
    /\ forall t, 0 <= t < 32 -> Z.testbit r t
         = xorb (Z.testbit ret t) (xor_all (map (fun p => input_bit ws p && key_bit kb (p + (31 - t))) (seqZ (32 * j) (32 * Z.of_nat n)))).
Proof.
  intros Hw F Hl. induction n as [|n IH]; intros j ret Hj Hn Hr.
  - exists ret. split; [done|]. split; [done|]. intros t Ht. by rewrite xorb_false_r.
  - destruct (lookup_lt_is_Some_2 ws (Z.to_nat j) ltac:(lia)) as [m Em].
    destruct (Hw j Hj ltac:(lia)) as (a & b & Ew & Fa & Fb & Hab).
    pose proof (Forall_lookup_1 _ _ _ _ F Em) as Fm.
    destruct (softrss_bits_ok a b Fa Fb 32 m ret Fm Hr) as (r1 & E1 & F1 & B1).
    { intros i Hi. apply Z.testbit_neg_r. lia. }
    destruct (IH (j + 1) r1 ltac:(lia) ltac:(lia) F1) as (r & E & Fr & B).
    exists r. split; [|split; [done|]].
    + rewrite softrss_loop_S, (option_bind_run _ m) by (unfold aget; by rewrite (proj2 (Z.leb_le 0 j))).
      rewrite (option_bind_run _ r1); [exact E|]. rewrite Ew. exact E1.
    + intros t Ht. rewrite B, B1, xorb_assoc by done. f_equal.
      rewrite (word_sum kb ws j m a b t Hj Em Ht Hab), <- xor_all_app, <- map_app. f_equal. f_equal.
      replace (32 * Z.of_nat (Datatypes.S n)) with (32 + 32 * Z.of_nat n) by lia. rewrite seqZ_app by lia.
      do 2 f_equal. lia.
Qed.

Lemma softrss_toeplitz kb ws words : key_words kb words -> Forall (fits 32) ws ->
  4 * Z.of_nat (length ws) + 4 <= Z.of_nat (length kb) ->
  exists r, softrss_loop ws words (Z.to_nat (Z.of_nat (length ws))) 0 0 = Some r /\ toeplitz kb ws r.
Proof.
  intros Hw F Hl. rewrite Nat2Z.id.
  destruct (softrss_loop_ok kb ws words (length ws) Hw F Hl 0 0) as (r & E & Fr & B); [lia|lia|unfold fits; lia|].
  exists r. split; [done|]. split; [done|]. intros t Ht. rewrite B, Z.testbit_0_l by done. by rewrite xorb_false_l.
Qed.

(** ** The converted key *)

Lemma convert_words_ok orig n : forall i targ, 0 <= i -> (Z.to_nat i + n <= length orig)%nat ->
  (Z.to_nat i + n <= length targ)%nat ->
  exists targ', convert_words orig n i targ = Some targ' /\ length targ' = length targ
    /\ forall k, targ' !! k = if decide (Z.to_nat i <= k < Z.to_nat i + n)%nat then rte_bswap32 <$> orig !! k else targ !! k.
Proof.
  induction n as [|n IH]; intros i targ Hi Ho Ht.
  - exists targ. split; [done|]. split; [done|]. intros k. rewrite decide_False by lia. done.
  - destruct (lookup_lt_is_Some_2 orig (Z.to_nat i) ltac:(lia)) as [w Ew].
    destruct (IH (i + 1) (<[Z.to_nat i := rte_bswap32 w]> targ)) as (targ' & E & Hl & Hk);
      [lia|lia|rewrite length_insert; lia|].
    rewrite length_insert in Hl. exists targ'. split; [|split; [done|]].
    + cbn [convert_words]. unfold aget, aset. rewrite (proj2 (Z.leb_le 0 i)), (proj2 (Z.ltb_lt i _)) by lia.
      rewrite Ew. cbn [mbind option_bind andb]. exact E.
    + intros k. rewrite Hk. destruct (decide (k = Z.to_nat i)) as [->|Hn].
      * rewrite decide_False, decide_True, list_lookup_insert_eq, Ew by lia. done.
      * rewrite list_lookup_insert_ne by done. repeat case_decide; done || lia.
Qed.

(** The words of the converted key, for a key of whole words. *)
Lemma convert_key_ok mem key kb orig targ : bytes_at mem key kb -> length kb = (4 * length orig)%nat ->
  (forall i w, orig !! i = Some w -> ld32 mem (key + 4 * Z.of_nat i) = Some w) -> length targ = length orig ->
  exists targ', rte_convert_rss_key orig targ (Z.of_nat (length kb)) = Some targ' /\ length targ' = length orig
    /\ forall i, (4 * i + 4 <= length kb)%nat -> targ' !! i = Some (rte_bswap32 (le32_at kb (4 * i))).
Proof.
  intros H Hk Ho Ht. unfold rte_convert_rss_key. rewrite Z.shiftr_div_pow2, Hk by lia.
  replace (Z.of_nat (4 * length orig) / 2 ^ 2) with (Z.of_nat (length orig)).
  2: { rewrite Nat2Z.inj_mul, (Z.mul_comm (Z.of_nat 4)). by rewrite Z.div_mul by lia. }
  rewrite Nat2Z.id. destruct (convert_words_ok orig (length orig) 0 targ) as (targ' & E & Hl & Hw); [lia..|].
  exists targ'. split; [done|]. split; [lia|]. intros i Hi. rewrite Hw, decide_True by lia.
  destruct (lookup_lt_is_Some_2 orig i ltac:(lia)) as [w Ew]. rewrite Ew. cbn [fmap option_fmap option_map]. f_equal. f_equal.
  pose proof (Ho i w Ew) as E1. rewrite (key_ld32 mem key kb H) in E1 by lia. injection E1 as <-. f_equal. lia.
Qed.

Lemma toeplitz_unique kb ws r r' : toeplitz kb ws r -> toeplitz kb ws r' -> r' = r.
Proof.
  intros [F B] [F' B']. apply Z.bits_inj'. intros t Ht. destruct (decide (t < 32)).
  - by rewrite B, B' by lia.
  - by rewrite !(testbit_beyond 32) by (done || lia).
Qed.

(** ** The addresses of IPv6 *)

(** [pshufb]: byte [i] is the one whose number the mask has at [i], or 0. *)
Class LawfulSsse3 (ssse : Ssse3) : Prop := {
  shuffle_law a b : length a = 16%nat -> length b = 16%nat -> Forall (fits 8) b ->
    shuffle_epi8 a b = map (fun m => if Z.testbit m 7 then 0 else nth (Z.to_nat (m mod 16)) a 0) b
}.

Lemma load_16_ok mem n : forall a l, bytes_at mem a l -> length l = n -> load_16 mem n a = Some l.
Proof.
  induction n as [|n IH]; intros a l H Hl; [by destruct l|]. destruct l as [|b l]; [done|].
  apply bytes_at_cons in H as (E & _ & H). cbn [load_16]. rewrite E. cbn [mbind option_bind].
  by rewrite (IH _ l H) by (simpl in Hl; lia).
Qed.

Lemma swapped_bytes b0 b1 b2 b3 : fits 8 b0 -> fits 8 b1 -> fits 8 b2 -> fits 8 b3 ->
  word_bytes (rte_be_to_cpu_32 (b0 + 2 ^ 8 * b1 + 2 ^ 16 * (b2 + 2 ^ 8 * b3))) = [b3; b2; b1; b0].
Proof.
  intros H0 H1 H2 H3. set (l := [b0; b1; b2; b3]).
  assert (Forall (fits 8) l) as F by (unfold l; rewrite !Forall_cons; do 4 (split; [done|]); by apply Forall_nil).
  change (b0 + 2 ^ 8 * b1 + 2 ^ 16 * (b2 + 2 ^ 8 * b3)) with (le32_at l 0).
  assert (forall k, (k < 4)%nat -> u8 (rte_bswap32 (le32_at l 0) / 2 ^ (8 * Z.of_nat k)) = nth (3 - k) l 0) as B.
  { intros k Hk. assert (forall j, fits 8 (nth j l 0)) as Fn by (intros j; rewrite nth_lookup; by apply byte_default).
    apply byte_eq; [apply (wrap_fits 8); lia|apply Fn|]. intros i Hi. rewrite testbit_wrap by lia.
    rewrite (proj2 (Z.ltb_lt i 8)), <- Z.shiftr_div_pow2, Z.shiftr_spec, bswap32_bit by lia. cbn [andb].
    unfold mirror. change (32 / 8) with 4. destruct (div_8 (Z.of_nat k) i ltac:(lia)) as [E1 E2].
    replace (8 * Z.of_nat k + i) with (i + 8 * Z.of_nat k) in E1, E2 by lia. rewrite E1, E2.
    destruct (div_8 (4 - 1 - Z.of_nat k) i ltac:(lia)) as [E3 E4]. rewrite le32_bit, E3, E4 by (done || lia).
    do 2 f_equal. lia. }
  unfold word_bytes, rte_be_to_cpu_32. pose proof (B 0%nat ltac:(lia)) as B0. rewrite Z.mul_0_r, Z.pow_0_r, Z.div_1_r in B0.
  rewrite B0. pose proof (B 1%nat ltac:(lia)) as B1. pose proof (B 2%nat ltac:(lia)) as B2. pose proof (B 3%nat ltac:(lia)) as B3.
  change (8 * Z.of_nat 1) with 8 in B1. change (8 * Z.of_nat 2) with 16 in B2. change (8 * Z.of_nat 3) with 24 in B3.
  rewrite B1, B2, B3. reflexivity.
Qed.

(** The words of an address, each with its bytes reversed. *)
Definition host_words (l : list Z) : list Z := concat (map (fun i => rev (take 4 (drop (4 * i) l))) (seq 0 4)).

Lemma load_swapped_ok mem a l : bytes_at mem a l -> length l = 16%nat -> load_swapped mem 4 a = Some (host_words l).
Proof.
  intros H Hl.
  assert (forall n l a, bytes_at mem a l -> length l = (4 * n)%nat ->
    load_swapped mem n a = Some (concat (map (fun i => rev (take 4 (drop (4 * i) l))) (seq 0 n)))) as E.
  { clear. induction n as [|n IH]; intros l a H Hl; [done|].
    do 4 (destruct l as [|? l]; [simpl in Hl; lia|]). rewrite !bytes_at_cons in H. destruct H as (E0 & F0 & E1 & F1 & E2 & F2 & E3 & F3 & H).
    replace (a + 1 + 1 + 1 + 1) with (a + 4) in H by lia.
    cbn [load_swapped]. unfold ld32, ld16. replace (a + 2 + 1) with (a + 1 + 1 + 1) by lia.
    replace (a + 2) with (a + 1 + 1) by lia. rewrite E0, E1, E2, E3. cbn [mbind option_bind].
    rewrite (IH l (a + 4) H) by (simpl in Hl; lia). cbn [mbind option_bind].
    rewrite swapped_bytes by done. cbn [seq map concat]. f_equal. f_equal.
    rewrite <- seq_shift, map_map. f_equal. apply map_ext. intros i.
    by replace (4 * Datatypes.S i)%nat with (4 + 4 * i)%nat by lia. }
  by apply E.
Qed.

Lemma load_v6_addrs_ok {ssse : Ssse3} {L : LawfulSsse3 ssse} x86 mem orig src dst :
  bytes_at mem (orig + 8) src -> bytes_at mem (orig + 24) dst -> length src = 16%nat -> length dst = 16%nat ->
  rte_thash_load_v6_addrs x86 mem orig = Some (host_words src, host_words dst).
Proof.
  intros Hs Hd Ls Ld. unfold rte_thash_load_v6_addrs.
  assert (forall l, length l = 16%nat -> shuffle_epi8 l rte_thash_ipv6_bswap_mask = host_words l) as E.
  { intros l Hl. rewrite shuffle_law by (done || (repeat constructor; unfold fits; lia)).
    do 16 (destruct l as [|? l]; [discriminate Hl|]). destruct l; [reflexivity|discriminate Hl]. }
  destruct x86.
  - rewrite (load_16_ok mem 16 _ src Hs Ls). cbn [mbind option_bind].
    rewrite (load_16_ok mem 16 _ dst Hd Ld). cbn [mbind option_bind]. by rewrite !E.
  - rewrite (load_swapped_ok mem _ src Hs Ls). cbn [mbind option_bind].
    by rewrite (load_swapped_ok mem _ dst Hd Ld).
Qed.

(** * Property *)

(** C23. The hash of receive side scaling is the Toeplitz hash: for an input that
    is at least a word shorter than the key, [rte_softrss] gives the one value
    whose bits are the textbook's sums of bits of the key; and so does
    [rte_softrss_be] with the key that [rte_convert_rss_key] has converted. *)
Theorem softrss_is_toeplitz mem key kb ws : bytes_at mem key kb -> Forall (fits 32) ws ->
  4 * Z.of_nat (length ws) + 4 <= Z.of_nat (length kb) ->
  exists r, rte_softrss mem ws (Z.of_nat (length ws)) key = Some r
    /\ (forall x, toeplitz kb ws x <-> x = r)
    /\ forall orig targ, length kb = (4 * length orig)%nat -> length targ = length orig ->
         (forall i w, orig !! i = Some w -> ld32 mem (key + 4 * Z.of_nat i) = Some w) ->
         exists targ', rte_convert_rss_key orig targ (Z.of_nat (length kb)) = Some targ'
           /\ forall mem' key', (forall i w, targ' !! i = Some w -> ld32 mem' (key' + 4 * Z.of_nat i) = Some w) ->
                rte_softrss_be mem' ws (Z.of_nat (length ws)) key' = Some r.
Proof.
  intros H F Hl. destruct (softrss_toeplitz kb ws _ (rss_words_key mem key kb H) F Hl) as (r & E & T).
  exists r. split; [exact E|]. split; [intros x; split; [by apply toeplitz_unique|by intros ->]|].
  intros orig targ Hk Ht Ho. destruct (convert_key_ok mem key kb orig targ H Hk Ho Ht) as (targ' & Ec & Hl' & Hw).
  exists targ'. split; [done|]. intros mem' key' Hm.
  destruct (softrss_toeplitz kb ws _ (rss_words_be_key mem key kb H mem' targ' key' Hm Hw) F Hl) as (r' & E' & T').
  by rewrite <- (toeplitz_unique kb ws r r' T T').
Qed.

(** The key and the first packet of the test of the documentation of receive side
    scaling: 66.9.149.187:2794 to 161.142.100.80:1766. *)
Definition demo_rss_key : list Z :=
  [0x6d;0x5a;0x56;0xda;0x25;0x5b;0x0e;0xc2;0x41;0x67;0x25;0x3d;0x43;0xa3;0x8f;0xb0;0xd0;0xca;0x2b;0xcb;
   0xae;0x7b;0x30;0xb4;0x77;0xcb;0x2d;0xa3;0x80;0x30;0xf2;0x0c;0x6a;0x42;0xb7;0x3b;0xbe;0xac;0x01;0xfa].
Definition demo_tuple : list Z := [0x420995bb; 0xa18e6450; 2794 * 2 ^ 16 + 1766].

Lemma softrss_is_toeplitz_witness :
  (exists r, rte_softrss (local_mem demo_rss_key) demo_tuple 3 0 = Some r
    /\ forall x, toeplitz demo_rss_key demo_tuple x <-> x = r)
  /\ rte_softrss (local_mem demo_rss_key) demo_tuple 3 0 = Some 0x51ccc178.
Proof.
  split; [|vm_compute; reflexivity].
  destruct (softrss_is_toeplitz (local_mem demo_rss_key) 0 demo_rss_key demo_tuple) as (r & E & T & _);
    [apply bytes_at_local; repeat constructor; unfold fits; lia|repeat constructor; unfold fits; lia|vm_compute; discriminate|].
  exists r. split; [exact E|exact T].
Defined.

#[global] Instance intel_ssse3 : Ssse3 := {|
  shuffle_epi8 a b := map (fun m => if Z.testbit m 7 then 0 else nth (Z.to_nat (m mod 16)) a 0) b
|}.
#[global] Instance intel_ssse3_lawful : LawfulSsse3 intel_ssse3.
Proof. by split. Qed.
