(* ===== verification/Jhash.v ===== *)
(** * Jenkins hash ([include/rte_jhash.h]).

    The hash of the bytes of a key, on words or on shifted pairs of words when
    the key is not aligned, and the versions for words.  The machine is
    little-endian; the key is read from a memory that gives the mapped bytes. *)
From stdpp Require Import prelude list numbers gmap.
From S2P Require Import Prelude Bits Bytes.
Open Scope Z_scope.

Definition rot (x k : Z) : Z := Z.lor (u32 (Z.shiftl x k)) (Z.shiftr x (32 - k)).

Definition __rte_jhash_mix (s : Z * Z * Z) : Z * Z * Z :=
  let '(a, b, c) := s in
  let a := u32 (a - c) in let a := Z.lxor a (rot c 4) in let c := u32 (c + b) in
  let b := u32 (b - a) in let b := Z.lxor b (rot a 6) in let a := u32 (a + c) in
  let c := u32 (c - b) in let c := Z.lxor c (rot b 8) in let b := u32 (b + a) in
  let a := u32 (a - c) in let a := Z.lxor a (rot c 16) in let c := u32 (c + b) in
  let b := u32 (b - a) in let b := Z.lxor b (rot a 19) in let a := u32 (a + c) in
  let c := u32 (c - b) in let c := Z.lxor c (rot b 4) in let b := u32 (b + a) in
  (a, b, c).

Definition __rte_jhash_final (s : Z * Z * Z) : Z * Z * Z :=
  let '(a, b, c) := s in
  let c := Z.lxor c b in let c := u32 (c - rot b 14) in
  let a := Z.lxor a c in let a := u32 (a - rot c 11) in
  let b := Z.lxor b a in let b := u32 (b - rot a 25) in
  let c := Z.lxor c b in let c := u32 (c - rot b 16) in
  let a := Z.lxor a c in let a := u32 (a - rot c 4) in
  let b := Z.lxor b a in let b := u32 (b - rot a 14) in
  let c := Z.lxor c b in let c := u32 (c - rot b 24) in
  (a, b, c).

Definition RTE_JHASH_GOLDEN_RATIO : Z := 0xdeadbeef.

Definition BIT_SHIFT (x y k : Z) : Z := Z.lor (Z.shiftr x k) (u64 (Z.shiftl y (32 - k))).

Definition LOWER8b_MASK : Z := rte_le_to_cpu_32 0xff.
Definition LOWER16b_MASK : Z := rte_le_to_cpu_32 0xffff.
Definition LOWER24b_MASK : Z := rte_le_to_cpu_32 0xffffff.

(** The words [k[0], k[1], ...] of the key, and the same with the shift of a key
    that is not aligned. *)
Definition k_word (mem : memory) (k : Z) (i : Z) : option Z := ld32 mem (k + 4 * i).
Definition k_shifted (mem : memory) (k s : Z) (i : Z) : option Z :=
  x ← k_word mem k i ; y ← k_word mem k (i + 1) ; Some (BIT_SHIFT x y s).

(** [while (length > 12)]: the words are [w k 0], [w k 1], [w k 2]. *)
Fixpoint jhash_blocks (w : Z -> Z -> option Z) (fuel : nat) (k length : Z) (st : Z * Z * Z)
  : option (Z * Z * (Z * Z * Z)) :=
  if length >? 12 then
    match fuel with
    | O => None
    | Datatypes.S fuel =>
        let '(a, b, c) := st in
        w0 ← w k 0 ; w1 ← w k 1 ; w2 ← w k 2 ;
        jhash_blocks w fuel (k + 4 * 3) (u32 (length - 12))
          (__rte_jhash_mix (u32 (a + w0), u32 (b + w1), u32 (c + w2)))
    end
  else Some (k, length, st).

(** [switch (length)]; [None] in the result for the return without mixing. *)
Definition jhash_tail (w : Z -> option Z) (length : Z) (st : Z * Z * Z) : option (option (Z * Z * Z)) :=
  let '(a, b, c) := st in
  let add x i := v ← w i ; Some (u32 (x + v)) in
  let addm x i m := v ← w i ; Some (u32 (x + Z.land v m)) in
  match length with
  | 12 => a ← add a 0 ; b ← add b 1 ; c ← add c 2 ; Some (Some (a, b, c))
  | 11 => a ← add a 0 ; b ← add b 1 ; c ← addm c 2 LOWER24b_MASK ; Some (Some (a, b, c))
  | 10 => a ← add a 0 ; b ← add b 1 ; c ← addm c 2 LOWER16b_MASK ; Some (Some (a, b, c))
  | 9 => a ← add a 0 ; b ← add b 1 ; c ← addm c 2 LOWER8b_MASK ; Some (Some (a, b, c))
  | 8 => a ← add a 0 ; b ← add b 1 ; Some (Some (a, b, c))
  | 7 => a ← add a 0 ; b ← addm b 1 LOWER24b_MASK ; Some (Some (a, b, c))
  | 6 => a ← add a 0 ; b ← addm b 1 LOWER16b_MASK ; Some (Some (a, b, c))
  | 5 => a ← add a 0 ; b ← addm b 1 LOWER8b_MASK ; Some (Some (a, b, c))
  | 4 => a ← add a 0 ; Some (Some (a, b, c))
  | 3 => a ← addm a 0 LOWER24b_MASK ; Some (Some (a, b, c))
  | 2 => a ← addm a 0 LOWER16b_MASK ; Some (Some (a, b, c))
  | 1 => a ← addm a 0 LOWER8b_MASK ; Some (Some (a, b, c))
  | 0 => Some None
  | _ => Some (Some (a, b, c))
  end.

(** The new [( *pc, *pb)].  [x86] is [RTE_ARCH_X86]. *)
Definition __rte_jhash_2hashes (x86 : bool) (mem : memory) (key length pc pb check_align : Z) : option (Z * Z) :=
  let a := u32 (RTE_JHASH_GOLDEN_RATIO + length + pc) in
  let b := a in
  let c := u32 (a + pb) in
  let k := if x86 then key else Z.land key (u64 (Z.lnot 3)) in
  let s := if x86 then 0 else Z.land key 3 * 8 in
  let w := if negb (truthy check_align) || (s =? 0) then k_word mem else fun k => k_shifted mem k s in
  '(k, length, (a, b, c)) ← jhash_blocks w (Z.to_nat length) k length (a, b, c) ;
  st ← jhash_tail (w k) length (a, b, c) ;
  match st with
  | None => Some (c, b)
  | Some st => let '(a, b, c) := __rte_jhash_final st in Some (c, b)
  end.

Definition rte_jhash_2hashes (x86 : bool) (mem : memory) (key length pc pb : Z) : option (Z * Z) :=
  __rte_jhash_2hashes x86 mem key length pc pb 1.

Definition rte_jhash_32b_2hashes (x86 : bool) (mem : memory) (k length pc pb : Z) : option (Z * Z) :=
  __rte_jhash_2hashes x86 mem k (u32 (Z.shiftl length 2)) pc pb 0.

Definition rte_jhash (x86 : bool) (mem : memory) (key length initval : Z) : option Z :=
  '(initval, _) ← rte_jhash_2hashes x86 mem key length initval 0 ; Some initval.

Definition rte_jhash_32b (x86 : bool) (mem : memory) (k length initval : Z) : option Z :=
  '(initval, _) ← rte_jhash_32b_2hashes x86 mem k length initval 0 ; Some initval.

Definition __rte_jhash_3words (a b c initval : Z) : Z :=
  let a := u32 (a + u32 (RTE_JHASH_GOLDEN_RATIO + initval)) in
  let b := u32 (b + u32 (RTE_JHASH_GOLDEN_RATIO + initval)) in
  let c := u32 (c + u32 (RTE_JHASH_GOLDEN_RATIO + initval)) in
  let '(a, b, c) := __rte_jhash_final (a, b, c) in c.

Definition rte_jhash_3words (a b c initval : Z) : Z :=
  __rte_jhash_3words (u32 (a + 12)) (u32 (b + 12)) (u32 (c + 12)) initval.

Definition rte_jhash_2words (a b initval : Z) : Z := __rte_jhash_3words (u32 (a + 8)) (u32 (b + 8)) 8 initval.

Definition rte_jhash_1word (a initval : Z) : Z := __rte_jhash_3words (u32 (a + 4)) 4 4 initval.

