(* ===== verification/JhashSpec.v ===== *)
(** * The Jenkins hash is lookup3 of the bytes of the key. *)
From stdpp Require Import prelude list numbers gmap.
From S2P Require Import Prelude Bits Bytes Jhash.
Open Scope Z_scope.

(** ** The reference hash, on a list of bytes *)

(** The first four bytes, zeros after the end. *)
Definition le4 (l : list Z) : Z := nth 0 l 0 + 2 ^ 8 * nth 1 l 0 + 2 ^ 16 * nth 2 l 0 + 2 ^ 24 * nth 3 l 0.

Definition add3 (l : list Z) (st : Z * Z * Z) : Z * Z * Z :=
  let '(a, b, c) := st in (u32 (a + le4 l), u32 (b + le4 (drop 4 l)), u32 (c + le4 (drop 8 l))).

(** [hashlittle2]: blocks of 12 bytes are mixed, the last one is padded. *)
Fixpoint lookup3 (fuel : nat) (l : list Z) (st : Z * Z * Z) : Z * Z :=
  match fuel with
  | Datatypes.S fuel =>
      if (12 <? length l)%nat then lookup3 fuel (drop 12 l) (__rte_jhash_mix (add3 l st))
      else match l with
           | [] => let '(a, b, c) := st in (c, b)
           | _ => let '(a, b, c) := __rte_jhash_final (add3 l st) in (c, b)
           end
  | O => (0, 0)
  end.

Definition hashlittle2 (l : list Z) (pc pb : Z) : Z * Z :=
  let a := u32 (0xdeadbeef + Z.of_nat (length l) + pc) in
  lookup3 (Datatypes.S (length l)) l (a, a, u32 (a + pb)).

(** ** The words of a key in memory *)

Definition is_byte (mem : memory) (a : Z) : Prop := exists b, mem a = Some b /\ fits 8 b.

(** The key [l] is at [key], and the bytes just before and after can be read. *)
Record key_at (mem : memory) (key : Z) (l : list Z) : Prop := {
  ka_byte : forall i b, l !! i = Some b -> mem (key + Z.of_nat i) = Some b;
  ka_near : forall a, key - 3 <= a < key + Z.of_nat (length l) + 7 -> is_byte mem a
}.

Lemma key_at_nth mem key l i : key_at mem key l -> (i < length l)%nat ->
  mem (key + Z.of_nat i) = Some (nth i l 0) /\ fits 8 (nth i l 0).
Proof.
  intros [Hb Hn] Hi. destruct (lookup_lt_is_Some_2 l i Hi) as [b Eb].
  rewrite (nth_lookup_Some _ _ _ _ Eb). pose proof (Hb _ _ Eb) as E. split; [done|].
  destruct (Hn (key + Z.of_nat i)) as (b' & E' & Hf); [lia|]. congruence.
Qed.

Lemma key_at_drop mem key l n : key_at mem key l -> (n <= length l)%nat -> key_at mem (key + Z.of_nat n) (drop n l).
Proof.
  intros [Hb Hn] Hl. split.
  - intros i b. rewrite lookup_drop. intros E. rewrite <- (Hb _ _ E). f_equal. lia.
  - intros a. rewrite length_drop. intros Ha. apply Hn. lia.
Qed.

(** [v] holds the four bytes at [a] in its lower half. *)
Definition holds_word (mem : memory) (a v : Z) : Prop :=
  exists b0 b1 b2 b3, mem a = Some b0 /\ mem (a + 1) = Some b1 /\ mem (a + 2) = Some b2 /\ mem (a + 3) = Some b3
    /\ fits 8 b0 /\ fits 8 b1 /\ fits 8 b2 /\ fits 8 b3
    /\ v mod 2 ^ 32 = b0 + 2 ^ 8 * b1 + 2 ^ 16 * b2 + 2 ^ 24 * b3.

Lemma ld32_holds mem a : (forall j, 0 <= j < 4 -> is_byte mem (a + j)) ->
  exists v, ld32 mem a = Some v /\ holds_word mem a v /\ fits 32 v.
Proof.
  intros H. destruct (H 0 ltac:(lia)) as (b0 & E0 & F0), (H 1 ltac:(lia)) as (b1 & E1 & F1),
    (H 2 ltac:(lia)) as (b2 & E2 & F2), (H 3 ltac:(lia)) as (b3 & E3 & F3). rewrite Z.add_0_r in E0.
  unfold ld32, ld16. replace (a + 2 + 1) with (a + 3) by lia. rewrite E0, E1, E2, E3. cbn [mbind option_bind].
  unfold fits in *. eexists. split; [reflexivity|]. split; [|lia].
  exists b0, b1, b2, b3. unfold fits. split_and!; try done; try lia. rewrite Z.mod_small by lia. lia.
Qed.

(** Two neighbouring words shifted by [d] bytes hold the word in between. *)
Lemma bit_shift_holds mem a x y d : 0 < d < 4 ->
  fits 32 x -> fits 32 y -> holds_word mem a x -> holds_word mem (a + 4) y ->
  holds_word mem (a + d) (BIT_SHIFT x y (d * 8)).
Proof.
  intros Hd Fx Fy (b0 & b1 & b2 & b3 & E0 & E1 & E2 & E3 & F0 & F1 & F2 & F3 & Hx)
    (b4 & b5 & b6 & b7 & E4 & E5 & E6 & E7 & F4 & F5 & F6 & F7 & Hy). unfold fits in *.
  rewrite Z.mod_small in Hx, Hy by lia. unfold BIT_SHIFT. rewrite Z.shiftr_div_pow2, Z.shiftl_mul_pow2 by lia.
  replace (a + 4 + 1) with (a + 5) in E5 by lia. replace (a + 4 + 2) with (a + 6) in E6 by lia.
  assert (d = 1 \/ d = 2 \/ d = 3) as [->|[->| ->]] by lia.
  - exists b1, b2, b3, b4. rewrite <- !Z.add_assoc. split_and!; try done.
    rewrite <- (Z.div_unique x (2 ^ (1 * 8)) (b1 + 2 ^ 8 * b2 + 2 ^ 16 * b3) b0) by lia.
    rewrite wrap_small, lor_disjoint by (unfold fits; lia).
    symmetry. apply (Z.mod_unique_pos _ _ (b5 + 2 ^ 8 * b6 + 2 ^ 16 * b7)); lia.
  - exists b2, b3, b4, b5. rewrite <- !Z.add_assoc. split_and!; try done.
    rewrite <- (Z.div_unique x (2 ^ (2 * 8)) (b2 + 2 ^ 8 * b3) (b0 + 2 ^ 8 * b1)) by lia.
    rewrite wrap_small, lor_disjoint by (unfold fits; lia).
    symmetry. apply (Z.mod_unique_pos _ _ (b6 + 2 ^ 8 * b7)); lia.
  - exists b3, b4, b5, b6. rewrite <- !Z.add_assoc. split_and!; try done.
    rewrite <- (Z.div_unique x (2 ^ (3 * 8)) b3 (b0 + 2 ^ 8 * b1 + 2 ^ 16 * b2)) by lia.
    rewrite wrap_small, lor_disjoint by (unfold fits; lia).
    symmetry. apply (Z.mod_unique_pos _ _ b7); lia.
Qed.

(** Word [i] from [k] on holds the bytes from [k + d + 4 i] on. *)
Definition reads (mem : memory) (w : Z -> Z -> option Z) (d : Z) : Prop :=
  forall k i, (forall a, k + d + 4 * i - 3 <= a < k + d + 4 * i + 7 -> is_byte mem a) ->
  exists v, w k i = Some v /\ holds_word mem (k + d + 4 * i) v.

Lemma k_word_reads mem : reads mem (k_word mem) 0.
Proof.
  intros k i H. rewrite Z.add_0_r in *. unfold k_word.
  destruct (ld32_holds mem (k + 4 * i)) as (v & E & Hv & _); [intros j Hj; apply H; lia|]. by exists v.
Qed.

Lemma k_shifted_reads mem d : 0 < d < 4 -> reads mem (fun k => k_shifted mem k (d * 8)) d.
Proof.
  intros Hd k i H. unfold k_shifted, k_word.
  destruct (ld32_holds mem (k + 4 * i)) as (x & Ex & Hx & Fx); [intros j Hj; apply H; lia|].
  destruct (ld32_holds mem (k + 4 * (i + 1))) as (y & Ey & Hy & Fy); [intros j Hj; apply H; lia|].
  rewrite Ex. cbn [mbind option_bind]. rewrite Ey. cbn [mbind option_bind]. eexists. split; [reflexivity|].
  replace (k + d + 4 * i) with (k + 4 * i + d) by lia. apply bit_shift_holds; try done.
  by replace (k + 4 * i + 4) with (k + 4 * (i + 1)) by lia.
Qed.

(** The word with [r] bytes of the key in it, as it is and under a mask. *)
Lemma holds_key mem a l v : key_at mem a l -> holds_word mem a v ->
  ((4 <= length l)%nat -> v mod 2 ^ 32 = le4 l)
  /\ (length l = 3%nat -> Z.land v LOWER24b_MASK = le4 l)
  /\ (length l = 2%nat -> Z.land v LOWER16b_MASK = le4 l)
  /\ (length l = 1%nat -> Z.land v LOWER8b_MASK = le4 l).
Proof.
  intros Hk (b0 & b1 & b2 & b3 & E0 & E1 & E2 & E3 & F0 & F1 & F2 & F3 & Hv).
  assert (forall j b, (j < length l)%nat -> mem (a + Z.of_nat j) = Some b -> nth j l 0 = b) as N.
  { intros j b Hj E. destruct (key_at_nth mem a l j Hk Hj) as [E' _]. congruence. }
  change LOWER24b_MASK with (2 ^ 24 - 1). change LOWER16b_MASK with (2 ^ 16 - 1). change LOWER8b_MASK with (2 ^ 8 - 1).
  rewrite !land_mask by lia. unfold le4, fits in *.
  assert (v = 2 ^ 32 * (v / 2 ^ 32) + (b0 + 2 ^ 8 * b1 + 2 ^ 16 * b2 + 2 ^ 24 * b3)) as Ev.
  { rewrite <- Hv. apply Z.div_mod. lia. }
  split_and!; intros Hl.
  - by rewrite (N 0%nat b0), (N 1%nat b1), (N 2%nat b2), (N 3%nat b3) by (done || lia || by rewrite Z.add_0_r).
  - rewrite (N 0%nat b0), (N 1%nat b1), (N 2%nat b2), (nth_overflow l) by (done || lia || by rewrite Z.add_0_r).
    symmetry. apply (Z.mod_unique_pos _ _ (2 ^ 8 * (v / 2 ^ 32) + b3)); lia.
  - rewrite (N 0%nat b0), (N 1%nat b1), !(nth_overflow l) by (done || lia || by rewrite Z.add_0_r).
    symmetry. apply (Z.mod_unique_pos _ _ (2 ^ 16 * (v / 2 ^ 32) + b2 + 2 ^ 8 * b3)); lia.
  - rewrite (N 0%nat b0), !(nth_overflow l) by (done || lia || by rewrite Z.add_0_r).
    symmetry. apply (Z.mod_unique_pos _ _ (2 ^ 24 * (v / 2 ^ 32) + b1 + 2 ^ 8 * b2 + 2 ^ 16 * b3)); lia.
Qed.

Lemma word_read mem w d k l i : reads mem w d -> key_at mem (k + d) l -> (4 * i < length l)%nat ->
  exists v, w k (Z.of_nat i) = Some v
    /\ ((4 * i + 4 <= length l)%nat -> forall x, u32 (x + v) = u32 (x + le4 (drop (4 * i) l)))
    /\ ((length l = 4 * i + 3)%nat -> Z.land v LOWER24b_MASK = le4 (drop (4 * i) l))
    /\ ((length l = 4 * i + 2)%nat -> Z.land v LOWER16b_MASK = le4 (drop (4 * i) l))
    /\ ((length l = 4 * i + 1)%nat -> Z.land v LOWER8b_MASK = le4 (drop (4 * i) l)).
Proof.
  intros R Hk Hi. destruct (R k (Z.of_nat i)) as (v & E & Hv).
  { intros a Ha. apply (ka_near _ _ _ Hk). lia. }
  exists v. split; [done|]. pose proof (key_at_drop mem _ l (4 * i) Hk ltac:(lia)) as Hd.
  replace (k + d + 4 * Z.of_nat i) with (k + d + Z.of_nat (4 * i)) in Hv by lia.
  destruct (holds_key _ _ _ _ Hd Hv) as (H4 & H3 & H2 & H1). rewrite length_drop in *.
  split_and!; [|intros ?; (apply H3 || apply H2 || apply H1); lia..].
  intros Hl x. rewrite <- H4 by lia. unfold wrap. by rewrite Zplus_mod_idemp_r.
Qed.

Definition fits3 (st : Z * Z * Z) : Prop := let '(a, b, c) := st in fits 32 a /\ fits 32 b /\ fits 32 c.

Lemma le4_end n l : (length l <= n)%nat -> le4 (drop n l) = 0.
Proof. intros H. by rewrite drop_ge. Qed.

Lemma tail_ok mem w d k l st : reads mem w d -> key_at mem (k + d) l -> (length l <= 12)%nat -> fits3 st ->
  jhash_tail (w k) (Z.of_nat (length l)) st = Some (match l with [] => None | _ => Some (add3 l st) end).
Proof.
  intros R Hk Hl Hs. destruct st as [[a b] c]. destruct Hs as (Fa & Fb & Fc).
  destruct (decide (length l = 0)%nat) as [E|Hn]; [by destruct l|].
  assert (match l with [] => None | _ => Some (add3 l (a, b, c)) end = Some (add3 l (a, b, c))) as -> by (by destruct l).
  pose proof (fun H => word_read mem w d k l 0 R Hk H) as W0.
  pose proof (fun H => word_read mem w d k l 1 R Hk H) as W1.
  pose proof (fun H => word_read mem w d k l 2 R Hk H) as W2.
  pose proof (le4_end 4 l) as L1. pose proof (le4_end 8 l) as L2.
  unfold jhash_tail, add3. simpl Nat.mul in *. rewrite drop_0 in W0.
  assert (Ha : u32 (a + 0) = a) by (rewrite Z.add_0_r; by apply wrap_small).
  assert (Hb : u32 (b + 0) = b) by (rewrite Z.add_0_r; by apply wrap_small).
  assert (Hc : u32 (c + 0) = c) by (rewrite Z.add_0_r; by apply wrap_small).
  destruct (length l) as [|[|[|[|[|[|[|[|[|[|[|[|[|n]]]]]]]]]]]]] eqn:En; [lia| | | | | | | | | | | | |lia]; clear Hl Hn.
  all: destruct (W0 ltac:(lia)) as (v0 & E0 & A0 & B0 & C0 & D0); clear W0; change (Z.of_nat 0) with 0 in E0.
  all: try (destruct (W1 ltac:(lia)) as (v1 & E1 & A1 & B1 & C1 & D1); change (Z.of_nat 1) with 1 in E1); clear W1.
  all: try (destruct (W2 ltac:(lia)) as (v2 & E2 & A2 & B2 & C2 & D2); change (Z.of_nat 2) with 2 in E2); clear W2.
  all: match goal with |- context [Z.of_nat ?n] => let z := eval compute in (Z.of_nat n) in change (Z.of_nat n) with z end.
  all: cbv beta iota zeta; rewrite E0; cbn [mbind option_bind]; try (rewrite E1; cbn [mbind option_bind]);
    try (rewrite E2; cbn [mbind option_bind]).
  all: first [rewrite (A0 ltac:(lia))|rewrite (B0 ltac:(lia))|rewrite (C0 ltac:(lia))|rewrite (D0 ltac:(lia))].
  all: first [rewrite (L1 ltac:(lia)), Hb|rewrite (A1 ltac:(lia))|rewrite (B1 ltac:(lia))|rewrite (C1 ltac:(lia))|rewrite (D1 ltac:(lia))].
  all: first [rewrite (L2 ltac:(lia)), Hc|rewrite (A2 ltac:(lia))|rewrite (B2 ltac:(lia))|rewrite (C2 ltac:(lia))|rewrite (D2 ltac:(lia))].
  all: reflexivity.
Qed.

(** ** The blocks *)

Lemma rot_fits x k : fits 32 x -> 0 <= k <= 32 -> fits 32 (rot x k).
Proof.
  intros Hx Hk. apply fits_lor; [lia|apply (wrap_fits 32); lia|]. by apply fits_shiftr; [lia..|].
Qed.

Lemma mix_fits st : fits3 st -> fits3 (__rte_jhash_mix st).
Proof.
  destruct st as [[a b] c]. intros (Ha & Hb & Hc). unfold __rte_jhash_mix. cbv zeta. unfold fits3.
  assert (forall x, fits 32 (u32 x)) as U by (intros; apply (wrap_fits 32); lia).
  split; [done|]. split; [done|].
  repeat first [done | apply fits_lxor; [lia| |] | apply rot_fits; [|lia]].
Qed.

Lemma add3_fits l st : fits3 (add3 l st).
Proof. destruct st as [[a b] c]. split_and!; apply (wrap_fits 32); lia. Qed.

(** What is left of the key and of the hash after the blocks. *)
Definition last_block (l : list Z) (st : Z * Z * Z) : Z * Z :=
  match l with
  | [] => let '(a, b, c) := st in (c, b)
  | _ => let '(a, b, c) := __rte_jhash_final (add3 l st) in (c, b)
  end.

Lemma block_ok mem w d k l st : reads mem w d -> key_at mem (k + d) l -> (12 < length l)%nat ->
  let '(a, b, c) := st in
  exists w0 w1 w2, w k 0 = Some w0 /\ w k 1 = Some w1 /\ w k 2 = Some w2
    /\ (u32 (a + w0), u32 (b + w1), u32 (c + w2)) = add3 l st.
Proof.
  intros R Hk Hl. destruct st as [[a b] c].
  destruct (word_read mem w d k l 0 R Hk ltac:(lia)) as (w0 & E0 & H0 & _).
  destruct (word_read mem w d k l 1 R Hk ltac:(lia)) as (w1 & E1 & H1 & _).
  destruct (word_read mem w d k l 2 R Hk ltac:(lia)) as (w2 & E2 & H2 & _).
  exists w0, w1, w2. split_and!; try done. unfold add3.
  rewrite (H0 ltac:(lia)), (H1 ltac:(lia)), (H2 ltac:(lia)). done.
Qed.

Lemma blocks_ok mem w d n : forall fuel k l st,
  (length l <= n)%nat -> (n <= fuel)%nat -> Z.of_nat (length l) < 2 ^ 32 ->
  reads mem w d -> key_at mem (k + d) l -> fits3 st ->
  exists k' l' st', jhash_blocks w fuel k (Z.of_nat (length l)) st = Some (k', Z.of_nat (length l'), st')
    /\ key_at mem (k' + d) l' /\ (length l' <= 12)%nat /\ fits3 st'
    /\ forall f, (n < f)%nat -> lookup3 f l st = last_block l' st'.
Proof.
  induction n as [|n IH]; intros fuel k l st Hl Hf Hb R Hk Hs.
  - destruct l; [|simpl in Hl; lia]. exists k, [], st. split; [by destruct fuel|]. split_and!; try done; [simpl; lia|].
    intros [|f] Hff; [lia|done].
  - destruct (decide (12 < length l)%nat) as [H12|H12].
    + destruct fuel as [|fuel]; [lia|]. pose proof (block_ok mem w d k l st R Hk H12) as B.
      destruct st as [[a b] c] eqn:Est. destruct B as (w0 & w1 & w2 & E0 & E1 & E2 & Ew). rewrite <- Est in *.
      destruct (IH fuel (k + 4 * 3) (drop 12 l) (__rte_jhash_mix (add3 l st))) as (k' & l' & st' & E & Hk' & Hl' & Hs' & HL).
      * rewrite length_drop. lia.
      * lia.
      * rewrite length_drop. lia.
      * done.
      * replace (k + 4 * 3 + d) with (k + d + Z.of_nat 12) by lia. apply key_at_drop; [done|lia].
      * apply mix_fits, add3_fits.
      * exists k', l', st'. split; [|split_and!; try done].
        -- cbn [jhash_blocks]. rewrite (proj2 (Z.gtb_lt _ 12)) by lia. rewrite Est.
           rewrite E0. cbn [mbind option_bind]. rewrite E1. cbn [mbind option_bind]. rewrite E2. cbn [mbind option_bind].
           rewrite Ew, wrap_small by (unfold fits; lia). rewrite <- E, length_drop. f_equal. lia.
        -- intros [|f] Hff; [lia|]. cbn [lookup3]. rewrite (proj2 (Nat.ltb_lt _ _) H12). apply HL. lia.
    + exists k, l, st. split.
      { destruct fuel; simpl; rewrite Z.gtb_ltb, (proj2 (Z.ltb_ge _ _)) by lia; done. }
      split_and!; try done; [lia|]. intros [|f] Hff; [lia|]. cbn [lookup3].
      rewrite (proj2 (Nat.ltb_ge _ _)) by lia. by destruct l.
Qed.

(** In both modes, and on both kinds of machine, the hash is that of the bytes. *)
Lemma jhash_ok x86 mem key l pc pb align :
  key_at mem key l -> 0 <= key < 2 ^ 64 -> Z.of_nat (length l) < 2 ^ 32 ->
  (align = 0 -> x86 = true \/ key mod 4 = 0) ->
  __rte_jhash_2hashes x86 mem key (Z.of_nat (length l)) pc pb align = Some (hashlittle2 l pc pb).
Proof.
  intros Hk Hr Hl Ha. unfold __rte_jhash_2hashes.
  set (k := if x86 then key else _). set (s := if x86 then 0 else _).
  set (w := if negb (truthy align) || (s =? 0) then k_word mem else fun k => k_shifted mem k s).
  assert (exists d, key = k + d /\ reads mem w d) as (d & Ek & R).
  { destruct x86; subst k s w.
    - exists 0. split; [lia|]. rewrite Z.eqb_refl, orb_true_r. apply k_word_reads.
    - assert (Z.land key 3 = key mod 4) as -> by (apply (land_mask key 2); lia).
      assert (Z.land key (u64 (Z.lnot 3)) = key - key mod 4) as -> by (apply (land_clear_low 64 2 key); [lia|done]).
      pose proof (Z.mod_pos_bound key 4 ltac:(lia)). exists (key mod 4). split; [lia|].
      destruct (decide (key mod 4 = 0)) as [->|Hn]; [rewrite Z.eqb_refl, orb_true_r; apply k_word_reads|].
      unfold truthy. destruct (Z.eqb_spec align 0) as [->|Hal]; [by destruct (Ha eq_refl)|]. simpl.
      rewrite (proj2 (Z.eqb_neq (key mod 4 * 8) 0)) by lia. apply k_shifted_reads. lia. }
  clearbody k s w. subst key. set (a := u32 (RTE_JHASH_GOLDEN_RATIO + Z.of_nat (length l) + pc)).
  assert (forall x, fits 32 (u32 x)) as U by (intros; apply (wrap_fits 32); lia).
  destruct (blocks_ok mem w d (length l) (Z.to_nat (Z.of_nat (length l))) k l (a, a, u32 (a + pb)))
    as (k' & l' & st' & E & Hk' & Hl' & Hs' & HL); [done|lia|done|done|done|by split_and!; apply U|].
  rewrite E. cbn [mbind option_bind]. destruct st' as [[a' b'] c'].
  rewrite (tail_ok mem w d k' l' (a', b', c') R Hk' Hl' Hs'). cbn [mbind option_bind].
  unfold hashlittle2. change 0xdeadbeef with RTE_JHASH_GOLDEN_RATIO. fold a. rewrite HL by lia.
  destruct l' as [|x l']; [done|]. cbn [last_block].
  by destruct (__rte_jhash_final (add3 (x :: l') (a', b', c'))) as [[? ?] ?].
Qed.

(** ** Words *)

(** The bytes of words in memory. *)
Definition words_bytes (ws : list Z) : list Z := concat (map word_bytes ws).

Lemma length_words_bytes ws : length (words_bytes ws) = (4 * length ws)%nat.
Proof. induction ws as [|w ws IH]; [done|]. unfold words_bytes in *. simpl. rewrite IH. lia. Qed.

Lemma le4_word w l : fits 32 w -> le4 (word_bytes w ++ l) = w.
Proof.
  intros Hw. unfold le4, word_bytes. simpl nth. unfold fits in Hw. unfold wrap.
  pose proof (Z.div_mod w (2 ^ 8) ltac:(lia)). pose proof (Z.div_mod (w / 2 ^ 8) (2 ^ 8) ltac:(lia)).
  pose proof (Z.div_mod (w / 2 ^ 16) (2 ^ 8) ltac:(lia)).
  assert (w / 2 ^ 16 = w / 2 ^ 8 / 2 ^ 8) as E1 by (rewrite Z.div_div by lia; done).
  assert (w / 2 ^ 24 = w / 2 ^ 16 / 2 ^ 8) as E2 by (rewrite Z.div_div by lia; done).
  assert ((w / 2 ^ 24) mod 2 ^ 8 = w / 2 ^ 24) as E3.
  { apply Z.mod_small. split; [apply Z.div_pos; lia|apply Z.div_lt_upper_bound; lia]. }
  lia.
Qed.

Lemma words_3 a b c initval (l : list Z) (n : Z) :
  (n = 4 \/ n = 8 \/ n = 12) -> Z.of_nat (length l) = n -> le4 l = a -> le4 (drop 4 l) = b -> le4 (drop 8 l) = c ->
  (hashlittle2 l initval 0).1
  = __rte_jhash_3words (u32 (a + n)) (u32 (b + n)) (u32 (c + n)) initval.
Proof.
  intros Hn Hl Ha Hb Hc. unfold hashlittle2. rewrite Hl.
  assert ((12 <? length l)%nat = false) as H12 by (apply Nat.ltb_ge; lia).
  cbn [lookup3]. rewrite H12. destruct l as [|x l]; [simpl in Hl; lia|]. unfold add3, __rte_jhash_3words.
  rewrite Ha, Hb, Hc. change 0xdeadbeef with RTE_JHASH_GOLDEN_RATIO.
  assert (forall y, u32 (u32 (RTE_JHASH_GOLDEN_RATIO + n + initval) + y)
    = u32 (u32 (y + n) + u32 (RTE_JHASH_GOLDEN_RATIO + initval))) as Ey.
  { intros y. rewrite !wrap_add_l, wrap_add_r. f_equal. lia. }
  rewrite Z.add_0_r, wrap_wrap, !Ey. by destruct (__rte_jhash_final _) as [[? ?] ?].
Qed.

(** C24. The Jenkins hash is lookup3 ([hashlittle2]) of the bytes of the key: for
    any address and length, on x86 and in the mode with shifted words, whatever
    the bytes around the key are; the versions for arrays of words and for one,
    two and three words are the same hash of the bytes of the words. *)
Theorem jhash_is_lookup3 x86 mem key l initval initval2 :
  key_at mem key l -> 0 <= key < 2 ^ 64 -> Z.of_nat (length l) < 2 ^ 32 ->
  let n := Z.of_nat (length l) in
  rte_jhash_2hashes x86 mem key n initval initval2 = Some (hashlittle2 l initval initval2)
  /\ rte_jhash x86 mem key n initval = Some (hashlittle2 l initval 0).1
  /\ (forall ws, l = words_bytes ws -> key mod 4 = 0 ->
        rte_jhash_32b_2hashes x86 mem key (Z.of_nat (length ws)) initval initval2 = Some (hashlittle2 l initval initval2)
        /\ rte_jhash_32b x86 mem key (Z.of_nat (length ws)) initval = Some (hashlittle2 l initval 0).1)
  /\ (forall a, fits 32 a -> l = words_bytes [a] -> rte_jhash_1word a initval = (hashlittle2 l initval 0).1)
  /\ (forall a b, fits 32 a -> fits 32 b -> l = words_bytes [a; b] ->
        rte_jhash_2words a b initval = (hashlittle2 l initval 0).1)
  /\ (forall a b c, fits 32 a -> fits 32 b -> fits 32 c -> l = words_bytes [a; b; c] ->
        rte_jhash_3words a b c initval = (hashlittle2 l initval 0).1).
Proof.
  intros Hk Hr Hl n.
  assert (forall ws, l = words_bytes ws -> u32 (Z.shiftl (Z.of_nat (length ws)) 2) = n) as Hw.
  { intros ws ->. subst n. rewrite length_words_bytes in *. rewrite Z.shiftl_mul_pow2 by lia.
    rewrite wrap_small by (unfold fits; lia). lia. }
  split; [by apply jhash_ok|]. split.
  { unfold rte_jhash, rte_jhash_2hashes. rewrite (jhash_ok _ _ _ l) by done. by destruct (hashlittle2 l initval 0). }
  split.
  { intros ws E H4. unfold rte_jhash_32b, rte_jhash_32b_2hashes. rewrite (Hw ws E).
    rewrite !(jhash_ok _ _ _ l) by auto. split; [done|]. by destruct (hashlittle2 l initval 0). }
  split; [|split].
  - intros a Fa ->. symmetry. apply (words_3 a 0 0 initval _ 4); try done; [by left|apply (le4_word a [] Fa)].
  - intros a b Fa Fb ->. symmetry. apply (words_3 a b 0 initval _ 8); try done; [by right; left|apply (le4_word a _ Fa)|apply (le4_word b [] Fb)].
  - intros a b c Fa Fb Fc ->. symmetry. apply (words_3 a b c initval _ 12); try done; [by right; right|apply (le4_word a _ Fa)|apply (le4_word b _ Fb)|apply (le4_word c [] Fc)].
Qed.

Lemma jhash_is_lookup3_witness :
  let mem : memory := fun a => if (0 <=? a) && (a <? 200) then Some a else None in
  rte_jhash false mem 101 5 7 = rte_jhash true mem 101 5 7
  /\ rte_jhash false mem 101 5 7 = Some (hashlittle2 [101; 102; 103; 104; 105] 7 0).1.
Proof.
  intros mem. assert (key_at mem 101 [101; 102; 103; 104; 105]) as Hk.
  { split.
    - intros [|[|[|[|[|i]]]]] b E; simpl in E; simplify_eq; reflexivity.
    - intros a Ha. simpl in Ha. exists a. unfold mem. rewrite (proj2 (Z.leb_le 0 a)), (proj2 (Z.ltb_lt a 200)) by lia.
      split; [done|]. unfold fits. lia. }
  destruct (jhash_is_lookup3 false mem 101 _ 7 0 Hk) as (_ & E1 & _); [lia|done|].
  destruct (jhash_is_lookup3 true mem 101 _ 7 0 Hk) as (_ & E2 & _); [lia|done|].
  split; [|exact E1]. etransitivity; [exact E1|symmetry; exact E2].
Defined.
