(* ===== verification/Cksum.v ===== *)
(** * Internet protocol headers and checksums ([include/rte_ip.h]).

    Every function but one reads bytes only: it takes the memory it reads and
    the addresses of the source's pointers, and gives [None] when it reads an
    unmapped byte.  [rte_raw_cksum_mbuf] walks the segments of a packet and
    runs on the heap. *)
From stdpp Require Import prelude list numbers gmap.
From S2P Require Import Prelude Bits Mempool MbufCore Bytes Mbuf.
Open Scope Z_scope.

(** ** The headers: the offsets of their members *)

Definition ipv4_version_ihl (hdr : Z) : Z := hdr.
Definition ipv4_total_length (hdr : Z) : Z := hdr + 2.
Definition ipv4_next_proto_id (hdr : Z) : Z := hdr + 9.
Definition ipv4_hdr_checksum (hdr : Z) : Z := hdr + 10.
Definition ipv4_src_addr (hdr : Z) : Z := hdr + 12.
Definition ipv4_dst_addr (hdr : Z) : Z := hdr + 16.
Definition sizeof_ipv4_hdr : Z := 20.

Definition ipv6_payload_len (hdr : Z) : Z := hdr + 4.
Definition ipv6_proto (hdr : Z) : Z := hdr + 6.
Definition ipv6_src_addr (hdr : Z) : Z := hdr + 8.
Definition sizeof_ipv6_hdr : Z := 40.

Definition RTE_IPV4 (a b c d : Z) : Z :=
  Z.lor (Z.lor (Z.lor (u32 (Z.shiftl (Z.land a 0xff) 24)) (Z.shiftl (Z.land b 0xff) 16))
               (Z.shiftl (Z.land c 0xff) 8)) (Z.land d 0xff).

Definition RTE_IPV4_HDR_IHL_MASK : Z := 0x0f.
Definition RTE_IPV4_IHL_MULTIPLIER : Z := 4.
Definition RTE_IPV4_MIN_MCAST : Z := RTE_IPV4 224 0 0 0.
Definition RTE_IPV4_MAX_MCAST : Z := RTE_IPV4 239 255 255 255.
Definition RTE_IS_IPV4_MCAST (x : Z) : bool :=
  (RTE_IPV4_MIN_MCAST <=? x) && (x <=? RTE_IPV4_MAX_MCAST).

Definition IPPROTO_HOPOPTS : Z := 0.
Definition IPPROTO_UDP : Z := 17.
Definition IPPROTO_ROUTING : Z := 43.
Definition IPPROTO_FRAGMENT : Z := 44.
Definition IPPROTO_AH : Z := 51.
Definition IPPROTO_DSTOPTS : Z := 60.

(** ** Checksums *)

Section read_only.
Context (mem : memory).

Definition rte_ipv4_hdr_len (ipv4_hdr : Z) : option Z :=
  version_ihl ← mem (ipv4_version_ihl ipv4_hdr) ;
  Some (u8 (Z.land version_ihl RTE_IPV4_HDR_IHL_MASK * RTE_IPV4_IHL_MULTIPLIER)).

(** The state of the loop is [buf] and [sum]; it runs once per 16-bit word. *)
Definition __rte_raw_cksum (buf len sum : Z) : option Z :=
  let end_ := RTE_PTR_ADD buf (RTE_ALIGN_FLOOR 64 len 2) in
  '(_, sum) ← while (Datatypes.S (Z.to_nat (len / 2)))
    (fun '(buf, _) => negb (buf =? end_))
    (fun '(buf, sum) =>
       v ← ld16 mem buf ;
       Some (RTE_PTR_ADD buf 2, u32 (sum + v)))
    (buf, sum) ;
  if truthy (len mod 2) then left ← mem end_ ; Some (u32 (sum + left))
  else Some sum.
End read_only.

Definition __rte_raw_cksum_reduce (sum : Z) : Z :=
  let sum := u32 (Z.shiftr (Z.land sum 0xffff0000) 16 + Z.land sum 0xffff) in
  let sum := u32 (Z.shiftr (Z.land sum 0xffff0000) 16 + Z.land sum 0xffff) in
  u16 sum.

Section cksum.
Context (mem : memory).

Definition rte_raw_cksum (buf len : Z) : option Z :=
  sum ← __rte_raw_cksum mem buf len 0 ;
  Some (__rte_raw_cksum_reduce sum).

Definition rte_ipv4_cksum (ipv4_hdr : Z) : option Z :=
  len ← rte_ipv4_hdr_len mem ipv4_hdr ;
  cksum ← rte_raw_cksum ipv4_hdr len ;
  Some (u16 (Z.lnot cksum)).
End cksum.

(** The local structures of the two pseudo-headers, as their bytes. *)
Definition ipv4_psd_header (src_addr dst_addr zero proto len : Z) : list Z :=
  word_bytes src_addr ++ word_bytes dst_addr ++ [u8 zero; u8 proto] ++ half_bytes len.

Definition ipv6_psd_header (len proto : Z) : list Z := word_bytes len ++ word_bytes proto.

Section pseudo_header.
Context (mem : memory).

Definition rte_ipv4_phdr_cksum (ipv4_hdr ol_flags : Z) : option Z :=
  src_addr ← ld32 mem (ipv4_src_addr ipv4_hdr) ;
  dst_addr ← ld32 mem (ipv4_dst_addr ipv4_hdr) ;
  proto ← mem (ipv4_next_proto_id ipv4_hdr) ;
  len ← (if truthy (Z.land ol_flags RTE_MBUF_F_TX_TCP_SEG) then Some 0
         else
           total_length ← ld16 mem (ipv4_total_length ipv4_hdr) ;
           let l3_len := rte_be_to_cpu_16 total_length in
           hdr_len ← rte_ipv4_hdr_len mem ipv4_hdr ;
           Some (rte_cpu_to_be_16 (u16 (u32 (l3_len - hdr_len))))) ;
  let psd_hdr := ipv4_psd_header src_addr dst_addr 0 proto len in
  rte_raw_cksum (local_mem psd_hdr) 0 12.

Definition __rte_ipv4_udptcp_cksum (ipv4_hdr l4_hdr : Z) : option Z :=
  ip_hdr_len ← rte_ipv4_hdr_len mem ipv4_hdr ;
  total_length ← ld16 mem (ipv4_total_length ipv4_hdr) ;
  let l3_len := rte_be_to_cpu_16 total_length in
  if l3_len <? ip_hdr_len then Some 0
  else
    let l4_len := u32 (l3_len - ip_hdr_len) in
    cksum ← rte_raw_cksum mem l4_hdr l4_len ;
    phdr ← rte_ipv4_phdr_cksum ipv4_hdr 0 ;
    let cksum := u32 (cksum + phdr) in
    let cksum := u32 (Z.shiftr (Z.land cksum 0xffff0000) 16 + Z.land cksum 0xffff) in
    Some (u16 cksum).

Definition rte_ipv4_udptcp_cksum (ipv4_hdr l4_hdr : Z) : option Z :=
  cksum ← __rte_ipv4_udptcp_cksum ipv4_hdr l4_hdr ;
  let cksum := u16 (Z.lnot cksum) in
  next_proto_id ← mem (ipv4_next_proto_id ipv4_hdr) ;
  Some (if (cksum =? 0) && (next_proto_id =? IPPROTO_UDP) then 0xffff else cksum).

Definition rte_ipv4_udptcp_cksum_verify (ipv4_hdr l4_hdr : Z) : option Z :=
  cksum ← __rte_ipv4_udptcp_cksum ipv4_hdr l4_hdr ;
  Some (if negb (cksum =? 0xffff) then -1 else 0).

(** [proto << 24] shifts an [int]; the compilers keep the low 32 bits. *)
Definition rte_ipv6_phdr_cksum (ipv6_hdr ol_flags : Z) : option Z :=
  p ← mem (ipv6_proto ipv6_hdr) ;
  let proto := u32 (Z.shiftl p 24) in
  len ← (if truthy (Z.land ol_flags RTE_MBUF_F_TX_TCP_SEG) then Some 0
         else ld16 mem (ipv6_payload_len ipv6_hdr)) ;
  sum ← __rte_raw_cksum mem (ipv6_src_addr ipv6_hdr) 32 0 ;
  sum ← __rte_raw_cksum (local_mem (ipv6_psd_header len proto)) 0 8 sum ;
  Some (__rte_raw_cksum_reduce sum).

Definition __rte_ipv6_udptcp_cksum (ipv6_hdr l4_hdr : Z) : option Z :=
  payload_len ← ld16 mem (ipv6_payload_len ipv6_hdr) ;
  let l4_len := rte_be_to_cpu_16 payload_len in
  cksum ← rte_raw_cksum mem l4_hdr l4_len ;
  phdr ← rte_ipv6_phdr_cksum ipv6_hdr 0 ;
  let cksum := u32 (cksum + phdr) in
  let cksum := u32 (Z.shiftr (Z.land cksum 0xffff0000) 16 + Z.land cksum 0xffff) in
  Some (u16 cksum).

Definition rte_ipv6_udptcp_cksum (ipv6_hdr l4_hdr : Z) : option Z :=
  cksum ← __rte_ipv6_udptcp_cksum ipv6_hdr l4_hdr ;
  let cksum := u16 (Z.lnot cksum) in
  proto ← mem (ipv6_proto ipv6_hdr) ;
  Some (if (cksum =? 0) && (proto =? IPPROTO_UDP) then 0xffff else cksum).

Definition rte_ipv6_udptcp_cksum_verify (ipv6_hdr l4_hdr : Z) : option Z :=
  cksum ← __rte_ipv6_udptcp_cksum ipv6_hdr l4_hdr ;
  Some (if negb (cksum =? 0xffff) then -1 else 0).

(** ** IPv6 extension headers: the result and, when it is written, [*ext_len] *)
Definition rte_ipv6_get_next_ext (p proto : Z) : option (Z * option Z) :=
  if proto =? IPPROTO_AH then
    next_proto ← mem p ; n ← mem (p + 1) ;
    Some (next_proto, Some ((n + 2) * 4))
  else if (proto =? IPPROTO_HOPOPTS) || (proto =? IPPROTO_ROUTING)
          || (proto =? IPPROTO_DSTOPTS) then
    next_proto ← mem p ; n ← mem (p + 1) ;
    Some (next_proto, Some ((n + 1) * 8))
  else if proto =? IPPROTO_FRAGMENT then
    next_proto ← mem p ; Some (next_proto, Some 8)
  else Some (- EINVAL, None).
End pseudo_header.

(** ** The checksum of a part of a packet *)

Section mbuf.
Context {P : Type}.

(** The checksum functions on the bytes of the heap. *)
Definition on_bytes {A} (f : memory -> option A) : M (heap P) A := fun h =>
  a ← f (heap_mem h) ; Some (a, h).

(** The search of the segment that holds the offset: [seg], [off], [seglen]. *)
Definition find_offset (s : Z * Z * Z) : M (heap P) (Z * Z * Z + Z * Z * Z) :=
  let '(seg, off, seglen) := s in
  if seg =? NULL then mret (inr (seg, off, seglen))
  else
    b ← rd seg ;
    let seglen := data_len b in
    if off <? seglen then mret (inr (seg, off, seglen))
    else mret (inl (next b, u32 (off - seglen), seglen)).

(** One round of the loop over the segments: [seg], [buf], [seglen], [sum] and
    [done]; it ends with the sum. *)
Definition sum_segment (len : Z) (s : Z * Z * Z * Z * Z)
  : M (heap P) (Z * Z * Z * Z * Z + Z) :=
  let '(seg, buf, seglen, sum, done) := s in
  tmp ← on_bytes (fun mem => __rte_raw_cksum mem buf seglen 0) ;
  let tmp := if truthy (Z.land done 1) then rte_bswap16 (u16 tmp) else tmp in
  let sum := u32 (sum + tmp) in
  let done := u32 (done + seglen) in
  if done =? len then mret (inr sum)
  else
    b ← rd seg ;
    let seg := next b in
    b ← rd seg ;
    let buf := rte_pktmbuf_mtod b in
    let seglen := data_len b in
    let seglen := if seglen >? u32 (len - done) then u32 (len - done) else seglen in
    mret (inl (seg, buf, seglen, sum, done)).

(** The result and [*cksum], when it is written. *)
Definition rte_raw_cksum_mbuf (m off len : Z) : M (heap P) (Z * option Z) :=
  b ← rd m ;
  if u32 (off + len) <=? data_len b then
    cksum ← on_bytes (fun mem => rte_raw_cksum mem (rte_pktmbuf_mtod_offset b off) len) ;
    mret (0, Some cksum)
  else if u32 (off + len) >? pkt_len b then mret (-1, None)
  else
    h ← get ;
    '(seg, off, seglen) ← do_while (chain_fuel h) find_offset (m, off, 0) ;
    if seg =? NULL then mret (-1, None)
    else
      let seglen := u32 (seglen - off) in
      b ← rd seg ;
      let buf := rte_pktmbuf_mtod_offset b off in
      if seglen >=? len then
        cksum ← on_bytes (fun mem => rte_raw_cksum mem buf len) ;
        mret (0, Some cksum)
      else
        sum ← do_while (chain_fuel h) (sum_segment len) (seg, buf, seglen, 0, 0) ;
        mret (0, Some (__rte_raw_cksum_reduce sum)).
End mbuf.
