(* ===== verification/CksumSpec.v ===== *)
(** * What the checksums promise.

    The specification is the ones' complement sum of the 16-bit words of a
    list of bytes: [word_sum] adds them up and [ones_complement] reduces the
    sum to 16 bits with end-around carries. *)
From stdpp Require Import prelude list numbers gmap.
From S2P Require Import Prelude Bits Mempool MbufCore Bytes Mbuf MbufSpec Cksum.
Open Scope Z_scope.

(** ** The specification *)

(** The sum of the little-endian words; a last odd byte is the low half of a
    word. *)
Fixpoint word_sum (l : list Z) : Z :=
  match l with
  | b0 :: b1 :: l => b0 + 2 ^ 8 * b1 + word_sum l
  | [b] => b
  | [] => 0
  end.

(** The representative of [s] modulo [2^16 - 1] among 1, ..., [2^16 - 1]; 0
    for an empty sum only. *)
Definition ones_complement (s : Z) : Z := if s =? 0 then 0 else (s - 1) mod 65535 + 1.

Lemma oc_range s : 0 <= ones_complement s <= 65535.
Proof.
  unfold ones_complement. destruct (s =? 0); [lia|].
  pose proof (Z.mod_pos_bound (s - 1) 65535 ltac:(lia)). lia.
Qed.

Lemma oc_small s : 0 <= s <= 65535 -> ones_complement s = s.
Proof.
  intros H. unfold ones_complement. destruct (s =? 0) eqn:E; [lia|].
  rewrite Z.mod_small by lia. lia.
Qed.

(** Adding a multiple of [2^16 - 1] to a sum that is not empty. *)
Lemma oc_add s k : 0 < s -> 0 <= k -> ones_complement (s + k * 65535) = ones_complement s.
Proof.
  intros Hs Hk. unfold ones_complement.
  replace (s + k * 65535 =? 0) with false by lia. replace (s =? 0) with false by lia.
  replace (s + k * 65535 - 1) with (s - 1 + k * 65535) by lia. by rewrite Z.mod_add by lia.
Qed.

(** Every sum is its reduction and carries. *)
Lemma oc_carries s :
  0 <= s -> exists k, 0 <= k /\ s = ones_complement s + k * 65535 /\ (0 < s -> 0 < ones_complement s).
Proof.
  intros Hs. unfold ones_complement. destruct (s =? 0) eqn:E; [exists 0; lia|].
  exists ((s - 1) / 65535). pose proof (Z.div_mod (s - 1) 65535 ltac:(lia)).
  pose proof (Z.mod_pos_bound (s - 1) 65535 ltac:(lia)).
  split; [apply Z.div_pos; lia|]. lia.
Qed.

Lemma oc_oc_add s t :
  0 <= s -> 0 <= t -> ones_complement (ones_complement s + t) = ones_complement (s + t).
Proof.
  intros Hs Ht. destruct (oc_carries s Hs) as (k & Hk & E & Hp).
  destruct (decide (s = 0)) as [->|]; [done|]. rewrite E at 2.
  replace (ones_complement s + k * 65535 + t) with (ones_complement s + t + k * 65535) by lia.
  by rewrite oc_add by lia.
Qed.

(** The sum of a block and of the complement of its sum. *)
Lemma oc_complement s c :
  0 <= s -> c = 65535 - ones_complement s \/ (c = 65535 /\ ones_complement s = 65535) ->
  ones_complement (s + c) = 65535.
Proof.
  intros Hs Hc. pose proof (oc_range s). rewrite <- oc_oc_add by lia.
  destruct Hc as [->|[-> ->]]; [|done].
  replace (ones_complement s + (65535 - ones_complement s)) with 65535 by lia. done.
Qed.

Lemma word_sum_app l1 l2 :
  Nat.Even (length l1) -> word_sum (l1 ++ l2) = word_sum l1 + word_sum l2.
Proof.
  intros [n Hn]. revert l1 Hn. induction n as [|n IH]; intros l1 Hn.
  - by destruct l1.
  - destruct l1 as [|b0 [|b1 l1]]; simpl in Hn; [lia..|].
    cbn [app word_sum]. rewrite IH by lia. lia.
Qed.

Lemma word_sum_bound l :
  Forall (fits 8) l -> 0 <= word_sum l <= 65535 * ((Z.of_nat (length l) + 1) / 2).
Proof.
  remember (length l) as n eqn:Hn. revert l Hn.
  induction (lt_wf n) as [n _ IH]. intros l -> Hf.
  destruct l as [|b0 [|b1 l]]; [done| |].
  - rewrite Forall_cons in Hf. destruct Hf as [H0 _]. unfold fits in H0. cbn [length word_sum].
    change ((Z.of_nat 1 + 1) / 2) with 1. lia.
  - rewrite !Forall_cons in Hf. destruct Hf as (H0 & H1 & Hf). unfold fits in H0, H1.
    pose proof (IH (length l) ltac:(simpl; lia) l eq_refl Hf). cbn [word_sum].
    replace (Z.of_nat (length (b0 :: b1 :: l)) + 1) with (Z.of_nat (length l) + 1 + 1 * 2)
      by (simpl length; lia).
    rewrite Z.div_add by lia. lia.
Qed.

(** A zeroed word, filled. *)
Lemma word_sum_fill l o v :
  Nat.Even o -> take 2 (drop o l) = [0; 0] -> fits 16 v ->
  word_sum (splice l o (half_bytes v)) = word_sum l + v.
Proof.
  intros He Ht Hv. assert (Hl : (o + 2 <= length l)%nat).
  { apply (f_equal length) in Ht. rewrite length_take, length_drop in Ht.
    change (length [0; 0]) with 2%nat in Ht. lia. }
  assert (E : l = take o l ++ [0; 0] ++ drop (o + 2) l).
  { rewrite <- Ht, <- drop_drop, take_drop. by rewrite take_drop. }
  assert (Nat.Even (length (take o l))) by (rewrite length_take, Nat.min_l by lia; done).
  assert (word_sum l = word_sum (take o l) + word_sum (drop (o + 2) l)) as ->
    by (rewrite E at 1; by rewrite word_sum_app).
  unfold splice. rewrite word_sum_app by done. change (length (half_bytes v)) with 2%nat. cbn [app half_bytes word_sum].
  rewrite of_half_bytes, wrap_small by done. lia.
Qed.

(** ** The functions *)

(** One fold of the carries. *)
Lemma fold_carries s :
  fits 32 s ->
  u32 (Z.shiftr (Z.land s 0xffff0000) 16 + Z.land s 0xffff) = s / 2 ^ 16 + s mod 2 ^ 16.
Proof.
  intros Hs. assert (Z.shiftr (Z.land s 0xffff0000) 16 = s / 2 ^ 16) as ->.
  { rewrite Z.shiftr_land, Z.shiftr_div_pow2 by lia. change (Z.shiftr 0xffff0000 16) with (2 ^ 16 - 1).
    rewrite land_mask by lia. apply Z.mod_small. unfold fits in Hs.
    split; [apply Z.div_pos; lia|apply Z.div_lt_upper_bound; lia]. }
  change 0xffff with (2 ^ 16 - 1). rewrite land_mask by lia. apply wrap_small.
  unfold fits in *. pose proof (Z.mod_pos_bound s (2 ^ 16) ltac:(lia)).
  assert (0 <= s / 2 ^ 16 < 2 ^ 16)
    by (split; [apply Z.div_pos; lia|apply Z.div_lt_upper_bound; lia]). lia.
Qed.

Lemma fold_once s : 0 <= s <= 131070 -> s / 2 ^ 16 + s mod 2 ^ 16 = ones_complement s.
Proof.
  intros Hs. destruct (decide (s < 65536)).
  - rewrite Z.div_small, Z.mod_small, oc_small by lia. lia.
  - replace s with (s - 65536 + 1 * 2 ^ 16) at 1 2 by lia. rewrite Z.div_add, Z.mod_add by lia.
    rewrite Z.div_small, Z.mod_small by lia.
    replace s with (s - 65535 + 1 * 65535) at 2 by lia. rewrite oc_add, oc_small by lia. lia.
Qed.

Lemma reduce_ok s : fits 32 s -> __rte_raw_cksum_reduce s = ones_complement s.
Proof.
  intros Hs. unfold __rte_raw_cksum_reduce. rewrite (fold_carries s) by done. unfold fits in Hs.
  pose proof (Z.mod_pos_bound s (2 ^ 16) ltac:(lia)). pose proof (Z.div_mod s (2 ^ 16) ltac:(lia)).
  assert (0 <= s / 2 ^ 16 < 2 ^ 16)
    by (split; [apply Z.div_pos; lia|apply Z.div_lt_upper_bound; lia]).
  rewrite fold_carries by (unfold fits; lia). rewrite fold_once by lia.
  assert (ones_complement (s / 2 ^ 16 + s mod 2 ^ 16) = ones_complement s) as ->.
  { destruct (decide (s = 0)) as [->|]; [done|].
    replace s with (s / 2 ^ 16 + s mod 2 ^ 16 + s / 2 ^ 16 * 65535) at 3 by lia.
    rewrite oc_add; lia. }
  apply wrap_small. unfold fits. pose proof (oc_range s). lia.
Qed.

(** The loop over whole words. *)
Lemma word_loop mem n : forall fuel buf l sum,
  bytes_at mem buf l -> length l = (2 * n)%nat -> (n < fuel)%nat ->
  0 <= buf -> buf + Z.of_nat (length l) < 2 ^ 64 -> fits 32 sum ->
  while fuel (fun '(b, _) => negb (b =? buf + Z.of_nat (length l)))
    (fun '(b, s) => v ← ld16 mem b ; Some (RTE_PTR_ADD b 2, u32 (s + v))) (buf, sum)
  = Some (buf + Z.of_nat (length l), u32 (sum + word_sum l)).
Proof.
  induction n as [|n IH]; intros [|fuel] buf l sum Hb Hl Hf H0 Hm Hs; [lia| |lia|].
  - destruct l; [|simpl in Hl; lia]. cbn [length while word_sum].
    rewrite !Z.add_0_r, Z.eqb_refl. simpl. by rewrite wrap_small.
  - destruct l as [|b0 [|b1 l]]; simpl in Hl; [lia..|]. cbn [while].
    assert (E : Z.of_nat (length (b0 :: b1 :: l)) = 2 + Z.of_nat (length l))
      by (cbn [length]; lia).
    rewrite E in Hm |- *. replace (buf =? buf + (2 + Z.of_nat (length l))) with false by lia.
    cbn [negb]. rewrite (ld16_run _ _ _ _ _ Hb). cbn [mbind option_bind].
    rewrite !bytes_at_cons in Hb. destruct Hb as (_ & _ & _ & _ & Hb).
    unfold RTE_PTR_ADD at 2. rewrite (wrap_small 64 (buf + 2)) by (unfold fits; lia).
    rewrite Z.add_assoc.
    rewrite IH by (try apply wrap_fits; try lia; by rewrite <- Z.add_assoc in Hb).
    cbn [word_sum]. autorewrite with wrapdb. do 3 f_equal. lia.
Qed.

Lemma raw_cksum_run mem buf l sum :
  bytes_at mem buf l -> 0 <= buf -> buf + Z.of_nat (length l) < 2 ^ 64 -> fits 32 sum ->
  __rte_raw_cksum mem buf (Z.of_nat (length l)) sum = Some (u32 (sum + word_sum l)).
Proof.
  intros Hb H0 Hm Hs. set (n := (length l / 2)%nat).
  pose proof (Nat.div_mod (length l) 2 ltac:(lia)) as Hd. fold n in Hd.
  pose proof (Nat.mod_upper_bound (length l) 2 ltac:(lia)).
  set (w := take (2 * n) l). set (r := drop (2 * n) l).
  assert (El : l = w ++ r) by (symmetry; apply take_drop).
  assert (Hw : length w = (2 * n)%nat) by (unfold w; rewrite length_take; lia).
  assert (Hr : length r = (length l mod 2)%nat) by (unfold r; rewrite length_drop; lia).
  pose proof Hb as Hb'. rewrite El, bytes_at_app in Hb'. destruct Hb' as [Hbw Hbr].
  assert (RTE_PTR_ADD buf (RTE_ALIGN_FLOOR 64 (Z.of_nat (length l)) 2)
          = buf + Z.of_nat (length w)) as He.
  { change 2 with (2 ^ 1). rewrite align_floor_mod by (unfold fits; lia).
    change (2 ^ 1) with 2. rewrite <- (Nat2Z.inj_mod _ 2). unfold RTE_PTR_ADD.
    rewrite wrap_small by (unfold fits; lia). lia. }
  unfold __rte_raw_cksum. rewrite He, <- (Nat2Z.inj_mod _ 2), <- (Nat2Z.inj_div _ 2), Nat2Z.id.
  fold n.
  rewrite (word_loop mem n) by (done || lia). cbn [mbind option_bind].
  rewrite El, word_sum_app by (exists n; lia). rewrite <- El.
  destruct r as [|c [|]]; cbn [length] in Hr; [| |lia]; rewrite <- Hr.
  - cbn [truthy word_sum]. by rewrite Z.add_0_r.
  - apply bytes_at_cons in Hbr as [E _]. cbn [truthy Z.of_nat Z.eqb negb].
    rewrite E. cbn [mbind option_bind word_sum]. autorewrite with wrapdb. do 2 f_equal. lia.
Qed.

Lemma raw_cksum_ok mem buf l :
  bytes_at mem buf l -> 0 <= buf -> buf + Z.of_nat (length l) < 2 ^ 64 ->
  Z.of_nat (length l) <= 2 ^ 17 ->
  rte_raw_cksum mem buf (Z.of_nat (length l)) = Some (ones_complement (word_sum l)).
Proof.
  intros Hb H0 Hm Hl. unfold rte_raw_cksum.
  rewrite (raw_cksum_run _ _ _ 0 Hb) by (done || lia || (unfold fits; lia)). cbn [mbind option_bind].
  pose proof (word_sum_bound l (bytes_at_fits _ _ _ Hb)) as Hw.
  assert ((Z.of_nat (length l) + 1) / 2 <= 2 ^ 16)
    by (apply Z.lt_succ_r, Z.div_lt_upper_bound; lia).
  rewrite Z.add_0_l, wrap_small by (unfold fits; lia). by rewrite reduce_ok by (unfold fits; lia).
Qed.

(** [rte_raw_cksum] returns, for any bytes of up to 2^17, in memory at an
    even or odd address, the ones' complement sum of their 16-bit words: its
    loop ends and its 32-bit sum does not overflow. *)
Theorem raw_cksum_ones_complement (mem : memory) (buf : Z) (l : list Z) :
  bytes_at mem buf l -> 0 <= buf -> buf + Z.of_nat (length l) < 2 ^ 64 ->
  Z.of_nat (length l) <= 2 ^ 17 ->
  rte_raw_cksum mem buf (Z.of_nat (length l)) = Some (ones_complement (word_sum l)).
Proof. apply raw_cksum_ok. Qed.

Lemma raw_cksum_ones_complement_witness :
  rte_raw_cksum (local_mem [255; 255; 2; 0; 7]) 0 5 = Some 9.
Proof.
  apply (raw_cksum_ones_complement (local_mem [255; 255; 2; 0; 7]) 0 [255; 255; 2; 0; 7]).
  - apply bytes_at_local. repeat constructor; unfold fits; lia.
  - lia.
  - simpl. lia.
  - simpl. lia.
Defined.

(** ** Headers *)

(** The length the header of [l] claims. *)
Definition claimed_hdr_len (l : list Z) : Z := default 0 (l !! 0%nat) mod 16 * 4.

Lemma hdr_len_run mem hdr ip :
  bytes_at mem hdr ip -> (0 < length ip)%nat -> rte_ipv4_hdr_len mem hdr = Some (claimed_hdr_len ip).
Proof.
  intros H Hl. destruct ip as [|b ip]; [simpl in Hl; lia|]. apply bytes_at_cons in H as (E & F & _).
  unfold rte_ipv4_hdr_len, ipv4_version_ihl. rewrite E. cbn [mbind option_bind].
  unfold claimed_hdr_len. simpl. do 2 f_equal.
  unfold RTE_IPV4_HDR_IHL_MASK, RTE_IPV4_IHL_MULTIPLIER. change 15 with (2 ^ 4 - 1).
  rewrite land_mask by lia. apply wrap_small. unfold fits.
  pose proof (Z.mod_pos_bound b 16 ltac:(lia)). lia.
Qed.

(** The complement of a 16-bit value. *)
Lemma lnot16 z : fits 16 z -> u16 (Z.lnot z) = 65535 - z.
Proof.
  intros H. unfold fits in H. unfold Z.lnot. rewrite <- (wrap_add_mult 16 _ 1) by lia.
  rewrite wrap_small by (unfold fits; lia). lia.
Qed.

(** The IPv4 header checksum: when the checksum member holds 0, storing
    the result of [rte_ipv4_cksum] in it makes the ones' complement sum of the
    header 0xffff, which is the receiver's test. *)
Theorem ipv4_cksum_valid {P : Type} (h : heap P) (hdr : Z) (ip : list Z) :
  bytes_at (heap_mem h) hdr ip -> 0 <= hdr -> hdr + Z.of_nat (length ip) < 2 ^ 64 ->
  20 <= Z.of_nat (length ip) -> claimed_hdr_len ip = Z.of_nat (length ip) ->
  take 2 (drop 10 ip) = [0; 0] ->
  exists c h', rte_ipv4_cksum (heap_mem h) hdr = Some c
    /\ store16 (ipv4_hdr_checksum hdr) c h = Some (tt, h')
    /\ rte_raw_cksum (heap_mem h') hdr (Z.of_nat (length ip)) = Some 0xffff.
Proof.
  intros Hb H0 Hm Hl Hc Ht.
  assert (Hu : Z.of_nat (length ip) <= 60).
  { rewrite <- Hc. unfold claimed_hdr_len.
    pose proof (Z.mod_pos_bound (default 0 (ip !! 0%nat)) 16 ltac:(lia)). lia. }
  pose proof (oc_range (word_sum ip)) as Hr. set (s := word_sum ip) in *.
  exists (65535 - ones_complement s).
  destruct (store16_run h hdr ip 10 (65535 - ones_complement s) Hb ltac:(lia))
    as (h' & Hs & Hb' & _ & _).
  exists h'. split; [|split; [done|]].
  - unfold rte_ipv4_cksum. rewrite (hdr_len_run _ _ ip) by (done || lia). cbn [mbind option_bind].
    rewrite Hc, raw_cksum_ok by (done || lia). cbn [mbind option_bind].
    by rewrite lnot16 by (unfold fits; fold s; lia).
  - rewrite <- (length_put ip 10 (65535 - ones_complement s)) by lia.
    rewrite raw_cksum_ok; rewrite ?length_put by lia; try (done || lia).
    rewrite word_sum_fill by (done || (by exists 5%nat) || (unfold fits; lia)).
    fold s. f_equal. pose proof (word_sum_bound ip (bytes_at_fits _ _ _ Hb)).
    apply oc_complement; [lia|by left].
Qed.

(** An IPv4 header without options and with its checksum member 0. *)
Definition demo_ip (proto len : Z) : list Z :=
  [0x45; 0; 0; len; 0x12; 0x34; 0; 0; 64; proto; 0; 0; 10; 0; 0; 1; 10; 0; 0; 2].

Definition demo_heap (a : Z) (l : list Z) : heap unit :=
  mk_heap ∅ ∅ ∅ ∅ ∅ (list_to_map (imap (fun i b => (a + Z.of_nat i, b)) l)).

Lemma ipv4_cksum_valid_witness :
  exists c (h' : heap unit),
    rte_ipv4_cksum (heap_mem (demo_heap 4096 (demo_ip 17 48))) 4096 = Some c
    /\ rte_raw_cksum (heap_mem h') 4096 20 = Some 0xffff.
Proof.
  destruct (ipv4_cksum_valid (demo_heap 4096 (demo_ip 17 48)) 4096 (demo_ip 17 48))
    as (c & h' & E & _ & E').
  - by apply bytes_of_at.
  - lia.
  - simpl. lia.
  - simpl. lia.
  - reflexivity.
  - reflexivity.
  - by exists c, h'.
Defined.

(** ** The checksum of a transport header *)

Lemma transport_fold t p :
  0 <= t -> 0 <= p ->
  u16 (let cksum := u32 (ones_complement t + ones_complement p) in
       u32 (Z.shiftr (Z.land cksum 0xffff0000) 16 + Z.land cksum 0xffff))
  = ones_complement (t + p).
Proof.
  intros Ht Hp. pose proof (oc_range t). pose proof (oc_range p). cbv zeta.
  rewrite (wrap_small 32 (ones_complement t + ones_complement p)) by (unfold fits; lia).
  rewrite fold_carries, fold_once by (unfold fits; lia || lia).
  rewrite oc_oc_add, (Z.add_comm t), oc_oc_add, (Z.add_comm p) by lia.
  apply wrap_small. unfold fits. pose proof (oc_range (t + p)). lia.
Qed.

(** Which values [v] of the checksum member the sum [s] of all the other words
    accepts, for the complement [c] of [s] or, for UDP, 0xffff instead of 0. *)
Definition complement_of (s : Z) (udp : bool) : Z :=
  let c := 65535 - ones_complement s in
  if (c =? 0) && udp then 65535 else c.

Lemma accepted s udp v :
  0 < s -> fits 16 v ->
  (ones_complement (s + v) =? 0xffff) = ((v - complement_of s udp) mod 65535 =? 0).
Proof.
  intros Hs Hv. unfold fits in Hv. destruct (oc_carries s ltac:(lia)) as (k & Hk & E & Hp).
  pose proof (oc_range s).
  assert (Hc : (v - complement_of s udp) mod 65535 = (s + v) mod 65535).
  { unfold complement_of. destruct (_ && _) eqn:U.
    - assert (ones_complement s = 65535) by lia.
      replace (s + v) with (v - 65535 + (k + 2) * 65535) by lia. by rewrite Z.mod_add.
    - replace (s + v) with (v - (65535 - ones_complement s) + (k + 1) * 65535) by lia.
      by rewrite Z.mod_add. }
  rewrite Hc. unfold ones_complement. replace (s + v =? 0) with false by lia.
  pose proof (Z.div_mod (s + v - 1) 65535 ltac:(lia)).
  pose proof (Z.mod_pos_bound (s + v - 1) 65535 ltac:(lia)).
  pose proof (Z.div_mod (s + v) 65535 ltac:(lia)).
  pose proof (Z.mod_pos_bound (s + v) 65535 ltac:(lia)).
  destruct (_ =? 0xffff) eqn:A, (_ =? 0) eqn:B; try done; nia.
Qed.

Lemma complement_range s udp : 0 <= complement_of s udp <= 65535.
Proof. unfold complement_of. pose proof (oc_range s). destruct (_ && _); lia. Qed.

(** *** IPv4 *)

Definition proto4 (ip : list Z) : Z := default 0 (ip !! 9%nat).

(** The pseudo-header of the packet whose IPv4 header is [ip]. *)
Definition pseudo4 (ip : list Z) : list Z :=
  ipv4_psd_header (le32_at ip 12) (le32_at ip 16) 0 (proto4 ip)
    (rte_cpu_to_be_16 (u16 (be16_at ip 2 - claimed_hdr_len ip))).

Lemma pseudo4_fits ip : Forall (fits 8) (pseudo4 ip).
Proof.
  unfold pseudo4, ipv4_psd_header. rewrite !Forall_app.
  split_and!; [apply word_bytes_fits..| |apply half_bytes_fits].
  repeat constructor; apply wrap_range; lia.
Qed.

Lemma swapped_positive x : 0 < x -> fits 16 x -> 0 < rte_cpu_to_be_16 x < 2 ^ 16.
Proof.
  intros Hx Hf. unfold rte_cpu_to_be_16. rewrite <- bswap_16.
  pose proof (bswap_fits 16 x ltac:(by left)) as F.
  pose proof (bswap_involutive 16 x ltac:(by left) Hf) as I. unfold fits in F.
  destruct (decide (bswap 16 x = 0)) as [E|]; [|lia].
  rewrite E in I. vm_compute in I. lia.
Qed.

Lemma word_sum_half v : word_sum (half_bytes v) = u16 v.
Proof. unfold half_bytes. cbn [word_sum]. by rewrite Z.add_0_r, of_half_bytes. Qed.

Lemma pseudo4_positive ip :
  0 < be16_at ip 2 - claimed_hdr_len ip < 2 ^ 16 -> 0 < word_sum (pseudo4 ip).
Proof.
  intros H. pose proof (pseudo4_fits ip) as F. unfold pseudo4, ipv4_psd_header in *.
  rewrite !app_assoc in *. rewrite word_sum_app by (by exists 5%nat).
  apply Forall_app in F as [F _]. apply word_sum_bound in F. rewrite word_sum_half.
  rewrite (wrap_small 16 (be16_at ip 2 - _)) by (unfold fits; lia).
  pose proof (swapped_positive (be16_at ip 2 - claimed_hdr_len ip)
                ltac:(lia) ltac:(unfold fits; lia)).
  rewrite (wrap_small 16 (rte_cpu_to_be_16 _)) by (unfold fits; lia). lia.
Qed.

Section ipv4.
Context (mem : memory) (hdr : Z) (ip : list Z).
Hypothesis Hip : bytes_at mem hdr ip.
Hypothesis Hlen : (20 <= length ip)%nat.
Hypothesis Hclaim : claimed_hdr_len ip <= be16_at ip 2.

Lemma read_total_length : ld16 mem (ipv4_total_length hdr) = Some (le16_at ip 2).
Proof using Hip Hlen. apply (ld16_at mem hdr ip 2 Hip). lia. Qed.

Lemma read_proto : mem (ipv4_next_proto_id hdr) = Some (proto4 ip).
Proof using Hip Hlen.
  destruct (lookup_lt_is_Some_2 ip 9 ltac:(lia)) as [b Hb]. unfold proto4. rewrite Hb.
  by apply (bytes_at_lookup _ _ _ 9 _ Hip).
Qed.

Lemma total_minus_header :
  u32 (be16_at ip 2 - claimed_hdr_len ip) = be16_at ip 2 - claimed_hdr_len ip.
Proof using Hip Hclaim.
  clear Hlen.
  apply wrap_small. pose proof (be16_range ip 2 (bytes_at_fits _ _ _ Hip)). unfold fits in *.
  assert (0 <= claimed_hdr_len ip); [|lia]. unfold claimed_hdr_len.
  pose proof (Z.mod_pos_bound (default 0 (ip !! 0%nat)) 16 ltac:(lia)). lia.
Qed.

Lemma phdr4_run :
  rte_ipv4_phdr_cksum mem hdr 0 = Some (ones_complement (word_sum (pseudo4 ip))).
Proof using Hip Hlen Hclaim.
  unfold rte_ipv4_phdr_cksum, ipv4_src_addr, ipv4_dst_addr.
  change (hdr + 12) with (hdr + Z.of_nat 12). change (hdr + 16) with (hdr + Z.of_nat 16).
  rewrite (ld32_at mem hdr ip 12 Hip) by lia. cbn [mbind option_bind].
  rewrite (ld32_at mem hdr ip 16 Hip) by lia. cbn [mbind option_bind].
  rewrite read_proto. cbn [mbind option_bind]. rewrite Z.land_0_l. cbn [truthy Z.eqb negb].
  rewrite read_total_length. cbn [mbind option_bind].
  rewrite (hdr_len_run _ _ ip Hip) by lia. cbn [mbind option_bind].
  rewrite le16_be, total_minus_header by (by eapply bytes_at_fits).
  apply (raw_cksum_ok (local_mem (pseudo4 ip)) 0 (pseudo4 ip)); [|done..].
  apply bytes_at_local, pseudo4_fits.
Qed.

Lemma transport4_run l4 seg :
  bytes_at mem l4 seg -> 0 <= l4 -> l4 + Z.of_nat (length seg) < 2 ^ 64 ->
  be16_at ip 2 = claimed_hdr_len ip + Z.of_nat (length seg) ->
  __rte_ipv4_udptcp_cksum mem hdr l4
  = Some (ones_complement (word_sum seg + word_sum (pseudo4 ip))).
Proof using Hip Hlen Hclaim.
  intros Hs H0 Hm Hl. unfold __rte_ipv4_udptcp_cksum.
  rewrite (hdr_len_run _ _ ip Hip) by lia. cbn [mbind option_bind].
  rewrite read_total_length. cbn [mbind option_bind].
  pose proof (bytes_at_fits _ _ _ Hip) as F.
  rewrite le16_be by done. replace (be16_at ip 2 <? claimed_hdr_len ip) with false by lia.
  rewrite total_minus_header. replace (be16_at ip 2 - claimed_hdr_len ip)
    with (Z.of_nat (length seg)) by lia.
  pose proof (be16_range ip 2 F) as R. unfold fits in R.
  assert (0 <= claimed_hdr_len ip).
  { unfold claimed_hdr_len. pose proof (Z.mod_pos_bound (default 0 (ip !! 0%nat)) 16 ltac:(lia)). lia. }
  rewrite raw_cksum_ok by (done || lia). cbn [mbind option_bind].
  rewrite phdr4_run. cbn [mbind option_bind]. f_equal.
  apply (transport_fold (word_sum seg) (word_sum (pseudo4 ip))).
  - apply (word_sum_bound seg). by eapply bytes_at_fits.
  - apply (word_sum_bound (pseudo4 ip)), pseudo4_fits.
Qed.
End ipv4.

(** C34. UDP and TCP over IPv4: for a segment whose checksum member, at the even
    offset [o], holds 0, [rte_ipv4_udptcp_cksum] returns a checksum [c], and
    once any value [v] is stored in the member,
    [rte_ipv4_udptcp_cksum_verify] accepts the segment exactly when [v] equals
    [c] modulo 2^16 - 1: [c] itself and, if it is one of the two
    representations of zero, the other one; every other value is refused. *)
Theorem ipv4_udptcp_cksum_verify_ok {P : Type} (h : heap P) (hdr l4 : Z)
    (ip seg : list Z) (o : nat) :
  bytes_at (heap_mem h) hdr ip -> length ip = 20%nat ->
  bytes_at (heap_mem h) l4 seg -> 0 <= l4 -> l4 + Z.of_nat (length seg) < 2 ^ 64 ->
  be16_at ip 2 = claimed_hdr_len ip + Z.of_nat (length seg) ->
  hdr + 20 <= l4 \/ l4 + Z.of_nat (length seg) <= hdr ->
  Nat.Even o -> take 2 (drop o seg) = [0; 0] ->
  exists c, rte_ipv4_udptcp_cksum (heap_mem h) hdr l4 = Some c /\ fits 16 c
    /\ forall v, fits 16 v ->
       exists h', store16 (l4 + Z.of_nat o) v h = Some (tt, h')
         /\ rte_ipv4_udptcp_cksum_verify (heap_mem h') hdr l4
            = Some (if (v - c) mod 65535 =? 0 then 0 else -1).
Proof.
  intros Hip Hil Hs H0 Hm Hl Hd He Ht.
  assert (Ho : (o + 2 <= length seg)%nat).
  { apply (f_equal length) in Ht. rewrite length_take, length_drop in Ht.
    change (length [0; 0]) with 2%nat in Ht. lia. }
  set (s := word_sum seg + word_sum (pseudo4 ip)).
  exists (complement_of s (proto4 ip =? IPPROTO_UDP)).
  pose proof (complement_range s (proto4 ip =? IPPROTO_UDP)).
  assert (R : 0 < be16_at ip 2 - claimed_hdr_len ip < 2 ^ 16).
  { pose proof (be16_range ip 2 (bytes_at_fits _ _ _ Hip)) as R. unfold fits in R.
    unfold claimed_hdr_len in *.
    pose proof (Z.mod_pos_bound (default 0 (ip !! 0%nat)) 16 ltac:(lia)). lia. }
  assert (Hpos : 0 < s).
  { pose proof (pseudo4_positive ip R).
    pose proof (word_sum_bound seg (bytes_at_fits _ _ _ Hs)). unfold s. lia. }
  split; [|split; [unfold fits; lia|]].
  - unfold rte_ipv4_udptcp_cksum.
    rewrite (transport4_run _ _ ip Hip ltac:(lia) ltac:(lia) l4 seg) by done.
    cbn [mbind option_bind]. rewrite (read_proto _ _ ip Hip) by lia. cbn [mbind option_bind].
    fold s. pose proof (oc_range s). by rewrite lnot16 by (unfold fits; lia).
  - intros v Hv. destruct (store16_run h l4 seg o v Hs Ho) as (h' & Hst & Hs' & Hx & _).
    exists h'. split; [done|].
    assert (Hip' : bytes_at (heap_mem h') hdr ip).
    { eapply bytes_at_ext; [|exact Hip]. intros x Hxr. apply Hx. lia. }
    unfold rte_ipv4_udptcp_cksum_verify.
    rewrite (transport4_run _ _ ip Hip' ltac:(lia) ltac:(lia) l4 _ Hs')
      by (rewrite ?length_put by lia; done). cbn [mbind option_bind].
    rewrite word_sum_fill by done.
    replace (word_sum seg + v + word_sum (pseudo4 ip)) with (s + v) by (unfold s; lia).
    rewrite (accepted s (proto4 ip =? IPPROTO_UDP) v) by done. by destruct (_ =? 0).
Qed.

(** A UDP datagram without data and with its checksum member 0. *)
Definition demo_udp : list Z := [0x30; 0x39; 0; 53; 0; 8; 0; 0].

Lemma ipv4_udptcp_cksum_verify_ok_witness :
  let h := demo_heap 4096 (demo_ip 17 28 ++ demo_udp) in
  exists c h', rte_ipv4_udptcp_cksum (heap_mem h) 4096 4116 = Some c
    /\ store16 4122 c h = Some (tt, h')
    /\ rte_ipv4_udptcp_cksum_verify (heap_mem h') 4096 4116 = Some 0.
Proof.
  intros h.
  destruct (ipv4_udptcp_cksum_verify_ok h 4096 4116 (demo_ip 17 28) demo_udp 6)
    as (c & E & F & V).
  - by apply bytes_of_at.
  - done.
  - by apply bytes_of_at.
  - lia.
  - simpl. lia.
  - done.
  - left. lia.
  - by exists 3%nat.
  - done.
  - destruct (V c F) as (h' & S & W). exists c, h'. rewrite Z.sub_diag in W. by split_and!.
Defined.

(** *** IPv6 *)

Definition proto6 (ip : list Z) : Z := default 0 (ip !! 6%nat).

Definition pseudo6 (ip : list Z) : list Z :=
  ipv6_psd_header (le16_at ip 4) (u32 (Z.shiftl (proto6 ip) 24)).

(** The sum of the addresses and of the pseudo-header. *)
Definition phdr6_sum (ip : list Z) : Z := word_sum (take 32 (drop 8 ip)) + word_sum (pseudo6 ip).

Lemma word_sum_word v : word_sum (word_bytes v) = u16 v + u16 (v / 2 ^ 16).
Proof.
  unfold word_bytes. cbn [word_sum]. rewrite Z.add_0_r, <- (of_half_bytes v).
  rewrite <- (of_half_bytes (v / 2 ^ 16)), Z.div_div by lia.
  by change (2 ^ 16 * 2 ^ 8) with (2 ^ 24).
Qed.

Lemma phdr6_bounds ip :
  Forall (fits 8) ip -> (40 <= length ip)%nat ->
  word_sum (pseudo6 ip) >= le16_at ip 4 /\ 0 <= word_sum (take 32 (drop 8 ip)) <= 2 ^ 20
  /\ 0 <= word_sum (pseudo6 ip) <= 2 ^ 20.
Proof.
  intros F Hl. pose proof (le16_range ip 4 F) as R.
  pose proof (word_sum_bound (take 32 (drop 8 ip)) ltac:(by apply Forall_take, Forall_drop)) as B.
  rewrite length_take, length_drop, Nat.min_l in B by lia.
  change ((Z.of_nat 32 + 1) / 2) with 16 in B.
  unfold pseudo6, ipv6_psd_header. rewrite word_sum_app by (by exists 2%nat).
  rewrite !word_sum_word. unfold fits in R. rewrite (wrap_small 16 (le16_at ip 4)) by done.
  rewrite Z.div_small by lia. set (p := u32 _).
  pose proof (wrap_range 16 p ltac:(lia)). pose proof (wrap_range 16 (p / 2 ^ 16) ltac:(lia)).
  change (u16 0) with 0. lia.
Qed.

Section ipv6.
Context (mem : memory) (hdr : Z) (ip : list Z).
Hypothesis Hip : bytes_at mem hdr ip.
Hypothesis Hlen : (40 <= length ip)%nat.
Hypothesis Haddr : 0 <= hdr /\ hdr + Z.of_nat (length ip) < 2 ^ 64.

Lemma read_proto6 : mem (ipv6_proto hdr) = Some (proto6 ip).
Proof using Hip Hlen.
  destruct (lookup_lt_is_Some_2 ip 6 ltac:(lia)) as [b Hb]. unfold proto6. rewrite Hb.
  by apply (bytes_at_lookup _ _ _ 6 _ Hip).
Qed.

Lemma read_payload_len : ld16 mem (ipv6_payload_len hdr) = Some (le16_at ip 4).
Proof using Hip Hlen. apply (ld16_at mem hdr ip 4 Hip). lia. Qed.

Lemma phdr6_run : rte_ipv6_phdr_cksum mem hdr 0 = Some (ones_complement (phdr6_sum ip)).
Proof using Hip Hlen Haddr.
  pose proof (phdr6_bounds ip (bytes_at_fits _ _ _ Hip) Hlen) as (_ & B1 & B2).
  unfold rte_ipv6_phdr_cksum. rewrite read_proto6. cbn [mbind option_bind].
  rewrite Z.land_0_l. cbn [truthy Z.eqb negb]. rewrite read_payload_len. cbn [mbind option_bind].
  pose proof (bytes_at_range mem hdr ip 8 32 Hip) as Ha.
  assert (length (take 32 (drop 8 ip)) = 32%nat) as L by (rewrite length_take, length_drop; lia).
  pose proof (raw_cksum_run _ _ _ 0 Ha) as R. rewrite L in R.
  unfold ipv6_src_addr. change (Z.of_nat 32) with 32 in R. change (Z.of_nat 8) with 8 in R.
  rewrite R by (unfold fits; lia). cbn [mbind option_bind].
  rewrite Z.add_0_l, (wrap_small 32 (word_sum (take 32 _))) by (unfold fits; lia).
  pose proof (raw_cksum_run (local_mem (pseudo6 ip)) 0 (pseudo6 ip)
                (word_sum (take 32 (drop 8 ip)))) as R'.
  change (Z.of_nat (length (pseudo6 ip))) with 8 in R'. fold (pseudo6 ip).
  rewrite R'; [|apply bytes_at_local|lia|lia|unfold fits; lia].
  - cbn [mbind option_bind]. f_equal. fold (phdr6_sum ip). unfold phdr6_sum in *.
    rewrite wrap_small by (unfold fits; lia). apply reduce_ok. unfold fits. lia.
  - unfold pseudo6, ipv6_psd_header. rewrite Forall_app. split; apply word_bytes_fits.
Qed.

Lemma transport6_run l4 seg :
  bytes_at mem l4 seg -> 0 <= l4 -> l4 + Z.of_nat (length seg) < 2 ^ 64 ->
  be16_at ip 4 = Z.of_nat (length seg) ->
  __rte_ipv6_udptcp_cksum mem hdr l4 = Some (ones_complement (word_sum seg + phdr6_sum ip)).
Proof using Hip Hlen Haddr.
  intros Hs H0 Hm Hl. pose proof (bytes_at_fits _ _ _ Hip) as F.
  pose proof (phdr6_bounds ip F Hlen) as (_ & B1 & B2).
  unfold __rte_ipv6_udptcp_cksum. rewrite read_payload_len. cbn [mbind option_bind].
  rewrite le16_be by done. pose proof (be16_range ip 4 F) as R. unfold fits in R.
  rewrite Hl, raw_cksum_ok by (done || lia). cbn [mbind option_bind].
  rewrite phdr6_run. cbn [mbind option_bind]. f_equal.
  apply (transport_fold (word_sum seg) (phdr6_sum ip)); [|unfold phdr6_sum; lia].
  apply (word_sum_bound seg). by eapply bytes_at_fits.
Qed.
End ipv6.

(** UDP and TCP over IPv6: as for IPv4, the checksum of a segment of at
    least one word whose checksum member holds 0 is accepted by
    [rte_ipv6_udptcp_cksum_verify] once stored, and any value that differs
    from it modulo 2^16 - 1 is refused. *)
Theorem ipv6_udptcp_cksum_verify_ok {P : Type} (h : heap P) (hdr l4 : Z)
    (ip seg : list Z) (o : nat) :
  bytes_at (heap_mem h) hdr ip -> length ip = 40%nat -> 0 <= hdr -> hdr + 40 < 2 ^ 64 ->
  bytes_at (heap_mem h) l4 seg -> 0 <= l4 -> l4 + Z.of_nat (length seg) < 2 ^ 64 ->
  be16_at ip 4 = Z.of_nat (length seg) ->
  hdr + 40 <= l4 \/ l4 + Z.of_nat (length seg) <= hdr ->
  Nat.Even o -> take 2 (drop o seg) = [0; 0] ->
  exists c, rte_ipv6_udptcp_cksum (heap_mem h) hdr l4 = Some c /\ fits 16 c
    /\ forall v, fits 16 v ->
       exists h', store16 (l4 + Z.of_nat o) v h = Some (tt, h')
         /\ rte_ipv6_udptcp_cksum_verify (heap_mem h') hdr l4
            = Some (if (v - c) mod 65535 =? 0 then 0 else -1).
Proof.
  intros Hip Hil Ha Ha' Hs H0 Hm Hl Hd He Ht.
  assert (Ho : (o + 2 <= length seg)%nat).
  { apply (f_equal length) in Ht. rewrite length_take, length_drop in Ht.
    change (length [0; 0]) with 2%nat in Ht. lia. }
  set (s := word_sum seg + phdr6_sum ip).
  exists (complement_of s (proto6 ip =? IPPROTO_UDP)).
  pose proof (complement_range s (proto6 ip =? IPPROTO_UDP)).
  pose proof (bytes_at_fits _ _ _ Hip) as F.
  assert (Hpos : 0 < s).
  { pose proof (phdr6_bounds ip F ltac:(lia)) as (B0 & B1 & B2).
    pose proof (word_sum_bound seg (bytes_at_fits _ _ _ Hs)).
    pose proof (byte_default ip 4 F) as D0. pose proof (byte_default ip 5 F) as D1.
    unfold be16_at, le16_at, s, phdr6_sum, fits in *. lia. }
  split; [|split; [unfold fits; lia|]].
  - unfold rte_ipv6_udptcp_cksum.
    rewrite (transport6_run _ _ ip Hip ltac:(lia) ltac:(lia) l4 seg) by done.
    cbn [mbind option_bind]. rewrite (read_proto6 _ _ ip Hip) by lia. cbn [mbind option_bind].
    fold s. pose proof (oc_range s). by rewrite lnot16 by (unfold fits; lia).
  - intros v Hv. destruct (store16_run h l4 seg o v Hs Ho) as (h' & Hst & Hs' & Hx & _).
    exists h'. split; [done|].
    assert (Hip' : bytes_at (heap_mem h') hdr ip).
    { eapply bytes_at_ext; [|exact Hip]. intros x Hxr. apply Hx. lia. }
    unfold rte_ipv6_udptcp_cksum_verify.
    rewrite (transport6_run _ _ ip Hip' ltac:(lia) ltac:(lia) l4 _ Hs')
      by (rewrite ?length_put by lia; done). cbn [mbind option_bind].
    rewrite word_sum_fill by done.
    replace (word_sum seg + v + phdr6_sum ip) with (s + v) by (unfold s; lia).
    rewrite (accepted s (proto6 ip =? IPPROTO_UDP) v) by done. by destruct (_ =? 0).
Qed.

Lemma ipv6_udptcp_cksum_verify_ok_witness :
  let ip := [0x60; 0; 0; 0; 0; 8; 17; 64] ++ repeat 1 32 in
  let h := demo_heap 4096 (ip ++ demo_udp) in
  exists c h', rte_ipv6_udptcp_cksum (heap_mem h) 4096 4136 = Some c
    /\ store16 4142 c h = Some (tt, h')
    /\ rte_ipv6_udptcp_cksum_verify (heap_mem h') 4096 4136 = Some 0.
Proof.
  intros ip h.
  destruct (ipv6_udptcp_cksum_verify_ok h 4096 4136 ip demo_udp 6) as (c & E & F & V).
  - by apply bytes_of_at.
  - done.
  - lia.
  - lia.
  - by apply bytes_of_at.
  - lia.
  - simpl. lia.
  - done.
  - left. lia.
  - by exists 3%nat.
  - done.
  - destruct (V c F) as (h' & S & W). exists c, h'. rewrite Z.sub_diag in W. by split_and!.
Defined.

(** ** Packets of several segments *)

(** The chain that starts at [m] holds the bytes [ds], one list per segment. *)
Fixpoint holds {P} (h : heap P) (m : Z) (ds : list (list Z)) : Prop :=
  match ds with
  | [] => m = NULL
  | d :: ds' =>
      m <> NULL /\ exists b, h_mbufs h !! m = Some b
      /\ bytes_at (heap_mem h) (buf_addr b + data_off b) d
      /\ data_len b = Z.of_nat (length d)
      /\ 0 <= buf_addr b + data_off b /\ buf_addr b + data_off b + data_len b < 2 ^ 64
      /\ holds h (next b) ds'
  end.

(** The same segments without their first [off] bytes. *)
Fixpoint from_offset (off : nat) (ds : list (list Z)) : list (list Z) :=
  match ds with
  | [] => []
  | d :: ds' => if (off <? length d)%nat then drop off d :: ds' else from_offset (off - length d) ds'
  end.

(** Every segment that ends inside the first [len] bytes has an even length. *)
Fixpoint even_segments (len : nat) (ds : list (list Z)) : Prop :=
  match ds with
  | [] => True
  | d :: ds' => (length d < len)%nat -> Nat.Even (length d) /\ even_segments (len - length d) ds'
  end.

Lemma concat_from_offset off ds : concat (from_offset off ds) = drop off (concat ds).
Proof.
  revert off. induction ds as [|d ds IH]; intros off; simpl; [by rewrite drop_nil|].
  rewrite skipn_app. destruct (Nat.ltb_spec off (length d)) as [H|H].
  - replace (off - length d)%nat with 0%nat by lia. done.
  - rewrite IH. by rewrite (drop_ge d off) by lia.
Qed.

Section packet.
Context {P : Type}.
Implicit Types (h : heap P).

Lemma holds_chain h m ds : holds h m ds -> exists l, is_chain (h_mbufs h) m l /\ length l = length ds.
Proof.
  revert m. induction ds as [|d ds IH]; intros m H; [by exists []|].
  destruct H as (Hn & b & Hb & _ & _ & _ & _ & H). destruct (IH _ H) as (l & Hc & Hl).
  exists (m :: l). simpl. split; [|lia]. split_and!; [done..|]. by exists b.
Qed.

Lemma holds_fuel h m ds : holds h m ds -> (length ds < chain_fuel h)%nat.
Proof.
  intros H. destruct (holds_chain _ _ _ H) as (l & Hc & Hl).
  pose proof (is_chain_length _ _ _ Hc). unfold chain_fuel. lia.
Qed.

(** Reading the bytes of a segment from an offset on. *)
Lemma mtod_offset_run b (d : list Z) off :
  data_len b = Z.of_nat (length d) ->
  0 <= buf_addr b + data_off b -> buf_addr b + data_off b + data_len b < 2 ^ 64 ->
  (off <= length d)%nat ->
  rte_pktmbuf_mtod_offset b (Z.of_nat off) = buf_addr b + data_off b + Z.of_nat off.
Proof. intros. unfold rte_pktmbuf_mtod_offset. apply wrap_small. unfold fits. lia. Qed.

(** The checksum of [n] of the bytes of a list in the heap. *)
Lemma piece_sum mem a p n sum :
  bytes_at mem a p -> (n <= length p)%nat -> 0 <= a -> a + Z.of_nat (length p) < 2 ^ 64 ->
  fits 32 sum ->
  __rte_raw_cksum mem a (Z.of_nat n) sum = Some (u32 (sum + word_sum (take n p))).
Proof.
  intros Hb Hn H0 Hm Hs. pose proof (bytes_at_range mem a p 0 n Hb) as Hp.
  rewrite drop_0, Z.add_0_r in Hp.
  assert (length (take n p) = n) as L by (rewrite length_take; lia).
  rewrite <- L at 1. apply raw_cksum_run; [done..| |done]. rewrite L. lia.
Qed.

(** The search ends on the segment that holds the offset. *)
Lemma find_offset_step h m b off sl :
  m <> NULL -> h_mbufs h !! m = Some b ->
  find_offset (m, off, sl) h
  = Some (if off <? data_len b then inr (m, off, data_len b)
          else inl (next b, u32 (off - data_len b), data_len b), h).
Proof.
  intros Hn Hb. unfold find_offset. rewrite (proj2 (Z.eqb_neq m NULL) Hn). heap_run.
  by destruct (off <? data_len b).
Qed.

Lemma find_offset_run h ds : forall fuel m off sl,
  holds h m ds -> (length ds < fuel)%nat -> (off < length (concat ds))%nat ->
  Z.of_nat (length (concat ds)) < 2 ^ 32 ->
  exists seg b d ds' off',
    do_while fuel find_offset (m, Z.of_nat off, sl) h
      = Some ((seg, Z.of_nat off', data_len b), h)
    /\ seg <> NULL /\ h_mbufs h !! seg = Some b /\ holds h seg (d :: ds')
    /\ (off' < length d)%nat /\ from_offset off ds = drop off' d :: ds'.
Proof.
  induction ds as [|d ds IH]; intros [|fuel] m off sl H Hf Ho Hm;
    cbn [length concat] in Ho, Hf, Hm; [lia..|].
  pose proof H as H'. destruct H as (Hn & b & Hb & Hd & Hl & H0 & Hr & H).
  rewrite length_app in Ho, Hm. cbn [do_while from_offset].
  rewrite (mbind_run _ _ _ _ _ (find_offset_step _ _ _ (Z.of_nat off) sl Hn Hb)).
  destruct (Nat.ltb_spec off (length d)) as [L|L].
  - replace (Z.of_nat off <? data_len b) with true by lia.
    exists m, b, d, ds, off. by split_and!.
  - replace (Z.of_nat off <? data_len b) with false by lia.
    rewrite Hl, wrap_small, <- Nat2Z.inj_sub by (unfold fits; lia || lia).
    apply IH; [done|lia..].
Qed.

(** One round at an even position: nothing is exchanged. *)
Lemma sum_segment_step h len seg b buf p n sum done :
  h_mbufs h !! seg = Some b -> bytes_at (heap_mem h) buf p -> (n <= length p)%nat ->
  0 <= buf -> buf + Z.of_nat (length p) < 2 ^ 64 -> fits 32 sum ->
  Nat.Even done -> Z.of_nat (done + n) < 2 ^ 32 ->
  sum_segment (Z.of_nat len) (seg, buf, Z.of_nat n, sum, Z.of_nat done) h =
    let sum' := u32 (sum + word_sum (take n p)) in
    if (done + n =? len)%nat then Some (inr sum', h)
    else
      b' ← h_mbufs h !! next b ;
      let rest := u32 (Z.of_nat len - Z.of_nat (done + n)) in
      Some (inl (next b, rte_pktmbuf_mtod b',
                 if data_len b' >? rest then rest else data_len b',
                 sum', Z.of_nat (done + n)), h).
Proof.
  intros Hb Hp Hn H0 Hm Hs He Hd. unfold sum_segment, on_bytes.
  unfold mbind at 1, M_bind at 1.
  rewrite (piece_sum _ _ p n 0) by (try done; unfold fits; lia). cbn [mbind option_bind].
  assert (Z.land (Z.of_nat done) 1 = 0) as ->.
  { destruct He as [k ->]. change 1 with (2 ^ 1 - 1). rewrite land_mask by lia.
    change (2 ^ 1) with 2. rewrite Nat2Z.inj_mul, Z.mul_comm. apply Z.mod_mul. lia. }
  cbn [truthy Z.eqb negb]. autorewrite with wrapdb. rewrite Z.add_0_l.
  rewrite <- Nat2Z.inj_add, (wrap_small 32 (Z.of_nat (done + n))) by (unfold fits; lia).
  destruct (Nat.eqb_spec (done + n) len) as [E|E].
  - by rewrite E, Z.eqb_refl.
  - rewrite (proj2 (Z.eqb_neq (Z.of_nat (done + n)) (Z.of_nat len))) by lia.
    heap_run. unfold rd. by destruct (h_mbufs h !! next b).
Qed.

Lemma sum_segments_run h len ds : forall fuel seg b buf p n sum done,
  h_mbufs h !! seg = Some b -> bytes_at (heap_mem h) buf p -> 0 <= buf ->
  buf + Z.of_nat (length p) < 2 ^ 64 -> fits 32 sum -> holds h (next b) ds ->
  Nat.Even done -> (done < len)%nat -> Z.of_nat len < 2 ^ 32 ->
  n = Nat.min (length p) (len - done) ->
  (len - done <= length (concat (p :: ds)))%nat -> even_segments (len - done) (p :: ds) ->
  (length ds < fuel)%nat ->
  do_while fuel (sum_segment (Z.of_nat len)) (seg, buf, Z.of_nat n, sum, Z.of_nat done) h
  = Some (u32 (sum + word_sum (take (len - done) (concat (p :: ds)))), h).
Proof.
  induction ds as [|d ds IH]; intros [|fuel] seg b buf p n sum done Hb Hp H0 Hm Hs Hh He Hd Hl
    -> Hc Hev Hf; cbn [length] in Hf; [lia| |lia|]; cbn [do_while].
  all: cbn [concat] in Hc |- *; rewrite length_app in Hc.
  all: pose proof (sum_segment_step h len seg b buf p (Nat.min (length p) (len - done)) sum done
                     Hb Hp ltac:(lia) H0 Hm Hs He ltac:(lia)) as Hst; cbv zeta in Hst.
  - cbn [length] in Hc. rewrite Nat.min_r in Hst |- * by lia.
    replace (done + (len - done) =? len)%nat with true in Hst by (symmetry; apply Nat.eqb_eq; lia).
    rewrite (mbind_run _ _ _ _ _ Hst). by rewrite app_nil_r.
  - destruct (Nat.ltb_spec (length p) (len - done)) as [L|L].
    + rewrite Nat.min_l in Hst |- * by lia. rewrite take_ge in Hst by lia.
      replace (done + length p =? len)%nat with false in Hst by (symmetry; apply Nat.eqb_neq; lia).
      destruct Hh as (Hn & b' & Hb' & Hd' & Hl' & H0' & Hr' & Hh).
      rewrite Hb' in Hst. cbn [mbind option_bind] in Hst. rewrite (mbind_run _ _ _ _ _ Hst).
      destruct (Hev L) as [Hep Hev']. cbn [concat] in Hc.
      rewrite (wrap_small 32 (_ - _)) by (unfold fits; lia).
      unfold rte_pktmbuf_mtod. change 0 with (Z.of_nat 0) at 1. rewrite (mtod_offset_run b' d 0) by (done || lia).
      assert (forall x y : Z, (if x >? y then y else x) = Z.min x y) as -> by
        (intros x y; destruct (x >? y) eqn:G; lia).
      rewrite Hl', <- Nat2Z.inj_sub, <- Nat2Z.inj_min by lia.
      rewrite Z.add_0_r.
      assert (Nat.Even (done + length p)) as He'.
      { destruct He as [k1 ->], Hep as [k2 ->]. exists (k1 + k2)%nat. lia. }
      rewrite Nat.sub_add_distr.
      rewrite (IH fuel (next b) b' (buf_addr b' + data_off b') d _ _ (done + length p)%nat Hb' Hd' H0'
                 ltac:(lia) ltac:(by apply wrap_fits) Hh He' ltac:(lia) Hl
                 ltac:(by rewrite Nat.sub_add_distr)
                 ltac:(cbn [concat]; lia) ltac:(by rewrite Nat.sub_add_distr) ltac:(lia)).
      rewrite take_app_ge by lia. rewrite word_sum_app by done.
      autorewrite with wrapdb. rewrite Nat.sub_add_distr. do 3 f_equal. cbn [concat]. lia.
    + rewrite Nat.min_r in Hst |- * by lia.
      replace (done + (len - done) =? len)%nat with true in Hst by (symmetry; apply Nat.eqb_eq; lia).
      rewrite (mbind_run _ _ _ _ _ Hst). by rewrite take_app_le by lia.
Qed.

(** The checksum of a range that one segment holds. *)
Lemma one_segment h b (d : list Z) off len :
  bytes_at (heap_mem h) (buf_addr b + data_off b) d -> data_len b = Z.of_nat (length d) ->
  0 <= buf_addr b + data_off b -> buf_addr b + data_off b + data_len b < 2 ^ 64 ->
  (off + len <= length d)%nat ->
  rte_raw_cksum (heap_mem h) (rte_pktmbuf_mtod_offset b (Z.of_nat off)) (Z.of_nat len)
  = Some (__rte_raw_cksum_reduce (u32 (word_sum (take len (drop off d))))).
Proof.
  intros Hd Hl H0 Hr Ho. rewrite (mtod_offset_run b d) by (done || lia).
  assert (length (drop off d) = (length d - off)%nat) as Ld by apply length_drop.
  pose proof (bytes_at_range _ _ _ off (length d) Hd) as Hp.
  rewrite take_ge in Hp by lia.
  unfold rte_raw_cksum. rewrite (piece_sum _ _ _ len 0 Hp) by (try lia; unfold fits; lia).
  done.
Qed.

Lemma local_cksum l :
  Forall (fits 8) l -> Z.of_nat (length l) < 2 ^ 64 ->
  rte_raw_cksum (local_mem l) 0 (Z.of_nat (length l))
  = Some (__rte_raw_cksum_reduce (u32 (word_sum l))).
Proof.
  intros F Hl. unfold rte_raw_cksum.
  by rewrite (raw_cksum_run (local_mem l) 0 l 0) by (by apply bytes_at_local || lia || (unfold fits; lia)).
Qed.

Lemma holds_fits h m ds : holds h m ds -> Forall (fits 8) (concat ds).
Proof.
  revert m. induction ds as [|d ds IH]; intros m H; cbn [concat]; [constructor|].
  destruct H as (_ & b & _ & Hd & _ & _ & _ & H). apply Forall_app. split; [|by eapply IH].
  by eapply bytes_at_fits.
Qed.

(** The bytes summed go beyond the first segment. *)
Lemma raw_cksum_mbuf_segments (h : heap P) (m : Z) (b : rte_mbuf) (ds : list (list Z)) (off len : nat) :
  holds h m ds -> h_mbufs h !! m = Some b ->
  pkt_len b = Z.of_nat (length (concat ds)) -> pkt_len b < 2 ^ 32 ->
  data_len b < Z.of_nat (off + len) -> Z.of_nat (off + len) <= pkt_len b -> Z.of_nat off < pkt_len b ->
  even_segments len (from_offset off ds) ->
  rte_raw_cksum_mbuf m (Z.of_nat off) (Z.of_nat len) h
  = Some (0, Some (__rte_raw_cksum_reduce (u32 (word_sum (take len (drop off (concat ds)))))), h).
Proof.
  intros Hh Hb Hp Hp32 C Hle Hoff Hev. set (l := take len (drop off (concat ds))).
  assert (Ll : length l = len) by (unfold l; rewrite length_take, length_drop; lia).
  unfold rte_raw_cksum_mbuf. rewrite (mbind_run _ _ _ _ _ (rd_run m b h Hb)).
  rewrite <- Nat2Z.inj_add, (wrap_small 32 (Z.of_nat (off + len))) by (unfold fits; lia).
  rewrite (proj2 (Z.leb_gt _ _) C).
  rewrite Z.gtb_ltb, (proj2 (Z.ltb_ge _ _) Hle). rewrite (mbind_run get _ h h h) by done.
  destruct (find_offset_run h ds (chain_fuel h) m off 0 Hh (holds_fuel _ _ _ Hh)
              ltac:(lia) ltac:(lia)) as (seg & bs & d & ds' & o & E & Hn & Hbs & Hs & Ho & Ef).
  rewrite (mbind_run _ _ _ _ _ E). cbv beta iota.
  pose proof Hs as Hs'. destruct Hs as (_ & b' & Hb' & Hd & Hl & H0 & Hr & Hs).
  rewrite Hbs in Hb'. injection Hb' as <-.
  rewrite (proj2 (Z.eqb_neq seg NULL) Hn), (mbind_run _ _ _ _ _ (rd_run seg bs h Hbs)).
  assert (Lr : length (drop o d ++ concat ds') = (length (concat ds) - off)%nat).
  { rewrite <- length_drop, <- concat_from_offset. by rewrite Ef. }
  assert (length (drop o d) = (length d - o)%nat) as Ld by apply length_drop.
  rewrite length_app in Lr. rewrite Hl, <- Nat2Z.inj_sub by lia.
  rewrite (wrap_small 32 (Z.of_nat (length d - o))) by (unfold fits; lia).
  assert (El : l = take len (drop o d ++ concat ds')).
  { unfold l. by rewrite <- concat_from_offset, Ef. }
  assert (Lc : (len <= length (drop o d ++ concat ds'))%nat).
  { apply (f_equal length) in El. rewrite Ll, length_take in El. lia. }
  rewrite Z.geb_leb. destruct (Z.leb_spec (Z.of_nat len) (Z.of_nat (length d - o))) as [G|G].
  - unfold on_bytes. unfold mbind at 1, M_bind at 1.
    rewrite (one_segment h bs d o len) by (done || lia). cbn [mbind option_bind].
    rewrite El. by rewrite take_app_le by (rewrite length_drop; lia).
  - rewrite (mtod_offset_run bs d o) by (done || lia).
    pose proof (bytes_at_range _ _ _ o (length d) Hd) as Hp'.
    rewrite take_ge in Hp' by lia. change 0 with (Z.of_nat 0) at 2.
    rewrite (mbind_run _ _ _ _ _ (sum_segments_run h len ds' (chain_fuel h) seg bs
               (buf_addr bs + data_off bs + Z.of_nat o) (drop o d) (length d - o) 0 0%nat
               Hbs Hp' ltac:(lia) ltac:(lia) ltac:(unfold fits; lia) Hs
               ltac:(by exists 0%nat) ltac:(lia) ltac:(lia) ltac:(lia)
               ltac:(cbn [concat]; lia) ltac:(by rewrite Nat.sub_0_r, <- Ef)
               ltac:(pose proof (holds_fuel _ _ _ Hs'); simpl in *; lia))).
    cbn [concat]. by rewrite Nat.sub_0_r, <- El, Z.add_0_l.
Qed.

(** [rte_raw_cksum_mbuf] on a packet of any number of segments: a range
    that leaves the packet is refused with -1; otherwise the loops end and the
    checksum is the one [rte_raw_cksum] computes on a contiguous copy of the
    range, provided that every segment that ends inside the range does so at
    an even distance from its start. *)
Theorem raw_cksum_mbuf_ok (h : heap P) (m : Z) (b : rte_mbuf) (ds : list (list Z)) (off len : nat) :
  holds h m ds -> h_mbufs h !! m = Some b ->
  pkt_len b = Z.of_nat (length (concat ds)) -> pkt_len b < 2 ^ 32 ->
  Z.of_nat (off + len) < 2 ^ 32 ->
  (pkt_len b < Z.of_nat (off + len) -> data_len b < Z.of_nat (off + len) ->
   rte_raw_cksum_mbuf m (Z.of_nat off) (Z.of_nat len) h = Some (-1, None, h))
  /\ (Z.of_nat (off + len) <= pkt_len b -> Z.of_nat off < pkt_len b ->
      even_segments len (from_offset off ds) ->
      exists c,
        rte_raw_cksum_mbuf m (Z.of_nat off) (Z.of_nat len) h = Some (0, Some c, h)
        /\ rte_raw_cksum (local_mem (take len (drop off (concat ds)))) 0 (Z.of_nat len) = Some c).
Proof.
  intros Hh Hb Hp Hp32 Ho32. unfold rte_raw_cksum_mbuf.
  rewrite (mbind_run _ _ _ _ _ (rd_run m b h Hb)).
  rewrite <- Nat2Z.inj_add, (wrap_small 32 (Z.of_nat (off + len))) by (unfold fits; lia).
  split.
  { intros Hlt Hlt'. rewrite (proj2 (Z.leb_gt _ _) Hlt').
    by rewrite Z.gtb_ltb, (proj2 (Z.ltb_lt _ _) Hlt). }
  intros Hle Hoff Hev.
  set (l := take len (drop off (concat ds))).
  assert (Ll : length l = len) by (unfold l; rewrite length_take, length_drop; lia).
  pose proof (holds_fits _ _ _ Hh) as F.
  assert (Hc : rte_raw_cksum (local_mem l) 0 (Z.of_nat len)
               = Some (__rte_raw_cksum_reduce (u32 (word_sum l)))).
  { rewrite <- Ll at 1. apply local_cksum; [|lia]. by apply Forall_take, Forall_drop. }
  exists (__rte_raw_cksum_reduce (u32 (word_sum l))). split; [|done].
  destruct (Z.leb_spec (Z.of_nat (off + len)) (data_len b)) as [C|C].
  - destruct ds as [|d ds]; [simpl in Hp; lia|].
    destruct Hh as (_ & b' & Hb' & Hd & Hl & H0 & Hr & _).
    rewrite Hb in Hb'. injection Hb' as <-.
    unfold on_bytes. unfold mbind at 1, M_bind at 1.
    rewrite (one_segment h b d off len) by (done || lia). cbn [mbind option_bind].
    unfold l. cbn [concat]. by rewrite drop_app_le, take_app_le by (rewrite ?length_drop; lia).
  - subst l. rewrite <- (raw_cksum_mbuf_segments h m b ds off len) by done.
    unfold rte_raw_cksum_mbuf. rewrite (mbind_run _ _ _ _ _ (rd_run m b h Hb)).
    rewrite <- Nat2Z.inj_add, (wrap_small 32 (Z.of_nat (off + len))) by (unfold fits; lia).
    by rewrite (proj2 (Z.leb_gt _ _) C).
Qed.
End packet.

(** A packet of two segments at 1000 and 4000. *)
Definition two_segments (d1 d2 : list Z) : heap unit :=
  mk_heap
    (list_to_map [(1000, demo_mbuf 1000 4000 (Z.of_nat (length (d1 ++ d2))) (Z.of_nat (length d1)) 2);
                  (4000, demo_mbuf 4000 0 0 (Z.of_nat (length d2)) 1)]) ∅ ∅ ∅ ∅
    (list_to_map (imap (fun i b => (1256 + Z.of_nat i, b)) d1
                  ++ imap (fun i b => (4256 + Z.of_nat i, b)) d2)).

Lemma raw_cksum_mbuf_ok_witness :
  exists c, rte_raw_cksum_mbuf 1000 2 5 (two_segments [1; 2; 3; 4] [5; 6; 7])
            = Some (0, Some c, two_segments [1; 2; 3; 4] [5; 6; 7])
    /\ rte_raw_cksum (local_mem [3; 4; 5; 6; 7]) 0 5 = Some c.
Proof.
  destruct (raw_cksum_mbuf_ok (two_segments [1; 2; 3; 4] [5; 6; 7]) 1000
              (demo_mbuf 1000 4000 7 4 2) [[1; 2; 3; 4]; [5; 6; 7]] 2 5) as [_ H].
  - split; [done|]. eexists. split; [reflexivity|].
    split; [by apply bytes_of_at|]. split_and!; [done..|].
    split; [done|]. eexists. split; [reflexivity|].
    split; [by apply bytes_of_at|]. by split_and!.
  - reflexivity.
  - reflexivity.
  - simpl. lia.
  - lia.
  - apply H; [simpl; lia..|]. intros _. split; [by exists 1%nat|]. intros Hl. simpl in Hl. lia.
Defined.

(** After a segment of odd length, [rte_raw_cksum_mbuf] exchanges the bytes of
    only the low half of the next segment's sum and loses the carries above
    it: the same five bytes have another checksum in two segments than in
    one buffer. *)
Theorem raw_cksum_mbuf_odd_segment :
  exists c c',
    rte_raw_cksum_mbuf 1000 0 5 (two_segments [1] [255; 255; 255; 255])
    = Some (0, Some c, two_segments [1] [255; 255; 255; 255])
    /\ rte_raw_cksum (local_mem [1; 255; 255; 255; 255]) 0 5 = Some c' /\ c <> c'.
Proof.
  exists 0xff00, 1. split; [|split; [reflexivity|done]].
  vm_compute. reflexivity.
Qed.

(** The 32-bit sum of the offset and the length wraps around: a range that
    leaves the packet is then read from outside of it. *)
Theorem raw_cksum_mbuf_wraps :
  rte_raw_cksum_mbuf 1000 (2 ^ 32 - 2) 3 (two_segments [1] [255; 255; 255; 255]) = None.
Proof. vm_compute. reflexivity. Qed.
