(* ===== verification/NetPrep.v ===== *)
(** * Checksums that the device completes ([include/rte_net.h]).

    Before a packet is sent with checksum offload, the checksum of its transport
    header is set to that of the pseudo-header; the device adds the segment.  The
    headers are in the first mbuf of the packet. *)
From stdpp Require Import prelude list numbers gmap.
From S2P Require Import Prelude Bits Mempool MbufCore Bytes Mbuf Cksum CksumSpec.
Open Scope Z_scope.

(** ** Data *)

Definition ENOTSUP : Z := 95.
Definition RTE_MBUF_F_TX_TCP_CKSUM : Z := Z.shiftl 1 52.
Definition RTE_MBUF_F_TX_UDP_CKSUM : Z := Z.shiftl 3 52.

(** The bit-fields of [tx_offload]. *)
Definition l2_len (m : rte_mbuf) : Z := bits_at RTE_MBUF_L2_LEN_OFS 7 (tx_offload m).
Definition l3_len (m : rte_mbuf) : Z := bits_at RTE_MBUF_L3_LEN_OFS 9 (tx_offload m).
Definition l4_len (m : rte_mbuf) : Z := bits_at RTE_MBUF_L4_LEN_OFS 8 (tx_offload m).
Definition outer_l3_len (m : rte_mbuf) : Z := bits_at RTE_MBUF_OUTL3_LEN_OFS 9 (tx_offload m).
Definition outer_l2_len (m : rte_mbuf) : Z := bits_at RTE_MBUF_OUTL2_LEN_OFS 7 (tx_offload m).

(** Offsets of the checksums of the two transport headers. *)
Definition udp_dgram_cksum (hdr : Z) : Z := hdr + 6.
Definition tcp_cksum (hdr : Z) : Z := hdr + 16.

(** ** The preparation *)

Section prepare.
Context {P : Type}.

Definition rte_net_intel_cksum_flags_prepare (m ol_flags : Z) : M (heap P) Z :=
  let has := fun f => truthy (Z.land ol_flags f) in
  b ← rd m ;
  let inner_l3_offset := l2_len b in
  (* Does packet set any of available offloads? *)
  if negb (has (Z.lor (Z.lor (Z.lor RTE_MBUF_F_TX_IP_CKSUM RTE_MBUF_F_TX_L4_MASK) RTE_MBUF_F_TX_TCP_SEG)
                      RTE_MBUF_F_TX_OUTER_IP_CKSUM)) then mret 0
  else
    inner_l3_offset ←
      (if has (Z.lor RTE_MBUF_F_TX_OUTER_IPV4 RTE_MBUF_F_TX_OUTER_IPV6) then
         (if has RTE_MBUF_F_TX_OUTER_IP_CKSUM then
            let ipv4_hdr := rte_pktmbuf_mtod_offset b (outer_l2_len b) in
            store16 (ipv4_hdr_checksum ipv4_hdr) 0
          else mret tt) ;;
         mret (u64 (inner_l3_offset + (outer_l2_len b + outer_l3_len b)))
       else mret inner_l3_offset) ;
    (* Check if headers are fragmented. *)
    if data_len b <? u64 (inner_l3_offset + l3_len b + l4_len b) then mret (- ENOTSUP)
    else
      let ipv4_hdr := rte_pktmbuf_mtod_offset b inner_l3_offset in
      let ipv6_hdr := rte_pktmbuf_mtod_offset b inner_l3_offset in
      (if has RTE_MBUF_F_TX_IPV4 && has RTE_MBUF_F_TX_IP_CKSUM then store16 (ipv4_hdr_checksum ipv4_hdr) 0
       else mret tt) ;;
      if Z.land ol_flags RTE_MBUF_F_TX_L4_MASK =? RTE_MBUF_F_TX_UDP_CKSUM then
        if has RTE_MBUF_F_TX_IPV4 then
          let udp_hdr := RTE_PTR_ADD ipv4_hdr (l3_len b) in
          cksum ← on_bytes (fun mem => rte_ipv4_phdr_cksum mem ipv4_hdr ol_flags) ;
          store16 (udp_dgram_cksum udp_hdr) cksum ;; mret 0
        else
          let udp_hdr := rte_pktmbuf_mtod_offset b (inner_l3_offset + l3_len b) in
          cksum ← on_bytes (fun mem => rte_ipv6_phdr_cksum mem ipv6_hdr ol_flags) ;
          store16 (udp_dgram_cksum udp_hdr) cksum ;; mret 0
      else if (Z.land ol_flags RTE_MBUF_F_TX_L4_MASK =? RTE_MBUF_F_TX_TCP_CKSUM)
              || has RTE_MBUF_F_TX_TCP_SEG then
        if has RTE_MBUF_F_TX_IPV4 then
          let tcp_hdr := RTE_PTR_ADD ipv4_hdr (l3_len b) in
          cksum ← on_bytes (fun mem => rte_ipv4_phdr_cksum mem ipv4_hdr ol_flags) ;
          store16 (tcp_cksum tcp_hdr) cksum ;; mret 0
        else
          let tcp_hdr := rte_pktmbuf_mtod_offset b (inner_l3_offset + l3_len b) in
          cksum ← on_bytes (fun mem => rte_ipv6_phdr_cksum mem ipv6_hdr ol_flags) ;
          store16 (tcp_cksum tcp_hdr) cksum ;; mret 0
      else mret 0.

Definition rte_net_intel_cksum_prepare (m : Z) : M (heap P) Z :=
  b ← rd m ; rte_net_intel_cksum_flags_prepare m (ol_flags b).
End prepare.

(** * Specification *)

(** What the device does with a segment at [l4] of [len] bytes whose checksum is
    [o] bytes after [l4]: the complement of the sum of all the words, with the one
    that is there. *)
Definition device_completes {P} (l4 len o : Z) (h h' : heap P) : Prop :=
  exists c, rte_raw_cksum (heap_mem h) l4 len = Some c /\ store16 (l4 + o) (65535 - c) h = Some (tt, h').

(** The offset of the inner headers. *)
Definition inner_offset (fl : Z) (b : rte_mbuf) : Z :=
  if truthy (Z.land fl (Z.lor RTE_MBUF_F_TX_OUTER_IPV4 RTE_MBUF_F_TX_OUTER_IPV6))
  then l2_len b + (outer_l2_len b + outer_l3_len b) else l2_len b.

(** A checksum of UDP or TCP is asked for, of the segment and not of the parts
    that the device cuts, at offset [o] of the transport header. *)
Definition wants_l4 (fl : Z) (o : nat) : Prop :=
  Z.land fl RTE_MBUF_F_TX_L4_MASK = RTE_MBUF_F_TX_UDP_CKSUM /\ o = 6%nat
  \/ Z.land fl RTE_MBUF_F_TX_L4_MASK = RTE_MBUF_F_TX_TCP_CKSUM /\ o = 16%nat.

(** The three blocks of a packet: what comes before the inner IP header, the
    header and the segment. *)
Record layout {P} (h : heap P) (m fl : Z) (b : rte_mbuf) (base : Z) (pre ip seg : list Z) : Prop := {
  lay_mbuf : h_mbufs h !! m = Some b;
  lay_base : base = buf_addr b + data_off b /\ 0 <= base
             /\ base + Z.of_nat (length pre + length ip + length seg) < 2 ^ 64;
  lay_pre : bytes_at (heap_mem h) base pre;
  lay_ip : bytes_at (heap_mem h) (base + Z.of_nat (length pre)) ip;
  lay_seg : bytes_at (heap_mem h) (base + Z.of_nat (length pre + length ip)) seg;
  lay_pre_len : Z.of_nat (length pre) = inner_offset fl b;
  lay_l3 : Z.of_nat (length ip) = l3_len b;
  lay_first : inner_offset fl b + l3_len b + l4_len b <= data_len b;
  lay_outer : truthy (Z.land fl (Z.lor RTE_MBUF_F_TX_OUTER_IPV4 RTE_MBUF_F_TX_OUTER_IPV6)) = true ->
              truthy (Z.land fl RTE_MBUF_F_TX_OUTER_IP_CKSUM) = true ->
              outer_l2_len b + 12 <= inner_offset fl b
}.

(** The bytes before the inner header, with the checksum of an outer IPv4 header
    cleared when the device is to compute it. *)
Definition outer_cleared (fl : Z) (b : rte_mbuf) (pre : list Z) : list Z :=
  if truthy (Z.land fl (Z.lor RTE_MBUF_F_TX_OUTER_IPV4 RTE_MBUF_F_TX_OUTER_IPV6))
     && truthy (Z.land fl RTE_MBUF_F_TX_OUTER_IP_CKSUM)
  then splice pre (Z.to_nat (outer_l2_len b) + 10) (half_bytes 0) else pre.

(** Nothing is written but bytes of [[a, a + n)]. *)
Definition writes_within {P} (a n : Z) (h h' : heap P) : Prop :=
  h' = set_h_bytes (h_bytes h') h
  /\ forall x, x < a \/ a + n <= x -> heap_mem h' x = heap_mem h x.

(** * Lemmas *)

Lemma writes_refl {P} a n (h : heap P) : writes_within a n h h.
Proof. split; [by destruct h|done]. Qed.

Lemma writes_trans {P} a n (h h1 h2 : heap P) :
  writes_within a n h h1 -> writes_within a n h1 h2 -> writes_within a n h h2.
Proof.
  intros [E1 M1] [E2 M2]. split; [rewrite E2, E1; by destruct h|]. intros x Hx. by rewrite M2, M1.
Qed.

Lemma writes_at {P} a n (h h' : heap P) o :
  h' = set_h_bytes (h_bytes h') h -> a <= o -> o + 2 <= a + n ->
  (forall x, x < o \/ o + 2 <= x -> heap_mem h' x = heap_mem h x) -> writes_within a n h h'.
Proof. intros E H1 H2 M. split; [done|]. intros x Hx. apply M. lia. Qed.

Lemma bits_at_range o w z : 0 <= w -> 0 <= bits_at o w z < 2 ^ w.
Proof. intros. unfold bits_at. rewrite Z.land_ones by done. apply Z.mod_pos_bound. lia. Qed.

Lemma truthy_lor fl a b : truthy (Z.land fl (Z.lor a b)) = truthy (Z.land fl a) || truthy (Z.land fl b).
Proof.
  rewrite Z.land_lor_distr_r. unfold truthy. apply eq_true_iff_eq.
  rewrite orb_true_iff, !negb_true_iff, !Z.eqb_neq, Z.lor_eq_0_iff. lia.
Qed.

Lemma fields_range b :
  0 <= l2_len b < 128 /\ 0 <= l3_len b < 512 /\ 0 <= l4_len b < 256
  /\ 0 <= outer_l3_len b < 512 /\ 0 <= outer_l2_len b < 128.
Proof. do 4 (split; [by apply bits_at_range|]). by apply bits_at_range. Qed.

Lemma inner_offset_range fl b : 0 <= inner_offset fl b < 2 ^ 10.
Proof. pose proof (fields_range b). unfold inner_offset. destruct (truthy _); lia. Qed.

Section run.
Context {P : Type} (m fl : Z) (b : rte_mbuf) (base : Z).
Implicit Types (h : heap P) (pre ip seg : list Z).

(** Stores in one of the blocks. *)
Lemma layout_change h pre ip seg h' pre' ip' seg' :
  layout h m fl b base pre ip seg -> h_mbufs h' = h_mbufs h ->
  length pre' = length pre -> length ip' = length ip -> length seg' = length seg ->
  bytes_at (heap_mem h') base pre' -> bytes_at (heap_mem h') (base + Z.of_nat (length pre)) ip' ->
  bytes_at (heap_mem h') (base + Z.of_nat (length pre + length ip)) seg' ->
  layout h' m fl b base pre' ip' seg'.
Proof.
  intros [L1 L2 L3 L4 L5 L6 L7 L8 L9] Hm E1 E2 E3 B1 B2 B3.
  split; rewrite ?Hm, ?E1, ?E2, ?E3; done.
Qed.

Lemma store_pre h pre ip seg o v :
  layout h m fl b base pre ip seg -> (o + 2 <= length pre)%nat ->
  exists h', store16 (base + Z.of_nat o) v h = Some (tt, h')
    /\ layout h' m fl b base (splice pre o (half_bytes v)) ip seg /\ writes_within base (Z.of_nat (length pre + length ip + length seg)) h h'.
Proof.
  intros L Ho. destruct (store16_run h base pre o v (lay_pre _ _ _ _ _ _ _ _ L) Ho) as (h' & Hs & Hb & Hx & Hm).
  exists h'. split; [done|]. split; [|eapply writes_at; [done| | |exact Hx]; lia].
  apply (layout_change h pre ip seg); try done; [by rewrite Hm|by apply length_put|..].
  all: eapply bytes_at_ext; [|apply L]; intros x Hxr; apply Hx; lia.
Qed.

Lemma store_ip h pre ip seg o v :
  layout h m fl b base pre ip seg -> (o + 2 <= length ip)%nat ->
  exists h', store16 (base + Z.of_nat (length pre) + Z.of_nat o) v h = Some (tt, h')
    /\ layout h' m fl b base pre (splice ip o (half_bytes v)) seg /\ writes_within base (Z.of_nat (length pre + length ip + length seg)) h h'.
Proof.
  intros L Ho. destruct (store16_run h _ ip o v (lay_ip _ _ _ _ _ _ _ _ L) Ho) as (h' & Hs & Hb & Hx & Hm).
  exists h'. split; [done|]. split; [|eapply writes_at; [done| | |exact Hx]; lia].
  apply (layout_change h pre ip seg); try done; [by rewrite Hm|by apply length_put|..].
  all: eapply bytes_at_ext; [|apply L]; intros x Hxr; apply Hx; lia.
Qed.

Lemma store_seg h pre ip seg o v :
  layout h m fl b base pre ip seg -> (o + 2 <= length seg)%nat ->
  exists h', store16 (base + Z.of_nat (length pre + length ip) + Z.of_nat o) v h = Some (tt, h')
    /\ layout h' m fl b base pre ip (splice seg o (half_bytes v)) /\ writes_within base (Z.of_nat (length pre + length ip + length seg)) h h'.
Proof.
  intros L Ho. destruct (store16_run h _ seg o v (lay_seg _ _ _ _ _ _ _ _ L) Ho) as (h' & Hs & Hb & Hx & Hm).
  exists h'. split; [done|]. split; [|eapply writes_at; [done| | |exact Hx]; lia].
  apply (layout_change h pre ip seg); try done; [by rewrite Hm|by apply length_put|..].
  all: eapply bytes_at_ext; [|apply L]; intros x Hxr; apply Hx; lia.
Qed.

Lemma mtod_layout h pre ip seg o :
  layout h m fl b base pre ip seg -> 0 <= o <= Z.of_nat (length pre + length ip) ->
  rte_pktmbuf_mtod_offset b o = base + o.
Proof.
  intros L Ho. destruct (lay_base _ _ _ _ _ _ _ _ L) as (-> & H0 & H1). unfold rte_pktmbuf_mtod_offset.
  apply wrap_small. unfold fits. lia.
Qed.

(** The part of the preparation on an outer header. *)
Lemma outer_run h pre ip seg :
  layout h m fl b base pre ip seg ->
  exists h',
    (if truthy (Z.land fl (Z.lor RTE_MBUF_F_TX_OUTER_IPV4 RTE_MBUF_F_TX_OUTER_IPV6)) then
       (if truthy (Z.land fl RTE_MBUF_F_TX_OUTER_IP_CKSUM) then
          let ipv4_hdr := rte_pktmbuf_mtod_offset b (outer_l2_len b) in
          store16 (ipv4_hdr_checksum ipv4_hdr) 0
        else mret tt) ;;
       mret (u64 (l2_len b + (outer_l2_len b + outer_l3_len b)))
     else mret (l2_len b)) h = Some (inner_offset fl b, h')
    /\ layout h' m fl b base (outer_cleared fl b pre) ip seg /\ length (outer_cleared fl b pre) = length pre
    /\ writes_within base (Z.of_nat (length pre + length ip + length seg)) h h'.
Proof.
  pose proof (writes_refl base (Z.of_nat (length pre + length ip + length seg)) h) as Wr. intros L. pose proof (lay_outer _ _ _ _ _ _ _ _ L) as Ho. pose proof (lay_pre_len _ _ _ _ _ _ _ _ L) as Hl.
  pose proof (fields_range b) as F. pose proof (inner_offset_range fl b) as R.
  unfold inner_offset, outer_cleared in *. destruct (truthy (Z.land fl (Z.lor _ _))); [|by exists h].
  rewrite wrap_small by (unfold fits; lia). destruct (truthy (Z.land fl RTE_MBUF_F_TX_OUTER_IP_CKSUM)); [|by exists h].
  specialize (Ho eq_refl eq_refl).
  destruct (store_pre h pre ip seg (Z.to_nat (outer_l2_len b) + 10) 0 L) as (h' & Hs & L' & W'); [lia|].
  exists h'. split; [|split; [done|split; [apply length_put; lia|done]]].
  rewrite (mtod_layout h pre ip seg) by (done || lia). unfold ipv4_hdr_checksum.
  replace (base + outer_l2_len b + 10) with (base + Z.of_nat (Z.to_nat (outer_l2_len b) + 10)) by lia.
  by rewrite (mbind_run _ _ _ _ _ Hs).
Qed.

(** The inner header, with its own checksum cleared or not. *)
Definition cleared ip : list Z :=
  if truthy (Z.land fl RTE_MBUF_F_TX_IPV4) && truthy (Z.land fl RTE_MBUF_F_TX_IP_CKSUM)
  then splice ip 10 (half_bytes 0) else ip.

Lemma flags_clear_run h pre ip seg :
  layout h m fl b base pre ip seg -> (12 <= length ip)%nat ->
  exists h',
    (if truthy (Z.land fl RTE_MBUF_F_TX_IPV4) && truthy (Z.land fl RTE_MBUF_F_TX_IP_CKSUM)
     then store16 (ipv4_hdr_checksum (rte_pktmbuf_mtod_offset b (inner_offset fl b))) 0 else mret tt) h = Some (tt, h')
    /\ layout h' m fl b base pre (cleared ip) seg /\ length (cleared ip) = length ip /\ writes_within base (Z.of_nat (length pre + length ip + length seg)) h h'.
Proof.
  pose proof (writes_refl base (Z.of_nat (length pre + length ip + length seg)) h) as Wr.
  intros L Hl. unfold cleared. destruct (_ && _); [|by exists h].
  destruct (store_ip h pre ip seg 10 0 L) as (h' & Hs & L' & W'); [lia|]. exists h'.
  split; [|split; [done|split; [apply length_put; lia|done]]].
  rewrite <- (lay_pre_len _ _ _ _ _ _ _ _ L). by rewrite (mtod_layout h pre ip seg) by (done || lia).
Qed.
End run.

(** ** The arithmetic of the completion *)

Lemma completed_sum s p : 0 <= s -> 0 <= p ->
  ones_complement (s + (65535 - ones_complement (s + ones_complement p)) + p) = 65535.
Proof.
  intros Hs Hp. rewrite (Z.add_comm s (ones_complement p)), oc_oc_add by done.
  replace (s + (65535 - ones_complement (p + s)) + p) with (p + s + (65535 - ones_complement (p + s))) by lia.
  apply oc_complement; [lia|by left].
Qed.

Lemma splice_splice {A} (l a c : list A) o :
  length a = length c -> (o + length a <= length l)%nat -> splice (splice l o a) o c = splice l o c.
Proof.
  intros E Hl. apply list_eq. intros i.
  rewrite !lookup_splice by (rewrite ?length_splice by done; lia). rewrite E. by case_decide.
Qed.

(** The sum of a segment whose checksum is replaced. *)
Lemma word_sum_put seg o v : Nat.Even o -> (o + 2 <= length seg)%nat -> fits 16 v ->
  word_sum (splice seg o (half_bytes v)) = word_sum (splice seg o (half_bytes 0)) + v.
Proof.
  intros He Ho Hv. rewrite <- (word_sum_fill (splice seg o (half_bytes 0)) o v); [|done| |done].
  - by rewrite splice_splice by (done || (simpl; lia)).
  - unfold splice. rewrite drop_app_ge by (rewrite length_take; lia).
    by rewrite length_take, Nat.min_l, Nat.sub_diag by lia.
Qed.

(** ** The transport checksum *)

Section ipv4.
Context {P : Type} (m fl : Z) (b : rte_mbuf) (base : Z) (o : nat).
Context (V4 : truthy (Z.land fl RTE_MBUF_F_TX_IPV4) = true) (NoSeg : truthy (Z.land fl RTE_MBUF_F_TX_TCP_SEG) = false).
Context (W : wants_l4 fl o).
Implicit Types (h : heap P).

Lemma phdr4_flags mem hdr : rte_ipv4_phdr_cksum mem hdr fl = rte_ipv4_phdr_cksum mem hdr 0.
Proof using NoSeg. unfold rte_ipv4_phdr_cksum. by rewrite NoSeg. Qed.

Lemma pseudo4_cleared ip :
  length ip = 20%nat ->
  pseudo4 (cleared fl ip) = pseudo4 ip /\ be16_at (cleared fl ip) 2 = be16_at ip 2
  /\ claimed_hdr_len (cleared fl ip) = claimed_hdr_len ip /\ proto4 (cleared fl ip) = proto4 ip.
Proof using.
  intros Hl. unfold cleared. destruct (_ && _); [|done].
  do 20 (destruct ip as [|? ip]; [done|]). by destruct ip.
Qed.

Lemma wants_some : negb (truthy (Z.land fl (Z.lor (Z.lor (Z.lor RTE_MBUF_F_TX_IP_CKSUM RTE_MBUF_F_TX_L4_MASK)
    RTE_MBUF_F_TX_TCP_SEG) RTE_MBUF_F_TX_OUTER_IP_CKSUM))) = false.
Proof using W.
  rewrite !truthy_lor. assert (truthy (Z.land fl RTE_MBUF_F_TX_L4_MASK) = true) as ->; [|by rewrite orb_true_r].
  destruct W as [[-> _]|[-> _]]; done.
Qed.

(** The preparation of a UDP or TCP packet over IPv4. *)
Lemma prepare4_run h pre ip seg :
  layout h m fl b base pre ip seg -> length ip = 20%nat -> (o + 2 <= length seg)%nat ->
  claimed_hdr_len ip <= be16_at ip 2 ->
  exists h',
    rte_net_intel_cksum_flags_prepare m fl h = Some (0, h') /\ length (outer_cleared fl b pre) = length pre
    /\ layout h' m fl b base (outer_cleared fl b pre) (cleared fl ip)
         (splice seg o (half_bytes (ones_complement (word_sum (pseudo4 ip)))))
    /\ writes_within base (Z.of_nat (length pre + length ip + length seg)) h h'.
Proof using V4 NoSeg W.
  intros L Hl Ho Hc. destruct (outer_run m fl b base h pre ip seg L) as (h1 & R1 & L1 & E1 & W1).
  set (pre1 := outer_cleared fl b pre) in *.
  destruct (flags_clear_run m fl b base h1 pre1 ip seg L1 ltac:(lia)) as (h2 & R2 & L2 & E2 & W2).
  destruct (store_seg m fl b base h2 pre1 (cleared fl ip) seg o (ones_complement (word_sum (pseudo4 ip))) L2 Ho)
    as (h3 & R3 & L3 & W3). rewrite E1 in W2. rewrite E1, E2 in W3.
  exists h3. split; [|split; [done|split; [done|by eapply writes_trans; [eapply writes_trans|]]]].
  unfold rte_net_intel_cksum_flags_prepare.
  rewrite (mbind_run _ _ _ _ _ (rd_run m b h (lay_mbuf _ _ _ _ _ _ _ _ L))). cbv zeta.
  rewrite wants_some. rewrite (mbind_run _ _ _ _ _ R1).
  pose proof (fields_range b) as F. pose proof (inner_offset_range fl b) as Ri.
  rewrite (wrap_small 64 (_ + l4_len b)) by (unfold fits; lia).
  rewrite (proj2 (Z.ltb_ge _ _) (lay_first _ _ _ _ _ _ _ _ L)).
  rewrite (mbind_run _ _ _ _ _ R2). rewrite V4.
  pose proof (lay_pre_len _ _ _ _ _ _ _ _ L2) as Hp. pose proof (lay_l3 _ _ _ _ _ _ _ _ L2) as Hl3.
  destruct (lay_base _ _ _ _ _ _ _ _ L2) as (_ & B0 & B1).
  rewrite <- Hp, (mtod_layout m fl b base h2 pre1 (cleared fl ip) seg) by (done || lia).
  assert (RTE_PTR_ADD (base + Z.of_nat (length pre1)) (l3_len b)
          = base + Z.of_nat (length pre1 + length (cleared fl ip))) as ->.
  { unfold RTE_PTR_ADD. rewrite <- Hl3, wrap_small by (unfold fits; lia). lia. }
  assert (on_bytes (fun mem => rte_ipv4_phdr_cksum mem (base + Z.of_nat (length pre1)) fl) h2
          = Some (ones_complement (word_sum (pseudo4 ip)), h2)) as Rp.
  { destruct (pseudo4_cleared ip Hl) as (Ep & Eb & Ec & _). unfold on_bytes. rewrite phdr4_flags.
    rewrite (phdr4_run _ _ (cleared fl ip)); [by rewrite Ep|apply L2|lia|by rewrite Eb, Ec]. }
  destruct W as [[-> ->]|[-> ->]].
  - rewrite Z.eqb_refl, (mbind_run _ _ _ _ _ Rp). by rewrite (mbind_run _ _ _ _ _ R3).
  - change (RTE_MBUF_F_TX_TCP_CKSUM =? RTE_MBUF_F_TX_UDP_CKSUM) with false.
    rewrite Z.eqb_refl. cbn [orb]. rewrite (mbind_run _ _ _ _ _ Rp). by rewrite (mbind_run _ _ _ _ _ R3).
Qed.
End ipv4.

(** C35. Checksum offload of UDP and TCP over IPv4, in a tunnel or not, for a
    packet with an IP header of 20 bytes whose length is that of the packet, whose
    headers are in its first mbuf, whose segment follows them in memory and that
    the device is not to cut (no TSO): the preparation returns 0 and changes
    nothing in the memory but three checksums, whose values are stated: that of an
    outer IPv4 header and that of the IP header are cleared when the flags leave
    them to the device, and the transport header gets the sum of the
    pseudo-header, which is such that, once the device has completed it, the
    receiver's [rte_ipv4_udptcp_cksum_verify] accepts the segment; this for any
    contents of the packet and any checksums that were there before. *)
Theorem intel_prepare_completes {P : Type} (h : heap P) (m fl : Z) (b : rte_mbuf) (base : Z)
    (pre ip seg : list Z) (o : nat) :
  layout h m fl b base pre ip seg -> length ip = 20%nat -> (o + 2 <= length seg)%nat ->
  be16_at ip 2 = claimed_hdr_len ip + Z.of_nat (length seg) ->
  truthy (Z.land fl RTE_MBUF_F_TX_IPV4) = true -> truthy (Z.land fl RTE_MBUF_F_TX_TCP_SEG) = false ->
  wants_l4 fl o ->
  let hdr := base + Z.of_nat (length pre) in
  let l4 := base + Z.of_nat (length pre + length ip) in
  exists h' h'',
    rte_net_intel_cksum_flags_prepare m fl h = Some (0, h')
    /\ layout h' m fl b base (outer_cleared fl b pre) (cleared fl ip)
         (splice seg o (half_bytes (ones_complement (word_sum (pseudo4 ip)))))
    /\ writes_within base (Z.of_nat (length pre + length ip + length seg)) h h'
    /\ device_completes l4 (Z.of_nat (length seg)) (Z.of_nat o) h' h''
    /\ rte_ipv4_udptcp_cksum_verify (heap_mem h'') hdr l4 = Some 0.
Proof.
  intros L Hl Ho Ht V4 NoSeg W hdr l4. set (p := word_sum (pseudo4 ip)).
  destruct (prepare4_run m fl b base o V4 NoSeg W h pre ip seg L Hl Ho ltac:(lia)) as (h' & R & Ep & L' & Wh).
  set (pre' := outer_cleared fl b pre) in *. fold p in L'. pose proof (bytes_at_fits _ _ _ (lay_seg _ _ _ _ _ _ _ _ L')) as Fs.
  set (seg' := splice seg o (half_bytes (ones_complement p))) in *.
  assert (length seg' = length seg) as Es by (by apply length_put).
  destruct (pseudo4_cleared fl ip Hl) as (Epp & Eb & Ec & _).
  assert (length (cleared fl ip) = length ip) as Ei.
  { unfold cleared. destruct (_ && _); [apply length_put; lia|done]. }
  assert (0 <= p) as Hp by (apply (word_sum_bound (pseudo4 ip)), pseudo4_fits).
  set (s := word_sum (splice seg o (half_bytes 0))).
  assert (0 <= s) as H0.
  { apply (word_sum_bound (splice seg o (half_bytes 0))). pose proof (bytes_at_fits _ _ _ (lay_seg _ _ _ _ _ _ _ _ L)).
    unfold splice. apply Forall_app. split; [by apply Forall_take|]. apply Forall_app.
    split; [apply half_bytes_fits|by apply Forall_drop]. }
  assert (Nat.Even o) as He by (destruct W as [[_ ->]|[_ ->]]; [by exists 3%nat|by exists 8%nat]).
  pose proof (oc_range p) as Rp.
  assert (word_sum seg' = s + ones_complement p) as Ew by (apply word_sum_put; [done|done|unfold fits; lia]).
  destruct (lay_base _ _ _ _ _ _ _ _ L') as (_ & B0 & B1). rewrite Ep, Ei, Es in B1.
  assert (l4 = base + Z.of_nat (length pre' + length (cleared fl ip))) as El by (unfold l4; lia).
  pose proof (be16_range ip 2 (bytes_at_fits _ _ _ (lay_ip _ _ _ _ _ _ _ _ L))) as Rb. unfold fits in Rb.
  assert (0 <= claimed_hdr_len ip).
  { unfold claimed_hdr_len. pose proof (Z.mod_pos_bound (default 0 (ip !! 0%nat)) 16 ltac:(lia)). lia. }
  set (c := ones_complement (word_sum seg')). pose proof (oc_range (word_sum seg')) as Rc. fold c in Rc.
  destruct (store_seg m fl b base h' pre' (cleared fl ip) seg' o (65535 - c) L' ltac:(lia)) as (h'' & Rs & L'' & _).
  exists h', h''. split; [done|]. split; [done|]. split; [done|]. split.
  - exists c. rewrite El. split; [|done]. rewrite <- Es. apply raw_cksum_ok; [apply L'|lia..].
  - unfold seg' in L''. rewrite splice_splice in L'' by (done || (simpl; lia)).
    unfold rte_ipv4_udptcp_cksum_verify.
    rewrite (transport4_run _ hdr (cleared fl ip)
               ltac:(unfold hdr; rewrite <- Ep; exact (lay_ip _ _ _ _ _ _ _ _ L'')) ltac:(lia) ltac:(rewrite Eb, Ec; lia)
               l4 (splice seg o (half_bytes (65535 - c)))
               ltac:(rewrite El; exact (lay_seg _ _ _ _ _ _ _ _ L'')))
      by (rewrite ?length_put, ?Eb, ?Ec by lia; lia).
    cbn [mbind option_bind]. rewrite word_sum_put by (done || (unfold fits; lia)). fold s.
    rewrite Epp. fold p. unfold c. rewrite Ew, completed_sum by done. done.
Qed.

(** A DNS question that was cut short, to be sent with both checksums left to the
    device; the UDP checksum holds something else before. *)
Definition demo_flags : Z := Z.lor (Z.lor RTE_MBUF_F_TX_IPV4 RTE_MBUF_F_TX_IP_CKSUM) RTE_MBUF_F_TX_UDP_CKSUM.
Definition demo_eth : list Z := [2; 0; 0; 0; 0; 2; 2; 0; 0; 0; 0; 1; 8; 0].
Definition demo_question : list Z := [0x30; 0x39; 0; 53; 0; 11; 0xbe; 0xef; 1; 2; 3].
Definition demo_frame : list Z := demo_eth ++ demo_ip 17 31 ++ demo_question.
Definition demo_sent : rte_mbuf :=
  mk_mbuf 4096 0 128 1 1 0 demo_flags 0 45 45 0 0 0 2048 1 0 (14 + 20 * 2 ^ 7 + 8 * 2 ^ 16) 0 0 0 [].
Definition demo_send_heap : heap unit :=
  mk_heap {[ 1000 := demo_sent ]} ∅ ∅ ∅ ∅ (list_to_map (imap (fun i c => (4224 + Z.of_nat i, c)) demo_frame)).

Lemma intel_prepare_completes_witness :
  exists h' h'', rte_net_intel_cksum_flags_prepare 1000 demo_flags demo_send_heap = Some (0, h')
    /\ device_completes 4258 11 6 h' h'' /\ rte_ipv4_udptcp_cksum_verify (heap_mem h'') 4238 4258 = Some 0.
Proof.
  destruct (intel_prepare_completes demo_send_heap 1000 demo_flags demo_sent 4224 demo_eth (demo_ip 17 31) demo_question 6)
    as (h' & h'' & R & _ & _ & D & V).
  - split; [done|by split; [done|simpl; lia]|by apply bytes_of_at|by apply bytes_of_at|by apply bytes_of_at|done|done| |done].
    by vm_compute.
  - done.
  - simpl. lia.
  - done.
  - done.
  - done.
  - by left.
  - exists h', h''. split; [exact R|]. split; [exact D|exact V].
Defined.

(** ** The other branches *)

(** Without one of the flags nothing is read or written but the flags; headers
    that leave the first mbuf are refused. *)
Theorem intel_prepare_nothing {P : Type} (h : heap P) (m fl : Z) (b : rte_mbuf) :
  h_mbufs h !! m = Some b ->
  Forall (fun f => Z.land fl f = 0) [RTE_MBUF_F_TX_IP_CKSUM; RTE_MBUF_F_TX_L4_MASK; RTE_MBUF_F_TX_TCP_SEG;
                                     RTE_MBUF_F_TX_OUTER_IP_CKSUM] ->
  rte_net_intel_cksum_flags_prepare m fl h = Some (0, h).
Proof.
  intros Hb F. rewrite !Forall_cons in F. destruct F as (F1 & F2 & F3 & F4 & _).
  unfold rte_net_intel_cksum_flags_prepare. rewrite (mbind_run _ _ _ _ _ (rd_run m b h Hb)). cbv zeta.
  by rewrite !truthy_lor, F1, F2, F3, F4.
Qed.

Theorem intel_prepare_fragmented {P : Type} (h : heap P) (m fl : Z) (b : rte_mbuf) :
  h_mbufs h !! m = Some b ->
  truthy (Z.land fl (Z.lor RTE_MBUF_F_TX_IP_CKSUM RTE_MBUF_F_TX_L4_MASK)) = true ->
  truthy (Z.land fl (Z.lor RTE_MBUF_F_TX_OUTER_IPV4 RTE_MBUF_F_TX_OUTER_IPV6)) = false ->
  data_len b < l2_len b + l3_len b + l4_len b ->
  rte_net_intel_cksum_flags_prepare m fl h = Some (- ENOTSUP, h).
Proof.
  intros Hb Hf Ht Hd. unfold rte_net_intel_cksum_flags_prepare.
  rewrite (mbind_run _ _ _ _ _ (rd_run m b h Hb)). cbv zeta. rewrite truthy_lor, truthy_lor, Hf, Ht. cbn [orb negb].
  unfold mbind, M_bind, mret, M_ret. pose proof (fields_range b).
  rewrite wrap_small by (unfold fits; lia). by rewrite (proj2 (Z.ltb_lt _ _) Hd).
Qed.
