(* ===== verification/Ether.v ===== *)
(** * Ethernet addresses and VLAN tags ([include/rte_ether.h]).

    An address is six bytes in memory, an Ethernet header two addresses and a
    type, a VLAN header the tag and the type of the frame it encapsulates. *)
From stdpp Require Import prelude list numbers gmap.
From S2P Require Import Prelude Bits Mempool MbufCore Bytes Mbuf MbufSpec.
Open Scope Z_scope.

Definition RTE_ETHER_ADDR_LEN : Z := 6.
Definition RTE_ETHER_HDR_LEN : Z := 14.
Definition RTE_VLAN_HLEN : Z := 4.
Definition RTE_ETHER_LOCAL_ADMIN_ADDR : Z := 0x02.
Definition RTE_ETHER_GROUP_ADDR : Z := 0x01.
Definition RTE_ETHER_TYPE_VLAN : Z := 0x8100.
Definition RTE_MBUF_F_RX_VLAN : Z := bit 0.
Definition RTE_MBUF_F_RX_VLAN_STRIPPED : Z := bit 6.
Definition ENOSPC : Z := 28.

(** Members of [struct rte_ether_hdr] and [struct rte_vlan_hdr]. *)
Definition eh_ether_type (eh : Z) : Z := eh + 12.
Definition sizeof_ether_hdr : Z := 14.
Definition vh_vlan_tci (vh : Z) : Z := vh.
Definition sizeof_vlan_hdr : Z := 4.

(** ** Addresses *)

Section addr.
Context (mem : memory).

(** The three words of an address. *)
Definition ea_words (ea : Z) : option (Z * Z * Z) :=
  w0 ← ld16 mem ea ; w1 ← ld16 mem (ea + 2) ; w2 ← ld16 mem (ea + 4) ; Some (w0, w1, w2).

Definition rte_is_same_ether_addr (ea1 ea2 : Z) : option Z :=
  '(a0, a1, a2) ← ea_words ea1 ;
  '(b0, b1, b2) ← ea_words ea2 ;
  Some (b2z (Z.lor (Z.lor (Z.lxor a0 b0) (Z.lxor a1 b1)) (Z.lxor a2 b2) =? 0)).

Definition rte_is_zero_ether_addr (ea : Z) : option Z :=
  '(w0, w1, w2) ← ea_words ea ;
  Some (b2z (Z.lor (Z.lor w0 w1) w2 =? 0)).

Definition rte_is_unicast_ether_addr (ea : Z) : option Z :=
  a0 ← mem ea ; Some (b2z (Z.land a0 RTE_ETHER_GROUP_ADDR =? 0)).

Definition rte_is_multicast_ether_addr (ea : Z) : option Z :=
  a0 ← mem ea ; Some (Z.land a0 RTE_ETHER_GROUP_ADDR).

Definition rte_is_broadcast_ether_addr (ea : Z) : option Z :=
  '(w0, w1, w2) ← ea_words ea ;
  Some (b2z (Z.land (Z.land w0 w1) w2 =? 0xFFFF)).

Definition rte_is_universal_ether_addr (ea : Z) : option Z :=
  a0 ← mem ea ; Some (b2z (Z.land a0 RTE_ETHER_LOCAL_ADMIN_ADDR =? 0)).

Definition rte_is_local_admin_ether_addr (ea : Z) : option Z :=
  a0 ← mem ea ; Some (b2z (negb (Z.land a0 RTE_ETHER_LOCAL_ADMIN_ADDR =? 0))).

Definition rte_is_valid_assigned_ether_addr (ea : Z) : option Z :=
  unicast ← rte_is_unicast_ether_addr ea ;
  if truthy unicast then zero ← rte_is_zero_ether_addr ea ; Some (b2z (negb (truthy zero)))
  else Some 0.
End addr.

Section frames.
Context {P : Type}.

Definition rte_ether_addr_copy (ea_from ea_to : Z) : M (heap P) unit :=
  memmove ea_to ea_from RTE_ETHER_ADDR_LEN.

(** ** VLAN tags *)

Definition rte_vlan_strip (m : Z) : M (heap P) Z :=
  b ← rd m ;
  let eh := rte_pktmbuf_mtod b in
  ether_type ← load16 (eh_ether_type eh) ;
  if negb (ether_type =? rte_cpu_to_be_16 RTE_ETHER_TYPE_VLAN) then mret (-1)
  else
    let vh := eh + sizeof_ether_hdr in
    upd m (fun b => set_ol_flags
      (Z.lor (ol_flags b) (Z.lor RTE_MBUF_F_RX_VLAN RTE_MBUF_F_RX_VLAN_STRIPPED)) b) ;;
    tci ← load16 (vh_vlan_tci vh) ;
    upd m (set_vlan_tci (rte_be_to_cpu_16 tci)) ;;
    dst ← rte_pktmbuf_adj m sizeof_vlan_hdr ;
    memmove dst eh (2 * RTE_ETHER_ADDR_LEN) ;;
    mret 0.

(** The bit-fields [l2_len] and [outer_l2_len]. *)
Definition l2_len (b : rte_mbuf) : Z := bits_at RTE_MBUF_L2_LEN_OFS 7 (tx_offload b).
Definition outer_l2_len (b : rte_mbuf) : Z := bits_at RTE_MBUF_OUTL2_LEN_OFS 7 (tx_offload b).

(** The members that describe the tag: its flags and the length of the header. *)
Definition vlan_insert_offload (m : Z) : M (heap P) unit :=
  upd m (fun b => set_ol_flags
    (Z.land (ol_flags b)
       (u64 (Z.lnot (Z.lor RTE_MBUF_F_RX_VLAN_STRIPPED RTE_MBUF_F_TX_VLAN)))) b) ;;
  b ← rd m ;
  if truthy (Z.land (ol_flags b) RTE_MBUF_F_TX_TUNNEL_MASK) then
    upd m (fun b => set_tx_offload
      (set_bits_at RTE_MBUF_OUTL2_LEN_OFS 7 (outer_l2_len b + sizeof_vlan_hdr) (tx_offload b)) b)
  else
    upd m (fun b => set_tx_offload
      (set_bits_at RTE_MBUF_L2_LEN_OFS 7 (l2_len b + sizeof_vlan_hdr) (tx_offload b)) b).

(** The packet is not replaced: the pointer [m] points to is [*m] throughout. *)
Definition rte_vlan_insert (m : Z) : M (heap P) Z :=
  b ← rd m ;
  cnt ← rte_mbuf_refcnt_read m ;
  if negb (RTE_MBUF_DIRECT b) || (cnt >? 1) then mret (- EINVAL)
  else if data_len b <? 2 * RTE_ETHER_ADDR_LEN then mret (- EINVAL)
  else
    let oh := rte_pktmbuf_mtod b in
    nh ← rte_pktmbuf_prepend m sizeof_vlan_hdr ;
    if nh =? NULL then mret (- ENOSPC)
    else
      memmove nh oh (2 * RTE_ETHER_ADDR_LEN) ;;
      store16 (eh_ether_type nh) (rte_cpu_to_be_16 RTE_ETHER_TYPE_VLAN) ;;
      let vh := nh + sizeof_ether_hdr in
      b ← rd m ;
      store16 (vh_vlan_tci vh) (rte_cpu_to_be_16 (vlan_tci b)) ;;
      vlan_insert_offload m ;;
      mret 0.
End frames.

(** * Lemmas *)

(** ** Addresses *)

Lemma ea_words_run mem ea l :
  bytes_at mem ea l -> length l = 6%nat ->
  ea_words mem ea = Some (le16_at l 0, le16_at l 2, le16_at l 4).
Proof.
  intros H Hl. unfold ea_words.
  pose proof (ld16_at mem ea l 0 H ltac:(lia)) as E0. rewrite Z.add_0_r in E0.
  rewrite E0. cbn [mbind option_bind].
  change (ea + 2) with (ea + Z.of_nat 2). change (ea + 4) with (ea + Z.of_nat 4).
  rewrite (ld16_at mem ea l 2 H) by lia. cbn [mbind option_bind].
  by rewrite (ld16_at mem ea l 4 H) by lia.
Qed.

(** Six bytes are their three words. *)
Lemma words_eq l1 l2 :
  Forall (fits 8) l1 -> Forall (fits 8) l2 -> length l1 = 6%nat -> length l2 = 6%nat ->
  le16_at l1 0 = le16_at l2 0 -> le16_at l1 2 = le16_at l2 2 -> le16_at l1 4 = le16_at l2 4 ->
  l1 = l2.
Proof.
  intros F1 F2 H1 H2.
  destruct l1 as [|a0 [|a1 [|a2 [|a3 [|a4 [|a5 [|]]]]]]]; try done.
  destruct l2 as [|b0 [|b1 [|b2 [|b3 [|b4 [|b5 [|]]]]]]]; try done.
  rewrite !Forall_cons in F1, F2. unfold fits, le16_at in *. cbn [lookup list_lookup default].
  simpl. intros. repeat f_equal; lia.
Qed.

Lemma lor_zero a b : Z.lor a b = 0 <-> a = 0 /\ b = 0.
Proof. apply Z.lor_eq_0_iff. Qed.

Lemma land_low_bit a : Z.land a 1 = a mod 2.
Proof. change 1 with (2 ^ 1 - 1). by rewrite land_mask by lia. Qed.

(** The conjunction of three 16-bit words is all ones only if they are. *)
Lemma land_all_ones a b :
  fits 16 a -> fits 16 b -> Z.land a b = 0xFFFF <-> a = 0xFFFF /\ b = 0xFFFF.
Proof.
  intros Ha Hb. split; [|by intros [-> ->]]. intros H.
  assert (forall x y, fits 16 x -> Z.land x y = 0xFFFF -> x = 0xFFFF) as G.
  { intros x y Hx E. apply Z.bits_inj'. intros i Hi. destruct (decide (i < 16)) as [L|L].
    - assert (Z.testbit (Z.land x y) i = true) as T.
      { rewrite E. change 0xFFFF with (Z.ones 16). rewrite Z.testbit_ones_nonneg by lia. lia. }
      rewrite Z.land_spec in T. apply andb_prop in T as [-> _].
      change 0xFFFF with (Z.ones 16). rewrite Z.testbit_ones_nonneg by lia. lia.
    - by rewrite !(testbit_beyond 16) by (done || lia). }
  split; [by eapply G|]. eapply G; [done|]. by rewrite Z.land_comm.
Qed.

(** One bit of a byte, tested with a mask. *)
Lemma land_pow2_zero a k : 0 <= k -> (Z.land a (2 ^ k) =? 0) = (a / 2 ^ k mod 2 =? 0).
Proof.
  intros Hk. rewrite <- Z.shiftr_div_pow2, <- land_low_bit by lia.
  apply eq_bool_prop_intro. rewrite !Is_true_true, !Z.eqb_eq.
  replace (Z.land (Z.shiftr a k) 1) with (Z.shiftr (Z.land a (2 ^ k)) k)
    by (rewrite Z.shiftr_land, (Z.shiftr_div_pow2 (2 ^ k)), Z.div_same by lia; done).
  split; [by intros ->; rewrite Z.shiftr_0_l|]. intros E. apply Z.bits_inj'. intros i Hi.
  rewrite Z.testbit_0_l, Z.land_spec, Z.pow2_bits_eqb by done.
  destruct (Z.eqb_spec k i) as [<-|]; [|apply andb_false_r].
  pose proof (f_equal (fun z => Z.testbit z 0) E) as T. cbv beta in T.
  rewrite Z.shiftr_spec, Z.land_spec, Z.add_0_l, Z.testbit_0_l, Z.pow2_bits_true in T by done.
  exact T.
Qed.

Lemma parity_test x : b2z (x mod 2 =? 0) = 1 - x mod 2 /\ b2z (negb (x mod 2 =? 0)) = x mod 2.
Proof.
  pose proof (Z.mod_pos_bound x 2 ltac:(lia)). destruct (Z.eqb_spec (x mod 2) 0); simpl; lia.
Qed.

Lemma zero_test mem ea l :
  bytes_at mem ea l -> length l = 6%nat ->
  rte_is_zero_ether_addr mem ea = Some (b2z (bool_decide (l = repeat 0 6))).
Proof.
  intros H L. unfold rte_is_zero_ether_addr. rewrite (ea_words_run _ _ _ H L).
  cbn [mbind option_bind]. do 2 f_equal. apply eq_bool_prop_intro.
  rewrite Is_true_true, Z.eqb_eq, !lor_zero, bool_decide_spec.
  split; [|by intros ->]. intros [[W0 W1] W2].
  apply words_eq; try done; [by eapply bytes_at_fits|].
  repeat constructor; unfold fits; lia.
Qed.

(** The tests on Ethernet addresses, for addresses anywhere in memory:
    [rte_is_same_ether_addr] compares all six bytes, [rte_is_zero_ether_addr]
    and [rte_is_broadcast_ether_addr] hold exactly of the addresses whose
    bytes are all 0 and all 0xff, unicast and multicast exclude each other,
    and so do universally and locally administered; an assigned address is
    valid exactly when its first byte is even and it is not all zero. *)
Theorem ether_addr_tests (mem : memory) (ea1 ea2 : Z) (l1 l2 : list Z) :
  bytes_at mem ea1 l1 -> bytes_at mem ea2 l2 -> length l1 = 6%nat -> length l2 = 6%nat ->
  let first := default 0 (l1 !! 0%nat) in
  rte_is_same_ether_addr mem ea1 ea2 = Some (b2z (bool_decide (l1 = l2)))
  /\ rte_is_zero_ether_addr mem ea1 = Some (b2z (bool_decide (l1 = repeat 0 6)))
  /\ rte_is_broadcast_ether_addr mem ea1 = Some (b2z (bool_decide (l1 = repeat 0xff 6)))
  /\ rte_is_multicast_ether_addr mem ea1 = Some (first mod 2)
  /\ rte_is_unicast_ether_addr mem ea1 = Some (1 - first mod 2)
  /\ rte_is_local_admin_ether_addr mem ea1 = Some (first / 2 mod 2)
  /\ rte_is_universal_ether_addr mem ea1 = Some (1 - first / 2 mod 2)
  /\ rte_is_valid_assigned_ether_addr mem ea1
     = Some (b2z ((first mod 2 =? 0) && negb (bool_decide (l1 = repeat 0 6)))).
Proof.
  intros H1 H2 L1 L2 first.
  pose proof (bytes_at_fits _ _ _ H1) as F1. pose proof (bytes_at_fits _ _ _ H2) as F2.
  assert (E0 : mem ea1 = Some first).
  { destruct l1 as [|b l1]; [done|]. by apply bytes_at_cons in H1 as [E _]. }
  pose proof (zero_test mem ea1 l1 H1 L1) as Hz.
  pose proof (land_pow2_zero first 0 ltac:(lia)) as B0. rewrite Z.div_1_r in B0.
  pose proof (land_pow2_zero first 1 ltac:(lia)) as B1.
  change (2 ^ 0) with RTE_ETHER_GROUP_ADDR in B0.
  change (2 ^ 1) with 2 in B1. change (Z.land first 2) with (Z.land first RTE_ETHER_LOCAL_ADMIN_ADDR) in B1.
  destruct (parity_test first) as [P0 _]. destruct (parity_test (first / 2)) as [P1 P1'].
  assert (Hu : rte_is_unicast_ether_addr mem ea1 = Some (1 - first mod 2)).
  { unfold rte_is_unicast_ether_addr. rewrite E0. cbn [mbind option_bind]. by rewrite B0, P0. }
  split_and!; [|exact Hz| | |exact Hu| | |].
  - unfold rte_is_same_ether_addr. rewrite (ea_words_run _ _ _ H1 L1). cbn [mbind option_bind].
    rewrite (ea_words_run _ _ _ H2 L2). cbn [mbind option_bind]. do 2 f_equal.
    apply eq_bool_prop_intro.
    rewrite Is_true_true, Z.eqb_eq, !lor_zero, !Z.lxor_eq_0_iff, bool_decide_spec.
    split; [|by intros ->]. intros [[W0 W1] W2]. by apply words_eq.
  - unfold rte_is_broadcast_ether_addr. rewrite (ea_words_run _ _ _ H1 L1). cbn [mbind option_bind].
    do 2 f_equal. apply eq_bool_prop_intro. rewrite Is_true_true, Z.eqb_eq, bool_decide_spec.
    rewrite !land_all_ones by (try apply fits_land; try lia; by apply le16_range).
    split; [|by intros ->]. intros [[W0 W1] W2].
    apply words_eq; try done. repeat constructor; unfold fits; lia.
  - unfold rte_is_multicast_ether_addr. rewrite E0. cbn [mbind option_bind]. f_equal.
    apply land_low_bit.
  - unfold rte_is_local_admin_ether_addr. rewrite E0. cbn [mbind option_bind]. by rewrite B1, P1'.
  - unfold rte_is_universal_ether_addr. rewrite E0. cbn [mbind option_bind]. by rewrite B1, P1.
  - unfold rte_is_valid_assigned_ether_addr. rewrite Hu, Hz. cbn [mbind option_bind].
    rewrite <- P0. destruct (first mod 2 =? 0); simpl; by try destruct (bool_decide _).
Qed.

Definition demo_addr : list Z := [2; 0; 0; 0; 0; 1].

Lemma ether_addr_tests_witness :
  rte_is_same_ether_addr (local_mem (demo_addr ++ repeat 0xff 6)) 0 6 = Some 0
  /\ rte_is_local_admin_ether_addr (local_mem (demo_addr ++ repeat 0xff 6)) 0 = Some 1.
Proof.
  assert (bytes_at (local_mem (demo_addr ++ repeat 0xff 6)) 0 (demo_addr ++ repeat 0xff 6)) as H.
  { apply bytes_at_local. repeat constructor; unfold fits; lia. }
  apply bytes_at_app in H as [H1 H2].
  destruct (ether_addr_tests (local_mem (demo_addr ++ repeat 0xff 6)) 0 6 demo_addr (repeat 0xff 6))
    as (E1 & _ & _ & _ & _ & E2 & _); [exact H1|exact H2|reflexivity|reflexivity|].
  split; [exact E1|exact E2].
Defined.

(** ** VLAN tags *)

(** Packets are well formed or not whatever the other members of their head. *)
Lemma pkt_ok_members mb m l b b' :
  pkt_ok mb m l -> mb !! m = Some b -> same_data b b' -> next b' = next b ->
  nb_segs b' = nb_segs b -> pkt_len b' = pkt_len b -> pkt_ok (<[m := b']> mb) m l.
Proof.
  intros Hp Hb (E1 & E2 & E3) En Es El. pose proof (pkt_head_in _ _ _ Hp) as Hm.
  destruct (pkt_head _ _ _ Hp) as (b0 & Hb0 & _ & _ & Et & Hf). rewrite Hb in Hb0. injection Hb0 as <-.
  destruct (edit_segment mb m l m b b' Hp Hm Hb) as (bm & Hbm & Hpl & Hok & _); try done.
  { destruct (pkt_segs _ _ _ Hp m b Hm Hb). split; congruence. }
  { rewrite E2, Z.sub_diag, Z.add_0_r. by rewrite <- Et. }
  rewrite lookup_insert_eq in Hbm. injection Hbm as <-. rewrite insert_insert_eq in Hok.
  replace (set_pkt_len (total_len mb l + (data_len b' - data_len b)) b') with b' in Hok; [done|].
  rewrite E2, Z.sub_diag, Z.add_0_r, <- Hpl. by destruct b'.
Qed.

(** The tag that [rte_vlan_insert] writes: the two bytes of the type and those
    of the tag control information, in network order. *)
Definition vlan_tag (tci : Z) : list Z := [0x81; 0x00; tci / 2 ^ 8; u8 tci].

Lemma half_bytes_be v : fits 16 v -> half_bytes (rte_cpu_to_be_16 v) = [v / 2 ^ 8; u8 v].
Proof.
  intros Hv. unfold fits in Hv. pose proof (wrap_range 8 v ltac:(lia)) as R.
  assert (0 <= v / 2 ^ 8 < 2 ^ 8)
    by (split; [apply Z.div_pos; lia|apply Z.div_lt_upper_bound; lia]).
  assert (E : rte_cpu_to_be_16 v = u8 v * 2 ^ 8 + v / 2 ^ 8).
  { rewrite <- bswap16_bytes by (unfold fits; lia). unfold rte_cpu_to_be_16, rte_be_to_cpu_16.
    f_equal. unfold wrap. pose proof (Z.div_mod v (2 ^ 8) ltac:(lia)). lia. }
  rewrite E. unfold half_bytes. rewrite Z.div_add_l, (Z.div_small (v / 2 ^ 8)) by lia.
  unfold wrap at 1 3. rewrite (Z.add_comm (_ * _)), Z.mod_add, Z.mod_small by lia.
  rewrite Z.add_0_r. f_equal. f_equal. apply Z.mod_small. lia.
Qed.

Lemma be16_half l i v :
  fits 16 v -> take 2 (drop i l) = [v / 2 ^ 8; u8 v] -> be16_at l i = v.
Proof.
  intros Hv H. destruct (drop i l) as [|c0 [|c1 r]] eqn:E; simpl in H; try done.
  injection H as -> ->. pose proof (lookup_drop l i 0) as L0. pose proof (lookup_drop l i 1) as L1.
  rewrite E in L0, L1. rewrite Nat.add_0_r in L0. rewrite Nat.add_1_r in L1.
  unfold be16_at. rewrite <- L0, <- L1. simpl. unfold wrap.
  pose proof (Z.div_mod v (2 ^ 8) ltac:(lia)). lia.
Qed.

Section vlan.
Context {P : Type}.
Implicit Types (h : heap P).

(** The head of a packet whose data are the bytes [d], behind the bytes [g] of
    its headroom. *)
Record frame h (m : Z) (l : list Z) (b : rte_mbuf) (g d : list Z) : Prop := {
  fr_pkt : pkt_ok (h_mbufs h) m l;
  fr_head : h_mbufs h !! m = Some b;
  fr_bytes : bytes_at (heap_mem h) (buf_addr b + data_off b - Z.of_nat (length g)) (g ++ d);
  fr_len : data_len b = Z.of_nat (length d);
  fr_low : 0 < buf_addr b + data_off b - Z.of_nat (length g);
  fr_high : buf_addr b + data_off b + data_len b < 2 ^ 64
}.

(** An update of the members that do not describe the data. *)
Lemma frame_upd h m l b g d (f : rte_mbuf -> rte_mbuf) :
  frame h m l b g d -> same_data b (f b) -> next (f b) = next b -> nb_segs (f b) = nb_segs b ->
  pkt_len (f b) = pkt_len b -> buf_addr (f b) = buf_addr b ->
  exists h', upd m f h = Some (tt, h') /\ frame h' m l (f b) g d.
Proof.
  intros [Hp Hb Hd Hl H0 H1] Hs En Eg El Ea. rewrite (upd_run m f b h Hb).
  eexists. split; [reflexivity|]. pose proof Hs as (E1 & E2 & E3). split.
  - rewrite h_mbufs_set. by eapply pkt_ok_members.
  - rewrite h_mbufs_set. apply lookup_insert_eq.
  - rewrite Ea, E1. exact Hd.
  - by rewrite E2.
  - by rewrite Ea, E1.
  - by rewrite Ea, E1, E2.
Qed.

(** Writing bytes of the frame or of the headroom before it. *)
Lemma frame_store h m l b g d g' d' mm :
  frame h m l b g d ->
  bytes_at (fun x => mm !! x) (buf_addr b + data_off b - Z.of_nat (length g)) (g' ++ d') ->
  length g' = length g -> length (g' ++ d') = length (g ++ d) ->
  frame (set_h_bytes mm h) m l b g' d'.
Proof.
  intros [Hp Hb _ Hl H0 H1] Hd Eg Ed. rewrite !length_app in Ed.
  split; rewrite ?Eg; try done. rewrite Hl. lia.
Qed.

(** The headroom becomes data and back. *)
Lemma frame_prepend h m l b g d :
  frame h m l b g d -> Z.of_nat (length g) <= data_off b ->
  pkt_len b + Z.of_nat (length g) < 2 ^ 32 ->
  exists h', rte_pktmbuf_prepend m (Z.of_nat (length g)) h
      = Some (buf_addr b + data_off b - Z.of_nat (length g), h')
    /\ frame h' m l (shifted (- Z.of_nat (length g)) b) [] (g ++ d).
Proof.
  intros [Hp Hb Hd Hl H0 H1] Ho Hm.
  rewrite (prepend_run h m l b (Z.of_nat (length g)) Hp Hb) by lia.
  rewrite wrap_small by (unfold fits; lia).
  eexists. split; [do 2 f_equal; lia|].
  destruct (shifted_ok h m l b (- Z.of_nat (length g)) Hp Hb) as [Hok _];
    [lia|rewrite Hl; lia|lia|].
  split; [exact Hok|rewrite h_mbufs_set; apply lookup_insert_eq|..]; simpl.
  - by replace (buf_addr b + (data_off b + - Z.of_nat (length g)) - Z.of_nat 0)
      with (buf_addr b + data_off b - Z.of_nat (length g)) by lia.
  - rewrite Hl, length_app. lia.
  - lia.
  - lia.
Qed.

Lemma frame_adj h m l b g d :
  frame h m l b [] (g ++ d) ->
  exists h', rte_pktmbuf_adj m (Z.of_nat (length g)) h
      = Some (buf_addr b + data_off b + Z.of_nat (length g), h')
    /\ frame h' m l (shifted (Z.of_nat (length g)) b) g d.
Proof.
  intros [Hp Hb Hd Hl H0 H1]. simpl in *. rewrite length_app in Hl.
  rewrite (adj_run h m l b (Z.of_nat (length g)) Hp Hb) by lia.
  rewrite wrap_small by (unfold fits; lia).
  eexists. split; [do 2 f_equal; lia|].
  destruct (head_lengths _ _ _ _ Hp Hb) as (Hs & Hdl & _ & Hmx). pose proof (seg_off _ Hs).
  destruct (shifted_ok h m l b (Z.of_nat (length g)) Hp Hb) as [Hok _]; [lia..|].
  split; [exact Hok|rewrite h_mbufs_set; apply lookup_insert_eq|..]; simpl.
  - replace (buf_addr b + (data_off b + Z.of_nat (length g)) - Z.of_nat (length g))
      with (buf_addr b + data_off b - Z.of_nat 0) by lia. exact Hd.
  - lia.
  - lia.
  - lia.
Qed.

Lemma frame_rd h m l b g d : frame h m l b g d -> rd m h = Some (b, h).
Proof. intros F. apply rd_run, F. Qed.

(** A 16-bit store and a copy, inside the frame and its headroom. *)
Lemma frame_store16 h m l b d o v :
  frame h m l b [] d -> (o + 2 <= length d)%nat ->
  exists h', store16 (buf_addr b + data_off b + Z.of_nat o) v h = Some (tt, h')
    /\ frame h' m l b [] (splice d o (half_bytes v)).
Proof.
  intros F Ho. pose proof (fr_bytes _ _ _ _ _ _ F) as Hd. simpl in Hd. rewrite Z.sub_0_r in Hd.
  destruct (store16_run h _ d o v Hd Ho) as (h' & Hs & Hd' & _ & E).
  exists h'. split; [done|]. rewrite E.
  eapply frame_store; [exact F| |done|by apply length_put]. simpl. by rewrite Z.sub_0_r.
Qed.

Lemma frame_memmove h m l b g d o s n g' d' :
  frame h m l b g d -> (o + n <= length (g ++ d))%nat -> (s + n <= length (g ++ d))%nat ->
  splice (g ++ d) o (take n (drop s (g ++ d))) = g' ++ d' -> length g' = length g ->
  let base := buf_addr b + data_off b - Z.of_nat (length g) in
  exists h', memmove (base + Z.of_nat o) (base + Z.of_nat s) (Z.of_nat n) h = Some (tt, h')
    /\ frame h' m l b g' d'.
Proof.
  intros F Ho Hs E Eg base. pose proof (fr_bytes _ _ _ _ _ _ F) as Hd.
  pose proof (fr_low _ _ _ _ _ _ F) as Hl.
  destruct (memmove_run h base (g ++ d) o s n Hd Hl Ho Hs) as (mm & Em & Hd'). rewrite E in Hd'.
  eexists. split; [exact Em|]. eapply frame_store; [exact F|exact Hd'|done|].
  rewrite <- E. apply length_splice. rewrite length_take, length_drop. lia.
Qed.

(** The bytes after the three writes of [rte_vlan_insert]. *)
Lemma tagged_bytes g d tci :
  length g = 4%nat -> (12 <= length d)%nat -> fits 16 tci ->
  splice (splice (splice (g ++ d) 0 (take 12 (drop 4 (g ++ d)))) 12
            (half_bytes (rte_cpu_to_be_16 RTE_ETHER_TYPE_VLAN)))
    14 (half_bytes (rte_cpu_to_be_16 tci))
  = take 12 d ++ vlan_tag tci ++ drop 12 d.
Proof.
  intros Hg Hd Ht. rewrite !half_bytes_be by (done || (unfold fits, RTE_ETHER_TYPE_VLAN; lia)).
  rewrite drop_app_length' by done. set (a := take 12 d).
  assert (La : length a = 12%nat) by (unfold a; rewrite length_take; lia).
  assert (Lgd : length (g ++ d) = (4 + length d)%nat) by (rewrite length_app; lia).
  replace 12%nat with (0 + length a)%nat at 1 by lia.
  rewrite splice_app by (simpl; lia).
  change [RTE_ETHER_TYPE_VLAN / 2 ^ 8; u8 RTE_ETHER_TYPE_VLAN] with [0x81; 0x00].
  replace 14%nat with (0 + length (a ++ [0x81%Z; 0x00%Z]))%nat by (rewrite length_app; simpl; lia).
  rewrite splice_app by (rewrite length_app; simpl; lia).
  unfold splice, vlan_tag. cbn [take app]. rewrite <- !app_assoc. cbn [app].
  rewrite length_app, La. cbn [length]. rewrite drop_app_ge, Hg by lia. done.
Qed.

Lemma insert_offload_run h m l b g d :
  frame h m l b g d ->
  exists h' b', vlan_insert_offload m h = Some (tt, h') /\ frame h' m l b' g d
    /\ buf_addr b' = buf_addr b /\ data_off b' = data_off b /\ pkt_len b' = pkt_len b.
Proof.
  intros F. unfold vlan_insert_offload.
  set (clear_flags := fun b0 => set_ol_flags _ b0).
  destruct (frame_upd _ _ _ _ _ _ clear_flags F) as (h1 & E1 & F1); [done..|].
  rewrite (mbind_run _ _ _ _ _ E1), (mbind_run _ _ _ _ _ (frame_rd _ _ _ _ _ _ F1)).
  destruct (truthy _);
    match goal with |- context [upd m ?f h1] =>
      destruct (frame_upd _ _ _ _ _ _ f F1) as (h2 & E2 & F2); [done..|] end;
    (eexists h2, _; split; [exact E2|]; by split_and!).
Qed.

Lemma vlan_insert_run h m l b g d :
  frame h m l b g d -> length g = 4%nat -> (12 <= length d)%nat -> 4 <= data_off b ->
  pkt_len b + 4 < 2 ^ 32 -> RTE_MBUF_DIRECT b = true -> refcnt b <= 1 -> fits 16 (vlan_tci b) ->
  exists h' b', rte_vlan_insert m h = Some (0, h')
    /\ frame h' m l b' [] (take 12 d ++ vlan_tag (vlan_tci b) ++ drop 12 d)
    /\ buf_addr b' = buf_addr b /\ data_off b' = data_off b - 4 /\ pkt_len b' = pkt_len b + 4.
Proof.
  intros F Hg Hd Ho Hm Hdir Hr Ht. pose proof (fr_len _ _ _ _ _ _ F) as Hl.
  pose proof (fr_low _ _ _ _ _ _ F) as H0. pose proof (fr_high _ _ _ _ _ _ F) as H1.
  rewrite Hg in H0.
  unfold rte_vlan_insert. rewrite (mbind_run _ _ _ _ _ (frame_rd _ _ _ _ _ _ F)).
  unfold rte_mbuf_refcnt_read. rewrite (mbind_run _ _ _ _ _ (mbind_run _ _ _ _ _ (frame_rd _ _ _ _ _ _ F))).
  rewrite Hdir. replace (refcnt b >? 1) with false by lia. cbn [negb orb].
  replace (data_len b <? 2 * RTE_ETHER_ADDR_LEN) with false by (unfold RTE_ETHER_ADDR_LEN; lia).
  destruct (frame_prepend h m l b g d F) as (h1 & E1 & F1); [lia|lia|]. rewrite Hg in E1, F1.
  change sizeof_vlan_hdr with (Z.of_nat 4). rewrite (mbind_run _ _ _ _ _ E1).
  rewrite (proj2 (Z.eqb_neq (buf_addr b + data_off b - Z.of_nat 4) NULL)) by (unfold NULL; lia).
  set (b1 := shifted (- Z.of_nat 4) b) in *.
  assert (Ea : buf_addr b1 + data_off b1 = buf_addr b + data_off b - Z.of_nat 4)
    by (unfold b1; simpl; lia).
  assert (Lgd : length (g ++ d) = (4 + length d)%nat) by (rewrite length_app; lia).
  destruct (frame_memmove h1 m l b1 [] (g ++ d) 0 4 12 []
              (splice (g ++ d) 0 (take 12 (drop 4 (g ++ d)))) F1) as (h2 & E2 & F2);
    [cbn [app]; lia|cbn [app]; lia|done|done|]. cbn [app length] in E2, F2.
  rewrite Ea, Z.sub_0_r, Z.add_0_r in E2.
  replace (rte_pktmbuf_mtod b) with (buf_addr b + data_off b - Z.of_nat 4 + Z.of_nat 4)
    by (unfold rte_pktmbuf_mtod, rte_pktmbuf_mtod_offset; rewrite wrap_small by (unfold fits; lia); lia).
  change (2 * RTE_ETHER_ADDR_LEN) with (Z.of_nat 12). rewrite (mbind_run _ _ _ _ _ E2).
  set (d2 := splice _ 0 _) in *.
  assert (L2 : length d2 = (4 + length d)%nat).
  { unfold d2. rewrite length_splice; [done|]. rewrite length_take, length_drop. lia. }
  destruct (frame_store16 h2 m l b1 d2 12 (rte_cpu_to_be_16 RTE_ETHER_TYPE_VLAN) F2)
    as (h3 & E3 & F3); [lia|]. rewrite Ea in E3. rewrite (mbind_run _ _ _ _ _ E3).
  set (d3 := splice d2 12 _) in *. assert (L3 : length d3 = (4 + length d)%nat).
  { unfold d3. by rewrite length_put by lia. }
  rewrite (mbind_run _ _ _ _ _ (frame_rd _ _ _ _ _ _ F3)).
  destruct (frame_store16 h3 m l b1 d3 14 (rte_cpu_to_be_16 (vlan_tci b1)) F3)
    as (h4 & E4 & F4); [lia|]. rewrite Ea in E4.
  rewrite (mbind_run _ _ _ _ _ E4). change (vlan_tci b1) with (vlan_tci b) in F4.
  unfold d3, d2 in F4. rewrite tagged_bytes in F4 by done.
  destruct (insert_offload_run _ _ _ _ _ _ F4) as (h5 & b5 & E5 & F5 & Eb & Eo & Ep).
  rewrite (mbind_run _ _ _ _ _ E5). exists h5, b5. split; [reflexivity|]. split; [exact F5|].
  rewrite Eb, Eo, Ep. unfold b1. simpl. lia.
Qed.

Lemma frame_load16 h m l b d o :
  frame h m l b [] d -> (o + 2 <= length d)%nat ->
  load16 (buf_addr b + data_off b + Z.of_nat o) h = Some (le16_at d o, h).
Proof.
  intros F Ho. pose proof (fr_bytes _ _ _ _ _ _ F) as Hd. simpl in Hd. rewrite Z.sub_0_r in Hd.
  unfold load16. by rewrite (ld16_at _ _ d o Hd Ho).
Qed.

Lemma frame_mtod h m l b d : frame h m l b [] d -> rte_pktmbuf_mtod b = buf_addr b + data_off b.
Proof.
  intros F. pose proof (fr_low _ _ _ _ _ _ F) as H0. pose proof (fr_high _ _ _ _ _ _ F) as H1.
  pose proof (fr_len _ _ _ _ _ _ F). simpl in H0.
  unfold rte_pktmbuf_mtod, rte_pktmbuf_mtod_offset. rewrite wrap_small by (unfold fits; lia). lia.
Qed.

Lemma ether_type_tag w :
  fits 16 w -> (w =? rte_cpu_to_be_16 RTE_ETHER_TYPE_VLAN) = (rte_be_to_cpu_16 w =? RTE_ETHER_TYPE_VLAN).
Proof.
  intros Hw. unfold rte_cpu_to_be_16, rte_be_to_cpu_16.
  pose proof (bswap_involutive 16 w ltac:(by left) Hw) as I. rewrite bswap_16 in I.
  destruct (Z.eqb_spec w (rte_bswap16 RTE_ETHER_TYPE_VLAN)) as [->|N]; [reflexivity|].
  symmetry. apply Z.eqb_neq. intros E. by rewrite E in I.
Qed.

Lemma vlan_strip_run h m l b a tci r :
  frame h m l b [] (a ++ vlan_tag tci ++ r) -> length a = 12%nat -> fits 16 tci ->
  exists h' b' g, rte_vlan_strip m h = Some (0, h') /\ length g = 4%nat
    /\ frame h' m l b' g (a ++ r)
    /\ buf_addr b' = buf_addr b /\ data_off b' = data_off b + 4 /\ pkt_len b' = pkt_len b - 4
    /\ vlan_tci b' = tci
    /\ ol_flags b' = Z.lor (ol_flags b) (Z.lor RTE_MBUF_F_RX_VLAN RTE_MBUF_F_RX_VLAN_STRIPPED).
Proof.
  intros F La Ht. set (d := a ++ vlan_tag tci ++ r) in *.
  assert (Ld : length d = (16 + length r)%nat) by (unfold d; rewrite !length_app; simpl; lia).
  assert (Dd : drop 12 d = vlan_tag tci ++ r) by (unfold d; by rewrite drop_app_length' by lia).
  assert (D14 : drop 14 d = [tci / 2 ^ 8; u8 tci] ++ r)
    by (change 14%nat with (12 + 2)%nat; rewrite <- drop_drop, Dd; done).
  pose proof (fr_bytes _ _ _ _ _ _ F) as Hd. simpl in Hd. pose proof (bytes_at_fits _ _ _ Hd) as Fd.
  unfold rte_vlan_strip. rewrite (mbind_run _ _ _ _ _ (frame_rd _ _ _ _ _ _ F)), (frame_mtod _ _ _ _ _ F).
  change (eh_ether_type (buf_addr b + data_off b)) with (buf_addr b + data_off b + Z.of_nat 12).
  rewrite (mbind_run _ _ _ _ _ (frame_load16 _ _ _ _ _ 12 F ltac:(lia))).
  rewrite ether_type_tag, le16_be by (done || by apply le16_range).
  rewrite (be16_half d 12 RTE_ETHER_TYPE_VLAN) by (rewrite ?Dd; done || (unfold fits, RTE_ETHER_TYPE_VLAN; lia)).
  cbn [negb Z.eqb]. rewrite Z.eqb_refl. cbn [negb].
  match goal with |- context [upd m ?f ≫= _] =>
    destruct (frame_upd _ _ _ _ _ _ f F) as (h1 & E1 & F1); [done..|] end.
  rewrite (mbind_run _ _ _ _ _ E1). set (b1 := set_ol_flags _ b) in F1.
  pose proof (frame_load16 _ _ _ _ _ 14 F1 ltac:(lia)) as El.
  change (vh_vlan_tci (buf_addr b + data_off b + sizeof_ether_hdr))
    with (buf_addr b1 + data_off b1 + Z.of_nat 14). rewrite (mbind_run _ _ _ _ _ El).
  rewrite le16_be, (be16_half d 14 tci) by (rewrite ?D14; done).
  destruct (frame_upd _ _ _ _ _ _ (set_vlan_tci tci) F1) as (h2 & E2 & F2); [done..|].
  rewrite (mbind_run _ _ _ _ _ E2). set (b2 := set_vlan_tci tci b1) in *.
  rewrite <- (take_drop 4 d) in F2.
  destruct (frame_adj _ _ _ _ _ _ F2) as (h3 & E3 & F3). set (b3 := shifted _ b2) in F3.
  assert (Lt : length (take 4 d) = 4%nat) by (rewrite length_take; lia). rewrite Lt in *.
  change sizeof_vlan_hdr with (Z.of_nat 4). rewrite (mbind_run _ _ _ _ _ E3).
  destruct (frame_memmove _ _ _ _ _ _ 4 0 12 (take 4 d) (a ++ r) F3) as (h4 & E4 & F4);
    rewrite ?take_drop; [lia|lia| |done|].
  { unfold splice. rewrite drop_0. unfold d at 2. rewrite take_app_length' by lia. f_equal. f_equal.
    rewrite length_take, Nat.min_l by lia. change (4 + 12)%nat with (12 + 4)%nat. rewrite <- drop_drop, Dd. done. }
  rewrite Lt in E4.
  replace (buf_addr b3 + data_off b3 - Z.of_nat 4) with (buf_addr b + data_off b) in E4
    by (unfold b3; simpl; lia).
  rewrite Z.add_0_r in E4. rewrite (mbind_run _ _ _ _ _ E4).
  exists h4, b3, (take 4 d). split; [reflexivity|]. split; [done|]. split; [exact F4|].
  unfold b3. simpl. split_and!; try done; lia.
Qed.
End vlan.

(** A VLAN tag inserted and stripped again.  For a well-formed, unshared,
    direct packet with four bytes of headroom, [rte_vlan_insert] moves the two
    addresses down and puts the tag of [vlan_tci], in network order, behind
    them: every other byte of the frame keeps its place, and the packet is
    well formed and four bytes longer.  [rte_vlan_strip] of the result gives
    back the frame, its position and its length, and delivers the tag. *)
Theorem vlan_insert_strip_roundtrip {P : Type} (h : heap P) (m : Z) (l : list Z) (b : rte_mbuf)
    (g d : list Z) :
  frame h m l b g d -> length g = 4%nat -> (12 <= length d)%nat -> 4 <= data_off b ->
  pkt_len b + 4 < 2 ^ 32 -> RTE_MBUF_DIRECT b = true -> refcnt b <= 1 -> fits 16 (vlan_tci b) ->
  exists h1 b1 h2 b2 g2,
    rte_vlan_insert m h = Some (0, h1)
    /\ frame h1 m l b1 [] (take 12 d ++ vlan_tag (vlan_tci b) ++ drop 12 d)
    /\ data_off b1 = data_off b - 4 /\ pkt_len b1 = pkt_len b + 4
    /\ rte_vlan_strip m h1 = Some (0, h2)
    /\ frame h2 m l b2 g2 d
    /\ buf_addr b2 = buf_addr b /\ data_off b2 = data_off b /\ pkt_len b2 = pkt_len b
    /\ vlan_tci b2 = vlan_tci b
    /\ Z.land (ol_flags b2) RTE_MBUF_F_RX_VLAN_STRIPPED = RTE_MBUF_F_RX_VLAN_STRIPPED.
Proof.
  intros F Hg Hd Ho Hm Hdir Hr Ht.
  destruct (vlan_insert_run h m l b g d F Hg Hd Ho Hm Hdir Hr Ht)
    as (h1 & b1 & E1 & F1 & Ea1 & Eo1 & Ep1).
  destruct (vlan_strip_run h1 m l b1 (take 12 d) (vlan_tci b) (drop 12 d) F1)
    as (h2 & b2 & g2 & E2 & _ & F2 & Ea2 & Eo2 & Ep2 & Et2 & Ef2);
    [rewrite length_take; lia|done|].
  rewrite take_drop in F2. exists h1, b1, h2, b2, g2.
  split_and!; try done; try lia.
  rewrite Ef2. apply Z.bits_inj'. intros i Hi. rewrite Z.land_spec, !Z.lor_spec.
  destruct (Z.testbit RTE_MBUF_F_RX_VLAN_STRIPPED i); [|apply andb_false_r].
  by rewrite !orb_true_r.
Qed.

(** What [rte_vlan_insert] and [rte_vlan_strip] refuse, changing nothing: a
    packet that is indirect, has an external buffer or is shared, and one
    whose first segment is too short for the addresses, give [-EINVAL]; no
    headroom for the tag, [-ENOSPC]; and stripping a frame whose type is not
    VLAN gives -1. *)
Theorem vlan_errors {P : Type} (h : heap P) (m : Z) (l : list Z) (b : rte_mbuf) (d : list Z) :
  frame h m l b [] d ->
  (RTE_MBUF_DIRECT b = false \/ 1 < refcnt b \/ (length d < 12)%nat ->
   rte_vlan_insert m h = Some (- EINVAL, h))
  /\ (RTE_MBUF_DIRECT b = true -> refcnt b <= 1 -> (12 <= length d)%nat -> data_off b < 4 ->
      rte_vlan_insert m h = Some (- ENOSPC, h))
  /\ ((14 <= length d)%nat -> be16_at d 12 <> RTE_ETHER_TYPE_VLAN ->
      rte_vlan_strip m h = Some (-1, h)).
Proof.
  intros F. pose proof (fr_len _ _ _ _ _ _ F) as Hl.
  pose proof (frame_rd _ _ _ _ _ _ F) as R. unfold rte_vlan_insert, rte_mbuf_refcnt_read.
  rewrite (mbind_run _ _ _ _ _ R), (mbind_run _ _ _ _ _ (mbind_run _ _ _ _ _ R)).
  split_and!.
  - intros H. destruct (RTE_MBUF_DIRECT b); [|done].
    rewrite Z.gtb_ltb. destruct (Z.ltb_spec 1 (refcnt b)); [done|].
    destruct H as [H|[H|H]]; [done|lia|]. cbn [negb orb]. unfold RTE_ETHER_ADDR_LEN.
    by replace (data_len b <? 2 * 6) with true by lia.
  - intros -> Hr Hd Ho. replace (refcnt b >? 1) with false by lia. cbn [negb orb].
    unfold RTE_ETHER_ADDR_LEN. replace (data_len b <? 2 * 6) with false by lia.
    assert (E : rte_pktmbuf_prepend m sizeof_vlan_hdr h = Some (NULL, h)).
    { unfold rte_pktmbuf_prepend. rewrite (mbind_run _ _ _ _ _ R). unfold rte_pktmbuf_headroom.
      by replace (sizeof_vlan_hdr >? data_off b) with true by (unfold sizeof_vlan_hdr; lia). }
    by rewrite (mbind_run _ _ _ _ _ E).
  - intros Hd Ht. unfold rte_vlan_strip.
    rewrite (mbind_run _ _ _ _ _ R), (frame_mtod _ _ _ _ _ F).
    change (eh_ether_type (buf_addr b + data_off b)) with (buf_addr b + data_off b + Z.of_nat 12).
    rewrite (mbind_run _ _ _ _ _ (frame_load16 _ _ _ _ _ 12 F ltac:(lia))).
    assert (Forall (fits 8) d) as Fd by (eapply bytes_at_fits, (fr_bytes _ _ _ _ _ _ F)).
    rewrite ether_type_tag, le16_be by (done || by apply le16_range).
    by rewrite (proj2 (Z.eqb_neq _ _) Ht).
Qed.

(** ** Example: a frame of 20 bytes in a packet at 7000 *)
Definition demo_mbuf_tci (off : Z) : rte_mbuf :=
  set_data_off off (set_vlan_tci 5 (demo_mbuf 7000 0 20 20 1)).

Definition demo_frame (off : Z) : heap (list Z) :=
  mk_heap (<[7000 := demo_mbuf_tci off]> ∅) ∅ ∅ ∅ ∅
    (list_to_map (imap (fun i b => (7124 + off + Z.of_nat i, b)) (repeat 7 24))).

Ltac demo_frame :=
  split;
  [ demo_pkt | reflexivity | by apply bytes_of_at | done | simpl; lia | simpl; lia ].

Lemma vlan_insert_strip_roundtrip_witness :
  exists h1 h2, rte_vlan_insert 7000 (demo_frame 128) = Some (0, h1)
    /\ rte_vlan_strip 7000 h1 = Some (0, h2).
Proof.
  destruct (vlan_insert_strip_roundtrip (demo_frame 128) 7000 [7000] (demo_mbuf_tci 128)
              (repeat 7 4) (repeat 7 20)) as (h1 & b1 & h2 & b2 & g2 & E1 & _ & _ & _ & E2 & _).
  - demo_frame.
  - reflexivity.
  - simpl. lia.
  - simpl. lia.
  - simpl. lia.
  - reflexivity.
  - simpl. lia.
  - unfold fits. simpl. lia.
  - by exists h1, h2.
Defined.

Lemma vlan_errors_witness :
  rte_vlan_insert 7000 (demo_frame 3) = Some (- ENOSPC, demo_frame 3)
  /\ rte_vlan_strip 7000 (demo_frame 3) = Some (-1, demo_frame 3).
Proof.
  destruct (vlan_errors (demo_frame 3) 7000 [7000] (demo_mbuf_tci 3) (repeat 7 20)) as (_ & E1 & E2).
  - demo_frame.
  - split; [apply E1; (reflexivity || (simpl; lia))|]. apply E2; [simpl; lia|done].
Defined.
