(* ===== verification/Ethdev.v ===== *)
(** * The fast path of Ethernet devices ([include/rte_ethdev.h],
    [include/rte_ethdev_core.h]).

    The drivers, the registered callbacks and the port registry are not part of
    the sources: they are functions on a state [St], reached through the table
    [rte_eth_fp_ops], which the library fills when a port starts.  Debug checks
    and trace points are compiled out, [RTE_ETHDEV_RXTX_CALLBACKS] is on.  An
    array of packets that a driver or a callback may rewrite is passed in and
    returned. *)
From stdpp Require Import prelude list numbers.
From S2P Require Import Prelude.
Open Scope Z_scope.

Definition RTE_MAX_ETHPORTS : Z := 32.
Definition RTE_MAX_QUEUES_PER_PORT : Z := 1024.
Definition ENODEV : Z := 19.
Definition EINVAL : Z := 22.
Definition ENOTSUP : Z := 95.

Definition RTE_ETH_RSS_L3_SRC_ONLY : Z := Z.shiftl 1 63.
Definition RTE_ETH_RSS_L3_DST_ONLY : Z := Z.shiftl 1 62.
Definition RTE_ETH_RSS_L4_SRC_ONLY : Z := Z.shiftl 1 61.
Definition RTE_ETH_RSS_L4_DST_ONLY : Z := Z.shiftl 1 60.

Definition rte_eth_rss_hf_refine (rss_hf : Z) : Z :=
  let rss_hf :=
    if truthy (Z.land rss_hf RTE_ETH_RSS_L3_SRC_ONLY)
       && truthy (Z.land rss_hf RTE_ETH_RSS_L3_DST_ONLY)
    then Z.land rss_hf (u64 (Z.lnot (Z.lor RTE_ETH_RSS_L3_SRC_ONLY RTE_ETH_RSS_L3_DST_ONLY)))
    else rss_hf in
  if truthy (Z.land rss_hf RTE_ETH_RSS_L4_SRC_ONLY)
     && truthy (Z.land rss_hf RTE_ETH_RSS_L4_DST_ONLY)
  then Z.land rss_hf (u64 (Z.lnot (Z.lor RTE_ETH_RSS_L4_SRC_ONLY RTE_ETH_RSS_L4_DST_ONLY)))
  else rss_hf.

(** ** Data *)

(** Pointers to the queues and to their callbacks. *)
Record rte_ethdev_qdata := mk_qdata {
  q_data : list Z;
  q_clbk : list Z
}.

(** [None] is a NULL function pointer. *)
Record rte_eth_fp_ops (St : Type) := mk_fp_ops {
  rx_pkt_burst : Z -> list Z -> Z -> M St (Z * list Z);
  rx_queue_count : option (Z -> M St Z);
  rx_descriptor_status : option (Z -> Z -> M St Z);
  rxq : rte_ethdev_qdata;
  tx_pkt_burst : Z -> list Z -> Z -> M St (Z * list Z);
  tx_pkt_prepare : option (Z -> list Z -> Z -> M St (Z * list Z));
  tx_descriptor_status : option (Z -> Z -> M St Z);
  txq : rte_ethdev_qdata
}.
Arguments mk_fp_ops {St}.
Arguments rx_pkt_burst {St}.
Arguments rx_queue_count {St}.
Arguments rx_descriptor_status {St}.
Arguments rxq {St}.
Arguments tx_pkt_burst {St}.
Arguments tx_pkt_prepare {St}.
Arguments tx_descriptor_status {St}.
Arguments txq {St}.

(** [tb_pkts] is the flexible array, as long as its allocation. *)
Record rte_eth_dev_tx_buffer (St : Type) := mk_tx_buffer {
  error_callback : list Z -> Z -> Z -> M St unit;
  error_userdata : Z;
  tb_size : Z;
  tb_length : Z;
  tb_pkts : list Z
}.
Arguments mk_tx_buffer {St}.
Arguments error_callback {St}.
Arguments error_userdata {St}.
Arguments tb_size {St}.
Arguments tb_length {St}.
Arguments tb_pkts {St}.

Section ethdev.
Context {St : Type}.
(** The table of the library, its registry of ports and its callback runners. *)
Context (fp_ops : St -> list (rte_eth_fp_ops St)).
Context (rte_eth_dev_is_valid_port : Z -> M St Z).
Context (rte_eth_call_rx_callbacks : Z -> Z -> list Z -> Z -> Z -> Z -> M St (Z * list Z)).
Context (rte_eth_call_tx_callbacks : Z -> Z -> list Z -> Z -> Z -> M St (Z * list Z)).

(** [&rte_eth_fp_ops[port_id]]. *)
Definition port_ops (port_id : Z) : M St (rte_eth_fp_ops St) := fun s =>
  p ← aget (fp_ops s) port_id ; Some (p, s).

(** ** Receive *)

Definition rte_eth_rx_burst (port_id queue_id : Z) (rx_pkts : list Z) (nb_pkts : Z)
  : M St (Z * list Z) :=
  (* fetch pointer to queue data *)
  p ← port_ops port_id ;
  qd ← lift (aget (q_data (rxq p)) queue_id) ;
  '(nb_rx, rx_pkts) ← rx_pkt_burst p qd rx_pkts nb_pkts ;
  cb ← lift (aget (q_clbk (rxq p)) queue_id) ;
  if negb (cb =? 0) then
    rte_eth_call_rx_callbacks port_id queue_id rx_pkts nb_rx nb_pkts cb
  else mret (nb_rx, rx_pkts).

Definition rte_eth_rx_queue_count (port_id queue_id : Z) : M St Z :=
  if (port_id >=? RTE_MAX_ETHPORTS) || (queue_id >=? RTE_MAX_QUEUES_PER_PORT)
  then mret (- EINVAL)
  else
    p ← port_ops port_id ;
    qd ← lift (aget (q_data (rxq p)) queue_id) ;
    valid ← rte_eth_dev_is_valid_port port_id ;
    if negb (truthy valid) then mret (- ENODEV)
    else
      match rx_queue_count p with
      | None => mret (- ENOTSUP)
      | Some f => if qd =? 0 then mret (- EINVAL) else c ← f qd ; mret (i32 c)
      end.

Definition rte_eth_rx_descriptor_status (port_id queue_id offset : Z) : M St Z :=
  p ← port_ops port_id ;
  qd ← lift (aget (q_data (rxq p)) queue_id) ;
  match rx_descriptor_status p with
  | None => mret (- ENOTSUP)
  | Some f => f qd offset
  end.

(** ** Transmit *)

Definition rte_eth_tx_descriptor_status (port_id queue_id offset : Z) : M St Z :=
  p ← port_ops port_id ;
  qd ← lift (aget (q_data (txq p)) queue_id) ;
  match tx_descriptor_status p with
  | None => mret (- ENOTSUP)
  | Some f => f qd offset
  end.

Definition rte_eth_tx_burst (port_id queue_id : Z) (tx_pkts : list Z) (nb_pkts : Z)
  : M St (Z * list Z) :=
  (* fetch pointer to queue data *)
  p ← port_ops port_id ;
  qd ← lift (aget (q_data (txq p)) queue_id) ;
  cb ← lift (aget (q_clbk (txq p)) queue_id) ;
  '(nb_pkts, tx_pkts) ←
    (if negb (cb =? 0) then rte_eth_call_tx_callbacks port_id queue_id tx_pkts nb_pkts cb
     else mret (nb_pkts, tx_pkts)) ;
  tx_pkt_burst p qd tx_pkts nb_pkts.

Definition rte_eth_tx_prepare (port_id queue_id : Z) (tx_pkts : list Z) (nb_pkts : Z)
  : M St (Z * list Z) :=
  p ← port_ops port_id ;
  qd ← lift (aget (q_data (txq p)) queue_id) ;
  match tx_pkt_prepare p with
  | None => mret (nb_pkts, tx_pkts)
  | Some f => f qd tx_pkts nb_pkts
  end.

Definition set_length (v : Z) (buffer : rte_eth_dev_tx_buffer St) : rte_eth_dev_tx_buffer St :=
  mk_tx_buffer (error_callback buffer) (error_userdata buffer) (tb_size buffer) v
    (tb_pkts buffer).

Definition set_pkts (v : list Z) (buffer : rte_eth_dev_tx_buffer St)
  : rte_eth_dev_tx_buffer St :=
  mk_tx_buffer (error_callback buffer) (error_userdata buffer) (tb_size buffer)
    (tb_length buffer) v.

Definition rte_eth_tx_buffer_flush (port_id queue_id : Z) (buffer : rte_eth_dev_tx_buffer St)
  : M St (Z * rte_eth_dev_tx_buffer St) :=
  let to_send := tb_length buffer in
  if to_send =? 0 then mret (0, buffer)
  else
    '(sent, pkts) ← rte_eth_tx_burst port_id queue_id (tb_pkts buffer) to_send ;
    let buffer := set_length 0 (set_pkts pkts buffer) in
    (* All packets sent, or to be dealt with by callback below *)
    (if negb (sent =? to_send) then
       error_callback buffer (drop (Z.to_nat sent) (tb_pkts buffer)) (u16 (to_send - sent))
         (error_userdata buffer)
     else mret tt) ;;
    mret (sent, buffer).

Definition rte_eth_tx_buffer (port_id queue_id : Z) (buffer : rte_eth_dev_tx_buffer St)
    (tx_pkt : Z) : M St (Z * rte_eth_dev_tx_buffer St) :=
  pkts ← lift (aset (tb_pkts buffer) (tb_length buffer) tx_pkt) ;
  let buffer := set_length (u16 (tb_length buffer + 1)) (set_pkts pkts buffer) in
  if tb_length buffer <? tb_size buffer then mret (0, buffer)
  else rte_eth_tx_buffer_flush port_id queue_id buffer.

(** A client that offers packets one after the other. *)
Fixpoint tx_all (port_id queue_id : Z) (buffer : rte_eth_dev_tx_buffer St) (pkts : list Z)
  : M St (Z * rte_eth_dev_tx_buffer St) :=
  match pkts with
  | [] => mret (0, buffer)
  | a :: pkts' =>
      '(n, buffer) ← rte_eth_tx_buffer port_id queue_id buffer a ;
      '(n', buffer) ← tx_all port_id queue_id buffer pkts' ;
      mret (n + n', buffer)
  end.
End ethdev.

(** ** Properties *)

Lemma land_lnot_bits z i j :
  0 <= i < 64 -> 0 <= j < 64 -> fits 64 z ->
  let z' := Z.land z (u64 (Z.lnot (Z.lor (Z.shiftl 1 i) (Z.shiftl 1 j)))) in
  forall b, 0 <= b -> Z.testbit z' b = Z.testbit z b && negb (b =? i) && negb (b =? j).
Proof.
  intros Hi Hj Hz z' b Hb. unfold z'. rewrite Z.land_spec. unfold wrap.
  rewrite Z.testbit_mod_pow2, Z.lnot_spec, Z.lor_spec, !Z.shiftl_spec by lia.
  assert (forall n, Z.testbit 1 n = (n =? 0)) as H1.
  { intros n. destruct (Z.eqb_spec n 0) as [->|]; [done|].
    destruct (decide (n < 0)); [by apply Z.testbit_neg_r|]. rewrite Z.bits_above_log2; simpl; lia. }
  rewrite !H1. replace (b - i =? 0) with (b =? i) by lia. replace (b - j =? 0) with (b =? j) by lia.
  destruct (Z.ltb_spec b 64).
  - simpl. by rewrite negb_orb, andb_assoc.
  - simpl. rewrite andb_false_r. replace (Z.testbit z b) with false; [done|].
    symmetry. destruct (decide (z = 0)) as [->|]; [apply Z.testbit_0_l|].
    unfold fits in Hz. apply Z.bits_above_log2; [lia|]. apply Z.log2_lt_pow2; [lia|].
    assert (2 ^ 64 <= 2 ^ b) by (apply Z.pow_le_mono_r; lia). lia.
Qed.

(** Bit [i] of a word, as the C code tests it. *)
Lemma truthy_bit z i : 0 <= i -> truthy (Z.land z (Z.shiftl 1 i)) = Z.testbit z i.
Proof.
  intros Hi. unfold truthy. destruct (Z.testbit z i) eqn:E.
  - apply negb_true_iff, Z.eqb_neq. intros H0. apply (f_equal (fun x => Z.testbit x i)) in H0.
    rewrite Z.land_spec, Z.shiftl_spec, Z.sub_diag, Z.testbit_0_l, E in H0 by lia. done.
  - apply negb_false_iff, Z.eqb_eq, Z.bits_inj'. intros n Hn.
    rewrite Z.land_spec, Z.shiftl_spec, Z.testbit_0_l by lia.
    destruct (decide (n = i)) as [->|Hne]; [by rewrite E|].
    replace (Z.testbit 1 (n - i)) with false; [apply andb_false_r|].
    destruct (decide (n < i)); [by rewrite Z.testbit_neg_r by lia|].
    rewrite Z.bits_above_log2; simpl; lia.
Qed.

(** [rte_eth_rss_hf_refine] clears the two selectors of a layer when both are
    set and keeps every other bit: bit by bit, the result is the input without
    the L3 selectors (63 and 62) if both were set, and without the L4 selectors
    (61 and 60) if both were set. *)
Theorem rss_hf_refine_bits (rss_hf b : Z) :
  fits 64 rss_hf -> 0 <= b ->
  Z.testbit (rte_eth_rss_hf_refine rss_hf) b
  = Z.testbit rss_hf b
    && negb (Z.testbit rss_hf 63 && Z.testbit rss_hf 62 && ((b =? 63) || (b =? 62)))
    && negb (Z.testbit rss_hf 61 && Z.testbit rss_hf 60 && ((b =? 61) || (b =? 60))).
Proof.
  intros Hf Hb. unfold rte_eth_rss_hf_refine, RTE_ETH_RSS_L3_SRC_ONLY, RTE_ETH_RSS_L3_DST_ONLY,
    RTE_ETH_RSS_L4_SRC_ONLY, RTE_ETH_RSS_L4_DST_ONLY.
  rewrite !truthy_bit by lia.
  pose proof (land_lnot_bits rss_hf 63 62 ltac:(lia) ltac:(lia) Hf) as H3. cbv zeta in H3.
  set (z3 := Z.land rss_hf _) in *.
  assert (fits 64 z3) as Hf3 by (apply fits_land; [lia|done]).
  destruct (Z.testbit rss_hf 63 && Z.testbit rss_hf 62) eqn:E.
  - assert (forall k, k = 61 \/ k = 60 -> Z.testbit z3 k = Z.testbit rss_hf k) as Hk.
    { intros k [-> | ->]; rewrite H3 by lia; by rewrite !andb_true_r. }
    rewrite (Hk 61), (Hk 60), andb_true_l by lia.
    destruct (Z.testbit rss_hf 61 && Z.testbit rss_hf 60).
    + rewrite (land_lnot_bits z3 61 60), H3, andb_true_l by (done || lia).
      by rewrite !negb_orb, !andb_assoc.
    + rewrite H3, andb_false_l by lia. simpl negb at 4. by rewrite negb_orb, andb_assoc, andb_true_r.
  - rewrite andb_false_l. simpl negb at 1. rewrite andb_true_r.
    destruct (Z.testbit rss_hf 61 && Z.testbit rss_hf 60).
    + rewrite (land_lnot_bits rss_hf 61 60), andb_true_l by (done || lia).
      by rewrite negb_orb, andb_assoc.
    + by rewrite andb_true_r.
Qed.

Lemma rss_hf_refine_bits_witness :
  Z.testbit (rte_eth_rss_hf_refine (Z.shiftl 15 60 + 5)) 2 = true.
Proof. rewrite (rss_hf_refine_bits (Z.shiftl 15 60 + 5) 2); [reflexivity|by split|lia]. Defined.

Section driver.
Context {St : Type}.
Context (fp_ops : St -> list (rte_eth_fp_ops St)).
Context (rte_eth_dev_is_valid_port : Z -> M St Z).
Context (call_rx : Z -> Z -> list Z -> Z -> Z -> Z -> M St (Z * list Z)).
Context (call_tx : Z -> Z -> list Z -> Z -> Z -> M St (Z * list Z)).
(** What has been handed to the driver, and to the error callbacks. *)
Context (sent dropped : St -> list Z).

(** The documented behaviour of the transmit side of a running queue on which
    no callback is registered: the driver takes the [k] first packets, in
    order. *)
Class LawfulTx (port_id queue_id : Z) := {
  tx_ops : rte_eth_fp_ops St;
  tx_qd : Z;
  tx_port_law s : aget (fp_ops s) port_id = Some tx_ops;
  tx_queue_law : aget (q_data (txq tx_ops)) queue_id = Some tx_qd;
  tx_clbk_law : aget (q_clbk (txq tx_ops)) queue_id = Some 0;
  tx_burst_law pkts n s :
    0 <= n <= Z.of_nat (length pkts) ->
    exists k s', tx_pkt_burst tx_ops tx_qd pkts n s = Some (k, pkts, s')
      /\ 0 <= k <= n /\ sent s' = sent s ++ take (Z.to_nat k) pkts /\ dropped s' = dropped s
}.

(** The error callback of a buffer disposes of the packets it is given. *)
Definition lawful_error (buffer : rte_eth_dev_tx_buffer St) : Prop :=
  forall unsent count s, 0 <= count <= Z.of_nat (length unsent) ->
    exists s', error_callback buffer unsent count (error_userdata buffer) s = Some (tt, s')
      /\ sent s' = sent s /\ dropped s' = dropped s ++ take (Z.to_nat count) unsent.

Record tx_buffer_ok (buffer : rte_eth_dev_tx_buffer St) : Prop := {
  tb_err : lawful_error buffer;
  tb_len : 0 <= tb_length buffer < tb_size buffer;
  tb_alloc : tb_size buffer <= Z.of_nat (length (tb_pkts buffer));
  tb_width : fits 16 (tb_size buffer)
}.

Definition buffered (buffer : rte_eth_dev_tx_buffer St) : list Z :=
  take (Z.to_nat (tb_length buffer)) (tb_pkts buffer).

Lemma tx_burst_run port_id queue_id `{LawfulTx port_id queue_id} pkts n s :
  0 <= n <= Z.of_nat (length pkts) ->
  exists k s', rte_eth_tx_burst fp_ops call_tx port_id queue_id pkts n s = Some (k, pkts, s')
    /\ 0 <= k <= n /\ sent s' = sent s ++ take (Z.to_nat k) pkts /\ dropped s' = dropped s.
Proof.
  intros Hn. destruct (tx_burst_law pkts n s Hn) as (k & s' & HR & HP). exists k, s'. split; [|done].
  unfold rte_eth_tx_burst, port_ops. rewrite (mbind_run _ _ s tx_ops s) by (by rewrite tx_port_law).
  rewrite tx_queue_law, tx_clbk_law. exact HR.
Qed.

(** A flush empties the buffer: a first part is sent and the rest is dropped. *)
Lemma tx_flush_run port_id queue_id `{LawfulTx port_id queue_id} buffer s :
  lawful_error buffer -> 0 <= tb_length buffer <= Z.of_nat (length (tb_pkts buffer)) ->
  tb_length buffer < 2 ^ 16 ->
  exists k s', rte_eth_tx_buffer_flush fp_ops call_tx port_id queue_id buffer s
    = Some (k, set_length 0 buffer, s')
  /\ 0 <= k <= tb_length buffer
  /\ sent s' = sent s ++ take (Z.to_nat k) (buffered buffer)
  /\ dropped s' = dropped s ++ drop (Z.to_nat k) (buffered buffer).
Proof.
  intros He Hl Hw. unfold rte_eth_tx_buffer_flush, buffered.
  destruct (tb_length buffer =? 0) eqn:E0.
  { apply Z.eqb_eq in E0. exists 0, s. rewrite E0. simpl. rewrite !app_nil_r.
    split; [destruct buffer; simpl in *; by subst|]. done. }
  destruct (tx_burst_run port_id queue_id (tb_pkts buffer) _ s Hl) as (k & s1 & HR & Hk & Hs & Hd).
  rewrite (mbind_run _ _ _ _ _ HR).
  assert (take (Z.to_nat k) (tb_pkts buffer)
          = take (Z.to_nat k) (take (Z.to_nat (tb_length buffer)) (tb_pkts buffer))) as Et
    by (rewrite take_take; f_equal; lia).
  assert (set_pkts (tb_pkts buffer) buffer = buffer) as -> by (by destruct buffer).
  destruct (k =? tb_length buffer) eqn:E; cbn [negb].
  - apply Z.eqb_eq in E. exists k, s1. split; [done|]. split; [done|]. rewrite Hs, Hd, Et.
    split; [done|]. rewrite drop_ge by (rewrite length_take; lia). by rewrite app_nil_r.
  - apply Z.eqb_neq in E.
    destruct (He (drop (Z.to_nat k) (tb_pkts buffer)) (tb_length buffer - k) s1)
      as (s2 & HE & Hs2 & Hd2); [rewrite length_drop; lia|].
    exists k, s2. rewrite wrap_small by (unfold fits; lia).
    change (error_callback (set_length 0 buffer)) with (error_callback buffer).
    change (error_userdata (set_length 0 buffer)) with (error_userdata buffer).
    rewrite (mbind_run _ _ _ _ _ HE). split; [done|]. split; [done|].
    rewrite Hs2, Hd2, Hs, Hd, Et. split; [done|]. f_equal.
    rewrite skipn_firstn_comm. f_equal. lia.
Qed.

(** One more packet: it is appended to the buffer, which is flushed when full. *)
Lemma tx_buffer_step port_id queue_id `{LawfulTx port_id queue_id} buffer a s :
  tx_buffer_ok buffer ->
  exists n buffer' s' out drp,
    rte_eth_tx_buffer fp_ops call_tx port_id queue_id buffer a s = Some (n, buffer', s')
    /\ tx_buffer_ok buffer' /\ n = Z.of_nat (length out)
    /\ sent s' = sent s ++ out /\ dropped s' = dropped s ++ drp
    /\ buffered buffer ++ [a] = out ++ drp ++ buffered buffer'.
Proof.
  intros [He Hl Ha Hw]. unfold fits in Hw. unfold rte_eth_tx_buffer. rewrite aset_ok by lia.
  rewrite (mbind_run _ _ s _ s) by done. rewrite wrap_small by (unfold fits; lia).
  set (b1 := set_length (tb_length buffer + 1) _).
  assert (buffered b1 = buffered buffer ++ [a]) as Eb.
  { unfold buffered, b1. cbn [tb_length tb_pkts set_length set_pkts].
    replace (Z.to_nat (tb_length buffer + 1)) with (Datatypes.S (Z.to_nat (tb_length buffer))) by lia.
    rewrite (take_S_r _ _ a) by (apply list_lookup_insert_eq; lia).
    f_equal. apply take_insert_ge. lia. }
  assert (lawful_error b1) as He1 by exact He.
  assert (Z.of_nat (length (tb_pkts b1)) = Z.of_nat (length (tb_pkts buffer))) as El.
  { unfold b1. simpl. by rewrite length_insert. }
  change (tb_length b1) with (tb_length buffer + 1).
  change (tb_size b1) with (tb_size buffer).
  destruct (tb_length buffer + 1 <? tb_size buffer) eqn:E.
  - apply Z.ltb_lt in E. exists 0, b1, s, [], []. rewrite !app_nil_r. simpl. rewrite Eb.
    split; [done|]. split; [|done]. split; [done|simpl; lia| |unfold fits; simpl; lia].
    change (tb_size buffer <= Z.of_nat (length (tb_pkts b1))). lia.
  - apply Z.ltb_ge in E.
    destruct (tx_flush_run port_id queue_id b1 s He1) as (k & s' & HR & Hk & Hs & Hd);
      [simpl in *; lia|simpl; lia|].
    exists k, (set_length 0 b1), s', (take (Z.to_nat k) (buffered b1)),
      (drop (Z.to_nat k) (buffered b1)).
    split; [exact HR|].
    split; [split; [done|simpl; lia| |unfold fits; simpl; lia]|].
    { change (tb_size buffer <= Z.of_nat (length (tb_pkts b1))). lia. }
    split; [|split; [done|split; [done|]]].
    + rewrite length_take. unfold buffered. rewrite length_take. simpl in Hk |- *. simpl in El.
      rewrite length_insert in *. lia.
    + unfold buffered at 3. simpl. by rewrite app_nil_r, take_drop.
Qed.

(** C30. The transmit buffer loses, duplicates and reorders nothing: when packets
    are offered one after the other, each is at any time in exactly one of
    three places, given to the driver, given to the error callback or in the
    buffer; the packets given to the driver are in the order of the offers, the
    returned counts add up to their number, and the buffer never overflows its
    allocation. *)
Theorem tx_buffer_conserves (port_id queue_id : Z) `{LawfulTx port_id queue_id}
    (pkts : list Z) (buffer : rte_eth_dev_tx_buffer St) (s : St) :
  tx_buffer_ok buffer ->
  exists n buffer' s' out drp,
    tx_all fp_ops call_tx port_id queue_id buffer pkts s = Some (n, buffer', s')
    /\ tx_buffer_ok buffer' /\ n = Z.of_nat (length out)
    /\ sent s' = sent s ++ out /\ dropped s' = dropped s ++ drp
    /\ out `sublist_of` buffered buffer ++ pkts
    /\ out ++ drp ++ buffered buffer' ≡ₚ buffered buffer ++ pkts.
Proof.
  revert buffer s. induction pkts as [|a pkts IH]; intros buffer s Hb.
  { exists 0, buffer, s, [], []. rewrite !app_nil_r. split; [done|].
    split; [done|]. split; [done|]. split; [done|]. split; [done|].
    split; [apply sublist_nil_l|done]. }
  destruct (tx_buffer_step port_id queue_id buffer a s Hb)
    as (n & b1 & s1 & o1 & d1 & HR & Hb1 & -> & Hs & Hd & E).
  destruct (IH b1 s1 Hb1) as (n' & b2 & s2 & o2 & d2 & HR' & Hb2 & -> & Hs' & Hd' & Hsub & HP).
  exists (Z.of_nat (length (o1 ++ o2))), b2, s2, (o1 ++ o2), (d1 ++ d2).
  assert (buffered buffer ++ a :: pkts = o1 ++ d1 ++ buffered b1 ++ pkts) as E'.
  { change (a :: pkts) with ([a] ++ pkts). rewrite !app_assoc, E. by rewrite !app_assoc. }
  split; [|split; [done|split; [done|]]].
  - cbn [tx_all]. rewrite (mbind_run _ _ _ _ _ HR), (mbind_run _ _ _ _ _ HR').
    by rewrite length_app, Nat2Z.inj_add.
  - rewrite Hs', Hs, Hd', Hd, !app_assoc. split; [done|]. split; [done|].
    rewrite <- !app_assoc, E'. split.
    + apply sublist_app; [done|]. by apply sublist_inserts_l.
    + rewrite <- HP. perm_count.
Qed.

(** [rte_eth_rx_queue_count] checks its arguments in a fixed order on every
    input: a port or queue number out of range, a port that is not valid, a
    driver without the function, a queue that is not set up; only then is the
    driver asked, and its answer is returned as an [int]. *)
Theorem rx_queue_count_errors (port_id queue_id : Z) (p : rte_eth_fp_ops St) (qd v : Z) (s : St) :
  aget (fp_ops s) port_id = Some p -> aget (q_data (rxq p)) queue_id = Some qd ->
  rte_eth_dev_is_valid_port port_id s = Some (v, s) ->
  rte_eth_rx_queue_count fp_ops rte_eth_dev_is_valid_port port_id queue_id s
  = if bool_decide (port_id < RTE_MAX_ETHPORTS /\ queue_id < RTE_MAX_QUEUES_PER_PORT) then
      if bool_decide (v = 0) then Some (- ENODEV, s)
      else match rx_queue_count p with
           | None => Some (- ENOTSUP, s)
           | Some f => if bool_decide (qd = 0) then Some (- EINVAL, s)
                       else '(c, s') ← f qd s ; Some (i32 c, s')
           end
    else Some (- EINVAL, s).
Proof.
  intros Hp Hq Hv. unfold rte_eth_rx_queue_count, port_ops. rewrite !Z.geb_leb.
  destruct (Z.leb_spec RTE_MAX_ETHPORTS port_id); simpl;
    [rewrite bool_decide_false by lia; done|].
  destruct (Z.leb_spec RTE_MAX_QUEUES_PER_PORT queue_id); simpl;
    [rewrite bool_decide_false by lia; done|].
  rewrite bool_decide_true by done.
  rewrite (mbind_run _ _ s p s) by (by rewrite Hp). rewrite Hq.
  rewrite (mbind_run _ _ s qd s) by done. rewrite (mbind_run _ _ _ _ _ Hv).
  unfold truthy. rewrite negb_involutive.
  destruct (bool_decide_reflect (v = 0)) as [->|Hn]; [done|].
  rewrite (proj2 (Z.eqb_neq v 0)) by done.
  destruct (rx_queue_count p) as [f|]; [|done].
  destruct (bool_decide_reflect (qd = 0)) as [->|Hn']; [done|].
  rewrite (proj2 (Z.eqb_neq qd 0)) by done. unfold mbind, M_bind. by destruct (f qd s) as [[]|].
Qed.
End driver.

(** ** An example driver

    The state is what was sent and what was dropped; the device accepts at most
    three packets at a time. *)
Definition demo_state : Type := list Z * list Z.

Definition demo_tx (qd : Z) (pkts : list Z) (n : Z) : M demo_state (Z * list Z) := fun s =>
  let k := Z.min 3 n in Some (k, pkts, (s.1 ++ take (Z.to_nat k) pkts, s.2)).

Definition demo_ops : rte_eth_fp_ops demo_state :=
  mk_fp_ops (fun _ pkts _ => mret (0, pkts)) (Some (fun _ => mret 7)) None (mk_qdata [16] [0])
    demo_tx None None (mk_qdata [16] [0]).

Definition demo_table (s : demo_state) : list (rte_eth_fp_ops demo_state) := [demo_ops].

#[refine] Instance demo_lawful : LawfulTx demo_table fst snd 0 0 :=
  {| tx_ops := demo_ops; tx_qd := 16 |}.
Proof.
  1-3: done. intros pkts n s Hn. eexists _, _. split; [done|]. split; [lia|done].
Defined.

Definition demo_drop (unsent : list Z) (count userdata : Z) : M demo_state unit := fun s =>
  Some (tt, (s.1, s.2 ++ take (Z.to_nat count) unsent)).

Definition demo_buffer : rte_eth_dev_tx_buffer demo_state :=
  mk_tx_buffer demo_drop 0 4 0 (replicate 4 0).

Lemma tx_buffer_conserves_witness :
  exists n buffer' s',
    tx_all demo_table (fun _ _ pkts n _ => mret (n, pkts)) 0 0 demo_buffer [1;2;3;4;5;6;7;8;9]
      ([], []) = Some (n, buffer', s')
    /\ s' = ([1;2;3;5;6;7], [4;8]) /\ buffered buffer' = [9].
Proof.
  destruct (tx_buffer_conserves demo_table (fun _ _ pkts n _ => mret (n, pkts)) fst snd 0 0
    [1;2;3;4;5;6;7;8;9] demo_buffer ([], [])) as (n & b & s' & o & d & HR & _).
  - split; [|done..]. intros unsent count s Hc. eexists. split; [done|]. done.
  - exists n, b, s'. split; [exact HR|]. vm_compute in HR. injection HR as <- <- <-. by split.
Defined.

Lemma rx_queue_count_errors_witness :
  rte_eth_rx_queue_count demo_table (fun _ => mret 1) 0 0 ([], []) = Some (7, ([], [])).
Proof.
  rewrite (rx_queue_count_errors demo_table (fun _ => mret 1) 0 0 demo_ops 16 1 ([], []));
    reflexivity.
Defined.
