(* ===== verification/World.v ===== *)
(** * What the three programs share: the machine they run on.

    The state of a program is its heap ([MbufCore.v]), the state of what is not
    in the sources (drivers, devices, EAL; a type [X]), what it has printed, the
    number of objects it has allocated with [new], and the history of its calls
    to the library with their results.  Also the functions of
    [packet_utils.cpp] and the packet of [packet_utils.h]. *)
From stdpp Require Import prelude list numbers gmap.
From S2P Require Import Prelude Mempool MbufCore Bytes.
Open Scope Z_scope.

(** ** Calls to the library *)

Definition RTE_ETHER_MAX_LEN : Z := 1518.
Definition RTE_ETH_TX_OFFLOAD_MBUF_FAST_FREE : Z := Z.shiftl 1 16.

(** The configuration of a port: the two members the programs set, the others
    are zero. *)
Record rte_eth_conf := mk_eth_conf {
  rxmode_max_lro_pkt_size : Z;
  txmode_offloads : Z
}.

(** The configuration of a transmit queue; [txc_rest] stands for the members
    the programs copy without reading them. *)
Record rte_eth_txconf := mk_txconf {
  txc_rest : list Z;
  txc_offloads : Z
}.

Record rte_eth_dev_info := mk_dev_info {
  tx_offload_capa : Z;
  default_txconf : rte_eth_txconf
}.

(** The functions the sources call and do not define. *)
Inductive lib_call :=
  | rte_eal_init
  | rte_eth_dev_count_avail
  | rte_pktmbuf_pool_create (n cache_size priv_size data_room_size socket_id : Z)
  | rte_socket_id
  | rte_lcore_count
  | clock_gettime
  | rte_eth_dev_is_valid_port (port : Z)
  | rte_eth_dev_info_get (port : Z)
  | rte_eth_dev_configure (port nb_rx_q nb_tx_q : Z) (conf : rte_eth_conf)
  | rte_eth_dev_adjust_nb_rx_tx_desc (port nb_rxd nb_txd : Z)
  | rte_eth_dev_socket_id (port : Z)
  | rte_eth_rx_queue_setup (port q nb_rxd socket pool : Z)
  | rte_eth_tx_queue_setup (port q nb_txd socket : Z) (conf : rte_eth_txconf)
  | rte_eth_dev_start (port : Z)
  | rte_eth_macaddr_get (port : Z)
  | rte_eth_promiscuous_enable (port : Z).

(** What a call delivers: its result and, for the calls that have them, the
    device information, the two adjusted ring sizes and the time. *)
Record lib_answer := mk_answer {
  a_ret : Z;
  a_info : rte_eth_dev_info;
  a_nb_rxd : Z;
  a_nb_txd : Z;
  a_addr : list Z;
  a_sec : Z;
  a_nsec : Z
}.

(** What the programs print. *)
Inductive output :=
  | OutInfoError (port ret : Z)
  | OutPortMac (port : Z) (addr : list Z)
  | OutPortInitError
  | OutStart (ns : Z)
  | OutReceived (n : Z)
  | OutPacket (idx value : Z)
  | OutCycles (idx value cycles : Z)
  | OutPayload (bytes : list Z)
  | OutAllocFailed
  | OutUsedCores (n : Z)
  | OutCore (core_id queue_id : Z).

Definition EXIT_FAILURE : Z := 1.

(** How a program stands: ended by [rte_exit], by a return of [main], or still
    running after the number of rounds it was run for. *)
Inductive outcome :=
  | Exited (code : Z)
  | Returned (v : Z)
  | Running.

(** ** The world *)

Record world (P X : Type) := mk_world {
  w_heap : heap P;
  w_ext : X;
  w_out : list output;
  w_new : Z;
  w_calls : list (lib_call * lib_answer)
}.
Arguments mk_world {P X}.
Arguments w_heap {P X}.
Arguments w_ext {P X}.
Arguments w_out {P X}.
Arguments w_new {P X}.
Arguments w_calls {P X}.

Section world.
Context {P X : Type}.
Implicit Types (w : world P X).

Definition set_heap (h : heap P) w : world P X :=
  mk_world h (w_ext w) (w_out w) (w_new w) (w_calls w).

(** An operation on the heap. *)
Definition on_heap {A} (op : M (heap P) A) : M (world P X) A := fun w =>
  '(a, h) ← op (w_heap w) ; Some (a, set_heap h w).

Definition print (o : output) : M (world P X) unit :=
  modify (fun w => mk_world (w_heap w) (w_ext w) (w_out w ++ [o]) (w_new w) (w_calls w)).

(** [new T], whose result the caller keeps. *)
Definition cxx_new : M (world P X) unit :=
  modify (fun w => mk_world (w_heap w) (w_ext w) (w_out w) (w_new w + 1) (w_calls w)).

(** The library: any function of the call and of the state. *)
Context (lib : lib_call -> world P X -> lib_answer * world P X).

Definition ask (c : lib_call) : M (world P X) lib_answer := fun w =>
  let '(a, w') := lib c w in
  Some (a, mk_world (w_heap w') (w_ext w') (w_out w) (w_new w) (w_calls w ++ [(c, a)])).

(** The result of a call that only has one. *)
Definition ask_ret (c : lib_call) : M (world P X) Z := a ← ask c ; mret (a_ret a).

(** Signed 64-bit arithmetic, undefined when it overflows. *)
Definition sint64 (z : Z) : option Z :=
  if (- 2 ^ 63 <=? z) && (z <? 2 ^ 63) then Some z else None.

(** [get_time]. *)
Definition get_time : M (world P X) Z :=
  time1 ← ask clock_gettime ;
  p ← lift (sint64 (a_sec time1 * 1000000000)) ;
  ns ← lift (sint64 (p + a_nsec time1)) ;
  mret (u64 ns).
End world.

(** [rdtsc]: the two halves the instruction delivers. *)
Definition rdtsc (lo hi : Z) : Z := Z.lor (u64 (Z.shiftl hi 32)) lo.

(** ** Strings *)

Section strings.
Context {P : Type}.

(** The characters printed for a [char *]: the bytes before the first zero. *)
Definition load_char (s : Z * list Z) : M (heap P) (Z * list Z + list Z) :=
  let '(a, acc) := s in
  b ← load8 a ;
  mret (if b =? 0 then inr (reverse acc) else inl (a + 1, b :: acc)).

Definition load_string (a : Z) : M (heap P) (list Z) :=
  h ← get ;
  do_while (Datatypes.S (size (h_bytes h))) load_char (a, []).
End strings.

(** ** The packet

    [my_pkt] is packed: [idx] at offset 0 and [value] at offset 4. *)
Definition sizeof_my_pkt : Z := 8.
Definition pkt_idx (pkt : Z) : Z := pkt.
Definition pkt_value (pkt : Z) : Z := pkt + 4.

(** The exchange of the bytes of a word, [ntohl] on a little-endian machine. *)
Definition ntohl (v : Z) : Z :=
  u8 v * 2 ^ 24 + u8 (v / 2 ^ 8) * 2 ^ 16 + u8 (v / 2 ^ 16) * 2 ^ 8 + u8 (v / 2 ^ 24).

(** [show_ip]: the four bytes of the address, the last first. *)
Definition show_ip (ip : Z) : list Z :=
  map (fun i => u8 (ip / 2 ^ (8 * i))) [3; 2; 1; 0].

(** * Lemmas *)

Section string_lemmas.
Context {P : Type}.
Implicit Types (h : heap P).

(** A string: its characters, none of them zero, and a final zero. *)
Definition string_at (m : gmap Z Z) (a : Z) (str : list Z) : Prop :=
  (forall i c, str !! i = Some c -> m !! (a + Z.of_nat i) = Some c /\ c <> 0)
  /\ m !! (a + Z.of_nat (length str)) = Some 0.

Lemma string_at_cons m a c str :
  string_at m a (c :: str) <-> m !! a = Some c /\ c <> 0 /\ string_at m (a + 1) str.
Proof.
  split.
  - intros [H1 H2]. destruct (H1 0%nat c eq_refl) as [H0 Hc]. rewrite Z.add_0_r in H0.
    split; [done|]. split; [done|]. split.
    + intros i d Hi. replace (a + 1 + Z.of_nat i) with (a + Z.of_nat (Datatypes.S i)) by lia.
      by apply H1.
    + rewrite <- H2. f_equal. simpl length. lia.
  - intros (H0 & Hc & H1 & H2). split.
    + intros [|i] d Hi; simpl in Hi; [simplify_eq; by rewrite Z.add_0_r|].
      replace (a + Z.of_nat (Datatypes.S i)) with (a + 1 + Z.of_nat i) by lia. by apply H1.
    + rewrite <- H2. f_equal. simpl length. lia.
Qed.

Lemma string_at_mapped m a str i :
  string_at m a str -> (i <= length str)%nat -> is_Some (m !! (a + Z.of_nat i)).
Proof.
  intros [H1 H2] Hi. destruct (decide (i = length str)) as [->|]; [by eauto|].
  destruct (lookup_lt_is_Some_2 str i) as [c Hc]; [lia|]. destruct (H1 i c Hc) as [-> _]. by eauto.
Qed.

Lemma string_at_length m a str : string_at m a str -> (length str < size m)%nat.
Proof.
  intros H. rewrite <- size_dom.
  set (l := map (fun i => a + Z.of_nat i) (seq 0 (Datatypes.S (length str)))).
  assert (NoDup l) as Hnd.
  { apply NoDup_fmap_2; [intros i j Hij; lia|apply NoDup_seq]. }
  assert (length l = Datatypes.S (length str)) as Hl by (unfold l; by rewrite length_map, length_seq).
  apply Nat.lt_le_trans with (size (list_to_set l : gset Z)).
  - rewrite size_list_to_set by done. lia.
  - apply subseteq_size. intros x Hx. apply elem_of_list_to_set, list_elem_of_fmap in Hx as (i & -> & Hi).
    apply elem_of_seq in Hi. apply elem_of_dom. apply (string_at_mapped _ _ str); [done|lia].
Qed.

Lemma load_string_run h a str :
  string_at (h_bytes h) a str -> load_string a h = Some (str, h).
Proof.
  intros Hs. unfold load_string. rewrite (mbind_run get _ h h h) by done.
  pose proof (string_at_length _ _ _ Hs) as Hl.
  assert (forall fuel a str acc, string_at (h_bytes h) a str -> (length str < fuel)%nat ->
    do_while fuel load_char (a, acc) h = Some (reverse acc ++ str, h)) as HL.
  { clear. intros fuel. induction fuel as [|fuel IH]; intros a str acc Hs Hf; [lia|].
    cbn [do_while]. destruct str as [|c str].
    - destruct Hs as [_ H0]. simpl in H0. rewrite Z.add_0_r in H0.
      unfold load_char, mbind, M_bind. rewrite (load8_run _ _ _ H0). simpl. by rewrite app_nil_r.
    - apply string_at_cons in Hs as (H0 & Hc & Hs). simpl in Hf.
      assert (load_char (a, acc) h = Some (inl (a + 1, c :: acc), h)) as E.
      { unfold load_char. rewrite (mbind_run _ _ _ _ _ (load8_run _ _ _ H0)).
        by rewrite (proj2 (Z.eqb_neq c 0) Hc). }
      rewrite (mbind_run _ _ _ _ _ E), (IH (a + 1) str (c :: acc)) by (done || lia).
      by rewrite reverse_cons, <- app_assoc. }
  rewrite (HL _ a str []) by (done || lia). done.
Qed.

Lemma string_at_ext m m' a str :
  (forall x, a <= x <= a + Z.of_nat (length str) -> m' !! x = m !! x) ->
  string_at m a str -> string_at m' a str.
Proof.
  intros Hx [H1 H2]. split.
  - intros i c Hi. pose proof (lookup_lt_Some _ _ _ Hi). rewrite Hx by lia. by apply H1.
  - by rewrite Hx by lia.
Qed.
End string_lemmas.

(** The exchange of the bytes of a 32-bit word is its own inverse. *)
Lemma ntohl_involutive (v : Z) : fits 32 v -> ntohl (ntohl v) = v.
Proof.
  intros Hf. rewrite <- (wrap_small 32 v Hf) at 2. rewrite <- of_word_bytes. unfold ntohl.
  pose proof (wrap_range 8 v ltac:(lia)) as B0. pose proof (wrap_range 8 (v / 2 ^ 8) ltac:(lia)) as B1.
  pose proof (wrap_range 8 (v / 2 ^ 16) ltac:(lia)) as B2.
  pose proof (wrap_range 8 (v / 2 ^ 24) ltac:(lia)) as B3.
  revert B0 B1 B2 B3. generalize (u8 v), (u8 (v / 2 ^ 8)), (u8 (v / 2 ^ 16)), (u8 (v / 2 ^ 24)).
  intros a b c d Ha Hb Hc Hd. unfold wrap.
  set (w := a * 2 ^ 24 + b * 2 ^ 16 + c * 2 ^ 8 + d).
  assert (w mod 2 ^ 8 = d) as ->.
  { unfold w. replace (a * 2 ^ 24 + b * 2 ^ 16 + c * 2 ^ 8 + d)
      with (d + (a * 2 ^ 16 + b * 2 ^ 8 + c) * 2 ^ 8) by lia.
    rewrite Z.mod_add by lia. apply Z.mod_small. lia. }
  assert (w / 2 ^ 8 = a * 2 ^ 16 + b * 2 ^ 8 + c) as E1 by (unfold w; symmetry; apply (Z.div_unique _ _ _ d); lia).
  assert (w / 2 ^ 16 = a * 2 ^ 8 + b) as E2
    by (unfold w; symmetry; apply (Z.div_unique _ _ _ (c * 2 ^ 8 + d)); lia).
  assert (w / 2 ^ 24 = a) as E3
    by (unfold w; symmetry; apply (Z.div_unique _ _ _ (b * 2 ^ 16 + c * 2 ^ 8 + d)); lia).
  rewrite E1, E2, E3. rewrite (Z.mod_small a) by lia.
  replace (a * 2 ^ 16 + b * 2 ^ 8 + c) with (c + (a * 2 ^ 8 + b) * 2 ^ 8) by lia.
  replace (a * 2 ^ 8 + b) with (b + a * 2 ^ 8) by lia. rewrite !Z.mod_add by lia.
  rewrite !Z.mod_small by lia. lia.
Qed.

(** [get_time] returns the CPU time in nanoseconds, unrounded and without
    overflow, for a clock of up to 2^33 seconds (272 years) whose nanoseconds
    are below 10^9, and its only effect is the call of the clock. *)
Theorem get_time_ok {P X : Type} (lib : lib_call -> world P X -> lib_answer * world P X)
    (w : world P X) (a : lib_answer) (w1 : world P X) :
  lib clock_gettime w = (a, w1) -> 0 <= a_sec a < 2 ^ 33 -> 0 <= a_nsec a < 10 ^ 9 ->
  exists ns w', get_time lib w = Some (ns, w') /\ ns = a_sec a * 10 ^ 9 + a_nsec a
    /\ a_sec a = ns / 10 ^ 9 /\ a_nsec a = ns mod 10 ^ 9
    /\ w_heap w' = w_heap w1 /\ w_out w' = w_out w.
Proof.
  intros Hl Hs Hn. unfold get_time, ask. eexists _, _. split; [|split; [reflexivity|]].
  - unfold mbind, M_bind. rewrite Hl. unfold sint64.
    rewrite !(proj2 (Z.leb_le _ _)), !(proj2 (Z.ltb_lt _ _)) by lia. simpl.
    rewrite !(proj2 (Z.leb_le _ _)), !(proj2 (Z.ltb_lt _ _)) by lia. simpl.
    unfold mret, M_ret. rewrite wrap_small by (unfold fits; lia). done.
  - split; [|split; [|done]].
    + rewrite Z.add_comm, Z.div_add, Z.div_small by lia. lia.
    + rewrite Z.add_comm, Z.mod_add, Z.mod_small by lia. done.
Qed.

Lemma get_time_ok_witness :
  exists w', get_time (fun _ w => (mk_answer 0 (mk_dev_info 0 (mk_txconf [] 0)) 0 0 [] 3 5, w))
    (mk_world (P := unit) (X := unit) (mk_heap ∅ ∅ ∅ ∅ ∅ ∅) tt [] 0 []) = Some (3000000005, w').
Proof.
  destruct (get_time_ok (fun _ w => (mk_answer 0 (mk_dev_info 0 (mk_txconf [] 0)) 0 0 [] 3 5, w))
    (mk_world (P := unit) (X := unit) (mk_heap ∅ ∅ ∅ ∅ ∅ ∅) tt [] 0 [])
    (mk_answer 0 (mk_dev_info 0 (mk_txconf [] 0)) 0 0 [] 3 5) _ eq_refl) as (ns & w' & H & -> & _).
  - simpl. lia.
  - simpl. lia.
  - exists w'. exact H.
Defined.
