(* ===== verification/Port.v ===== *)
(** * Starting a port: [init_port].

    The three programs contain the same function with other queue counts; it is
    modelled once, and each program's file gives its own instance. *)
From stdpp Require Import prelude list numbers gmap.
From S2P Require Import Prelude Mempool MbufCore Bytes World.
Open Scope Z_scope.

Definition RX_RING_SIZE : Z := 1024.
Definition TX_RING_SIZE : Z := 1024.
Definition NUM_MBUFS : Z := 8191.
Definition MBUF_CACHE_SIZE : Z := 250.
Definition BURST_SIZE : Z := 64.
Definition ARRAY_SIZE : Z := 65536.
Definition RTE_MBUF_DEFAULT_BUF_SIZE : Z := 2048 + 128.

Definition port_conf_default : rte_eth_conf := mk_eth_conf RTE_ETHER_MAX_LEN 0.

Section port.
Context {P X : Type}.
Context (lib : lib_call -> world P X -> lib_answer * world P X).

(** [for (q = 0; q < n; q++)] over a 16-bit [q], left with [retval] when the
    body delivers a negative one. *)
Fixpoint for_queues (fuel : nat) (q n : Z) (body : Z -> M (world P X) Z)
  : M (world P X) (option Z) :=
  match fuel with
  | O => ub
  | Datatypes.S fuel' =>
      if q <? n then
        retval ← body q ;
        if retval <? 0 then mret (Some retval)
        else for_queues fuel' (u16 (q + 1)) n body
      else mret None
  end.

(** The last part: start the port, display its address, make it promiscuous. *)
Definition start_port (port : Z) : M (world P X) Z :=
  retval ← ask_ret lib (rte_eth_dev_start port) ;
  if retval <? 0 then mret retval
  else
    addr ← ask lib (rte_eth_macaddr_get port) ;
    if truthy (a_ret addr) then mret (a_ret addr)
    else
      print (OutPortMac port (a_addr addr)) ;;
      retval ← ask_ret lib (rte_eth_promiscuous_enable port) ;
      if truthy retval then mret retval
      else mret 0.

(** The middle part: one receive queue and one transmit queue after the other,
    with the adjusted ring sizes. *)
Definition setup_queues (port mbuf_pool rx_rings tx_rings nb_rxd nb_txd : Z)
    (txconf : rte_eth_txconf) : M (world P X) Z :=
  r ← for_queues (Datatypes.S (Z.to_nat rx_rings)) 0 rx_rings (fun q =>
        socket ← ask_ret lib (rte_eth_dev_socket_id port) ;
        ask_ret lib (rte_eth_rx_queue_setup port q nb_rxd socket mbuf_pool)) ;
  match r with
  | Some retval => mret retval
  | None =>
      r ← for_queues (Datatypes.S (Z.to_nat tx_rings)) 0 tx_rings (fun q =>
            socket ← ask_ret lib (rte_eth_dev_socket_id port) ;
            ask_ret lib (rte_eth_tx_queue_setup port q nb_txd socket txconf)) ;
      match r with
      | Some retval => mret retval
      | None => start_port port
      end
  end.

Definition init_port (port mbuf_pool rx_rings tx_rings : Z) : M (world P X) Z :=
  let port_conf := port_conf_default in
  valid ← ask_ret lib (rte_eth_dev_is_valid_port port) ;
  if negb (truthy valid) then mret (-1)
  else
    dev_info ← ask lib (rte_eth_dev_info_get port) ;
    if truthy (a_ret dev_info) then
      print (OutInfoError port (a_ret dev_info)) ;;
      mret (a_ret dev_info)
    else
      let info := a_info dev_info in
      let port_conf :=
        if truthy (Z.land (tx_offload_capa info) RTE_ETH_TX_OFFLOAD_MBUF_FAST_FREE) then
          mk_eth_conf (rxmode_max_lro_pkt_size port_conf)
            (Z.lor (txmode_offloads port_conf) RTE_ETH_TX_OFFLOAD_MBUF_FAST_FREE)
        else port_conf in
      (* Configure the Ethernet device. *)
      retval ← ask_ret lib (rte_eth_dev_configure port rx_rings tx_rings port_conf) ;
      if truthy retval then mret retval
      else
        adj ← ask lib (rte_eth_dev_adjust_nb_rx_tx_desc port RX_RING_SIZE TX_RING_SIZE) ;
        if truthy (a_ret adj) then mret (a_ret adj)
        else
          let txconf := mk_txconf (txc_rest (default_txconf info)) (txmode_offloads port_conf) in
          setup_queues port mbuf_pool rx_rings tx_rings (a_nb_rxd adj) (a_nb_txd adj) txconf.
End port.

(** ** The protocol of a port

    The order of the calls, as a monitor that reads the history: a port is
    configured once, then its queues are set up, with numbers below the
    configured counts, with the ring sizes that the adjustment delivered and
    offloads that the configuration enabled, then it is started when every queue
    is set up, and only then used; this is what [rte_ethdev.h] asks for.  Among
    the queues the monitor wants all those of reception first, as [init_port] has
    them; the comment of [rte_ethdev.h] lists the transmit queues first
    ([init_port_rx_first]). *)
Record port_state := mk_port_state {
  ps_configured : option (Z * Z * Z);
  ps_descs : option (Z * Z);
  ps_rx : list Z;
  ps_tx : list Z;
  ps_started : bool;
  ps_promiscuous : bool
}.

Definition port_reset : port_state := mk_port_state None None [] [] false false.

Definition all_set_up (n : Z) (qs : list Z) : bool :=
  bool_decide (qs = map Z.of_nat (seq 0 (Z.to_nat n))).

(** The effect of a call that returned [a]; [None] for a call out of order. *)
Definition port_step (pool : Z) (s : port_state) (c : lib_call * lib_answer) : option port_state :=
  let '(call, a) := c in
  match call with
  | rte_eth_dev_configure _ nrx ntx conf =>
      if ps_started s then None
      else if truthy (a_ret a) then Some s
      else Some (mk_port_state (Some (nrx, ntx, txmode_offloads conf)) None [] [] false false)
  | rte_eth_dev_adjust_nb_rx_tx_desc _ _ _ =>
      if truthy (a_ret a) then Some s
      else Some (mk_port_state (ps_configured s) (Some (a_nb_rxd a, a_nb_txd a)) (ps_rx s)
                   (ps_tx s) (ps_started s) (ps_promiscuous s))
  | rte_eth_rx_queue_setup _ q nb _ mp =>
      match ps_configured s, ps_descs s with
      | Some (nrx, _, _), Some (nb_rxd, _) =>
          if bool_decide (ps_started s = false /\ 0 <= q < nrx /\ nb = nb_rxd /\ mp = pool
                          /\ (q ∉ ps_rx s) /\ ps_tx s = []) then
            if a_ret a <? 0 then Some s
            else Some (mk_port_state (ps_configured s) (ps_descs s) (ps_rx s ++ [q]) (ps_tx s)
                         false (ps_promiscuous s))
          else None
      | _, _ => None
      end
  | rte_eth_tx_queue_setup _ q nb _ conf =>
      match ps_configured s, ps_descs s with
      | Some (nrx, ntx, offloads), Some (_, nb_txd) =>
          if bool_decide (ps_started s = false /\ 0 <= q < ntx /\ nb = nb_txd
                          /\ txc_offloads conf = offloads /\ (q ∉ ps_tx s)
                          /\ all_set_up nrx (ps_rx s) = true) then
            if a_ret a <? 0 then Some s
            else Some (mk_port_state (ps_configured s) (ps_descs s) (ps_rx s) (ps_tx s ++ [q])
                         false (ps_promiscuous s))
          else None
      | _, _ => None
      end
  | rte_eth_dev_start _ =>
      match ps_configured s with
      | Some (nrx, ntx, _) =>
          if negb (ps_started s) && all_set_up nrx (ps_rx s) && all_set_up ntx (ps_tx s) then
            if a_ret a <? 0 then Some s
            else Some (mk_port_state (ps_configured s) (ps_descs s) (ps_rx s) (ps_tx s) true
                         (ps_promiscuous s))
          else None
      | None => None
      end
  | rte_eth_promiscuous_enable _ =>
      if ps_started s then
        if truthy (a_ret a) then Some s
        else Some (mk_port_state (ps_configured s) (ps_descs s) (ps_rx s) (ps_tx s) true true)
      else None
  | _ => Some s
  end.

Fixpoint port_run (pool : Z) (s : port_state) (l : list (lib_call * lib_answer)) : option port_state :=
  match l with
  | [] => Some s
  | c :: l' => s' ← port_step pool s c ; port_run pool s' l'
  end.

(** The calls of [init_port] are about one port. *)
Definition call_port (c : lib_call) : option Z :=
  match c with
  | rte_eth_dev_is_valid_port p | rte_eth_dev_info_get p | rte_eth_dev_configure p _ _ _
  | rte_eth_dev_adjust_nb_rx_tx_desc p _ _ | rte_eth_dev_socket_id p
  | rte_eth_rx_queue_setup p _ _ _ _ | rte_eth_tx_queue_setup p _ _ _ _
  | rte_eth_dev_start p | rte_eth_macaddr_get p | rte_eth_promiscuous_enable p => Some p
  | _ => None
  end.

(** * Properties *)

(** ** A logic for calls: what a block does, with the calls it makes, when the
    monitor is in the state [s]. *)
Section protocol.
Context {P X : Type}.
Context (lib : lib_call -> world P X -> lib_answer * world P X).
Context (port pool : Z).

Definition does {A} (m : M (world P X) A) (w : world P X) (s : port_state)
    (Q : A -> world P X -> port_state -> list (lib_call * lib_answer) -> Prop) : Prop :=
  exists a w' l s', m w = Some (a, w') /\ w_calls w' = w_calls w ++ l
    /\ port_run pool s l = Some s' /\ Forall (fun c => call_port c.1 = Some port) l
    /\ Q a w' s' l.

Lemma port_run_app s l1 l2 s1 :
  port_run pool s l1 = Some s1 -> port_run pool s (l1 ++ l2) = port_run pool s1 l2.
Proof.
  revert s. induction l1 as [|c l1 IH]; intros s; simpl; [by intros [= ->]|].
  destruct (port_step pool s c); simpl; [apply IH|done].
Qed.

Lemma does_ret {A} (a : A) w s Q : Q a w s [] -> does (mret a) w s Q.
Proof. intros HQ. exists a, w, [], s. rewrite app_nil_r. by repeat split. Qed.

Lemma does_bind {A B} (m : M (world P X) A) (f : A -> M (world P X) B) w s Q1 Q :
  does m w s Q1 ->
  (forall a w' s' l, Q1 a w' s' l -> does (f a) w' s' (fun b w'' s'' l' => Q b w'' s'' (l ++ l'))) ->
  does (m ≫= f) w s Q.
Proof.
  intros (a & w1 & l1 & s1 & H1 & C1 & R1 & F1 & HQ) Hf.
  destruct (Hf _ _ _ _ HQ) as (b & w2 & l2 & s2 & H2 & C2 & R2 & F2 & HQ2).
  exists b, w2, (l1 ++ l2), s2. rewrite (mbind_run _ _ _ _ _ H1), C2, C1.
  split; [done|]. split; [by rewrite app_assoc|].
  split; [by rewrite (port_run_app _ _ _ _ R1)|]. split; [by apply Forall_app|done].
Qed.

Lemma does_mono {A} (m : M (world P X) A) w s Q1 Q :
  does m w s Q1 -> (forall a w' s' l, Q1 a w' s' l -> Q a w' s' l) -> does m w s Q.
Proof.
  intros (a & w1 & l1 & s1 & H1 & C1 & R1 & F1 & HQ) Hi. exists a, w1, l1, s1. eauto 6.
Qed.

Lemma does_ask c w s s' Q :
  call_port c = Some port -> (forall a, port_step pool s (c, a) = Some (s' a)) ->
  (forall a w', Q a w' (s' a) [(c, a)]) -> does (ask lib c) w s Q.
Proof.
  intros Hc Hs HQ. unfold does, ask. destruct (lib c w) as [a w'].
  eexists a, _, [(c, a)], (s' a). split; [done|]. split; [done|].
  split; [cbn [port_run]; by rewrite Hs|]. split; [by repeat constructor|done].
Qed.

Lemma does_ask_ret c w s s' Q :
  call_port c = Some port -> (forall a, port_step pool s (c, a) = Some (s' a)) ->
  (forall a w', Q (a_ret a) w' (s' a) [(c, a)]) -> does (ask_ret lib c) w s Q.
Proof.
  intros Hc Hs HQ. unfold ask_ret.
  apply (does_bind _ _ _ _ (fun a _ s1 l => s1 = s' a /\ l = [(c, a)])).
  - by eapply does_ask.
  - intros a w1 s1 l [-> ->]. apply does_ret. rewrite app_nil_r. apply HQ.
Qed.

Lemma does_print o w s Q : (forall w', Q tt w' s []) -> does (print o) w s Q.
Proof. intros HQ. eexists tt, _, [], s. rewrite app_nil_r. by repeat split. Qed.

(** The history ends with the call that failed, and its result is [ret]. *)
Definition ends_with (ret : Z) (l : list (lib_call * lib_answer)) : Prop :=
  exists l' c a, l = l' ++ [(c, a)]
    /\ (a_ret a = ret \/ c = rte_eth_dev_is_valid_port port /\ a_ret a = 0 /\ ret = -1).

Lemma ends_with_app ret l1 l2 : ends_with ret l2 -> ends_with ret (l1 ++ l2).
Proof.
  intros (l' & c & a & -> & H). exists (l1 ++ l'), c, a. by rewrite app_assoc.
Qed.

Lemma ends_with_one c a : ends_with (a_ret a) [(c, a)].
Proof. exists [], c, a. split; [done|by left]. Qed.

Definition queues (n : Z) : list Z := map Z.of_nat (seq 0 (Z.to_nat n)).

(** A port that [init_port] has started. *)
Definition port_ready (rx tx : Z) (s : port_state) : Prop :=
  (exists offloads, ps_configured s = Some (rx, tx, offloads))
  /\ ps_rx s = queues rx /\ ps_tx s = queues tx
  /\ ps_started s = true /\ ps_promiscuous s = true.

Definition final (rx tx ret : Z) (s : port_state) (l : list (lib_call * lib_answer)) : Prop :=
  (ret = 0 -> port_ready rx tx s) /\ (ret <> 0 -> ends_with ret l).

Lemma final_app rx tx ret s l1 l2 : final rx tx ret s l2 -> final rx tx ret s (l1 ++ l2).
Proof. intros [H1 H2]. split; [done|]. intros Hn. by apply ends_with_app, H2. Qed.

Lemma final_failed rx tx c a s : a_ret a <> 0 -> final rx tx (a_ret a) s [(c, a)].
Proof. intros Hn. split; [done|]. intros _. apply ends_with_one. Qed.

Lemma queue_fresh n q : 0 <= q -> n = Z.to_nat q -> q ∉ map Z.of_nat (seq 0 n).
Proof.
  intros Hq -> Hin. apply list_elem_of_fmap in Hin as (i & -> & Hi). apply elem_of_seq in Hi. lia.
Qed.

Lemma queues_S q : 0 <= q -> queues (q + 1) = queues q ++ [q].
Proof.
  intros Hq. unfold queues. replace (Z.to_nat (q + 1)) with (Datatypes.S (Z.to_nat q)) by lia.
  rewrite seq_S, map_app. simpl. by rewrite Z2Nat.id.
Qed.

(** The loop over the queues: it ends, with all the queues in order, or with the
    negative result of the call that failed. *)
Lemma does_for_queues n body (st : Z -> port_state) w :
  0 <= n < 2 ^ 16 ->
  (forall q w, 0 <= q < n -> does (body q) w (st q) (fun r _ s' l =>
     (0 <= r -> s' = st (q + 1)) /\ (r < 0 -> ends_with r l))) ->
  does (for_queues (Datatypes.S (Z.to_nat n)) 0 n body) w (st 0) (fun o _ s' l =>
    match o with None => s' = st n | Some r => r < 0 /\ ends_with r l end).
Proof.
  intros Hn Hbody.
  assert (forall k q w, 0 <= q -> q + Z.of_nat k = n ->
    does (for_queues (Datatypes.S k) q n body) w (st q) (fun o _ s' l =>
      match o with None => s' = st n | Some r => r < 0 /\ ends_with r l end)) as HL.
  { induction k as [|k IH]; intros q w0 Hq Hk.
    - cbn [for_queues]. rewrite (proj2 (Z.ltb_ge q n)) by lia. apply does_ret. f_equal. lia.
    - cbn [for_queues] in IH |- *. rewrite (proj2 (Z.ltb_lt q n)) by lia.
      eapply does_bind; [apply Hbody; lia|]. intros r w1 s1 l [H1 H2].
      destruct (Z.ltb_spec r 0).
      + apply does_ret. rewrite app_nil_r. auto.
      + rewrite H1 by done. rewrite wrap_small by (unfold fits; lia).
        eapply does_mono; [apply IH; lia|]. intros [r'|] w2 s2 l2; [|done].
        intros [? ?]. split; [done|]. by apply ends_with_app. }
  apply HL; lia.
Qed.

(** The last part, once every queue is set up. *)
Lemma does_start rx tx s w :
  (exists offloads, ps_configured s = Some (rx, tx, offloads)) -> ps_started s = false ->
  ps_rx s = queues rx -> ps_tx s = queues tx ->
  does (start_port lib port) w s (fun ret _ s' l => final rx tx ret s' l).
Proof.
  intros [off Hc] Hs Hr Ht. unfold start_port.
  set (s1 := mk_port_state (ps_configured s) (ps_descs s) (ps_rx s) (ps_tx s) true
               (ps_promiscuous s)).
  eapply does_bind.
  { apply (does_ask_ret _ _ _ (fun a => if a_ret a <? 0 then s else s1)
      (fun r _ s' l => s' = (if r <? 0 then s else s1) /\ exists c a, l = [(c, a)] /\ a_ret a = r));
      [done| |eauto 6].
    intros a. simpl. unfold s1, all_set_up. rewrite Hc, Hs, Hr, Ht.
    rewrite !bool_decide_true by done. simpl. by destruct (a_ret a <? 0). }
  intros r w1 ? l1 (-> & c & a & -> & <-). destruct (a_ret a <? 0) eqn:E.
  { apply Z.ltb_lt in E. apply does_ret. rewrite app_nil_r.
    apply final_failed. lia. }
  eapply does_mono with (Q1 := fun ret _ s' l => final rx tx ret s' l);
    [|intros; by apply final_app].
  eapply does_bind.
  { apply (does_ask _ _ _ (fun _ => s1)
      (fun a _ s' l => s' = s1 /\ l = [(rte_eth_macaddr_get port, a)])); done. }
  intros b w2 ? ? [-> ->]. unfold truthy. destruct (a_ret b =? 0) eqn:Eb; cbn [negb].
  2:{ apply Z.eqb_neq in Eb. apply does_ret. by apply final_failed. }
  eapply does_mono with (Q1 := fun ret _ s' l => final rx tx ret s' l);
    [|intros; by apply final_app].
  eapply does_bind; [apply (does_print _ _ _ (fun _ _ s' _ => s' = s1)); done|].
  intros _ w3 ? l3 ->. eapply does_mono with (Q1 := fun ret _ s' l => final rx tx ret s' l);
    [|intros; by apply final_app].
  set (s2 := mk_port_state (ps_configured s) (ps_descs s) (ps_rx s) (ps_tx s) true true).
  eapply does_bind.
  { apply (does_ask_ret _ _ _ (fun a => if truthy (a_ret a) then s1 else s2)
      (fun r _ s' l => s' = (if truthy r then s1 else s2)
         /\ exists c a, l = [(c, a)] /\ a_ret a = r)); [done| |eauto 6].
    intros a'. simpl. by destruct (truthy (a_ret a')). }
  intros r w4 ? l4 (-> & c' & a' & -> & <-). unfold truthy.
  destruct (a_ret a' =? 0) eqn:Ea; cbn [negb]; apply does_ret; rewrite app_nil_r.
  - split; [|done]. intros _. split; [by exists off|]. done.
  - apply final_failed. by apply Z.eqb_neq.
Qed.

(** One queue: its socket, then its setup, which the monitor accepts. *)
Lemma does_setup_queue call s s' w :
  call_port (rte_eth_dev_socket_id port) = Some port ->
  (forall socket, call_port (call socket) = Some port) ->
  (forall socket a, port_step pool s (call socket, a) = Some (if a_ret a <? 0 then s else s')) ->
  does (socket ← ask_ret lib (rte_eth_dev_socket_id port) ; ask_ret lib (call socket)) w s
    (fun r _ s1 l => (0 <= r -> s1 = s') /\ (r < 0 -> ends_with r l)).
Proof.
  intros Hp Hc Hs. eapply does_bind.
  { apply (does_ask_ret _ _ _ (fun _ => s) (fun _ _ s1 _ => s1 = s)); done. }
  intros socket w1 ? l1 ->.
  eapply does_mono with (Q1 := fun r _ s1 l => (0 <= r -> s1 = s') /\ (r < 0 -> ends_with r l)).
  - apply (does_ask_ret _ _ _ (fun a => if a_ret a <? 0 then s else s')); [done|done|]. intros a w2. split.
    + intros Ha. by rewrite (proj2 (Z.ltb_ge (a_ret a) 0)).
    + intros _. apply ends_with_one.
  - intros r w2 s2 l2 [H1 H2]. split; [done|]. intros Hr. by apply ends_with_app, H2.
Qed.

Lemma does_setup rx tx off nb_rxd nb_txd rest w :
  0 <= rx < 2 ^ 16 -> 0 <= tx < 2 ^ 16 ->
  does (setup_queues lib port pool rx tx nb_rxd nb_txd (mk_txconf rest off)) w
    (mk_port_state (Some (rx, tx, off)) (Some (nb_rxd, nb_txd)) [] [] false false)
    (fun ret _ s' l => final rx tx ret s' l).
Proof.
  intros Hrx Htx. unfold setup_queues.
  set (st r t := mk_port_state (Some (rx, tx, off)) (Some (nb_rxd, nb_txd)) (queues r) (queues t)
                   false false).
  assert (forall q, 0 <= q -> q ∉ queues q) as Hfresh by (intros q Hq; by apply queue_fresh).
  eapply does_bind.
  { apply (does_for_queues rx _ (fun q => st q 0)); [done|]. intros q w1 Hq.
    apply (does_setup_queue (fun socket => rte_eth_rx_queue_setup port q nb_rxd socket pool)); [done..|].
    intros socket a. cbn [port_step st ps_configured ps_descs ps_started ps_rx].
    rewrite bool_decide_true by (split_and!; try done; try lia; apply Hfresh; lia).
    unfold st. rewrite queues_S by lia. by destruct (a_ret a <? 0). }
  intros [r|] w1 s1 l1; cbn beta iota.
  { intros [Hr He]. apply does_ret. rewrite app_nil_r. split; [lia|done]. }
  intros ->. eapply does_mono with (Q1 := fun ret _ s' l => final rx tx ret s' l);
    [|intros; by apply final_app].
  eapply does_bind.
  { apply (does_for_queues tx _ (fun q => st rx q)); [done|]. intros q w2 Hq.
    apply (does_setup_queue (fun socket =>
      rte_eth_tx_queue_setup port q nb_txd socket (mk_txconf rest off))); [done..|].
    intros socket a. cbn [port_step st ps_configured ps_descs ps_started ps_rx ps_tx txc_offloads].
    assert (all_set_up rx (queues rx) = true) as Hall by (by apply bool_decide_true).
    rewrite bool_decide_true by (split_and!; try exact Hall; try done; try lia; apply Hfresh; lia).
    unfold st. rewrite queues_S by lia. by destruct (a_ret a <? 0). }
  intros [r|] w2 s2 l2; cbn beta iota.
  { intros [Hr He]. apply does_ret. rewrite app_nil_r. split; [lia|done]. }
  intros ->. eapply does_mono with (Q1 := fun ret _ s' l => final rx tx ret s' l);
    [|intros; by apply final_app].
  apply does_start; try done. by exists off.
Qed.

Lemma does_init_port rx tx w :
  0 <= rx < 2 ^ 16 -> 0 <= tx < 2 ^ 16 ->
  does (init_port lib port pool rx tx) w port_reset (fun ret _ s' l => final rx tx ret s' l).
Proof.
  intros Hrx Htx. unfold init_port. eapply does_bind.
  { apply (does_ask_ret _ _ _ (fun _ => port_reset) (fun r _ s' l => s' = port_reset
      /\ exists a, l = [(rte_eth_dev_is_valid_port port, a)] /\ a_ret a = r)); eauto. }
  intros v w1 ? l1 (-> & a & -> & Ha). unfold truthy at 1. destruct (v =? 0) eqn:Ev; cbn [negb].
  { apply Z.eqb_eq in Ev. apply does_ret. split; [done|]. intros _. exists [], (rte_eth_dev_is_valid_port port), a.
    split; [done|]. right. split; [done|]. split; [lia|done]. }
  eapply does_mono with (Q1 := fun ret _ s' l => final rx tx ret s' l);
    [|intros; by apply final_app].
  eapply does_bind.
  { apply (does_ask _ _ _ (fun _ => port_reset) (fun a _ s' l => s' = port_reset
      /\ l = [(rte_eth_dev_info_get port, a)])); done. }
  intros i w2 ? ? [-> ->]. unfold truthy at 1. destruct (a_ret i =? 0) eqn:Ei; cbn [negb].
  2:{ apply Z.eqb_neq in Ei. eapply does_bind; [apply (does_print _ _ _ (fun _ _ s' l => l = [])); done|].
      intros _ w3 s3 ? ->. apply does_ret. by apply final_failed. }
  eapply does_mono with (Q1 := fun ret _ s' l => final rx tx ret s' l);
    [|intros; by apply final_app].
  cbv zeta. set (conf := if truthy _ then _ else _).
  set (s1 := mk_port_state (Some (rx, tx, txmode_offloads conf)) None [] [] false false).
  eapply does_bind.
  { apply (does_ask_ret _ _ _ (fun a => if truthy (a_ret a) then port_reset else s1)
      (fun r _ s' l => s' = (if truthy r then port_reset else s1)
        /\ exists c a, l = [(c, a)] /\ a_ret a = r)); [done| |eauto 6].
    intros b. simpl. by destruct (truthy (a_ret b)). }
  intros r w3 ? ? (-> & c & b & -> & <-). unfold truthy. destruct (a_ret b =? 0) eqn:Eb; cbn [negb].
  2:{ apply Z.eqb_neq in Eb. apply does_ret. by apply final_failed. }
  eapply does_mono with (Q1 := fun ret _ s' l => final rx tx ret s' l);
    [|intros; by apply final_app].
  eapply does_bind.
  { apply (does_ask _ _ _ (fun a => if truthy (a_ret a) then s1
        else mk_port_state (ps_configured s1) (Some (a_nb_rxd a, a_nb_txd a)) [] [] false false)
      (fun a _ s' l => s' = (if truthy (a_ret a) then s1
        else mk_port_state (ps_configured s1) (Some (a_nb_rxd a, a_nb_txd a)) [] [] false false)
        /\ exists c, l = [(c, a)])); [done| |eauto].
    intros d. simpl. by destruct (truthy (a_ret d)). }
  intros d w4 ? ? (-> & c' & ->). unfold truthy. destruct (a_ret d =? 0) eqn:Ed; cbn [negb].
  2:{ apply Z.eqb_neq in Ed. apply does_ret. by apply final_failed. }
  eapply does_mono with (Q1 := fun ret _ s' l => final rx tx ret s' l);
    [|intros; by apply final_app].
  by apply does_setup.
Qed.
End protocol.


(** A library whose calls all succeed. *)
Definition demo_lib {P X} (c : lib_call) (w : world P X) : lib_answer * world P X :=
  (mk_answer (match c with rte_eth_dev_is_valid_port _ => 1 | _ => 0 end)
     (mk_dev_info (2 ^ 16) (mk_txconf [] 0)) 512 256 [0;1;2;3;4;5] 0 0, w).

Definition empty_world : world unit unit := mk_world (mk_heap ∅ ∅ ∅ ∅ ∅ ∅) tt [] 0 [].


(** ** The order of the two kinds of queues

    The list in [rte_ethdev.h]: the calls "must be invoked in the following
    order", configuration, transmit queues, receive queues, start. *)
Definition is_tx_setup (c : lib_call) : bool :=
  match c with rte_eth_tx_queue_setup _ _ _ _ _ => true | _ => false end.

Fixpoint tx_setups_first (l : list lib_call) : bool :=
  match l with
  | [] => true
  | rte_eth_rx_queue_setup _ _ _ _ _ :: l' => negb (existsb is_tx_setup l') && tx_setups_first l'
  | _ :: l' => tx_setups_first l'
  end.

(** [init_port] does not follow that list: with one queue of each kind, and every
    call a success, it sets the transmit queue up after the receive queue. *)
Theorem init_port_rx_first :
  exists w', init_port demo_lib 0 64 1 1 empty_world = Some (0, w')
    /\ tx_setups_first (map fst (w_calls w')) = false.
Proof. eexists. split; vm_compute; reflexivity. Qed.
