(* ===== verification/Vote.v ===== *)
(** * The voting receiver ([main.cpp]).

    [main] polls four receive queues for ever and hands every packet to a vote
    table indexed by the low bits of [idx].  The globals are a record beside the
    world; the locals [start2] and [end2], which the code prints without having
    set them, and the contents of the uninitialised array [mbufs] are
    parameters. *)
From stdpp Require Import prelude list numbers gmap.
From S2P Require Import Prelude Mempool MbufCore Bytes Mbuf Ethdev World Port.
Open Scope Z_scope.

Definition num_rx_queues : Z := 4.
Definition num_tx_queues : Z := 8.

Definition show_ip : Z -> list Z := World.show_ip.

(** Signed 32-bit arithmetic, undefined when it overflows. *)
Definition sint32 (z : Z) : option Z :=
  if (- 2 ^ 31 <=? z) && (z <? 2 ^ 31) then Some z else None.

Record globals := mk_globals {
  g_array : list Z;
  g_vote : list Z;
  g_pkt : Z;
  g_total_num : Z;
  g_burst_num : Z
}.

Definition globals_init : globals :=
  mk_globals (replicate (Z.to_nat ARRAY_SIZE) 0) (replicate (Z.to_nat ARRAY_SIZE) 0) 0 0 0.

(** The vote for a packet: the [if] on [pkt->value], with C's remainder. *)
Definition vote_packet (array vote : list Z) (idx value : Z) : option (list Z) :=
  a ← aget array (Z.rem idx ARRAY_SIZE) ;
  if value =? a then
    v ← aget vote (Z.rem idx ARRAY_SIZE) ;
    v ← sint32 (v + 1) ;
    aset vote (Z.rem idx ARRAY_SIZE) v
  else
    let index := Z.rem idx ARRAY_SIZE in
    let index := if index <? 0 then 0 else index in
    v ← aget vote index ;
    v ← sint32 (v - 1) ;
    vote ← aset vote index v ;
    if v <=? 0 then aset vote index value else Some vote.

Section program.
Context {P X : Type} (table : Z -> rte_mempool_ops P) (lcore_id : Z).
Context (ext_free : Z -> Z -> Z -> M (heap P) unit).
Context (lib : lib_call -> world P X -> lib_answer * world P X).
Context (fp_ops : world P X -> list (rte_eth_fp_ops (world P X))).
Context (call_rx : Z -> Z -> list Z -> Z -> Z -> Z -> M (world P X) (Z * list Z)).
Context (start2 end2 : Z) (uninit : list Z).

Definition state : Type := world P X * globals.

Definition on_world {A} (op : M (world P X) A) : M state A := fun s =>
  '(a, w) ← op s.1 ; Some (a, (w, s.2)).

Definition on_memory {A} (op : M (heap P) A) : M state A := on_world (on_heap op).

Definition globs : M state globals := gets snd.
Definition set_globs (f : globals -> globals) : M state unit := modify (fun s => (s.1, f s.2)).

Definition set_pkt (v : Z) (g : globals) : globals :=
  mk_globals (g_array g) (g_vote g) v (g_total_num g) (g_burst_num g).
Definition set_vote (v : list Z) (g : globals) : globals :=
  mk_globals (g_array g) v (g_pkt g) (g_total_num g) (g_burst_num g).
Definition set_total_num (v : Z) (g : globals) : globals :=
  mk_globals (g_array g) (g_vote g) (g_pkt g) v (g_burst_num g).
Definition set_burst_num (v : Z) (g : globals) : globals :=
  mk_globals (g_array g) (g_vote g) (g_pkt g) (g_total_num g) v.

Definition get_time : M (world P X) Z := World.get_time lib.

Definition init_port (port mbuf_pool : Z) : M (world P X) Z :=
  Port.init_port lib port mbuf_pool 4 1.

(** The body of the loop over the packets of a burst. *)
Definition handle_packet (buf : Z) : M state unit :=
  b ← on_memory (rd buf) ;
  set_globs (set_pkt (rte_pktmbuf_mtod_offset b 0)) ;;
  let pkt := rte_pktmbuf_mtod_offset b 0 in
  i ← on_memory (load32 (pkt_idx pkt)) ;
  on_memory (store32 (pkt_idx pkt) (ntohl i)) ;;
  v ← on_memory (load32 (pkt_value pkt)) ;
  on_memory (store32 (pkt_value pkt) (ntohl v)) ;;
  idx ← on_memory (load32 (pkt_idx pkt)) ;
  value ← on_memory (load32 (pkt_value pkt)) ;
  g ← globs ;
  vote ← lift (vote_packet (g_array g) (g_vote g) (i32 idx) (i32 value)) ;
  set_globs (set_vote vote) ;;
  set_globs (set_total_num (u64 (g_total_num g + 1))) ;;
  (if u64 (g_total_num g + 1) mod 10 =? 0 then
     on_world (print (OutCycles (i32 idx) (i32 value) (u64 (end2 - start2)))) ;;
     payload ← on_memory (load_string (pkt + sizeof_my_pkt)) ;
     on_world (print (OutPayload payload))
   else mret tt) ;;
  on_memory (rte_pktmbuf_free table lcore_id ext_free buf).

(** One queue: [Some] when the program ends. *)
Definition poll_queue (portid r : Z) : M state (option outcome) :=
  '(num_recv, mbufs) ← on_world (rte_eth_rx_burst fp_ops call_rx portid r uninit BURST_SIZE) ;
  if num_recv >? BURST_SIZE then mret (Some (Exited EXIT_FAILURE))
  else
    mfor (map Z.of_nat (seq 0 (Z.to_nat num_recv))) (fun i =>
      buf ← lift (aget mbufs i) ;
      handle_packet buf ;;
      set_globs (fun g => set_burst_num (u64 (g_burst_num g + 1)) g)) ;;
    mret None.

(** [for (int r = 0; r < num_rx_queues; r++)], [n] queues left. *)
Fixpoint poll_queues (portid : Z) (n : nat) : M state (option outcome) :=
  match n with
  | O => mret None
  | Datatypes.S n' =>
      o ← poll_queue portid (num_rx_queues - Z.of_nat n) ;
      match o with
      | Some e => mret (Some e)
      | None => poll_queues portid n'
      end
  end.

(** [while (1)], observed for [rounds] rounds. *)
Fixpoint main_loop (portid : Z) (rounds : nat) : M state outcome :=
  match rounds with
  | O => mret Running
  | Datatypes.S rounds' =>
      o ← poll_queues portid (Z.to_nat num_rx_queues) ;
      match o with
      | Some e => mret e
      | None => main_loop portid rounds'
      end
  end.

Definition main (argc : Z) (rounds : nat) : M state outcome :=
  ret ← on_world (ask_ret lib rte_eal_init) ;
  if ret <? 0 then mret (Exited EXIT_FAILURE)
  else if argc - ret <? 1 then mret (Exited EXIT_FAILURE)
  else
    nb_sys_ports ← on_world (ask_ret lib rte_eth_dev_count_avail) ;
    if u16 nb_sys_ports <? 1 then mret (Exited EXIT_FAILURE)
    else
      socket ← on_world (ask_ret lib rte_socket_id) ;
      mbuf_pool ← on_world (ask_ret lib
        (rte_pktmbuf_pool_create NUM_MBUFS MBUF_CACHE_SIZE 0 RTE_MBUF_DEFAULT_BUF_SIZE socket)) ;
      if mbuf_pool =? NULL then mret (Exited EXIT_FAILURE)
      else
        let portid := 0 in
        ret ← on_world (init_port portid mbuf_pool) ;
        (if negb (ret =? 0) then on_world (print OutPortInitError) else mret tt) ;;
        start1 ← on_world get_time ;
        on_world (print (OutStart start1)) ;;
        main_loop portid rounds.
End program.
