(* ===== verification/VoteSpec.v ===== *)
(** * Properties of the voting receiver: the table of votes as independent cells,
    and the effect of a packet and of a burst on the whole program. *)
From stdpp Require Import prelude list numbers gmap.
From S2P Require Import Prelude Mempool MbufCore Bytes Mbuf MbufSpec MbufPool Ethdev World Port Vote.
Open Scope Z_scope.

(** ** The table of votes *)

(** One cell: its candidate [a], its count [v], and a vote for [value]. *)
Definition cell_step (a v value : Z) : option Z :=
  if value =? a then sint32 (v + 1)
  else v1 ← sint32 (v - 1) ; Some (if v1 <=? 0 then value else v1).

Fixpoint cell_run (a v : Z) (values : list Z) : option Z :=
  match values with
  | [] => Some v
  | x :: values' => v' ← cell_step a v x ; cell_run a v' values'
  end.

Fixpoint vote_packets (array vote : list Z) (pkts : list (Z * Z)) : option (list Z) :=
  match pkts with
  | [] => Some vote
  | (idx, value) :: pkts' => vote' ← vote_packet array vote idx value ; vote_packets array vote' pkts'
  end.

(** The values of the packets that vote in the cell [i]. *)
Definition votes_for (i : Z) (pkts : list (Z * Z)) : list Z :=
  map snd (filter (fun p => Z.rem p.1 ARRAY_SIZE = i) pkts).

Lemma aget_lookup {A} (l : list A) i x : aget l i = Some x <-> 0 <= i /\ l !! Z.to_nat i = Some x.
Proof.
  unfold aget. destruct (Z.leb_spec 0 i); split; try done; [|intros []; lia]. by intros [].
Qed.

Lemma vote_packet_cell array vote idx value i a v :
  Z.rem idx ARRAY_SIZE = i -> aget array i = Some a -> aget vote i = Some v ->
  vote_packet array vote idx value
  = (v' ← cell_step a v value ; Some (<[Z.to_nat i := v']> vote)).
Proof.
  intros Hi Ha Hv. unfold vote_packet, cell_step. rewrite Hi, Ha. simpl.
  pose proof (aget_Some _ _ _ Hv) as Hb.
  destruct (value =? a).
  - rewrite Hv. simpl. destruct (sint32 (v + 1)); [|done]. simpl. by rewrite aset_ok by lia.
  - rewrite (proj2 (Z.ltb_ge i 0)) by lia. rewrite Hv. simpl.
    destruct (sint32 (v - 1)) as [v1|]; [|done]. simpl. rewrite aset_ok by lia. simpl.
    destruct (v1 <=? 0); [|done].
    rewrite aset_ok by (rewrite length_insert; lia). by rewrite list_insert_insert_eq.
Qed.

Definition table_size (l : list Z) : Prop := Z.of_nat (length l) = ARRAY_SIZE.

Lemma aget_table l i : table_size l -> 0 <= i < ARRAY_SIZE -> exists x, aget l i = Some x.
Proof.
  intros Hl Hi. destruct (lookup_lt_is_Some_2 l (Z.to_nat i)) as [x Hx]; [unfold table_size in *; lia|].
  exists x. apply aget_lookup; split; [lia|done].
Qed.

Lemma rem_range idx : - ARRAY_SIZE < Z.rem idx ARRAY_SIZE < ARRAY_SIZE.
Proof. unfold ARRAY_SIZE. pose proof (Z.rem_bound_abs idx 65536 ltac:(lia)). lia. Qed.

(** C7. The table of votes is a set of independent cells: after any sequence of
    packets with non-negative remainders, the cell [i] is what the votes for
    [i], in their order, make of its former content, whatever the packets for
    other cells were; the sequence is undefined exactly when it overflows some
    cell. *)
Theorem vote_cells_independent (array vote : list Z) (pkts : list (Z * Z)) :
  table_size array -> table_size vote ->
  Forall (fun p => 0 <= Z.rem p.1 ARRAY_SIZE) pkts ->
  match vote_packets array vote pkts with
  | Some vote' => table_size vote' /\
      forall i a v, aget array i = Some a -> aget vote i = Some v ->
        exists v', aget vote' i = Some v' /\ cell_run a v (votes_for i pkts) = Some v'
  | None => exists i a v, aget array i = Some a /\ aget vote i = Some v
      /\ cell_run a v (votes_for i pkts) = None
  end.
Proof.
  intros Ha. revert vote. induction pkts as [|[idx value] pkts IH]; intros vote Hv HF; simpl.
  { split; [done|]. intros i a v _ Hi. by exists v. }
  apply Forall_cons in HF as [H0 HF]. simpl in H0. pose proof (rem_range idx) as Hr.
  set (j := Z.rem idx ARRAY_SIZE) in *.
  destruct (aget_table array j Ha) as [aj Haj]; [lia|].
  destruct (aget_table vote j Hv) as [vj Hvj]; [lia|].
  rewrite (vote_packet_cell array vote idx value j aj vj eq_refl Haj Hvj).
  destruct (cell_step aj vj value) as [v1|] eqn:Es; simpl.
  2:{ exists j, aj, vj. split; [done|]. split; [done|]. unfold votes_for.
      rewrite filter_cons_True by done. simpl. by rewrite Es. }
  set (vote1 := <[Z.to_nat j := v1]> vote).
  assert (table_size vote1) as Hv1 by (unfold table_size, vote1; by rewrite length_insert).
  assert (forall i a v, aget array i = Some a -> aget vote i = Some v ->
    exists w, aget vote1 i = Some w
      /\ cell_run a v (votes_for i ((idx, value) :: pkts)) = cell_run a w (votes_for i pkts)) as Hstep.
  { intros i a v Hai Hvi. pose proof (aget_Some _ _ _ Hvi) as Hb. unfold votes_for.
    destruct (decide (j = i)) as [<-|Hne].
    - exists v1. rewrite filter_cons_True by done. simpl. simplify_eq. rewrite Es. split; [|done].
      apply aget_lookup. split; [lia|]. apply list_lookup_insert_eq. lia.
    - exists v. rewrite filter_cons_False by done. split; [|done].
      apply aget_lookup in Hvi as [? Hvi]. apply aget_lookup. split; [lia|].
      unfold vote1. rewrite list_lookup_insert_ne; [done|lia]. }
  specialize (IH vote1 Hv1 HF). destruct (vote_packets array vote1 pkts) as [vote'|].
  - destruct IH as [Hs IH]. split; [done|]. intros i a v Hai Hvi.
    destruct (Hstep i a v Hai Hvi) as (w & Hw & ->). by apply IH.
  - destruct IH as (i & a & w & Hai & Hw & HN).
    destruct (aget_table vote i Hv) as [v Hvi].
    { apply aget_Some in Hai. unfold table_size in Ha. lia. }
    exists i, a, v. split; [done|]. split; [done|].
    destruct (Hstep i a v Hai Hvi) as (w' & Hw' & ->). by simplify_eq.
Qed.

(** A packet whose index has a negative remainder is never handled: reading
    the candidate of the cell reaches below the array before the index is
    clamped to 0, whatever the tables contain. *)
Theorem vote_negative_index_undefined (array vote : list Z) (idx value : Z) :
  Z.rem idx ARRAY_SIZE < 0 -> vote_packet array vote idx value = None.
Proof.
  intros H. unfold vote_packet.
  assert (aget array (Z.rem idx ARRAY_SIZE) = None) as ->; [|done].
  unfold aget. by rewrite (proj2 (Z.leb_gt 0 (Z.rem idx ARRAY_SIZE))).
Qed.

Lemma vote_negative_index_undefined_witness :
  vote_packet [7] [7] (-1) 5 = None.
Proof. apply (vote_negative_index_undefined [7] [7] (-1) 5). vm_compute. reflexivity. Defined.

(** The candidates are all 0 and the program never writes them, so a cell
    counts the packets of value 0 and takes over the value of the others when
    its count runs out.  In particular a single packet can put the least 32-bit
    integer in a cell, and the next packet for it that is not 0 is undefined. *)
Theorem vote_overflow_reachable (value : Z) :
  value <> 0 ->
  cell_run 0 0 [- 2 ^ 31] = Some (- 2 ^ 31) /\ cell_run 0 0 [- 2 ^ 31; value] = None.
Proof.
  intros Hv. split; [reflexivity|]. cbn [cell_run].
  change (cell_step 0 0 (- 2 ^ 31)) with (Some (- 2 ^ 31)). simpl.
  unfold cell_step. by rewrite (proj2 (Z.eqb_neq value 0) Hv).
Qed.

Lemma vote_overflow_reachable_witness : cell_run 0 0 [- 2 ^ 31; 1] = None.
Proof. apply (vote_overflow_reachable 1). lia. Defined.

Lemma vote_cells_independent_witness :
  match vote_packets (g_array globals_init) (g_vote globals_init) [(3, 9); (70000, 4); (3, 0)] with
  | Some vote' => aget vote' 3 = Some 10
  | None => False
  end.
Proof.
  pose proof (vote_cells_independent (g_array globals_init) (g_vote globals_init)
    [(3, 9); (70000, 4); (3, 0)]) as H.
  assert (forall n, Z.of_nat (length (replicate n 0)) = Z.of_nat n) as Hl
    by (intros n; by rewrite length_replicate).
  specialize (H (Hl _) (Hl _)).
  specialize (H ltac:(repeat constructor; vm_compute; discriminate)).
  destruct (vote_packets _ _ _) as [vote'|] eqn:E.
  - destruct H as [_ H]. destruct (H 3 0 0) as (v' & Hv & Hr).
    + vm_compute. reflexivity.
    + vm_compute. reflexivity.
    + vm_compute in Hr. injection Hr as <-. exact Hv.
  - assert (match vote_packets (g_array globals_init) (g_vote globals_init) [(3, 9); (70000, 4); (3, 0)]
            with Some _ => true | None => false end = true) as Hs by (vm_compute; reflexivity).
    rewrite E in Hs. discriminate.
Defined.

(** ** One packet *)

Lemma ntohl_fits v : fits 32 (ntohl v).
Proof.
  unfold fits, ntohl. pose proof (wrap_range 8 v ltac:(lia)).
  pose proof (wrap_range 8 (v / 2 ^ 8) ltac:(lia)). pose proof (wrap_range 8 (v / 2 ^ 16) ltac:(lia)).
  pose proof (wrap_range 8 (v / 2 ^ 24) ltac:(lia)). lia.
Qed.

(** A packet in memory: the mbuf that holds it, the two words at its beginning
    in network order and the string behind them. *)
Record packet := mk_packet {
  pk_buf : Z;
  pk_mbuf : rte_mbuf;
  pk_idx : Z;
  pk_value : Z;
  pk_str : list Z
}.

Definition pk_addr (k : packet) : Z := rte_pktmbuf_mtod_offset (pk_mbuf k) 0.
Definition pk_end (k : packet) : Z := pk_addr k + 9 + Z.of_nat (length (pk_str k)).
(** What the receiver makes of the two words. *)
Definition pk_vote (k : packet) : Z * Z := (i32 (ntohl (pk_idx k)), i32 (ntohl (pk_value k))).

Record pkt_words {P} (mp : Z) (h : heap P) (k : packet) : Prop := {
  pi_mbuf : h_mbufs h !! pk_buf k = Some (pk_mbuf k);
  pi_nonnull : pk_buf k <> NULL;
  pi_pool : pool (pk_mbuf k) = mp;
  pi_direct : RTE_MBUF_DIRECT (pk_mbuf k) = true;
  pi_refcnt : refcnt (pk_mbuf k) = 1;
  pi_next : next (pk_mbuf k) = NULL;
  pi_idx : word_at (h_bytes h) (pk_addr k) (pk_idx k);
  pi_value : word_at (h_bytes h) (pk_addr k + 4) (pk_value k)
}.

(** And the string, which only [main.cpp] reads. *)
Record pkt_in {P} (mp : Z) (h : heap P) (k : packet) : Prop := {
  pi_words : pkt_words mp h k;
  pi_str : string_at (h_bytes h) (pk_addr k + 8) (pk_str k)
}.

(** The bytes after the words have been converted in place. *)
Definition convert (k : packet) (m : gmap Z Z) : gmap Z Z :=
  put_word (pk_addr k + 4) (ntohl (pk_value k)) (put_word (pk_addr k) (ntohl (pk_idx k)) m).

Lemma convert_ne k m x : x < pk_addr k \/ pk_addr k + 8 <= x -> convert k m !! x = m !! x.
Proof. intros Hx. unfold convert. by rewrite !put_word_ne by lia. Qed.

Section program.
Context {P X : Type} (table : Z -> rte_mempool_ops P) (o : rte_mempool_ops P) `{LawfulOps P o}.
Context (lcore_id : Z) (Hlcore : 0 <= lcore_id).
Context (ext_free : Z -> Z -> Z -> M (heap P) unit).
Context (start2 end2 : Z).

Local Abbreviation handle := (handle_packet (X := X) table lcore_id ext_free start2 end2).

Lemma on_memory_run {A} (op : M (heap P) A) (w : world P X) g a h :
  op (w_heap w) = Some (a, h) -> on_memory op (w, g) = Some (a, (set_heap h w, g)).
Proof. intros E. unfold on_memory, on_world, on_heap. simpl. by rewrite E. Qed.

(** What a packet prints: every tenth one. *)
Definition prints (total : Z) (k : packet) : list output :=
  if u64 (total + 1) mod 10 =? 0 then
    [OutCycles (pk_vote k).1 (pk_vote k).2 (u64 (end2 - start2)); OutPayload (pk_str k)]
  else [].

Definition heap_after (mp : Z) (p : rte_mempool P) (k : packet) (h : heap P) : heap P :=
  with_pool_at mp p (set_h_mbufs (<[pk_buf k := released (pk_mbuf k)]> (h_mbufs h))
    (set_h_bytes (convert k (h_bytes h)) h)).

Lemma free_one n mp p h m b :
  h_pools h !! mp = Some p -> pool_inv table o n p -> 1 <= n -> h_mbufs h !! m = Some b ->
  pool b = mp -> RTE_MBUF_DIRECT b = true -> refcnt b = 1 -> next b = NULL -> m <> NULL ->
  exists p', rte_pktmbuf_free table lcore_id ext_free m h
    = Some (tt, with_pool_at mp p' (set_h_mbufs (<[m := released b]> (h_mbufs h)) h))
    /\ free_objs o p' ≡ₚ m :: free_objs o p /\ pool_inv table o (n - 1) p'.
Proof.
  intros Hp I Hn Hb Hpool Hd Hr Hnx Hm.
  assert (last_refs (h_mbufs h) [m] = [m]) as El.
  { simpl. rewrite Hb. unfold gives_back. by rewrite Hr. }
  destruct (free_chain_run table o lcore_id Hlcore ext_free n mp p h m [m] Hp I) as (p' & h' & HR & -> & HF & I').
  - split; [done|]. split; [done|]. by exists b.
  - intros a c Ha Hc. apply list_elem_of_singleton in Ha as ->. simplify_eq.
    split; [done|]. split; [done|lia].
  - rewrite El. simpl. lia.
  - rewrite El in HF, I'. exists p'. split; [|done]. rewrite HR.
    unfold free_all. simpl. rewrite (alter_as_insert seg_after m b) by done.
    unfold seg_after. by rewrite Hr.
Qed.

(** The line and the payload of every tenth packet. *)
Lemma prints_run k (w : world P X) g total :
  string_at (h_bytes (w_heap w)) (pk_addr k + 8) (pk_str k) ->
  (if u64 (total + 1) mod 10 =? 0 then
     on_world (print (OutCycles (pk_vote k).1 (pk_vote k).2 (u64 (end2 - start2)))) ;;
     payload ← on_memory (load_string (pk_addr k + 8)) ;
     on_world (print (OutPayload payload))
   else mret tt) (w, g)
  = Some (tt, (mk_world (w_heap w) (w_ext w) (w_out w ++ prints total k) (w_new w) (w_calls w), g)).
Proof.
  intros Hs. unfold prints. destruct (u64 (total + 1) mod 10 =? 0).
  - set (w5 := mk_world (w_heap w) (w_ext w) (w_out w ++ [OutCycles (pk_vote k).1 (pk_vote k).2
      (u64 (end2 - start2))]) (w_new w) (w_calls w)).
    rewrite (mbind_run (on_world _) _ _ tt (w5, g)) by done.
    rewrite (mbind_run _ _ _ _ _ (on_memory_run (load_string (pk_addr k + 8)) w5 g _ (w_heap w)
      (load_string_run (w_heap w) _ _ Hs))).
    unfold w5. unfold on_world, print, modify, set_heap. simpl. by rewrite <- app_assoc.
  - rewrite app_nil_r. by destruct w.
Qed.

Lemma handle_run n mp p (w : world P X) g k vote :
  h_pools (w_heap w) !! mp = Some p -> pool_inv table o n p -> 1 <= n ->
  pkt_in mp (w_heap w) k ->
  vote_packet (g_array g) (g_vote g) (pk_vote k).1 (pk_vote k).2 = Some vote ->
  exists p', handle (pk_buf k) (w, g)
    = Some (tt, (mk_world (heap_after mp p' k (w_heap w)) (w_ext w)
                   (w_out w ++ prints (g_total_num g) k) (w_new w) (w_calls w),
                 mk_globals (g_array g) vote (pk_addr k) (u64 (g_total_num g + 1)) (g_burst_num g)))
    /\ free_objs o p' ≡ₚ pk_buf k :: free_objs o p /\ pool_inv table o (n - 1) p'.
Proof.
  intros Hp I Hn [[Hb Hnn Hpool Hd Hr Hnx Hi Hv] Hs] Hvote. set (h := w_heap w) in *.
  set (a := pk_addr k) in *. set (m1 := put_word a (ntohl (pk_idx k)) (h_bytes h)).
  set (h1 := set_h_bytes m1 h). set (h2 := set_h_bytes (convert k (h_bytes h)) h).
  assert (convert k (h_bytes h) = put_word (a + 4) (ntohl (pk_value k)) m1) as Ec by done.
  assert (word_at (h_bytes h1) (a + 4) (pk_value k)) as Hv1 by (apply word_at_ne; [done|lia]).
  assert (word_at (h_bytes h2) (a + 4) (ntohl (pk_value k))) as Hv2.
  { simpl. rewrite Ec. apply put_word_fits, ntohl_fits. }
  assert (word_at (h_bytes h2) a (ntohl (pk_idx k))) as Hi2.
  { simpl. rewrite Ec. apply word_at_ne; [|lia]. apply put_word_fits, ntohl_fits. }
  assert (string_at (h_bytes h2) (a + 8) (pk_str k)) as Hs2.
  { eapply string_at_ext; [|exact Hs]. intros x Hx. apply convert_ne. fold a. lia. }
  destruct (free_one n mp p h2 (pk_buf k) (pk_mbuf k) Hp I Hn Hb Hpool Hd Hr Hnx Hnn)
    as (p' & HF & Hf & I').
  exists p'. split; [|done]. unfold handle_packet.
  rewrite (mbind_run _ _ _ _ _ (on_memory_run (rd (pk_buf k)) w g _ h (rd_run _ _ h Hb))).
  change (rte_pktmbuf_mtod_offset (pk_mbuf k) 0) with a. unfold pkt_idx, pkt_value, sizeof_my_pkt.
  rewrite (mbind_run (set_globs (set_pkt a)) _ _ tt (set_heap h w, set_pkt a g)) by done.
  set (g1 := set_pkt a g). set (w0 := set_heap h w).
  rewrite (mbind_run _ _ _ _ _ (on_memory_run (load32 a) w0 g1 _ h (load32_run h a _ Hi))).
  rewrite (mbind_run _ _ _ _ _ (on_memory_run (store32 a _) (set_heap h w0) g1 tt h1
    (store32_run h a _ (word_at_mapped _ _ _ Hi)))).
  rewrite (mbind_run _ _ _ _ _ (on_memory_run (load32 (a + 4)) (set_heap h1 (set_heap h w0)) g1 _ h1
    (load32_run h1 _ _ Hv1))).
  rewrite (mbind_run _ _ _ _ _ (on_memory_run (store32 (a + 4) _)
    (set_heap h1 (set_heap h1 (set_heap h w0))) g1 tt h2
    (store32_run h1 _ _ (word_at_mapped _ _ _ Hv1)))).
  set (w2 := set_heap h2 _).
  rewrite (mbind_run _ _ _ _ _ (on_memory_run (load32 a) w2 g1 _ h2 (load32_run h2 a _ Hi2))).
  rewrite (mbind_run _ _ _ _ _ (on_memory_run (load32 (a + 4)) (set_heap h2 w2) g1 _ h2
    (load32_run h2 _ _ Hv2))).
  set (w3 := set_heap h2 (set_heap h2 w2)).
  rewrite (mbind_run globs _ (w3, g1) g1 (w3, g1)) by done.
  change (g_array g1) with (g_array g). change (g_vote g1) with (g_vote g).
  change (i32 (ntohl (pk_idx k))) with (pk_vote k).1.
  change (i32 (ntohl (pk_value k))) with (pk_vote k).2. rewrite Hvote.
  rewrite (mbind_run _ _ (w3, g1) vote (w3, g1)) by done.
  rewrite (mbind_run (set_globs (set_vote vote)) _ _ tt (w3, set_vote vote g1)) by done.
  change (g_total_num g1) with (g_total_num g). set (t := u64 (g_total_num g + 1)).
  set (g2 := set_total_num t (set_vote vote g1)).
  rewrite (mbind_run (set_globs (set_total_num t)) _ _ tt (w3, g2)) by done.
  set (w4 := mk_world h2 (w_ext w) (w_out w ++ prints (g_total_num g) k) (w_new w) (w_calls w)).
  pose proof (prints_run k w3 g2 (g_total_num g) Hs2) as Hpr. fold t in Hpr.
  rewrite (mbind_run _ _ _ _ _ Hpr). clear Hpr.
  etransitivity; [exact (on_memory_run _ w4 g2 _ _ HF)|done].
Qed.

(** ** A burst *)

(** Two packets that do not share a buffer. *)
Definition apart (k k' : packet) : Prop :=
  pk_buf k <> pk_buf k' /\ (pk_end k <= pk_addr k' \/ pk_end k' <= pk_addr k).

Lemma pkt_in_after mp p' k k' h :
  apart k k' -> pkt_in mp h k' -> pkt_in mp (heap_after mp p' k h) k'.
Proof.
  intros [Hne Hd] [[Hb Hnn Hpool Hdir Hr Hnx Hi Hv] Hs].
  assert (forall x, pk_addr k' <= x < pk_end k' ->
    h_bytes (heap_after mp p' k h) !! x = h_bytes h !! x) as Hx.
  { intros x Hx. apply convert_ne. unfold pk_end in *. lia. }
  unfold pk_end in Hx. split; [split; try done|].
  - simpl. by rewrite lookup_insert_ne.
  - eapply word_at_ext; [|exact Hi]. intros x ?. apply Hx. lia.
  - eapply word_at_ext; [|exact Hv]. intros x ?. apply Hx. lia.
  - eapply string_at_ext; [|exact Hs]. intros x ?. apply Hx. lia.
Qed.

Fixpoint burst_prints (total : Z) (ks : list packet) : list output :=
  match ks with
  | [] => []
  | k :: ks' => prints total k ++ burst_prints (u64 (total + 1)) ks'
  end.

(** The packets of a burst, pairwise apart, are in memory. *)
Definition burst_in (mp : Z) (h : heap P) (ks : list packet) : Prop :=
  Forall (pkt_in mp h) ks /\ ForallOrdPairs apart ks.

(** The mbufs of the packets are as at their allocation (one reference, one
    segment, no successor), and no other mbuf has changed. *)
Definition all_released (ks : list packet) (h h' : heap P) : Prop :=
  (forall k, k ∈ ks -> h_mbufs h' !! pk_buf k = Some (released (pk_mbuf k)))
  /\ forall a, a ∉ map pk_buf ks -> h_mbufs h' !! a = h_mbufs h !! a.

Lemma all_released_cons mp p k ks h h' :
  Forall (apart k) ks -> all_released ks (heap_after mp p k h) h' -> all_released (k :: ks) h h'.
Proof.
  intros Hk [H1 H2]. rewrite Forall_forall in Hk. split.
  - intros k' Hin. apply elem_of_cons in Hin as [->|Hin]; [|by apply H1].
    rewrite H2; [by simpl; rewrite lookup_insert_eq|].
    intros Hin. apply list_elem_of_fmap in Hin as (k' & E & Hin). by destruct (Hk k' Hin).
  - intros a Ha. cbn [map] in Ha. apply not_elem_of_cons in Ha as [Hne Ha]. rewrite H2 by done.
    simpl. by rewrite lookup_insert_ne.
Qed.

Definition burst_body (mbufs : list Z) (i : Z) : M (state (P := P) (X := X)) unit :=
  buf ← lift (aget mbufs i) ;
  handle buf ;;
  set_globs (fun g => set_burst_num (u64 (g_burst_num g + 1)) g).

Lemma burst_run mp mbufs ks : forall j n p (w : world P X) g vote,
  h_pools (w_heap w) !! mp = Some p -> pool_inv table o n p -> Z.of_nat (length ks) <= n ->
  burst_in mp (w_heap w) ks ->
  (forall i k, ks !! i = Some k -> mbufs !! (j + i)%nat = Some (pk_buf k)) ->
  vote_packets (g_array g) (g_vote g) (map pk_vote ks) = Some vote ->
  exists p' w' g', mfor (map Z.of_nat (seq j (length ks))) (burst_body mbufs) (w, g)
      = Some (tt, (w', g'))
    /\ h_pools (w_heap w') !! mp = Some p'
    /\ free_objs o p' ≡ₚ map pk_buf ks ++ free_objs o p
    /\ pool_inv table o (n - Z.of_nat (length ks)) p'
    /\ w_out w' = w_out w ++ burst_prints (g_total_num g) ks
    /\ g_array g' = g_array g /\ g_vote g' = vote
    /\ u64 (g_total_num g') = u64 (g_total_num g + Z.of_nat (length ks))
    /\ u64 (g_burst_num g') = u64 (g_burst_num g + Z.of_nat (length ks))
    /\ all_released ks (w_heap w) (w_heap w').
Proof.
  induction ks as [|k ks IH]; intros j n p w g vote Hp I Hn [HF HA] Hm Hv.
  { simpl in Hv. simplify_eq. exists p, w, g. simpl. rewrite Z.sub_0_r, !Z.add_0_r, app_nil_r.
    split; [done|]. split_and!; try done. split; [|done]. by intros k Hk%not_elem_of_nil. }
  apply Forall_cons in HF as [Hk HF]. inversion HA as [|? ? Hak HA']; subst.
  cbn [map vote_packets] in Hv. destruct (pk_vote k) as [idx value] eqn:Ek.
  destruct (vote_packet (g_array g) (g_vote g) idx value) as [v1|] eqn:Ev; [|done]. simpl in Hv.
  simpl length in Hn |- *.
  destruct (handle_run n mp p w g k v1 Hp I ltac:(lia) Hk) as (p1 & HR & Hf & I1); [by rewrite Ek|].
  set (w1 := mk_world _ _ _ _ _) in HR. set (g1 := mk_globals _ _ _ _ _) in HR.
  set (g2 := set_burst_num (u64 (g_burst_num g1 + 1)) g1).
  destruct (IH (Datatypes.S j) (n - 1) p1 w1 g2 vote)
    as (p' & w' & g' & HR' & Hp' & Hf' & I' & Ho & Ha & Hv' & Ht & Hbn & Hrel).
  - unfold w1. simpl. apply lookup_insert_eq.
  - done.
  - lia.
  - split; [|done]. rewrite Forall_forall in HF, Hak |- *. intros k' Hin.
    apply pkt_in_after; [by apply Hak|by apply HF].
  - intros i k' Hi. rewrite Nat.add_succ_comm. by apply Hm.
  - exact Hv.
  - exists p', w', g'. split.
    { cbn [seq map mfor].
      assert (aget mbufs (Z.of_nat j) = Some (pk_buf k)) as Eg.
      { apply aget_lookup. split; [lia|]. rewrite Nat2Z.id. rewrite <- (Nat.add_0_r j).
        by apply Hm. }
      rewrite (mbind_run _ _ (w, g) tt (w1, g2)); [exact HR'|].
      unfold burst_body. rewrite Eg.
      rewrite (mbind_run _ _ (w, g) (pk_buf k) (w, g)) by done.
      rewrite (mbind_run _ _ _ _ _ HR). done. }
    split; [done|]. split; [rewrite Hf', Hf; simpl; by rewrite Permutation_middle|].
    split; [by replace (n - Z.of_nat (Datatypes.S (length ks)))
              with (n - 1 - Z.of_nat (length ks)) by lia|].
    split; [rewrite Ho; unfold w1, g2; simpl; by rewrite app_assoc|].
    split; [done|]. split; [done|]. rewrite Ht, Hbn. unfold g2, g1. simpl.
    rewrite !wrap_add_l. split; [f_equal; lia|]. split; [f_equal; lia|].
    by apply (all_released_cons mp p1).
Qed.
End program.

(** C6. What [main] does with one burst of one queue, when the driver delivers
    [ks], at most 64 packets in mbufs of their own that are direct, in one piece
    and not shared, each with its two words and its string in memory, none of
    which is undefined in C++ ([vote_packets] gives a result: no index is negative
    where it may not be and no count overflows): every packet votes once, in
    order, with both words converted from network order;
    every mbuf returns to its pool with one reference, one segment and no
    successor, and no other mbuf changes; the two counters advance by the size of
    the burst; every tenth packet is printed, and the program goes on. *)
Theorem poll_queue_ok {P X : Type} (table : Z -> rte_mempool_ops P) (o : rte_mempool_ops P)
    `{LawfulOps P o} (lcore_id : Z) (ext_free : Z -> Z -> Z -> M (heap P) unit)
    (fp_ops : world P X -> list (rte_eth_fp_ops (world P X)))
    (call_rx : Z -> Z -> list Z -> Z -> Z -> Z -> M (world P X) (Z * list Z))
    (start2 end2 : Z) (uninit mbufs : list Z) (portid r mp n : Z) (p : rte_mempool P)
    (w w1 : world P X) (g : globals) (ks : list packet) (vote : list Z) :
  0 <= lcore_id ->
  rte_eth_rx_burst fp_ops call_rx portid r uninit BURST_SIZE w
    = Some (Z.of_nat (length ks), mbufs, w1) ->
  Z.of_nat (length ks) <= BURST_SIZE -> map pk_buf ks `prefix_of` mbufs ->
  h_pools (w_heap w1) !! mp = Some p -> pool_inv table o n p -> Z.of_nat (length ks) <= n ->
  burst_in mp (w_heap w1) ks ->
  vote_packets (g_array g) (g_vote g) (map pk_vote ks) = Some vote ->
  exists p' w' g',
    poll_queue table lcore_id ext_free fp_ops call_rx start2 end2 uninit portid r (w, g)
      = Some (None, (w', g'))
    /\ h_pools (w_heap w') !! mp = Some p'
    /\ free_objs o p' ≡ₚ map pk_buf ks ++ free_objs o p
    /\ pool_inv table o (n - Z.of_nat (length ks)) p'
    /\ w_out w' = w_out w1 ++ burst_prints start2 end2 (g_total_num g) ks
    /\ g_array g' = g_array g /\ g_vote g' = vote
    /\ u64 (g_total_num g') = u64 (g_total_num g + Z.of_nat (length ks))
    /\ u64 (g_burst_num g') = u64 (g_burst_num g + Z.of_nat (length ks))
    /\ all_released ks (w_heap w1) (w_heap w').
Proof.
  intros Hl Hrx Hmax [rest Em] Hp I Hn Hin Hv.
  destruct (burst_run table o lcore_id Hl ext_free start2 end2 mp mbufs ks 0 n p w1 g vote Hp I Hn Hin)
    as (p' & w' & g' & HR & HP); [|done|].
  - intros i k Hi. rewrite Em. simpl. rewrite lookup_app_l.
    + by rewrite list_lookup_fmap, Hi.
    + rewrite length_map. by eapply lookup_lt_Some.
  - exists p', w', g'. split; [|exact HP]. unfold poll_queue.
    rewrite (mbind_run _ _ (w, g) (Z.of_nat (length ks), mbufs) (w1, g))
      by (unfold on_world; simpl; by rewrite Hrx).
    rewrite Z.gtb_ltb, (proj2 (Z.ltb_ge BURST_SIZE (Z.of_nat (length ks)))) by lia.
    rewrite Nat2Z.id. by rewrite (mbind_run _ _ _ _ _ HR).
Qed.

(** ** An example burst: two packets for the cells 3 and 4, with short strings. *)
Definition demo_packet (a idx value : Z) (str : list Z) : packet :=
  mk_packet a (demo_mbuf a 0 10 10 1) (ntohl idx) (ntohl value) str.

Definition demo_bytes (k : packet) : list (Z * Z) :=
  imap (fun i b => (pk_addr k + Z.of_nat i, b))
    (word_bytes (pk_idx k) ++ word_bytes (pk_value k) ++ pk_str k ++ [0]).

Definition demo_burst : list packet := [demo_packet 1000 3 9 [104; 105]; demo_packet 7000 4 0 []].

Definition demo_world : world (list Z) unit :=
  mk_world (mk_heap (list_to_map (map (fun k => (pk_buf k, pk_mbuf k)) demo_burst)) ∅
              {[64 := demo_mempool]} ∅ ∅ (list_to_map (concat (map demo_bytes demo_burst))))
    tt [] 0 [].

Definition demo_rx_ops : rte_eth_fp_ops (world (list Z) unit) :=
  mk_fp_ops (fun _ _ _ => mret (2, [1000; 7000])) None None (mk_qdata [16] [0])
    (fun _ pkts n => mret (n, pkts)) None None (mk_qdata [16] [0]).

Ltac demo_pkt_in :=
  split; [split; try (vm_compute; reflexivity); try (vm_compute; discriminate)|];
  [ split_and!; try (vm_compute; reflexivity); by split
  | split_and!; try (vm_compute; reflexivity); by split
  | split; [|vm_compute; reflexivity];
    intros i c Hi; repeat (destruct i as [|i]; [vm_compute in Hi; simplify_eq;
      split; [vm_compute; reflexivity|lia]|]); vm_compute in Hi; done ].

Lemma demo_burst_in : burst_in 64 (w_heap demo_world) demo_burst.
Proof.
  split.
  - apply Forall_cons. split; [demo_pkt_in|]. apply Forall_cons. split; [demo_pkt_in|constructor].
  - apply FOP_cons; [|apply FOP_cons; constructor]. apply Forall_cons. split; [|constructor].
    split; [done|]. left. vm_compute. discriminate.
Qed.

Lemma poll_queue_ok_witness :
  exists w' g',
    poll_queue (fun _ => fifo_ops) 0 (fun _ _ _ => mret tt) (fun _ => [demo_rx_ops])
      (fun _ _ mbufs n _ _ => mret (n, mbufs)) 0 0 [] 0 0
      (demo_world, mk_globals (replicate 8 0) (replicate 8 0) 0 0 0) = Some (None, (w', g'))
    /\ g_vote g' = [0; 0; 0; 9; 1; 0; 0; 0] /\ u64 (g_total_num g') = 2.
Proof.
  destruct (poll_queue_ok (fun _ => fifo_ops) fifo_ops 0 (fun _ _ _ => mret tt)
    (fun _ => [demo_rx_ops]) (fun _ _ mbufs n _ _ => mret (n, mbufs)) 0 0 [] [1000; 7000] 0 0 64 3
    demo_mempool demo_world demo_world (mk_globals (replicate 8 0) (replicate 8 0) 0 0 0)
    demo_burst [0; 0; 0; 9; 1; 0; 0; 0]) as (p' & w' & g' & HR & _ & _ & _ & _ & _ & Hv & Ht & _ & _).
  - lia.
  - reflexivity.
  - vm_compute. discriminate.
  - by exists [].
  - vm_compute. reflexivity.
  - exact demo_pool_inv.
  - simpl. lia.
  - exact demo_burst_in.
  - vm_compute. reflexivity.
  - exists w', g'. split; [exact HR|]. split; [exact Hv|exact Ht].
Defined.

(** ** From the start to the loop *)

(** A library with which [main] starts: the EAL takes [taken] arguments, there is
    a port, the pool is at [mp], the clock runs. *)
Record starts {P X} (lib : lib_call -> world P X -> lib_answer * world P X) (taken mp : Z) : Prop := {
  st_eal w : a_ret (lib rte_eal_init w).1 = taken;
  st_ports w : 1 <= a_ret (lib rte_eth_dev_count_avail w).1 < 2 ^ 16;
  st_pool w n c p d s : a_ret (lib (rte_pktmbuf_pool_create n c p d s) w).1 = mp;
  st_clock w : 0 <= a_sec (lib clock_gettime w).1 < 2 ^ 33
    /\ 0 <= a_nsec (lib clock_gettime w).1 < 10 ^ 9
}.

Lemma ask_ret_run {P X} (lib : lib_call -> world P X -> lib_answer * world P X) c (w : world P X)
    (g : globals) :
  exists w', on_world (ask_ret lib c) (w, g) = Some (a_ret (lib c w).1, (w', g))
    /\ w_out w' = w_out w.
Proof.
  unfold on_world, ask_ret, ask, mbind, M_bind. simpl. destruct (lib c w) as [a w1]. eauto.
Qed.

Lemma get_time_run {P X} (lib : lib_call -> world P X -> lib_answer * world P X) (w : world P X) :
  0 <= a_sec (lib clock_gettime w).1 < 2 ^ 33 -> 0 <= a_nsec (lib clock_gettime w).1 < 10 ^ 9 ->
  exists ns w', Vote.get_time lib w = Some (ns, w') /\ w_out w' = w_out w.
Proof.
  intros Hs Hn. unfold Vote.get_time, World.get_time, ask, mbind, M_bind. destruct (lib clock_gettime w) as [a w1].
  simpl in Hs, Hn. unfold sint64.
  rewrite !(proj2 (Z.leb_le _ _)), !(proj2 (Z.ltb_lt _ _)) by lia. simpl.
  rewrite !(proj2 (Z.leb_le _ _)), !(proj2 (Z.ltb_lt _ _)) by lia. simpl. eauto.
Qed.

(** C40. Once the EAL, the ports and the pool are there, [main] always enters its
    receive loop on port 0: when [init_port] fails it says so, and polls the
    port all the same. *)
Theorem main_ignores_port_error {P X : Type} (table : Z -> rte_mempool_ops P) (lcore_id : Z)
    (ext_free : Z -> Z -> Z -> M (heap P) unit)
    (lib : lib_call -> world P X -> lib_answer * world P X)
    (fp_ops : world P X -> list (rte_eth_fp_ops (world P X)))
    (call_rx : Z -> Z -> list Z -> Z -> Z -> Z -> M (world P X) (Z * list Z))
    (start2 end2 : Z) (uninit : list Z) (argc taken mp : Z) (rounds : nat)
    (w : world P X) (g : globals) :
  starts lib taken mp -> 0 <= taken < argc -> mp <> NULL ->
  exists w1 ret w2 ns w3,
    Vote.init_port lib 0 mp w1 = Some (ret, w2)
    /\ w_out w3 = w_out w2 ++ (if ret =? 0 then [] else [OutPortInitError]) ++ [OutStart ns]
    /\ main table lcore_id ext_free lib fp_ops call_rx start2 end2 uninit argc rounds (w, g)
       = main_loop table lcore_id ext_free fp_ops call_rx start2 end2 uninit 0 rounds (w3, g).
Proof.
  intros [He Hp Hm Hc] Ht Hn. unfold main.
  destruct (ask_ret_run lib rte_eal_init w g) as (w1 & R1 & _). rewrite He in R1.
  rewrite (mbind_run _ _ _ _ _ R1). rewrite (proj2 (Z.ltb_ge taken 0)) by lia.
  rewrite (proj2 (Z.ltb_ge (argc - taken) 1)) by lia.
  destruct (ask_ret_run lib rte_eth_dev_count_avail w1 g) as (w2 & R2 & _).
  rewrite (mbind_run _ _ _ _ _ R2). specialize (Hp w1).
  rewrite wrap_small by (unfold fits; lia).
  rewrite (proj2 (Z.ltb_ge (a_ret (lib rte_eth_dev_count_avail w1).1) 1)) by lia.
  destruct (ask_ret_run lib rte_socket_id w2 g) as (w3 & R3 & _).
  rewrite (mbind_run _ _ _ _ _ R3). set (socket := a_ret _).
  destruct (ask_ret_run lib (rte_pktmbuf_pool_create NUM_MBUFS MBUF_CACHE_SIZE 0
    RTE_MBUF_DEFAULT_BUF_SIZE socket) w3 g) as (w4 & R4 & _). rewrite Hm in R4.
  rewrite (mbind_run _ _ _ _ _ R4). rewrite (proj2 (Z.eqb_neq mp NULL) Hn).
  destruct (does_init_port lib 0 mp 4 1 w4 ltac:(lia) ltac:(lia))
    as (ret & w5 & l & s & R5 & _). fold (Vote.init_port lib 0 mp) in R5.
  assert (on_world (Vote.init_port lib 0 mp) (w4, g) = Some (ret, (w5, g))) as R5'
    by (unfold on_world; simpl; by rewrite R5).
  cbv zeta. rewrite (mbind_run _ _ _ _ _ R5').
  set (w6 := mk_world (w_heap w5) (w_ext w5) (w_out w5 ++ if ret =? 0 then [] else [OutPortInitError])
               (w_new w5) (w_calls w5)).
  assert ((if negb (ret =? 0) then on_world (print OutPortInitError) else mret tt) (w5, g)
          = Some (tt, (w6, g))) as R6.
  { unfold w6. destruct (ret =? 0); [|done]. simpl. rewrite app_nil_r. by destruct w5. }
  rewrite (mbind_run _ _ _ _ _ R6).
  destruct (get_time_run lib w6) as (ns & w7 & R7 & O7); [apply Hc..|].
  assert (on_world (Vote.get_time lib) (w6, g) = Some (ns, (w7, g))) as R7'
    by (unfold on_world; simpl; by rewrite R7).
  rewrite (mbind_run _ _ _ _ _ R7').
  set (w8 := mk_world (w_heap w7) (w_ext w7) (w_out w7 ++ [OutStart ns]) (w_new w7) (w_calls w7)).
  rewrite (mbind_run _ _ _ tt (w8, g)) by done.
  exists w4, ret, w5, ns, w8. split; [exact R5|]. split; [|done].
  unfold w8. simpl. rewrite O7. unfold w6. simpl. by rewrite app_assoc.
Qed.

Lemma main_ignores_port_error_witness :
  exists w', main (fun _ => fifo_ops) 0 (fun _ _ _ => mret tt)
      (fun c w => (mk_answer (match c with rte_eth_dev_count_avail => 1
                              | rte_pktmbuf_pool_create _ _ _ _ _ => 64 | _ => 0 end)
                     (mk_dev_info 0 (mk_txconf [] 0)) 0 0 [] 1 2, w))
      (fun _ => [demo_rx_ops]) (fun _ _ mbufs n _ _ => mret (n, mbufs)) 0 0 [] 1 0
      (demo_world, mk_globals [] [] 0 0 0) = Some (Running, (w', mk_globals [] [] 0 0 0))
    /\ w_out w' = [OutPortInitError; OutStart 1000000002].
Proof.
  set (lib := fun (c : lib_call) (w : world (list Z) unit) => _).
  destruct (main_ignores_port_error (fun _ => fifo_ops) 0 (fun _ _ _ => mret tt) lib
    (fun _ => [demo_rx_ops]) (fun _ _ mbufs n _ _ => mret (n, mbufs)) 0 0 [] 1 0 64 0 demo_world
    (mk_globals [] [] 0 0 0)) as (w1 & ret & w2 & ns & w3 & _ & _ & HR).
  - split; intros; simpl; lia.
  - lia.
  - done.
  - exists w3. split; [exact HR|].
    apply (run_proj (fun r => w_out (fst (snd r))) _ _ _ HR). vm_compute. reflexivity.
Defined.
