(* ===== verification/Recv.v ===== *)
(** * The printing receiver ([main_pkt_recv.cpp]): every packet of the one receive
    queue is printed and released. *)
From stdpp Require Import prelude list numbers gmap.
From S2P Require Import Prelude Mempool MbufCore Bytes Mbuf MbufSpec MbufPool Ethdev World Port Vote VoteSpec.
Open Scope Z_scope.

Definition num_rx_queues : Z := 1.
Definition num_tx_queues : Z := 0.

Definition show_ip : Z -> list Z := World.show_ip.

(** The counters; the tables [array] and [vote] are not used. *)
Record counters := mk_counters {
  total_num : Z;
  burst_num : Z
}.

Section program.
Context {P X : Type} (table : Z -> rte_mempool_ops P) (lcore_id : Z).
Context (ext_free : Z -> Z -> Z -> M (heap P) unit).
Context (lib : lib_call -> world P X -> lib_answer * world P X).
Context (fp_ops : world P X -> list (rte_eth_fp_ops (world P X))).
Context (call_rx : Z -> Z -> list Z -> Z -> Z -> Z -> M (world P X) (Z * list Z)).
Context (uninit : list Z).

Definition state : Type := world P X * counters.

Definition on_world {A} (op : M (world P X) A) : M state A := fun s =>
  '(a, w) ← op s.1 ; Some (a, (w, s.2)).

Definition get_time : M (world P X) Z := World.get_time lib.

Definition init_port (port mbuf_pool : Z) : M (world P X) Z :=
  Port.init_port lib port mbuf_pool 1 1.

(** The body of the loop over the packets; the object of [new] is lost. *)
Definition handle_packet (buf : Z) : M (world P X) unit :=
  cxx_new ;;
  b ← on_heap (rd buf) ;
  let pkt := rte_pktmbuf_mtod_offset b 0 in
  idx ← on_heap (load32 (pkt_idx pkt)) ;
  value ← on_heap (load32 (pkt_value pkt)) ;
  print (OutPacket idx value) ;;
  on_heap (rte_pktmbuf_free table lcore_id ext_free buf).

Definition incr_burst_num : M state unit :=
  modify (fun s => (s.1, mk_counters (total_num s.2) (u64 (burst_num s.2 + 1)))).

Definition poll_queue (portid r : Z) : M state (option outcome) :=
  '(num_recv, mbufs) ← on_world (rte_eth_rx_burst fp_ops call_rx portid r uninit BURST_SIZE) ;
  if num_recv >? BURST_SIZE then mret (Some (Exited EXIT_FAILURE))
  else if num_recv =? 0 then mret None
  else
    on_world (print (OutReceived num_recv)) ;;
    mfor (map Z.of_nat (seq 0 (Z.to_nat num_recv))) (fun i =>
      buf ← lift (aget mbufs i) ;
      on_world (handle_packet buf) ;;
      incr_burst_num) ;;
    mret None.

(** [while (1)], observed for [rounds] rounds of the one queue. *)
Fixpoint main_loop (portid : Z) (rounds : nat) : M state outcome :=
  match rounds with
  | O => mret Running
  | Datatypes.S rounds' =>
      o ← poll_queue portid 0 ;
      match o with
      | Some e => mret e
      | None => main_loop portid rounds'
      end
  end.

Definition main (argc : Z) (rounds : nat) : M state outcome :=
  ret ← on_world (ask_ret lib rte_eal_init) ;
  if ret <? 0 then mret (Exited EXIT_FAILURE)
  else if argc - ret <? 1 then mret (Exited EXIT_FAILURE)
  else
    nb_sys_ports ← on_world (ask_ret lib rte_eth_dev_count_avail) ;
    if u16 nb_sys_ports <? 1 then mret (Exited EXIT_FAILURE)
    else
      socket ← on_world (ask_ret lib rte_socket_id) ;
      mbuf_pool ← on_world (ask_ret lib
        (rte_pktmbuf_pool_create NUM_MBUFS MBUF_CACHE_SIZE 0 RTE_MBUF_DEFAULT_BUF_SIZE socket)) ;
      if mbuf_pool =? NULL then mret (Exited EXIT_FAILURE)
      else
        let portid := 0 in
        ret ← on_world (init_port portid mbuf_pool) ;
        (if negb (ret =? 0) then on_world (print OutPortInitError) else mret tt) ;;
        start1 ← on_world get_time ;
        on_world (print (OutStart start1)) ;;
        main_loop portid rounds.
End program.

(** * Properties *)

Section properties.
Context {P X : Type} (table : Z -> rte_mempool_ops P) (o : rte_mempool_ops P) `{LawfulOps P o}.
Context (lcore_id : Z) (Hlcore : 0 <= lcore_id).
Context (ext_free : Z -> Z -> Z -> M (heap P) unit).

(** The heap when a packet has been released; the bytes are not changed. *)
Definition released_heap (mp : Z) (p : rte_mempool P) (k : packet) (h : heap P) : heap P :=
  with_pool_at mp p (set_h_mbufs (<[pk_buf k := released (pk_mbuf k)]> (h_mbufs h)) h).

Lemma on_heap_run {A} (op : M (heap P) A) (w : world P X) a h :
  op (w_heap w) = Some (a, h) -> on_heap op w = Some (a, set_heap h w).
Proof. intros E. unfold on_heap. by rewrite E. Qed.

Lemma handle_packet_run n mp p (w : world P X) k :
  h_pools (w_heap w) !! mp = Some p -> pool_inv table o n p -> 1 <= n -> pkt_words mp (w_heap w) k ->
  exists p', handle_packet table lcore_id ext_free (pk_buf k) w
    = Some (tt, mk_world (released_heap mp p' k (w_heap w)) (w_ext w)
                  (w_out w ++ [OutPacket (pk_idx k) (pk_value k)]) (w_new w + 1) (w_calls w))
    /\ free_objs o p' ≡ₚ pk_buf k :: free_objs o p /\ pool_inv table o (n - 1) p'.
Proof.
  intros Hp I Hn [Hb Hnn Hpool Hd Hr Hnx Hi Hv]. set (h := w_heap w) in *.
  destruct (free_one table o lcore_id Hlcore ext_free n mp p h (pk_buf k) (pk_mbuf k)
    Hp I Hn Hb Hpool Hd Hr Hnx Hnn) as (p' & HF & Hf & I').
  exists p'. split; [|done]. unfold handle_packet.
  set (w1 := mk_world h (w_ext w) (w_out w) (w_new w + 1) (w_calls w)).
  rewrite (mbind_run cxx_new _ w tt w1) by done.
  rewrite (mbind_run _ _ _ _ _ (on_heap_run (rd (pk_buf k)) w1 _ h (rd_run _ _ h Hb))).
  change (rte_pktmbuf_mtod_offset (pk_mbuf k) 0) with (pk_addr k). unfold pkt_idx, pkt_value.
  rewrite (mbind_run _ _ _ _ _ (on_heap_run (load32 _) (set_heap h w1) _ h (load32_run h _ _ Hi))).
  rewrite (mbind_run _ _ _ _ _ (on_heap_run (load32 _) (set_heap h (set_heap h w1)) _ h
    (load32_run h _ _ Hv))).
  set (w2 := mk_world h (w_ext w) (w_out w ++ [OutPacket (pk_idx k) (pk_value k)]) (w_new w + 1)
               (w_calls w)).
  rewrite (mbind_run (print _) _ _ tt w2) by done.
  by rewrite (on_heap_run _ w2 _ _ HF).
Qed.

Lemma pkt_words_released mp p' k k' h :
  pk_buf k <> pk_buf k' -> pkt_words mp h k' -> pkt_words mp (released_heap mp p' k h) k'.
Proof.
  intros Hne [Hb Hnn Hpool Hdir Hr Hnx Hi Hv]. split; try done.
  simpl. by rewrite lookup_insert_ne.
Qed.

Definition show_packet (k : packet) : output := OutPacket (pk_idx k) (pk_value k).

Definition recv_body (mbufs : list Z) (i : Z) : M (state (P := P) (X := X)) unit :=
  buf ← lift (aget mbufs i) ;
  on_world (handle_packet table lcore_id ext_free buf) ;;
  incr_burst_num.

Lemma recv_burst_run mp mbufs ks : forall j n p (w : world P X) c,
  h_pools (w_heap w) !! mp = Some p -> pool_inv table o n p -> Z.of_nat (length ks) <= n ->
  Forall (pkt_words mp (w_heap w)) ks -> NoDup (map pk_buf ks) ->
  (forall i k, ks !! i = Some k -> mbufs !! (j + i)%nat = Some (pk_buf k)) ->
  exists p' w' c', mfor (map Z.of_nat (seq j (length ks))) (recv_body mbufs) (w, c)
      = Some (tt, (w', c'))
    /\ h_pools (w_heap w') !! mp = Some p'
    /\ free_objs o p' ≡ₚ map pk_buf ks ++ free_objs o p
    /\ pool_inv table o (n - Z.of_nat (length ks)) p'
    /\ w_out w' = w_out w ++ map show_packet ks
    /\ w_new w' = w_new w + Z.of_nat (length ks)
    /\ h_bytes (w_heap w') = h_bytes (w_heap w)
    /\ total_num c' = total_num c
    /\ u64 (burst_num c') = u64 (burst_num c + Z.of_nat (length ks)).
Proof.
  induction ks as [|k ks IH]; intros j n p w c Hp I Hn HF HN Hm.
  { exists p, w, c. simpl. rewrite Z.sub_0_r, !Z.add_0_r, app_nil_r.
    split; [done|]. split_and!; done. }
  apply Forall_cons in HF as [Hk HF]. apply NoDup_cons in HN as [Hnk HN].
  simpl length in Hn |- *.
  destruct (handle_packet_run n mp p w k Hp I ltac:(lia) Hk) as (p1 & HR & Hf & I1).
  set (w1 := mk_world _ _ _ _ _) in HR.
  set (c1 := mk_counters (total_num c) (u64 (burst_num c + 1))).
  destruct (IH (Datatypes.S j) (n - 1) p1 w1 c1)
    as (p' & w' & c' & HR' & Hp' & Hf' & I' & Ho & Hw & Hby & Ht & Hbn).
  - unfold w1. simpl. apply lookup_insert_eq.
  - done.
  - lia.
  - rewrite Forall_forall in HF |- *. intros k' Hin. apply pkt_words_released; [|by apply HF].
    intros E. apply Hnk. rewrite E. by apply list_elem_of_fmap_2.
  - done.
  - intros i k' Hi. rewrite Nat.add_succ_comm. by apply Hm.
  - exists p', w', c'. split.
    { cbn [seq map mfor].
      assert (aget mbufs (Z.of_nat j) = Some (pk_buf k)) as Eg.
      { apply aget_lookup. split; [lia|]. rewrite Nat2Z.id. rewrite <- (Nat.add_0_r j).
        by apply Hm. }
      rewrite (mbind_run _ _ (w, c) tt (w1, c1)); [exact HR'|]. unfold recv_body. rewrite Eg.
      rewrite (mbind_run _ _ (w, c) (pk_buf k) (w, c)) by done.
      rewrite (mbind_run _ _ (w, c) tt (w1, c)); [done|]. unfold on_world. simpl fst.
      by rewrite HR. }
    split; [done|]. split; [rewrite Hf', Hf; simpl; by rewrite Permutation_middle|].
    split; [by replace (n - Z.of_nat (Datatypes.S (length ks)))
              with (n - 1 - Z.of_nat (length ks)) by lia|].
    split; [rewrite Ho; unfold w1; simpl; by rewrite <- app_assoc|].
    split; [rewrite Hw; unfold w1; simpl; lia|]. split; [done|]. split; [done|].
    rewrite Hbn. unfold c1. simpl. rewrite !wrap_add_l. f_equal. lia.
Qed.
End properties.

(** C31. What the printing receiver does with one burst, when the driver delivers
    [ks], at most 64 packets in distinct mbufs: their two words are printed in
    order, as they are in memory (no conversion), every mbuf returns to its
    pool, no byte is written, and one object per packet is allocated and
    lost. *)
Theorem recv_poll_ok {P X : Type} (table : Z -> rte_mempool_ops P) (o : rte_mempool_ops P)
    `{LawfulOps P o} (lcore_id : Z) (ext_free : Z -> Z -> Z -> M (heap P) unit)
    (fp_ops : world P X -> list (rte_eth_fp_ops (world P X)))
    (call_rx : Z -> Z -> list Z -> Z -> Z -> Z -> M (world P X) (Z * list Z))
    (uninit mbufs : list Z) (portid r mp n : Z) (p : rte_mempool P)
    (w w1 : world P X) (c : counters) (ks : list packet) :
  0 <= lcore_id -> ks <> [] ->
  rte_eth_rx_burst fp_ops call_rx portid r uninit BURST_SIZE w
    = Some (Z.of_nat (length ks), mbufs, w1) ->
  Z.of_nat (length ks) <= BURST_SIZE -> map pk_buf ks `prefix_of` mbufs ->
  h_pools (w_heap w1) !! mp = Some p -> pool_inv table o n p -> Z.of_nat (length ks) <= n ->
  Forall (pkt_words mp (w_heap w1)) ks -> NoDup (map pk_buf ks) ->
  exists p' w' c',
    poll_queue table lcore_id ext_free fp_ops call_rx uninit portid r (w, c) = Some (None, (w', c'))
    /\ h_pools (w_heap w') !! mp = Some p'
    /\ free_objs o p' ≡ₚ map pk_buf ks ++ free_objs o p
    /\ w_out w' = w_out w1 ++ OutReceived (Z.of_nat (length ks)) :: map show_packet ks
    /\ w_new w' = w_new w1 + Z.of_nat (length ks)
    /\ h_bytes (w_heap w') = h_bytes (w_heap w1)
    /\ u64 (burst_num c') = u64 (burst_num c + Z.of_nat (length ks)).
Proof.
  intros Hl Hne Hrx Hmax [rest Em] Hp I Hn Hin HN.
  set (w2 := mk_world (w_heap w1) (w_ext w1) (w_out w1 ++ [OutReceived (Z.of_nat (length ks))])
               (w_new w1) (w_calls w1)).
  destruct (recv_burst_run table o lcore_id Hl ext_free mp mbufs ks 0 n p w2 c Hp I Hn Hin HN)
    as (p' & w' & c' & HR & Hp' & Hf & _ & Ho & Hw & Hby & _ & Hb).
  - intros i k Hi. rewrite Em. simpl. rewrite lookup_app_l.
    + by rewrite list_lookup_fmap, Hi.
    + rewrite length_map. by eapply lookup_lt_Some.
  - exists p', w', c'. split.
    + unfold poll_queue. rewrite (mbind_run _ _ (w, c) (Z.of_nat (length ks), mbufs) (w1, c))
        by (unfold on_world; simpl; by rewrite Hrx).
      rewrite Z.gtb_ltb, (proj2 (Z.ltb_ge BURST_SIZE (Z.of_nat (length ks)))) by lia.
      rewrite (proj2 (Z.eqb_neq (Z.of_nat (length ks)) 0)) by (destruct ks; simpl in *; [done|lia]).
      rewrite (mbind_run _ _ (w1, c) tt (w2, c)) by done.
      rewrite Nat2Z.id. by rewrite (mbind_run _ _ _ _ _ HR).
    + split; [done|]. split; [done|]. rewrite Ho. unfold w2. simpl. by rewrite <- app_assoc.
Qed.

Lemma recv_poll_ok_witness :
  exists w' c',
    poll_queue (fun _ => fifo_ops) 0 (fun _ _ _ => mret tt) (fun _ => [demo_rx_ops])
      (fun _ _ mbufs n _ _ => mret (n, mbufs)) [] 0 0 (demo_world, mk_counters 0 0)
      = Some (None, (w', c'))
    /\ w_out w' = [OutReceived 2; OutPacket 50331648 150994944; OutPacket 67108864 0].
Proof.
  destruct (recv_poll_ok (fun _ => fifo_ops) fifo_ops 0 (fun _ _ _ => mret tt)
    (fun _ => [demo_rx_ops]) (fun _ _ mbufs n _ _ => mret (n, mbufs)) [] [1000; 7000] 0 0 64 3
    demo_mempool demo_world demo_world (mk_counters 0 0) demo_burst)
    as (p' & w' & c' & HR & _ & _ & Ho & _).
  - lia.
  - done.
  - reflexivity.
  - vm_compute. discriminate.
  - by exists [].
  - vm_compute. reflexivity.
  - exact demo_pool_inv.
  - simpl. lia.
  - eapply Forall_impl; [exact (proj1 demo_burst_in)|]. intros k Hk. apply Hk.
  - apply (bool_decide_unpack _). vm_compute. exact I.
  - exists w', c'. split; [exact HR|]. rewrite Ho. vm_compute. reflexivity.
Defined.
