(* ===== verification/Send.v ===== *)
(** * The sender ([main_pkt_send.cpp]).

    Each lcore runs [packet_send_process]: rounds of 64 packets with a fixed
    content, given to the driver; what the driver does not take is released.
    [mbuf_pool] and the two arrays of counters are globals. *)
From stdpp Require Import prelude list numbers gmap.
From S2P Require Import Prelude Mempool MbufCore Bytes Mbuf Ethdev World Port.
Open Scope Z_scope.

Definition MAX_CORES : Z := 40.

Record send_config := mk_config {
  port_id : Z;
  queues : list Z;
  cores : list Z
}.

Record send_globals := mk_send_globals {
  mbuf_pool : Z;
  total_num : list Z;
  burst_num : list Z
}.

Definition send_globals_init (mp : Z) : send_globals :=
  mk_send_globals mp (replicate (Z.to_nat MAX_CORES) 0) (replicate (Z.to_nat MAX_CORES) 0).

Section program.
Context {P X : Type} (table : Z -> rte_mempool_ops P).
Context (ext_free : Z -> Z -> Z -> M (heap P) unit).
Context (lib : lib_call -> world P X -> lib_answer * world P X).
Context (fp_ops : world P X -> list (rte_eth_fp_ops (world P X))).
Context (call_tx : Z -> Z -> list Z -> Z -> Z -> M (world P X) (Z * list Z)).

Definition state : Type := world P X * send_globals.

Definition on_world {A} (op : M (world P X) A) : M state A := fun s =>
  '(a, w) ← op s.1 ; Some (a, (w, s.2)).

Definition on_memory {A} (op : M (heap P) A) : M state A := on_world (on_heap op).

Definition init_port (port mbuf_pool rx_queues tx_queues : Z) : M (world P X) Z :=
  Port.init_port lib port mbuf_pool (u16 rx_queues) (u16 tx_queues).

(** The body of the loop that fills the burst: the new contents of [bufs], or
    [None] when the allocation failed and the process returns. *)
Definition fill_buf (lcore i : Z) (bufs : list Z) : M state (option (list Z)) :=
  g ← gets snd ;
  m ← on_memory (rte_pktmbuf_alloc table lcore (mbuf_pool g)) ;
  bufs ← lift (aset bufs i m) ;
  if m =? NULL then
    on_world (print OutAllocFailed) ;;
    mret None
  else
    b ← on_memory (rd m) ;
    let pkt := rte_pktmbuf_mtod b in
    on_memory (store32 (pkt_idx pkt) 114) ;;
    on_memory (store32 (pkt_value pkt) 514) ;;
    on_memory (upd m (set_data_len (u16 sizeof_my_pkt))) ;;
    b ← on_memory (rd m) ;
    on_memory (upd m (set_pkt_len (data_len b))) ;;
    mret (Some bufs).

(** [for (int i = 0; i < BURST_SIZE; i++)], [n] buffers left. *)
Fixpoint fill_bufs (lcore : Z) (n : nat) (bufs : list Z) : M state (option (list Z)) :=
  match n with
  | O => mret (Some bufs)
  | Datatypes.S n' =>
      o ← fill_buf lcore (BURST_SIZE - Z.of_nat n) bufs ;
      match o with
      | Some bufs => fill_bufs lcore n' bufs
      | None => mret None
      end
  end.

(** Release [bufs[i]] for [i] from [from] on, [n] of them. *)
Definition free_bufs (lcore from : Z) (n : nat) (bufs : list Z) : M state unit :=
  mfor (seq 0 n) (fun i =>
    m ← lift (aget bufs (from + Z.of_nat i)) ;
    on_memory (rte_pktmbuf_free table lcore ext_free m)).

(** [total_num[core_id] += nb_tx; burst_num[core_id]++]. *)
Definition count_burst (core_id nb_tx : Z) : M state unit :=
  g ← gets snd ;
  t ← lift (aget (total_num g) core_id) ;
  total ← lift (aset (total_num g) core_id (u32 (t + nb_tx))) ;
  b ← lift (aget (burst_num g) core_id) ;
  burst ← lift (aset (burst_num g) core_id (u32 (b + 1))) ;
  modify (fun s => (s.1, mk_send_globals (mbuf_pool g) total burst)).

(** One round of [while (1)]: [None] when the process returns -1, and otherwise
    the contents of [bufs] for the next round. *)
Definition send_round (core_id port queue_id : Z) (bufs : list Z) : M state (option (list Z)) :=
  o ← fill_bufs core_id (Z.to_nat BURST_SIZE) bufs ;
  match o with
  | None => mret None
  | Some bufs =>
      '(nb_tx, bufs) ← on_world (rte_eth_tx_burst fp_ops call_tx (u16 port) (u16 queue_id) bufs BURST_SIZE) ;
      (if nb_tx <? BURST_SIZE then
         free_bufs core_id nb_tx (Z.to_nat (BURST_SIZE - nb_tx)) bufs
       else mret tt) ;;
      count_burst core_id nb_tx ;;
      mret (Some bufs)
  end.

(** The process, observed for [rounds] rounds; the object of [new] is lost. *)
Fixpoint send_loop (core_id port queue_id : Z) (bufs : list Z) (rounds : nat) : M state outcome :=
  match rounds with
  | O => mret Running
  | Datatypes.S rounds' =>
      o ← send_round core_id port queue_id bufs ;
      match o with
      | Some bufs => send_loop core_id port queue_id bufs rounds'
      | None => mret (Returned (-1))
      end
  end.

Definition packet_send_process (core_id : Z) (config : send_config) (uninit : list Z)
    (rounds : nat) : M state outcome :=
  on_world cxx_new ;;
  queue_id ← lift (aget (queues config) core_id) ;
  on_world (print (OutCore core_id queue_id)) ;;
  send_loop core_id (port_id config) queue_id uninit rounds.

(** The configuration [main] builds: as many queues as cores. *)
Definition make_config (num_cores num_tx_queues portid : Z) : send_config :=
  mk_config portid (map (fun i => Z.of_nat i mod num_tx_queues) (seq 0 (Z.to_nat num_tx_queues)))
    (map Z.of_nat (seq 0 (Z.to_nat num_cores))).

(** [main] until the processes are launched: the pool and the configuration. *)
Definition main_setup (argc : Z) : M (world P X) (outcome + Z * send_config) :=
  ret ← ask_ret lib rte_eal_init ;
  if ret <? 0 then mret (inl (Exited EXIT_FAILURE))
  else if argc - ret <? 1 then mret (inl (Exited EXIT_FAILURE))
  else
    nb_sys_ports ← ask_ret lib rte_eth_dev_count_avail ;
    if u16 nb_sys_ports <? 1 then mret (inl (Exited EXIT_FAILURE))
    else
      socket ← ask_ret lib rte_socket_id ;
      mbuf_pool ← ask_ret lib
        (rte_pktmbuf_pool_create NUM_MBUFS MBUF_CACHE_SIZE 0 RTE_MBUF_DEFAULT_BUF_SIZE socket) ;
      if mbuf_pool =? NULL then mret (inl (Exited EXIT_FAILURE))
      else
        used_cores ← ask_ret lib rte_lcore_count ;
        print (OutUsedCores used_cores) ;;
        let portid := 0 in
        ret ← init_port portid mbuf_pool used_cores used_cores ;
        (if negb (ret =? 0) then print OutPortInitError else mret tt) ;;
        mret (inr (mbuf_pool, make_config used_cores used_cores portid)).

(** ** The lcores together

    The processes of the lcores share the state.  Their rounds are interleaved
    in any order; an lcore whose allocation failed has returned. *)
Record lcore := mk_lcore {
  lc_id : Z;
  lc_queue : Z;
  lc_bufs : list Z;
  lc_running : bool
}.

Inductive sys_step (port : Z) : state * list lcore -> state * list lcore -> Prop :=
  | step_round s s' ls i c bufs :
      ls !! i = Some c -> lc_running c = true ->
      send_round (lc_id c) port (lc_queue c) (lc_bufs c) s = Some (Some bufs, s') ->
      sys_step port (s, ls) (s', <[i := mk_lcore (lc_id c) (lc_queue c) bufs true]> ls)
  | step_return s s' ls i c :
      ls !! i = Some c -> lc_running c = true ->
      send_round (lc_id c) port (lc_queue c) (lc_bufs c) s = Some (None, s') ->
      sys_step port (s, ls) (s', <[i := mk_lcore (lc_id c) (lc_queue c) (lc_bufs c) false]> ls).
End program.
