(* ===== verification/SendSpec.v ===== *)
(** * Properties of the sender: no mbuf is lost by a round, every frame on the
    wire is the fixed packet, and what a failed allocation leaks. *)
From stdpp Require Import prelude list numbers gmap.
From S2P Require Import Prelude Mempool MbufCore Bytes Mbuf MbufSpec MbufPool Ethdev World Port Vote VoteSpec Send.
Open Scope Z_scope.

(** The data of the segment at [a], as the device reads it. *)
Definition frame {P} (h : heap P) (a : Z) : list Z :=
  match h_mbufs h !! a with
  | Some b => map (fun i => default 0 (h_bytes h !! (rte_pktmbuf_mtod b + Z.of_nat i)))
                (seq 0 (Z.to_nat (data_len b)))
  | None => []
  end.

(** The packet the sender writes. *)
Definition the_frame : list Z := word_bytes 114 ++ word_bytes 514.

Section spec.
Context {P X : Type} (table : Z -> rte_mempool_ops P) (o : rte_mempool_ops P) `{LawfulOps P o}.
Context (ext_free : Z -> Z -> Z -> M (heap P) unit).
Context (fp_ops : world P X -> list (rte_eth_fp_ops (world P X))).
Context (call_tx : Z -> Z -> list Z -> Z -> Z -> M (world P X) (Z * list Z)).
(** The pool, its mbufs and the address of the buffer of each. *)
Context (mp : Z) (universe : list Z) (buf : Z -> Z).
(** What the device holds, and what it has put on the wire. *)
Context (owned : X -> list Z) (wire : X -> list (list Z)).
Context (Huniv : NoDup universe).

Implicit Types (w : world P X) (h : heap P) (app : list Z).

(** A usable mbuf: direct, in one piece, not shared, with room for the packet. *)
Record ready h (a : Z) : Prop := {
  rd_nonnull : a <> NULL;
  rd_mbuf : exists b, h_mbufs h !! a = Some b /\ pool b = mp /\ buf_addr b = buf a
    /\ RTE_MBUF_DIRECT b = true /\ refcnt b = 1 /\ 136 <= buf_len b < 2 ^ 16;
  rd_addr : 0 <= buf a /\ buf a + 136 < 2 ^ 64;
  rd_bytes : mapped h (buf a + 128) 8
}.

(** The buffers of distinct mbufs do not overlap. *)
Definition separate : Prop :=
  forall a a', a ∈ universe -> a' ∈ universe -> a <> a' -> buf a + 8 <= buf a' \/ buf a' + 8 <= buf a.

(** Every mbuf is in exactly one place: free, held by the device, or held by the
    program ([app]). *)
Definition accounts w app : Prop :=
  exists p, h_pools (w_heap w) !! mp = Some p
    /\ pool_inv table o (Z.of_nat (length (owned (w_ext w) ++ app))) p
    /\ universe ≡ₚ free_objs o p ++ owned (w_ext w) ++ app
    /\ Forall (ready (w_heap w)) universe.

(** An mbuf that carries the packet. *)
Record prepared h (a : Z) : Prop := {
  pr_mbuf : exists b, h_mbufs h !! a = Some b /\ next b = NULL /\ data_off b = 128
    /\ data_len b = 8 /\ pkt_len b = 8 /\ nb_segs b = 1;
  pr_idx : word_at (h_bytes h) (buf a + 128) 114;
  pr_value : word_at (h_bytes h) (buf a + 132) 514
}.

(** The documented behaviour of the transmit side of the device, for single
    segments: it takes a first part of the burst and transmits it; the others
    stay with the program, unchanged.  It may also release mbufs it held. *)
Class LawfulNic (port queue : Z) := {
  nic_law w bufs app :
    accounts w (bufs ++ app) -> Forall (prepared (w_heap w)) bufs ->
    exists k w', rte_eth_tx_burst fp_ops call_tx port queue bufs (Z.of_nat (length bufs)) w
        = Some (k, bufs, w')
      /\ 0 <= k <= Z.of_nat (length bufs)
      /\ accounts w' (drop (Z.to_nat k) bufs ++ app)
      /\ Forall (prepared (w_heap w')) (drop (Z.to_nat k) bufs)
      /\ wire (w_ext w') = wire (w_ext w) ++ map (frame (w_heap w)) (take (Z.to_nat k) bufs)
}.

Lemma frame_prepared h a : ready h a -> prepared h a -> frame h a = the_frame.
Proof.
  intros [_ (b & Hb & _ & Ha & _) Hr _] [(b' & Hb' & _ & Ho & Hl & _) Hi Hv]. simplify_eq.
  unfold frame. rewrite Hb, Hl. unfold rte_pktmbuf_mtod, rte_pktmbuf_mtod_offset.
  rewrite Ho, Ha, Z.add_0_r, wrap_small by (unfold fits; lia).
  destruct Hi as (_ & H0 & H1 & H2 & H3). destruct Hv as (_ & H4 & H5 & H6 & H7).
  change (Z.to_nat 8) with 8%nat. cbn [seq map]. rewrite Z.add_0_r, H0.
  change (Z.of_nat 1) with 1. rewrite H1. change (Z.of_nat 2) with 2. rewrite H2.
  change (Z.of_nat 3) with 3. rewrite H3.
  replace (buf a + 128 + Z.of_nat 4) with (buf a + 132) by lia. rewrite H4.
  replace (buf a + 128 + Z.of_nat 5) with (buf a + 132 + 1) by lia. rewrite H5.
  replace (buf a + 128 + Z.of_nat 6) with (buf a + 132 + 2) by lia. rewrite H6.
  replace (buf a + 128 + Z.of_nat 7) with (buf a + 132 + 3) by lia. rewrite H7. done.
Qed.
(** ** Bookkeeping *)

Lemma accounts_perm w app app' : app ≡ₚ app' -> accounts w app -> accounts w app'.
Proof.
  intros HP (p & Hp & I & HU & HR). exists p. split; [done|].
  split; [by rewrite <- HP|]. split; [by rewrite <- HP|done].
Qed.

Lemma mapped_put h a n x v :
  mapped h a n -> mapped (set_h_bytes (put_word x v (h_bytes h)) h) a n.
Proof.
  intros Hm i Hi. specialize (Hm i Hi). unfold put_word. simpl.
  rewrite !lookup_insert_is_Some'. auto.
Qed.

(** The mbuf and the heap after a buffer has been filled. *)
Definition filled (b : rte_mbuf) : rte_mbuf := set_pkt_len 8 (set_data_len 8 (reset_fields b)).

Definition filled_heap (p : rte_mempool P) (m : Z) (b : rte_mbuf) h : heap P :=
  set_h_bytes (put_word (buf m + 132) 514 (put_word (buf m + 128) 114 (h_bytes h)))
    (set_h_mbufs (<[m := filled b]> (h_mbufs h)) (with_pool_at mp p h)).

Lemma filled_direct b : RTE_MBUF_DIRECT b = true -> RTE_MBUF_DIRECT (filled b) = true.
Proof.
  unfold RTE_MBUF_DIRECT, truthy. intros Hd. apply negb_true_iff, negb_false_iff, Z.eqb_eq in Hd.
  change (ol_flags (filled b)) with (Z.land (ol_flags b) RTE_MBUF_F_EXTERNAL).
  rewrite <- Z.land_assoc, (Z.land_comm RTE_MBUF_F_EXTERNAL), Z.land_assoc, Hd. done.
Qed.

Lemma ready_filled p m b h a :
  h_mbufs h !! m = Some b -> ready h m -> ready h a -> ready (filled_heap p m b h) a.
Proof.
  intros Hb [_ (b0 & Hb0 & Hp & Ha & Hd & Hr & Hl) _ _] [Hn (b1 & Hb1 & H1) Hadr Hby].
  assert (b0 = b) as -> by congruence. split; [done| |done|].
  - unfold filled_heap. simpl. destruct (decide (a = m)) as [->|].
    + exists (filled b). rewrite lookup_insert_eq. split; [done|]. split; [done|]. split; [done|].
      split; [by apply filled_direct|]. done.
    + exists b1. by rewrite lookup_insert_ne.
  - unfold filled_heap. by do 2 apply (mapped_put (set_h_bytes _ h)); try apply (mapped_put h).
Qed.

Lemma prepared_filled p m b h :
  ready h m -> h_mbufs h !! m = Some b -> prepared (filled_heap p m b h) m.
Proof.
  intros [_ (b0 & Hb0 & _ & _ & _ & _ & Hl) _ _] Hb. assert (b0 = b) as -> by congruence. split.
  - exists (filled b). unfold filled_heap. simpl. rewrite lookup_insert_eq.
    split; [done|]. split; [done|]. split; [|done]. simpl. unfold RTE_PKTMBUF_HEADROOM. lia.
  - simpl. apply word_at_ne; [by apply put_word_fits|lia].
  - simpl. by apply put_word_fits.
Qed.

Lemma prepared_other p m b h a :
  separate -> a ∈ universe -> m ∈ universe -> a <> m ->
  prepared h a -> prepared (filled_heap p m b h) a.
Proof.
  intros HS Ha Hm Hne [(b1 & Hb1 & H1) Hi Hv]. destruct (HS a m Ha Hm Hne); (split;
    [exists b1; unfold filled_heap; simpl; by rewrite lookup_insert_ne
    |simpl; do 2 (apply word_at_ne; [|lia]); done
    |simpl; do 2 (apply word_at_ne; [|lia]); done]).
Qed.

(** ** Filling the burst *)

Lemma send_memory_run {A} (op : M (heap P) A) w (g : send_globals) a h :
  op (w_heap w) = Some (a, h) -> Send.on_memory op (w, g) = Some (a, (set_heap h w, g)).
Proof. intros E. unfold Send.on_memory, Send.on_world, on_heap. simpl. by rewrite E. Qed.

Lemma fill_run p m b w (g : send_globals) core i bufs h0 :
  w_heap w = h0 -> mbuf_pool g = mp -> 0 <= i < Z.of_nat (length bufs) -> m <> NULL ->
  h_mbufs h0 !! m = Some b -> ready h0 m ->
  rte_pktmbuf_alloc table core mp h0
    = Some (m, set_h_mbufs (<[m := reset_fields b]> (h_mbufs h0)) (with_pool_at mp p h0)) ->
  fill_buf table core i bufs (w, g)
  = Some (Some (<[Z.to_nat i := m]> bufs), (set_heap (filled_heap p m b h0) w, g)).
Proof.
  intros <- Hg Hi Hn Hb [_ (b0 & Hb0 & _ & Ha & _ & _ & Hl) Hadr Hby] HA.
  assert (b0 = b) as -> by congruence.
  set (h := w_heap w) in *. set (h1 := set_h_mbufs _ (with_pool_at _ p h)) in HA.
  set (a := buf m + 128). set (h2 := set_h_bytes (put_word a 114 (h_bytes h)) h1).
  set (h3 := set_h_bytes (put_word (a + 4) 514 (put_word a 114 (h_bytes h))) h1).
  assert (rte_pktmbuf_mtod (reset_fields b) = a) as Em.
  { unfold rte_pktmbuf_mtod, rte_pktmbuf_mtod_offset. simpl. unfold RTE_PKTMBUF_HEADROOM.
    rewrite Ha, Z.min_l, Z.add_0_r by lia. apply wrap_small. unfold fits. lia. }
  assert (forall hx : heap P, h_mbufs hx = h_mbufs h1 -> h_mbufs hx !! m = Some (reset_fields b)) as Hl1
    by (intros hx ->; apply lookup_insert_eq).
  assert (mapped h1 a 4) as M1 by (intros j Hj; apply Hby; lia).
  assert (mapped h2 (a + 4) 4) as M2.
  { apply (mapped_put h1). intros j Hj. replace (a + 4 + Z.of_nat j) with (a + Z.of_nat (4 + j)) by lia.
    apply Hby. lia. }
  unfold fill_buf. rewrite (mbind_run (gets snd) _ _ g (w, g)) by done.
  rewrite Hg.
  rewrite (mbind_run _ _ _ _ _ (send_memory_run _ w g m h1 HA)). rewrite aset_ok by lia.
  set (w1 := set_heap h1 w). rewrite (mbind_run _ _ (w1, g) _ (w1, g)) by done.
  rewrite (proj2 (Z.eqb_neq m NULL) Hn).
  rewrite (mbind_run _ _ _ _ _ (send_memory_run (rd m) w1 g _ h1 (rd_run _ _ h1 (Hl1 h1 eq_refl)))).
  cbv zeta. rewrite Em. unfold pkt_idx, pkt_value.
  rewrite (mbind_run _ _ _ _ _ (send_memory_run (store32 a 114) (set_heap h1 w1) g tt h2
    (store32_run h1 a 114 M1))).
  rewrite (mbind_run _ _ _ _ _ (send_memory_run (store32 (a + 4) 514) (set_heap h2 (set_heap h1 w1)) g
    tt h3 (store32_run h2 (a + 4) 514 M2))).
  set (w3 := set_heap h3 _). change (u16 sizeof_my_pkt) with 8.
  rewrite (mbind_run _ _ _ _ _ (send_memory_run (upd m (set_data_len 8)) w3 g tt _
    (upd_run m _ _ h3 (Hl1 h3 eq_refl)))).
  set (h4 := set_h_mbufs _ h3). set (w4 := set_heap h4 w3).
  assert (h_mbufs h4 !! m = Some (set_data_len 8 (reset_fields b))) as Hl4 by apply lookup_insert_eq.
  rewrite (mbind_run _ _ _ _ _ (send_memory_run (rd m) w4 g _ h4 (rd_run _ _ h4 Hl4))).
  rewrite (mbind_run _ _ _ _ _ (send_memory_run (upd m _) (set_heap h4 w4) g tt _
    (upd_run m _ _ h4 Hl4))).
  match goal with |- mret _ (set_heap ?hf _, _) = _ => assert (hf = filled_heap p m b h) as -> end;
    [|done].
  unfold filled_heap, h4, h3, h1, set_h_mbufs, set_h_bytes. simpl. rewrite !insert_insert_eq.
  unfold a. by replace (buf m + 128 + 4) with (buf m + 132) by lia.
Qed.
Lemma ready_ext h h' a :
  h_mbufs h' = h_mbufs h -> h_bytes h' = h_bytes h -> ready h a -> ready h' a.
Proof.
  intros E1 E2 [Hn (b & Hb & HP) Ha Hm]. split; try done.
  - exists b. by rewrite E1.
  - intros i Hi. rewrite E2. by apply Hm.
Qed.

Lemma in_universe w app p a :
  universe ≡ₚ free_objs o p ++ owned (w_ext w) ++ app ->
  a ∈ free_objs o p \/ a ∈ app -> a ∈ universe.
Proof. intros -> [?|?]; rewrite !elem_of_app; auto. Qed.

(** The common pool of the mempool has no free mbuf left. *)
Definition exhausted w : Prop :=
  exists p, h_pools (w_heap w) !! mp = Some p /\ pool_objs (pool_data p) = [].

(** One buffer: either it is filled, and is the program's, or the pool was empty. *)
Lemma fill_buf_ok core i bufs w (g : send_globals) app :
  separate -> 0 <= core -> mbuf_pool g = mp -> 0 <= i < Z.of_nat (length bufs) -> accounts w app ->
  (exists w', fill_buf table core i bufs (w, g) = Some (None, (w', g))
     /\ accounts w' app /\ exhausted w' /\ w_ext w' = w_ext w)
  \/ (exists m w', fill_buf table core i bufs (w, g) = Some (Some (<[Z.to_nat i := m]> bufs), (w', g))
     /\ accounts w' (m :: app) /\ w_ext w' = w_ext w /\ prepared (w_heap w') m
     /\ forall a, a ∈ app -> prepared (w_heap w) a -> prepared (w_heap w') a).
Proof.
  intros HS Hc Hg Hi (p & Hp & I & HU & HR). rewrite Forall_forall in HR.
  assert (mbufs_of (w_heap w) (free_objs o p)) as Hm.
  { intros a Ha. destruct (HR a) as [Hn (b & Hb & _ & _ & _ & _ & Hl) _ _];
      [by eapply in_universe; [exact HU|left]|].
    split; [done|]. exists b. split; [done|]. unfold fits. lia. }
  destruct (alloc_run table o core Hc _ mp p (w_heap w) Hp I Hm) as (m & p' & h' & HA & HP).
  destruct HP as [(-> & -> & Hf & I' & Hex)|(Hn & Hf & I' & b & Hb & ->)].
  - left. set (h1 := with_pool_at mp p' (w_heap w)) in *.
    exists (mk_world h1 (w_ext w) (w_out w ++ [OutAllocFailed]) (w_new w) (w_calls w)).
    split; [|split; [|split; [exists p'; split; [apply lookup_insert_eq|done]|done]]].
    + unfold fill_buf. rewrite (mbind_run (gets snd) _ _ g (w, g)) by done. rewrite Hg.
      rewrite (mbind_run _ _ _ _ _ (send_memory_run _ w g NULL h1 HA)). by rewrite aset_ok by lia.
    + exists p'. simpl. split; [apply lookup_insert_eq|]. split; [done|]. split; [by rewrite Hf|].
      apply Forall_forall. intros a Ha. by apply (ready_ext (w_heap w)), HR.
  - right. assert (m ∈ universe) as Hmu by (rewrite HU, Hf; by left).
    exists m, (set_heap (filled_heap p' m b (w_heap w)) w).
    split; [by apply fill_run; try done; apply HR|]. split; [|split; [done|split]].
    + exists p'. simpl. split; [apply lookup_insert_eq|]. split; [|split].
      * replace (Z.of_nat (length (owned (w_ext w) ++ m :: app)))
          with (Z.of_nat (length (owned (w_ext w) ++ app)) + 1); [done|].
        rewrite !length_app. simpl. lia.
      * rewrite HU, Hf. simpl. rewrite (assoc_L (++)), Permutation_middle. by rewrite (assoc_L (++)).
      * apply Forall_forall. intros a Ha. apply ready_filled; auto.
    + apply prepared_filled; auto.
    + intros a Ha. apply prepared_other; try done.
      * by eapply in_universe; [exact HU|right].
      * intros ->. pose proof Huniv as Hnd. rewrite HU, Hf in Hnd. simpl in Hnd.
        apply NoDup_cons in Hnd as [Hnd _]. apply Hnd. rewrite !elem_of_app. auto.
Qed.

Lemma fill_bufs_ok core n : forall taken rest w (g : send_globals) held,
  separate -> 0 <= core -> mbuf_pool g = mp -> (length taken + n = 64)%nat ->
  length (taken ++ rest) = 64%nat ->
  accounts w (taken ++ held) -> Forall (prepared (w_heap w)) taken ->
  (exists taken' w', fill_bufs table core n (taken ++ rest) (w, g) = Some (None, (w', g))
     /\ (length taken' < 64)%nat /\ accounts w' (taken' ++ held) /\ exhausted w'
     /\ w_ext w' = w_ext w)
  \/ (exists bufs w', fill_bufs table core n (taken ++ rest) (w, g) = Some (Some bufs, (w', g))
     /\ length bufs = 64%nat /\ accounts w' (bufs ++ held) /\ w_ext w' = w_ext w
     /\ Forall (prepared (w_heap w')) bufs).
Proof.
  induction n as [|n IH]; intros taken rest w g held HS Hc Hg Hn Hl HA HP.
  { right. rewrite length_app in Hl. destruct rest; [|simpl in Hl; lia]. rewrite app_nil_r in *.
    exists taken, w. split_and!; try done. lia. }
  cbn [fill_bufs]. set (i := BURST_SIZE - Z.of_nat (Datatypes.S n)).
  assert (i = Z.of_nat (length taken)) as Ei by (unfold i, BURST_SIZE; lia).
  destruct (fill_buf_ok core i (taken ++ rest) w g (taken ++ held) HS Hc Hg ltac:(lia) HA)
    as [(w1 & HR & HA1 & Hex & Hx)|(m & w1 & HR & HA1 & Hx & Hpm & Hpa)];
    rewrite (mbind_run _ _ _ _ _ HR).
  { left. exists taken, w1. split; [done|]. split; [lia|done]. }
  assert (<[Z.to_nat i := m]> (taken ++ rest) = (taken ++ [m]) ++ drop 1 rest) as E.
  { rewrite Ei, Nat2Z.id. rewrite length_app in Hl. destruct rest as [|x rest]; [simpl in Hl; lia|].
    rewrite insert_app_r_alt, Nat.sub_diag by lia. simpl. by rewrite <- app_assoc. }
  rewrite E. edestruct (IH (taken ++ [m]) (drop 1 rest) w1 g held)
    as [(t & w2 & HR2 & Hl2 & HA2 & Hex2 & Hx2)|(bufs & w2 & HR2 & Hl2 & HA2 & Hx2 & HP2)]; try done.
  - rewrite length_app. simpl. lia.
  - rewrite <- E, length_insert. done.
  - eapply accounts_perm; [|exact HA1]. rewrite <- app_assoc. simpl. by rewrite Permutation_middle.
  - apply Forall_app. split; [|by apply Forall_singleton]. rewrite Forall_forall in HP |- *.
    intros a Ha. apply Hpa; [apply elem_of_app; by left|by apply HP].
  - left. exists t, w2. rewrite Hx2, Hx. done.
  - right. exists bufs, w2. rewrite Hx2, Hx. done.
Qed.
(** ** Releasing what was not sent *)

Lemma free_buf_ok core m w (g : send_globals) app :
  0 <= core -> accounts w (m :: app) -> prepared (w_heap w) m ->
  exists w', Send.on_memory (rte_pktmbuf_free table core ext_free m) (w, g) = Some (tt, (w', g))
    /\ accounts w' app /\ w_ext w' = w_ext w
    /\ forall a, a ∈ app -> prepared (w_heap w) a -> prepared (w_heap w') a.
Proof.
  intros Hc (p & Hp & I & HU & HR) [(b & Hb & Hnx & _) _ _].
  assert (m ∈ universe) as Hmu by (eapply in_universe; [exact HU|right; by left]).
  pose proof (proj1 (Forall_forall _ _) HR m Hmu) as [Hn (b0 & Hb0 & Hpl & _ & Hd & Hr & _) _ _].
  assert (b0 = b) as -> by congruence.
  set (n := Z.of_nat (length (owned (w_ext w) ++ m :: app))) in *.
  assert (n = Z.of_nat (length (owned (w_ext w) ++ app)) + 1) as En
    by (unfold n; rewrite !length_app; simpl; lia).
  destruct (free_one table o core Hc ext_free n mp p (w_heap w) m b Hp I ltac:(lia) Hb Hpl Hd Hr Hnx Hn)
    as (p' & HF & Hf & I').
  eexists. split; [by apply (send_memory_run _ w g tt _ HF)|]. split; [|split; [done|]].
  - exists p'. simpl. split; [apply lookup_insert_eq|]. split; [|split].
    + by replace (Z.of_nat (length (owned (w_ext w) ++ app))) with (n - 1) by lia.
    + rewrite HU, Hf. simpl. rewrite (assoc_L (++)), <- Permutation_middle. by rewrite (assoc_L (++)).
    + rewrite Forall_forall in HR |- *. intros a Ha.
      destruct (HR a Ha) as [Hna (ba & Hba & HP) Hadr Hby]. split; try done.
      destruct (decide (a = m)) as [->|].
      * exists (released b). simpl. rewrite lookup_insert_eq. assert (ba = b) as -> by congruence.
        destruct HP as (? & ? & ? & ? & ?). done.
      * exists ba. simpl. by rewrite lookup_insert_ne.
  - intros a Ha [(ba & Hba & HP) Hi Hv]. split; try done. exists ba. simpl.
    rewrite lookup_insert_ne; [done|]. intros <-.
    pose proof Huniv as Hnd. rewrite HU in Hnd. apply NoDup_app in Hnd as (_ & _ & Hnd).
    apply NoDup_app in Hnd as (_ & _ & Hnd). by apply NoDup_cons in Hnd as [? _].
Qed.

Lemma free_bufs_ok core from bufs ms : forall j w (g : send_globals) held,
  0 <= core -> 0 <= from ->
  (forall i m, ms !! i = Some m -> bufs !! (Z.to_nat from + (j + i))%nat = Some m) ->
  accounts w (ms ++ held) -> Forall (prepared (w_heap w)) ms ->
  exists w', mfor (seq j (length ms)) (fun i =>
      m ← lift (aget bufs (from + Z.of_nat i)) ;
      Send.on_memory (rte_pktmbuf_free table core ext_free m)) (w, g) = Some (tt, (w', g))
    /\ accounts w' held /\ w_ext w' = w_ext w.
Proof.
  induction ms as [|m ms IH]; intros j w g held Hc Hfr Hb HA HP; [by exists w|].
  apply Forall_cons in HP as [Hm HP].
  destruct (free_buf_ok core m w g (ms ++ held) Hc HA Hm) as (w1 & HR & HA1 & Hx & Hk).
  destruct (IH (Datatypes.S j) w1 g held) as (w2 & HR2 & HA2 & Hx2); try done.
  - intros i m' Hi. rewrite Nat.add_succ_comm. by apply Hb.
  - rewrite Forall_forall in HP |- *. intros a Ha. apply Hk; [apply elem_of_app; by left|by apply HP].
  - exists w2. rewrite Hx2. split; [|done]. cbn [length seq mfor].
    assert (aget bufs (from + Z.of_nat j) = Some m) as Eg.
    { apply aget_lookup. split; [lia|]. specialize (Hb 0%nat m eq_refl).
      replace (Z.to_nat (from + Z.of_nat j)) with (Z.to_nat from + (j + 0))%nat by lia. done. }
    rewrite (mbind_run _ _ (w, g) tt (w1, g)); [exact HR2|]. rewrite Eg.
    by rewrite (mbind_run _ _ (w, g) m (w, g)).
Qed.

(** ** A round *)

(** The counters after a round that sent [k] packets. *)
Definition counted (core k : Z) (g : send_globals) : send_globals :=
  mk_send_globals (mbuf_pool g) (alter (fun t => u32 (t + k)) (Z.to_nat core) (total_num g))
    (alter (fun b => u32 (b + 1)) (Z.to_nat core) (burst_num g)).

Definition counters_ok (g : send_globals) : Prop :=
  length (total_num g) = 40%nat /\ length (burst_num g) = 40%nat /\ mbuf_pool g = mp.

Lemma count_burst_run core k w g :
  0 <= core < MAX_CORES -> counters_ok g ->
  count_burst core k (w, g) = Some (tt, (w, counted core k g)).
Proof.
  unfold MAX_CORES. intros Hc (Ht & Hb & _). unfold count_burst.
  rewrite (mbind_run (gets snd) _ _ g (w, g)) by done.
  destruct (lookup_lt_is_Some_2 (total_num g) (Z.to_nat core)) as [t Et]; [lia|].
  destruct (lookup_lt_is_Some_2 (burst_num g) (Z.to_nat core)) as [b Eb]; [lia|].
  rewrite (proj2 (aget_lookup (total_num g) core t)) by (split; [lia|done]).
  rewrite (mbind_run _ _ (w, g) t (w, g)) by done. rewrite aset_ok by lia.
  rewrite (mbind_run _ _ (w, g) _ (w, g)) by done.
  rewrite (proj2 (aget_lookup (burst_num g) core b)) by (split; [lia|done]).
  rewrite (mbind_run _ _ (w, g) b (w, g)) by done. rewrite aset_ok by lia.
  rewrite (mbind_run _ _ (w, g) _ (w, g)) by done.
  unfold counted, modify. do 4 f_equal.
  - apply list_eq. intros i. destruct (decide (i = Z.to_nat core)) as [->|].
    + rewrite list_lookup_insert_eq, list_lookup_alter_eq, Et by lia. done.
    + by rewrite list_lookup_insert_ne, list_lookup_alter_ne.
  - apply list_eq. intros i. destruct (decide (i = Z.to_nat core)) as [->|].
    + rewrite list_lookup_insert_eq, list_lookup_alter_eq, Eb by lia. done.
    + by rewrite list_lookup_insert_ne, list_lookup_alter_ne.
Qed.

Lemma counted_ok core k g : counters_ok g -> counters_ok (counted core k g).
Proof. intros (H1 & H2 & H3). split; [|split; [|done]]; simpl; by rewrite length_alter. Qed.

Lemma frames_prepared h l :
  Forall (ready h) universe -> (forall a, a ∈ l -> a ∈ universe) -> Forall (prepared h) l ->
  map (frame h) l = replicate (length l) the_frame.
Proof.
  intros HR Hl. induction 1 as [|a l Ha HP IH]; [done|]. simpl. f_equal.
  - apply frame_prepared; [|done]. rewrite Forall_forall in HR. apply HR, Hl. by left.
  - apply IH. intros x Hx. apply Hl. by right.
Qed.

Lemma round_run port q core w g bufs held `{LawfulNic (u16 port) (u16 q)} :
  separate -> 0 <= core < MAX_CORES -> counters_ok g -> length bufs = 64%nat -> accounts w held ->
  (exists k bufs' w', send_round table ext_free fp_ops call_tx core port q bufs (w, g)
      = Some (Some bufs', (w', counted core k g))
     /\ 0 <= k <= 64 /\ length bufs' = 64%nat /\ accounts w' held
     /\ wire (w_ext w') = wire (w_ext w) ++ replicate (Z.to_nat k) the_frame)
  \/ (exists leaked w', send_round table ext_free fp_ops call_tx core port q bufs (w, g)
      = Some (None, (w', g))
     /\ (length leaked < 64)%nat /\ accounts w' (leaked ++ held) /\ exhausted w'
     /\ wire (w_ext w') = wire (w_ext w)).
Proof.
  intros HS Hc Hg Hl HA. unfold send_round.
  destruct (fill_bufs_ok core 64 [] bufs w g held HS ltac:(lia) ltac:(apply Hg) eq_refl Hl HA)
    as [(lk & w1 & HR & Hlk & HA1 & Hex & Hx)|(b1 & w1 & HR & Hl1 & HA1 & Hx & HP)]; [constructor| |];
    change (Z.to_nat BURST_SIZE) with 64%nat; rewrite (mbind_run _ _ _ _ _ HR).
  { right. exists lk, w1. by rewrite Hx. }
  left. destruct (nic_law w1 b1 held HA1 HP) as (k & w2 & HT & Hk & HA2 & HP2 & Hw).
  rewrite Hl1 in HT, Hk. change (Z.of_nat 64) with BURST_SIZE in HT.
  assert (Send.on_world (rte_eth_tx_burst fp_ops call_tx (u16 port) (u16 q) b1 BURST_SIZE) (w1, g)
          = Some (k, b1, (w2, g))) as HT' by (unfold Send.on_world; simpl; by rewrite HT).
  rewrite (mbind_run _ _ _ _ _ HT').
  assert (wire (w_ext w2) = wire (w_ext w) ++ replicate (Z.to_nat k) the_frame) as Hwire.
  { rewrite Hw, Hx. f_equal. destruct HA1 as (p1 & _ & _ & HU & HRd).
    rewrite (frames_prepared _ _ HRd).
    - rewrite length_take, Nat.min_l by lia. done.
    - intros a Ha. eapply in_universe; [exact HU|]. right. apply elem_of_app. left.
      apply elem_of_take in Ha as (i & Hi & _). by eapply list_elem_of_lookup_2.
    - by apply Forall_take. }
  assert (length (drop (Z.to_nat k) b1) = Z.to_nat (BURST_SIZE - k)) as Hld
    by (rewrite length_drop; unfold BURST_SIZE; lia).
  destruct (free_bufs_ok core k b1 (drop (Z.to_nat k) b1) 0 w2 g held) as (w3 & HF & HA3 & Hx3);
    [lia|lia| |done|done|].
  { intros i m Hi. rewrite lookup_drop in Hi. done. }
  exists k, b1, w3. split; [|rewrite Hx3; split; [simpl in Hk; lia|done]].
  assert ((if k <? BURST_SIZE then free_bufs table ext_free core k (Z.to_nat (BURST_SIZE - k)) b1
           else mret tt) (w2, g) = Some (tt, (w3, g))) as HF'.
  { destruct (Z.ltb_spec k BURST_SIZE).
    - unfold free_bufs. by rewrite <- Hld.
    - replace (Z.to_nat (BURST_SIZE - k)) with 0%nat in Hld by (unfold BURST_SIZE in *; lia).
      rewrite Hld in HF. exact HF. }
  rewrite (mbind_run _ _ _ _ _ HF').
  by rewrite (mbind_run _ _ _ _ _ (count_burst_run core k w3 g Hc Hg)).
Qed.
(** C5. One round of the sender on an lcore numbered below 40 (the size of the
    arrays of counters), from a state in which every mbuf is free, held by the
    device or held by the program: either 64 mbufs are allocated and written, the
    device transmits the [k] first and the others are released, so that the
    program holds what it held before, the wire has [k] more copies of the fixed
    packet and the counters of this lcore have advanced; or the process returns
    -1 with the common pool of the mempool exhausted (what is free is in caches
    of lcores), nothing is sent, and the fewer than 64 mbufs allocated before are
    lost. *)
Theorem send_round_ok (port q core : Z) (w : world P X) (g : send_globals)
    (bufs held : list Z) `{LawfulNic (u16 port) (u16 q)} :
  separate -> 0 <= core < MAX_CORES -> counters_ok g -> length bufs = 64%nat -> accounts w held ->
  (exists k bufs' w', send_round table ext_free fp_ops call_tx core port q bufs (w, g)
      = Some (Some bufs', (w', counted core k g))
     /\ 0 <= k <= 64 /\ length bufs' = 64%nat /\ accounts w' held
     /\ wire (w_ext w') = wire (w_ext w) ++ replicate (Z.to_nat k) the_frame)
  \/ (exists leaked w', send_round table ext_free fp_ops call_tx core port q bufs (w, g)
      = Some (None, (w', g))
     /\ (length leaked < 64)%nat /\ accounts w' (leaked ++ held) /\ exhausted w'
     /\ wire (w_ext w') = wire (w_ext w)).
Proof. exact (round_run port q core w g bufs held). Qed.

(** ** The lcores together *)

Definition sum_counts (l : list Z) : Z := foldr Z.add 0 l.

Lemma sum_counts_alter f i l x :
  l !! i = Some x -> sum_counts (alter f i l) = sum_counts l + (f x - x).
Proof.
  revert i. induction l as [|y l IH]; intros [|i] Hi; simpl in *; simplify_eq; [lia|].
  change (list_alter f i l) with (alter f i l). rewrite (IH _ Hi). lia.
Qed.

Definition returned (ls : list lcore) : nat := length (filter (fun c => lc_running c = false) ls).

Lemma returned_insert ls i c c' :
  ls !! i = Some c -> lc_running c = true ->
  returned (<[i := c']> ls) = (returned ls + if lc_running c' then 0 else 1)%nat.
Proof.
  unfold returned. revert i. induction ls as [|y ls IH]; intros [|i] Hi Hc; simpl in *; simplify_eq.
  - rewrite (filter_cons_False _ c) by congruence.
    destruct (lc_running c') eqn:E; [rewrite filter_cons_False by congruence; lia|].
    rewrite filter_cons_True by done. simpl. lia.
  - change (list_insert i c' ls) with (<[i := c']> ls).
    destruct (decide (lc_running y = false)).
    + rewrite !(filter_cons_True _ y) by done. simpl. rewrite (IH i Hi Hc). lia.
    + rewrite !(filter_cons_False _ y) by done. by apply IH.
Qed.

(** A state of the system, with [n] packets sent since the beginning. *)
Record sys_ok (wire0 : list (list Z)) (qs : list Z) (st : state * list lcore) : Prop := {
  so_held : exists held, accounts st.1.1 held
    /\ Z.of_nat (length held) <= 63 * Z.of_nat (returned st.2);
  so_count : counters_ok st.1.2;
  so_wire : exists n, wire (w_ext st.1.1) = wire0 ++ replicate n the_frame
    /\ u32 (sum_counts (total_num st.1.2)) = u32 (Z.of_nat n);
  so_lcores : forall i c, st.2 !! i = Some c ->
    0 <= lc_id c < MAX_CORES /\ lc_queue c ∈ qs /\ length (lc_bufs c) = 64%nat
}.

Section system.
Context (port : Z) (qs : list Z) (Hnic : forall q, q ∈ qs -> LawfulNic (u16 port) (u16 q)).
Context (HS : separate).

Local Abbreviation step := (sys_step table ext_free fp_ops call_tx port).

Lemma sum_counted core k g n :
  0 <= core < MAX_CORES -> counters_ok g -> 0 <= k ->
  u32 (sum_counts (total_num g)) = u32 (Z.of_nat n) ->
  u32 (sum_counts (total_num (counted core k g))) = u32 (Z.of_nat (n + Z.to_nat k)).
Proof.
  unfold MAX_CORES. intros Hc (Ht & _) Hk E.
  destruct (lookup_lt_is_Some_2 (total_num g) (Z.to_nat core)) as [t Et]; [lia|].
  simpl. rewrite (sum_counts_alter _ _ _ _ Et).
  replace (sum_counts (total_num g) + (u32 (t + k) - t))
    with (sum_counts (total_num g) - t + u32 (t + k)) by lia.
  rewrite wrap_add_r. replace (sum_counts (total_num g) - t + (t + k))
    with (sum_counts (total_num g) + k) by lia.
  rewrite <- wrap_add_l, E, wrap_add_l. f_equal. lia.
Qed.

Lemma lcores_ok_insert (ls : list lcore) (i : nat) (c c' : lcore) :
  (forall j d, ls !! j = Some d ->
    0 <= lc_id d < MAX_CORES /\ lc_queue d ∈ qs /\ length (lc_bufs d) = 64%nat) ->
  ls !! i = Some c -> lc_id c' = lc_id c -> lc_queue c' = lc_queue c -> length (lc_bufs c') = 64%nat ->
  forall j d, <[i := c']> ls !! j = Some d ->
    0 <= lc_id d < MAX_CORES /\ lc_queue d ∈ qs /\ length (lc_bufs d) = 64%nat.
Proof.
  intros Hls Hi E1 E2 El j d Hj. destruct (decide (i = j)) as [<-|Hne].
  - rewrite list_lookup_insert_eq in Hj by (by eapply lookup_lt_Some). simplify_eq.
    destruct (Hls i c Hi) as (? & ? & _). rewrite E1, E2. done.
  - rewrite list_lookup_insert_ne in Hj by done. by eapply Hls.
Qed.

Lemma sys_step_ok wire0 st st' : sys_ok wire0 qs st -> step st st' -> sys_ok wire0 qs st'.
Proof.
  intros [(held & HA & Hh) Hg (n & Hw & Hn) Hls] Hst.
  inversion Hst as [s s' ls i c bufs Hi Hrun HR|s s' ls i c Hi Hrun HR]; subst;
    destruct s as [w g]; simpl in *; destruct (Hls i c Hi) as (Hid & Hq & Hlen);
    pose proof (Hnic _ Hq) as Hlaw;
    destruct (round_run port (lc_queue c) (lc_id c) w g (lc_bufs c) held HS Hid Hg Hlen HA)
      as [(k & b' & w' & HR' & Hk & Hl' & HA' & Hw')|(lk & w' & HR' & Hlk & HA' & _ & Hw')];
    rewrite HR in HR'; simplify_eq.
  - split; simpl.
    + exists held. split; [done|]. rewrite (returned_insert ls i c) by done. simpl. lia.
    + by apply counted_ok.
    + exists (n + Z.to_nat k)%nat. rewrite Hw', Hw, replicate_add, app_assoc. split; [done|].
      apply sum_counted; [done|done|lia|done].
    + by eapply lcores_ok_insert.
  - split; simpl.
    + exists (lk ++ held). split; [done|]. rewrite (returned_insert ls i c) by done.
      rewrite length_app. simpl. lia.
    + done.
    + exists n. by rewrite Hw'.
    + by eapply lcores_ok_insert.
Qed.

(** C1. The sender on any number of lcores numbered below 40 (the size of the
    arrays of counters; a larger number indexes them out of bounds), whose rounds
    interleave in any order, each round as one step: in every reachable state each
    mbuf of the pool is free, held by the device or lost, at most 63 are lost for
    each lcore that has returned and none otherwise; the wire carries only copies of the fixed packet, and the
    counters of the lcores add up to their number modulo 2^32; and an lcore
    that has not returned can always do its next round. *)
Theorem send_system_safe (wire0 : list (list Z)) (st0 st : state * list lcore) :
  sys_ok wire0 qs st0 -> rtc step st0 st ->
  sys_ok wire0 qs st
  /\ forall i c, st.2 !! i = Some c -> lc_running c = true -> exists st', step st st'.
Proof.
  intros H0 Hr. assert (sys_ok wire0 qs st) as Hok.
  { induction Hr as [st|st st1 st2 Hs _ IH]; [done|]. apply IH. by eapply sys_step_ok. }
  split; [done|]. intros i c Hi Hrun. destruct st as [[w g] ls].
  destruct Hok as [(held & HA & Hh) Hg _ Hls]. simpl in *. destruct (Hls i c Hi) as (Hid & Hq & Hlen).
  pose proof (Hnic _ Hq) as Hlaw.
  destruct (round_run port (lc_queue c) (lc_id c) w g (lc_bufs c) held HS Hid Hg Hlen HA)
    as [(k & b' & w' & HR & _)|(lk & w' & HR & _)].
  - eexists. by eapply step_round.
  - eexists. by eapply step_return.
Qed.
End system.
End spec.

(** ** The configuration of the lcores *)

(** [main] gives the lcores the queues by their number: an lcore below the
    number of lcores gets the queue of its own number, so no two share one, and
    an lcore numbered at or above it (the numbers need not be contiguous) reads
    past the end of the vector, before its first packet. *)
Theorem send_queue_of_core (n portid core : Z) :
  0 < n -> 0 <= core ->
  aget (queues (make_config n n portid)) core = if core <? n then Some core else None.
Proof.
  intros Hn Hc. unfold make_config, aget. simpl. rewrite (proj2 (Z.leb_le 0 core)) by lia.
  destruct (Z.ltb_spec core n).
  - rewrite list_lookup_fmap, lookup_seq_lt by lia. simpl. f_equal.
    rewrite Z2Nat.id by lia. apply Z.mod_small. lia.
  - rewrite list_lookup_fmap, lookup_seq_ge by lia. done.
Qed.

Lemma send_queue_of_core_witness : aget (queues (make_config 4 4 0)) 6 = None.
Proof. exact (send_queue_of_core 4 0 6 ltac:(lia) ltac:(lia)). Defined.

(** What the two receivers make of a packet of the sender, when its eight
    bytes are at [a]: the words are 114 and 514; [main_pkt_recv] takes them as
    they are, while [main] exchanges their bytes and votes for the value
    33685504 in the cell 0, not for 514 in the cell 114. *)
Theorem send_to_receivers {P : Type} (h : heap P) (a : Z) :
  (forall i, (i < 8)%nat -> h_bytes h !! (a + Z.of_nat i) = the_frame !! i) ->
  load32 (pkt_idx a) h = Some (114, h) /\ load32 (pkt_value a) h = Some (514, h)
  /\ Z.rem (i32 (ntohl 114)) ARRAY_SIZE = 0 /\ i32 (ntohl 514) = 33685504.
Proof.
  intros Hb. unfold pkt_idx, pkt_value.
  split; [|split; [|split; vm_compute; reflexivity]]; apply load32_run; (split; [by split|]).
  - pose proof (Hb 0%nat ltac:(lia)) as H0. rewrite Z.add_0_r in H0.
    pose proof (Hb 1%nat ltac:(lia)) as H1. pose proof (Hb 2%nat ltac:(lia)) as H2.
    pose proof (Hb 3%nat ltac:(lia)) as H3. done.
  - pose proof (Hb 4%nat ltac:(lia)) as H4. pose proof (Hb 5%nat ltac:(lia)) as H5.
    pose proof (Hb 6%nat ltac:(lia)) as H6. pose proof (Hb 7%nat ltac:(lia)) as H7.
    replace (a + Z.of_nat 4) with (a + 4) in H4 by lia.
    replace (a + Z.of_nat 5) with (a + 4 + 1) in H5 by lia.
    replace (a + Z.of_nat 6) with (a + 4 + 2) in H6 by lia.
    replace (a + Z.of_nat 7) with (a + 4 + 3) in H7 by lia. done.
Qed.

Lemma send_to_receivers_witness :
  load32 (pkt_value 1000)
    (mk_heap (P := unit) ∅ ∅ ∅ ∅ ∅ (list_to_map (imap (fun i b => (1000 + Z.of_nat i, b)) the_frame)))
  = Some (514, mk_heap ∅ ∅ ∅ ∅ ∅ (list_to_map (imap (fun i b => (1000 + Z.of_nat i, b)) the_frame))).
Proof.
  apply (send_to_receivers _ 1000). intros i Hi.
  do 8 (destruct i as [|i]; [vm_compute; reflexivity|]). lia.
Defined.

(** ** An example device

    It holds the packets it has sent for ever and takes at most three at a
    time; the pool has 70 mbufs, 4000 bytes apart. *)
Definition demo_ext : Type := list Z * list (list Z).

Definition demo_send_tx (qd : Z) (pkts : list Z) (n : Z)
  : M (world (list Z) demo_ext) (Z * list Z) := fun w =>
  let k := Z.to_nat (Z.min 3 n) in
  let x := w_ext w in
  Some (Z.of_nat k, pkts,
        mk_world (w_heap w) (x.1 ++ take k pkts, x.2 ++ map (frame (w_heap w)) (take k pkts))
          (w_out w) (w_new w) (w_calls w)).

Definition demo_send_ops : rte_eth_fp_ops (world (list Z) demo_ext) :=
  mk_fp_ops (fun _ pkts _ => mret (0, pkts)) None None (mk_qdata [] [])
    demo_send_tx None None (mk_qdata [16; 24] [0; 0]).

Definition demo_universe : list Z := map (fun i => 10000 + 4000 * Z.of_nat i) (seq 0 70).
Definition demo_buf (a : Z) : Z := a + 128.

Definition demo_send_world : world (list Z) demo_ext :=
  mk_world
    (mk_heap (list_to_map (map demo_free demo_universe)) ∅
       {[64 := mk_mempool demo_universe 0 70 0 2304 24 0 8 0 [] 70]} ∅ ∅
       (list_to_map (concat (map (fun a =>
          map (fun i => (demo_buf a + 128 + Z.of_nat i, 0)) (seq 0 8)) demo_universe))))
    ([], []) [] 0 [].

Local Abbreviation demo_accounts :=
  (accounts (fun _ => fifo_ops) fifo_ops 64 demo_universe demo_buf (fun x : demo_ext => fst x)).

Lemma demo_universe_NoDup : NoDup demo_universe.
Proof. apply NoDup_fmap_2; [intros i j Hij; lia|apply NoDup_seq]. Qed.

Lemma demo_separate : separate demo_universe demo_buf.
Proof.
  intros a b Ha Hb Hne. apply list_elem_of_fmap in Ha as (i & -> & _).
  apply list_elem_of_fmap in Hb as (j & -> & _). unfold demo_buf. lia.
Qed.

(** [ready] as a computation. *)
Definition readyb (h : heap (list Z)) (a : Z) : bool :=
  negb (a =? NULL)
  && match h_mbufs h !! a with
     | Some b => (pool b =? 64) && (buf_addr b =? demo_buf a) && RTE_MBUF_DIRECT b
                 && (refcnt b =? 1) && (136 <=? buf_len b) && (buf_len b <? 2 ^ 16)
     | None => false
     end
  && (0 <=? demo_buf a) && (demo_buf a + 136 <? 2 ^ 64)
  && forallb (fun i => bool_decide (is_Some (h_bytes h !! (demo_buf a + 128 + Z.of_nat i)))) (seq 0 8).

Lemma readyb_ready h a : readyb h a = true -> ready 64 demo_buf h a.
Proof.
  unfold readyb. rewrite !andb_true_iff. intros ((((Hn & Hb) & H1) & H2) & Hm). split.
  - by apply negb_true_iff, Z.eqb_neq in Hn.
  - destruct (h_mbufs h !! a) as [b|] eqn:E; [|done]. exists b.
    rewrite !andb_true_iff, !Z.eqb_eq, Z.leb_le, Z.ltb_lt in Hb. by destruct_and!.
  - lia.
  - intros i Hi. rewrite forallb_forall in Hm. apply (bool_decide_unpack _).
    rewrite Hm; [done|]. apply in_seq. lia.
Qed.

Lemma demo_accounts_ok : demo_accounts demo_send_world [].
Proof.
  eexists. split; [vm_compute; reflexivity|]. split; [by split|].
  split; [by rewrite app_nil_r|].
  apply Forall_forall. intros a Ha. apply readyb_ready.
  assert (forallb (readyb (w_heap demo_send_world)) demo_universe = true) as Hb
    by (vm_compute; reflexivity).
  rewrite forallb_forall in Hb. apply Hb. by apply list_elem_of_In.
Qed.

#[refine] Instance demo_nic q (Hq : 0 <= q < 2) :
  LawfulNic (fun _ => fifo_ops) fifo_ops (fun _ => [demo_send_ops]) (fun _ _ p n _ => mret (n, p))
    64 demo_universe demo_buf (fun x : demo_ext => fst x) (fun x => snd x) 0 q := {}.
Proof.
  intros w bufs app (p & Hp & I & HU & HR) HP.
  set (k := Z.min 3 (Z.of_nat (length bufs))).
  assert (rte_eth_tx_burst (fun _ => [demo_send_ops]) (fun _ _ p n _ => mret (n, p)) 0 q bufs
            (Z.of_nat (length bufs)) w
          = demo_send_tx (if q =? 0 then 16 else 24) bufs (Z.of_nat (length bufs)) w) as ->.
  { assert (q = 0 \/ q = 1) as [-> | ->] by lia; reflexivity. }
  eexists _, _. split; [reflexivity|]. fold k. split; [lia|].
  rewrite !Nat2Z.id. split; [|split; [by apply Forall_drop|done]].
  exists p. simpl. split; [done|].
  assert (owned_perm : (w_ext w).1 ++ bufs ++ app
          = ((w_ext w).1 ++ take (Z.to_nat k) bufs) ++ drop (Z.to_nat k) bufs ++ app).
  { rewrite <- app_assoc. f_equal. by rewrite app_assoc, take_drop. }
  split; [by rewrite <- owned_perm|]. split; [by rewrite <- owned_perm|done].
Defined.

Definition demo_globals : send_globals := send_globals_init 64.

Lemma demo_counters : counters_ok 64 demo_globals.
Proof. done. Qed.

Lemma send_round_ok_witness :
  exists bufs' w', send_round (fun _ => fifo_ops) (fun _ _ _ => mret tt) (fun _ => [demo_send_ops])
      (fun _ _ p n _ => mret (n, p)) 0 0 1 (replicate 64 0) (demo_send_world, demo_globals)
    = Some (Some bufs', (w', counted 0 3 demo_globals))
    /\ demo_accounts w' [] /\ snd (w_ext w') = replicate 3 the_frame.
Proof.
  destruct (send_round_ok (fun _ => fifo_ops) fifo_ops (fun _ _ _ => mret tt)
    (fun _ => [demo_send_ops]) (fun _ _ p n _ => mret (n, p)) 64 demo_universe demo_buf
    (fun x : demo_ext => fst x) (fun x => snd x) demo_universe_NoDup 0 1 0 demo_send_world
    demo_globals (replicate 64 0) [] (H0 := demo_nic 1 ltac:(lia)) demo_separate ltac:(done)
    demo_counters eq_refl demo_accounts_ok)
    as [(k & b & w' & HR & Hk & _ & HA & Hw)|(lk & w' & HR & _)].
  - assert (Z.to_nat k = 3%nat) as Ek.
    { assert (length (snd (w_ext w')) = 3%nat) as E
        by exact (run_proj (fun r => length (snd (w_ext (fst (snd r))))) _ _ 3%nat HR
          ltac:(vm_compute; reflexivity)).
      change (snd (w_ext w') = [] ++ replicate (Z.to_nat k) the_frame) in Hw.
      rewrite Hw in E. by rewrite length_app, length_replicate in E. }
    assert (k = 3) as -> by lia. exists b, w'. split; [exact HR|]. split; [exact HA|exact Hw].
  - pose proof (run_proj (fun r => match fst r with Some _ => true | None => false end) _ _ true HR
      ltac:(vm_compute; reflexivity)) as E. discriminate E.
Defined.

Lemma send_system_safe_witness :
  exists st', sys_step (fun _ => fifo_ops) (fun _ _ _ => mret tt) (fun _ => [demo_send_ops])
    (fun _ _ p n _ => mret (n, p)) 0
    ((demo_send_world, demo_globals),
     [mk_lcore 0 0 (replicate 64 0) true; mk_lcore 1 1 (replicate 64 0) true]) st'.
Proof.
  set (st := ((demo_send_world, demo_globals),
     [mk_lcore 0 0 (replicate 64 0) true; mk_lcore 1 1 (replicate 64 0) true])).
  assert (forall q, q ∈ [0; 1] -> LawfulNic (fun _ => fifo_ops) fifo_ops (fun _ => [demo_send_ops])
    (fun _ _ p n _ => mret (n, p)) 64 demo_universe demo_buf (fun x : demo_ext => fst x)
    (fun x => snd x) (u16 0) (u16 q)) as Hnic.
  { intros q Hq. apply elem_of_cons in Hq as [->|Hq]; [exact (demo_nic 0 ltac:(lia))|].
    apply list_elem_of_singleton in Hq as ->. exact (demo_nic 1 ltac:(lia)). }
  destruct (send_system_safe (fun _ => fifo_ops) fifo_ops (fun _ _ _ => mret tt)
    (fun _ => [demo_send_ops]) (fun _ _ p n _ => mret (n, p)) 64 demo_universe demo_buf
    (fun x : demo_ext => fst x) (fun x => snd x) demo_universe_NoDup 0 [0; 1] Hnic demo_separate
    [] st st) as [_ Hstep].
  - split.
    + exists []. split; [exact demo_accounts_ok|simpl; lia].
    + exact demo_counters.
    + exists 0%nat. split; [done|]. vm_compute. reflexivity.
    + intros [|[|i]] c Hi; simpl in Hi; simplify_eq; simpl.
      * split; [done|]. split; [by left|done].
      * split; [done|]. split; [by right; left|done].
  - apply rtc_refl.
  - exact (Hstep 1%nat _ eq_refl eq_refl).
Defined.
